(* ===== verification/_CoqProject ===== *)
-Q . S2P
Prelude.v
Text.v
Paths.v
DirFs.v
RecoveryTypes.v
LedgerTaxonomy.v
Ledger.v
Protocol.v
Codec.v
LedgerDurability.v
LedgerLoad.v
PreviousBoot.v
PreCommit.v
SameBoot.v
Admission.v
Conversation.v
Login.v
Daemon.v
Client.v
AdminRecovery.v
WorkerRecord.v
Supervisor.v
SupervisorSafety.v
SupervisorExits.v
SupervisorLedger.v
SupervisorProtocol.v
Launch.v
LaunchSafety.v
RunningControl.v
Finalization.v
FinalizationSafety.v
Startup.v
Scenarios.v
Witnesses.v
WireRuns.v
LaunchSpec.v
SessionDiscovery.v
UserDiscovery.v
DiscoveryRuns.v
CgroupState.v
HostWorld.v
VtHolders.v
UnitPin.v
VtControl.v
LiveBoundary.v
SameBootRecovery.v
BootInspection.v
RecoveryTrace.v
SameBootRecoverySafety.v
TerminalSafety.v
LiveBoundarySafety.v
InspectionSafety.v
SupervisorRuns.v
RecoveryRuns.v
LaunchRuns.v
ScopeRelease.v
WorkerPam.v
PamDialogue.v
Ctl.v
DaemonStart.v
AdminSocket.v
DialogueRuns.v
WorkerIdentity.v
WorkerChild.v
WorkerWorld.v
WorkerScope.v
WorkerHistory.v
WorkerChildSafety.v
WorkerScopeSafety.v
WorkerResources.v
WorkerTermination.v
WorkerTerminationSafety.v
WorkerEnding.v
WorkerSession.v
WorkerSessionSafety.v
WorkerRuns.v
WorkerIo.v
ProcessFds.v
Backends.v
LoginRuns.v
