(* ===== verification/Prelude.v ===== *)
(** * Niralis: a verification library for the display-manager supervisor

    Niralis is a Linux display manager.  A daemon ([niralisd]) accepts logins;
    a supervisor ([niralis-session], [src/launcher]) admits one login per seat,
    starts a session worker, and keeps a durable record of every session so
    that a crash or a reboot never leaves a seat half-released.  The worker
    ([niralis-session-worker]) authenticates the user with PAM, confines a
    child of that user in a systemd scope, lets it execute the session, and
    gives everything back when the session ends.  The library models the
    supervisor (who may use the seat, what is written to disk and in which
    order, what a restart does with what it finds there), the way a login
    takes to it through the daemon, and the worker.

    ** The program and the files that model it

    Paths are under [src/crates/niralis-session/src] unless they name another
    crate.

    - [Prelude]: Rust's [Result], the state-and-error monad [SR] for methods
      that take [&mut self], [u64] and [u32] arithmetic, strings, and the
      tactics and hints the other files share.
    - [DirFs]: the calls of [std::fs] the two stores use, on one directory.
    - [RecoveryTypes]: the durable record and its operation ledger
      ([launcher/recovery/persistent.rs], [model.rs], [record.rs],
      [recovery_admin.rs]) and the boot identity.
    - [LedgerTaxonomy]: the invariants a record on disk must satisfy and the
      classification of a set of records ([persistent_taxonomy.rs],
      [persistent_record_set.rs]).
    - [Ledger]: [PersistentRecoveryLedger]: its operations and its loader
      ([persistent_storage.rs], [persistent_operations.rs],
      [persistent_validation.rs], [persistent_validation_helpers.rs]).
    - [Codec]: an executable serializer that satisfies the law assumed of
      [serde_json].
    - [LedgerDurability], [LedgerLoad]: the theorems about [Ledger].
    - [PreviousBoot]: epochs, facts about the current boot and the planner
      ([previous_boot_types.rs], [previous_boot_inspection.rs],
      [previous_boot_planner.rs]).
    - [PreCommit]: the store of logins that have not committed yet
      ([launcher/precommit_runtime]).
    - [SameBoot]: snapshots, permits and the typed finalization of a record of
      the running boot ([recovery_capabilities.rs], [recovery_transitions.rs],
      [recovery_proofs.rs], [recovery_finalization*.rs],
      [recovery_startup_finalization.rs], the runtime release of
      [startup_same_boot_support.rs]).
    - [Admission]: the seat controller with its leases and receipts
      ([launcher/supervisor_loop/admission.rs], [mod.rs], [construction.rs]).
    - [AdminRecovery]: the administrator's retry of a VT disallocation
      ([supervisor_loop/admin.rs], [admin_finalization.rs],
      [admin_support.rs], the trait of [recovery_admin_host/linux.rs]).
    - [Finalization], [FinalizationSafety]: the journal and the finalization of
      a record of an earlier boot, with its resumption
      ([previous_boot_finalization*.rs]).
    - [Startup]: opening the ledger and reconciling all of it
      ([startup.rs], [startup_support.rs], [startup_quarantine.rs],
      [startup_previous_boot.rs], [persistent_storage_journal.rs]).
    - [Protocol]: the greeter and PAM wire protocol and its shape checks
      ([niralis-protocol/src], [protocol/worker_messages/foundations.rs]).
    - [Conversation]: the authority over a PAM conversation and the relay
      between worker and greeter ([pam_conversation.rs], [pam_wire.rs],
      [launcher/pam_prompt.rs]).
    - [Login]: the login transaction from reservation to commit
      ([launcher/login_transaction.rs], [reserve_seat] of
      [supervisor_loop/pending.rs]).
    - [Daemon]: rate limit, table of open logins and request handler
      ([niralisd/src/handler]).
    - [Client]: framing, connection identity and the loop that serves one
      greeter ([niralisd/src/server/client_protocol.rs],
      [connection_generation.rs]).
    - [Text], [Paths]: the string methods and the path methods of Rust's
      library that discovery and validation use.
    - [LaunchSpec]: the [Exec] parser and the search for executables
      ([niralis-discovery/src/sessions/launch.rs]).
    - [SessionDiscovery]: desktop entries, the trust in their files, listing
      and resolution ([sessions/desktop_entry.rs], [trust.rs], [discovery.rs],
      [mod.rs]).
    - [UserDiscovery]: the accounts a greeter is offered ([users/filter.rs],
      [nss.rs], [mod.rs]), and the login over the discovered directories.
    - [WorkerRecord]: the supervisor's record of one worker, the fresh durable
      record and the emergency recovery ([recovery/record.rs],
      [recovery/coordinator.rs], [recovery/boundary.rs]).
    - [Supervisor]: the message loop: launches, release of a payload,
      registration, reaping, terminal VT reports, shutdown
      ([launcher/supervisor_loop], [supervisor_shutdown.rs], [contracts.rs]).
    - [SupervisorSafety], [SupervisorExits], [SupervisorLedger],
      [SupervisorProtocol]: the theorems about it.
    - [Launch], [LaunchSafety]: one launch, from the granted seat to the
      registration or the abort ([launch_protocol.rs],
      [launch_completion.rs], [contracts/guards.rs], [supervisor_api.rs]).
    - [RunningControl]: the control connection of a running worker
      ([supervisor_loop/running_control.rs]).
    - [CgroupState]: whether a control group is empty
      ([recovery/cgroup_state.rs]).
    - [HostWorld]: the machine a recovery talks to, the D-Bus calls, the owner
      watches and the identity of a process ([systemd_dbus.rs],
      [logind_identity.rs], [logind_cleanup.rs], [owner_watch*.rs],
      [startup_process.rs], [cgroup_observer.rs]).
    - [VtHolders]: who holds a busy terminal ([vt_busy*.rs]).
    - [BootInspection]: the Linux host that tells the planner about the current
      boot ([previous_boot_linux_*.rs]) and the one of an administrator's retry
      ([recovery_admin_host/linux.rs], [vt_admin_effects.rs]).
    - [UnitPin]: the reference on a payload's unit and the units no record
      explains ([systemd_pin.rs], [systemd_rehydrate.rs],
      [unknown_scope.rs]).
    - [VtControl]: the terminal, and the adapters that act with a validated
      target ([vt.rs], [vt_verification.rs], [vt_recovery_effects.rs],
      [logind_recovery_effects.rs]).
    - [LiveBoundary]: the provider of a running supervisor ([boundary.rs],
      [boundary_proof.rs], [systemd_pin_live.rs], [linux_provider.rs]).
    - [SameBootRecovery]: the recovery of one record of the running boot, and
      with it the provider of startup ([startup_same_boot*.rs],
      [startup_absent_boundary.rs], [startup_vt_recovery.rs],
      [startup_linux.rs]).
    - [RecoveryTrace], [SameBootRecoverySafety], [TerminalSafety],
      [LiveBoundarySafety], [InspectionSafety]: the theorems about these.
    - [DiscoveryRuns], [SupervisorRuns], [LaunchRuns], [RecoveryRuns]:
      runs and witnesses of these parts.

    The worker is the crate [niralis-session-worker]; the paths of its files
    are under its [src].

    - [WorkerIdentity]: who the user is and what a process of theirs may hold:
      NSS lookups, groups, the drop of privileges, the isolation policy and
      its audit, the SELinux context, logind and the runtime directory
      ([identity], [privilege_drop], [isolation], [selinux.rs], [logind.rs],
      [smoke.rs], [SessionExecPlan] of [niralis-session]).
    - [WorkerChild]: the session child, the probe it becomes and the report
      the worker checks ([session_child], [bin/niralis-session-probe]).
    - [WorkerWorld]: the machine of a worker, the clock, the log of its acts
      and what it holds: child, PAM transaction, terminal, reference.
    - [WorkerScope]: the payload's systemd scope, from its creation to the
      proof that it is empty ([payload_scope]).
    - [WorkerResources]: the PAM transaction ([niralis-auth/src/pam_native])
      and the virtual terminal ([vt]).
    - [WorkerTermination]: the wait for a session, its graceful and forced
      ending and the finalization ([termination], [runtime/wait],
      [runtime/lifecycle], [runtime/terminal_vt_report.rs]).
    - [WorkerSession]: the run of the worker from its first message
      ([runtime/entrypoint.rs], [runtime/pam_session*],
      [runtime/supervisor_ack.rs], [runtime/scope_release.rs]).
    - [WorkerHistory], [WorkerChildSafety], [WorkerScopeSafety],
      [WorkerTerminationSafety], [WorkerEnding], [WorkerSessionSafety]: the
      theorems about these; [WorkerRuns]: a login that runs end to end, and
      their witnesses.

    The way of a login from its two ends, and the start of the daemon:

    - [WorkerPam]: the callback libpam calls for its messages and the driver
      that asks the launcher ([niralis-auth/src/conversation.rs],
      [pam_native/conversation.rs], [runtime/pam_conversation.rs] of the
      worker).  [PamConversationDriver] is the interface between them.
    - [PamDialogue]: the worker's driver, the launcher's relay and the daemon's
      transport put together ([SocketPamConversation] of
      [niralisd/src/server/client_protocol.rs]).
    - [Ctl]: the command-line client of a login ([niralisctl/src/main]).
    - [DaemonStart]: configuration, backends, trust in the executables, the
      greeter's account and its socket ([niralisd/src/config.rs], [main.rs],
      [login_backend.rs], [session_launcher/build_trust.rs],
      [server/socket_nss.rs]).
    - [AdminSocket]: the socket of the recovery administration and the client's
      commands ([niralisd/src/server/recovery_admin.rs],
      [niralisctl/src/main/commands.rs]).
    - [DialogueRuns]: runs and witnesses of these.

    What lies between the processes:

    - [ScopeRelease]: the launcher's own check that a payload scope is released
      ([scope_release/verifier.rs], [observation.rs]).
    - [WorkerIo]: the lines between launcher, worker and session child and the
      thread that reads them ([worker_io.rs], [worker_attempt/io_wait.rs],
      [session_child/handshake.rs] of the worker).
    - [ProcessFds]: the descriptors a worker and its child are started with, the
      channel a worker inherits and the status pipe of the exec
      ([worker_attempt/process/spawn.rs], [runtime/channels/inherited.rs] and
      [session_child/spawn.rs] of the worker).
    - [Backends]: the login backends and the launchers they use, down to the
      supervisor loop ([niralisd/src/login_backend], [types.rs], [mock.rs],
      [launcher/interface_tests_helpers.rs], [public_api.rs]).
    - [LoginRuns]: runs and witnesses of these, a login that runs through all
      of them among them.
    - [Scenarios], [Witnesses], [WireRuns]: concrete runs, and every theorem with
      hypotheses applied to an input where they hold.

    ** How the parts interact

    A greeter's request arrives on a connection ([Client]), passes the handler
    ([Daemon]) and becomes a login transaction ([Login]).  It reserves the seat
    ([Admission.reserve]), writes a pre-commit record
    ([PreCommit.create_reserved]), and from the prepared payload on keeps a ledger
    record ([Ledger.create]).  The launch talks to the worker ([Launch]) and to
    the supervisor loop ([Supervisor.handle_message]), which watches the worker
    until its exit is settled.  The worker ([WorkerSession.run_pam_session])
    registers the scope of its payload with that launch before it commits the
    session, and reports the release of its terminal to the loop.  Each step of a cleanup is announced in the ledger
    before it is taken and confirmed after it.  A restart opens the ledger
    ([Startup.open_locked]), classifies every record by the boot that wrote it
    ([PreviousBoot.RecoveryRecordEpoch_classify]), and either finalizes it
    ([Finalization], for history; the provider of one same-boot record
    otherwise) or quarantines its seat.  The verdict
    ([Admission.recovery_admission_state]) is what [reserve] consults.

    ** State, errors and failures

    A method is a function from a state to a state and a result, so a failing
    method still shows what it left behind.  Every call of [std::fs] consumes
    one entry of the fault schedule [dir_faults] and fails if the entry says
    so; a failed [write_all] leaves a prefix.  A theorem that holds for every
    schedule therefore holds for every I/O error, and for a stop of the
    process at any of these calls, because an error leaves the routine at
    once.  Inode numbers come from an arbitrary allocator.

    Code that is not in the repository is a parameter.  [serde_json] is the
    class [SerdeJson] with the round-trip law; [current_boot_id()] and the
    inspections of D-Bus, cgroups, [/proc] and VTs are arguments ([boot], the
    host records).  A host that is asked several times is a function of the
    number of the question where the answers may differ.  In the recovery of a
    running boot ([HostWorld.RecoveryWorld]) every question and every act is a
    moment of a clock, the machine is a function from moments to answers, and
    the log of acts keeps for each the ledger it was done under; so a theorem
    for every machine covers every interleaving with what others do to it.
    The provider that reconciles one same-boot record is the trait object of
    the source; the theorems of [Startup] assume [provider_local], that it
    leaves other records and quarantines alone, which
    [linux_provider_is_local] proves of the Linux one.

    ** What the theorems show

    - Durability ([LedgerDurability], [LedgerLoad]): a commit is atomic under
      any failure; a record in memory has a complete file behind it, except a
      resolved one whose file was unlinked and the unlink not synced; only a resolved record is removed; the loader accepts exactly the safe
      and consistent files and quarantines otherwise.
    - Classification ([LedgerTaxonomy], [PreviousBoot]): the validator, the
      record-set classifier and the planner are equivalent to declarative
      conditions.
    - Historical finalization ([FinalizationSafety]): nothing historical is
      replayed, the quarantine is lifted only once the record is gone, and a
      restart frees a seat only on a durable receipt.
    - Capabilities ([SameBoot], [PreCommit], [AdminRecovery]): a permit exists
      only after its intent is durable; a binding is good for one change; a
      worker receives at most one SIGTERM and one SIGKILL; the administrative
      ioctl happens at most once, after its intent is on disk.
    - Admission ([Admission]): the controller refines the abstract life of a
      seat, a reservation is exclusive, and a lease of an earlier generation is
      refused.
    - Startup ([Startup]): every record is accounted for, and a historical
      record that survives keeps its seat quarantined.
    - Logins ([Client], [Daemon], [Conversation], [Login]): a connection is
      served to its end and acts only on its own, fresh requests; guessing is
      bounded by the rate limit; the PAM relay is lock-step and live; commit and
      cancellation of a launch have one winner; an authenticated login commits
      its seat.
    - Discovery ([LaunchSpec], [SessionDiscovery], [UserDiscovery]): the [Exec]
      parser is equivalent to a grammar and inverts quoting; a listed session
      comes from a trusted file, a launched one is listed; the users are
      exactly those the policy offers.
    - Supervisor loop ([SupervisorSafety], [SupervisorExits],
      [SupervisorLedger], [SupervisorProtocol], [RunningControl]): the seat
      runs a session exactly while its worker is supervised; an exit, an abort
      or a registration changes the seat only after the durable steps before
      it; the records it keeps load again; the loops end.
    - Launch ([LaunchSafety]): whatever the worker says and when it stops, the
      launch hands the seat on or gives it back, as long as the supervisor
      thread answers and the files of the pre-commit store can be removed.
    - Machine ([CgroupState], [SameBootRecoverySafety], [TerminalSafety],
      [LiveBoundarySafety]): a boundary is called vacant exactly when its tree
      is; a recovery signals the surviving worker and cleans up in a fixed order
      (only the unit's reference may be given back a second time), each act
      under an intent on disk, is local to its record, frees a seat only after the tree showed the boundary
      vacant and gives a terminal up only after the previous one was active;
      the supervisor frees a seat only after the machine showed the payload
      gone, kills a payload at most once, and writes records that a recovery
      finds again.
    - Inspection ([InspectionSafety]): the report on a busy terminal says what
      was seen, each verdict with what it stands for; a record of an earlier
      boot is resolved, and a terminal retried, only on a machine that showed
      nothing left of the session and nobody at the terminal.
    - Worker, launch ([WorkerIdentity], [WorkerChildSafety],
      [WorkerScopeSafety], [WorkerSessionSafety]): privileges are dropped in
      order and verified; the probe runs confined, a report that is accepted
      says so, and it executes the session only after the commit; a scope that
      is handed out holds the payload alone, one that could not be made is
      stopped; the commit follows the supervisor's acknowledgement, the
      announcement follows the exec; both ends of the control channel agree.
    - Worker, ending ([WorkerEnding], [WorkerSessionSafety]): the payload gets
      at most a SIGTERM and then a SIGKILL, never with the worker inside the
      group; unit, PAM and terminal are given back in this order and only
      after the proof that the scope is empty.  The terminal is released under
      an acknowledged intent, except when PAM does not close or an intent is
      refused: then it is released as the worker returns.  A worker that
      returns holds nothing, and its child was killed or had ended; one that
      waits holds everything.
    - Conversation ([WorkerPam], [PamDialogue], [Ctl]): the PAM callback agrees
      with a strict conversation; driver, relay and transport refine one
      abstract dialogue in which every answer belongs to its question, and
      which opens only for the seat of the login; one callback answered by
      the client succeeds when nothing on the way fails.
    - Start ([DaemonStart], [AdminSocket]): the greeter's socket is at no moment
      open to others; PAM runs only over trusted executables; the search for
      the greeter's account ends; the administration socket acts for root
      alone.
    - Between the processes ([ScopeRelease], [WorkerIo], [ProcessFds]): a scope
      counts as released only if the machine showed it; the launcher hears what
      the worker wrote, cut off at most, and its reader comes to an end; a
      worker gets its channel and hands it to nobody; the exec of a session is
      seen exactly when it happens.
    - The whole way ([Backends]): a login the daemon answers with success is a
      session that was registered with the supervisor loop, on disk and on the
      seat.
    - Deviations: theorems of kind error state where the code does less than
      its documentation says (a leftover temporary file, a full or stale
      journal, a quarantined same-boot record that does not block its seat, an
      administrative retry that strands a seat or reports a stale sequence, a
      failed login that keeps its seat, a cancel request that never cancels, a
      repaired crash that keeps its record, a start that cannot be made durable
      and strands the seat, a recovery that pinned its unit and can no longer
      give the terminal back, an SELinux context whose fields are not checked,
      a connection that makes the worker overlook the end of its session, a
      session that cannot be announced and is given back unproven).

    ** Bounds

    The loops of the source run over finite lists and are structural.
    [PreCommit.poll_gone] runs at most 64 times, as in the source.  Counters
    are [u64]: checked, saturating and wrapping additions are written out, and
    the theorem on stale leases assumes fewer than 2^64 reservations, since the
    generation wraps.  [MAX_JOURNAL_ENTRIES] and the record limits are the
    source's constants.
    [Client.client_loop] takes fuel; one unit per byte of input is enough, as
    [client_served_within_authority] shows for a backend that does not put
    bytes back.  The rate limit assumes a clock that does not run backwards,
    which is what [Instant] promises.  [SessionDiscovery.walk_to_root] and
    [Supervisor.reap_from] take a number of rounds; [source_walk_terminates]
    and [reaping_terminates] show that a round per path component and a round
    per worker are enough.  [Launch.wait_launch_response] runs over the list of
    events its reader delivers; the end of the list is the reader's timeout.
    The loops that wait for a control group, a login session or a terminal run
    over the list of wakeups the machine delivers; the end of the list is the
    expiry of their timer.
    [WorkerIdentity.lookup_user_loop] takes a number of rounds;
    [user_lookup_ends] shows that the number it is given is enough.
    [WorkerTermination.wait_cycles] and [forced_cycles] take the number of poll
    cycles to run: a session may go on for ever, and a run whose cycles are
    used up is reported as such ([WaitRunning], [HaltRunning]), never as an
    ending.
    [DaemonStart.resolve_greeter_identity] takes a number of rounds;
    [greeter_resolution_terminates] shows that 21 are enough, since the buffer
    doubles up to a megabyte.  [DaemonStart.validate_parents] takes a round per
    byte of the path, which has no more parents than that.
    [Ctl.read_login_response] takes a round per line it reads.
    [WorkerIo.spawn_reader] takes a number of rounds; [reader_comes_to_an_end]
    shows that one more than the bytes of the stream are enough.
    [launch_settles_seat] assumes that the supervisor thread answers, that the
    workers it watches can be reaped, and that no file operation of the
    pre-commit store fails.

    ** What is not modelled

    Threads and channels: a round of the supervisor loop handles one message,
    a connection is served as one step, and a wait takes what its reader
    delivers.  The kill of a worker that does not answer; the wait
    of a worker without a payload scope; the bus of the user's session; what
    the client prints.  D-Bus, cgroupfs, libpam, NSS and the kernel themselves
    (their answers are parameters).  Taking the lock file and creating the
    store and control directories; logging.  The fixtures, smoke binaries and
    test transports, which no installed program runs.

    Where the model is coarser than the code: the worker's own write end of the
    exec status pipe is taken to be closed in [WorkerSession.spawn_child]
    ([ProcessFds] has the descriptors); an owner watch is one observation that
    it could be opened ([HostWorld.watch_open]); [create_dir_all] makes all
    missing directories in one change of the tree; the wait of a session
    starts with a signal descriptor, as every installed worker's does
    ([WorkerTermination.wait_for_session]). *)

From stdpp Require Import base gmap sets list strings sorting.
From Stdlib Require Import ZArith Lia.

Declare Scope niralis_scope.
Delimit Scope niralis_scope with niralis.
#[global] Open Scope Z_scope.

(** ** Results and the state-and-error monad *)

(** Rust's [Result<T, E>]. *)
Inductive result (A E : Type) : Type :=
| Ok (a : A)
| Err (e : E).
Arguments Ok {A E} a.
Arguments Err {A E} e.

Definition is_ok {A E} (r : result A E) : bool :=
  match r with Ok _ => true | Err _ => false end.

Definition map_err {A E F} (f : E → F) (r : result A E) : result A F :=
  match r with Ok a => Ok a | Err e => Err (f e) end.

Definition ok_or {A E} (o : option A) (e : E) : result A E :=
  match o with Some a => Ok a | None => Err e end.

(** A method that borrows [&mut S] and returns [Result<A, E>]: the state
    reached so far survives an early return, as it does in Rust. *)
Definition SR (S E A : Type) : Type := S → S * result A E.

Definition sr_ret {S E A} (a : A) : SR S E A := λ s, (s, Ok a).
Definition sr_fail {S E A} (e : E) : SR S E A := λ s, (s, Err e).
Definition sr_bind {S E A B} (m : SR S E A) (k : A → SR S E B) : SR S E B :=
  λ s, match m s with
       | (s', Ok a) => k a s'
       | (s', Err e) => (s', Err e)
       end.
Definition sr_get {S E} : SR S E S := λ s, (s, Ok s).
Definition sr_put {S E} (s' : S) : SR S E () := λ _, (s', Ok ()).
Definition sr_modify {S E} (f : S → S) : SR S E () := λ s, (f s, Ok ()).
Definition sr_lift {S E A} (r : result A E) : SR S E A := λ s, (s, r).
Definition sr_map_err {S E F A} (f : E → F) (m : SR S E A) : SR S F A :=
  λ s, let '(s', r) := m s in (s', map_err f r).

(** Run an action on a component of a larger state. *)
Definition sr_zoom {S T E A} (get : S → T) (set : T → S → S) (m : SR T E A)
  : SR S E A :=
  λ s, let '(t, r) := m (get s) in (set t s, r).

Notation "'let*' x ':=' m 'in' k" := (sr_bind m (λ x, k))
  (at level 10, x name, m at level 100, k at level 200) : niralis_scope.
Notation "m ';;;' k" := (sr_bind m (λ _, k))
  (at level 199, right associativity) : niralis_scope.
Notation "'ensure' b 'else' e" := (if b then sr_ret () else sr_fail e)
  (at level 190, b at level 100, e at level 100) : niralis_scope.

Lemma sr_bind_eq {S E A B} (m : SR S E A) (k : A → SR S E B) s :
  sr_bind m k s = match m s with
                  | (s', Ok a) => k a s'
                  | (s', Err e) => (s', Err e)
                  end.
Proof. done. Qed.

Lemma sr_map_err_eq {S E F A} (f : E → F) (m : SR S E A) s :
  sr_map_err f m s = let '(s', r) := m s in (s', map_err f r).
Proof. done. Qed.

(** Successful runs, taken apart. *)
Lemma bind_ok {S E A B} (m : SR S E A) (k : A → SR S E B) s s2 b :
  sr_bind m k s = (s2, Ok b) → ∃ s1 a, m s = (s1, Ok a) ∧ k a s1 = (s2, Ok b).
Proof. unfold sr_bind. destruct (m s) as [s1 [a|]]; [|done]. eauto. Qed.
Lemma lift_ok {S E A} (r : result A E) (s s' : S) a :
  sr_lift r s = (s', Ok a) → s' = s ∧ r = Ok a.
Proof. by intros [= -> ->]. Qed.
Lemma ensure_ok {S E} (b : bool) (e : E) (s s' : S) u :
  (if b then sr_ret () else sr_fail e) s = (s', Ok u) → s' = s ∧ b = true.
Proof. destruct b; [by intros [= ->]|done]. Qed.
Lemma map_err_ok {S E F A} (f : E → F) (m : SR S E A) s s' a :
  sr_map_err f m s = (s', Ok a) → m s = (s', Ok a).
Proof. unfold sr_map_err. destruct (m s) as [? []]; [|done]. by intros [= -> ->]. Qed.
Lemma ok_or_ok {A E} (o : option A) (e : E) a : ok_or o e = Ok a → o = Some a.
Proof. destruct o; [by intros [= ->]|done]. Qed.
Lemma map_err_result {A E F} (f : E → F) (r : result A E) a :
  map_err f r = Ok a → r = Ok a.
Proof. destruct r; [by intros [= ->]|done]. Qed.

(** A relation every run of a method respects, whatever it returns. *)
Definition sr_keeps {S E A} (R : S → S → Prop) (m : SR S E A) : Prop :=
  ∀ s, R s (m s).1.

Section Keeps.
Context {S E : Type} (R : S → S → Prop) `{!PreOrder R}.

Lemma keeps_ret {A} (a : A) : sr_keeps R (sr_ret (E:=E) a).
Proof. intros s. reflexivity. Qed.
Lemma keeps_fail {A} (e : E) : sr_keeps R (sr_fail (A:=A) e).
Proof. intros s. reflexivity. Qed.
Lemma keeps_lift {A} (r : result A E) : sr_keeps R (sr_lift r).
Proof. intros s. reflexivity. Qed.
Lemma keeps_read {A} (f : S → result A E) : sr_keeps R (λ s, (s, f s)).
Proof. intros s. reflexivity. Qed.
Lemma keeps_bind {A B} (m : SR S E A) (k : A → SR S E B) :
  sr_keeps R m → (∀ a, sr_keeps R (k a)) → sr_keeps R (sr_bind m k).
Proof.
  intros Hm Hk s. unfold sr_bind. specialize (Hm s).
  destruct (m s) as [s' [a|e]]; [|done]. etrans; [exact Hm|apply Hk].
Qed.
Lemma keeps_map_err {F A} (f : E → F) (m : SR S E A) :
  sr_keeps R m → sr_keeps R (sr_map_err f m).
Proof.
  intros Hm s. unfold sr_map_err. specialize (Hm s). by destruct (m s).
Qed.

(** The same with a property of the returned value. *)
Definition sr_gives {A} (m : SR S E A) (Q : A → Prop) : Prop :=
  ∀ s, R s (m s).1 ∧ ∀ a, (m s).2 = Ok a → Q a.

Lemma gives_keeps {A} (m : SR S E A) Q : sr_gives m Q → sr_keeps R m.
Proof. intros H s. apply H. Qed.
Lemma keeps_gives {A} (m : SR S E A) : sr_keeps R m → sr_gives m (λ _, True).
Proof. intros H s. split; [apply H|done]. Qed.
Lemma gives_ret {A} (a : A) (Q : A → Prop) : Q a → sr_gives (sr_ret a) Q.
Proof. intros H s. split; [apply keeps_ret|]. by intros a' [= <-]. Qed.
Lemma gives_fail {A} (e : E) (Q : A → Prop) : sr_gives (sr_fail e) Q.
Proof. intros s. split; [apply keeps_fail|done]. Qed.
Lemma gives_lift {A} (r : result A E) (Q : A → Prop) :
  (∀ a, r = Ok a → Q a) → sr_gives (sr_lift r) Q.
Proof. intros H s. split; [apply keeps_lift|done]. Qed.
Lemma gives_bind {A B} (m : SR S E A) (k : A → SR S E B) Q Q' :
  sr_gives m Q → (∀ a, Q a → sr_gives (k a) Q') → sr_gives (sr_bind m k) Q'.
Proof.
  intros Hm Hk s. unfold sr_bind. destruct (Hm s) as [HR HQ].
  destruct (m s) as [s' [a|e]]; [|done].
  destruct (Hk a (HQ _ eq_refl) s') as [HR' HQ'].
  split; [by etrans|done].
Qed.
Lemma gives_seq {A B} (m : SR S E A) (k : A → SR S E B) Q' :
  sr_keeps R m → (∀ a, sr_gives (k a) Q') → sr_gives (sr_bind m k) Q'.
Proof.
  intros Hm Hk. eapply gives_bind; [by apply keeps_gives|]. by intros a _.
Qed.
End Keeps.

(** Triples: from a state in [P], success establishes [Q] and failure [X]. *)
Definition sr_triple {S E A} (P : S → Prop) (m : SR S E A)
    (Q : A → S → Prop) (X : S → Prop) : Prop :=
  ∀ s, P s → match m s with (s', Ok a) => Q a s' | (s', Err _) => X s' end.

Section Triples.
Context {S E : Type}.
Implicit Types P X : S → Prop.

Lemma triple_ret {A} (a : A) P (Q : A → S → Prop) X :
  (∀ s, P s → Q a s) → sr_triple P (sr_ret (E:=E) a) Q X.
Proof. intros H s Hs. by apply H. Qed.
Lemma triple_fail {A} (e : E) P (Q : A → S → Prop) X :
  (∀ s, P s → X s) → sr_triple P (sr_fail e) Q X.
Proof. intros H s Hs. by apply H. Qed.
Lemma triple_lift {A} (r : result A E) P (Q : A → S → Prop) X :
  (∀ s a, P s → r = Ok a → Q a s) → (∀ s, P s → X s) →
  sr_triple P (sr_lift r) Q X.
Proof. intros HQ HX s Hs. unfold sr_lift. destruct r; eauto. Qed.
Lemma triple_bind {A B} (m : SR S E A) (k : A → SR S E B) P Q Q' X :
  sr_triple P m Q X → (∀ a, sr_triple (Q a) (k a) Q' X) →
  sr_triple P (sr_bind m k) Q' X.
Proof.
  intros Hm Hk s Hs. unfold sr_bind. specialize (Hm s Hs).
  destruct (m s) as [s' [a|e]]; [|done]. by apply Hk.
Qed.
Lemma triple_ensure (b : bool) (e : E) P (Q : () → S → Prop) X :
  (∀ s, P s → b = true → Q () s) → (∀ s, P s → X s) →
  sr_triple P (if b then sr_ret () else sr_fail e) Q X.
Proof. intros HQ HX. destruct b; intros s Hs; cbn; auto. Qed.
Lemma triple_weaken {A} (m : SR S E A) P P' (Q Q' : A → S → Prop) X X' :
  sr_triple P' m Q' X' → (∀ s, P s → P' s) → (∀ a s, Q' a s → Q a s) →
  (∀ s, X' s → X s) → sr_triple P m Q X.
Proof.
  intros Hm HP HQ HX s Hs. specialize (Hm s (HP s Hs)).
  destruct (m s) as [s' [a|e]]; auto.
Qed.
Lemma keeps_triple {A} (R : S → S → Prop) `{!Transitive R} (m : SR S E A) s0 :
  sr_keeps R m → sr_triple (R s0) m (λ _, R s0) (R s0).
Proof.
  intros Hm s Hs. specialize (Hm s).
  destruct (m s) as [s' [a|e]]; cbn in Hm; by etrans.
Qed.
End Triples.

(** ** Machine integers *)

Definition u32_max : Z := 2 ^ 32 - 1.
Definition u64_max : Z := 2 ^ 64 - 1.

Definition in_u32 (n : Z) : Prop := 0 ≤ n ≤ u32_max.
Definition in_u64 (n : Z) : Prop := 0 ≤ n ≤ u64_max.

Definition u64_wrapping_add (a b : Z) : Z := (a + b) mod 2 ^ 64.
Definition u64_checked_add (a b : Z) : option Z :=
  if a + b <=? u64_max then Some (a + b) else None.
Definition u64_saturating_sub (a b : Z) : Z := Z.max 0 (a - b).

Lemma u64_wrapping_add_range a b : in_u64 (u64_wrapping_add a b).
Proof.
  unfold in_u64, u64_wrapping_add, u64_max.
  pose proof (Z.mod_pos_bound (a + b) (2 ^ 64)). lia.
Qed.

Lemma u64_wrapping_add_small a b :
  0 ≤ a + b ≤ u64_max → u64_wrapping_add a b = a + b.
Proof. unfold u64_wrapping_add, u64_max. intros. apply Z.mod_small. lia. Qed.

Lemma u64_checked_add_Some a b c :
  u64_checked_add a b = Some c ↔ c = a + b ∧ a + b ≤ u64_max.
Proof.
  unfold u64_checked_add. destruct (Z.leb_spec (a + b) u64_max);
    split; intros; simplify_eq; try done; destruct_and?; try lia.
  by subst.
Qed.

(** ** Byte strings *)

Definition str_is_empty (s : string) : bool :=
  match s with EmptyString => true | _ => false end.

Definition str_len (s : string) : Z := Z.of_nat (String.length s).

Fixpoint str_any (p : Ascii.ascii → bool) (s : string) : bool :=
  match s with
  | EmptyString => false
  | String c s' => p c || str_any p s'
  end.

Definition str_eqb (a b : string) : bool := bool_decide (a = b).

(** [value.as_bytes().contains(&byte)]. *)
Definition str_contains_byte (b : Ascii.ascii) (s : string) : bool :=
  str_any (λ c, bool_decide (c = b)) s.

Definition NUL : Ascii.ascii := Ascii.zero.
Definition SLASH : Ascii.ascii := Ascii.ascii_of_nat 47.

Lemma str_is_empty_true s : str_is_empty s = true ↔ s = EmptyString.
Proof. destruct s; naive_solver. Qed.
Lemma str_is_empty_false s : str_is_empty s = false ↔ s ≠ EmptyString.
Proof. destruct s; naive_solver. Qed.
Lemma str_eqb_true a b : str_eqb a b = true ↔ a = b.
Proof. unfold str_eqb. by rewrite bool_decide_eq_true. Qed.
Lemma str_eqb_false a b : str_eqb a b = false ↔ a ≠ b.
Proof. unfold str_eqb. by rewrite bool_decide_eq_false. Qed.
Lemma str_eqb_refl a : str_eqb a a = true.
Proof. by apply str_eqb_true. Qed.

(** [haystack.contains(needle)]. *)
Fixpoint str_contains (needle haystack : string) : bool :=
  String.prefix needle haystack ||
  match haystack with
  | EmptyString => false
  | String _ rest => str_contains needle rest
  end.

Definition str_ends_with (suffix s : string) : bool :=
  (String.length suffix <=? String.length s)%nat &&
  str_eqb (String.substring (String.length s - String.length suffix)
             (String.length suffix) s) suffix.

(** [path.extension() == Some("json")], for a file name: a name that only
    has its leading dot has no extension. *)
Definition has_json_extension (name : string) : bool :=
  str_ends_with ".json" name && negb (str_eqb name ".json").

Lemma str_app_cons c s t : String c s +:+ t = String c (s +:+ t).
Proof. done. Qed.
Lemma str_app_nil_r s : s +:+ EmptyString = s.
Proof. induction s as [|c s IH]; [done|]. by rewrite str_app_cons, IH. Qed.
Lemma str_app_assoc s t u : s +:+ (t +:+ u) = (s +:+ t) +:+ u.
Proof. induction s as [|c s IH]; [done|]. by rewrite !str_app_cons, IH. Qed.
Lemma str_any_app p s t : str_any p (s +:+ t) = str_any p s || str_any p t.
Proof.
  induction s as [|c s IH]; [done|]. rewrite str_app_cons. cbn.
  by rewrite IH, orb_assoc.
Qed.

Lemma string_to_list_app s t :
  String.list_ascii_of_string (s +:+ t) =
  String.list_ascii_of_string s ++ String.list_ascii_of_string t.
Proof.
  induction s as [|c s IH]; [done|]. rewrite str_app_cons. cbn. by rewrite IH.
Qed.

Lemma string_to_list_inj s t :
  String.list_ascii_of_string s = String.list_ascii_of_string t → s = t.
Proof.
  intros H. rewrite <- (String.string_of_list_ascii_of_string s),
    <- (String.string_of_list_ascii_of_string t). by rewrite H.
Qed.

Lemma str_app_inj_r s s' t : s +:+ t = s' +:+ t → s = s'.
Proof.
  intros H. apply string_to_list_inj.
  apply (f_equal String.list_ascii_of_string) in H.
  rewrite !string_to_list_app in H. by eapply app_inv_tail.
Qed.

(** Two suffixes with different last bytes never end the same string. *)
Lemma str_app_last_ne s s' t t' a b :
  a ≠ b → s +:+ (t +:+ String a "") ≠ s' +:+ (t' +:+ String b "").
Proof.
  intros Hne H. apply Hne.
  apply (f_equal String.list_ascii_of_string) in H.
  rewrite !string_to_list_app in H. cbn in H.
  rewrite !(assoc_L app) in H. by apply app_inj_tail in H as [_ ?].
Qed.

(** ** Ordered iteration over a [BTreeMap<String, _>] *)

Definition str_le (a b : string) : Prop := String.leb a b = true.
#[export] Instance str_le_dec a b : Decision (str_le a b).
Proof. unfold str_le. apply _. Defined.

Definition key_le {A} (p q : string * A) : Prop := str_le p.1 q.1.
#[export] Instance key_le_dec {A} (p q : string * A) : Decision (key_le p q).
Proof. unfold key_le. apply _. Defined.

Definition btree_entries {A} (m : gmap string A) : list (string * A) :=
  merge_sort key_le (map_to_list m).
Definition btree_values {A} (m : gmap string A) : list A :=
  (btree_entries m).*2.

Lemma btree_entries_elem {A} (m : gmap string A) k a :
  (k, a) ∈ btree_entries m ↔ m !! k = Some a.
Proof.
  unfold btree_entries. rewrite (merge_sort_Permutation key_le _).
  apply elem_of_map_to_list.
Qed.

Lemma btree_values_elem {A} (m : gmap string A) a :
  a ∈ btree_values m ↔ ∃ k, m !! k = Some a.
Proof.
  unfold btree_values. rewrite list_elem_of_fmap. split.
  - intros [[k b] [-> H]]. exists k. by apply btree_entries_elem.
  - intros [k H]. exists (k, a). split; [done|]. by apply btree_entries_elem.
Qed.

Lemma btree_entries_NoDup {A} (m : gmap string A) :
  NoDup (btree_entries m).*1.
Proof.
  unfold btree_entries. rewrite (merge_sort_Permutation key_le _).
  apply NoDup_fst_map_to_list.
Qed.

(** ** Tactics and hints *)

Create HintDb niralis.
Create Rewrite HintDb niralis.
#[export] Hint Rewrite str_is_empty_true str_is_empty_false str_eqb_true
  str_eqb_false orb_false_iff andb_true_iff negb_false_iff negb_true_iff
  Z.eqb_eq Z.eqb_neq Z.leb_le Z.leb_gt Z.ltb_lt Z.ltb_ge : niralis.
#[export] Hint Resolve str_eqb_refl : niralis.

(** Split the boolean guards of the code into propositions. *)
Ltac bool_facts :=
  repeat match goal with
  | H : (_ || _) = false |- _ => apply orb_false_iff in H as [? ?]
  | H : (_ && _) = true |- _ => apply andb_true_iff in H as [? ?]
  | H : negb _ = true |- _ => apply negb_true_iff in H
  | H : negb _ = false |- _ => apply negb_false_iff in H
  | H : str_eqb _ _ = true |- _ => apply str_eqb_true in H
  | H : str_eqb _ _ = false |- _ => apply str_eqb_false in H
  | H : str_is_empty _ = true |- _ => apply str_is_empty_true in H
  | H : str_is_empty _ = false |- _ => apply str_is_empty_false in H
  | H : bool_decide _ = true |- _ => apply bool_decide_eq_true in H
  | H : bool_decide _ = false |- _ => apply bool_decide_eq_false in H
  | H : (_ =? _) = true |- _ => apply Z.eqb_eq in H
  | H : (_ =? _) = false |- _ => apply Z.eqb_neq in H
  | H : (_ <=? _) = true |- _ => apply Z.leb_le in H
  | H : (_ <=? _) = false |- _ => apply Z.leb_gt in H
  | H : (_ <? _) = true |- _ => apply Z.ltb_lt in H
  | H : (_ <? _) = false |- _ => apply Z.ltb_ge in H
  end.

(** Open every [match] and [if] of a definition in hypothesis [H]. *)
Ltac split_cases H :=
  repeat match type of H with
  | context [match ?x with _ => _ end] =>
      lazymatch x with
      | context [match _ with _ => _ end] => fail
      | _ => destruct x eqn:?; simplify_eq/=
      end
  end.
