(* ===== verification/Text.v ===== *)
(** * Rust text: [char], [str] and UTF-8

    What the session and user discovery uses of the standard library's text:
    a [char] is a Unicode scalar value, a [str] is read here as the sequence
    of its chars, [len] counts the bytes of its UTF-8 form, [from_utf8] is
    the validating decoder, and [trim], [lines] and [split_once] are the
    methods of [str].  Byte strings ([string]) are the UTF-8 form; the two
    are inverse to each other ([from_utf8_encode], [from_utf8_sound]). *)

From stdpp Require Import base gmap sets list strings sorting.
From Stdlib Require Import ZArith Lia.
From S2P Require Import Prelude.

(** ** Characters *)

Notation char := Z (only parsing).
Notation text := (list Z) (only parsing).

Definition between (lo hi c : Z) : bool := (lo <=? c) && (c <=? hi).

Definition is_scalar (c : char) : bool :=
  between 0 0xD7FF c || between 0xE000 0x10FFFF c.

(** [char::is_control]: the general category [Cc]. *)
Definition is_control (c : char) : bool := between 0 0x1F c || between 0x7F 0x9F c.

(** [char::is_whitespace]: the property [White_Space]. *)
Definition is_whitespace (c : char) : bool :=
  between 9 13 c || (c =? 32) || (c =? 0x85) || (c =? 0xA0) || (c =? 0x1680)
  || between 0x2000 0x200A c || (c =? 0x2028) || (c =? 0x2029)
  || (c =? 0x202F) || (c =? 0x205F) || (c =? 0x3000).

Definition len_utf8 (c : char) : Z :=
  if c <? 0x80 then 1 else if c <? 0x800 then 2
  else if c <? 0x10000 then 3 else 4.

(** [str::len]. *)
Definition text_len (s : text) : Z := foldr (λ c n, len_utf8 c + n) 0 s.

(** ** UTF-8 *)

Definition encode_char (c : char) : list Z :=
  if c <? 0x80 then [c]
  else if c <? 0x800 then [0xC0 + c / 64; 0x80 + c mod 64]
  else if c <? 0x10000 then
    [0xE0 + c / 4096; 0x80 + c / 64 mod 64; 0x80 + c mod 64]
  else [0xF0 + c / 262144; 0x80 + c / 4096 mod 64; 0x80 + c / 64 mod 64;
        0x80 + c mod 64].

Definition utf8_bytes (s : text) : list Z := s ≫= encode_char.

(** [std::str::from_utf8], with the table of well-formed byte sequences. *)
Fixpoint from_utf8 (bytes : list Z) : option text :=
  match bytes with
  | [] => Some []
  | b0 :: rest =>
      if b0 <? 0x80 then cons b0 <$> from_utf8 rest
      else match rest with
      | [] => None
      | b1 :: rest1 =>
          if between 0xC2 0xDF b0 then
            if between 0x80 0xBF b1 then
              cons ((b0 - 0xC0) * 64 + (b1 - 0x80)) <$> from_utf8 rest1
            else None
          else match rest1 with
          | [] => None
          | b2 :: rest2 =>
              if between 0xE0 0xEF b0 then
                if between (if b0 =? 0xE0 then 0xA0 else 0x80)
                     (if b0 =? 0xED then 0x9F else 0xBF) b1
                   && between 0x80 0xBF b2 then
                  cons ((b0 - 0xE0) * 4096 + (b1 - 0x80) * 64 + (b2 - 0x80))
                    <$> from_utf8 rest2
                else None
              else match rest2 with
              | [] => None
              | b3 :: rest3 =>
                  if between 0xF0 0xF4 b0
                     && between (if b0 =? 0xF0 then 0x90 else 0x80)
                          (if b0 =? 0xF4 then 0x8F else 0xBF) b1
                     && between 0x80 0xBF b2 && between 0x80 0xBF b3 then
                    cons ((b0 - 0xF0) * 262144 + (b1 - 0x80) * 4096
                          + (b2 - 0x80) * 64 + (b3 - 0x80)) <$> from_utf8 rest3
                  else None
              end
          end
      end
  end.

Definition byte_of_ascii (a : Ascii.ascii) : Z := Z.of_N (Ascii.N_of_ascii a).
Definition ascii_of_byte (b : Z) : Ascii.ascii := Ascii.ascii_of_N (Z.to_N b).

(** A byte string as the text it encodes, and back. *)
Definition as_bytes (s : string) : list Z :=
  byte_of_ascii <$> String.list_ascii_of_string s.
Definition of_bytes (bytes : list Z) : string :=
  String.string_of_list_ascii (ascii_of_byte <$> bytes).
Definition str_of_text (s : text) : string := of_bytes (utf8_bytes s).
Definition str_from_utf8 (s : string) : option text := from_utf8 (as_bytes s).

(** An ASCII literal of the source as a text. *)
Definition lit (s : string) : text := as_bytes s.

(** ** Methods of [str] *)

Fixpoint trim_start (s : text) : text :=
  match s with
  | [] => []
  | c :: rest => if is_whitespace c then trim_start rest else s
  end.
Definition trim_end (s : text) : text := reverse (trim_start (reverse s)).
Definition trim (s : text) : text := trim_end (trim_start s).

(** [split]: the pieces between occurrences of [sep], one more than there are
    occurrences. *)
Fixpoint split_on (sep : Z) (s : text) : list text :=
  match s with
  | [] => [[]]
  | c :: rest =>
      if c =? sep then [] :: split_on sep rest
      else match split_on sep rest with
           | piece :: pieces => (c :: piece) :: pieces
           | [] => [[c]]
           end
  end.

Definition NEWLINE : char := 10.
Definition strip_cr (line : text) : text :=
  match reverse line with 13 :: rest => reverse rest | _ => line end.

(** [str::lines]: a final newline ends the last line, and a carriage return
    before a newline belongs to it. *)
Definition lines (s : text) : list text :=
  let pieces := split_on NEWLINE s in
  let closed := strip_cr <$> removelast pieces in
  match last pieces with
  | Some [] | None => closed
  | Some tail => closed ++ [tail]
  end.

(** [split_once]. *)
Fixpoint split_once (sep : Z) (s : text) : option (text * text) :=
  match s with
  | [] => None
  | c :: rest =>
      if c =? sep then Some ([], rest)
      else '(before, after) ← split_once sep rest; Some (c :: before, after)
  end.

Definition ascii_lower (c : char) : char := if between 65 90 c then c + 32 else c.
Definition eq_ignore_ascii_case (a b : text) : bool :=
  bool_decide (ascii_lower <$> a = ascii_lower <$> b).

(** ** The two forms of a string are inverse *)

Lemma between_true lo hi c : between lo hi c = true ↔ lo ≤ c ≤ hi.
Proof. unfold between. rewrite andb_true_iff, !Z.leb_le. done. Qed.
Lemma between_false lo hi c : between lo hi c = false ↔ c < lo ∨ hi < c.
Proof. unfold between. rewrite andb_false_iff, !Z.leb_gt. done. Qed.

(** [lia] for goals with divisions by constants. *)
Ltac lia_div := Z.to_euclidean_division_equations; lia.

(** Decide the range tests of a goal whose bounds follow by arithmetic. *)
Ltac solve_ranges :=
  repeat match goal with
  | H : context [between _ _ _ = true] |- _ => rewrite between_true in H
  | H : context [between _ _ _ = false] |- _ => rewrite between_false in H
  | |- context [between ?lo ?hi ?c] =>
      first [ rewrite (proj2 (between_true lo hi c)) by lia_div
            | rewrite (proj2 (between_false lo hi c)) by lia_div ]
  | |- context [?a <? ?b] =>
      first [ rewrite (proj2 (Z.ltb_lt a b)) by lia_div
            | rewrite (proj2 (Z.ltb_ge a b)) by lia_div ]
  end; cbn [orb andb].

Lemma is_scalar_true c :
  is_scalar c = true ↔ 0 ≤ c ≤ 0xD7FF ∨ 0xE000 ≤ c ≤ 0x10FFFF.
Proof. unfold is_scalar. by rewrite orb_true_iff, !between_true. Qed.

Lemma fmap_cons_eq (c d : char) (o : option text) :
  c = d → cons c <$> o = cons d <$> o.
Proof. by intros ->. Qed.

Lemma from_utf8_char c rest :
  is_scalar c = true →
  from_utf8 (encode_char c ++ rest) = cons c <$> from_utf8 rest.
Proof.
  rewrite is_scalar_true. intros Hc. unfold encode_char.
  destruct (Z.ltb_spec c 0x80); [|destruct (Z.ltb_spec c 0x800);
    [|destruct (Z.ltb_spec c 0x10000)]]; cbn [app from_utf8].
  - by solve_ranges.
  - solve_ranges. apply fmap_cons_eq. lia_div.
  - destruct (Z.eqb_spec (0xE0 + c / 4096) 0xE0),
      (Z.eqb_spec (0xE0 + c / 4096) 0xED); try lia_div;
      solve_ranges; apply fmap_cons_eq; lia_div.
  - destruct (Z.eqb_spec (0xF0 + c / 262144) 0xF0),
      (Z.eqb_spec (0xF0 + c / 262144) 0xF4); try lia_div;
      solve_ranges; apply fmap_cons_eq; lia_div.
Qed.

Lemma from_utf8_encode s :
  Forall (λ c, is_scalar c = true) s → from_utf8 (utf8_bytes s) = Some s.
Proof.
  unfold utf8_bytes. induction 1 as [|c s Hc _ IH]; [done|].
  rewrite bind_cons, from_utf8_char, IH by done. done.
Qed.

Lemma encode_char_2 b0 b1 :
  0xC2 ≤ b0 ≤ 0xDF → 0x80 ≤ b1 ≤ 0xBF →
  encode_char ((b0 - 0xC0) * 64 + (b1 - 0x80)) = [b0; b1].
Proof.
  intros. unfold encode_char. set (c := _ + _ : Z).
  assert (c / 64 = b0 - 0xC0) as -> by (subst c; lia_div).
  assert (c mod 64 = b1 - 0x80) as -> by (subst c; lia_div).
  assert (0x80 ≤ c < 0x800) by (subst c; lia).
  solve_ranges. repeat f_equal; lia.
Qed.

Lemma encode_char_3 b0 b1 b2 :
  0xE0 ≤ b0 ≤ 0xEF → 0x80 ≤ b1 ≤ 0xBF → (b0 = 0xE0 → 0xA0 ≤ b1) →
  0x80 ≤ b2 ≤ 0xBF →
  encode_char ((b0 - 0xE0) * 4096 + (b1 - 0x80) * 64 + (b2 - 0x80)) = [b0; b1; b2].
Proof.
  intros. unfold encode_char. set (c := _ + _ : Z).
  assert (c / 64 mod 64 = b1 - 0x80) as -> by (subst c; lia_div).
  assert (c / 4096 = b0 - 0xE0) as H4096 by (subst c; lia_div).
  assert (c mod 64 = b2 - 0x80) as -> by (subst c; lia_div).
  rewrite H4096. assert (0x800 ≤ c < 0x10000) by (subst c; lia_div).
  solve_ranges. repeat f_equal; lia.
Qed.

Lemma encode_char_4 b0 b1 b2 b3 :
  0xF0 ≤ b0 ≤ 0xF4 → 0x80 ≤ b1 ≤ 0xBF → (b0 = 0xF0 → 0x90 ≤ b1) →
  0x80 ≤ b2 ≤ 0xBF → 0x80 ≤ b3 ≤ 0xBF →
  encode_char ((b0 - 0xF0) * 262144 + (b1 - 0x80) * 4096 + (b2 - 0x80) * 64
    + (b3 - 0x80)) = [b0; b1; b2; b3].
Proof.
  intros. unfold encode_char. set (c := _ + _ : Z).
  assert (c / 64 mod 64 = b2 - 0x80) as -> by (subst c; lia_div).
  assert (c / 4096 mod 64 = b1 - 0x80) as -> by (subst c; lia_div).
  assert (c / 262144 = b0 - 0xF0) as H262144 by (subst c; lia_div).
  assert (c mod 64 = b3 - 0x80) as -> by (subst c; lia_div).
  rewrite H262144. assert (0x10000 ≤ c) by (subst c; lia_div).
  solve_ranges. repeat f_equal; lia.
Qed.

Lemma from_utf8_sound bytes s :
  Forall (λ b, 0 ≤ b) bytes → from_utf8 bytes = Some s →
  utf8_bytes s = bytes ∧ Forall (λ c, is_scalar c = true) s.
Proof.
  remember (length bytes) as n eqn:Hn. revert bytes s Hn.
  induction (lt_wf n) as [n _ IH]; intros bytes s -> Hb H.
  destruct bytes as [|b0 rest]; cbn [from_utf8] in H.
  { by simplify_eq. }
  assert (∀ c tail, (length tail < length (b0 :: rest))%nat →
    Forall (λ b, 0 ≤ b) tail → is_scalar c = true →
    cons c <$> from_utf8 tail = Some s → encode_char c ++ tail = b0 :: rest →
    utf8_bytes s = b0 :: rest ∧ Forall (λ c, is_scalar c = true) s) as Hstep.
  { intros c tail Hlen Htail Hsc Hs Henc.
    apply fmap_Some in Hs as (s' & Hs' & ->).
    destruct (IH _ Hlen tail s' eq_refl Htail Hs') as [<- Hall].
    split; [by rewrite <- Henc | by constructor]. }
  apply Forall_cons_1 in Hb as [? Hr].
  destruct (Z.ltb_spec b0 0x80).
  { eapply (Hstep b0 rest); [cbn; lia|done| |done|].
    - apply is_scalar_true. lia.
    - unfold encode_char. by solve_ranges. }
  destruct rest as [|b1 rest1]; [done|].
  apply Forall_cons_1 in Hr as [? Hr1].
  destruct (between 0xC2 0xDF b0) eqn:Hb0.
  { destruct (between 0x80 0xBF b1) eqn:Hb1; [|done].
    rewrite between_true in *. eapply (Hstep _ rest1); [cbn; lia|done| |done|].
    - apply is_scalar_true. lia.
    - by rewrite encode_char_2. }
  destruct rest1 as [|b2 rest2]; [done|].
  apply Forall_cons_1 in Hr1 as [? Hr2].
  destruct (between 0xE0 0xEF b0) eqn:Hb0'.
  { destruct (_ && _) eqn:Hg in H; [|done].
    apply andb_true_iff in Hg as [Hg1 Hg2]. rewrite between_true in *.
    destruct (Z.eqb_spec b0 0xE0), (Z.eqb_spec b0 0xED);
    (eapply (Hstep _ rest2); [cbn; lia|done| |done|];
    [apply is_scalar_true; lia | rewrite encode_char_3; (done || lia)]). }
  destruct rest2 as [|b3 rest3]; [done|].
  apply Forall_cons_1 in Hr2 as [? Hr3].
  destruct (_ && _) eqn:Hg in H; [|done].
  rewrite !andb_true_iff in Hg. destruct Hg as [[[Hg0 Hg1] Hg2] Hg3].
  rewrite between_true in *.
  destruct (Z.eqb_spec b0 0xF0), (Z.eqb_spec b0 0xF4);
  (eapply (Hstep _ rest3); [cbn; lia|done| |done|];
    [apply is_scalar_true; lia | rewrite encode_char_4; (done || lia)]).
Qed.

Lemma byte_of_ascii_range a : 0 ≤ byte_of_ascii a < 256.
Proof.
  unfold byte_of_ascii. pose proof (Ascii.N_ascii_bounded a). lia.
Qed.
Lemma ascii_of_byte_of_ascii a : ascii_of_byte (byte_of_ascii a) = a.
Proof. unfold ascii_of_byte, byte_of_ascii. by rewrite N2Z.id, Ascii.ascii_N_embedding. Qed.
Lemma byte_of_ascii_of_byte b : 0 ≤ b < 256 → byte_of_ascii (ascii_of_byte b) = b.
Proof.
  intros. unfold ascii_of_byte, byte_of_ascii.
  rewrite Ascii.N_ascii_embedding by lia. apply Z2N.id; lia.
Qed.

Lemma as_bytes_nonneg s : Forall (λ b, 0 ≤ b) (as_bytes s).
Proof.
  unfold as_bytes. apply Forall_fmap, Forall_forall. intros a _.
  cbn. pose proof (byte_of_ascii_range a). lia.
Qed.

Lemma of_bytes_as_bytes s : of_bytes (as_bytes s) = s.
Proof.
  unfold of_bytes, as_bytes. rewrite <- list_fmap_compose.
  rewrite (list_fmap_ext _ id), list_fmap_id.
  - apply String.string_of_list_ascii_of_string.
  - intros i a _. apply ascii_of_byte_of_ascii.
Qed.

Lemma as_bytes_of_bytes bytes :
  Forall (λ b, 0 ≤ b < 256) bytes → as_bytes (of_bytes bytes) = bytes.
Proof.
  intros H. unfold of_bytes, as_bytes.
  rewrite String.list_ascii_of_string_of_list_ascii, <- list_fmap_compose.
  induction H as [|b bytes Hb _ IH]; [done|]. cbn in *.
  by rewrite byte_of_ascii_of_byte, IH.
Qed.

(** A [string] that is valid UTF-8 is the UTF-8 form of the text read. *)
Lemma str_of_text_from_utf8 s t : str_from_utf8 s = Some t → str_of_text t = s.
Proof.
  intros H. apply from_utf8_sound in H as [H _]; [|apply as_bytes_nonneg].
  unfold str_of_text. by rewrite H, of_bytes_as_bytes.
Qed.

Lemma encode_char_bytes c :
  is_scalar c = true → Forall (λ b, 0 ≤ b < 256) (encode_char c).
Proof.
  rewrite is_scalar_true. intros H. unfold encode_char.
  destruct (Z.ltb_spec c 0x80); [|destruct (Z.ltb_spec c 0x800);
    [|destruct (Z.ltb_spec c 0x10000)]]; repeat constructor; lia_div.
Qed.

Lemma utf8_bytes_bytes s :
  Forall (λ c, is_scalar c = true) s → Forall (λ b, 0 ≤ b < 256) (utf8_bytes s).
Proof.
  unfold utf8_bytes. induction 1 as [|c s Hc _ IH]; [constructor|].
  rewrite bind_cons. apply Forall_app_2; [by apply encode_char_bytes|done].
Qed.

Lemma str_from_utf8_of_text s :
  Forall (λ c, is_scalar c = true) s → str_from_utf8 (str_of_text s) = Some s.
Proof.
  intros H. unfold str_from_utf8, str_of_text.
  by rewrite as_bytes_of_bytes, from_utf8_encode by (done || by apply utf8_bytes_bytes).
Qed.

Lemma text_len_bytes s : text_len s = Z.of_nat (length (utf8_bytes s)).
Proof.
  unfold utf8_bytes. induction s as [|c s IH]; [done|].
  rewrite bind_cons, length_app, Nat2Z.inj_add, <- IH. cbn. f_equal.
  unfold len_utf8, encode_char. by repeat case_match.
Qed.
Lemma text_len_nonneg s : 0 ≤ text_len s.
Proof. rewrite text_len_bytes. lia. Qed.
Lemma text_len_cons c s : text_len (c :: s) = len_utf8 c + text_len s.
Proof. done. Qed.
Lemma text_len_app s t : text_len (s ++ t) = text_len s + text_len t.
Proof. unfold text_len. induction s as [|c s IH]; cbn; [done|]. rewrite IH. lia. Qed.

(** ** Lemmas on the methods *)

Lemma trim_start_spec s :
  ∃ blank, s = blank ++ trim_start s ∧ Forall (λ c, is_whitespace c = true) blank.
Proof.
  induction s as [|c s (blank & IH & Hb)]; [by exists []|]. cbn.
  destruct (is_whitespace c) eqn:Hc; [|by exists []].
  exists (c :: blank). split; [by rewrite IH at 1 | by constructor].
Qed.

Lemma trim_start_id s :
  (∀ c, head s = Some c → is_whitespace c = false) → trim_start s = s.
Proof. destruct s as [|c s]; [done|]. intros H. cbn. by rewrite H. Qed.

Lemma trim_id s :
  (∀ c, head s = Some c → is_whitespace c = false) →
  (∀ c, last s = Some c → is_whitespace c = false) → trim s = s.
Proof.
  intros Hh Hl. unfold trim, trim_end. rewrite (trim_start_id s Hh), trim_start_id.
  - apply reverse_involutive.
  - intros c Hc. apply Hl. by rewrite <- head_reverse.
Qed.

Lemma split_on_no_sep sep s : sep ∉ s → split_on sep s = [s].
Proof.
  induction s as [|c s IH]; [done|]. intros [Hc Hs]%not_elem_of_cons. cbn.
  rewrite (proj2 (Z.eqb_neq c sep)) by congruence. by rewrite IH.
Qed.

Lemma split_on_app sep s t :
  sep ∉ s → split_on sep (s ++ sep :: t) = s :: split_on sep t.
Proof.
  induction s as [|c s IH]; cbn; [by rewrite Z.eqb_refl|].
  intros [Hc Hs]%not_elem_of_cons.
  rewrite (proj2 (Z.eqb_neq c sep)) by congruence. by rewrite IH.
Qed.

Lemma split_once_app sep s t :
  sep ∉ s → split_once sep (s ++ sep :: t) = Some (s, t).
Proof.
  induction s as [|c s IH]; cbn; [by rewrite Z.eqb_refl|].
  intros [Hc Hs]%not_elem_of_cons.
  rewrite (proj2 (Z.eqb_neq c sep)) by congruence. by rewrite IH.
Qed.
