(* ===== verification/Paths.v ===== *)
(** * Paths and the file system the discovery reads

    [std::path::Path] on Unix, on the bytes of the path: components, the
    parent, the file name with its stem and extension, [join] and
    [starts_with].  The file system itself is a parameter: what the calls of
    [std::fs] answer at one moment. *)

From stdpp Require Import base gmap sets list strings sorting.
From Stdlib Require Import ZArith Lia.
From S2P Require Import Prelude Text.

(** ** Paths *)

Definition SEP : Z := 47.
Definition DOT : Z := 46.

Inductive Component :=
| RootDir | CurDir | ParentDir | Normal (name : string).
#[export] Instance Component_eq_dec : EqDecision Component.
Proof. solve_decision. Defined.

Definition is_absolute (path : string) : bool :=
  match as_bytes path with b :: _ => b =? SEP | [] => false end.

(** A leading [.] of a relative path is a component of its own. *)
Definition include_cur_dir (bytes : list Z) : bool :=
  match bytes with
  | [b] => b =? DOT
  | b :: c :: _ => (b =? DOT) && (c =? SEP)
  | [] => false
  end.

(** [Components]: what comes before the body, and the pieces of the body. *)
Definition path_prefix (path : string) : list Z :=
  let bytes := as_bytes path in
  if is_absolute path then [SEP]
  else if include_cur_dir bytes then [DOT] else [].
Definition path_pieces (path : string) : list (list Z) :=
  split_on SEP (drop (length (path_prefix path)) (as_bytes path)).

(** [parse_single_component]: empty pieces and [.] are no components. *)
Definition parse_single_component (piece : list Z) : option Component :=
  if bool_decide (piece = []) || bool_decide (piece = [DOT]) then None
  else if bool_decide (piece = [DOT; DOT]) then Some ParentDir
  else Some (Normal (of_bytes piece)).

Definition components (path : string) : list Component :=
  match path_prefix path with
  | [] => []
  | b :: _ => if b =? SEP then [RootDir] else [CurDir]
  end ++ omap parse_single_component (path_pieces path).

(** Drop the pieces at the back that are no components. *)
Fixpoint trim_pieces (rev_pieces : list (list Z)) : list (list Z) :=
  match rev_pieces with
  | [] => []
  | piece :: rest =>
      match parse_single_component piece with
      | Some _ => rev_pieces
      | None => trim_pieces rest
      end
  end.

Fixpoint join_pieces (pieces : list (list Z)) : list Z :=
  match pieces with
  | [] => []
  | [piece] => piece
  | piece :: rest => piece ++ SEP :: join_pieces rest
  end.

(** [Path::parent]. *)
Definition parent (path : string) : option string :=
  match trim_pieces (reverse (path_pieces path)) with
  | _ :: rest =>
      Some (of_bytes (path_prefix path
                      ++ join_pieces (reverse (trim_pieces rest))))
  | [] =>
      match path_prefix path with
      | [] => None
      | b :: _ => if b =? SEP then None else Some EmptyString
      end
  end.

Definition file_name (path : string) : option string :=
  match last (components path) with Some (Normal name) => Some name | _ => None end.

(** The last dot of a file name: what is before it and after it. *)
Definition rsplit_dot (name : string) : option (string * string) :=
  match split_once DOT (reverse (as_bytes name)) with
  | Some (after, before) =>
      Some (of_bytes (reverse before), of_bytes (reverse after))
  | None => None
  end.
Definition file_stem (path : string) : option string :=
  name ← file_name path;
  match rsplit_dot name with
  | Some (before, _) => if str_is_empty before then Some name else Some before
  | None => Some name
  end.
Definition extension (path : string) : option string :=
  name ← file_name path;
  '(before, after) ← rsplit_dot name;
  if str_is_empty before then None else Some after.

(** [Path::join]. *)
Definition path_join (base tail : string) : string :=
  if is_absolute tail then tail
  else match last (as_bytes base) with
       | None => tail
       | Some b => if b =? SEP then base +:+ tail else base +:+ "/" +:+ tail
       end.

(** [Path::starts_with]: whole components. *)
Fixpoint component_prefix (base path : list Component) : bool :=
  match base, path with
  | [], _ => true
  | b :: base', c :: path' => bool_decide (b = c) && component_prefix base' path'
  | _ :: _, [] => false
  end.
Definition path_starts_with (path base : string) : bool :=
  component_prefix (components base) (components path).

(** ** The file system *)

Record FileMeta := mkFileMeta {
  fm_is_file : bool;
  fm_is_symlink : bool;
  fm_uid : Z;
  fm_mode : Z;
  fm_len : Z;
}.

(** [read_dir]: missing, unreadable, or its entries, an entry that could not
    be read being [None]. *)
Inductive DirListing :=
| DirNotFound
| DirError
| DirEntries (names : list (option string)).

(** What the calls of [std::fs] answer; [None] is an error. *)
Record SessionFs := mkSessionFs {
  sf_metadata : string → option FileMeta;
  sf_symlink_metadata : string → option FileMeta;
  sf_canonicalize : string → option string;
  sf_read : string → option string;
  sf_read_dir : string → DirListing;
}.
