(* ===== verification/DirFs.v ===== *)
(** * The slice of [std::fs] that the durable stores use

    One directory of regular files, addressed by file name.  Every call can
    fail: the schedule [dir_faults] says which calls do, so that a theorem
    that holds for all schedules holds whatever the kernel answers.  A failed
    [write_all] leaves a prefix of the bytes behind.  Inode numbers come from
    an arbitrary allocator, so nothing here relies on their being fresh. *)

From stdpp Require Import base gmap sets list strings.
From Stdlib Require Import ZArith Lia.
From S2P Require Import Prelude.
#[local] Open Scope niralis_scope.

(** [std::io::ErrorKind], the kinds the code names, and the catch-all kind the
    standard library gives to the errno values it does not classify. *)
Inductive ErrorKind :=
| NotFound | PermissionDenied | AlreadyExists | WouldBlock | InvalidInput
| InvalidData | ResourceBusy | TimedOut | Interrupted | StorageFull
| OtherKind | Uncategorized.
#[export] Instance ErrorKind_eq_dec : EqDecision ErrorKind.
Proof. solve_decision. Defined.

Record IoError := IoErr { io_kind : ErrorKind; io_msg : string }.
#[export] Instance IoError_eq_dec : EqDecision IoError.
Proof. solve_decision. Defined.

(** Linux errno values and their classification by the standard library
    (the rows the code can meet). *)
Definition EPERM : Z := 1.
Definition ENOENT : Z := 2.
Definition ESRCH : Z := 3.
Definition EINTR : Z := 4.
Definition EAGAIN : Z := 11.
Definition EACCES : Z := 13.
Definition EBUSY : Z := 16.
Definition EEXIST : Z := 17.
Definition EINVAL : Z := 22.
Definition ENOSPC : Z := 28.
Definition ETIMEDOUT : Z := 110.

Definition decode_error_kind (errno : Z) : ErrorKind :=
  if errno =? ENOENT then NotFound
  else if (errno =? EPERM) || (errno =? EACCES) then PermissionDenied
  else if errno =? EEXIST then AlreadyExists
  else if errno =? EAGAIN then WouldBlock
  else if errno =? EINVAL then InvalidInput
  else if errno =? EINTR then Interrupted
  else if errno =? EBUSY then ResourceBusy
  else if errno =? ENOSPC then StorageFull
  else if errno =? ETIMEDOUT then TimedOut
  else Uncategorized.

(** ** Files and the directory *)

Inductive FileKind := RegularFile | Symlink | Directory | Special.
#[export] Instance FileKind_eq_dec : EqDecision FileKind.
Proof. solve_decision. Defined.

Record File := mkFile {
  file_ino : Z;
  file_nlink : Z;
  file_uid : Z;
  file_mode : Z;
  file_kind : FileKind;
  file_data : string;
}.
#[export] Instance File_eq_dec : EqDecision File.
Proof. solve_decision. Defined.

(** A scheduled failure: the error and, for a write, the bytes that reached
    the file before it. *)
Abbreviation Fault := (option (ErrorKind * nat)).

Record DirFs := mkDirFs {
  dir_files : gmap string File;
  dir_dev : Z;
  dir_uid : Z;
  dir_alloc : nat → Z;
  dir_allocs : nat;
  dir_faults : list Fault;
}.

Definition with_files (f : gmap string File → gmap string File) (d : DirFs)
  : DirFs :=
  mkDirFs (f (dir_files d)) (dir_dev d) (dir_uid d) (dir_alloc d)
    (dir_allocs d) (dir_faults d).

Abbreviation IO := (SR DirFs IoError).

(** Take the next entry of the schedule; an exhausted schedule means no
    further failure. *)
Definition io_draw (d : DirFs) : DirFs * Fault :=
  (mkDirFs (dir_files d) (dir_dev d) (dir_uid d) (dir_alloc d) (dir_allocs d)
     (tail (dir_faults d)),
   match dir_faults d with f :: _ => f | [] => None end).

(** [ENOENT] is an answer about the name, never a transient failure. *)
Definition fault_kind (k : ErrorKind) : ErrorKind :=
  match k with NotFound => OtherKind | _ => k end.

(** A system call: [m] runs when the schedule lets it. *)
Definition io_call {A} (m : IO A) : IO A := λ d,
  let '(d', f) := io_draw d in
  match f with
  | Some (k, _) => (d', Err (IoErr (fault_kind k) "os error"))
  | None => m d'
  end.

(** [OpenOptions::new().write(true).create_new(true).mode(mode).open(path)]. *)
Definition fs_open_create_new (name : string) (mode : Z) : IO () :=
  io_call (λ d,
    match dir_files d !! name with
    | Some _ => (d, Err (IoErr AlreadyExists "file exists"))
    | None =>
        (mkDirFs
           (<[name := mkFile (dir_alloc d (dir_allocs d)) 1 (dir_uid d) mode
                        RegularFile EmptyString]> (dir_files d))
           (dir_dev d) (dir_uid d) (dir_alloc d) (S (dir_allocs d))
           (dir_faults d), Ok ())
    end).

Definition set_data (data : string) (f : File) : File :=
  mkFile (file_ino f) (file_nlink f) (file_uid f) (file_mode f) (file_kind f)
    data.

(** [file.write_all(bytes)] on a file just created. *)
Definition fs_write_all (name data : string) : IO () := λ d,
  let '(d', f) := io_draw d in
  match f with
  | Some (k, n) =>
      (with_files (alter (set_data (String.substring 0 n data)) name) d',
       Err (IoErr (fault_kind k) "os error"))
  | None => (with_files (alter (set_data data) name) d', Ok ())
  end.

(** [file.sync_all()] and [File::open(directory)?.sync_all()]. *)
Definition fs_sync_all : IO () := io_call (λ d, (d, Ok ())).
Definition fs_sync_directory : IO () := fs_sync_all ;;; fs_sync_all.

(** [fs::rename]: atomic, replacing the destination. *)
Definition fs_rename (from to : string) : IO () :=
  io_call (λ d,
    match dir_files d !! from with
    | None => (d, Err (IoErr NotFound "no such file"))
    | Some f => (with_files (λ m, <[to := f]> (delete from m)) d, Ok ())
    end).

Definition fs_remove_file (name : string) : IO () :=
  io_call (λ d,
    match dir_files d !! name with
    | None => (d, Err (IoErr NotFound "no such file"))
    | Some _ => (with_files (delete name) d, Ok ())
    end).

(** [fs::symlink_metadata]. *)
Definition fs_symlink_metadata (name : string) : IO File :=
  io_call (λ d,
    match dir_files d !! name with
    | None => (d, Err (IoErr NotFound "no such file"))
    | Some f => (d, Ok f)
    end).

#[global] Arguments fs_open_create_new : simpl never.
#[global] Arguments fs_write_all : simpl never.
#[global] Arguments fs_sync_all : simpl never.
#[global] Arguments fs_sync_directory : simpl never.
#[global] Arguments fs_rename : simpl never.
#[global] Arguments fs_remove_file : simpl never.
#[global] Arguments fs_symlink_metadata : simpl never.

(** ** What every call keeps *)

(** Only [dir_files] and the two cursors ever change. *)
Definition same_mount (d d' : DirFs) : Prop :=
  dir_dev d' = dir_dev d ∧ dir_uid d' = dir_uid d ∧ dir_alloc d' = dir_alloc d.

#[export] Instance same_mount_preorder : PreOrder same_mount.
Proof. split; [done|]. intros x y z (?&?&?) (?&?&?). repeat split; congruence. Qed.

Lemma io_draw_files d : dir_files (io_draw d).1 = dir_files d.
Proof. done. Qed.

Lemma io_call_Err_files {A} (m : IO A) d :
  (∀ d0, dir_files d0 = dir_files d →
     dir_files (m d0).1 = dir_files d) →
  dir_files (io_call m d).1 = dir_files d.
Proof.
  intros H. unfold io_call. cbn. destruct (dir_faults d) as [|[[k n]|] fs]; cbn;
    auto; by apply H.
Qed.

Lemma fs_sync_all_files d : dir_files (fs_sync_all d).1 = dir_files d.
Proof. apply io_call_Err_files. by intros. Qed.

Lemma fs_sync_directory_files d :
  dir_files (fs_sync_directory d).1 = dir_files d.
Proof.
  unfold fs_sync_directory, sr_bind.
  pose proof (fs_sync_all_files d) as H1.
  destruct (fs_sync_all d) as [d1 [[]|e]]; cbn in *; [|done].
  by etrans; [apply fs_sync_all_files|].
Qed.

Lemma fs_symlink_metadata_files name d :
  dir_files (fs_symlink_metadata name d).1 = dir_files d.
Proof.
  apply io_call_Err_files. intros d0 E. cbn.
  by destruct (dir_files d0 !! name).
Qed.

Lemma fs_symlink_metadata_Ok name d d' f :
  fs_symlink_metadata name d = (d', Ok f) → dir_files d !! name = Some f.
Proof.
  unfold fs_symlink_metadata, io_call. cbn. intros H. split_cases H; done.
Qed.

Lemma fs_symlink_metadata_dev name d :
  dir_dev (fs_symlink_metadata name d).1 = dir_dev d.
Proof.
  unfold fs_symlink_metadata, io_call. cbn.
  destruct (dir_faults d) as [|[[]|] ?]; cbn; try done;
    by destruct (dir_files d !! name).
Qed.

Lemma fs_symlink_metadata_NotFound name d d' e :
  fs_symlink_metadata name d = (d', Err e) → io_kind e = NotFound →
  dir_files d !! name = None.
Proof.
  unfold fs_symlink_metadata, io_call. cbn. intros H He.
  destruct (dir_faults d) as [|[[k n]|] fs]; cbn in H;
    try (by destruct (dir_files d !! name)).
  injection H as <- <-. by destruct k.
Qed.

(** Creating touches one name, and only when it was absent. *)
Lemma fs_open_create_new_spec name mode d :
  let '(d', r) := fs_open_create_new name mode d in
  match r with
  | Ok _ => dir_files d !! name = None ∧
      ∃ ino, dir_files d' =
        <[name := mkFile ino 1 (dir_uid d) mode RegularFile EmptyString]>
          (dir_files d)
  | Err _ => dir_files d' = dir_files d
  end.
Proof.
  unfold fs_open_create_new, io_call. cbn.
  destruct (dir_faults d) as [|[[k n]|] fs]; cbn; try done;
    destruct (dir_files d !! name) eqn:E; cbn; eauto.
Qed.

Lemma fs_open_create_new_present name mode d f :
  dir_files d !! name = Some f →
  ∃ d' e, fs_open_create_new name mode d = (d', Err e) ∧
          dir_files d' = dir_files d.
Proof.
  intros H. unfold fs_open_create_new, io_call. cbn.
  destruct (dir_faults d) as [|[[k n]|] fs]; cbn; rewrite ?H; eauto.
Qed.

Lemma fs_write_all_spec name data d :
  let '(d', r) := fs_write_all name data d in
  ∃ written, dir_files d' = alter (set_data written) name (dir_files d) ∧
    (is_ok r = true → written = data).
Proof.
  unfold fs_write_all. cbn.
  destruct (dir_faults d) as [|[[k n]|] fs]; cbn; eauto.
  eexists. split; [reflexivity|]. discriminate.
Qed.

Lemma fs_rename_spec from to d :
  let '(d', r) := fs_rename from to d in
  match r with
  | Ok _ => ∃ f, dir_files d !! from = Some f ∧
                 dir_files d' = <[to := f]> (delete from (dir_files d))
  | Err _ => dir_files d' = dir_files d
  end.
Proof.
  unfold fs_rename, io_call. cbn.
  destruct (dir_faults d) as [|[[k n]|] fs]; cbn; try done;
    destruct (dir_files d !! from) eqn:E; cbn; eauto.
Qed.

Lemma fs_remove_file_spec name d :
  let '(d', r) := fs_remove_file name d in
  match r with
  | Ok _ => is_Some (dir_files d !! name) ∧
            dir_files d' = delete name (dir_files d)
  | Err _ => dir_files d' = dir_files d
  end.
Proof.
  unfold fs_remove_file, io_call. cbn.
  destruct (dir_faults d) as [|[[k n]|] fs]; cbn; try done;
    destruct (dir_files d !! name) eqn:E; cbn; eauto.
Qed.

(** ** Atomic replacement

    The sequence both stores use: create the temporary name, write and sync
    it, rename it over the record, sync the directory. *)
Definition fs_replace (tmp path bytes : string) : IO () :=
  fs_open_create_new tmp 384 ;;;
  fs_write_all tmp bytes ;;;
  fs_sync_all ;;;
  fs_rename tmp path ;;;
  fs_sync_directory.

Definition fresh_file (d : DirFs) (ino : Z) (bytes : string) : File :=
  mkFile ino 1 (dir_uid d) 384 RegularFile bytes.

(** What a replacement may leave behind, whatever fails. *)
Inductive replace_outcome (d : DirFs) (tmp path bytes : string) (d' : DirFs)
  : bool → Prop :=
| replace_untouched : dir_files d' = dir_files d →
    replace_outcome d tmp path bytes d' false
| replace_abandoned f : dir_files d !! tmp = None →
    dir_files d' = <[tmp := f]> (dir_files d) →
    replace_outcome d tmp path bytes d' false
| replace_done ok ino : dir_files d !! tmp = None →
    dir_files d' = <[path := fresh_file d ino bytes]> (dir_files d) →
    replace_outcome d tmp path bytes d' ok.

Lemma fs_replace_outcome tmp path bytes d :
  let '(d', r) := fs_replace tmp path bytes d in
  replace_outcome d tmp path bytes d' (is_ok r).
Proof.
  unfold fs_replace, sr_bind.
  pose proof (fs_open_create_new_spec tmp 384 d) as H1.
  destruct (fs_open_create_new tmp 384 d) as [d1 [[]|e]]; cbn;
    [|by apply replace_untouched].
  destruct H1 as (Hn & ino & H1).
  pose proof (fs_write_all_spec tmp bytes d1) as H2.
  destruct (fs_write_all tmp bytes d1) as [d2 r2].
  destruct H2 as (w & H2 & Hw). rewrite H1 in H2.
  rewrite alter_insert_eq in H2.
  destruct r2 as [[]|e]; cbn; [|eapply replace_abandoned; [exact Hn|exact H2]].
  rewrite (Hw eq_refl) in H2. clear Hw w.
  pose proof (fs_sync_all_files d2) as H3.
  destruct (fs_sync_all d2) as [d3 [[]|e]]; cbn in *;
    [|eapply replace_abandoned; [exact Hn|rewrite H3; exact H2]].
  pose proof (fs_rename_spec tmp path d3) as H4.
  destruct (fs_rename tmp path d3) as [d4 [[]|e]]; cbn;
    [|eapply replace_abandoned; [exact Hn|rewrite H4, H3; exact H2]].
  destruct H4 as (f & Hf & H4). rewrite H3, H2 in Hf, H4.
  rewrite lookup_insert_eq in Hf. simplify_eq.
  rewrite delete_insert_id in H4 by done.
  pose proof (fs_sync_directory_files d4) as H5.
  destruct (fs_sync_directory d4) as [d5 r5]. cbn in *.
  apply (replace_done _ _ _ _ _ _ ino); [done|]. by rewrite H5, H4.
Qed.

(** A temporary file left by an earlier failure blocks every later
    replacement of that name and changes nothing. *)
Lemma fs_replace_blocked tmp path bytes d f :
  dir_files d !! tmp = Some f →
  ∃ d' e, fs_replace tmp path bytes d = (d', Err e) ∧
          dir_files d' = dir_files d.
Proof.
  intros H. unfold fs_replace, sr_bind.
  destruct (fs_open_create_new_present tmp 384 d f H) as (d' & e & -> & ?).
  eauto.
Qed.

(** With no failure scheduled and no abandoned temporary, it succeeds. *)
Lemma fs_replace_success tmp path bytes d :
  dir_faults d = [] → dir_files d !! tmp = None →
  ∃ d', fs_replace tmp path bytes d = (d', Ok ()) ∧ dir_faults d' = [] ∧
    dir_uid d' = dir_uid d ∧ dir_dev d' = dir_dev d ∧
    dir_files d' =
      <[path := fresh_file d (dir_alloc d (dir_allocs d)) bytes]> (dir_files d).
Proof.
  intros Hf Hn. unfold fs_replace, sr_bind, fs_open_create_new, fs_write_all,
    fs_sync_directory, fs_rename, fs_sync_all, io_call, io_draw, with_files,
    sr_bind.
  repeat (cbn; rewrite ?Hf, ?Hn, ?alter_insert_eq, ?lookup_insert_eq).
  eexists. repeat split; try done. cbn. by rewrite delete_insert_id.
Qed.

(** ** A directory whose calls do not fail *)

Definition faultless (d : DirFs) : Prop := Forall (λ f, f = None) (dir_faults d).
Definition stays_faultless (d d' : DirFs) : Prop := faultless d → faultless d'.
#[export] Instance stays_faultless_preorder : PreOrder stays_faultless.
Proof. unfold stays_faultless. split; [intros d; auto|intros x y z; auto]. Qed.

Lemma io_draw_faultless d : faultless d → faultless (io_draw d).1 ∧ (io_draw d).2 = None.
Proof.
  unfold faultless. cbn. destruct (dir_faults d); cbn; [done|].
  intros [-> ?]%Forall_cons. done.
Qed.
Lemma io_call_faultless {A} (m : IO A) :
  sr_keeps stays_faultless m → sr_keeps stays_faultless (io_call m).
Proof.
  intros Hm d Hd. apply io_draw_faultless in Hd as [Hd Hn]. unfold io_call.
  destruct (io_draw d) as [d' f]. cbn in Hd, Hn. subst f. by apply Hm.
Qed.
(** ... where a call does what it is asked to. *)
Lemma io_call_runs {A} (m : IO A) d : faultless d → io_call m d = m (io_draw d).1.
Proof.
  intros [_ Hn]%io_draw_faultless. unfold io_call. destruct (io_draw d). cbn in *. by subst.
Qed.

Lemma fs_replace_faultless tmp path bytes : sr_keeps stays_faultless (fs_replace tmp path bytes).
Proof.
  assert (sr_keeps stays_faultless fs_sync_all) as Hs by (apply io_call_faultless; by intros d).
  unfold fs_replace, fs_sync_directory.
  repeat (apply keeps_bind; [apply _| |intros _]); try exact Hs.
  - apply io_call_faultless. intros d Hd. destruct (dir_files d !! tmp); exact Hd.
  - intros d Hd. apply io_draw_faultless in Hd as [Hd Hn]. unfold fs_write_all.
    destruct (io_draw d) as [d' f]. cbn in Hd, Hn. by subst f.
  - apply io_call_faultless. intros d Hd. destruct (dir_files d !! tmp); exact Hd.
Qed.
Lemma fs_metadata_faultless name : sr_keeps stays_faultless (fs_symlink_metadata name).
Proof. apply io_call_faultless. intros d Hd. destruct (dir_files d !! name); exact Hd. Qed.
Lemma fs_metadata_runs name d f :
  faultless d → dir_files d !! name = Some f → ∃ d', fs_symlink_metadata name d = (d', Ok f).
Proof.
  intros Hd Hf. unfold fs_symlink_metadata. rewrite io_call_runs, io_draw_files, Hf by done.
  by eexists.
Qed.
Lemma fs_remove_runs name d f :
  faultless d → dir_files d !! name = Some f →
  ∃ d', fs_remove_file name d = (d', Ok ()) ∧ faultless d'.
Proof.
  intros Hd Hf. unfold fs_remove_file. rewrite io_call_runs, io_draw_files, Hf by done.
  eexists. split; [done|]. by apply io_draw_faultless in Hd as [? _].
Qed.
Lemma fs_sync_directory_runs d : faultless d → (fs_sync_directory d).2 = Ok ().
Proof.
  intros Hd. unfold fs_sync_directory, fs_sync_all. rewrite sr_bind_eq, io_call_runs by done.
  cbn beta iota. rewrite io_call_runs; [done|]. by apply io_draw_faultless in Hd as [? _].
Qed.
