(* ===== verification/RecoveryTypes.v ===== *)
(** * Data of the recovery subsystem

    The enumerations and records of [recovery_admin.rs], [recovery/model.rs],
    [recovery/record.rs], [recovery/persistent.rs] and the boot identity of
    [recovery/previous_boot_types.rs].  A record keeps the source's fields in
    the source's order; [pr_with] rebuilds a durable record with new values of
    the fields the ledger operations assign. *)

From stdpp Require Import base gmap sets list strings.
From Stdlib Require Import ZArith Lia.
From S2P Require Import Prelude.

(** ** Virtual-terminal provenance and administrative attempts *)

Record DeviceIdentity := mkDeviceIdentity {
  di_major : Z; di_minor : Z; di_character_device : bool }.
#[export] Instance DeviceIdentity_eq_dec : EqDecision DeviceIdentity.
Proof. solve_decision. Defined.

Record VtHolderIdentity := mkVtHolderIdentity {
  vh_pid : Z; vh_starttime : Z; vh_uid : Z; vh_fd : Z;
  vh_executable : option (Z * Z); vh_cgroup : option string;
  vh_session_id : option string }.
#[export] Instance VtHolderIdentity_eq_dec : EqDecision VtHolderIdentity.
Proof. solve_decision. Defined.

Inductive VtInspectionFailure :=
| VifActiveVt (errno : Z)
| VifTargetDevice (errno : Z)
| VifProcEnumeration (errno : Z)
| VifProcessIdentity (pid errno : Z)
| VifFdInspection (pid fd errno : Z)
| VifProcessMetadata (pid errno : Z).
#[export] Instance VtInspectionFailure_eq_dec : EqDecision VtInspectionFailure.
Proof. solve_decision. Defined.

Inductive VtBusyClassification :=
| TargetStillForeground | VisibleUserspaceHolder
| MultipleVisibleUserspaceHolders | KernelBusyUnattributed
| VbcInspectionUnavailable | InternalNiralisHolder.
#[export] Instance VtBusyClassification_eq_dec : EqDecision VtBusyClassification.
Proof. solve_decision. Defined.

Record VtBusyProvenance := mkVtBusyProvenance {
  vb_target_vt : Z;
  vb_observed_active_vt : option Z;
  vb_target_is_foreground : option bool;
  vb_target_device : option DeviceIdentity;
  vb_visible_holders : list VtHolderIdentity;
  vb_holders_truncated : bool;
  vb_inspection_failures : list VtInspectionFailure;
  vb_classification : VtBusyClassification;
  vb_captured_at_boottime_ns : Z;
}.
#[export] Instance VtBusyProvenance_eq_dec : EqDecision VtBusyProvenance.
Proof. solve_decision. Defined.

Inductive VtRecoveryAttemptState :=
| VraIntentPersisted | VraConfirmed | VraFailed (errno : Z)
| VraRejected (reason : string) | VraIndeterminate.
#[export] Instance VtRecoveryAttemptState_eq_dec :
  EqDecision VtRecoveryAttemptState.
Proof. solve_decision. Defined.

Record VtRecoveryAttempt := mkVtRecoveryAttempt {
  va_attempt_id : Z;
  va_requested_by : Z;
  va_expected_sequence : Z;
  va_state : VtRecoveryAttemptState;
  va_provenance_before : VtBusyProvenance;
  va_provenance_after : option VtBusyProvenance;
}.
#[export] Instance VtRecoveryAttempt_eq_dec : EqDecision VtRecoveryAttempt.
Proof. solve_decision. Defined.

Definition MAX_VT_RECOVERY_ATTEMPTS : Z := 8.

(** ** Supervisor vocabulary *)

Inductive StartupRecoveryFailure :=
| UnsupportedRehydration | PersistentRecordConflict | SrfBoundaryIdentityChanged
| WorkerIdentityIndeterminate | LeaderIdentityIndeterminate
| SrfSystemdOwnerChanged | SrfLogindOwnerChanged | SrfLogindIdentityChanged
| PreviousBootConflict | SrfUnknownPayloadScope | SrfVtDisallocateBusy.
#[export] Instance StartupRecoveryFailure_eq_dec :
  EqDecision StartupRecoveryFailure.
Proof. solve_decision. Defined.

Definition persistent_reason (f : StartupRecoveryFailure) : string :=
  match f with
  | UnsupportedRehydration => "unsupported_rehydration"
  | PersistentRecordConflict => "persistent_record_conflict"
  | SrfBoundaryIdentityChanged => "boundary_identity_changed"
  | WorkerIdentityIndeterminate => "worker_identity_indeterminate"
  | LeaderIdentityIndeterminate => "leader_identity_indeterminate"
  | SrfSystemdOwnerChanged => "systemd_owner_changed"
  | SrfLogindOwnerChanged => "logind_owner_changed"
  | SrfLogindIdentityChanged => "logind_identity_changed"
  | PreviousBootConflict => "previous_boot_conflict"
  | SrfUnknownPayloadScope => "unknown_payload_scope"
  | SrfVtDisallocateBusy => "vt_disallocate_busy"
  end.

Inductive WorkerExitClassification :=
| CleanFinalization | FailedAfterBoundaryCleanup | UnexpectedExitBeforeStarted
| UnexpectedExitRunning | KilledBySignal (signal : Z) | RecoveryGateLost.
#[export] Instance WorkerExitClassification_eq_dec :
  EqDecision WorkerExitClassification.
Proof. solve_decision. Defined.

Inductive EmergencyRecoveryStage :=
| RecoveryRecordValidation | PayloadIdentityValidation | EmergencyKill
| BoundaryObservation | BoundaryProof | SupervisorUnref | LogindCleanup
| SelinuxTtyRestore | VtRecovery.
#[export] Instance EmergencyRecoveryStage_eq_dec :
  EqDecision EmergencyRecoveryStage.
Proof. solve_decision. Defined.

Inductive SystemdUnitOperation := SuoRef | SuoKill | SuoUnref.
#[export] Instance SystemdUnitOperation_eq_dec : EqDecision SystemdUnitOperation.
Proof. solve_decision. Defined.

Inductive SupervisorRecoveryError :=
| InvalidRecord | InvalidPayloadIdentity | BoundaryIdentityChanged
| BusUnavailable
| AuthorizationDenied (action : string) (operation : SystemdUnitOperation)
| BusDeliveryIndeterminate | LeaderPidfdUnavailable | LeaderAlreadyDead
| LeaderStillAlive | BoundaryStillPopulated | BoundaryObserverUnavailable
| BoundaryTimedOut | SupervisorUnrefFailed | LogindUnavailable
| LogindIdentityChanged | LogindCleanupIndeterminate | LogindRemovalTimedOut
| VtIdentityChanged | VtOpenFailed (errno : Z) | VtKernelRestoreFailed (errno : Z)
| SelinuxRestoreFailed (errno : Z) | VtActivationFailed (errno : Z)
| VtDisallocateBusy | VtDisallocateFailed (errno : Z)
| SystemdOwnerChanged | LogindOwnerChanged | UnknownPayloadScope.
#[export] Instance SupervisorRecoveryError_eq_dec :
  EqDecision SupervisorRecoveryError.
Proof. solve_decision. Defined.

Record PreviousVtIdentity := mkPreviousVt { pv_number : Z }.
#[export] Instance PreviousVtIdentity_eq_dec : EqDecision PreviousVtIdentity.
Proof. solve_decision. Defined.

(** [SeatLifecycle] of [recovery/record.rs]. *)
Inductive SeatLifecycle :=
| SeatFree
| SeatActive (lifecycle_id : string)
| SeatRecovering (lifecycle_id phase : string) (reason : WorkerExitClassification)
| SeatQuarantined (lifecycle_id : string) (stage : EmergencyRecoveryStage)
    (reason : SupervisorRecoveryError).
#[export] Instance SeatLifecycle_eq_dec : EqDecision SeatLifecycle.
Proof. solve_decision. Defined.

(** ** Durable operations and records *)

Inductive DurableOperationState :=
| NotStarted
| IntentPersisted (attempt_id : Z)
| Confirmed (attempt_id : Z)
| OpFailed (attempt_id failure_class : Z)
| Indeterminate (attempt_id stage : Z).
#[export] Instance DurableOperationState_eq_dec :
  EqDecision DurableOperationState.
Proof. solve_decision. Defined.

Record DurableOperationLedger := mkOpLedger {
  ol_payload_kill : DurableOperationState;
  ol_supervisor_unref : DurableOperationState;
  ol_logind_termination : DurableOperationState;
  ol_selinux_restore : DurableOperationState;
  ol_vt_activation : DurableOperationState;
  ol_vt_disallocate : DurableOperationState;
  ol_runtime_release : DurableOperationState;
  ol_record_resolution : DurableOperationState;
}.
#[export] Instance DurableOperationLedger_eq_dec :
  EqDecision DurableOperationLedger.
Proof. solve_decision. Defined.

Definition DurableOperationLedger_default : DurableOperationLedger :=
  mkOpLedger NotStarted NotStarted NotStarted NotStarted NotStarted NotStarted
    NotStarted NotStarted.

Record PersistentRecoveryRecord := mkRecoveryRecord {
  pr_format_version : Z;
  pr_lifecycle_id : string;
  pr_sequence : Z;
  pr_created_at_unix : Z;
  pr_created_boot_id : string;
  pr_last_updated_boot_id : string;
  pr_state : string;
  pr_uid : Z;
  pr_gid : Z;
  pr_username : string;
  pr_session_name : string;
  pr_seat : string;
  pr_worker_pid : Z;
  pr_launcher_pid : Z;
  pr_launcher_starttime : option Z;
  pr_launcher_executable : option (Z * Z);
  pr_worker_starttime : option Z;
  pr_worker_executable : option (Z * Z);
  pr_worker_cgroup : option string;
  pr_leader_pid : option Z;
  pr_leader_starttime : option Z;
  pr_leader_executable : option (Z * Z);
  pr_payload_unit : option string;
  pr_transient : option bool;
  pr_invocation_id : option string;
  pr_object_path : option string;
  pr_control_group : option string;
  pr_slice : option string;
  pr_logind_session_id : option string;
  pr_logind_object_path : option string;
  pr_target_vt : option Z;
  pr_previous_vt : option Z;
  pr_pam_status : string;
  pr_operation_ledger : DurableOperationLedger;
  pr_quarantine_reason : option string;
  pr_vt_busy_provenance : option VtBusyProvenance;
  pr_vt_recovery_attempts : list VtRecoveryAttempt;
}.
#[export] Instance PersistentRecoveryRecord_eq_dec :
  EqDecision PersistentRecoveryRecord.
Proof. solve_decision. Defined.

Definition RECOVERY_FORMAT_VERSION : Z := 2.
Definition MAX_RECOVERY_RECORD_BYTES : Z := 128 * 1024.
Definition MAX_RECOVERY_RECORDS : Z := 64.

Definition pr_with (r : PersistentRecoveryRecord) (sequence : Z)
    (last_updated_boot_id state pam_status : string)
    (operation_ledger : DurableOperationLedger)
    (quarantine_reason : option string)
    (vt_busy_provenance : option VtBusyProvenance)
    (vt_recovery_attempts : list VtRecoveryAttempt)
    : PersistentRecoveryRecord :=
  mkRecoveryRecord (pr_format_version r) (pr_lifecycle_id r) sequence
    (pr_created_at_unix r) (pr_created_boot_id r) last_updated_boot_id state
    (pr_uid r) (pr_gid r) (pr_username r) (pr_session_name r) (pr_seat r)
    (pr_worker_pid r) (pr_launcher_pid r) (pr_launcher_starttime r)
    (pr_launcher_executable r) (pr_worker_starttime r) (pr_worker_executable r)
    (pr_worker_cgroup r) (pr_leader_pid r) (pr_leader_starttime r)
    (pr_leader_executable r) (pr_payload_unit r) (pr_transient r)
    (pr_invocation_id r) (pr_object_path r) (pr_control_group r) (pr_slice r)
    (pr_logind_session_id r) (pr_logind_object_path r) (pr_target_vt r)
    (pr_previous_vt r) pam_status operation_ledger quarantine_reason
    vt_busy_provenance vt_recovery_attempts.

Definition set_transition (r : PersistentRecoveryRecord) (sequence : Z)
    (boot state : string) : PersistentRecoveryRecord :=
  pr_with r sequence boot state (pr_pam_status r) (pr_operation_ledger r)
    (pr_quarantine_reason r) (pr_vt_busy_provenance r)
    (pr_vt_recovery_attempts r).
Definition set_operation_ledger (l : DurableOperationLedger)
    (r : PersistentRecoveryRecord) : PersistentRecoveryRecord :=
  pr_with r (pr_sequence r) (pr_last_updated_boot_id r) (pr_state r)
    (pr_pam_status r) l (pr_quarantine_reason r) (pr_vt_busy_provenance r)
    (pr_vt_recovery_attempts r).
Definition set_pam_status (s : string) (r : PersistentRecoveryRecord) :=
  pr_with r (pr_sequence r) (pr_last_updated_boot_id r) (pr_state r) s
    (pr_operation_ledger r) (pr_quarantine_reason r) (pr_vt_busy_provenance r)
    (pr_vt_recovery_attempts r).
Definition set_quarantine_reason (q : option string)
    (r : PersistentRecoveryRecord) :=
  pr_with r (pr_sequence r) (pr_last_updated_boot_id r) (pr_state r)
    (pr_pam_status r) (pr_operation_ledger r) q (pr_vt_busy_provenance r)
    (pr_vt_recovery_attempts r).
Definition set_vt_busy_provenance (p : option VtBusyProvenance)
    (r : PersistentRecoveryRecord) :=
  pr_with r (pr_sequence r) (pr_last_updated_boot_id r) (pr_state r)
    (pr_pam_status r) (pr_operation_ledger r) (pr_quarantine_reason r) p
    (pr_vt_recovery_attempts r).
Definition set_vt_recovery_attempts (l : list VtRecoveryAttempt)
    (r : PersistentRecoveryRecord) :=
  pr_with r (pr_sequence r) (pr_last_updated_boot_id r) (pr_state r)
    (pr_pam_status r) (pr_operation_ledger r) (pr_quarantine_reason r)
    (pr_vt_busy_provenance r) l.

(** The fields no ledger operation assigns. *)
Definition same_identity (r r' : PersistentRecoveryRecord) : Prop :=
  ∃ seq boot st pam ol q p atts, r' = pr_with r seq boot st pam ol q p atts.

#[export] Instance same_identity_preorder : PreOrder same_identity.
Proof.
  split.
  - intros []. do 8 eexists. reflexivity.
  - intros x y z (?&?&?&?&?&?&?&?&->) (?&?&?&?&?&?&?&?&->).
    do 8 eexists. reflexivity.
Qed.

Lemma same_identity_lifecycle r r' :
  same_identity r r' → pr_lifecycle_id r' = pr_lifecycle_id r.
Proof. by intros (?&?&?&?&?&?&?&?&->). Qed.
Lemma same_identity_seat r r' : same_identity r r' → pr_seat r' = pr_seat r.
Proof. by intros (?&?&?&?&?&?&?&?&->). Qed.
Lemma same_identity_boot r r' :
  same_identity r r' → pr_created_boot_id r' = pr_created_boot_id r.
Proof. by intros (?&?&?&?&?&?&?&?&->). Qed.
#[export] Hint Resolve same_identity_lifecycle same_identity_seat
  same_identity_boot : niralis.

(** ** Boot identity *)

Inductive PreviousBootInspectionError :=
| InvalidBootIdentity | Unavailable | AuthorityChanged.
#[export] Instance PreviousBootInspectionError_eq_dec :
  EqDecision PreviousBootInspectionError.
Proof. solve_decision. Defined.

Record BootIdentity := mkBootIdentity { boot_str : string }.
#[export] Instance BootIdentity_eq_dec : EqDecision BootIdentity.
Proof. solve_decision. Defined.

(** [u8::is_ascii_whitespace]: space, tab, line feed, form feed, carriage
    return. *)
Definition is_ascii_whitespace (c : Ascii.ascii) : bool :=
  let n := Ascii.nat_of_ascii c in
  (n =? 32)%nat || (n =? 9)%nat || (n =? 10)%nat || (n =? 12)%nat
  || (n =? 13)%nat.

Definition BootIdentity_parse (value : string)
    : result BootIdentity PreviousBootInspectionError :=
  if str_is_empty value || (128 <? str_len value)
     || str_any is_ascii_whitespace value
  then Err InvalidBootIdentity
  else Ok (mkBootIdentity value).

Lemma BootIdentity_parse_str v b : BootIdentity_parse v = Ok b → boot_str b = v.
Proof. unfold BootIdentity_parse. case_match; naive_solver. Qed.
