(* ===== verification/LedgerTaxonomy.v ===== *)
(** * Classification of durable recovery records

    [persistent_taxonomy.rs] (the read results and the invariants a record on
    disk must satisfy) and [persistent_record_set.rs] (how the set of read
    results maps to blocked seats and to a global quarantine).  The two
    checkers are proved equivalent to declarative conditions. *)

From stdpp Require Import base gmap sets list strings sorting.
From Stdlib Require Import ZArith Lia.
From S2P Require Import Prelude RecoveryTypes.

(** ** Read results *)

Inductive CorruptionReason :=
| Truncated | InvalidJson | Oversized | MissingRequiredField | CorInvalidBootId
| InvalidOperationLedger | InvalidNumericRange.
#[export] Instance CorruptionReason_eq_dec : EqDecision CorruptionReason.
Proof. solve_decision. Defined.

Inductive UnsafeMetadataReason :=
| UnsafeSymlink | NonRegularFile | LinkCount | WrongOwner | UnsafeMode.
#[export] Instance UnsafeMetadataReason_eq_dec : EqDecision UnsafeMetadataReason.
Proof. solve_decision. Defined.

Inductive RecordIdentityMismatch :=
| FilenameRecordId | RimDuplicateRecordId | RimDuplicateLifecycle
| ConflictingSeat.
#[export] Instance RecordIdentityMismatch_eq_dec :
  EqDecision RecordIdentityMismatch.
Proof. solve_decision. Defined.

Inductive HistoricalInvariantViolation :=
| SequenceRegression | AttemptIdZero | AttemptIdRegression | DuplicateAttemptId
| ResultWithoutIntent | ConflictingTerminalResult | OperationAfterRecordResolved
| RuntimeReleaseBeforeRecordResolved | RecordRemovalBeforeRuntimeRelease
| AcknowledgementCrossedBoot | HivInvalidBootId.
#[export] Instance HistoricalInvariantViolation_eq_dec :
  EqDecision HistoricalInvariantViolation.
Proof. solve_decision. Defined.

Inductive RecordConflictReason :=
| DuplicateRecordId | DuplicateLifecycle | SameSeatSameBootPrecedence
| CorruptNeighborKnownSeat | UnknownVersionNeighbor.
#[export] Instance RecordConflictReason_eq_dec : EqDecision RecordConflictReason.
Proof. solve_decision. Defined.

Inductive DurableRecoveryRecordReadResult :=
| ValidSameBoot (path : string) (record : PersistentRecoveryRecord)
| ValidPreviousBoot (path : string) (record : PersistentRecoveryRecord)
| Corrupted (path : string) (reason : CorruptionReason)
| UnsupportedVersion (path : string) (version : Z)
| UnsafeMetadata (path : string) (reason : UnsafeMetadataReason)
| IdentityMismatch (path : string) (reason : RecordIdentityMismatch)
| HistoricalViolation (path : string)
    (violations : list HistoricalInvariantViolation)
| ConflictingRecords (path : string) (reason : RecordConflictReason).
#[export] Instance ReadResult_eq_dec :
  EqDecision DurableRecoveryRecordReadResult.
Proof. solve_decision. Defined.

Definition read_result_record (r : DurableRecoveryRecordReadResult)
    : option PersistentRecoveryRecord :=
  match r with
  | ValidSameBoot _ record | ValidPreviousBoot _ record => Some record
  | _ => None
  end.

Definition known_seat (r : DurableRecoveryRecordReadResult) : option string :=
  pr_seat <$> read_result_record r.

(** ** Slices and sorting, as the code uses them *)

(** [slice.windows(2).any(|w| p(w[0], w[1]))]. *)
Fixpoint windows2_any {A} (p : A → A → bool) (l : list A) : bool :=
  match l with
  | x :: (y :: _) as t => p x y || windows2_any p t
  | _ => false
  end.

(** [Vec::dedup]: drop an element equal to the one kept before it. *)
Fixpoint dedup {A} `{EqDecision A} (l : list A) : list A :=
  match l with
  | x :: t =>
      match dedup t with
      | y :: t' => if decide (x = y) then y :: t' else x :: y :: t'
      | [] => [x]
      end
  | [] => []
  end.

(** [sort_by_key(|v| format!("{v:?}"))]. *)
Definition name_le {A} (name : A → string) (a b : A) : Prop :=
  str_le (name a) (name b).
#[export] Instance name_le_dec {A} (name : A → string) (a b : A) :
  Decision (name_le name a b).
Proof. unfold name_le. apply _. Defined.
Definition sort_by_name {A} (name : A → string) (l : list A) : list A :=
  merge_sort (name_le name) l.

Lemma windows2_any_false {A} (p : A → A → bool) l :
  windows2_any p l = false ↔
  ∀ i x y, l !! i = Some x → l !! S i = Some y → p x y = false.
Proof.
  induction l as [|x [|y l] IH]; [naive_solver| |].
  - split; [intros _ [|i] ? ?; cbn; naive_solver | done].
  - change (windows2_any p (x :: y :: l))
      with (p x y || windows2_any p (y :: l)).
    rewrite orb_false_iff, IH. split.
    + intros [H1 H2] [|i] a b; cbn; [naive_solver|]. apply (H2 i).
    + intros H. split; [by apply (H 0%nat)|]. intros i a b Ha Hb.
      by apply (H (S i)).
Qed.

Lemma elem_of_dedup {A} `{EqDecision A} (l : list A) x :
  x ∈ dedup l ↔ x ∈ l.
Proof.
  revert x. induction l as [|a l IH]; intros x; [done|]. cbn.
  destruct (dedup l) as [|y t] eqn:E.
  - rewrite !elem_of_cons, <- (IH x). done.
  - case_decide; subst; rewrite !elem_of_cons, <- (IH x), elem_of_cons;
      naive_solver.
Qed.

Lemma elem_of_sort_by_name {A} (name : A → string) (l : list A) x :
  x ∈ sort_by_name name l ↔ x ∈ l.
Proof. unfold sort_by_name. by rewrite (merge_sort_Permutation _ l). Qed.

(** ** Historical invariants of one record *)

Definition op_attempt (s : DurableOperationState) : option Z :=
  match s with
  | NotStarted => None
  | IntentPersisted a | Confirmed a | OpFailed a _ | Indeterminate a _ => Some a
  end.
Definition is_confirmed (s : DurableOperationState) : bool :=
  match s with Confirmed _ => true | _ => false end.
Definition is_terminal_op (s : DurableOperationState) : bool :=
  match s with Confirmed _ | OpFailed _ _ | Indeterminate _ _ => true
  | _ => false end.

(** The order of the array in the source: [record_resolution] comes before
    [runtime_release]. *)
Definition ledger_states (l : DurableOperationLedger)
    : list DurableOperationState :=
  [ol_payload_kill l; ol_supervisor_unref l; ol_logind_termination l;
   ol_selinux_restore l; ol_vt_activation l; ol_vt_disallocate l;
   ol_record_resolution l; ol_runtime_release l].
Definition ledger_attempts (l : DurableOperationLedger) : list Z :=
  omap op_attempt (ledger_states l).

Definition violation_name (v : HistoricalInvariantViolation) : string :=
  match v with
  | SequenceRegression => "SequenceRegression"
  | AttemptIdZero => "AttemptIdZero"
  | AttemptIdRegression => "AttemptIdRegression"
  | DuplicateAttemptId => "DuplicateAttemptId"
  | ResultWithoutIntent => "ResultWithoutIntent"
  | ConflictingTerminalResult => "ConflictingTerminalResult"
  | OperationAfterRecordResolved => "OperationAfterRecordResolved"
  | RuntimeReleaseBeforeRecordResolved => "RuntimeReleaseBeforeRecordResolved"
  | RecordRemovalBeforeRuntimeRelease => "RecordRemovalBeforeRuntimeRelease"
  | AcknowledgementCrossedBoot => "AcknowledgementCrossedBoot"
  | HivInvalidBootId => "InvalidBootId"
  end.

Definition attempt_le (a b : VtRecoveryAttempt) : Prop :=
  va_attempt_id a ≤ va_attempt_id b.
#[export] Instance attempt_le_dec a b : Decision (attempt_le a b).
Proof. unfold attempt_le. apply _. Defined.
Definition sort_attempts (l : list VtRecoveryAttempt) : list VtRecoveryAttempt :=
  merge_sort attempt_le l.

Definition pushes (b : bool) (vs : list HistoricalInvariantViolation)
    : list HistoricalInvariantViolation := if b then vs else [].

Definition attempt_has_result (s : VtRecoveryAttemptState) : bool :=
  match s with
  | VraConfirmed | VraFailed _ | VraIndeterminate => true
  | VraIntentPersisted | VraRejected _ => false
  end.

(** One [ConflictingTerminalResult] per adjacent pair that disagrees. *)
Fixpoint conflicting_pairs (l : list VtRecoveryAttempt)
    : list HistoricalInvariantViolation :=
  match l with
  | x :: (y :: _) as t =>
      pushes ((va_attempt_id x =? va_attempt_id y)
              && negb (bool_decide (va_state x = va_state y)))
        [ConflictingTerminalResult] ++ conflicting_pairs t
  | _ => []
  end.

Definition validate_historical_record (record : PersistentRecoveryRecord)
    : list HistoricalInvariantViolation :=
  let ol := pr_operation_ledger record in
  let attempts := ledger_attempts ol in
  let resolved := str_eqb (pr_state record) "record_resolved" in
  let vt_attempts := sort_attempts (pr_vt_recovery_attempts record) in
  let violations :=
    pushes (pr_sequence record =? 0) [SequenceRegression] ++
    pushes (negb (is_ok (BootIdentity_parse (pr_created_boot_id record)))
            || negb (is_ok (BootIdentity_parse (pr_last_updated_boot_id record))))
      [HivInvalidBootId] ++
    pushes (bool_decide (0 ∈ attempts)) [AttemptIdZero; ResultWithoutIntent] ++
    pushes (windows2_any (λ a b, b <? a) attempts) [AttemptIdRegression] ++
    pushes (windows2_any (λ a b, a =? b) (merge_sort Z.le attempts))
      [DuplicateAttemptId] ++
    pushes (is_confirmed (ol_runtime_release ol) && negb resolved)
      [RuntimeReleaseBeforeRecordResolved] ++
    pushes (resolved
            && negb (match ol_record_resolution ol with
                     | Confirmed _ | NotStarted => true | _ => false end))
      [OperationAfterRecordResolved] ++
    pushes (is_confirmed (ol_record_resolution ol) && negb resolved)
      [OperationAfterRecordResolved] ++
    pushes (existsb (λ a, (va_attempt_id a =? 0)
                          || (va_expected_sequence a =? 0)) vt_attempts)
      [AttemptIdZero] ++
    pushes (windows2_any (λ x y, (va_attempt_id y <=? va_attempt_id x)
                          || (va_expected_sequence y <=? va_expected_sequence x))
              vt_attempts)
      [AttemptIdRegression] ++
    conflicting_pairs vt_attempts ++
    pushes (existsb (λ a, attempt_has_result (va_state a)
                          && negb (is_terminal_op (ol_vt_disallocate ol)))
              (pr_vt_recovery_attempts record))
      [ResultWithoutIntent] in
  dedup (sort_by_name violation_name violations).

(** ** The set of records of the ledger directory *)

Record RecoveryRecordSetClassification := mkRecordSet {
  rs_blocked_seats : gset string;
  rs_same_boot_seats : gset string;
  rs_previous_boot_seats : gset string;
  rs_conflicts : list RecordConflictReason;
  rs_global_quarantine : bool;
}.

Definition RecordSet_default : RecoveryRecordSetClassification :=
  mkRecordSet ∅ ∅ ∅ [] false.

Definition seat_blocked (c : RecoveryRecordSetClassification) (seat : string)
    : bool := bool_decide (seat ∈ rs_blocked_seats c).

Definition conflict_name (c : RecordConflictReason) : string :=
  match c with
  | DuplicateRecordId => "DuplicateRecordId"
  | DuplicateLifecycle => "DuplicateLifecycle"
  | SameSeatSameBootPrecedence => "SameSeatSameBootPrecedence"
  | CorruptNeighborKnownSeat => "CorruptNeighborKnownSeat"
  | UnknownVersionNeighbor => "UnknownVersionNeighbor"
  end.

(** The loop's mutable variables: [out], [by_seat] and [lifecycles]. *)
Record ClassifyState := mkClassify {
  cs_out : RecoveryRecordSetClassification;
  cs_by_seat : gmap string (Z * Z);
  cs_lifecycles : gset string;
}.

Definition bump_same (p : option (Z * Z)) : option (Z * Z) :=
  let '(s, v) := default (0, 0) p in Some (s + 1, v).
Definition bump_previous (p : option (Z * Z)) : option (Z * Z) :=
  let '(s, v) := default (0, 0) p in Some (s, v + 1).

Definition push_conflict (c : RecordConflictReason)
    (o : RecoveryRecordSetClassification) : RecoveryRecordSetClassification :=
  mkRecordSet (rs_blocked_seats o) (rs_same_boot_seats o)
    (rs_previous_boot_seats o) (rs_conflicts o ++ [c]) (rs_global_quarantine o).
Definition block_seat (seat : string) (o : RecoveryRecordSetClassification)
    : RecoveryRecordSetClassification :=
  mkRecordSet ({[seat]} ∪ rs_blocked_seats o) (rs_same_boot_seats o)
    (rs_previous_boot_seats o) (rs_conflicts o) (rs_global_quarantine o).
Definition set_global (o : RecoveryRecordSetClassification)
    : RecoveryRecordSetClassification :=
  mkRecordSet (rs_blocked_seats o) (rs_same_boot_seats o)
    (rs_previous_boot_seats o) (rs_conflicts o) true.
Definition add_same_seat (seat : string) (o : RecoveryRecordSetClassification)
    : RecoveryRecordSetClassification :=
  mkRecordSet (rs_blocked_seats o) ({[seat]} ∪ rs_same_boot_seats o)
    (rs_previous_boot_seats o) (rs_conflicts o) (rs_global_quarantine o).
Definition add_previous_seat (seat : string)
    (o : RecoveryRecordSetClassification) : RecoveryRecordSetClassification :=
  mkRecordSet (rs_blocked_seats o) (rs_same_boot_seats o)
    ({[seat]} ∪ rs_previous_boot_seats o) (rs_conflicts o)
    (rs_global_quarantine o).

(** The tail both valid arms share: a repeated lifecycle id blocks the seat. *)
Definition note_lifecycle (r : PersistentRecoveryRecord) (s : ClassifyState)
    : ClassifyState :=
  let out :=
    if decide (pr_lifecycle_id r ∈ cs_lifecycles s)
    then block_seat (pr_seat r) (push_conflict DuplicateLifecycle (cs_out s))
    else cs_out s in
  mkClassify out (cs_by_seat s) ({[pr_lifecycle_id r]} ∪ cs_lifecycles s).

Definition classify_step (current_boot : BootIdentity) (s : ClassifyState)
    (result : DurableRecoveryRecordReadResult) : ClassifyState :=
  match result with
  | ValidSameBoot _ r =>
      note_lifecycle r
        (mkClassify (add_same_seat (pr_seat r) (cs_out s))
           (partial_alter bump_same (pr_seat r) (cs_by_seat s))
           (cs_lifecycles s))
  | ValidPreviousBoot _ r =>
      note_lifecycle r
        (mkClassify
           (if str_eqb (pr_created_boot_id r) (boot_str current_boot)
            then add_same_seat (pr_seat r) (cs_out s)
            else add_previous_seat (pr_seat r) (cs_out s))
           (partial_alter bump_previous (pr_seat r) (cs_by_seat s))
           (cs_lifecycles s))
  | Corrupted _ _ | UnsupportedVersion _ _ | UnsafeMetadata _ _
  | HistoricalViolation _ _ =>
      mkClassify (set_global (cs_out s)) (cs_by_seat s) (cs_lifecycles s)
  | IdentityMismatch _ reason =>
      mkClassify
        (push_conflict (match reason with
                        | RimDuplicateLifecycle => DuplicateLifecycle
                        | _ => DuplicateRecordId end)
           (set_global (cs_out s)))
        (cs_by_seat s) (cs_lifecycles s)
  | ConflictingRecords _ reason =>
      let out := match reason with
                 | SameSeatSameBootPrecedence | DuplicateLifecycle => cs_out s
                 | _ => set_global (cs_out s) end in
      mkClassify (push_conflict reason out) (cs_by_seat s) (cs_lifecycles s)
  end.

(** The second loop, over [by_seat] in key order. *)
Definition seat_counts_step (o : RecoveryRecordSetClassification)
    (e : string * (Z * Z)) : RecoveryRecordSetClassification :=
  let '(seat, (same, previous)) := e in
  if (0 <? same) && (0 <? previous)
  then push_conflict SameSeatSameBootPrecedence (block_seat seat o)
  else if (1 <? previous) || (1 <? same)
  then push_conflict DuplicateLifecycle (block_seat seat o)
  else o.

Definition classify_recovery_record_set
    (results : list DurableRecoveryRecordReadResult)
    (current_boot : BootIdentity) : RecoveryRecordSetClassification :=
  let s := foldl (classify_step current_boot)
             (mkClassify RecordSet_default ∅ ∅) results in
  let out := foldl seat_counts_step (cs_out s) (btree_entries (cs_by_seat s)) in
  mkRecordSet (rs_blocked_seats out) (rs_same_boot_seats out)
    (rs_previous_boot_seats out)
    (dedup (sort_by_name conflict_name (rs_conflicts out)))
    (rs_global_quarantine out).

(** ** Lemmas on the checkers *)

Lemma pushes_nil b vs : vs ≠ [] → pushes b vs = [] ↔ b = false.
Proof. destruct b, vs; naive_solver. Qed.

Lemma dedup_nil {A} `{EqDecision A} (l : list A) : dedup l = [] ↔ l = [].
Proof.
  split; [|by intros ->]. destruct l as [|x l]; [done|]. intros H.
  assert (x ∈ dedup (x :: l)) as Hx by (rewrite elem_of_dedup; left).
  rewrite H in Hx. by apply not_elem_of_nil in Hx.
Qed.

Lemma sort_by_name_nil {A} (name : A → string) (l : list A) :
  sort_by_name name l = [] ↔ l = [].
Proof.
  unfold sort_by_name. split; [|by intros ->]. intros H.
  apply Permutation_nil_r. rewrite <- H. symmetry.
  by rewrite merge_sort_Permutation.
Qed.

Lemma StronglySorted_adjacent {A} (R : relation A) l i x y :
  StronglySorted R l → l !! i = Some x → l !! S i = Some y → R x y.
Proof.
  intros HS. revert i. induction HS as [|a l HS IH HF]; intros [|i] Hx Hy;
    simplify_eq/=; [|by apply (IH i)].
  rewrite Forall_forall in HF. apply HF. by eapply list_elem_of_lookup_2.
Qed.

Lemma StronglySorted_windows {A} (R : relation A) (p : A → A → bool) l :
  Transitive R → (∀ x y, p x y = false ↔ R x y) →
  windows2_any p l = false ↔ StronglySorted R l.
Proof.
  intros HT Hp. rewrite windows2_any_false. split.
  - intros H. apply Sorted_StronglySorted; [done|]. induction l as [|x l IH].
    { constructor. }
    constructor.
    + apply IH. intros i a b Ha Hb. by apply (H (S i)).
    + destruct l as [|y l]; constructor. apply Hp. by apply (H 0%nat).
  - intros HS i x y Hx Hy. apply Hp.
    exact (StronglySorted_adjacent _ _ _ _ _ HS Hx Hy).
Qed.

Lemma strict_windows_sorted (l : list Z) :
  windows2_any (λ a b, b <? a) l = false →
  windows2_any (λ a b, a =? b) (merge_sort Z.le l) = false ↔
  StronglySorted Z.lt l.
Proof.
  intros Hle.
  assert (StronglySorted Z.le l) as HS.
  { apply (StronglySorted_windows Z.le (λ a b, b <? a)); [apply _| |done].
    intros x y. rewrite Z.ltb_ge. lia. }
  assert (merge_sort Z.le l = l) as ->.
  { apply (StronglySorted_unique Z.le); [|done|apply merge_sort_Permutation].
    apply (StronglySorted_merge_sort _). }
  rewrite windows2_any_false. split.
  - intros H. apply (StronglySorted_windows Z.lt (λ a b, b <=? a));
      [apply _|intros x y; rewrite Z.leb_gt; lia|].
    rewrite windows2_any_false. intros i x y Hx Hy.
    specialize (H i x y Hx Hy). apply Z.eqb_neq in H. apply Z.leb_gt.
    pose proof (StronglySorted_adjacent _ _ _ _ _ HS Hx Hy). lia.
  - intros H i x y Hx Hy. apply Z.eqb_neq.
    pose proof (StronglySorted_adjacent _ _ _ _ _ H Hx Hy). lia.
Qed.

(** Two administrative attempts are ordered when ids and expected sequences
    agree on who came first. *)
Definition attempt_lt (x y : VtRecoveryAttempt) : Prop :=
  va_attempt_id x < va_attempt_id y
  ∧ va_expected_sequence x < va_expected_sequence y.
Definition attempts_comparable (x y : VtRecoveryAttempt) : Prop :=
  attempt_lt x y ∨ attempt_lt y x.

#[export] Instance attempt_lt_trans : Transitive attempt_lt.
Proof. intros x y z [] []. split; lia. Qed.
#[export] Instance attempt_le_trans : Transitive attempt_le.
Proof. intros x y z. unfold attempt_le. lia. Qed.
#[export] Instance attempt_le_total : Total attempt_le.
Proof. intros x y. unfold attempt_le. lia. Qed.
#[export] Instance attempts_comparable_sym : Symmetric attempts_comparable.
Proof. intros x y []; [by right|by left]. Qed.

Lemma StronglySorted_sym_perm {A} (R : relation A) `{!Symmetric R} l k :
  l ≡ₚ k → StronglySorted R l → StronglySorted R k.
Proof.
  induction 1 as [|x l k Hp IH|x y l|l k m ? IH1 ? IH2]; intros HS; auto.
  - inversion_clear HS. constructor; [by apply IH|]. by rewrite <- Hp.
  - inversion_clear HS as [|? ? HS' HF]. inversion_clear HS' as [|? ? HS HF'].
    inversion_clear HF. constructor; [constructor; done|].
    constructor; [by symmetry|done].
Qed.

Lemma attempts_windows l :
  windows2_any (λ x y, (va_attempt_id y <=? va_attempt_id x)
      || (va_expected_sequence y <=? va_expected_sequence x)) (sort_attempts l)
    = false ↔ StronglySorted attempts_comparable l.
Proof.
  pose proof (merge_sort_Permutation attempt_le l) as HP.
  fold (sort_attempts l) in HP.
  rewrite (StronglySorted_windows attempt_lt);
    [|apply _|intros x y; rewrite orb_false_iff, !Z.leb_gt; done].
  split.
  - intros HS. eapply (StronglySorted_sym_perm attempts_comparable); [exact HP|].
    clear HP. induction HS as [|x k HS IH HF]; constructor; [done|].
    eapply Forall_impl; [exact HF|]. by left.
  - intros HS. apply (StronglySorted_sym_perm attempts_comparable _ _
      (symmetry HP)) in HS.
    assert (StronglySorted attempt_le (sort_attempts l)) as HL
      by apply (StronglySorted_merge_sort attempt_le l).
    revert HS HL. generalize (sort_attempts l) as k. clear.
    induction k as [|x k IH]; intros HS HL; [constructor|].
    inversion_clear HS as [|? ? HS' HF]. inversion_clear HL as [|? ? HL' HG].
    constructor; [by apply IH|].
    rewrite Forall_forall in *. intros y Hy.
    destruct (HF y Hy) as [?|[? ?]]; [done|]. specialize (HG y Hy).
    unfold attempt_le in HG. lia.
Qed.

Lemma conflicting_pairs_nil l :
  windows2_any (λ x y, (va_attempt_id y <=? va_attempt_id x)
      || (va_expected_sequence y <=? va_expected_sequence x)) l = false →
  conflicting_pairs l = [].
Proof.
  induction l as [|x [|y l] IH]; [done|done|]. intros H.
  change (windows2_any _ _) with
    (((va_attempt_id y <=? va_attempt_id x)
      || (va_expected_sequence y <=? va_expected_sequence x))
     || windows2_any (λ x y, (va_attempt_id y <=? va_attempt_id x)
      || (va_expected_sequence y <=? va_expected_sequence x)) (y :: l)) in H.
  bool_facts. change (conflicting_pairs (x :: y :: l)) with
    (pushes ((va_attempt_id x =? va_attempt_id y)
       && negb (bool_decide (va_state x = va_state y)))
       [ConflictingTerminalResult] ++ conflicting_pairs (y :: l)).
  rewrite IH by done. replace (va_attempt_id x =? va_attempt_id y) with false;
    [done|]. symmetry. apply Z.eqb_neq. lia.
Qed.

(** The declarative reading of the historical invariants. *)
Record HistoricalOk (r : PersistentRecoveryRecord) : Prop := {
  ho_sequence : pr_sequence r ≠ 0;
  ho_created_boot : is_ok (BootIdentity_parse (pr_created_boot_id r)) = true;
  ho_updated_boot : is_ok (BootIdentity_parse (pr_last_updated_boot_id r)) = true;
  ho_attempts_nonzero : 0 ∉ ledger_attempts (pr_operation_ledger r);
  ho_attempts_increasing :
    StronglySorted Z.lt (ledger_attempts (pr_operation_ledger r));
  ho_release_after_resolution :
    is_confirmed (ol_runtime_release (pr_operation_ledger r)) = true →
    pr_state r = "record_resolved"%string;
  ho_resolution :
    pr_state r = "record_resolved"%string →
    ol_record_resolution (pr_operation_ledger r) = NotStarted
    ∨ is_confirmed (ol_record_resolution (pr_operation_ledger r)) = true;
  ho_resolution_state :
    is_confirmed (ol_record_resolution (pr_operation_ledger r)) = true →
    pr_state r = "record_resolved"%string;
  ho_vt_nonzero : ∀ a, a ∈ pr_vt_recovery_attempts r →
    va_attempt_id a ≠ 0 ∧ va_expected_sequence a ≠ 0;
  ho_vt_ordered :
    StronglySorted attempts_comparable (pr_vt_recovery_attempts r);
  ho_vt_results : ∀ a, a ∈ pr_vt_recovery_attempts r →
    attempt_has_result (va_state a) = true →
    is_terminal_op (ol_vt_disallocate (pr_operation_ledger r)) = true;
}.

Lemma existsb_false_elem {A} (p : A → bool) l :
  existsb p l = false ↔ ∀ a, a ∈ l → p a = false.
Proof.
  induction l as [|x l IH]; cbn.
  - split; [by intros _ a ?%not_elem_of_nil|done].
  - rewrite orb_false_iff, IH. setoid_rewrite elem_of_cons. naive_solver.
Qed.

Lemma elem_of_sort_attempts a l : a ∈ sort_attempts l ↔ a ∈ l.
Proof. unfold sort_attempts. by rewrite (merge_sort_Permutation _ l). Qed.

(** The checker accepts exactly the records the invariants describe. *)
Lemma validate_historical_record_sound r :
  validate_historical_record r = [] → HistoricalOk r.
Proof.
  unfold validate_historical_record. rewrite dedup_nil, sort_by_name_nil.
  intros H. repeat (apply app_eq_nil in H as [?H H]).
  repeat match goal with
  | H : pushes _ _ = [] |- _ => apply pushes_nil in H; [|done]
  end. bool_facts.
  rewrite existsb_false_elem in *. rewrite attempts_windows in *.
  rewrite strict_windows_sorted in * by done.
  split; try done.
  - intros Hc. rewrite Hc in *. cbn in *. bool_facts. done.
  - intros Hs. rewrite Hs in *. cbn in *.
    destruct (ol_record_resolution _); naive_solver.
  - intros Hc. rewrite Hc in *. cbn in *. bool_facts. done.
  - intros a Ha. rewrite <- elem_of_sort_attempts in Ha.
    match goal with X : ∀ a, a ∈ sort_attempts _ → _ |- _ =>
      specialize (X a Ha) end. by bool_facts.
  - intros a Ha Hr. specialize (H a Ha). rewrite Hr in H. cbn in H.
    by bool_facts.
Qed.

Lemma validate_historical_record_complete r :
  HistoricalOk r → validate_historical_record r = [].
Proof.
  intros [Hseq Hb1 Hb2 Hz Hinc Hrel Hres Hrs Hvz Hvo Hvr].
  unfold validate_historical_record. rewrite dedup_nil, sort_by_name_nil.
  pose proof (proj2 (attempts_windows _) Hvo) as Hw.
  rewrite (conflicting_pairs_nil _ Hw), Hw.
  assert (windows2_any (λ a b, b <? a)
            (ledger_attempts (pr_operation_ledger r)) = false) as Hnd.
  { rewrite windows2_any_false. intros i x y Hx Hy. apply Z.ltb_ge.
    pose proof (StronglySorted_adjacent _ _ _ _ _ Hinc Hx Hy). lia. }
  rewrite Hnd, (proj2 (strict_windows_sorted _ Hnd) Hinc), Hb1, Hb2.
  rewrite (proj2 (Z.eqb_neq _ _) Hseq), bool_decide_eq_false_2 by done.
  rewrite (proj2 (existsb_false_elem _ (sort_attempts _))).
  2:{ intros a Ha. rewrite elem_of_sort_attempts in Ha.
      destruct (Hvz a Ha). apply orb_false_iff. by rewrite !Z.eqb_neq. }
  rewrite (proj2 (existsb_false_elem _ (pr_vt_recovery_attempts r))).
  2:{ intros a Ha. destruct (attempt_has_result _) eqn:E; [|done]. cbn.
      by rewrite (Hvr a Ha E). }
  cbn. destruct (decide (pr_state r = "record_resolved"%string)) as [E|E].
  - rewrite E, str_eqb_refl. cbn. rewrite !andb_false_r. cbn.
    destruct (Hres E) as [->|H]; [done|].
    by destruct (ol_record_resolution (pr_operation_ledger r)).
  - rewrite (proj2 (str_eqb_false _ _) E). cbn.
    destruct (is_confirmed (ol_runtime_release _)); [naive_solver|].
    destruct (is_confirmed (ol_record_resolution _)); naive_solver.
Qed.

(** ** Lemmas on the record set *)

Definition seat_is (seat : string) (r : DurableRecoveryRecordReadResult) : bool :=
  bool_decide (known_seat r = Some seat).
Definition is_same_boot (r : DurableRecoveryRecordReadResult) : bool :=
  match r with ValidSameBoot _ _ => true | _ => false end.
Definition count (p : DurableRecoveryRecordReadResult → bool)
    (l : list DurableRecoveryRecordReadResult) : Z :=
  Z.of_nat (length (List.filter p l)).

Definition valid_lifecycles (l : list DurableRecoveryRecordReadResult)
    : list string := pr_lifecycle_id <$> omap read_result_record l.

Definition quarantines_globally (r : DurableRecoveryRecordReadResult) : bool :=
  match r with
  | ValidSameBoot _ _ | ValidPreviousBoot _ _ => false
  | ConflictingRecords _ (SameSeatSameBootPrecedence | DuplicateLifecycle) => false
  | _ => true
  end.

Lemma count_snoc p l x : count p (l ++ [x]) = count p l + Z.b2z (p x).
Proof.
  unfold count. rewrite List.filter_app, length_app. cbn.
  destruct (p x); cbn; lia.
Qed.

Definition classify_loop (boot : BootIdentity) l : ClassifyState :=
  foldl (classify_step boot) (mkClassify RecordSet_default ∅ ∅) l.

Lemma classify_loop_snoc boot l x :
  classify_loop boot (l ++ [x]) = classify_step boot (classify_loop boot l) x.
Proof. unfold classify_loop. by rewrite foldl_app. Qed.

Definition same_on (seat : string) (x : DurableRecoveryRecordReadResult) :=
  seat_is seat x && is_same_boot x.
Definition previous_on (seat : string) (x : DurableRecoveryRecordReadResult) :=
  seat_is seat x && negb (is_same_boot x).

Lemma bump_lookup (f : option (Z * Z) → option (Z * Z)) seat s m :
  default (0, 0) (partial_alter f s m !! seat) =
  if decide (s = seat) then default (0, 0) (f (m !! seat))
  else default (0, 0) ((m : gmap string (Z * Z)) !! seat).
Proof.
  case_decide; subst.
  - by rewrite lookup_partial_alter_eq.
  - by rewrite lookup_partial_alter_ne.
Qed.

Lemma note_lifecycle_by_seat r s : cs_by_seat (note_lifecycle r s) = cs_by_seat s.
Proof. done. Qed.

Lemma classify_counts boot l seat :
  default (0, 0) (cs_by_seat (classify_loop boot l) !! seat) =
  (count (same_on seat) l, count (previous_on seat) l).
Proof.
  induction l as [|x l IH] using rev_ind; [done|].
  rewrite classify_loop_snoc, !count_snoc. unfold same_on at 2, previous_on at 2.
  destruct x as [p r|p r|p r|p v|p r|p r|p v|p r]; cbn;
    unfold seat_is, known_seat; cbn; try by rewrite !Z.add_0_r.
  all: rewrite note_lifecycle_by_seat || idtac; cbn; rewrite bump_lookup.
  all: case_decide as E; [subst|rewrite bool_decide_eq_false_2 by congruence;
         by rewrite !Z.add_0_r].
  all: rewrite bool_decide_eq_true_2 by done; cbn.
  all: unfold bump_same, bump_previous; rewrite IH; cbn; f_equal; lia.
Qed.

Lemma classify_lifecycles boot l :
  cs_lifecycles (classify_loop boot l) = list_to_set (valid_lifecycles l).
Proof.
  induction l as [|x l IH] using rev_ind; [done|].
  rewrite classify_loop_snoc. unfold valid_lifecycles.
  rewrite omap_app, fmap_app, list_to_set_app_L.
  fold (valid_lifecycles l). rewrite <- IH.
  destruct x; cbn; set_solver.
Qed.

Lemma classify_no_duplicates boot l :
  NoDup (valid_lifecycles l) →
  rs_blocked_seats (cs_out (classify_loop boot l)) = ∅.
Proof.
  induction l as [|x l IH] using rev_ind; [done|].
  unfold valid_lifecycles. rewrite omap_app, fmap_app.
  fold (valid_lifecycles l). rewrite NoDup_app.
  intros (Hl & Hx & _). specialize (IH Hl). rewrite classify_loop_snoc.
  destruct x as [p r|p r|p r|p v|p r|p r|p v|p r]; cbn; try done.
  - rewrite decide_False; [done|]. rewrite classify_lifecycles, elem_of_list_to_set.
    intros Hin. apply (Hx _ Hin). cbn. left.
  - rewrite decide_False; [by case_match|].
    rewrite classify_lifecycles, elem_of_list_to_set.
    intros Hin. apply (Hx _ Hin). cbn. left.
  - by destruct r.
Qed.

Lemma classify_global boot l :
  rs_global_quarantine (cs_out (classify_loop boot l)) =
  existsb quarantines_globally l.
Proof.
  induction l as [|x l IH] using rev_ind; [done|].
  rewrite classify_loop_snoc, existsb_app. cbn. rewrite orb_false_r, <- IH.
  destruct x as [p r|p r|p r|p v|p r|p r|p v|p r]; cbn;
    rewrite ?orb_false_r, ?orb_true_r; try done.
  - by case_decide.
  - case_decide; case_match; done.
  - destruct r; cbn; by rewrite ?orb_false_r, ?orb_true_r.
Qed.

Definition over_subscribed (c : Z * Z) : bool :=
  ((0 <? c.1) && (0 <? c.2)) || ((1 <? c.2) || (1 <? c.1)).

Lemma seat_counts_step_blocked o e seat :
  seat ∈ rs_blocked_seats (seat_counts_step o e) ↔
  seat ∈ rs_blocked_seats o ∨ (e.1 = seat ∧ over_subscribed e.2 = true).
Proof.
  destruct e as [s [same previous]]. unfold seat_counts_step, over_subscribed.
  cbn. destruct ((0 <? same) && (0 <? previous));
    [|destruct ((1 <? previous) || (1 <? same))]; cbn; set_solver.
Qed.

Lemma seat_counts_blocked es o seat :
  seat ∈ rs_blocked_seats (foldl seat_counts_step o es) ↔
  seat ∈ rs_blocked_seats o
  ∨ ∃ c, (seat, c) ∈ es ∧ over_subscribed c = true.
Proof.
  revert o. induction es as [|[s c] es IH]; intros o; cbn [foldl].
  - setoid_rewrite elem_of_nil. naive_solver.
  - rewrite IH, seat_counts_step_blocked. setoid_rewrite elem_of_cons.
    cbn. naive_solver.
Qed.

Lemma seat_counts_global es o :
  rs_global_quarantine (foldl seat_counts_step o es) = rs_global_quarantine o.
Proof.
  revert o. induction es as [|[s [same previous]] es IH]; intros o; [done|].
  cbn [foldl]. rewrite IH. cbn. by repeat case_match.
Qed.

Lemma count_split seat l :
  count (seat_is seat) l = count (same_on seat) l + count (previous_on seat) l.
Proof.
  induction l as [|x l IH] using rev_ind; [done|].
  rewrite !count_snoc, IH.
  assert (Z.b2z (seat_is seat x)
          = Z.b2z (same_on seat x) + Z.b2z (previous_on seat x)); [|lia].
  unfold same_on, previous_on. by destruct (seat_is seat x), (is_same_boot x).
Qed.

Lemma count_nonneg p l : 0 ≤ count p l.
Proof. unfold count. lia. Qed.

Lemma over_subscribed_iff a b :
  0 ≤ a → 0 ≤ b → over_subscribed (a, b) = true ↔ 2 ≤ a + b.
Proof.
  intros. unfold over_subscribed. cbn.
  rewrite !orb_true_iff, andb_true_iff, !Z.ltb_lt. lia.
Qed.

Lemma blocked_iff_over_subscribed boot l seat :
  NoDup (valid_lifecycles l) →
  seat ∈ rs_blocked_seats (classify_recovery_record_set l boot) ↔
  2 ≤ count (seat_is seat) l.
Proof.
  intros Hnd. unfold classify_recovery_record_set. cbn.
  fold (classify_loop boot l).
  rewrite seat_counts_blocked, (classify_no_duplicates _ _ Hnd).
  rewrite count_split.
  pose proof (classify_counts boot l seat) as Hc.
  pose proof (count_nonneg (same_on seat) l).
  pose proof (count_nonneg (previous_on seat) l).
  rewrite <- over_subscribed_iff by done. rewrite <- Hc.
  setoid_rewrite btree_entries_elem.
  destruct (cs_by_seat (classify_loop boot l) !! seat) as [c|]; cbn.
  - split; [|by eauto]. intros [?|(c' & [= ->] & ?)]; [set_solver|done].
  - split; [|done]. intros [?|(c' & ? & ?)]; [set_solver|done].
Qed.

Lemma elem_of_pushes b vs x : x ∈ pushes b vs ↔ b = true ∧ x ∈ vs.
Proof. destruct b; set_solver. Qed.

Lemma release_before_resolved_violates r :
  is_confirmed (ol_runtime_release (pr_operation_ledger r)) = true →
  str_eqb (pr_state r) "record_resolved" = false →
  RuntimeReleaseBeforeRecordResolved ∈ validate_historical_record r.
Proof.
  intros Hc Hs. unfold validate_historical_record.
  rewrite elem_of_dedup, elem_of_sort_by_name.
  rewrite !elem_of_app, !elem_of_pushes, Hc, Hs. set_solver.
Qed.

(** The historical-invariant checker is exact: it reports no violation if
    and only if the record has a non-zero sequence, valid boot ids, strictly
    increasing non-zero operation attempts, resolution before runtime release,
    consistently ordered administrative attempts, and no attempt result
    without a terminal VT operation. *)
Theorem validate_historical_record_exact r :
  validate_historical_record r = [] ↔ HistoricalOk r.
Proof.
  split; [apply validate_historical_record_sound
         |apply validate_historical_record_complete].
Qed.

(** The record-set classifier blocks a seat exactly when two or more valid
    records claim it, and quarantines globally exactly when some entry is
    corrupt, unsupported, unsafe, misnamed or historically invalid. *)
Theorem classify_record_set_exact boot l :
  NoDup (valid_lifecycles l) →
  (∀ seat, seat_blocked (classify_recovery_record_set l boot) seat = true ↔
     2 ≤ count (seat_is seat) l)
  ∧ rs_global_quarantine (classify_recovery_record_set l boot)
    = existsb quarantines_globally l.
Proof.
  intros Hnd. split.
  - intros seat. unfold seat_blocked. rewrite bool_decide_eq_true.
    by apply blocked_iff_over_subscribed.
  - unfold classify_recovery_record_set. cbn. fold (classify_loop boot l).
    rewrite seat_counts_global. apply classify_global.
Qed.
