(* ===== verification/Ledger.v ===== *)
(** * The persistent recovery ledger

    [PersistentRecoveryLedger] of [persistent_storage.rs], its durable
    operations ([persistent_operations.rs]), the record transition of
    [persistent.rs] and the loader of [persistent_validation.rs].  The ledger
    owns a directory of JSON files and an in-memory map of the records in it;
    every mutation is committed to disk before the map changes. *)

From stdpp Require Import base gmap sets list strings sorting.
From Stdlib Require Import ZArith Lia.
From S2P Require Import Prelude DirFs RecoveryTypes LedgerTaxonomy.
#[local] Open Scope niralis_scope.

(** [serde_json] on a type [R]: [to_vec] and [from_slice]. *)
Class SerdeJson (R : Type) := {
  serde_to_vec : R → option string;
  serde_from_slice : string → option R;
}.
(** Documented behaviour: what [to_vec] produces, [from_slice] reads back. *)
Class SerdeRoundtrip (R : Type) `{SerdeJson R} :=
  serde_roundtrip : ∀ r bytes,
    serde_to_vec r = Some bytes → serde_from_slice bytes = Some r.

(** The loader first parses an untyped [Value] and reads its
    ["format_version"]; the typed parse comes after. *)
Class SerdeValue := {
  value_parses : string → bool;
  value_format_version : string → option Z;
}.
Class SerdeRecordLaws `{SerdeJson PersistentRecoveryRecord, SerdeValue} := {
  record_roundtrip :: SerdeRoundtrip PersistentRecoveryRecord;
  record_value_parses : ∀ (r : PersistentRecoveryRecord) bytes,
    serde_to_vec r = Some bytes → value_parses bytes = true;
  record_value_version : ∀ (r : PersistentRecoveryRecord) bytes,
    serde_to_vec r = Some bytes →
    value_format_version bytes = Some (pr_format_version r);
}.

(** ** Records *)

(** [PersistentRecoveryRecord::transition]; [boot] is the answer of
    [current_boot_id()].  The sequence and the state are assigned before the
    boot id is read, as in the source. *)
Definition record_transition (boot : result string IoError) (state : string)
    (r : PersistentRecoveryRecord) : result PersistentRecoveryRecord string :=
  if str_is_empty state || (64 <? str_len state) || str_contains_byte NUL state
  then Err "invalid durable state"%string
  else match u64_checked_add (pr_sequence r) 1 with
       | None => Err "sequence overflow"%string
       | Some sequence =>
           match boot with
           | Err _ => Err "boot id unavailable"%string
           | Ok b => Ok (set_transition r sequence b state)
           end
       end.

Definition validate_lifecycle_id (value : string) : result () IoError :=
  if str_is_empty value || (128 <? str_len value) || str_eqb value "."
     || str_eqb value ".." || str_contains_byte SLASH value
     || str_contains_byte NUL value
  then Err (IoErr InvalidInput "invalid lifecycle id")
  else Ok ().

Definition validate_record (record : PersistentRecoveryRecord)
    : result () IoError :=
  if negb ((pr_format_version record =? 1)
           || (pr_format_version record =? RECOVERY_FORMAT_VERSION))
     || str_is_empty (pr_lifecycle_id record)
     || (pr_sequence record =? 0)
     || str_is_empty (pr_created_boot_id record)
     || str_is_empty (pr_state record)
     || str_is_empty (pr_seat record)
     || (pr_worker_pid record =? 0)
     || (pr_launcher_pid record =? 0)
  then Err (IoErr InvalidData "invalid recovery record")
  else match BootIdentity_parse (pr_created_boot_id record) with
       | Err _ => Err (IoErr InvalidData "invalid boot id")
       | Ok _ =>
           match BootIdentity_parse (pr_last_updated_boot_id record) with
           | Err _ => Err (IoErr InvalidData "invalid boot id")
           | Ok _ => validate_lifecycle_id (pr_lifecycle_id record)
           end
       end.

(** ** The ledger *)

Record PersistentRecoveryLedger := mkLedger {
  lg_fs : DirFs;
  lg_records : gmap string PersistentRecoveryRecord;
  lg_read_results : list DurableRecoveryRecordReadResult;
  lg_record_set : RecoveryRecordSetClassification;
  lg_startup_quarantined : bool;
  lg_startup_quarantined_seats : gset string;
}.

Definition set_fs (d : DirFs) (l : PersistentRecoveryLedger) :=
  mkLedger d (lg_records l) (lg_read_results l) (lg_record_set l)
    (lg_startup_quarantined l) (lg_startup_quarantined_seats l).
Definition set_records (m : gmap string PersistentRecoveryRecord)
    (l : PersistentRecoveryLedger) :=
  mkLedger (lg_fs l) m (lg_read_results l) (lg_record_set l)
    (lg_startup_quarantined l) (lg_startup_quarantined_seats l).
Definition set_quarantine (q : bool) (l : PersistentRecoveryLedger) :=
  mkLedger (lg_fs l) (lg_records l) (lg_read_results l) (lg_record_set l) q
    (lg_startup_quarantined_seats l).
Definition set_quarantined_seats (s : gset string)
    (l : PersistentRecoveryLedger) :=
  mkLedger (lg_fs l) (lg_records l) (lg_read_results l) (lg_record_set l)
    (lg_startup_quarantined l) s.

Abbreviation LG := (SR PersistentRecoveryLedger IoError).
Definition on_fs {A} (m : IO A) : LG A := sr_zoom lg_fs set_fs m.

Definition json_name (id : string) : string := id +:+ ".json".
Definition tmp_name (id : string) : string := "." +:+ id +:+ ".tmp".

Definition record_path (id : string) : result string IoError :=
  match validate_lifecycle_id id with
  | Err e => Err e
  | Ok _ => Ok (json_name id)
  end.

Definition records_list (l : PersistentRecoveryLedger)
    : list PersistentRecoveryRecord := btree_values (lg_records l).

Record RecordFileIdentity := mkFileIdentity {
  fi_device : Z; fi_inode : Z; fi_links : Z }.
#[export] Instance RecordFileIdentity_eq_dec : EqDecision RecordFileIdentity.
Proof. solve_decision. Defined.

Definition record_file_identity (id : string) : LG RecordFileIdentity :=
  let* path := sr_lift (record_path id) in
  let* metadata := on_fs (fs_symlink_metadata path) in
  if negb (bool_decide (file_kind metadata = RegularFile))
     || negb (file_nlink metadata =? 1)
  then sr_fail (IoErr InvalidData "unsafe recovery record metadata")
  else λ l, (l, Ok (mkFileIdentity (dir_dev (lg_fs l)) (file_ino metadata)
                      (file_nlink metadata))).

Definition startup_quarantined (l : PersistentRecoveryLedger) : bool :=
  lg_startup_quarantined l.
Definition mark_startup_quarantine (l : PersistentRecoveryLedger)
    : PersistentRecoveryLedger := set_quarantine true l.
Definition mark_seat_startup_quarantine (seat : string)
    (l : PersistentRecoveryLedger) : PersistentRecoveryLedger :=
  set_quarantined_seats ({[seat]} ∪ lg_startup_quarantined_seats l) l.
Definition seat_startup_quarantined (seat : string)
    (l : PersistentRecoveryLedger) : bool :=
  bool_decide (seat ∈ lg_startup_quarantined_seats l).
Definition clear_seat_startup_quarantine (seat : string)
    (l : PersistentRecoveryLedger) : PersistentRecoveryLedger :=
  set_quarantined_seats (lg_startup_quarantined_seats l ∖ {[seat]}) l.

Section Ledger.
Context `{SerdeJson PersistentRecoveryRecord}.
(** The answer of [current_boot_id()] during the operation. *)
Context (boot : result string IoError).

Definition commit (record : PersistentRecoveryRecord) : LG () :=
  sr_lift (validate_record record) ;;;
  let* path := sr_lift (record_path (pr_lifecycle_id record)) in
  match serde_to_vec record with
  | None => sr_fail (IoErr OtherKind "serialization")
  | Some bytes =>
      if MAX_RECOVERY_RECORD_BYTES <? str_len bytes
      then sr_fail (IoErr InvalidData "record too large")
      else
        on_fs (fs_replace (tmp_name (pr_lifecycle_id record)) path bytes) ;;;
        sr_modify (λ l, set_records
          (<[pr_lifecycle_id record := record]> (lg_records l)) l)
  end.

Definition create (record : PersistentRecoveryRecord) : LG () := λ l,
  match lg_records l !! pr_lifecycle_id record with
  | Some _ => (l, Err (IoErr AlreadyExists "duplicate lifecycle"))
  | None => commit record l
  end.

Definition record_for_operation (id : string)
    : LG PersistentRecoveryRecord := λ l,
  (l, ok_or (lg_records l !! id) (IoErr NotFound "recovery record")).

Definition commit_transition (next : PersistentRecoveryRecord)
    (state : string) : LG () :=
  let* r := sr_lift (map_err (IoErr InvalidData)
                       (record_transition boot state next)) in
  commit r.

Definition transition (id state : string) : LG () :=
  let* next := record_for_operation id in
  commit_transition next state.

Definition quarantine (id : string) (reason : StartupRecoveryFailure) : LG () :=
  let* next := record_for_operation id in
  let* r := sr_lift (map_err (IoErr InvalidData)
                       (record_transition boot "quarantined" next)) in
  commit (set_quarantine_reason (Some (persistent_reason reason)) r).

Definition mark_record_resolved (id : string) : LG () :=
  transition id "record_resolved".

Definition remove_resolved (id : string) : LG () :=
  let* record := record_for_operation id in
  if str_eqb (pr_state record) "record_resolved"
     || str_eqb (pr_state record) "cleared_by_boot_boundary"
  then
    let* path := sr_lift (record_path id) in
    on_fs (fs_remove_file path) ;;;
    on_fs fs_sync_directory ;;;
    sr_modify (λ l, set_records (delete id (lg_records l)) l)
  else sr_fail (IoErr InvalidInput "recovery record is not resolved").

Definition resolve_state_and_remove (id state : string) : LG () :=
  transition id state ;;; remove_resolved id.
Definition resolve_and_remove (id : string) : LG () :=
  resolve_state_and_remove id "record_resolved".

(** ** Operations of [persistent_operations.rs] *)

Definition record_vt_busy_provenance (id : string) (p : VtBusyProvenance)
    : LG () :=
  let* next := record_for_operation id in
  commit_transition (set_vt_busy_provenance (Some p) next) (pr_state next).

(** [push] then drop the oldest beyond the bound. *)
Definition push_attempt (a : VtRecoveryAttempt) (l : list VtRecoveryAttempt)
    : list VtRecoveryAttempt :=
  let l' := l ++ [a] in
  if MAX_VT_RECOVERY_ATTEMPTS <? Z.of_nat (length l') then tail l' else l'.

Definition append_vt_recovery_attempt (id : string) (a : VtRecoveryAttempt)
    : LG () :=
  let* next := record_for_operation id in
  commit_transition
    (set_vt_recovery_attempts
       (push_attempt a (pr_vt_recovery_attempts next)) next)
    (pr_state next).

(** [iter_mut().rev().find(..)]: the last attempt with that id. *)
Fixpoint finish_last (attempt_id : Z) (st : VtRecoveryAttemptState)
    (after : option VtBusyProvenance) (l : list VtRecoveryAttempt)
    : option (result (list VtRecoveryAttempt) IoError) :=
  match l with
  | [] => None
  | a :: t =>
      match finish_last attempt_id st after t with
      | Some (Ok t') => Some (Ok (a :: t'))
      | Some (Err e) => Some (Err e)
      | None =>
          if va_attempt_id a =? attempt_id then
            Some (match va_state a with
                  | VraIntentPersisted =>
                      Ok (mkVtRecoveryAttempt (va_attempt_id a)
                            (va_requested_by a) (va_expected_sequence a) st
                            (va_provenance_before a) after :: t)
                  | _ => Err (IoErr InvalidInput
                                "VT recovery attempt is not pending")
                  end)
          else None
      end
  end.

Definition finish_vt_recovery_attempt (id : string) (attempt_id : Z)
    (st : VtRecoveryAttemptState) (after : option VtBusyProvenance) : LG () :=
  let* next := record_for_operation id in
  match finish_last attempt_id st after (pr_vt_recovery_attempts next) with
  | None => sr_fail (IoErr NotFound "VT recovery attempt")
  | Some (Err e) => sr_fail e
  | Some (Ok attempts) =>
      commit_transition (set_vt_recovery_attempts attempts next)
        (pr_state next)
  end.

Definition with_vt_disallocate (s : DurableOperationState)
    (o : DurableOperationLedger) : DurableOperationLedger :=
  mkOpLedger (ol_payload_kill o) (ol_supervisor_unref o)
    (ol_logind_termination o) (ol_selinux_restore o) (ol_vt_activation o) s
    (ol_runtime_release o) (ol_record_resolution o).

Inductive TerminalVtCleanupResult := TvReleased | TvVtDisallocateBusy.

Definition worker_vt_cleanup_intent (id : string) (attempt_id : Z) : LG () :=
  let* next := record_for_operation id in
  commit_transition
    (set_operation_ledger
       (with_vt_disallocate (IntentPersisted attempt_id)
          (pr_operation_ledger next))
       (set_pam_status "closed_by_worker_confirmed" next))
    "started".

Definition worker_vt_cleanup_result (id : string) (attempt_id : Z)
    (res : TerminalVtCleanupResult) : LG () :=
  let* next := record_for_operation id in
  let '(op, state) :=
    match res with
    | TvReleased => (Confirmed attempt_id, "started"%string)
    | TvVtDisallocateBusy =>
        (OpFailed attempt_id EBUSY, "vt_disallocate_failed_busy"%string)
    end in
  commit_transition
    (set_operation_ledger
       (with_vt_disallocate op (pr_operation_ledger next)) next) state.

Definition with_operation (operation : string) (s : DurableOperationState)
    (o : DurableOperationLedger) : option DurableOperationLedger :=
  let '(mkOpLedger pk su lt se va vd rr rs) := o in
  if str_eqb operation "payload_kill" then Some (mkOpLedger s su lt se va vd rr rs)
  else if str_eqb operation "supervisor_unref" then Some (mkOpLedger pk s lt se va vd rr rs)
  else if str_eqb operation "logind_termination" then Some (mkOpLedger pk su s se va vd rr rs)
  else if str_eqb operation "selinux_restore" then Some (mkOpLedger pk su lt s va vd rr rs)
  else if str_eqb operation "vt_activation" then Some (mkOpLedger pk su lt se s vd rr rs)
  else if str_eqb operation "vt_disallocate" then Some (mkOpLedger pk su lt se va s rr rs)
  else if str_eqb operation "runtime_release" then Some (mkOpLedger pk su lt se va vd s rs)
  else if str_eqb operation "record_resolution" then Some (mkOpLedger pk su lt se va vd rr s)
  else None.

Definition update_operation (id operation : string)
    (s : DurableOperationState) : LG () :=
  let* next := record_for_operation id in
  match with_operation operation s (pr_operation_ledger next) with
  | None => sr_fail (IoErr InvalidInput "unknown operation")
  | Some ol => commit_transition (set_operation_ledger ol next) (pr_state next)
  end.

Definition operation_intent (id operation : string) (attempt_id : Z) : LG () :=
  update_operation id operation (IntentPersisted attempt_id).
Definition operation_confirmed (id operation : string) (attempt_id : Z)
    : LG () := update_operation id operation (Confirmed attempt_id).
Definition operation_failed (id operation : string) (attempt_id fc : Z)
    : LG () := update_operation id operation (OpFailed attempt_id fc).

Definition transition_with_operation (id state operation : string)
    (s : DurableOperationState) : LG () :=
  let* next := record_for_operation id in
  if str_eqb operation "record_resolution" || str_eqb operation "runtime_release"
  then match with_operation operation s (pr_operation_ledger next) with
       | Some ol => commit_transition (set_operation_ledger ol next) state
       | None => sr_fail (IoErr InvalidInput "unsupported transition operation")
       end
  else sr_fail (IoErr InvalidInput "unsupported transition operation").

(** [remove_record_exact] of [previous_boot_finalization_storage.rs]. *)
Definition remove_record_exact (id : string) (expected : RecordFileIdentity)
    : LG () :=
  let* current := record_file_identity id in
  if negb (bool_decide (current = expected))
  then sr_fail (IoErr InvalidData "recovery record file changed")
  else
    let* record := record_for_operation id in
    if negb (str_eqb (pr_state record) "record_resolved")
    then sr_fail (IoErr InvalidInput "recovery record is not resolved")
    else
      let* path := sr_lift (record_path id) in
      on_fs (fs_remove_file path) ;;;
      on_fs fs_sync_directory ;;;
      sr_modify (λ l, set_records (delete id (lg_records l)) l).

Definition record_file_exists (id : string) : LG bool := λ l,
  match record_file_identity id l with
  | (l', Ok _) => (l', Ok true)
  | (l', Err e) =>
      if decide (io_kind e = NotFound) then (l', Ok false) else (l', Err e)
  end.
End Ledger.

#[global] Arguments commit {_} _ _ : simpl never.
#[global] Arguments commit_transition {_} _ _ _ _ : simpl never.

(** Every record sits under its own lifecycle id. *)
Definition keyed (l : PersistentRecoveryLedger) : Prop :=
  ∀ id r, lg_records l !! id = Some r → pr_lifecycle_id r = id.

(** The record is in neither the map nor the directory. *)
Definition gone (id : string) (l : PersistentRecoveryLedger) : Prop :=
  lg_records l !! id = None ∧ dir_files (lg_fs l) !! json_name id = None.

(** ** File names *)

Lemma json_name_inj id id' : json_name id = json_name id' → id = id'.
Proof. apply str_app_inj_r. Qed.

Lemma tmp_json_ne id id' : tmp_name id ≠ json_name id'.
Proof.
  unfold tmp_name, json_name.
  change (".tmp"%string) with (".tm" +:+ "p")%string.
  change (".json"%string) with (".jso" +:+ "n")%string.
  change (("." +:+ id) +:+ (".tm" +:+ "p") ≠ id' +:+ (".jso" +:+ "n")).
  by apply str_app_last_ne.
Qed.
#[export] Hint Resolve tmp_json_ne : niralis.

(** ** What a commit does, whatever fails *)

Definition ledger_files (l : PersistentRecoveryLedger) : gmap string File :=
  dir_files (lg_fs l).

(** The parts of the ledger no record operation touches. *)
Definition ledger_frame (l l' : PersistentRecoveryLedger) : Prop :=
  lg_read_results l' = lg_read_results l ∧ lg_record_set l' = lg_record_set l
  ∧ lg_startup_quarantined l' = lg_startup_quarantined l
  ∧ lg_startup_quarantined_seats l' = lg_startup_quarantined_seats l.
#[export] Instance ledger_frame_preorder : PreOrder ledger_frame.
Proof.
  split; [done|]. intros x y z (?&?&?&?) (?&?&?&?). repeat split; congruence.
Qed.

Section CommitFacts.
Context `{SerdeJson PersistentRecoveryRecord}.

(** The record reached its file. *)
Definition written (l l' : PersistentRecoveryLedger)
    (record : PersistentRecoveryRecord) : Prop :=
  validate_record record = Ok () ∧
  ∃ bytes ino, serde_to_vec record = Some bytes ∧
    ledger_files l' =
      <[json_name (pr_lifecycle_id record) := fresh_file (lg_fs l) ino bytes]>
        (ledger_files l).

Lemma commit_spec record l l' r :
  commit record l = (l', r) →
  ledger_frame l l' ∧
  match r with
  | Ok _ => written l l' record ∧
      lg_records l' = <[pr_lifecycle_id record := record]> (lg_records l)
  | Err _ => lg_records l' = lg_records l ∧
      (ledger_files l' = ledger_files l
       ∨ (∃ f, ledger_files l' =
                 <[tmp_name (pr_lifecycle_id record) := f]> (ledger_files l))
       ∨ written l l' record)
  end.
Proof.
  unfold commit, sr_bind, sr_lift, record_path. cbn.
  destruct (validate_record record) as [[]|e] eqn:Hv;
    [|intros [= <- <-]; by repeat split; auto].
  destruct (validate_lifecycle_id _) as [[]|e] eqn:Hi;
    [|intros [= <- <-]; by repeat split; auto].
  destruct (serde_to_vec record) as [bytes|] eqn:Hb;
    [|intros [= <- <-]; by repeat split; auto].
  case_match eqn:Hlen; [intros [= <- <-]; by repeat split; auto|].
  unfold on_fs, sr_zoom.
  pose proof (fs_replace_outcome (tmp_name (pr_lifecycle_id record))
    (json_name (pr_lifecycle_id record)) bytes (lg_fs l)) as HR.
  destruct (fs_replace _ _ _ _) as [d' [[]|e]]; intros [= <- <-].
  - split; [done|]. inversion HR; subst. split; [|done].
    split; [done|]. exists bytes, ino. done.
  - split; [done|]. split; [done|]. inversion HR; subst; [by left|..].
    + right; left. by eexists.
    + right; right. split; [done|]. by exists bytes, ino.
Qed.

(** A failure before the rename leaves every record file alone. *)
Lemma commit_other_files record l l' r name :
  commit record l = (l', r) →
  name ≠ json_name (pr_lifecycle_id record) →
  name ≠ tmp_name (pr_lifecycle_id record) →
  ledger_files l' !! name = ledger_files l !! name.
Proof.
  intros [_ HC]%commit_spec Hj Ht. destruct r as [[]|e].
  - destruct HC as [(_ & bytes & ino & _ & ->) _].
    by rewrite lookup_insert_ne.
  - destruct HC as [_ [->|[[f ->]|(_ & bytes & ino & _ & ->)]]]; [done|..];
      by rewrite lookup_insert_ne.
Qed.

Lemma commit_abandoned_tmp record l f :
  ledger_files l !! tmp_name (pr_lifecycle_id record) = Some f →
  ∃ l' e, commit record l = (l', Err e)
    ∧ ledger_files l' = ledger_files l ∧ lg_records l' = lg_records l.
Proof.
  intros Hf. unfold commit, sr_bind, sr_lift, record_path, on_fs, sr_zoom.
  destruct (validate_record record) as [[]|e]; [|by eauto].
  destruct (validate_lifecycle_id _) as [[]|e]; [|by eauto].
  destruct (serde_to_vec record) as [bytes|]; [|by eauto].
  case_match; [by eauto|].
  destruct (fs_replace_blocked (tmp_name (pr_lifecycle_id record))
    (json_name (pr_lifecycle_id record)) bytes (lg_fs l) f Hf)
    as (d' & e & -> & Hd).
  eexists _, e. split; [reflexivity|]. done.
Qed.

Lemma commit_success record l bytes :
  validate_record record = Ok () →
  serde_to_vec record = Some bytes →
  str_len bytes ≤ MAX_RECOVERY_RECORD_BYTES →
  dir_faults (lg_fs l) = [] →
  ledger_files l !! tmp_name (pr_lifecycle_id record) = None →
  ∃ l', commit record l = (l', Ok ()) ∧ dir_faults (lg_fs l') = [].
Proof.
  intros Hv Hb Hlen Hf Ht. unfold commit, sr_bind, sr_lift, record_path,
    on_fs, sr_zoom. rewrite Hv, Hb.
  assert (validate_lifecycle_id (pr_lifecycle_id record) = Ok ()) as ->.
  { unfold validate_record in Hv. split_cases Hv. done. }
  rewrite (proj2 (Z.ltb_ge _ _) Hlen).
  destruct (fs_replace_success (tmp_name (pr_lifecycle_id record))
    (json_name (pr_lifecycle_id record)) bytes (lg_fs l) Hf Ht)
    as (d' & -> & Hf' & _).
  eexists. split; [reflexivity|]. done.
Qed.
End CommitFacts.

(** ** Every record operation is one transition of one record *)

Section Operations.
Context `{SerdeJson PersistentRecoveryRecord}.
Context (boot : result string IoError).

(** The record a successful transition writes. *)
Definition successor (next rec : PersistentRecoveryRecord) : Prop :=
  same_identity next rec ∧ pr_sequence rec = pr_sequence next + 1
  ∧ pr_sequence rec ≤ u64_max.

(** Either nothing happened, or a successor of the record in memory was
    handed to [commit]. *)
Definition steps_record (id : string) (m : LG ()) : Prop :=
  ∀ l l' r, m l = (l', r) →
    (l' = l ∧ is_ok r = false)
    ∨ ∃ next rec, lg_records l !! id = Some next ∧ successor next rec
        ∧ commit rec l = (l', r).

Lemma record_transition_successor state next rec :
  record_transition boot state next = Ok rec →
  successor next rec ∧ pr_state rec = state.
Proof.
  unfold record_transition. intros HT. split_cases HT.
  apply u64_checked_add_Some in Heqo as [-> ?].
  repeat split; try done. by do 8 eexists.
Qed.

Lemma successor_same_identity x y z :
  same_identity x y → pr_sequence x = pr_sequence y → successor y z →
  successor x z.
Proof.
  intros HI HS (HI' & Hn & Hb). repeat split; [by etrans|lia|done].
Qed.

Lemma commit_transition_steps id l next0 next state l' r :
  lg_records l !! id = Some next0 →
  same_identity next0 next → pr_sequence next = pr_sequence next0 →
  commit_transition boot next state l = (l', r) →
  (l' = l ∧ is_ok r = false)
  ∨ ∃ nx rec, lg_records l !! id = Some nx ∧ successor nx rec
      ∧ commit rec l = (l', r).
Proof.
  intros Hl HI Hs. unfold commit_transition, sr_bind, sr_lift.
  destruct (record_transition boot state next) as [rec|e] eqn:HT; cbn.
  - intros HC. right. exists next0, rec. repeat split; try done;
      apply record_transition_successor in HT as [(? & ? & ?) ?];
      [by etrans|lia|done].
  - intros [= <- <-]. by left.
Qed.

Lemma record_for_operation_bind {A} id
    (k : PersistentRecoveryRecord → LG A) l l' r :
  sr_bind (record_for_operation id) k l = (l', r) →
  (lg_records l !! id = None ∧ l' = l ∧ is_ok r = false)
  ∨ ∃ next, lg_records l !! id = Some next ∧ k next l = (l', r).
Proof.
  unfold sr_bind, record_for_operation.
  destruct (lg_records l !! id) as [next|]; cbn; [by eauto|].
  intros [= <- <-]. by left.
Qed.

Ltac steps_start :=
  intros l l' r HC;
  apply record_for_operation_bind in HC as [(_ & -> & Hr)|(next & Hl & HC)];
  [by left|].
Ltac steps_finish :=
  match goal with HC : commit_transition _ _ _ _ = _, Hl : _ !! _ = Some _
    |- _ => eapply commit_transition_steps in HC;
      [exact HC|exact Hl|first [reflexivity|by do 8 eexists]|done] end.
Ltac steps_nothing :=
  match goal with HC : _ = (_, _) |- _ => inversion HC; subst; by left end.

Lemma transition_steps id state : steps_record id (transition boot id state).
Proof. steps_start. steps_finish. Qed.

Lemma record_vt_busy_provenance_steps id p :
  steps_record id (record_vt_busy_provenance boot id p).
Proof. steps_start. steps_finish. Qed.

Lemma append_vt_recovery_attempt_steps id a :
  steps_record id (append_vt_recovery_attempt boot id a).
Proof. steps_start. steps_finish. Qed.

Lemma finish_vt_recovery_attempt_steps id a st after :
  steps_record id (finish_vt_recovery_attempt boot id a st after).
Proof.
  steps_start.
  destruct (finish_last _ _ _ _) as [[atts|e]|];
    [steps_finish|steps_nothing..].
Qed.

Lemma worker_vt_cleanup_intent_steps id a :
  steps_record id (worker_vt_cleanup_intent boot id a).
Proof. steps_start. steps_finish. Qed.

Lemma worker_vt_cleanup_result_steps id a res :
  steps_record id (worker_vt_cleanup_result boot id a res).
Proof. steps_start. destruct res; steps_finish. Qed.

Lemma update_operation_steps id op s :
  steps_record id (update_operation boot id op s).
Proof.
  steps_start.
  destruct (with_operation _ _ _) as [ol|]; [steps_finish|steps_nothing].
Qed.

Lemma transition_with_operation_steps id state op s :
  steps_record id (transition_with_operation boot id state op s).
Proof.
  steps_start. case_match; [|steps_nothing].
  destruct (with_operation _ _ _) as [ol|]; [steps_finish|steps_nothing].
Qed.

Lemma quarantine_steps id reason : steps_record id (quarantine boot id reason).
Proof.
  steps_start. unfold sr_bind, sr_lift in HC.
  destruct (record_transition _ _ _) as [rec|e] eqn:HT; cbn in HC;
    [|steps_nothing].
  right. eexists next, _. split; [done|]. split; [|exact HC].
  apply record_transition_successor in HT as [(HI & ? & ?) ?].
  repeat split; try done. etrans; [exact HI|]. by do 8 eexists.
Qed.
End Operations.

(** ** Removal *)

Definition removable (r : PersistentRecoveryRecord) : Prop :=
  pr_state r = "record_resolved"%string
  ∨ pr_state r = "cleared_by_boot_boundary"%string.

(** Unlinking comes first; the map entry goes only when the directory sync
    succeeded too. *)
Definition removes_record (id : string) (m : LG ()) : Prop :=
  ∀ l l' r, m l = (l', r) →
    ledger_frame l l' ∧
    ((lg_records l' = lg_records l ∧ ledger_files l' = ledger_files l
      ∧ is_ok r = false)
     ∨ ∃ rec, lg_records l !! id = Some rec ∧ removable rec
         ∧ ledger_files l' = delete (json_name id) (ledger_files l)
         ∧ ((is_ok r = false ∧ lg_records l' = lg_records l)
            ∨ (is_ok r = true
               ∧ lg_records l' = delete id (lg_records l)))).

Lemma on_fs_spec {A} (m : IO A) l :
  on_fs m l = (set_fs (m (lg_fs l)).1 l, (m (lg_fs l)).2).
Proof. unfold on_fs, sr_zoom. by destruct (m (lg_fs l)). Qed.

Lemma record_file_identity_frame id l l' r :
  record_file_identity id l = (l', r) →
  ledger_frame l l' ∧ lg_records l' = lg_records l
  ∧ ledger_files l' = ledger_files l.
Proof.
  unfold record_file_identity, sr_bind, sr_lift.
  destruct (record_path id) as [path|e]; [|by intros [= <- <-]].
  rewrite on_fs_spec.
  pose proof (fs_symlink_metadata_files path (lg_fs l)) as HF.
  destruct (fs_symlink_metadata path (lg_fs l)) as [d' [f|e]]; cbn in *;
    [|by intros [= <- <-]].
  case_match; by intros [= <- <-].
Qed.

Lemma record_path_Ok id path : record_path id = Ok path → path = json_name id.
Proof. unfold record_path. case_match; naive_solver. Qed.

(** The unlink tail both removers share. *)
Lemma unlink_tail id rec path l l' r :
  lg_records l !! id = Some rec → removable rec → path = json_name id →
  (on_fs (fs_remove_file path) ;;;
   on_fs fs_sync_directory ;;;
   sr_modify (λ l, set_records (delete id (lg_records l)) l)) l = (l', r) →
  ledger_frame l l' ∧
    ((lg_records l' = lg_records l ∧ ledger_files l' = ledger_files l
      ∧ is_ok r = false)
     ∨ ∃ rec, lg_records l !! id = Some rec ∧ removable rec
         ∧ ledger_files l' = delete (json_name id) (ledger_files l)
         ∧ ((is_ok r = false ∧ lg_records l' = lg_records l)
            ∨ (is_ok r = true
               ∧ lg_records l' = delete id (lg_records l)))).
Proof.
  intros Hl Hrec ->. unfold sr_bind. rewrite on_fs_spec.
  pose proof (fs_remove_file_spec (json_name id) (lg_fs l)) as HR.
  destruct (fs_remove_file _ _) as [d1 [[]|e]]; cbn in *.
  - destruct HR as [_ HR]. rewrite on_fs_spec. cbn.
    pose proof (fs_sync_directory_files d1) as HS.
    destruct (fs_sync_directory d1) as [d2 [[]|e]]; cbn in *;
      intros [= <- <-]; (split; [done|]); right; exists rec;
      unfold ledger_files; cbn; rewrite HS, HR; naive_solver.
  - intros [= <- <-]. split; [done|]. left. done.
Qed.

Lemma remove_resolved_removes id : removes_record id (remove_resolved id).
Proof.
  intros l l' r HC.
  apply record_for_operation_bind in HC as [(_ & -> & Hr)|(rec & Hl & HC)];
    [by split; [|left]|].
  destruct (str_eqb _ _ || _) eqn:E;
    [|inversion HC; subst; by split; [|left]].
  unfold sr_bind at 1, sr_lift in HC.
  destruct (record_path id) as [path|e] eqn:HP;
    [|inversion HC; subst; by split; [|left]].
  eapply unlink_tail; [exact Hl| |by apply record_path_Ok|exact HC].
  apply orb_true_iff in E as [E|E]; bool_facts; [by left|by right].
Qed.

Lemma removes_record_frame id m l l' l0 r :
  removes_record id m → ledger_frame l0 l → lg_records l = lg_records l0 →
  ledger_files l = ledger_files l0 → m l = (l', r) →
  ledger_frame l0 l' ∧
    ((lg_records l' = lg_records l0 ∧ ledger_files l' = ledger_files l0
      ∧ is_ok r = false)
     ∨ ∃ rec, lg_records l0 !! id = Some rec ∧ removable rec
         ∧ ledger_files l' = delete (json_name id) (ledger_files l0)
         ∧ ((is_ok r = false ∧ lg_records l' = lg_records l0)
            ∨ (is_ok r = true
               ∧ lg_records l' = delete id (lg_records l0)))).
Proof.
  intros Hm HF HR HD HC. apply Hm in HC as [HF' HC].
  rewrite HR, HD in HC. split; [by etrans|done].
Qed.

Lemma remove_record_exact_removes id fi :
  removes_record id (remove_record_exact id fi).
Proof.
  intros l l' r. unfold remove_record_exact. unfold sr_bind at 1.
  destruct (record_file_identity id l) as [l0 [cur|e]] eqn:HI;
    apply record_file_identity_frame in HI as (HF & HR & HD);
    [|intros [= <- <-]; by split; [|left]].
  case_match; [intros [= <- <-]; by split; [|left]|]. intros HC.
  eapply (removes_record_frame id _ l0); [|exact HF|exact HR|exact HD|exact HC].
  clear. intros l l' r HC.
  apply record_for_operation_bind in HC as [(_ & -> & Hr)|(rec & Hl & HC)];
    [by split; [|left]|].
  destruct (str_eqb _ _) eqn:E; cbn in HC;
    [|inversion HC; subst; by split; [|left]].
  unfold sr_bind at 1, sr_lift in HC.
  destruct (record_path id) as [path|e] eqn:HP;
    [|inversion HC; subst; by split; [|left]].
  eapply unlink_tail; [exact Hl| |by apply record_path_Ok|exact HC].
  left. by apply str_eqb_true.
Qed.

(** ** The operation alphabet *)

Inductive LedgerOp :=
| LCreate (r : PersistentRecoveryRecord)
| LTransition (id state : string)
| LQuarantine (id : string) (reason : StartupRecoveryFailure)
| LMarkResolved (id : string)
| LRemoveResolved (id : string)
| LResolveAndRemove (id : string)
| LRemoveExact (id : string) (fi : RecordFileIdentity)
| LProvenance (id : string) (p : VtBusyProvenance)
| LAppendAttempt (id : string) (a : VtRecoveryAttempt)
| LFinishAttempt (id : string) (a : Z) (st : VtRecoveryAttemptState)
    (after : option VtBusyProvenance)
| LVtIntent (id : string) (a : Z)
| LVtResult (id : string) (a : Z) (res : TerminalVtCleanupResult)
| LOperation (id operation : string) (s : DurableOperationState)
| LTransitionOperation (id state operation : string) (s : DurableOperationState).

Definition run_ledger_op `{SerdeJson PersistentRecoveryRecord}
    (boot : result string IoError) (op : LedgerOp) : LG () :=
  match op with
  | LCreate r => create r
  | LTransition id st => transition boot id st
  | LQuarantine id reason => quarantine boot id reason
  | LMarkResolved id => mark_record_resolved boot id
  | LRemoveResolved id => remove_resolved id
  | LResolveAndRemove id => resolve_and_remove boot id
  | LRemoveExact id fi => remove_record_exact id fi
  | LProvenance id p => record_vt_busy_provenance boot id p
  | LAppendAttempt id a => append_vt_recovery_attempt boot id a
  | LFinishAttempt id a st after => finish_vt_recovery_attempt boot id a st after
  | LVtIntent id a => worker_vt_cleanup_intent boot id a
  | LVtResult id a res => worker_vt_cleanup_result boot id a res
  | LOperation id o s => update_operation boot id o s
  | LTransitionOperation id st o s => transition_with_operation boot id st o s
  end.

(** Any number of operations, each under its own boot-id answer and with
    its own fault schedule left by the ones before. *)
Inductive ledger_steps `{SerdeJson PersistentRecoveryRecord}
  : PersistentRecoveryLedger → PersistentRecoveryLedger → Prop :=
| ledger_steps_refl l : ledger_steps l l
| ledger_steps_step boot op l l1 l2 :
    ledger_steps l l1 → (run_ledger_op boot op l1).1 = l2 → ledger_steps l l2.
