(* ===== verification/Protocol.v ===== *)
(** * The greeter and PAM wire protocol

    [niralis-protocol]: requests and responses, the envelopes around them and
    the shape checks every receiver runs ([lib.rs], [greeter.rs], [pam.rs]),
    and the transaction identities of the worker protocol
    ([protocol/worker_messages/foundations.rs]).  The identifier newtypes over
    [String] and [u64] are strings and integers here. *)

From stdpp Require Import base gmap sets list strings.
From Stdlib Require Import ZArith Lia.
From S2P Require Import Prelude DirFs RecoveryTypes LedgerTaxonomy Ledger.
#[local] Open Scope niralis_scope.

(** ** Requests and responses *)

Inductive SessionKind := Wayland | X11.
Record SessionInfo := mkSessionInfo {
  si_id : string;
  si_name : string;
  si_kind : SessionKind;
}.
Record UserInfo := mkUserInfo {
  ui_uid : Z;
  ui_username : string;
  ui_display_name : string;
}.
Record DaemonStatus := mkDaemonStatus {
  ds_version : string;
  ds_socket : string;
  ds_default_session : string;
  ds_greeter_user : string;
}.
#[export] Instance SessionKind_eq_dec : EqDecision SessionKind.
Proof. solve_decision. Defined.
#[export] Instance SessionInfo_eq_dec : EqDecision SessionInfo.
Proof. solve_decision. Defined.

Inductive NiralisRequest :=
| ReqStatus
| ReqGetUsers
| ReqGetSessions
| ReqLogin (username password session : string)
| ReqShutdown
| ReqReboot.

Inductive NiralisResponse :=
| RespStatus (status : DaemonStatus)
| RespUsers (users : list UserInfo)
| RespSessions (sessions : list SessionInfo)
| LoginOk (session : SessionInfo)
| SessionUnavailable (message : string)
| LoginFailed (message : string)
| RespError (message : string).

Definition GREETER_PROTOCOL_VERSION : Z := 2.
Definition MAX_GREETER_FRAME_BYTES : Z := 64 * 1024.
Definition MAX_GREETER_PAYLOAD_BYTES : Z := 48 * 1024.

Inductive EnvelopeError :=
| UnsupportedVersion | EnvInvalidSequence | InvalidRequestId | InvalidPayload
| UnknownMessageType.

(** [LoginSecret] wraps the bytes of the secret. *)
Definition is_bounded (secret : string) : bool :=
  negb (str_is_empty secret) && (str_len secret <=? 4096)
  && negb (str_contains_byte NUL secret).

Inductive GreeterRequest :=
| GrStatus
| GrGetUsers
| GrGetSessions
| GrLogin (username session secret : string)
| GrCancel (request_id : Z).

Record GreeterHandshake := mkHandshake {
  gh_protocol_version : Z;
  gh_message_type : string;
}.

Record GreeterRequestEnvelope := mkRequestEnvelope {
  ge_protocol_version : Z;
  ge_message_type : string;
  ge_connection_id : string;
  ge_connection_epoch : Z;
  ge_request_id : Z;
  ge_sequence : Z;
  ge_seat : string;
  ge_payload_len : Z;
  ge_payload : GreeterRequest;
}.

Record GreeterResponseEnvelope := mkResponseEnvelope {
  gr_request_id : Z;
  gr_connection_epoch : Z;
  gr_result : NiralisResponse;
}.

Definition expected_message_type (r : GreeterRequest) : string :=
  match r with
  | GrStatus => "status"
  | GrGetUsers => "get_users"
  | GrGetSessions => "get_sessions"
  | GrLogin _ _ _ => "login"
  | GrCancel _ => "cancel"
  end.

Section Shape.
Context `{SerdeJson GreeterRequest}.

Definition request_validate_shape (e : GreeterRequestEnvelope)
    : result () EnvelopeError :=
  if negb (ge_protocol_version e =? GREETER_PROTOCOL_VERSION)
  then Err UnsupportedVersion
  else if ge_sequence e =? 0 then Err EnvInvalidSequence
  else if ge_request_id e =? 0 then Err InvalidRequestId
  else
    match serde_to_vec (ge_payload e) with
    | None => Err InvalidPayload
    | Some bytes =>
        if negb (str_len bytes =? ge_payload_len e)
           || (MAX_GREETER_PAYLOAD_BYTES <? str_len bytes)
        then Err InvalidPayload
        else if match ge_payload e with
                | GrLogin _ _ secret => negb (is_bounded secret)
                | _ => false
                end
        then Err InvalidPayload
        else if negb (str_eqb (ge_message_type e)
                        (expected_message_type (ge_payload e)))
        then Err UnknownMessageType
        else Ok ()
    end.
End Shape.

(** [MonotonicSequence]: the last accepted sequence. *)
Definition MonotonicSequence : Type := Z.
Definition sequence_accept (sequence : Z) : SR MonotonicSequence EnvelopeError () :=
  λ last, if (sequence =? 0) || (sequence <=? last)
          then (last, Err EnvInvalidSequence)
          else (sequence, Ok ()).

(** ** The PAM conversation on the wire *)

Inductive PamMessageStyle := PromptEchoOff | PromptEchoOn | Informational | StyleError.
#[export] Instance PamMessageStyle_eq_dec : EqDecision PamMessageStyle.
Proof. solve_decision. Defined.

Record PamPromptEnvelope := mkPromptEnvelope {
  pp_protocol_version : Z;
  pp_message_type : string;
  pp_connection_id : string;
  pp_connection_epoch : Z;
  pp_seat : string;
  pp_request_id : Z;
  pp_transaction_id : string;
  pp_conversation_id : string;
  pp_prompt_id : Z;
  pp_sequence : Z;
  pp_style : PamMessageStyle;
  pp_payload_len : Z;
  pp_message : string;
}.

Inductive PamPromptResponse :=
| RespSecret (secret : string)
| RespText (text : string)
| RespNone.

Record PamPromptResponseEnvelope := mkPromptResponse {
  rp_protocol_version : Z;
  rp_message_type : string;
  rp_connection_id : string;
  rp_connection_epoch : Z;
  rp_seat : string;
  rp_request_id : Z;
  rp_transaction_id : string;
  rp_conversation_id : string;
  rp_prompt_id : Z;
  rp_sequence : Z;
  rp_style : PamMessageStyle;
  rp_payload_len : Z;
  rp_response : PamPromptResponse;
}.

Definition prompt_validate_shape (p : PamPromptEnvelope) : result () EnvelopeError :=
  if negb (pp_protocol_version p =? GREETER_PROTOCOL_VERSION)
     || negb (str_eqb (pp_message_type p) "pam_prompt")
     || (pp_request_id p =? 0) || (pp_sequence p =? 0)
     || (pp_connection_epoch p =? 0)
     || str_is_empty (pp_transaction_id p) || str_is_empty (pp_seat p)
     || str_is_empty (pp_conversation_id p) || (pp_prompt_id p =? 0)
     || str_is_empty (pp_message p) || (4096 <? str_len (pp_message p))
     || str_contains_byte NUL (pp_message p)
     || negb (str_len (pp_message p) =? pp_payload_len p)
     || (MAX_GREETER_PAYLOAD_BYTES <? str_len (pp_message p))
  then Err InvalidPayload
  else Ok ().

(** Which response answers which style of prompt. *)
Definition compatible (style : PamMessageStyle) (r : PamPromptResponse) : bool :=
  match style, r with
  | PromptEchoOff, RespSecret secret => is_bounded secret
  | PromptEchoOn, RespText text =>
      negb (str_is_empty text) && (str_len text <=? 4096)
      && negb (str_contains_byte NUL text)
  | (Informational | StyleError), RespNone => true
  | _, _ => false
  end.

Section PromptShape.
Context `{SerdeJson PamPromptResponse}.

Definition response_validate_shape (r : PamPromptResponseEnvelope)
    : result () EnvelopeError :=
  if negb (rp_protocol_version r =? GREETER_PROTOCOL_VERSION)
     || negb (str_eqb (rp_message_type r) "pam_prompt_response")
     || (rp_request_id r =? 0) || (rp_sequence r =? 0)
     || (rp_connection_epoch r =? 0)
     || str_is_empty (rp_transaction_id r) || str_is_empty (rp_seat r)
     || str_is_empty (rp_conversation_id r) || (rp_prompt_id r =? 0)
  then Err InvalidPayload
  else
    match serde_to_vec (rp_response r) with
    | None => Err InvalidPayload
    | Some bytes =>
        if negb (str_len bytes =? rp_payload_len r)
           || (MAX_GREETER_PAYLOAD_BYTES <? str_len bytes)
        then Err InvalidPayload
        else if compatible (rp_style r) (rp_response r) then Ok ()
        else Err InvalidPayload
    end.
End PromptShape.

(** ** Transaction identities of the worker protocol *)

Record WorkerTransactionIdentity := mkWorkerTransaction {
  wt_transaction_id : string;
  wt_admission_attempt_id : Z;
  wt_lifecycle_id : string;
  wt_seat : string;
  wt_seat_generation : Z;
  wt_stage : string;
}.

Record ControlTransactionIdentity := mkControlTransaction {
  ct_transaction_id : string;
  ct_admission_attempt_id : Z;
  ct_lifecycle_id : string;
  ct_seat : string;
  ct_seat_generation : Z;
  ct_stage : string;
  ct_sequence : Z;
}.

Definition from_worker (i : WorkerTransactionIdentity) (stage : string)
    (sequence : Z) : ControlTransactionIdentity :=
  mkControlTransaction (wt_transaction_id i) (wt_admission_attempt_id i)
    (wt_lifecycle_id i) (wt_seat i) (wt_seat_generation i) stage sequence.

Definition matches_worker (c : ControlTransactionIdentity)
    (i : WorkerTransactionIdentity) (stage : string) (sequence : Z) : bool :=
  str_eqb (ct_transaction_id c) (wt_transaction_id i)
  && (ct_admission_attempt_id c =? wt_admission_attempt_id i)
  && str_eqb (ct_lifecycle_id c) (wt_lifecycle_id i)
  && str_eqb (ct_seat c) (wt_seat i)
  && (ct_seat_generation c =? wt_seat_generation i)
  && str_eqb (ct_stage c) stage && (ct_sequence c =? sequence).

(** [LoginRequestBinding]: the request a login belongs to. *)
Record LoginRequestBinding := mkLoginBinding {
  lb_connection_id : string;
  lb_connection_epoch : Z;
  lb_request_id : Z;
  lb_seat : string;
}.
#[export] Instance LoginRequestBinding_eq_dec : EqDecision LoginRequestBinding.
Proof. solve_decision. Defined.
