(* ===== verification/Codec.v ===== *)
(** * A concrete serializer

    [serde_json] is a dependency of the program, so the model takes it as a
    parameter with the round-trip law it documents.  This file builds one
    executable serializer that satisfies the law for the two durable record
    types; the witnesses instantiate the parameter with it.  A value is
    encoded as a self-delimiting byte string, so encodings concatenate. *)

From stdpp Require Import base gmap list strings.
From Stdlib Require Import ZArith Lia.
From S2P Require Import Prelude DirFs RecoveryTypes LedgerTaxonomy Ledger.

Class Codec (A : Type) := {
  enc : A → list bool;
  dec : list bool → option (A * list bool);
  dec_enc : ∀ a rest, dec (enc a ++ rest) = Some (a, rest);
}.

Fixpoint enc_pos (p : positive) : list bool :=
  match p with
  | xH => [false]
  | xO q => true :: false :: enc_pos q
  | xI q => true :: true :: enc_pos q
  end.
Fixpoint dec_pos (l : list bool) : option (positive * list bool) :=
  match l with
  | false :: l => Some (xH, l)
  | true :: b :: l =>
      match dec_pos l with
      | Some (q, rest) => Some (if b then xI q else xO q, rest)
      | None => None
      end
  | _ => None
  end.
Lemma dec_enc_pos p rest : dec_pos (enc_pos p ++ rest) = Some (p, rest).
Proof. induction p as [q IH|q IH|]; cbn; rewrite ?IH; done. Qed.

#[export] Instance codec_positive : Codec positive :=
  {| enc := enc_pos; dec := dec_pos; dec_enc := dec_enc_pos |}.

(** A value goes through an isomorphic type. *)
Definition codec_via {A B} `{Codec B} (to : A → B) (from : B → A)
    (Hiso : ∀ a, from (to a) = a) : Codec A.
Proof.
  refine {| enc a := enc (to a);
            dec l := match dec l with
                     | Some (b, rest) => Some (from b, rest)
                     | None => None end |}.
  intros a rest. by rewrite dec_enc, Hiso.
Defined.

#[export] Instance codec_bool : Codec bool :=
  {| enc b := [b];
     dec l := match l with b :: rest => Some (b, rest) | [] => None end;
     dec_enc b rest := eq_refl |}.

#[export] Instance codec_Z : Codec Z.
Proof.
  refine {| enc z := match z with
              | Z0 => [false]
              | Zpos p => true :: true :: enc p
              | Zneg p => true :: false :: enc p end;
     dec l := match l with
              | false :: rest => Some (0, rest)
              | true :: b :: rest =>
                  match dec rest with
                  | Some (p, rest') => Some (if b then Zpos p else Zneg p, rest')
                  | None => None end
              | _ => None end |}.
  intros [] rest; cbn; by rewrite ?dec_enc_pos.
Defined.

#[export] Instance codec_prod {A B} `{Codec A, Codec B} : Codec (A * B).
Proof.
  refine {| enc p := enc p.1 ++ enc p.2;
     dec l := match dec l with
              | Some (a, rest) =>
                  match dec rest with
                  | Some (b, rest') => Some ((a, b), rest')
                  | None => None end
              | None => None end |}.
  intros [a b] rest. cbn. by rewrite <- app_assoc, dec_enc, dec_enc.
Defined.

#[export] Instance codec_option {A} `{Codec A} : Codec (option A).
Proof.
  refine {| enc o := match o with Some a => true :: enc a | None => [false] end;
     dec l := match l with
              | true :: rest =>
                  match dec rest with
                  | Some (a, rest') => Some (Some a, rest')
                  | None => None end
              | false :: rest => Some (None, rest)
              | [] => None end |}.
  intros [a|] rest; cbn; by rewrite ?dec_enc.
Defined.

Fixpoint enc_list {A} `{Codec A} (l : list A) : list bool :=
  match l with [] => [false] | a :: t => true :: enc a ++ enc_list t end.
Fixpoint dec_list {A} `{Codec A} (fuel : nat) (l : list bool)
    : option (list A * list bool) :=
  match fuel with
  | O => None
  | S fuel =>
      match l with
      | false :: rest => Some ([], rest)
      | true :: rest =>
          match dec rest with
          | Some (a, rest') =>
              match dec_list fuel rest' with
              | Some (t, rest'') => Some (a :: t, rest'')
              | None => None end
          | None => None end
      | [] => None
      end
  end.
Lemma dec_enc_list {A} `{Codec A} (l : list A) rest fuel :
  (length (enc_list l) ≤ fuel)%nat →
  dec_list fuel (enc_list l ++ rest) = Some (l, rest).
Proof.
  revert fuel. induction l as [|a l IH]; intros [|fuel]; cbn; intros Hf;
    try lia; [done|].
  rewrite length_app in Hf.
  rewrite <- app_assoc, dec_enc, IH by lia. done.
Qed.
#[export] Instance codec_list {A} `{Codec A} : Codec (list A).
Proof.
  refine {| enc := enc_list; dec l := dec_list (length l) l |}.
  intros. apply dec_enc_list. rewrite length_app. lia.
Defined.

#[export] Instance codec_ascii : Codec Ascii.ascii.
Proof.
  refine {| enc c := let '(Ascii.Ascii a b c d e f g h) := c in [a;b;c;d;e;f;g;h];
     dec l := match l with
              | a :: b :: c :: d :: e :: f :: g :: h :: rest =>
                  Some (Ascii.Ascii a b c d e f g h, rest)
              | _ => None end |}.
  by intros [].
Defined.

#[export] Instance codec_string : Codec string :=
  codec_via String.list_ascii_of_string String.string_of_list_ascii
    String.string_of_list_ascii_of_string.

(** The bits as a string of the bytes [0] and [1]. *)
Definition bit_char (b : bool) : Ascii.ascii :=
  if b then Ascii.one else Ascii.zero.
Definition bits_to_string (l : list bool) : string :=
  String.string_of_list_ascii (bit_char <$> l).
Definition string_to_bits (s : string) : list bool :=
  (λ c, bool_decide (c = Ascii.one)) <$> String.list_ascii_of_string s.
Lemma string_to_bits_to_string l : string_to_bits (bits_to_string l) = l.
Proof.
  unfold string_to_bits, bits_to_string.
  rewrite String.list_ascii_of_string_of_list_ascii, <- list_fmap_compose.
  rewrite <- (list_fmap_id l) at 2. apply list_fmap_ext. by intros i [].
Qed.

Definition codec_to_vec {A} `{Codec A} (a : A) : option string :=
  Some (bits_to_string (enc a)).
Definition codec_from_slice {A} `{Codec A} (s : string) : option A :=
  match dec (string_to_bits s) with Some (a, []) => Some a | _ => None end.
Lemma codec_roundtrip {A} `{Codec A} (a : A) bytes :
  codec_to_vec a = Some bytes → codec_from_slice bytes = Some a.
Proof.
  intros [= <-]. unfold codec_from_slice. rewrite string_to_bits_to_string.
  by rewrite <- (app_nil_r (enc a)), dec_enc.
Qed.

(** ** The recovery types *)

#[export] Instance codec_DeviceIdentity : Codec DeviceIdentity.
Proof.
  refine (codec_via (λ '(mkDeviceIdentity a b c), (a, b, c))
            (λ '(a, b, c), mkDeviceIdentity a b c) _). by intros [].
Defined.
#[export] Instance codec_VtHolderIdentity : Codec VtHolderIdentity.
Proof.
  refine (codec_via
    (λ '(mkVtHolderIdentity a b c d e f g), (a, b, c, d, e, f, g))
    (λ '(a, b, c, d, e, f, g), mkVtHolderIdentity a b c d e f g) _).
  by intros [].
Defined.
#[export] Instance codec_VtInspectionFailure : Codec VtInspectionFailure.
Proof.
  refine (codec_via (λ v, match v with
    | VifActiveVt e => (0, e, 0, 0) | VifTargetDevice e => (1, e, 0, 0)
    | VifProcEnumeration e => (2, e, 0, 0)
    | VifProcessIdentity p e => (3, p, e, 0)
    | VifFdInspection p f e => (4, p, f, e)
    | VifProcessMetadata p e => (5, p, e, 0) end)
    (λ '(t, a, b, c), if t =? 0 then VifActiveVt a
      else if t =? 1 then VifTargetDevice a
      else if t =? 2 then VifProcEnumeration a
      else if t =? 3 then VifProcessIdentity a b
      else if t =? 4 then VifFdInspection a b c
      else VifProcessMetadata a b) _). by intros [].
Defined.
#[export] Instance codec_VtBusyClassification : Codec VtBusyClassification.
Proof.
  refine (codec_via (λ v, match v with
    | TargetStillForeground => 0 | VisibleUserspaceHolder => 1
    | MultipleVisibleUserspaceHolders => 2 | KernelBusyUnattributed => 3
    | VbcInspectionUnavailable => 4 | InternalNiralisHolder => 5 end)
    (λ t, if t =? 0 then TargetStillForeground
      else if t =? 1 then VisibleUserspaceHolder
      else if t =? 2 then MultipleVisibleUserspaceHolders
      else if t =? 3 then KernelBusyUnattributed
      else if t =? 4 then VbcInspectionUnavailable
      else InternalNiralisHolder) _). by intros [].
Defined.
#[export] Instance codec_VtBusyProvenance : Codec VtBusyProvenance.
Proof.
  refine (codec_via
    (λ '(mkVtBusyProvenance a b c d e f g h i), (a, b, c, d, e, f, g, h, i))
    (λ '(a, b, c, d, e, f, g, h, i), mkVtBusyProvenance a b c d e f g h i) _).
  by intros [].
Defined.
#[export] Instance codec_VtRecoveryAttemptState : Codec VtRecoveryAttemptState.
Proof.
  refine (codec_via (λ v, match v with
    | VraIntentPersisted => (0, 0, EmptyString) | VraConfirmed => (1, 0, EmptyString)
    | VraFailed e => (2, e, EmptyString) | VraRejected r => (3, 0, r)
    | VraIndeterminate => (4, 0, EmptyString) end)
    (λ '(t, e, r), if t =? 0 then VraIntentPersisted
      else if t =? 1 then VraConfirmed else if t =? 2 then VraFailed e
      else if t =? 3 then VraRejected r else VraIndeterminate) _).
  by intros [].
Defined.
#[export] Instance codec_VtRecoveryAttempt : Codec VtRecoveryAttempt.
Proof.
  refine (codec_via
    (λ '(mkVtRecoveryAttempt a b c d e f), (a, b, c, d, e, f))
    (λ '(a, b, c, d, e, f), mkVtRecoveryAttempt a b c d e f) _). by intros [].
Defined.
#[export] Instance codec_DurableOperationState : Codec DurableOperationState.
Proof.
  refine (codec_via (λ v, match v with
    | NotStarted => (0, 0, 0) | IntentPersisted a => (1, a, 0)
    | Confirmed a => (2, a, 0) | OpFailed a f => (3, a, f)
    | Indeterminate a s => (4, a, s) end)
    (λ '(t, a, b), if t =? 0 then NotStarted
      else if t =? 1 then IntentPersisted a else if t =? 2 then Confirmed a
      else if t =? 3 then OpFailed a b else Indeterminate a b) _).
  by intros [].
Defined.
#[export] Instance codec_DurableOperationLedger : Codec DurableOperationLedger.
Proof.
  refine (codec_via
    (λ '(mkOpLedger a b c d e f g h), (a, b, c, d, e, f, g, h))
    (λ '(a, b, c, d, e, f, g, h), mkOpLedger a b c d e f g h) _).
  by intros [].
Defined.
#[export] Instance codec_PersistentRecoveryRecord
  : Codec PersistentRecoveryRecord.
Proof.
  refine (codec_via
    (λ '(mkRecoveryRecord a1 a2 a3 a4 a5 a6 a7 a8 a9 b1 b2 b3 b4 b5 b6 b7 b8 b9
          c1 c2 c3 c4 c5 c6 c7 c8 c9 d1 d2 d3 d4 d5 d6 d7 d8 d9 e1),
      (a1, a2, a3, a4, a5, a6, a7, a8, a9, b1, b2, b3, b4, b5, b6, b7, b8, b9,
       c1, c2, c3, c4, c5, c6, c7, c8, c9, d1, d2, d3, d4, d5, d6, d7, d8, d9,
       e1))
    (λ '(a1, a2, a3, a4, a5, a6, a7, a8, a9, b1, b2, b3, b4, b5, b6, b7, b8, b9,
         c1, c2, c3, c4, c5, c6, c7, c8, c9, d1, d2, d3, d4, d5, d6, d7, d8, d9,
         e1),
      mkRecoveryRecord a1 a2 a3 a4 a5 a6 a7 a8 a9 b1 b2 b3 b4 b5 b6 b7 b8 b9
        c1 c2 c3 c4 c5 c6 c7 c8 c9 d1 d2 d3 d4 d5 d6 d7 d8 d9 e1) _).
  by intros [].
Defined.

(** ** The instances the witnesses use *)

#[export] Instance codec_serde {A} `{Codec A} : SerdeJson A | 100 :=
  {| serde_to_vec := codec_to_vec; serde_from_slice := codec_from_slice |}.
#[export] Instance codec_serde_roundtrip {A} `{Codec A} : SerdeRoundtrip A.
Proof. intros a bytes. apply codec_roundtrip. Qed.

#[export] Instance codec_value : SerdeValue :=
  {| value_parses s :=
       bool_decide (is_Some (codec_from_slice (A:=PersistentRecoveryRecord) s));
     value_format_version s :=
       pr_format_version <$> codec_from_slice (A:=PersistentRecoveryRecord) s |}.
#[export] Instance codec_record_laws : SerdeRecordLaws.
Proof.
  split.
  - apply _.
  - intros r bytes Hr. cbn. apply bool_decide_eq_true.
    rewrite (codec_roundtrip r bytes Hr). by eexists.
  - intros r bytes Hr. cbn. by rewrite (codec_roundtrip r bytes Hr).
Qed.
