(* ===== verification/LedgerDurability.v ===== *)
(** * Durability of the recovery ledger

    The invariant that ties the in-memory map to the directory, proved for
    every sequence of ledger operations and every schedule of I/O failures:
    a record in memory is backed by a complete JSON file that is at least as
    recent, except while the removal of a resolved record is under way. *)

From stdpp Require Import base gmap sets list strings.
From Stdlib Require Import ZArith Lia.
From S2P Require Import Prelude DirFs RecoveryTypes LedgerTaxonomy Ledger Codec.
#[local] Open Scope niralis_scope.

Section Durability.
Context `{SerdeJson PersistentRecoveryRecord}.
Context `{!SerdeRoundtrip PersistentRecoveryRecord}.

(** The file of [id] decodes to a record of the same lifecycle, no older
    than [r]. *)
Definition on_disk (m : gmap string File) (id : string)
    (r : PersistentRecoveryRecord) : Prop :=
  ∃ f r', m !! json_name id = Some f ∧ serde_from_slice (file_data f) = Some r'
    ∧ same_identity r r' ∧ pr_sequence r ≤ pr_sequence r'.

Definition backed (m : gmap string File) (id : string)
    (r : PersistentRecoveryRecord) : Prop :=
  on_disk m id r ∨ (m !! json_name id = None ∧ removable r).

Definition ledger_durable (l : PersistentRecoveryLedger) : Prop :=
  ∀ id r, lg_records l !! id = Some r →
    pr_lifecycle_id r = id ∧ validate_record r = Ok ()
    ∧ backed (ledger_files l) id r.









(** The record an operation advances (creation and removal aside). *)
Definition op_advances (op : LedgerOp) : option string :=
  match op with
  | LTransition id _ | LQuarantine id _ | LMarkResolved id | LProvenance id _
  | LAppendAttempt id _ | LFinishAttempt id _ _ _ | LVtIntent id _
  | LVtResult id _ _ | LOperation id _ _ | LTransitionOperation id _ _ _ =>
      Some id
  | _ => None
  end.

Lemma op_advances_steps boot op id :
  op_advances op = Some id → steps_record id (run_ledger_op boot op).
Proof.
  destruct op; cbn [op_advances run_ledger_op]; intros; simplify_eq.
  - apply transition_steps.
  - apply quarantine_steps.
  - apply transition_steps.
  - apply record_vt_busy_provenance_steps.
  - apply append_vt_recovery_attempt_steps.
  - apply finish_vt_recovery_attempt_steps.
  - apply worker_vt_cleanup_intent_steps.
  - apply worker_vt_cleanup_result_steps.
  - apply update_operation_steps.
  - apply transition_with_operation_steps.
Qed.

Lemma commit_keeps_other rec l l' r id :
  commit rec l = (l', r) → id ≠ pr_lifecycle_id rec →
  lg_records l' !! id = lg_records l !! id.
Proof.
  intros [_ HC]%commit_spec Hne. destruct r as [[]|e].
  - destruct HC as [_ ->]. by rewrite lookup_insert_ne.
  - by destruct HC as [-> _].
Qed.

(** A record leaves the map only when it is resolved. *)
Lemma removes_only_removable id m l i :
  removes_record id m → is_Some (lg_records l !! i) →
  lg_records (m l).1 !! i = None →
  i = id ∧ ∃ r, lg_records l !! i = Some r ∧ removable r.
Proof.
  intros Hm [r0 Hi] Hgone. destruct (m l) as [l' r] eqn:HC. cbn in Hgone.
  destruct (Hm _ _ _ HC) as [_ [(HR & _ & _)|(rec & Hl & Hrm & _ & HR)]].
  { by rewrite HR, Hi in Hgone. }
  destruct HR as [[_ HR]|[_ HR]]; rewrite HR in Hgone; [by rewrite Hi in Hgone|].
  apply lookup_delete_None in Hgone as [->|?]; [|congruence].
  split; [done|]. by exists rec.
Qed.

Lemma commit_keeps_domain rec l i :
  is_Some (lg_records l !! i) → is_Some (lg_records (commit rec l).1 !! i).
Proof.
  intros Hi. destruct (commit rec l) as [l' r] eqn:HC. cbn.
  destruct (decide (i = pr_lifecycle_id rec)) as [->|Hne].
  - apply commit_spec in HC as [_ HC]. destruct r as [[]|e].
    + destruct HC as [_ ->]. by rewrite lookup_insert_eq.
    + by destruct HC as [-> _].
  - by rewrite (commit_keeps_other _ _ _ _ _ HC Hne).
Qed.

Lemma steps_keeps_domain id m l i :
  steps_record id m → is_Some (lg_records l !! i) →
  is_Some (lg_records (m l).1 !! i).
Proof.
  intros Hm Hi. destruct (m l) as [l' r] eqn:HC. cbn.
  destruct (Hm _ _ _ HC) as [[-> _]|(next & rec & _ & _ & HC')]; [done|].
  pose proof (commit_keeps_domain rec l i Hi) as H1. by rewrite HC' in H1.
Qed.


(** Commit is atomic whatever fails: the files of other records are
    untouched; the file of this record is the old one or holds exactly the
    serialized new record; success means the latter and updates the map;
    failure leaves the map alone. *)
Theorem commit_atomic record l :
  let '(l', r) := commit record l in
  let id := pr_lifecycle_id record in
  (∀ other, other ≠ id →
     ledger_files l' !! json_name other = ledger_files l !! json_name other)
  ∧ (let unchanged :=
       ledger_files l' !! json_name id = ledger_files l !! json_name id in
     let replaced := ∃ f bytes, ledger_files l' !! json_name id = Some f
       ∧ serde_to_vec record = Some bytes ∧ file_data f = bytes in
     match r with
     | Ok _ => replaced ∧ lg_records l' = <[id := record]> (lg_records l)
     | Err _ => (unchanged ∨ replaced) ∧ lg_records l' = lg_records l
     end).
Proof.
  destruct (commit record l) as [l' r] eqn:HC. cbn zeta. split.
  { intros other Hne. apply (commit_other_files _ _ _ _ _ HC).
    - by intros ?%json_name_inj.
    - intros E. symmetry in E. by apply tmp_json_ne in E. }
  apply commit_spec in HC as [_ HC].
  assert (written l l' record →
    ∃ f bytes, ledger_files l' !! json_name (pr_lifecycle_id record) = Some f
      ∧ serde_to_vec record = Some bytes ∧ file_data f = bytes) as HW.
  { intros (_ & bytes & ino & Hb & ->). rewrite lookup_insert_eq. eauto. }
  destruct r as [[]|e]; destruct HC as [HC HR]; [by auto|].
  split; [|done]. destruct HR as [->|[[f ->]|?]]; [by left| |by auto].
  left. apply lookup_insert_ne, tmp_json_ne.
Qed.

(** A successful operation on a record advances its sequence by exactly
    one, without overflow, keeps its identity fields, and leaves memory and
    disk holding the same record. *)
Theorem operation_advances_sequence boot op id l l' next :
  ledger_durable l → op_advances op = Some id →
  lg_records l !! id = Some next →
  run_ledger_op boot op l = (l', Ok ()) →
  ∃ rec f, lg_records l' !! id = Some rec ∧ successor next rec
    ∧ ledger_files l' !! json_name id = Some f
    ∧ serde_from_slice (file_data f) = Some rec.
Proof.
  intros HD Hop Hl HC.
  destruct (op_advances_steps boot op id Hop _ _ _ HC)
    as [[_ ?]|(next' & rec & Hl' & Hsucc & HC')]; [done|]. simplify_eq.
  destruct (HD _ _ Hl) as (Hid & _ & _).
  assert (pr_lifecycle_id rec = id) as Hrec
    by (rewrite <- Hid; apply same_identity_lifecycle, Hsucc).
  apply commit_spec in HC' as [_ [(_ & bytes & ino & Hb & HF) HR]].
  rewrite Hrec in HF, HR. rewrite HF, HR, !lookup_insert_eq.
  do 2 eexists. repeat split; try apply Hsucc.
  cbn. by apply serde_roundtrip.
Qed.

(** A failed operation never loses a record and never changes the map:
    only a removal of a record already resolved (or the combined
    resolve-and-remove of that very record) takes it out of memory. *)
Theorem removal_requires_resolution boot op l id next :
  lg_records l !! id = Some next →
  lg_records (run_ledger_op boot op l).1 !! id = None →
  op = LResolveAndRemove id
  ∨ removable next ∧ (op = LRemoveResolved id ∨ ∃ fi, op = LRemoveExact id fi).
Proof.
  intros Hl Hgone.
  destruct (op_advances op) as [i|] eqn:Hop.
  { assert (is_Some (lg_records (run_ledger_op boot op l).1 !! id)) as [? Hs];
      [|congruence].
    eapply steps_keeps_domain; [by eapply op_advances_steps|by eexists]. }
  destruct op; try discriminate Hop; cbn [run_ledger_op] in Hgone.
  - unfold create in Hgone. case_match; [cbn in Hgone; congruence|].
    destruct (commit_keeps_domain r l id) as [? Hs]; [by eexists|congruence].
  - destruct (removes_only_removable _ _ _ _ (remove_resolved_removes id0)
      (mk_is_Some _ _ Hl) Hgone) as [-> (r & Hr & ?)].
    simplify_eq. right. by auto.
  - left. f_equal. unfold resolve_and_remove, resolve_state_and_remove in Hgone.
    unfold sr_bind in Hgone.
    pose proof (steps_keeps_domain id0 _ l id
      (transition_steps boot id0 "record_resolved") (mk_is_Some _ _ Hl)) as Hm.
    destruct (transition boot id0 "record_resolved" l) as [l1 [[]|e]];
      cbn in Hm, Hgone; [|by rewrite Hgone in Hm; destruct Hm].
    by destruct (removes_only_removable _ _ _ _ (remove_resolved_removes id0)
      Hm Hgone) as [-> _].
  - destruct (removes_only_removable _ _ _ _
      (remove_record_exact_removes id0 fi) (mk_is_Some _ _ Hl) Hgone)
      as [-> (r & Hr & ?)].
    simplify_eq. right. eauto.
Qed.

(** A temporary file left by an earlier failed write blocks every later
    advance of that record: the operation fails and neither the directory
    nor the map changes. *)
Theorem abandoned_temporary_blocks boot op id l f :
  ledger_durable l → op_advances op = Some id →
  ledger_files l !! tmp_name id = Some f →
  is_ok (run_ledger_op boot op l).2 = false
  ∧ ledger_files (run_ledger_op boot op l).1 = ledger_files l
  ∧ lg_records (run_ledger_op boot op l).1 = lg_records l.
Proof.
  intros HD Hop Hf. destruct (run_ledger_op boot op l) as [l' r] eqn:HC.
  destruct (op_advances_steps boot op id Hop _ _ _ HC)
    as [[-> ?]|(next & rec & Hl & (HI & _) & HC')]; [done|]. cbn.
  destruct (HD _ _ Hl) as (Hid & _ & _).
  destruct (commit_abandoned_tmp rec l f) as (l1 & e & HC1 & ? & ?).
  { by rewrite (same_identity_lifecycle _ _ HI), Hid. }
  rewrite HC1 in HC'. by simplify_eq/=.
Qed.
End Durability.
