(* ===== verification/LedgerLoad.v ===== *)
(** * Loading the ledger directory

    [load_records] of [persistent_validation.rs]: every [*.json] entry is
    either accepted into the map or reported, and a report quarantines the
    start-up.  Proved here: what is accepted is exactly what the checks
    promise, and a start-up that is not quarantined accepted every entry. *)

From stdpp Require Import base gmap sets list strings.
From Stdlib Require Import ZArith Lia.
From S2P Require Import Prelude DirFs RecoveryTypes LedgerTaxonomy Ledger.
#[local] Open Scope niralis_scope.

(** Production builds: the test-only escape hatch is compiled out. *)
Definition allow_non_root_test_storage : bool := false.

(** A system call whose answer the model already holds. *)
Definition fs_call : IO () := io_call (λ d, (d, Ok ())).

Record LoadState := mkLoad {
  ld_result : gmap string PersistentRecoveryRecord;
  ld_read_results : list DurableRecoveryRecordReadResult;
  ld_quarantined : bool;
}.

Definition report (x : DurableRecoveryRecordReadResult) (s : LoadState)
    : LoadState :=
  mkLoad (ld_result s) (ld_read_results s ++ [x]) true.
Definition accept (x : DurableRecoveryRecordReadResult)
    (r : PersistentRecoveryRecord) (s : LoadState) : LoadState :=
  mkLoad (<[pr_lifecycle_id r := r]> (ld_result s)) (ld_read_results s ++ [x])
    (ld_quarantined s).

Section Load.
Context `{SerdeJson PersistentRecoveryRecord, SerdeValue}.

(** The checks from the parsed bytes on. *)
Definition load_bytes (current_boot : option BootIdentity)
    (name bytes : string) (s : LoadState) : LoadState :=
  if MAX_RECOVERY_RECORD_BYTES <? str_len bytes
  then report (Corrupted name Truncated) s
  else if negb (value_parses bytes)
  then report (Corrupted name InvalidJson) s
  else match value_format_version bytes with
  | None => report (Corrupted name MissingRequiredField) s
  | Some version =>
  if RECOVERY_FORMAT_VERSION <? version
  then report (UnsupportedVersion name version) s
  else match serde_from_slice bytes with
  | None => report (Corrupted name InvalidOperationLedger) s
  | Some record =>
  if decide (is_Some (ld_result s !! pr_lifecycle_id record))
  then report (IdentityMismatch name RimDuplicateRecordId) s
  else if negb (str_eqb name (json_name (pr_lifecycle_id record)))
  then report (IdentityMismatch name FilenameRecordId) s
  else match validate_record record with
  | Err error =>
      report (Corrupted name
        (if str_contains "boot" (io_msg error) then CorInvalidBootId
         else if pr_sequence record =? 0 then InvalidNumericRange
         else MissingRequiredField)) s
  | Ok _ =>
  match validate_historical_record record with
  | (_ :: _) as violations => report (HistoricalViolation name violations) s
  | [] =>
  match current_boot with
  | None => report (Corrupted name CorInvalidBootId) s
  | Some current =>
      if str_eqb (pr_created_boot_id record) (boot_str current)
      then accept (ValidSameBoot name record) record s
      else accept (ValidPreviousBoot name record) record s
  end end end end end.

Definition load_entry (current_boot : option BootIdentity) (s : LoadState)
    (entry : string * File) : IO LoadState :=
  let '(name, file) := entry in
  fs_call ;;;
  fs_call ;;;
  if negb (str_ends_with ".json" name) then sr_ret s
  else match file_kind file with
  | Symlink => sr_ret (report (UnsafeMetadata name UnsafeSymlink) s)
  | Directory | Special => sr_ret (report (UnsafeMetadata name NonRegularFile) s)
  | RegularFile =>
      fs_call ;;;
      if negb (file_uid file =? 0) && negb allow_non_root_test_storage
      then sr_ret (report (UnsafeMetadata name WrongOwner) s)
      else if negb (Z.land (file_mode file) 63 =? 0)
      then sr_ret (report (UnsafeMetadata name UnsafeMode) s)
      else if MAX_RECOVERY_RECORD_BYTES <? str_len (file_data file)
      then sr_ret (report (Corrupted name Oversized) s)
      else if negb (file_nlink file =? 1)
      then sr_ret (report (UnsafeMetadata name LinkCount) s)
      else
        fs_call ;;;
        fs_call ;;;
        sr_ret (load_bytes current_boot name (file_data file) s)
  end.

Fixpoint load_entries (current_boot : option BootIdentity) (s : LoadState)
    (entries : list (string * File)) : IO LoadState :=
  match entries with
  | [] => sr_ret s
  | e :: rest =>
      let* s' := load_entry current_boot s e in
      load_entries current_boot s' rest
  end.

Definition load_finish (current_boot : option BootIdentity) (s : LoadState)
    : LoadState :=
  let too_many :=
    MAX_RECOVERY_RECORDS <? Z.of_nat (size (ld_result s)) in
  let read := ld_read_results s ++
    (if too_many then [Corrupted EmptyString Oversized] else []) in
  match current_boot with
  | None => mkLoad (ld_result s) read (ld_quarantined s || too_many)
  | Some boot =>
      let c := classify_recovery_record_set read boot in
      mkLoad (ld_result s)
        (read ++ (ConflictingRecords EmptyString <$> rs_conflicts c))
        (ld_quarantined s || rs_global_quarantine c || too_many)
  end.

(** [entries] is what [fs::read_dir] yields, in any order. *)
Definition load_records (current_boot : option BootIdentity)
    (entries : list (string * File)) : IO LoadState :=
  fs_call ;;;
  let* s := load_entries current_boot (mkLoad ∅ [] false) entries in
  sr_ret (load_finish current_boot s).

(** ** Soundness and completeness of acceptance *)

(** What the checks promise about an accepted record. *)
Record acceptable (name : string) (f : File) (r : PersistentRecoveryRecord)
  : Prop := {
  ac_name : name = json_name (pr_lifecycle_id r);
  ac_kind : file_kind f = RegularFile;
  ac_owner : file_uid f = 0;
  ac_mode : Z.land (file_mode f) 63 = 0;
  ac_links : file_nlink f = 1;
  ac_decodes : serde_from_slice (file_data f) = Some r;
  ac_valid : validate_record r = Ok ();
  ac_history : HistoricalOk r;
}.

Definition load_inv (seen : list (string * File)) (s : LoadState) : Prop :=
  (∀ id r, ld_result s !! id = Some r →
     pr_lifecycle_id r = id ∧ ∃ f, (json_name id, f) ∈ seen
       ∧ acceptable (json_name id) f r)
  ∧ (ld_quarantined s = false → ∀ name f, (name, f) ∈ seen →
       str_ends_with ".json" name = true →
       ∃ r, acceptable name f r ∧ ld_result s !! pr_lifecycle_id r = Some r).

Lemma report_inv seen e x s : load_inv seen s → load_inv (seen ++ [e]) (report x s).
Proof.
  intros [H1 _]. split; [|discriminate]. cbn. intros id r Hr.
  destruct (H1 id r Hr) as (? & f & Hf & ?). split; [done|]. exists f.
  split; [|done]. apply elem_of_app. by left.
Qed.

Lemma skip_inv seen name f s :
  str_ends_with ".json" name = false →
  load_inv seen s → load_inv (seen ++ [(name, f)]) s.
Proof.
  intros Hn [H1 H2]. split.
  - intros id r Hr. destruct (H1 id r Hr) as (? & g & Hg & ?).
    split; [done|]. exists g. split; [|done]. apply elem_of_app. by left.
  - intros Hq n g [?|Hg]%elem_of_app Hj; [by apply (H2 Hq n g)|].
    apply list_elem_of_singleton in Hg. simplify_eq. congruence.
Qed.

Lemma accept_inv seen name f x r s :
  acceptable name f r → ld_result s !! pr_lifecycle_id r = None →
  load_inv seen s → load_inv (seen ++ [(name, f)]) (accept x r s).
Proof.
  intros Ha Hfresh [H1 H2]. pose proof (ac_name _ _ _ Ha) as Hn. split.
  - cbn. intros id r'. rewrite lookup_insert. case_decide as E.
    + intros [= <-]. split; [done|]. exists f. rewrite <- E, <- Hn.
      split; [|done]. apply elem_of_app. right. by apply list_elem_of_singleton.
    + intros Hr. destruct (H1 id r' Hr) as (? & g & ? & ?). split; [done|].
      exists g. split; [|done]. apply elem_of_app. by left.
  - cbn. intros Hq n g [Hin|Hg]%elem_of_app Hj.
    + destruct (H2 Hq n g Hin Hj) as (r' & ? & Hr'). exists r'. split; [done|].
      rewrite lookup_insert_ne; [done|]. congruence.
    + apply list_elem_of_singleton in Hg. simplify_eq. exists r.
      by rewrite lookup_insert_eq.
Qed.

Lemma load_bytes_inv boot seen name f s :
  file_kind f = RegularFile → file_uid f = 0 →
  Z.land (file_mode f) 63 = 0 → file_nlink f = 1 →
  load_inv seen s →
  load_inv (seen ++ [(name, f)]) (load_bytes boot name (file_data f) s).
Proof.
  intros Hk Hu Hm Hl HI. unfold load_bytes.
  case_match; [by apply report_inv|]. case_match; [by apply report_inv|].
  destruct (value_format_version _) as [v|]; [|by apply report_inv].
  case_match; [by apply report_inv|].
  destruct (serde_from_slice _) as [r|] eqn:Hr; [|by apply report_inv].
  destruct (decide _) as [|Hfresh]; [by apply report_inv|].
  destruct (str_eqb _ _) eqn:Hn; cbn; [|by apply report_inv].
  destruct (validate_record r) as [[]|e] eqn:Hv; [|by apply report_inv].
  destruct (validate_historical_record r) eqn:Hh; [|by apply report_inv].
  destruct boot as [boot|]; [|by apply report_inv].
  assert (acceptable name f r).
  { split; try done; [by apply str_eqb_true|].
    by apply validate_historical_record_sound. }
  assert (ld_result s !! pr_lifecycle_id r = None)
    by by apply eq_None_not_Some.
  case_match; by apply accept_inv.
Qed.

Lemma fs_call_bind {A} (k : IO A) d d' (a : A) :
  (fs_call ;;; k) d = (d', Ok a) → ∃ d0, k d0 = (d', Ok a).
Proof.
  unfold sr_bind, fs_call, io_call. cbn.
  destruct (dir_faults d) as [|[[]|]]; cbn; eauto; discriminate.
Qed.

Lemma load_entry_inv boot seen e s d d' s' :
  load_inv seen s → load_entry boot s e d = (d', Ok s') →
  load_inv (seen ++ [e]) s'.
Proof.
  intros HI. destruct e as [name f]. cbn.
  intros [? HC]%fs_call_bind. apply fs_call_bind in HC as [? HC].
  destruct (str_ends_with _ _) eqn:Hn; cbn in HC;
    [|inversion HC; subst; by apply skip_inv].
  destruct (file_kind f) eqn:Hk; try (inversion HC; subst; by apply report_inv).
  apply fs_call_bind in HC as [? HC].
  destruct (negb (file_uid f =? 0) && _) eqn:Hu;
    [inversion HC; subst; by apply report_inv|].
  case_match eqn:Hm; [inversion HC; subst; by apply report_inv|].
  case_match; [inversion HC; subst; by apply report_inv|].
  case_match eqn:Hl; [inversion HC; subst; by apply report_inv|].
  apply fs_call_bind in HC as [? HC]. apply fs_call_bind in HC as [? HC].
  inversion HC; subst. cbn in Hu. rewrite andb_true_r in Hu. bool_facts.
  by apply load_bytes_inv.
Qed.

Lemma load_entries_inv boot seen es s d d' s' :
  load_inv seen s → load_entries boot s es d = (d', Ok s') →
  load_inv (seen ++ es) s'.
Proof.
  revert seen s d. induction es as [|e es IH]; intros seen s d HI HC.
  - cbn in HC. inversion HC; subst. by rewrite app_nil_r.
  - cbn in HC. unfold sr_bind in HC.
    destruct (load_entry boot s e d) as [d1 [s1|err]] eqn:HE; [|discriminate].
    change (e :: es) with ([e] ++ es). rewrite (assoc_L (++)).
    eapply IH; [|exact HC]. by eapply load_entry_inv.
Qed.

Lemma load_inv_nil : load_inv [] (mkLoad ∅ [] false).
Proof. split; [done|]. by intros _ name f ?%not_elem_of_nil. Qed.

Lemma load_records_inv boot es d d' s :
  load_records boot es d = (d', Ok s) →
  ∃ s0, load_inv es s0 ∧ ld_result s = ld_result s0
    ∧ (ld_quarantined s = false → ld_quarantined s0 = false).
Proof.
  intros [d0 HC]%fs_call_bind. unfold sr_bind in HC.
  destruct (load_entries _ _ _ _) as [d1 [s0|e]] eqn:HE; [|discriminate].
  inversion HC; subst. exists s0.
  split; [by apply (load_entries_inv _ [] _ _ _ _ _ load_inv_nil HE)|].
  unfold load_finish. destruct boot; cbn; split; try done;
    intros Hq; bool_facts; done.
Qed.

(** C40. Loading is sound and fail-closed, whatever the directory holds and
    whatever order it is read in: every record in the map comes from a
    regular, singly linked, root-owned file without group or other access,
    named after the lifecycle id it decodes to, and satisfies the record and
    historical invariants; and when the start-up is not quarantined, every
    [*.json] entry of the directory was accepted that way. *)
Theorem load_records_sound_and_closed boot es d d' s :
  load_records boot es d = (d', Ok s) →
  (∀ id r, ld_result s !! id = Some r →
     pr_lifecycle_id r = id ∧ ∃ f, (json_name id, f) ∈ es
       ∧ acceptable (json_name id) f r)
  ∧ (ld_quarantined s = false → ∀ name f, (name, f) ∈ es →
       str_ends_with ".json" name = true →
       ∃ r, acceptable name f r ∧ ld_result s !! pr_lifecycle_id r = Some r).
Proof.
  intros (s0 & [H1 H2] & HR & HQ)%load_records_inv. rewrite HR.
  split; [exact H1|]. intros Hq. apply H2. by apply HQ.
Qed.
End Load.
