(* ===== verification/PreviousBoot.v ===== *)
(** * Records of an earlier boot: facts and plan

    [previous_boot_types.rs], [previous_boot_inspection.rs] and
    [previous_boot_planner.rs].  A record written before the last reboot is
    history: the planner looks at read-only facts of the current boot and
    decides whether the record may be resolved.  Proved here: the planner
    resolves only when every fact it needs was observed and none conflicts. *)

From stdpp Require Import base gmap sets list strings.
From Stdlib Require Import ZArith Lia.
From S2P Require Import Prelude DirFs RecoveryTypes LedgerTaxonomy Ledger.

(** ** Epochs and authorities *)

Record SameBootRecoveryRecord := mkSameBoot {
  sb_record : PersistentRecoveryRecord; sb_current_boot : BootIdentity }.
Record PreviousBootRecoveryRecord := mkPreviousBoot {
  pb_record : PersistentRecoveryRecord;
  pb_recorded_boot : BootIdentity;
  pb_current_boot : BootIdentity }.
#[export] Instance PreviousBootRecoveryRecord_eq_dec :
  EqDecision PreviousBootRecoveryRecord.
Proof. solve_decision. Defined.

Inductive RecoveryRecordEpoch :=
| EpochSameBoot (r : SameBootRecoveryRecord)
| EpochPreviousBoot (r : PreviousBootRecoveryRecord).

Definition RecoveryRecordEpoch_classify (record : PersistentRecoveryRecord)
    (current_boot : BootIdentity)
    : result RecoveryRecordEpoch PreviousBootInspectionError :=
  match BootIdentity_parse (pr_created_boot_id record) with
  | Err e => Err e
  | Ok recorded_boot =>
      if decide (recorded_boot = current_boot)
      then Ok (EpochSameBoot (mkSameBoot record current_boot))
      else Ok (EpochPreviousBoot
                 (mkPreviousBoot record recorded_boot current_boot))
  end.

Record SameBootRecoveryAuthority := mkSameBootAuthority {
  sa_current_boot : BootIdentity;
  sa_record_boot : BootIdentity;
  sa_lifecycle_id : string;
  sa_record_sequence : Z;
}.

Definition SameBootRecoveryAuthority_from_record (current_boot : BootIdentity)
    (record : PersistentRecoveryRecord)
    : result SameBootRecoveryAuthority PreviousBootInspectionError :=
  match BootIdentity_parse (pr_created_boot_id record) with
  | Err e => Err e
  | Ok record_boot =>
      Ok (mkSameBootAuthority current_boot record_boot (pr_lifecycle_id record)
            (pr_sequence record))
  end.

Definition same_boot_validates (a : SameBootRecoveryAuthority)
    (record : PersistentRecoveryRecord) : bool :=
  bool_decide (sa_current_boot a = sa_record_boot a)
  && str_eqb (boot_str (sa_record_boot a)) (pr_created_boot_id record)
  && str_eqb (sa_lifecycle_id a) (pr_lifecycle_id record)
  && (sa_record_sequence a =? pr_sequence record).

(** ** Facts of the current boot *)

Inductive CurrentIdentityObservation :=
| ObsAbsent | PresentButDifferentIdentity | PresentAndConflicting
| ObsAmbiguous | ObsInspectionUnavailable.
#[export] Instance CurrentIdentityObservation_eq_dec :
  EqDecision CurrentIdentityObservation.
Proof. solve_decision. Defined.

Record CurrentBootConflictFacts := mkConflictFacts {
  cf_same_unit_name : CurrentIdentityObservation;
  cf_same_invocation_id : CurrentIdentityObservation;
  cf_same_cgroup_path : CurrentIdentityObservation;
  cf_same_session_id : CurrentIdentityObservation;
  cf_same_lifecycle_id : CurrentIdentityObservation;
}.
#[export] Instance CurrentBootConflictFacts_eq_dec :
  EqDecision CurrentBootConflictFacts.
Proof. solve_decision. Defined.

Record CurrentAuthorityFacts := mkAuthorityFacts {
  af_systemd_owner : option string;
  af_systemd_generation : option Z;
  af_logind_owner : option string;
  af_logind_generation : option Z;
  af_stable : bool;
}.
#[export] Instance CurrentAuthorityFacts_eq_dec :
  EqDecision CurrentAuthorityFacts.
Proof. solve_decision. Defined.

Record CurrentScopeFacts := mkScopeFacts {
  sf_unit_name : string; sf_object_path : string; sf_invocation_id : string;
  sf_control_group : string; sf_slice : string; sf_transient : bool;
  sf_active_state : string; sf_sub_state : string }.
#[export] Instance CurrentScopeFacts_eq_dec : EqDecision CurrentScopeFacts.
Proof. solve_decision. Defined.

Record CurrentSessionFacts := mkSessionFacts {
  ssf_session_id : string; ssf_object_path : string; ssf_seat : string;
  ssf_leader_pid : Z; ssf_vt : Z; ssf_state : string; ssf_scope : string }.
#[export] Instance CurrentSessionFacts_eq_dec : EqDecision CurrentSessionFacts.
Proof. solve_decision. Defined.

Record HistoricalIdentityCollision := mkCollision {
  hc_pid : Z;
  hc_historical_starttime : option Z;
  hc_current_starttime : option Z;
  hc_historical_executable : option (Z * Z);
  hc_current_executable : option (Z * Z);
  hc_current_cgroup : option string }.
#[export] Instance HistoricalIdentityCollision_eq_dec :
  EqDecision HistoricalIdentityCollision.
Proof. solve_decision. Defined.

Inductive CurrentSeatRuntimeState :=
| Unclaimed | ClaimedByCurrentLifecycle | QuarantinedByCurrentRecord
| SeatConflicting | SeatUnknown.
#[export] Instance CurrentSeatRuntimeState_eq_dec :
  EqDecision CurrentSeatRuntimeState.
Proof. solve_decision. Defined.

Record CurrentSeatFacts := mkSeatFacts {
  st_runtime_state : CurrentSeatRuntimeState;
  st_inspection_complete : bool;
  st_active_lifecycle : option string;
  st_sessions : list CurrentSessionFacts;
  st_scopes : list CurrentScopeFacts }.
#[export] Instance CurrentSeatFacts_eq_dec : EqDecision CurrentSeatFacts.
Proof. solve_decision. Defined.

Inductive CurrentVtDisposition :=
| NotForegroundAndUnused | VtForeground | UsedByCurrentLifecycle
| VisibleCurrentHolder | VtAmbiguous | VtInspectionUnavailable.
#[export] Instance CurrentVtDisposition_eq_dec : EqDecision CurrentVtDisposition.
Proof. solve_decision. Defined.

Record CurrentVtFacts := mkVtFacts {
  vf_target_vt : Z;
  vf_active_vt : option Z;
  vf_disposition : CurrentVtDisposition;
  vf_inspection_complete : bool;
  vf_visible_holders : list VtHolderIdentity }.
#[export] Instance CurrentVtFacts_eq_dec : EqDecision CurrentVtFacts.
Proof. solve_decision. Defined.

Record PreviousBootCurrentFacts := mkFacts {
  pf_authority : CurrentAuthorityFacts;
  pf_conflicts : CurrentBootConflictFacts;
  pf_seat : CurrentSeatFacts;
  pf_scopes : list CurrentScopeFacts;
  pf_sessions : list CurrentSessionFacts;
  pf_historical_pid_reuse : list HistoricalIdentityCollision;
  pf_vt : option CurrentVtFacts;
  pf_competing_records : list string;
  pf_inspection_failures : list PreviousBootInspectionError;
  pf_has_newer_record_for_seat : bool;
  pf_has_same_boot_record_for_seat : bool;
  pf_ambiguous_neighbor : bool;
}.
#[export] Instance PreviousBootCurrentFacts_eq_dec :
  EqDecision PreviousBootCurrentFacts.
Proof. solve_decision. Defined.

(** The [Default] instances. *)
Definition CurrentBootConflictFacts_default : CurrentBootConflictFacts :=
  mkConflictFacts ObsAbsent ObsAbsent ObsAbsent ObsAbsent ObsAbsent.
Definition CurrentAuthorityFacts_default : CurrentAuthorityFacts :=
  mkAuthorityFacts None None None None false.
Definition CurrentSeatFacts_default : CurrentSeatFacts :=
  mkSeatFacts SeatUnknown false None [] [].
Definition PreviousBootCurrentFacts_default : PreviousBootCurrentFacts :=
  mkFacts CurrentAuthorityFacts_default CurrentBootConflictFacts_default
    CurrentSeatFacts_default [] [] [] None [] [] false false false.

(** ** The planner *)

Inductive PreviousBootRecoveryPlan :=
| ResolveHistoricalRecord
| FinalizeAlreadyResolvedRecord
| KeepQuarantined (reason : string)
| QuarantineSeatConflict (seat conflict : string)
| QuarantineGlobally (reason : string)
| InspectionRequired (missing : list string)
| RejectMalformedHistory (violations : list string).
#[export] Instance PreviousBootRecoveryPlan_eq_dec :
  EqDecision PreviousBootRecoveryPlan.
Proof. solve_decision. Defined.

Definition historical_invariant_violations (record : PersistentRecoveryRecord)
    : list string :=
  let ol := pr_operation_ledger record in
  let resolved := str_eqb (pr_state record) "record_resolved" in
  (if pr_sequence record =? 0 then ["sequence regression"%string] else []) ++
  (if resolved && negb (match ol_record_resolution ol with
                        | Confirmed _ | NotStarted => true | _ => false end)
   then ["record resolved has nonterminal resolution operation"%string] else []) ++
  (if is_confirmed (ol_runtime_release ol) && negb resolved
   then ["runtime release confirmed before record resolved"%string] else []).

Definition conflict_observations (c : CurrentBootConflictFacts)
    : list CurrentIdentityObservation :=
  [cf_same_unit_name c; cf_same_invocation_id c; cf_same_cgroup_path c;
   cf_same_session_id c; cf_same_lifecycle_id c].

Definition obs_conflicts (o : CurrentIdentityObservation) : bool :=
  match o with
  | PresentButDifferentIdentity | PresentAndConflicting | ObsAmbiguous => true
  | _ => false end.
Definition obs_unavailable (o : CurrentIdentityObservation) : bool :=
  match o with ObsInspectionUnavailable => true | _ => false end.
Definition vt_uninspected (v : option CurrentVtFacts) : bool :=
  match v with
  | None => true
  | Some v =>
      negb (vf_inspection_complete v)
      || match vf_disposition v with
         | VtInspectionUnavailable | VtAmbiguous => true | _ => false end
      || negb (bool_decide (vf_visible_holders v = []))
  end.

Definition plan_previous_boot_reconciliation
    (record : PreviousBootRecoveryRecord) (facts : PreviousBootCurrentFacts)
    : PreviousBootRecoveryPlan :=
  let r := pb_record record in
  let conflict := QuarantineSeatConflict (pr_seat r) in
  match historical_invariant_violations r with
  | (_ :: _) as violations => RejectMalformedHistory violations
  | [] =>
  if pf_ambiguous_neighbor facts
  then QuarantineGlobally "ambiguous recovery ledger neighbor"
  else if negb (af_stable (pf_authority facts))
  then InspectionRequired ["stable systemd/logind authority snapshot"%string]
  else if negb (bool_decide (pf_inspection_failures facts = []))
  then InspectionRequired ["complete current-boot inspection"%string]
  else if negb (bool_decide (pf_historical_pid_reuse facts = []))
  then conflict "current PID is a new identity"
  else if negb (bool_decide (pf_competing_records facts = []))
  then conflict "competing recovery record"
  else if pf_has_same_boot_record_for_seat facts
  then conflict "same-boot record takes precedence"
  else if pf_has_newer_record_for_seat facts
  then conflict "newer record exists for seat"
  else
    let observations := conflict_observations (pf_conflicts facts) in
    if existsb obs_conflicts observations
    then conflict "current boot identity conflict"
    else
      let missing :=
        (if existsb obs_unavailable observations
         then ["current identity inspection"%string] else []) ++
        (if negb (st_inspection_complete (pf_seat facts))
            || bool_decide (st_runtime_state (pf_seat facts) = SeatUnknown)
         then ["current seat inspection"%string] else []) ++
        (if bool_decide (is_Some (pr_target_vt r)) && vt_uninspected (pf_vt facts)
         then ["current VT inspection"%string] else []) in
      match missing with
      | _ :: _ => InspectionRequired missing
      | [] =>
      if negb (bool_decide (st_runtime_state (pf_seat facts) = Unclaimed))
      then conflict "seat is occupied or quarantined"
      else if match pf_vt facts with
              | Some v => negb (bool_decide
                                  (vf_disposition v = NotForegroundAndUnused))
              | None => false end
      then conflict "VT is current-boot resource"
      else if str_eqb (pr_state r) "quarantined"
      then KeepQuarantined "historical quarantine requires later execution phase"
      else if str_eqb (pr_state r) "record_resolved"
      then FinalizeAlreadyResolvedRecord
      else ResolveHistoricalRecord
      end
  end.

(** ** What a plan to resolve means *)

Definition finalizes (p : PreviousBootRecoveryPlan) : bool :=
  match p with
  | ResolveHistoricalRecord | FinalizeAlreadyResolvedRecord => true
  | _ => false
  end.

(** Everything the current boot must show before history is resolved. *)
Record SafeToFinalize (r : PersistentRecoveryRecord)
    (facts : PreviousBootCurrentFacts) : Prop := {
  sf_history : historical_invariant_violations r = [];
  sf_no_neighbor : pf_ambiguous_neighbor facts = false;
  sf_stable : af_stable (pf_authority facts) = true;
  sf_no_failures : pf_inspection_failures facts = [];
  sf_no_pid_reuse : pf_historical_pid_reuse facts = [];
  sf_no_competing : pf_competing_records facts = [];
  sf_no_same_boot : pf_has_same_boot_record_for_seat facts = false;
  sf_no_newer : pf_has_newer_record_for_seat facts = false;
  sf_identities_absent : ∀ o,
    o ∈ conflict_observations (pf_conflicts facts) → o = ObsAbsent;
  sf_seat_inspected : st_inspection_complete (pf_seat facts) = true;
  sf_seat_unclaimed : st_runtime_state (pf_seat facts) = Unclaimed;
  sf_vt_inspected : is_Some (pr_target_vt r) → ∃ v, pf_vt facts = Some v
    ∧ vf_inspection_complete v = true ∧ vf_visible_holders v = [];
  sf_vt_unused : ∀ v, pf_vt facts = Some v →
    vf_disposition v = NotForegroundAndUnused;
  sf_not_quarantined : pr_state r ≠ "quarantined"%string;
}.

Lemma if_nil {A} (b : bool) (x : A) :
  (if b then [x] else []) = [] ↔ b = false.
Proof. by destruct b. Qed.

Lemma vt_uninspected_false v :
  vt_uninspected v = false ↔
  ∃ w, v = Some w ∧ vf_inspection_complete w = true ∧ vf_visible_holders w = []
    ∧ vf_disposition w ≠ VtInspectionUnavailable
    ∧ vf_disposition w ≠ VtAmbiguous.
Proof.
  unfold vt_uninspected. destruct v as [w|]; [|naive_solver].
  rewrite !orb_false_iff, !negb_false_iff, bool_decide_eq_true. split.
  - intros [[? ?] ?]. exists w. repeat split; try done; intros E;
      by rewrite E in *.
  - intros (? & [= <-] & ? & ? & ? & ?). repeat split; try done.
    by destruct (vf_disposition w).
Qed.

Lemma observations_absent l :
  existsb obs_conflicts l = false → existsb obs_unavailable l = false →
  ∀ o, o ∈ l → o = ObsAbsent.
Proof.
  rewrite !existsb_false_elem. intros H1 H2 o Ho.
  specialize (H1 o Ho). specialize (H2 o Ho). by destruct o.
Qed.

Lemma plan_finalizes_sound record facts :
  finalizes (plan_previous_boot_reconciliation record facts) = true →
  SafeToFinalize (pb_record record) facts.
Proof.
  unfold plan_previous_boot_reconciliation.
  destruct (historical_invariant_violations _) eqn:Hh; [|intros [=]].
  do 8 (case_match; [intros [=]|]). cbn zeta.
  match goal with |- context [match ?m with [] => _ | _ :: _ => _ end] =>
    destruct m eqn:Hm; [|intros [=]] end.
  repeat (apply app_eq_nil in Hm as [?Hm Hm]). rewrite if_nil in *.
  do 2 (match goal with |- context [if ?b then _ else _] =>
    destruct b eqn:?; [intros [=]|] end).
  destruct (str_eqb _ "quarantined") eqn:?; [intros [=]|].
  intros _. bool_facts.
  split; try done.
  - by apply observations_absent.
  - intros Hvt. rewrite bool_decide_eq_true_2 in Hm by done. cbn in Hm.
    apply vt_uninspected_false in Hm. naive_solver.
  - intros v Hv. rewrite Hv in *. by bool_facts.
Qed.

Lemma plan_finalizes_complete record facts :
  SafeToFinalize (pb_record record) facts →
  finalizes (plan_previous_boot_reconciliation record facts) = true.
Proof.
  intros [Hh Hn Hs Hf Hp Hc Hb Hw Ho Hi Hu Hvi Hvu Hq].
  unfold plan_previous_boot_reconciliation.
  rewrite Hh, Hn, Hs, Hf, Hp, Hc, Hb, Hw. cbn zeta.
  rewrite !bool_decide_eq_true_2 by done. cbn [negb].
  assert (existsb obs_conflicts (conflict_observations (pf_conflicts facts))
          = false) as ->.
  { apply existsb_false_elem. intros o Ho'. by rewrite (Ho o Ho'). }
  assert (existsb obs_unavailable (conflict_observations (pf_conflicts facts))
          = false) as ->.
  { apply existsb_false_elem. intros o Ho'. by rewrite (Ho o Ho'). }
  rewrite Hi, Hu, (bool_decide_eq_false_2 (Unclaimed = SeatUnknown)) by done.
  assert (bool_decide (is_Some (pr_target_vt (pb_record record)))
          && vt_uninspected (pf_vt facts) = false) as ->.
  { case_bool_decide as Hvt; [|done]. cbn. apply vt_uninspected_false.
    destruct (Hvi Hvt) as (v & Hv & ? & ?). exists v. repeat split; try done;
      by rewrite (Hvu v Hv). }
  cbn. destruct (pf_vt facts) as [v|].
  - rewrite (Hvu v eq_refl), !bool_decide_eq_true_2 by done. cbn.
    rewrite (proj2 (str_eqb_false _ _) Hq). by case_match.
  - rewrite bool_decide_eq_true_2, (proj2 (str_eqb_false _ _) Hq) by done.
    cbn. by case_match.
Qed.

(** The planner is exact: it schedules a previous-boot record for
    resolution if and only if its history is coherent, the whole inspection
    of the current boot is complete and stable, nothing in it collides with
    the record, the seat is unclaimed, the terminal is unused, and the record
    is not under quarantine. *)
Theorem plan_finalizes_exact record facts :
  finalizes (plan_previous_boot_reconciliation record facts) = true ↔
  SafeToFinalize (pb_record record) facts.
Proof. split; [apply plan_finalizes_sound|apply plan_finalizes_complete]. Qed.
