(* ===== verification/PreCommit.v ===== *)
(** * The pre-commit runtime store

    [launcher/precommit_runtime]: records of logins that have not committed
    yet, kept in [/run], the bindings that authorize changing them, the
    identity of the worker process, and the reconciliation at startup. *)

From stdpp Require Import base gmap sets list strings.
From Stdlib Require Import ZArith Lia Ascii.
From S2P Require Import Prelude DirFs RecoveryTypes LedgerTaxonomy Ledger.
From S2P Require Import LedgerLoad.
#[local] Open Scope niralis_scope.

(** ** Data *)

Record PreCommitRuntimeRecord := mkPreCommit {
  pc_format_version : Z;
  pc_transaction_id : string;
  pc_admission_attempt_id : Z;
  pc_lifecycle_id : string;
  pc_seat : string;
  pc_seat_generation : Z;
  pc_boot_id : string;
  pc_stage : string;
  pc_worker_pid : option Z;
  pc_worker_starttime : option Z;
  pc_worker_executable : option (Z * Z);
  pc_channel_worker_id : option string;
  pc_sequence : Z;
  pc_handoff_committed : bool;
}.
#[export] Instance PreCommitRuntimeRecord_eq_dec :
  EqDecision PreCommitRuntimeRecord.
Proof. solve_decision. Defined.

Record PreCommitRuntimeAuthority := mkPcAuthority {
  pa_lifecycle_id : string;
  pa_seat_generation : Z;
  pa_boot_id : string;
  pa_sequence : Z;
  pa_file : RecordFileIdentity;
}.
#[export] Instance PreCommitRuntimeAuthority_eq_dec :
  EqDecision PreCommitRuntimeAuthority.
Proof. solve_decision. Defined.
Record PreCommitRuntimeBinding := mkPcBinding {
  pcb_authority : PreCommitRuntimeAuthority;
  pcb_record : PreCommitRuntimeRecord;
}.
#[export] Instance PreCommitRuntimeBinding_eq_dec :
  EqDecision PreCommitRuntimeBinding.
Proof. solve_decision. Defined.
Definition pcb_lifecycle_id (b : PreCommitRuntimeBinding) : string :=
  pa_lifecycle_id (pcb_authority b).

Record PreCommitRuntimeStore := mkStore {
  ps_fs : DirFs;
  ps_records : gmap string PreCommitRuntimeRecord;
  ps_startup_quarantined : bool;
  ps_startup_quarantined_seats : gset string;
}.
Abbreviation PG := (SR PreCommitRuntimeStore IoError).

Definition ps_set_fs (d : DirFs) (s : PreCommitRuntimeStore) :=
  mkStore d (ps_records s) (ps_startup_quarantined s)
    (ps_startup_quarantined_seats s).
Definition ps_set_records (m : gmap string PreCommitRuntimeRecord)
    (s : PreCommitRuntimeStore) :=
  mkStore (ps_fs s) m (ps_startup_quarantined s) (ps_startup_quarantined_seats s).
Definition ps_quarantine (s : PreCommitRuntimeStore) :=
  mkStore (ps_fs s) (ps_records s) true (ps_startup_quarantined_seats s).
Definition ps_quarantine_seat (seat : string) (s : PreCommitRuntimeStore) :=
  mkStore (ps_fs s) (ps_records s) (ps_startup_quarantined s)
    ({[seat]} ∪ ps_startup_quarantined_seats s).
Definition on_ps {A} (m : IO A) : PG A := sr_zoom ps_fs ps_set_fs m.

Definition PRECOMMIT_FORMAT_VERSION : Z := 1.
Definition MAX_PRECOMMIT_RECORD_BYTES : Z := 32 * 1024.

(** ** Validation *)

Definition is_ascii_alphanumeric (c : ascii) : bool :=
  let n := nat_of_ascii c in
  ((48 <=? n)%nat && (n <=? 57)%nat) || ((65 <=? n)%nat && (n <=? 90)%nat)
  || ((97 <=? n)%nat && (n <=? 122)%nat).

Definition pc_validate_lifecycle_id (value : string) : result () IoError :=
  if str_is_empty value || (128 <? str_len value)
     || str_any (λ c, negb (is_ascii_alphanumeric c
                            || bool_decide (c = "-"%char)
                            || bool_decide (c = "_"%char))) value
  then Err (IoErr InvalidInput "invalid precommit lifecycle id")
  else Ok ().

Definition pc_stages : list string :=
  ["reserved"%string; "worker_attached"%string; "authentication_inflight"%string;
   "authenticated"%string; "preparing_launch"%string; "handoff_started"%string].

Definition pc_validate_record (r : PreCommitRuntimeRecord) : result () IoError :=
  if negb (pc_format_version r =? PRECOMMIT_FORMAT_VERSION)
     || str_is_empty (pc_transaction_id r) || str_is_empty (pc_lifecycle_id r)
     || negb (str_eqb (pc_transaction_id r) (pc_lifecycle_id r))
     || (pc_admission_attempt_id r =? 0) || str_is_empty (pc_seat r)
     || (pc_seat_generation r =? 0) || str_is_empty (pc_boot_id r)
     || negb (bool_decide (pc_stage r ∈ pc_stages))
  then Err (IoErr InvalidData "invalid precommit runtime record")
  else pc_validate_lifecycle_id (pc_lifecycle_id r).

Definition pc_record_path (id : string) : result string IoError :=
  match pc_validate_lifecycle_id id with
  | Err e => Err e
  | Ok _ => Ok (json_name id)
  end.

(** ** Reading [/proc] *)

(** [str::rsplit_once(") ")], the part after the last separator. *)
Fixpoint after_last_paren (s : string) : option string :=
  match s with
  | EmptyString => None
  | String c rest =>
      match after_last_paren rest with
      | Some t => Some t
      | None =>
          match c, rest with
          | ")"%char, String " " t => Some t
          | _, _ => None
          end
      end
  end.

Definition is_space (c : ascii) : bool :=
  let n := nat_of_ascii c in
  (n =? 32)%nat || ((9 <=? n)%nat && (n <=? 13)%nat).

(** [str::split_whitespace] on ASCII; [w] is the word being read. *)
Fixpoint words (w : string) (s : string) : list string :=
  match s with
  | EmptyString => if str_is_empty w then [] else [w]
  | String c rest =>
      if is_space c
      then (if str_is_empty w then [] else [w]) ++ words EmptyString rest
      else words (w +:+ String c EmptyString) rest
  end.
Definition split_whitespace (s : string) : list string := words EmptyString s.

Fixpoint digits (acc : Z) (s : string) : option Z :=
  match s with
  | EmptyString => Some acc
  | String c rest =>
      let n := Z.of_nat (nat_of_ascii c) in
      if (48 <=? n) && (n <=? 57)
      then let acc := acc * 10 + (n - 48) in
           if acc <=? u64_max then digits acc rest else None
      else None
  end.
(** [str::parse::<u64>]. *)
Definition parse_u64 (s : string) : option Z :=
  match s with
  | EmptyString => None
  | String "+" EmptyString => None
  | String "+" rest => digits 0 rest
  | _ => digits 0 s
  end.

(** [str::parse::<u32>]. *)
Definition parse_u32 (s : string) : option Z :=
  match parse_u64 s with
  | Some n => if n <=? u32_max then Some n else None
  | None => None
  end.

(** [stat] is the text of [/proc/<pid>/stat], if it can be read. *)
Definition proc_starttime (stat : option string) : option Z :=
  match stat with
  | None => None
  | Some text =>
      match after_last_paren text with
      | None => None
      | Some fields =>
          match split_whitespace fields !! 19%nat with
          | None => None
          | Some field => parse_u64 field
          end
      end
  end.
Definition proc_state (stat : option string) : option ascii :=
  match stat with
  | None => None
  | Some text =>
      match after_last_paren text with
      | Some (String c _) => Some c
      | _ => None
      end
  end.

(** What the process table answers for one pid: the two reads of [stat], the
    device and inode of [exe], and the course of a kill. *)
Record ProcHost := mkProc {
  ph_stat1 : option string;
  ph_stat2 : option string;
  ph_exe : option (Z * Z);
  ph_kill : option Z;
  ph_polls : list (option string * option Z);
}.

Inductive WorkerIdentityStatus := WorkerAbsent | WorkerExact | WorkerIndeterminate.
#[export] Instance WorkerIdentityStatus_eq_dec : EqDecision WorkerIdentityStatus.
Proof. solve_decision. Defined.

Definition inspect_worker_identity (host : Z → ProcHost)
    (r : PreCommitRuntimeRecord) : WorkerIdentityStatus :=
  match pc_worker_pid r with
  | None => WorkerAbsent
  | Some pid =>
  match pc_worker_starttime r with
  | None => WorkerIndeterminate
  | Some starttime =>
  match pc_worker_executable r with
  | None => WorkerIndeterminate
  | Some executable =>
      if bool_decide (proc_starttime (ph_stat1 (host pid)) = None)
      then WorkerAbsent
      else if bool_decide (proc_starttime (ph_stat2 (host pid)) = Some starttime)
              && bool_decide (ph_exe (host pid) = Some executable)
      then WorkerExact
      else WorkerIndeterminate
  end end end.

(** The 64 polls after SIGKILL: the text of [stat] and the errno of the probe
    [kill(pid, 0)] ([None] when it succeeds). *)
Fixpoint poll_gone (n : nat) (polls : list (option string * option Z))
    : result () IoError :=
  match n with
  | O => Err (IoErr OtherKind "worker remained alive after SIGKILL")
  | S n =>
      let '(stat, probe) := match polls with p :: _ => p | [] => (None, None) end in
      if bool_decide (proc_state stat = Some "Z"%char) then Ok ()
      else if match probe with
              | Some errno => bool_decide (decode_error_kind errno = NotFound)
              | None => false end
      then Ok ()
      else poll_gone n (tail polls)
  end.

Definition kill_exact_pid (h : ProcHost) : result () IoError :=
  match ph_kill h with
  | Some errno =>
      if bool_decide (decode_error_kind errno = NotFound) then Ok ()
      else Err (IoErr (decode_error_kind errno) "os error")
  | None => poll_gone 64 (ph_polls h)
  end.

(** ** Operations *)

Section Store.
Context `{SerdeJson PreCommitRuntimeRecord}.
Context (boot : result string IoError).

Definition pc_commit (r : PreCommitRuntimeRecord) : PG () :=
  sr_lift (pc_validate_record r) ;;;
  let* path := sr_lift (pc_record_path (pc_lifecycle_id r)) in
  match serde_to_vec r with
  | None => sr_fail (IoErr OtherKind "serialization")
  | Some bytes =>
      if MAX_PRECOMMIT_RECORD_BYTES <? str_len bytes
      then sr_fail (IoErr InvalidData "precommit runtime record too large")
      else
        on_ps (fs_replace (tmp_name (pc_lifecycle_id r)) path bytes) ;;;
        sr_modify (λ s, ps_set_records (<[pc_lifecycle_id r := r]> (ps_records s)) s)
  end.

Definition pc_file (id : string) : PG RecordFileIdentity :=
  let* path := sr_lift (pc_record_path id) in
  let* f := on_ps (fs_symlink_metadata path) in
  λ s, (s, Ok (mkFileIdentity (dir_dev (ps_fs s)) (file_ino f) (file_nlink f))).

Definition binding_for (r : PreCommitRuntimeRecord) : PG PreCommitRuntimeAuthority :=
  let* fi := pc_file (pc_lifecycle_id r) in
  sr_ret (mkPcAuthority (pc_lifecycle_id r) (pc_seat_generation r)
            (pc_boot_id r) (pc_sequence r) fi).

Definition create_reserved (lifecycle_id : string) (attempt_id : Z)
    (seat : string) (seat_generation : Z) : PG PreCommitRuntimeBinding := λ s,
  match ps_records s !! lifecycle_id with
  | Some _ => (s, Err (IoErr AlreadyExists "duplicate precommit lifecycle"))
  | None =>
      (let* boot_id := sr_lift boot in
       let r := mkPreCommit PRECOMMIT_FORMAT_VERSION lifecycle_id attempt_id
                  lifecycle_id seat seat_generation boot_id "reserved" None None
                  None None 0 false in
       pc_commit r ;;;
       let* a := binding_for r in
       sr_ret (mkPcBinding a r)) s
  end.

Definition pc_current (id : string) : PG PreCommitRuntimeRecord := λ s,
  (s, ok_or (ps_records s !! id) (IoErr NotFound "precommit runtime record")).

Definition ensure_current_authority (b : PreCommitRuntimeBinding) : PG () :=
  let a := pcb_authority b in
  let* current := pc_current (pc_lifecycle_id (pcb_record b)) in
  if negb (pc_sequence current =? pa_sequence a)
     || negb (pc_seat_generation current =? pa_seat_generation a)
     || negb (str_eqb (pc_boot_id current) (pa_boot_id a))
  then sr_fail (IoErr InvalidData "precommit runtime authority mismatch")
  else
    let* fi := pc_file (pc_lifecycle_id (pcb_record b)) in
    if bool_decide (fi = pa_file a) then sr_ret ()
    else sr_fail (IoErr InvalidData "precommit runtime file identity changed").

Definition pc_with (stage : string) (pid starttime : option Z)
    (exe : option (Z * Z)) (worker_id : option string) (sequence : Z)
    (handoff : bool) (r : PreCommitRuntimeRecord) : PreCommitRuntimeRecord :=
  mkPreCommit (pc_format_version r) (pc_transaction_id r)
    (pc_admission_attempt_id r) (pc_lifecycle_id r) (pc_seat r)
    (pc_seat_generation r) (pc_boot_id r) stage pid starttime exe worker_id
    sequence handoff.

Definition pc_update (b : PreCommitRuntimeBinding)
    (apply : PreCommitRuntimeRecord → PreCommitRuntimeRecord)
    : PG PreCommitRuntimeBinding :=
  ensure_current_authority b ;;;
  let* current := pc_current (pc_lifecycle_id (pcb_record b)) in
  match u64_checked_add (pc_sequence current) 1 with
  | None => sr_fail (IoErr InvalidData "precommit sequence overflow")
  | Some sequence =>
      let current :=
        apply (pc_with (pc_stage current) (pc_worker_pid current)
                 (pc_worker_starttime current) (pc_worker_executable current)
                 (pc_channel_worker_id current) sequence
                 (pc_handoff_committed current) current) in
      pc_commit current ;;;
      let* a := binding_for current in
      sr_ret (mkPcBinding a current)
  end.

Definition apply_stage (host : Z → ProcHost) (stage : string)
    (worker_id : option string) (worker_pid : option Z)
    (r : PreCommitRuntimeRecord) : PreCommitRuntimeRecord :=
  let worker := match worker_id with Some _ => worker_id
                | None => pc_channel_worker_id r end in
  match worker_pid with
  | Some pid =>
      pc_with stage (Some pid) (proc_starttime (ph_stat1 (host pid)))
        (ph_exe (host pid)) worker (pc_sequence r) (pc_handoff_committed r) r
  | None =>
      pc_with stage (pc_worker_pid r) (pc_worker_starttime r)
        (pc_worker_executable r) worker (pc_sequence r)
        (pc_handoff_committed r) r
  end.
Definition update_stage (host : Z → ProcHost) (b : PreCommitRuntimeBinding)
    (stage : string) (worker_id : option string) (worker_pid : option Z)
    : PG PreCommitRuntimeBinding :=
  pc_update b (apply_stage host stage worker_id worker_pid).

Definition apply_handoff (r : PreCommitRuntimeRecord) : PreCommitRuntimeRecord :=
  pc_with "handoff_started" (pc_worker_pid r) (pc_worker_starttime r)
    (pc_worker_executable r) (pc_channel_worker_id r) (pc_sequence r) true r.
Definition mark_handoff_committed (b : PreCommitRuntimeBinding)
    : PG PreCommitRuntimeBinding := pc_update b apply_handoff.

Definition remove_record_by_id (id : string) : PG () :=
  let* path := sr_lift (pc_record_path id) in
  on_ps (fs_remove_file path) ;;;
  on_ps fs_sync_directory ;;;
  sr_modify (λ s, ps_set_records (delete id (ps_records s)) s).

Definition pc_remove (b : PreCommitRuntimeBinding) : PG () :=
  ensure_current_authority b ;;;
  remove_record_by_id (pc_lifecycle_id (pcb_record b)).

(** ** Loading *)

Fixpoint pc_load_entries (m : gmap string PreCommitRuntimeRecord)
    (entries : list (string * File)) : IO (gmap string PreCommitRuntimeRecord) :=
  match entries with
  | [] => sr_ret m
  | (name, f) :: rest =>
      fs_call ;;;
      fs_call ;;;
      if bool_decide (file_kind f = Directory) then pc_load_entries m rest
      else if negb (has_json_extension name) then pc_load_entries m rest
      else
        fs_call ;;;
        if MAX_PRECOMMIT_RECORD_BYTES <? str_len (file_data f)
        then sr_fail (IoErr InvalidData "precommit runtime record too large")
        else match serde_from_slice (file_data f) with
             | None => sr_fail (IoErr OtherKind "deserialization")
             | Some r =>
                 sr_lift (pc_validate_record r) ;;;
                 pc_load_entries (<[pc_lifecycle_id r := r]> m) rest
             end
  end.
(** [open] from the acquired lock on. *)
Definition pc_open_locked (entries : list (string * File)) (d : DirFs)
    : result PreCommitRuntimeStore IoError :=
  match (fs_call ;;; pc_load_entries ∅ entries) d with
  | (d, Ok m) => Ok (mkStore d m false ∅)
  | (_, Err e) => Err e
  end.

(** ** Startup *)

Record PreCommitStartupSummary := mkPcSummary {
  pcs_cleared : Z; pcs_quarantined : Z }.
Definition pc_cleared (s : PreCommitStartupSummary) :=
  mkPcSummary (pcs_cleared s + 1) (pcs_quarantined s).
Definition pc_quarantined (s : PreCommitStartupSummary) :=
  mkPcSummary (pcs_cleared s) (pcs_quarantined s + 1).

Definition exact_a3_record_exists (ledger : option PersistentRecoveryLedger)
    (r : PreCommitRuntimeRecord) : bool :=
  match ledger with
  | None => false
  | Some l =>
      existsb (λ a3, str_eqb (pr_lifecycle_id a3) (pc_lifecycle_id r)
                     && str_eqb (pr_seat a3) (pc_seat r)
                     && str_eqb (pr_created_boot_id a3) (pc_boot_id r))
        (records_list l)
  end.

Definition clear_or_quarantine (r : PreCommitRuntimeRecord)
    (run : PreCommitRuntimeStore * PreCommitStartupSummary)
    : PreCommitRuntimeStore * PreCommitStartupSummary :=
  let '(s, sm) := run in
  match remove_record_by_id (pc_lifecycle_id r) s with
  | (s, Ok _) => (s, pc_cleared sm)
  | (s, Err _) => (ps_quarantine_seat (pc_seat r) s, pc_quarantined sm)
  end.

Definition reconcile_record (ledger : option PersistentRecoveryLedger)
    (host : Z → ProcHost) (current_boot : string)
    (run : PreCommitRuntimeStore * PreCommitStartupSummary)
    (r : PreCommitRuntimeRecord)
    : PreCommitRuntimeStore * PreCommitStartupSummary :=
  let '(s, sm) := run in
  let id := pc_lifecycle_id r in
  if negb (str_eqb (pc_boot_id r) current_boot) then
    let '(s, res) := remove_record_by_id id s in
    let sm := if is_ok res then pc_cleared sm else sm in
    match ps_records s !! id with
    | None => (s, sm)
    | Some _ => (ps_quarantine s, pc_quarantined sm)
    end
  else if pc_handoff_committed r && exact_a3_record_exists ledger r
  then clear_or_quarantine r run
  else match inspect_worker_identity host r with
       | WorkerAbsent => clear_or_quarantine r run
       | WorkerExact =>
           match pc_worker_pid r with
           | Some pid =>
               if is_ok (kill_exact_pid (host pid))
               then clear_or_quarantine r run
               else (ps_quarantine_seat (pc_seat r) s, pc_quarantined sm)
           | None => run
           end
       | WorkerIndeterminate =>
           (ps_quarantine_seat (pc_seat r) s, pc_quarantined sm)
       end.

Definition pc_reconcile_startup (ledger : option PersistentRecoveryLedger)
    (host : Z → ProcHost) (s : PreCommitRuntimeStore)
    : PreCommitRuntimeStore * PreCommitStartupSummary :=
  match boot with
  | Err _ =>
      (ps_quarantine s,
       mkPcSummary 0 (Z.max (Z.of_nat (size (ps_records s))) 1))
  | Ok current_boot =>
      let '(s, sm) :=
        foldl (reconcile_record ledger host current_boot)
          (s, mkPcSummary 0 0) (btree_values (ps_records s)) in
      (if 0 <? pcs_quarantined sm then ps_quarantine s else s, sm)
  end.
End Store.

#[global] Arguments pc_commit : simpl never.
#[global] Arguments pc_file : simpl never.
#[global] Arguments binding_for : simpl never.
#[global] Arguments ensure_current_authority : simpl never.
#[global] Arguments remove_record_by_id : simpl never.

(** ** What the operations keep *)

Section StoreFacts.
Context `{SerdeJson PreCommitRuntimeRecord}.
Context (boot : result string IoError).

Definition pc_keyed (s : PreCommitRuntimeStore) : Prop :=
  ∀ k r, ps_records s !! k = Some r → pc_lifecycle_id r = k.

(** Everything but the directory is as before. *)
Definition pc_same (s s' : PreCommitRuntimeStore) : Prop :=
  ps_records s' = ps_records s ∧
  ps_startup_quarantined s' = ps_startup_quarantined s ∧
  ps_startup_quarantined_seats s' = ps_startup_quarantined_seats s.
#[export] Instance pc_same_preorder : PreOrder pc_same.
Proof.
  split; [done|]. intros x y z (?&?&?) (?&?&?). repeat split; congruence.
Qed.
Lemma on_ps_same {A} (m : IO A) : sr_keeps pc_same (on_ps m).
Proof. intros s. unfold on_ps, sr_zoom. by destruct (m _). Qed.

(** ... and so are the files: only the fault schedule may have moved. *)
Definition pc_untouched (s s' : PreCommitRuntimeStore) : Prop :=
  pc_same s s' ∧ dir_files (ps_fs s') = dir_files (ps_fs s).
#[export] Instance pc_untouched_preorder : PreOrder pc_untouched.
Proof. split; [done|]. intros x y z [? ?] [? ?]. split; [by etrans|congruence]. Qed.

Lemma pc_file_untouched id : sr_keeps pc_untouched (pc_file id).
Proof.
  unfold pc_file. apply keeps_bind; [apply _|apply keeps_lift, _|intros path].
  apply keeps_bind; [apply _| |intros f s; reflexivity].
  intros s. split; [apply on_ps_same|].
  unfold on_ps, sr_zoom.
  pose proof (fs_symlink_metadata_files path (ps_fs s)) as Hf.
  by destruct (fs_symlink_metadata path (ps_fs s)).
Qed.

Lemma ensure_current_authority_untouched b :
  sr_keeps pc_untouched (ensure_current_authority b).
Proof.
  unfold ensure_current_authority.
  apply keeps_bind; [apply _|intros s; reflexivity|intros current].
  destruct (_ || _); [apply keeps_fail, _|].
  apply keeps_bind; [apply _|apply pc_file_untouched|intros fi].
  destruct (bool_decide _); [apply keeps_ret, _|apply keeps_fail, _].
Qed.

Lemma ensure_current_authority_Ok b s s' :
  ensure_current_authority b s = (s', Ok ()) →
  ∃ r f, ps_records s !! pc_lifecycle_id (pcb_record b) = Some r ∧
    pc_sequence r = pa_sequence (pcb_authority b) ∧
    pc_seat_generation r = pa_seat_generation (pcb_authority b) ∧
    pc_boot_id r = pa_boot_id (pcb_authority b) ∧
    dir_files (ps_fs s) !! json_name (pc_lifecycle_id (pcb_record b)) = Some f ∧
    pa_file (pcb_authority b) =
      mkFileIdentity (dir_dev (ps_fs s)) (file_ino f) (file_nlink f).
Proof.
  unfold ensure_current_authority, pc_current, pc_file, sr_bind, sr_lift,
    on_ps, sr_zoom, pc_record_path.
  destruct (ps_records s !! _) as [r|] eqn:Hr; cbn; [|done].
  destruct (_ || _) eqn:Hb; [done|]. bool_facts.
  destruct (pc_validate_lifecycle_id _); cbn; [|done].
  destruct (fs_symlink_metadata _ _) as [d [f|e]] eqn:Hf; cbn; [|done].
  destruct (bool_decide _) eqn:Hfi; [|done]. bool_facts. intros _.
  exists r, f. pose proof Hf as Hf'. apply fs_symlink_metadata_Ok in Hf'.
  repeat split; try done. rewrite <- Hfi. f_equal.
  pose proof (fs_symlink_metadata_dev
    (json_name (pc_lifecycle_id (pcb_record b))) (ps_fs s)) as Hd.
  by rewrite Hf in Hd.
Qed.

(** A write reaches the map only when every step of it succeeded. *)
Lemma pc_commit_records r s s' res :
  pc_commit r s = (s', res) →
  ps_startup_quarantined s' = ps_startup_quarantined s ∧
  ps_startup_quarantined_seats s' = ps_startup_quarantined_seats s ∧
  match res with
  | Ok _ => ps_records s' = <[pc_lifecycle_id r := r]> (ps_records s)
  | Err _ => ps_records s' = ps_records s
  end.
Proof.
  unfold pc_commit, sr_bind, sr_lift, sr_modify, sr_fail. intros HC.
  destruct (pc_validate_record r); [|by simplify_eq/=].
  destruct (pc_record_path _) as [path|]; [|by simplify_eq/=].
  destruct (serde_to_vec r) as [bytes|]; [|by simplify_eq/=].
  destruct (_ <? _); [by simplify_eq/=|].
  pose proof (on_ps_same (fs_replace (tmp_name (pc_lifecycle_id r)) path bytes) s)
    as Hs.
  destruct (on_ps _ s) as [s1 [[]|e]]; cbn in Hs;
    destruct Hs as (HR & HQ & HS); simplify_eq; cbn; by rewrite ?HR, ?HQ, ?HS.
Qed.

Lemma remove_record_by_id_records id s s' res :
  remove_record_by_id id s = (s', res) →
  ps_startup_quarantined s' = ps_startup_quarantined s ∧
  ps_startup_quarantined_seats s' = ps_startup_quarantined_seats s ∧
  match res with
  | Ok _ => ps_records s' = delete id (ps_records s) ∧
            dir_files (ps_fs s') = delete (json_name id) (dir_files (ps_fs s))
  | Err _ => ps_records s' = ps_records s
  end.
Proof.
  unfold remove_record_by_id, sr_bind, sr_lift, sr_modify, on_ps, sr_zoom,
    pc_record_path. intros HC.
  destruct (pc_validate_lifecycle_id id); [|by simplify_eq/=].
  pose proof (fs_remove_file_spec (json_name id) (ps_fs s)) as H1.
  destruct (fs_remove_file _ _) as [d1 [[]|e]]; [|by simplify_eq/=].
  destruct H1 as [_ H1]. cbn in HC.
  pose proof (fs_sync_directory_files d1) as H2.
  destruct (fs_sync_directory d1) as [d2 [[]|e]]; simplify_eq/=; [|done].
  by rewrite H2, H1.
Qed.

Lemma binding_for_untouched r : sr_keeps pc_untouched (binding_for r).
Proof.
  unfold binding_for.
  apply keeps_bind; [apply _|apply pc_file_untouched|intros; apply keeps_ret, _].
Qed.
Lemma binding_for_Ok r s s' a :
  binding_for r s = (s', Ok a) →
  pa_sequence a = pc_sequence r ∧ pa_seat_generation a = pc_seat_generation r ∧
  pa_boot_id a = pc_boot_id r ∧ pa_lifecycle_id a = pc_lifecycle_id r.
Proof.
  unfold binding_for, sr_bind, sr_ret. intros HC. by split_cases HC.
Qed.

(** The two updates of the code only touch the stage, the worker and the
    handoff mark. *)
Definition keeps_identity (f : PreCommitRuntimeRecord → PreCommitRuntimeRecord)
    : Prop :=
  ∀ r, pc_lifecycle_id (f r) = pc_lifecycle_id r ∧
       pc_sequence (f r) = pc_sequence r ∧
       pc_seat_generation (f r) = pc_seat_generation r ∧
       pc_boot_id (f r) = pc_boot_id r ∧ pc_seat (f r) = pc_seat r.
Lemma apply_stage_identity host stage wid pid :
  keeps_identity (apply_stage host stage wid pid).
Proof. intros r. unfold apply_stage. by destruct pid. Qed.
Lemma apply_handoff_identity : keeps_identity apply_handoff.
Proof. by intros r. Qed.

(** An update replaces the one record by its successor, or leaves the map. *)
Lemma pc_update_records b f s s' res :
  keeps_identity f → pc_keyed s → pc_update b f s = (s', res) →
  let id := pc_lifecycle_id (pcb_record b) in
  ps_records s' = ps_records s ∧ is_ok res = false ∨
  ∃ r r', ps_records s !! id = Some r ∧
    pc_sequence r = pa_sequence (pcb_authority b) ∧
    pc_seat_generation r = pa_seat_generation (pcb_authority b) ∧
    pc_boot_id r = pa_boot_id (pcb_authority b) ∧
    ps_records s' = <[id := r']> (ps_records s) ∧
    pc_lifecycle_id r' = id ∧ pc_seat r' = pc_seat r ∧
    pc_seat_generation r' = pc_seat_generation r ∧
    pc_boot_id r' = pc_boot_id r ∧
    pc_sequence r' = pc_sequence r + 1.
Proof.
  intros Hf Hk HC id. unfold pc_update in HC. rewrite sr_bind_eq in HC.
  pose proof (ensure_current_authority_untouched b s) as [[HR _] _].
  destruct (ensure_current_authority b s) as [s1 [[]|e]] eqn:HA; cbn in HR;
    [|simplify_eq/=; by left].
  destruct (ensure_current_authority_Ok _ _ _ HA) as (r & fl & Hr & Hs & Hg & Hb & _).
  unfold sr_bind, sr_ret, sr_fail, pc_current in HC. rewrite HR, Hr in HC. cbn in HC.
  destruct (u64_checked_add _ _) as [q|] eqn:Hq; [|simplify_eq/=; by left].
  apply u64_checked_add_Some in Hq as [-> _].
  set (r' := f _) in HC. destruct (Hf (pc_with (pc_stage r) (pc_worker_pid r)
    (pc_worker_starttime r) (pc_worker_executable r) (pc_channel_worker_id r)
    (pc_sequence r + 1) (pc_handoff_committed r) r)) as (E1 & E2 & E3 & E4 & E5).
  fold r' in E1, E2, E3, E4, E5. cbn in E1, E2, E3, E4, E5.
  destruct (pc_commit r' s1) as [s2 res2] eqn:HM.
  apply pc_commit_records in HM as (_ & _ & HM).
  destruct res2 as [[]|e]; [|left; simplify_eq/=; split; [congruence|done]].
  right. exists r, r'. rewrite (Hk _ _ Hr) in E1.
  assert (ps_records s' = ps_records s2) as ->.
  { pose proof (binding_for_untouched r' s2) as [[HB _] _].
    destruct (binding_for r' s2) as [s3 [a|e]]; by simplify_eq/=. }
  rewrite HM, HR, E1. repeat split; first [done|congruence].
Qed.
End StoreFacts.

(** ** Histories of the store *)

Inductive PcOp :=
| OpCreate (lifecycle_id : string) (attempt_id : Z) (seat : string) (generation : Z)
| OpStage (host : Z → ProcHost) (b : PreCommitRuntimeBinding) (stage : string)
    (worker_id : option string) (worker_pid : option Z)
| OpHandoff (b : PreCommitRuntimeBinding)
| OpRemove (b : PreCommitRuntimeBinding).

Section Histories.
Context `{SerdeJson PreCommitRuntimeRecord}.
Context (boot : result string IoError).

Definition run_pc_op (op : PcOp) (s : PreCommitRuntimeStore)
    : PreCommitRuntimeStore :=
  match op with
  | OpCreate id a seat g => (create_reserved boot id a seat g s).1
  | OpStage host b stage wid pid => (update_stage host b stage wid pid s).1
  | OpHandoff b => (mark_handoff_committed b s).1
  | OpRemove b => (pc_remove b s).1
  end.

(** [id] is not reserved again at generation [g]. *)
Definition not_reserved_at (id : string) (g : Z) (op : PcOp) : Prop :=
  match op with
  | OpCreate id' _ _ g' => id' = id → g' ≠ g
  | _ => True
  end.

(** The authority [a] over [id] has been used up. *)
Definition spent (id : string) (a : PreCommitRuntimeAuthority)
    (s : PreCommitRuntimeStore) : Prop :=
  pc_keyed s ∧
  ∀ r, ps_records s !! id = Some r →
    pa_sequence a < pc_sequence r ∨ pc_seat_generation r ≠ pa_seat_generation a.

Lemma pc_keyed_insert r s s' :
  pc_keyed s → ps_records s' = <[pc_lifecycle_id r := r]> (ps_records s) →
  pc_keyed s'.
Proof.
  intros Hk E k x. rewrite E, lookup_insert_Some. intros [[<- <-]|[_ ?]]; eauto.
Qed.
Lemma pc_keyed_same s s' : pc_keyed s → ps_records s' = ps_records s → pc_keyed s'.
Proof. intros Hk E k x. rewrite E. apply Hk. Qed.

Lemma create_reserved_records id attempt seat g s s' res :
  create_reserved boot id attempt seat g s = (s', res) →
  ps_records s' = ps_records s ∨
  ps_records s !! id = None ∧
  ∃ r, ps_records s' = <[id := r]> (ps_records s) ∧ pc_lifecycle_id r = id ∧
       pc_seat_generation r = g ∧ pc_sequence r = 0 ∧ pc_seat r = seat.
Proof.
  unfold create_reserved. destruct (ps_records s !! id) eqn:Hn;
    [intros [= <- <-]; by left|]. rewrite sr_bind_eq.
  destruct boot as [boot_id|e]; cbn; [|intros [= <- <-]; by left].
  set (r := mkPreCommit _ _ _ _ _ _ _ _ _ _ _ _ _ _). rewrite sr_bind_eq.
  destruct (pc_commit r s) as [s1 res1] eqn:HM.
  apply pc_commit_records in HM as (_ & _ & HM).
  destruct res1 as [[]|e]; [|intros [= <- <-]; by left].
  rewrite sr_bind_eq. pose proof (binding_for_untouched r s1) as [[HB _] _].
  intros HC. right. split; [done|]. exists r. unfold sr_ret in HC.
  split; [|done]. change (pc_lifecycle_id r) with id in HM. rewrite <- HM.
  destruct (binding_for r s1) as [s2 [a|e]]; cbn in HC, HB; by simplify_eq.
Qed.

Lemma pc_remove_records b s s' res :
  pc_remove b s = (s', res) →
  ps_records s' = ps_records s ∨
  ps_records s' = delete (pc_lifecycle_id (pcb_record b)) (ps_records s).
Proof.
  unfold pc_remove. rewrite sr_bind_eq.
  pose proof (ensure_current_authority_untouched b s) as [[HR _] _].
  destruct (ensure_current_authority b s) as [s1 [[]|e]]; cbn in HR;
    [|intros [= <- <-]; by left].
  intros HC. apply remove_record_by_id_records in HC as (_ & _ & HC).
  destruct res as [[]|e]; [right; destruct HC as [-> _]; by rewrite HR|left; by rewrite HC].
Qed.

Lemma pc_update_spent b f id a s :
  keeps_identity f → spent id a s → spent id a (pc_update b f s).1.
Proof.
  intros Hf [Hk Hs]. destruct (pc_update b f s) as [s' res] eqn:HC.
  apply pc_update_records in HC; [|done..]. cbn.
  destruct HC as [[E _]|(r & r' & Hr & _ & _ & _ & E & E1 & _ & E2 & _ & E3)].
  - split; [by eapply pc_keyed_same|by rewrite E].
  - split; [eapply (pc_keyed_insert r' s); [done|by rewrite E1]|].
    rewrite E. intros x. rewrite lookup_insert_Some.
    intros [[<- <-]|[_ Hx]]; [|by apply Hs].
    destruct (Hs r Hr); [left; lia|right; congruence].
Qed.

Lemma run_pc_op_spent op id a s :
  0 ≤ pa_sequence a →
  not_reserved_at id (pa_seat_generation a) op →
  spent id a s → spent id a (run_pc_op op s).
Proof.
  intros Ha Hop Hspent. destruct op as [id' at' seat g|host b stage w p|b|b]; cbn.
  - destruct (create_reserved _ _ _ _ _ _) as [s' res] eqn:HC.
    apply create_reserved_records in HC. cbn. destruct Hspent as [Hk Hs].
    destruct HC as [E|(Hn & r & E & <- & Hg & Hq & _)].
    + split; [by eapply pc_keyed_same|by rewrite E].
    + split; [by eapply (pc_keyed_insert r s)|].
      rewrite E. intros x. rewrite lookup_insert_Some.
      intros [[<- <-]|[_ Hx]]; [|by apply Hs].
      right. rewrite Hg. by apply Hop.
  - by apply pc_update_spent; [apply apply_stage_identity|].
  - by apply pc_update_spent; [apply apply_handoff_identity|].
  - destruct (pc_remove b s) as [s' res] eqn:HC.
    apply pc_remove_records in HC. cbn. destruct Hspent as [Hk Hs].
    destruct HC as [E|E]; (split; [|by rewrite E; intros x;
      rewrite ?lookup_delete_Some; naive_solver]).
    + by eapply pc_keyed_same.
    + intros k x. rewrite E, lookup_delete_Some. intros [_ ?]. by apply Hk.
Qed.

Lemma spent_rejects b s :
  spent (pc_lifecycle_id (pcb_record b)) (pcb_authority b) s →
  ∃ e, (ensure_current_authority b s).2 = Err e.
Proof.
  intros [_ Hs].
  destruct (ensure_current_authority b s) as [s' [[]|e]] eqn:HA; [|by eexists].
  apply ensure_current_authority_Ok in HA as (r & f & Hr & E1 & E2 & _).
  destruct (Hs r Hr); [lia|done].
Qed.

Lemma pc_update_rejected b f s e :
  (ensure_current_authority b s).2 = Err e →
  (pc_update b f s).2 = Err e ∧ pc_untouched s (pc_update b f s).1.
Proof.
  intros He. unfold pc_update. rewrite sr_bind_eq.
  pose proof (ensure_current_authority_untouched b s) as Hu.
  destruct (ensure_current_authority b s) as [s' [[]|e']]; cbn in *; by simplify_eq.
Qed.
Lemma pc_remove_rejected b s e :
  (ensure_current_authority b s).2 = Err e →
  (pc_remove b s).2 = Err e ∧ pc_untouched s (pc_remove b s).1.
Proof.
  intros He. unfold pc_remove. rewrite sr_bind_eq.
  pose proof (ensure_current_authority_untouched b s) as Hu.
  destruct (ensure_current_authority b s) as [s' [[]|e']]; cbn in *; by simplify_eq.
Qed.

(** A binding authorizes one change.  Once an update made with [b] has
    succeeded, then after any further history in which the lifecycle is not
    reserved again at the same seat generation, every operation that
    presents [b] fails and changes neither a record nor a file. *)
Theorem binding_single_use (f : PreCommitRuntimeRecord → PreCommitRuntimeRecord)
    b s s' b' (ops : list PcOp) :
  keeps_identity f → pc_keyed s → 0 ≤ pa_sequence (pcb_authority b) →
  pc_update b f s = (s', Ok b') →
  Forall (not_reserved_at (pc_lifecycle_id (pcb_record b))
            (pa_seat_generation (pcb_authority b))) ops →
  let s'' := foldl (λ s op, run_pc_op op s) s' ops in
  ∃ e, (∀ g, (pc_update b g s'').2 = Err e ∧
             pc_untouched s'' (pc_update b g s'').1) ∧
       (pc_remove b s'').2 = Err e ∧ pc_untouched s'' (pc_remove b s'').1.
Proof.
  intros Hf Hk Ha HC Hops s''.
  assert (spent (pc_lifecycle_id (pcb_record b)) (pcb_authority b) s'') as Hs.
  { unfold s''. clear s''. apply pc_update_records in HC; [|done..].
    destruct HC as [[_ ?]|(r & r' & Hr & Hq & _ & _ & E & E1 & _ & E2 & _ & E3)];
      [done|].
    assert (spent (pc_lifecycle_id (pcb_record b)) (pcb_authority b) s') as Hs.
    { split; [eapply (pc_keyed_insert r' s); [done|by rewrite E1]|].
      intros x. rewrite E, lookup_insert_eq. intros [= <-]. left. lia. }
    clear -Hs Hops Ha. revert s' Hs.
    induction Hops as [|op ops Hop _ IH]; intros s Hs; [done|].
    cbn. apply IH. by apply run_pc_op_spent. }
  apply spent_rejects in Hs as [e He]. exists e.
  split; [intros g; by apply pc_update_rejected|by apply pc_remove_rejected].
Qed.
End Histories.

(** ** Bindings of a store that does not fail *)

Section Live.
Context `{SerdeJson PreCommitRuntimeRecord}.
Context (boot : result string IoError).

(** The binding is the current authority over its record: the record has the
    bound sequence, generation and boot, and its file is the bound one. *)
Definition pc_live (b : PreCommitRuntimeBinding) (s : PreCommitRuntimeStore) : Prop :=
  let id := pc_lifecycle_id (pcb_record b) in
  pc_record_path id = Ok (json_name id) ∧
  ∃ r f, ps_records s !! id = Some r ∧
    pc_sequence r = pa_sequence (pcb_authority b) ∧
    pc_seat_generation r = pa_seat_generation (pcb_authority b) ∧
    pc_boot_id r = pa_boot_id (pcb_authority b) ∧
    dir_files (ps_fs s) !! json_name id = Some f ∧
    pa_file (pcb_authority b) =
      mkFileIdentity (dir_dev (ps_fs s)) (file_ino f) (file_nlink f).

Definition pc_stays_faultless (s s' : PreCommitRuntimeStore) : Prop :=
  stays_faultless (ps_fs s) (ps_fs s').
#[export] Instance pc_stays_faultless_preorder : PreOrder pc_stays_faultless.
Proof.
  split; [intros s; unfold pc_stays_faultless; reflexivity|].
  intros x y z. unfold pc_stays_faultless. by etrans.
Qed.
Lemma on_ps_faultless {A} (m : IO A) :
  sr_keeps stays_faultless m → sr_keeps pc_stays_faultless (on_ps m).
Proof.
  intros Hm s. unfold pc_stays_faultless, on_ps, sr_zoom. specialize (Hm (ps_fs s)).
  by destruct (m (ps_fs s)).
Qed.
Lemma pc_commit_faultless r : sr_keeps pc_stays_faultless (pc_commit r).
Proof.
  unfold pc_commit. apply keeps_bind; [apply _|apply keeps_lift, _|intros _].
  apply keeps_bind; [apply _|apply keeps_lift, _|intros path].
  destruct (serde_to_vec r); [|apply keeps_fail, _]. destruct (_ <? _); [apply keeps_fail, _|].
  apply keeps_bind; [apply _|apply on_ps_faultless, fs_replace_faultless|intros _].
  intros st Hst. exact Hst.
Qed.
Lemma pc_file_faultless id : sr_keeps pc_stays_faultless (pc_file id).
Proof.
  unfold pc_file. apply keeps_bind; [apply _|apply keeps_lift, _|intros path].
  apply keeps_bind; [apply _|apply on_ps_faultless, fs_metadata_faultless|intros f s Hs; exact Hs].
Qed.
Lemma binding_for_faultless r : sr_keeps pc_stays_faultless (binding_for r).
Proof.
  unfold binding_for. apply keeps_bind; [apply _|apply pc_file_faultless|].
  intros; apply keeps_ret, _.
Qed.
Lemma ensure_current_faultless b : sr_keeps pc_stays_faultless (ensure_current_authority b).
Proof.
  unfold ensure_current_authority. apply keeps_bind; [apply _|intros s Hs; exact Hs|intros current].
  destruct (_ || _); [apply keeps_fail, _|].
  apply keeps_bind; [apply _|apply pc_file_faultless|intros fi].
  destruct (bool_decide _); [apply keeps_ret, _|apply keeps_fail, _].
Qed.
Lemma create_reserved_faultless id attempt seat g :
  sr_keeps pc_stays_faultless (create_reserved boot id attempt seat g).
Proof.
  intros s. unfold create_reserved. destruct (ps_records s !! id); [reflexivity|]. revert s.
  apply keeps_bind; [apply _|apply keeps_lift, _|intros boot_id].
  apply keeps_bind; [apply _|apply pc_commit_faultless|intros _].
  apply keeps_bind; [apply _|apply binding_for_faultless|intros a; apply keeps_ret, _].
Qed.
Lemma pc_update_faultless b f : sr_keeps pc_stays_faultless (pc_update b f).
Proof.
  unfold pc_update. apply keeps_bind; [apply _|apply ensure_current_faultless|intros _].
  apply keeps_bind; [apply _|intros s Hs; exact Hs|intros current].
  destruct (u64_checked_add _ _); [|apply keeps_fail, _].
  apply keeps_bind; [apply _|apply pc_commit_faultless|intros _].
  apply keeps_bind; [apply _|apply binding_for_faultless|intros a; apply keeps_ret, _].
Qed.

Lemma binding_for_live r s s' a :
  binding_for r s = (s', Ok a) → ps_records s !! pc_lifecycle_id r = Some r →
  pc_live (mkPcBinding a r) s'.
Proof.
  intros HB Hr. pose proof (binding_for_untouched r s) as [[HR _] HF]. rewrite HB in HR, HF.
  cbn in HR, HF. pose proof (binding_for_Ok _ _ _ _ HB) as (E1 & E2 & E3 & _).
  revert HB. unfold binding_for, pc_file, sr_bind, sr_lift, sr_ret, on_ps, sr_zoom, pc_live.
  cbn. unfold pc_record_path at 1. destruct (pc_validate_lifecycle_id _) eqn:Hv; cbn; [|done].
  destruct (fs_symlink_metadata _ _) as [d [f|e]] eqn:Hf; cbn; [|done]. intros [= <- <-]. cbn in *.
  apply fs_symlink_metadata_Ok in Hf as Hfile.
  split; [unfold pc_record_path; by rewrite Hv|]. exists r, f. split_and!; try done.
  by rewrite HF.
Qed.
Lemma committed_binding_live r s s' b :
  (pc_commit r ;;; let* a := binding_for r in sr_ret (mkPcBinding a r)) s = (s', Ok b) →
  pc_live b s'.
Proof.
  rewrite sr_bind_eq. destruct (pc_commit r s) as [s1 [[]|e]] eqn:HC; [|done].
  apply pc_commit_records in HC as (_ & _ & HC). rewrite sr_bind_eq.
  destruct (binding_for r s1) as [s2 [a|e]] eqn:HB; [|done]. intros [= <- <-].
  eapply binding_for_live; [done|]. by rewrite HC, lookup_insert_eq.
Qed.
(** What [create_reserved] and an update return is live. *)
Lemma create_reserved_live id attempt seat g s s' b :
  create_reserved boot id attempt seat g s = (s', Ok b) → pc_live b s'.
Proof.
  unfold create_reserved. destruct (ps_records s !! id); [done|]. rewrite sr_bind_eq.
  destruct boot; cbn; [|done]. apply committed_binding_live.
Qed.
Lemma pc_update_live b f s s' b' : pc_update b f s = (s', Ok b') → pc_live b' s'.
Proof.
  unfold pc_update. rewrite sr_bind_eq.
  destruct (ensure_current_authority b s) as [s1 [[]|e]]; [|done]. rewrite sr_bind_eq.
  destruct (pc_current _ s1) as [s2 [current|e]]; [|done].
  destruct (u64_checked_add _ _); [|done]. apply committed_binding_live.
Qed.
(** A live binding of a store that does not fail removes its record. *)
Lemma pc_remove_live b s : pc_live b s → faultless (ps_fs s) → (pc_remove b s).2 = Ok ().
Proof.
  intros (Hpath & r & f & Hr & E1 & E2 & E3 & Hf & Hid) Hd.
  destruct (fs_metadata_runs _ _ _ Hd Hf) as [d1 Hm].
  pose proof (fs_symlink_metadata_dev (json_name (pc_lifecycle_id (pcb_record b))) (ps_fs s)) as Hdev.
  pose proof (fs_symlink_metadata_files (json_name (pc_lifecycle_id (pcb_record b))) (ps_fs s)) as Hfi.
  pose proof (fs_metadata_faultless (json_name (pc_lifecycle_id (pcb_record b))) (ps_fs s) Hd) as Hd1.
  rewrite Hm in Hdev, Hfi, Hd1. cbn in Hdev, Hfi, Hd1. rewrite <- Hfi in Hf.
  destruct (fs_remove_runs _ _ _ Hd1 Hf) as (d2 & Hrm & Hd2).
  pose proof (fs_sync_directory_runs d2 Hd2) as Hsync.
  unfold pc_remove, ensure_current_authority, pc_current, pc_file, remove_record_by_id, sr_bind,
    sr_lift, on_ps, sr_zoom, sr_modify. cbn. rewrite Hr. cbn.
  rewrite E1, E2, E3, !Z.eqb_refl, str_eqb_refl. cbn. unfold pc_record_path in *.
  destruct (pc_validate_lifecycle_id _); [|done]. cbn. rewrite Hm. cbn.
  rewrite Hdev, <- Hid, bool_decide_eq_true_2 by done. cbn. rewrite Hrm. cbn.
  by destruct (fs_sync_directory d2) as [d3 []].
Qed.
End Live.

(** ** Startup accounts for every record *)

Section StartupFacts.
Context (ledger : option PersistentRecoveryLedger).
Context (host : Z → ProcHost) (current_boot : string).
Abbreviation Run := (PreCommitRuntimeStore * PreCommitStartupSummary)%type.

(** Why a record may go: it is of another boot, the durable ledger has taken
    the session over, its worker is gone, or that very worker was killed. *)
Definition clearable (r : PreCommitRuntimeRecord) : Prop :=
  pc_boot_id r ≠ current_boot ∨
  pc_handoff_committed r = true ∧ exact_a3_record_exists ledger r = true ∨
  inspect_worker_identity host r = WorkerAbsent ∨
  inspect_worker_identity host r = WorkerExact ∧
    ∃ pid, pc_worker_pid r = Some pid ∧ kill_exact_pid (host pid) = Ok ().

Definition cleared_by (r : PreCommitRuntimeRecord) (x y : Run) : Prop :=
  ps_records y.1 = delete (pc_lifecycle_id r) (ps_records x.1) ∧
  ps_startup_quarantined y.1 = ps_startup_quarantined x.1 ∧
  ps_startup_quarantined_seats y.1 = ps_startup_quarantined_seats x.1 ∧
  y.2 = pc_cleared x.2 ∧ clearable r.
Definition kept_by (r : PreCommitRuntimeRecord) (x y : Run) : Prop :=
  ps_records y.1 = ps_records x.1 ∧
  (pc_boot_id r = current_boot → pc_seat r ∈ ps_startup_quarantined_seats y.1) ∧
  ps_startup_quarantined_seats x.1 ⊆ ps_startup_quarantined_seats y.1 ∧
  y.2 = pc_quarantined x.2.

Lemma clear_or_quarantine_spec r x :
  clearable r →
  cleared_by r x (clear_or_quarantine r x) ∨ kept_by r x (clear_or_quarantine r x).
Proof.
  intros Hc. destruct x as [s sm]. unfold clear_or_quarantine.
  destruct (remove_record_by_id _ s) as [s' res] eqn:HR.
  apply remove_record_by_id_records in HR as (E1 & E2 & HR).
  destruct res as [[]|e].
  - left. destruct HR as [HR _]. by repeat split.
  - right. split; cbn; [done|]. rewrite E2. set_solver.
Qed.

Lemma kept_by_seat r (s : PreCommitRuntimeStore) sm :
  kept_by r (s, sm) (ps_quarantine_seat (pc_seat r) s, pc_quarantined sm).
Proof. split; cbn; [done|]. set_solver. Qed.

Lemma inspect_exact_pid r :
  inspect_worker_identity host r = WorkerExact → is_Some (pc_worker_pid r).
Proof. unfold inspect_worker_identity. by destruct (pc_worker_pid r). Qed.

Lemma reconcile_record_spec r x :
  ps_records x.1 !! pc_lifecycle_id r = Some r →
  cleared_by r x (reconcile_record ledger host current_boot x r) ∨
  kept_by r x (reconcile_record ledger host current_boot x r).
Proof.
  destruct x as [s sm]. cbn [fst]. intros Hr. unfold reconcile_record.
  destruct (negb (str_eqb (pc_boot_id r) current_boot)) eqn:Hb; bool_facts.
  - destruct (remove_record_by_id _ s) as [s' res] eqn:HR.
    apply remove_record_by_id_records in HR as (E1 & E2 & HR).
    destruct res as [[]|e]; cbn.
    + destruct HR as [HR _]. rewrite HR, lookup_delete_eq. left.
      repeat split; try done. by left.
    + rewrite HR, Hr. right. split; cbn; [done|].
      split; [done|]. by rewrite E2.
  - destruct (_ && _) eqn:Hh.
    { bool_facts. apply clear_or_quarantine_spec. right; by left. }
    destruct (inspect_worker_identity host r) eqn:Hi.
    + apply clear_or_quarantine_spec. by right; right; left.
    + destruct (inspect_exact_pid r Hi) as [pid Hp]. rewrite Hp.
      destruct (kill_exact_pid (host pid)) as [[]|e] eqn:Hkill; cbn [is_ok];
        [|right; apply kept_by_seat].
      apply clear_or_quarantine_spec. right; right; right. by split; [|exists pid].
    + right. apply kept_by_seat.
Qed.

Lemma foldl_reconcile_record rs x :
  NoDup (pc_lifecycle_id <$> rs) →
  (∀ r, r ∈ rs → ps_records x.1 !! pc_lifecycle_id r = Some r) →
  let y := foldl (reconcile_record ledger host current_boot) x rs in
  ∃ gone kept, rs ≡ₚ gone ++ kept ∧
    pcs_cleared y.2 = pcs_cleared x.2 + Z.of_nat (length gone) ∧
    pcs_quarantined y.2 = pcs_quarantined x.2 + Z.of_nat (length kept) ∧
    (∀ id r, ps_records y.1 !! id = Some r ↔
       ps_records x.1 !! id = Some r ∧ id ∉ pc_lifecycle_id <$> gone) ∧
    Forall clearable gone ∧
    Forall (λ r, pc_boot_id r = current_boot →
                 pc_seat r ∈ ps_startup_quarantined_seats y.1) kept ∧
    ps_startup_quarantined_seats x.1 ⊆ ps_startup_quarantined_seats y.1.
Proof.
  revert x. induction rs as [|r rs IH]; intros x Hnd Hin; cbn.
  { exists [], []. split_and!; try done; [cbn; lia..|].
    intros id r. pose proof (not_elem_of_nil id). naive_solver. }
  apply NoDup_cons in Hnd as [Hr Hnd].
  specialize (IH (reconcile_record ledger host current_boot x r) Hnd).
  destruct (reconcile_record_spec r x) as [HC|HK]; [apply Hin; left| |].
  - destruct HC as (E1 & E2 & E3 & E4 & Hc).
    destruct IH as (gone & kept & Hp & C1 & C2 & C3 & C4 & C5 & C6).
    { intros r' Hr'. rewrite E1. apply lookup_delete_Some.
      split; [|apply Hin; by right]. intros Heq. apply Hr. rewrite Heq.
      by apply list_elem_of_fmap_2. }
    exists (r :: gone), kept. rewrite E4 in C1, C2.
    split_and!; [by rewrite Hp|cbn in *; lia|cbn in *; lia| |by constructor
      |done|by rewrite <- E3].
    intros id r'. rewrite C3, E1, lookup_delete_Some, fmap_cons, not_elem_of_cons.
    naive_solver.
  - destruct HK as (E1 & E2 & E3 & E4).
    destruct IH as (gone & kept & Hp & C1 & C2 & C3 & C4 & C5 & C6).
    { intros r' Hr'. rewrite E1. apply Hin. by right. }
    exists gone, (r :: kept). rewrite E4 in C1, C2.
    split_and!; [by rewrite Hp, Permutation_middle|cbn in *; lia|cbn in *; lia
      |intros id r'; by rewrite C3, E1|done| |by etrans].
    constructor; [|done]. intros Hb. by apply C6, E2.
Qed.

Lemma pc_keyed_values s :
  pc_keyed s → pc_lifecycle_id <$> btree_values (ps_records s) =
               (btree_entries (ps_records s)).*1.
Proof.
  intros Hk. unfold btree_values. rewrite <- list_fmap_compose.
  apply list_fmap_ext. intros i [k r] Hi. cbn. apply Hk.
  apply btree_entries_elem. by eapply list_elem_of_lookup_2.
Qed.

(** The startup pass over the pre-commit store accounts for every record:
    each one is either cleared, and then for one of the four admissible
    reasons, or kept and counted as quarantined; the store afterwards holds
    exactly the kept ones, each kept record of the current boot has its seat
    quarantined, and any kept record quarantines the store as a whole. *)
Theorem precommit_startup_accounts s :
  pc_keyed s →
  let '(s', sm) := pc_reconcile_startup (Ok current_boot) ledger host s in
  ∃ gone kept,
    btree_values (ps_records s) ≡ₚ gone ++ kept ∧
    pcs_cleared sm = Z.of_nat (length gone) ∧
    pcs_quarantined sm = Z.of_nat (length kept) ∧
    (∀ id r, ps_records s' !! id = Some r ↔
       ps_records s !! id = Some r ∧ r ∈ kept) ∧
    Forall clearable gone ∧
    Forall (λ r, pc_boot_id r = current_boot →
                 pc_seat r ∈ ps_startup_quarantined_seats s') kept ∧
    (kept ≠ [] → ps_startup_quarantined s' = true).
Proof.
  intros Hk. unfold pc_reconcile_startup.
  assert (NoDup (pc_lifecycle_id <$> btree_values (ps_records s))) as Hnd.
  { rewrite pc_keyed_values by done. apply btree_entries_NoDup. }
  pose proof (foldl_reconcile_record (btree_values (ps_records s))
    (s, mkPcSummary 0 0) Hnd) as HF.
  destruct (foldl _ _ _) as [s1 sm].
  destruct HF as (gone & kept & Hp & C1 & C2 & C3 & C4 & C5 & _).
  { intros r [k Hr]%btree_values_elem. by rewrite (Hk _ _ Hr). }
  cbn [fst snd pcs_cleared pcs_quarantined] in *.
  exists gone, kept.
  assert (∀ T, ps_records (if (T : bool) then ps_quarantine s1 else s1) =
               ps_records s1) as R1 by by intros [].
  assert (∀ T, ps_startup_quarantined_seats
                 (if (T : bool) then ps_quarantine s1 else s1) =
               ps_startup_quarantined_seats s1) as R2 by by intros [].
  rewrite R1, R2. split_and!; try done; [|].
  - intros id r. rewrite C3. rewrite Hp, fmap_app, NoDup_app in Hnd.
    destruct Hnd as (_ & Hd & _). split; intros [Hr Hg]; (split; [done|]).
    + assert (r ∈ gone ++ kept) as [Hin|?]%elem_of_app; [|exfalso|done].
      { rewrite <- Hp. apply btree_values_elem. by exists id. }
      apply Hg. rewrite <- (Hk _ _ Hr). by apply list_elem_of_fmap_2.
    + intros Hin. apply (Hd id Hin). rewrite <- (Hk _ _ Hr).
      by apply list_elem_of_fmap_2.
  - intros Hne. destruct kept; [done|].
    destruct (Z.ltb_spec 0 (pcs_quarantined sm)); [done|]. cbn in C2. lia.
Qed.
End StartupFacts.

(** ** The identity of a worker process *)

Lemma after_last_paren_app p fields :
  after_last_paren fields = None →
  after_last_paren (p +:+ ") " +:+ fields) = Some fields.
Proof.
  intros Hf. induction p as [|c p IH].
  - change (EmptyString +:+ ") " +:+ fields)
      with (String ")" (String " " fields)).
    cbn [after_last_paren]. rewrite Hf. done.
  - rewrite str_app_cons. cbn [after_last_paren]. by rewrite IH.
Qed.

(** A word of the line: not empty, no white space and no closing
    parenthesis. *)
Definition plain_word (w : string) : Prop :=
  w ≠ EmptyString ∧
  str_any (λ c, is_space c || bool_decide (c = ")"%char)) w = false.

Lemma words_plain acc w rest :
  str_any (λ c, is_space c || bool_decide (c = ")"%char)) w = false →
  words acc (w +:+ rest) = words (acc +:+ w) rest.
Proof.
  revert acc. induction w as [|c w IH]; intros acc Hw.
  - by rewrite str_app_nil_r.
  - rewrite str_app_cons. cbn in Hw |- *. apply orb_false_iff in Hw as [[Hc _]%orb_false_iff Hw].
    rewrite Hc, IH by done. f_equal.
    by rewrite <- str_app_assoc.
Qed.

Lemma split_whitespace_join ws :
  Forall plain_word ws → split_whitespace (String.concat " " ws) = ws.
Proof.
  unfold split_whitespace. induction 1 as [|w ws [Hne Hw] Hws IH]; [done|].
  destruct ws as [|w' ws].
  - cbn. rewrite <- (str_app_nil_r w) at 1.
    rewrite words_plain by done. cbn. by destruct w.
  - change (String.concat " " (w :: w' :: ws))
      with (w +:+ (" " +:+ String.concat " " (w' :: ws))).
    rewrite words_plain by done. rewrite !str_app_cons.
    change (EmptyString +:+ ?x) with x.
    cbn [words]. change (is_space " ") with true. cbv iota.
    destruct w as [|c w]; [done|]. cbn [str_is_empty app]. f_equal. exact IH.
Qed.

Lemma after_last_paren_none s :
  str_any (λ c, bool_decide (c = ")"%char)) s = false → after_last_paren s = None.
Proof.
  induction s as [|c s IH]; [done|]. cbn. intros Hs. bool_facts.
  rewrite IH by done. destruct c as [[] [] [] [] [] [] [] []]; try done.
Qed.

Lemma join_no_paren ws :
  Forall plain_word ws →
  str_any (λ c, bool_decide (c = ")"%char)) (String.concat " " ws) = false.
Proof.
  assert (∀ w, str_any (λ c, is_space c || bool_decide (c = ")"%char)) w = false →
               str_any (λ c, bool_decide (c = ")"%char)) w = false) as Hone.
  { induction w as [|c w IH]; [done|]. cbn. intros Hw. bool_facts.
    rewrite IH by done. by rewrite orb_false_r, bool_decide_false. }
  induction 1 as [|w ws [_ Hw] Hws IH]; [done|].
  destruct ws as [|w' ws]; [cbn; by apply Hone|].
  change (String.concat " " (w :: w' :: ws))
    with (w +:+ (" " +:+ String.concat " " (w' :: ws))).
  rewrite !str_any_app, IH, Hone by done. done.
Qed.

(** The start time of a process is read from field 22 of its [stat] line
    whatever the command name in field 2 contains, closing parentheses and
    spaces included: the text up to the last closing parenthesis is skipped, and
    the fields after it are counted from field 3. *)
Theorem proc_starttime_field_22 (pid_and_comm : string) (fields : list string) :
  Forall plain_word fields →
  proc_starttime (Some (pid_and_comm +:+ ") " +:+ String.concat " " fields)) =
  match fields !! (22 - 3)%nat with Some field => parse_u64 field | None => None end.
Proof.
  intros Hw. unfold proc_starttime.
  rewrite after_last_paren_app by by apply after_last_paren_none, join_no_paren.
  by rewrite split_whitespace_join.
Qed.

Definition poll_shows_zombie (p : option string * option Z) : Prop :=
  proc_state p.1 = Some "Z"%char.
(** The answers [kill(2)] documents. *)
Definition kill_errno (o : option Z) : Prop :=
  o = None ∨ o = Some EPERM ∨ o = Some ESRCH ∨ o = Some EINVAL.

Lemma kill_errno_not_found o errno :
  kill_errno o → o = Some errno → decode_error_kind errno ≠ NotFound.
Proof. unfold kill_errno. intros; destruct_or?; simplify_eq; done. Qed.

Lemma poll_gone_Ok n polls :
  Forall (λ p, kill_errno p.2) polls →
  poll_gone n polls = Ok () ↔ Exists poll_shows_zombie (take n polls).
Proof.
  revert polls. induction n as [|n IH]; intros polls Hp; cbn.
  { split; [done|intros H; inversion H]. }
  destruct polls as [|[stat probe] polls]; cbn.
  { change (bool_decide (@None ascii = Some "Z"%char)) with false. cbv iota.
    rewrite IH by done. destruct n; cbn; by split; intros H; inversion H. }
  apply Forall_cons in Hp as [Hp Hps]. rewrite Exists_cons.
  destruct (bool_decide (proc_state stat = _)) eqn:Hz; bool_facts.
  { split; [left; exact Hz|done]. }
  assert (match probe with
          | Some errno => bool_decide (decode_error_kind errno = NotFound)
          | None => false end = false) as ->.
  { destruct probe as [errno|]; [|done]. apply bool_decide_eq_false.
    by eapply kill_errno_not_found. }
  rewrite IH by done. split; [by right|]. intros [?|?]; done.
Qed.

(** What [kill_exact_pid] recognizes as a dead worker.  With the errors
    that [kill(2)] documents, it succeeds exactly when SIGKILL was delivered
    and one of the 64 polls showed a zombie: the [ESRCH] of a process that has
    already gone is not [ErrorKind::NotFound], so a worker that vanished before
    or after the signal is reported as a failure. *)
Theorem kill_exact_pid_exact (h : ProcHost) :
  kill_errno (ph_kill h) → Forall (λ p, kill_errno p.2) (ph_polls h) →
  kill_exact_pid h = Ok () ↔
  ph_kill h = None ∧ Exists poll_shows_zombie (take 64 (ph_polls h)).
Proof.
  intros Hk Hp. unfold kill_exact_pid. destruct (ph_kill h) as [errno|] eqn:E.
  - rewrite bool_decide_false by by eapply kill_errno_not_found.
    split; [done|by intros [? _]].
  - rewrite poll_gone_Ok by done. naive_solver.
Qed.
