(* ===== verification/SameBoot.v ===== *)
(** * Same-boot recovery capabilities

    [recovery_capabilities.rs], [recovery_transitions.rs],
    [recovery_proofs.rs], [recovery_finalization*.rs],
    [recovery_startup_finalization.rs] and the runtime release of
    [startup_same_boot_support.rs].  A recovery step goes through a snapshot
    of the record and an authority over it; each destructive operation is
    announced in the ledger before a permit for it exists, and a seat is
    handed back through a chain of values bound to one record. *)

From stdpp Require Import base gmap sets list strings.
From Stdlib Require Import ZArith Lia.
From S2P Require Import Prelude DirFs RecoveryTypes LedgerTaxonomy Ledger.
From S2P Require Import PreviousBoot.
#[local] Open Scope niralis_scope.

Definition u64_saturating_add (a b : Z) : Z := Z.min u64_max (a + b).

(** ** Snapshots and operation permits *)

Record RecoveryStateSnapshot := mkSnapshot {
  ss_record : PersistentRecoveryRecord;
  ss_authority : SameBootRecoveryAuthority;
}.

Definition snapshot_from_record (current_boot : BootIdentity)
    (record : PersistentRecoveryRecord)
    : result RecoveryStateSnapshot PreviousBootInspectionError :=
  match SameBootRecoveryAuthority_from_record current_boot record with
  | Ok authority => Ok (mkSnapshot record authority)
  | Err e => Err e
  end.
Definition snapshot_validates (s : RecoveryStateSnapshot) : bool :=
  same_boot_validates (ss_authority s) (ss_record s).
Definition snapshot_current_boot (s : RecoveryStateSnapshot) : BootIdentity :=
  sa_current_boot (ss_authority s).

Record RecoveryOperationPermit := mkPermit {
  op_record_id : string;
  op_lifecycle_id : string;
  op_boot_id : BootIdentity;
  op_sequence : Z;
  op_attempt_id : Z;
}.

Definition permit_matches (p : RecoveryOperationPermit)
    (record : PersistentRecoveryRecord) (boot : BootIdentity) (attempt_id : Z)
    : bool :=
  str_eqb (op_record_id p) (pr_lifecycle_id record)
  && str_eqb (op_lifecycle_id p) (pr_lifecycle_id record)
  && str_eqb (boot_str (op_boot_id p)) (boot_str boot)
  && (op_sequence p =? pr_sequence record)
  && (op_attempt_id p =? attempt_id).

Definition permit_matches_binding (p : RecoveryOperationPermit)
    (authority : SameBootRecoveryAuthority) (record_id lifecycle_id : string)
    (sequence : Z) (boot_id : BootIdentity) : bool :=
  str_eqb (op_record_id p) record_id
  && str_eqb (op_lifecycle_id p) lifecycle_id
  && bool_decide (op_boot_id p = boot_id)
  && bool_decide (op_boot_id p = sa_current_boot authority)
  && (sa_record_sequence authority =? sequence)
  && (op_sequence p =? sequence).

Definition make_recovery_permit (record : PersistentRecoveryRecord)
    (attempt_id : Z)
    : result RecoveryOperationPermit PreviousBootInspectionError :=
  match BootIdentity_parse (pr_created_boot_id record) with
  | Err e => Err e
  | Ok boot => Ok (mkPermit (pr_lifecycle_id record) (pr_lifecycle_id record)
                     boot (pr_sequence record) attempt_id)
  end.

(** ** Proofs that the payload boundary is empty *)

(** What the pinned unit reports of itself. *)
Record PinnedUnit := mkPin {
  pin_invocation_id : string; pin_control_group : string;
  pin_owner_generation : Z }.

Record RecoveryBoundaryEmptyProof := mkBoundaryProof {
  bp_boot_id : BootIdentity;
  bp_record_id : string;
  bp_lifecycle_id : string;
  bp_record_sequence : Z;
  bp_invocation_id : string;
  bp_control_group : string;
  bp_owner_generation : Z;
}.
Record AuthorizedRecoveryBoundaryProof := mkAuthorizedProof {
  ap_proof : RecoveryBoundaryEmptyProof;
  ap_authorized_sequence : Z;
}.

Definition from_absent_boundary (s : RecoveryStateSnapshot)
    : RecoveryBoundaryEmptyProof :=
  let r := ss_record s in
  mkBoundaryProof (snapshot_current_boot s) (pr_lifecycle_id r)
    (pr_lifecycle_id r) (pr_sequence r)
    (default EmptyString (pr_invocation_id r))
    (default EmptyString (pr_control_group r)) 0.
Definition from_verified_boundary (s : RecoveryStateSnapshot) (pin : PinnedUnit)
    : RecoveryBoundaryEmptyProof :=
  let r := ss_record s in
  mkBoundaryProof (snapshot_current_boot s) (pr_lifecycle_id r)
    (pr_lifecycle_id r) (pr_sequence r)
    (default EmptyString (pr_invocation_id r))
    (pin_control_group pin) (pin_owner_generation pin).
Definition boundary_matches_snapshot (p : RecoveryBoundaryEmptyProof)
    (s : RecoveryStateSnapshot) : bool :=
  let r := ss_record s in
  bool_decide (bp_boot_id p = snapshot_current_boot s)
  && str_eqb (bp_record_id p) (pr_lifecycle_id r)
  && str_eqb (bp_lifecycle_id p) (pr_lifecycle_id r)
  && (bp_record_sequence p =? pr_sequence r)
  && str_eqb (bp_invocation_id p) (default EmptyString (pr_invocation_id r))
  && str_eqb (bp_control_group p) (default EmptyString (pr_control_group r)).
Definition boundary_at (sequence : Z) (p : RecoveryBoundaryEmptyProof)
    : RecoveryBoundaryEmptyProof :=
  mkBoundaryProof (bp_boot_id p) (bp_record_id p) (bp_lifecycle_id p) sequence
    (bp_invocation_id p) (bp_control_group p) (bp_owner_generation p).
Definition boundary_authorize (sequence : Z) (p : RecoveryBoundaryEmptyProof)
    : AuthorizedRecoveryBoundaryProof :=
  mkAuthorizedProof (boundary_at sequence p) sequence.
Definition authorize_next_sequence (sequence : Z)
    (p : AuthorizedRecoveryBoundaryProof) : AuthorizedRecoveryBoundaryProof :=
  mkAuthorizedProof (boundary_at sequence (ap_proof p)) sequence.
Definition authorized_matches_binding (p : AuthorizedRecoveryBoundaryProof)
    (boot : BootIdentity) (record_id lifecycle_id : string) (sequence : Z)
    : bool :=
  (ap_authorized_sequence p =? sequence)
  && bool_decide (bp_boot_id (ap_proof p) = boot)
  && str_eqb (bp_record_id (ap_proof p)) record_id
  && str_eqb (bp_lifecycle_id (ap_proof p)) lifecycle_id
  && (bp_record_sequence (ap_proof p) =? sequence).
Definition authorized_matches_snapshot (p : AuthorizedRecoveryBoundaryProof)
    (s : RecoveryStateSnapshot) : bool :=
  let r := ss_record s in
  (ap_authorized_sequence p =? pr_sequence r)
  && bool_decide (bp_boot_id (ap_proof p) = snapshot_current_boot s)
  && str_eqb (bp_record_id (ap_proof p)) (pr_lifecycle_id r)
  && str_eqb (bp_lifecycle_id (ap_proof p)) (pr_lifecycle_id r)
  && str_eqb (bp_invocation_id (ap_proof p))
       (default EmptyString (pr_invocation_id r))
  && str_eqb (bp_control_group (ap_proof p))
       (default EmptyString (pr_control_group r)).
Definition authorized_matches_pin (p : AuthorizedRecoveryBoundaryProof)
    (record : PersistentRecoveryRecord) (pin : PinnedUnit) : bool :=
  (ap_authorized_sequence p =? pr_sequence record)
  && (bp_record_sequence (ap_proof p) =? pr_sequence record)
  && str_eqb (bp_invocation_id (ap_proof p)) (pin_invocation_id pin)
  && str_eqb (bp_control_group (ap_proof p)) (pin_control_group pin)
  && (bp_owner_generation (ap_proof p) =? pin_owner_generation pin).

(** ** The finalization chain

    [FinalizationCompletionProof], [PersistedRecordResolved],
    [RuntimeReleasePermit], [RuntimeReleaseConfirmed], [RecordRemovedReceipt]
    and [SeatFreePermit] all carry the same five fields. *)
Record Binding := mkBinding {
  bd_boot_id : BootIdentity;
  bd_record_id : string;
  bd_lifecycle_id : string;
  bd_sequence : Z;
  bd_seat : string;
}.
Record RecordRemovalPermit := mkRemovalPermit {
  rp_binding : Binding;
  rp_file_identity : RecordFileIdentity;
}.

Definition binding (boot_id : BootIdentity) (record : PersistentRecoveryRecord)
    : Binding :=
  mkBinding boot_id (pr_lifecycle_id record) (pr_lifecycle_id record)
    (pr_sequence record) (pr_seat record).

Definition matches_binding (s : RecoveryStateSnapshot) (b : Binding) : bool :=
  bool_decide (bd_boot_id b = snapshot_current_boot s)
  && str_eqb (bd_record_id b) (pr_lifecycle_id (ss_record s))
  && str_eqb (bd_lifecycle_id b) (pr_lifecycle_id (ss_record s))
  && (bd_sequence b =? pr_sequence (ss_record s))
  && str_eqb (bd_seat b) (pr_seat (ss_record s)).

Definition completion_from_snapshot (s : RecoveryStateSnapshot)
    : result Binding SupervisorRecoveryError :=
  if negb (snapshot_validates s) then Err BoundaryIdentityChanged
  else Ok (binding (snapshot_current_boot s) (ss_record s)).

Section Chain.
Context `{SerdeJson PersistentRecoveryRecord}.
Context (boot : result string IoError).

Definition snapshot_or {A} (e : IoError) (r : result A PreviousBootInspectionError)
    : LG A := sr_lift (map_err (λ _, e) r).

Definition persist_recovery_intent_from_snapshot (s : RecoveryStateSnapshot)
    (operation : string) (attempt_id : Z)
    : LG (RecoveryStateSnapshot * RecoveryOperationPermit) :=
  ensure snapshot_validates s
    else IoErr InvalidInput "stale recovery snapshot" ;;;
  let id := pr_lifecycle_id (ss_record s) in
  operation_intent boot id operation attempt_id ;;;
  let* record := record_for_operation id in
  let e := IoErr InvalidData "invalid recovery boot identity" in
  let* next := snapshot_or e
                 (snapshot_from_record (snapshot_current_boot s) record) in
  let* permit := snapshot_or e (make_recovery_permit record attempt_id) in
  sr_ret (next, permit).

Definition persist_recovery_unref_intent (s : RecoveryStateSnapshot)
    (proof : RecoveryBoundaryEmptyProof) (attempt_id : Z)
    : LG (RecoveryStateSnapshot * RecoveryOperationPermit
          * AuthorizedRecoveryBoundaryProof) :=
  ensure snapshot_validates s && boundary_matches_snapshot proof s
    else IoErr InvalidInput "foreign recovery boundary proof" ;;;
  let* res := persist_recovery_intent_from_snapshot s "supervisor_unref"
                attempt_id in
  let '(next, permit) := res in
  sr_ret (next, permit,
          boundary_authorize (pr_sequence (ss_record next)) proof).

Definition refresh_recovery_snapshot (s : RecoveryStateSnapshot)
    : LG RecoveryStateSnapshot :=
  ensure snapshot_validates s
    else IoErr InvalidInput "stale recovery snapshot" ;;;
  let* record := record_for_operation (pr_lifecycle_id (ss_record s)) in
  snapshot_or (IoErr InvalidData "invalid recovery boot identity")
    (snapshot_from_record (snapshot_current_boot s) record).

Definition mark_record_resolved_typed (s : RecoveryStateSnapshot)
    (completion : Binding) : LG (RecoveryStateSnapshot * Binding * Binding) :=
  ensure snapshot_validates s && matches_binding s completion
    else IoErr InvalidInput "stale finalization proof" ;;;
  let id := pr_lifecycle_id (ss_record s) in
  let* current := record_for_operation id in
  ensure (pr_sequence current =? pr_sequence (ss_record s))
         && str_eqb (pr_lifecycle_id current) id
         && str_eqb (pr_created_boot_id current)
              (pr_created_boot_id (ss_record s))
         && str_eqb (pr_seat current) (pr_seat (ss_record s))
    else IoErr InvalidInput "stale recovery snapshot" ;;;
  match ol_record_resolution (pr_operation_ledger current) with
  | NotStarted =>
      let attempt := u64_saturating_add (pr_sequence (ss_record s)) 1 in
      operation_intent boot id "record_resolution" attempt ;;;
      operation_confirmed boot id "record_resolution" attempt
  | Confirmed _ => sr_ret ()
  | IntentPersisted _ | Indeterminate _ _ | OpFailed _ _ =>
      sr_fail (IoErr InvalidInput "record resolution is not replayable")
  end ;;;
  mark_record_resolved boot id ;;;
  let* record := record_for_operation id in
  let* next := snapshot_or (IoErr InvalidData "invalid boot identity")
                 (snapshot_from_record (snapshot_current_boot s) record) in
  let b := binding (snapshot_current_boot next) record in
  sr_ret (next, b, b).

Definition confirm_runtime_release_typed (s : RecoveryStateSnapshot)
    (resolved permit : Binding)
    : LG (RecoveryStateSnapshot * Binding * Binding * RecordRemovalPermit) :=
  let* record := record_for_operation (pr_lifecycle_id (ss_record s)) in
  ensure snapshot_validates s
         && str_eqb (pr_state record) "record_resolved"
         && matches_binding s resolved && matches_binding s permit
    else IoErr InvalidInput "runtime release capability mismatch" ;;;
  operation_confirmed boot (pr_lifecycle_id record) "runtime_release"
    (pr_sequence record) ;;;
  let* next := refresh_recovery_snapshot s in
  let b := binding (snapshot_current_boot next) (ss_record next) in
  let* file := record_file_identity (pr_lifecycle_id record) in
  sr_ret (next, b, b, mkRemovalPermit b file).

Definition remove_record_typed (s : RecoveryStateSnapshot)
    (resolved confirmed : Binding) (permit : RecordRemovalPermit)
    : LG Binding :=
  let* record := record_for_operation (pr_lifecycle_id (ss_record s)) in
  let mismatch :=
    IoErr InvalidInput "record removal capability mismatch" in
  ensure snapshot_validates s
         && matches_binding s resolved && matches_binding s confirmed
         && matches_binding s (rp_binding permit)
         && str_eqb (pr_state record) "record_resolved"
         && is_confirmed (ol_runtime_release (pr_operation_ledger record))
    else mismatch ;;;
  let* file := record_file_identity (pr_lifecycle_id record) in
  ensure bool_decide (file = rp_file_identity permit) else mismatch ;;;
  remove_resolved (pr_lifecycle_id record) ;;;
  let b := rp_binding permit in
  sr_ret (mkBinding (bd_boot_id b) (bd_record_id b) (bd_lifecycle_id b)
            (pr_sequence record) (bd_seat b)).

Definition seat_free_now (seat : string) (l : PersistentRecoveryLedger) : bool :=
  negb (existsb (λ r, str_eqb (pr_seat r) seat) (records_list l)
        || seat_startup_quarantined seat l || startup_quarantined l).
Definition issue_seat_free_permit (receipt : Binding) : LG Binding := λ l,
  if seat_free_now (bd_seat receipt) l then (l, Ok receipt)
  else (l, Err (IoErr InvalidInput "competing record or active quarantine")).
Definition consume_seat_free_permit (permit : Binding) : LG () := λ l,
  if seat_free_now (bd_seat permit) l then (l, Ok ())
  else (l, Err (IoErr InvalidInput "seat free precondition changed")).

Definition finalization_capabilities (s : RecoveryStateSnapshot)
    : LG (Binding * Binding * RecordRemovalPermit) :=
  let b := binding (snapshot_current_boot s) (ss_record s) in
  let* file := record_file_identity (pr_lifecycle_id (ss_record s)) in
  sr_ret (b, b, mkRemovalPermit b file).

Definition finalize_startup_record (record_id : string) : LG Binding :=
  let* record := record_for_operation record_id in
  ensure negb (match ol_runtime_release (pr_operation_ledger record) with
               | IntentPersisted _ | Indeterminate _ _ | OpFailed _ _ => true
               | _ => false end)
    else IoErr InvalidInput "runtime release is not replayable" ;;;
  let* b := snapshot_or (IoErr InvalidData "invalid boot identity")
              (BootIdentity_parse (pr_created_boot_id record)) in
  let* s := snapshot_or (IoErr InvalidInput "stale recovery record")
              (snapshot_from_record b record) in
  let* start :=
    (if str_eqb (pr_state (ss_record s)) "record_resolved" then
       let* caps := finalization_capabilities s in
       sr_ret (s, caps.1.1)
     else
       let* completion := sr_lift (map_err
         (λ _, IoErr InvalidInput "invalid completion")
         (completion_from_snapshot s)) in
       let* res := mark_record_resolved_typed s completion in
       sr_ret (res.1.1, res.1.2)) in
  let '(s, resolved) := start in
  let* s :=
    (if is_confirmed (ol_runtime_release (pr_operation_ledger (ss_record s)))
     then sr_ret s
     else
       let* res := persist_recovery_intent_from_snapshot s "runtime_release"
                     (u64_saturating_add (bd_sequence resolved) 1) in
       let '(next, permit) := res in
       operation_confirmed boot record_id "runtime_release"
         (op_attempt_id permit) ;;;
       refresh_recovery_snapshot next) in
  let* caps := finalization_capabilities s in
  let '(resolved, confirmed, removal) := caps in
  let* receipt := remove_record_typed s resolved confirmed removal in
  issue_seat_free_permit receipt.
End Chain.

(** ** Releasing a worker that survived the supervisor *)

Inductive Signal := SIGTERM | SIGKILL.
#[export] Instance Signal_eq_dec : EqDecision Signal.
Proof. solve_decision. Defined.

Inductive PersistedProcessIdentity :=
| OriginalStillAlive | OriginalGone | PidReused | ProcessIndeterminate.

(** What the process table answers while the release runs. *)
Record ReleaseHost := mkReleaseHost {
  rh_exits_on_term : bool;
  rh_after_term : PersistedProcessIdentity;
  rh_exits_on_kill : bool;
}.

Definition RUNTIME_RELEASE_STAGE_SIGTERM_INSUFFICIENT : Z := 1.

(** The signals that were sent, each with the ledger it was sent under. *)
Abbreviation SentSignals := (list (Signal * PersistentRecoveryLedger)).
Abbreviation RG := (SR (PersistentRecoveryLedger * SentSignals)
                      StartupRecoveryFailure).

Section Release.
Context `{SerdeJson PersistentRecoveryRecord}.
Context (boot : result string IoError).

Definition on_ledger {A} (f : StartupRecoveryFailure) (m : LG A) : RG A :=
  sr_map_err (λ _, f) (sr_zoom fst (λ l s, (l, s.2)) m).

(** [signal_validated_worker], [force_validated_worker_exit]. *)
Definition signal_worker (sig : Signal) (authority : SameBootRecoveryAuthority)
    (record : PersistentRecoveryRecord) : RG () :=
  if same_boot_validates authority record
     && bool_decide (is_Some (pr_worker_starttime record))
     && bool_decide (is_Some (pr_worker_executable record))
  then sr_modify (λ s, (s.1, s.2 ++ [(sig, s.1)])) else sr_ret ().

Definition confirm_release (record : PersistentRecoveryRecord) (attempt : Z)
    : RG () :=
  on_ledger UnsupportedRehydration
    (operation_confirmed boot (pr_lifecycle_id record) "runtime_release"
       attempt).

(** The second half: identify the process again, then SIGKILL. *)
Definition escalate_release (host : ReleaseHost)
    (authority : SameBootRecoveryAuthority)
    (record : PersistentRecoveryRecord) (attempt : Z) : RG () :=
  match rh_after_term host with
  | OriginalGone => confirm_release record attempt
  | PidReused | ProcessIndeterminate => sr_fail WorkerIdentityIndeterminate
  | OriginalStillAlive =>
      signal_worker SIGKILL authority record ;;;
      if rh_exits_on_kill host then confirm_release record attempt
      else sr_fail WorkerIdentityIndeterminate
  end.

Definition recover_validated_runtime_release (host : ReleaseHost)
    (authority : SameBootRecoveryAuthority)
    (record : PersistentRecoveryRecord) : RG () :=
  let id := pr_lifecycle_id record in
  let* start :=
    match ol_runtime_release (pr_operation_ledger record) with
    | NotStarted =>
        let attempt := u64_saturating_add (pr_sequence record) 1 in
        on_ledger UnsupportedRehydration
          (operation_intent boot id "runtime_release" attempt) ;;;
        sr_ret (attempt, false)
    | IntentPersisted a => sr_ret (a, false)
    | Indeterminate a _ => sr_ret (a, true)
    | Confirmed _ | OpFailed _ _ => sr_fail WorkerIdentityIndeterminate
    end in
  let '(attempt, skip_sigterm) := start in
  if (skip_sigterm : bool)
  then escalate_release host authority record attempt
  else
    signal_worker SIGTERM authority record ;;;
    if rh_exits_on_term host then confirm_release record attempt
    else
      on_ledger UnsupportedRehydration
        (transition_with_operation boot id "started" "runtime_release"
           (Indeterminate attempt
              RUNTIME_RELEASE_STAGE_SIGTERM_INSUFFICIENT)) ;;;
      escalate_release host authority record attempt.
End Release.

(** ** What a recovery step may touch *)

(** Steps on one record: everything else stays, and the record keeps its
    identity for as long as it exists. *)
Record touch_step (id : string) (l l' : PersistentRecoveryLedger) : Prop := {
  ts_keyed : keyed l';
  ts_frame : ledger_frame l l';
  ts_records : ∀ i, i ≠ id → lg_records l' !! i = lg_records l !! i;
  ts_files : ∀ n, n ≠ json_name id → n ≠ tmp_name id →
    ledger_files l' !! n = ledger_files l !! n;
  ts_identity : ∀ r', lg_records l' !! id = Some r' →
    ∃ r, lg_records l !! id = Some r ∧ same_identity r r';
}.
Definition touches (id : string) (l l' : PersistentRecoveryLedger) : Prop :=
  keyed l → touch_step id l l'.

#[export] Instance touches_preorder id : PreOrder (touches id).
Proof.
  split.
  - intros l K. split; [done|reflexivity|done|done|]. intros r' Hr'.
    exists r'. by split; [|reflexivity].
  - intros x y z Hxy Hyz K. destruct (Hxy K) as [K1 F1 R1 D1 I1].
    destruct (Hyz K1) as [K2 F2 R2 D2 I2]. split; [done|by etrans|..].
    + intros i Hi. by rewrite R2, R1.
    + intros n Hn Hn'. by rewrite D2, D1.
    + intros r2 Hr2. destruct (I2 _ Hr2) as (r1 & Hr1 & E2).
      destruct (I1 _ Hr1) as (r0 & Hr0 & E1). exists r0. split; [done|by etrans].
Qed.

Lemma readonly_touches id l l' :
  ledger_frame l l' → lg_records l' = lg_records l →
  ledger_files l' = ledger_files l → touches id l l'.
Proof.
  intros HF HR HD K. split; [|done|..]; rewrite ?HR, ?HD; try done.
  - intros i r. rewrite HR. apply K.
  - intros r' Hr'. exists r'. by split; [|reflexivity].
Qed.

Section TouchOps.
Context `{SerdeJson PersistentRecoveryRecord}.

Lemma steps_touches id m : steps_record id m → sr_keeps (touches id) m.
Proof.
  intros Hm l K. destruct (m l) as [l' r] eqn:E.
  apply Hm in E as [[-> _]|(next & rec & Hn & (HI & _) & HC)];
    [by apply readonly_touches|]. cbn.
  pose proof (K _ _ Hn) as Hid.
  rewrite <-(same_identity_lifecycle _ _ HI) in Hid.
  pose proof (λ n, commit_other_files _ _ _ _ n HC) as Hother.
  apply commit_spec in HC as [HF HC]. rewrite Hid in *.
  assert (lg_records l' = lg_records l
          ∨ lg_records l' = <[id := rec]> (lg_records l)) as HR.
  { destruct r as [[]|e]; destruct HC; auto. }
  split; [|done|..|done|].
  - intros i r1. destruct HR as [->| ->]; [apply K|].
    intros [[<- <-]|[_ ?]]%lookup_insert_Some; [done|by apply K].
  - intros i Hi. destruct HR as [->| ->]; [done|]. by rewrite lookup_insert_ne.
  - intros r1. destruct HR as [->| ->].
    + intros Hr1. exists r1. by split; [|reflexivity].
    + rewrite lookup_insert_eq. intros [= <-]. eauto.
Qed.

Lemma removes_touches id m : removes_record id m → sr_keeps (touches id) m.
Proof.
  intros Hm l K. destruct (m l) as [l' r] eqn:E. cbn.
  apply Hm in E as [HF [(HR & HD & _)|(rec & _ & _ & HD & HR)]];
    [by apply readonly_touches|].
  assert (lg_records l' = lg_records l
          ∨ lg_records l' = delete id (lg_records l)) as HR' by naive_solver.
  split; [|done|..].
  - intros i r1. destruct HR' as [->| ->]; [apply K|].
    intros [_ ?]%lookup_delete_Some. by apply K.
  - intros i Hi. destruct HR' as [->| ->]; [done|]. by rewrite lookup_delete_ne.
  - intros n Hn _. rewrite HD. by rewrite lookup_delete_ne.
  - intros r1. destruct HR' as [->| ->]; [|by intros [? _]%lookup_delete_Some].
    intros Hr1. exists r1. by split; [|reflexivity].
Qed.

Lemma identity_touches id i : sr_keeps (touches id) (record_file_identity i).
Proof.
  intros l. destruct (record_file_identity i l) as [l' r] eqn:E.
  apply record_file_identity_frame in E as (? & ? & ?).
  by apply readonly_touches.
Qed.
End TouchOps.

(** ** The chain hands back exactly one record's seat *)

Lemma snapshot_from_record_record b r s :
  snapshot_from_record b r = Ok s → ss_record s = r.
Proof. unfold snapshot_from_record. case_match; naive_solver. Qed.

Section ChainFacts.
Context `{SerdeJson PersistentRecoveryRecord}.
Context (boot : result string IoError).
Context (id : string) (l0 : PersistentRecoveryLedger)
  (r0 : PersistentRecoveryRecord).
Context (Hkeyed : keyed l0) (Hr0 : lg_records l0 !! id = Some r0).

Let I : PersistentRecoveryLedger → Prop := touches id l0.
Let mine (r : PersistentRecoveryRecord) : Prop := same_identity r0 r.

Lemma mine_id r : mine r → pr_lifecycle_id r = id.
Proof.
  intros Hr. rewrite (same_identity_lifecycle _ _ Hr). by apply (Hkeyed id).
Qed.

Lemma I_keeps {A} (m : LG A) :
  sr_keeps (touches id) m → sr_triple I m (λ _, I) I.
Proof. apply keeps_triple. apply _. Qed.

Lemma record_for_operation_mine :
  sr_triple I (record_for_operation id) (λ r l, I l ∧ mine r) I.
Proof.
  intros l Hl. unfold record_for_operation.
  destruct (lg_records l !! id) as [r|] eqn:E; [|done]. cbn. split; [done|].
  destruct (ts_identity _ _ _ (Hl Hkeyed) _ E) as (r1 & Hr1 & ?).
  unfold mine. congruence.
Qed.

Lemma snapshot_or_mine {A} e (r : result A PreviousBootInspectionError)
    (Q : A → Prop) :
  (∀ a, r = Ok a → Q a) → sr_triple I (snapshot_or e r) (λ a l, I l ∧ Q a) I.
Proof.
  intros HQ. apply triple_lift; [|done]. intros l a Hl Ha. split; [done|].
  apply HQ. destruct r; naive_solver.
Qed.

Lemma pure_pre {E A} (P : Prop) (J : PersistentRecoveryLedger → Prop)
    (m : SR PersistentRecoveryLedger E A) Q X :
  (P → sr_triple J m Q X) → sr_triple (λ l, J l ∧ P) m Q X.
Proof. intros Hm l [HJ HP]. by apply Hm. Qed.

Lemma operation_mine op s :
  sr_triple I (update_operation boot id op s) (λ _, I) I.
Proof. apply I_keeps, steps_touches, update_operation_steps. Qed.

Lemma persist_intent_mine s op attempt :
  mine (ss_record s) →
  sr_triple I (persist_recovery_intent_from_snapshot boot s op attempt)
    (λ p l, I l ∧ mine (ss_record p.1)) I.
Proof.
  intros Hs. unfold persist_recovery_intent_from_snapshot.
  rewrite (mine_id _ Hs).
  eapply triple_bind; [by apply (triple_ensure _ _ I (λ _, I) I)|intros ?].
  eapply triple_bind; [apply operation_mine|intros ?].
  eapply triple_bind; [apply record_for_operation_mine|intros r].
  apply pure_pre. intros Hr.
  eapply triple_bind; [apply (snapshot_or_mine _ _ (λ s', mine (ss_record s')))|].
  { intros s' ->%snapshot_from_record_record. done. }
  intros s'. apply pure_pre. intros Hs'.
  eapply triple_bind; [apply (snapshot_or_mine _ _ (λ _, True)); done|].
  intros p. apply pure_pre. intros _. by apply triple_ret.
Qed.

Lemma refresh_mine s :
  mine (ss_record s) →
  sr_triple I (refresh_recovery_snapshot s)
    (λ s' l, I l ∧ mine (ss_record s')) I.
Proof.
  intros Hs. unfold refresh_recovery_snapshot. rewrite (mine_id _ Hs).
  eapply triple_bind; [by apply (triple_ensure _ _ I (λ _, I) I)|intros ?].
  eapply triple_bind; [apply record_for_operation_mine|intros r].
  apply pure_pre. intros Hr.
  apply (snapshot_or_mine _ _ (λ s', mine (ss_record s'))).
  by intros s' ->%snapshot_from_record_record.
Qed.

Lemma mark_resolved_mine s c :
  mine (ss_record s) →
  sr_triple I (mark_record_resolved_typed boot s c)
    (λ p l, I l ∧ mine (ss_record p.1.1)) I.
Proof.
  intros Hs. unfold mark_record_resolved_typed. rewrite (mine_id _ Hs).
  eapply triple_bind; [by apply (triple_ensure _ _ I (λ _, I) I)|intros ?].
  eapply triple_bind; [apply record_for_operation_mine|intros cur].
  apply pure_pre. intros _.
  eapply triple_bind; [by apply (triple_ensure _ _ I (λ _, I) I)|intros ?].
  apply (triple_bind _ _ I (λ _, I)).
  { destruct (ol_record_resolution _); try (by apply triple_fail);
      [|by apply triple_ret].
    eapply triple_bind; [apply operation_mine|intros ?]. apply operation_mine. }
  intros ?. eapply triple_bind.
  { apply I_keeps, steps_touches, transition_steps. }
  intros ?. eapply triple_bind; [apply record_for_operation_mine|intros r].
  apply pure_pre. intros Hr.
  eapply triple_bind; [apply (snapshot_or_mine _ _ (λ s', mine (ss_record s')))|].
  { by intros s' ->%snapshot_from_record_record. }
  intros s'. apply pure_pre. intros Hs'. by apply triple_ret.
Qed.

Lemma remove_record_typed_mine s a b p :
  mine (ss_record s) →
  sr_triple I (remove_record_typed s a b p)
    (λ c l, I l ∧ (gone id l ∧ bd_seat c = bd_seat (rp_binding p)
                   ∧ bd_record_id c = bd_record_id (rp_binding p))) I.
Proof.
  intros Hs. unfold remove_record_typed. rewrite (mine_id _ Hs).
  eapply triple_bind; [apply record_for_operation_mine|intros r].
  apply pure_pre. intros Hr. rewrite (mine_id _ Hr).
  eapply triple_bind; [by apply (triple_ensure _ _ I (λ _, I) I)|intros ?].
  eapply triple_bind; [apply I_keeps, identity_touches|intros fi].
  eapply triple_bind; [by apply (triple_ensure _ _ I (λ _, I) I)|intros ?].
  apply (triple_bind _ _ I (λ _ l, I l ∧ gone id l)).
  { unfold I. intros l Hl. pose proof (removes_touches id _ (remove_resolved_removes id) l)
      as HT. destruct (remove_resolved id l) as [l' [[]|e]] eqn:E; cbn in HT;
      [|by etrans].
    split; [by etrans|]. apply remove_resolved_removes in E as [_ HR].
    destruct HR as [(_ & _ & ?)|(rec & _ & _ & HD & [[? _]|[_ HR]])];
      [done|done|]. unfold gone, ledger_files in *. by rewrite HD, HR, !lookup_delete_eq. }
  intros ?. apply triple_ret. by intros l [? ?].
Qed.

Lemma capabilities_mine s :
  sr_triple I (finalization_capabilities s)
    (λ c l, I l ∧ bd_seat (rp_binding c.2) = pr_seat (ss_record s)
            ∧ bd_record_id (rp_binding c.2) = pr_lifecycle_id (ss_record s)) I.
Proof.
  unfold finalization_capabilities.
  eapply triple_bind; [apply I_keeps, identity_touches|intros fi].
  by apply triple_ret.
Qed.

Lemma confirm_release_mine s a b :
  mine (ss_record s) →
  sr_triple I (confirm_runtime_release_typed boot s a b)
    (λ p l, I l ∧ (mine (ss_record p.1.1.1) ∧
       bd_seat (rp_binding p.2) = pr_seat r0 ∧
       bd_record_id (rp_binding p.2) = id)) I.
Proof.
  intros Hs. unfold confirm_runtime_release_typed. rewrite (mine_id _ Hs).
  eapply triple_bind; [apply record_for_operation_mine|intros r].
  apply pure_pre. intros Hr. rewrite (mine_id _ Hr).
  eapply triple_bind; [by apply (triple_ensure _ _ I (λ _, I) I)|intros ?].
  eapply triple_bind; [apply operation_mine|intros ?].
  eapply triple_bind; [by apply refresh_mine|intros next].
  apply pure_pre. intros Hn.
  eapply triple_bind; [apply I_keeps, identity_touches|intros fi].
  apply triple_ret. intros l Hl. cbn. split; [done|]. split; [done|].
  by rewrite (same_identity_seat _ _ Hn), (mine_id _ Hn).
Qed.

Lemma issue_mine receipt :
  sr_triple (λ l, I l ∧ gone id l) (issue_seat_free_permit receipt)
    (λ p l, I l ∧ gone id l ∧ p = receipt
            ∧ seat_free_now (bd_seat receipt) l = true) I.
Proof.
  intros l [Hl HG]. unfold issue_seat_free_permit.
  by destruct (seat_free_now _ l) eqn:E.
Qed.

Lemma finalize_start_mine s0 (Hs0 : ss_record s0 = r0) :
  sr_triple I
    (if str_eqb (pr_state (ss_record s0)) "record_resolved" then
       let* caps := finalization_capabilities s0 in sr_ret (s0, caps.1.1)
     else
       let* completion := sr_lift (map_err
         (λ _, IoErr InvalidInput "invalid completion")
         (completion_from_snapshot s0)) in
       let* res := mark_record_resolved_typed boot s0 completion in
       sr_ret (res.1.1, res.1.2))
    (λ p l, I l ∧ mine (ss_record p.1)) I.
Proof.
  assert (mine (ss_record s0)) as Hmine by (rewrite Hs0; unfold mine; reflexivity).
  destruct (str_eqb _ _).
  - eapply triple_bind; [apply capabilities_mine|intros caps].
    apply triple_ret. by intros l [? _].
  - eapply triple_bind; [by apply (triple_lift _ I (λ _, I) I)|intros c].
    eapply triple_bind; [by apply mark_resolved_mine|intros res].
    by apply triple_ret.
Qed.

Lemma finalize_startup_record_mine :
  sr_triple (λ l, l = l0) (finalize_startup_record boot id)
    (λ p l, touches id l0 l ∧ gone id l ∧ bd_seat p = pr_seat r0
            ∧ bd_record_id p = id ∧ seat_free_now (bd_seat p) l = true)
    (touches id l0).
Proof.
  assert (I l0) as HI0 by (unfold I; reflexivity).
  unfold finalize_startup_record.
  apply (triple_bind _ _ _ (λ r l, I l ∧ r = r0)).
  { intros l ->. unfold record_for_operation. by rewrite Hr0. }
  intros r. apply pure_pre. intros ->.
  eapply triple_bind; [by apply (triple_ensure _ _ I (λ _, I) I)|intros ?].
  eapply triple_bind; [apply (snapshot_or_mine _ _ (λ _, True)); done|intros b].
  apply pure_pre. intros _.
  eapply triple_bind; [apply (snapshot_or_mine _ _ (λ s, ss_record s = r0))|].
  { intros s Hs. by apply snapshot_from_record_record in Hs. }
  intros s0. apply pure_pre. intros Hs0.
  eapply triple_bind; [by apply (finalize_start_mine s0 Hs0)|intros [s resolved]].
  apply pure_pre. cbn [fst]. intros Hs.
  apply (triple_bind _ _ I (λ s l, I l ∧ mine (ss_record s))).
  { destruct (is_confirmed _); [by apply triple_ret|].
    eapply triple_bind; [by apply persist_intent_mine|intros [next permit]].
    apply pure_pre. cbn [fst]. intros Hn.
    eapply triple_bind; [apply operation_mine|intros ?]. by apply refresh_mine. }
  clear s Hs. intros s. apply pure_pre. intros Hs.
  eapply triple_bind; [apply capabilities_mine|intros [[ca cc] removal]].
  apply pure_pre. cbn [snd]. intros [Hseat Hid].
  eapply triple_bind; [by apply remove_record_typed_mine|intros receipt].
  intros l (HI & HG & Hs1 & Hs2). pose proof (issue_mine receipt l (conj HI HG)) as HQ.
  destruct (issue_seat_free_permit receipt l) as [l' [p|e]]; [|done].
  destruct HQ as (? & ? & -> & ?).
  rewrite (mine_id _ Hs) in Hid. rewrite (same_identity_seat _ _ Hs) in Hseat.
  split; [done|]. split; [done|]. split; [congruence|].
  split; [congruence|done].
Qed.
End ChainFacts.

(** ** A successful ledger step is on disk *)

Definition operation_of (op : string) (o : DurableOperationLedger)
    : option DurableOperationState :=
  if str_eqb op "payload_kill" then Some (ol_payload_kill o)
  else if str_eqb op "supervisor_unref" then Some (ol_supervisor_unref o)
  else if str_eqb op "logind_termination" then Some (ol_logind_termination o)
  else if str_eqb op "selinux_restore" then Some (ol_selinux_restore o)
  else if str_eqb op "vt_activation" then Some (ol_vt_activation o)
  else if str_eqb op "vt_disallocate" then Some (ol_vt_disallocate o)
  else if str_eqb op "runtime_release" then Some (ol_runtime_release o)
  else if str_eqb op "record_resolution" then Some (ol_record_resolution o)
  else None.

Lemma with_operation_of op s o o' :
  with_operation op s o = Some o' → operation_of op o' = Some s.
Proof.
  destruct o. cbn. unfold operation_of.
  repeat (destruct (str_eqb op _); [by intros [= <-]|]). done.
Qed.

Section OnDisk.
Context `{SerdeJson PersistentRecoveryRecord}.
Context `{!SerdeRoundtrip PersistentRecoveryRecord}.
Context (boot : result string IoError).

(** The file of [id] holds exactly the record in memory. *)
Definition persisted (id : string) (rec : PersistentRecoveryRecord)
    (l : PersistentRecoveryLedger) : Prop :=
  lg_records l !! id = Some rec ∧
  ∃ f, ledger_files l !! json_name id = Some f
    ∧ serde_from_slice (file_data f) = Some rec.

Lemma commit_persisted rec l l' :
  commit rec l = (l', Ok ()) → persisted (pr_lifecycle_id rec) rec l'.
Proof.
  intros [_ [(_ & bytes & ino & Hb & HF) HR]]%commit_spec.
  split; [by rewrite HR, lookup_insert_eq|].
  eexists. rewrite HF, lookup_insert_eq. split; [done|].
  by apply serde_roundtrip.
Qed.

Lemma update_operation_persisted id op st l l' :
  keyed l → update_operation boot id op st l = (l', Ok ()) →
  ∃ r rec, lg_records l !! id = Some r ∧ persisted id rec l'
    ∧ operation_of op (pr_operation_ledger rec) = Some st
    ∧ pr_state rec = pr_state r.
Proof.
  intros K HU. unfold update_operation in HU.
  apply record_for_operation_bind in HU as [(_ & _ & ?)|(r & Hr & HU)]; [done|].
  destruct (with_operation _ _ _) as [o'|] eqn:HW; [|done].
  apply with_operation_of in HW.
  unfold commit_transition, sr_bind, sr_lift in HU.
  destruct (record_transition _ _ _) as [rec|e] eqn:HT; [|done]. cbn in HU.
  unfold record_transition in HT. split_cases HT.
  exists r. eexists. split; [done|].
  rewrite <-(K _ _ Hr) at 1. split; [by apply (commit_persisted _ _ _ HU)|done].
Qed.

Lemma transition_with_operation_persisted id state op st l l' :
  keyed l → transition_with_operation boot id state op st l = (l', Ok ()) →
  ∃ rec, persisted id rec l'
    ∧ operation_of op (pr_operation_ledger rec) = Some st
    ∧ pr_state rec = state.
Proof.
  intros K HU. unfold transition_with_operation in HU.
  apply record_for_operation_bind in HU as [(_ & _ & ?)|(r & Hr & HU)]; [done|].
  destruct (_ || _); [|done].
  destruct (with_operation _ _ _) as [o'|] eqn:HW; [|done].
  apply with_operation_of in HW.
  unfold commit_transition, sr_bind, sr_lift in HU.
  destruct (record_transition _ _ _) as [rec|e] eqn:HT; [|done]. cbn in HU.
  unfold record_transition in HT. split_cases HT.
  eexists. rewrite <-(K _ _ Hr) at 1.
  split; [by apply (commit_persisted _ _ _ HU)|done].
Qed.
End OnDisk.

(** ** The release as a run on ledger and signals *)

(** The signal a step sends, if the identity checks allow it. *)
Definition sends (sig : Signal) (authority : SameBootRecoveryAuthority)
    (record : PersistentRecoveryRecord) : list Signal :=
  if same_boot_validates authority record
     && bool_decide (is_Some (pr_worker_starttime record))
     && bool_decide (is_Some (pr_worker_executable record))
  then [sig] else [].

Section ReleaseFacts.
Context `{SerdeJson PersistentRecoveryRecord}.
Context `{!SerdeRoundtrip PersistentRecoveryRecord}.
Context (boot : result string IoError) (host : ReleaseHost).
Context (authority : SameBootRecoveryAuthority)
  (record : PersistentRecoveryRecord).
Let id := pr_lifecycle_id record.

Lemma sends_spec sig :
  sends sig authority record = []
  ∨ (sends sig authority record = [sig]
     ∧ same_boot_validates authority record = true
     ∧ is_Some (pr_worker_starttime record)
     ∧ is_Some (pr_worker_executable record)).
Proof.
  unfold sends. destruct (_ && _) eqn:E; [right|by left].
  by bool_facts.
Qed.

Lemma on_ledger_signals {A} f (m : LG A) (P : list Signal → Prop) :
  sr_triple (λ s, P s.2.*1) (on_ledger f m) (λ _ s, P s.2.*1) (λ s, P s.2.*1).
Proof.
  intros [l sg] HP. unfold on_ledger, sr_map_err, sr_zoom. cbn.
  by destruct (m l) as [l' [a|e]].
Qed.

Lemma signal_signals sig x X :
  sr_triple (λ s, s.2.*1 = x) (signal_worker sig authority record)
    (λ _ s, s.2.*1 = x ++ sends sig authority record) X.
Proof.
  intros [l sg] Hx. cbn in Hx. subst x. unfold signal_worker, sends.
  destruct (_ && _); cbn; [by rewrite fmap_app|]. by rewrite app_nil_r.
Qed.

(** What the escalation may have sent on top of [x]. *)
Definition after_kill (x y : list Signal) : Prop :=
  y = x ∨ (rh_after_term host = OriginalStillAlive
           ∧ y = x ++ sends SIGKILL authority record).
Definition after_release (x y : list Signal) : Prop :=
  y = x ∨ after_kill (x ++ sends SIGTERM authority record) y.

Lemma escalate_signals attempt x :
  sr_triple (λ s, s.2.*1 = x) (escalate_release boot host authority record attempt)
    (λ _ s, after_kill x s.2.*1) (λ s, after_kill x s.2.*1).
Proof.
  unfold escalate_release, confirm_release, after_kill.
  destruct (rh_after_term host) eqn:Ha; [|..|by apply triple_fail; auto].
  - eapply triple_bind; [apply signal_signals|intros ?].
    destruct (rh_exits_on_kill host); [|apply triple_fail; by auto].
    eapply triple_weaken; [apply (on_ledger_signals _ _ (λ y, y = x ++ sends SIGKILL authority record))|..];
      cbn; eauto.
  - eapply triple_weaken; [apply (on_ledger_signals _ _ (λ y, y = x))|..];
      cbn; eauto.
  - apply triple_fail; auto.
Qed.

Lemma release_signals x :
  let Q (y : list Signal) :=
    match ol_runtime_release (pr_operation_ledger record) with
    | NotStarted | IntentPersisted _ => after_release x y
    | Indeterminate _ _ => after_kill x y
    | Confirmed _ | OpFailed _ _ => y = x end in
  sr_triple (λ s, s.2.*1 = x)
    (recover_validated_runtime_release boot host authority record)
    (λ _ s, Q s.2.*1) (λ s, Q s.2.*1).
Proof.
  intros Q. unfold recover_validated_runtime_release. fold id.
  apply (triple_bind _ _ _ (λ p s, s.2.*1 = x ∧
    match ol_runtime_release (pr_operation_ledger record) with
    | NotStarted | IntentPersisted _ => p.2 = false
    | Indeterminate _ _ => p.2 = true
    | Confirmed _ | OpFailed _ _ => False end)).
  { subst Q. destruct (ol_runtime_release _); try (by apply triple_ret);
      try (by apply triple_fail).
    apply (triple_bind _ _ _ (λ _ s, s.2.*1 = x)); [|intros ?; by apply triple_ret].
    eapply triple_weaken; [apply (on_ledger_signals _ _ (λ y, y = x))|..];
      cbn; unfold after_release; eauto. }
  intros [attempt skip] s [Hs Hskip]. cbn in Hskip.
  assert (sr_triple (λ s, s.2.*1 = x)
    (signal_worker SIGTERM authority record ;;;
     if rh_exits_on_term host then confirm_release boot record attempt
     else
       on_ledger UnsupportedRehydration
         (transition_with_operation boot id "started" "runtime_release"
            (Indeterminate attempt
               RUNTIME_RELEASE_STAGE_SIGTERM_INSUFFICIENT)) ;;;
       escalate_release boot host authority record attempt)
    (λ _ s, after_release x s.2.*1) (λ s, after_release x s.2.*1)) as Hterm.
  { eapply triple_bind; [apply signal_signals|intros ?].
    destruct (rh_exits_on_term host).
    - eapply triple_weaken; [apply (on_ledger_signals _ _ (λ y, y = x ++ sends SIGTERM authority record))|..];
        cbn; unfold after_release, after_kill; eauto.
    - apply (triple_bind _ _ _ (λ _ s, s.2.*1 = x ++ sends SIGTERM authority record));
        [|intros ?; eapply triple_weaken;
        [apply escalate_signals|..]; cbn; unfold after_release; eauto].
      eapply triple_weaken; [apply (on_ledger_signals _ _ (λ y, y = x ++ sends SIGTERM authority record))|..];
        cbn; unfold after_release, after_kill; eauto. }
  subst Q. destruct (ol_runtime_release _); try done; rewrite Hskip.
  - by apply Hterm.
  - by apply Hterm.
  - by apply escalate_signals.
Qed.

Definition unresolved (s : PersistentRecoveryLedger * SentSignals) : Prop :=
  keyed s.1 ∧ ∃ r, lg_records s.1 !! id = Some r
    ∧ pr_state r ≠ "record_resolved"%string.
(** The release is confirmed on disk while the record is unresolved. *)
Definition confirmed_early (s : PersistentRecoveryLedger * SentSignals)
    : Prop :=
  ∃ rec, persisted id rec s.1 ∧ pr_state rec ≠ "record_resolved"%string
    ∧ is_confirmed (ol_runtime_release (pr_operation_ledger rec)) = true.

Lemma confirm_early attempt :
  sr_triple unresolved (confirm_release boot record attempt)
    (λ _, confirmed_early) (λ _, True).
Proof.
  intros [l sg] (K & r & Hr & Hs). cbn in *. unfold confirm_release. fold id.
  unfold on_ledger, sr_map_err, sr_zoom. cbn [fst snd].
  destruct (operation_confirmed _ _ _ _ l) as [l' [[]|e]] eqn:E; [|done].
  apply update_operation_persisted in E as (r' & rec & Hr' & HP & HO & HS);
    [|done]. exists rec. cbn. split; [done|].
  split; [congruence|]. cbn in HO. injection HO as HO. by rewrite HO.
Qed.

Lemma intent_unresolved attempt :
  sr_triple unresolved
    (on_ledger UnsupportedRehydration
       (operation_intent boot id "runtime_release" attempt))
    (λ _, unresolved) (λ _, True).
Proof.
  intros [l sg] (K & r & Hr & Hs). cbn in *.
  unfold on_ledger, sr_map_err, sr_zoom. cbn [fst snd].
  pose proof (steps_touches id _ (update_operation_steps boot id
    "runtime_release" (IntentPersisted attempt)) l K) as HT.
  destruct (operation_intent _ _ _ _ l) as [l' [[]|e]] eqn:E; [|done].
  unfold operation_intent in E. rewrite E in HT.
  apply update_operation_persisted in E as (r' & rec & Hr' & HP & _ & HS);
    [|done]. split; [apply HT|]. exists rec. split; [apply HP|congruence].
Qed.

Lemma indeterminate_unresolved attempt :
  sr_triple unresolved
    (on_ledger UnsupportedRehydration
       (transition_with_operation boot id "started" "runtime_release"
          (Indeterminate attempt RUNTIME_RELEASE_STAGE_SIGTERM_INSUFFICIENT)))
    (λ _, unresolved) (λ _, True).
Proof.
  intros [l sg] (K & r & Hr & Hs). cbn in *.
  unfold on_ledger, sr_map_err, sr_zoom. cbn [fst snd].
  set (op := Indeterminate _ _).
  pose proof (steps_touches id _ (transition_with_operation_steps boot id
    "started" "runtime_release" op) l K) as HT.
  destruct (transition_with_operation _ _ _ _ _ l) as [l' [[]|e]] eqn:E; [|done].
  apply transition_with_operation_persisted in E as (rec & HP & _ & HS);
    [|done]. split; [apply HT|]. exists rec. split; [apply HP|]. by rewrite HS.
Qed.

Lemma signal_unresolved sig :
  sr_triple unresolved (signal_worker sig authority record)
    (λ _, unresolved) (λ _, True).
Proof. intros [l sg] Hu. unfold signal_worker. by destruct (_ && _). Qed.

Lemma release_confirms_early :
  sr_triple unresolved
    (recover_validated_runtime_release boot host authority record)
    (λ _, confirmed_early) (λ _, True).
Proof.
  unfold recover_validated_runtime_release. fold id.
  apply (triple_bind _ _ _ (λ _, unresolved)).
  { destruct (ol_runtime_release _); try (by apply triple_ret);
      try (by apply triple_fail).
    eapply triple_bind; [apply intent_unresolved|intros ?]. by apply triple_ret. }
  intros [attempt skip].
  assert (sr_triple unresolved
    (escalate_release boot host authority record attempt)
    (λ _, confirmed_early) (λ _, True)) as He.
  { unfold escalate_release.
    destruct (rh_after_term host); [|apply confirm_early|by apply triple_fail..].
    eapply triple_bind; [apply signal_unresolved|intros ?].
    destruct (rh_exits_on_kill host); [apply confirm_early|by apply triple_fail]. }
  destruct skip; [done|].
  eapply triple_bind; [apply signal_unresolved|intros ?].
  destruct (rh_exits_on_term host); [apply confirm_early|].
  eapply triple_bind; [apply indeterminate_unresolved|intros ?]. done.
Qed.

(** What the file of the record says when a signal is sent: the intent before
    SIGTERM and, before SIGKILL, that SIGTERM was not enough; unless the record
    that is recovered already said so itself. *)
Definition file_says (op : string) (state : DurableOperationState) (l : PersistentRecoveryLedger)
    : Prop :=
  ∃ r, persisted id r l ∧ operation_of op (pr_operation_ledger r) = Some state.
Definition signal_announced (e : Signal * PersistentRecoveryLedger) : Prop :=
  match ol_runtime_release (pr_operation_ledger record), e.1 with
  | NotStarted, SIGTERM => ∃ attempt, file_says "runtime_release" (IntentPersisted attempt) e.2
  | NotStarted, SIGKILL | IntentPersisted _, SIGKILL =>
      ∃ attempt, file_says "runtime_release"
        (Indeterminate attempt RUNTIME_RELEASE_STAGE_SIGTERM_INSUFFICIENT) e.2
  | IntentPersisted _, SIGTERM | Indeterminate _ _, SIGKILL => True
  | _, _ => False
  end.
Definition all_announced (s : PersistentRecoveryLedger * SentSignals) : Prop :=
  keyed s.1 ∧ Forall signal_announced s.2.

Lemma on_ledger_announced {A} f (m : LG A) (Q : PersistentRecoveryLedger → Prop) :
  sr_keeps (touches id) m → (∀ l l' a, keyed l → m l = (l', Ok a) → Q l') →
  sr_triple all_announced (on_ledger f m) (λ _ s, all_announced s ∧ Q s.1) all_announced.
Proof.
  intros Hm HQ [l sg] [K HF]. unfold on_ledger, sr_map_err, sr_zoom, all_announced. cbn in *.
  pose proof (ts_keyed _ _ _ (Hm l K)) as K'. specialize (HQ l).
  destruct (m l) as [l' [a|e]]; cbn in *; eauto.
Qed.
Lemma signal_announces sig (P : PersistentRecoveryLedger → Prop) :
  (∀ l, P l → signal_announced (sig, l)) →
  sr_triple (λ s, all_announced s ∧ P s.1) (signal_worker sig authority record)
    (λ _, all_announced) all_announced.
Proof.
  intros HP [l sg] [[K HF] Hl]. unfold signal_worker. destruct (_ && _); cbn; [|done].
  split; [done|]. cbn. apply Forall_app. split; [done|]. constructor; [by apply HP|done].
Qed.
Lemma intent_announced attempt :
  sr_triple all_announced
    (on_ledger UnsupportedRehydration (operation_intent boot id "runtime_release" attempt))
    (λ _ s, all_announced s ∧ file_says "runtime_release" (IntentPersisted attempt) s.1)
    all_announced.
Proof.
  apply on_ledger_announced; [apply steps_touches, update_operation_steps|].
  intros l l' [] K HU. apply update_operation_persisted in HU as (_ & r & _ & ? & ? & _); [|done].
  by exists r.
Qed.
Lemma insufficient_announced attempt :
  sr_triple all_announced
    (on_ledger UnsupportedRehydration
       (transition_with_operation boot id "started" "runtime_release"
          (Indeterminate attempt RUNTIME_RELEASE_STAGE_SIGTERM_INSUFFICIENT)))
    (λ _ s, all_announced s ∧ file_says "runtime_release"
       (Indeterminate attempt RUNTIME_RELEASE_STAGE_SIGTERM_INSUFFICIENT) s.1)
    all_announced.
Proof.
  apply on_ledger_announced; [apply steps_touches, transition_with_operation_steps|].
  intros l l' [] K HU. apply transition_with_operation_persisted in HU as (r & ? & ? & _); [|done].
  by exists r.
Qed.
Lemma confirm_announced attempt :
  sr_triple all_announced (confirm_release boot record attempt) (λ _, all_announced) all_announced.
Proof.
  unfold confirm_release. fold id. eapply triple_weaken; [apply (on_ledger_announced _ _ (λ _, True))|..];
    [apply steps_touches, update_operation_steps|done|done| |done].
  by intros [] s [? _].
Qed.
Lemma escalate_announced attempt (P : PersistentRecoveryLedger → Prop) :
  (∀ l, P l → signal_announced (SIGKILL, l)) →
  sr_triple (λ s, all_announced s ∧ P s.1) (escalate_release boot host authority record attempt)
    (λ _, all_announced) all_announced.
Proof.
  intros HP. unfold escalate_release. destruct (rh_after_term host).
  - eapply triple_bind; [by apply signal_announces|intros ?].
    destruct (rh_exits_on_kill host); [apply confirm_announced|by apply triple_fail].
  - eapply triple_weaken; [apply confirm_announced|by intros s [? _]|done..].
  - apply triple_fail. by intros s [? _].
  - apply triple_fail. by intros s [? _].
Qed.
Lemma term_announced attempt (P : PersistentRecoveryLedger → Prop) :
  (∀ l, P l → signal_announced (SIGTERM, l)) →
  (∀ l, file_says "runtime_release"
     (Indeterminate attempt RUNTIME_RELEASE_STAGE_SIGTERM_INSUFFICIENT) l →
     signal_announced (SIGKILL, l)) →
  sr_triple (λ s, all_announced s ∧ P s.1)
    (signal_worker SIGTERM authority record ;;;
     if rh_exits_on_term host then confirm_release boot record attempt
     else
       on_ledger UnsupportedRehydration
         (transition_with_operation boot id "started" "runtime_release"
            (Indeterminate attempt RUNTIME_RELEASE_STAGE_SIGTERM_INSUFFICIENT)) ;;;
       escalate_release boot host authority record attempt)
    (λ _, all_announced) all_announced.
Proof.
  intros HT HK. eapply triple_bind; [by apply signal_announces|intros ?].
  destruct (rh_exits_on_term host); [apply confirm_announced|].
  eapply triple_bind; [apply insufficient_announced|intros ?]. by apply escalate_announced.
Qed.
(** Every signal of a release is announced. *)
Lemma release_announces :
  sr_triple all_announced (recover_validated_runtime_release boot host authority record)
    (λ _, all_announced) all_announced.
Proof.
  unfold recover_validated_runtime_release. fold id.
  destruct (ol_runtime_release (pr_operation_ledger record)) as [|a| | |a c] eqn:Hr.
  - eapply (triple_bind _ _ _ (λ p s, p.2 = false ∧ all_announced s ∧
      ∃ a, file_says "runtime_release" (IntentPersisted a) s.1)).
    { eapply triple_bind; [apply intent_announced|intros ?]. apply triple_ret.
      intros s [? ?]. eauto. }
    intros [attempt skip] s [Hs HP]. cbn in Hs. subst skip. revert s HP.
    apply (term_announced attempt (λ l, ∃ a, file_says "runtime_release" (IntentPersisted a) l));
      unfold signal_announced; rewrite Hr; cbn; eauto.
  - eapply (triple_bind _ _ _ (λ p s, p = (a, false) ∧ all_announced s)); [by apply triple_ret|].
    intros p s [-> HP]. apply (term_announced a (λ _, True)); [..|done];
      unfold signal_announced; rewrite Hr; cbn; eauto.
  - by apply triple_fail.
  - by apply triple_fail.
  - eapply (triple_bind _ _ _ (λ p s, p = (a, true) ∧ all_announced s)); [by apply triple_ret|].
    intros p s [-> HP]. apply (escalate_announced a (λ _, True)); [|done].
    unfold signal_announced. by rewrite Hr.
Qed.
End ReleaseFacts.

(** ** Properties *)

Section Claims.
Context `{SerdeJson PersistentRecoveryRecord}.

(** A seat-free permit issued at startup is sound: the finalized record
    is gone from the ledger and from disk, the permit names it and its seat,
    no other record of that seat is left, neither the seat nor the daemon is
    under startup quarantine, and no other record or file was touched. *)
Theorem startup_permit_sound boot id l l' r p :
  keyed l → lg_records l !! id = Some r →
  finalize_startup_record boot id l = (l', Ok p) →
  gone id l' ∧ bd_record_id p = id ∧ bd_seat p = pr_seat r
  ∧ (∀ i r', lg_records l' !! i = Some r' → pr_seat r' ≠ pr_seat r)
  ∧ seat_startup_quarantined (pr_seat r) l' = false
  ∧ startup_quarantined l' = false
  ∧ (∀ i, i ≠ id → lg_records l' !! i = lg_records l !! i)
  ∧ (∀ n, n ≠ json_name id → n ≠ tmp_name id →
       ledger_files l' !! n = ledger_files l !! n).
Proof.
  intros K Hr HE.
  pose proof (finalize_startup_record_mine boot id l r K Hr l eq_refl) as HT.
  rewrite HE in HT. destruct HT as (HT & HG & Hseat & Hid & Hfree).
  destruct (HT K) as [_ _ HR HD _]. unfold seat_free_now in Hfree.
  bool_facts. rewrite Hseat in *.
  repeat (split; [done|]). split; [|by auto].
  intros i r' Hr' Hs. destruct (existsb _ _) eqn:Hex; [done|].
  apply not_true_iff_false in Hex. apply Hex, existsb_exists.
  exists r'. split; [|by apply str_eqb_true].
  apply list_elem_of_In, btree_values_elem. eauto.
Qed.

Lemma persist_intent_persisted `{!SerdeRoundtrip PersistentRecoveryRecord}
    boot s op attempt l l' next p :
  keyed l →
  persist_recovery_intent_from_snapshot boot s op attempt l
    = (l', Ok (next, p)) →
  persisted (pr_lifecycle_id (ss_record s)) (ss_record next) l'
  ∧ operation_of op (pr_operation_ledger (ss_record next))
      = Some (IntentPersisted attempt)
  ∧ permit_matches p (ss_record next) (op_boot_id p) attempt = true.
Proof.
  intros K HE. unfold persist_recovery_intent_from_snapshot in HE.
  rewrite sr_bind_eq in HE. destruct (snapshot_validates s); [|done].
  cbn in HE. rewrite sr_bind_eq in HE.
  set (id := pr_lifecycle_id (ss_record s)) in *.
  destruct (operation_intent boot id op attempt l) as [l1 [[]|]] eqn:HU; [|done].
  apply update_operation_persisted in HU as (r & rec & _ & HP & HO & _); [|done].
  apply record_for_operation_bind in HE as [(_ & _ & ?)|(rec' & Hrec' & HE)];
    [done|]. assert (rec' = rec) as -> by (destruct HP; congruence).
  unfold sr_bind, snapshot_or, sr_lift in HE.
  destruct (snapshot_from_record _ rec) as [s'|] eqn:HS; [|done]. cbn in HE.
  unfold make_recovery_permit in HE.
  destruct (BootIdentity_parse _) as [b|]; [|done]. cbn in HE.
  injection HE as <- <- <-. apply snapshot_from_record_record in HS as ->.
  split; [done|]. split; [done|]. unfold permit_matches. cbn.
  by rewrite !str_eqb_refl, !Z.eqb_refl.
Qed.

(** A permit for a destructive recovery operation exists only after its
    intent is durable: the record file decodes to the record of the new
    snapshot, which carries the announced intent, and the permit is bound to
    that record, sequence and attempt. *)
Theorem permit_after_durable_intent `{!SerdeRoundtrip PersistentRecoveryRecord}
    boot s op attempt l l' next p :
  keyed l →
  persist_recovery_intent_from_snapshot boot s op attempt l
    = (l', Ok (next, p)) →
  persisted (pr_lifecycle_id (ss_record s)) (ss_record next) l'
  ∧ operation_of op (pr_operation_ledger (ss_record next))
      = Some (IntentPersisted attempt)
  ∧ permit_matches p (ss_record next) (op_boot_id p) attempt = true.
Proof. apply persist_intent_persisted. Qed.

(** Releasing a worker that survived the supervisor sends at most one
    SIGTERM and then one SIGKILL, only with an authority that validates the
    record and a recorded start time and executable; never SIGTERM again
    after a durable "SIGTERM was not enough"; SIGKILL only to a process
    re-identified as the original; nothing once the release is confirmed or
    failed. *)
Theorem release_signals_bounded boot host authority record l sg l' sg' r :
  recover_validated_runtime_release boot host authority record (l, sg)
    = ((l', sg'), r) →
  ∃ sent, sg'.*1 = sg.*1 ++ sent
    ∧ sent ∈ [[]; [SIGTERM]; [SIGKILL]; [SIGTERM; SIGKILL]]
    ∧ (sent ≠ [] → same_boot_validates authority record = true
         ∧ is_Some (pr_worker_starttime record)
         ∧ is_Some (pr_worker_executable record))
    ∧ (SIGKILL ∈ sent → rh_after_term host = OriginalStillAlive)
    ∧ match ol_runtime_release (pr_operation_ledger record) with
      | NotStarted | IntentPersisted _ => True
      | Indeterminate _ _ => SIGTERM ∉ sent
      | Confirmed _ | OpFailed _ _ => sent = []
      end.
Proof.
  intros HE.
  pose proof (release_signals boot host authority record sg.*1 (l, sg) eq_refl)
    as HQ. rewrite HE in HQ.
  assert (match ol_runtime_release (pr_operation_ledger record) with
    | NotStarted | IntentPersisted _ => after_release host authority record sg.*1 sg'.*1
    | Indeterminate _ _ => after_kill host authority record sg.*1 sg'.*1
    | Confirmed _ | OpFailed _ _ => sg'.*1 = sg.*1 end) as HQ' by (by destruct r).
  clear HE HQ. revert HQ'. generalize (sg.*1) (sg'.*1). intros x y HQ'.
  pose proof (sends_spec authority record SIGTERM) as HT.
  pose proof (sends_spec authority record SIGKILL) as HK.
  destruct (ol_runtime_release _); unfold after_release, after_kill in HQ';
    destruct_or?; destruct_and?; subst; rewrite <-?app_assoc;
    first [ exists []; split; [by rewrite app_nil_r|]
          | eexists; split; [reflexivity|] ];
    repeat match goal with H : sends _ _ _ = _ |- _ => rewrite H; clear H end; cbn;
    (split; [set_solver|split; [naive_solver|split; [set_solver|]]]);
    set_solver.
Qed.

(** The release of a surviving worker confirms [runtime_release] on disk
    while the record is still unresolved, and the loader refuses exactly
    such a record: after a successful release, the record file decodes to a
    record with a historical violation, so a restart before the record is
    resolved quarantines it instead of resuming. *)
Theorem release_leaves_refused_record
    `{!SerdeRoundtrip PersistentRecoveryRecord}
    boot host authority record l sg l' sg' r :
  keyed l → lg_records l !! pr_lifecycle_id record = Some r →
  pr_state r ≠ "record_resolved"%string →
  recover_validated_runtime_release boot host authority record (l, sg)
    = ((l', sg'), Ok ()) →
  ∃ f rec, ledger_files l' !! json_name (pr_lifecycle_id record) = Some f
    ∧ serde_from_slice (file_data f) = Some rec
    ∧ RuntimeReleaseBeforeRecordResolved ∈ validate_historical_record rec.
Proof.
  intros K Hr Hs HE.
  pose proof (release_confirms_early boot host authority record (l, sg)) as HQ.
  rewrite HE in HQ.
  destruct HQ as (rec & (_ & f & Hf & Hrec) & Hst & Hc); [by split; eauto|].
  exists f, rec. split; [done|]. split; [done|].
  apply release_before_resolved_violates; [done|]. by apply str_eqb_false.
Qed.
End Claims.
