(* ===== verification/Admission.v ===== *)
(** * Seat admission

    [launcher/supervisor_loop/admission.rs]: the controller that decides who
    may use the seat, and the leases and receipts it hands out.  The leases
    carry the binding of their pre-commit record, which [cancel] and
    [promote_committed_to_running] remove from the process-wide store.  Also
    [recovery_admission_state] of [supervisor_loop/mod.rs] and the initial
    lifecycle of [supervisor_loop/construction.rs]. *)

From stdpp Require Import base gmap sets list strings.
From Stdlib Require Import ZArith Lia.
From S2P Require Import Prelude DirFs RecoveryTypes LedgerTaxonomy Ledger.
From S2P Require Import PreCommit SameBoot.
#[local] Open Scope niralis_scope.

(** ** Data *)

Inductive SessionError :=
| AuthenticationFailed | AuthenticatedSessionFailed | InvalidWorkerPath
| WorkerSpawnFailed | WorkerIoFailed | WorkerProtocolFailed | WorkerTimedOut
| WorkerRejected | StartFailed | WorkerExitedAfterStart
| SessionSeatUnavailable | WorkerRecoveryIncomplete | WorkerDiedAndWasRecovered
| PersistentRecoveryUnavailable.
#[export] Instance SessionError_eq_dec : EqDecision SessionError.
Proof. solve_decision. Defined.

(** [Arc<Mutex<A>>]: a mutex is poisoned when a holder panicked. *)
Inductive Shared (A : Type) := Healthy (a : A) | Poisoned.
Arguments Healthy {A} a.
Arguments Poisoned {A}.

Record AdmissionLease := mkLease {
  al_seat : string;
  al_attempt_id : Z;
  al_lifecycle_id : string;
  al_generation : Z;
  al_previous_vt : PreviousVtIdentity;
  al_precommit : option PreCommitRuntimeBinding;
}.
Record PendingLifecycleLease := mkPending {
  pl_seat : string;
  pl_attempt_id : Z;
  pl_lifecycle_id : string;
  pl_generation : Z;
  pl_precommit : option PreCommitRuntimeBinding;
}.
Record LaunchCommitReceipt := mkCommit {
  cr_seat : string;
  cr_attempt_id : Z;
  cr_lifecycle_id : string;
  cr_generation : Z;
  cr_precommit : option PreCommitRuntimeBinding;
}.
Record RunningSeatReceipt := mkRunning {
  rn_seat : string;
  rn_lifecycle_id : string;
  rn_generation : Z;
}.
Record RecoverySeatReceipt := mkRecovery {
  rv_seat : string;
  rv_lifecycle_id : string;
  rv_generation : Z;
}.
Record AdminFinalizationReceipt := mkAdminReceipt {
  ar_seat : string;
  ar_lifecycle_id : string;
  ar_seat_generation : Z;
  ar_recovery_record_id : string;
  ar_finalization_sequence : Z;
}.
Inductive AdmissionRollbackLease :=
| RollbackReserved (lease : AdmissionLease)
| RollbackPending (lease : PendingLifecycleLease).

Inductive RecoveryAdmissionState :=
| AdmissionClear
| SeatBlocked (seat reason : string)
| GloballyBlocked (reason : string).
Definition is_clear (r : RecoveryAdmissionState) : bool :=
  match r with AdmissionClear => true | _ => false end.

Inductive AdmissionPhase :=
| PhaseFree
| PhaseReserved (attempt_id : Z) (lifecycle_id : string) (generation : Z)
| PhasePending (attempt_id : Z) (lifecycle_id : string) (generation : Z)
| PhaseCommitted (attempt_id : Z) (lifecycle_id : string) (generation : Z).
#[export] Instance AdmissionPhase_eq_dec : EqDecision AdmissionPhase.
Proof. solve_decision. Defined.

Record SeatAdmissionController := mkController {
  sc_seat : string;
  sc_lifecycle : SeatLifecycle;
  sc_generation : Z;
  sc_next_attempt_id : Z;
  sc_phase : AdmissionPhase;
}.

(** The controller and the process-wide pre-commit store, when one has been
    installed. *)
Record AdmissionWorld := mkWorld {
  aw_controller : SeatAdmissionController;
  aw_store : option (Shared PreCommitRuntimeStore);
}.
Abbreviation AW := (SR AdmissionWorld SessionError).

Definition set_phase (p : AdmissionPhase) (c : SeatAdmissionController) :=
  mkController (sc_seat c) (sc_lifecycle c) (sc_generation c)
    (sc_next_attempt_id c) p.
Definition set_lifecycle (x : SeatLifecycle) (c : SeatAdmissionController) :=
  mkController (sc_seat c) x (sc_generation c) (sc_next_attempt_id c) (sc_phase c).
Definition on_controller {E} (f : SeatAdmissionController → SeatAdmissionController)
    : SR AdmissionWorld E () :=
  sr_modify (λ w, mkWorld (f (aw_controller w)) (aw_store w)).

(** ** The controller *)

Definition controller_new (seat : string) (lifecycle : SeatLifecycle)
    : SeatAdmissionController :=
  mkController seat lifecycle
    (match lifecycle with SeatFree => 0 | _ => 1 end) 1 PhaseFree.

Definition phase_is_free (c : SeatAdmissionController) : bool :=
  match sc_phase c with PhaseFree => true | _ => false end.
Definition is_free (c : SeatAdmissionController) : bool :=
  match sc_lifecycle c with SeatFree => true | _ => false end.

Definition active_is (id : string) (c : SeatAdmissionController) : bool :=
  match sc_lifecycle c with SeatActive i => str_eqb i id | _ => false end.
Definition recovering_is (id : string) (c : SeatAdmissionController) : bool :=
  match sc_lifecycle c with SeatRecovering i _ _ => str_eqb i id | _ => false end.
Definition quarantined_is (id : string) (c : SeatAdmissionController) : bool :=
  match sc_lifecycle c with SeatQuarantined i _ _ => str_eqb i id | _ => false end.

Definition token_matches (c : SeatAdmissionController) (seat : string)
    (attempt : Z) (id : string) (generation : Z) (attempt' : Z) (id' : string)
    (generation' : Z) : bool :=
  str_eqb seat (sc_seat c) && (attempt =? attempt') && str_eqb id id'
  && (generation =? generation') && (generation =? sc_generation c).

Definition matches_reserved (l : AdmissionLease) (c : SeatAdmissionController)
    : bool :=
  match sc_phase c with
  | PhaseReserved a i g =>
      token_matches c (al_seat l) (al_attempt_id l) (al_lifecycle_id l)
        (al_generation l) a i g
  | _ => false
  end.
Definition matches_pending (l : PendingLifecycleLease) (c : SeatAdmissionController)
    : bool :=
  match sc_phase c with
  | PhasePending a i g =>
      token_matches c (pl_seat l) (pl_attempt_id l) (pl_lifecycle_id l)
        (pl_generation l) a i g
  | _ => false
  end.
Definition matches_committed (r : LaunchCommitReceipt) (c : SeatAdmissionController)
    : bool :=
  match sc_phase c with
  | PhaseCommitted a i g =>
      token_matches c (cr_seat r) (cr_attempt_id r) (cr_lifecycle_id r)
        (cr_generation r) a i g
  | _ => false
  end.
Definition matches_running (r : RunningSeatReceipt) (c : SeatAdmissionController)
    : bool :=
  str_eqb (rn_seat r) (sc_seat c) && (rn_generation r =? sc_generation c)
  && active_is (rn_lifecycle_id r) c.
Definition matches_recovering (r : RecoverySeatReceipt) (c : SeatAdmissionController)
    : bool :=
  str_eqb (rv_seat r) (sc_seat c) && (rv_generation r =? sc_generation c)
  && recovering_is (rv_lifecycle_id r) c.

Definition reserve (lifecycle_id : string) (recovery : RecoveryAdmissionState)
    (previous_vt : PreviousVtIdentity) : AW AdmissionLease := λ w,
  let c := aw_controller w in
  if str_is_empty lifecycle_id || negb (is_clear recovery)
     || negb (phase_is_free c) || negb (is_free c)
  then (w, Err SessionSeatUnavailable)
  else
    let attempt_id := sc_next_attempt_id c in
    let generation := u64_wrapping_add (sc_generation c) 1 in
    (mkWorld
       (mkController (sc_seat c) (sc_lifecycle c) generation
          (Z.max (u64_wrapping_add attempt_id 1) 1)
          (PhaseReserved attempt_id lifecycle_id generation)) (aw_store w),
     Ok (mkLease (sc_seat c) attempt_id lifecycle_id generation previous_vt None)).

(** [promote] and [commit] hand a refused lease back. *)
Definition promote (lease : AdmissionLease) (recovery : RecoveryAdmissionState)
    : SR AdmissionWorld (SessionError * AdmissionLease)
        (PendingLifecycleLease * PreviousVtIdentity) := λ w,
  if negb (is_clear recovery) || negb (matches_reserved lease (aw_controller w))
  then (w, Err (SessionSeatUnavailable, lease))
  else
    (on_controller
       (set_phase (PhasePending (al_attempt_id lease) (al_lifecycle_id lease)
                     (al_generation lease))) ;;;
     sr_ret (mkPending (al_seat lease) (al_attempt_id lease)
               (al_lifecycle_id lease) (al_generation lease) (al_precommit lease),
             al_previous_vt lease)) w.

Definition commit_launch (lease : PendingLifecycleLease)
    (recovery : RecoveryAdmissionState)
    : SR AdmissionWorld (SessionError * PendingLifecycleLease)
        LaunchCommitReceipt := λ w,
  if negb (is_clear recovery) || negb (matches_pending lease (aw_controller w))
  then (w, Err (SessionSeatUnavailable, lease))
  else
    (on_controller
       (set_phase (PhaseCommitted (pl_attempt_id lease) (pl_lifecycle_id lease)
                     (pl_generation lease))) ;;;
     sr_ret (mkCommit (pl_seat lease) (pl_attempt_id lease)
               (pl_lifecycle_id lease) (pl_generation lease) (pl_precommit lease))) w.

(** Run an operation of the process-wide store, if there is one. *)
Definition with_store {A} (m : PG A) : AW A := λ w,
  match aw_store w with
  | None => (w, Err PersistentRecoveryUnavailable)
  | Some Poisoned => (w, Err PersistentRecoveryUnavailable)
  | Some (Healthy s) =>
      let '(s, r) := m s in
      (mkWorld (aw_controller w) (Some (Healthy s)),
       map_err (λ _, PersistentRecoveryUnavailable) r)
  end.

(** The [remove_precommit_runtime] of the three lease types. *)
Definition remove_precommit_runtime (o : option PreCommitRuntimeBinding) : AW () :=
  match o with
  | None => sr_ret ()
  | Some b => with_store (pc_remove b)
  end.

Section Controller.
Context `{SerdeJson PreCommitRuntimeRecord}.

Definition attach_precommit_runtime (b : PreCommitRuntimeBinding)
    (l : AdmissionLease) : result AdmissionLease SessionError :=
  if negb (str_eqb (pcb_lifecycle_id b) (al_lifecycle_id l))
  then Err WorkerProtocolFailed
  else Ok (mkLease (al_seat l) (al_attempt_id l) (al_lifecycle_id l)
             (al_generation l) (al_previous_vt l) (Some b)).

(** The lease after the call, and its verdict: the binding is taken first, so
    a failed update leaves the lease without one. *)
Definition update_precommit_runtime (host : Z → ProcHost) (stage : string)
    (worker_id : option string) (worker_pid : option Z) (l : AdmissionLease)
    (w : AdmissionWorld) : AdmissionWorld * AdmissionLease * result () SessionError :=
  let without b := mkLease (al_seat l) (al_attempt_id l) (al_lifecycle_id l)
                     (al_generation l) (al_previous_vt l) b in
  match al_precommit l with
  | None => (w, l, Ok ())
  | Some b =>
      match with_store (update_stage host b stage worker_id worker_pid) w with
      | (w, Ok b') => (w, without (Some b'), Ok ())
      | (w, Err e) => (w, without None, Err e)
      end
  end.

Definition mark_precommit_handoff_committed (r : LaunchCommitReceipt)
    (w : AdmissionWorld)
    : AdmissionWorld * LaunchCommitReceipt * result () SessionError :=
  let without b := mkCommit (cr_seat r) (cr_attempt_id r) (cr_lifecycle_id r)
                     (cr_generation r) b in
  match cr_precommit r with
  | None => (w, r, Ok ())
  | Some b =>
      match with_store (mark_handoff_committed b) w with
      | (w, Ok b') => (w, without (Some b'), Ok ())
      | (w, Err e) => (w, without None, Err e)
      end
  end.

End Controller.

Definition promote_committed_to_running (r : LaunchCommitReceipt)
    : AW RunningSeatReceipt := λ w,
  if negb (matches_committed r (aw_controller w))
  then (w, Err WorkerProtocolFailed)
  else
    (remove_precommit_runtime (cr_precommit r) ;;;
     on_controller (set_phase PhaseFree) ;;;
     on_controller (set_lifecycle (SeatActive (cr_lifecycle_id r))) ;;;
     sr_ret (mkRunning (cr_seat r) (cr_lifecycle_id r) (cr_generation r))) w.

Definition enter_recovery (r : RunningSeatReceipt) (phase : string)
    (reason : WorkerExitClassification) : AW RecoverySeatReceipt := λ w,
  if negb (matches_running r (aw_controller w))
  then (w, Err SessionSeatUnavailable)
  else
    (on_controller (set_lifecycle (SeatRecovering (rn_lifecycle_id r) phase reason)) ;;;
     sr_ret (mkRecovery (rn_seat r) (rn_lifecycle_id r) (rn_generation r))) w.

Definition enter_quarantine_from_pending (l : PendingLifecycleLease)
    (stage : EmergencyRecoveryStage) (reason : SupervisorRecoveryError)
    : AW () := λ w,
  if negb (matches_pending l (aw_controller w))
  then (w, Err SessionSeatUnavailable)
  else
    (on_controller (set_phase PhaseFree) ;;;
     on_controller (set_lifecycle (SeatQuarantined (pl_lifecycle_id l) stage reason))) w.

Definition pending_is (id : string) (c : SeatAdmissionController) : bool :=
  match sc_phase c with PhasePending _ i _ => str_eqb i id | _ => false end.

Definition quarantine_pending_lifecycle (id : string)
    (stage : EmergencyRecoveryStage) (reason : SupervisorRecoveryError)
    : AW () := λ w,
  if negb (pending_is id (aw_controller w))
  then (w, Err SessionSeatUnavailable)
  else
    (on_controller (set_phase PhaseFree) ;;;
     on_controller (set_lifecycle (SeatQuarantined id stage reason))) w.

Definition enter_quarantine_from_running (r : RunningSeatReceipt)
    (stage : EmergencyRecoveryStage) (reason : SupervisorRecoveryError)
    : AW () := λ w,
  if negb (matches_running r (aw_controller w))
  then (w, Err SessionSeatUnavailable)
  else on_controller (set_lifecycle (SeatQuarantined (rn_lifecycle_id r) stage reason)) w.

Definition enter_quarantine_from_recovery (r : RecoverySeatReceipt)
    (stage : EmergencyRecoveryStage) (reason : SupervisorRecoveryError)
    : AW () := λ w,
  if negb (matches_recovering r (aw_controller w))
  then (w, Err SessionSeatUnavailable)
  else on_controller (set_lifecycle (SeatQuarantined (rv_lifecycle_id r) stage reason)) w.

Definition release_after_a3_finalization (r : RecoverySeatReceipt) : AW () := λ w,
  if negb (matches_recovering r (aw_controller w))
  then (w, Err SessionSeatUnavailable)
  else on_controller (set_lifecycle SeatFree) w.

Definition release_running_after_a3_finalization (r : RunningSeatReceipt)
    : AW () := λ w,
  if negb (matches_running r (aw_controller w))
  then (w, Err SessionSeatUnavailable)
  else on_controller (set_lifecycle SeatFree) w.

Definition enter_quarantine_for_admin (id : string) : AW () := λ w,
  let c := aw_controller w in
  if str_is_empty id then (w, Err SessionSeatUnavailable)
  else if quarantined_is id c then (w, Ok ())
  else if negb (is_free c) || negb (phase_is_free c)
  then (w, Err SessionSeatUnavailable)
  else
    (mkWorld
       (mkController (sc_seat c) (SeatQuarantined id VtRecovery VtDisallocateBusy)
          (Z.max (u64_wrapping_add (sc_generation c) 1) 1)
          (sc_next_attempt_id c) (sc_phase c)) (aw_store w), Ok ()).

Definition pending_recovery (id phase : string) (reason : WorkerExitClassification)
    : AW RecoverySeatReceipt := λ w,
  if negb (pending_is id (aw_controller w))
  then (w, Err SessionSeatUnavailable)
  else
    (on_controller (set_phase PhaseFree) ;;;
     on_controller (set_lifecycle (SeatRecovering id phase reason)) ;;;
     λ w, (w, Ok (mkRecovery (sc_seat (aw_controller w)) id
                    (sc_generation (aw_controller w))))) w.

(** [removed] is a [RecordRemovedReceipt]. *)
Definition issue_admin_finalization_receipt (removed : Binding)
    (c : SeatAdmissionController) : result AdminFinalizationReceipt SessionError :=
  if negb (str_eqb (bd_seat removed) (sc_seat c))
     || negb (quarantined_is (bd_lifecycle_id removed) c)
     || (sc_generation c =? 0)
  then Err SessionSeatUnavailable
  else match sc_lifecycle c with
       | SeatQuarantined id _ _ =>
           Ok (mkAdminReceipt (bd_seat removed) id (sc_generation c)
                 (bd_record_id removed) (bd_sequence removed))
       | _ => Err SessionSeatUnavailable
       end.

Definition release_after_admin_finalization (r : AdminFinalizationReceipt)
    : AW () := λ w,
  let c := aw_controller w in
  if negb (str_eqb (ar_seat r) (sc_seat c))
     || negb (ar_seat_generation r =? sc_generation c)
     || str_is_empty (ar_recovery_record_id r)
     || (ar_finalization_sequence r =? 0)
     || negb (quarantined_is (ar_lifecycle_id r) c)
  then (w, Err SessionSeatUnavailable)
  else on_controller (set_lifecycle SeatFree) w.

Definition cancel (lease : AdmissionRollbackLease) : AW () := λ w,
  let c := aw_controller w in
  if negb (match lease with
           | RollbackReserved l => matches_reserved l c
           | RollbackPending l => matches_pending l c
           end)
  then (w, Err SessionSeatUnavailable)
  else
    (remove_precommit_runtime
       (match lease with
        | RollbackReserved l => al_precommit l
        | RollbackPending l => pl_precommit l
        end) ;;;
     on_controller (set_phase PhaseFree)) w.

(** ** The view of recovery *)

Definition recovery_admission_state
    (ledger : option (Shared PersistentRecoveryLedger))
    (store : option (Shared PreCommitRuntimeStore)) (seat : string)
    : RecoveryAdmissionState :=
  match ledger with
  | None => AdmissionClear
  | Some Poisoned => GloballyBlocked "recovery_ledger_unavailable"
  | Some (Healthy l) =>
      if startup_quarantined l || rs_global_quarantine (lg_record_set l)
      then GloballyBlocked "recovery_global_quarantine"
      else
        let after_store :=
          if seat_startup_quarantined seat l || seat_blocked (lg_record_set l) seat
          then SeatBlocked seat "recovery_seat_blocked"
          else AdmissionClear in
        match store with
        | None => after_store
        | Some Poisoned => GloballyBlocked "precommit_runtime_unavailable"
        | Some (Healthy s) =>
            if ps_startup_quarantined s
            then GloballyBlocked "precommit_runtime_quarantine"
            else if bool_decide (seat ∈ ps_startup_quarantined_seats s)
            then SeatBlocked seat "precommit_runtime_seat_blocked"
            else after_store
        end
  end.

(** The seat's lifecycle when the supervisor loop is built. *)
Definition initial_lifecycle (ledger : option (Shared PersistentRecoveryLedger))
    : SeatLifecycle :=
  match ledger with
  | Some (Healthy l) =>
      if startup_quarantined l || rs_global_quarantine (lg_record_set l)
         || seat_startup_quarantined "seat0" l
         || seat_blocked (lg_record_set l) "seat0"
      then SeatQuarantined "consolidated-recovery-seat0" RecoveryRecordValidation
             UnknownPayloadScope
      else SeatFree
  | _ => SeatFree
  end.

(** ** Histories *)

(** The operations of the controller, each with the lease or receipt its
    caller presents. *)
Inductive AdmissionOp :=
| OpReserve (id : string) (recovery : RecoveryAdmissionState) (vt : PreviousVtIdentity)
| OpPromote (l : AdmissionLease) (recovery : RecoveryAdmissionState)
| OpCommit (l : PendingLifecycleLease) (recovery : RecoveryAdmissionState)
| OpStart (r : LaunchCommitReceipt)
| OpRecover (r : RunningSeatReceipt) (phase : string) (reason : WorkerExitClassification)
| OpQuarantinePending (l : PendingLifecycleLease) (stage : EmergencyRecoveryStage)
    (reason : SupervisorRecoveryError)
| OpQuarantinePendingId (id : string) (stage : EmergencyRecoveryStage)
    (reason : SupervisorRecoveryError)
| OpQuarantineRunning (r : RunningSeatReceipt) (stage : EmergencyRecoveryStage)
    (reason : SupervisorRecoveryError)
| OpQuarantineRecovering (r : RecoverySeatReceipt) (stage : EmergencyRecoveryStage)
    (reason : SupervisorRecoveryError)
| OpQuarantineAdmin (id : string)
| OpPendingRecovery (id phase : string) (reason : WorkerExitClassification)
| OpReleaseRecovered (r : RecoverySeatReceipt)
| OpReleaseRunning (r : RunningSeatReceipt)
| OpReleaseAdmin (r : AdminFinalizationReceipt)
| OpCancel (l : AdmissionRollbackLease).

Definition outcome {E A} (x : AdmissionWorld * result A E) : AdmissionWorld * bool :=
  (x.1, is_ok x.2).

Definition run_admission_op (op : AdmissionOp) (w : AdmissionWorld)
    : AdmissionWorld * bool :=
  match op with
  | OpReserve id rec vt => outcome (reserve id rec vt w)
  | OpPromote l rec => outcome (promote l rec w)
  | OpCommit l rec => outcome (commit_launch l rec w)
  | OpStart r => outcome (promote_committed_to_running r w)
  | OpRecover r p e => outcome (enter_recovery r p e w)
  | OpQuarantinePending l s e => outcome (enter_quarantine_from_pending l s e w)
  | OpQuarantinePendingId i s e => outcome (quarantine_pending_lifecycle i s e w)
  | OpQuarantineRunning r s e => outcome (enter_quarantine_from_running r s e w)
  | OpQuarantineRecovering r s e => outcome (enter_quarantine_from_recovery r s e w)
  | OpQuarantineAdmin i => outcome (enter_quarantine_for_admin i w)
  | OpPendingRecovery i p e => outcome (pending_recovery i p e w)
  | OpReleaseRecovered r => outcome (release_after_a3_finalization r w)
  | OpReleaseRunning r => outcome (release_running_after_a3_finalization r w)
  | OpReleaseAdmin r => outcome (release_after_admin_finalization r w)
  | OpCancel l => outcome (cancel l w)
  end.
Definition run_admission (ops : list AdmissionOp) (w : AdmissionWorld)
    : AdmissionWorld := foldl (λ w op, (run_admission_op op w).1) w ops.

(** ** The life of a seat *)

Inductive SeatView :=
| VFree | VReserved (id : string) | VPending (id : string) | VCommitted (id : string)
| VActive (id : string) | VRecovering (id : string) | VQuarantined (id : string).

Definition view (c : SeatAdmissionController) : SeatView :=
  match sc_phase c with
  | PhaseReserved _ i _ => VReserved i
  | PhasePending _ i _ => VPending i
  | PhaseCommitted _ i _ => VCommitted i
  | PhaseFree =>
      match sc_lifecycle c with
      | SeatFree => VFree
      | SeatActive i => VActive i
      | SeatRecovering i _ _ => VRecovering i
      | SeatQuarantined i _ _ => VQuarantined i
      end
  end.

(** One login at a time, from reservation to release. *)
Inductive seat_step : SeatView → SeatView → Prop :=
| step_reserve i : i ≠ EmptyString → seat_step VFree (VReserved i)
| step_promote i : seat_step (VReserved i) (VPending i)
| step_commit i : seat_step (VPending i) (VCommitted i)
| step_start i : seat_step (VCommitted i) (VActive i)
| step_recover i : seat_step (VActive i) (VRecovering i)
| step_recover_pending i : seat_step (VPending i) (VRecovering i)
| step_quarantine_pending i : seat_step (VPending i) (VQuarantined i)
| step_quarantine_active i : seat_step (VActive i) (VQuarantined i)
| step_quarantine_recovering i : seat_step (VRecovering i) (VQuarantined i)
| step_quarantine_admin i : i ≠ EmptyString → seat_step VFree (VQuarantined i)
| step_release_recovered i : seat_step (VRecovering i) VFree
| step_release_running i : seat_step (VActive i) VFree
| step_release_quarantined i : seat_step (VQuarantined i) VFree
| step_cancel_reserved i : seat_step (VReserved i) VFree
| step_cancel_pending i : seat_step (VPending i) VFree.

(** The step an operation stands for, between the lifecycles its lease or
    receipt names.  An administrative quarantine of a seat that already is
    quarantined for that lifecycle has nothing to do. *)
Definition op_step (op : AdmissionOp) (v v' : SeatView) : Prop :=
  match op with
  | OpReserve i _ _ => i ≠ EmptyString ∧ v = VFree ∧ v' = VReserved i
  | OpPromote l _ => v = VReserved (al_lifecycle_id l) ∧ v' = VPending (al_lifecycle_id l)
  | OpCommit l _ => v = VPending (pl_lifecycle_id l) ∧ v' = VCommitted (pl_lifecycle_id l)
  | OpStart r => v = VCommitted (cr_lifecycle_id r) ∧ v' = VActive (cr_lifecycle_id r)
  | OpRecover r _ _ => v = VActive (rn_lifecycle_id r) ∧ v' = VRecovering (rn_lifecycle_id r)
  | OpPendingRecovery i _ _ => v = VPending i ∧ v' = VRecovering i
  | OpQuarantinePending l _ _ =>
      v = VPending (pl_lifecycle_id l) ∧ v' = VQuarantined (pl_lifecycle_id l)
  | OpQuarantinePendingId i _ _ => v = VPending i ∧ v' = VQuarantined i
  | OpQuarantineRunning r _ _ =>
      v = VActive (rn_lifecycle_id r) ∧ v' = VQuarantined (rn_lifecycle_id r)
  | OpQuarantineRecovering r _ _ =>
      v = VRecovering (rv_lifecycle_id r) ∧ v' = VQuarantined (rv_lifecycle_id r)
  | OpQuarantineAdmin i => i ≠ EmptyString ∧ (v = VFree ∨ v = VQuarantined i) ∧
                           v' = VQuarantined i
  | OpReleaseRecovered r => v = VRecovering (rv_lifecycle_id r) ∧ v' = VFree
  | OpReleaseRunning r => v = VActive (rn_lifecycle_id r) ∧ v' = VFree
  | OpReleaseAdmin r => v = VQuarantined (ar_lifecycle_id r) ∧ v' = VFree
  | OpCancel (RollbackReserved l) => v = VReserved (al_lifecycle_id l) ∧ v' = VFree
  | OpCancel (RollbackPending l) => v = VPending (pl_lifecycle_id l) ∧ v' = VFree
  end.
Lemma op_step_seat op v v' : op_step op v v' → v' = v ∨ seat_step v v'.
Proof.
  destruct op as [| | | | | | | | | | | | | |[]]; cbn; intros; destruct_and?; destruct_or?;
    subst; first [by left|right; by constructor].
Qed.

Definition phase_generation (p : AdmissionPhase) : option Z :=
  match p with
  | PhaseFree => None
  | PhaseReserved _ _ g | PhasePending _ _ g | PhaseCommitted _ _ g => Some g
  end.

(** A login in progress leaves the recorded lifecycle free and carries the
    current generation, which is a [u64]. *)
Definition admission_inv (c : SeatAdmissionController) : Prop :=
  (sc_phase c ≠ PhaseFree → sc_lifecycle c = SeatFree) ∧
  (∀ g, phase_generation (sc_phase c) = Some g → g = sc_generation c) ∧
  in_u64 (sc_generation c).

Lemma token_matches_true c seat a i g a' i' g' :
  token_matches c seat a i g a' i' g' = true →
  seat = sc_seat c ∧ a = a' ∧ i = i' ∧ g = g' ∧ g = sc_generation c.
Proof. unfold token_matches. intros. by bool_facts. Qed.

Lemma matches_reserved_true l c :
  matches_reserved l c = true →
  sc_phase c = PhaseReserved (al_attempt_id l) (al_lifecycle_id l) (al_generation l) ∧
  al_seat l = sc_seat c ∧ al_generation l = sc_generation c.
Proof.
  unfold matches_reserved. destruct (sc_phase c); try done.
  by intros (-> & -> & -> & -> & ->)%token_matches_true.
Qed.
Lemma matches_pending_true l c :
  matches_pending l c = true →
  sc_phase c = PhasePending (pl_attempt_id l) (pl_lifecycle_id l) (pl_generation l) ∧
  pl_seat l = sc_seat c ∧ pl_generation l = sc_generation c.
Proof.
  unfold matches_pending. destruct (sc_phase c); try done.
  by intros (-> & -> & -> & -> & ->)%token_matches_true.
Qed.
Lemma matches_committed_true r c :
  matches_committed r c = true →
  sc_phase c = PhaseCommitted (cr_attempt_id r) (cr_lifecycle_id r) (cr_generation r) ∧
  cr_seat r = sc_seat c ∧ cr_generation r = sc_generation c.
Proof.
  unfold matches_committed. destruct (sc_phase c); try done.
  by intros (-> & -> & -> & -> & ->)%token_matches_true.
Qed.
Lemma matches_running_true r c :
  matches_running r c = true →
  sc_lifecycle c = SeatActive (rn_lifecycle_id r) ∧
  rn_seat r = sc_seat c ∧ rn_generation r = sc_generation c.
Proof.
  unfold matches_running, active_is. intros. bool_facts.
  destruct (sc_lifecycle c); try done. bool_facts. by subst.
Qed.
Lemma matches_recovering_true r c :
  matches_recovering r c = true →
  (∃ p e, sc_lifecycle c = SeatRecovering (rv_lifecycle_id r) p e) ∧
  rv_seat r = sc_seat c ∧ rv_generation r = sc_generation c.
Proof.
  unfold matches_recovering, recovering_is. intros. bool_facts.
  destruct (sc_lifecycle c); try done. bool_facts. subst. eauto.
Qed.
Lemma quarantined_is_true i c :
  quarantined_is i c = true → ∃ s e, sc_lifecycle c = SeatQuarantined i s e.
Proof.
  unfold quarantined_is. destruct (sc_lifecycle c); try done. intros. bool_facts.
  subst. eauto.
Qed.
Lemma pending_is_true i c :
  pending_is i c = true → ∃ a g, sc_phase c = PhasePending a i g.
Proof.
  unfold pending_is. destruct (sc_phase c); try done. intros. bool_facts.
  subst. eauto.
Qed.

Lemma with_store_controller {A} (m : PG A) w :
  aw_controller (with_store m w).1 = aw_controller w.
Proof.
  unfold with_store. destruct (aw_store w) as [[s|]|]; [|done..].
  by destruct (m s).
Qed.
Lemma remove_precommit_controller o w :
  aw_controller (remove_precommit_runtime o w).1 = aw_controller w.
Proof. destruct o; [apply with_store_controller|done]. Qed.

(** What one operation does: a refused one nothing to the controller, a
    successful one the step it stands for. *)
Definition admission_effect (op : AdmissionOp) (w w' : AdmissionWorld) (ok : bool) : Prop :=
  admission_inv (aw_controller w') ∧
  sc_seat (aw_controller w') = sc_seat (aw_controller w) ∧
  if ok then op_step op (view (aw_controller w)) (view (aw_controller w'))
  else aw_controller w' = aw_controller w.

Lemma effect_none op w w' :
  admission_inv (aw_controller w) → aw_controller w' = aw_controller w →
  admission_effect op w w' false.
Proof. intros Hi E. unfold admission_effect. by rewrite E. Qed.

Lemma effect_phase op w p store :
  admission_inv (aw_controller w) → sc_lifecycle (aw_controller w) = SeatFree →
  (∀ g, phase_generation p = Some g → g = sc_generation (aw_controller w)) →
  op_step op (view (aw_controller w)) (view (set_phase p (aw_controller w))) →
  admission_effect op w (mkWorld (set_phase p (aw_controller w)) store) true.
Proof. intros (H1 & H2 & H3) Hl Hp Hs. repeat split; cbn; eauto; apply H3. Qed.

Lemma effect_lifecycle op w x :
  admission_inv (aw_controller w) →
  op_step op (view (aw_controller w))
    (view (set_lifecycle x (set_phase PhaseFree (aw_controller w)))) →
  ∀ store, admission_effect op w
    (mkWorld (set_lifecycle x (set_phase PhaseFree (aw_controller w))) store) true.
Proof. intros (H1 & H2 & H3) Hs store. repeat split; cbn; eauto; try done; apply H3. Qed.

Lemma inv_phase_free c x :
  admission_inv c → sc_lifecycle c = x → x ≠ SeatFree → sc_phase c = PhaseFree.
Proof.
  intros (H1 & _) <- Hx. destruct (decide (sc_phase c = PhaseFree)); [done|].
  by apply H1 in n.
Qed.
Lemma set_phase_id c : set_phase (sc_phase c) c = c.
Proof. by destruct c. Qed.

Lemma effect_lifecycle_only op w x store :
  admission_inv (aw_controller w) → sc_phase (aw_controller w) = PhaseFree →
  op_step op (view (aw_controller w)) (view (set_lifecycle x (aw_controller w))) →
  admission_effect op w (mkWorld (set_lifecycle x (aw_controller w)) store) true.
Proof.
  intros Hi Hp. assert (set_lifecycle x (aw_controller w) =
    set_lifecycle x (set_phase PhaseFree (aw_controller w))) as ->.
  { by rewrite <- Hp, set_phase_id. }
  intros. by apply effect_lifecycle.
Qed.

Lemma reserve_effect id rec vt w :
  admission_inv (aw_controller w) →
  admission_effect (OpReserve id rec vt) w (reserve id rec vt w).1
    (is_ok (reserve id rec vt w).2).
Proof.
  intros Hi. unfold reserve, phase_is_free, is_free.
  destruct (_ || _) eqn:Hg; [by apply effect_none|].
  destruct (sc_phase (aw_controller w)) eqn:Hp, (sc_lifecycle (aw_controller w)) eqn:Hl;
    bool_facts; try done.
  unfold admission_effect, admission_inv, view. cbn. rewrite Hp, Hl.
  split_and!; try done; [by intros g [= <-]|apply u64_wrapping_add_range..].
Qed.

Lemma quarantine_admin_effect id w :
  admission_inv (aw_controller w) →
  admission_effect (OpQuarantineAdmin id) w (enter_quarantine_for_admin id w).1
    (is_ok (enter_quarantine_for_admin id w).2).
Proof.
  intros Hi. unfold enter_quarantine_for_admin, is_free, phase_is_free.
  destruct (str_is_empty id) eqn:He; [by apply effect_none|]. bool_facts.
  destruct (quarantined_is _ _) eqn:Hq.
  { split; [done|]. split; [done|]. cbn. apply quarantined_is_true in Hq as (st & e & Hl).
    pose proof (inv_phase_free _ _ Hi Hl ltac:(done)) as Hp. unfold view. rewrite Hp, Hl.
    by auto. }
  destruct (_ || _) eqn:Hg; [by apply effect_none|].
  destruct (sc_phase (aw_controller w)) eqn:Hp, (sc_lifecycle (aw_controller w)) eqn:Hl;
    bool_facts; try done.
  pose proof (u64_wrapping_add_range (sc_generation (aw_controller w)) 1) as Hr.
  unfold admission_effect, admission_inv, view. cbn. rewrite Hp, Hl.
  unfold in_u64, u64_max in *. split_and!; try done; [lia..|by left].
Qed.

Lemma removal_effect {A} op (m : AW A) (k : A → AW ()) w :
  aw_controller (m w).1 = aw_controller w →
  admission_inv (aw_controller w) →
  (∀ a w', aw_controller w' = aw_controller w →
     admission_effect op w (k a w').1 (is_ok (k a w').2)) →
  admission_effect op w (sr_bind m k w).1 (is_ok (sr_bind m k w).2).
Proof.
  intros Hm Hi Hk. rewrite sr_bind_eq. destruct (m w) as [w' [a|e]]; cbn in Hm.
  - by apply Hk.
  - by apply effect_none.
Qed.

Lemma cancel_effect l w :
  admission_inv (aw_controller w) →
  admission_effect (OpCancel l) w (cancel l w).1 (is_ok (cancel l w).2).
Proof.
  intros Hi. unfold cancel. destruct (negb _) eqn:Hm; [by apply effect_none|].
  bool_facts. apply removal_effect; [apply remove_precommit_controller|done|].
  intros _ w' E. unfold on_controller, sr_modify. cbn [fst snd]. rewrite E.
  pose proof Hi as (H1 & _).
  destruct l as [l|l];
    [apply matches_reserved_true in Hm as (Hp & _)
    |apply matches_pending_true in Hm as (Hp & _)];
    (assert (sc_lifecycle (aw_controller w) = SeatFree) as Hl
       by (apply H1; by rewrite Hp));
    (apply effect_phase; try done);
    unfold view; cbn; rewrite Hp, Hl; done.
Qed.

Lemma start_effect r w :
  admission_inv (aw_controller w) →
  admission_effect (OpStart r) w (promote_committed_to_running r w).1
    (is_ok (promote_committed_to_running r w).2).
Proof.
  intros Hi. unfold promote_committed_to_running.
  destruct (negb _) eqn:Hm; [by apply effect_none|]. bool_facts.
  apply matches_committed_true in Hm as (Hp & _). rewrite sr_bind_eq.
  pose proof (remove_precommit_controller (cr_precommit r) w) as E.
  destruct (remove_precommit_runtime _ w) as [w' [[]|e]]; cbn in E;
    [|by apply effect_none].
  unfold on_controller, sr_modify, sr_bind, sr_ret. cbn [fst snd aw_controller aw_store].
  rewrite E. apply effect_lifecycle; try done.
  unfold view; cbn; by rewrite Hp.
Qed.

(** What a matching token says about the controller. *)
Ltac token_facts :=
  repeat match goal with
  | H : matches_reserved _ _ = true |- _ => apply matches_reserved_true in H as (? & ? & ?)
  | H : matches_pending _ _ = true |- _ => apply matches_pending_true in H as (? & ? & ?)
  | H : matches_running _ _ = true |- _ => apply matches_running_true in H as (? & ? & ?)
  | H : matches_recovering _ _ = true |- _ =>
      apply matches_recovering_true in H as ((? & ? & ?) & ? & ?)
  | H : quarantined_is _ _ = true |- _ => apply quarantined_is_true in H as (? & ? & ?)
  | H : pending_is _ _ = true |- _ => apply pending_is_true in H as (? & ? & ?)
  end.

Lemma run_admission_op_effect op w :
  admission_inv (aw_controller w) →
  admission_effect op w (run_admission_op op w).1 (run_admission_op op w).2.
Proof.
  intros Hi. pose proof Hi as (H1 & H2 & H3).
  destruct op; cbn [run_admission_op outcome fst snd];
    try (by auto using reserve_effect, quarantine_admin_effect, cancel_effect,
           start_effect);
    match goal with |- admission_effect _ _ (?f w).1 _ =>
      let h := get_head f in unfold h end;
    (destruct (_ : bool) eqn:Hm; [by apply effect_none|]); bool_facts;
    unfold on_controller, sr_modify, sr_bind, sr_ret;
    cbn [fst snd aw_controller aw_store is_ok]; token_facts;
    try match goal with
    | H : sc_lifecycle (aw_controller w) = _ |- _ =>
        pose proof (inv_phase_free _ _ Hi H ltac:(done))
    end;
    try match goal with
    | H : sc_phase (aw_controller w) = _ |- _ =>
        pose proof (H1 ltac:(by rewrite H))
    end;
    first [apply effect_phase|apply effect_lifecycle|apply effect_lifecycle_only];
    try done; try (by intros ? [= <-]);
    unfold view; cbn;
    repeat match goal with
    | H : sc_phase _ = _ |- _ => rewrite H
    | H : sc_lifecycle _ = _ |- _ => rewrite H
    end; done.
Qed.
(** Every operation leaves the controller alone or takes a step of the seat's
    life. *)
Lemma run_admission_op_cases op w :
  admission_inv (aw_controller w) →
  let w' := (run_admission_op op w).1 in
  view (aw_controller w') = view (aw_controller w) ∨
  (run_admission_op op w).2 = true ∧ seat_step (view (aw_controller w)) (view (aw_controller w')).
Proof.
  intros Hi. destruct (run_admission_op_effect op w Hi) as (_ & _ & He).
  destruct (run_admission_op op w) as [w' []]; cbn in *.
  - apply op_step_seat in He as [?|?]; [by left|by right].
  - left. by rewrite He.
Qed.

Lemma run_admission_inv ops w :
  admission_inv (aw_controller w) → admission_inv (aw_controller (run_admission ops w)).
Proof.
  revert w. induction ops as [|op ops IH]; intros w Hi; [done|].
  apply IH, run_admission_op_effect, Hi.
Qed.

Lemma run_admission_path ops w :
  admission_inv (aw_controller w) →
  rtc seat_step (view (aw_controller w)) (view (aw_controller (run_admission ops w))).
Proof.
  revert w. induction ops as [|op ops IH]; intros w Hi; [done|]. cbn.
  destruct (run_admission_op_effect op w Hi) as (Hi' & _).
  specialize (IH _ Hi').
  destruct (run_admission_op_cases op w Hi) as [E|[_ Hs]]; [by rewrite E in IH|].
  by eapply rtc_l.
Qed.

Lemma controller_new_inv seat x : admission_inv (controller_new seat x).
Proof. unfold admission_inv, in_u64. by destruct x. Qed.

(** ** Release *)

Definition frees (op : AdmissionOp) : bool :=
  match op with
  | OpReleaseRecovered _ | OpReleaseRunning _ | OpReleaseAdmin _ | OpCancel _ => true
  | _ => false
  end.

(** No release or cancellation of the history succeeds. *)
Fixpoint never_freed (ops : list AdmissionOp) (w : AdmissionWorld) : Prop :=
  match ops with
  | [] => True
  | op :: rest =>
      (frees op = true → (run_admission_op op w).2 = false) ∧
      never_freed rest (run_admission_op op w).1
  end.

Lemma run_admission_op_taken op w :
  admission_inv (aw_controller w) →
  (frees op = true → (run_admission_op op w).2 = false) →
  view (aw_controller w) ≠ VFree →
  view (aw_controller (run_admission_op op w).1) ≠ VFree.
Proof.
  intros Hi Hf Hv. destruct (run_admission_op_cases op w Hi) as [E|[Hok _]];
    [by rewrite E|].
  destruct (frees op) eqn:Hfr; [by rewrite Hf in Hok|].
  destruct op; try done; cbn [run_admission_op outcome fst snd] in *;
    match goal with |- view (aw_controller (?f w).1) ≠ _ =>
      let h := get_head f in unfold h end;
    repeat (case_match; [try done..|]); try done;
    unfold on_controller, sr_modify, sr_bind, sr_ret;
    repeat (case_match; try done); simplify_eq/=; unfold view; cbn;
    repeat (case_match; try done).
  match goal with G : negb _ = false, R : remove_precommit_runtime _ _ = _ |- _ =>
    unfold promote_committed_to_running in Hok; by rewrite G, sr_bind_eq, R in Hok
  end.
Qed.

Lemma run_admission_taken ops w :
  admission_inv (aw_controller w) → never_freed ops w →
  view (aw_controller w) ≠ VFree →
  view (aw_controller (run_admission ops w)) ≠ VFree.
Proof.
  revert w. induction ops as [|op ops IH]; intros w Hi Hn Hv; [done|].
  destruct Hn as [Hf Hn]. apply IH; [|done|by apply run_admission_op_taken].
  by apply run_admission_op_effect.
Qed.

Lemma reserve_Ok id rec vt w w' lease :
  reserve id rec vt w = (w', Ok lease) →
  view (aw_controller w) = VFree ∧ view (aw_controller w') = VReserved id.
Proof.
  unfold reserve, view, phase_is_free, is_free. destruct (_ || _) eqn:Hg; [done|].
  intros [= <- <-]. destruct (sc_phase _), (sc_lifecycle _); bool_facts; done.
Qed.

(** ** Generations *)

(** The generation of the lease or receipt an operation presents. *)
Definition token_generation (op : AdmissionOp) : option Z :=
  match op with
  | OpPromote l _ => Some (al_generation l)
  | OpCommit l _ => Some (pl_generation l)
  | OpStart r => Some (cr_generation r)
  | OpRecover r _ _ | OpQuarantineRunning r _ _ | OpReleaseRunning r =>
      Some (rn_generation r)
  | OpQuarantinePending l _ _ => Some (pl_generation l)
  | OpQuarantineRecovering r _ _ | OpReleaseRecovered r => Some (rv_generation r)
  | OpReleaseAdmin r => Some (ar_seat_generation r)
  | OpCancel (RollbackReserved l) => Some (al_generation l)
  | OpCancel (RollbackPending l) => Some (pl_generation l)
  | OpReserve _ _ _ | OpQuarantinePendingId _ _ _ | OpQuarantineAdmin _
  | OpPendingRecovery _ _ _ => None
  end.

(** The operation takes a free seat. *)
Definition admits (op : AdmissionOp) (w : AdmissionWorld) : bool :=
  match op with
  | OpReserve _ _ _ => (run_admission_op op w).2
  | OpQuarantineAdmin id =>
      (run_admission_op op w).2 && negb (quarantined_is id (aw_controller w))
  | _ => false
  end.
Fixpoint admissions (ops : list AdmissionOp) (w : AdmissionWorld) : Z :=
  match ops with
  | [] => 0
  | op :: rest =>
      Z.b2z (admits op w) + admissions rest (run_admission_op op w).1
  end.

Lemma admissions_nonneg ops w : 0 ≤ admissions ops w.
Proof.
  revert w. induction ops as [|op ops IH]; intros w; cbn; [lia|].
  specialize (IH (run_admission_op op w).1). destruct (admits op w); cbn; lia.
Qed.

Lemma run_admission_op_generation op w :
  in_u64 (sc_generation (aw_controller w)) →
  sc_generation (aw_controller w) + Z.b2z (admits op w) ≤ u64_max →
  sc_generation (aw_controller (run_admission_op op w).1) =
  sc_generation (aw_controller w) + Z.b2z (admits op w).
Proof.
  intros Hr.
  destruct op; cbn [run_admission_op outcome fst snd admits Z.b2z];
    try match goal with |- _ → sc_generation (aw_controller (?f w).1) = _ =>
      let h := get_head f in unfold h end.
  all: try (intros _; case_match; cbn; lia).
  - case_match; cbn; [lia|]. unfold in_u64 in Hr. intros.
    by rewrite u64_wrapping_add_small by lia.
  - case_match; cbn; [lia|]. intros _. rewrite sr_bind_eq.
    pose proof (remove_precommit_controller (cr_precommit r) w) as E.
    destruct (remove_precommit_runtime _ w) as [w' [[]|e]]; cbn in *; rewrite E; lia.
  - case_match; cbn; [lia|]. destruct (quarantined_is _ _) eqn:Hq; cbn; [lia|].
    case_match; cbn; [lia|]. unfold in_u64 in Hr. intros.
    rewrite u64_wrapping_add_small by lia. lia.
  - case_match; cbn; [lia|]. intros _. rewrite sr_bind_eq.
    match goal with |- context [remove_precommit_runtime ?o w] =>
      pose proof (remove_precommit_controller o w) as E;
      destruct (remove_precommit_runtime o w) as [w' [[]|e]]; cbn in *; rewrite E; lia
    end.
Qed.

Lemma run_admission_generation ops w :
  admission_inv (aw_controller w) →
  sc_generation (aw_controller w) + admissions ops w ≤ u64_max →
  sc_generation (aw_controller (run_admission ops w)) =
  sc_generation (aw_controller w) + admissions ops w.
Proof.
  revert w. induction ops as [|op ops IH]; intros w Hi Hb; cbn in *; [lia|].
  pose proof (admissions_nonneg ops (run_admission_op op w).1).
  pose proof (run_admission_op_generation op w ltac:(apply Hi) ltac:(lia)) as E.
  change (foldl _ ?x ops) with (run_admission ops x).
  rewrite IH; [lia| |lia]. by apply run_admission_op_effect.
Qed.

Lemma stale_token_refused op w g :
  token_generation op = Some g → g ≠ sc_generation (aw_controller w) →
  run_admission_op op w = (w, false).
Proof.
  assert (∀ s a i g a' i' g', g ≠ sc_generation (aw_controller w) →
    token_matches (aw_controller w) s a i g a' i' g' = false) as Ht.
  { intros. apply not_true_iff_false. intros (_ & _ & _ & _ & ?)%token_matches_true. done. }
  assert (∀ l, al_generation l ≠ sc_generation (aw_controller w) →
            matches_reserved l (aw_controller w) = false) as M1.
  { intros. unfold matches_reserved. case_match; auto. }
  assert (∀ l, pl_generation l ≠ sc_generation (aw_controller w) →
            matches_pending l (aw_controller w) = false) as M2.
  { intros. unfold matches_pending. case_match; auto. }
  assert (∀ r, cr_generation r ≠ sc_generation (aw_controller w) →
            matches_committed r (aw_controller w) = false) as M3.
  { intros. unfold matches_committed. case_match; auto. }
  assert (∀ r, rn_generation r ≠ sc_generation (aw_controller w) →
            matches_running r (aw_controller w) = false) as M4.
  { intros r Hr%Z.eqb_neq. unfold matches_running. by rewrite Hr, andb_false_r. }
  assert (∀ r, rv_generation r ≠ sc_generation (aw_controller w) →
            matches_recovering r (aw_controller w) = false) as M5.
  { intros r Hr%Z.eqb_neq. unfold matches_recovering. by rewrite Hr, andb_false_r. }
  intros Hop Hg.
  destruct op; try done; cbn in Hop; try case_match; simplify_eq;
    unfold run_admission_op, outcome, promote, commit_launch,
      promote_committed_to_running, enter_recovery, enter_quarantine_from_pending,
      enter_quarantine_from_running, enter_quarantine_from_recovery,
      release_after_a3_finalization, release_running_after_a3_finalization, cancel;
    rewrite ?M1, ?M2, ?M3, ?M4, ?M5 by done; rewrite ?orb_true_r; try done.
  unfold release_after_admin_finalization. apply Z.eqb_neq in Hg. rewrite Hg.
  by rewrite orb_true_r.
Qed.

(** ** The properties *)

(** C30. The admission controller implements the life of a seat: from any
    initial lifecycle and after any history of operations, whatever leases and
    receipts their callers present and whatever the pre-commit store answers,
    the seat has moved along the transitions of [seat_step]; and every
    operation that then succeeds makes exactly the transition it stands for,
    between the lifecycles its lease or receipt names ([op_step]: a reservation
    takes a free seat, a cancellation frees the reserved or pending one, and so
    on; only an administrative quarantine that is already in place changes
    nothing), while every refused operation leaves the controller as it was. *)
Theorem admission_refines_seat_life seat x store ops op :
  let c0 := controller_new seat x in
  let w := run_admission ops (mkWorld c0 store) in
  let '(w', ok) := run_admission_op op w in
  rtc seat_step (view c0) (view (aw_controller w)) ∧
  admission_inv (aw_controller w') ∧
  if ok then op_step op (view (aw_controller w)) (view (aw_controller w'))
  else aw_controller w' = aw_controller w.
Proof.
  intros c0 w. pose proof (controller_new_inv seat x) as H0.
  assert (admission_inv (aw_controller w)) as Hi by by apply run_admission_inv.
  pose proof (run_admission_op_effect op w Hi) as (Hi' & _ & He).
  destruct (run_admission_op op w) as [w' ok]. split; [|by split].
  by apply (run_admission_path ops (mkWorld c0 store)).
Qed.

(** One login at a time: once a reservation has succeeded, no later
    reservation succeeds, for whatever lifecycle, until a cancellation or one
    of the three releases of the seat succeeds. *)
Theorem reservation_is_exclusive id rec vt w w1 lease ops id' rec' vt' :
  admission_inv (aw_controller w) →
  reserve id rec vt w = (w1, Ok lease) →
  never_freed ops w1 →
  (run_admission_op (OpReserve id' rec' vt') (run_admission ops w1)).2 = false.
Proof.
  intros Hi HR Hn. pose proof (reserve_effect id rec vt w Hi) as (Hi1 & _).
  rewrite HR in Hi1. apply reserve_Ok in HR as [_ Hv].
  pose proof (run_admission_taken ops w1 Hi1 Hn ltac:(by rewrite Hv)) as Ht.
  cbn. destruct (reserve id' rec' vt' _) as [w2 [l2|e]] eqn:HR2; [|done].
  by apply reserve_Ok in HR2 as [? _].
Qed.

(** Generations fence off stale capabilities: a lease or receipt of an
    earlier generation is refused by every operation once the seat has been
    taken again, and the refused operation touches neither the controller nor
    the pre-commit store, provided the 64-bit counter has not wrapped. *)
Theorem stale_lease_rejected w ops op g :
  admission_inv (aw_controller w) →
  token_generation op = Some g → g ≤ sc_generation (aw_controller w) →
  0 < admissions ops w →
  sc_generation (aw_controller w) + admissions ops w ≤ u64_max →
  let w' := run_admission ops w in run_admission_op op w' = (w', false).
Proof.
  intros Hi Hop Hg Ha Hb w'. eapply stale_token_refused; [done|].
  unfold w'. rewrite run_admission_generation by done. lia.
Qed.

Lemma remove_precommit_Ok b w w' :
  remove_precommit_runtime (Some b) w = (w', Ok ()) →
  ∃ s, aw_store w' = Some (Healthy s) ∧
    ps_records s !! pc_lifecycle_id (pcb_record b) = None ∧
    dir_files (ps_fs s) !! json_name (pc_lifecycle_id (pcb_record b)) = None.
Proof.
  unfold remove_precommit_runtime, with_store.
  destruct (aw_store w) as [[s|]|]; try done.
  unfold pc_remove. rewrite sr_bind_eq.
  destruct (ensure_current_authority b s) as [s1 [[]|e]]; [|done].
  destruct (remove_record_by_id _ s1) as [s2 [[]|e]] eqn:HR; [|done].
  apply remove_record_by_id_records in HR as (_ & _ & E1 & E2).
  intros [= <-]. exists s2. cbn. by rewrite E1, E2, !lookup_delete_eq.
Qed.

(** A login that is cancelled, or that starts its session, leaves no
    pre-commit record behind: when either operation succeeds with a lease that
    carries a binding, the record is gone from the store and its file from the
    directory, and the seat is free, or active for that lifecycle. *)
Theorem settled_login_leaves_no_precommit_record w :
  admission_inv (aw_controller w) →
  let settled b w' := ∃ s, aw_store w' = Some (Healthy s) ∧
    ps_records s !! pc_lifecycle_id (pcb_record b) = None ∧
    dir_files (ps_fs s) !! json_name (pc_lifecycle_id (pcb_record b)) = None in
  (∀ l b w', al_precommit l = Some b → cancel (RollbackReserved l) w = (w', Ok ()) →
     settled b w' ∧ view (aw_controller w') = VFree) ∧
  (∀ l b w', pl_precommit l = Some b → cancel (RollbackPending l) w = (w', Ok ()) →
     settled b w' ∧ view (aw_controller w') = VFree) ∧
  (∀ r b w' run, cr_precommit r = Some b →
     promote_committed_to_running r w = (w', Ok run) →
     settled b w' ∧ view (aw_controller w') = VActive (cr_lifecycle_id r)).
Proof.
  intros (H1 & _) settled.
  split_and!; [intros l b w' Hb; unfold cancel..
              |intros r b w' run Hb; unfold promote_committed_to_running];
    (destruct (negb _) eqn:Hm; [done|]); bool_facts; rewrite Hb, sr_bind_eq;
    pose proof (remove_precommit_controller (Some b) w) as E;
    (destruct (remove_precommit_runtime (Some b) w) as [w1 [[]|e]] eqn:HR; [|done]);
    cbn in E; apply remove_precommit_Ok in HR;
    unfold on_controller, sr_bind, sr_modify, sr_ret; intros; simplify_eq/=;
    (split; [done|]); unfold view; cbn; rewrite ?E; try done;
    [apply matches_reserved_true in Hm as (Hp & _)
    |apply matches_pending_true in Hm as (Hp & _)];
    rewrite H1 by (by rewrite Hp); done.
Qed.
