(* ===== verification/Conversation.v ===== *)
(** * The PAM conversation of a login

    [pam_conversation.rs] and [pam_wire.rs]: the authority over one
    conversation, and [launcher/pam_prompt.rs], the relay that hands a prompt
    of the worker to the greeter and its answer back to the worker.  Times are
    instants on one clock; every call that reads the clock takes its reading. *)

From stdpp Require Import base gmap sets list strings.
From Stdlib Require Import ZArith Lia.
From S2P Require Import Prelude DirFs RecoveryTypes LedgerTaxonomy Ledger.
From S2P Require Import PreviousBoot PreCommit SameBoot Admission Protocol.
#[local] Open Scope niralis_scope.

(** ** The authority *)

Inductive PamConversationError :=
| InvalidIdentity | PamInvalidSequence | InvalidPrompt | DuplicatePrompt
| PromptAlreadyPending | UnknownPrompt | IncompatibleResponse
| ConversationConsumed | DeadlineExpired.

Definition MAX_PROMPT_BYTES : Z := 4096.

Record PamConversationAuthority := mkAuthority {
  ca_transaction_id : string;
  ca_admission_attempt_id : Z;
  ca_lifecycle_id : string;
  ca_seat : string;
  ca_seat_generation : Z;
  ca_connection_id : string;
  ca_connection_epoch : Z;
  ca_request_id : Z;
  ca_worker_id : string;
  ca_conversation_id : string;
  ca_next_sequence : Z;
  ca_deadline : Z;
  ca_consumed : bool;
  ca_pending : option (Z * PamMessageStyle * Z);
}.

(** The three fields that change. *)
Definition ca_with (next : Z) (consumed : bool)
    (pending : option (Z * PamMessageStyle * Z)) (a : PamConversationAuthority)
    : PamConversationAuthority :=
  mkAuthority (ca_transaction_id a) (ca_admission_attempt_id a)
    (ca_lifecycle_id a) (ca_seat a) (ca_seat_generation a) (ca_connection_id a)
    (ca_connection_epoch a) (ca_request_id a) (ca_worker_id a)
    (ca_conversation_id a) next (ca_deadline a) consumed pending.
Definition ca_consume (a : PamConversationAuthority) : PamConversationAuthority :=
  ca_with (ca_next_sequence a) true (ca_pending a) a.

Definition issue (transaction_id : string) (admission_attempt_id : Z)
    (lifecycle_id seat : string) (seat_generation : Z) (connection_id : string)
    (connection_epoch request_id : Z) (worker_id conversation_id : string)
    (deadline : Z) : result PamConversationAuthority PamConversationError :=
  if str_is_empty transaction_id || (admission_attempt_id =? 0)
     || str_is_empty lifecycle_id || str_is_empty seat || (seat_generation =? 0)
     || str_is_empty connection_id || (connection_epoch =? 0)
     || (request_id =? 0) || str_is_empty worker_id
     || str_is_empty conversation_id
  then Err InvalidIdentity
  else Ok (mkAuthority transaction_id admission_attempt_id lifecycle_id seat
             seat_generation connection_id connection_epoch request_id worker_id
             conversation_id 1 deadline false None).

Record PamPrompt := mkPrompt {
  pt_id : Z;
  pt_sequence : Z;
  pt_style : PamMessageStyle;
  pt_message : string;
}.
Record PendingPamPrompt := mkPendingPrompt {
  pn_authority : PamConversationAuthority;
  pn_prompt : PamPrompt;
}.

(** A refused prompt gives the authority back. *)
Definition prompt (id sequence : Z) (style : PamMessageStyle) (message : string)
    (now : Z) (a : PamConversationAuthority)
    : result PendingPamPrompt (PamConversationError * PamConversationAuthority) :=
  if ca_consumed a then Err (ConversationConsumed, a)
  else if ca_deadline a <=? now then Err (DeadlineExpired, ca_consume a)
  else if (id =? 0) || negb (sequence =? ca_next_sequence a)
          || str_is_empty message || (MAX_PROMPT_BYTES <? str_len message)
          || str_contains_byte NUL message
  then Err (InvalidPrompt, a)
  else Ok (mkPendingPrompt
             (ca_with (u64_wrapping_add (ca_next_sequence a) 1) (ca_consumed a)
                (ca_pending a) a)
             (mkPrompt id sequence style message)).

Definition respond (transaction_id connection_id : string) (connection_epoch : Z)
    (worker_id : string) (prompt_id : Z) (style : PamMessageStyle)
    (response : PamPromptResponse) (p : PendingPamPrompt)
    : result (PamConversationAuthority * PamPromptResponse)
        (PamConversationError * PendingPamPrompt) :=
  let a := pn_authority p in
  if ca_consumed a then Err (ConversationConsumed, p)
  else if negb (prompt_id =? pt_id (pn_prompt p))
          || negb (bool_decide (style = pt_style (pn_prompt p)))
          || negb (str_eqb (ca_transaction_id a) transaction_id)
          || negb (str_eqb (ca_connection_id a) connection_id)
          || negb (ca_connection_epoch a =? connection_epoch)
          || negb (str_eqb (ca_worker_id a) worker_id)
  then Err (IncompatibleResponse, p)
  else if negb (compatible style response) then Err (IncompatibleResponse, p)
  else Ok (a, response).

Definition fail_conversation (a : PamConversationAuthority) : PamConversationAuthority :=
  ca_consume a.

Definition authenticated_conversation (now : Z) (a : PamConversationAuthority)
    : result PamConversationAuthority
        (PamConversationError * PamConversationAuthority) :=
  if ca_consumed a then Err (ConversationConsumed, a)
  else if ca_deadline a <=? now then Err (DeadlineExpired, ca_consume a)
  else Ok (ca_consume a).

Abbreviation CA := (SR PamConversationAuthority PamConversationError).

Definition accept_wire_prompt (now : Z) (p : PamPromptEnvelope) : CA () := λ a,
  if ca_consumed a || (ca_deadline a <=? now)
  then (ca_consume a, Err ConversationConsumed)
  else if negb (str_eqb (pp_conversation_id p) (ca_conversation_id a))
          || negb (str_eqb (pp_connection_id p) (ca_connection_id a))
          || negb (pp_connection_epoch p =? ca_connection_epoch a)
          || negb (pp_request_id p =? ca_request_id a)
          || negb (str_eqb (pp_seat p) (ca_seat a))
          || negb (str_eqb (pp_transaction_id p) (ca_transaction_id a))
          || negb (pp_sequence p =? ca_next_sequence a)
          || (pp_prompt_id p =? 0)
          || match ca_pending a with Some _ => true | None => false end
  then (a, Err PamInvalidSequence)
  else (ca_with (u64_wrapping_add (ca_next_sequence a) 1) (ca_consumed a)
          (Some (pp_prompt_id p, pp_style p, pp_sequence p)) a, Ok ()).

Definition accept_wire_response (now : Z) (r : PamPromptResponseEnvelope)
    : CA () := λ a,
  if ca_consumed a || (ca_deadline a <=? now)
  then (ca_consume a, Err ConversationConsumed)
  else match ca_pending a with
  | None => (a, Err UnknownPrompt)
  | Some (prompt_id, style, sequence) =>
      if negb (str_eqb (rp_conversation_id r) (ca_conversation_id a))
         || negb (str_eqb (rp_connection_id r) (ca_connection_id a))
         || negb (rp_connection_epoch r =? ca_connection_epoch a)
         || negb (rp_request_id r =? ca_request_id a)
         || negb (str_eqb (rp_seat r) (ca_seat a))
         || negb (str_eqb (rp_transaction_id r) (ca_transaction_id a))
         || negb (rp_prompt_id r =? prompt_id)
         || negb (bool_decide (rp_style r = style))
         || negb (rp_sequence r =? sequence)
      then (a, Err IncompatibleResponse)
      else (ca_with (ca_next_sequence a) (ca_consumed a) None a, Ok ())
  end.

(** ** The relay *)

Definition valid_transaction (i : WorkerTransactionIdentity) (worker_id : string)
    (generation attempt_id : Z) (stage : string) : bool :=
  str_eqb (wt_transaction_id i) worker_id
  && str_eqb (wt_lifecycle_id i) worker_id
  && (wt_admission_attempt_id i =? attempt_id)
  && str_eqb (wt_seat i) "seat0"
  && (wt_seat_generation i =? generation)
  && str_eqb (wt_stage i) stage.

(** The authority the launch holds, if any, and the responses that were written
    to the worker's control channel. *)
Record PamRelay := mkRelay {
  rl_authority : option PamConversationAuthority;
  rl_sent : list (ControlTransactionIdentity * PamPromptResponseEnvelope);
}.
Abbreviation PR := (SR PamRelay SessionError).

Definition with_authority {A} (m : CA A) : PR A := λ s,
  match rl_authority s with
  | None => (s, Err WorkerProtocolFailed)
  | Some a => let '(a, r) := m a in
              (mkRelay (Some a) (rl_sent s), map_err (λ _, WorkerProtocolFailed) r)
  end.

(** One prompt of the worker, with what the environment does about it: the
    answer of the transport, the two readings of the clock and the outcome of
    writing to the control channel. *)
Record PromptEvent := mkPromptEvent {
  pe_worker_id : string;
  pe_worker_pid : Z;
  pe_transaction : WorkerTransactionIdentity;
  pe_prompt : PamPromptEnvelope;
  pe_answer : option (result PamPromptResponseEnvelope SessionError);
  pe_now_prompt : Z;
  pe_now_response : Z;
  pe_written : result () SessionError;
}.

(** Does the response name everything the prompt named? *)
Definition echoes (r : PamPromptResponseEnvelope) (p : PamPromptEnvelope) : bool :=
  str_eqb (rp_connection_id r) (pp_connection_id p)
  && (rp_connection_epoch r =? pp_connection_epoch p)
  && str_eqb (rp_seat r) (pp_seat p)
  && (rp_request_id r =? pp_request_id p)
  && str_eqb (rp_transaction_id r) (pp_transaction_id p)
  && str_eqb (rp_conversation_id r) (pp_conversation_id p)
  && (rp_prompt_id r =? pp_prompt_id p)
  && (rp_sequence r =? pp_sequence p)
  && bool_decide (rp_style r = pp_style p).

Section Relay.
Context `{SerdeJson PamPromptResponse}.
Context (worker_id : string) (worker_pid generation attempt_id : Z).

(** [pe_answer] is [None] when the launch has no transport. *)
Definition forward_pam_prompt (e : PromptEvent) : PR () :=
  ensure str_eqb (pe_worker_id e) worker_id && (pe_worker_pid e =? worker_pid)
         && is_ok (prompt_validate_shape (pe_prompt e))
         && valid_transaction (pe_transaction e) worker_id generation attempt_id
              "reserved"
    else WorkerProtocolFailed ;;;
  let* answer := sr_lift (ok_or (pe_answer e) WorkerProtocolFailed) in
  with_authority (accept_wire_prompt (pe_now_prompt e) (pe_prompt e)) ;;;
  let* response := sr_lift answer in
  ensure echoes response (pe_prompt e) else WorkerProtocolFailed ;;;
  sr_lift (map_err (λ _, WorkerProtocolFailed) (response_validate_shape response)) ;;;
  with_authority (accept_wire_response (pe_now_response e) response) ;;;
  sr_modify (λ s, mkRelay (rl_authority s)
    (rl_sent s ++ [(from_worker (pe_transaction e) "pam_prompt_response"
                      (pp_sequence (pe_prompt e)), response)])) ;;;
  sr_lift (pe_written e).

(** Every prompt of a launch, in order. *)
Definition relay (events : list PromptEvent) (s : PamRelay) : PamRelay :=
  foldl (λ s e, (forward_pam_prompt e s).1) s events.
End Relay.

(** ** What the relay guarantees *)

(** Two states of one conversation: identity and deadline are the same. *)
Definition same_conversation (a a' : PamConversationAuthority) : Prop :=
  ca_with 0 false None a = ca_with 0 false None a'.
#[export] Instance same_conversation_equiv : Equivalence same_conversation.
Proof.
  split; [intros a; reflexivity|intros a b H; by symmetry
    |intros a b c H1 H2; unfold same_conversation in *; congruence].
Qed.
Lemma same_conversation_with n c p a : same_conversation a (ca_with n c p a).
Proof. reflexivity. Qed.

(** The response belongs to the conversation and to the worker's transaction. *)
Record answers (worker_id : string) (generation attempt_id : Z)
    (a : PamConversationAuthority)
    (x : ControlTransactionIdentity * PamPromptResponseEnvelope) : Prop := {
  ans_conversation : rp_conversation_id x.2 = ca_conversation_id a;
  ans_connection : rp_connection_id x.2 = ca_connection_id a;
  ans_epoch : rp_connection_epoch x.2 = ca_connection_epoch a;
  ans_request : rp_request_id x.2 = ca_request_id a;
  ans_seat : rp_seat x.2 = ca_seat a;
  ans_transaction : rp_transaction_id x.2 = ca_transaction_id a;
  ans_compatible : compatible (rp_style x.2) (rp_response x.2) = true;
  ans_control : ct_transaction_id x.1 = worker_id ∧ ct_lifecycle_id x.1 = worker_id
    ∧ ct_seat_generation x.1 = generation ∧ ct_admission_attempt_id x.1 = attempt_id
    ∧ ct_sequence x.1 = rp_sequence x.2;
}.

Lemma answers_same w g t a a' x :
  same_conversation a a' → answers w g t a' x → answers w g t a x.
Proof.
  intros Hs. injection Hs. intros.
  match goal with H : answers _ _ _ _ _ |- _ => destruct H end.
  constructor; congruence.
Qed.

Lemma accept_wire_prompt_cases now p a a' r :
  accept_wire_prompt now p a = (a', r) →
  r ≠ Ok () ∧ (a' = a ∨ a' = ca_consume a) ∨
  r = Ok () ∧ ca_pending a = None ∧ ca_consumed a = false ∧ now < ca_deadline a ∧
  pp_sequence p = ca_next_sequence a ∧
  a' = ca_with (u64_wrapping_add (ca_next_sequence a) 1) false
         (Some (pp_prompt_id p, pp_style p, pp_sequence p)) a.
Proof.
  unfold accept_wire_prompt. destruct (ca_consumed a || _) eqn:H1; [intros HE; simplify_eq; left; eauto|].
  apply orb_false_iff in H1 as [H1 H1'].
  match goal with |- context [if ?b then _ else _] => destruct b eqn:H2 end; intros HE; simplify_eq; [left; eauto|].
  right. bool_facts. destruct (ca_pending a) eqn:?; [done|].
  by split_and!; [..|f_equal].
Qed.

Lemma accept_wire_response_cases now r a a' res :
  accept_wire_response now r a = (a', res) →
  res ≠ Ok () ∧ (a' = a ∨ a' = ca_consume a) ∨
  res = Ok () ∧ ca_consumed a = false ∧ now < ca_deadline a ∧
  ca_pending a = Some (rp_prompt_id r, rp_style r, rp_sequence r) ∧
  rp_conversation_id r = ca_conversation_id a ∧
  rp_connection_id r = ca_connection_id a ∧
  rp_connection_epoch r = ca_connection_epoch a ∧
  rp_request_id r = ca_request_id a ∧ rp_seat r = ca_seat a ∧
  rp_transaction_id r = ca_transaction_id a ∧
  a' = ca_with (ca_next_sequence a) false None a.
Proof.
  unfold accept_wire_response.
  destruct (ca_consumed a || _) eqn:H1; [intros HE; simplify_eq; left; eauto|].
  destruct (ca_pending a) as [[[id style] n]|]; [|intros HE; simplify_eq; left; eauto].
  apply orb_false_iff in H1 as [H1 H1'].
  match goal with |- context [if ?b then _ else _] => destruct b eqn:H2 end; intros HE; simplify_eq; [left; eauto|].
  right. bool_facts. subst. by split_and!; [..|f_equal].
Qed.

Lemma response_shape_compatible `{SerdeJson PamPromptResponse} r :
  response_validate_shape r = Ok () → compatible (rp_style r) (rp_response r) = true.
Proof.
  unfold response_validate_shape. intros HC. split_cases HC; done.
Qed.

Lemma with_authority_None {A} (m : CA A) s :
  rl_authority s = None → with_authority m s = (s, Err WorkerProtocolFailed).
Proof. unfold with_authority. by intros ->. Qed.
Lemma with_authority_Some {A} (m : CA A) s a a' r :
  rl_authority s = Some a → m a = (a', r) →
  with_authority m s =
    (mkRelay (Some a') (rl_sent s), map_err (λ _, WorkerProtocolFailed) r).
Proof. unfold with_authority. by intros -> ->. Qed.

Section RelayClaims.
Context `{SerdeJson PamPromptResponse}.
Context (worker_id : string) (worker_pid generation attempt_id : Z).

(** The numbers sent so far are [1..n]; the conversation is idle at [n + 1], or
    it waits for an answer. *)
Record relay_inv (a0 : PamConversationAuthority) (s : PamRelay) : Prop := {
  ri_authority : ∃ a, rl_authority s = Some a ∧ same_conversation a0 a ∧
    (ca_pending a = None → ca_next_sequence a = Z.of_nat (length (rl_sent s)) + 1);
  ri_sequence : (λ x, rp_sequence x.2) <$> rl_sent s
                  = seqZ 1 (Z.of_nat (length (rl_sent s)));
  ri_answers : Forall (answers worker_id generation attempt_id a0) (rl_sent s);
}.

Lemma relay_inv_authority a0 s a a' :
  relay_inv a0 s → rl_authority s = Some a → same_conversation a a' →
  (ca_pending a' = None → ca_next_sequence a' = Z.of_nat (length (rl_sent s)) + 1) →
  relay_inv a0 (mkRelay (Some a') (rl_sent s)).
Proof.
  intros [(b & Hb & Hs & _) ??] Ha Hs' Hn. rewrite Ha in Hb. injection Hb as <-.
  constructor; [|done..]. exists a'. split; [done|]. split; [|done]. by etrans.
Qed.

Lemma relay_inv_refused a0 s a a' :
  relay_inv a0 s → rl_authority s = Some a → a' = a ∨ a' = ca_consume a →
  relay_inv a0 (mkRelay (Some a') (rl_sent s)).
Proof.
  intros HI Ha Hc. eapply relay_inv_authority; [done..| |].
  - destruct Hc as [-> | ->]; [done|]. apply same_conversation_with.
  - destruct HI as [(b & Hb & _ & Hn) _ _]. rewrite Ha in Hb. injection Hb as <-.
    destruct Hc as [-> | ->]; exact Hn.
Qed.

(** A response that was accepted extends the log by the next number. *)
Lemma relay_inv_sent a0 a s c r :
  relay_inv a0 s → same_conversation a0 a →
  ca_next_sequence a = Z.of_nat (length (rl_sent s)) + 2 →
  rp_sequence r = Z.of_nat (length (rl_sent s)) + 1 →
  answers worker_id generation attempt_id a (c, r) →
  relay_inv a0 (mkRelay (Some a) (rl_sent s ++ [(c, r)])).
Proof.
  intros [_ Hq HA] Hs Hn Hr HR.
  constructor; cbn [rl_sent rl_authority]; rewrite ?length_app, ?fmap_app.
  - exists a. split; [done|]. split; [done|]. cbn. lia.
  - rewrite Hq. cbn [length fmap list_fmap snd].
    rewrite Nat2Z.inj_add, seqZ_app, Hr by lia. f_equal. change (seqZ ?m (Z.of_nat 1)) with [Z.of_nat 0 + m]. f_equal. lia.
  - apply Forall_app. split; [done|]. apply Forall_singleton.
    by eapply answers_same.
Qed.

Lemma valid_transaction_true i stage :
  valid_transaction i worker_id generation attempt_id stage = true →
  wt_transaction_id i = worker_id ∧ wt_lifecycle_id i = worker_id ∧
  wt_admission_attempt_id i = attempt_id ∧ wt_seat_generation i = generation.
Proof. unfold valid_transaction. intros. by bool_facts. Qed.

Lemma forward_pam_prompt_inv a0 e s s' r' :
  relay_inv a0 s → Z.of_nat (length (rl_sent s)) + 2 ≤ u64_max →
  forward_pam_prompt worker_id worker_pid generation attempt_id e s = (s', r') →
  relay_inv a0 s' ∧ (length (rl_sent s') ≤ S (length (rl_sent s)))%nat.
Proof.
  intros HI Hb. pose proof HI as [(a & Ha & Hsame & Hnext) _ _].
  unfold forward_pam_prompt. rewrite sr_bind_eq.
  destruct (_ && valid_transaction _ _ _ _ _) eqn:Hg; [cbn|by intros [= <- _]; auto].
  destruct (pe_answer e) as [answer|]; [cbn|by intros [= <- _]; auto].
  rewrite sr_bind_eq.
  destruct (accept_wire_prompt (pe_now_prompt e) (pe_prompt e) a) as [a1 r1] eqn:H1.
  rewrite (with_authority_Some _ _ _ _ _ Ha H1).
  apply accept_wire_prompt_cases in H1 as
    [[Hr Hc]|(-> & Hp & _ & _ & Hseq & ->)].
  { destruct r1 as [[]|]; [done|]. intros [= <- _].
    split; [by eapply relay_inv_refused|cbn; lia]. }
  specialize (Hnext Hp). cbn.
  set (a1 := ca_with _ _ _ a). set (s1 := mkRelay (Some a1) (rl_sent s)).
  assert (relay_inv a0 s1 ∧ (length (rl_sent s1) ≤ S (length (rl_sent s)))%nat) as HI1
    by (split; [eapply relay_inv_authority; done|cbn; lia]).
  destruct answer as [r|]; [cbn|by intros [= <- _]].
  destruct (echoes r (pe_prompt e)) eqn:He; [cbn|by intros [= <- _]].
  destruct (response_validate_shape r) as [[]|] eqn:Hsh; [cbn|by intros [= <- _]].
  rewrite sr_bind_eq.
  destruct (accept_wire_response (pe_now_response e) r a1) as [a2 r2] eqn:H2.
  rewrite (with_authority_Some _ s1 _ _ _ eq_refl H2).
  apply accept_wire_response_cases in H2 as
    [[Hr Hc]|(-> & _ & _ & Hp2 & ?&?&?&?&?&?& ->)].
  { destruct r2 as [[]|]; [done|]. intros [= <- _].
    split; [by eapply (relay_inv_refused a0 s1); [apply HI1|..]|cbn; lia]. }
  injection Hp2 as Hp1 Hp2 Hp3. apply andb_true_iff in Hg as [_ Hv].
  apply valid_transaction_true in Hv. apply response_shape_compatible in Hsh.
  cbn. intros [= <- _]. split; [|cbn; rewrite length_app; cbn; lia].
  apply relay_inv_sent; cbn; [exact HI| |rewrite u64_wrapping_add_small; lia|lia|].
  - exact Hsame.
  - constructor; cbn; try done. destruct Hv as (?&?&?&?). by split_and!.
Qed.

Lemma relay_inv_run a0 events s :
  relay_inv a0 s →
  Z.of_nat (length (rl_sent s) + length events) + 1 ≤ u64_max →
  relay_inv a0 (relay worker_id worker_pid generation attempt_id events s) ∧
  (length (rl_sent (relay worker_id worker_pid generation attempt_id events s))
     ≤ length (rl_sent s) + length events)%nat.
Proof.
  revert s. induction events as [|e events IH]; intros s HI Hb; cbn in *; [split; [done|lia]|].
  destruct (forward_pam_prompt _ _ _ _ e s) as [s1 r1] eqn:HE.
  apply (forward_pam_prompt_inv a0) in HE as [HI1 Hl]; [|done|lia].
  destruct (IH s1 HI1) as [HI2 Hl2]; [lia|]. split; [exact HI2|].
  cbn. unfold relay in Hl2. lia.
Qed.

(** The PAM relay of a login is lock-step: whatever the worker sends and the
    greeter answers, the responses written to the worker are numbered
    consecutively from one, each carries the identity of this conversation,
    answers in the style it was asked in and is bound to the transaction of
    this worker, and the identity and deadline of the conversation never
    change. *)
Theorem pam_relay_lockstep tid attempt lid seat gen conn epoch req wid cid deadline
    a0 events s :
  issue tid attempt lid seat gen conn epoch req wid cid deadline = Ok a0 →
  Z.of_nat (length events) < u64_max →
  relay worker_id worker_pid generation attempt_id events (mkRelay (Some a0) []) = s →
  ∃ a, rl_authority s = Some a ∧ same_conversation a0 a ∧
    (λ x, rp_sequence x.2) <$> rl_sent s = seqZ 1 (Z.of_nat (length (rl_sent s))) ∧
    Forall (answers worker_id generation attempt_id a0) (rl_sent s) ∧
    (length (rl_sent s) ≤ length events)%nat.
Proof.
  intros HI Hn <-.
  assert (relay_inv a0 (mkRelay (Some a0) [])) as H0.
  { unfold issue in HI. destruct (_ || _) in HI; [done|]. injection HI as <-.
    constructor; [|done..]. by eexists. }
  destruct (relay_inv_run a0 events _ H0) as [[(a & Ha & Hs & _) Hq HA] Hl];
    [cbn; lia|].
  by exists a.
Qed.

(** The prompt names the conversation. *)
Definition names_conversation (a : PamConversationAuthority) (p : PamPromptEnvelope)
    : Prop :=
  pp_conversation_id p = ca_conversation_id a ∧
  pp_connection_id p = ca_connection_id a ∧
  pp_connection_epoch p = ca_connection_epoch a ∧
  pp_request_id p = ca_request_id a ∧ pp_seat p = ca_seat a ∧
  pp_transaction_id p = ca_transaction_id a.

Lemma accept_wire_prompt_next now p a :
  ca_consumed a = false → ca_pending a = None → now < ca_deadline a →
  names_conversation a p → pp_sequence p = ca_next_sequence a →
  prompt_validate_shape p = Ok () →
  accept_wire_prompt now p a =
    (ca_with (u64_wrapping_add (ca_next_sequence a) 1) false
       (Some (pp_prompt_id p, pp_style p, pp_sequence p)) a, Ok ()).
Proof.
  intros Hc Hp Hd (H1 & H2 & H3 & H4 & H5 & H6) H7 Hs. unfold accept_wire_prompt.
  rewrite Hc, Hp, H1, H2, H3, H4, H5, H6, H7, !str_eqb_refl, !Z.eqb_refl. cbn.
  destruct (Z.leb_spec (ca_deadline a) now); [lia|].
  unfold prompt_validate_shape in Hs. destruct (_ || _) eqn:Hb in Hs; [done|].
  destruct (pp_prompt_id p =? 0) eqn:Hz; [bool_facts; congruence|done].
Qed.

Lemma accept_wire_response_echo now r p a :
  ca_consumed a = false → now < ca_deadline a → names_conversation a p →
  ca_pending a = Some (pp_prompt_id p, pp_style p, pp_sequence p) →
  echoes r p = true →
  accept_wire_response now r a = (ca_with (ca_next_sequence a) false None a, Ok ()).
Proof.
  intros Hc Hd (H1 & H2 & H3 & H4 & H5 & H6) Hp He.
  unfold echoes in He. bool_facts. unfold accept_wire_response.
  rewrite Hc, Hp. destruct (Z.leb_spec (ca_deadline a) now); [lia|]. cbn.
  match goal with |- (if ?b then _ else _) = _ => destruct b eqn:Hb end; [|done].
  exfalso. apply Is_true_true in Hb.
  rewrite !orb_True, !Is_true_true, !negb_true_iff in Hb.
  rewrite !str_eqb_false, !Z.eqb_neq, bool_decide_eq_false in Hb.
  destruct_or!; congruence.
Qed.

(** A live conversation delivers: when the worker asks the next question in
    time, the greeter's answer names the question and is well formed, and it
    arrives in time, the answer is written to the worker and the conversation
    is idle again, one number further. *)
Theorem pam_prompt_delivered e r a s :
  rl_authority s = Some a → ca_consumed a = false → ca_pending a = None →
  pe_now_prompt e < ca_deadline a → pe_now_response e < ca_deadline a →
  pe_worker_id e = worker_id → pe_worker_pid e = worker_pid →
  valid_transaction (pe_transaction e) worker_id generation attempt_id "reserved" = true →
  prompt_validate_shape (pe_prompt e) = Ok () →
  names_conversation a (pe_prompt e) → pp_sequence (pe_prompt e) = ca_next_sequence a →
  pe_answer e = Some (Ok r) → echoes r (pe_prompt e) = true →
  response_validate_shape r = Ok () →
  forward_pam_prompt worker_id worker_pid generation attempt_id e s =
    (mkRelay
       (Some (ca_with (u64_wrapping_add (ca_next_sequence a) 1) false None a))
       (rl_sent s ++ [(from_worker (pe_transaction e) "pam_prompt_response"
                         (ca_next_sequence a), r)]), pe_written e).
Proof.
  intros Ha Hc Hp Hd1 Hd2 Hw Hpid Hv Hsh Hask Hseq Hans He Hr.
  unfold forward_pam_prompt. rewrite sr_bind_eq, Hw, Hpid, Hsh, Hv, str_eqb_refl, Z.eqb_refl.
  cbn. rewrite Hans. cbn. rewrite sr_bind_eq.
  rewrite (with_authority_Some _ _ _ _ _ Ha (accept_wire_prompt_next _ _ _ Hc Hp Hd1 Hask Hseq Hsh)).
  cbn. rewrite He. cbn. rewrite Hr. cbn. rewrite sr_bind_eq.
  erewrite (with_authority_Some _ (mkRelay (Some (ca_with _ _ _ a)) (rl_sent s)));
    [|reflexivity|by apply (accept_wire_response_echo _ _ (pe_prompt e))].
  cbn. rewrite Hseq. reflexivity.
Qed.
End RelayClaims.
