(* ===== verification/Login.v ===== *)
(** * The login transaction

    [launcher/login_transaction.rs]: the transaction that owns the admission
    lease of a login from its reservation to the commit of the launch, and the
    supervisor's [reserve_seat] ([supervisor_loop/pending.rs]).  The typed
    stages of the source are moves of one value; each stage that touches the
    pre-commit record returns the world next to its result. *)

From stdpp Require Import base gmap sets list strings.
From Stdlib Require Import ZArith Lia.
From S2P Require Import Prelude DirFs RecoveryTypes LedgerTaxonomy Ledger.
From S2P Require Import PreviousBoot PreCommit SameBoot Admission Protocol.
From S2P Require Import Conversation.
#[local] Open Scope niralis_scope.

(** ** Data *)

Record GreeterConnectionIdentity := mkGreeter {
  gc_worker_id : string;
  gc_connection_id : option string;
  gc_connection_epoch : option Z;
  gc_request_id : option Z;
  gc_seat : option string;
}.

Inductive TransactionPhase := TxReserved | TxAuthenticated | TxPrepared | TxCommitted.

Record LoginTransaction := mkLoginTransaction {
  lt_id : string;
  lt_greeter : GreeterConnectionIdentity;
  lt_lifecycle_id : string;
  lt_seat : string;
  lt_seat_generation : Z;
  lt_attempt_id : Z;
  lt_session_selection_id : string;
  lt_deadline : Z;
  lt_lease : option AdmissionLease;
  lt_phase : TransactionPhase;
}.

Record ValidatedWorkerChannel := mkChannel {
  vc_worker_id : string;
  vc_worker_pid : Z;
}.

Record TransactionOwnedLoginBackend := mkBackend {
  ob_transaction : LoginTransaction;
  ob_channel : ValidatedWorkerChannel;
  ob_expected_stage : string;
  ob_expected_sequence : Z;
  ob_conversation : option PamConversationAuthority;
}.

Record PendingLaunchTransaction := mkPendingLaunch {
  pd_transaction : LoginTransaction;
  pd_pending_lease : option PendingLifecycleLease;
  pd_conversation : option PamConversationAuthority;
}.

Definition lt_with (lease : option AdmissionLease) (phase : TransactionPhase)
    (t : LoginTransaction) : LoginTransaction :=
  mkLoginTransaction (lt_id t) (lt_greeter t) (lt_lifecycle_id t) (lt_seat t)
    (lt_seat_generation t) (lt_attempt_id t) (lt_session_selection_id t)
    (lt_deadline t) lease phase.
Definition ob_with (t : LoginTransaction) (stage : string) (sequence : Z)
    (b : TransactionOwnedLoginBackend) : TransactionOwnedLoginBackend :=
  mkBackend t (ob_channel b) stage sequence (ob_conversation b).

(** ** From the reservation to the backend *)

Definition greeter_private (value : string) : GreeterConnectionIdentity :=
  mkGreeter value None None None None.
Definition from_binding (b : LoginRequestBinding) (worker_id : string)
    : GreeterConnectionIdentity :=
  mkGreeter worker_id (Some (lb_connection_id b)) (Some (lb_connection_epoch b))
    (Some (lb_request_id b)) (Some (lb_seat b)).

Definition from_admission (lease : AdmissionLease)
    (greeter : GreeterConnectionIdentity) (session_selection_id : string)
    (deadline : Z) : LoginTransaction :=
  mkLoginTransaction (al_lifecycle_id lease) greeter (al_lifecycle_id lease)
    (al_seat lease) (al_generation lease) (al_attempt_id lease)
    session_selection_id deadline (Some lease) TxReserved.

Definition validate_expected (greeter session : string) (t : LoginTransaction)
    : bool :=
  str_eqb (gc_worker_id (lt_greeter t)) greeter
  && str_eqb (lt_session_selection_id t) session
  && negb (str_is_empty (lt_lifecycle_id t)) && negb (str_is_empty (lt_seat t))
  && (0 <? lt_seat_generation t) && (0 <? lt_attempt_id t)
  && str_eqb (lt_id t) (lt_lifecycle_id t).

Definition take_lease (t : LoginTransaction)
    : LoginTransaction * result AdmissionLease SessionError :=
  (lt_with None (lt_phase t) t, ok_or (lt_lease t) WorkerProtocolFailed).

Section Transaction.
Context `{SerdeJson PreCommitRuntimeRecord}.
Context (host : Z → ProcHost).

(** [lease.update_precommit_runtime(..)] on the lease of the transaction, if it
    still has one. *)
Definition update_lease (stage : string) (worker_id : option string)
    (worker_pid : option Z) (t : LoginTransaction) (w : AdmissionWorld)
    : AdmissionWorld * LoginTransaction * result () SessionError :=
  match lt_lease t with
  | None => (w, t, Ok ())
  | Some lease =>
      let '(w, lease, r) :=
        update_precommit_runtime host stage worker_id worker_pid lease w in
      (w, lt_with (Some lease) (lt_phase t) t, r)
  end.

Definition issue_conversation (channel : ValidatedWorkerChannel)
    (t : LoginTransaction) : option PamConversationAuthority :=
  match gc_connection_id (lt_greeter t), gc_request_id (lt_greeter t) with
  | Some connection_id, Some request_id =>
      match issue (lt_lifecycle_id t) (lt_attempt_id t) (lt_lifecycle_id t)
              (lt_seat t) (lt_seat_generation t) connection_id
              (match gc_connection_epoch (lt_greeter t) with
               | Some e => e | None => 0 end)
              request_id (vc_worker_id channel)
              ("pam-" +:+ lt_lifecycle_id t) (lt_deadline t) with
      | Ok a => Some a
      | Err _ => None
      end
  | _, _ => None
  end.

Definition attach_backend (channel : ValidatedWorkerChannel) (t : LoginTransaction)
    : SR AdmissionWorld (SessionError * LoginTransaction)
        TransactionOwnedLoginBackend := λ w,
  if negb (match lt_phase t with TxReserved => true | _ => false end)
     || (vc_worker_pid channel =? 0)
     || negb (str_eqb (vc_worker_id channel) (lt_lifecycle_id t))
  then (w, Err (WorkerProtocolFailed, t))
  else
    match update_lease "worker_attached" (Some (vc_worker_id channel))
            (Some (vc_worker_pid channel)) t w with
    | (w, t, Err e) => (w, Err (e, t))
    | (w, t, Ok _) =>
        (w, Ok (mkBackend t channel "reserved" 0 (issue_conversation channel t)))
    end.

(** An [AuthenticationPermit] is a backend. *)
Definition authentication (now : Z) (b : TransactionOwnedLoginBackend)
    : SR AdmissionWorld (SessionError * TransactionOwnedLoginBackend)
        TransactionOwnedLoginBackend := λ w,
  let t := ob_transaction b in
  if (lt_deadline t <=? now)
     || negb (str_eqb (ob_expected_stage b) "reserved")
     || negb (ob_expected_sequence b =? 0)
     || negb (str_eqb (vc_worker_id (ob_channel b)) (lt_lifecycle_id t))
     || (bool_decide (is_Some (gc_connection_id (lt_greeter t)))
         && match ob_conversation b with None => true | Some _ => false end)
  then (w, Err (WorkerTimedOut, b))
  else
    match update_lease "authentication_inflight" None None t w with
    | (w, t, Err e) =>
        (w, Err (e, ob_with t (ob_expected_stage b) (ob_expected_sequence b) b))
    | (w, t, Ok _) =>
        (w, Ok (ob_with t (ob_expected_stage b) (ob_expected_sequence b) b))
    end.

(** The two stages that ignore the outcome of the update. *)
Definition authenticated (b : TransactionOwnedLoginBackend) (w : AdmissionWorld)
    : AdmissionWorld * TransactionOwnedLoginBackend :=
  let '(w, t, _) := update_lease "authenticated" None None (ob_transaction b) w in
  (w, ob_with (lt_with (lt_lease t) TxAuthenticated t) "authenticated" 1 b).

Definition prepare (b : TransactionOwnedLoginBackend) (w : AdmissionWorld)
    : AdmissionWorld * TransactionOwnedLoginBackend :=
  let '(w, t, _) := update_lease "preparing_launch" None None (ob_transaction b) w in
  (w, ob_with (lt_with (lt_lease t) TxPrepared t) "prepared" 2 b).

(** ** The prepared launch *)

Definition permit_validate_expected (greeter session : string)
    (b : TransactionOwnedLoginBackend) : bool :=
  validate_expected greeter session (ob_transaction b)
  && str_eqb (ob_expected_stage b) "prepared" && (ob_expected_sequence b =? 2)
  && str_eqb (vc_worker_id (ob_channel b)) (lt_lifecycle_id (ob_transaction b)).

Definition take_admission_lease (b : TransactionOwnedLoginBackend)
    : result (TransactionOwnedLoginBackend * AdmissionLease) SessionError :=
  match take_lease (ob_transaction b) with
  | (t, Ok lease) =>
      Ok (ob_with t (ob_expected_stage b) (ob_expected_sequence b) b, lease)
  | (_, Err e) => Err e
  end.

Definition pending (lease : PendingLifecycleLease) (b : TransactionOwnedLoginBackend)
    : PendingLaunchTransaction :=
  mkPendingLaunch (lt_with (lt_lease (ob_transaction b)) TxPrepared (ob_transaction b))
    (Some lease) (ob_conversation b).

Definition consume_failed_conversation (p : PendingLaunchTransaction)
    : PendingLaunchTransaction :=
  mkPendingLaunch (pd_transaction p) (pd_pending_lease p) None.

Definition consume_authenticated_conversation (now : Z) (p : PendingLaunchTransaction)
    : PendingLaunchTransaction * result () SessionError :=
  (mkPendingLaunch (pd_transaction p) (pd_pending_lease p) None,
   match pd_conversation p with
   | None => Ok ()
   | Some c =>
       match authenticated_conversation now c with
       | Ok _ => Ok ()
       | Err _ => Err WorkerProtocolFailed
       end
   end).

Definition pending_lease (p : PendingLaunchTransaction)
    : PendingLaunchTransaction * result PendingLifecycleLease SessionError :=
  (mkPendingLaunch (pd_transaction p) None (pd_conversation p),
   ok_or (pd_pending_lease p) WorkerProtocolFailed).

(** [commit] takes the transaction: on an error nothing of it is left. *)
Definition commit_transaction (p : PendingLaunchTransaction)
    (recovery : RecoveryAdmissionState) : AW LaunchCommitReceipt := λ w,
  match lt_phase (pd_transaction p), pd_pending_lease p with
  | TxPrepared, Some lease =>
      match commit_launch lease recovery w with
      | (w, Err (error, lease)) =>
          ((cancel (RollbackPending lease) w).1, Err error)
      | (w, Ok receipt) =>
          match mark_precommit_handoff_committed receipt w with
          | (w, _, Err e) => (w, Err e)
          | (w, receipt, Ok _) => (w, Ok receipt)
          end
      end
  | _, _ => (w, Err WorkerProtocolFailed)
  end.

(** ** The supervisor *)

Context (boot : result string IoError).

(** The supervisor's pre-commit store is the process-wide one. *)
Definition reserve_seat (lifecycle_id : string)
    (capture_previous_vt : result PreviousVtIdentity SupervisorRecoveryError)
    (ledger : option (Shared PersistentRecoveryLedger)) : AW AdmissionLease := λ w,
  if negb (is_free (aw_controller w)) then (w, Err SessionSeatUnavailable)
  else match capture_previous_vt with
  | Err _ => (w, Err WorkerIoFailed)
  | Ok previous_vt =>
      let recovery := recovery_admission_state ledger (aw_store w) "seat0" in
      (let* lease := reserve lifecycle_id recovery previous_vt in
       λ w, match aw_store w with
            | None => (w, Ok lease)
            | Some _ =>
                (let* b := with_store
                   (create_reserved boot lifecycle_id (al_attempt_id lease)
                      (al_seat lease) (al_generation lease)) in
                 sr_lift (attach_precommit_runtime b lease)) w
            end) w
  end.
End Transaction.

(** ** A token that is lost *)

(** A login is reserved or committed at generation [g]. *)
Definition held_at (g : Z) (c : SeatAdmissionController) : Prop :=
  match sc_phase c with
  | PhaseReserved _ _ g' | PhaseCommitted _ _ g' => g' = g
  | _ => False
  end.

Lemma held_refuses op w g :
  admission_inv (aw_controller w) → held_at g (aw_controller w) →
  token_generation op ≠ Some g → run_admission_op op w = (w, false).
Proof.
  intros (Hl & Hg & _) Hh Hop.
  assert (sc_lifecycle (aw_controller w) = SeatFree) as Hf.
  { apply Hl. unfold held_at in Hh. by destruct (sc_phase _). }
  assert (g = sc_generation (aw_controller w)) as ->.
  { unfold held_at in Hh. destruct (sc_phase _) eqn:Hp; try done; subst;
      apply Hg; cbn; congruence. }
  assert (phase_is_free (aw_controller w) = false ∧
          ∀ i, pending_is i (aw_controller w) = false) as [Hp Hi].
  { unfold held_at in Hh. unfold phase_is_free, pending_is. by destruct (sc_phase _). }
  destruct (token_generation op) as [g'|] eqn:Ht.
  { eapply stale_token_refused; [done|congruence]. }
  destruct op; try done; cbn.
  - unfold reserve. rewrite Hp. cbn. rewrite orb_true_r. done.
  - unfold quarantine_pending_lifecycle. by rewrite Hi.
  - unfold enter_quarantine_for_admin, quarantined_is. rewrite Hf, Hp.
    cbn. rewrite orb_true_r. by case_match.
  - unfold pending_recovery. by rewrite Hi.
  - by destruct l.
Qed.

Lemma held_stays ops w g :
  admission_inv (aw_controller w) → held_at g (aw_controller w) →
  Forall (λ op, token_generation op ≠ Some g) ops → run_admission ops w = w.
Proof.
  intros Hi Hh. induction 1 as [|op ops Hop _ IH]; [done|]. cbn.
  rewrite (held_refuses op w g) by done. apply IH.
Qed.

(** ** Moves of the lease *)

(** The lease without its binding: what the controller compares. *)
Definition strip (l : AdmissionLease) : AdmissionLease :=
  mkLease (al_seat l) (al_attempt_id l) (al_lifecycle_id l) (al_generation l)
    (al_previous_vt l) None.

Lemma matches_reserved_strip l l' c :
  strip l = strip l' → matches_reserved l c = matches_reserved l' c.
Proof. unfold strip, matches_reserved. intros [= -> -> -> -> _]. done. Qed.

Section LoginClaims.
Context `{SerdeJson PreCommitRuntimeRecord}.
Context (host : Z → ProcHost).

Lemma update_lease_spec stage wid pid t w w' t' r :
  update_lease host stage wid pid t w = (w', t', r) →
  aw_controller w' = aw_controller w ∧
  t' = lt_with (lt_lease t') (lt_phase t) t ∧
  strip <$> lt_lease t' = strip <$> lt_lease t.
Proof.
  unfold update_lease. destruct t as [? ? ? ? ? ? ? ? [l|] ?]; cbn;
    [|by intros [= <- <- <-]].
  unfold update_precommit_runtime. destruct (al_precommit l) as [b|];
    [|by intros [= <- <- <-]].
  pose proof (with_store_controller (update_stage host b stage wid pid) w) as E.
  destruct (with_store _ w) as [w1 [b'|e]]; intros [= <- <- <-]; by split.
Qed.

(** A backend that still is about the transaction of [lease]. *)
Record carries (lease : AdmissionLease) (channel : ValidatedWorkerChannel)
    (greeter : GreeterConnectionIdentity) (selection : string) (deadline : Z)
    (b : TransactionOwnedLoginBackend) : Prop := {
  cy_lease : strip <$> lt_lease (ob_transaction b) = Some (strip lease);
  cy_transaction : ob_transaction b =
    lt_with (lt_lease (ob_transaction b)) (lt_phase (ob_transaction b))
      (from_admission lease greeter selection deadline);
  cy_channel : ob_channel b = channel;
}.

Lemma carries_update lease channel greeter sel dl b stage wid pid w w' t r ph st n :
  carries lease channel greeter sel dl b →
  update_lease host stage wid pid (ob_transaction b) w = (w', t, r) →
  aw_controller w' = aw_controller w ∧
  carries lease channel greeter sel dl (ob_with (lt_with (lt_lease t) ph t) st n b).
Proof.
  intros [Hl Ht Hc] HU. apply update_lease_spec in HU as (E & Et & Es).
  split; [done|]. constructor; cbn; [by rewrite Es| |done].
  rewrite Et, Ht. reflexivity.
Qed.

Lemma mark_precommit_spec r w w' r' res :
  mark_precommit_handoff_committed r w = (w', r', res) →
  aw_controller w' = aw_controller w ∧ cr_lifecycle_id r' = cr_lifecycle_id r ∧
  cr_generation r' = cr_generation r ∧ cr_attempt_id r' = cr_attempt_id r.
Proof.
  unfold mark_precommit_handoff_committed.
  destruct (cr_precommit r) as [b|]; [|by intros [= <- <- <-]].
  pose proof (with_store_controller (mark_handoff_committed b) w) as E.
  destruct (with_store _ w) as [w1 [b'|e]]; by intros [= <- <- <-].
Qed.

Lemma commit_launch_Ok lease recovery w w' r :
  commit_launch lease recovery w = (w', Ok r) →
  matches_pending lease (aw_controller w) = true ∧
  aw_controller w' = set_phase (PhaseCommitted (pl_attempt_id lease)
    (pl_lifecycle_id lease) (pl_generation lease)) (aw_controller w) ∧
  cr_lifecycle_id r = pl_lifecycle_id lease ∧
  cr_generation r = pl_generation lease ∧ cr_attempt_id r = pl_attempt_id lease.
Proof.
  unfold commit_launch. destruct (_ || _) eqn:Hg; [done|]. bool_facts.
  cbn. by intros [= <- <-].
Qed.

(** What a commit does to the seat. *)
Lemma commit_transaction_cases p recovery w w' res :
  commit_transaction p recovery w = (w', res) →
  aw_controller w' = aw_controller w ∧ (∃ e, res = Err e) ∨
  (∃ lease e, pd_pending_lease p = Some lease ∧ res = Err e ∧
     (is_clear recovery = false ∨ matches_pending lease (aw_controller w) = false) ∧
     w' = (cancel (RollbackPending lease) w).1) ∨
  (∃ lease, pd_pending_lease p = Some lease ∧ is_clear recovery = true ∧
     matches_pending lease (aw_controller w) = true ∧
     aw_controller w' = set_phase (PhaseCommitted (pl_attempt_id lease)
       (pl_lifecycle_id lease) (pl_generation lease)) (aw_controller w) ∧
     ∀ r, res = Ok r → cr_lifecycle_id r = pl_lifecycle_id lease ∧
       cr_generation r = pl_generation lease ∧ cr_attempt_id r = pl_attempt_id lease).
Proof.
  unfold commit_transaction.
  destruct (lt_phase _), (pd_pending_lease p) as [lease|];
    try (intros [= <- <-]; left; by eauto).
  destruct (commit_launch lease recovery w) as [w1 [r|[e l]]] eqn:HC.
  - pose proof HC as HC'.
    unfold commit_launch in HC'. destruct (_ || _) eqn:Hg in HC'; [done|].
    apply orb_false_iff in Hg as [Hc%negb_false_iff _].
    apply commit_launch_Ok in HC as (Hm & E & H1 & H2 & H3).
    destruct (mark_precommit_handoff_committed r w1) as [[w2 r2] [[]|e]] eqn:HM;
      apply mark_precommit_spec in HM as (E2 & E3 & E4 & E5); intros [= <- <-];
      right; right; exists lease; (do 3 (split; [done|]); split; [by rewrite E2|]); intros r' Hr'; simplify_eq;
      split_and!; congruence.
  - unfold commit_launch in HC. destruct (_ || _) eqn:Hg in HC; [|done].
    injection HC as <- <- <-. intros [= <- <-]. right; left. exists lease.
    eexists. split_and!; [done..| |done]. apply orb_true_iff in Hg as [Hg|Hg];
      apply negb_true_iff in Hg; auto.
Qed.

(** C38. Commit and cancellation of a launch have one winner: after a commit the
    seat is committed to that login and the cancellation of its lease is
    refused; after a cancellation the commit is refused and changes nothing;
    and a transaction whose lease was taken out can no longer commit. *)
Theorem login_single_winner p lease recovery w :
  pd_pending_lease p = Some lease →
  (∀ w1 r, commit_transaction p recovery w = (w1, Ok r) →
     view (aw_controller w1) = VCommitted (pl_lifecycle_id lease) ∧
     cr_lifecycle_id r = pl_lifecycle_id lease ∧
     cr_generation r = pl_generation lease ∧
     cancel (RollbackPending lease) w1 = (w1, Err SessionSeatUnavailable)) ∧
  (∀ w1, cancel (RollbackPending lease) w = (w1, Ok ()) →
     ∃ e, commit_transaction p recovery w1 = (w1, Err e)) ∧
  (let '(p', r) := pending_lease p in
   r = Ok lease ∧ ∃ e, commit_transaction p' recovery w = (w, Err e)).
Proof.
  intros Hl. split_and!.
  - intros w1 r HC. apply commit_transaction_cases in HC as
      [[_ [e ?]]|[(? & ? & _ & ? & _)|(l & Hl' & _ & _ & E & Hr)]]; [done..|].
    rewrite Hl in Hl'. injection Hl' as <-. destruct (Hr r eq_refl) as (? & ? & _).
    unfold view, cancel, matches_pending. rewrite E. by split_and!.
  - intros w1 HC. assert (matches_pending lease (aw_controller w1) = false) as Hm.
    { unfold cancel in HC. destruct (negb _); [done|]. rewrite sr_bind_eq in HC.
      destruct (remove_precommit_runtime _ w) as [w2 [[]|e]]; [|done].
      cbn in HC. injection HC as <-. done. }
    unfold commit_transaction. rewrite Hl. destruct (lt_phase _); eauto.
    unfold commit_launch, cancel. rewrite Hm, orb_true_r. rewrite Hm. cbn. eauto.
  - unfold pending_lease. rewrite Hl. split; [done|].
    unfold commit_transaction. cbn. destruct (lt_phase _); eauto.
Qed.

Lemma commit_transaction_lost p lease recovery w w' e :
  lt_phase (pd_transaction p) = TxPrepared → pd_pending_lease p = Some lease →
  is_clear recovery = true → matches_pending lease (aw_controller w) = true →
  commit_transaction p recovery w = (w', Err e) →
  aw_controller w' = set_phase (PhaseCommitted (pl_attempt_id lease)
    (pl_lifecycle_id lease) (pl_generation lease)) (aw_controller w).
Proof.
  intros Hp Hl Hc Hm. unfold commit_transaction. rewrite Hp, Hl.
  destruct (commit_launch lease recovery w) as [w1 [r|[? ?]]] eqn:HC.
  - apply commit_launch_Ok in HC as (_ & E & _).
    destruct (mark_precommit_handoff_committed r w1) as [[w2 r2] [[]|?]] eqn:HM;
      apply mark_precommit_spec in HM as (E2 & _); intros [= <- _]. congruence.
  - unfold commit_launch in HC. by rewrite Hc, Hm in HC.
Qed.

(** A login that fails after it took the seat loses its token: when the
    reservation was granted but its pre-commit record cannot be written, and
    when the launch was committed but the handoff cannot be recorded, the call
    returns an error that carries no lease or receipt, the seat stays reserved
    or committed, and no operation without such a token changes it. *)
Theorem lost_token_strands_seat boot id vt ledger w w' e :
  admission_inv (aw_controller w) →
  (∃ w1 lease,
     reserve id (recovery_admission_state ledger (aw_store w) "seat0") vt w
       = (w1, Ok lease) ∧
     reserve_seat boot id (Ok vt) ledger w = (w', Err e)) ∨
  (∃ p lease recovery,
     lt_phase (pd_transaction p) = TxPrepared ∧ pd_pending_lease p = Some lease ∧
     is_clear recovery = true ∧ matches_pending lease (aw_controller w) = true ∧
     commit_transaction p recovery w = (w', Err e)) →
  ∃ g, held_at g (aw_controller w') ∧
    ∀ ops, Forall (λ op, token_generation op ≠ Some g) ops → run_admission ops w' = w'.
Proof.
  intros Hi Hcase.
  assert (∃ g, held_at g (aw_controller w') ∧ admission_inv (aw_controller w'))
    as (g & Hh & Hi'); [|exists g; split; [done|]; intros; by eapply held_stays].
  destruct Hcase as [(w1 & lease & HR & HS)|(p & lease & recovery & Hp & Hl & Hc & Hm & HC)].
  - pose proof (reserve_effect id (recovery_admission_state ledger (aw_store w) "seat0")
      vt w Hi) as (Hi1 & _). rewrite HR in Hi1.
    assert (aw_controller w' = aw_controller w1) as ->.
    { unfold reserve_seat in HS. destruct (negb _) eqn:Hf in HS.
      { unfold reserve in HR. rewrite Hf, orb_true_r in HR. done. }
      rewrite sr_bind_eq, HR in HS. destruct (aw_store w1); [|done].
      rewrite sr_bind_eq in HS.
      pose proof (with_store_controller (create_reserved boot id (al_attempt_id lease)
        (al_seat lease) (al_generation lease)) w1) as E.
      destruct (with_store _ w1) as [w2 [b|?]]; cbn in E; injection HS as <- _; exact E. }
    exists (al_generation lease). split; [|done].
    unfold reserve in HR. destruct (_ || _) in HR; [done|]. by injection HR as <- <-.
  - apply (commit_transaction_lost p lease) in HC as E; [|done..]. rewrite E.
    exists (pl_generation lease). split; [done|].
    pose proof (run_admission_op_effect (OpCommit lease recovery) w Hi) as (Hi1 & _).
    cbn in Hi1. unfold commit_launch in Hi1. rewrite Hc, Hm in Hi1. exact Hi1.
Qed.

Lemma attach_backend_carries lease greeter sel dl channel w w' b :
  attach_backend host channel (from_admission lease greeter sel dl) w = (w', Ok b) →
  aw_controller w' = aw_controller w ∧
  vc_worker_id channel = al_lifecycle_id lease ∧
  carries lease channel greeter sel dl b.
Proof.
  unfold attach_backend. destruct (_ || _) eqn:Hg; [done|]. bool_facts.
  destruct (update_lease _ _ _ _ _ w) as [[w1 t1] [[]|?]] eqn:HU; [|done].
  apply update_lease_spec in HU as (E & Et & Es). intros [= <- <-].
  split; [done|]. split; [done|]. constructor; cbn; [by rewrite Es| |done].
  by rewrite Et.
Qed.

Lemma authentication_carries lease channel greeter sel dl now b w w' b' :
  carries lease channel greeter sel dl b →
  authentication host now b w = (w', Ok b') →
  aw_controller w' = aw_controller w ∧ carries lease channel greeter sel dl b'.
Proof.
  intros HC. unfold authentication. destruct (_ || _); [done|].
  destruct (update_lease _ _ _ _ _ w) as [[w1 t1] [[]|?]] eqn:HU; [|done].
  intros [= <- <-].
  eapply (carries_update _ _ _ _ _ _ _ _ _ _ _ _ _ (lt_phase t1)) in HU as [E HC'];
    [|exact HC]. split; [done|].
  destruct t1; exact HC'.
Qed.

Lemma promote_carried lease l w w1 id vt :
  reserve id AdmissionClear vt w = (w1, Ok lease) → strip l = strip lease →
  ∀ w2, aw_controller w2 = aw_controller w1 →
  ∃ w3 pl, promote l AdmissionClear w2 = (w3, Ok (pl, vt)) ∧
    pl_lifecycle_id pl = id ∧
    aw_controller w3 = set_phase (PhasePending (pl_attempt_id pl) id
      (pl_generation pl)) (aw_controller w1) ∧
    pl_generation pl = sc_generation (aw_controller w1) ∧
    pl_seat pl = sc_seat (aw_controller w1).
Proof.
  intros HR [= E1 E2 E3 E4 E5] w2 Ew. unfold reserve in HR.
  destruct (_ || _) in HR; [done|]. injection HR as <- <-. cbn in *.
  unfold promote, matches_reserved, token_matches. rewrite Ew. cbn.
  rewrite E1, E2, E3, E4, E5, !str_eqb_refl, !Z.eqb_refl. cbn.
  eexists _, _. split; [reflexivity|]. cbn. by rewrite Ew.
Qed.

(** The launch's check of a prepared permit, and the lease it still owns. *)
Lemma carried_validates id sel lease channel greeter dl b :
  carries lease channel greeter sel dl b →
  ob_expected_stage b = "prepared"%string → ob_expected_sequence b = 2 →
  vc_worker_id channel = id → gc_worker_id greeter = id → al_lifecycle_id lease = id →
  id ≠ EmptyString → al_seat lease ≠ EmptyString →
  0 < al_generation lease → 0 < al_attempt_id lease →
  permit_validate_expected id sel b = true ∧
  ∃ b' l, take_admission_lease b = Ok (b', l) ∧ strip l = strip lease.
Proof.
  intros [Hl Ht Hc] Hs Hq Hch Hg Hid Hne Hseat Hgen Hatt.
  split.
  - unfold permit_validate_expected, validate_expected. rewrite Ht, Hs, Hq, Hc, Hch. cbn.
    rewrite Hid, Hg, !str_eqb_refl. cbn.
    apply str_is_empty_false in Hne, Hseat. rewrite Hne, Hseat. cbn.
    apply Z.ltb_lt in Hgen, Hatt. by rewrite Hgen, Hatt.
  - unfold take_admission_lease, take_lease.
    destruct (lt_lease (ob_transaction b)) as [l|]; [|done]. injection Hl as Hl.
    eexists _, l. split; [reflexivity|]. unfold strip. congruence.
Qed.

Lemma reserve_lease id vt w w1 lease :
  reserve id AdmissionClear vt w = (w1, Ok lease) →
  id ≠ EmptyString ∧ al_lifecycle_id lease = id ∧
  al_seat lease = sc_seat (aw_controller w) ∧
  al_generation lease = u64_wrapping_add (sc_generation (aw_controller w)) 1 ∧
  al_attempt_id lease = sc_next_attempt_id (aw_controller w).
Proof.
  unfold reserve. destruct (_ || _) eqn:Hg; [done|]. intros [= <- <-]. cbn.
  by bool_facts.
Qed.

(** A login that reserved a free seat and passed authentication goes
    through: whatever the pre-commit store answered on the way, the prepared
    permit passes the launch's own check, it still owns the lease, the
    controller promotes that lease, and the commit of the pending launch
    commits the seat to this login. *)
Theorem prepared_login_commits id vt w w1 w1' w2 w3 lease0 lease greeter sel dl channel
    now b p :
  sc_generation (aw_controller w) < u64_max → 0 ≤ sc_generation (aw_controller w) →
  0 < sc_next_attempt_id (aw_controller w) → sc_seat (aw_controller w) ≠ EmptyString →
  reserve id AdmissionClear vt w = (w1, Ok lease0) →
  strip lease = strip lease0 → aw_controller w1' = aw_controller w1 →
  gc_worker_id greeter = id →
  attach_backend host channel (from_admission lease greeter sel dl) w1' = (w2, Ok b) →
  authentication host now b w2 = (w3, Ok p) →
  let '(w4, a) := authenticated host p w3 in
  let '(w5, s) := prepare host a w4 in
  permit_validate_expected id sel s = true ∧
  ∃ s' l pl w6, take_admission_lease s = Ok (s', l) ∧
    promote l AdmissionClear w5 = (w6, Ok (pl, vt)) ∧
    view (aw_controller w6) = VPending id ∧
    view (aw_controller (commit_transaction (pending pl s') AdmissionClear w6).1)
      = VCommitted id.
Proof.
  intros Hg0 Hg1 Ha Hseat HR Hst Hw Hgr HA HAu.
  apply attach_backend_carries in HA as (E2 & Hch & HC).
  eapply authentication_carries in HAu as (E3 & HC3); [|exact HC].
  destruct (authenticated host p w3) as [w4 a] eqn:H4. unfold authenticated in H4.
  destruct (update_lease _ _ _ _ _ w3) as [[w3' t3] r3] eqn:HU3. injection H4 as <- <-.
  eapply (carries_update _ _ _ _ _ _ _ _ _ _ _ _ _ TxAuthenticated "authenticated" 1)
    in HU3 as [E4 HC4]; [|exact HC3].
  destruct (prepare host _ w3') as [w5 s] eqn:H5. unfold prepare in H5.
  destruct (update_lease _ _ _ _ _ w3') as [[w4' t4] r4] eqn:HU4. injection H5 as <- <-.
  eapply (carries_update _ _ _ _ _ _ _ _ _ _ _ _ _ TxPrepared "prepared" 2)
    in HU4 as [E5 HC5]; [|exact HC4].
  match type of HC5 with carries _ _ _ _ _ ?x => set (s := x) in * end. pose proof (reserve_lease _ _ _ _ _ HR) as Hres.
  destruct Hres as (Hne & R1 & R2 & R3 & R4). pose proof Hst as [= T1 T2 T3 T4 _].
  rewrite u64_wrapping_add_small in R3 by lia.
  destruct (carried_validates id sel lease channel greeter dl s) as [Hv (s' & l & Htl & Hsl)];
    [done|done|done|congruence|done|congruence|done|congruence|lia|lia|].
  split; [exact Hv|]. exists s', l.
  destruct (promote_carried lease0 l w w1 id vt HR ltac:(congruence) w4')
    as (w6 & pl & HP & HPi & E6 & Hpg & Hps); [congruence|].
  exists pl, w6. split; [done|]. split; [done|]. unfold view. rewrite E6. split; [done|].
  assert (matches_pending pl (aw_controller w6) = true) as Hm.
  { unfold matches_pending, token_matches. rewrite E6. cbn.
    by rewrite HPi, Hpg, Hps, !str_eqb_refl, !Z.eqb_refl. }
  destruct (commit_transaction _ _ w6) as [w7 [r|e]] eqn:HC7; cbn.
  - apply commit_transaction_cases in HC7 as
      [[_ [? ?]]|[(? & ? & _ & ? & _)|(l7 & [= <-] & _ & _ & E7 & _)]]; [done..|].
    rewrite E7. cbn. by rewrite HPi.
  - apply (commit_transaction_lost _ pl) in HC7 as E7; [|done..].
    rewrite E7. cbn. by rewrite HPi.
Qed.
End LoginClaims.
