(* ===== verification/Daemon.v ===== *)
(** * The daemon's request handler

    [niralisd/src/handler]: the login rate limit ([rate_limit.rs]), the table
    of open logins ([transactions.rs]), the login itself ([login.rs]) and the
    dispatch of requests ([mod.rs], [conversation.rs]), with the attempt
    counter of [login_backend.rs].  The login backend and the two directories
    are the type parameters of the source's [DaemonHandler]; other connections
    share the table, and [others] is what they do to it meanwhile. *)

From stdpp Require Import base gmap sets list strings.
From Stdlib Require Import ZArith Lia.
From S2P Require Import Prelude DirFs RecoveryTypes LedgerTaxonomy Ledger.
From S2P Require Import PreviousBoot PreCommit SameBoot Admission Protocol.
#[local] Open Scope niralis_scope.

(** ** The rate limit *)

Definition u32_saturating_add (a b : Z) : Z := Z.min u32_max (a + b).

Record LoginFailureState := mkFailure {
  lf_attempts : Z;
  lf_last_failure : Z;
}.
Record LoginRateLimiter := mkLimiter {
  rl_max_attempts : Z;
  rl_cooldown : Z;
  rl_failures : gmap string LoginFailureState;
}.
Definition limiter_new (max_attempts cooldown : Z) : LoginRateLimiter :=
  mkLimiter max_attempts cooldown ∅.
Definition set_failures (m : gmap string LoginFailureState) (l : LoginRateLimiter)
    : LoginRateLimiter := mkLimiter (rl_max_attempts l) (rl_cooldown l) m.

(** [Instant::duration_since] saturates at zero. *)
Definition duration_since (now earlier : Z) : Z := Z.max 0 (now - earlier).

Definition is_limited (username : string) (now : Z) (l : LoginRateLimiter)
    : LoginRateLimiter * bool :=
  if rl_max_attempts l =? 0 then (l, false)
  else match rl_failures l !! username with
  | None => (l, false)
  | Some state =>
      if lf_attempts state <? rl_max_attempts l then (l, false)
      else if rl_cooldown l <=? duration_since now (lf_last_failure state)
      then (set_failures (delete username (rl_failures l)) l, false)
      else (l, true)
  end.

Definition record_failure (username : string) (now : Z) (l : LoginRateLimiter)
    : LoginRateLimiter :=
  if rl_max_attempts l =? 0 then l
  else
    let state := match rl_failures l !! username with
                 | Some s => mkFailure (u32_saturating_add (lf_attempts s) 1) now
                 | None => mkFailure 1 now
                 end in
    set_failures (<[username := state]> (rl_failures l)) l.

Definition reset (username : string) (l : LoginRateLimiter) : LoginRateLimiter :=
  set_failures (delete username (rl_failures l)) l.

(** ** Connections and open logins *)

Record ValidatedPeerIdentity := mkPeer {
  vp_uid : Z;
  vp_gid : Z;
  vp_pid : option Z;
}.
Record GreeterConnectionAuthority := mkConnection {
  ga_connection_id : string;
  ga_connection_epoch : Z;
  ga_seat : string;
  ga_peer : ValidatedPeerIdentity;
}.
Definition authority_matches (a : GreeterConnectionAuthority) (id : string)
    (epoch : Z) (seat : string) : bool :=
  str_eqb (ga_connection_id a) id && (ga_connection_epoch a =? epoch)
  && str_eqb (ga_seat a) seat.

(** Connection, epoch, request, seat. *)
Definition TransactionKey : Type := string * Z * Z * string.
Inductive TransactionState := PreCommitTx | CommittedTx.
#[export] Instance TransactionState_eq_dec : EqDecision TransactionState.
Proof. solve_decision. Defined.
Definition TransactionTable : Type := gmap TransactionKey TransactionState.

Definition key (b : LoginRequestBinding) : TransactionKey :=
  (lb_connection_id b, lb_connection_epoch b, lb_request_id b, lb_seat b).
Definition key_binding (k : TransactionKey) : LoginRequestBinding :=
  let '(connection_id, epoch, request_id, seat) := k in
  mkLoginBinding connection_id epoch request_id seat.
Definition key_of_connection (a : GreeterConnectionAuthority) (k : TransactionKey)
    : bool :=
  let '(connection_id, epoch, _, seat) := k in
  str_eqb connection_id (ga_connection_id a) && (epoch =? ga_connection_epoch a)
  && str_eqb seat (ga_seat a).

(** ** The backend and the directories *)

Record ResolvedSessionLaunchSpec := mkLaunchSpec {
  ls_session : SessionInfo;
  ls_source_path : string;
  ls_executable : string;
  ls_argv : list string;
}.
Inductive DiscoveryError :=
| UserEnumeration | ReadDesktopEntry (path : string) | ReadDir (path : string)
| UntrustedSessionSource (path : string) | MalformedDesktopEntry (path : string)
| InvalidLaunchSpec.
Inductive LoginBackendError :=
| LbAuthenticationFailed | LbAuthenticatedSessionFailed | LbInfrastructureFailed
| LbSeatUnavailable | LbWorkerDiedAndWasRecovered | LbWorkerRecoveryIncomplete.

Definition map_session_error (e : SessionError) : LoginBackendError :=
  match e with
  | AuthenticationFailed => LbAuthenticationFailed
  | AuthenticatedSessionFailed | StartFailed => LbAuthenticatedSessionFailed
  | SessionSeatUnavailable => LbSeatUnavailable
  | WorkerDiedAndWasRecovered => LbWorkerDiedAndWasRecovered
  | WorkerRecoveryIncomplete => LbWorkerRecoveryIncomplete
  | _ => LbInfrastructureFailed
  end.

Record LoginAttempt := mkLoginAttempt {
  la_username : string;
  la_password : string;
  la_session : SessionInfo;
  la_launch_spec : ResolvedSessionLaunchSpec;
  la_attempt_id : Z;
  la_connection : option LoginRequestBinding;
}.
Record StartedSession := mkStarted {
  ss_username : string;
  ss_session : SessionInfo;
}.

(** [X] is the world the backend acts on: the connection it talks to. *)
Record DaemonHost (X : Type) := mkDaemonHost {
  dh_login : LoginAttempt → X → X * result StartedSession LoginBackendError;
  dh_list_users : result (list UserInfo) DiscoveryError;
  dh_list_sessions : result (list SessionInfo) DiscoveryError;
  dh_resolve_launch_spec :
    string → result (option ResolvedSessionLaunchSpec) DiscoveryError;
  dh_status : DaemonStatus;
}.
Arguments dh_login {X}.
Arguments dh_list_users {X}.
Arguments dh_list_sessions {X}.
Arguments dh_resolve_launch_spec {X}.
Arguments dh_status {X}.

(** [hd_logins] and [hd_cancelled] log the calls of [login] and
    [cancel_login]. *)
Record DaemonHandler (X : Type) := mkHandler {
  hd_limiter : Shared LoginRateLimiter;
  hd_table : Shared TransactionTable;
  hd_next_attempt_id : Z;
  hd_logins : list LoginAttempt;
  hd_cancelled : list LoginRequestBinding;
  hd_world : X;
}.
Arguments mkHandler {X}.
Arguments hd_limiter {X}.
Arguments hd_table {X}.
Arguments hd_next_attempt_id {X}.
Arguments hd_logins {X}.
Arguments hd_cancelled {X}.
Arguments hd_world {X}.

Section Handler.
Context {X : Type} (host : DaemonHost X).
Abbreviation DH := (DaemonHandler X).

Definition on_limiter (f : LoginRateLimiter → LoginRateLimiter) (h : DH) : DH :=
  mkHandler (match hd_limiter h with Healthy l => Healthy (f l) | Poisoned => Poisoned end)
    (hd_table h) (hd_next_attempt_id h) (hd_logins h) (hd_cancelled h) (hd_world h).
Definition on_table (f : TransactionTable → TransactionTable) (h : DH) : DH :=
  mkHandler (hd_limiter h)
    (match hd_table h with Healthy t => Healthy (f t) | Poisoned => Poisoned end)
    (hd_next_attempt_id h) (hd_logins h) (hd_cancelled h) (hd_world h).
Definition log_cancelled (bs : list LoginRequestBinding) (h : DH) : DH :=
  mkHandler (hd_limiter h) (hd_table h) (hd_next_attempt_id h) (hd_logins h)
    (hd_cancelled h ++ bs) (hd_world h).

(** ** The table of open logins *)

Definition begin (b : LoginRequestBinding) (h : DH) : DH :=
  on_table (<[key b := PreCommitTx]>) h.
Definition finish (b : LoginRequestBinding) (committed : bool) (h : DH) : DH :=
  on_table (if committed then <[key b := CommittedTx]> else delete (key b)) h.

Definition open_of_connection (a : GreeterConnectionAuthority)
    (p : TransactionKey * TransactionState) : bool :=
  key_of_connection a p.1 && bool_decide (p.2 = PreCommitTx).
Definition disconnect (a : GreeterConnectionAuthority) (h : DH) : DH :=
  match hd_table h with
  | Poisoned => h
  | Healthy t =>
      let cancelled := filter (λ p, open_of_connection a p = true) (map_to_list t) in
      on_table (filter (λ p, open_of_connection a p = false))
        (log_cancelled (key_binding ∘ fst <$> cancelled) h)
  end.

Definition cancel_request (a : GreeterConnectionAuthority) (target_request_id : Z)
    (h : DH) : DH * NiralisResponse :=
  let b := mkLoginBinding (ga_connection_id a) (ga_connection_epoch a)
             target_request_id (ga_seat a) in
  let removed := match hd_table h with
                 | Healthy t => bool_decide (t !! key b = Some PreCommitTx)
                 | Poisoned => false
                 end in
  let h := on_table (delete (key b)) h in
  if removed
  then (log_cancelled [b] h, RespError "login cancelled")
  else (h, RespError "request is not cancellable").

(** ** The login *)

(** [fetch_add] wraps, and zero is skipped. *)
Definition next_login_attempt_id (h : DH) : DH * Z :=
  let set n := mkHandler (hd_limiter h) (hd_table h) n (hd_logins h)
                 (hd_cancelled h) (hd_world h) in
  let id := hd_next_attempt_id h in
  let next := u64_wrapping_add id 1 in
  if id =? 0 then (set (u64_wrapping_add next 1), next) else (set next, id).

Definition handler_is_limited (username : string) (now : Z) (h : DH) : DH * bool :=
  match hd_limiter h with
  | Healthy l =>
      let '(l, b) := is_limited username now l in (on_limiter (λ _, l) h, b)
  | Poisoned => (h, true)
  end.

Definition login_failed : NiralisResponse := LoginFailed "login failed".
Definition session_unavailable : NiralisResponse :=
  SessionUnavailable "session unavailable".

(** The call of the backend: other connections use the table meanwhile. *)
Definition backend_login (others : TransactionTable → TransactionTable)
    (attempt : LoginAttempt) (h : DH)
    : DH * result StartedSession LoginBackendError :=
  let '(x, r) := dh_login host attempt (hd_world h) in
  (on_table others
     (mkHandler (hd_limiter h) (hd_table h) (hd_next_attempt_id h)
        (hd_logins h ++ [attempt]) (hd_cancelled h) x), r).

Definition handle_login_with_binding (others : TransactionTable → TransactionTable)
    (now_check now_failure : Z) (username password session : string)
    (connection : option LoginRequestBinding) (h : DH) : DH * NiralisResponse :=
  let '(h, limited) := handler_is_limited username now_check h in
  if limited then (h, login_failed)
  else match dh_resolve_launch_spec host session with
  | Err _ | Ok None => (h, session_unavailable)
  | Ok (Some launch_spec) =>
      let session := ls_session launch_spec in
      let '(h, id) := next_login_attempt_id h in
      match backend_login others
              (mkLoginAttempt username password session launch_spec id connection) h with
      | (h, Ok _) => (on_limiter (reset username) h, LoginOk session)
      | (h, Err LbAuthenticationFailed) =>
          (on_limiter (record_failure username now_failure) h, login_failed)
      | (h, Err LbAuthenticatedSessionFailed) =>
          (on_limiter (reset username) h, RespError "failed to start session")
      | (h, Err LbInfrastructureFailed) => (h, RespError "failed to start session")
      | (h, Err LbSeatUnavailable) =>
          (h, RespError "session seat is busy recovering or quarantined")
      | (h, Err LbWorkerDiedAndWasRecovered) =>
          (h, RespError "session worker died and the session was recovered")
      | (h, Err LbWorkerRecoveryIncomplete) =>
          (h, RespError "session worker died and recovery is incomplete")
      end
  end.

(** ** Dispatch *)

Definition discovery_error_response (scope : string) : NiralisResponse :=
  RespError ("failed to discover " +:+ scope).

Definition handle (request : NiralisRequest) : NiralisResponse :=
  match request with
  | ReqStatus => RespStatus (dh_status host)
  | ReqGetUsers => match dh_list_users host with
                   | Ok users => RespUsers users
                   | Err _ => discovery_error_response "users"
                   end
  | ReqGetSessions => match dh_list_sessions host with
                      | Ok sessions => RespSessions sessions
                      | Err _ => discovery_error_response "sessions"
                      end
  | ReqLogin _ _ _ => RespError "login requires an authenticated greeter connection"
  | ReqShutdown | ReqReboot => RespError "not implemented in phase 1"
  end.

Definition is_login_ok (r : NiralisResponse) : bool :=
  match r with LoginOk _ => true | _ => false end.

Definition handle_authenticated_with_transport
    (others : TransactionTable → TransactionTable) (now_check now_failure : Z)
    (a : GreeterConnectionAuthority) (request_id : Z) (request : NiralisRequest)
    (h : DH) : DH * NiralisResponse :=
  match request with
  | ReqLogin username password session =>
      let b := mkLoginBinding (ga_connection_id a) (ga_connection_epoch a)
                 request_id (ga_seat a) in
      let '(h, result) :=
        handle_login_with_binding others now_check now_failure username password
          session (Some b) (begin b h) in
      (finish b (is_login_ok result) h, result)
  | other => (h, handle other)
  end.
End Handler.

(** ** What the rate limit guarantees *)

Inductive AuthOutcome := AuthFailed | AuthSucceeded | AuthNotTried.

(** A login of [user]: the check at [tc], and what the backend said at [tf]. *)
Record LoginTry := mkTry {
  tr_user : string;
  tr_check : Z;
  tr_end : Z;
  tr_outcome : AuthOutcome;
}.

Definition run_try (x : LoginTry) (l : LoginRateLimiter) : LoginRateLimiter * bool :=
  let '(l, limited) := is_limited (tr_user x) (tr_check x) l in
  if limited then (l, false)
  else (match tr_outcome x with
        | AuthFailed => record_failure (tr_user x) (tr_end x) l
        | AuthSucceeded => reset (tr_user x) l
        | AuthNotTried => l
        end, true).

(** The failed authentications of [u] that reached the backend. *)
Fixpoint failures_of (u : string) (xs : list LoginTry) (l : LoginRateLimiter)
    : list LoginTry :=
  match xs with
  | [] => []
  | x :: xs =>
      let '(l', admitted) := run_try x l in
      let rest := failures_of u xs l' in
      match tr_outcome x with
      | AuthFailed => if admitted && str_eqb (tr_user x) u then x :: rest else rest
      | _ => rest
      end
  end.

(** The clock does not run backwards. *)
Fixpoint timed (now : Z) (xs : list LoginTry) : Prop :=
  match xs with
  | [] => True
  | x :: xs => now ≤ tr_check x ∧ tr_check x ≤ tr_end x ∧ timed (tr_end x) xs
  end.

(** Two neighbours of the list, the first ending at least [d] before the second
    starts. *)
Fixpoint has_gap (d t : Z) (xs : list LoginTry) : Prop :=
  match xs with
  | [] => False
  | x :: xs => d ≤ tr_check x - t ∨ has_gap d (tr_end x) xs
  end.

Lemma is_limited_config u t l l' b :
  is_limited u t l = (l', b) →
  rl_max_attempts l' = rl_max_attempts l ∧ rl_cooldown l' = rl_cooldown l.
Proof. unfold is_limited. intros HC. split_cases HC; done. Qed.

Lemma run_try_config x l :
  rl_max_attempts (run_try x l).1 = rl_max_attempts l ∧
  rl_cooldown (run_try x l).1 = rl_cooldown l.
Proof.
  unfold run_try. destruct (is_limited _ _ l) as [l1 []] eqn:HC;
    apply is_limited_config in HC as [E1 E2]; [done|].
  unfold record_failure, reset. destruct (tr_outcome x); cbn; try done.
  by case_match.
Qed.

(** A login of one user does not touch the count of another. *)
Lemma run_try_other u x l :
  tr_user x ≠ u → rl_failures (run_try x l).1 !! u = rl_failures l !! u.
Proof.
  intros Hne. unfold run_try, is_limited, record_failure, reset.
  repeat case_match; simplify_eq/=; rewrite ?lookup_delete_ne, ?lookup_insert_ne by done;
    try done; rewrite ?lookup_delete_ne, ?lookup_insert_ne by done; done.
Qed.

Lemma failures_of_after u now d t xs l :
  timed now xs → d ≤ now - t → failures_of u xs l ≠ [] → has_gap d t (failures_of u xs l).
Proof.
  revert now l. induction xs as [|x xs IH]; intros now l HT Hd Hne; [done|].
  destruct HT as (H1 & H2 & HT). cbn in *. destruct (run_try x l) as [l' a].
  assert (failures_of u xs l' ≠ [] → has_gap d t (failures_of u xs l')) as IH'
    by (intros; apply (IH (tr_end x)); [done|lia|done]).
  destruct (tr_outcome x); try by apply IH'.
  destruct (a && _); [|by apply IH']. left. lia.
Qed.

Definition counts_positive (l : LoginRateLimiter) : Prop :=
  map_Forall (λ _ s, 1 ≤ lf_attempts s) (rl_failures l).
Definition never_succeeds (u : string) (x : LoginTry) : Prop :=
  tr_user x = u → tr_outcome x ≠ AuthSucceeded.

(** One login of [u] that reached the backend or was refused. *)
Lemma run_try_own u x l l' a :
  0 < rl_max_attempts l ≤ u32_max → counts_positive l → tr_user x = u →
  tr_outcome x ≠ AuthSucceeded → run_try x l = (l', a) →
  let failed := match tr_outcome x with AuthFailed => true | _ => false end in
  match rl_failures l !! u with
  | Some s =>
      a = false ∧ l' = l ∨
      a = true ∧ lf_attempts s < rl_max_attempts l ∧
        rl_failures l' !! u = Some (if failed
          then mkFailure (lf_attempts s + 1) (tr_end x) else s) ∨
      a = true ∧ rl_cooldown l ≤ duration_since (tr_check x) (lf_last_failure s) ∧
        rl_failures l' !! u = if failed then Some (mkFailure 1 (tr_end x)) else None
  | None =>
      a = true ∧
      rl_failures l' !! u = if failed then Some (mkFailure 1 (tr_end x)) else None
  end.
Proof.
  intros Hm Hc <- Ho. unfold run_try, is_limited, record_failure, u32_saturating_add.
  assert (rl_max_attempts l =? 0 = false) as Hz by (apply Z.eqb_neq; lia). rewrite Hz.
  destruct (rl_failures l !! tr_user x) as [s|] eqn:Hs; cbn.
  - pose proof (Hc _ _ Hs) as H1. cbn in H1.
    destruct (Z.ltb_spec (lf_attempts s) (rl_max_attempts l)).
    + destruct (tr_outcome x); intros [= <- <-]; try done; right; left;
        rewrite ?Hz, ?Hs; cbn; rewrite ?lookup_insert_eq, ?Hs; split_and!; try done.
      do 2 f_equal. lia.
    + destruct (Z.leb_spec (rl_cooldown l) (duration_since (tr_check x) (lf_last_failure s))).
      * cbn. rewrite Hz, lookup_delete_eq.
        destruct (tr_outcome x); intros [= <- <-]; try done; right; right; cbn;
          rewrite ?lookup_insert_eq, ?lookup_delete_eq; done.
      * intros [= <- <-]. by left.
  - rewrite Hz, Hs. destruct (tr_outcome x); intros [= <- <-]; try done; cbn;
      rewrite ?lookup_insert_eq; done.
Qed.

Lemma record_failure_positive u t l : counts_positive l → counts_positive (record_failure u t l).
Proof.
  intros Hc. unfold record_failure. case_match; [done|]. apply map_Forall_insert_2; [|done].
  destruct (rl_failures l !! u) as [s|] eqn:Hs; cbn; [|lia]. pose proof (Hc _ _ Hs).
  unfold u32_saturating_add, u32_max. cbn in *. lia.
Qed.
Lemma reset_positive u l : counts_positive l → counts_positive (reset u l).
Proof. intros Hc. by apply map_Forall_delete. Qed.

Lemma run_try_positive x l : counts_positive l → counts_positive (run_try x l).1.
Proof.
  intros Hc. assert (counts_positive (is_limited (tr_user x) (tr_check x) l).1) as H1.
  { unfold is_limited. repeat (case_match; try done). by apply reset_positive. }
  unfold run_try. destruct (is_limited _ _ l) as [l1 []]; [done|].
  destruct (tr_outcome x); cbn; [by apply record_failure_positive|by apply reset_positive|done].
Qed.

Lemma failures_chain u xs l now n t :
  0 < rl_max_attempts l ≤ u32_max → counts_positive l →
  rl_failures l !! u = Some (mkFailure n t) → t ≤ now → timed now xs →
  Forall (never_succeeds u) xs →
  has_gap (rl_cooldown l) t (failures_of u xs l) ∨ failures_of u xs l = [] ∨
  n + Z.of_nat (length (failures_of u xs l)) ≤ rl_max_attempts l.
Proof.
  revert l now n t. induction xs as [|x xs IH]; intros l now n t Hm Hc Hu Ht HT HN;
    [by right; left|].
  destruct HT as (T1 & T2 & HT). apply Forall_cons in HN as [Hn HN].
  pose proof (run_try_config x l) as [E1 E2]. pose proof (run_try_positive x l Hc) as Hc'.
  pose proof (run_try_other u x l) as Ho.
  cbn [failures_of]. destruct (run_try x l) as [l' a] eqn:HR. cbn in *.
  destruct (decide (tr_user x = u)) as [Hx|Hx].
  2: { replace (str_eqb (tr_user x) u) with false by (symmetry; by apply str_eqb_false).
       rewrite andb_false_r. rewrite <- E1, <- E2. rewrite <- E1 in Hm.
       destruct (tr_outcome x); apply (IH l' (tr_end x)); try done; rewrite ?Ho; try done; lia. }
  pose proof (run_try_own u x l l' a Hm Hc Hx (Hn Hx) HR) as H. rewrite Hu in H. cbn in H.
  assert (str_eqb (tr_user x) u = true) as Hxu by by apply str_eqb_true.
  rewrite Hxu, andb_true_r. rewrite <- E1, <- E2 in *. rewrite E1, E2 in H |- *.
  destruct H as [(-> & ->)|[(-> & Hlt & Hl)|(-> & Hcool & Hl)]].
  - destruct (tr_outcome x); by eapply (IH l (tr_end x)); [..|lia|done|done].
  - destruct (tr_outcome x) eqn:Hout; cbn in Hl.
    + destruct (IH l' (tr_end x) (n + 1) (tr_end x)) as [Hg|[Hg|Hg]]; try done; try lia.
      * left. right. by rewrite <- E2.
      * right. right. rewrite Hg. cbn. lia.
      * right. right. cbn. lia.
    + by destruct (Hn Hx).
    + rewrite <- E1, <- E2. eapply (IH l' (tr_end x)); [lia|done..|lia|done|done].
  - unfold duration_since in Hcool. destruct (tr_outcome x) eqn:Hout; cbn in Hl.
    + left. left. lia.
    + by destruct (Hn Hx).
    + destruct (failures_of u xs l') as [|y ys] eqn:Hf; [by right; left|].
      left. rewrite <- Hf. apply (failures_of_after u (tr_end x)); [done|lia|congruence].
Qed.

(** After the first failure that counts, the counter of [u] is running. *)
Lemma failures_first u xs l now x rest :
  0 < rl_max_attempts l ≤ u32_max → counts_positive l → timed now xs →
  Forall (never_succeeds u) xs → failures_of u xs l = x :: rest →
  ∃ xs' l' n, rest = failures_of u xs' l' ∧ timed (tr_end x) xs' ∧
    rl_failures l' !! u = Some (mkFailure n (tr_end x)) ∧ 1 ≤ n ∧
    Forall (never_succeeds u) xs' ∧ counts_positive l' ∧
    rl_max_attempts l' = rl_max_attempts l ∧ rl_cooldown l' = rl_cooldown l.
Proof.
  revert l now. induction xs as [|y xs IH]; intros l now Hm Hc HT HN HF; [done|].
  destruct HT as (T1 & T2 & HT). apply Forall_cons in HN as [Hn HN].
  pose proof (run_try_config y l) as [E1 E2]. pose proof (run_try_positive y l Hc) as Hc'.
  cbn [failures_of] in HF. destruct (run_try y l) as [l' a] eqn:HR. cbn in *.
  assert (failures_of u xs l' = x :: rest → ∃ xs' l' n, rest = failures_of u xs' l' ∧
    timed (tr_end x) xs' ∧ rl_failures l' !! u = Some (mkFailure n (tr_end x)) ∧ 1 ≤ n ∧
    Forall (never_succeeds u) xs' ∧ counts_positive l' ∧
    rl_max_attempts l' = rl_max_attempts l ∧ rl_cooldown l' = rl_cooldown l) as IH'.
  { intros HF'. rewrite <- E1, <- E2. eapply IH; try done. lia. }
  destruct (tr_outcome y) eqn:Ho; try by apply IH'.
  destruct (a && str_eqb (tr_user y) u) eqn:Ha; [|by apply IH'].
  injection HF as <- <-. bool_facts. subst a.
  pose proof (run_try_own u y l l' true Hm Hc ltac:(done) (Hn ltac:(done)) HR) as H.
  rewrite Ho in H. cbn in H.
  assert (∃ n, rl_failures l' !! u = Some (mkFailure n (tr_end y))) as [n Hl].
  { destruct (rl_failures l !! u); [|by destruct H; eauto].
    destruct H as [[? _]|[(_ & _ & ?)|(_ & _ & ?)]]; [done|eauto..]. }
  exists xs, l', n. pose proof (Hc' _ _ Hl). by split_and!.
Qed.

(** The rate limit bounds guessing: whatever logins of any users come in,
    in any order, more than [max_attempts] failed authentications of one user
    without a success in between never reach the backend unless two successive
    ones lie at least the cooldown apart. *)
Theorem rate_limit_enforced u xs l now :
  0 < rl_max_attempts l ≤ u32_max → counts_positive l → timed now xs →
  Forall (never_succeeds u) xs →
  rl_max_attempts l < Z.of_nat (length (failures_of u xs l)) →
  ∃ x rest, failures_of u xs l = x :: rest ∧ has_gap (rl_cooldown l) (tr_end x) rest.
Proof.
  intros Hm Hc HT HN Hlen. destruct (failures_of u xs l) as [|x rest] eqn:HF;
    [cbn in Hlen; lia|].
  exists x, rest. split; [done|].
  eapply failures_first in HF as (xs' & l' & n & -> & HT' & Hl & Hn & HN' & Hc' & E1 & E2);
    [|done..].
  rewrite <- E1 in Hm, Hlen. rewrite <- E2.
  destruct (failures_chain u xs' l' (tr_end x) n (tr_end x)) as [?|[E|?]]; try done.
  - rewrite E in Hlen. cbn in Hlen. lia.
  - cbn in Hlen. lia.
Qed.
