(* ===== verification/Client.v ===== *)
(** * A greeter connection

    [niralisd/src/server]: the identity of a connection
    ([connection_generation.rs]), the framing of messages and the loop that
    serves one greeter ([client_protocol.rs]).  A read of the socket yields a
    byte or an I/O error, and the end of the list is the end of the stream; a
    write consumes an entry of a schedule that says whether it fails. *)

From stdpp Require Import base gmap sets list strings pretty sorting.
From Stdlib Require Import ZArith Lia.
From S2P Require Import Prelude DirFs RecoveryTypes LedgerTaxonomy Ledger.
From S2P Require Import PreviousBoot PreCommit SameBoot Admission Protocol.
From S2P Require Import Daemon.
#[local] Open Scope niralis_scope.

(** The errors of [NiralisdError] this code returns. *)
Inductive NiralisdError :=
| NdIo | NdJson | PeerCredentialsUnavailable | PeerCredentialsRejected
| ConnectionAuthorityRejected | ConnectionGenerationUnavailable
| FrameTooLarge | FrameTruncated | ProtocolRejected (reason : string).
#[export] Instance NiralisdError_eq_dec : EqDecision NiralisdError.
Proof. solve_decision. Defined.

(** ** Framing *)

Definition Stream : Type := list (option Ascii.ascii).
Definition NEWLINE : Ascii.ascii := Ascii.ascii_of_nat 10.

(** [len] is the length of the frame read so far. *)
Fixpoint read_frame_from (len : Z) (s : Stream) : Stream * result string NiralisdError :=
  match s with
  | [] => ([], Err (if MAX_GREETER_FRAME_BYTES <=? len then FrameTooLarge
                    else FrameTruncated))
  | x :: rest =>
      if MAX_GREETER_FRAME_BYTES <=? len then (s, Err FrameTooLarge)
      else match x with
      | None => (rest, Err NdIo)
      | Some c =>
          if bool_decide (c = NEWLINE) then (rest, Ok EmptyString)
          else match read_frame_from (len + 1) rest with
               | (s, Ok frame) => (s, Ok (String c frame))
               | (s, Err e) => (s, Err e)
               end
      end
  end.
Definition read_frame (s : Stream) : Stream * result string NiralisdError :=
  read_frame_from 0 s.

(** What the socket of one connection has seen. *)
Record Socket := mkSocket {
  so_stream : Stream;
  so_write_faults : list bool;
  so_written : list string;
}.
Abbreviation SO := (SR Socket NiralisdError).

Definition socket_read_frame : SO string := λ s,
  let '(stream, r) := read_frame (so_stream s) in
  (mkSocket stream (so_write_faults s) (so_written s), r).

(** The line and its newline, flushed. *)
Definition write_line (bytes : string) : SO () := λ s,
  match so_write_faults s with
  | true :: faults => (mkSocket (so_stream s) faults (so_written s), Err NdIo)
  | false :: faults =>
      (mkSocket (so_stream s) faults (so_written s ++ [bytes]), Ok ())
  | [] => (mkSocket (so_stream s) [] (so_written s ++ [bytes]), Ok ())
  end.

Definition write_json_line {T} `{SerdeJson T} (value : T) : SO () :=
  let* encoded := sr_lift (ok_or (serde_to_vec value) NdJson) in
  if MAX_GREETER_FRAME_BYTES <? str_len encoded then sr_fail FrameTooLarge
  else write_line encoded.

Definition write_response `{SerdeJson GreeterResponseEnvelope}
    (response : GreeterResponseEnvelope) : SO () :=
  let* encoded := sr_lift (ok_or (serde_to_vec response) NdJson) in
  if MAX_GREETER_FRAME_BYTES <? str_len encoded
  then write_json_line (mkResponseEnvelope (gr_request_id response)
         (gr_connection_epoch response) (RespError "response unavailable"))
  else write_line encoded.

(** ** The identity of a connection *)

Definition hex_digit (n : Z) : Ascii.ascii :=
  Ascii.ascii_of_nat (Z.to_nat (if n <? 10 then 48 + n else 87 + n)).
Fixpoint hex_digits (k : nat) (n : Z) (acc : string) : string :=
  match k with
  | O => acc
  | S k => hex_digits k (n / 16) (String (hex_digit (n mod 16)) acc)
  end.
(** [{:016x}] of a [u64]. *)
Definition hex16 (n : Z) : string := hex_digits 16 n EmptyString.

(** The process-wide counters. *)
Record Counters := mkCounters {
  ct_next_connection_id : Z;
  ct_next_connection_epoch : Z;
}.

Definition next_connection_authority (generation : result Z ()) (seat : string)
    (peer : ValidatedPeerIdentity)
    : SR Counters NiralisdError GreeterConnectionAuthority := λ c,
  match generation with
  | Err _ => (c, Err ConnectionGenerationUnavailable)
  | Ok generation =>
      let ordinal := ct_next_connection_id c in
      let epoch := Z.max 1 (u64_wrapping_add generation (ct_next_connection_epoch c)) in
      (mkCounters (u64_wrapping_add ordinal 1)
         (u64_wrapping_add (ct_next_connection_epoch c) 1),
       Ok (mkConnection ("g" +:+ hex16 generation +:+ "-c" +:+ pretty ordinal)
             epoch seat peer))
  end.

(** ** Serving a connection *)

Record GreeterHandshakeResponse := mkHandshakeResponse {
  hr_protocol_version : Z;
  hr_connection_id : string;
  hr_connection_epoch : Z;
  hr_seat : string;
}.

(** [cl_dispatched] logs the envelopes that were acted upon. *)
Record Client := mkClient {
  cl_handler : DaemonHandler Socket;
  cl_sequence : MonotonicSequence;
  cl_request_ids : gset Z;
  cl_dispatched : list GreeterRequestEnvelope;
}.
Abbreviation CL := (SR Client NiralisdError).

Definition set_world (x : Socket) (h : DaemonHandler Socket) : DaemonHandler Socket :=
  mkHandler (hd_limiter h) (hd_table h) (hd_next_attempt_id h) (hd_logins h)
    (hd_cancelled h) x.
Definition on_handler (f : DaemonHandler Socket → DaemonHandler Socket) (c : Client)
    : Client :=
  mkClient (f (cl_handler c)) (cl_sequence c) (cl_request_ids c) (cl_dispatched c).
Definition on_socket {A} (m : SO A) : CL A :=
  sr_zoom (hd_world ∘ cl_handler) (λ x, on_handler (set_world x)) m.

Section Client.
Context `{!SerdeJson GreeterHandshake, !SerdeJson GreeterHandshakeResponse}.
Context `{!SerdeJson GreeterRequest, !SerdeJson GreeterRequestEnvelope}.
Context `{!SerdeJson GreeterResponseEnvelope}.
Context (host : DaemonHost Socket).

(** What other connections do to the table before the [i]-th frame is handled
    and while its login runs, and the two readings of the clock. *)
Context (others during : nat → TransactionTable → TransactionTable).
Context (clock : nat → Z * Z).

(** The checks of an envelope, before anything is done with it. *)
Definition accept_envelope (authority : GreeterConnectionAuthority)
    (e : GreeterRequestEnvelope) : CL () := λ c,
  if negb (is_ok (request_validate_shape e))
  then (c, Err (ProtocolRejected "invalid envelope"))
  else if negb (authority_matches authority (ge_connection_id e)
                  (ge_connection_epoch e) (ge_seat e))
  then (c, Err ConnectionAuthorityRejected)
  else match sequence_accept (ge_sequence e) (cl_sequence c) with
  | (_, Err _) => (c, Err (ProtocolRejected "non-monotonic sequence"))
  | (last, Ok _) =>
      let c := mkClient (cl_handler c) last (cl_request_ids c) (cl_dispatched c) in
      if bool_decide (ge_request_id e ∈ cl_request_ids c)
      then (c, Err (ProtocolRejected "duplicate request id"))
      else (mkClient (cl_handler c) last ({[ge_request_id e]} ∪ cl_request_ids c)
              (cl_dispatched c ++ [e]), Ok ())
  end.

Definition dispatch (i : nat) (authority : GreeterConnectionAuthority)
    (e : GreeterRequestEnvelope) : CL () := λ c,
  let run request :=
    handle_authenticated_with_transport host (during i) (clock i).1 (clock i).2
      authority (ge_request_id e) request (cl_handler c) in
  let '(h, result) :=
    match ge_payload e with
    | GrStatus => run ReqStatus
    | GrGetUsers => run ReqGetUsers
    | GrGetSessions => run ReqGetSessions
    | GrLogin username session secret => run (ReqLogin username secret session)
    | GrCancel target => cancel_request authority target (cl_handler c)
    end in
  on_socket (write_response (mkResponseEnvelope (ge_request_id e)
               (ga_connection_epoch authority) result)) (on_handler (λ _, h) c).

(** The loop; [fuel] bounds the number of frames. *)
Fixpoint client_loop (fuel : nat) (i : nat) (authority : GreeterConnectionAuthority)
    (c : Client) : option (Client * result () NiralisdError) :=
  match fuel with
  | O => None
  | S fuel =>
      match on_socket socket_read_frame c with
      | (c, Err FrameTruncated) => Some (c, Ok ())
      | (c, Err e) => Some (c, Err e)
      | (c, Ok frame) =>
          match serde_from_slice frame with
          | None => Some (c, Err (ProtocolRejected "invalid envelope"))
          | Some e =>
              match (accept_envelope authority e ;;; dispatch i authority e)
                      (on_handler (on_table (others i)) c) with
              | (c, Err e) => Some (c, Err e)
              | (c, Ok _) => client_loop fuel (S i) authority c
              end
          end
      end
  end.

(** From the issued authority on, the cleanup guard is armed. *)
Definition serve (fuel : nat) (authority : GreeterConnectionAuthority)
    (h : DaemonHandler Socket) : option (DaemonHandler Socket * list GreeterRequestEnvelope
                                         * result () NiralisdError) :=
  let c := mkClient h 0 ∅ [] in
  let finished x :=
    let '(c, r) := x in
    (disconnect authority (cl_handler c), cl_dispatched c, r) in
  match on_socket (write_json_line (mkHandshakeResponse GREETER_PROTOCOL_VERSION
               (ga_connection_id authority) (ga_connection_epoch authority)
               (ga_seat authority))) c with
  | (c, Err e) => Some (finished (c, Err e))
  | (c, Ok _) => finished <$> client_loop fuel 0 authority c
  end.

(** [peer] is [getsockopt(SO_PEERCRED)], [cloned] the outcome of duplicating
    the socket for the PAM conversation. *)
Definition handle_client (fuel : nat) (peer : option ValidatedPeerIdentity)
    (expected_uid expected_gid : Z) (generation : result Z ()) (cloned : bool)
    (seat : string) (counters : Counters) (h : DaemonHandler Socket)
    : option (Counters * DaemonHandler Socket * list GreeterRequestEnvelope
              * result () NiralisdError) :=
  let stop h e := Some (counters, h, [], Err e) in
  match peer with
  | None => stop h PeerCredentialsUnavailable
  | Some peer =>
      if negb (vp_uid peer =? expected_uid) || negb (vp_gid peer =? expected_gid)
      then stop h PeerCredentialsRejected
      else
        let '(x, frame) := socket_read_frame (hd_world h) in
        let h := set_world x h in
        match frame with
        | Err e => stop h e
        | Ok frame =>
            let valid := match serde_from_slice frame with
                         | Some hs => (gh_protocol_version hs =? GREETER_PROTOCOL_VERSION)
                                      && str_eqb (gh_message_type hs) "handshake"
                         | None => false
                         end in
            if negb valid then stop h (ProtocolRejected "invalid handshake")
            else match next_connection_authority generation seat peer counters with
            | (counters, Err e) => Some (counters, h, [], Err e)
            | (counters, Ok authority) =>
                if negb cloned then Some (counters, h, [], Err NdIo)
                else (λ '(h, log, r), (counters, h, log, r)) <$> serve fuel authority h
            end
        end
  end.
End Client.

(** ** Framing *)

Definition frame_bytes (frame : string) : Stream :=
  Some <$> String.list_ascii_of_string frame.

Lemma read_frame_from_shrinks len s :
  (length (read_frame_from len s).1 ≤ length s)%nat ∧
  (is_ok (read_frame_from len s).2 = true →
   (length (read_frame_from len s).1 < length s)%nat).
Proof.
  revert len. induction s as [|x s IH]; intros len; cbn; [done|].
  destruct (_ <=? _); [cbn; split; [lia|done]|].
  destruct x as [c|]; [|cbn; split; [lia|done]].
  case_bool_decide; [cbn; lia|]. destruct (IH (len + 1)) as [H1 H2].
  destruct (read_frame_from (len + 1) s) as [s' [f|e]]; cbn in *; [|split; [lia|done]].
  specialize (H2 eq_refl). lia.
Qed.

Lemma read_frame_from_exact len s rest frame :
  0 ≤ len →
  read_frame_from len s = (rest, Ok frame) ↔
  s = frame_bytes frame ++ Some NEWLINE :: rest ∧
  str_contains_byte NEWLINE frame = false ∧
  len + str_len frame < MAX_GREETER_FRAME_BYTES.
Proof.
  revert len frame. induction s as [|x s IH]; intros len frame Hlen.
  { cbn. split; [done|]. intros [Hs _]. by destruct frame. }
  cbn [read_frame_from]. destruct (Z.leb_spec MAX_GREETER_FRAME_BYTES len) as [Hm|Hm].
  { split; [done|]. unfold str_len. intros (_ & _ & ?). lia. }
  destruct x as [c|].
  2: { split; [done|]. intros [Hs _]. by destruct frame. }
  case_bool_decide as Hc.
  - subst c. split.
    + intros [= -> <-]. unfold str_len. cbn. split_and!; [done..|lia].
    + intros (Hs & Hn & _). destruct frame as [|c frame]; [by injection Hs as ->|].
      cbn in *. injection Hs as <- _. by rewrite bool_decide_eq_true_2 in Hn.
  - split.
    + destruct (read_frame_from (len + 1) s) as [s' [f|e]] eqn:HR; [|done].
      intros [= <- <-]. apply IH in HR as (-> & Hn & Hl); [|lia].
      unfold str_len, str_contains_byte in *. cbn. split_and!; [done| |lia].
      by rewrite Hn, bool_decide_eq_false_2.
    + intros (Hs & Hn & Hl). destruct frame as [|c' frame]; [by injection Hs as ->|].
      cbn in Hs, Hn. injection Hs as <- ->. apply orb_false_iff in Hn as [_ Hn].
      rewrite (proj2 (IH (len + 1) frame ltac:(lia))); [done|].
      unfold str_len in *. cbn in Hl. split_and!; [done..|lia].
Qed.

(** Framing is exact: a frame is read back precisely when it is what was
    sent up to the newline and shorter than the limit; nothing beyond it is
    consumed. *)
Theorem read_frame_exact s rest frame :
  read_frame s = (rest, Ok frame) ↔
  s = frame_bytes frame ++ Some NEWLINE :: rest ∧
  str_contains_byte NEWLINE frame = false ∧
  str_len frame < MAX_GREETER_FRAME_BYTES.
Proof. apply (read_frame_from_exact 0). done. Qed.

(** ** The handler under one connection *)

(** Keys of other connections only. *)
Definition keeps_own (a : GreeterConnectionAuthority)
    (f : TransactionTable → TransactionTable) : Prop :=
  ∀ t k, key_of_connection a k = true → f t !! k = t !! k.
(** No login of this connection is open. *)
Definition none_open (a : GreeterConnectionAuthority) (t : Shared TransactionTable)
    : Prop :=
  match t with
  | Poisoned => True
  | Healthy t => ∀ k, key_of_connection a k = true → t !! k ≠ Some PreCommitTx
  end.
Definition connection_binding (a : GreeterConnectionAuthority) (request_id : Z)
    : LoginRequestBinding :=
  mkLoginBinding (ga_connection_id a) (ga_connection_epoch a) request_id (ga_seat a).

Lemma key_own a n : key_of_connection a (key (connection_binding a n)) = true.
Proof. cbn. by rewrite !str_eqb_refl, Z.eqb_refl. Qed.

Section Effects.
Context (host : DaemonHost Socket).

(** What a login does to the handler. *)
Definition shared_map {A} (f : A → A) (s : Shared A) : Shared A :=
  match s with Healthy a => Healthy (f a) | Poisoned => Poisoned end.

Record login_effect (others : TransactionTable → TransactionTable) (username : string)
    (connection : option LoginRequestBinding) (h h' : DaemonHandler Socket) : Prop := {
  le_cancelled : hd_cancelled h' = hd_cancelled h;
  le_outcome :
    hd_table h' = hd_table h ∧ hd_logins h' = hd_logins h ∧ hd_world h' = hd_world h ∨
    hd_table h' = shared_map others (hd_table h) ∧
    ∃ x, hd_logins h' = hd_logins h ++ [x] ∧ la_connection x = connection ∧
         la_username x = username ∧ hd_world h' = (dh_login host x (hd_world h)).1;
}.

Lemma login_effect_limiter others u c h h' f :
  login_effect others u c h h' → login_effect others u c h (on_limiter f h').
Proof. by intros [? ?]. Qed.

Lemma handle_login_effect others t1 t2 u p s c h :
  login_effect others u c h (handle_login_with_binding host others t1 t2 u p s c h).1.
Proof.
  unfold handle_login_with_binding.
  assert (∃ h1 b, handler_is_limited u t1 h = (h1, b) ∧ hd_cancelled h1 = hd_cancelled h ∧
    hd_table h1 = hd_table h ∧ hd_logins h1 = hd_logins h ∧ hd_world h1 = hd_world h)
    as (h1 & b & -> & E1 & E2 & E3 & E4).
  { unfold handler_is_limited. destruct (hd_limiter h) as [l|]; [|by eexists _, _].
    destruct (is_limited u t1 l). by eexists _, _. }
  destruct b; [constructor; cbn; [done|by left]|].
  destruct (dh_resolve_launch_spec host s) as [[spec|]|e];
    try (constructor; cbn; [done|by left]).
  assert (∃ h2 id, next_login_attempt_id h1 = (h2, id) ∧ hd_cancelled h2 = hd_cancelled h1 ∧
    hd_table h2 = hd_table h1 ∧ hd_logins h2 = hd_logins h1 ∧ hd_world h2 = hd_world h1)
    as (h2 & id & -> & F1 & F2 & F3 & F4).
  { unfold next_login_attempt_id. case_match; by eexists _, _. }
  set (x := mkLoginAttempt u p (ls_session spec) spec id c).
  assert (∃ h3 r, backend_login host others x h2 = (h3, r) ∧ login_effect others u c h h3)
    as (h3 & r & -> & HE).
  { unfold backend_login. destruct (dh_login host x (hd_world h2)) as [y r] eqn:HD.
    eexists _, _. split; [reflexivity|]. constructor; cbn; [congruence|]. right.
    split; [by rewrite F2, E2|]. exists x. rewrite F3, E3. split_and!; [done..|].
    rewrite <- E4, <- F4, HD. done. }
  destruct r as [?|[]]; cbn; try exact HE; by apply login_effect_limiter.
Qed.

(** A login leaves no open entry of its connection. *)
Lemma finish_none_open a n f committed (h h' : DaemonHandler Socket) :
  keeps_own a f → none_open a (hd_table h) →
  hd_table h' = hd_table (begin (connection_binding a n) h) ∨
  hd_table h' = shared_map f (hd_table (begin (connection_binding a n) h)) →
  none_open a (hd_table (finish (connection_binding a n) committed h')).
Proof.
  intros Hf Hn Ht. set (b := connection_binding a n) in *.
  unfold none_open, finish, begin, on_table in *. cbn in *.
  destruct (hd_table h) as [t|]; [|destruct Ht as [-> | ->]; done].
  assert (∃ t', hd_table h' = Healthy t' ∧ ∀ k, key_of_connection a k = true →
            k ≠ key b → t' !! k = t !! k) as (t' & -> & Ht').
  { destruct Ht as [-> | ->]; (eexists; split; [reflexivity|]); intros k Hk Hne; cbn;
      rewrite ?(Hf _ k Hk); by apply lookup_insert_ne. }
  intros k Hk. destruct (decide (k = key b)) as [->|Hne].
  - destruct committed; unfold TransactionTable in *;
      [by rewrite lookup_insert_eq|by rewrite lookup_delete_eq].
  - specialize (Hn k Hk). rewrite <- (Ht' k Hk Hne) in Hn.
    destruct committed; unfold TransactionTable in *;
      [by rewrite lookup_insert_ne|by rewrite lookup_delete_ne].
Qed.

Lemma cancel_request_none_open a n (h h' : DaemonHandler Socket) r :
  none_open a (hd_table h) → cancel_request a n h = (h', r) →
  none_open a (hd_table h') ∧ hd_cancelled h' = hd_cancelled h ∧
  hd_logins h' = hd_logins h ∧ hd_world h' = hd_world h ∧
  r = RespError "request is not cancellable".
Proof.
  intros Hn. unfold cancel_request. change (mkLoginBinding _ _ _ _) with (connection_binding a n).
  pose proof (key_own a n) as Hk.
  assert (match hd_table h with
          | Healthy t => bool_decide (t !! key (connection_binding a n) = Some PreCommitTx)
          | Poisoned => false end = false) as ->.
  { unfold none_open in Hn. destruct (hd_table h); [|done].
    apply bool_decide_eq_false. by apply Hn. }
  intros [= <- <-]. split_and!; try done. cbn. unfold none_open in *.
  destruct (hd_table h) as [t|]; [|done]. unfold TransactionTable in *. intros k Hk'.
  destruct (decide (k = key (connection_binding a n))) as [->|];
    [by rewrite lookup_delete_eq|rewrite lookup_delete_ne by done; by apply Hn].
Qed.

Lemma disconnect_none_open a (h : DaemonHandler Socket) :
  none_open a (hd_table h) → hd_cancelled (disconnect a h) = hd_cancelled h.
Proof.
  unfold none_open, disconnect. destruct (hd_table h) as [t|] eqn:Ht; [|done].
  intros Hn. cbn.
  assert (filter (λ p, open_of_connection a p = true) (map_to_list t) = []) as ->;
    [|by rewrite app_nil_r].
  apply elem_of_nil_inv. intros [k s] [Ho Hks]%list_elem_of_filter.
  apply elem_of_map_to_list in Hks. unfold open_of_connection in Ho. cbn in Ho.
  apply andb_true_iff in Ho as [Hk Hs]. bool_facts. subst s. by apply (Hn k).
Qed.
End Effects.

Section ClientClaims.
Context `{!SerdeJson GreeterHandshake, !SerdeJson GreeterHandshakeResponse}.
Context `{!SerdeJson GreeterRequest, !SerdeJson GreeterRequestEnvelope}.
Context `{!SerdeJson GreeterResponseEnvelope}.
Context (host : DaemonHost Socket).
Context (others during : nat → TransactionTable → TransactionTable).
Context (clock : nat → Z * Z) (a : GreeterConnectionAuthority).

(** A login of the backend was asked for by a dispatched envelope. *)
Definition asked_by (es : list GreeterRequestEnvelope) (x : LoginAttempt) : Prop :=
  ∃ e session secret, e ∈ es ∧ ge_payload e = GrLogin (la_username x) session secret ∧
    la_connection x = Some (connection_binding a (ge_request_id e)).

(** The envelopes that were acted upon, against the authority. *)
Record dispatched_ok (es : list GreeterRequestEnvelope) : Prop := {
  do_sorted : StronglySorted Z.lt (ge_sequence <$> es);
  do_nodup : NoDup (ge_request_id <$> es);
  do_valid : Forall (λ e, request_validate_shape e = Ok () ∧
    ge_connection_id e = ga_connection_id a ∧
    ge_connection_epoch e = ga_connection_epoch a ∧ ge_seat e = ga_seat a) es;
}.
Record logins_ok (h0 h : DaemonHandler Socket) (es : list GreeterRequestEnvelope)
    : Prop := {
  lo_cancelled : hd_cancelled h = hd_cancelled h0;
  lo_open : none_open a (hd_table h);
  lo_logins : ∃ new, hd_logins h = hd_logins h0 ++ new ∧
    Forall (asked_by es) new ∧ NoDup (la_connection <$> new);
}.
Record client_inv (h0 : DaemonHandler Socket) (c : Client) : Prop := {
  ci_dispatched : dispatched_ok (cl_dispatched c);
  ci_sequence : Forall (λ e, ge_sequence e ≤ cl_sequence c) (cl_dispatched c);
  ci_ids : Forall (λ e, ge_request_id e ∈ cl_request_ids c) (cl_dispatched c);
  ci_logins : logins_ok h0 (cl_handler c) (cl_dispatched c);
}.

Lemma logins_ok_more h0 h es e : logins_ok h0 h es → logins_ok h0 h (es ++ [e]).
Proof.
  intros [Hc Ho (new & Hl & HF & Hn)]. constructor; [done..|]. exists new. split_and!; [done| |done].
  eapply Forall_impl; [exact HF|]. intros x (e' & s & p & He & ?).
  exists e', s, p. split; [|done]. apply elem_of_app. by left.
Qed.

Lemma client_inv_socket {A} h0 (m : SO A) c :
  client_inv h0 c → client_inv h0 (on_socket m c).1.
Proof.
  intros [? ? ? [? ? ?]]. unfold on_socket, sr_zoom. cbn.
  destruct (m _) as [x r]. constructor; [done..|]. by constructor.
Qed.

Lemma client_inv_others h0 f c :
  keeps_own a f → client_inv h0 c → client_inv h0 (on_handler (on_table f) c).
Proof.
  intros Hf [? ? ? [? Ho ?]]. constructor; [done..|]. constructor; [done| |done].
  cbn. unfold none_open in *. destruct (hd_table (cl_handler c)); [|done].
  intros k Hk. rewrite Hf by done. by apply Ho.
Qed.

Lemma StronglySorted_snoc (xs : list Z) y :
  StronglySorted Z.lt xs → Forall (λ x, x < y) xs → StronglySorted Z.lt (xs ++ [y]).
Proof.
  induction 1 as [|x xs HS IH HF]; intros HA; [repeat constructor|].
  apply Forall_cons in HA as [Hx HA]. cbn. constructor; [by apply IH|].
  apply Forall_app. split; [done|]. by apply Forall_singleton.
Qed.

(** An accepted envelope is new: later and with an id not seen before. *)
Lemma accept_envelope_inv h0 e c c' r :
  client_inv h0 c → accept_envelope a e c = (c', r) →
  client_inv h0 c' ∧ cl_handler c' = cl_handler c ∧
  (r = Ok () → cl_dispatched c' = cl_dispatched c ++ [e] ∧
     Forall (λ e', ge_request_id e' ≠ ge_request_id e) (cl_dispatched c)).
Proof.
  intros HI. pose proof HI as [[HS HN HV] HQ HD HL]. unfold accept_envelope.
  destruct (request_validate_shape e) as [[]|] eqn:Hsh; [|by intros [= <- <-]].
  destruct (authority_matches a _ _ _) eqn:Ha; [|by intros [= <- <-]].
  unfold sequence_accept. destruct (_ || _) eqn:Hseq; [by intros [= <- <-]|].
  cbn. unfold authority_matches in Ha. bool_facts.
  assert (Forall (λ e', ge_sequence e' < ge_sequence e) (cl_dispatched c)) as Hlt
    by (eapply Forall_impl; [exact HQ|]; cbn; intros; lia).
  case_bool_decide as Hid; intros [= <- <-].
  { split_and!; try done. constructor; [by constructor| |done..].
    eapply Forall_impl; [exact Hlt|]. cbn. intros. lia. }
  split_and!; [|done|]; cycle 1.
  { intros _. split; [done|]. eapply Forall_impl; [exact HD|]. cbn. congruence. }
  constructor; cbn; [|by apply Forall_app; split; [eapply Forall_impl; [exact Hlt|]; cbn; intros; lia|apply Forall_singleton]| |by apply logins_ok_more].
  - constructor; rewrite ?fmap_app; cbn.
    + apply StronglySorted_snoc; [done|]. by apply Forall_fmap.
    + apply NoDup_app. split_and!; [done| |apply NoDup_singleton].
      intros n (e' & -> & He')%list_elem_of_fmap Hs%list_elem_of_singleton.
      apply (proj1 (Forall_forall _ _) HD) in He'. cbn in He'. congruence.
    + apply Forall_app. split; [done|]. by apply Forall_singleton.
  - apply Forall_app. split; [|apply Forall_singleton; set_solver].
    eapply Forall_impl; [exact HD|]. cbn. set_solver.
Qed.

(** A request handled for an envelope with a new id. *)
Lemma handle_request_logins h0 f t1 t2 e es req h :
  keeps_own a f → logins_ok h0 h es →
  Forall (λ e', ge_request_id e' ≠ ge_request_id e) es →
  (∀ u p s, req = ReqLogin u p s → ge_payload e = GrLogin u s p) →
  logins_ok h0 (handle_authenticated_with_transport host f t1 t2 a (ge_request_id e) req h).1
    (es ++ [e]).
Proof.
  intros Hf HL Hnew Hreq. unfold handle_authenticated_with_transport.
  destruct req as [| | |u p s| |]; try by apply logins_ok_more.
  specialize (Hreq u p s eq_refl). destruct HL as [Hc Ho (new & Hl & HF & Hn)].
  change (mkLoginBinding _ _ _ _) with (connection_binding a (ge_request_id e)).
  set (b := connection_binding a (ge_request_id e)) in *.
  pose proof (handle_login_effect host f t1 t2 u p s (Some b) (begin b h)) as [Ec Eo].
  destruct (handle_login_with_binding _ _ _ _ _ _ _ _ _) as [h' res]. cbn in Ec, Eo |- *.
  constructor; cbn.
  - congruence.
  - apply (finish_none_open a (ge_request_id e) f _ h); [done..|].
    destruct Eo as [(-> & _)|(-> & _)]; [by left|by right].
  - destruct Eo as [(_ & El & _)|(_ & x & El & Ex & Eu & _)]; rewrite El, Hl; cbn.
    { destruct (logins_ok_more h0 h es e) as [_ _ (new' & Hl' & ?)]; [by constructor; eauto|].
      exists new'. by rewrite <- Hl'. }
    exists (new ++ [x]). rewrite (assoc_L (++)). split; [done|]. split.
    + apply Forall_app. split.
      * eapply Forall_impl; [exact HF|]. intros y (e' & s' & p' & He & ?).
        exists e', s', p'. split; [|done]. apply elem_of_app. by left.
      * apply Forall_singleton. exists e, s, p. rewrite Eu, Ex. split_and!; [|done..].
        apply elem_of_app. right. by apply list_elem_of_singleton.
    + rewrite fmap_app. apply NoDup_app. split_and!; [done| |apply NoDup_singleton].
      intros o (y & -> & Hy)%list_elem_of_fmap Hs%list_elem_of_singleton.
      apply (proj1 (Forall_forall _ _) HF) in Hy as (e' & s' & p' & He & _ & Hb).
      rewrite Hb, Ex in Hs. injection Hs as Hs.
      by apply (proj1 (Forall_forall _ _) Hnew) in He.
Qed.

Lemma on_socket_logins {A} h0 (m : SO A) c es :
  logins_ok h0 (cl_handler c) es →
  let c' := (on_socket m c).1 in
  logins_ok h0 (cl_handler c') es ∧ cl_dispatched c' = cl_dispatched c ∧
  cl_sequence c' = cl_sequence c ∧ cl_request_ids c' = cl_request_ids c.
Proof.
  intros [? ? ?]. unfold on_socket, sr_zoom. destruct (m _) as [x r]. cbn.
  by split_and!.
Qed.

Lemma dispatch_logins h0 i e es c :
  keeps_own a (during i) → logins_ok h0 (cl_handler c) es →
  Forall (λ e', ge_request_id e' ≠ ge_request_id e) es →
  let c' := (dispatch host during clock i a e c).1 in
  logins_ok h0 (cl_handler c') (es ++ [e]) ∧ cl_dispatched c' = cl_dispatched c ∧
  cl_sequence c' = cl_sequence c ∧ cl_request_ids c' = cl_request_ids c.
Proof.
  intros Hf HL Hnew. unfold dispatch. cbv zeta.
  match goal with |- context [match ?m with (h, result) => on_socket _ _ end] =>
    assert (logins_ok h0 m.1 (es ++ [e])) as HL'; [|destruct m as [h result]] end.
  - destruct (ge_payload e) eqn:Hp; try (apply handle_request_logins; try done; congruence).
    apply logins_ok_more. destruct HL as [Hc Ho Hl].
    destruct (cancel_request a request_id (cl_handler c)) as [h r] eqn:HC.
    apply cancel_request_none_open in HC as (Ho' & E1 & E2 & _); [|done].
    constructor; cbn; [congruence|done|by rewrite E2].
  - by apply (on_socket_logins h0 _ (on_handler (λ _, h) c)).
Qed.

Context (Hothers : ∀ i, keeps_own a (others i)) (Hduring : ∀ i, keeps_own a (during i)).

Lemma client_loop_inv h0 fuel i c c' r :
  client_inv h0 c → client_loop host others during clock fuel i a c = Some (c', r) →
  client_inv h0 c'.
Proof.
  revert i c. induction fuel as [|fuel IH]; intros i c HI; [done|]. cbn.
  pose proof (client_inv_socket h0 socket_read_frame c HI) as HI1.
  destruct (on_socket socket_read_frame c) as [c1 [frame|e]]; cbn in HI1;
    [|destruct e; intros [= <- _]; exact HI1].
  destruct (serde_from_slice frame) as [e|]; [|intros [= <- _]; exact HI1].
  pose proof (client_inv_others h0 (others i) c1 (Hothers i) HI1) as HI2.
  set (c2 := on_handler _ c1) in *. rewrite sr_bind_eq.
  destruct (accept_envelope a e c2) as [c3 [[]|er]] eqn:HA;
    apply (accept_envelope_inv h0) in HA as (HI3 & Eh & Hd); try done;
    [|intros [= <- _]; exact HI3].
  destruct (Hd eq_refl) as [Ed Hnew].
  destruct HI2 as [_ _ _ HL2]. rewrite <- Eh in HL2.
  pose proof (dispatch_logins h0 i e _ c3 (Hduring i) HL2 Hnew) as (HL & E1 & E2 & E3).
  destruct HI3 as [HD3 HQ3 HR3 _].
  assert (client_inv h0 (dispatch host during clock i a e c3).1) as HI4.
  { constructor; rewrite ?E1, ?E2, ?E3; try done. by rewrite Ed. }
  destruct (dispatch _ _ _ _ _ _ c3) as [c4 [[]|er]]; [by apply IH|].
  intros [= <- _]. exact HI4.
Qed.

Lemma serve_inv fuel h h' es r :
  none_open a (hd_table h) →
  serve host others during clock fuel a h = Some (h', es, r) →
  dispatched_ok es ∧ ∃ h1, h' = disconnect a h1 ∧ logins_ok h h1 es.
Proof.
  intros Ho. unfold serve.
  assert (client_inv h (mkClient h 0 ∅ [])) as HI.
  { constructor; [constructor; constructor|done|done|]. constructor; [done..|].
    exists []. rewrite app_nil_r. split_and!; [done..|constructor]. }
  apply (client_inv_socket h (write_json_line (mkHandshakeResponse
    GREETER_PROTOCOL_VERSION (ga_connection_id a) (ga_connection_epoch a) (ga_seat a)))) in HI.
  destruct (on_socket _ _) as [c [[]|e]]; cbn in HI.
  - destruct (client_loop _ _ _ _ fuel 0 a c) as [[c' r']|] eqn:HL; [|done].
    apply (client_loop_inv h) in HL as [HD _ _ HL]; [|done]. intros [= <- <- <-]. eauto.
  - destruct HI as [HD _ _ HL]. intros [= <- <- <-]. eauto.
Qed.

(** Cancellation never cancels: the loop serves one request at a time, so
    when a cancel request or the end of the connection is handled, no login of
    this connection is open; in no run of a connection is the backend's
    [cancel_login] called, whatever other connections do to the shared table. *)
Theorem cancel_never_reaches_backend fuel h h' es r :
  none_open a (hd_table h) →
  serve host others during clock fuel a h = Some (h', es, r) →
  hd_cancelled h' = hd_cancelled h.
Proof.
  intros Ho HS. apply serve_inv in HS as (_ & h1 & -> & [Hc Hn _]); [|done].
  by rewrite disconnect_none_open.
Qed.

(** ** Termination *)

Definition stream_len (h : DaemonHandler Socket) : nat := length (so_stream (hd_world h)).
Context (Hshrink : ∀ x w, (length (so_stream (dh_login host x w).1) ≤ length (so_stream w))%nat).

Lemma write_line_stream bytes s : so_stream (write_line bytes s).1 = so_stream s.
Proof. unfold write_line. by destruct (so_write_faults s) as [|[] ?]. Qed.
Lemma write_json_line_stream {T} `{SerdeJson T} (v : T) s :
  so_stream (write_json_line v s).1 = so_stream s.
Proof.
  unfold write_json_line. rewrite sr_bind_eq. cbn.
  destruct (serde_to_vec v); cbn; [|done]. case_match; [done|apply write_line_stream].
Qed.
Lemma write_response_stream v s : so_stream (write_response v s).1 = so_stream s.
Proof.
  unfold write_response. rewrite sr_bind_eq. cbn. destruct (serde_to_vec v); cbn; [|done].
  case_match; [apply write_json_line_stream|apply write_line_stream].
Qed.

Lemma on_socket_stream {A} (m : SO A) c :
  (length (so_stream (m (hd_world (cl_handler c))).1) ≤ stream_len (cl_handler c))%nat →
  (stream_len (cl_handler (on_socket m c).1) ≤ stream_len (cl_handler c))%nat.
Proof. unfold on_socket, sr_zoom. cbn. by destruct (m _). Qed.

Lemma handle_request_stream f t1 t2 n req h :
  (stream_len (handle_authenticated_with_transport host f t1 t2 a n req h).1
     ≤ stream_len h)%nat.
Proof.
  unfold handle_authenticated_with_transport. destruct req as [| | |u p s| |]; try done.
  set (b := mkLoginBinding _ _ _ _).
  pose proof (handle_login_effect host f t1 t2 u p s (Some b) (begin b h)) as [_ Eo].
  destruct (handle_login_with_binding _ _ _ _ _ _ _ _ _) as [h' res].
  unfold stream_len. cbn in *.
  destruct Eo as [(_ & _ & ->)|(_ & x & _ & _ & _ & ->)]; [done|apply Hshrink].
Qed.

Lemma dispatch_stream i e c :
  (stream_len (cl_handler (dispatch host during clock i a e c).1)
     ≤ stream_len (cl_handler c))%nat.
Proof.
  unfold dispatch. cbv zeta.
  match goal with |- context [match ?m with (h, result) => on_socket _ _ end] =>
    assert (stream_len m.1 ≤ stream_len (cl_handler c))%nat as HL; [|destruct m as [h result]] end.
  - destruct (ge_payload e); try apply handle_request_stream.
    unfold cancel_request. by case_match.
  - etrans; [|exact HL]. apply (on_socket_stream _ (on_handler (λ _, h) c)).
    by rewrite write_response_stream.
Qed.

Lemma client_loop_terminates fuel i c :
  (stream_len (cl_handler c) < fuel)%nat →
  is_Some (client_loop host others during clock fuel i a c).
Proof.
  revert i c. induction fuel as [|fuel IH]; intros i c Hf; [lia|]. cbn.
  pose proof (read_frame_from_shrinks 0 (so_stream (hd_world (cl_handler c)))) as [_ Hr].
  unfold on_socket, sr_zoom, socket_read_frame, read_frame in *. cbn in *.
  destruct (read_frame_from 0 _) as [s1 [frame|e]]; [|by destruct e].
  cbn in Hr. specialize (Hr eq_refl). destruct (serde_from_slice frame) as [e|]; [|done].
  set (c2 := on_handler _ _).
  assert (stream_len (cl_handler c2) < fuel)%nat as Hc2
    by (unfold c2, stream_len in *; cbn in *; lia).
  rewrite sr_bind_eq. destruct (accept_envelope a e c2) as [c3 [[]|er]] eqn:HA; [|done].
  assert (cl_handler c3 = cl_handler c2) as Eh.
  { unfold accept_envelope in HA. repeat (case_match; try done). by simplify_eq/=. }
  pose proof (dispatch_stream i e c3) as HD.
  destruct (dispatch _ _ _ _ _ _ c3) as [c4 [[]|er]]; [|done].
  apply IH. rewrite Eh in HD. cbn [fst] in HD. lia.
Qed.

(** C37. A connection is served to its end and only within its authority: with
    fuel for every byte, and a backend that only consumes input, serving
    returns; the requests acted upon are well formed, carry this connection's
    id, epoch and seat, have strictly increasing sequence numbers and distinct
    request ids; and every login the backend saw answers one of them, none
    twice. *)
Theorem client_served_within_authority fuel h :
  none_open a (hd_table h) → (stream_len h < fuel)%nat →
  ∃ h' es r new, serve host others during clock fuel a h = Some (h', es, r) ∧
    dispatched_ok es ∧ hd_logins h' = hd_logins h ++ new ∧
    Forall (asked_by es) new ∧ NoDup (la_connection <$> new).
Proof.
  intros Ho Hf.
  assert (is_Some (serve host others during clock fuel a h)) as [[[h' es] r] HS].
  { unfold serve.
    pose proof (on_socket_stream (write_json_line (mkHandshakeResponse
      GREETER_PROTOCOL_VERSION (ga_connection_id a) (ga_connection_epoch a) (ga_seat a)))
      (mkClient h 0 ∅ [])) as Hw. rewrite write_json_line_stream in Hw.
    specialize (Hw (le_n _)). cbn [cl_handler] in Hw.
    destruct (on_socket _ _) as [c [[]|e]]; [|done]. cbn in Hw.
    destruct (client_loop_terminates fuel 0 c) as [[c' r] ->]; [lia|]. done. }
  exists h', es, r. pose proof HS as HS'.
  apply serve_inv in HS' as (HD & h1 & -> & [_ _ (new & Hl & HF & Hn)]); [|done].
  exists new. split_and!; try done. unfold disconnect. by destruct (hd_table h1).
Qed.
End ClientClaims.

(** ** Connection ids *)

Fixpoint issue_connections (n : nat) (generation : Z) (seat : string)
    (peer : ValidatedPeerIdentity) (c : Counters) : list GreeterConnectionAuthority :=
  match n with
  | O => []
  | S n => match next_connection_authority (Ok generation) seat peer c with
           | (c, Ok a) => a :: issue_connections n generation seat peer c
           | (_, Err _) => []
           end
  end.

Lemma issued_ids n generation seat peer c :
  0 ≤ ct_next_connection_id c → ct_next_connection_id c + Z.of_nat n ≤ 2 ^ 64 →
  ga_connection_id <$> issue_connections n generation seat peer c =
  (λ k, "g" +:+ hex16 generation +:+ "-c" +:+ pretty (ct_next_connection_id c + Z.of_nat k))
    <$> seq 0 n.
Proof.
  revert c. induction n as [|n IH]; intros c H0 Hn; [done|].
  cbn -[pretty hex16]. rewrite Z.add_0_r. f_equal.
  destruct (decide (n = O)) as [->|Hne]; [done|].
  rewrite IH; cbn -[pretty hex16]; rewrite ?u64_wrapping_add_small; unfold u64_max; try lia.
  rewrite <- (fmap_S_seq 0 n), <- list_fmap_compose. apply list_fmap_ext.
  intros i k _. cbn -[pretty hex16 Z.of_nat].
  by replace (ct_next_connection_id c + 1 + Z.of_nat k)
    with (ct_next_connection_id c + Z.of_nat (S k)) by lia.
Qed.

(** The connections of one run of the daemon have pairwise distinct ids, as
    long as its counter has not wrapped. *)
Theorem connection_ids_distinct n generation seat peer c :
  0 ≤ ct_next_connection_id c → ct_next_connection_id c + Z.of_nat n ≤ 2 ^ 64 →
  NoDup (ga_connection_id <$> issue_connections n generation seat peer c).
Proof.
  intros H0 Hn. rewrite issued_ids by done. apply NoDup_fmap_2; [|apply NoDup_seq].
  intros i j H. do 3 apply (inj (String.app _)) in H. apply (inj pretty) in H. lia.
Qed.
