(* ===== verification/AdminRecovery.v ===== *)
(** * Administrative recovery

    [supervisor_loop/admin.rs], [admin_finalization.rs] and [admin_support.rs]:
    the request of an administrator to retry the disallocation of a VT that was
    busy when its session was cleaned up.  The host answers the inspections and
    performs the one ioctl; [as_ioctls] logs every ioctl together with the
    ledger at that moment. *)

From stdpp Require Import base gmap sets list strings pretty.
From Stdlib Require Import ZArith Lia.
From S2P Require Import Prelude DirFs RecoveryTypes LedgerTaxonomy Ledger.
From S2P Require Import LedgerDurability PreviousBoot PreCommit SameBoot.
From S2P Require Import Admission.
#[local] Open Scope niralis_scope.

(** ** Requests and responses *)

Inductive RecoveryOperationState :=
| RosNotStarted
| RosIntentPersisted (attempt_id : Z)
| RosConfirmed (attempt_id : Z)
| RosFailed (attempt_id failure_class : Z)
| RosIndeterminate (attempt_id stage : Z).

Record RecoveryOperationLedger := mkRecoveryOperationLedger {
  rol_payload_kill : RecoveryOperationState;
  rol_supervisor_unref : RecoveryOperationState;
  rol_logind_termination : RecoveryOperationState;
  rol_selinux_restore : RecoveryOperationState;
  rol_vt_activation : RecoveryOperationState;
  rol_vt_disallocate : RecoveryOperationState;
  rol_runtime_release : RecoveryOperationState;
  rol_record_resolution : RecoveryOperationState;
}.

Record RecoveryVtInspection := mkInspection {
  ri_seat : string;
  ri_record_id : string;
  ri_sequence : Z;
  ri_target_vt : Z;
  ri_quarantine_reason : option string;
  ri_operation_ledger : RecoveryOperationLedger;
  ri_provenance : option VtBusyProvenance;
  ri_attempts : list VtRecoveryAttempt;
}.

Inductive RecoveryAdminRequest :=
| InspectVt (seat record_id : string)
| RetryVtDisallocate (seat record_id : string) (record_sequence : Z)
    (acknowledge_indeterminate : option Z).

Inductive RecoveryAdminResponse :=
| Inspection (i : RecoveryVtInspection)
| RetryAccepted (record_id : string) (sequence attempt_id : Z)
| Rejected (reason : string) (sequence : option Z).

(** ** The host *)

Inductive RecoveryAdminBoundaryFacts :=
| BfAbsent | BfPopulated | BfWorkerAlive | BfLauncherAlive | BfLogindPresent
| BfAuthorityChanged | BfAuthorityLost | BfProcessIdentityReused | BfIndeterminate.
Definition is_absent (f : RecoveryAdminBoundaryFacts) : bool :=
  match f with BfAbsent => true | _ => false end.

Record SupervisorVtIdentity := mkVtIdentity {
  vi_seat : string;
  vi_number : Z;
  vi_previous : PreviousVtIdentity;
  vi_device_major : Z;
  vi_device_minor : Z;
}.

(** [RecoveryAdminHost]; [ah_inspect_vt] answers the inspection before the
    ioctl, [ah_inspect_after] the one after it. *)
Record RecoveryAdminHost := mkAdminHost {
  ah_inspect_boundary : PersistentRecoveryRecord → RecoveryAdminBoundaryFacts;
  ah_inspect_vt : PersistentRecoveryRecord → Z → VtBusyProvenance;
  ah_inspect_after : PersistentRecoveryRecord → Z → VtBusyProvenance;
  ah_persisted_vt_identity :
    PersistentRecoveryRecord → result SupervisorVtIdentity SupervisorRecoveryError;
  ah_disallocate_vt_once : Z → result () SupervisorRecoveryError;
  ah_runtime_release : PersistentRecoveryRecord → result () SupervisorRecoveryError;
}.

Record AdminState := mkAdminState {
  as_admission : AdmissionWorld;
  as_ledger : PersistentRecoveryLedger;
  as_ioctls : list (Z * PersistentRecoveryLedger);
}.
Abbreviation AS := (SR AdminState).

Definition with_ledger {E A} (f : IoError → E) (m : LG A) : AS E A :=
  sr_map_err f (sr_zoom as_ledger
    (λ l s, mkAdminState (as_admission s) l (as_ioctls s)) m).
Definition with_admission {E A} (f : SessionError → E) (m : AW A) : AS E A :=
  sr_map_err f (sr_zoom as_admission
    (λ w s, mkAdminState w (as_ledger s) (as_ioctls s)) m).
Definition log_ioctl {E} (vt : Z) : AS E () :=
  sr_modify (λ s, mkAdminState (as_admission s) (as_ledger s)
                    (as_ioctls s ++ [(vt, as_ledger s)])).

(** ** Support *)

Definition reject (reason : string) (sequence : option Z) : RecoveryAdminResponse :=
  Rejected reason sequence.

Definition operation_state (s : DurableOperationState) : RecoveryOperationState :=
  match s with
  | NotStarted => RosNotStarted
  | IntentPersisted a => RosIntentPersisted a
  | Confirmed a => RosConfirmed a
  | OpFailed a f => RosFailed a f
  | Indeterminate a s => RosIndeterminate a s
  end.
Definition operation_ledger (o : DurableOperationLedger) : RecoveryOperationLedger :=
  mkRecoveryOperationLedger (operation_state (ol_payload_kill o))
    (operation_state (ol_supervisor_unref o))
    (operation_state (ol_logind_termination o))
    (operation_state (ol_selinux_restore o)) (operation_state (ol_vt_activation o))
    (operation_state (ol_vt_disallocate o)) (operation_state (ol_runtime_release o))
    (operation_state (ol_record_resolution o)).

Definition inspection (r : PersistentRecoveryRecord) : RecoveryAdminResponse :=
  Inspection (mkInspection (pr_seat r) (pr_lifecycle_id r) (pr_sequence r)
    (match pr_target_vt r with Some vt => vt | None => 0 end)
    (pr_quarantine_reason r) (operation_ledger (pr_operation_ledger r))
    (pr_vt_busy_provenance r) (pr_vt_recovery_attempts r)).

Definition inspect_request (seat record_id : string) (l : PersistentRecoveryLedger)
    : RecoveryAdminResponse :=
  match lg_records l !! record_id with
  | None => reject "record does not exist" None
  | Some r =>
      if negb (str_eqb (pr_seat r) seat)
      then reject "seat does not match record" (Some (pr_sequence r))
      else inspection r
  end.

Definition next_attempt_id (r : PersistentRecoveryRecord) : Z :=
  u64_saturating_add
    (foldr Z.max 0 (va_attempt_id <$> pr_vt_recovery_attempts r)) 1.

Definition attempt (id sequence : Z) (st : VtRecoveryAttemptState)
    (before : VtBusyProvenance) (after : option VtBusyProvenance)
    : VtRecoveryAttempt :=
  mkVtRecoveryAttempt id 0 sequence st before after.

Definition EIO : Z := 5.

(** The derived [Debug] text of the error. *)
Definition debug_recovery_error (e : SupervisorRecoveryError) : string :=
  let errno name n := name +:+ "(" +:+ pretty (n : Z) +:+ ")" in
  match e with
  | InvalidRecord => "InvalidRecord"
  | InvalidPayloadIdentity => "InvalidPayloadIdentity"
  | BoundaryIdentityChanged => "BoundaryIdentityChanged"
  | BusUnavailable => "BusUnavailable"
  | AuthorizationDenied action op =>
      let q := String (Ascii.ascii_of_nat 34) EmptyString in
      "AuthorizationDenied { action: " +:+ q +:+ action +:+ q +:+ ", operation: "
        +:+ match op with SuoRef => "Ref" | SuoKill => "Kill" | SuoUnref => "Unref" end
        +:+ " }"
  | BusDeliveryIndeterminate => "BusDeliveryIndeterminate"
  | LeaderPidfdUnavailable => "LeaderPidfdUnavailable"
  | LeaderAlreadyDead => "LeaderAlreadyDead"
  | LeaderStillAlive => "LeaderStillAlive"
  | BoundaryStillPopulated => "BoundaryStillPopulated"
  | BoundaryObserverUnavailable => "BoundaryObserverUnavailable"
  | BoundaryTimedOut => "BoundaryTimedOut"
  | SupervisorUnrefFailed => "SupervisorUnrefFailed"
  | LogindUnavailable => "LogindUnavailable"
  | LogindIdentityChanged => "LogindIdentityChanged"
  | LogindCleanupIndeterminate => "LogindCleanupIndeterminate"
  | LogindRemovalTimedOut => "LogindRemovalTimedOut"
  | VtIdentityChanged => "VtIdentityChanged"
  | VtOpenFailed n => errno "VtOpenFailed"%string n
  | VtKernelRestoreFailed n => errno "VtKernelRestoreFailed"%string n
  | SelinuxRestoreFailed n => errno "SelinuxRestoreFailed"%string n
  | VtActivationFailed n => errno "VtActivationFailed"%string n
  | VtDisallocateBusy => "VtDisallocateBusy"
  | VtDisallocateFailed n => errno "VtDisallocateFailed"%string n
  | SystemdOwnerChanged => "SystemdOwnerChanged"
  | LogindOwnerChanged => "LogindOwnerChanged"
  | UnknownPayloadScope => "UnknownPayloadScope"
  end.

(** ** The retry *)

Section Admin.
Context `{SerdeJson PersistentRecoveryRecord}.
Context (boot : result string IoError) (host : RecoveryAdminHost).

Definition is_same_boot_record (r : PersistentRecoveryRecord) : bool :=
  match boot with
  | Ok current => str_eqb current (pr_created_boot_id r)
  | Err _ => false
  end.

(** After the removal of the record: receipt, permit, publication. *)
Definition publish_admin_free (removed : Binding) : AS string () :=
  let* receipt := λ s,
    (s, map_err (λ _, "seat authority changed before finalization receipt"%string)
          (issue_admin_finalization_receipt removed
             (aw_controller (as_admission s)))) in
  let* permit := with_ledger (λ _, "seat free preconditions changed"%string)
                   (issue_seat_free_permit removed) in
  with_ledger (λ _, "seat free preconditions changed"%string)
    (consume_seat_free_permit permit) ;;;
  with_admission (λ _, "seat authority changed before publication"%string)
    (release_after_admin_finalization receipt).

Definition release_admin_record (record_id : string) (attempt_id : Z)
    (resolved_snapshot : RecoveryStateSnapshot) (resolved runtime_permit : Binding)
    : AS string () :=
  match ah_runtime_release host (ss_record resolved_snapshot) with
  | Err e =>
      with_ledger (λ _, "could not persist runtime release failure"%string)
        (operation_failed boot record_id "runtime_release" attempt_id EIO) ;;;
      sr_fail ("runtime release failed: " +:+ debug_recovery_error e)
  | Ok _ =>
      let* res := with_ledger
        (λ _, "could not persist runtime release confirmation"%string)
        (confirm_runtime_release_typed boot resolved_snapshot resolved
           runtime_permit) in
      let '(released_snapshot, resolved, confirmed, removal_permit) := res in
      let* removed := with_ledger
        (λ _, "could not remove the exact resolved record"%string)
        (remove_record_typed released_snapshot resolved confirmed
           removal_permit) in
      publish_admin_free removed
  end.

Definition finalize_admin_record (record_id : string) (attempt_id : Z)
    (record : PersistentRecoveryRecord) : AS string () :=
  let* b := sr_lift (map_err (λ _, "invalid recovery boot identity"%string)
              (BootIdentity_parse (pr_created_boot_id record))) in
  let* snapshot := sr_lift (map_err (λ _, "stale recovery authority"%string)
                     (snapshot_from_record b record)) in
  let* completion := sr_lift (map_err (λ _, "invalid completion proof"%string)
                       (completion_from_snapshot snapshot)) in
  let* res := with_ledger (λ _, "could not persist RecordResolved"%string)
                (mark_record_resolved_typed boot snapshot completion) in
  let '(resolved_snapshot, resolved, runtime_permit) := res in
  release_admin_record record_id attempt_id resolved_snapshot resolved runtime_permit.

Definition finalize_admin_success (record_id : string) (attempt_id : Z)
    : AS string () := λ s,
  match lg_records (as_ledger s) !! record_id with
  | None => (s, Err "recovery record disappeared"%string)
  | Some record => finalize_admin_record record_id attempt_id record s
  end.

(** The guards before the host is asked about the VT. *)
Definition retry_refusal (seat record_id : string) (record_sequence : Z)
    (ack : option Z) (l : PersistentRecoveryLedger) (record : PersistentRecoveryRecord)
    : option RecoveryAdminResponse :=
  let sequence := Some (pr_sequence record) in
  if negb (str_eqb (pr_seat record) seat) || negb (pr_sequence record =? record_sequence)
  then Some (reject "record identity or sequence changed" sequence)
  else if negb (is_same_boot_record record)
          || negb (str_eqb (pr_state record) "quarantined")
          || negb (bool_decide (pr_quarantine_reason record
                                  = Some "vt_disallocate_busy"%string))
  then Some (reject "record is not an eligible VT busy quarantine" sequence)
  else if existsb (λ other, str_eqb (pr_seat other) seat
                     && negb (str_eqb (pr_lifecycle_id other) record_id)
                     && (pr_sequence record <=? pr_sequence other)) (records_list l)
  then Some (reject "a newer record exists for this seat" sequence)
  else if bool_decide (pr_vt_busy_provenance record = None)
  then Some (reject "no durable busy provenance" sequence)
  else
    let rest :=
      if negb (is_confirmed (ol_payload_kill (pr_operation_ledger record)))
         || negb (is_confirmed (ol_supervisor_unref (pr_operation_ledger record)))
      then Some (reject "payload boundary has not been durably finalized" sequence)
      else if negb (is_absent (ah_inspect_boundary host record))
      then Some (reject "recovery boundary, worker, launcher, or logind session is not proven absent" sequence)
      else None in
    match last (pr_vt_recovery_attempts record) with
    | Some previous =>
        match va_state previous with
        | VraIndeterminate =>
            if negb (bool_decide (ack = Some (va_attempt_id previous)))
            then Some (reject "indeterminate attempt requires exact acknowledgement" sequence)
            else rest
        | VraIntentPersisted =>
            Some (reject "previous administrative attempt is indeterminate and requires durable resolution" sequence)
        | _ => rest
        end
    | None => rest
    end.

Definition unavailable : IoError → SessionError := λ _, PersistentRecoveryUnavailable.

(** What follows the ioctl. *)
Definition after_disallocate (record_id : string) (record_sequence : Z)
    (record : PersistentRecoveryRecord) (vt : SupervisorVtIdentity) (id : Z)
    : AS SessionError RecoveryAdminResponse :=
  match ah_disallocate_vt_once host (vi_number vt) with
  | Ok _ =>
      let after := ah_inspect_after host record (vi_number vt) in
      if negb (bool_decide (vb_target_is_foreground after = Some false)) then
        with_ledger unavailable
          (finish_vt_recovery_attempt boot record_id id VraIndeterminate (Some after)) ;;;
        sr_ret (reject "VT state changed after administrative ioctl" None)
      else
        with_ledger unavailable
          (operation_confirmed boot record_id "vt_disallocate" id) ;;;
        with_ledger unavailable
          (finish_vt_recovery_attempt boot record_id id VraConfirmed (Some after)) ;;;
        λ s, match finalize_admin_success record_id id s with
             | (s, Err reason) => (s, Ok (reject reason None))
             | (s, Ok _) =>
                 (s, Ok (RetryAccepted record_id
                           (u64_saturating_add record_sequence 3) id))
             end
  | Err VtDisallocateBusy =>
      let after := ah_inspect_after host record (vi_number vt) in
      with_ledger unavailable
        (finish_vt_recovery_attempt boot record_id id (VraFailed EBUSY) (Some after)) ;;;
      with_ledger unavailable (record_vt_busy_provenance boot record_id after) ;;;
      sr_ret (RetryAccepted record_id (u64_saturating_add record_sequence 2) id)
  | Err error =>
      let errno := match error with VtDisallocateFailed errno => errno | _ => EIO end in
      with_ledger unavailable
        (finish_vt_recovery_attempt boot record_id id (VraFailed errno) None) ;;;
      sr_ret (reject ("VT retry failed: " +:+ debug_recovery_error error) None)
  end.

Definition vt_preconditions (vt : SupervisorVtIdentity) (p : VtBusyProvenance) : bool :=
  bool_decide (vb_target_is_foreground p = Some false)
  && match vb_classification p with KernelBusyUnattributed => true | _ => false end
  && bool_decide (vb_observed_active_vt p = Some (pv_number (vi_previous vt))).

Definition retry_vt_disallocate (seat record_id : string) (record_sequence : Z)
    (ack : option Z) : AS SessionError RecoveryAdminResponse := λ s,
  match lg_records (as_ledger s) !! record_id with
  | None => (s, Ok (reject "record does not exist" None))
  | Some record =>
  match retry_refusal seat record_id record_sequence ack (as_ledger s) record with
  | Some refusal => (s, Ok refusal)
  | None =>
  match ah_persisted_vt_identity host record with
  | Err _ => (s, Ok (reject "VT identity unavailable" (Some (pr_sequence record))))
  | Ok vt =>
      let provenance := ah_inspect_vt host record (vi_number vt) in
      let id := next_attempt_id record in
      (if negb (vt_preconditions vt provenance) then
         with_ledger unavailable
           (append_vt_recovery_attempt boot record_id
              (attempt id record_sequence (VraRejected "VT preconditions changed")
                 provenance None)) ;;;
         sr_ret (reject "VT preconditions changed"
                   (Some (u64_saturating_add (pr_sequence record) 1)))
       else
         with_admission (λ _, SessionSeatUnavailable)
           (enter_quarantine_for_admin record_id) ;;;
         with_ledger unavailable
           (append_vt_recovery_attempt boot record_id
              (attempt id record_sequence VraIntentPersisted provenance None)) ;;;
         log_ioctl (vi_number vt) ;;;
         after_disallocate record_id record_sequence record vt id) s
  end end end.

(** The ledger is behind a mutex that may be absent or poisoned. *)
Record SupervisorAdmin := mkSupervisorAdmin {
  sp_admission : AdmissionWorld;
  sp_ledger : option (Shared PersistentRecoveryLedger);
  sp_ioctls : list (Z * PersistentRecoveryLedger);
}.

Definition recovery_admin (request : RecoveryAdminRequest)
    : SR SupervisorAdmin SessionError RecoveryAdminResponse := λ s,
  match sp_ledger s with
  | None => (s, Ok (reject "persistent recovery is unavailable" None))
  | Some Poisoned => (s, Err PersistentRecoveryUnavailable)
  | Some (Healthy l) =>
      match request with
      | InspectVt seat record_id => (s, Ok (inspect_request seat record_id l))
      | RetryVtDisallocate seat record_id record_sequence ack =>
          let '(st, r) := retry_vt_disallocate seat record_id record_sequence ack
                            (mkAdminState (sp_admission s) l (sp_ioctls s)) in
          (mkSupervisorAdmin (as_admission st) (Some (Healthy (as_ledger st)))
             (as_ioctls st), r)
      end
  end.
End Admin.

Lemma quarantine_admin_taken id w :
  match enter_quarantine_for_admin id w with
  | (w', Ok _) => is_free (aw_controller w') = false
  | (w', Err _) => w' = w
  end.
Proof.
  unfold enter_quarantine_for_admin.
  destruct (str_is_empty id); [done|].
  destruct (quarantined_is id (aw_controller w)) eqn:Hq.
  - apply quarantined_is_true in Hq as (? & ? & Hl). unfold is_free. by rewrite Hl.
  - by destruct (_ || _).
Qed.

(** ** What each part of the state allows *)

Section AdminFacts.
Context `{SerdeJson PersistentRecoveryRecord}.
Context (boot : result string IoError) (host : RecoveryAdminHost).

(** A triple on the ledger, with the admission world as a frame. *)
Lemma with_ledger_triple {E A} (f : IoError → E) (m : LG A) P Q X w :
  sr_triple P m Q X →
  sr_triple (λ s, P (as_ledger s) ∧ as_admission s = w)
    (with_ledger f m)
    (λ a s, Q a (as_ledger s) ∧ as_admission s = w)
    (λ s, as_admission s = w).
Proof.
  intros Hm s [HP HF]. unfold with_ledger, sr_map_err, sr_zoom.
  specialize (Hm _ HP). by destruct (m (as_ledger s)) as [l [a|e]].
Qed.

Lemma with_ledger_rest {E A} (f : IoError → E) (m : LG A) s :
  as_admission (with_ledger f m s).1 = as_admission s ∧
  as_ioctls (with_ledger f m s).1 = as_ioctls s.
Proof.
  unfold with_ledger, sr_map_err, sr_zoom. by destruct (m (as_ledger s)) as [l [a|e]].
Qed.
Lemma with_admission_rest {E A} (f : SessionError → E) (m : AW A) s :
  as_ledger (with_admission f m s).1 = as_ledger s ∧
  as_ioctls (with_admission f m s).1 = as_ioctls s.
Proof.
  unfold with_admission, sr_map_err, sr_zoom.
  by destruct (m (as_admission s)) as [w [a|e]].
Qed.

Definition same_ioctls (s s' : AdminState) : Prop := as_ioctls s' = as_ioctls s.
#[export] Instance same_ioctls_preorder : PreOrder same_ioctls.
Proof. split; [done|]. intros x y z E1 E2. unfold same_ioctls in *. congruence. Qed.
Lemma with_ledger_ioctls {E A} (f : IoError → E) (m : LG A) :
  sr_keeps same_ioctls (with_ledger f m).
Proof. intros s. apply with_ledger_rest. Qed.
Lemma with_admission_ioctls {E A} (f : SessionError → E) (m : AW A) :
  sr_keeps same_ioctls (with_admission f m).
Proof. intros s. apply with_admission_rest. Qed.

Lemma publish_admin_free_ioctls removed : sr_keeps same_ioctls (publish_admin_free removed).
Proof.
  unfold publish_admin_free.
  apply keeps_bind; [apply _|intros ?; reflexivity|intros receipt].
  apply keeps_bind; [apply _|apply with_ledger_ioctls|intros permit].
  apply keeps_bind; [apply _|apply with_ledger_ioctls|intros _].
  apply with_admission_ioctls.
Qed.

Lemma finalize_admin_success_ioctls id a :
  sr_keeps same_ioctls (finalize_admin_success boot host id a).
Proof.
  assert (∀ r, sr_keeps same_ioctls (finalize_admin_record boot host id a r)) as HK.
  { intros r. unfold finalize_admin_record, release_admin_record.
    do 3 (apply keeps_bind; [apply _|apply keeps_lift, _|intros ?]).
    apply keeps_bind; [apply _|apply with_ledger_ioctls|intros [[sn rs] rp]].
    destruct (ah_runtime_release _ _).
    - apply keeps_bind; [apply _|apply with_ledger_ioctls|intros [[[rl rs'] cf] rm]].
      apply keeps_bind; [apply _|apply with_ledger_ioctls|apply publish_admin_free_ioctls].
    - apply keeps_bind; [apply _|apply with_ledger_ioctls|intros _].
      apply keeps_fail, _. }
  intros s. unfold finalize_admin_success.
  destruct (lg_records (as_ledger s) !! id) as [record|]; [apply HK|done].
Qed.

Lemma after_disallocate_ioctls id seq record vt a :
  sr_keeps same_ioctls (after_disallocate boot host id seq record vt a).
Proof.
  unfold after_disallocate.
  destruct (ah_disallocate_vt_once _ _) as [[]|e].
  - destruct (negb _).
    + apply keeps_bind; [apply _|apply with_ledger_ioctls|intros _; apply keeps_ret, _].
    + do 2 (apply keeps_bind; [apply _|apply with_ledger_ioctls|intros _]).
      intros s. pose proof (finalize_admin_success_ioctls id a s) as Hf.
      by destruct (finalize_admin_success _ _ _ _ s) as [s' [[]|e]].
  - destruct e;
      try (apply keeps_bind; [apply _|apply with_ledger_ioctls|intros _; apply keeps_ret, _]).
    do 2 (apply keeps_bind; [apply _|apply with_ledger_ioctls|intros _]).
    apply keeps_ret, _.
Qed.

(** ** Publication of the free seat *)

Lemma publish_admin_free_spec removed s s' r :
  publish_admin_free removed s = (s', r) →
  match r with
  | Ok _ => as_ledger s' = as_ledger s
            ∧ seat_free_now (bd_seat removed) (as_ledger s') = true
            ∧ is_free (aw_controller (as_admission s')) = true
  | Err _ => as_admission s' = as_admission s
  end.
Proof.
  unfold publish_admin_free, sr_bind, with_ledger, with_admission, sr_map_err,
    sr_zoom, issue_seat_free_permit, consume_seat_free_permit,
    release_after_admin_finalization, on_controller, sr_modify.
  destruct (issue_admin_finalization_receipt _ _) as [receipt|e]; cbn;
    [|intros; by simplify_eq].
  destruct (seat_free_now _ _) eqn:E1; cbn; [|intros; by simplify_eq].
  rewrite E1. cbn. destruct (_ || _); cbn; intros; by simplify_eq.
Qed.

Section Release.
Context (id : string) (l0 : PersistentRecoveryLedger) (r0 : PersistentRecoveryRecord).
Context (w0 : AdmissionWorld).
Context (Hkeyed : keyed l0) (Hr0 : lg_records l0 !! id = Some r0).

Let pre (s : AdminState) : Prop := touches id l0 (as_ledger s) ∧ as_admission s = w0.
Let freed (_ : ()) (s : AdminState) : Prop :=
  gone id (as_ledger s) ∧ seat_free_now (pr_seat r0) (as_ledger s) = true
  ∧ is_free (aw_controller (as_admission s)) = true.
Let kept (s : AdminState) : Prop := as_admission s = w0.

Lemma release_admin_record_release a sn rs rp :
  same_identity r0 (ss_record sn) →
  sr_triple pre (release_admin_record boot host id a sn rs rp) freed kept.
Proof.
  intros Hm. unfold release_admin_record.
  destruct (ah_runtime_release _ _) as [[]|e].
  - eapply triple_bind.
    { eapply with_ledger_triple, (confirm_release_mine boot id l0 r0); done. }
    intros [[[rl rs'] cf] rm] s [(HT & Hrl & Hseat & Hid) Hw]. cbn [fst snd] in *.
    rewrite sr_bind_eq.
    pose proof (with_ledger_triple
      (λ _, "could not remove the exact resolved record"%string) _ _ _ _ w0
      (remove_record_typed_mine id l0 r0 Hkeyed Hr0 rl rs' cf rm Hrl)
      s (conj HT Hw)) as HR.
    destruct (with_ledger _ _ s) as [s1 [removed|e]]; [|done].
    destruct HR as [(_ & Hg & Hs & _) Hw1].
    destruct (publish_admin_free removed s1) as [s2 [[]|e]] eqn:HP;
      apply publish_admin_free_spec in HP.
    + destruct HP as (E & Hf & Hfree). unfold freed. rewrite E in Hf |- *.
      by rewrite Hs, Hseat in Hf.
    + unfold kept. congruence.
  - eapply triple_bind.
    { eapply with_ledger_triple, I_keeps, steps_touches, update_operation_steps. }
    intros u. apply triple_fail. by intros s [? ?].
Qed.

Lemma finalize_admin_record_release a :
  sr_triple pre (finalize_admin_record boot host id a r0) freed kept.
Proof.
  unfold finalize_admin_record.
  apply (triple_bind _ _ _ (λ _, pre)).
  { apply triple_lift; [done|by intros s [? ?]]. }
  intros b. apply (triple_bind _ _ _ (λ sn s, pre s ∧ ss_record sn = r0)).
  { apply triple_lift; [|by intros s [? ?]]. intros s sn Hs Hsn. split; [done|].
    destruct (snapshot_from_record b r0) eqn:E; simplify_eq/=.
    by eapply snapshot_from_record_record. }
  intros sn. apply (triple_bind _ _ _ (λ _ s, pre s ∧ ss_record sn = r0)).
  { apply triple_lift; [by intros s c [? ?]|by intros s [[? ?] ?]]. }
  intros c s [Hpre Hsn]. revert s Hpre.
  change (sr_triple pre
    (let* res := with_ledger (λ _, "could not persist RecordResolved"%string)
                   (mark_record_resolved_typed boot sn c) in
     let '(resolved_snapshot, resolved, runtime_permit) := res in
     release_admin_record boot host id a resolved_snapshot resolved runtime_permit)
    freed kept).
  eapply triple_bind.
  { eapply with_ledger_triple, (mark_resolved_mine boot id l0 r0); [done..|].
    rewrite Hsn. reflexivity. }
  intros [[rsn rs] rp] s [[HT Hm] Hw]. by apply release_admin_record_release.
Qed.
End Release.
End AdminFacts.

(** ** The properties *)

Section AdminClaims.
Context `{SerdeJson PersistentRecoveryRecord}.
Context `{!SerdeRoundtrip PersistentRecoveryRecord}.
Context (boot : result string IoError) (host : RecoveryAdminHost).

Lemma last_push_attempt a l : last (push_attempt a l) = Some a.
Proof.
  unfold push_attempt. destruct (_ <? _) eqn:E; [|by rewrite last_snoc].
  destruct l as [|x l]; [done|]. exact (last_snoc a l).
Qed.

Lemma append_vt_recovery_attempt_persisted id a l l' :
  keyed l → append_vt_recovery_attempt boot id a l = (l', Ok ()) →
  ∃ rec, persisted id rec l' ∧ last (pr_vt_recovery_attempts rec) = Some a.
Proof.
  intros K HU. unfold append_vt_recovery_attempt in HU.
  apply record_for_operation_bind in HU as [(_ & _ & ?)|(r & Hr & HU)]; [done|].
  unfold commit_transition, sr_bind, sr_lift in HU.
  destruct (record_transition _ _ _) as [rec|e] eqn:HT; [|done]. cbn in HU.
  unfold record_transition in HT. split_cases HT.
  eexists. rewrite <-(K _ _ Hr) at 1.
  split; [by apply (commit_persisted _ _ _ HU)|]. apply last_push_attempt.
Qed.

Lemma retry_refusal_rejects seat id seq ack l record refusal :
  retry_refusal boot host seat id seq ack l record = Some refusal →
  ∃ reason n, refusal = Rejected reason n.
Proof.
  unfold retry_refusal, reject. intros HC. repeat case_match; simplify_eq; eauto.
Qed.

(** Where a retry goes after its guards: to a refusal that leaves the seat
    alone and asks for no ioctl, or through the admission controller and the
    durable intent to the ioctl. *)
Lemma retry_cases seat id seq ack s s' r :
  keyed (as_ledger s) →
  retry_vt_disallocate boot host seat id seq ack s = (s', r) →
  (as_ioctls s' = as_ioctls s ∧
   (as_admission s' = as_admission s ∨
    is_free (aw_controller (as_admission s')) = false) ∧
   ∀ i n a, r ≠ Ok (RetryAccepted i n a)) ∨
  ∃ record vt s1 rec,
    lg_records (as_ledger s) !! id = Some record ∧
    retry_refusal boot host seat id seq ack (as_ledger s) record = None ∧
    ah_persisted_vt_identity host record = Ok vt ∧
    vt_preconditions vt (ah_inspect_vt host record (vi_number vt)) = true ∧
    touches id (as_ledger s) (as_ledger s1) ∧ persisted id rec (as_ledger s1) ∧
    pr_sequence rec = pr_sequence record + 1 ∧
    last (pr_vt_recovery_attempts rec) =
      Some (attempt (next_attempt_id record) seq VraIntentPersisted
              (ah_inspect_vt host record (vi_number vt)) None) ∧
    is_free (aw_controller (as_admission s1)) = false ∧
    as_ioctls s1 = as_ioctls s ++ [(vi_number vt, as_ledger s1)] ∧
    after_disallocate boot host id seq record vt (next_attempt_id record) s1 = (s', r).
Proof.
  intros K. unfold retry_vt_disallocate.
  destruct (lg_records (as_ledger s) !! id) as [record|] eqn:Hr;
    [|intros [= <- <-]; left; auto].
  destruct (retry_refusal _ _ _ _ _ _ _ _) as [refusal|] eqn:Href.
  { apply retry_refusal_rejects in Href as (? & ? & ->).
    intros [= <- <-]; left; auto. }
  destruct (ah_persisted_vt_identity host record) as [vt|e] eqn:Hvt;
    [|intros [= <- <-]; left; auto].
  destruct (negb _) eqn:Hpre; bool_facts.
  - rewrite sr_bind_eq. intros HC. left.
    match type of HC with context [with_ledger ?f ?m s] =>
      pose proof (with_ledger_rest f m s) as [E1 E2];
      destruct (with_ledger f m s) as [s1 [[]|e]] end; cbn in *;
      unfold sr_ret in HC; simplify_eq; auto.
  - rewrite sr_bind_eq. unfold with_admission at 1, sr_map_err, sr_zoom.
    pose proof (quarantine_admin_taken id (as_admission s)) as Hq.
    destruct (enter_quarantine_for_admin id (as_admission s)) as [w [[]|e]];
      cbn [map_err]; [|intros [= <- <-]; left; cbn; subst w; auto].
    rewrite sr_bind_eq. unfold with_ledger at 1, sr_map_err, sr_zoom. cbn [as_ledger].
    pose proof (steps_touches id _ (append_vt_recovery_attempt_steps boot id
      (attempt (next_attempt_id record) seq VraIntentPersisted
         (ah_inspect_vt host record (vi_number vt)) None)) (as_ledger s)) as HT.
    destruct (append_vt_recovery_attempt _ _ _ _) as [l1 [[]|e]] eqn:HA;
      cbn [map_err]; [|intros [= <- <-]; left; cbn; auto].
    rewrite sr_bind_eq. unfold log_ioctl, sr_modify. cbn.
    intros HC. right.
    pose proof (append_vt_recovery_attempt_steps boot id _ _ _ _ HA) as HS.
    apply append_vt_recovery_attempt_persisted in HA as (rec & Hp & Hl); [|done].
    exists record, vt, (mkAdminState w l1 (as_ioctls s ++ [(vi_number vt, l1)])), rec.
    split_and!; try done.
    destruct HS as [[_ ?]|(next & rec' & Hn & Hsuc & HC')]; [done|].
    apply commit_spec in HC' as [_ [_ HR]].
    destruct Hp as [Hp _]. rewrite HR in Hp.
    assert (pr_lifecycle_id rec' = id) as Hid.
    { destruct Hsuc as [HI _]. rewrite (same_identity_lifecycle _ _ HI). by apply K. }
    rewrite Hid, lookup_insert_eq in Hp. injection Hp as ->.
    destruct Hsuc as (_ & Hsuc & _). congruence.
Qed.

Definition same_admission (s s' : AdminState) : Prop :=
  as_admission s' = as_admission s.
#[export] Instance same_admission_preorder : PreOrder same_admission.
Proof. split; [done|]. intros x y z E1 E2. unfold same_admission in *. congruence. Qed.
Lemma with_ledger_admission {E A} (f : IoError → E) (m : LG A) :
  sr_keeps same_admission (with_ledger f m).
Proof. intros s. apply with_ledger_rest. Qed.

Lemma touches_step id m l s w :
  steps_record id m → touches id l (as_ledger s) → as_admission s = w →
  match with_ledger unavailable m s with
  | (s', Ok _) => touches id l (as_ledger s') ∧ as_admission s' = w
  | (s', Err _) => as_admission s' = w
  end.
Proof.
  intros Hm HT Hw. apply (with_ledger_triple unavailable m (touches id l)
    (λ _, touches id l) (touches id l) w); [|done].
  by apply I_keeps, steps_touches.
Qed.

(** The branches of the ioctl that do not finalize leave the controller. *)
Lemma after_disallocate_failed id seq record vt a :
  ah_disallocate_vt_once host (vi_number vt) ≠ Ok () →
  sr_keeps same_admission (after_disallocate boot host id seq record vt a).
Proof.
  intros Hd. unfold after_disallocate.
  destruct (ah_disallocate_vt_once _ _) as [[]|e]; [done|].
  destruct e; apply keeps_bind; try apply _; try apply with_ledger_admission;
    intros _; try apply keeps_ret, _.
  apply keeps_bind; [apply _|apply with_ledger_admission|intros _; apply keeps_ret, _].
Qed.

Lemma after_disallocate_release id seq record vt a s s' r r0 :
  keyed (as_ledger s) → lg_records (as_ledger s) !! id = Some r0 →
  after_disallocate boot host id seq record vt a s = (s', r) →
  as_admission s' = as_admission s ∨
  gone id (as_ledger s') ∧ seat_free_now (pr_seat r0) (as_ledger s') = true ∧
  ∃ n, r = Ok (RetryAccepted id n a).
Proof.
  intros K Hr0.
  destruct (ah_disallocate_vt_once host (vi_number vt)) as [[]|e] eqn:Hd.
  2: { intros HC. left. pose proof (after_disallocate_failed id seq record vt a
         ltac:(by rewrite Hd) s) as Hk. by rewrite HC in Hk. }
  unfold after_disallocate. rewrite Hd. destruct (negb _).
  { intros HC. left. revert HC. rewrite sr_bind_eq.
    match goal with |- context [with_ledger ?f ?m s] =>
      pose proof (with_ledger_admission f m s) as Hk;
      destruct (with_ledger f m s) as [s1 [[]|e]] end; by intros [= <- <-]. }
  assert (touches id (as_ledger s) (as_ledger s)) as T0 by reflexivity.
  rewrite sr_bind_eq. pose proof (touches_step id _ _ s _
    (update_operation_steps boot id "vt_disallocate" (Confirmed a)) T0 eq_refl) as H1.
  unfold operation_confirmed.
  destruct (with_ledger _ _ s) as [s1 [[]|e]]; [|intros [= <- <-]; by left].
  destruct H1 as [T1 W1]. rewrite sr_bind_eq.
  pose proof (touches_step id _ _ s1 _ (finish_vt_recovery_attempt_steps boot id a
    VraConfirmed (Some (ah_inspect_after host record (vi_number vt)))) T1 W1) as H2.
  destruct (with_ledger _ _ s1) as [s2 [[]|e]]; [|intros [= <- <-]; by left].
  destruct H2 as [T2 W2]. unfold finalize_admin_success.
  destruct (lg_records (as_ledger s2) !! id) as [r2|] eqn:Hr2;
    [|intros [= <- <-]; by left].
  destruct (T2 K) as [K2 _ _ _ HI]. destruct (HI _ Hr2) as (r1 & Hr1 & HI').
  rewrite Hr0 in Hr1. injection Hr1 as <-.
  assert (touches id (as_ledger s2) (as_ledger s2)) as T3 by reflexivity.
  pose proof (finalize_admin_record_release boot host id (as_ledger s2) r2
    (as_admission s) K2 Hr2 a s2 (conj T3 W2)) as H3.
  destruct (finalize_admin_record _ _ _ _ _ s2) as [s3 [[]|e]];
    intros [= <- <-]; [right|by left].
  destruct H3 as (? & ? & ?). rewrite (same_identity_seat _ _ HI') in *. eauto.
Qed.

(** C39. The administrative retry performs at most one ioctl, and never before
    its intent is durable: an ioctl was issued only for a record that passed
    every guard (same boot, quarantined for the busy VT, payload boundary
    finalized and proven absent, VT inspected and free of holders), and at that
    moment the file of the record decodes to a record whose last attempt is
    exactly this attempt, still pending. *)
Theorem admin_ioctl_after_durable_intent seat id seq ack s s' r :
  keyed (as_ledger s) →
  retry_vt_disallocate boot host seat id seq ack s = (s', r) →
  as_ioctls s' = as_ioctls s ∨
  ∃ record vt l1 rec,
    as_ioctls s' = as_ioctls s ++ [(vi_number vt, l1)] ∧
    lg_records (as_ledger s) !! id = Some record ∧
    retry_refusal boot host seat id seq ack (as_ledger s) record = None ∧
    ah_persisted_vt_identity host record = Ok vt ∧
    vt_preconditions vt (ah_inspect_vt host record (vi_number vt)) = true ∧
    persisted id rec l1 ∧
    last (pr_vt_recovery_attempts rec) =
      Some (attempt (next_attempt_id record) seq VraIntentPersisted
              (ah_inspect_vt host record (vi_number vt)) None).
Proof.
  intros K HC.
  apply retry_cases in HC as [(HC & _)|(record & vt & s1 & rec & HC)]; [by left| |done].
  destruct HC as (Hr & Href & Hvt & Hpre & _ & Hp & _ & Hl & _ & Hio & HA).
  right. exists record, vt, (as_ledger s1), rec. rewrite <- Hio.
  pose proof (after_disallocate_ioctls boot host id seq record vt
    (next_attempt_id record) s1) as Hk. rewrite HA in Hk. by split_and!.
Qed.

(** The administrative retry frees a seat only through the finalization of
    its record: when the seat is free afterwards and the controller changed, the
    record is gone from memory and disk, no other record holds the seat, nothing
    is quarantined, and the request was answered as accepted. *)
Theorem admin_release_sound seat id seq ack s s' r :
  keyed (as_ledger s) →
  retry_vt_disallocate boot host seat id seq ack s = (s', r) →
  is_free (aw_controller (as_admission s')) = true →
  as_admission s' = as_admission s ∨
  gone id (as_ledger s') ∧ seat_free_now seat (as_ledger s') = true ∧
  ∃ n a, r = Ok (RetryAccepted id n a).
Proof.
  intros K HC Hfree.
  apply retry_cases in HC as [(_ & [HC|HC] & _)|(record & vt & s1 & rec & HC)];
    [by left|congruence| |done].
  destruct HC as (Hr & Href & _ & _ & HT & [Hp _] & _ & _ & Hn & _ & HA).
  eapply after_disallocate_release in HA as [HA|(Hg & Hs & n & ->)]; [|..|exact Hp].
  - rewrite HA in Hfree. congruence.
  - right. split; [done|]. split; [|eauto].
    destruct (HT K) as [_ _ _ _ HI]. destruct (HI _ Hp) as (r1 & Hr1 & HI').
    rewrite Hr in Hr1. injection Hr1 as <-.
    rewrite (same_identity_seat _ _ HI') in Hs.
    unfold retry_refusal in Href. destruct (_ || _) eqn:Hg' in Href; [done|].
    bool_facts. congruence.
  - by destruct (HT K).
Qed.

Lemma steps_sequence id m l l' next :
  steps_record id m → keyed l → m l = (l', Ok ()) → lg_records l !! id = Some next →
  ∃ rec, lg_records l' !! id = Some rec ∧ pr_sequence rec = pr_sequence next + 1.
Proof.
  intros Hm K HC Hn. apply Hm in HC as [[_ ?]|(n & rec & Hn' & Hsuc & HC)]; [done|].
  rewrite Hn in Hn'. injection Hn' as <-. destruct Hsuc as (HI & Hs & _).
  apply commit_spec in HC as [_ [_ HR]]. exists rec. split; [|done].
  rewrite HR, (same_identity_lifecycle _ _ HI), (K _ _ Hn), lookup_insert_eq. done.
Qed.

(** A retry that finds the VT still busy reports a sequence that is already
    stale: the response says two commits past the request, while the record has
    been committed three times, so a follow-up with the reported sequence is
    rejected. *)
Theorem admin_busy_reports_stale_sequence seat id seq ack s s' n a :
  keyed (as_ledger s) →
  (∀ vt, ah_disallocate_vt_once host vt = Err VtDisallocateBusy) →
  retry_vt_disallocate boot host seat id seq ack s = (s', Ok (RetryAccepted id n a)) →
  ∃ rec, lg_records (as_ledger s') !! id = Some rec ∧
    n = u64_saturating_add seq 2 ∧ pr_sequence rec = seq + 3.
Proof.
  intros K Hbusy HC.
  apply retry_cases in HC as [(_ & _ & HC)|(record & vt & s1 & rec & HC)];
    [by destruct (HC id n a)| |done].
  destruct HC as (Hr & Href & _ & _ & HT & [Hp _] & Hseq & _ & _ & _ & HA).
  assert (pr_sequence record = seq) as <-.
  { unfold retry_refusal in Href. destruct (_ || _) eqn:Hg in Href; [done|].
    by bool_facts. }
  destruct (HT K) as [K1 _ _ _ _].
  revert HA. unfold after_disallocate. rewrite Hbusy, sr_bind_eq.
  unfold with_ledger at 1, sr_map_err, sr_zoom.
  pose proof (steps_touches id _ (finish_vt_recovery_attempt_steps boot id
    (next_attempt_id record) (VraFailed EBUSY)
    (Some (ah_inspect_after host record (vi_number vt)))) (as_ledger s1) K1) as [K2 _ _ _ _].
  destruct (finish_vt_recovery_attempt _ _ _ _ _ _) as [l2 [[]|e]] eqn:H2; [|done].
  eapply steps_sequence in H2 as (rec2 & Hr2 & Hs2);
    [|apply finish_vt_recovery_attempt_steps|done..].
  cbn [map_err]. rewrite sr_bind_eq. unfold with_ledger, sr_map_err, sr_zoom.
  cbn [as_ledger fst] in *.
  destruct (record_vt_busy_provenance _ _ _ _) as [l3 [[]|e]] eqn:H3; [|done].
  eapply steps_sequence in H3 as (rec3 & Hr3 & Hs3);
    [|apply record_vt_busy_provenance_steps|done..].
  cbn. intros [= <- <- _]. exists rec3. cbn. split; [done|]. split; [done|]. lia.
Qed.
End AdminClaims.
