(* ===== verification/WorkerRecord.v ===== *)
(** * The supervisor's record of one worker, and its emergency recovery

    [launcher/recovery/record.rs]: what the supervisor knows of a worker and
    the states it moves through; [recovery/coordinator.rs]: the emergency
    recovery of a payload whose worker died; the finalization of expected
    exits ([supervisor_loop/support.rs]) and the durable record made of a
    prepared payload ([recovery/persistent.rs]).  The provider
    ([recovery/provider.rs]) and the live boundary ([recovery/boundary.rs])
    are traits over systemd, logind and the VT: [RecoveryProvider] holds the
    answers of one operation. *)

From stdpp Require Import base gmap sets list strings pretty.
From Stdlib Require Import ZArith Lia.
From S2P Require Import Prelude Text DirFs RecoveryTypes LedgerTaxonomy Ledger.
From S2P Require Import LedgerDurability PreviousBoot PreCommit SameBoot.
From S2P Require Import Admission AdminRecovery Protocol Conversation Login.
From S2P Require Import Daemon.
#[local] Open Scope niralis_scope.

(** ** Data *)

Record PayloadScopeIdentity := mkScopeIdentity {
  psi_unit_name : string;
  psi_invocation_id : string;
  psi_expected_uid : Z;
  psi_logind_session_id : string;
}.
#[export] Instance PayloadScopeIdentity_eq_dec : EqDecision PayloadScopeIdentity.
Proof. solve_decision. Defined.

Definition byte_where (f : Z → bool) (c : Ascii.ascii) : bool :=
  f (Z.of_nat (Ascii.nat_of_ascii c)).
Definition digit_byte (b : Z) : bool := (48 <=? b) && (b <=? 57).
Definition alphanumeric_byte (b : Z) : bool :=
  digit_byte b || ((65 <=? b) && (b <=? 90)) || ((97 <=? b) && (b <=? 122)).
Definition hexdigit_byte (b : Z) : bool :=
  digit_byte b || ((65 <=? b) && (b <=? 70)) || ((97 <=? b) && (b <=? 102)).
Definition str_all (f : Z → bool) (s : string) : bool :=
  forallb (byte_where f) (String.list_ascii_of_string s).

(** [PayloadScopeIdentity::validate]. *)
Definition validate_scope (i : PayloadScopeIdentity) : bool :=
  String.prefix "niralis-payload-" (psi_unit_name i)
  && str_ends_with ".scope" (psi_unit_name i)
  && (str_len (psi_unit_name i) <=? 255)
  && str_all (λ b, alphanumeric_byte b || (b =? 45) || (b =? 46) || (b =? 95))
       (psi_unit_name i)
  && (str_len (psi_invocation_id i) =? 32)
  && str_all hexdigit_byte (psi_invocation_id i)
  && negb (psi_expected_uid i =? 0).

Record SupervisorLogindSessionIdentity := mkLogindIdentity {
  sli_id : string;
  sli_object_path : string;
  sli_uid : Z;
  sli_username : string;
  sli_leader : Z;
  sli_seat : string;
  sli_vt_number : Z;
  sli_session_type : string;
  sli_class : string;
  sli_desktop : string;
  sli_state : string;
  sli_scope : string;
}.
#[export] Instance SupervisorLogindSessionIdentity_eq_dec :
  EqDecision SupervisorLogindSessionIdentity.
Proof. solve_decision. Defined.

(** What [LivePayloadBoundary] tells about itself; its operations are answers
    of the provider. *)
Record PayloadBoundary := mkBoundary {
  pb_identity : PayloadScopeIdentity;
  pb_object_path : option string;
  pb_control_group : option string;
  pb_slice : option string;
  pb_leader_pid : Z;
}.
Record SupervisorPreparedPayload := mkPayload {
  pp_boundary : PayloadBoundary;
  pp_logind : SupervisorLogindSessionIdentity;
  pp_vt : SupervisorVtIdentity;
  pp_target_gid : Z;
}.

(** [std::process::ExitStatus] of a process that is gone. *)
Inductive ExitStatus := Exited (code : Z) | Signaled (signal : Z).
Definition exit_success (s : ExitStatus) : bool :=
  match s with Exited code => code =? 0 | Signaled _ => false end.
Definition exit_status_label (s : ExitStatus) : string :=
  match s with
  | Exited code => "exit:" +:+ pretty code
  | Signaled signal => "signal:" +:+ pretty signal
  end.

Inductive SupervisorLogindCleanupResult := LogindRemoved | LogindAlreadyGone.
Inductive PamEmergencyCleanupStatus := UnavailableAfterWorkerDeath.

Record SupervisorEmergencyBoundaryProof := mkEmergencyProof {
  ep_unit_name : string;
  ep_invocation_id : string;
  ep_control_group : string;
  ep_worker_exit : string;
  ep_leader_observed_dead : bool;
  ep_cgroup_observed_empty : bool;
}.
Inductive SupervisorEmergencyContainmentProof :=
| ProofPayloadBoundary (proof : SupervisorEmergencyBoundaryProof)
| NoPayloadScopeWasRegistered (worker_exit : string).

Inductive SupervisorEmergencyRecoveryOutcome :=
| OutcomeRecovered (containment_proof : SupervisorEmergencyContainmentProof)
    (logind_result : SupervisorLogindCleanupResult)
    (pam_status : PamEmergencyCleanupStatus)
| OutcomeQuarantined (stage : EmergencyRecoveryStage) (reason : SupervisorRecoveryError).

Inductive SupervisorRetainedRecoveryIdentity :=
| RetainedPrePayload (previous_vt : PreviousVtIdentity)
| RetainedPayload (payload : SupervisorPreparedPayload)
| RetainedUnavailable.

Inductive SupervisorRecoveryState :=
| WorkerSpawned (previous_vt : PreviousVtIdentity)
| PayloadPrepared (payload : SupervisorPreparedPayload) (registration_nonce : string)
| PayloadRegistered (payload : SupervisorPreparedPayload) (registration_nonce : string)
| PayloadReleased (payload : SupervisorPreparedPayload)
| Started (payload : SupervisorPreparedPayload) (runtime_id : string)
| WorkerExitedUnexpectedly (payload : SupervisorPreparedPayload)
    (classification : WorkerExitClassification)
| EmergencyRecovery (payload : SupervisorPreparedPayload)
    (classification : WorkerExitClassification)
| Recovered (outcome : SupervisorEmergencyRecoveryOutcome)
| Quarantined (stage : EmergencyRecoveryStage) (reason : SupervisorRecoveryError)
    (retained_identity : SupervisorRetainedRecoveryIdentity).

Record SupervisorSessionRecoveryRecord := mkWorkerRecord {
  wr_lifecycle_id : string;
  wr_worker_pid : Z;
  wr_launcher_pid : Z;
  wr_session_name : string;
  wr_requested_username : string;
  wr_worker_exit_status : option ExitStatus;
  wr_state : SupervisorRecoveryState;
}.

(** ** The provider *)

(** The answers of the recovery provider and of the payload boundary during
    one operation. *)
Record RecoveryProvider := mkProvider {
  rp_capture_previous_vt : string → result PreviousVtIdentity SupervisorRecoveryError;
  rp_prepare_payload : PayloadScopeIdentity → Z → Z → Z → PreviousVtIdentity →
    result SupervisorPreparedPayload SupervisorRecoveryError;
  rp_recover_pre_payload : Z → string → string → PreviousVtIdentity →
    result SupervisorLogindCleanupResult SupervisorRecoveryError;
  rp_cleanup_logind : SupervisorLogindSessionIdentity →
    result SupervisorLogindCleanupResult SupervisorRecoveryError;
  rp_confirm_logind_absent : SupervisorLogindSessionIdentity →
    result bool SupervisorRecoveryError;
  rp_recover_vt : SupervisorVtIdentity → result () SupervisorRecoveryError;
  rp_recover_live_emergency : PayloadBoundary → ExitStatus →
    result SupervisorEmergencyBoundaryProof SupervisorRecoveryError;
  rp_verify_empty : PayloadBoundary → ExitStatus →
    result SupervisorEmergencyBoundaryProof SupervisorRecoveryError;
  rp_release_live : PayloadBoundary → result () SupervisorRecoveryError;
}.

(** ** The record *)

Definition set_state (state : SupervisorRecoveryState)
    (r : SupervisorSessionRecoveryRecord) : SupervisorSessionRecoveryRecord :=
  mkWorkerRecord (wr_lifecycle_id r) (wr_worker_pid r) (wr_launcher_pid r)
    (wr_session_name r) (wr_requested_username r) (wr_worker_exit_status r) state.
Definition set_exit (status : ExitStatus)
    (r : SupervisorSessionRecoveryRecord) : SupervisorSessionRecoveryRecord :=
  mkWorkerRecord (wr_lifecycle_id r) (wr_worker_pid r) (wr_launcher_pid r)
    (wr_session_name r) (wr_requested_username r) (Some status) (wr_state r).

Definition worker_spawned (lifecycle_id : string) (worker_pid launcher_pid : Z)
    (session : StartedSession) (previous_vt : PreviousVtIdentity)
    : SupervisorSessionRecoveryRecord :=
  mkWorkerRecord lifecycle_id worker_pid launcher_pid (si_id (ss_session session))
    (ss_username session) None (WorkerSpawned previous_vt).

Definition phase_name (r : SupervisorSessionRecoveryRecord) : string :=
  match wr_state r with
  | WorkerSpawned _ => "worker_spawned"
  | PayloadPrepared _ _ => "payload_prepared"
  | PayloadRegistered _ _ => "payload_registered"
  | PayloadReleased _ => "payload_released"
  | Started _ _ => "started"
  | WorkerExitedUnexpectedly _ _ => "worker_exited_unexpectedly"
  | EmergencyRecovery _ _ => "emergency_recovery"
  | Recovered _ => "recovered"
  | Quarantined _ _ _ => "quarantined"
  end.

(** The payload a live state owns. *)
Definition state_payload (s : SupervisorRecoveryState)
    : option SupervisorPreparedPayload :=
  match s with
  | PayloadPrepared payload _ | PayloadRegistered payload _
  | PayloadReleased payload | Started payload _
  | WorkerExitedUnexpectedly payload _ | EmergencyRecovery payload _ => Some payload
  | WorkerSpawned _ | Recovered _ | Quarantined _ _ _ => None
  end.

Definition payload_identity (r : SupervisorSessionRecoveryRecord)
    : option PayloadScopeIdentity :=
  match wr_state r with
  | Quarantined _ _ (RetainedPayload payload) => Some (pb_identity (pp_boundary payload))
  | state => (λ payload, pb_identity (pp_boundary payload)) <$> state_payload state
  end.

Definition registration_nonce (r : SupervisorSessionRecoveryRecord) : option string :=
  match wr_state r with
  | PayloadPrepared _ nonce | PayloadRegistered _ nonce => Some nonce
  | _ => None
  end.
Definition record_runtime_id (r : SupervisorSessionRecoveryRecord) : option string :=
  match wr_state r with Started _ runtime_id => Some runtime_id | _ => None end.

(** The state left behind by [take_state_for_transition]. *)
Definition taken_state : SupervisorRecoveryState :=
  Quarantined RecoveryRecordValidation InvalidRecord RetainedUnavailable.

Definition quarantine_record (stage : EmergencyRecoveryStage)
    (reason : SupervisorRecoveryError) (r : SupervisorSessionRecoveryRecord)
    : SupervisorSessionRecoveryRecord :=
  let retained := match wr_state r with
    | WorkerSpawned previous_vt => RetainedPrePayload previous_vt
    | Quarantined _ _ retained => retained
    | Recovered _ => RetainedUnavailable
    | state => match state_payload state with
               | Some payload => RetainedPayload payload
               | None => RetainedUnavailable
               end
    end in
  set_state (Quarantined stage reason retained) r.

(** ** Exits *)

Definition classify_worker_exit (r : SupervisorSessionRecoveryRecord)
    (status : ExitStatus) : WorkerExitClassification :=
  match status with
  | Signaled signal => KilledBySignal signal
  | Exited _ =>
      match wr_state r, exit_success status with
      | Started _ _, true => CleanFinalization
      | Started _ _, false => UnexpectedExitRunning
      | PayloadPrepared _ _, _ | PayloadRegistered _ _, _ => UnexpectedExitBeforeStarted
      | PayloadReleased _, _ => FailedAfterBoundaryCleanup
      | WorkerExitedUnexpectedly _ classification, _
      | EmergencyRecovery _ classification, _ => classification
      | _, _ => RecoveryGateLost
      end
  end.

Definition mark_worker_exited_unexpectedly (status : ExitStatus)
    (r : SupervisorSessionRecoveryRecord)
    : SupervisorSessionRecoveryRecord * WorkerExitClassification :=
  let classification := classify_worker_exit r status in
  (set_state
     (match wr_state r with
      | PayloadPrepared payload _ | PayloadRegistered payload _
      | PayloadReleased payload | Started payload _
      | EmergencyRecovery payload _ => WorkerExitedUnexpectedly payload classification
      | state => state
      end) r, classification).

Section Recovery.
Context (provider : RecoveryProvider).

(** The common end of the two expected exits. *)
Definition finalize_payload (payload : SupervisorPreparedPayload)
    (status : ExitStatus) : result () SupervisorRecoveryError :=
  match rp_verify_empty provider (pp_boundary payload) status with
  | Err e => Err e
  | Ok _ =>
      match rp_confirm_logind_absent provider (pp_logind payload) with
      | Err e => Err e
      | Ok false => Err LogindIdentityChanged
      | Ok true => rp_release_live provider (pp_boundary payload)
      end
  end.

Definition finalize_expected_prestarted_exit (r : SupervisorSessionRecoveryRecord)
    (status : ExitStatus) : result () SupervisorRecoveryError :=
  match wr_state r with
  | PayloadReleased payload => finalize_payload payload status
  | _ => Err InvalidRecord
  end.

Definition finalize_clean_worker_exit (r : SupervisorSessionRecoveryRecord)
    (status : ExitStatus) : result () SupervisorRecoveryError :=
  if negb (exit_success status) then Err InvalidRecord
  else match wr_state r with
  | Started payload _ => finalize_payload payload status
  | _ => Err InvalidRecord
  end.

(** ** The emergency coordinator *)

Definition boundary_error_stage (reason : SupervisorRecoveryError)
    : EmergencyRecoveryStage :=
  match reason with
  | BusDeliveryIndeterminate => EmergencyKill
  | BoundaryObserverUnavailable | BoundaryTimedOut => BoundaryObservation
  | InvalidPayloadIdentity | BoundaryIdentityChanged | BusUnavailable
  | AuthorizationDenied _ _ => PayloadIdentityValidation
  | _ => BoundaryProof
  end.

Definition recover_from_payload (r : SupervisorSessionRecoveryRecord)
    (worker_exit : ExitStatus) : SupervisorEmergencyRecoveryOutcome :=
  match wr_state r with
  | EmergencyRecovery payload _ =>
      match rp_recover_live_emergency provider (pp_boundary payload) worker_exit with
      | Err reason => OutcomeQuarantined (boundary_error_stage reason) reason
      | Ok proof =>
          let unref_error := rp_release_live provider (pp_boundary payload) in
          match rp_cleanup_logind provider (pp_logind payload) with
          | Err reason => OutcomeQuarantined LogindCleanup reason
          | Ok logind_result =>
              match rp_recover_vt provider (pp_vt payload) with
              | Err reason =>
                  OutcomeQuarantined
                    (match reason with
                     | SelinuxRestoreFailed _ => SelinuxTtyRestore
                     | _ => VtRecovery
                     end) reason
              | Ok _ =>
                  match unref_error with
                  | Err reason => OutcomeQuarantined SupervisorUnref reason
                  | Ok _ =>
                      OutcomeRecovered (ProofPayloadBoundary proof) logind_result
                        UnavailableAfterWorkerDeath
                  end
              end
          end
      end
  | _ => OutcomeQuarantined RecoveryRecordValidation InvalidRecord
  end.

Definition recover (r : SupervisorSessionRecoveryRecord) (worker_exit : ExitStatus)
    : SupervisorSessionRecoveryRecord * SupervisorEmergencyRecoveryOutcome :=
  let classification := classify_worker_exit r worker_exit in
  let r := set_exit worker_exit r in
  match state_payload (wr_state r) with
  | Some payload =>
      let r := set_state (EmergencyRecovery payload classification) r in
      (r, recover_from_payload r worker_exit)
  | None => (r, OutcomeQuarantined RecoveryRecordValidation InvalidRecord)
  end.
End Recovery.

(** ** The durable record of a prepared payload *)

(** What [/proc] and the clock answer while the record is made. *)
Record PrepareHost := mkPrepareHost {
  prep_boot : result string IoError;
  prep_unix_time : Z;
  prep_proc_stat : Z → option string;
  prep_executable : Z → option (Z * Z);
  prep_proc_cgroup : Z → option string;
}.

(** The unified hierarchy's line of [/proc/<pid>/cgroup]. *)
Definition proc_cgroup (content : option string) : option string :=
  text ← content;
  head (omap (λ line, match line with
                      | a :: b :: c :: rest =>
                          if bool_decide ([a; b; c] = lit "0::") then Some (of_bytes rest)
                          else None
                      | _ => None
                      end) (lines (as_bytes text))).

Definition prepared (host : PrepareHost) (id : string) (worker_pid launcher_pid : Z)
    (user session : string) (previous : PreviousVtIdentity)
    (payload : SupervisorPreparedPayload) : PersistentRecoveryRecord :=
  let boot := match prep_boot host with Ok boot => boot | Err _ => "unavailable"%string end in
  let boundary := pp_boundary payload in
  let identity := pb_identity boundary in
  let starttime pid := proc_starttime (prep_proc_stat host pid) in
  mkRecoveryRecord RECOVERY_FORMAT_VERSION id 1 (prep_unix_time host) boot boot
    "payload_prepared" (psi_expected_uid identity) (pp_target_gid payload) user session
    (vi_seat (pp_vt payload)) worker_pid launcher_pid
    (starttime launcher_pid) (prep_executable host launcher_pid)
    (starttime worker_pid) (prep_executable host worker_pid) (proc_cgroup (prep_proc_cgroup host worker_pid))
    (Some (pb_leader_pid boundary)) (starttime (pb_leader_pid boundary))
    (prep_executable host (pb_leader_pid boundary))
    (Some (psi_unit_name identity)) (Some true) (Some (psi_invocation_id identity))
    (pb_object_path boundary) (pb_control_group boundary) (pb_slice boundary)
    (Some (psi_logind_session_id identity)) (Some (sli_object_path (pp_logind payload)))
    (Some (vi_number (pp_vt payload))) (Some (pv_number previous)) "opened_by_worker"
    DurableOperationLedger_default None None [].
