(* ===== verification/Supervisor.v ===== *)
(** * The supervisor loop

    [launcher/supervisor_loop]: the thread that owns the seat.  Its state is
    the pending and running workers, the quarantined records, the admission
    controller and the durable ledger; its operations are the messages of
    [messages.rs] and the reaping of exited workers ([pending.rs],
    [release.rs], [running.rs], [running/exit_handling.rs], [terminal_vt.rs]).
    A message is answered with the host of that moment: the recovery provider,
    the child processes, [/proc] and the clock are parameters.  Sockets and
    control directories of a worker are left out. *)

From stdpp Require Import base gmap sets list strings.
From Stdlib Require Import ZArith Lia.
From S2P Require Import Prelude Text DirFs RecoveryTypes LedgerTaxonomy Ledger.
From S2P Require Import LedgerDurability PreviousBoot PreCommit SameBoot.
From S2P Require Import Admission AdminRecovery Protocol Conversation Login.
From S2P Require Import Daemon WorkerRecord.
#[local] Open Scope niralis_scope.

(** ** Data *)

#[export] Instance StartedSession_eq_dec : EqDecision StartedSession.
Proof. solve_decision. Defined.

Inductive PayloadScopeRecoveryReason :=
| VerificationUnavailable | UnitStillActive | MembershipNotEmpty
| InvocationIdMismatch | IdentityMismatch.
Inductive ScopeReleaseVerification :=
| ScopeReleased
| ScopeRecoveryRequired (reason : PayloadScopeRecoveryReason).

Inductive PendingReleaseState :=
| ReleaseNotRequested
| ReleaseRequested (nonce : string)
| ReleaseRecoveryRequired (reason : PayloadScopeRecoveryReason).

(** A child process is behind a mutex; its pid identifies it. *)
Record PendingWorkerLifecycle := mkPendingWorker {
  pw_record : SupervisorSessionRecoveryRecord;
  pw_child : Shared Z;
  pw_release : PendingReleaseState;
  pw_generation : Z;
  pw_terminal_before_started : bool;
}.
Record SupervisedWorker := mkSupervised {
  sw_admission : RunningSeatReceipt;
  sw_record : SupervisorSessionRecoveryRecord;
  sw_child : Shared Z;
  sw_session : StartedSession;
  sw_session_pid : Z;
  sw_session_pgid : Z;
  sw_worker_id : string;
  sw_registration_nonce : string;
  sw_terminal_vt_reported_busy : bool;
}.

Record ReleaseRequest := mkReleaseRequest {
  rq_worker_id : string;
  rq_worker_pid : Z;
  rq_registration_nonce : string;
  rq_release_nonce : string;
  rq_identity : PayloadScopeIdentity;
}.
Record ReleaseToken := mkReleaseToken {
  tk_worker_id : string;
  tk_worker_pid : Z;
  tk_registration_nonce : string;
  tk_release_nonce : string;
  tk_identity : PayloadScopeIdentity;
  tk_generation : Z;
}.

Record RunningRegistration := mkRegistration {
  rr_admission_transaction : PendingLaunchTransaction;
  rr_runtime_id : string;
  rr_session : StartedSession;
  rr_session_pid : Z;
  rr_session_pgid : Z;
  rr_worker_id : string;
  rr_logind_session_id : string;
  rr_payload_scope : PayloadScopeIdentity;
  rr_registration_nonce : string;
}.

(** [sl_killed] logs the children the loop kills, [sl_ioctls] the ioctls of
    the administrative recovery. *)
Record SupervisorLoopState := mkSupervisor {
  sl_children : list SupervisedWorker;
  sl_pending : list PendingWorkerLifecycle;
  sl_quarantined : list SupervisorSessionRecoveryRecord;
  sl_admission : AdmissionWorld;
  sl_ledger : option (Shared PersistentRecoveryLedger);
  sl_killed : list Z;
  sl_ioctls : list (Z * PersistentRecoveryLedger);
}.
Abbreviation SL := (SR SupervisorLoopState SessionError).

Definition set_children (x : list SupervisedWorker) (s : SupervisorLoopState) :=
  mkSupervisor x (sl_pending s) (sl_quarantined s) (sl_admission s) (sl_ledger s)
    (sl_killed s) (sl_ioctls s).
Definition set_pending (x : list PendingWorkerLifecycle) (s : SupervisorLoopState) :=
  mkSupervisor (sl_children s) x (sl_quarantined s) (sl_admission s) (sl_ledger s)
    (sl_killed s) (sl_ioctls s).
Definition push_quarantined (r : SupervisorSessionRecoveryRecord)
    (s : SupervisorLoopState) :=
  mkSupervisor (sl_children s) (sl_pending s) (sl_quarantined s ++ [r])
    (sl_admission s) (sl_ledger s) (sl_killed s) (sl_ioctls s).
Definition set_admission (x : AdmissionWorld) (s : SupervisorLoopState) :=
  mkSupervisor (sl_children s) (sl_pending s) (sl_quarantined s) x (sl_ledger s)
    (sl_killed s) (sl_ioctls s).
Definition set_ledger (x : option (Shared PersistentRecoveryLedger))
    (s : SupervisorLoopState) :=
  mkSupervisor (sl_children s) (sl_pending s) (sl_quarantined s) (sl_admission s) x
    (sl_killed s) (sl_ioctls s).
Definition log_kill (pid : Z) (s : SupervisorLoopState) :=
  mkSupervisor (sl_children s) (sl_pending s) (sl_quarantined s) (sl_admission s)
    (sl_ledger s) (sl_killed s ++ [pid]) (sl_ioctls s).

(** The system calls on a child, by pid; [None] is an error. *)
Record ChildHost := mkChildHost {
  ch_try_wait : Z → option (option ExitStatus);
  ch_kill : Z → bool;
  ch_wait : Z → option ExitStatus;
}.

(** Everything outside the loop that one message may consult. *)
Record SupervisorHost := mkSupervisorHost {
  sh_provider : RecoveryProvider;
  sh_children : ChildHost;
  sh_prepare : PrepareHost;
  sh_proc : Z → ProcHost;
  sh_boot : result string IoError;
  sh_process_id : Z;
  sh_admin : RecoveryAdminHost;
  sh_clone_channel : bool;
  sh_send_terminate : Z → bool;
  sh_try_wait_again : Z → option (option ExitStatus);
}.

(** The messages of [WorkerSupervisorMessage], without their reply channels;
    [Shutdown] ends the loop ([shutdown_workers]). *)
Inductive WorkerSupervisorMessage :=
| MsgReserveSeat (lifecycle_id : string)
| MsgCancelAdmission (lease : AdmissionRollbackLease)
| MsgBeginPending (lease : AdmissionLease) (worker_pid launcher_pid : Z)
    (session : StartedSession) (child : Shared Z)
| MsgRecordPreparedScope (worker_id : string) (worker_pid session_pid : Z)
    (identity : PayloadScopeIdentity) (registration_nonce : string)
| MsgMarkPayloadRegistered (worker_id : string) (worker_pid : Z)
| MsgBeginRelease (request : ReleaseRequest)
| MsgCompleteRelease (token : ReleaseToken) (verification : ScopeReleaseVerification)
| MsgAbortPending (lease : PendingLifecycleLease) (expected_clean : bool)
    (worker_exit_status : option ExitStatus)
| MsgRegister (registration : RunningRegistration)
| MsgTerminalVtIntent (worker_id : string) (worker_pid : Z)
    (registration_nonce : string) (identity : PayloadScopeIdentity)
| MsgTerminalVtResult (worker_id : string) (worker_pid : Z)
    (registration_nonce : string) (attempt_id : Z) (result : TerminalVtCleanupResult)
| MsgRecoveryAdmin (request : RecoveryAdminRequest)
| MsgTerminate (session : StartedSession) (runtime_id : option string).

Inductive SupervisorReply :=
| ReplyNone
| ReplyLease (r : result AdmissionLease SessionError)
| ReplyPending (r : result PendingLifecycleLease SessionError)
| ReplyToken (r : result ReleaseToken SessionError)
| ReplyAttempt (r : result Z SessionError)
| ReplyAdmin (r : result RecoveryAdminResponse SessionError)
| ReplyDone (r : result () SessionError).

(** [Vec::swap_remove]; out of range it panics, [None] here. *)
Definition swap_remove {A} (i : nat) (l : list A) : option (A * list A) :=
  match l !! i, last l with
  | Some x, Some y =>
      Some (x, if decide (i = pred (length l)) then removelast l
               else <[i := y]> (removelast l))
  | _, _ => None
  end.

Section Loop.
Context `{SerdeJson PersistentRecoveryRecord} `{SerdeJson PreCommitRuntimeRecord}.
Context (host : SupervisorHost).

Definition on_admission {E A} (m : SR AdmissionWorld E A)
    : SR SupervisorLoopState E A := sr_zoom sl_admission set_admission m.
(** [let _ = ..]: the verdict of an operation is dropped. *)
Definition ignore {E F A} (m : SR SupervisorLoopState E A)
    : SR SupervisorLoopState F () := λ s, ((m s).1, Ok ()).

(** Run an operation of the durable ledger; without a ledger there is nothing
    to do. *)
Definition with_durable (e : SessionError) (m : LG ()) : SL () := λ s,
  match sl_ledger s with
  | None => (s, Ok ())
  | Some Poisoned => (s, Err e)
  | Some (Healthy l) =>
      let '(l, r) := m l in
      (set_ledger (Some (Healthy l)) s, map_err (λ _, e) r)
  end.

Definition persist_transition (id state : string) : SL () :=
  with_durable PersistentRecoveryUnavailable (transition (sh_boot host) id state).
Definition persist_resolve (id : string) : SL () :=
  with_durable PersistentRecoveryUnavailable (resolve_and_remove (sh_boot host) id).
Definition persist_new_record_to (record : PersistentRecoveryRecord) : SL () :=
  with_durable PersistentRecoveryUnavailable (create record).
Definition resolve_clean_worker_record (id : string) : SL () :=
  with_durable WorkerIoFailed (resolve_and_remove (sh_boot host) id).

Definition admission_state (s : SupervisorLoopState) : RecoveryAdmissionState :=
  recovery_admission_state (sl_ledger s) (aw_store (sl_admission s)) "seat0".

(** ** Before the worker is registered ([pending.rs]) *)

Definition loop_reserve_seat (lifecycle_id : string) : SL AdmissionLease := λ s,
  on_admission
    (reserve_seat (sh_boot host) lifecycle_id
       (rp_capture_previous_vt (sh_provider host) "seat0") (sl_ledger s)) s.

Definition cancel_admission (lease : AdmissionRollbackLease) : SL () :=
  on_admission (cancel lease).

Definition begin_pending (lease : AdmissionLease) (worker_pid launcher_pid : Z)
    (session : StartedSession) (child : Shared Z) : SL PendingLifecycleLease := λ s,
  let worker_id := al_lifecycle_id lease in
  if (worker_pid =? 0) || negb (launcher_pid =? sh_process_id host)
     || existsb (λ e, str_eqb (wr_lifecycle_id (pw_record e)) worker_id) (sl_pending s)
  then ((on_admission (cancel (RollbackReserved lease)) s).1, Err SessionSeatUnavailable)
  else
    match on_admission (promote lease (admission_state s)) s with
    | (s, Err (error, lease)) =>
        ((on_admission (cancel (RollbackReserved lease)) s).1, Err error)
    | (s, Ok (pending_lease, previous_vt)) =>
        (set_pending
           (sl_pending s ++
            [mkPendingWorker
               (worker_spawned worker_id worker_pid launcher_pid session previous_vt)
               child ReleaseNotRequested 0 false]) s, Ok pending_lease)
    end.

(** The entry of a worker, by its id and pid. *)
Definition is_entry (worker_id : string) (worker_pid : Z) (e : PendingWorkerLifecycle)
    : bool :=
  str_eqb (wr_lifecycle_id (pw_record e)) worker_id
  && (wr_worker_pid (pw_record e) =? worker_pid).
Definition find_entry (f : PendingWorkerLifecycle → bool) (s : SupervisorLoopState)
    : option (nat * PendingWorkerLifecycle) := list_find (λ e, f e = true) (sl_pending s).
Definition put_entry (i : nat) (e : PendingWorkerLifecycle) (s : SupervisorLoopState) :=
  set_pending (<[i := e]> (sl_pending s)) s.

Definition with_record (r : SupervisorSessionRecoveryRecord)
    (e : PendingWorkerLifecycle) : PendingWorkerLifecycle :=
  mkPendingWorker r (pw_child e) (pw_release e) (pw_generation e)
    (pw_terminal_before_started e).
Definition with_state (state : SupervisorRecoveryState) (e : PendingWorkerLifecycle) :=
  with_record (set_state state (pw_record e)) e.
Definition release_not_requested (e : PendingWorkerLifecycle) : bool :=
  match pw_release e with ReleaseNotRequested => true | _ => false end.

(** A failed [create] leaves the entry with the state that
    [take_state_for_transition] put there. *)
Definition record_prepared_scope (worker_id : string) (worker_pid session_pid : Z)
    (identity : PayloadScopeIdentity) (nonce : string) : SL () := λ s,
  match find_entry (is_entry worker_id worker_pid) s with
  | None => (s, Err WorkerProtocolFailed)
  | Some (i, entry) =>
      if pw_terminal_before_started entry || negb (release_not_requested entry)
         || str_is_empty nonce || (128 <? str_len nonce)
      then (s, Err WorkerProtocolFailed)
      else match wr_state (pw_record entry) with
      | WorkerSpawned previous_vt =>
          match rp_prepare_payload (sh_provider host) identity session_pid worker_pid
                  (wr_launcher_pid (pw_record entry)) previous_vt with
          | Ok payload =>
              let durable := prepared (sh_prepare host)
                (wr_lifecycle_id (pw_record entry)) worker_pid
                (wr_launcher_pid (pw_record entry))
                (wr_requested_username (pw_record entry))
                (wr_session_name (pw_record entry)) previous_vt payload in
              match persist_new_record_to durable s with
              | (s, Err e) => (put_entry i (with_state taken_state entry) s, Err e)
              | (s, Ok _) =>
                  (put_entry i
                     (mkPendingWorker
                        (set_state (PayloadPrepared payload nonce) (pw_record entry))
                        (pw_child entry) (pw_release entry)
                        (u64_wrapping_add (pw_generation entry) 1)
                        (pw_terminal_before_started entry)) s, Ok ())
              end
          | Err _ =>
              let s := put_entry i
                (mkPendingWorker
                   (set_state (Quarantined PayloadIdentityValidation
                                 InvalidPayloadIdentity
                                 (RetainedPrePayload previous_vt)) (pw_record entry))
                   (pw_child entry) (pw_release entry) (pw_generation entry) true) s in
              ((on_admission (quarantine_pending_lifecycle worker_id
                   PayloadIdentityValidation InvalidPayloadIdentity) s).1,
               Err WorkerProtocolFailed)
          end
      | _ => (s, Err WorkerProtocolFailed)
      end
  end.

Definition mark_payload_registered (worker_id : string) (worker_pid : Z) : SL () := λ s,
  match find_entry (is_entry worker_id worker_pid) s with
  | None => (s, Err WorkerProtocolFailed)
  | Some (i, entry) =>
      match wr_state (pw_record entry) with
      | PayloadPrepared payload nonce =>
          persist_transition worker_id "payload_registered"
            (put_entry i (with_state (PayloadRegistered payload nonce) entry) s)
      | _ => (s, Err WorkerProtocolFailed)
      end
  end.

(** ** Releasing the payload scope ([release.rs]) *)

Definition begin_release (request : ReleaseRequest) : SL ReleaseToken := λ s,
  match find_entry (is_entry (rq_worker_id request) (rq_worker_pid request)) s with
  | None => (s, Err WorkerProtocolFailed)
  | Some (i, entry) =>
      if negb (pw_terminal_before_started entry)
         && bool_decide (payload_identity (pw_record entry) = Some (rq_identity request))
         && bool_decide (registration_nonce (pw_record entry)
                         = Some (rq_registration_nonce request))
         && match pw_release entry with
            | ReleaseNotRequested => true
            | ReleaseRequested nonce => str_eqb nonce (rq_release_nonce request)
            | ReleaseRecoveryRequired _ => false
            end
      then
        let generation := u64_wrapping_add (pw_generation entry) 1 in
        (put_entry i
           (mkPendingWorker (pw_record entry) (pw_child entry)
              (ReleaseRequested (rq_release_nonce request)) generation
              (pw_terminal_before_started entry)) s,
         Ok (mkReleaseToken (rq_worker_id request) (rq_worker_pid request)
               (rq_registration_nonce request) (rq_release_nonce request)
               (rq_identity request) generation))
      else (s, Err WorkerProtocolFailed)
  end.

Definition token_entry (token : ReleaseToken) (e : PendingWorkerLifecycle) : bool :=
  is_entry (tk_worker_id token) (tk_worker_pid token) e
  && (pw_generation e =? tk_generation token)
  && bool_decide (payload_identity (pw_record e) = Some (tk_identity token))
  && bool_decide (registration_nonce (pw_record e) = Some (tk_registration_nonce token))
  && match pw_release e with
     | ReleaseRequested nonce => str_eqb nonce (tk_release_nonce token)
     | _ => false
     end.

Definition complete_release (token : ReleaseToken)
    (verification : ScopeReleaseVerification) : SL () := λ s,
  match find_entry (token_entry token) s with
  | None => (s, Err WorkerProtocolFailed)
  | Some (i, entry) =>
      match verification with
      | ScopeReleased =>
          match wr_state (pw_record entry) with
          | PayloadPrepared payload _ | PayloadRegistered payload _ =>
              persist_transition (tk_worker_id token) "payload_boundary_proven_empty"
                (put_entry i (with_state (PayloadReleased payload) entry) s)
          | _ => (s, Err WorkerProtocolFailed)
          end
      | ScopeRecoveryRequired reason =>
          (put_entry i
             (mkPendingWorker (pw_record entry) (pw_child entry)
                (ReleaseRecoveryRequired reason) (pw_generation entry) true) s, Ok ())
      end
  end.

(** ** Exits before the session has started *)

(** [reap_pending_worker]: a worker still alive is killed. *)
Definition reap_pending_worker (child : Shared Z) : SL ExitStatus := λ s,
  match child with
  | Poisoned => (s, Err WorkerIoFailed)
  | Healthy pid =>
      match ch_try_wait (sh_children host) pid with
      | None => (s, Err WorkerIoFailed)
      | Some (Some status) => (s, Ok status)
      | Some None =>
          if ch_kill (sh_children host) pid then
            (log_kill pid s, ok_or (ch_wait (sh_children host) pid) WorkerIoFailed)
          else (s, Err WorkerIoFailed)
      end
  end.

Definition kill_shared_worker (child : Shared Z) (s : SupervisorLoopState)
    : SupervisorLoopState :=
  match child with Healthy pid => log_kill pid s | Poisoned => s end.

Definition recover_payload_entry (entry : PendingWorkerLifecycle) (status : ExitStatus)
    (receipt : RecoverySeatReceipt) : SL () :=
  let id := wr_lifecycle_id (pw_record entry) in
  ignore (persist_transition id "emergency_recovery_started") ;;;
  let '(record, outcome) := recover (sh_provider host) (pw_record entry) status in
  match outcome with
  | OutcomeRecovered _ _ _ =>
      persist_resolve id ;;;
      on_admission (release_after_a3_finalization receipt)
  | OutcomeQuarantined stage reason =>
      ignore (match reason with
              | VtDisallocateBusy => persist_transition id "vt_disallocate_failed_busy"
              | _ => sr_ret ()
              end) ;;;
      on_admission (enter_quarantine_from_recovery receipt stage reason) ;;;
      sr_modify (push_quarantined (quarantine_record stage reason record)) ;;;
      sr_fail WorkerRecoveryIncomplete
  end.

Definition quarantine_pre_payload (entry : PendingWorkerLifecycle)
    (stage : EmergencyRecoveryStage) (reason : SupervisorRecoveryError)
    (receipt : RecoverySeatReceipt) : SL () :=
  on_admission (enter_quarantine_from_recovery receipt stage reason) ;;;
  sr_modify (push_quarantined (quarantine_record stage reason (pw_record entry))) ;;;
  sr_fail WorkerRecoveryIncomplete.

Definition recover_pre_payload_entry (entry : PendingWorkerLifecycle)
    (receipt : RecoverySeatReceipt) : SL () :=
  match wr_state (pw_record entry) with
  | WorkerSpawned previous_vt =>
      match rp_recover_pre_payload (sh_provider host) (wr_worker_pid (pw_record entry))
              (wr_requested_username (pw_record entry))
              (wr_session_name (pw_record entry)) previous_vt with
      | Ok _ => on_admission (release_after_a3_finalization receipt)
      | Err reason => quarantine_pre_payload entry LogindCleanup reason receipt
      end
  | _ => quarantine_pre_payload entry RecoveryRecordValidation InvalidRecord receipt
  end.

Definition abort_entry (lease : PendingLifecycleLease) (expected_clean : bool)
    (worker_exit_status : option ExitStatus) (entry : PendingWorkerLifecycle) : SL () :=
  let* status := match worker_exit_status with
                 | Some status => sr_ret status
                 | None => reap_pending_worker (pw_child entry)
                 end in
  let no_payload := bool_decide (payload_identity (pw_record entry) = None) in
  if expected_clean
     && (no_payload
         || is_ok (finalize_expected_prestarted_exit (sh_provider host)
                     (pw_record entry) status))
  then
    ignore (persist_resolve (pl_lifecycle_id lease)) ;;;
    ignore (on_admission (cancel (RollbackPending lease)))
  else if negb no_payload then
    let '(record, classification) :=
      mark_worker_exited_unexpectedly status (pw_record entry) in
    let* receipt := on_admission (pending_recovery (wr_lifecycle_id record)
                                    (phase_name record) classification) in
    recover_payload_entry (with_record record entry) status receipt
  else
    let* receipt := on_admission
      (pending_recovery (wr_lifecycle_id (pw_record entry))
         (phase_name (pw_record entry)) UnexpectedExitBeforeStarted) in
    recover_pre_payload_entry entry receipt.

Definition abort_pending (lease : PendingLifecycleLease) (expected_clean : bool)
    (worker_exit_status : option ExitStatus) : SL () := λ s,
  let worker_id := pl_lifecycle_id lease in
  if negb (matches_pending lease (aw_controller (sl_admission s)))
  then (s, Err SessionSeatUnavailable)
  else
    match find_entry (λ e, str_eqb (wr_lifecycle_id (pw_record e)) worker_id) s with
    | None => ((on_admission (cancel (RollbackPending lease)) s).1,
               Err SessionSeatUnavailable)
    | Some (i, _) =>
        match swap_remove i (sl_pending s) with
        | None => (s, Err SessionSeatUnavailable)
        | Some (entry, rest) =>
            abort_entry lease expected_clean worker_exit_status entry (set_pending rest s)
        end
    end.

(** ** Running sessions ([running.rs]) *)

Definition registrable (registration : RunningRegistration)
    (e : PendingWorkerLifecycle) : bool :=
  str_eqb (wr_lifecycle_id (pw_record e)) (rr_worker_id registration)
  && (wr_worker_pid (pw_record e)
      =? match pw_child e with Healthy pid => pid | Poisoned => 0 end)
  && bool_decide (payload_identity (pw_record e) = Some (rr_payload_scope registration))
  && release_not_requested e
  && negb (pw_terminal_before_started e)
  && match wr_state (pw_record e) with PayloadRegistered _ _ => true | _ => false end.

(** The entry of a registration whose payload is the announced one. *)
Definition start_entry (registration : RunningRegistration)
    (payload : SupervisorPreparedPayload) (entry : PendingWorkerLifecycle) : SL () :=
  let record := set_state (Started payload (rr_runtime_id registration))
                  (pw_record entry) in
  persist_transition (rr_worker_id registration) "started" ;;;
  let* recovery := λ s, (s, Ok (admission_state s)) in
  let* receipt := on_admission
    (commit_transaction (rr_admission_transaction registration) recovery) in
  let* admission := on_admission (promote_committed_to_running receipt) in
  sr_modify (λ s, set_children
    (sl_children s ++
     [mkSupervised admission record (pw_child entry) (rr_session registration)
        (rr_session_pid registration) (rr_session_pgid registration)
        (rr_worker_id registration) (rr_registration_nonce registration) false]) s) ;;;
  ensure (sh_clone_channel host) else WorkerIoFailed.

Definition register_running (registration : RunningRegistration) : SL () := λ s,
  let transaction := rr_admission_transaction registration in
  let '(transaction', lease) := pending_lease transaction in
  if negb (str_eqb (lt_lifecycle_id (pd_transaction transaction))
             (rr_worker_id registration))
  then (s, Err WorkerProtocolFailed)
  else match find_entry (registrable registration) s with
  | None =>
      match lease with
      | Ok lease => ((on_admission (cancel (RollbackPending lease)) s).1,
                     Err WorkerProtocolFailed)
      | Err e => (s, Err e)
      end
  | Some (i, _) =>
      match swap_remove i (sl_pending s) with
      | None => (s, Err WorkerProtocolFailed)
      | Some (entry, rest) =>
          let s := set_pending rest s in
          match wr_state (pw_record entry) with
          | PayloadRegistered payload _ =>
              if negb (str_eqb (sli_id (pp_logind payload))
                         (rr_logind_session_id registration))
                 || negb (pb_leader_pid (pp_boundary payload)
                          =? rr_session_pid registration)
              then match lease with
                   | Err e => (s, Err e)
                   | Ok lease =>
                       let s := (on_admission (enter_quarantine_from_pending lease
                                   RecoveryRecordValidation InvalidRecord) s).1 in
                       let s := push_quarantined
                         (set_state (Quarantined RecoveryRecordValidation InvalidRecord
                                       (RetainedPayload payload)) (pw_record entry)) s in
                       (kill_shared_worker (pw_child entry) s, Err WorkerProtocolFailed)
                   end
              else start_entry registration payload entry s
          | _ => (s, Err WorkerProtocolFailed)
          end
      end
  end.

(** [request_worker_termination]: a worker already gone needs none. *)
Definition request_worker_termination (worker : SupervisedWorker)
    : result () SessionError :=
  if str_is_empty (sw_worker_id worker) then Err WorkerIoFailed
  else match sw_child worker with
  | Poisoned => Err WorkerIoFailed
  | Healthy pid =>
      match ch_try_wait (sh_children host) pid with
      | None => Err WorkerIoFailed
      | Some (Some _) => Ok ()
      | Some None =>
          if sh_send_terminate host pid then Ok ()
          else match sh_try_wait_again host pid with
          | None => Err WorkerIoFailed
          | Some (Some _) => Ok ()
          | Some None => Err WorkerIoFailed
          end
      end
  end.

Definition terminate_running (session : StartedSession) (runtime_id : option string)
    : SL () := λ s,
  match list_find (λ worker,
          match runtime_id with
          | None => bool_decide (sw_session worker = session)
          | Some id => bool_decide (record_runtime_id (sw_record worker) = Some id)
          end = true) (sl_children s) with
  | Some (_, worker) => (s, request_worker_termination worker)
  | None => (s, Ok ())
  end.

(** ** Exits of running workers ([running/exit_handling.rs]) *)

Definition recover_exited (worker : SupervisedWorker) (status : ExitStatus) : SL () :=
  let '(record, classification) :=
    mark_worker_exited_unexpectedly status (sw_record worker) in
  let id := wr_lifecycle_id record in
  ignore (persist_transition id "worker_exited_unexpectedly") ;;;
  let* receipt := on_admission
    (enter_recovery (sw_admission worker) (phase_name record) classification) in
  let '(record, outcome) := recover (sh_provider host) record status in
  match outcome with
  | OutcomeRecovered _ _ _ =>
      ignore (on_admission (release_after_a3_finalization receipt))
  | OutcomeQuarantined stage reason =>
      ignore (match reason with
              | VtDisallocateBusy => persist_transition id "vt_disallocate_failed_busy"
              | _ => sr_ret ()
              end) ;;;
      ignore (on_admission (enter_quarantine_from_recovery receipt stage reason)) ;;;
      sr_modify (push_quarantined (quarantine_record stage reason record))
  end.

Definition finish_worker (worker : SupervisedWorker) (status : ExitStatus)
    (s : SupervisorLoopState) : SupervisorLoopState :=
  if sw_terminal_vt_reported_busy worker then
    push_quarantined (sw_record worker)
      (on_admission (enter_quarantine_from_running (sw_admission worker) VtRecovery
                       VtDisallocateBusy) s).1
  else
    let '(s, clean) :=
      if exit_success status
         && is_ok (finalize_clean_worker_exit (sh_provider host) (sw_record worker) status)
      then let '(s, r) :=
             resolve_clean_worker_record (wr_lifecycle_id (sw_record worker)) s in
           (s, is_ok r)
      else (s, false) in
    if clean
    then (on_admission (release_running_after_a3_finalization (sw_admission worker)) s).1
    else (recover_exited worker status s).1.

(** A panic of [swap_remove] leaves the state as it is; the index is always in
    range. *)
Definition finish_exited_worker (index : nat) (status : ExitStatus)
    (s : SupervisorLoopState) : SupervisorLoopState :=
  match swap_remove index (sl_children s) with
  | None => s
  | Some (worker, rest) => finish_worker worker status (set_children rest s)
  end.

(** The loop of [reap_exited_workers]; a round either drops a worker or goes
    to the next one. *)
Fixpoint reap_from (rounds index : nat) (s : SupervisorLoopState)
    : SupervisorLoopState :=
  match rounds with
  | O => s
  | S rounds =>
      match sl_children s !! index with
      | None => s
      | Some worker =>
          match sw_child worker with
          | Poisoned => reap_from rounds (S index) s
          | Healthy pid =>
              match ch_try_wait (sh_children host) pid with
              | Some (Some status) =>
                  reap_from rounds index (finish_exited_worker index status s)
              | Some None | None => reap_from rounds (S index) s
              end
          end
      end
  end.
Definition reap_exited_workers (s : SupervisorLoopState) : SupervisorLoopState :=
  reap_from (length (sl_children s)) 0 s.

(** ** The end of a session's VT ([terminal_vt.rs]) *)

Definition find_child (worker_id : string) (s : SupervisorLoopState)
    : option (nat * SupervisedWorker) :=
  list_find (λ worker, sw_worker_id worker = worker_id) (sl_children s).

Definition accept_terminal_vt_intent (worker_id : string) (worker_pid : Z)
    (nonce : string) (identity : PayloadScopeIdentity) : SL Z := λ s,
  match find_child worker_id s with
  | None => (s, Err WorkerProtocolFailed)
  | Some (_, worker) =>
      if negb (wr_worker_pid (sw_record worker) =? worker_pid)
         || negb (str_eqb (sw_registration_nonce worker) nonce)
         || negb (bool_decide (payload_identity (sw_record worker) = Some identity))
         || str_is_empty nonce || (128 <? str_len nonce)
      then (s, Err WorkerProtocolFailed)
      else match sl_ledger s with
      | None | Some Poisoned => (s, Err WorkerIoFailed)
      | Some (Healthy l) =>
          match lg_records l !! worker_id with
          | None => (s, Err WorkerProtocolFailed)
          | Some record =>
              if negb (pr_worker_pid record =? worker_pid)
                 || negb (str_eqb (pr_state record) "started")
              then (s, Err WorkerProtocolFailed)
              else match u64_checked_add (pr_sequence record) 1 with
              | None => (s, Err WorkerProtocolFailed)
              | Some attempt_id =>
                  let '(l, r) := worker_vt_cleanup_intent (sh_boot host) worker_id
                                   attempt_id l in
                  (set_ledger (Some (Healthy l)) s,
                   match r with Ok _ => Ok attempt_id | Err _ => Err WorkerIoFailed end)
              end
          end
      end
  end.

Definition intent_is (attempt_id : Z) (o : DurableOperationState) : bool :=
  match o with IntentPersisted id => id =? attempt_id | _ => false end.

Definition accept_terminal_vt_result (worker_id : string) (worker_pid : Z)
    (nonce : string) (attempt_id : Z) (res : TerminalVtCleanupResult) : SL () := λ s,
  if str_is_empty nonce || (128 <? str_len nonce) then (s, Err WorkerProtocolFailed)
  else match find_child worker_id s with
  | None => (s, Err WorkerProtocolFailed)
  | Some (i, worker) =>
      if negb (wr_worker_pid (sw_record worker) =? worker_pid)
         || negb (str_eqb (sw_registration_nonce worker) nonce)
      then (s, Err WorkerProtocolFailed)
      else match sl_ledger s with
      | None | Some Poisoned => (s, Err WorkerIoFailed)
      | Some (Healthy l) =>
          match lg_records l !! worker_id with
          | None => (s, Err WorkerProtocolFailed)
          | Some record =>
              if negb (intent_is attempt_id (ol_vt_disallocate (pr_operation_ledger record)))
              then (s, Err WorkerProtocolFailed)
              else
                let '(l, r) := worker_vt_cleanup_result (sh_boot host) worker_id
                                 attempt_id res l in
                let s := set_ledger (Some (Healthy l)) s in
                match r with
                | Err _ => (s, Err WorkerIoFailed)
                | Ok _ =>
                    (set_children
                       (<[i := mkSupervised (sw_admission worker) (sw_record worker)
                                 (sw_child worker) (sw_session worker)
                                 (sw_session_pid worker) (sw_session_pgid worker)
                                 (sw_worker_id worker) (sw_registration_nonce worker)
                                 (match res with TvVtDisallocateBusy => true
                                  | TvReleased => false end)]> (sl_children s)) s,
                     Ok ())
                end
          end
      end
  end.

(** ** The loop ([messages.rs], [mod.rs]) *)

Definition loop_recovery_admin (request : RecoveryAdminRequest)
    (s : SupervisorLoopState)
    : SupervisorLoopState * result RecoveryAdminResponse SessionError :=
  let '(a, r) := recovery_admin (sh_boot host) (sh_admin host) request
                   (mkSupervisorAdmin (sl_admission s) (sl_ledger s) (sl_ioctls s)) in
  (mkSupervisor (sl_children s) (sl_pending s) (sl_quarantined s) (sp_admission a)
     (sp_ledger a) (sl_killed s) (sp_ioctls a), r).

Definition answer {A} (f : A → SupervisorReply) (x : SupervisorLoopState * A)
    : SupervisorLoopState * SupervisorReply := (x.1, f x.2).

Definition handle_message (message : WorkerSupervisorMessage)
    (s : SupervisorLoopState) : SupervisorLoopState * SupervisorReply :=
  match message with
  | MsgReserveSeat id => answer ReplyLease (loop_reserve_seat id s)
  | MsgCancelAdmission lease => answer (λ _, ReplyNone) (cancel_admission lease s)
  | MsgBeginPending lease pid launcher session child =>
      answer ReplyPending (begin_pending lease pid launcher session child s)
  | MsgRecordPreparedScope id pid session_pid identity nonce =>
      answer ReplyDone (record_prepared_scope id pid session_pid identity nonce s)
  | MsgMarkPayloadRegistered id pid =>
      answer ReplyDone (mark_payload_registered id pid s)
  | MsgBeginRelease request => answer ReplyToken (begin_release request s)
  | MsgCompleteRelease token verification =>
      answer ReplyDone (complete_release token verification s)
  | MsgAbortPending lease clean status =>
      answer ReplyDone (abort_pending lease clean status s)
  | MsgRegister registration => answer ReplyDone (register_running registration s)
  | MsgTerminalVtIntent id pid nonce identity =>
      answer ReplyAttempt (accept_terminal_vt_intent id pid nonce identity s)
  | MsgTerminalVtResult id pid nonce attempt_id res =>
      answer ReplyDone (accept_terminal_vt_result id pid nonce attempt_id res s)
  | MsgRecoveryAdmin request => answer ReplyAdmin (loop_recovery_admin request s)
  | MsgTerminate session runtime_id =>
      answer ReplyDone (terminate_running session runtime_id s)
  end.

(** [shutdown_workers]: the workers are asked to terminate, polled until the
    deadline, and the rest is killed.  [polls] is what the polls find. *)
Definition exited_at (children : ChildHost) (worker : SupervisedWorker) : bool :=
  match sw_child worker with
  | Poisoned => false
  | Healthy pid => match ch_try_wait children pid with
                   | Some (Some _) => true
                   | _ => false
                   end
  end.
Definition poll_workers (workers : list SupervisedWorker) (children : ChildHost)
    : list SupervisedWorker :=
  filter (λ worker, exited_at children worker = false) workers.
Definition shutdown_workers (polls : list ChildHost) (s : SupervisorLoopState)
    : SupervisorLoopState :=
  let remaining := foldl poll_workers (sl_children s) polls in
  foldl (λ s worker, kill_shared_worker (sw_child worker) s)
    (set_children remaining s) remaining.

(** One round of [run]: a message, if one came, then the reaping. *)
Definition run_round (message : option WorkerSupervisorMessage)
    (s : SupervisorLoopState) : SupervisorLoopState :=
  reap_exited_workers
    (match message with Some m => (handle_message m s).1 | None => s end).
End Loop.

(** [SupervisorLoopState::new]. *)
Definition supervisor_new (ledger : option (Shared PersistentRecoveryLedger))
    (store : option (Shared PreCommitRuntimeStore)) : SupervisorLoopState :=
  mkSupervisor [] [] []
    (mkWorld (controller_new "seat0" (initial_lifecycle ledger)) store) ledger [] [].

(** The loop as rounds, each with its own host. *)
Definition run_loop `{SerdeJson PersistentRecoveryRecord}
    `{SerdeJson PreCommitRuntimeRecord}
    (rounds : list (SupervisorHost * option WorkerSupervisorMessage))
    (s : SupervisorLoopState) : SupervisorLoopState :=
  foldl (λ s '(host, message), run_round host message s) s rounds.
