(* ===== verification/SupervisorSafety.v ===== *)
(** * The seat and the supervised worker

    The invariant that ties the running worker to the seat, kept by every
    round of the loop whatever message comes and whatever the host answers. *)

From stdpp Require Import base gmap sets list strings.
From Stdlib Require Import ZArith Lia.
From S2P Require Import Prelude Text DirFs RecoveryTypes LedgerTaxonomy Ledger.
From S2P Require Import LedgerDurability PreviousBoot PreCommit SameBoot.
From S2P Require Import Admission AdminRecovery Protocol Conversation Login.
From S2P Require Import Daemon WorkerRecord Supervisor.
#[local] Open Scope niralis_scope.

(** ** Operations that leave running seats alone *)

(** The controller keeps its invariant and the seat keeps its running
    session: no receipt starts or stops matching. *)
Definition quiet (w w' : AdmissionWorld) : Prop :=
  admission_inv (aw_controller w) →
  admission_inv (aw_controller w') ∧
  ∀ r, matches_running r (aw_controller w') = matches_running r (aw_controller w).
#[export] Instance quiet_preorder : PreOrder quiet.
Proof.
  split; [by split|]. intros x y z H1 H2 Hi.
  destruct (H1 Hi) as [Hy E1]. destruct (H2 Hy) as [Hz E2]. split; [done|].
  intros r. by rewrite E2, E1.
Qed.

Definition is_active (c : SeatAdmissionController) : bool :=
  match sc_lifecycle c with SeatActive _ => true | _ => false end.

Lemma not_active_matches c r : is_active c = false → matches_running r c = false.
Proof.
  unfold is_active. intros H. apply not_true_iff_false.
  intros (Hl & _)%matches_running_true. by rewrite Hl in H.
Qed.

Lemma active_phase c : admission_inv c → is_active c = true → sc_phase c = PhaseFree.
Proof.
  unfold is_active. intros Hi H. destruct (sc_lifecycle c) eqn:Hl; try done.
  by eapply inv_phase_free.
Qed.

Lemma quiet_same w w' : aw_controller w' = aw_controller w → quiet w w'.
Proof. intros E Hi. by rewrite E. Qed.

(** An operation that acts on a seat without a running session and leaves it
    without one. *)
Lemma quiet_inactive w w' :
  is_active (aw_controller w) = false → is_active (aw_controller w') = false →
  (admission_inv (aw_controller w) → admission_inv (aw_controller w')) → quiet w w'.
Proof.
  intros H1 H2 Hi Hw. split; [auto|]. intros r.
  by rewrite !not_active_matches.
Qed.

Lemma phase_inactive w :
  admission_inv (aw_controller w) → sc_phase (aw_controller w) ≠ PhaseFree →
  is_active (aw_controller w) = false.
Proof.
  intros (H1 & _) Hp. unfold is_active. by rewrite (H1 Hp).
Qed.

(** The operations that do not start or end a running session. *)
Definition leaves_running (op : AdmissionOp) : bool :=
  match op with
  | OpStart _ | OpRecover _ _ _ | OpQuarantineRunning _ _ _ | OpReleaseRunning _ => false
  | _ => true
  end.

Lemma view_inactive c :
  admission_inv c → is_active c = false ↔ ∀ i, view c ≠ VActive i.
Proof.
  intros Hi. unfold is_active, view. split.
  - intros H i. destruct (sc_phase c), (sc_lifecycle c); done.
  - intros H. destruct (sc_lifecycle c) as [|i| |] eqn:Hl; try done.
    rewrite (inv_phase_free c _ Hi Hl) in H by done. by specialize (H i).
Qed.

(** A seat with a running or a committed session refuses them. *)
Lemma leaves_running_refused op w :
  admission_inv (aw_controller w) → leaves_running op = true →
  is_active (aw_controller w) = true ∨
    (∃ a i g, sc_phase (aw_controller w) = PhaseCommitted a i g) →
  aw_controller (run_admission_op op w).1 = aw_controller w.
Proof.
  intros Hi Hop Hc.
  assert (∃ p l, sc_phase (aw_controller w) = p ∧ sc_lifecycle (aw_controller w) = l ∧
    (p = PhaseFree ∧ (∃ i, l = SeatActive i) ∨
     (∃ a i g, p = PhaseCommitted a i g) ∧ l = SeatFree)) as (p & l & Hp & Hl & Hpl).
  { do 2 eexists. split; [done|]. split; [done|]. destruct Hc as [Ha|(a & i & g & Hp)].
    - left. split; [by apply active_phase|]. unfold is_active in Ha.
      destruct (sc_lifecycle _); try done. eauto.
    - right. split; [eauto|]. apply Hi. by rewrite Hp. }
  destruct op; try done; cbn [run_admission_op outcome fst];
    unfold reserve, promote, commit_launch, enter_quarantine_from_pending,
      quarantine_pending_lifecycle, enter_quarantine_from_recovery,
      enter_quarantine_for_admin, pending_recovery, release_after_a3_finalization,
      release_after_admin_finalization, cancel, phase_is_free, is_free,
      matches_reserved, matches_pending, matches_recovering, recovering_is,
      quarantined_is, pending_is; rewrite ?Hp, ?Hl;
    destruct Hpl as [[-> [i ->]]|[(a & i & g & ->) ->]];
    rewrite ?orb_true_r, ?andb_false_r; cbn; rewrite ?orb_true_r;
    try done; try (by case_match); by destruct l0 || by destruct l.
Qed.

Lemma quiet_op op w : leaves_running op = true → quiet w (run_admission_op op w).1.
Proof.
  intros Hop Hi. pose proof (run_admission_op_effect op w Hi) as (Hi' & _ & Heff).
  assert (aw_controller (run_admission_op op w).1 = aw_controller w ∨
          is_active (aw_controller w) = false ∧
          is_active (aw_controller (run_admission_op op w).1) = false) as [E|[H1 H2]].
  { destruct (is_active (aw_controller w)) eqn:Ha.
    { left. apply leaves_running_refused; auto. }
    destruct (is_active (aw_controller (run_admission_op op w).1)) eqn:Ha'; [|auto].
    left. destruct (run_admission_op op w).2 eqn:Hok; [|done]. exfalso.
    assert (∃ i, view (aw_controller (run_admission_op op w).1) = VActive i) as [i Hv].
    { unfold view. rewrite (active_phase _ Hi' Ha'). unfold is_active in Ha'.
      destruct (sc_lifecycle _); try done. eauto. }
    rewrite Hv in Heff. destruct op as [| | | | | | | | | | | | | |[]]; try done; cbn in Heff;
      destruct_and?; done. }
  - split; [done|]. intros r. by rewrite E.
  - split; [done|]. intros r. by rewrite !not_active_matches.
Qed.

(** The operations of the controller, as they are called. *)
Lemma reserve_quiet id rec vt : sr_keeps quiet (reserve id rec vt).
Proof. intros w. by apply (quiet_op (OpReserve id rec vt)). Qed.
Lemma promote_quiet l rec : sr_keeps quiet (promote l rec).
Proof. intros w. by apply (quiet_op (OpPromote l rec)). Qed.
Lemma commit_launch_quiet l rec : sr_keeps quiet (commit_launch l rec).
Proof. intros w. by apply (quiet_op (OpCommit l rec)). Qed.
Lemma cancel_quiet l : sr_keeps quiet (cancel l).
Proof. intros w. by apply (quiet_op (OpCancel l)). Qed.
Lemma quarantine_pending_quiet l st e :
  sr_keeps quiet (enter_quarantine_from_pending l st e).
Proof. intros w. by apply (quiet_op (OpQuarantinePending l st e)). Qed.
Lemma quarantine_pending_id_quiet i st e :
  sr_keeps quiet (quarantine_pending_lifecycle i st e).
Proof. intros w. by apply (quiet_op (OpQuarantinePendingId i st e)). Qed.
Lemma quarantine_recovering_quiet r st e :
  sr_keeps quiet (enter_quarantine_from_recovery r st e).
Proof. intros w. by apply (quiet_op (OpQuarantineRecovering r st e)). Qed.
Lemma quarantine_admin_quiet i : sr_keeps quiet (enter_quarantine_for_admin i).
Proof. intros w. by apply (quiet_op (OpQuarantineAdmin i)). Qed.
Lemma pending_recovery_quiet i p e : sr_keeps quiet (pending_recovery i p e).
Proof. intros w. by apply (quiet_op (OpPendingRecovery i p e)). Qed.
Lemma release_recovered_quiet r : sr_keeps quiet (release_after_a3_finalization r).
Proof. intros w. by apply (quiet_op (OpReleaseRecovered r)). Qed.
Lemma release_admin_quiet r : sr_keeps quiet (release_after_admin_finalization r).
Proof. intros w. by apply (quiet_op (OpReleaseAdmin r)). Qed.
Lemma with_store_quiet {A} (m : PG A) : sr_keeps quiet (with_store m).
Proof. intros w. apply quiet_same, with_store_controller. Qed.
#[export] Hint Resolve reserve_quiet promote_quiet commit_launch_quiet cancel_quiet
  quarantine_pending_quiet quarantine_pending_id_quiet quarantine_recovering_quiet
  quarantine_admin_quiet pending_recovery_quiet release_recovered_quiet
  release_admin_quiet with_store_quiet : niralis.

(** ** Calm steps of the loop *)

Definition calm (s s' : SupervisorLoopState) : Prop :=
  quiet (sl_admission s) (sl_admission s') ∧ sl_children s' = sl_children s.
#[export] Instance calm_preorder : PreOrder calm.
Proof.
  split; [by split|]. intros x y z [Q1 E1] [Q2 E2].
  split; [by transitivity (sl_admission y)|congruence].
Qed.

Section Calm.
Context `{SerdeJson PersistentRecoveryRecord} `{SerdeJson PreCommitRuntimeRecord}.
Context (host : SupervisorHost).

Lemma on_admission_calm {E A} (m : SR AdmissionWorld E A) :
  sr_keeps quiet m → sr_keeps calm (on_admission m).
Proof.
  intros Hm s. unfold on_admission, sr_zoom. specialize (Hm (sl_admission s)).
  by destruct (m (sl_admission s)) as [w r].
Qed.
Lemma with_durable_calm e m : sr_keeps calm (with_durable e m).
Proof.
  intros s. unfold with_durable. destruct (sl_ledger s) as [[l|]|]; [|done..].
  by destruct (m l).
Qed.
Lemma ignore_calm {E F A} (m : SR SupervisorLoopState E A) :
  sr_keeps calm m → sr_keeps calm (ignore (F := F) m).
Proof. intros Hm s. apply Hm. Qed.
Lemma modify_calm {E} f :
  (∀ s, calm s (f s)) → sr_keeps calm (sr_modify (E := E) f).
Proof. intros Hf s. apply Hf. Qed.

Lemma loop_reserve_seat_calm id : sr_keeps calm (loop_reserve_seat host id).
Proof.
  intros s. unfold loop_reserve_seat. apply on_admission_calm. intros w.
  unfold reserve_seat. destruct (negb _); [done|].
  destruct (rp_capture_previous_vt _ _) as [vt|]; [|done].
  apply keeps_bind; [apply _|apply reserve_quiet|]. intros lease w'.
  destruct (aw_store w'); [|done].
  apply keeps_bind; [apply _|apply with_store_quiet|]. intros b. apply keeps_lift, _.
Qed.

Lemma begin_pending_calm lease pid launcher session child :
  sr_keeps calm (begin_pending host lease pid launcher session child).
Proof.
  intros s. unfold begin_pending. destruct (_ || _ || _).
  { cbn [fst]. apply on_admission_calm, cancel_quiet. }
  pose proof (on_admission_calm (promote lease (admission_state s))
                (promote_quiet _ _) s) as Hp.
  destruct (on_admission _ s) as [s1 [[pl vt]|[e l]]]; cbn [fst] in *.
  - destruct Hp. by split.
  - etransitivity; [exact Hp|]. apply on_admission_calm, cancel_quiet.
Qed.

Lemma record_prepared_scope_calm id pid spid identity nonce :
  sr_keeps calm (record_prepared_scope host id pid spid identity nonce).
Proof.
  intros s. unfold record_prepared_scope.
  destruct (find_entry _ s) as [[i entry]|]; [|done].
  destruct (_ || _); [done|]. destruct (wr_state _); try done.
  destruct (rp_prepare_payload _ _ _ _ _ _) as [payload|].
  - pose proof (with_durable_calm PersistentRecoveryUnavailable
      (create (prepared (sh_prepare host) (wr_lifecycle_id (pw_record entry)) pid
         (wr_launcher_pid (pw_record entry)) (wr_requested_username (pw_record entry))
         (wr_session_name (pw_record entry)) previous_vt payload)) s) as Hc.
    unfold persist_new_record_to.
    destruct (with_durable _ _ s) as [s1 [[]|e]]; destruct Hc; by split.
  - cbn [fst].
    pose proof (on_admission_calm _ (quarantine_pending_id_quiet id
      PayloadIdentityValidation InvalidPayloadIdentity)) as Hk.
    etransitivity; [|apply Hk]. by split.
Qed.

Lemma mark_payload_registered_calm id pid :
  sr_keeps calm (mark_payload_registered host id pid).
Proof.
  intros s. unfold mark_payload_registered.
  destruct (find_entry _ s) as [[i entry]|]; [|done]. destruct (wr_state _); try done.
  etransitivity; [|apply with_durable_calm]. by split.
Qed.

Lemma begin_release_calm request : sr_keeps calm (begin_release request).
Proof.
  intros s. unfold begin_release. destruct (find_entry _ s) as [[i entry]|]; [|done].
  by destruct (_ && _).
Qed.
Lemma complete_release_calm token v : sr_keeps calm (complete_release host token v).
Proof.
  intros s. unfold complete_release. destruct (find_entry _ s) as [[i entry]|]; [|done].
  destruct v; [|done]. destruct (wr_state _); try done;
    (etransitivity; [|apply with_durable_calm]; by split).
Qed.

Lemma quarantine_tail_calm receipt stage reason r :
  sr_keeps calm (on_admission (enter_quarantine_from_recovery receipt stage reason) ;;;
    sr_modify (push_quarantined r) ;;; sr_fail WorkerRecoveryIncomplete (A := ())).
Proof.
  apply keeps_bind; [apply _|auto using on_admission_calm with niralis|intros _].
  apply keeps_bind; [apply _|apply modify_calm; by split|intros _].
  apply keeps_fail, _.
Qed.

Lemma recover_payload_entry_calm entry status receipt :
  sr_keeps calm (recover_payload_entry host entry status receipt).
Proof.
  unfold recover_payload_entry.
  apply keeps_bind; [apply _|apply ignore_calm, with_durable_calm|intros _].
  destruct (recover _ _ _) as [record []].
  - apply keeps_bind; [apply _|apply with_durable_calm|intros _].
    apply on_admission_calm, release_recovered_quiet.
  - apply keeps_bind; [apply _| |intros _; apply quarantine_tail_calm].
    apply ignore_calm. destruct reason; first [apply with_durable_calm|apply keeps_ret, _].
Qed.

Lemma recover_pre_payload_entry_calm entry receipt :
  sr_keeps calm (recover_pre_payload_entry host entry receipt).
Proof.
  unfold recover_pre_payload_entry, quarantine_pre_payload.
  destruct (wr_state _); try apply quarantine_tail_calm.
  destruct (rp_recover_pre_payload _ _ _ _ _); [|apply quarantine_tail_calm].
  apply on_admission_calm, release_recovered_quiet.
Qed.

Lemma reap_pending_worker_calm child : sr_keeps calm (reap_pending_worker host child).
Proof.
  intros s. unfold reap_pending_worker. destruct child as [pid|]; [|done].
  destruct (ch_try_wait _ _) as [[|]|]; try done. by destruct (ch_kill _ _).
Qed.

Lemma abort_entry_calm lease clean status entry :
  sr_keeps calm (abort_entry host lease clean status entry).
Proof.
  unfold abort_entry. apply keeps_bind; [apply _| |intros st].
  { destruct status; [apply keeps_ret, _|apply reap_pending_worker_calm]. }
  destruct (clean && _).
  { apply keeps_bind; [apply _|apply ignore_calm, with_durable_calm|intros _].
    apply ignore_calm, on_admission_calm, cancel_quiet. }
  destruct (negb _).
  - destruct (mark_worker_exited_unexpectedly _ _) as [record classification].
    apply keeps_bind; [apply _|apply on_admission_calm, pending_recovery_quiet|].
    intros receipt. apply recover_payload_entry_calm.
  - apply keeps_bind; [apply _|apply on_admission_calm, pending_recovery_quiet|].
    intros receipt. apply recover_pre_payload_entry_calm.
Qed.

Lemma abort_pending_calm lease clean status :
  sr_keeps calm (abort_pending host lease clean status).
Proof.
  intros s. unfold abort_pending. destruct (negb _); [done|].
  destruct (find_entry _ s) as [[i e]|].
  2: { cbn [fst]. apply on_admission_calm, cancel_quiet. }
  destruct (swap_remove i (sl_pending s)) as [[entry rest]|]; [|done].
  etransitivity; [|apply abort_entry_calm]. by split.
Qed.

Lemma accept_terminal_vt_intent_calm id pid nonce identity :
  sr_keeps calm (accept_terminal_vt_intent host id pid nonce identity).
Proof.
  intros s. unfold accept_terminal_vt_intent.
  destruct (find_child _ s) as [[i worker]|]; [|done]. destruct (_ || _); [done|].
  destruct (sl_ledger s) as [[l|]|]; [|done..].
  destruct (lg_records l !! id); [|done]. destruct (_ || _); [done|].
  destruct (u64_checked_add _ _); [|done]. by destruct (worker_vt_cleanup_intent _ _ _ l).
Qed.

Lemma terminate_running_calm session id :
  sr_keeps calm (terminate_running host session id).
Proof. intros s. unfold terminate_running. by destruct (list_find _ _) as [[]|]. Qed.

Lemma commit_transaction_quiet p rec : sr_keeps quiet (commit_transaction p rec).
Proof.
  intros w. unfold commit_transaction.
  destruct (lt_phase _); try done. destruct (pd_pending_lease p) as [lease|]; [|done].
  pose proof (commit_launch_quiet lease rec w) as Hc.
  destruct (commit_launch lease rec w) as [w1 [receipt|[e l]]]; cbn [fst] in *.
  - unfold mark_precommit_handoff_committed.
    destruct (cr_precommit receipt) as [b|]; [|done].
    pose proof (with_store_quiet (mark_handoff_committed b) w1) as Hs.
    destruct (with_store _ w1) as [w2 []]; cbn [fst] in *; by transitivity w1.
  - etransitivity; [exact Hc|]. apply cancel_quiet.
Qed.
End Calm.

(** ** The administrative recovery is calm *)

Definition admin_quiet (s s' : AdminState) : Prop :=
  quiet (as_admission s) (as_admission s').
#[export] Instance admin_quiet_preorder : PreOrder admin_quiet.
Proof.
  split; [intros s; by apply quiet_same|]. intros x y z. unfold admin_quiet. apply transitivity.
Qed.

Section AdminCalm.
Context `{SerdeJson PersistentRecoveryRecord}.
Context (boot : result string IoError) (host : RecoveryAdminHost).

Lemma with_ledger_admin {E A} (f : IoError → E) (m : LG A) :
  sr_keeps admin_quiet (with_ledger f m).
Proof. intros s. apply quiet_same. by destruct (with_ledger_rest f m s) as [-> _]. Qed.
Lemma with_admission_admin {E A} (f : SessionError → E) (m : AW A) :
  sr_keeps quiet m → sr_keeps admin_quiet (with_admission f m).
Proof.
  intros Hm s. unfold admin_quiet, with_admission, sr_map_err, sr_zoom.
  specialize (Hm (as_admission s)). by destruct (m (as_admission s)) as [w []].
Qed.

Lemma publish_admin_free_quiet removed : sr_keeps admin_quiet (publish_admin_free removed).
Proof.
  unfold publish_admin_free.
  apply keeps_bind; [apply _|intros s; by apply quiet_same|intros receipt].
  apply keeps_bind; [apply _|apply with_ledger_admin|intros permit].
  apply keeps_bind; [apply _|apply with_ledger_admin|intros _].
  apply with_admission_admin, release_admin_quiet.
Qed.

Lemma finalize_admin_success_quiet id a :
  sr_keeps admin_quiet (finalize_admin_success boot host id a).
Proof.
  assert (∀ r, sr_keeps admin_quiet (finalize_admin_record boot host id a r)) as HK.
  { intros r. unfold finalize_admin_record, release_admin_record.
    do 3 (apply keeps_bind; [apply _|apply keeps_lift, _|intros ?]).
    apply keeps_bind; [apply _|apply with_ledger_admin|intros [[sn rs] rp]].
    destruct (ah_runtime_release _ _).
    - apply keeps_bind; [apply _|apply with_ledger_admin|intros [[[rl rs'] cf] rm]].
      apply keeps_bind; [apply _|apply with_ledger_admin|apply publish_admin_free_quiet].
    - apply keeps_bind; [apply _|apply with_ledger_admin|intros _]. apply keeps_fail, _. }
  intros s. unfold finalize_admin_success.
  destruct (lg_records (as_ledger s) !! id); [apply HK|by apply quiet_same].
Qed.

Lemma after_disallocate_quiet id seq record vt a :
  sr_keeps admin_quiet (after_disallocate boot host id seq record vt a).
Proof.
  unfold after_disallocate. destruct (ah_disallocate_vt_once _ _) as [[]|e].
  - destruct (negb _).
    + apply keeps_bind; [apply _|apply with_ledger_admin|intros _; apply keeps_ret, _].
    + do 2 (apply keeps_bind; [apply _|apply with_ledger_admin|intros _]).
      intros s. pose proof (finalize_admin_success_quiet id a s) as Hf.
      by destruct (finalize_admin_success _ _ _ _ s) as [s' []].
  - destruct e; apply keeps_bind; try apply _; try apply with_ledger_admin;
      intros _; try apply keeps_ret, _.
    apply keeps_bind; [apply _|apply with_ledger_admin|intros _; apply keeps_ret, _].
Qed.

Lemma retry_vt_disallocate_quiet seat id seq ack :
  sr_keeps admin_quiet (retry_vt_disallocate boot host seat id seq ack).
Proof.
  intros s. unfold retry_vt_disallocate.
  destruct (lg_records (as_ledger s) !! id) as [record|]; [|by apply quiet_same].
  destruct (retry_refusal _ _ _ _ _ _ _); [by apply quiet_same|].
  destruct (ah_persisted_vt_identity host record) as [vt|]; [|by apply quiet_same].
  destruct (negb _).
  - apply keeps_bind; [apply _|apply with_ledger_admin|intros _; apply keeps_ret, _].
  - apply keeps_bind; [apply _|apply with_admission_admin, quarantine_admin_quiet|intros _].
    apply keeps_bind; [apply _|apply with_ledger_admin|intros _].
    apply keeps_bind; [apply _|intros s1; by apply quiet_same|intros _].
    apply after_disallocate_quiet.
Qed.
End AdminCalm.

Lemma loop_recovery_admin_calm `{SerdeJson PersistentRecoveryRecord} host request :
  sr_keeps calm (loop_recovery_admin host request).
Proof.
  intros s. unfold loop_recovery_admin, recovery_admin. cbn [sp_ledger].
  destruct (sl_ledger s) as [[l|]|]; [|by split..].
  destruct request as [seat id|seat id seq ack]; [by split|]. cbn [sp_admission sp_ioctls].
  pose proof (retry_vt_disallocate_quiet (sh_boot host) (sh_admin host) seat id seq ack
    (mkAdminState (sl_admission s) l (sl_ioctls s))) as Hq.
  destruct (retry_vt_disallocate _ _ _ _ _ _ _) as [st r]. by split.
Qed.

(** ** One running session at a time *)

(** The seat runs the session of the one supervised worker, or there is no
    worker and the seat runs none. *)
Definition seat_inv (s : SupervisorLoopState) : Prop :=
  admission_inv (aw_controller (sl_admission s)) ∧
  match sl_children s with
  | [] => is_active (aw_controller (sl_admission s)) = false
  | [worker] => matches_running (sw_admission worker) (aw_controller (sl_admission s)) = true
  | _ => False
  end.

Lemma is_active_matches c :
  is_active c = false ↔ ∀ r, matches_running r c = false.
Proof.
  split; [intros H r; by apply not_active_matches|]. intros H. unfold is_active.
  destruct (sc_lifecycle c) as [|i| |] eqn:Hl; try done.
  specialize (H (mkRunning (sc_seat c) i (sc_generation c))).
  unfold matches_running, active_is in H. rewrite Hl in H. cbn in H.
  by rewrite !str_eqb_refl, Z.eqb_refl in H.
Qed.

Lemma calm_seat_inv s s' : calm s s' → seat_inv s → seat_inv s'.
Proof.
  intros [Hq Hc] [Hi Hs]. destruct (Hq Hi) as [Hi' Hm]. split; [done|]. rewrite Hc.
  destruct (sl_children s) as [|worker [|]]; [|by rewrite Hm|done].
  apply is_active_matches. intros r. rewrite Hm. by apply is_active_matches.
Qed.

Section SeatInvariant.
Context `{SerdeJson PersistentRecoveryRecord} `{SerdeJson PreCommitRuntimeRecord}.
Context (host : SupervisorHost).

Lemma promote_running_spec receipt w w' r :
  admission_inv (aw_controller w) →
  promote_committed_to_running receipt w = (w', r) →
  admission_inv (aw_controller w') ∧ is_active (aw_controller w) = false ∧
  match r with
  | Ok running => matches_running running (aw_controller w') = true
  | Err _ => is_active (aw_controller w') = false
  end ∨ aw_controller w' = aw_controller w ∧ ∃ e, r = Err e.
Proof.
  intros Hi Hp. pose proof (start_effect receipt w Hi) as Heff. rewrite Hp in Heff.
  destruct Heff as (Hi' & _ & _). revert Hp. unfold promote_committed_to_running.
  destruct (negb _) eqn:Hm; [intros; right; simplify_eq; eauto|]. bool_facts.
  apply matches_committed_true in Hm as (Hph & Hseat & Hgen).
  pose proof (remove_precommit_controller (cr_precommit receipt) w) as Hc.
  rewrite sr_bind_eq.
  destruct (remove_precommit_runtime _ w) as [w1 [[]|e]]; cbn [fst] in Hc.
  - intros Hp. left. split; [done|]. split; [apply phase_inactive; [done|by rewrite Hph]|].
    cbn in Hp. unfold sr_ret in Hp. simplify_eq. unfold matches_running, active_is. cbn.
    rewrite Hc, Hseat, Hgen. by rewrite !str_eqb_refl, Z.eqb_refl.
  - intros Hp. right. cbn in Hp. simplify_eq. eauto.
Qed.

Lemma start_entry_seat_inv registration payload entry s :
  seat_inv s → seat_inv (start_entry host registration payload entry s).1.
Proof.
  intros Hinv. unfold start_entry. rewrite sr_bind_eq.
  pose proof (with_durable_calm PersistentRecoveryUnavailable
    (transition (sh_boot host) (rr_worker_id registration) "started") s) as Hc1.
  unfold persist_transition.
  destruct (with_durable _ _ s) as [s1 [[]|e]]; cbn [fst] in Hc1;
    apply (calm_seat_inv _ _ Hc1) in Hinv; [|done].
  rewrite !sr_bind_eq. cbn beta iota zeta.
  pose proof (on_admission_calm _ (commit_transaction_quiet
    (rr_admission_transaction registration) (admission_state s1)) s1) as Hc2.
  destruct (on_admission _ s1) as [s2 [receipt|e]]; cbn [fst] in Hc2;
    apply (calm_seat_inv _ _ Hc2) in Hinv; [|done].
  rewrite sr_bind_eq. unfold on_admission at 1, sr_zoom.
  destruct (promote_committed_to_running receipt (sl_admission s2)) as [w' r] eqn:Hp.
  destruct Hinv as [Hi Hs].
  apply promote_running_spec in Hp as [(Hi' & Ha & Hr)|[E [e ->]]]; [| |done].
  - assert (sl_children s2 = []) as Hnil.
    { destruct (sl_children s2) as [|worker [|]]; [done| |done].
      by rewrite not_active_matches in Hs. }
    destruct r as [running|e].
    + rewrite sr_bind_eq. cbn. destruct (sh_clone_channel host); cbn;
        (split; [done|]); rewrite Hnil; done.
    + split; [done|]. cbn. by rewrite Hnil.
  - split; cbn; [by rewrite E|]. by rewrite E.
Qed.

Lemma register_running_seat_inv registration s :
  seat_inv s → seat_inv (register_running host registration s).1.
Proof.
  intros Hinv. unfold register_running.
  destruct (pending_lease _) as [transaction' lease]. destruct (negb _); [done|].
  destruct (find_entry _ s) as [[i e]|].
  2: { destruct lease as [lease|]; [|done]. cbn [fst].
       eapply calm_seat_inv; [|done]. apply on_admission_calm, cancel_quiet. }
  destruct (swap_remove i (sl_pending s)) as [[entry rest]|]; [|done].
  assert (seat_inv (set_pending rest s)) as Hinv' by done.
  destruct (wr_state (pw_record entry)); try done.
  destruct (_ || _); [|by apply start_entry_seat_inv].
  destruct lease as [lease|]; [|done]. cbn [fst].
  assert (calm (set_pending rest s) (on_admission (enter_quarantine_from_pending lease
    RecoveryRecordValidation InvalidRecord) (set_pending rest s)).1) as Hc
    by apply on_admission_calm, quarantine_pending_quiet.
  apply (calm_seat_inv _ _ Hc) in Hinv'. unfold kill_shared_worker.
  by destruct (pw_child entry).
Qed.

Lemma accept_terminal_vt_result_seat_inv id pid nonce a res s :
  seat_inv s → seat_inv (accept_terminal_vt_result host id pid nonce a res s).1.
Proof.
  intros Hinv. unfold accept_terminal_vt_result. destruct (_ || _); [done|].
  unfold find_child. destruct (list_find _ _) as [[i worker]|] eqn:Hf; [|done].
  destruct (_ || _); [done|]. destruct (sl_ledger s) as [[l|]|]; [|done..].
  destruct (lg_records l !! id); [|done]. destruct (negb _); [done|].
  destruct (worker_vt_cleanup_result _ _ _ _ l) as [l' [[]|e]]; [|done].
  destruct Hinv as [Hi Hs]. split; [done|]. cbn.
  apply list_find_Some in Hf as (Hl & _).
  destruct (sl_children s) as [|w [|]]; [done| |done].
  destruct i; [|done]. cbn in *. by simplify_eq.
Qed.

(** What ends the running session of a worker. *)
Lemma ends_running_spec {A} op (m : AW A) receipt w :
  run_admission_op op w = outcome (m w) →
  match op with
  | OpRecover r _ _ | OpQuarantineRunning r _ _ | OpReleaseRunning r => r = receipt
  | _ => False
  end →
  admission_inv (aw_controller w) → matches_running receipt (aw_controller w) = true →
  admission_inv (aw_controller (m w).1) ∧ is_active (aw_controller (m w).1) = false.
Proof.
  intros Hop Hr Hi Hm.
  pose proof (run_admission_op_effect op w Hi) as (Hi' & _ & _).
  rewrite Hop in Hi'. cbn [outcome fst] in Hi'. split; [done|].
  change ((m w).1) with (outcome (m w)).1. rewrite <- Hop.
  destruct op; try done; subst; cbn [run_admission_op outcome fst];
    unfold enter_recovery, enter_quarantine_from_running,
      release_running_after_a3_finalization; by rewrite Hm.
Qed.

Lemma recover_exited_seat_inv worker status s :
  sl_children s = [] → admission_inv (aw_controller (sl_admission s)) →
  matches_running (sw_admission worker) (aw_controller (sl_admission s)) = true →
  seat_inv (recover_exited host worker status s).1.
Proof.
  intros Hch Hi Hm. unfold recover_exited.
  destruct (mark_worker_exited_unexpectedly _ _) as [record classification].
  rewrite sr_bind_eq. unfold ignore at 1, persist_transition.
  pose proof (with_durable_calm PersistentRecoveryUnavailable (transition (sh_boot host)
    (wr_lifecycle_id record) "worker_exited_unexpectedly") s) as [Hq Hc].
  destruct (with_durable _ _ s) as [s1 r1]; cbn [fst] in *.
  destruct (Hq Hi) as [Hi1 Hm1]. rewrite <- Hm1 in Hm. rewrite Hch in Hc.
  rewrite sr_bind_eq. unfold on_admission at 1, sr_zoom.
  pose proof (ends_running_spec (OpRecover (sw_admission worker) (phase_name record)
    classification) (enter_recovery (sw_admission worker) (phase_name record)
    classification) _ (sl_admission s1) eq_refl eq_refl Hi1 Hm) as [Hi2 Ha2].
  destruct (enter_recovery _ _ _ (sl_admission s1)) as [w2 [receipt|e]]; cbn [fst] in *.
  2: { split; [exact Hi2|]. cbn. rewrite Hc. exact Ha2. }
  assert (seat_inv (set_admission w2 s1)) as Hinv.
  { split; [exact Hi2|]. cbn. rewrite Hc. exact Ha2. }
  destruct (recover _ _ _) as [record' []]; cbn beta iota.
  - eapply calm_seat_inv; [|exact Hinv].
    apply ignore_calm, on_admission_calm, release_recovered_quiet.
  - eapply calm_seat_inv; [|exact Hinv].
    apply keeps_bind; [apply _| |intros _].
    { apply ignore_calm. destruct reason; first [apply with_durable_calm|apply keeps_ret, _]. }
    apply keeps_bind; [apply _|apply ignore_calm; auto using on_admission_calm with niralis|].
    intros _. apply modify_calm. by split.
Qed.

Lemma finish_worker_seat_inv worker status s :
  sl_children s = [] → admission_inv (aw_controller (sl_admission s)) →
  matches_running (sw_admission worker) (aw_controller (sl_admission s)) = true →
  seat_inv (finish_worker host worker status s).
Proof.
  intros Hch Hi Hm. unfold finish_worker. destruct (sw_terminal_vt_reported_busy worker).
  - unfold on_admission, sr_zoom.
    pose proof (ends_running_spec (OpQuarantineRunning (sw_admission worker) VtRecovery
      VtDisallocateBusy) (enter_quarantine_from_running (sw_admission worker) VtRecovery
      VtDisallocateBusy) _ (sl_admission s) eq_refl eq_refl Hi Hm) as [Hi2 Ha2].
    destruct (enter_quarantine_from_running _ _ _ (sl_admission s)) as [w2 r].
    split; [exact Hi2|]. cbn. rewrite Hch. exact Ha2.
  - destruct (exit_success status && _).
    2: { by apply recover_exited_seat_inv. }
    unfold resolve_clean_worker_record.
    pose proof (with_durable_calm WorkerIoFailed (resolve_and_remove (sh_boot host)
      (wr_lifecycle_id (sw_record worker))) s) as [Hq Hc].
    destruct (with_durable _ _ s) as [s1 r1]; cbn [fst] in *.
    destruct (Hq Hi) as [Hi1 Hm1]. rewrite <- Hm1 in Hm. rewrite Hch in Hc.
    destruct (is_ok r1); [|by apply recover_exited_seat_inv].
    unfold on_admission, sr_zoom.
    pose proof (ends_running_spec (OpReleaseRunning (sw_admission worker))
      (release_running_after_a3_finalization (sw_admission worker)) _ (sl_admission s1)
      eq_refl eq_refl Hi1 Hm) as [Hi2 Ha2].
    destruct (release_running_after_a3_finalization _ (sl_admission s1)) as [w2 r].
    split; [exact Hi2|]. cbn. rewrite Hc. exact Ha2.
Qed.

Lemma finish_exited_worker_seat_inv i status s :
  seat_inv s → seat_inv (finish_exited_worker host i status s).
Proof.
  intros Hinv. unfold finish_exited_worker.
  destruct (swap_remove i (sl_children s)) as [[worker rest]|] eqn:Hsw; [|done].
  destruct Hinv as [Hi Hs]. unfold swap_remove in Hsw.
  destruct (sl_children s) as [|w [|]]; [done| |done].
  destruct i; [|done]. cbn in Hsw. simplify_eq. by apply finish_worker_seat_inv.
Qed.

Lemma reap_from_seat_inv rounds i s : seat_inv s → seat_inv (reap_from host rounds i s).
Proof.
  revert i s. induction rounds as [|rounds IH]; intros i s Hinv; [done|]. cbn.
  destruct (sl_children s !! i) as [worker|]; [|done].
  destruct (sw_child worker) as [pid|]; [|by apply IH].
  destruct (ch_try_wait _ pid) as [[status|]|]; [|by apply IH..].
  by apply IH, finish_exited_worker_seat_inv.
Qed.

Lemma handle_message_seat_inv message s :
  seat_inv s → seat_inv (handle_message host message s).1.
Proof.
  intros Hinv. destruct message; cbn [handle_message answer fst];
    try (by apply register_running_seat_inv);
    try (by apply accept_terminal_vt_result_seat_inv);
    (eapply calm_seat_inv; [|exact Hinv]);
    auto using loop_reserve_seat_calm, begin_pending_calm, record_prepared_scope_calm,
      mark_payload_registered_calm, begin_release_calm, complete_release_calm,
      abort_pending_calm, accept_terminal_vt_intent_calm, terminate_running_calm,
      loop_recovery_admin_calm.
  1: { apply loop_reserve_seat_calm. }
  all: first [apply on_admission_calm, cancel_quiet | apply begin_pending_calm
    | apply record_prepared_scope_calm | apply mark_payload_registered_calm
    | apply begin_release_calm | apply complete_release_calm | apply abort_pending_calm
    | apply accept_terminal_vt_intent_calm | apply loop_recovery_admin_calm
    | apply terminate_running_calm].
Qed.
End SeatInvariant.

Lemma supervisor_new_seat_inv ledger store : seat_inv (supervisor_new ledger store).
Proof.
  split; [apply controller_new_inv|]. cbn. unfold initial_lifecycle.
  destruct ledger as [[l|]|]; [|done..]. by destruct (_ || _).
Qed.

Lemma run_loop_seat_inv `{SerdeJson PersistentRecoveryRecord}
    `{SerdeJson PreCommitRuntimeRecord} rounds s :
  seat_inv s → seat_inv (run_loop rounds s).
Proof.
  revert s. induction rounds as [|[host message] rounds IH]; intros s Hinv; [done|].
  apply IH. unfold run_round. apply reap_from_seat_inv.
  destruct message; [by apply handle_message_seat_inv|done].
Qed.

(** C1. From its construction on, whatever messages the loop receives and
    whatever the processes, the ledger, systemd, logind and the VT answer, the
    seat runs at most one session, and it runs one exactly while the loop
    supervises its worker: there is no worker and the seat is not active, or
    there is one worker and the seat is active for its lifecycle, in its
    generation. *)
Theorem seat_runs_the_supervised_worker `{SerdeJson PersistentRecoveryRecord}
    `{SerdeJson PreCommitRuntimeRecord} ledger store rounds :
  let s := run_loop rounds (supervisor_new ledger store) in
  let c := aw_controller (sl_admission s) in
  admission_inv c ∧
  (sl_children s = [] ∧ (∀ i, sc_lifecycle c ≠ SeatActive i) ∨
   ∃ worker, sl_children s = [worker] ∧ sc_phase c = PhaseFree ∧
     sc_lifecycle c = SeatActive (rn_lifecycle_id (sw_admission worker)) ∧
     sc_generation c = rn_generation (sw_admission worker)).
Proof.
  cbv zeta. pose proof (run_loop_seat_inv rounds _ (supervisor_new_seat_inv ledger store))
    as [Hi Hs]. split; [done|].
  destruct (sl_children _) as [|worker [|]]; [| |done].
  - left. split; [done|]. intros i Hl. unfold is_active in Hs. by rewrite Hl in Hs.
  - right. apply matches_running_true in Hs as (Hl & _ & Hg). exists worker.
    split_and!; [done| |done|done]. by eapply inv_phase_free.
Qed.
