(* ===== verification/SupervisorExits.v ===== *)
(** * Exits of supervised workers

    When the supervisor frees the seat after a worker's exit, what it leaves
    in the durable ledger, how many workers a reaping looks at, and when a
    session counts as started. *)

From stdpp Require Import base gmap sets list strings.
From Stdlib Require Import ZArith Lia.
From S2P Require Import Prelude Text DirFs RecoveryTypes LedgerTaxonomy Ledger.
From S2P Require Import LedgerDurability PreviousBoot PreCommit SameBoot.
From S2P Require Import Admission AdminRecovery Protocol Conversation Login.
From S2P Require Import Daemon WorkerRecord Supervisor SupervisorSafety.
#[local] Open Scope niralis_scope.

(** ** What was proven of a payload *)

(** The scope is empty, logind has forgotten the session and the unit is
    given back. *)
Definition payload_proven_empty (provider : RecoveryProvider)
    (payload : SupervisorPreparedPayload) (status : ExitStatus) : Prop :=
  (∃ proof, rp_verify_empty provider (pp_boundary payload) status = Ok proof) ∧
  rp_confirm_logind_absent provider (pp_logind payload) = Ok true ∧
  rp_release_live provider (pp_boundary payload) = Ok ().

(** The scope was killed and seen empty, the unit given back, the logind
    session removed and the VT recovered. *)
Definition payload_recovered (provider : RecoveryProvider)
    (payload : SupervisorPreparedPayload) (status : ExitStatus) : Prop :=
  (∃ proof, rp_recover_live_emergency provider (pp_boundary payload) status = Ok proof) ∧
  rp_release_live provider (pp_boundary payload) = Ok () ∧
  (∃ res, rp_cleanup_logind provider (pp_logind payload) = Ok res) ∧
  rp_recover_vt provider (pp_vt payload) = Ok ().

(** The ledger, if there is one, has no record of the lifecycle. *)
Definition record_gone (id : string) (s : SupervisorLoopState) : Prop :=
  match sl_ledger s with
  | None => True
  | Some (Healthy l) => lg_records l !! id = None
  | Some Poisoned => False
  end.

(** The record the ledger holds of a lifecycle. *)
Definition durable_record (id : string) (s : SupervisorLoopState)
    : option PersistentRecoveryRecord :=
  match sl_ledger s with Some (Healthy l) => lg_records l !! id | _ => None end.

Lemma finalize_payload_Ok provider payload status :
  is_ok (finalize_payload provider payload status) = true ↔
  payload_proven_empty provider payload status.
Proof.
  unfold finalize_payload, payload_proven_empty.
  destruct (rp_verify_empty _ _ _) as [proof|e]; [|naive_solver].
  destruct (rp_confirm_logind_absent _ _) as [[]|e]; [|naive_solver..].
  destruct (rp_release_live _ _) as [[]|e]; naive_solver.
Qed.

Lemma finalize_clean_Ok provider record status :
  is_ok (finalize_clean_worker_exit provider record status) = true →
  ∃ payload, state_payload (wr_state record) = Some payload ∧
    payload_proven_empty provider payload status.
Proof.
  unfold finalize_clean_worker_exit. destruct (negb _); [done|].
  destruct (wr_state record); try done. intros Hf%finalize_payload_Ok. eauto.
Qed.

Lemma finalize_prestarted_Ok provider record status :
  is_ok (finalize_expected_prestarted_exit provider record status) = true →
  ∃ payload, wr_state record = PayloadReleased payload ∧
    payload_proven_empty provider payload status.
Proof.
  unfold finalize_expected_prestarted_exit.
  destruct (wr_state record); try done. intros Hf%finalize_payload_Ok. eauto.
Qed.

Lemma recover_Recovered provider record status record' proof res pam :
  recover provider record status = (record', OutcomeRecovered proof res pam) →
  ∃ payload, state_payload (wr_state record) = Some payload ∧
    payload_recovered provider payload status.
Proof.
  unfold recover, recover_from_payload. cbn.
  destruct (state_payload (wr_state record)) as [payload|]; [|done]. cbn.
  unfold payload_recovered. intros H. exists payload. split; [done|].
  destruct (rp_recover_live_emergency _ _ _) as [p|e]; [|done].
  destruct (rp_cleanup_logind _ _) as [x|e]; [|done].
  destruct (rp_recover_vt _ _) as [[]|e]; [|done].
  destruct (rp_release_live _ _) as [[]|e]; [|done]. naive_solver.
Qed.

Lemma marked_payload record status :
  state_payload (wr_state (mark_worker_exited_unexpectedly status record).1) =
  state_payload (wr_state record).
Proof. by destruct record as [? ? ? ? ? ? []]. Qed.
Lemma marked_lifecycle record status :
  wr_lifecycle_id (mark_worker_exited_unexpectedly status record).1 =
  wr_lifecycle_id record.
Proof. done. Qed.

(** ** The durable ledger *)

Section Durable.
Context `{SerdeJson PersistentRecoveryRecord} `{SerdeJson PreCommitRuntimeRecord}.

Lemma with_durable_admission e m s :
  sl_admission (with_durable e m s).1 = sl_admission s.
Proof.
  unfold with_durable. destruct (sl_ledger s) as [[l|]|]; [|done..].
  by destruct (m l).
Qed.

Lemma with_durable_ledger e m s l :
  sl_ledger s = Some (Healthy l) →
  with_durable e m s =
    (set_ledger (Some (Healthy (m l).1)) s, map_err (λ _, e) (m l).2).
Proof. intros E. unfold with_durable. rewrite E. by destruct (m l). Qed.

Lemma transition_Ok boot id state l l' :
  transition boot id state l = (l', Ok ()) →
  ∃ next rec, lg_records l !! id = Some next ∧ successor next rec ∧ pr_state rec = state ∧
    lg_records l' = <[pr_lifecycle_id rec := rec]> (lg_records l) ∧ written l l' rec.
Proof.
  unfold transition. intros HC.
  apply record_for_operation_bind in HC as [(_ & _ & Hr)|(next & Hl & HC)]; [done|].
  unfold commit_transition, sr_bind, sr_lift in HC.
  destruct (record_transition boot state next) as [rec|e] eqn:HT; [|done].
  apply record_transition_successor in HT as [HS HT]. cbn in HC.
  apply commit_spec in HC as (_ & Hw & Hr). eauto 10.
Qed.

Lemma resolve_and_remove_Ok boot id l l' :
  resolve_and_remove boot id l = (l', Ok ()) → lg_records l' !! id = None.
Proof.
  unfold resolve_and_remove, resolve_state_and_remove. rewrite sr_bind_eq.
  destruct (transition _ _ _ l) as [l1 [[]|e]]; [|done]. intros HR.
  apply remove_resolved_removes in HR as (_ & [(_ & _ & Hr)|(rec & _ & _ & _ & Hd)]);
    [done|]. destruct Hd as [[Hr _]|[_ ->]]; [done|]. by rewrite lookup_delete_eq.
Qed.

Lemma resolve_gone boot e id s s' :
  with_durable e (resolve_and_remove boot id) s = (s', Ok ()) → record_gone id s'.
Proof.
  unfold with_durable, record_gone.
  destruct (sl_ledger s) as [[l|]|] eqn:E; [|done|intros; simplify_eq; by rewrite E].
  destruct (resolve_and_remove boot id l) as [l' [[]|]] eqn:HR; [|done].
  intros; simplify_eq. cbn. by eapply resolve_and_remove_Ok.
Qed.

(** A transition, whatever its verdict, removes no record. *)
Lemma transition_keeps boot id state l i :
  is_Some (lg_records l !! i) →
  is_Some (lg_records (transition boot id state l).1 !! i).
Proof.
  intros Hs. destruct (transition boot id state l) as [l' r] eqn:HT.
  apply transition_steps in HT as [[-> _]|(next & rec & _ & _ & HC)]; [done|].
  apply commit_spec in HC as [_ HC]. cbn. destruct r as [[]|e].
  - destruct HC as [_ ->]. destruct (decide (pr_lifecycle_id rec = i)) as [->|Hne].
    + rewrite lookup_insert_eq. eauto.
    + by rewrite lookup_insert_ne.
  - by destruct HC as [-> _].
Qed.
End Durable.

(** ** Exits of running workers *)

Lemma on_admission_eq {E A} (m : SR AdmissionWorld E A) s :
  on_admission m s = (set_admission (m (sl_admission s)).1 s, (m (sl_admission s)).2).
Proof. unfold on_admission, sr_zoom. by destruct (m (sl_admission s)). Qed.

Section Exits.
Context `{SerdeJson PersistentRecoveryRecord} `{SerdeJson PreCommitRuntimeRecord}.
Context (host : SupervisorHost).

(** What a worker's exit must show before its seat is free again. *)
Definition exit_settled (worker : SupervisedWorker) (status : ExitStatus)
    (s : SupervisorLoopState) : Prop :=
  ∃ payload, state_payload (wr_state (sw_record worker)) = Some payload ∧
    (exit_success status = true ∧
     payload_proven_empty (sh_provider host) payload status ∧
     record_gone (wr_lifecycle_id (sw_record worker)) s
     ∨ payload_recovered (sh_provider host) payload status).

Lemma enter_recovery_Ok r phase reason w :
  matches_running r (aw_controller w) = true →
  ∃ w' receipt, enter_recovery r phase reason w = (w', Ok receipt) ∧
    matches_recovering receipt (aw_controller w') = true.
Proof.
  intros Hm. unfold enter_recovery. rewrite Hm. cbn. unfold sr_ret. do 2 eexists.
  split; [done|]. apply matches_running_true in Hm as (_ & Hs & Hg).
  unfold matches_recovering, recovering_is. cbn.
  by rewrite Hs, Hg, !str_eqb_refl, Z.eqb_refl.
Qed.

(** The state after the crash was noted and the seat entered recovery. *)
Lemma recover_exited_start worker status s :
  matches_running (sw_admission worker) (aw_controller (sl_admission s)) = true →
  let record := (mark_worker_exited_unexpectedly status (sw_record worker)).1 in
  ∃ s1 receipt,
    s1 = set_admission (sl_admission s1)
           (persist_transition host (wr_lifecycle_id record) "worker_exited_unexpectedly" s).1 ∧
    matches_recovering receipt (aw_controller (sl_admission s1)) = true ∧
    (recover_exited host worker status s).1 =
    (let '(record, outcome) := recover (sh_provider host) record status in
     match outcome with
     | OutcomeRecovered _ _ _ => (on_admission (release_after_a3_finalization receipt) s1).1
     | OutcomeQuarantined stage reason =>
         let s2 := match reason with
           | VtDisallocateBusy =>
               (persist_transition host (wr_lifecycle_id (sw_record worker))
                  "vt_disallocate_failed_busy" s1).1
           | _ => s1
           end in
         push_quarantined (quarantine_record stage reason record)
           (on_admission (enter_quarantine_from_recovery receipt stage reason) s2).1
     end).
Proof.
  intros Hm. cbv zeta. unfold recover_exited.
  destruct (mark_worker_exited_unexpectedly _ _) as [record classification] eqn:Hmk.
  pose proof (marked_lifecycle (sw_record worker) status) as Hid. rewrite Hmk in Hid.
  cbn [fst] in *. rewrite sr_bind_eq. unfold ignore at 1.
  assert (sl_admission (persist_transition host (wr_lifecycle_id record)
    "worker_exited_unexpectedly" s).1 = sl_admission s) as Ha
    by apply with_durable_admission.
  destruct (persist_transition _ _ "worker_exited_unexpectedly" s) as [s0 r0].
  cbn [fst] in *. rewrite <- Ha in Hm.
  destruct (enter_recovery_Ok _ (phase_name record) classification _ Hm)
    as (w' & receipt & Her & Hr).
  rewrite sr_bind_eq, (on_admission_eq (enter_recovery _ _ _)), Her.
  exists (set_admission w' s0), receipt. split; [done|]. split; [done|].
  destruct (recover _ _ _) as [record' [proof res pam|stage reason]]; [done|].
  rewrite Hid. by destruct reason.
Qed.

Lemma not_free_quarantined receipt stage reason s r :
  matches_recovering receipt (aw_controller (sl_admission s)) = true →
  is_free (aw_controller (sl_admission (push_quarantined r
    (on_admission (enter_quarantine_from_recovery receipt stage reason) s).1))) = false.
Proof.
  intros Hm. unfold on_admission, sr_zoom, enter_quarantine_from_recovery.
  by rewrite Hm.
Qed.

Lemma recover_exited_frees worker status s :
  matches_running (sw_admission worker) (aw_controller (sl_admission s)) = true →
  is_free (aw_controller (sl_admission (recover_exited host worker status s).1)) = true →
  ∃ payload, state_payload (wr_state (sw_record worker)) = Some payload ∧
    payload_recovered (sh_provider host) payload status.
Proof.
  intros Hm. destruct (recover_exited_start worker status s Hm)
    as (s1 & receipt & _ & Hr & ->).
  destruct (recover _ _ _) as [record' [proof res pam|stage reason]] eqn:Hrec.
  - intros _. apply recover_Recovered in Hrec. by rewrite marked_payload in Hrec.
  - cbv zeta. rewrite not_free_quarantined; [done|].
    destruct reason; try done. unfold persist_transition.
    by rewrite with_durable_admission.
Qed.

Lemma finish_worker_frees worker status s :
  matches_running (sw_admission worker) (aw_controller (sl_admission s)) = true →
  is_free (aw_controller (sl_admission (finish_worker host worker status s))) = true →
  sw_terminal_vt_reported_busy worker = false ∧
  exit_settled worker status (finish_worker host worker status s).
Proof.
  intros Hm. unfold finish_worker. destruct (sw_terminal_vt_reported_busy worker).
  { unfold on_admission, sr_zoom, enter_quarantine_from_running. by rewrite Hm. }
  assert (∀ s, matches_running (sw_admission worker) (aw_controller (sl_admission s)) = true →
    is_free (aw_controller (sl_admission (recover_exited host worker status s).1)) = true →
    false = false ∧ exit_settled worker status (recover_exited host worker status s).1)
    as Hcrash.
  { intros s1 Hm1 Hf. destruct (recover_exited_frees worker status s1 Hm1 Hf)
      as (payload & Hp & Hr). split; [done|]. exists payload. auto. }
  destruct (exit_success status && _) eqn:Hc; [|by apply Hcrash].
  apply andb_true_iff in Hc as [Hs Hc].
  destruct (finalize_clean_Ok _ _ _ Hc) as (payload & Hp & He).
  unfold resolve_clean_worker_record.
  pose proof (with_durable_admission WorkerIoFailed (resolve_and_remove (sh_boot host)
    (wr_lifecycle_id (sw_record worker))) s) as Ha.
  destruct (with_durable _ _ s) as [s1 [[]|e]] eqn:Hw; cbn [is_ok fst] in *;
    rewrite <- Ha in Hm; [|by apply Hcrash].
  intros _. split; [done|]. exists payload. split; [done|]. left. split_and!; [done..|].
  apply resolve_gone in Hw. revert Hw. unfold on_admission, sr_zoom. by case_match.
Qed.

Lemma reap_from_none fuel i s : sl_children s !! i = None → reap_from host fuel i s = s.
Proof. intros Hl. destruct fuel; [done|]. cbn. by rewrite Hl. Qed.

(** With one worker, a reaping either leaves the state or finishes it. *)
Lemma reap_one worker s :
  sl_children s = [worker] →
  reap_exited_workers host s = s ∨
  ∃ pid status, sw_child worker = Healthy pid ∧
    ch_try_wait (sh_children host) pid = Some (Some status) ∧
    reap_exited_workers host s = finish_worker host worker status (set_children [] s).
Proof.
  intros Hc. unfold reap_exited_workers. rewrite Hc. cbn. rewrite Hc. cbn.
  destruct (sw_child worker) as [pid|]; [|by left].
  destruct (ch_try_wait _ pid) as [[status|]|] eqn:Hw; [|by left..].
  right. exists pid, status. split_and!; [done..|].
  unfold finish_exited_worker. rewrite Hc. done.
Qed.

(** From any state the loop can be in, a seat that a reaping frees is settled. *)
Lemma reaped_settled worker s :
  seat_inv s → sl_children s = [worker] →
  is_free (aw_controller (sl_admission (reap_exited_workers host s))) = true →
  ∃ pid status, sw_child worker = Healthy pid ∧
    ch_try_wait (sh_children host) pid = Some (Some status) ∧
    sw_terminal_vt_reported_busy worker = false ∧
    exit_settled worker status (reap_exited_workers host s).
Proof.
  intros [_ Hs] Hc Hf. rewrite Hc in Hs.
  destruct (reap_one worker _ Hc) as [E|(pid & status & Hp & Hw & E)].
  - rewrite E in Hf. apply matches_running_true in Hs as (Hl & _).
    unfold is_free in Hf. by rewrite Hl in Hf.
  - rewrite E in Hf |- *. exists pid, status. split; [done|]. split; [done|].
    by apply finish_worker_frees.
Qed.
End Exits.

(** C2. At any point of the loop's life a reaping frees the seat of the running
    session only if the worker has exited without reporting a busy VT, and
    either it exited with success, its scope was seen empty, logind had
    forgotten the session, the unit was given back and the durable record is
    gone; or the emergency recovery killed the scope, gave the unit back,
    removed the logind session and recovered the VT. *)
Theorem reaping_frees_only_settled `{SerdeJson PersistentRecoveryRecord}
    `{SerdeJson PreCommitRuntimeRecord} ledger store rounds host worker :
  let s := run_loop rounds (supervisor_new ledger store) in
  let s' := reap_exited_workers host s in
  sl_children s = [worker] →
  is_free (aw_controller (sl_admission s')) = true →
  ∃ pid status, sw_child worker = Healthy pid ∧
    ch_try_wait (sh_children host) pid = Some (Some status) ∧
    sw_terminal_vt_reported_busy worker = false ∧ exit_settled host worker status s'.
Proof.
  intros s s' Hc Hf. apply reaped_settled; [|done..].
  apply run_loop_seat_inv, supervisor_new_seat_inv.
Qed.

(** ** A recovered crash keeps its record *)

Section CrashRecord.
Context `{SerdeJson PersistentRecoveryRecord} `{SerdeJson PreCommitRuntimeRecord}.
Context (host : SupervisorHost).

Lemma persist_transition_keeps id state s i :
  is_Some (durable_record i s) →
  is_Some (durable_record i (persist_transition host id state s).1).
Proof.
  unfold durable_record, persist_transition. intros Hs.
  destruct (sl_ledger s) as [[l|]|] eqn:E; try by destruct Hs.
  rewrite (with_durable_ledger _ _ _ _ E). cbn. by apply transition_keeps.
Qed.

Lemma recover_exited_keeps worker status s i :
  matches_running (sw_admission worker) (aw_controller (sl_admission s)) = true →
  is_Some (durable_record i s) →
  is_Some (durable_record i (recover_exited host worker status s).1).
Proof.
  intros Hm Hs. destruct (recover_exited_start host worker status s Hm)
    as (s1 & receipt & E1 & _ & ->).
  assert (is_Some (durable_record i s1)) as Hs1.
  { rewrite E1. by apply (persist_transition_keeps _ "worker_exited_unexpectedly"). }
  destruct (recover _ _ _) as [record' [proof res pam|stage reason]].
  - by rewrite on_admission_eq.
  - cbv zeta. rewrite on_admission_eq. unfold durable_record in *. cbn.
    destruct reason; try done. by apply persist_transition_keeps.
Qed.
End CrashRecord.

(** A worker that did not exit cleanly leaves its durable record in the
    ledger even when the emergency recovery succeeds and the seat is free: the
    seat is admitted again while the record of the finished session stays
    behind, unlike after a clean exit or an aborted launch. *)
Theorem recovered_crash_keeps_record `{SerdeJson PersistentRecoveryRecord}
    `{SerdeJson PreCommitRuntimeRecord} ledger store rounds host worker pid status :
  let s := run_loop rounds (supervisor_new ledger store) in
  let id := wr_lifecycle_id (sw_record worker) in
  sl_children s = [worker] → sw_child worker = Healthy pid →
  ch_try_wait (sh_children host) pid = Some (Some status) →
  exit_success status = false → is_Some (durable_record id s) →
  is_Some (durable_record id (reap_exited_workers host s)).
Proof.
  cbv zeta. intros Hc Hp Hw Hx Hd.
  pose proof (run_loop_seat_inv rounds _ (supervisor_new_seat_inv ledger store))
    as [_ Hs]. rewrite Hc in Hs.
  destruct (reap_one host worker _ Hc) as [->|(pid' & status' & Hp' & Hw' & ->)]; [done|].
  assert (status' = status) as -> by congruence. unfold finish_worker. rewrite Hx. cbn [andb].
  destruct (sw_terminal_vt_reported_busy worker); [by rewrite on_admission_eq|].
  by apply recover_exited_keeps.
Qed.

(** ** Reaping *)

Section Reap.
Context `{SerdeJson PersistentRecoveryRecord} `{SerdeJson PreCommitRuntimeRecord}.
Context (host : SupervisorHost).

(** The worker is not known to have exited. *)
Definition not_exited (worker : SupervisedWorker) : bool :=
  match sw_child worker with
  | Poisoned => true
  | Healthy pid => match ch_try_wait (sh_children host) pid with
                   | Some (Some _) => false
                   | _ => true
                   end
  end.

Lemma swap_remove_spec {A} i (l : list A) x :
  l !! i = Some x →
  ∃ rest, swap_remove i l = Some (x, rest) ∧ take i rest = take i l ∧
    drop i rest ≡ₚ drop (S i) l ∧ length l = S (length rest).
Proof.
  intros Hi. unfold swap_remove. rewrite Hi.
  assert (∃ l1 l2, l = l1 ++ x :: l2 ∧ length l1 = i) as (l1 & l2 & -> & <-).
  { exists (take i l), (drop (S i) l). split; [by rewrite take_drop_middle|].
    rewrite length_take. apply lookup_lt_Some in Hi. lia. }
  destruct l2 as [|y l2 _] using rev_ind.
  - rewrite last_snoc, decide_True by (rewrite length_app; cbn; lia).
    rewrite removelast_last. eexists. split; [done|].
    rewrite take_app_length, firstn_all, !drop_ge by (rewrite ?length_app; cbn; lia).
    split_and!; [done..|]. rewrite length_app. cbn. lia.
  - rewrite app_comm_cons, app_assoc, last_snoc, removelast_last, decide_False
      by (repeat (rewrite length_app; cbn); lia).
    rewrite insert_app_r_alt, Nat.sub_diag by lia. cbn. eexists. split; [done|].
    split; [by rewrite <- app_assoc, !take_app_length|].
    rewrite drop_app_length. split.
    + replace ((l1 ++ x :: l2) ++ [y]) with ((l1 ++ [x]) ++ l2 ++ [y])
        by by rewrite <- !app_assoc.
      replace (S (length l1)) with (length (l1 ++ [x])) by (rewrite length_app; cbn; lia).
      by rewrite drop_app_length, Permutation_app_comm.
    + repeat (rewrite length_app; cbn). lia.
Qed.

Lemma with_durable_children e m s : sl_children (with_durable e m s).1 = sl_children s.
Proof. apply with_durable_calm. Qed.

Lemma recover_exited_children worker status s :
  sl_children (recover_exited host worker status s).1 = sl_children s.
Proof.
  unfold recover_exited.
  destruct (mark_worker_exited_unexpectedly _ _) as [record classification].
  rewrite sr_bind_eq. unfold ignore at 1. unfold persist_transition at 1.
  rewrite sr_bind_eq, on_admission_eq.
  destruct (enter_recovery _ _ _ _) as [w [receipt|e]]; cbn [fst snd];
    [|apply with_durable_children].
  destruct (recover _ _ _) as [record' [proof res pam|stage reason]].
  - unfold ignore. rewrite on_admission_eq. apply with_durable_children.
  - unfold sr_bind, ignore. rewrite on_admission_eq. cbn.
    destruct reason; cbn; rewrite ?with_durable_children; apply with_durable_children.
Qed.

Lemma finish_worker_children worker status s :
  sl_children (finish_worker host worker status s) = sl_children s.
Proof.
  unfold finish_worker. destruct (sw_terminal_vt_reported_busy worker);
    [by rewrite on_admission_eq|].
  destruct (exit_success status && _); [|apply recover_exited_children].
  unfold resolve_clean_worker_record.
  pose proof (with_durable_children WorkerIoFailed (resolve_and_remove (sh_boot host)
    (wr_lifecycle_id (sw_record worker))) s) as Hc.
  destruct (with_durable _ _ s) as [s1 r1]. cbn [fst] in Hc.
  destruct (is_ok r1); [by rewrite on_admission_eq|].
  by rewrite recover_exited_children.
Qed.

Lemma reap_from_children fuel i s :
  (length (sl_children s) ≤ i + fuel)%nat →
  sl_children (reap_from host fuel i s) ≡ₚ
  take i (sl_children s) ++ filter (λ w, not_exited w = true) (drop i (sl_children s)).
Proof.
  revert i s. induction fuel as [|fuel IH]; intros i s Hf.
  { cbn. rewrite take_ge, drop_ge by lia. by rewrite app_nil_r. }
  cbn. destruct (sl_children s !! i) as [worker|] eqn:Hi.
  2: { apply lookup_ge_None in Hi. rewrite take_ge, drop_ge by lia.
       by rewrite app_nil_r. }
  assert (not_exited worker = true → sl_children (reap_from host fuel (S i) s) ≡ₚ
    take i (sl_children s) ++
    filter (λ w, not_exited w = true) (drop i (sl_children s))) as Hnext.
  { intros Hn. rewrite (drop_S _ _ _ Hi), filter_cons_True by done.
    rewrite IH by lia. by rewrite (take_S_r _ _ _ Hi), <- app_assoc. }
  destruct (sw_child worker) as [pid|] eqn:Hp.
  2: { apply Hnext. unfold not_exited. by rewrite Hp. }
  destruct (ch_try_wait _ pid) as [[status|]|] eqn:Hw;
    [|apply Hnext; unfold not_exited; by rewrite Hp, Hw..].
  destruct (swap_remove_spec _ _ _ Hi) as (rest & Hsw & Ht & Hd & Hl).
  assert (sl_children (finish_exited_worker host i status s) = rest) as Hc.
  { unfold finish_exited_worker. rewrite Hsw. by rewrite finish_worker_children. }
  rewrite IH by (rewrite Hc; lia). rewrite Hc, Ht, Hd, (drop_S _ _ _ Hi).
  rewrite filter_cons_False; [done|]. unfold not_exited. by rewrite Hp, Hw.
Qed.

Lemma reap_from_more fuel i s k :
  (length (sl_children s) ≤ i + fuel)%nat →
  reap_from host (fuel + k) i s = reap_from host fuel i s.
Proof.
  revert i s. induction fuel as [|fuel IH]; intros i s Hf.
  { change (reap_from host k i s = s). apply reap_from_none, lookup_ge_None. lia. }
  cbn. destruct (sl_children s !! i) as [worker|] eqn:Hi; [|done].
  destruct (sw_child worker) as [pid|]; [|apply IH; lia].
  destruct (ch_try_wait _ pid) as [[status|]|]; [|apply IH; lia..].
  destruct (swap_remove_spec _ _ _ Hi) as (rest & Hsw & _ & _ & Hl).
  apply IH. unfold finish_exited_worker. rewrite Hsw, finish_worker_children. cbn. lia.
Qed.
End Reap.

(** The reaping loop ends: one round per supervised worker is enough, since
    more rounds change nothing, and it has then looked at every worker, also at
    those [swap_remove] moved: exactly the workers not known to have exited are
    still supervised. *)
Theorem reaping_terminates `{SerdeJson PersistentRecoveryRecord}
    `{SerdeJson PreCommitRuntimeRecord} host s :
  (∀ more, reap_from host (length (sl_children s) + more) 0 s =
           reap_exited_workers host s) ∧
  sl_children (reap_exited_workers host s) ≡ₚ
    filter (λ worker, not_exited host worker = true) (sl_children s).
Proof.
  split; [intros more; by apply reap_from_more|].
  unfold reap_exited_workers. rewrite reap_from_children by lia. done.
Qed.
