(* ===== verification/SupervisorLedger.v ===== *)
(** * What the supervisor writes, the loader reads

    Every record the supervisor loop writes while a session lives is one the
    loader of the next daemon accepts: the loop keeps the ledger's records
    valid, filed under their id and historically consistent. *)

From stdpp Require Import base gmap sets list strings.
From Stdlib Require Import ZArith Lia.
From S2P Require Import Prelude Text DirFs RecoveryTypes LedgerTaxonomy Ledger.
From S2P Require Import LedgerDurability PreviousBoot PreCommit SameBoot.
From S2P Require Import Admission AdminRecovery Protocol Conversation Login.
From S2P Require Import Daemon WorkerRecord Supervisor SupervisorSafety.
From S2P Require Import SupervisorExits.
#[local] Open Scope niralis_scope.

(** ** Live records *)

(** The record of a session that has not been recovered: of the durable
    operations only the worker's own VT disallocation may have begun. *)
Definition live_record (r : PersistentRecoveryRecord) : Prop :=
  pr_vt_recovery_attempts r = [] ∧ 0 < pr_sequence r ∧
  ∃ o, pr_operation_ledger r = with_vt_disallocate o DurableOperationLedger_default ∧
    op_attempt o ≠ Some 0.

Definition record_ok (r : PersistentRecoveryRecord) : Prop :=
  validate_record r = Ok () ∧ live_record r.
Definition records_ok (l : PersistentRecoveryLedger) : Prop :=
  ∀ id r, lg_records l !! id = Some r → pr_lifecycle_id r = id ∧ record_ok r.
Definition loop_records_ok (s : SupervisorLoopState) : Prop :=
  match sl_ledger s with Some (Healthy l) => records_ok l | _ => True end.

Lemma validate_record_boots r :
  validate_record r = Ok () →
  is_ok (BootIdentity_parse (pr_created_boot_id r)) = true ∧
  is_ok (BootIdentity_parse (pr_last_updated_boot_id r)) = true.
Proof.
  unfold validate_record. destruct (_ || _); [done|].
  destruct (BootIdentity_parse (pr_created_boot_id r)); [|done].
  by destruct (BootIdentity_parse (pr_last_updated_boot_id r)).
Qed.

Lemma record_ok_historical r : record_ok r → validate_historical_record r = [].
Proof.
  intros [Hv (Hva & Hs & o & Ho & Ha)]. apply validate_record_boots in Hv as [Hb1 Hb2].
  assert (ledger_attempts (with_vt_disallocate o DurableOperationLedger_default) =
    match op_attempt o with Some a => [a] | None => [] end) as Hat.
  { unfold ledger_attempts. cbn. by destruct (op_attempt o). }
  apply validate_historical_record_complete. split; try done; try lia; rewrite ?Ho, ?Hva, ?Hat;
    try done.
  - destruct (op_attempt o) as [a|]; [|apply not_elem_of_nil].
    rewrite list_elem_of_singleton. congruence.
  - destruct (op_attempt o); repeat constructor.
  - by left.
  - intros a []%not_elem_of_nil.
  - constructor.
  - intros a []%not_elem_of_nil.
Qed.

(** ** The ledger operations of the loop *)

Section LedgerOps.
Context `{SerdeJson PersistentRecoveryRecord}.
Context (boot : result string IoError).

Lemma commit_records_ok rec l :
  live_record rec → records_ok l → records_ok (commit rec l).1.
Proof.
  intros Hrec Hl. destruct (commit rec l) as [l' r] eqn:HC.
  apply commit_spec in HC as [_ HC]. cbn. destruct r as [[]|e].
  - destruct HC as [[Hv _] HR]. intros id r. rewrite HR.
    intros [[<- <-]|[_ Hi]]%lookup_insert_Some; [by split_and!|by apply Hl].
  - destruct HC as [HR _]. intros id r. rewrite HR. apply Hl.
Qed.

Lemma create_records_ok rec l :
  live_record rec → records_ok l → records_ok (create rec l).1.
Proof.
  intros Hrec Hl. unfold create. destruct (lg_records l !! _); [done|].
  by apply commit_records_ok.
Qed.

Lemma commit_transition_records_ok next state l :
  live_record next → records_ok l → records_ok (commit_transition boot next state l).1.
Proof.
  intros (Hva & Hs & Ho) Hl. unfold commit_transition, sr_bind, sr_lift.
  destruct (record_transition boot state next) as [rec|e] eqn:HT; [|done]. cbn.
  apply commit_records_ok; [|done]. pose proof HT as HT'.
  apply record_transition_successor in HT' as [(_ & Hn & _) _].
  split; [|split; [lia|]]; unfold record_transition in HT; by split_cases HT.
Qed.

(** The operations on one record of the ledger. *)
Lemma on_record_records_ok id (f : PersistentRecoveryRecord → LG ()) l :
  (∀ next, live_record next → records_ok (f next l).1) → records_ok l →
  records_ok (sr_bind (record_for_operation id) f l).1.
Proof.
  intros Hf Hl. destruct (sr_bind _ f l) as [l' r] eqn:HC.
  apply record_for_operation_bind in HC as [(_ & -> & _)|(next & Hn & HC)]; [done|].
  specialize (Hf next). rewrite HC in Hf. apply Hf. by apply (Hl id).
Qed.

Lemma transition_records_ok id state l :
  records_ok l → records_ok (transition boot id state l).1.
Proof.
  intros Hl. apply on_record_records_ok; [|done]. intros next Hn.
  by apply commit_transition_records_ok.
Qed.

Lemma set_vt_live o next :
  op_attempt o ≠ Some 0 → live_record next →
  live_record (set_operation_ledger (with_vt_disallocate o (pr_operation_ledger next)) next).
Proof.
  intros Ho (Hva & Hs & o' & Ho' & _). split; [done|]. split; [done|]. exists o.
  split; [|done]. cbn. by rewrite Ho'.
Qed.

Lemma vt_intent_records_ok id a l :
  a ≠ 0 → records_ok l → records_ok (worker_vt_cleanup_intent boot id a l).1.
Proof.
  intros Ha Hl. apply on_record_records_ok; [|done]. intros next Hn.
  apply commit_transition_records_ok; [|done].
  apply (set_vt_live _ (set_pam_status "closed_by_worker_confirmed" next)); [|done].
  cbn. congruence.
Qed.

Lemma vt_result_records_ok id a res l :
  a ≠ 0 → records_ok l → records_ok (worker_vt_cleanup_result boot id a res l).1.
Proof.
  intros Ha Hl. apply on_record_records_ok; [|done]. intros next Hn.
  destruct res; (apply commit_transition_records_ok; [|done]);
    (apply set_vt_live; [cbn; congruence|done]).
Qed.

Lemma resolve_records_ok id l :
  records_ok l → records_ok (resolve_and_remove boot id l).1.
Proof.
  intros Hl. unfold resolve_and_remove, resolve_state_and_remove.
  pose proof (transition_records_ok id "record_resolved" l Hl) as Ht. rewrite sr_bind_eq.
  destruct (transition _ _ _ l) as [l1 [[]|e]]; [|done]. cbn [fst] in Ht.
  destruct (remove_resolved id l1) as [l2 r] eqn:HR.
  apply remove_resolved_removes in HR as (_ & [(HR & _)|(rec & _ & _ & _ & Hd)]); cbn;
    intros i x.
  - rewrite HR. apply Ht.
  - destruct Hd as [[_ HR]|[_ HR]]; rewrite HR; [apply Ht|].
    intros [_ Hi]%lookup_delete_Some. by apply Ht.
Qed.
End LedgerOps.

Lemma prepared_live host id pid launcher user session previous payload :
  live_record (prepared host id pid launcher user session previous payload).
Proof. split; [reflexivity|]. split; [cbn; lia|]. by exists NotStarted. Qed.

(** ** The loop *)

Definition keeps_records (s s' : SupervisorLoopState) : Prop :=
  loop_records_ok s → loop_records_ok s'.
#[export] Instance keeps_records_preorder : PreOrder keeps_records.
Proof. split; [intros s Hs; exact Hs|]. intros x y z. unfold keeps_records. auto. Qed.

Lemma same_ledger s s' : sl_ledger s' = sl_ledger s → keeps_records s s'.
Proof. intros E. unfold keeps_records, loop_records_ok. by rewrite E. Qed.

Section Loop.
Context `{SerdeJson PersistentRecoveryRecord} `{SerdeJson PreCommitRuntimeRecord}.
Context (host : SupervisorHost).

Lemma on_admission_keeps {E A} (m : SR AdmissionWorld E A) :
  sr_keeps keeps_records (on_admission m).
Proof. intros s. rewrite on_admission_eq. by apply same_ledger. Qed.
Lemma modify_keeps {E} f :
  (∀ s, sl_ledger (f s) = sl_ledger s) → sr_keeps keeps_records (sr_modify (E := E) f).
Proof. intros Hf s. apply same_ledger, Hf. Qed.
Lemma ignore_keeps {E F A} (m : SR SupervisorLoopState E A) :
  sr_keeps keeps_records m → sr_keeps keeps_records (ignore (F := F) m).
Proof. intros Hm s. apply Hm. Qed.
Lemma with_durable_keeps e m :
  (∀ l, records_ok l → records_ok (m l).1) → sr_keeps keeps_records (with_durable e m).
Proof.
  intros Hm s. unfold keeps_records, loop_records_ok, with_durable.
  destruct (sl_ledger s) as [[l|]|] eqn:E; [|cbn; by rewrite ?E..].
  specialize (Hm l). destruct (m l). cbn in *. done.
Qed.
Lemma persist_transition_keeps_records id state :
  sr_keeps keeps_records (persist_transition host id state).
Proof. apply with_durable_keeps. intros l. apply transition_records_ok. Qed.
Lemma persist_resolve_keeps id : sr_keeps keeps_records (persist_resolve host id).
Proof. apply with_durable_keeps. intros l. apply resolve_records_ok. Qed.
Lemma persist_busy_keeps id reason :
  sr_keeps keeps_records (ignore (F := SessionError) (match reason with
    | VtDisallocateBusy => persist_transition host id "vt_disallocate_failed_busy"
    | _ => sr_ret ()
    end)).
Proof.
  apply ignore_keeps. destruct reason; first [apply persist_transition_keeps_records
    |intros s; by apply same_ledger].
Qed.
End Loop.
#[export] Hint Resolve on_admission_keeps persist_transition_keeps_records
  persist_resolve_keeps persist_busy_keeps ignore_keeps : niralis.
#[export] Hint Extern 1 (sr_keeps keeps_records (sr_modify _)) =>
  (apply modify_keeps; intros; reflexivity) : niralis.
#[export] Hint Extern 1 (sr_keeps keeps_records (sr_ret _)) =>
  (intros ?; by apply same_ledger) : niralis.
#[export] Hint Extern 1 (sr_keeps keeps_records (sr_fail _)) =>
  (intros ?; by apply same_ledger) : niralis.
Ltac keep_records :=
  repeat (apply keeps_bind; [apply _|by auto with niralis|intros ?]); auto with niralis.

Section Handlers.
Context `{SerdeJson PersistentRecoveryRecord} `{SerdeJson PreCommitRuntimeRecord}.
Context (host : SupervisorHost).

Lemma begin_pending_keeps lease pid launcher session child :
  sr_keeps keeps_records (begin_pending host lease pid launcher session child).
Proof.
  intros s. unfold begin_pending. destruct (_ || _ || _).
  { rewrite on_admission_eq. by apply same_ledger. }
  rewrite on_admission_eq. destruct (promote _ _ _) as [w [[pl vt]|[e l]]]; cbn;
    rewrite ?on_admission_eq; by apply same_ledger.
Qed.

Lemma record_prepared_scope_keeps id pid spid identity nonce :
  sr_keeps keeps_records (record_prepared_scope host id pid spid identity nonce).
Proof.
  intros s. unfold record_prepared_scope.
  destruct (find_entry _ s) as [[i entry]|]; [|by apply same_ledger].
  destruct (_ || _); [by apply same_ledger|].
  destruct (wr_state _); try by apply same_ledger.
  destruct (rp_prepare_payload _ _ _ _ _ _) as [payload|].
  - assert (keeps_records s (persist_new_record_to (prepared (sh_prepare host)
      (wr_lifecycle_id (pw_record entry)) pid (wr_launcher_pid (pw_record entry))
      (wr_requested_username (pw_record entry)) (wr_session_name (pw_record entry))
      previous_vt payload) s).1) as Hk.
    { apply with_durable_keeps. intros l. apply create_records_ok, prepared_live. }
    destruct (persist_new_record_to _ s) as [s1 [[]|e]]; cbn [fst] in *;
      (etransitivity; [exact Hk|]; by apply same_ledger).
  - rewrite on_admission_eq. by apply same_ledger.
Qed.

Lemma mark_payload_registered_keeps id pid :
  sr_keeps keeps_records (mark_payload_registered host id pid).
Proof.
  intros s. unfold mark_payload_registered.
  destruct (find_entry _ s) as [[i entry]|]; [|by apply same_ledger].
  destruct (wr_state _); try by apply same_ledger.
  etransitivity; [|apply persist_transition_keeps_records]. by apply same_ledger.
Qed.
Lemma begin_release_keeps request : sr_keeps keeps_records (begin_release request).
Proof.
  intros s. unfold begin_release.
  destruct (find_entry _ s) as [[i entry]|]; [|by apply same_ledger].
  destruct (_ && _); by apply same_ledger.
Qed.
Lemma complete_release_keeps token v : sr_keeps keeps_records (complete_release host token v).
Proof.
  intros s. unfold complete_release.
  destruct (find_entry _ s) as [[i entry]|]; [|by apply same_ledger].
  destruct v; [|by apply same_ledger]. destruct (wr_state _); try (by apply same_ledger).
  all: etransitivity; [|apply persist_transition_keeps_records]; by apply same_ledger.
Qed.

Lemma recover_payload_entry_keeps entry status receipt :
  sr_keeps keeps_records (recover_payload_entry host entry status receipt).
Proof.
  unfold recover_payload_entry. destruct (recover _ _ _) as [record []]; keep_records.
Qed.
Lemma recover_pre_payload_entry_keeps entry receipt :
  sr_keeps keeps_records (recover_pre_payload_entry host entry receipt).
Proof.
  unfold recover_pre_payload_entry, quarantine_pre_payload.
  destruct (wr_state _); [destruct (rp_recover_pre_payload _ _ _ _ _)|..]; keep_records.
Qed.
Lemma reap_pending_worker_keeps child :
  sr_keeps keeps_records (reap_pending_worker host child).
Proof.
  intros s. apply same_ledger. unfold reap_pending_worker. destruct child; [|done].
  destruct (ch_try_wait _ _) as [[|]|]; [done| |done]. by destruct (ch_kill _ _).
Qed.
Lemma abort_pending_keeps lease clean status :
  sr_keeps keeps_records (abort_pending host lease clean status).
Proof.
  intros s. unfold abort_pending. destruct (negb _); [by apply same_ledger|].
  destruct (find_entry _ s) as [[i e]|]; [|apply on_admission_keeps].
  destruct (swap_remove i _) as [[entry rest]|]; [|by apply same_ledger].
  transitivity (set_pending rest s); [by apply same_ledger|].
  revert entry. intros entry. unfold abort_entry.
  apply keeps_bind; [apply _| |intros st].
  { destruct status; [intros s0; by apply same_ledger|apply reap_pending_worker_keeps]. }
  destruct (clean && _); [keep_records|]. destruct (negb _).
  - destruct (mark_worker_exited_unexpectedly _ _) as [record classification].
    apply keeps_bind; [apply _|auto with niralis|intros receipt].
    apply recover_payload_entry_keeps.
  - apply keeps_bind; [apply _|auto with niralis|intros receipt].
    apply recover_pre_payload_entry_keeps.
Qed.

Lemma register_running_keeps registration :
  sr_keeps keeps_records (register_running host registration).
Proof.
  intros s. unfold register_running. destruct (pending_lease _) as [t' lease].
  destruct (negb _); [by apply same_ledger|].
  destruct (find_entry _ s) as [[i e]|].
  2: { destruct lease; [rewrite on_admission_eq|]; by apply same_ledger. }
  destruct (swap_remove i _) as [[entry rest]|]; [|by apply same_ledger].
  transitivity (set_pending rest s); [by apply same_ledger|].
  destruct (wr_state _); try by apply same_ledger. destruct (_ || _).
  - destruct lease; [|by apply same_ledger]. rewrite on_admission_eq.
    unfold kill_shared_worker. destruct (pw_child entry); by apply same_ledger.
  - unfold start_entry.
    apply keeps_bind; [apply _|auto with niralis|intros _].
    apply keeps_bind; [apply _|intros s'; by apply same_ledger|intros recovery].
    do 2 (apply keeps_bind; [apply _|auto with niralis|intros ?]).
    apply keeps_bind; [apply _|by apply modify_keeps|intros _].
    intros s'. destruct (sh_clone_channel host); by apply same_ledger.
Qed.

Lemma recover_exited_keeps_records worker status :
  sr_keeps keeps_records (recover_exited host worker status).
Proof.
  unfold recover_exited.
  destruct (mark_worker_exited_unexpectedly _ _) as [record classification].
  apply keeps_bind; [apply _|auto with niralis|intros _].
  apply keeps_bind; [apply _|auto with niralis|intros receipt].
  destruct (recover _ _ _) as [record' []]; keep_records.
Qed.
Lemma finish_worker_keeps worker status s :
  keeps_records s (finish_worker host worker status s).
Proof.
  unfold finish_worker. destruct (sw_terminal_vt_reported_busy worker).
  { rewrite on_admission_eq. by apply same_ledger. }
  destruct (exit_success status && _); [|apply recover_exited_keeps_records].
  assert (keeps_records s (resolve_clean_worker_record host
    (wr_lifecycle_id (sw_record worker)) s).1) as Hk.
  { apply with_durable_keeps. intros l. apply resolve_records_ok. }
  destruct (resolve_clean_worker_record _ _ s) as [s1 r1]. cbn [fst] in Hk.
  etransitivity; [exact Hk|]. destruct (is_ok r1); [apply on_admission_keeps|].
  apply recover_exited_keeps_records.
Qed.
Lemma reap_from_keeps rounds i s : keeps_records s (reap_from host rounds i s).
Proof.
  revert i s. induction rounds as [|rounds IH]; intros i s; [by apply same_ledger|]. cbn.
  destruct (sl_children s !! i) as [worker|]; [|by apply same_ledger].
  destruct (sw_child worker) as [pid|]; [|apply IH].
  destruct (ch_try_wait _ pid) as [[status|]|]; [|apply IH..].
  etransitivity; [|apply IH]. unfold finish_exited_worker.
  destruct (swap_remove i _) as [[w rest]|]; [|by apply same_ledger].
  etransitivity; [|apply finish_worker_keeps]. by apply same_ledger.
Qed.

Lemma accept_terminal_vt_intent_keeps id pid nonce identity :
  sr_keeps keeps_records (accept_terminal_vt_intent host id pid nonce identity).
Proof.
  intros s. unfold accept_terminal_vt_intent.
  destruct (find_child id s) as [[i worker]|]; [|by apply same_ledger].
  destruct (_ || _); [by apply same_ledger|].
  destruct (sl_ledger s) as [[l|]|] eqn:E; [|by apply same_ledger..].
  destruct (lg_records l !! id) as [rec|] eqn:Hl; [|by apply same_ledger].
  destruct (_ || _); [by apply same_ledger|].
  destruct (u64_checked_add _ _) as [a|] eqn:Ha; [|by apply same_ledger].
  apply u64_checked_add_Some in Ha as [-> _]. unfold keeps_records, loop_records_ok.
  rewrite E. intros Hok. destruct (Hok _ _ Hl) as (_ & _ & _ & Hs & _).
  pose proof (vt_intent_records_ok (sh_boot host) id (pr_sequence rec + 1) l) as Hk.
  destruct (worker_vt_cleanup_intent _ _ _ l). cbn in *. apply Hk; [lia|done].
Qed.

Lemma accept_terminal_vt_result_keeps id pid nonce a res :
  sr_keeps keeps_records (accept_terminal_vt_result host id pid nonce a res).
Proof.
  intros s. unfold accept_terminal_vt_result. destruct (_ || _); [by apply same_ledger|].
  destruct (find_child id s) as [[i worker]|]; [|by apply same_ledger].
  destruct (_ || _); [by apply same_ledger|].
  destruct (sl_ledger s) as [[l|]|] eqn:E; [|by apply same_ledger..].
  destruct (lg_records l !! id) as [rec|] eqn:Hl; [|by apply same_ledger].
  destruct (negb _) eqn:Hi; [by apply same_ledger|]. bool_facts.
  unfold keeps_records, loop_records_ok. rewrite E. intros Hok.
  destruct (Hok _ _ Hl) as (_ & _ & _ & _ & o & Ho & Ha). rewrite Ho in Hi. cbn in Hi.
  pose proof (vt_result_records_ok (sh_boot host) id a res l) as Hk.
  assert (a ≠ 0) as Ha0.
  { intros ->. destruct o; try done. cbn in *. apply Z.eqb_eq in Hi. congruence. }
  specialize (Hk Ha0 Hok). by destruct (worker_vt_cleanup_result _ _ _ _ l) as [l' [[]|e]].
Qed.

Definition is_admin (m : WorkerSupervisorMessage) : bool :=
  match m with MsgRecoveryAdmin _ => true | _ => false end.

Lemma handle_message_keeps message s :
  is_admin message = false → keeps_records s (handle_message host message s).1.
Proof.
  destruct message; intros Ha; try done; cbn [handle_message answer fst].
  - apply on_admission_keeps.
  - apply on_admission_keeps.
  - apply begin_pending_keeps.
  - apply record_prepared_scope_keeps.
  - apply mark_payload_registered_keeps.
  - apply begin_release_keeps.
  - apply complete_release_keeps.
  - apply abort_pending_keeps.
  - apply register_running_keeps.
  - apply accept_terminal_vt_intent_keeps.
  - apply accept_terminal_vt_result_keeps.
  - unfold terminate_running. destruct (list_find _ _) as [[]|]; by apply same_ledger.
Qed.
End Handlers.

(** C35. A supervisor loop that starts with a ledger of good records keeps it
    so: if every record it starts with is under its own id, passes the
    validation of a record and is the record of a session that no recovery has
    begun on (there may be none), and no administrative message comes, then
    after any rounds, whatever messages come and whatever fails, every record in
    its ledger is one the loader of the next daemon accepts: under its own
    lifecycle id, valid, and without a violation of the historical
    invariants. *)
Theorem supervisor_records_load `{SerdeJson PersistentRecoveryRecord}
    `{SerdeJson PreCommitRuntimeRecord} ledger store rounds :
  Forall (λ round, match round.2 with Some m => is_admin m = false | None => True end)
    rounds →
  match ledger with Some (Healthy l) => records_ok l | _ => True end →
  match sl_ledger (run_loop rounds (supervisor_new ledger store)) with
  | Some (Healthy l) => ∀ id r, lg_records l !! id = Some r →
      pr_lifecycle_id r = id ∧ validate_record r = Ok () ∧
      validate_historical_record r = []
  | _ => True
  end.
Proof.
  intros Hr Hl. change (loop_records_ok (supervisor_new ledger store)) in Hl.
  assert (loop_records_ok (run_loop rounds (supervisor_new ledger store))) as Hok.
  { revert Hl. generalize (supervisor_new ledger store).
    induction Hr as [|[host message] rounds Hm Hr IH]; intros s Hs; [done|].
    apply IH. cbn. apply reap_from_keeps. destruct message; [|done].
    by apply handle_message_keeps. }
  unfold loop_records_ok in Hok. destruct (sl_ledger _) as [[l|]|]; [|done..].
  intros id r Hlk. destruct (Hok id r Hlk) as [Hid Hrec].
  split; [done|]. split; [apply Hrec|]. by apply record_ok_historical.
Qed.
