(* ===== verification/SupervisorProtocol.v ===== *)
(** * The protocol between a worker and the supervisor loop

    When a session counts as started, when an aborted launch frees the seat,
    the release token of the payload scope, and the worker's report on its
    VT. *)

From stdpp Require Import base gmap sets list strings.
From Stdlib Require Import ZArith Lia.
From S2P Require Import Prelude Text DirFs RecoveryTypes LedgerTaxonomy Ledger.
From S2P Require Import LedgerDurability PreviousBoot PreCommit SameBoot.
From S2P Require Import Admission AdminRecovery Protocol Conversation Login.
From S2P Require Import Daemon WorkerRecord Supervisor SupervisorSafety.
From S2P Require Import SupervisorExits.
#[local] Open Scope niralis_scope.

(** Every record of the loop's ledger sits under its own lifecycle id. *)
Definition loop_keyed (s : SupervisorLoopState) : Prop :=
  match sl_ledger s with Some (Healthy l) => keyed l | _ => True end.

(** The ledger's file of a record holds exactly that record. *)
Definition record_in_file `{SerdeJson PersistentRecoveryRecord}
    (l : PersistentRecoveryLedger) (rec : PersistentRecoveryRecord) : Prop :=
  ∃ f, ledger_files l !! json_name (pr_lifecycle_id rec) = Some f ∧
    serde_to_vec rec = Some (file_data f).

Section Durable.
Context `{SerdeJson PersistentRecoveryRecord} `{SerdeJson PreCommitRuntimeRecord}.

Lemma written_in_file l l' rec : written l l' rec → record_in_file l' rec.
Proof.
  intros (_ & bytes & ino & Hb & Hf). exists (fresh_file (lg_fs l) ino bytes).
  rewrite Hf, lookup_insert_eq. done.
Qed.

Lemma commit_transition_Ok boot next state l l' id :
  pr_lifecycle_id next = id →
  commit_transition boot next state l = (l', Ok ()) →
  ∃ rec, lg_records l' !! id = Some rec ∧ pr_state rec = state ∧
    pr_operation_ledger rec = pr_operation_ledger next ∧
    pr_sequence rec = pr_sequence next + 1 ∧
    pr_lifecycle_id rec = id ∧ record_in_file l' rec.
Proof.
  intros <-. unfold commit_transition, sr_bind, sr_lift.
  destruct (record_transition boot state next) as [rec|e] eqn:HT; [|done]. cbn.
  intros (_ & Hw & Hr)%commit_spec. exists rec.
  assert (pr_operation_ledger rec = pr_operation_ledger next) as Ho.
  { unfold record_transition in HT. split_cases HT. done. }
  apply record_transition_successor in HT as [(HI & Hs & _) HT].
  apply same_identity_lifecycle in HI. rewrite Hr, <- HI, lookup_insert_eq.
  eauto 10 using written_in_file.
Qed.

Lemma transition_started_Ok boot id state l l' :
  keyed l → transition boot id state l = (l', Ok ()) →
  ∃ rec, lg_records l' !! id = Some rec ∧ pr_state rec = state ∧
    pr_lifecycle_id rec = id ∧ record_in_file l' rec.
Proof.
  intros Hk HC. unfold transition in HC.
  apply record_for_operation_bind in HC as [(_ & _ & Hr)|(next & Hl & HC)]; [done|].
  apply (commit_transition_Ok _ _ _ _ _ id) in HC as (rec & ?); [|by apply Hk].
  naive_solver.
Qed.
End Durable.

(** ** Registration *)

Section Registration.
Context `{SerdeJson PersistentRecoveryRecord} `{SerdeJson PreCommitRuntimeRecord}.
Context (host : SupervisorHost).

(** The durable side of a started session. *)
Definition durably_started (id : string) (s : SupervisorLoopState) : Prop :=
  match sl_ledger s with
  | None => True
  | Some Poisoned => False
  | Some (Healthy l) =>
      ∃ rec, lg_records l !! id = Some rec ∧ pr_state rec = "started"%string ∧
        pr_lifecycle_id rec = id ∧ record_in_file l rec
  end.

Lemma persist_started id s s' :
  loop_keyed s → persist_transition host id "started" s = (s', Ok ()) →
  durably_started id s' ∧ sl_admission s' = sl_admission s ∧
  sl_children s' = sl_children s ∧ sl_pending s' = sl_pending s.
Proof.
  unfold persist_transition, with_durable, loop_keyed, durably_started. intros Hk.
  destruct (sl_ledger s) as [[l|]|] eqn:E; [|done|].
  2: { intros; simplify_eq. by rewrite E. }
  destruct (transition _ _ _ l) as [l' [[]|e]] eqn:HT; [|done].
  intros; simplify_eq. cbn. split; [|done].
  by eapply transition_started_Ok.
Qed.

Lemma start_entry_Ok registration payload entry s s' :
  seat_inv s → loop_keyed s →
  start_entry host registration payload entry s = (s', Ok ()) →
  sl_children s = [] ∧ durably_started (rr_worker_id registration) s' ∧
  sl_pending s' = sl_pending s ∧
  ∃ worker, sl_children s' = [worker] ∧
    sw_worker_id worker = rr_worker_id registration ∧
    sw_child worker = pw_child entry ∧
    sw_record worker =
      set_state (Started payload (rr_runtime_id registration)) (pw_record entry) ∧
    matches_running (sw_admission worker) (aw_controller (sl_admission s')) = true.
Proof.
  intros Hinv Hk. pose proof (start_entry_seat_inv host registration payload entry s Hinv)
    as [_ Hs]. revert Hs. unfold start_entry. rewrite sr_bind_eq.
  destruct (persist_transition _ _ _ s) as [s1 [[]|e]] eqn:Hp; [|done].
  apply persist_started in Hp as (Hd & Ha & Hc & Hpe); [|done].
  cbn beta iota. rewrite sr_bind_eq. cbn beta iota zeta.
  rewrite sr_bind_eq, on_admission_eq.
  destruct (commit_transaction _ _ _) as [w2 [receipt|e]]; [|done]. cbn [fst snd].
  rewrite sr_bind_eq, on_admission_eq. cbn [sl_admission set_admission].
  destruct (promote_committed_to_running receipt w2) as [w3 [admission|e]]; [|done].
  cbn [fst snd]. rewrite sr_bind_eq. cbn. destruct (sh_clone_channel host); [|done].
  cbn. rewrite Hc. intros Hs [= <-]. cbn.
  destruct (sl_children s) as [|w0 [|]]; [|done..]. cbn in *.
  split; [done|]. split; [done|]. split; [done|]. eexists. split; [done|]. done.
Qed.
End Registration.

(** What an accepted registration found and left. *)
Definition session_registered (registration : RunningRegistration) (s s' : SupervisorLoopState)
    `{SerdeJson PersistentRecoveryRecord} : Prop :=
  let id := rr_worker_id registration in
  sl_children s = [] ∧ durably_started id s' ∧
  ∃ worker entry payload nonce,
    sl_children s' = [worker] ∧ sw_worker_id worker = id ∧
    matches_running (sw_admission worker) (aw_controller (sl_admission s')) = true ∧
    entry :: sl_pending s' ≡ₚ sl_pending s ∧
    wr_lifecycle_id (pw_record entry) = id ∧
    wr_state (pw_record entry) = PayloadRegistered payload nonce ∧
    pb_identity (pp_boundary payload) = rr_payload_scope registration ∧
    pb_leader_pid (pp_boundary payload) = rr_session_pid registration ∧
    sw_record worker =
      set_state (Started payload (rr_runtime_id registration)) (pw_record entry).

Lemma register_running_Ok `{SerdeJson PersistentRecoveryRecord}
    `{SerdeJson PreCommitRuntimeRecord} host registration s s' :
  seat_inv s → loop_keyed s → register_running host registration s = (s', Ok ()) →
  session_registered registration s s'.
Proof.
  intros Hinv Hk. unfold session_registered.
  unfold register_running. destruct (pending_lease _) as [transaction' lease].
  destruct (negb _); [done|].
  destruct (find_entry _ s) as [[i e]|] eqn:Hf; [|by destruct lease].
  apply list_find_Some in Hf as (Hi & Hr & _).
  destruct (swap_remove_spec _ _ _ Hi) as (rest & -> & Ht & Hd & _).
  unfold registrable in Hr. bool_facts.
  destruct (wr_state (pw_record e)) as [| |payload nonce| | | | | |] eqn:Hst; try done.
  destruct (_ || _) eqn:Hor; [by destruct lease|]. intros Hse.
  apply start_entry_Ok in Hse as (Hc & Hds & Hp & worker & Hw & Hid & Hch & Hrec & Hm);
    [|by split; apply Hinv|done].
  split; [done|]. split; [done|]. exists worker, e, payload, nonce.
  bool_facts. unfold payload_identity in *. rewrite Hst in *. cbn in *.
  split_and!; try done; [|congruence].
  rewrite Hp, <- (take_drop_middle _ _ _ Hi).
  rewrite <- (take_drop i rest), Ht, Hd. by rewrite Permutation_middle.
Qed.

(** C4. When the loop accepts a registration, at any point of its life, the
    seat was running nothing; now it runs exactly the session of the worker of
    a pending entry that registered its payload scope, with the identity and
    pid of the registration; that entry is no longer pending; and the state
    [started] is in the file of the lifecycle's record, so a session never runs
    before its start is durable. *)
Theorem registered_session_is_durable `{SerdeJson PersistentRecoveryRecord}
    `{SerdeJson PreCommitRuntimeRecord} ledger store rounds host registration s' :
  let s := run_loop rounds (supervisor_new ledger store) in
  let id := rr_worker_id registration in
  loop_keyed s → register_running host registration s = (s', Ok ()) →
  sl_children s = [] ∧ durably_started id s' ∧
  ∃ worker entry payload nonce,
    sl_children s' = [worker] ∧ sw_worker_id worker = id ∧
    matches_running (sw_admission worker) (aw_controller (sl_admission s')) = true ∧
    entry :: sl_pending s' ≡ₚ sl_pending s ∧
    wr_lifecycle_id (pw_record entry) = id ∧
    wr_state (pw_record entry) = PayloadRegistered payload nonce ∧
    pb_identity (pp_boundary payload) = rr_payload_scope registration ∧
    pb_leader_pid (pp_boundary payload) = rr_session_pid registration ∧
    sw_record worker =
      set_state (Started payload (rr_runtime_id registration)) (pw_record entry).
Proof.
  cbv zeta. intros Hk. apply register_running_Ok; [|done].
  apply run_loop_seat_inv, supervisor_new_seat_inv.
Qed.

(** ** Aborted launches *)

(** The seat admits a new session as far as the controller is concerned. *)
Definition seat_open (s : SupervisorLoopState) : bool :=
  phase_is_free (aw_controller (sl_admission s)) &&
  is_free (aw_controller (sl_admission s)).

Section Abort.
Context `{SerdeJson PersistentRecoveryRecord} `{SerdeJson PreCommitRuntimeRecord}.
Context (host : SupervisorHost).

(** Why the seat of an aborted launch may be opened. *)
Inductive abort_settled (expected_clean : bool) (entry : PendingWorkerLifecycle)
    (s : SupervisorLoopState) : Prop :=
| AbortNothingPrepared :
    expected_clean = true → payload_identity (pw_record entry) = None →
    abort_settled expected_clean entry s
| AbortProvenEmpty payload status :
    expected_clean = true → wr_state (pw_record entry) = PayloadReleased payload →
    payload_proven_empty (sh_provider host) payload status →
    abort_settled expected_clean entry s
| AbortRecovered payload status :
    state_payload (wr_state (pw_record entry)) = Some payload →
    payload_recovered (sh_provider host) payload status →
    record_gone (wr_lifecycle_id (pw_record entry)) s →
    abort_settled expected_clean entry s
| AbortPrePayload previous_vt res :
    wr_state (pw_record entry) = WorkerSpawned previous_vt →
    rp_recover_pre_payload (sh_provider host) (wr_worker_pid (pw_record entry))
      (wr_requested_username (pw_record entry)) (wr_session_name (pw_record entry))
      previous_vt = Ok res →
    abort_settled expected_clean entry s.

Lemma pending_recovery_Ok lease id phase reason w :
  matches_pending lease (aw_controller w) = true → id = pl_lifecycle_id lease →
  ∃ w' receipt, pending_recovery id phase reason w = (w', Ok receipt) ∧
    is_free (aw_controller w') = false ∧
    matches_recovering receipt (aw_controller w') = true.
Proof.
  intros Hm ->. apply matches_pending_true in Hm as (Hp & _).
  unfold pending_recovery, pending_is. rewrite Hp, str_eqb_refl. cbn.
  do 2 eexists. split; [done|]. split; [done|].
  unfold matches_recovering, recovering_is. cbn. by rewrite !str_eqb_refl, Z.eqb_refl.
Qed.

Lemma closed_lifecycle s :
  is_free (aw_controller (sl_admission s)) = false → seat_open s = false.
Proof. intros Hf. unfold seat_open. by rewrite Hf, andb_false_r. Qed.
Lemma closed_pending lease s :
  matches_pending lease (aw_controller (sl_admission s)) = true → seat_open s = false.
Proof.
  intros (Hp & _)%matches_pending_true. unfold seat_open, phase_is_free. by rewrite Hp.
Qed.

(** Quarantining from recovery leaves the seat closed, also when it is
    refused. *)
Lemma quarantine_tail_closed {A} receipt stage reason r s :
  is_free (aw_controller (sl_admission s)) = false →
  seat_open ((on_admission (enter_quarantine_from_recovery receipt stage reason) ;;;
    sr_modify (push_quarantined r) ;;; sr_fail WorkerRecoveryIncomplete (A := A)) s).1 = false.
Proof.
  intros Hf. rewrite sr_bind_eq, on_admission_eq. unfold enter_quarantine_from_recovery.
  destruct (negb _); cbn; by apply closed_lifecycle.
Qed.

Lemma recover_payload_entry_opens entry status receipt s clean entry0 :
  is_free (aw_controller (sl_admission s)) = false →
  state_payload (wr_state (pw_record entry)) = state_payload (wr_state (pw_record entry0)) →
  wr_lifecycle_id (pw_record entry) = wr_lifecycle_id (pw_record entry0) →
  let s' := (recover_payload_entry host entry status receipt s).1 in
  seat_open s' = true → abort_settled clean entry0 s'.
Proof.
  intros Hf Hsp Hid. cbv zeta. unfold recover_payload_entry. rewrite sr_bind_eq.
  unfold ignore at 1 3.
  assert (∀ id state s, is_free (aw_controller (sl_admission s)) = false →
    is_free (aw_controller (sl_admission (persist_transition host id state s).1)) = false)
    as Hpt.
  { intros id state s0 Hs0. unfold persist_transition. by rewrite with_durable_admission. }
  apply (Hpt (wr_lifecycle_id (pw_record entry)) "emergency_recovery_started"%string) in Hf.
  destruct (persist_transition _ _ "emergency_recovery_started" s) as [s1 r1].
  cbn [fst] in *.
  destruct (recover _ _ _) as [record' [proof res pam|stage reason]] eqn:Hrec.
  - apply recover_Recovered in Hrec as (payload & Hp & Hr). rewrite Hsp in Hp.
    rewrite sr_bind_eq. unfold persist_resolve.
    pose proof (with_durable_admission PersistentRecoveryUnavailable
      (resolve_and_remove (sh_boot host) (wr_lifecycle_id (pw_record entry))) s1) as Ha.
    destruct (with_durable _ _ s1) as [s2 [[]|e]] eqn:Hw; cbn [fst] in Ha.
    + intros _. eapply AbortRecovered; [done..|]. apply resolve_gone in Hw.
      rewrite <- Hid. rewrite on_admission_eq. apply Hw.
    + cbn [fst]. rewrite closed_lifecycle; [done|]. by rewrite Ha.
  - rewrite sr_bind_eq. unfold ignore at 1 2. cbn beta iota.
    destruct reason; cbn [fst sr_ret]; rewrite quarantine_tail_closed; auto; done.
Qed.

Lemma recover_pre_payload_entry_opens entry receipt s clean :
  is_free (aw_controller (sl_admission s)) = false →
  let s' := (recover_pre_payload_entry host entry receipt s).1 in
  seat_open s' = true → abort_settled clean entry s'.
Proof.
  intros Hf. cbv zeta. unfold recover_pre_payload_entry, quarantine_pre_payload.
  destruct (wr_state (pw_record entry)) eqn:Hst;
    try (rewrite quarantine_tail_closed; done).
  destruct (rp_recover_pre_payload _ _ _ _ _) as [res|reason] eqn:Hr.
  - intros _. by eapply AbortPrePayload.
  - by rewrite quarantine_tail_closed.
Qed.

Lemma abort_entry_opens lease clean status entry s :
  matches_pending lease (aw_controller (sl_admission s)) = true →
  wr_lifecycle_id (pw_record entry) = pl_lifecycle_id lease →
  let s' := (abort_entry host lease clean status entry s).1 in
  seat_open s' = true → abort_settled clean entry s'.
Proof.
  intros Hm Hid. cbv zeta. unfold abort_entry. rewrite sr_bind_eq.
  set (m := match status with
            | Some status => sr_ret status
            | None => reap_pending_worker host (pw_child entry)
            end : SL ExitStatus).
  assert (sl_admission (m s).1 = sl_admission s) as Ha.
  { subst m. destruct status; [done|]. unfold reap_pending_worker.
    destruct (pw_child entry) as [pid|]; [|done].
    destruct (ch_try_wait _ _) as [[|]|]; [done| |done]. by destruct (ch_kill _ _). }
  destruct (m s) as [s1 [st|e]];
    cbn [fst] in *; rewrite <- Ha in Hm; [|by rewrite (closed_pending _ _ Hm)].
  destruct (clean && _) eqn:Hc.
  { intros _. apply andb_true_iff in Hc as [-> Hc]. apply orb_true_iff in Hc as [Hc|Hc].
    - apply AbortNothingPrepared; [done|]. by apply bool_decide_eq_true in Hc.
    - apply finalize_prestarted_Ok in Hc as (payload & Hp & He).
      by eapply AbortProvenEmpty. }
  destruct (negb _).
  - destruct (mark_worker_exited_unexpectedly _ _) as [record classification] eqn:Hmk.
    pose proof (marked_payload (pw_record entry) st) as Hsp.
    pose proof (marked_lifecycle (pw_record entry) st) as Hl. rewrite Hmk in Hsp, Hl.
    cbn [fst] in *. rewrite sr_bind_eq, on_admission_eq.
    destruct (pending_recovery_Ok lease (wr_lifecycle_id record) (phase_name record)
      classification _ Hm) as (w' & receipt & -> & Hf & _); [congruence|].
    by apply recover_payload_entry_opens.
  - rewrite sr_bind_eq, on_admission_eq.
    destruct (pending_recovery_Ok lease (wr_lifecycle_id (pw_record entry))
      (phase_name (pw_record entry)) UnexpectedExitBeforeStarted _ Hm)
      as (w' & receipt & -> & Hf & _); [done|].
    by apply recover_pre_payload_entry_opens.
Qed.
End Abort.

(** C5. Aborting a pending launch whose lease holds the seat reopens the seat
    only if the loop knew no such worker, or for the worker's entry: the launch
    ended as planned and no payload was announced or its scope is proven empty;
    or the payload was recovered and its record is out of the ledger; or what
    came before the payload was recovered.  A worker that cannot be reaped, an
    unproven payload and a record that stays in the ledger keep the seat
    closed. *)
Theorem aborted_launch_opens_only_settled `{SerdeJson PersistentRecoveryRecord}
    `{SerdeJson PreCommitRuntimeRecord} host lease clean status s :
  let s' := (abort_pending host lease clean status s).1 in
  matches_pending lease (aw_controller (sl_admission s)) = true → seat_open s' = true →
  (∀ entry, entry ∈ sl_pending s →
     wr_lifecycle_id (pw_record entry) ≠ pl_lifecycle_id lease) ∨
  ∃ entry, entry ∈ sl_pending s ∧
    wr_lifecycle_id (pw_record entry) = pl_lifecycle_id lease ∧
    abort_settled host clean entry s'.
Proof.
  cbv zeta. intros Hm. unfold abort_pending. rewrite Hm. cbn [negb].
  destruct (find_entry _ s) as [[i e]|] eqn:Hf.
  - apply list_find_Some in Hf as (Hi & He & _). apply str_eqb_true in He.
    destruct (swap_remove_spec _ _ _ Hi) as (rest & -> & _). intros Ho. right.
    exists e. split; [by eapply list_elem_of_lookup_2|]. split; [done|].
    by apply abort_entry_opens.
  - intros _. left. apply list_find_None in Hf. rewrite Forall_forall in Hf.
    intros entry Hin Heq. apply (Hf entry Hin). by apply str_eqb_true.
Qed.

(** ** The worker's report on its VT *)

Section TerminalVt.
Context `{SerdeJson PersistentRecoveryRecord} `{SerdeJson PreCommitRuntimeRecord}.
Context (host : SupervisorHost).

(** The durable record shows the operation's state, in memory and in its file. *)
Definition vt_operation_is (id : string) (o : DurableOperationState)
    (s : SupervisorLoopState) : Prop :=
  ∃ l rec, sl_ledger s = Some (Healthy l) ∧ lg_records l !! id = Some rec ∧
    ol_vt_disallocate (pr_operation_ledger rec) = o ∧ record_in_file l rec.

Definition result_operation (attempt_id : Z) (res : TerminalVtCleanupResult)
    : DurableOperationState :=
  match res with
  | TvReleased => Confirmed attempt_id
  | TvVtDisallocateBusy => OpFailed attempt_id EBUSY
  end.

Lemma accept_intent_Ok id pid nonce identity s s' attempt :
  loop_keyed s → accept_terminal_vt_intent host id pid nonce identity s = (s', Ok attempt) →
  vt_operation_is id (IntentPersisted attempt) s' ∧
  ∃ rec, durable_record id s = Some rec ∧ attempt = pr_sequence rec + 1.
Proof.
  unfold accept_terminal_vt_intent, loop_keyed, durable_record.
  destruct (find_child id s) as [[i worker]|]; [|done]. destruct (_ || _); [done|].
  destruct (sl_ledger s) as [[l|]|] eqn:El; [|done..]. intros Hk.
  destruct (lg_records l !! id) as [rec|] eqn:Hl; [|done]. destruct (_ || _); [done|].
  destruct (u64_checked_add _ _) as [a|] eqn:Ha; [|done].
  apply u64_checked_add_Some in Ha as [-> _].
  destruct (worker_vt_cleanup_intent _ _ _ l) as [l' [[]|e]] eqn:HC; [|done].
  intros; simplify_eq. split; [|eauto]. unfold worker_vt_cleanup_intent in HC.
  apply record_for_operation_bind in HC as [(_ & _ & Hr)|(next & Hn & HC)]; [done|].
  apply (commit_transition_Ok _ _ _ _ _ id) in HC as (rec' & ? & _ & Ho & _ & _ & ?).
  - exists l', rec'. split_and!; try done. by rewrite Ho.
  - exact (Hk _ _ Hn).
Qed.

Lemma accept_result_Ok id pid nonce attempt res s s' :
  loop_keyed s → accept_terminal_vt_result host id pid nonce attempt res s = (s', Ok ()) →
  (∃ rec, durable_record id s = Some rec ∧
     ol_vt_disallocate (pr_operation_ledger rec) = IntentPersisted attempt) ∧
  vt_operation_is id (result_operation attempt res) s' ∧
  ∃ i worker, find_child id s = Some (i, worker) ∧
    (∃ worker', sl_children s' = <[i := worker']> (sl_children s) ∧
       sw_terminal_vt_reported_busy worker' =
         match res with TvVtDisallocateBusy => true | TvReleased => false end).
Proof.
  unfold accept_terminal_vt_result, loop_keyed, durable_record.
  destruct (_ || _); [done|].
  destruct (find_child id s) as [[i worker]|]; [|done]. destruct (_ || _); [done|].
  destruct (sl_ledger s) as [[l|]|] eqn:El; [|done..]. intros Hk.
  destruct (lg_records l !! id) as [rec|] eqn:Hl; [|done].
  destruct (negb _) eqn:Hint; [done|].
  destruct (worker_vt_cleanup_result _ _ _ _ l) as [l' [[]|e]] eqn:HC; [|done].
  intros; simplify_eq. split.
  { exists rec. split; [done|]. bool_facts. unfold intent_is in Hint.
    destruct (ol_vt_disallocate _); try done. by apply Z.eqb_eq in Hint as ->. }
  split; [|eauto 10]. unfold worker_vt_cleanup_result in HC.
  apply record_for_operation_bind in HC as [(_ & _ & Hr)|(next & Hn & HC)]; [done|].
  assert (pr_lifecycle_id next = id) as Hid by by apply Hk.
  destruct res; apply (commit_transition_Ok _ _ _ _ _ id) in HC
    as (rec' & ? & _ & Ho & _ & _ & ?); try done;
    exists l', rec'; (split_and!; [done|done| |done]); by rewrite Ho.
Qed.

(** Without a pending intent every report is refused. *)
Lemma accept_result_refused id pid nonce attempt res s o :
  vt_operation_is id o s → (∀ a, o ≠ IntentPersisted a) →
  accept_terminal_vt_result host id pid nonce attempt res s = (s, Err WorkerProtocolFailed).
Proof.
  intros (l & rec & El & Hl & Ho & _) Hni. unfold accept_terminal_vt_result.
  destruct (_ || _); [done|]. destruct (find_child id s) as [[i worker]|]; [|done].
  destruct (_ || _); [done|]. rewrite El, Hl, Ho. unfold intent_is.
  destruct o; try done. by destruct (Hni attempt_id).
Qed.
End TerminalVt.

(** A worker's report on its VT is accepted only for the attempt whose
    intent is durable, its verdict is then in the record and in the record's
    file, the worker is remembered as blocked exactly when the VT was busy, and
    no further report for that worker is accepted until a new intent is
    recorded, whoever sends it. *)
Theorem terminal_vt_report_accepted_once `{SerdeJson PersistentRecoveryRecord}
    `{SerdeJson PreCommitRuntimeRecord} host id pid nonce attempt res s s' :
  loop_keyed s → accept_terminal_vt_result host id pid nonce attempt res s = (s', Ok ()) →
  (∃ rec, durable_record id s = Some rec ∧
     ol_vt_disallocate (pr_operation_ledger rec) = IntentPersisted attempt) ∧
  vt_operation_is id (result_operation attempt res) s' ∧
  (∃ i worker, find_child id s = Some (i, worker) ∧
    ∃ worker', sl_children s' = <[i := worker']> (sl_children s) ∧
      sw_terminal_vt_reported_busy worker' = 
        match res with TvVtDisallocateBusy => true | TvReleased => false end) ∧
  ∀ host' pid' nonce' attempt' res',
    accept_terminal_vt_result host' id pid' nonce' attempt' res' s' =
    (s', Err WorkerProtocolFailed).
Proof.
  intros Hk Hok. apply accept_result_Ok in Hok as (Hi & Ho & Hw); [|done].
  split; [done|]. split; [done|]. split; [done|]. intros. eapply accept_result_refused;
    [exact Ho|]. by destruct res.
Qed.

(** ** A registration that fails after its lease is gone *)

Section LostRegistration.
Context `{SerdeJson PersistentRecoveryRecord} `{SerdeJson PreCommitRuntimeRecord}.

(** A seat with a pending launch admits nobody. *)
Lemma pending_refuses_reserve host id lease s :
  matches_pending lease (aw_controller (sl_admission s)) = true →
  is_ok (loop_reserve_seat host id s).2 = false.
Proof.
  intros (Hp & _)%matches_pending_true. unfold loop_reserve_seat. rewrite on_admission_eq.
  unfold reserve_seat. destruct (negb _); [done|].
  destruct (rp_capture_previous_vt _ _); [|done].
  rewrite sr_bind_eq. unfold reserve, phase_is_free. rewrite Hp. cbn.
  by rewrite orb_true_r.
Qed.
End LostRegistration.

(** When the start of a session cannot be made durable, the registration
    fails after it consumed the launch's lease and dropped the worker's entry:
    the loop no longer knows the worker, the seat stays pending for it, and every
    later reservation is refused. *)
Theorem undurable_start_strands_seat `{SerdeJson PersistentRecoveryRecord}
    `{SerdeJson PreCommitRuntimeRecord} host registration lease i entry rest payload nonce
    e s :
  let s' := (register_running host registration s).1 in
  lt_lifecycle_id (pd_transaction (rr_admission_transaction registration)) =
    rr_worker_id registration →
  matches_pending lease (aw_controller (sl_admission s)) = true →
  find_entry (registrable registration) s = Some (i, entry) →
  swap_remove i (sl_pending s) = Some (entry, rest) →
  wr_state (pw_record entry) = PayloadRegistered payload nonce →
  sli_id (pp_logind payload) = rr_logind_session_id registration →
  pb_leader_pid (pp_boundary payload) = rr_session_pid registration →
  (persist_transition host (rr_worker_id registration) "started" (set_pending rest s)).2
    = Err e →
  (register_running host registration s).2 = Err e ∧ sl_pending s' = rest ∧
  sl_children s' = sl_children s ∧
  matches_pending lease (aw_controller (sl_admission s')) = true ∧
  ∀ host' id, is_ok (loop_reserve_seat host' id s').2 = false.
Proof.
  cbv zeta. intros Hid Hm Hf Hsw Hst Hlog Hpid Hpt.
  assert (register_running host registration s =
    start_entry host registration payload entry (set_pending rest s)) as ->.
  { unfold register_running. destruct (pending_lease _) as [t' l].
    rewrite Hid, str_eqb_refl, Hf, Hsw, Hst, Hlog, Hpid, str_eqb_refl, Z.eqb_refl. done. }
  unfold start_entry. rewrite sr_bind_eq. unfold persist_transition in *.
  pose proof (with_durable_admission PersistentRecoveryUnavailable (transition
    (sh_boot host) (rr_worker_id registration) "started") (set_pending rest s)) as Ha.
  pose proof (with_durable_children PersistentRecoveryUnavailable (transition
    (sh_boot host) (rr_worker_id registration) "started") (set_pending rest s)) as Hc.
  assert (sl_pending (with_durable PersistentRecoveryUnavailable (transition (sh_boot host)
    (rr_worker_id registration) "started") (set_pending rest s)).1 = rest) as Hp.
  { unfold with_durable. destruct (sl_ledger _) as [[l|]|]; [|done..].
    by destruct (transition _ _ _ l). }
  destruct (with_durable _ _ _) as [s1 r1]. cbn [fst snd] in *. subst r1. cbn [fst snd].
  rewrite Ha. split_and!; try done. intros host' id.
  apply (pending_refuses_reserve _ _ lease). by rewrite Ha.
Qed.
