(* ===== verification/Launch.v ===== *)
(** * Launching a worker

    [launcher/launch_completion.rs] and [launcher/launch_protocol.rs]: from the
    reservation of the seat to the registered session, with the guards that
    give the lease back on every other path ([contracts/guards.rs]).  The
    launcher talks to the supervisor loop by messages with a bounded wait for
    the reply ([supervisor_api.rs]); the worker's messages, the control channel
    and the child process are the environment. *)

From stdpp Require Import base gmap sets list strings.
From Stdlib Require Import ZArith Lia.
From S2P Require Import Prelude Text DirFs RecoveryTypes LedgerTaxonomy Ledger.
From S2P Require Import LedgerDurability PreviousBoot PreCommit SameBoot.
From S2P Require Import Admission AdminRecovery Protocol Conversation Login.
From S2P Require Import Daemon WorkerRecord Supervisor.
#[local] Open Scope niralis_scope.

(** ** Messages *)

Definition WORKER_PROTOCOL_VERSION : Z := 14.
Definition WORKER_CONTROL_PROTOCOL_VERSION : Z := 7.

Inductive WorkerErrorCode :=
| UnsupportedVersion | InvalidRequest | InternalError
| RealGraphicalSessionNotAuthorized.
Inductive WorkerSessionFailureCode :=
| PamIdentityUnavailable | IdentityResolutionFailed | SupplementaryGroupsResolutionFailed
| OpenFailed | InternalPanic | SessionChildFailed | WorkerAlreadyInLogindSession
| LogindFailed | LogindSessionIdMismatch | RuntimeEnvironmentFailed
| RuntimeDirectoryInvalid | LaunchSpecMissing | LaunchSpecMalformed
| ExecutableUnavailable | ExecFailed | CommitFailed.

Inductive WorkerResponse :=
| WrPamPrompt (worker_id : string) (expected_worker_pid : Z)
    (transaction : WorkerTransactionIdentity) (prompt : PamPromptEnvelope)
| WrPreparing (worker_id : string) (transaction : WorkerTransactionIdentity)
| WrPayloadScopePrepared (worker_id : string) (transaction : WorkerTransactionIdentity)
    (expected_worker_pid session_pid : Z) (registration_nonce : string)
    (scope_identity : PayloadScopeIdentity)
| WrPayloadScopeReleaseReady (worker_id : string)
| WrStarted (session : StartedSession) (session_pid session_pgid fixture_version : Z)
    (worker_id logind_session_id : string) (transaction : WorkerTransactionIdentity)
| WrReady (session : StartedSession)
| WrAuthenticationFailed
| WrSessionFailed (code : WorkerSessionFailureCode)
| WrRejected (code : WorkerErrorCode).
Record WorkerEnvelope := mkWorkerEnvelope {
  we_version : Z;
  we_message : WorkerResponse;
}.

(** The control requests of the launch and of a running worker; [WcOther]
    stands for the rest of [WorkerControlRequest], which both refuse. *)
Inductive WorkerControlRequest :=
| WcPayloadScopeRegistered (transaction : ControlTransactionIdentity)
    (worker_id : string) (expected_worker_pid : Z) (registration_nonce : string)
| WcPayloadScopeReleaseRequested (transaction : ControlTransactionIdentity)
    (worker_id : string) (expected_worker_pid : Z)
    (registration_nonce release_nonce : string) (scope_identity : PayloadScopeIdentity)
    (local_cleanup_succeeded : bool)
| WcPayloadScopeReleased (transaction : ControlTransactionIdentity)
    (worker_id : string) (expected_worker_pid : Z)
    (registration_nonce release_nonce : string)
| WcPayloadScopeRecoveryRequired (transaction : ControlTransactionIdentity)
    (worker_id : string) (expected_worker_pid : Z)
    (registration_nonce release_nonce : string) (reason : PayloadScopeRecoveryReason)
| WcTerminalVtCleanupIntent (worker_id : string) (expected_worker_pid : Z)
    (registration_nonce : string) (scope_identity : PayloadScopeIdentity)
| WcTerminalVtCleanupIntentAcknowledged (worker_id : string) (expected_worker_pid : Z)
    (registration_nonce : string) (attempt_id : Z)
| WcTerminalVtCleanupResult (worker_id : string) (expected_worker_pid : Z)
    (registration_nonce : string) (attempt_id : Z) (result : TerminalVtCleanupResult)
| WcTerminalVtCleanupResultAcknowledged (worker_id : string) (expected_worker_pid : Z)
    (registration_nonce : string) (attempt_id : Z)
| WcTerminate (worker_id : string)
    (expected_worker_pid expected_session_pid expected_session_pgid : Z)
| WcPamPromptResponse (transaction : ControlTransactionIdentity) (worker_id : string)
    (expected_worker_pid : Z) (response : PamPromptResponseEnvelope)
| WcOther.
Record WorkerControlEnvelope := mkControlEnvelope {
  wc_version : Z;
  wc_message : WorkerControlRequest;
}.

(** ** The environment *)

Inductive PendingLaunchPhase :=
| LaunchSpawned
| LaunchPreparing
| LaunchScopeRegistered (identity : PayloadScopeIdentity) (registration_nonce : string).

(** One answer of the worker's reader and what happens while it is handled. *)
Record LaunchEvent := mkLaunchEvent {
  le_response : result WorkerEnvelope SessionError;
  le_control_sent : bool;
  le_control_read : option WorkerControlEnvelope;
  le_verification : ScopeReleaseVerification;
  le_answer : option (result PamPromptResponseEnvelope SessionError);
  le_now_prompt : Z;
  le_now_response : Z;
  le_prompt_written : result () SessionError;
}.

(** A call of the supervisor: whether the loop got the message and whether its
    reply came in time, with the host the loop ran on. *)
Record CallHost := mkCall {
  cl_host : SupervisorHost;
  cl_delivered : bool;
  cl_answered : bool;
}.

Record LaunchHost := mkLaunchHost {
  lh_endpoint : result string SessionError;
  lh_calls : nat → CallHost;
  lh_proc : Z → ProcHost;
  lh_spawn : result Z SessionError;
  lh_process_id : Z;
  lh_deadline : Z;
  lh_now_authentication : Z;
  lh_writer : result () SessionError;
  lh_events : list LaunchEvent;
  lh_alive : result bool SessionError;
  lh_now_started : Z;
  lh_register_wait : option (option ExitStatus);
  lh_wait_child : result (option ExitStatus) SessionError;
}.

(** The loop, the number of calls made to it, the PAM relay, the control
    requests written to the worker, and whether the guard has given its
    transaction away ([take_transaction]). *)
Record Launch := mkLaunch {
  ln_loop : SupervisorLoopState;
  ln_calls : nat;
  ln_relay : PamRelay;
  ln_control : list WorkerControlRequest;
  ln_taken : bool;
}.
Abbreviation LN := (SR Launch SessionError).

Definition after_call (l : SupervisorLoopState) (s : Launch) : Launch :=
  mkLaunch l (S (ln_calls s)) (ln_relay s) (ln_control s) (ln_taken s).
Definition set_loop_admission (w : AdmissionWorld) (s : Launch) : Launch :=
  mkLaunch (set_admission w (ln_loop s)) (ln_calls s) (ln_relay s) (ln_control s)
    (ln_taken s).
Definition set_relay (r : PamRelay) (s : Launch) : Launch :=
  mkLaunch (ln_loop s) (ln_calls s) r (ln_control s) (ln_taken s).
Definition log_control (c : WorkerControlRequest) (s : Launch) : Launch :=
  mkLaunch (ln_loop s) (ln_calls s) (ln_relay s) (ln_control s ++ [c]) (ln_taken s).
Definition take_transaction (s : Launch) : Launch :=
  mkLaunch (ln_loop s) (ln_calls s) (ln_relay s) (ln_control s) true.

(** [PendingSupervisorGuard]. *)
Record PendingSupervisorGuard := mkGuard {
  pg_transaction : PendingLaunchTransaction;
  pg_expected_clean : bool;
  pg_worker_exit_status : option ExitStatus;
}.

Section Launching.
Context `{SerdeJson PersistentRecoveryRecord} `{SerdeJson PreCommitRuntimeRecord}.
Context `{SerdeJson PamPromptResponse}.
Context (host : LaunchHost).

(** ** Calls of the supervisor *)

Definition call {A} (f : SupervisorHost → SL A) : LN A := λ s,
  let c := lh_calls host (ln_calls s) in
  if cl_delivered c then
    let '(l, r) := f (cl_host c) (ln_loop s) in
    (after_call (reap_exited_workers (cl_host c) l) s,
     if cl_answered c then r else Err WorkerIoFailed)
  else (after_call (ln_loop s) s, Err WorkerIoFailed).

(** [cancel_admission] has no reply. *)
Definition cancel_reserved (lease : AdmissionLease) (s : Launch) : Launch :=
  (call (λ _, cancel_admission (RollbackReserved lease)) s).1.

Definition abort_guard (guard : PendingSupervisorGuard) : LN () :=
  let transaction := consume_failed_conversation (pg_transaction guard) in
  let* lease := sr_lift (pending_lease transaction).2 in
  call (λ h, abort_pending h lease (pg_expected_clean guard)
               (pg_worker_exit_status guard)).
(** Dropping the guard aborts and ignores the verdict. *)
Definition drop_guard {A} (guard : PendingSupervisorGuard) (e : SessionError) : LN A :=
  λ s, ((abort_guard guard s).1, Err e).

(** ** The worker's messages *)

Inductive LaunchFlow :=
| Continue (phase : PendingLaunchPhase)
    (control_transaction : option WorkerTransactionIdentity)
| Break (phase : PendingLaunchPhase) (response : result WorkerEnvelope SessionError).

(** A protocol error ends the loop. *)
Definition break_failed (phase : PendingLaunchPhase) : LN LaunchFlow :=
  sr_ret (Break phase (Err WorkerProtocolFailed)).

Section Events.
Context (worker_id : string) (worker_pid generation attempt_id : Z).

Definition on_preparing (event_worker_id : string)
    (transaction : WorkerTransactionIdentity) (phase : PendingLaunchPhase)
    (control : option WorkerTransactionIdentity) : LN LaunchFlow :=
  if match phase with LaunchSpawned => true | _ => false end
     && str_eqb event_worker_id worker_id
     && valid_transaction transaction worker_id generation attempt_id "preparing"
  then sr_ret (Continue LaunchPreparing control) else break_failed phase.

Definition is_preparing (phase : PendingLaunchPhase) : bool :=
  match phase with LaunchPreparing => true | _ => false end.

Definition on_scope_prepared (e : LaunchEvent) (event_worker_id : string)
    (transaction : WorkerTransactionIdentity) (expected_worker_pid session_pid : Z)
    (nonce : string) (identity : PayloadScopeIdentity) (phase : PendingLaunchPhase)
    : LN LaunchFlow :=
  if negb (is_preparing phase) || negb (str_eqb event_worker_id worker_id)
     || negb (expected_worker_pid =? worker_pid) || (session_pid =? 0)
     || str_is_empty nonce || (128 <? str_len nonce) || negb (validate_scope identity)
     || negb (valid_transaction transaction worker_id generation attempt_id
                "scope_prepared")
  then break_failed phase
  else
    call (λ h, record_prepared_scope h worker_id worker_pid session_pid identity nonce) ;;;
    if le_control_sent e then
      sr_modify (log_control (WcPayloadScopeRegistered
        (from_worker transaction "scope_registered" 1) worker_id worker_pid nonce)) ;;;
      call (λ h, mark_payload_registered h worker_id worker_pid) ;;;
      sr_ret (Continue (LaunchScopeRegistered identity nonce) (Some transaction))
    else sr_ret (Break (LaunchScopeRegistered identity nonce) (Err WorkerIoFailed)).

Definition on_pam_prompt (e : LaunchEvent) (event_worker_id : string)
    (expected_worker_pid : Z) (transaction : WorkerTransactionIdentity)
    (prompt : PamPromptEnvelope) (phase : PendingLaunchPhase)
    (control : option WorkerTransactionIdentity) : LN LaunchFlow := λ s,
  if negb (is_preparing phase) then break_failed phase s
  else
    let '(r, v) := forward_pam_prompt worker_id worker_pid generation attempt_id
      (mkPromptEvent event_worker_id expected_worker_pid transaction prompt
         (le_answer e) (le_now_prompt e) (le_now_response e) (le_prompt_written e))
      (ln_relay s) in
    (set_relay r s,
     Ok (match v with Ok _ => Continue phase control | Err err => Break phase (Err err) end)).

(** The release nonce of the worker's release request, if the request is the
    registered scope's. *)
Definition release_request (identity : PayloadScopeIdentity) (nonce : string)
    (transaction : WorkerTransactionIdentity) (request : option WorkerControlEnvelope)
    : option string :=
  match request with
  | Some (mkControlEnvelope version
      (WcPayloadScopeReleaseRequested request_transaction id pid n release_nonce scope _)) =>
      if (version =? WORKER_CONTROL_PROTOCOL_VERSION) && str_eqb id worker_id
         && (pid =? worker_pid) && str_eqb n nonce && bool_decide (scope = identity)
         && matches_worker request_transaction transaction "scope_release_requested" 2
         && negb (str_is_empty release_nonce) && (str_len release_nonce <=? 128)
      then Some release_nonce else None
  | _ => None
  end.

Definition release_reply (transaction : WorkerTransactionIdentity)
    (nonce release_nonce : string) (v : ScopeReleaseVerification)
    : WorkerControlRequest :=
  match v with
  | ScopeReleased => WcPayloadScopeReleased (from_worker transaction "scope_released" 3)
      worker_id worker_pid nonce release_nonce
  | ScopeRecoveryRequired reason =>
      WcPayloadScopeRecoveryRequired (from_worker transaction "scope_recovery_required" 3)
        worker_id worker_pid nonce release_nonce reason
  end.

Definition on_release_ready (e : LaunchEvent) (event_worker_id : string)
    (phase : PendingLaunchPhase) (control : option WorkerTransactionIdentity)
    : LN LaunchFlow :=
  match phase with
  | LaunchScopeRegistered identity nonce =>
      if negb (str_eqb event_worker_id worker_id) then break_failed phase
      else match control with
      | None => break_failed phase
      | Some transaction =>
          match release_request identity nonce transaction (le_control_read e) with
          | None => break_failed phase
          | Some release_nonce =>
              let* token := call (λ _, begin_release
                (mkReleaseRequest worker_id worker_pid nonce release_nonce identity)) in
              call (λ h, complete_release h token (le_verification e)) ;;;
              if le_control_sent e then
                sr_modify (log_control (release_reply transaction nonce release_nonce
                                          (le_verification e))) ;;;
                sr_ret (Continue phase control)
              else sr_ret (Break phase (Err WorkerIoFailed))
          end
      end
  | _ => break_failed phase
  end.

Definition on_event (e : LaunchEvent) (phase : PendingLaunchPhase)
    (control : option WorkerTransactionIdentity) : LN LaunchFlow :=
  match le_response e with
  | Err err => sr_ret (Break phase (Err err))
  | Ok response =>
      if negb (we_version response =? WORKER_PROTOCOL_VERSION) then break_failed phase
      else match we_message response with
      | WrPreparing id transaction => on_preparing id transaction phase control
      | WrPayloadScopePrepared id transaction pid session_pid nonce identity =>
          on_scope_prepared e id transaction pid session_pid nonce identity phase
      | WrPamPrompt id pid transaction prompt =>
          on_pam_prompt e id pid transaction prompt phase control
      | WrPayloadScopeReleaseReady id => on_release_ready e id phase control
      | _ => sr_ret (Break phase (Ok response))
      end
  end.

(** [wait_launch_response]; without another answer the reader times out. *)
Fixpoint wait_launch_response (events : list LaunchEvent) (phase : PendingLaunchPhase)
    (control : option WorkerTransactionIdentity)
    : LN (result WorkerEnvelope SessionError * PendingLaunchPhase) :=
  match events with
  | [] => sr_ret (Err WorkerTimedOut, phase)
  | e :: events =>
      let* flow := on_event e phase control in
      match flow with
      | Continue phase control => wait_launch_response events phase control
      | Break phase response => sr_ret (response, phase)
      end
  end.
End Events.

(** ** The transaction before the worker is pending *)

(** A refused stage hands the lease back to the reservation guard, whose drop
    cancels it. *)
Definition give_back {A} (r : LoginTransaction * result AdmissionLease SessionError)
    (e : SessionError) : LN A := λ s,
  match r.2 with
  | Ok lease => (cancel_reserved lease s, Err e)
  | Err _ => (s, Err WorkerProtocolFailed)
  end.

Definition greeter_identity (connection : option LoginRequestBinding)
    (worker_id : string) : GreeterConnectionIdentity :=
  match connection with
  | Some binding => from_binding binding worker_id
  | None => greeter_private worker_id
  end.

Definition prepare_transaction (lease : AdmissionLease) (worker_id : string)
    (worker_pid : Z) (connection : option LoginRequestBinding)
    (session_id : string) : LN TransactionOwnedLoginBackend := λ s,
  let t := from_admission lease (greeter_identity connection worker_id) session_id
             (lh_deadline host) in
  match attach_backend (lh_proc host) (mkChannel worker_id worker_pid) t
          (sl_admission (ln_loop s)) with
  | (w, Err (error, t)) => give_back (take_lease t) error (set_loop_admission w s)
  | (w, Ok backend) =>
      match authentication (lh_proc host) (lh_now_authentication host) backend w with
      | (w, Err (error, backend)) =>
          give_back (take_lease (ob_transaction backend)) error (set_loop_admission w s)
      | (w, Ok permit) =>
          let '(w, permit) := authenticated (lh_proc host) permit w in
          let '(w, prepared) := prepare (lh_proc host) permit w in
          let s := set_loop_admission w s in
          if permit_validate_expected worker_id session_id prepared
          then (s, Ok prepared)
          else give_back (take_lease (ob_transaction prepared)) WorkerProtocolFailed s
      end
  end.

(** ** The end of the launch *)

Definition map_response (response : WorkerEnvelope) (status : ExitStatus)
    (expected : StartedSession) : result StartedSession SessionError :=
  if negb (we_version response =? WORKER_PROTOCOL_VERSION) then Err WorkerProtocolFailed
  else match we_message response with
  | WrReady session =>
      if exit_success status && bool_decide (session = expected) then Ok session
      else Err WorkerProtocolFailed
  | WrAuthenticationFailed =>
      if negb (exit_success status) then Err AuthenticationFailed
      else Err WorkerProtocolFailed
  | WrSessionFailed _ =>
      if negb (exit_success status) then Err AuthenticatedSessionFailed
      else Err WorkerProtocolFailed
  | WrRejected _ =>
      if negb (exit_success status) then Err WorkerRejected else Err WorkerProtocolFailed
  | _ => Err WorkerProtocolFailed
  end.

(** [WorkerSupervisor::register]: a worker already gone is not registered, and
    the transaction is lost with it. *)
Definition register (transaction : PendingLaunchTransaction) (session : StartedSession)
    (session_pid session_pgid : Z) (worker_id logind_session_id : string)
    (payload_scope : PayloadScopeIdentity) (nonce : string) : LN string :=
  match lh_register_wait host with
  | None => sr_fail WorkerIoFailed
  | Some (Some _) => sr_fail WorkerExitedAfterStart
  | Some None =>
      call (λ h, register_running h
        (mkRegistration transaction worker_id session session_pid session_pgid worker_id
           logind_session_id payload_scope nonce)) ;;;
      sr_ret worker_id
  end.

(** The worker reported [Started]. *)
Definition finish_started (guard : PendingSupervisorGuard) (response : WorkerResponse)
    (phase : PendingLaunchPhase) (expected : StartedSession) (worker_id : string)
    (generation attempt_id : Z) : LN (StartedSession * string) :=
  match lh_writer host with
  | Err e => drop_guard guard e
  | Ok _ =>
      match response with
      | WrStarted session session_pid session_pgid fixture_version started_id logind_id
          transaction =>
          if negb (bool_decide (session = expected))
             || negb ((fixture_version =? 1) || (fixture_version =? 2))
             || negb (str_eqb started_id worker_id || str_is_empty started_id)
             || negb (session_pgid =? session_pid)
             || negb (valid_transaction transaction worker_id generation attempt_id
                        "started")
          then drop_guard guard WorkerProtocolFailed
          else match phase with
          | LaunchScopeRegistered identity nonce =>
              if negb (str_eqb (psi_logind_session_id identity) logind_id)
              then drop_guard guard WorkerProtocolFailed
              else match lh_alive host with
              | Err e => drop_guard guard e
              | Ok false => drop_guard guard WorkerExitedAfterStart
              | Ok true =>
                  let '(transaction, r) := consume_authenticated_conversation
                    (lh_now_started host) (pg_transaction guard) in
                  match r with
                  | Err e =>
                      drop_guard (mkGuard transaction (pg_expected_clean guard)
                                    (pg_worker_exit_status guard)) e
                  | Ok _ =>
                      sr_modify take_transaction ;;;
                      let* runtime_id := register transaction expected session_pid
                        session_pgid worker_id logind_id identity nonce in
                      sr_ret (expected, runtime_id)
                  end
              end
          | _ => drop_guard guard WorkerProtocolFailed
          end
      | _ => drop_guard guard WorkerProtocolFailed
      end
  end.

(** The guard's [complete], with the error to return in either case. *)
Definition complete_with {A} (guard : PendingSupervisorGuard) (ok err : SessionError)
    : LN A := λ s,
  let '(s, r) := abort_guard guard s in
  (s, Err (match r with Ok _ => ok | Err _ => err end)).

(** The launch ended without a session. *)
Definition finish_ended (guard : PendingSupervisorGuard)
    (response : result WorkerEnvelope SessionError) (expected : StartedSession)
    : LN (StartedSession * string) :=
  let status_result := match response with
                       | Ok _ => lh_wait_child host
                       | Err _ => Ok None
                       end in
  match response, status_result with
  | Ok response, Ok status =>
      match lh_writer host with
      | Err WorkerIoFailed | Ok _ =>
          match status with
          | None => drop_guard guard WorkerProtocolFailed
          | Some status =>
              abort_guard (mkGuard (pg_transaction guard) true (Some status)) ;;;
              let* session := sr_lift (map_response response status expected) in
              sr_ret (session, "completed"%string)
          end
      | Err error => complete_with guard error WorkerRecoveryIncomplete
      end
  | _, _ => complete_with guard WorkerDiedAndWasRecovered WorkerRecoveryIncomplete
  end.

Definition is_started (r : WorkerResponse) : bool :=
  match r with WrStarted _ _ _ _ _ _ _ => true | _ => false end.

Definition with_conversation (c : option PamConversationAuthority)
    (p : PendingLaunchTransaction) : PendingLaunchTransaction :=
  mkPendingLaunch (pd_transaction p) (pd_pending_lease p) c.

(** From the pending worker on. *)
Definition run_pending (transaction : PendingLaunchTransaction)
    (expected : StartedSession) (worker_id : string) (worker_pid generation attempt_id : Z)
    : LN (StartedSession * string) := λ s,
  let s := set_relay (mkRelay (pd_conversation transaction) []) s in
  let guard s := mkGuard (with_conversation (rl_authority (ln_relay s)) transaction)
                   false None in
  match wait_launch_response worker_id worker_pid generation attempt_id
          (lh_events host) LaunchSpawned None s with
  | (s, Err e) => drop_guard (guard s) e s
  | (s, Ok (Ok response, phase)) =>
      if is_started (we_message response)
      then finish_started (guard s) (we_message response) phase expected worker_id
             generation attempt_id s
      else finish_ended (guard s) (Ok response) expected s
  | (s, Ok (Err e, _)) => finish_ended (guard s) (Err e) expected s
  end.

(** [start_worker_with_conversation] for a PAM session. *)
Definition start_pam_worker (expected : StartedSession)
    (connection : option LoginRequestBinding) : LN (StartedSession * string) :=
  let* worker_id := sr_lift (lh_endpoint host) in
  let* lease := call (λ h, loop_reserve_seat h worker_id) in
  match lh_spawn host with
  | Err e => λ s, (cancel_reserved lease s, Err e)
  | Ok worker_pid =>
      let* prepared := prepare_transaction lease worker_id worker_pid connection
                         (si_id (ss_session expected)) in
      let* taken := sr_lift (take_admission_lease prepared) in
      let '(prepared, admission) := taken in
      let* pending_lease := call (λ h, begin_pending h admission worker_pid
        (lh_process_id host) expected (Healthy worker_pid)) in
      run_pending (pending pending_lease prepared) expected worker_id worker_pid
        (al_generation lease) (al_attempt_id lease)
  end.
End Launching.
