(* ===== verification/LaunchSafety.v ===== *)
(** * A launch settles the seat

    Whatever the worker sends and whatever fails on the way, a launch that got
    the seat either hands its transaction to the supervisor's registration or
    gives the seat back. *)

From stdpp Require Import base gmap sets list strings.
From Stdlib Require Import ZArith Lia.
From S2P Require Import Prelude Text DirFs RecoveryTypes LedgerTaxonomy Ledger.
From S2P Require Import LedgerDurability PreviousBoot PreCommit SameBoot.
From S2P Require Import Admission AdminRecovery Protocol Conversation Login.
From S2P Require Import Daemon WorkerRecord Supervisor SupervisorSafety.
From S2P Require Import SupervisorExits SupervisorProtocol Launch.
#[local] Open Scope niralis_scope.

(** ** Leaving the seat alone or freeing it *)

Definition phase_of (s : SupervisorLoopState) : AdmissionPhase :=
  sc_phase (aw_controller (sl_admission s)).

(** The loop supervises no worker before and after, and the admission state is
    as it was or has no login in progress. *)
Definition undisturbed (s s' : SupervisorLoopState) : Prop :=
  sl_children s = [] → sl_children s' = [] ∧
  (sl_admission s' = sl_admission s ∨ phase_of s' = PhaseFree).
#[export] Instance undisturbed_preorder : PreOrder undisturbed.
Proof.
  split; [intros s Hs; auto|]. intros x y z H1 H2 Hx. unfold phase_of in *.
  destruct (H1 Hx) as [Hy E1]. destruct (H2 Hy) as [Hz E2]. split; [done|].
  destruct E2 as [E2|E2]; [|by right]. rewrite E2. done.
Qed.

Lemma undisturbed_same s s' :
  sl_children s' = sl_children s → sl_admission s' = sl_admission s → undisturbed s s'.
Proof. intros E1 E2 Hs. rewrite E1, E2. auto. Qed.

Section Undisturbed.
Context `{SerdeJson PersistentRecoveryRecord} `{SerdeJson PreCommitRuntimeRecord}.
Context (host : SupervisorHost).

Lemma with_durable_undisturbed e m : sr_keeps undisturbed (with_durable e m).
Proof.
  intros s. apply undisturbed_same; [apply with_durable_children|].
  apply with_durable_admission.
Qed.

Lemma record_prepared_scope_undisturbed id pid spid identity nonce :
  sr_keeps undisturbed (record_prepared_scope host id pid spid identity nonce).
Proof.
  intros s. unfold record_prepared_scope.
  destruct (find_entry _ s) as [[i entry]|]; [|done].
  destruct (_ || _); [done|]. destruct (wr_state _); try done.
  destruct (rp_prepare_payload _ _ _ _ _ _) as [payload|].
  - unfold persist_new_record_to.
    pose proof (with_durable_undisturbed PersistentRecoveryUnavailable
      (create (prepared (sh_prepare host) (wr_lifecycle_id (pw_record entry)) pid
         (wr_launcher_pid (pw_record entry)) (wr_requested_username (pw_record entry))
         (wr_session_name (pw_record entry)) previous_vt payload)) s) as Hc.
    by destruct (with_durable _ _ s) as [s1 [[]|e]].
  - intros Hs. rewrite on_admission_eq. unfold quarantine_pending_lifecycle.
    destruct (negb _); cbn; auto.
Qed.

Lemma mark_payload_registered_undisturbed id pid :
  sr_keeps undisturbed (mark_payload_registered host id pid).
Proof.
  intros s. unfold mark_payload_registered.
  destruct (find_entry _ s) as [[i entry]|]; [|done]. destruct (wr_state _); try done.
  etransitivity; [|apply with_durable_undisturbed]. by apply undisturbed_same.
Qed.

Lemma begin_release_undisturbed request : sr_keeps undisturbed (begin_release request).
Proof.
  intros s. unfold begin_release. destruct (find_entry _ s) as [[i entry]|]; [|done].
  destruct (_ && _); [|done]. by apply undisturbed_same.
Qed.

Lemma complete_release_undisturbed token v :
  sr_keeps undisturbed (complete_release host token v).
Proof.
  intros s. unfold complete_release. destruct (find_entry _ s) as [[i entry]|]; [|done].
  destruct v; [|by apply undisturbed_same]. destruct (wr_state _); try done;
    (etransitivity; [|apply with_durable_undisturbed]; by apply undisturbed_same).
Qed.

Lemma reap_idle s : sl_children s = [] → reap_exited_workers host s = s.
Proof. intros Hc. unfold reap_exited_workers. by rewrite Hc. Qed.
End Undisturbed.

(** ** Aborting *)

(** No login is in progress on the seat. *)
Definition given_back (s : SupervisorLoopState) : Prop := phase_of s = PhaseFree.
(** The pre-commit store, where there is one, can be locked and its file
    operations do not fail. *)
Definition sound_store (w : AdmissionWorld) : Prop :=
  match aw_store w with
  | Some (Healthy store) => faultless (ps_fs store)
  | Some Poisoned => False
  | None => True
  end.
(** ... and the binding of a lease, if it has one, is current in it. *)
Definition cancellable (o : option PreCommitRuntimeBinding) (w : AdmissionWorld) : Prop :=
  sound_store w ∧ ∀ b, o = Some b → ∃ store, aw_store w = Some (Healthy store) ∧ pc_live b store.

Section Cancellable.
Context `{SerdeJson PreCommitRuntimeRecord}.
Lemma cancellable_None w : sound_store w → cancellable None w.
Proof. by split. Qed.
Lemma remove_runs o w : cancellable o w → (remove_precommit_runtime o w).2 = Ok ().
Proof.
  intros [Hs Hb]. destruct o as [b|]; [|done]. destruct (Hb b eq_refl) as (store & Hw & Hl).
  unfold sound_store in Hs. unfold remove_precommit_runtime, with_store. rewrite Hw in *.
  pose proof (pc_remove_live b store Hl Hs) as Hr. destruct (pc_remove b store). cbn in Hr.
  by rewrite Hr.
Qed.
(** An operation of the store that makes a binding leaves it cancellable. *)
Lemma with_store_binds (m : PG PreCommitRuntimeBinding) w w' r :
  sr_keeps pc_stays_faultless m → (∀ x y b, m x = (y, Ok b) → pc_live b y) →
  sound_store w → with_store m w = (w', r) →
  sound_store w' ∧ ∀ b, r = Ok b → cancellable (Some b) w'.
Proof.
  intros Hm Hl Hs. unfold with_store, cancellable, sound_store in *.
  destruct (aw_store w) as [[store|]|] eqn:Hw; [|done|intros [= <- <-]; by rewrite Hw].
  specialize (Hm store Hs). destruct (m store) as [store' [b|e]] eqn:Hr; intros [= <- <-]; cbn.
  - split; [done|]. intros b' [= <-]. split; [done|]. intros b' [= <-]. eauto.
  - by split.
Qed.
End Cancellable.

(** The child can be waited for, after a kill if needed. *)
Definition reapable (children : ChildHost) (pid : Z) : bool :=
  match ch_try_wait children pid with
  | Some (Some _) => true
  | Some None => ch_kill children pid
                 && match ch_wait children pid with Some _ => true | None => false end
  | None => false
  end.

Section Abort.
Context `{SerdeJson PersistentRecoveryRecord} `{SerdeJson PreCommitRuntimeRecord}.
Context (host : SupervisorHost).

Lemma cancel_gives_back lease s :
  match lease with
  | RollbackReserved l => matches_reserved l (aw_controller (sl_admission s))
  | RollbackPending l => matches_pending l (aw_controller (sl_admission s))
  end = true →
  cancellable (match lease with
             | RollbackReserved l => al_precommit l
             | RollbackPending l => pl_precommit l
             end) (sl_admission s) →
  given_back (on_admission (cancel lease) s).1.
Proof.
  intros Hm Hr%remove_runs. rewrite on_admission_eq. unfold cancel, given_back, phase_of.
  rewrite Hm. cbn [negb fst]. rewrite sr_bind_eq.
  by destruct (remove_precommit_runtime _ _) as [w1 [[]|e]].
Qed.

(** The operations after the seat entered recovery leave the phase alone. *)
Definition phase_kept (s s' : SupervisorLoopState) : Prop := phase_of s' = phase_of s.
#[local] Instance phase_kept_preorder : PreOrder phase_kept.
Proof. split; [done|]. intros x y z. unfold phase_kept. congruence. Qed.

Lemma with_durable_phase e m : sr_keeps phase_kept (with_durable e m).
Proof. intros s. unfold phase_kept, phase_of. by rewrite with_durable_admission. Qed.
Lemma release_recovered_phase r :
  sr_keeps phase_kept (on_admission (release_after_a3_finalization r)).
Proof.
  intros s. rewrite on_admission_eq. unfold release_after_a3_finalization.
  by destruct (negb _).
Qed.
Lemma quarantine_recovering_phase r st e :
  sr_keeps phase_kept (on_admission (enter_quarantine_from_recovery r st e)).
Proof.
  intros s. rewrite on_admission_eq. unfold enter_quarantine_from_recovery.
  by destruct (negb _).
Qed.

Lemma quarantine_tail_phase receipt stage reason r :
  sr_keeps phase_kept (on_admission (enter_quarantine_from_recovery receipt stage reason) ;;;
    sr_modify (push_quarantined r) ;;; sr_fail WorkerRecoveryIncomplete (A := ())).
Proof.
  apply keeps_bind; [apply _|apply quarantine_recovering_phase|intros _].
  apply keeps_bind; [apply _|by intros s|intros _]. apply keeps_fail, _.
Qed.

Lemma recover_payload_entry_phase entry status receipt :
  sr_keeps phase_kept (recover_payload_entry host entry status receipt).
Proof.
  unfold recover_payload_entry.
  apply keeps_bind; [apply _|intros s; apply with_durable_phase|intros _].
  destruct (recover _ _ _) as [record []].
  - apply keeps_bind; [apply _|apply with_durable_phase|intros _].
    apply release_recovered_phase.
  - apply keeps_bind; [apply _| |intros _; apply quarantine_tail_phase].
    intros s. destruct reason; first [apply with_durable_phase|done].
Qed.

Lemma recover_pre_payload_entry_phase entry receipt :
  sr_keeps phase_kept (recover_pre_payload_entry host entry receipt).
Proof.
  unfold recover_pre_payload_entry, quarantine_pre_payload.
  destruct (wr_state _); try apply quarantine_tail_phase.
  destruct (rp_recover_pre_payload _ _ _ _ _); [|apply quarantine_tail_phase].
  apply release_recovered_phase.
Qed.

Lemma pending_recovery_phase lease id phase reason w :
  matches_pending lease (aw_controller w) = true → id = pl_lifecycle_id lease →
  ∃ w' receipt, pending_recovery id phase reason w = (w', Ok receipt) ∧
    sc_phase (aw_controller w') = PhaseFree.
Proof.
  intros Hm ->. apply matches_pending_true in Hm as (Hp & _).
  unfold pending_recovery, pending_is. rewrite Hp, str_eqb_refl. cbn. eauto.
Qed.
End Abort.

(** ** Aborting gives the seat back *)

Section AbortGivesBack.
Context `{SerdeJson PersistentRecoveryRecord} `{SerdeJson PreCommitRuntimeRecord}.
Context (host : SupervisorHost).

Lemma reap_pending_Ok child s :
  (∀ pid, reapable (sh_children host) pid = true) → child ≠ Poisoned →
  ∃ s' status, reap_pending_worker host child s = (s', Ok status) ∧
    sl_admission s' = sl_admission s ∧ sl_children s' = sl_children s.
Proof.
  intros Hr Hp. destruct child as [pid|]; [|done]. specialize (Hr pid).
  unfold reapable in Hr. unfold reap_pending_worker.
  destruct (ch_try_wait _ _) as [[status|]|]; [by eauto| |done].
  destruct (ch_kill _ _); [|done]. cbn in Hr.
  destruct (ch_wait _ _) as [status|]; [|done]. by eauto.
Qed.

Lemma abort_entry_gives_back lease clean status entry s :
  (∀ pid, reapable (sh_children host) pid = true) → pw_child entry ≠ Poisoned →
  matches_pending lease (aw_controller (sl_admission s)) = true →
  cancellable (pl_precommit lease) (sl_admission s) →
  wr_lifecycle_id (pw_record entry) = pl_lifecycle_id lease →
  given_back (abort_entry host lease clean status entry s).1.
Proof.
  intros Hr Hch Hm Hrem Hid. unfold abort_entry. rewrite sr_bind_eq.
  set (m := match status with
            | Some status => sr_ret status
            | None => reap_pending_worker host (pw_child entry)
            end : SL ExitStatus).
  assert (∃ s1 st, m s = (s1, Ok st) ∧ sl_admission s1 = sl_admission s)
    as (s1 & st & -> & Ha).
  { subst m. destruct status; [by eexists s, _|].
    destruct (reap_pending_Ok (pw_child entry) s Hr Hch) as (s1 & st & ? & ? & _). eauto. }
  rewrite <- Ha in Hm, Hrem. clear m. destruct (clean && _).
  { rewrite sr_bind_eq. unfold ignore at 1 2. cbn [fst]. unfold persist_resolve.
    apply cancel_gives_back; by rewrite with_durable_admission. }
  destruct (negb _).
  - destruct (mark_worker_exited_unexpectedly _ _) as [record classification] eqn:Hmk.
    pose proof (marked_lifecycle (pw_record entry) st) as Hl. rewrite Hmk in Hl.
    cbn [fst] in *. rewrite sr_bind_eq, on_admission_eq.
    destruct (pending_recovery_phase lease (wr_lifecycle_id record) (phase_name record)
      classification _ Hm) as (w' & receipt & -> & Hp); [congruence|].
    unfold given_back. cbn [fst snd]. by rewrite recover_payload_entry_phase.
  - rewrite sr_bind_eq, on_admission_eq.
    destruct (pending_recovery_phase lease (wr_lifecycle_id (pw_record entry))
      (phase_name (pw_record entry)) UnexpectedExitBeforeStarted _ Hm)
      as (w' & receipt & -> & Hp); [done|].
    unfold given_back. cbn [fst snd]. by rewrite recover_pre_payload_entry_phase.
Qed.

(** Every pending entry has a healthy child handle. *)
Definition healthy_entries (s : SupervisorLoopState) : Prop :=
  Forall (λ e, pw_child e ≠ Poisoned) (sl_pending s).

Lemma abort_pending_gives_back lease clean status s :
  (∀ pid, reapable (sh_children host) pid = true) → healthy_entries s →
  matches_pending lease (aw_controller (sl_admission s)) = true ∧
    cancellable (pl_precommit lease) (sl_admission s) ∨ given_back s →
  given_back (abort_pending host lease clean status s).1.
Proof.
  intros Hr Hh Hm. unfold abort_pending.
  destruct (matches_pending lease _) eqn:Hml; cbn [negb].
  2: { by destruct Hm as [[]|]. }
  assert (cancellable (pl_precommit lease) (sl_admission s)) as Hrem.
  { destruct Hm as [[]|Hf]; [done|]. unfold given_back, phase_of in Hf.
    apply matches_pending_true in Hml as (Hp & _). congruence. }
  destruct (find_entry _ s) as [[i e]|] eqn:Hf; [|by apply cancel_gives_back].
  apply list_find_Some in Hf as (Hi & He & _). apply str_eqb_true in He.
  destruct (swap_remove_spec _ _ _ Hi) as (rest & -> & _).
  apply abort_entry_gives_back; try done.
  unfold healthy_entries in Hh. rewrite Forall_forall in Hh. apply Hh.
  by eapply list_elem_of_lookup_2.
Qed.
End AbortGivesBack.

(** ** The launch *)

(** Every call reaches the loop and is answered in time, and the loop can reap
    the workers. *)
Record responsive (host : LaunchHost) : Prop := {
  rs_delivered : ∀ n, cl_delivered (lh_calls host n) = true;
  rs_answered : ∀ n, cl_answered (lh_calls host n) = true;
  rs_reapable : ∀ n pid,
    reapable (sh_children (cl_host (lh_calls host n))) pid = true;
}.

Section LaunchFacts.
Context `{SerdeJson PersistentRecoveryRecord} `{SerdeJson PreCommitRuntimeRecord}.
Context `{SerdeJson PamPromptResponse}.
Context (host : LaunchHost) (Hresp : responsive host).

Lemma call_eq {A} (f : SupervisorHost → SL A) s :
  sl_children (f (cl_host (lh_calls host (ln_calls s))) (ln_loop s)).1 = [] →
  call host f s =
    (after_call (f (cl_host (lh_calls host (ln_calls s))) (ln_loop s)).1 s,
     (f (cl_host (lh_calls host (ln_calls s))) (ln_loop s)).2).
Proof.
  intros Hc. unfold call. rewrite (rs_delivered _ Hresp), (rs_answered _ Hresp).
  destruct (f _ _) as [l r]. cbn [fst] in *. by rewrite reap_idle.
Qed.

(** The launch's own steps: the loop is undisturbed, the entries stay healthy
    and the transaction stays with the guard. *)
Definition steady (s s' : Launch) : Prop :=
  undisturbed (ln_loop s) (ln_loop s') ∧
  (healthy_entries (ln_loop s) → healthy_entries (ln_loop s')) ∧
  ln_taken s' = ln_taken s.
#[local] Instance steady_preorder : PreOrder steady.
Proof.
  split; [by split|]. intros x y z (U1 & P1 & T1) (U2 & P2 & T2).
  split; [by etransitivity|]. split; [auto|congruence].
Qed.

Lemma healthy_put i entry e s :
  sl_pending s !! i = Some entry → pw_child e = pw_child entry →
  healthy_entries s → healthy_entries (put_entry i e s).
Proof.
  intros Hi He Hh. unfold healthy_entries, put_entry in *. cbn.
  apply Forall_insert; [done|]. rewrite He. by eapply Forall_lookup_1 in Hh.
Qed.
Lemma healthy_durable e m s : healthy_entries s → healthy_entries (with_durable e m s).1.
Proof.
  unfold healthy_entries, with_durable. destruct (sl_ledger s) as [[l|]|]; [|done..].
  by destruct (m l).
Qed.
Lemma find_entry_lookup f s i entry :
  find_entry f s = Some (i, entry) → sl_pending s !! i = Some entry.
Proof. by intros (? & _)%list_find_Some. Qed.

(** An idle loop stays idle, so the steps compose. *)
Definition launch_keeps {A} (m : LN A) : Prop :=
  ∀ s, sl_children (ln_loop s) = [] → steady s (m s).1.

Lemma call_steady {A} (f : SupervisorHost → SL A) :
  (∀ h, sr_keeps undisturbed (f h)) →
  (∀ h s, healthy_entries s → healthy_entries (f h s).1) →
  launch_keeps (call host f).
Proof.
  intros Hu Hh s Hc. destruct (Hu (cl_host (lh_calls host (ln_calls s))) (ln_loop s) Hc)
    as [Hc' _]. rewrite (call_eq f s Hc'). split; [apply Hu|]. split; [apply Hh|done].
Qed.

Lemma record_prepared_scope_healthy h id pid spid identity nonce s :
  healthy_entries s → healthy_entries (record_prepared_scope h id pid spid identity nonce s).1.
Proof.
  intros Hh. unfold record_prepared_scope.
  destruct (find_entry _ s) as [[i entry]|] eqn:Hf; [|done].
  apply find_entry_lookup in Hf. destruct (_ || _); [done|].
  destruct (wr_state _); try done.
  destruct (rp_prepare_payload _ _ _ _ _ _) as [payload|].
  - unfold persist_new_record_to, with_durable.
    destruct (sl_ledger s) as [[l|]|]; [destruct (create _ l) as [l' [[]|e]]|..];
      by eapply healthy_put.
  - rewrite on_admission_eq. by eapply (healthy_put i entry).
Qed.
Lemma mark_payload_registered_healthy h id pid s :
  healthy_entries s → healthy_entries (mark_payload_registered h id pid s).1.
Proof.
  intros Hh. unfold mark_payload_registered.
  destruct (find_entry _ s) as [[i entry]|] eqn:Hf; [|done].
  apply find_entry_lookup in Hf. destruct (wr_state _); try done.
  apply healthy_durable. by eapply healthy_put.
Qed.
Lemma begin_release_healthy request s :
  healthy_entries s → healthy_entries (begin_release request s).1.
Proof.
  intros Hh. unfold begin_release.
  destruct (find_entry _ s) as [[i entry]|] eqn:Hf; [|done].
  apply find_entry_lookup in Hf. destruct (_ && _); [|done]. by eapply healthy_put.
Qed.
Lemma complete_release_healthy h token v s :
  healthy_entries s → healthy_entries (complete_release h token v s).1.
Proof.
  intros Hh. unfold complete_release.
  destruct (find_entry _ s) as [[i entry]|] eqn:Hf; [|done].
  apply find_entry_lookup in Hf. destruct v; [|by eapply healthy_put].
  destruct (wr_state _); try done; apply healthy_durable; by eapply healthy_put.
Qed.

Lemma launch_keeps_bind {A B} (m : LN A) (k : A → LN B) :
  launch_keeps m → (∀ a, launch_keeps (k a)) → launch_keeps (sr_bind m k).
Proof.
  intros Hm Hk s Hc. specialize (Hm s Hc). rewrite sr_bind_eq.
  destruct (m s) as [s1 [a|e]]; [|done]. cbn [fst] in Hm.
  transitivity s1; [done|]. apply Hk. by destruct Hm as (Hu & _); apply Hu.
Qed.
Lemma launch_keeps_same {A} (m : LN A) :
  (∀ s, ln_loop (m s).1 = ln_loop s ∧ ln_taken (m s).1 = ln_taken s) → launch_keeps m.
Proof.
  intros Hm s Hc. destruct (Hm s) as [E1 E2]. unfold steady. rewrite E1, E2.
  split; [apply reflexivity|auto].
Qed.

Section Events.
Context (worker_id : string) (worker_pid generation attempt_id : Z).

Lemma on_event_keeps e phase control :
  launch_keeps (on_event host worker_id worker_pid generation attempt_id e phase control).
Proof.
  unfold on_event. destruct (le_response e) as [response|]; [|by apply launch_keeps_same].
  destruct (negb _); [by apply launch_keeps_same|].
  destruct (we_message response); try by apply launch_keeps_same.
  - apply launch_keeps_same. intros s. unfold on_pam_prompt.
    destruct (negb _); [done|]. by destruct (forward_pam_prompt _ _ _ _ _ _).
  - unfold on_preparing. destruct (_ && _); by apply launch_keeps_same.
  - unfold on_scope_prepared. destruct (_ || _); [by apply launch_keeps_same|].
    apply launch_keeps_bind; [apply call_steady|intros _].
    { intros h. apply record_prepared_scope_undisturbed. }
    { intros h s. apply record_prepared_scope_healthy. }
    destruct (le_control_sent e); [|by apply launch_keeps_same].
    apply launch_keeps_bind; [by apply launch_keeps_same|intros _].
    apply launch_keeps_bind; [apply call_steady|intros _; by apply launch_keeps_same].
    { intros h. apply mark_payload_registered_undisturbed. }
    { intros h s. apply mark_payload_registered_healthy. }
  - unfold on_release_ready. destruct phase; try by apply launch_keeps_same.
    destruct (negb _); [by apply launch_keeps_same|].
    destruct control as [transaction|]; [|by apply launch_keeps_same].
    destruct (release_request _ _ _ _ _ _) as [nonce|]; [|by apply launch_keeps_same].
    apply launch_keeps_bind; [apply call_steady|intros token].
    { intros h. apply begin_release_undisturbed. }
    { intros h s. apply begin_release_healthy. }
    apply launch_keeps_bind; [apply call_steady|intros _].
    { intros h. apply complete_release_undisturbed. }
    { intros h s. apply complete_release_healthy. }
    destruct (le_control_sent e); by apply launch_keeps_same.
Qed.

Lemma wait_launch_response_keeps events phase control :
  launch_keeps (wait_launch_response host worker_id worker_pid generation attempt_id events
                  phase control).
Proof.
  revert phase control. induction events as [|e events IH]; intros phase control;
    [by apply launch_keeps_same|].
  cbn. apply launch_keeps_bind; [apply on_event_keeps|].
  intros [phase' control'|phase' response]; [apply IH|by apply launch_keeps_same].
Qed.
End Events.

(** ** The guard *)

(** The guard's lease holds the seat of an idle loop, or the seat was taken
    from it. *)
Definition guarded (lease : PendingLifecycleLease) (s : SupervisorLoopState) : Prop :=
  sl_children s = [] ∧ healthy_entries s ∧
  (matches_pending lease (aw_controller (sl_admission s)) = true ∧
     cancellable (pl_precommit lease) (sl_admission s) ∨ given_back s).

Lemma guarded_steady lease s s' :
  steady s s' → guarded lease (ln_loop s) → guarded lease (ln_loop s').
Proof.
  intros (Hu & Hh & _) (Hc & He & Hm). destruct (Hu Hc) as [Hc' Hp].
  split; [done|]. split; [auto|]. destruct Hp as [Hp|Hp]; [|by right].
  unfold given_back, phase_of in *. by rewrite Hp.
Qed.

Lemma abort_guard_gives_back guard lease s :
  pd_pending_lease (pg_transaction guard) = Some lease → guarded lease (ln_loop s) →
  given_back (ln_loop (abort_guard host guard s).1).
Proof.
  intros Hl (Hc & Hh & Hm). unfold abort_guard. rewrite sr_bind_eq. cbn. rewrite Hl. cbn.
  rewrite call_eq.
  - cbn. apply abort_pending_gives_back; [|done|done]. apply rs_reapable, Hresp.
  - rewrite <- Hc. apply abort_pending_calm.
Qed.

Lemma drop_guard_gives_back {A} guard lease e s :
  pd_pending_lease (pg_transaction guard) = Some lease → guarded lease (ln_loop s) →
  given_back (ln_loop (drop_guard host (A := A) guard e s).1).
Proof. apply abort_guard_gives_back. Qed.

(** ** The last step *)

Lemma call_taken {A} (f : SupervisorHost → SL A) s :
  ln_taken (call host f s).1 = ln_taken s.
Proof. unfold call. destruct (cl_delivered _); [|done]. by destruct (f _ _). Qed.

Lemma finish_started_settles guard lease response phase expected id g a s :
  pd_pending_lease (pg_transaction guard) = Some lease → guarded lease (ln_loop s) →
  let s' := (finish_started host guard response phase expected id g a s).1 in
  ln_taken s' = true ∨ given_back (ln_loop s').
Proof.
  intros Hl Hg. cbv zeta. unfold finish_started.
  destruct (lh_writer host); [|right; by eapply drop_guard_gives_back].
  destruct response; try (right; by eapply drop_guard_gives_back).
  destruct (_ || _); [right; by eapply drop_guard_gives_back|].
  destruct phase; try (right; by eapply drop_guard_gives_back).
  destruct (negb _); [right; by eapply drop_guard_gives_back|].
  destruct (lh_alive host) as [[]|]; try (right; by eapply drop_guard_gives_back).
  destruct (consume_authenticated_conversation _ _) as [transaction' [[]|e]] eqn:Hc.
  - left. rewrite sr_bind_eq. cbn. rewrite sr_bind_eq. unfold register.
    destruct (lh_register_wait host) as [[|]|]; try done.
    rewrite sr_bind_eq. destruct (call _ _ _) as [s1 [[]|e]] eqn:Hcall;
      pose proof (call_taken (λ h, register_running h (mkRegistration transaction' id
        expected session_pid session_pgid id logind_session_id identity
        registration_nonce)) (take_transaction s)) as Ht;
      rewrite Hcall in Ht; exact Ht.
  - right. eapply drop_guard_gives_back; [|done]. cbn.
    unfold consume_authenticated_conversation in Hc. by injection Hc as <- _.
Qed.

Lemma finish_ended_settles guard lease response expected s :
  pd_pending_lease (pg_transaction guard) = Some lease → guarded lease (ln_loop s) →
  given_back (ln_loop (finish_ended host guard response expected s).1).
Proof.
  intros Hl Hg. unfold finish_ended.
  assert (∀ A ok err, given_back (ln_loop (complete_with host (A := A) guard ok err s).1))
    as Hcw.
  { intros A ok err. unfold complete_with.
    pose proof (abort_guard_gives_back guard lease s Hl Hg) as Ha.
    by destruct (abort_guard _ _ s). }
  destruct response as [response|]; [|apply Hcw].
  destruct (lh_wait_child host) as [status|]; [|apply Hcw].
  assert (given_back (ln_loop (match status with
    | None => drop_guard host guard WorkerProtocolFailed
    | Some status =>
        abort_guard host (mkGuard (pg_transaction guard) true (Some status)) ;;;
        let* session := sr_lift (map_response response status expected) in
        sr_ret (session, "completed"%string)
    end s).1)) as Hend.
  { destruct status as [status|]; [|by eapply drop_guard_gives_back].
    pose proof (abort_guard_gives_back (mkGuard (pg_transaction guard) true (Some status))
      lease s Hl Hg) as Ha. rewrite sr_bind_eq.
    destruct (abort_guard _ _ s) as [s1 [[]|e]]; [|exact Ha].
    rewrite sr_bind_eq. by destruct (map_response _ _ _). }
  destruct (lh_writer host) as [|[]]; try apply Hcw; exact Hend.
Qed.

Lemma run_pending_settles transaction lease expected id pid g a s :
  pd_pending_lease transaction = Some lease → guarded lease (ln_loop s) →
  let s' := (run_pending host transaction expected id pid g a s).1 in
  ln_taken s' = true ∨ given_back (ln_loop s').
Proof.
  intros Hl Hg. cbv zeta. unfold run_pending.
  pose proof (wait_launch_response_keeps id pid g a (lh_events host) LaunchSpawned None
    (set_relay (mkRelay (pd_conversation transaction) []) s)) as Hk.
  destruct Hg as (Hc & Hrest). specialize (Hk Hc).
  assert (guarded lease (ln_loop (set_relay (mkRelay (pd_conversation transaction) []) s)))
    as Hg by done.
  destruct (wait_launch_response _ _ _ _ _ _ _ _ _) as [s1 [[[response|e] phase]|e]];
    cbn [fst] in Hk; apply (guarded_steady lease) in Hk; try done.
  - destruct (is_started _); [by eapply finish_started_settles|].
    right. by eapply finish_ended_settles.
  - right. by eapply finish_ended_settles.
  - right. by eapply drop_guard_gives_back.
Qed.

(** ** From the reservation to the pending worker *)

(** The lease holds the seat of an idle loop. *)
Definition reserved (lease : AdmissionLease) (s : SupervisorLoopState) : Prop :=
  sl_children s = [] ∧ healthy_entries s ∧
  matches_reserved lease (aw_controller (sl_admission s)) = true ∧
  cancellable (al_precommit lease) (sl_admission s).

Lemma reserved_world lease l s w :
  reserved lease (ln_loop s) → strip l = strip lease →
  aw_controller w = aw_controller (sl_admission (ln_loop s)) → cancellable (al_precommit l) w →
  reserved l (ln_loop (set_loop_admission w s)).
Proof.
  intros (Hc & Hh & Hm & _) Hs E Hw. split_and!; [done|done| |done]. cbn. rewrite E.
  by rewrite (matches_reserved_strip l lease).
Qed.

Lemma cancel_reserved_gives_back lease s :
  reserved lease (ln_loop s) → given_back (ln_loop (cancel_reserved host lease s)).
Proof.
  intros (Hc & Hh & Hm & Hw). unfold cancel_reserved, cancel_admission.
  rewrite call_eq by by rewrite on_admission_eq. by apply cancel_gives_back.
Qed.

Lemma give_back_spec {A} t l e s s' (r : result A SessionError) :
  lt_lease t = Some l → reserved l (ln_loop s) →
  give_back host (take_lease t) e s = (s', r) → r = Err e ∧ given_back (ln_loop s').
Proof.
  intros Hl Hr. unfold give_back. cbn. rewrite Hl. intros [= <- <-].
  split; [done|]. by apply cancel_reserved_gives_back.
Qed.

Lemma stripped_lease t lease :
  strip <$> lt_lease t = Some (strip lease) →
  ∃ l, lt_lease t = Some l ∧ strip l = strip lease.
Proof.
  destruct (lt_lease t) as [l|]; [|done]. cbn. intros Hs. exists l.
  split; [done|]. congruence.
Qed.

Lemma attach_backend_Err lease greeter sel dl channel w w' e t :
  attach_backend (lh_proc host) channel (from_admission lease greeter sel dl) w
    = (w', Err (e, t)) →
  aw_controller w' = aw_controller w ∧ ∃ l, lt_lease t = Some l ∧ strip l = strip lease.
Proof.
  unfold attach_backend. destruct (_ || _).
  { intros; simplify_eq. cbn. eauto. }
  destruct (update_lease _ _ _ _ _ w) as [[w1 t1] [[]|?]] eqn:HU; [done|].
  apply update_lease_spec in HU as (E & _ & Es). intros [= <- <- <-].
  split; [done|]. by apply stripped_lease.
Qed.

Lemma authentication_Err lease channel greeter sel dl now b w w' e b' :
  carries lease channel greeter sel dl b →
  authentication (lh_proc host) now b w = (w', Err (e, b')) →
  aw_controller w' = aw_controller w ∧
  ∃ l, lt_lease (ob_transaction b') = Some l ∧ strip l = strip lease.
Proof.
  intros [Hl _ _]. unfold authentication.
  destruct (_ || _); [intros [= <- <- <-]; by eauto using stripped_lease|].
  destruct (update_lease _ _ _ _ _ w) as [[w1 t1] [[]|?]] eqn:HU; [done|].
  apply update_lease_spec in HU as (E & _ & Es). intros [= <- <- <-].
  split; [done|]. apply stripped_lease. cbn. by rewrite Es.
Qed.

(** The lease that a transaction carries stays cancellable through its stages. *)
Definition tx_cancellable (t : LoginTransaction) (w : AdmissionWorld) : Prop :=
  sound_store w ∧ ∀ l, lt_lease t = Some l → cancellable (al_precommit l) w.
Lemma update_lease_cancellable stage wid pid t w w' t' r :
  tx_cancellable t w → update_lease (lh_proc host) stage wid pid t w = (w', t', r) →
  tx_cancellable t' w'.
Proof.
  intros [Hs Ht]. unfold update_lease. destruct (lt_lease t) as [lease|] eqn:Hl;
    [|intros [= <- <- <-]; split; [done|by rewrite Hl]].
  specialize (Ht lease eq_refl). unfold update_precommit_runtime.
  destruct (al_precommit lease) as [b|] eqn:Hb.
  2: { intros [= <- <- <-]. split; [done|]. cbn. intros l [= <-]. by rewrite Hb. }
  destruct (with_store _ w) as [w1 r1] eqn:HW.
  apply with_store_binds in HW as [Hs1 Hb1]; [|apply pc_update_faultless|intros x y b'; apply pc_update_live|done].
  destruct r1 as [b'|e]; intros [= <- <- <-]; (split; [done|]); cbn; intros l [= <-]; cbn;
    [by apply Hb1|by apply cancellable_None].
Qed.
Lemma attach_backend_cancellable channel t w w' r :
  tx_cancellable t w → attach_backend (lh_proc host) channel t w = (w', r) →
  match r with Ok b => tx_cancellable (ob_transaction b) w' | Err (_, t) => tx_cancellable t w' end.
Proof.
  intros Ht. unfold attach_backend. destruct (_ || _); [by intros [= <- <-]|].
  destruct (update_lease _ _ _ _ _ w) as [[w1 t1] r1] eqn:HU.
  apply (update_lease_cancellable _ _ _ _ _ _ _ _ Ht) in HU.
  destruct r1; by intros [= <- <-].
Qed.
Lemma authentication_cancellable now b w w' r :
  tx_cancellable (ob_transaction b) w → authentication (lh_proc host) now b w = (w', r) →
  match r with
  | Ok b => tx_cancellable (ob_transaction b) w'
  | Err (_, b) => tx_cancellable (ob_transaction b) w'
  end.
Proof.
  intros Ht. unfold authentication. destruct (_ || _); [by intros [= <- <-]|].
  destruct (update_lease _ _ _ _ _ w) as [[w1 t1] r1] eqn:HU.
  apply (update_lease_cancellable _ _ _ _ _ _ _ _ Ht) in HU.
  destruct r1; by intros [= <- <-].
Qed.

Lemma prepare_transaction_spec lease id pid connection sel s s' r :
  reserved lease (ln_loop s) →
  prepare_transaction host lease id pid connection sel s = (s', r) →
  match r with
  | Err _ => given_back (ln_loop s')
  | Ok prepared => ln_calls s' = ln_calls s ∧
      ∃ l, lt_lease (ob_transaction prepared) = Some l ∧ reserved l (ln_loop s')
  end.
Proof.
  intros Hr. unfold prepare_transaction.
  assert (tx_cancellable (from_admission lease (greeter_identity connection id) sel
            (lh_deadline host)) (sl_admission (ln_loop s))) as Ht.
  { destruct Hr as (_ & _ & _ & Hw). split; [apply Hw|]. cbn. by intros l [= <-]. }
  destruct (attach_backend _ _ _ _) as [w1 [b|[e t]]] eqn:HA;
    apply (attach_backend_cancellable _ _ _ _ _ Ht) in HA as Ht1.
  2: { apply attach_backend_Err in HA as (E & l & Hl & Hs). intros Hg.
       eapply give_back_spec in Hg as [-> Hg]; [done|exact Hl|].
       apply (reserved_world _ _ _ _ Hr Hs E). by apply Ht1. }
  apply attach_backend_carries in HA as (E1 & _ & HC).
  destruct (authentication _ _ b w1) as [w2 [p|[e b']]] eqn:HAu;
    apply (authentication_cancellable _ _ _ _ _ Ht1) in HAu as Ht2.
  2: { eapply authentication_Err in HAu as (E & l & Hl & Hs); [|exact HC].
       rewrite E1 in E. intros Hg.
       eapply give_back_spec in Hg as [-> Hg]; [done|exact Hl|].
       apply (reserved_world _ _ _ _ Hr Hs E). by apply Ht2. }
  eapply authentication_carries in HAu as (E2 & HC2); [|exact HC].
  destruct (authenticated _ p w2) as [w3 a] eqn:H3. unfold authenticated in H3.
  destruct (update_lease _ _ _ _ _ w2) as [[w2' t2] r2] eqn:HU2. injection H3 as <- <-.
  apply (update_lease_cancellable _ _ _ _ _ _ _ _ Ht2) in HU2 as Ht3.
  eapply (carries_update _ _ _ _ _ _ _ _ _ _ _ _ _ _ TxAuthenticated "authenticated" 1)
    in HU2 as [E3 HC3]; [|exact HC2].
  destruct (prepare _ _ w2') as [w4 q] eqn:H4. unfold prepare in H4.
  destruct (update_lease _ _ _ _ _ w2') as [[w3' t3] r3] eqn:HU3. injection H4 as <- <-.
  eapply update_lease_cancellable in HU3 as Ht4; [|exact Ht3].
  eapply (carries_update _ _ _ _ _ _ _ _ _ _ _ _ _ _ TxPrepared "prepared" 2)
    in HU3 as [E4 HC4]; [|exact HC3].
  match type of HC4 with carries _ _ _ _ _ ?x => set (q := x) in * end.
  destruct HC4 as [Hl _ _]. destruct (lt_lease (ob_transaction q)) as [l|] eqn:Hq; [|done].
  cbn in Hl. injection Hl as Hl.
  assert (reserved l (ln_loop (set_loop_admission w3' s))) as Hr'.
  { apply (reserved_world lease); [done| |congruence|by apply Ht4]. unfold strip. congruence. }
  destruct (permit_validate_expected _ _ _).
  - intros; simplify_eq. eauto.
  - intros Hg. by eapply give_back_spec in Hg as [-> Hg].
Qed.

Lemma begin_pending_spec h lease pid launcher session child s s' r :
  child ≠ Poisoned → reserved lease s →
  begin_pending h lease pid launcher session child s = (s', r) →
  sl_children s' = [] ∧
  match r with Ok pl => guarded pl s' | Err _ => given_back s' end.
Proof.
  intros Hch (Hc & Hh & Hm & Hw) Hb. split.
  { assert (calm s (begin_pending h lease pid launcher session child s).1) as [_ E]
      by apply begin_pending_calm. rewrite Hb in E. cbn [fst] in E. by rewrite E. }
  revert Hb. unfold begin_pending.
  assert (given_back (on_admission (cancel (RollbackReserved lease)) s).1) as Hgb
    by by apply cancel_gives_back.
  destruct (_ || _ || _); [intros; by simplify_eq|].
  rewrite on_admission_eq. unfold promote.
  destruct (_ || _) eqn:Hg; cbn [fst snd].
  - intros; simplify_eq. rewrite on_admission_eq in Hgb |- *. exact Hgb.
  - cbn. intros [= <- <-]. split; [done|]. split.
    + unfold healthy_entries in *. cbn. apply Forall_app. by split; [|constructor].
    + left. cbn. split; [|exact Hw]. apply matches_reserved_true in Hm as (_ & Hs & Hgen).
      unfold matches_pending, token_matches. cbn. rewrite Hs, Hgen.
      by rewrite !str_eqb_refl, !Z.eqb_refl.
Qed.

Lemma loop_reserve_seat_Ok h id s s' lease :
  seat_inv s → healthy_entries s → sound_store (sl_admission s) →
  loop_reserve_seat h id s = (s', Ok lease) → reserved lease s'.
Proof.
  intros [_ Hs] Hh Hst. unfold loop_reserve_seat. rewrite on_admission_eq. unfold reserve_seat.
  destruct (negb (is_free _)) eqn:Hf; [done|]. bool_facts.
  assert (sl_children s = []) as Hc.
  { destruct (sl_children s) as [|worker [|]]; [done| |done].
    apply matches_running_true in Hs as (Hl & _). unfold is_free in Hf. by rewrite Hl in Hf. }
  destruct (rp_capture_previous_vt _ _) as [vt|]; [|done].
  rewrite sr_bind_eq. destruct (reserve _ _ _ _) as [w1 [lease1|e]] eqn:HR; [|done].
  assert (matches_reserved lease1 (aw_controller w1) = true) as Hm.
  { unfold reserve in HR. destruct (_ || _) in HR; [done|]. injection HR as <- <-.
    unfold matches_reserved, token_matches. cbn. by rewrite !str_eqb_refl, !Z.eqb_refl. }
  assert (sound_store w1) as Hst1.
  { unfold reserve in HR. destruct (_ || _) in HR; [done|]. by injection HR as <- _. }
  assert (al_precommit lease1 = None) as Hn.
  { unfold reserve in HR. destruct (_ || _) in HR; [done|]. by injection HR as _ <-. }
  destruct (aw_store w1).
  2: { intros [= <- <-]. split_and!; [done..|]. rewrite Hn. by apply cancellable_None. }
  rewrite sr_bind_eq.
  pose proof (with_store_controller (create_reserved (sh_boot h) id (al_attempt_id lease1)
    (al_seat lease1) (al_generation lease1)) w1) as E.
  destruct (with_store _ w1) as [w2 r] eqn:HW. cbn [fst] in E.
  apply with_store_binds in HW as [_ Hb];
    [|apply create_reserved_faultless|intros x y b; apply create_reserved_live|done].
  destruct r as [b|e]; [|done].
  unfold attach_precommit_runtime. destruct (negb _); [done|].
  cbn. intros [= <- <-]. split_and!; [done|done| |by apply Hb]. cbn. by rewrite E.
Qed.
End LaunchFacts.

(** C3. A launch that was granted the seat settles it.  Whatever the worker
    sends, in whatever order, and whatever the reader, the writer, the control
    channel, the PAM transport, the clock, the ledger, systemd and logind
    answer: when the launch returns, either its transaction has been handed to
    the registration, or no login is in progress on the seat any more.  The loop
    is in a state that satisfies its invariant ([seat_inv], which every round
    keeps), and three things are assumed: every call of the supervisor is delivered and answered
    in time and the loop can reap its workers ([responsive]); no pending entry
    has a poisoned child handle; and the pre-commit store, where one is
    installed, can be locked and its file operations do not fail
    ([sound_store]).  Without the last one a refused removal keeps the seat. *)
Theorem launch_settles_seat `{SerdeJson PersistentRecoveryRecord}
    `{SerdeJson PreCommitRuntimeRecord} `{SerdeJson PamPromptResponse}
    host expected connection id lease s s1 :
  responsive host → seat_inv (ln_loop s) → healthy_entries (ln_loop s) →
  sound_store (sl_admission (ln_loop s)) →
  lh_endpoint host = Ok id →
  call host (λ h, loop_reserve_seat h id) s = (s1, Ok lease) →
  let s' := (start_pam_worker host expected connection s).1 in
  ln_taken s' = true ∨ phase_of (ln_loop s') = PhaseFree.
Proof.
  intros Hresp Hinv Hh Hst Hid Hcall. fold (given_back (ln_loop (start_pam_worker host expected connection s).1)). cbv zeta. unfold start_pam_worker.
  rewrite sr_bind_eq, Hid. unfold sr_lift. cbn beta iota.
  rewrite sr_bind_eq, Hcall.
  assert (reserved lease (ln_loop s1)) as Hr.
  { revert Hcall. unfold call. rewrite (rs_delivered _ Hresp), (rs_answered _ Hresp).
    destruct (loop_reserve_seat _ _ _) as [l r] eqn:HL. intros [= <- ->].
    apply loop_reserve_seat_Ok in HL as HR; [|done..]. cbn.
    rewrite reap_idle; [done|apply HR]. }
  destruct (lh_spawn host) as [pid|e]; [|right; by apply cancel_reserved_gives_back].
  rewrite sr_bind_eq. destruct (prepare_transaction _ _ _ _ _ _ s1) as [s2 [prep|e]] eqn:HP;
    eapply prepare_transaction_spec in HP; try done; [|by right].
  destruct HP as (_ & l & Hl & Hr2).
  rewrite sr_bind_eq. unfold take_admission_lease, take_lease. rewrite Hl.
  cbn [ok_or]. rewrite sr_bind_eq.
  destruct (begin_pending (cl_host (lh_calls host (ln_calls s2))) l pid (lh_process_id host)
    expected (Healthy pid) (ln_loop s2)) as [l3 r3] eqn:HB.
  pose proof HB as HB'. apply begin_pending_spec in HB as [Hc3 HB]; [|done|done].
  rewrite call_eq; [|done|by rewrite HB']. rewrite HB'. cbn [fst snd].
  destruct r3 as [pl|e]; [|by right]. by apply (run_pending_settles host Hresp _ pl).
Qed.
