(* ===== verification/RunningControl.v ===== *)
(** * The control channel of a running worker

    [supervisor_loop/running_control.rs]: the thread that reads a registered
    worker's control requests, passes the two reports on the worker's VT to the
    supervisor loop and acknowledges them; and the loop's shutdown. *)

From stdpp Require Import base gmap sets list strings.
From Stdlib Require Import ZArith Lia.
From S2P Require Import Prelude Text DirFs RecoveryTypes LedgerTaxonomy Ledger.
From S2P Require Import LedgerDurability PreviousBoot PreCommit SameBoot.
From S2P Require Import Admission AdminRecovery Protocol Conversation Login.
From S2P Require Import Daemon WorkerRecord Supervisor SupervisorSafety.
From S2P Require Import SupervisorExits SupervisorProtocol Launch.
#[local] Open Scope niralis_scope.

(** One turn of the reader: what it read, whether the loop took and answered the
    message, whether the acknowledgement could be written. *)
Record ControlTurn := mkTurn {
  tn_host : SupervisorHost;
  tn_request : option WorkerControlEnvelope;
  tn_sent : bool;
  tn_replied : bool;
  tn_written : bool;
}.

Section Reader.
Context `{SerdeJson PersistentRecoveryRecord} `{SerdeJson PreCommitRuntimeRecord}.

(** The loop after the turn, the acknowledgement that was written, and whether
    the reader goes on.  A message that was sent is handled even when the reader
    does not see the reply. *)
Definition control_turn (t : ControlTurn) (s : SupervisorLoopState)
    : SupervisorLoopState * option WorkerControlRequest * bool :=
  match tn_request t with
  | None => (s, None, false)
  | Some (mkControlEnvelope version message) =>
      if negb (version =? WORKER_CONTROL_PROTOCOL_VERSION) then (s, None, false)
      else match message with
      | WcTerminalVtCleanupIntent worker_id pid nonce identity =>
          if negb (tn_sent t) then (s, None, false)
          else match handle_message (tn_host t)
                       (MsgTerminalVtIntent worker_id pid nonce identity) s with
          | (s, ReplyAttempt (Ok attempt_id)) =>
              if tn_replied t && tn_written t
              then (s, Some (WcTerminalVtCleanupIntentAcknowledged worker_id pid nonce
                               attempt_id), true)
              else (s, None, false)
          | (s, _) => (s, None, false)
          end
      | WcTerminalVtCleanupResult worker_id pid nonce attempt_id result =>
          if negb (tn_sent t) then (s, None, false)
          else match handle_message (tn_host t)
                       (MsgTerminalVtResult worker_id pid nonce attempt_id result) s with
          | (s, ReplyDone (Ok _)) =>
              (s, (if tn_replied t && tn_written t
                   then Some (WcTerminalVtCleanupResultAcknowledged worker_id pid nonce
                                attempt_id)
                   else None), false)
          | (s, _) => (s, None, false)
          end
      | _ => (s, None, false)
      end
  end.

(** The reader's life: the acknowledgements it wrote, each with the turn it was
    written in and the loop's state at that moment. *)
Fixpoint running_control (turns : list ControlTurn) (s : SupervisorLoopState)
    : SupervisorLoopState * list (ControlTurn * WorkerControlRequest * SupervisorLoopState) :=
  match turns with
  | [] => (s, [])
  | t :: turns =>
      let '(s, ack, more) := control_turn t s in
      let log := match ack with Some a => [(t, a, s)] | None => [] end in
      if more then
        let '(s', rest) := running_control turns s in (s', log ++ rest)
      else (s, log)
  end.

(** What an acknowledgement promises: it answers the request that was read, and
    the record's file holds what that request says, the intent under the number
    the worker is given, or the very result it reported for its attempt. *)
Definition acknowledges (request : option WorkerControlEnvelope) (a : WorkerControlRequest)
    (s : SupervisorLoopState) : Prop :=
  match request, a with
  | Some (mkControlEnvelope _ (WcTerminalVtCleanupIntent id pid nonce _)),
    WcTerminalVtCleanupIntentAcknowledged id' pid' nonce' attempt_id =>
      id' = id ∧ pid' = pid ∧ nonce' = nonce ∧
      vt_operation_is id (IntentPersisted attempt_id) s
  | Some (mkControlEnvelope _ (WcTerminalVtCleanupResult id pid nonce attempt_id reported)),
    WcTerminalVtCleanupResultAcknowledged id' pid' nonce' attempt_id' =>
      id' = id ∧ pid' = pid ∧ nonce' = nonce ∧ attempt_id' = attempt_id ∧
      vt_operation_is id
        (match reported with
         | TvReleased => Confirmed attempt_id
         | TvVtDisallocateBusy => OpFailed attempt_id EBUSY
         end) s
  | _, _ => False
  end.

Lemma cleanup_intent_keyed boot id a l :
  keyed l → keyed (worker_vt_cleanup_intent boot id a l).1.
Proof.
  intros Hk. destruct (worker_vt_cleanup_intent boot id a l) as [l' r] eqn:HC.
  apply worker_vt_cleanup_intent_steps in HC as [[-> _]|(next & rec & Hl & HS & HC)]; [done|].
  apply commit_spec in HC as [_ HC]. cbn. destruct r as [[]|e].
  - destruct HC as [_ HR]. intros i r. rewrite HR.
    intros [[<- <-]|[_ Hi]]%lookup_insert_Some; [done|by apply Hk].
  - destruct HC as [HR _]. intros i r. rewrite HR. apply Hk.
Qed.

Lemma intent_turn_keyed host id pid nonce identity s :
  loop_keyed s → loop_keyed (accept_terminal_vt_intent host id pid nonce identity s).1.
Proof.
  intros Hk. unfold accept_terminal_vt_intent.
  destruct (find_child id s) as [[i worker]|]; [|done]. destruct (_ || _); [done|].
  unfold loop_keyed in *. destruct (sl_ledger s) as [[l|]|] eqn:E; [|cbn; by rewrite E..].
  destruct (lg_records l !! id); [|cbn; by rewrite E].
  destruct (_ || _); [cbn; by rewrite E|].
  destruct (u64_checked_add _ _) as [a|]; [|cbn; by rewrite E].
  pose proof (cleanup_intent_keyed (sh_boot host) id a l Hk) as Hk'.
  by destruct (worker_vt_cleanup_intent _ _ _ l).
Qed.

Lemma control_turn_sound t s s' ack more :
  loop_keyed s → control_turn t s = (s', ack, more) →
  (∀ a, ack = Some a → acknowledges (tn_request t) a s') ∧ (more = true → loop_keyed s').
Proof.
  intros Hk. unfold control_turn. destruct (tn_request t) as [[version message]|].
  2: by intros [= <- <- <-]. destruct (negb _); [by intros [= <- <- <-]|].
  destruct message; try (by intros [= <- <- <-]);
    (destruct (negb _); [by intros [= <- <- <-]|]); cbn [handle_message answer].
  - pose proof (intent_turn_keyed (tn_host t) worker_id expected_worker_pid
      registration_nonce scope_identity s Hk) as Hk'.
    destruct (accept_terminal_vt_intent _ _ _ _ _ s) as [s1 [attempt|e]] eqn:HA;
      cbn [fst snd] in *; [|by intros [= <- <- <-]].
    apply accept_intent_Ok in HA as [HA _]; [|done].
    destruct (_ && _); intros [= <- <- <-]; [|done]. split; [|done].
    intros a [= <-]. cbn. by split_and!.
  - destruct (accept_terminal_vt_result _ _ _ _ _ _ s) as [s1 [[]|e]] eqn:HA;
      cbn [fst snd]; [|by intros [= <- <- <-]].
    apply accept_result_Ok in HA as (_ & HA & _); [|done].
    intros [= <- <- <-]. split; [|done]. intros a Ha. destruct (_ && _); [|done].
    injection Ha as <-. cbn. split_and!; [done..|]. by destruct result.
Qed.
End Reader.

(** C36. A worker is told that its VT intent, or its report, was accepted only
    when the ledger's file of its record already says so: in any life of the
    control reader on a ledger whose records sit under their own ids, every
    acknowledgement it writes answers the request it read in that turn, and at
    that moment the record in memory and its file hold the intent under the
    attempt number the worker is told, or, for a report, exactly the reported
    result for the reported attempt: released as confirmed, busy as failed with
    [EBUSY]. *)
Theorem vt_acknowledgements_are_durable `{SerdeJson PersistentRecoveryRecord}
    `{SerdeJson PreCommitRuntimeRecord} turns s :
  loop_keyed s →
  Forall (λ '(t, a, at_s), acknowledges (tn_request t) a at_s) (running_control turns s).2.
Proof.
  revert s. induction turns as [|t turns IH]; intros s Hk; [constructor|]. cbn.
  destruct (control_turn t s) as [[s1 ack] more] eqn:HT.
  apply control_turn_sound in HT as [Hack Hk1]; [|done].
  assert (Forall (λ '(t, a, at_s), acknowledges (tn_request t) a at_s)
    (match ack with Some a => [(t, a, s1)] | None => [] end)) as Hlog.
  { destruct ack as [a|]; [|constructor]. constructor; [by apply Hack|constructor]. }
  destruct more; [|done]. specialize (IH s1 (Hk1 eq_refl)).
  destruct (running_control turns s1) as [s' rest]. cbn in *. by apply Forall_app.
Qed.

(** ** Shutdown *)

Lemma kill_all workers s :
  sl_children (foldl (λ s worker, kill_shared_worker (sw_child worker) s) s workers)
    = sl_children s ∧
  ∀ pid, pid ∈ sl_killed (foldl (λ s worker, kill_shared_worker (sw_child worker) s) s workers)
    ↔ pid ∈ sl_killed s ∨ ∃ worker, worker ∈ workers ∧ sw_child worker = Healthy pid.
Proof.
  revert s. induction workers as [|w workers IH]; intros s; cbn.
  { split; [done|]. intros pid. split; [by left|]. intros [Hp|(w & Hw & _)]; [exact Hp|].
    by apply not_elem_of_nil in Hw. }
  destruct (IH (kill_shared_worker (sw_child w) s)) as [Hc Hp]. split.
  { rewrite Hc. by destruct (sw_child w). }
  intros pid. rewrite Hp. destruct (sw_child w) as [p|] eqn:Hw; cbn.
  2: { setoid_rewrite elem_of_cons. split; [naive_solver|].
       intros [|(w' & [->|Hin] & Hw')]; [by left|congruence|eauto]. }
  rewrite elem_of_app, list_elem_of_singleton. split.
  - intros [[Hs| ->]|(w' & Hin & Hw')]; [by left|right; exists w; set_solver|].
    right. exists w'. set_solver.
  - intros [Hs|(w' & [->|Hin]%elem_of_cons & Hw')]; [by left; left| |right; eauto].
    left. right. congruence.
Qed.

(** Which workers are left after the polls. *)
Lemma polled polls workers worker :
  worker ∈ foldl poll_workers workers polls ↔
  worker ∈ workers ∧ Forall (λ children, exited_at children worker = false) polls.
Proof.
  revert workers. induction polls as [|c polls IH]; intros workers; cbn.
  { split; [by intros|by intros [? _]]. }
  rewrite IH, Forall_cons. unfold poll_workers. rewrite list_elem_of_filter. naive_solver.
Qed.

(** The shutdown leaves no supervised worker running: besides those
    killed before, the children it kills are exactly those no poll found exited,
    and the ones it stops supervising are exactly those a poll did. *)
Theorem shutdown_kills_the_rest polls s :
  (∀ pid, pid ∈ sl_killed (shutdown_workers polls s) ↔
     pid ∈ sl_killed s ∨ ∃ worker, worker ∈ sl_children s ∧ sw_child worker = Healthy pid ∧
       Forall (λ children, exited_at children worker = false) polls) ∧
  (∀ worker, worker ∈ sl_children (shutdown_workers polls s) ↔
     worker ∈ sl_children s ∧
     Forall (λ children, exited_at children worker = false) polls).
Proof.
  unfold shutdown_workers.
  destruct (kill_all (foldl poll_workers (sl_children s) polls)
    (set_children (foldl poll_workers (sl_children s) polls) s)) as [Hc Hp]. split.
  - intros pid. rewrite Hp. cbn. setoid_rewrite polled. naive_solver.
  - intros worker. rewrite Hc. apply polled.
Qed.
