(* ===== verification/Finalization.v ===== *)
(** * Historical finalization

    [previous_boot_finalization*.rs]: the journal that records how far the
    finalization of a previous-boot record went, its validation against the
    ledger, the finalization itself, and the resumption after a restart.

    The process can stop at any I/O call; the fault schedule of the directory
    plays that role, because an error there propagates out of the routine
    without further writes.  The inspection host may answer differently each
    time it is asked: [hosts n] is its [n]-th answer. *)

From stdpp Require Import base gmap sets list strings pretty.
From Stdlib Require Import ZArith Lia.
From S2P Require Import Prelude DirFs RecoveryTypes LedgerTaxonomy Ledger.
From S2P Require Import LedgerLoad PreviousBoot.
#[local] Open Scope niralis_scope.

(** ** The journal *)

Inductive HistoricalFinalizationStage :=
| NotReplayed | ResolutionIntent | RecordResolved | RuntimeReleaseIntent
| RuntimeReleaseConfirmed | RemovalIntent | Removed | FreePublished.
#[export] Instance Stage_eq_dec : EqDecision HistoricalFinalizationStage.
Proof. solve_decision. Defined.

Inductive HistoricalDurableStateConflict :=
| CorruptedJournal | LedgerAheadOfJournal | JournalAheadOfLedger
| RecordPresentAfterRemovalReceipt | RecordMissingBeforeRemoval
| SequenceConflict | ReplacedInode | AbandonedTemporaryFile
| DuplicateJournalCandidate | DuplicateRecordEntry.
#[export] Instance Conflict_eq_dec : EqDecision HistoricalDurableStateConflict.
Proof. solve_decision. Defined.

Record HistoricalNotReplayed := mkNotReplayed {
  nr_operation : string;
  nr_attempt_id : option Z;
  nr_original_state : string;
}.
#[export] Instance HistoricalNotReplayed_eq_dec :
  EqDecision HistoricalNotReplayed.
Proof. solve_decision. Defined.

Record HistoricalFinalizationEntry := mkEntry {
  he_record_id : string;
  he_lifecycle_id : string;
  he_seat : string;
  he_boot_id : string;
  he_sequence : Z;
  he_stage : HistoricalFinalizationStage;
  he_not_replayed : list HistoricalNotReplayed;
  he_device : option Z;
  he_inode : option Z;
  he_links : option Z;
}.
#[export] Instance Entry_eq_dec : EqDecision HistoricalFinalizationEntry.
Proof. solve_decision. Defined.

Record HistoricalFinalizationJournal := mkJournal {
  hj_version : Z;
  hj_entries : list HistoricalFinalizationEntry;
}.
#[export] Instance Journal_eq_dec : EqDecision HistoricalFinalizationJournal.
Proof. solve_decision. Defined.

Definition JOURNAL_VERSION : Z := 1.
Definition MAX_JOURNAL_ENTRIES : Z := 64.
Definition journal_name : string := "previous-boot-finalization.journal".
Definition journal_tmp : string := ".previous-boot-finalization.tmp".

Definition journal_entry (id : string) (j : HistoricalFinalizationJournal)
    : option HistoricalFinalizationEntry :=
  List.find (λ e, str_eqb (he_record_id e) id) (hj_entries j).

Fixpoint upsert_entries (e : HistoricalFinalizationEntry)
    (l : list HistoricalFinalizationEntry) : list HistoricalFinalizationEntry :=
  match l with
  | [] => [e]
  | c :: t => if str_eqb (he_record_id c) (he_record_id e)
              then e :: t else c :: upsert_entries e t
  end.
Definition upsert (e : HistoricalFinalizationEntry)
    (j : HistoricalFinalizationJournal) : HistoricalFinalizationJournal :=
  mkJournal (hj_version j) (upsert_entries e (hj_entries j)).

(** [Path::exists]: an error counts as absence. *)
Definition path_exists (name : string) : LG bool := λ l,
  match on_fs (fs_symlink_metadata name) l with
  | (l', Ok _) => (l', Ok true)
  | (l', Err _) => (l', Ok false)
  end.

Definition conflict_text (c : HistoricalDurableStateConflict) : string :=
  match c with
  | CorruptedJournal => "CorruptedJournal"
  | LedgerAheadOfJournal => "LedgerAheadOfJournal"
  | JournalAheadOfLedger => "JournalAheadOfLedger"
  | RecordPresentAfterRemovalReceipt => "RecordPresentAfterRemovalReceipt"
  | RecordMissingBeforeRemoval => "RecordMissingBeforeRemoval"
  | SequenceConflict => "SequenceConflict"
  | ReplacedInode => "ReplacedInode"
  | AbandonedTemporaryFile => "AbandonedTemporaryFile"
  | DuplicateJournalCandidate => "DuplicateJournalCandidate"
  | DuplicateRecordEntry => "DuplicateRecordEntry"
  end.

Definition journal_candidates (l : PersistentRecoveryLedger) : list string :=
  List.filter
    (λ n, String.prefix "previous-boot-finalization" n
          && negb (str_eqb n journal_name))
    (map_to_list (ledger_files l)).*1.

Definition validate_journal_files : LG () :=
  let* tmp := path_exists journal_tmp in
  if (tmp : bool)
  then sr_fail (IoErr InvalidData (conflict_text AbandonedTemporaryFile))
  else
    on_fs fs_call ;;;
    λ l, if decide (journal_candidates l = [])
         then (l, Ok ())
         else (l, Err (IoErr InvalidData
                         (conflict_text DuplicateJournalCandidate))).

Definition read_historical_journal : LG (option string) := λ l,
  match on_fs (fs_symlink_metadata journal_name) l with
  | (l1, Err e) =>
      if decide (io_kind e = NotFound) then (l1, Ok None) else (l1, Err e)
  | (l1, Ok f) =>
      if negb (bool_decide (file_kind f = RegularFile))
         || negb (file_nlink f =? 1)
         || (negb (file_uid f =? 0) && negb allow_non_root_test_storage)
         || negb (Z.land (file_mode f) 63 =? 0)
      then (l1, Err (IoErr PermissionDenied
                       "unsafe historical finalization journal"))
      else (on_fs fs_call ;;; sr_ret (Some (file_data f))) l1
  end.

Definition write_historical_journal (bytes : string) : LG () :=
  if MAX_RECOVERY_RECORD_BYTES <? str_len bytes
  then sr_fail (IoErr InvalidData "historical journal too large")
  else on_fs (fs_replace journal_tmp journal_name bytes).

Section Journal.
Context `{SerdeJson HistoricalFinalizationJournal}.

Definition journal_load : LG HistoricalFinalizationJournal :=
  validate_journal_files ;;;
  let* bytes := read_historical_journal in
  match bytes with
  | None => sr_ret (mkJournal JOURNAL_VERSION [])
  | Some b =>
      match serde_from_slice b with
      | None => sr_fail (IoErr InvalidData (conflict_text CorruptedJournal))
      | Some j =>
          if negb (hj_version j =? JOURNAL_VERSION)
             || (MAX_JOURNAL_ENTRIES <? Z.of_nat (length (hj_entries j)))
          then sr_fail (IoErr InvalidData (conflict_text CorruptedJournal))
          else sr_ret j
      end
  end.

Definition journal_persist (j : HistoricalFinalizationJournal) : LG () :=
  if MAX_JOURNAL_ENTRIES <? Z.of_nat (length (hj_entries j))
  then sr_fail (IoErr InvalidData "historical finalization journal is full")
  else match serde_to_vec j with
       | None => sr_fail (IoErr OtherKind "serialization")
       | Some bytes => write_historical_journal bytes
       end.
End Journal.

(** ** Validation of the journal against the ledger *)

Definition stage_removed (s : HistoricalFinalizationStage) : bool :=
  match s with RemovalIntent | Removed | FreePublished => true | _ => false end.

Definition entry_check (entry : HistoricalFinalizationEntry)
    (record : PersistentRecoveryRecord)
    : result () HistoricalDurableStateConflict :=
  let rr := ol_runtime_release (pr_operation_ledger record) in
  if negb (str_eqb (pr_seat record) (he_seat entry))
     || negb (str_eqb (pr_lifecycle_id record) (he_lifecycle_id entry))
  then Err SequenceConflict
  else if pr_sequence record <? he_sequence entry
  then Err JournalAheadOfLedger
  else if match he_stage entry with Removed | FreePublished => true
          | _ => false end
  then Err RecordPresentAfterRemovalReceipt
  else if match he_stage entry with
          | RecordResolved | RuntimeReleaseIntent | RuntimeReleaseConfirmed
          | RemovalIntent => true | _ => false end
          && negb (str_eqb (pr_state record) "record_resolved")
  then Err LedgerAheadOfJournal
  else if bool_decide (he_stage entry = RuntimeReleaseIntent)
          && negb (match rr with IntentPersisted _ | Confirmed _ => true
                   | _ => false end)
  then Err JournalAheadOfLedger
  else if bool_decide (he_stage entry = RecordResolved)
          && negb (bool_decide (rr = NotStarted))
  then Err LedgerAheadOfJournal
  else if match he_stage entry with
          | RuntimeReleaseConfirmed | RemovalIntent => true | _ => false end
          && negb (is_confirmed rr)
  then Err JournalAheadOfLedger
  else Ok ().

Definition find_record (id : string) (l : PersistentRecoveryLedger)
    : option PersistentRecoveryRecord :=
  List.find (λ r, str_eqb (pr_lifecycle_id r) id) (records_list l).

Abbreviation CG := (SR PersistentRecoveryLedger HistoricalDurableStateConflict).

Definition entry_file_check (entry : HistoricalFinalizationEntry) : CG () :=
  match he_device entry, he_inode entry with
  | Some device, Some inode =>
      let* current := sr_map_err (λ _, ReplacedInode)
                        (record_file_identity (he_record_id entry)) in
      if negb (fi_device current =? device) || negb (fi_inode current =? inode)
         || negb (fi_links current =? 1)
      then sr_fail ReplacedInode else sr_ret ()
  | _, _ => sr_ret ()
  end.

Definition check_entry (entry : HistoricalFinalizationEntry) : CG () := λ l,
  match find_record (he_record_id entry) l with
  | None =>
      if stage_removed (he_stage entry) then (l, Ok ())
      else (l, Err RecordMissingBeforeRemoval)
  | Some record =>
      (sr_lift (entry_check entry record) ;;; entry_file_check entry) l
  end.

Fixpoint validate_entries (ids : gset string)
    (l : list HistoricalFinalizationEntry) : CG () :=
  match l with
  | [] => sr_ret ()
  | entry :: rest =>
      if decide (he_record_id entry ∈ ids) then sr_fail DuplicateRecordEntry
      else
        check_entry entry ;;;
        validate_entries ({[he_record_id entry]} ∪ ids) rest
  end.
Definition validate_against_ledger (j : HistoricalFinalizationJournal) : CG () :=
  validate_entries ∅ (hj_entries j).

(** ** Operations that are never replayed *)

Definition debug_op_state (s : DurableOperationState) : string :=
  match s with
  | NotStarted => "NotStarted"
  | IntentPersisted a => "IntentPersisted { attempt_id: " +:+ pretty a +:+ " }"
  | Confirmed a => "Confirmed { attempt_id: " +:+ pretty a +:+ " }"
  | OpFailed a f => "Failed { attempt_id: " +:+ pretty a +:+ ", failure_class: "
                      +:+ pretty f +:+ " }"
  | Indeterminate a s => "Indeterminate { attempt_id: " +:+ pretty a
                      +:+ ", stage: " +:+ pretty s +:+ " }"
  end.

Definition historical_not_replayed (record : PersistentRecoveryRecord)
    : list HistoricalNotReplayed :=
  let ol := pr_operation_ledger record in
  omap (λ '(operation, state),
          match state with
          | IntentPersisted a | Indeterminate a _ =>
              Some (mkNotReplayed operation (Some a) (debug_op_state state))
          | NotStarted | Confirmed _ | OpFailed _ _ => None
          end)
    [("payload_kill"%string, ol_payload_kill ol);
     ("supervisor_unref"%string, ol_supervisor_unref ol);
     ("logind_termination"%string, ol_logind_termination ol);
     ("vt_disallocate"%string, ol_vt_disallocate ol)].

(** ** Authority *)

Inductive FinalizationError :=
| PlanChanged | StaleSnapshot | Conflicted
| DurableConflict (c : HistoricalDurableStateConflict) | FinIo (e : IoError).

Inductive FinalizationOutcome := SeatFreed | PreservedQuarantine.

(** [format!("{}:{}:{plan:?}:{facts:?}")]: the derived [Debug] text determines
    the values, so the tuple stands for the string. *)
Definition Fingerprint : Type :=
  string * Z * PreviousBootRecoveryPlan * PreviousBootCurrentFacts.
Definition fingerprint (r : PreviousBootRecoveryRecord)
    (facts : PreviousBootCurrentFacts) (plan : PreviousBootRecoveryPlan)
    : Fingerprint :=
  (pr_lifecycle_id (pb_record r), pr_sequence (pb_record r), plan, facts).

Record FinalizationAuthority := mkAuthority {
  fa_current_boot : BootIdentity;
  fa_recorded_boot : BootIdentity;
  fa_record_id : string;
  fa_lifecycle_id : string;
  fa_seat : string;
  fa_sequence : Z;
  fa_fingerprint : Fingerprint;
  fa_file : RecordFileIdentity;
}.

Definition authority_from_record (r : PreviousBootRecoveryRecord)
    (fp : Fingerprint) (file : RecordFileIdentity)
    : result FinalizationAuthority FinalizationError :=
  if decide (pb_recorded_boot r = pb_current_boot r) then Err StaleSnapshot
  else Ok (mkAuthority (pb_current_boot r) (pb_recorded_boot r)
             (pr_lifecycle_id (pb_record r)) (pr_lifecycle_id (pb_record r))
             (pr_seat (pb_record r)) (pr_sequence (pb_record r)) fp file).

Definition authority_validates (a : FinalizationAuthority)
    (record : PersistentRecoveryRecord) (current : BootIdentity)
    (file : RecordFileIdentity) : bool :=
  bool_decide (fa_current_boot a = current)
  && str_eqb (boot_str (fa_recorded_boot a)) (pr_created_boot_id record)
  && str_eqb (fa_record_id a) (pr_lifecycle_id record)
  && str_eqb (fa_lifecycle_id a) (pr_lifecycle_id record)
  && str_eqb (fa_seat a) (pr_seat record)
  && (fa_sequence a =? pr_sequence record)
  && bool_decide (fa_file a = file).

Definition authority_with (sequence : Z) (file : RecordFileIdentity)
    (a : FinalizationAuthority) : FinalizationAuthority :=
  mkAuthority (fa_current_boot a) (fa_recorded_boot a) (fa_record_id a)
    (fa_lifecycle_id a) (fa_seat a) sequence (fa_fingerprint a) file.

(** [PreviousBootInspectionHost], the read-only seam. *)
Record InspectionHost := mkHost {
  host_boot : result BootIdentity PreviousBootInspectionError;
  host_snapshot : PreviousBootRecoveryRecord → list PersistentRecoveryRecord →
    result PreviousBootCurrentFacts PreviousBootInspectionError;
}.

Abbreviation FG := (SR PersistentRecoveryLedger FinalizationError).
Definition fin_io {A} (m : LG A) : FG A := sr_map_err FinIo m.

Definition current_record (id : string) : FG PersistentRecoveryRecord := λ l,
  (l, ok_or (find_record id l) StaleSnapshot).

Definition stale {A E} (r : result A E) : FG A :=
  sr_lift (map_err (λ _, StaleSnapshot) r).

(** ** Revalidation and the guarded ledger steps *)

Definition attempt_of (s : DurableOperationState) : option Z :=
  match s with
  | NotStarted => None
  | IntentPersisted a | Confirmed a | OpFailed a _ | Indeterminate a _ => Some a
  end.

Definition next_operation_attempt_id (record : PersistentRecoveryRecord)
    : result Z FinalizationError :=
  let ol := pr_operation_ledger record in
  let attempts := omap attempt_of
    [ol_payload_kill ol; ol_supervisor_unref ol; ol_logind_termination ol;
     ol_selinux_restore ol; ol_vt_activation ol; ol_vt_disallocate ol;
     ol_record_resolution ol; ol_runtime_release ol] in
  ok_or (u64_checked_add (foldr Z.max 0 attempts) 1) Conflicted.

Definition revalidate (host : InspectionHost)
    (original : PreviousBootRecoveryRecord) (facts : PreviousBootCurrentFacts)
    (plan : PreviousBootRecoveryPlan) (expected_file : RecordFileIdentity)
    : FG FinalizationAuthority :=
  let id := pr_lifecycle_id (pb_record original) in
  let* current_boot := stale (host_boot host) in
  ensure bool_decide (current_boot = pb_current_boot original)
    else StaleSnapshot ;;;
  let* current := current_record id in
  let* current_file := fin_io (record_file_identity id) in
  ensure bool_decide (current_file = expected_file) else StaleSnapshot ;;;
  let* epoch := stale (RecoveryRecordEpoch_classify current current_boot) in
  match epoch with
  | EpochSameBoot _ => sr_fail Conflicted
  | EpochPreviousBoot current_previous =>
      let* current_facts :=
        (λ l, stale (host_snapshot host current_previous (records_list l)) l) in
      let current_plan :=
        plan_previous_boot_reconciliation current_previous current_facts in
      ensure bool_decide (fingerprint original facts plan =
                 fingerprint current_previous current_facts current_plan)
             && af_stable (pf_authority current_facts) else PlanChanged ;;;
      let* authority := sr_lift
        (authority_from_record current_previous
           (fingerprint current_previous current_facts current_plan)
           current_file) in
      ensure fa_sequence authority =? pr_sequence current else StaleSnapshot ;;;
      sr_ret authority
  end.

Definition guard_current_boot (host : InspectionHost)
    (authority : FinalizationAuthority) : FG () :=
  let* boot := stale (host_boot host) in
  let* record := current_record (fa_record_id authority) in
  let* file := fin_io (record_file_identity (fa_record_id authority)) in
  ensure authority_validates authority record boot file else StaleSnapshot ;;;
  let* epoch := stale (RecoveryRecordEpoch_classify record boot) in
  match epoch with
  | EpochSameBoot _ => sr_fail Conflicted
  | EpochPreviousBoot previous =>
      let* facts :=
        (λ l, stale (host_snapshot host previous (records_list l)) l) in
      ensure af_stable (pf_authority facts)
             && bool_decide (pf_inspection_failures facts = [])
        else PlanChanged
  end.

Section Finalize.
Context `{SerdeJson PersistentRecoveryRecord}.
Context `{!SerdeJson HistoricalFinalizationJournal}.
Context (boot : result string IoError).

(** The tail of both advances: the authority moves to the sequence and the
    inode the commit produced. *)
Definition follow (authority : FinalizationAuthority)
    : FG FinalizationAuthority :=
  let* next := current_record (fa_record_id authority) in
  let* file := fin_io (record_file_identity (fa_record_id authority)) in
  sr_ret (authority_with (pr_sequence next) file authority).

Definition resolution_attempt (current : PersistentRecoveryRecord)
    : result Z FinalizationError :=
  match ol_record_resolution (pr_operation_ledger current) with
  | IntentPersisted a => Ok a
  | NotStarted => next_operation_attempt_id current
  | Confirmed _ => Err StaleSnapshot
  | OpFailed _ _ | Indeterminate _ _ => Err Conflicted
  end.

Definition advance (authority : FinalizationAuthority) (state : string)
    : FG FinalizationAuthority :=
  let id := fa_record_id authority in
  let* current := current_record id in
  let* file := fin_io (record_file_identity id) in
  ensure authority_validates authority current (fa_current_boot authority) file
    else StaleSnapshot ;;;
  (if str_eqb state "previous_boot_resolution_intent" then
     let* attempt := sr_lift (next_operation_attempt_id current) in
     fin_io (transition_with_operation boot id state "record_resolution"
               (IntentPersisted attempt))
   else if str_eqb state "record_resolved" then
     let* attempt := sr_lift (resolution_attempt current) in
     fin_io (transition_with_operation boot id state "record_resolution"
               (Confirmed attempt))
   else fin_io (transition boot id state)) ;;;
  follow authority.

Definition advance_runtime_release (authority : FinalizationAuthority)
    (op : DurableOperationState) : FG FinalizationAuthority :=
  let id := fa_record_id authority in
  let* current := current_record id in
  let* file := fin_io (record_file_identity id) in
  ensure authority_validates authority current (fa_current_boot authority) file
         && str_eqb (pr_state current) "record_resolved"
    else StaleSnapshot ;;;
  fin_io (transition_with_operation boot id "record_resolved"
            "runtime_release" op) ;;;
  follow authority.

(** ** The finalization *)

Definition entry_stage (stage : HistoricalFinalizationStage)
    (e : HistoricalFinalizationEntry) : HistoricalFinalizationEntry :=
  mkEntry (he_record_id e) (he_lifecycle_id e) (he_seat e) (he_boot_id e)
    (he_sequence e) stage (he_not_replayed e) (he_device e) (he_inode e)
    (he_links e).
(** [entry.sequence], [device], [inode] and [links] follow the authority. *)
Definition entry_follow (a : FinalizationAuthority)
    (e : HistoricalFinalizationEntry) : HistoricalFinalizationEntry :=
  mkEntry (he_record_id e) (he_lifecycle_id e) (he_seat e) (he_boot_id e)
    (fa_sequence a) (he_stage e) (he_not_replayed e)
    (Some (fi_device (fa_file a))) (Some (fi_inode (fa_file a)))
    (Some (fi_links (fa_file a))).

Definition publish (e : HistoricalFinalizationEntry)
    (j : HistoricalFinalizationJournal) : FG HistoricalFinalizationJournal :=
  fin_io (journal_persist (upsert e j)) ;;; sr_ret (upsert e j).

Definition authority_for_runtime (hosts : nat → InspectionHost)
    (authority : FinalizationAuthority) (journal : HistoricalFinalizationJournal)
    (entry : HistoricalFinalizationEntry) : FG FinalizationOutcome :=
  let id := fa_record_id authority in
  let* current := current_record id in
  let* intent :=
    match ol_runtime_release (pr_operation_ledger current) with
    | NotStarted =>
        let* fresh := sr_lift (next_operation_attempt_id current) in
        let* next := advance_runtime_release authority (IntentPersisted fresh) in
        let entry := entry_stage RuntimeReleaseIntent
                       (entry_follow next entry) in
        let* journal := publish entry journal in
        let* now := current_record (fa_record_id next) in
        match ol_runtime_release (pr_operation_ledger now) with
        | IntentPersisted a => sr_ret (next, a, journal, entry)
        | _ => sr_fail StaleSnapshot
        end
    | IntentPersisted a | Confirmed a => sr_ret (authority, a, journal, entry)
    | OpFailed _ _ | Indeterminate _ _ => sr_fail Conflicted
    end in
  let '(permit, attempt, journal, entry) := intent in
  guard_current_boot (hosts 3%nat) permit ;;;
  let* now := current_record (fa_record_id permit) in
  let* authority :=
    (if is_confirmed (ol_runtime_release (pr_operation_ledger now))
     then sr_ret permit
     else advance_runtime_release permit (Confirmed attempt)) in
  let entry := entry_stage RuntimeReleaseConfirmed
                 (entry_follow authority entry) in
  let* journal := publish entry journal in
  let entry := entry_stage RemovalIntent entry in
  let* journal := publish entry journal in
  guard_current_boot (hosts 4%nat) authority ;;;
  fin_io (remove_record_exact (fa_record_id authority) (fa_file authority)) ;;;
  let entry := entry_stage Removed entry in
  let* journal := publish entry journal in
  sr_modify (clear_seat_startup_quarantine (fa_seat authority)) ;;;
  publish (entry_stage FreePublished entry) journal ;;;
  sr_ret SeatFreed.

Definition past_resolution (s : option HistoricalFinalizationStage) : bool :=
  match s with
  | Some (RecordResolved | RuntimeReleaseIntent | RuntimeReleaseConfirmed
         | RemovalIntent | Removed | FreePublished) => true
  | _ => false
  end.

(** The branch that resolves the record first. *)
Definition resolve_then_release (hosts : nat → InspectionHost)
    (authority : FinalizationAuthority) (current : PersistentRecoveryRecord)
    (existing : option HistoricalFinalizationStage)
    (journal : HistoricalFinalizationJournal)
    (entry : HistoricalFinalizationEntry) : FG FinalizationOutcome :=
  let* start :=
    match existing with
    | None =>
        let* journal := publish entry journal in
        let entry := entry_stage ResolutionIntent entry in
        let* journal := publish entry journal in
        sr_ret (journal, entry)
    | Some _ => sr_ret (journal, entry)
    end in
  let '(journal, entry) := start in
  let* authority :=
    (if negb (str_eqb (pr_state current) "previous_boot_resolution_intent")
     then guard_current_boot (hosts 1%nat) authority ;;;
          advance authority "previous_boot_resolution_intent"
     else sr_ret authority) in
  let entry := entry_follow authority entry in
  let* journal := publish entry journal in
  let* now := current_record (fa_record_id authority) in
  let* authority :=
    (if negb (str_eqb (pr_state now) "record_resolved")
     then guard_current_boot (hosts 2%nat) authority ;;;
          advance authority "record_resolved"
     else sr_ret authority) in
  let entry := entry_stage RecordResolved (entry_follow authority entry) in
  let* journal := publish entry journal in
  authority_for_runtime hosts authority journal entry.

Definition execute_previous_boot_plan (hosts : nat → InspectionHost)
    (record : PreviousBootRecoveryRecord) (facts : PreviousBootCurrentFacts)
    (plan : PreviousBootRecoveryPlan) : FG FinalizationOutcome :=
  if negb (finalizes plan) then sr_ret PreservedQuarantine
  else
    let* file := fin_io
      (record_file_identity (pr_lifecycle_id (pb_record record))) in
    let* authority := revalidate (hosts 0%nat) record facts plan file in
    let* journal := fin_io journal_load in
    sr_map_err DurableConflict (validate_against_ledger journal) ;;;
    let* current := current_record (fa_record_id authority) in
    let existing := he_stage <$> journal_entry (fa_record_id authority) journal in
    let entry := mkEntry (fa_record_id authority) (fa_lifecycle_id authority)
      (fa_seat authority) (boot_str (fa_current_boot authority))
      (fa_sequence authority) NotReplayed (historical_not_replayed current)
      (Some (fi_device file)) (Some (fi_inode file)) (Some (fi_links file)) in
    if match plan with ResolveHistoricalRecord => true | _ => false end
       && negb (past_resolution existing)
    then resolve_then_release hosts authority current existing journal entry
    else
      let* now := current_record (fa_record_id authority) in
      let* authority :=
        (if bool_decide (ol_record_resolution (pr_operation_ledger now)
                           = NotStarted)
         then advance authority "record_resolved" else sr_ret authority) in
      authority_for_runtime hosts authority journal entry.

(** ** Resumption after the record is gone *)

Fixpoint resume_entries (entries : list HistoricalFinalizationEntry)
    (journal : HistoricalFinalizationJournal) (completed : Z)
    : FG (HistoricalFinalizationJournal * Z) :=
  match entries with
  | [] => sr_ret (journal, completed)
  | entry :: rest => λ l,
      if negb (match he_stage entry with Removed | RemovalIntent => true
               | _ => false end)
         || bool_decide (is_Some (find_record (he_record_id entry) l))
      then resume_entries rest journal completed l
      else
        (let* skip :=
           (if bool_decide (he_stage entry = RemovalIntent)
            then fin_io (record_file_exists (he_record_id entry))
            else sr_ret false) in
         if (skip : bool) then resume_entries rest journal completed
         else
           sr_modify (clear_seat_startup_quarantine (he_seat entry)) ;;;
           resume_entries rest
             (upsert (entry_stage FreePublished entry) journal)
             (completed + 1)) l
  end.

Definition resume_removed_previous_boot_finalization : FG Z :=
  let* journal := fin_io journal_load in
  sr_map_err DurableConflict (validate_against_ledger journal) ;;;
  λ l,
    if startup_quarantined l then (l, Ok 0)
    else
      (let* res := resume_entries (hj_entries journal) journal 0 in
       let '(journal, completed) := res in
       (if negb (completed =? 0) then fin_io (journal_persist journal)
        else sr_ret ()) ;;;
       sr_ret completed) l.
End Finalize.
