(* ===== verification/FinalizationSafety.v ===== *)
(** * What historical finalization can and cannot do

    Frame, no-replay and fail-closed properties of
    [execute_previous_boot_plan] and of the resumption: they hold for every
    fault schedule, every answer of the inspection host and every answer of
    [current_boot_id()]. *)

From stdpp Require Import base gmap sets list strings.
From Stdlib Require Import ZArith Lia Ascii.
From S2P Require Import Prelude DirFs RecoveryTypes LedgerTaxonomy Ledger.
From S2P Require Import LedgerLoad PreviousBoot Finalization.
#[local] Open Scope niralis_scope.

(** The part of a record finalization must leave alone: everything but the
    sequence, the update boot, the state and the two bookkeeping operations. *)
Definition historical_view (r : PersistentRecoveryRecord)
    : PersistentRecoveryRecord :=
  let o := pr_operation_ledger r in
  set_operation_ledger
    (mkOpLedger (ol_payload_kill o) (ol_supervisor_unref o)
       (ol_logind_termination o) (ol_selinux_restore o) (ol_vt_activation o)
       (ol_vt_disallocate o) NotStarted NotStarted)
    (set_transition r 0 EmptyString EmptyString).

Definition foreign_file (id name : string) : Prop :=
  name ≠ json_name id ∧ name ≠ tmp_name id ∧ name ≠ journal_name
  ∧ name ≠ journal_tmp.

(** The steps before the removal: the seats stay as they are, other records
    and their files are untouched, the record keeps its history, and a
    record that is gone does not come back. *)
Record quiet_step (id : string) (l l' : PersistentRecoveryLedger) : Prop := {
  qs_keyed : keyed l';
  qs_frame : ledger_frame l l';
  qs_records : ∀ i, i ≠ id → lg_records l' !! i = lg_records l !! i;
  qs_files : ∀ n, foreign_file id n → ledger_files l' !! n = ledger_files l !! n;
  qs_gone : lg_records l !! id = None →
    lg_records l' !! id = None
    ∧ ledger_files l' !! json_name id = ledger_files l !! json_name id;
  qs_view : ∀ r', lg_records l' !! id = Some r' →
    ∃ r, lg_records l !! id = Some r ∧ historical_view r' = historical_view r;
}.
Definition quiet (id : string) (l l' : PersistentRecoveryLedger) : Prop :=
  keyed l → quiet_step id l l'.

#[export] Instance quiet_preorder id : PreOrder (quiet id).
Proof.
  split.
  - intros l K. by split; [done|reflexivity|..]; eauto.
  - intros x y z Hxy Hyz K. destruct (Hxy K) as [K1 F1 R1 D1 G1 V1].
    destruct (Hyz K1) as [K2 F2 R2 D2 G2 V2]. split; [done|by etrans|..].
    + intros i Hi. by rewrite R2, R1.
    + intros n Hn. by rewrite D2, D1.
    + intros Hx. destruct (G1 Hx) as [Hy E1]. destruct (G2 Hy) as [Hz E2].
      split; [done|]. by rewrite E2, E1.
    + intros r2 Hr2. destruct (V2 _ Hr2) as (r1 & Hr1 & E2).
      destruct (V1 _ Hr1) as (r0 & Hr0 & E1). exists r0. split; [done|congruence].
Qed.

(** Reading: only the fault cursor moves. *)
Definition readonly (l l' : PersistentRecoveryLedger) : Prop :=
  ledger_frame l l' ∧ lg_records l' = lg_records l
  ∧ ledger_files l' = ledger_files l.
#[export] Instance readonly_preorder : PreOrder readonly.
Proof.
  split; [done|]. intros x y z (?&?&?) (?&?&?).
  split; [by etrans|]. split; congruence.
Qed.

Create HintDb quiet discriminated.
Ltac quiet_auto := eauto 10 with quiet typeclass_instances.
#[export] Hint Resolve keeps_ret keeps_fail keeps_lift keeps_read keeps_bind
  keeps_map_err : quiet.

(** ** Journal names never collide with record names *)

Lemma journal_json_ne id : journal_name ≠ json_name id.
Proof.
  apply (str_app_last_ne "previous-boot-finalization" id ".journa" ".jso"
    "l"%char "n"%char). done.
Qed.
Lemma journal_tmp_json_ne id : journal_tmp ≠ json_name id.
Proof.
  apply (str_app_last_ne ".previous-boot-finalization" id ".tm" ".jso"
    "p"%char "n"%char). done.
Qed.

(** ** The quiet actions *)

(** An action that changes nothing but the journal's two files. *)
Lemma quiet_journal_only id l l' :
  ledger_frame l l' → lg_records l' = lg_records l →
  (∀ n, n ≠ journal_name → n ≠ journal_tmp →
     ledger_files l' !! n = ledger_files l !! n) →
  quiet id l l'.
Proof.
  intros HF HR HD K. split; [|done|..].
  - intros i r. rewrite HR. apply K.
  - by rewrite HR.
  - intros n (_ & _ & Hj & Ht). auto.
  - rewrite HR. split; [done|]. apply HD;
      [apply not_eq_sym, journal_json_ne|apply not_eq_sym, journal_tmp_json_ne].
  - rewrite HR. eauto.
Qed.

Lemma readonly_quiet id l l' : readonly l l' → quiet id l l'.
Proof. intros (?&?&HD). apply quiet_journal_only; [done..|]. by rewrite HD. Qed.
Lemma keeps_readonly_quiet id {E A} (m : SR PersistentRecoveryLedger E A) :
  sr_keeps readonly m → sr_keeps (quiet id) m.
Proof. intros H l. apply readonly_quiet, H. Qed.
#[export] Hint Resolve keeps_readonly_quiet : quiet.

(** A system call that leaves the files as they are. *)
Definition fs_reads {A} (m : IO A) : Prop :=
  ∀ d, dir_files (m d).1 = dir_files d.

Lemma fs_call_reads : fs_reads fs_call.
Proof. intros d. apply io_call_Err_files. by intros. Qed.
Lemma fs_symlink_metadata_reads name : fs_reads (fs_symlink_metadata name).
Proof. intros d. apply fs_symlink_metadata_files. Qed.

Lemma keeps_on_fs_reads {A} (m : IO A) :
  fs_reads m → sr_keeps readonly (on_fs m).
Proof.
  intros Hm l. rewrite on_fs_spec. repeat split. apply Hm.
Qed.
#[export] Hint Resolve keeps_on_fs_reads fs_call_reads
  fs_symlink_metadata_reads : quiet.

Lemma keeps_record_file_identity i : sr_keeps readonly (record_file_identity i).
Proof.
  unfold record_file_identity. apply keeps_bind; [quiet_auto..|]. intros path.
  apply keeps_bind; [quiet_auto..|]. intros f. case_match; quiet_auto.
Qed.

Lemma keeps_path_exists name : sr_keeps readonly (path_exists name).
Proof.
  intros l. unfold path_exists.
  pose proof (keeps_on_fs_reads (fs_symlink_metadata name)
    (fs_symlink_metadata_reads name) l) as H.
  by destruct (on_fs _ l) as [l' [f|e]].
Qed.
#[export] Hint Resolve keeps_record_file_identity keeps_path_exists : quiet.

Lemma keeps_validate_journal_files : sr_keeps readonly validate_journal_files.
Proof.
  unfold validate_journal_files. apply keeps_bind; [quiet_auto..|].
  intros [|]; [quiet_auto|]. apply keeps_bind; [quiet_auto..|].
  intros _ l. by case_decide.
Qed.

Lemma keeps_read_historical_journal : sr_keeps readonly read_historical_journal.
Proof.
  intros l. unfold read_historical_journal.
  pose proof (keeps_on_fs_reads (fs_symlink_metadata journal_name)
    (fs_symlink_metadata_reads _) l) as H.
  destruct (on_fs (fs_symlink_metadata _) l) as [l1 [f|e]]; cbn in H.
  - case_match; [done|]. etrans; [exact H|].
    apply (keeps_bind _ (on_fs fs_call) (λ _, sr_ret (Some (file_data f)))); quiet_auto.
  - by case_decide.
Qed.
#[export] Hint Resolve keeps_validate_journal_files
  keeps_read_historical_journal : quiet.

Section QuietJournal.
Context `{SerdeJson HistoricalFinalizationJournal}.

Lemma keeps_journal_load : sr_keeps readonly journal_load.
Proof.
  unfold journal_load. apply keeps_bind; [quiet_auto..|]. intros _.
  apply keeps_bind; [quiet_auto..|]. intros [b|]; [|quiet_auto].
  case_match; [case_match|]; quiet_auto.
Qed.

(** What a journal write leaves in the directory. *)
Lemma write_historical_journal_spec bytes l l' r :
  write_historical_journal bytes l = (l', r) →
  ledger_frame l l' ∧ lg_records l' = lg_records l
  ∧ (∀ n, n ≠ journal_name → n ≠ journal_tmp →
       ledger_files l' !! n = ledger_files l !! n)
  ∧ (is_ok r = true → ∃ f, ledger_files l' !! journal_name = Some f
       ∧ file_data f = bytes).
Proof.
  unfold write_historical_journal. case_match; [by intros [= <- <-]|].
  rewrite on_fs_spec.
  pose proof (fs_replace_outcome journal_tmp journal_name bytes (lg_fs l)) as HR.
  destruct (fs_replace _ _ _ _) as [d' r']. intros [= <- <-]. cbn in *.
  unfold ledger_files. cbn. split; [done|]. split; [done|].
  inversion HR as [HD|f Hn HD|ok ino Hn HD]; rewrite HD; split;
    try (by intros; rewrite ?lookup_insert_ne by done).
  intros _. eexists. by rewrite lookup_insert_eq.
Qed.

Lemma keeps_journal_persist id j : sr_keeps (quiet id) (journal_persist j).
Proof.
  intros l. unfold journal_persist. case_match; [done|].
  case_match; [|done]. destruct (write_historical_journal _ l) as [l' r] eqn:E.
  apply write_historical_journal_spec in E as (? & ? & ? & _).
  by apply quiet_journal_only.
Qed.

Lemma keeps_journal_persist_frame j l :
  ledger_frame l (journal_persist j l).1
  ∧ lg_records (journal_persist j l).1 = lg_records l.
Proof.
  unfold journal_persist. case_match; [done|]. case_match; [|done].
  destruct (write_historical_journal _ l) as [l' r] eqn:E.
  by apply write_historical_journal_spec in E as (? & ? & _).
Qed.
End QuietJournal.
#[export] Hint Resolve keeps_journal_load keeps_journal_persist : quiet.

Lemma keeps_entry_file_check e : sr_keeps readonly (entry_file_check e).
Proof.
  unfold entry_file_check.
  destruct (he_device e), (he_inode e); try quiet_auto.
  apply keeps_bind; [quiet_auto..|]. intros fi. case_match; quiet_auto.
Qed.
#[export] Hint Resolve keeps_entry_file_check : quiet.

Lemma keeps_check_entry e : sr_keeps readonly (check_entry e).
Proof.
  intros l. unfold check_entry.
  destruct (find_record _ l) as [r|]; [|by case_match].
  apply (keeps_bind readonly (sr_lift (entry_check e r))
    (λ _, entry_file_check e)); quiet_auto.
Qed.
#[export] Hint Resolve keeps_check_entry : quiet.

Lemma keeps_validate_against_ledger j :
  sr_keeps readonly (validate_against_ledger j).
Proof.
  unfold validate_against_ledger. generalize (∅ : gset string).
  induction (hj_entries j) as [|e es IH]; intros ids; [quiet_auto|].
  cbn [validate_entries]. case_decide; quiet_auto.
Qed.
#[export] Hint Resolve keeps_validate_against_ledger : quiet.

(** ** Ledger steps on the record itself *)

Section QuietLedger.
Context `{SerdeJson PersistentRecoveryRecord}.
Context (boot : result string IoError).

Lemma record_transition_view state next rec :
  record_transition boot state next = Ok rec →
  historical_view rec = historical_view next
  ∧ pr_lifecycle_id rec = pr_lifecycle_id next.
Proof. unfold record_transition. intros HT. by split_cases HT. Qed.

Lemma quiet_commit id r0 rec l :
  lg_records l !! id = Some r0 → pr_lifecycle_id rec = pr_lifecycle_id r0 →
  historical_view rec = historical_view r0 → quiet id l (commit rec l).1.
Proof.
  intros Hr HI HV K. pose proof (K _ _ Hr) as Hid. rewrite Hid in HI.
  destruct (commit rec l) as [l' r] eqn:HC. cbn.
  pose proof (λ n, commit_other_files _ _ _ _ n HC) as Hother.
  rewrite HI in Hother. apply commit_spec in HC as [HF HC]. rewrite HI in HC.
  assert (lg_records l' = lg_records l
          ∨ lg_records l' = <[id := rec]> (lg_records l)) as HR.
  { destruct r as [[]|e]; destruct HC; auto. }
  split; [|done|..].
  - intros i r1. destruct HR as [->| ->]; [apply K|].
    intros [[<- <-]|[_ ?]]%lookup_insert_Some; [done|by apply K].
  - intros i Hi. destruct HR as [->| ->]; [done|]. by rewrite lookup_insert_ne.
  - intros n (? & ? & _). by apply Hother.
  - congruence.
  - intros r1. destruct HR as [->| ->]; [by eauto|].
    rewrite lookup_insert_eq. intros [= <-]. eauto.
Qed.

Lemma quiet_commit_transition id r0 next state l :
  lg_records l !! id = Some r0 → pr_lifecycle_id next = pr_lifecycle_id r0 →
  historical_view next = historical_view r0 →
  quiet id l (commit_transition boot next state l).1.
Proof.
  intros Hr HI HV. unfold commit_transition, sr_bind, sr_lift.
  destruct (record_transition boot state next) as [rec|e] eqn:HT; [|done].
  apply record_transition_view in HT as [HV' HI'].
  cbn. eapply quiet_commit; [done|congruence..].
Qed.

Lemma keeps_transition id state :
  sr_keeps (quiet id) (transition boot id state).
Proof.
  intros l. unfold transition, sr_bind, record_for_operation.
  destruct (lg_records l !! id) as [r|] eqn:E; [|done]. cbn.
  by eapply quiet_commit_transition.
Qed.

Lemma with_bookkeeping_view op s o o' r :
  op = "record_resolution"%string ∨ op = "runtime_release"%string →
  pr_operation_ledger r = o → with_operation op s o = Some o' →
  historical_view (set_operation_ledger o' r) = historical_view r.
Proof.
  intros Hop <-. unfold historical_view.
  destruct (pr_operation_ledger r) eqn:E.
  destruct Hop as [-> | ->]; cbn; intros [= <-]; cbn; by rewrite ?E.
Qed.

Lemma keeps_transition_with_operation id state op s :
  sr_keeps (quiet id) (transition_with_operation boot id state op s).
Proof.
  intros l. unfold transition_with_operation, sr_bind, record_for_operation.
  destruct (lg_records l !! id) as [r|] eqn:E; [|done]. cbn.
  destruct (str_eqb _ _ || _) eqn:Hop; [|done].
  destruct (with_operation _ _ _) as [o'|] eqn:HW; [|done].
  eapply quiet_commit_transition; [done..|].
  apply orb_true_iff in Hop. eapply with_bookkeeping_view; [|done..].
  destruct Hop; bool_facts; auto.
Qed.
End QuietLedger.
#[export] Hint Resolve keeps_transition keeps_transition_with_operation : quiet.

(** ** The guarded steps of the finalization *)

Lemma keeps_current_record i : sr_keeps readonly (current_record i).
Proof. apply keeps_read. apply _. Qed.
Lemma keeps_stale {A E} (r : result A E) : sr_keeps readonly (stale r).
Proof. apply keeps_lift. apply _. Qed.
Lemma keeps_host (h : InspectionHost) p :
  sr_keeps readonly (λ l, stale (host_snapshot h p (records_list l)) l).
Proof. intros l. apply keeps_stale. Qed.
Lemma keeps_fin_io R {A} (m : LG A) : sr_keeps R m → sr_keeps R (fin_io m).
Proof. apply keeps_map_err. Qed.
Lemma keeps_ensure (b : bool) (e : FinalizationError) :
  sr_keeps readonly (ensure b else e).
Proof. destruct b; quiet_auto. Qed.
#[export] Hint Resolve keeps_current_record keeps_stale keeps_host keeps_fin_io
  keeps_ensure : quiet.

(** Walk along a chain of quiet steps. *)
Ltac quiet_seq :=
  repeat first
    [ apply gives_fail; apply _
    | apply gives_seq; [apply _|solve [quiet_auto]|intros ?]
    | apply keeps_bind; [apply _|solve [quiet_auto]|intros ?] ].

(** The authority keeps its record and its seat. *)
Definition follows (a a' : FinalizationAuthority) : Prop :=
  fa_record_id a' = fa_record_id a ∧ fa_seat a' = fa_seat a.

Lemma keeps_guard_current_boot h a :
  sr_keeps readonly (guard_current_boot h a).
Proof.
  unfold guard_current_boot. quiet_seq. case_match; [quiet_auto|]. quiet_seq.
  quiet_auto.
Qed.
#[export] Hint Resolve keeps_guard_current_boot : quiet.

(** [revalidate] hands out an authority over the record in the ledger. *)
Lemma revalidate_keeps h original facts plan fi :
  sr_keeps readonly (revalidate h original facts plan fi).
Proof.
  unfold revalidate. quiet_seq. case_match; [quiet_auto|]. quiet_seq. quiet_auto.
Qed.

Section Guarded.
Context `{SerdeJson PersistentRecoveryRecord}.
Context `{!SerdeJson HistoricalFinalizationJournal}.
Context (boot : result string IoError).

Lemma follow_gives id a : sr_gives (quiet id) (follow a) (follows a).
Proof. unfold follow. quiet_seq. by apply gives_ret; [apply _|]. Qed.

Lemma advance_gives a state :
  sr_gives (quiet (fa_record_id a)) (advance boot a state) (follows a).
Proof.
  unfold advance. quiet_seq. apply gives_seq; [apply _| |].
  - repeat case_match; quiet_auto.
  - intros _. apply follow_gives.
Qed.

Lemma advance_runtime_release_gives a op :
  sr_gives (quiet (fa_record_id a)) (advance_runtime_release boot a op)
    (follows a).
Proof.
  unfold advance_runtime_release. quiet_seq. by apply gives_ret; [apply _|].
Qed.

Lemma keeps_publish id e j : sr_keeps (quiet id) (publish e j).
Proof. unfold publish. quiet_seq. quiet_auto. Qed.
End Guarded.
#[export] Hint Resolve keeps_publish : quiet.

Lemma revalidate_authority h original facts plan fi l l' a :
  revalidate h original facts plan fi l = (l', Ok a) →
  ∃ rec, find_record (pr_lifecycle_id (pb_record original)) l = Some rec
    ∧ fa_record_id a = pr_lifecycle_id (pb_record original)
    ∧ fa_seat a = pr_seat rec.
Proof.
  unfold revalidate, sr_bind, stale, sr_lift, current_record. intros HR.
  destruct (host_boot h) as [b|]; cbn in HR; [|done].
  destruct (bool_decide _); cbn in HR; [|done].
  destruct (find_record _ l) as [rec|] eqn:Hrec; cbn in HR; [|done].
  destruct (fin_io _ l) as [l1 [fi1|]]; cbn in HR; [|done].
  destruct (bool_decide _); cbn in HR; [|done].
  unfold RecoveryRecordEpoch_classify in HR.
  destruct (BootIdentity_parse _) as [rb|]; [|done].
  destruct (decide _); [done|]. cbn in HR.
  destruct (host_snapshot _ _ _) as [cf|]; cbn in HR; [|done].
  destruct (bool_decide _ && _); cbn in HR; [|done].
  unfold authority_from_record in HR. cbn in HR.
  destruct (decide _); [done|]. cbn in HR.
  destruct (_ =? _); [|done]. injection HR as <- <-.
  exists rec. split; [done|]. split; [|done]. cbn.
  apply List.find_some in Hrec as [_ Hid]. by apply str_eqb_true in Hid.
Qed.

(** ** The whole finalization *)

(** The journal on disk says the seat was published free. *)
Definition free_published `{SerdeJson HistoricalFinalizationJournal}
    (id : string) (l : PersistentRecoveryLedger) : Prop :=
  ∃ f j e, ledger_files l !! journal_name = Some f
    ∧ serde_from_slice (file_data f) = Some j
    ∧ journal_entry id j = Some e ∧ he_stage e = FreePublished.

(** What one run may have done when it returns [r]. *)
Record finalization_outcome `{SerdeJson HistoricalFinalizationJournal}
    (id seat : string) (l l' : PersistentRecoveryLedger)
    (r : result FinalizationOutcome FinalizationError) : Prop := {
  fo_keyed : keyed l';
  fo_results : lg_read_results l' = lg_read_results l;
  fo_record_set : lg_record_set l' = lg_record_set l;
  fo_quarantined : lg_startup_quarantined l' = lg_startup_quarantined l;
  fo_records : ∀ i, i ≠ id → lg_records l' !! i = lg_records l !! i;
  fo_files : ∀ n, foreign_file id n → ledger_files l' !! n = ledger_files l !! n;
  fo_view : ∀ r', lg_records l' !! id = Some r' →
    ∃ r, lg_records l !! id = Some r ∧ historical_view r' = historical_view r;
  fo_seats : lg_startup_quarantined_seats l' = lg_startup_quarantined_seats l
    ∨ (lg_startup_quarantined_seats l'
         = lg_startup_quarantined_seats l ∖ {[seat]} ∧ gone id l');
  fo_freed : r = Ok SeatFreed →
    gone id l' ∧ seat_startup_quarantined seat l' = false
    ∧ free_published id l';
}.

Section Outcome.
Context `{SerdeJson PersistentRecoveryRecord}.
Context `{!SerdeJson HistoricalFinalizationJournal}.
Context `{!SerdeRoundtrip HistoricalFinalizationJournal}.
Context (boot : result string IoError).

Definition fin_run (id seat : string) (m : FG FinalizationOutcome) : Prop :=
  ∀ l, keyed l → finalization_outcome id seat l (m l).1 (m l).2.

Lemma quiet_outcome id seat l l' r :
  keyed l → quiet id l l' → r ≠ Ok SeatFreed →
  finalization_outcome id seat l l' r.
Proof.
  intros K Q Hr. destruct (Q K) as [K' (?&?&?&?) ? ? ? ?]. by split; auto.
Qed.

Lemma quiet_then_outcome id seat l l1 l' r :
  keyed l → quiet id l l1 →
  (keyed l1 → finalization_outcome id seat l1 l' r) →
  finalization_outcome id seat l l' r.
Proof.
  intros K Q HO. destruct (Q K) as [K1 (F1&F2&F3&F4) R1 D1 G1 V1].
  destruct (HO K1) as [K2 ? ? ? R2 D2 V2 S2 P2].
  split; [done|congruence..| | | | |done].
  - intros i Hi. by rewrite R2, R1.
  - intros n Hn. by rewrite D2, D1.
  - intros r2 Hr2. destruct (V2 _ Hr2) as (r1 & Hr1 & E2).
    destruct (V1 _ Hr1) as (r0 & Hr0 & E1). exists r0. split; [done|congruence].
  - by rewrite F4 in S2.
Qed.

Lemma fin_run_bind id seat {A} (m : FG A) k Q :
  sr_gives (quiet id) m Q → (∀ a, Q a → fin_run id seat (k a)) →
  fin_run id seat (sr_bind m k).
Proof.
  intros Hm Hk l K. unfold sr_bind. destruct (Hm l) as [HR HQ].
  destruct (m l) as [l1 [a|e]]; cbn in *.
  - apply (quiet_then_outcome _ _ _ l1); [done..|]. by apply Hk, HQ.
  - by apply quiet_outcome.
Qed.

Lemma fin_run_seq id seat {A} (m : FG A) k :
  sr_keeps (quiet id) m → (∀ a, fin_run id seat (k a)) →
  fin_run id seat (sr_bind m k).
Proof.
  intros Hm Hk. eapply fin_run_bind; [by apply keeps_gives|]. by intros a _.
Qed.

Lemma fin_run_fail id seat e : fin_run id seat (sr_fail e).
Proof. intros l K. by apply quiet_outcome. Qed.

(** Removal is quiet, and when it succeeds the record is gone. *)
Lemma remove_record_exact_quiet id fi l l' r :
  remove_record_exact id fi l = (l', r) →
  quiet id l l' ∧ (is_ok r = true → gone id l').
Proof.
  intros [HF HR]%remove_record_exact_removes.
  destruct HR as [(HR & HD & Hr)|(rec & Hrec & _ & HD & HR)].
  { rewrite Hr. split; [|done]. apply quiet_journal_only; [done..|].
    by rewrite HD. }
  split.
  - intros K. assert (lg_records l' = lg_records l
      ∨ lg_records l' = delete id (lg_records l)) as HR' by naive_solver.
    split; [|done|..|congruence|].
    + intros i r0. destruct HR' as [->| ->]; [apply K|].
      intros [_ ?]%lookup_delete_Some. by apply K.
    + intros i Hi. destruct HR' as [->| ->]; [done|]. by rewrite lookup_delete_ne.
    + intros n (? & _). rewrite HD. by rewrite lookup_delete_ne.
    + intros r0. destruct HR' as [->| ->]; [eauto|].
      by intros [? _]%lookup_delete_Some.
  - intros Hok. destruct HR as [[? _]|[_ HR]]; [congruence|].
    unfold gone, ledger_files in *. by rewrite HR, HD, !lookup_delete_eq.
Qed.

Lemma gone_quiet id l l' : keyed l → quiet id l l' → gone id l → gone id l'.
Proof.
  unfold gone. fold (ledger_files l) (ledger_files l').
  intros K Q [HR HD]. destruct (Q K) as [_ _ _ _ HG _].
  destruct (HG HR) as [HR' HD']. split; [done|congruence].
Qed.

Lemma journal_entry_upsert e j :
  journal_entry (he_record_id e) (upsert e j) = Some e.
Proof.
  unfold journal_entry, upsert. cbn.
  induction (hj_entries j) as [|c t IH]; cbn; [by rewrite str_eqb_refl|].
  destruct (str_eqb (he_record_id c) (he_record_id e)) eqn:E; cbn;
    [by rewrite str_eqb_refl|]. by rewrite E.
Qed.

Lemma publish_published e j l l' j' :
  publish e j l = (l', Ok j') → he_stage e = FreePublished →
  free_published (he_record_id e) l'.
Proof.
  unfold publish, fin_io, sr_bind, sr_map_err, journal_persist. intros HP Hs.
  destruct (_ <? _); [done|].
  destruct (serde_to_vec (upsert e j)) as [bytes|] eqn:Hb; [|done].
  destruct (write_historical_journal bytes l) as [l1 [[]|e1]] eqn:HW; [|done].
  injection HP as <- <-.
  apply write_historical_journal_spec in HW as (_ & _ & _ & Hok).
  destruct (Hok eq_refl) as (f & Hf & Hd). exists f, (upsert e j), e.
  rewrite Hd. repeat split; [done|by apply serde_roundtrip| |done].
  apply journal_entry_upsert.
Qed.

(** Unlink, receipt, release of the seat, final receipt. *)
Definition finalization_tail (a : FinalizationAuthority)
    (journal : HistoricalFinalizationJournal)
    (entry : HistoricalFinalizationEntry) : FG FinalizationOutcome :=
  fin_io (remove_record_exact (fa_record_id a) (fa_file a)) ;;;
  let* journal := publish entry journal in
  sr_modify (clear_seat_startup_quarantine (fa_seat a)) ;;;
  publish (entry_stage FreePublished entry) journal ;;;
  sr_ret SeatFreed.

Lemma publish_free_outcome id seat entry j l :
  keyed l → gone id l → he_record_id entry = id →
  let p := publish (entry_stage FreePublished entry) j
             (clear_seat_startup_quarantine seat l) in
  let q := match p with
           | (l', Ok _) => (l', Ok SeatFreed)
           | (l', Err e) => (l', Err e) end in
  finalization_outcome id seat l q.1 q.2.
Proof.
  intros K HG Hid p q. set (l3 := clear_seat_startup_quarantine seat l) in *.
  pose proof (keeps_publish id (entry_stage FreePublished entry) j l3) as Q.
  pose proof (publish_published (entry_stage FreePublished entry) j l3) as P.
  fold p in Q, P. destruct p as [l4 r4]. cbn in Q.
  pose proof (gone_quiet _ l3 l4 K Q HG) as HG'.
  destruct (Q K) as [K' (?&?&?&F) R D _ V].
  assert (lg_startup_quarantined_seats l4 =
    lg_startup_quarantined_seats l ∖ {[seat]}) as HS by done.
  destruct r4 as [j4|e]; subst q; cbn; split; try done; auto.
  intros _. split; [done|]. split.
  - unfold seat_startup_quarantined. rewrite HS. apply bool_decide_eq_false.
    set_solver.
  - rewrite <-Hid. by apply (P l4 j4).
Qed.

Lemma finalization_tail_run a journal entry :
  he_record_id entry = fa_record_id a →
  fin_run (fa_record_id a) (fa_seat a) (finalization_tail a journal entry).
Proof.
  intros Hid l K. unfold finalization_tail. rewrite sr_bind_eq.
  unfold fin_io at 1 2. unfold sr_map_err.
  destruct (remove_record_exact _ _ l) as [l1 [[]|e]] eqn:HR;
    apply remove_record_exact_quiet in HR as [Q1 HG]; cbn [map_err fst snd];
    [|by apply quiet_outcome].
  specialize (HG eq_refl). apply (quiet_then_outcome _ _ _ l1); [done..|].
  clear K Q1. intros K. rewrite sr_bind_eq.
  pose proof (keeps_publish (fa_record_id a) entry journal l1) as Q.
  destruct (publish entry journal l1) as [l2 [j2|e]]; cbn [fst snd] in *;
    [|by apply quiet_outcome].
  apply (gone_quiet _ _ _ K Q) in HG. apply (quiet_then_outcome _ _ _ l2);
    [done..|]. clear K Q. intros K. rewrite sr_bind_eq. unfold sr_modify.
  set (l3 := clear_seat_startup_quarantine (fa_seat a) l2).
  rewrite sr_bind_eq. by apply publish_free_outcome.
Qed.

Lemma authority_for_runtime_run hosts a journal entry :
  he_record_id entry = fa_record_id a →
  fin_run (fa_record_id a) (fa_seat a)
    (authority_for_runtime boot hosts a journal entry).
Proof.
  intros Hid. unfold authority_for_runtime.
  apply fin_run_seq; [quiet_auto|]. intros current.
  apply (fin_run_bind _ _ _ _ (λ '(p, _, _, e),
    follows a p ∧ he_record_id e = fa_record_id a)).
  { destruct (ol_runtime_release _);
      try (apply gives_ret; [apply _|done]); try (apply gives_fail; apply _).
    quiet_seq. eapply gives_bind; [apply _|apply advance_runtime_release_gives|].
    intros p Hp. apply gives_seq; [apply _|quiet_auto|]. intros j.
    apply gives_seq; [apply _|quiet_auto|]. intros now.
    case_match; try (apply gives_fail; apply _).
    by apply gives_ret; [apply _|]. }
  intros [[[p att] j] e] [[Hp Hs] He]. rewrite <-Hp, <-Hs in *.
  apply fin_run_seq; [quiet_auto|]. intros _.
  apply fin_run_seq; [quiet_auto|]. intros now.
  apply (fin_run_bind _ _ _ _ (follows p)).
  { case_match; [by apply gives_ret; [apply _|]|].
    apply advance_runtime_release_gives. }
  intros b [Hb Hbs]. rewrite <-Hb, <-Hbs in *.
  apply fin_run_seq; [quiet_auto|]. intros j1.
  apply fin_run_seq; [quiet_auto|]. intros j2.
  apply fin_run_seq; [quiet_auto|]. intros _.
  by apply (finalization_tail_run b j2
    (entry_stage Removed (entry_stage RemovalIntent
      (entry_stage RuntimeReleaseConfirmed (entry_follow b e))))).
Qed.

(** A guarded advance, or none when the ledger is already there. *)
Lemma guarded_advance_gives (b : bool) h a state :
  sr_gives (quiet (fa_record_id a))
    (if b then guard_current_boot h a ;;; advance boot a state
     else sr_ret a) (follows a).
Proof.
  destruct b; [|by apply gives_ret; [apply _|]].
  apply gives_seq; [apply _|quiet_auto|]. intros _. apply advance_gives.
Qed.

Lemma resolve_then_release_run hosts a current existing journal entry :
  he_record_id entry = fa_record_id a →
  fin_run (fa_record_id a) (fa_seat a)
    (resolve_then_release boot hosts a current existing journal entry).
Proof.
  intros Hid. unfold resolve_then_release.
  apply (fin_run_bind _ _ _ _ (λ '(_, e), he_record_id e = fa_record_id a)).
  { destruct existing; [by apply gives_ret; [apply _|]|]. quiet_seq.
    by apply gives_ret; [apply _|]. }
  intros [j e] He.
  eapply fin_run_bind; [apply guarded_advance_gives|]. intros b [Hb Hbs].
  rewrite <-Hb, <-Hbs in *.
  apply fin_run_seq; [quiet_auto|]. intros j1.
  apply fin_run_seq; [quiet_auto|]. intros now.
  eapply fin_run_bind; [apply guarded_advance_gives|]. intros c [Hc Hcs].
  rewrite <-Hc, <-Hcs in *.
  apply fin_run_seq; [quiet_auto|]. intros j2.
  by apply authority_for_runtime_run.
Qed.

Lemma execute_after_revalidation hosts a file plan :
  fin_run (fa_record_id a) (fa_seat a)
    (let* journal := fin_io journal_load in
     sr_map_err DurableConflict (validate_against_ledger journal) ;;;
     let* current := current_record (fa_record_id a) in
     let existing := he_stage <$> journal_entry (fa_record_id a) journal in
     let entry := mkEntry (fa_record_id a) (fa_lifecycle_id a)
       (fa_seat a) (boot_str (fa_current_boot a))
       (fa_sequence a) NotReplayed (historical_not_replayed current)
       (Some (fi_device file)) (Some (fi_inode file)) (Some (fi_links file)) in
     if match plan with ResolveHistoricalRecord => true | _ => false end
        && negb (past_resolution existing)
     then resolve_then_release boot hosts a current existing journal entry
     else
       let* now := current_record (fa_record_id a) in
       let* authority :=
         (if bool_decide (ol_record_resolution (pr_operation_ledger now)
                            = NotStarted)
          then advance boot a "record_resolved" else sr_ret a) in
       authority_for_runtime boot hosts authority journal entry).
Proof.
  apply fin_run_seq; [quiet_auto|]. intros j.
  apply fin_run_seq; [quiet_auto|]. intros _.
  apply fin_run_seq; [quiet_auto|]. intros current. cbn zeta.
  destruct (_ && _); [by apply resolve_then_release_run|].
  apply fin_run_seq; [quiet_auto|]. intros now.
  apply (fin_run_bind _ _ _ _ (follows a)).
  { destruct (bool_decide _); [apply advance_gives|by apply gives_ret; [apply _|]]. }
  intros b [Hb Hbs]. rewrite <-Hb, <-Hbs. by apply authority_for_runtime_run.
Qed.

Lemma execute_outcome hosts record facts plan l seat :
  keyed l →
  (∀ rec, find_record (pr_lifecycle_id (pb_record record)) l = Some rec →
     seat = pr_seat rec) →
  let p := execute_previous_boot_plan boot hosts record facts plan l in
  finalization_outcome (pr_lifecycle_id (pb_record record)) seat l p.1 p.2.
Proof.
  intros K Hrec p. subst p. set (id := pr_lifecycle_id (pb_record record)) in *.
  unfold execute_previous_boot_plan. case_match; [by apply quiet_outcome|].
  rewrite sr_bind_eq. fold id.
  pose proof (keeps_fin_io _ _ (keeps_record_file_identity id) l) as Q.
  destruct (fin_io (record_file_identity id) l) as [l1 [file|e]];
    cbn [fst snd] in *; [|by apply quiet_outcome; [|apply readonly_quiet|]].
  pose proof (proj1 (proj2 Q)) as HR1. apply (readonly_quiet id) in Q.
  apply (quiet_then_outcome _ _ _ l1); [done..|]. clear Q. intros K1.
  rewrite sr_bind_eq.
  pose proof (revalidate_keeps (hosts 0%nat) record facts plan file l1) as Q. apply (readonly_quiet id) in Q.
  destruct (revalidate _ _ _ _ _ l1) as [l2 [a|e]] eqn:HV; cbn [fst snd] in *;
    [|by apply quiet_outcome].
  apply revalidate_authority in HV as (rec' & Hrec' & Hid & Hseat).
  fold id in Hrec', Hid. unfold find_record, records_list in Hrec', Hrec.
  rewrite HR1 in Hrec'. rewrite (Hrec _ Hrec'). apply (quiet_then_outcome _ _ _ l2); [done..|].
  intros K2. rewrite <-Hid, <-Hseat.
  by apply execute_after_revalidation.
Qed.
End Outcome.

(** ** A journal that is full *)

Section Full.
Context `{SerdeJson PersistentRecoveryRecord}.
Context `{!SerdeJson HistoricalFinalizationJournal}.
Context (boot : result string IoError).

Lemma upsert_new_length e l :
  List.find (λ c, str_eqb (he_record_id c) (he_record_id e)) l = None →
  length (upsert_entries e l) = S (length l).
Proof.
  induction l as [|c t IH]; [done|]. cbn. case_match; [done|].
  intros Hn. cbn. by rewrite IH.
Qed.

Lemma publish_full e j l :
  journal_entry (he_record_id e) j = None →
  MAX_JOURNAL_ENTRIES ≤ Z.of_nat (length (hj_entries j)) →
  ∃ err, publish e j l = (l, Err err).
Proof.
  intros Hn Hlen. unfold publish, journal_persist. cbn.
  rewrite (upsert_new_length _ _ Hn), (proj2 (Z.ltb_lt _ _)) by lia.
  by eexists.
Qed.

Lemma journal_load_reads l l' j f :
  journal_load l = (l', Ok j) → ledger_files l !! journal_name = Some f →
  serde_from_slice (file_data f) = Some j.
Proof.
  unfold journal_load. rewrite sr_bind_eq. intros HL Hf.
  pose proof (keeps_validate_journal_files l) as (_ & _ & HD).
  destruct (validate_journal_files l) as [l1 [[]|]]; [|done].
  cbn in HD. rewrite <-HD in Hf. clear HD. rewrite sr_bind_eq in HL.
  unfold read_historical_journal in HL. rewrite on_fs_spec in HL.
  destruct (fs_symlink_metadata journal_name (lg_fs l1)) as [d [f'|e]] eqn:E;
    cbn [fst snd] in HL.
  - apply fs_symlink_metadata_Ok in E. unfold ledger_files in Hf.
    rewrite Hf in E. injection E as <-.
    destruct (_ || _ || _ || _); [done|]. rewrite sr_bind_eq in HL.
    destruct (on_fs fs_call _) as [l3 [[]|]]; [|done]. cbn in HL.
    destruct (serde_from_slice (file_data f)) as [j'|]; [|done].
    destruct (_ || _); [done|]. by injection HL as _ <-.
  - case_decide as Hk; [|done].
    apply (fs_symlink_metadata_NotFound _ _ _ _ E) in Hk.
    unfold ledger_files in Hf. congruence.
Qed.

(** The reading prefix of a finalization: it changes nothing, and when it
    passes, the journal it goes on with is the one on disk, validated. *)
Lemma execute_prefix hosts record facts plan l :
  finalizes plan = true →
  let p := execute_previous_boot_plan boot hosts record facts plan l in
  (is_ok p.2 = false ∧ readonly l p.1)
  ∨ ∃ a j l3 l4 file current,
      fa_record_id a = pr_lifecycle_id (pb_record record)
      ∧ (∀ f, ledger_files l !! journal_name = Some f →
           serde_from_slice (file_data f) = Some j)
      ∧ readonly l l3 ∧ validate_against_ledger j l3 = (l4, Ok ())
      ∧ readonly l l4
      ∧ p = (let existing := he_stage <$> journal_entry (fa_record_id a) j in
             let entry := mkEntry (fa_record_id a) (fa_lifecycle_id a)
               (fa_seat a) (boot_str (fa_current_boot a)) (fa_sequence a)
               NotReplayed (historical_not_replayed current)
               (Some (fi_device file)) (Some (fi_inode file))
               (Some (fi_links file)) in
             if match plan with ResolveHistoricalRecord => true | _ => false end
                && negb (past_resolution existing)
             then resolve_then_release boot hosts a current existing j entry
             else
               let* now := current_record (fa_record_id a) in
               let* authority :=
                 (if bool_decide (ol_record_resolution
                        (pr_operation_ledger now) = NotStarted)
                  then advance boot a "record_resolved" else sr_ret a) in
               authority_for_runtime boot hosts authority j entry) l4.
Proof.
  intros Hplan p. subst p. unfold execute_previous_boot_plan. rewrite Hplan.
  cbn [negb]. set (id := pr_lifecycle_id (pb_record record)) in *.
  rewrite sr_bind_eq.
  pose proof (keeps_fin_io _ _ (keeps_record_file_identity id) l) as Q.
  destruct (fin_io (record_file_identity id) l) as [l1 [file|e]];
    cbn [fst snd] in *; [|by left]. rewrite sr_bind_eq.
  pose proof (revalidate_keeps (hosts 0%nat) record facts plan file l1) as Q1.
  destruct (revalidate _ _ _ _ _ l1) as [l2 [a|e]] eqn:HV; cbn [fst snd] in *;
    [|left; split; [done|by etrans]].
  apply revalidate_authority in HV as (rec & _ & Hid & _).
  rewrite sr_bind_eq.
  pose proof (keeps_fin_io _ _ keeps_journal_load l2) as Q2.
  destruct (fin_io journal_load l2) as [l3 [j|e]] eqn:HJ; cbn [fst snd] in *;
    [|left; split; [done|by do 2 (etrans; [eassumption|])]].
  assert (readonly l l3) as Q3 by (by do 2 (etrans; [eassumption|])).
  rewrite sr_bind_eq, sr_map_err_eq.
  pose proof (keeps_validate_against_ledger j l3) as Q4.
  destruct (validate_against_ledger j l3) as [l4 [[]|e]] eqn:HC;
    cbn [fst snd map_err] in *; [|left; split; [done|by etrans]].
  assert (readonly l l4) as Q5 by (by etrans).
  rewrite sr_bind_eq. destruct (current_record _ l4) as [l5 [cur|e]] eqn:Hcur;
    unfold current_record in Hcur; injection Hcur as <- Hcur; [|by left].
  right. exists a, j, l3, l4, file, cur. split; [done|].
  split; [|split; [done|split; [done|split; [done|]]]].
  - intros f Hf. unfold fin_io, sr_map_err in HJ.
    destruct (journal_load l2) as [l2' [j2|]] eqn:HJ'; [|done].
    cbn in HJ. injection HJ as -> ->. eapply journal_load_reads in HJ'; [done|].
    by rewrite (proj2 (proj2 Q1)), (proj2 (proj2 Q)).
  - cbn [fst snd]. done.
Qed.

Lemma execute_journal_full hosts record facts l f j :
  ledger_files l !! journal_name = Some f →
  serde_from_slice (file_data f) = Some j →
  MAX_JOURNAL_ENTRIES ≤ Z.of_nat (length (hj_entries j)) →
  journal_entry (pr_lifecycle_id (pb_record record)) j = None →
  let p := execute_previous_boot_plan boot hosts record facts
             ResolveHistoricalRecord l in
  is_ok p.2 = false ∧ readonly l p.1.
Proof.
  intros Hf Hj Hlen Hn p.
  destruct (execute_prefix hosts record facts ResolveHistoricalRecord l eq_refl)
    as [?|(a & j' & l3 & l4 & file & cur & Hid & HJ & _ & _ & Q & Hp)]; [done|].
  fold p in Hp. rewrite (HJ _ Hf) in Hj. injection Hj as ->.
  rewrite Hp, Hid, Hn. cbn [fmap option_fmap option_map past_resolution andb negb].
  cbn zeta. unfold resolve_then_release. rewrite sr_bind_eq, sr_bind_eq.
  match goal with |- context [publish ?e j l4] =>
    destruct (publish_full e j l4) as [err ->]; [done..|done] end.
Qed.

(** ** A journal behind the ledger *)

Lemma record_file_identity_Ok id l l' fi :
  record_file_identity id l = (l', Ok fi) →
  ∃ f, ledger_files l !! json_name id = Some f ∧ fi_inode fi = file_ino f.
Proof.
  unfold record_file_identity. rewrite sr_bind_eq. unfold sr_lift.
  destruct (record_path id) as [path|] eqn:HP; [|done].
  apply record_path_Ok in HP as ->. rewrite sr_bind_eq, on_fs_spec.
  destruct (fs_symlink_metadata _ (lg_fs l)) as [d [f|]] eqn:E; [|done].
  cbn [fst snd]. apply fs_symlink_metadata_Ok in E.
  destruct (_ || _); [done|]. intros [= <- <-]. by exists f.
Qed.

(** The entry names an inode the record file no longer has. *)
Definition stale_entry (e : HistoricalFinalizationEntry)
    (l : PersistentRecoveryLedger) : Prop :=
  is_Some (find_record (he_record_id e) l) ∧ is_Some (he_device e)
  ∧ ∃ i f, he_inode e = Some i
      ∧ ledger_files l !! json_name (he_record_id e) = Some f ∧ file_ino f ≠ i.

Lemma validate_entries_stale e es ids l :
  e ∈ es → stale_entry e l → is_ok (validate_entries ids es l).2 = false.
Proof.
  revert ids l. induction es as [|c es IH]; intros ids l Hin Hst;
    [by apply elem_of_nil in Hin|]. cbn [validate_entries].
  case_decide; [done|]. rewrite sr_bind_eq.
  pose proof (keeps_check_entry c l) as Q.
  apply elem_of_cons in Hin as [->|Hin].
  - destruct Hst as ([rec Hrec] & [dev Hdev] & i & f & Hi & Hf & Hne).
    clear Q. unfold check_entry. rewrite Hrec, sr_bind_eq. unfold sr_lift.
    destruct (entry_check c rec) as [[]|]; [|done].
    unfold entry_file_check. rewrite Hdev, Hi, sr_bind_eq, sr_map_err_eq.
    destruct (record_file_identity _ l) as [l1 [fi|]] eqn:E; [|done].
    apply record_file_identity_Ok in E as (f' & Hf' & Hino). cbn [map_err].
    assert ((fi_inode fi =? i) = false) as ->.
    { apply Z.eqb_neq. congruence. }
    by rewrite orb_true_r.
  - destruct (check_entry c l) as [l1 [[]|]]; [|done]. apply IH; [done|].
    destruct Q as (_ & R & D). unfold stale_entry, find_record, records_list in *.
    cbn in R, D. by rewrite R, D.
Qed.

Lemma execute_stale_journal hosts record facts plan l f j e :
  ledger_files l !! journal_name = Some f →
  serde_from_slice (file_data f) = Some j →
  e ∈ hj_entries j → stale_entry e l → finalizes plan = true →
  let p := execute_previous_boot_plan boot hosts record facts plan l in
  is_ok p.2 = false ∧ readonly l p.1.
Proof.
  intros Hf Hj He Hst Hplan p.
  destruct (execute_prefix hosts record facts plan l Hplan)
    as [?|(a & j' & l3 & l4 & file & cur & _ & HJ & Q3 & HV & _)]; [done|].
  rewrite (HJ _ Hf) in Hj. injection Hj as ->.
  destruct Q3 as (_ & R & D).
  assert (stale_entry e l3) as Hst3.
  { unfold stale_entry, find_record, records_list in *. by rewrite R, D. }
  pose proof (validate_entries_stale e (hj_entries j) ∅ l3 He Hst3) as Hbad.
  unfold validate_against_ledger in HV. by rewrite HV in Hbad.
Qed.
End Full.

(** ** Resumption after a restart *)

(** The receipts that let a seat go: the record is not in the ledger, and a
    bare intent counts only when the file is gone as well. *)
Definition resumable (e : HistoricalFinalizationEntry)
    (l : PersistentRecoveryLedger) : Prop :=
  find_record (he_record_id e) l = None ∧
  (he_stage e = Removed
   ∨ (he_stage e = RemovalIntent
      ∧ ledger_files l !! json_name (he_record_id e) = None)).

(** Steps that only take seats out of quarantine, each for a reason. *)
Definition releases (es : list HistoricalFinalizationEntry)
    (l l' : PersistentRecoveryLedger) : Prop :=
  lg_records l' = lg_records l ∧ ledger_files l' = ledger_files l
  ∧ lg_startup_quarantined_seats l' ⊆ lg_startup_quarantined_seats l
  ∧ ∀ seat, seat ∈ lg_startup_quarantined_seats l →
      seat ∉ lg_startup_quarantined_seats l' →
      ∃ e, e ∈ es ∧ he_seat e = seat ∧ resumable e l.

Lemma resumable_ext e l l' :
  lg_records l' = lg_records l → ledger_files l' = ledger_files l →
  resumable e l → resumable e l'.
Proof.
  unfold resumable, find_record, records_list. by intros -> ->.
Qed.

Lemma releases_trans es l1 l2 l3 :
  releases es l1 l2 → releases es l2 l3 → releases es l1 l3.
Proof.
  intros (R1 & D1 & S1 & H1) (R2 & D2 & S2 & H2).
  split; [congruence|]. split; [congruence|]. split; [by etrans|].
  intros seat H3 H4. destruct (decide (seat ∈ lg_startup_quarantined_seats l2))
    as [H5|H5].
  - destruct (H2 seat) as (e & ? & ? & ?); [done..|]. exists e.
    split; [done|]. split; [done|]. by apply (resumable_ext e l2).
  - by apply H1.
Qed.

Lemma releases_mono es es' l l' :
  es ⊆ es' → releases es l l' → releases es' l l'.
Proof.
  intros Hs (? & ? & ? & HR). split; [done|]. split; [done|]. split; [done|].
  intros seat Hin Hout. destruct (HR seat Hin Hout) as (e & ? & ?). eauto.
Qed.

Lemma readonly_releases es l l' : readonly l l' → releases es l l'.
Proof.
  intros ((_ & _ & _ & HS) & ? & ?). split; [done|]. split; [done|].
  rewrite HS. split; [done|]. by intros.
Qed.

Lemma record_file_exists_readonly id : sr_keeps readonly (record_file_exists id).
Proof.
  intros l. unfold record_file_exists.
  pose proof (keeps_record_file_identity id l) as H.
  destruct (record_file_identity id l) as [l' [fi|e]]; [done|].
  by case_decide.
Qed.

Lemma record_file_exists_false id l l' :
  record_file_exists id l = (l', Ok false) →
  ledger_files l !! json_name id = None.
Proof.
  unfold record_file_exists, record_file_identity. rewrite sr_bind_eq.
  unfold sr_lift. destruct (record_path id) as [path|e] eqn:HP.
  - apply record_path_Ok in HP as ->. rewrite sr_bind_eq, on_fs_spec.
    destruct (fs_symlink_metadata (json_name id) (lg_fs l)) as [d [f|e]] eqn:E;
      cbn [fst snd].
    + destruct (_ || _); done.
    + case_decide as Hk; [|done]. intros _.
      by apply (fs_symlink_metadata_NotFound _ _ _ _ E).
  - unfold record_path, validate_lifecycle_id in HP.
    destruct (_ || _); [|done]. injection HP as <-. done.
Qed.

Lemma clear_releases e l :
  resumable e l → releases [e] l (clear_seat_startup_quarantine (he_seat e) l).
Proof.
  intros HR. split; [done|]. split; [done|]. cbn. split; [set_solver|].
  intros seat H1 H2. exists e. split; [apply list_elem_of_singleton; done|].
  split; [|done]. apply dec_stable. set_solver.
Qed.

Lemma resume_entries_releases es j c l l' r :
  resume_entries es j c l = (l', r) → releases es l l'.
Proof.
  revert j c l l' r. induction es as [|e es IH]; intros j c l l' r HR.
  { injection HR as <- _. by apply readonly_releases. }
  assert (Hmono : ∀ l1 l2, releases es l1 l2 → releases (e :: es) l1 l2).
  { intros l1 l2. apply releases_mono. set_solver. }
  cbn in HR. destruct (_ || _) eqn:Hg; [by eapply Hmono, IH|]. bool_facts.
  rewrite sr_bind_eq in HR.
  set (skip := if bool_decide (he_stage e = RemovalIntent) then _ else _) in HR.
  assert (sr_keeps readonly skip) as Hskip.
  { subst skip. destruct (bool_decide _); [|quiet_auto].
    apply keeps_fin_io, record_file_exists_readonly. }
  specialize (Hskip l). destruct (skip l) as [l1 [[|]|err]] eqn:Hs; cbn in Hskip.
  - eapply releases_trans; [by apply readonly_releases|]. by eapply Hmono, IH.
  - eapply releases_trans; [by apply readonly_releases|].
    rewrite sr_bind_eq in HR. cbn in HR.
    eapply releases_trans; [|by eapply Hmono, IH].
    eapply (releases_mono [e]); [set_solver|]. apply clear_releases.
    destruct Hskip as (_ & HRec & HD). apply (resumable_ext e l); [done..|].
    split; [by apply eq_None_not_Some|].
    subst skip. destruct (bool_decide (he_stage e = RemovalIntent)) eqn:Hst;
      bool_facts; [right|left; by destruct (he_stage e)].
    split; [done|]. unfold fin_io, sr_map_err in Hs.
    destruct (record_file_exists _ l) as [l2 [b|]] eqn:E; [|done].
    injection Hs as -> ->. by eapply record_file_exists_false.
  - injection HR as <- _. by apply readonly_releases.
Qed.

(** ** Properties *)

Section Claims.
Context `{SerdeJson PersistentRecoveryRecord}.
Context `{!SerdeJson HistoricalFinalizationJournal}.
Context `{!SerdeRoundtrip HistoricalFinalizationJournal}.

(** C31. Whatever the kernel, the inspection host or the boot id answer,
    finalizing one historical record touches no other record, no file but
    its own and the journal's, no quarantine verdict of the load, and in
    the record only the sequence, the update boot, the state and the two
    bookkeeping operations: no operation of the earlier boot (payload kill,
    unref, logind termination, VT and SELinux work) is replayed or
    rewritten. *)
Theorem finalization_replays_nothing boot hosts record facts plan l l' r :
  keyed l →
  execute_previous_boot_plan boot hosts record facts plan l = (l', r) →
  let id := pr_lifecycle_id (pb_record record) in
  keyed l'
  ∧ lg_read_results l' = lg_read_results l
  ∧ lg_record_set l' = lg_record_set l
  ∧ startup_quarantined l' = startup_quarantined l
  ∧ (∀ i, i ≠ id → lg_records l' !! i = lg_records l !! i)
  ∧ (∀ n, foreign_file id n → ledger_files l' !! n = ledger_files l !! n)
  ∧ (∀ r', lg_records l' !! id = Some r' →
       ∃ r0, lg_records l !! id = Some r0
         ∧ historical_view r' = historical_view r0).
Proof.
  intros K HE id.
  pose proof (execute_outcome boot hosts record facts plan l
    (match find_record id l with Some rec => pr_seat rec | None => EmptyString
     end) K) as HO.
  rewrite HE in HO. specialize (HO ltac:(intros rec E; subst id; by rewrite E)).
  destruct HO. by auto 10.
Qed.

(** Finalization fails closed: a seat leaves startup quarantine only
    if it is the seat of the record that was finalized, and only when that
    record is gone from the ledger and its file from the disk, on every
    path, errors included. *)
Theorem finalization_fails_closed boot hosts record facts plan l l' r seat :
  keyed l →
  execute_previous_boot_plan boot hosts record facts plan l = (l', r) →
  seat_startup_quarantined seat l = true →
  seat_startup_quarantined seat l' = false →
  let id := pr_lifecycle_id (pb_record record) in
  gone id l' ∧ ∃ rec, find_record id l = Some rec ∧ pr_seat rec = seat.
Proof.
  intros K HE Hin Hout id. unfold seat_startup_quarantined in *. bool_facts.
  pose proof (execute_outcome boot hosts record facts plan l
    (match find_record id l with Some rec => pr_seat rec
     | None => "." +:+ seat end) K) as HO.
  rewrite HE in HO. specialize (HO ltac:(intros rec E; subst id; by rewrite E)).
  destruct HO as [_ _ _ _ _ _ _ [HS|[HS HG]] _]; cbn in *;
    [by rewrite HS in Hout|].
  destruct (find_record id l) as [rec|].
  - split; [done|]. exists rec. split; [done|]. apply dec_stable. set_solver.
  - exfalso. apply Hout. rewrite HS. apply elem_of_difference. split; [done|].
    intros Heq%elem_of_singleton. apply (f_equal String.length) in Heq.
    assert (String.length ("." +:+ seat) = S (String.length seat)) by done. lia.
Qed.

(** When finalization reports the seat freed, the record is gone from
    memory and disk, its seat is out of startup quarantine, and the journal
    on disk carries the final receipt. *)
Theorem finalization_freed boot hosts record facts plan l l' rec :
  keyed l →
  find_record (pr_lifecycle_id (pb_record record)) l = Some rec →
  execute_previous_boot_plan boot hosts record facts plan l
    = (l', Ok SeatFreed) →
  let id := pr_lifecycle_id (pb_record record) in
  gone id l' ∧ seat_startup_quarantined (pr_seat rec) l' = false
  ∧ free_published id l'.
Proof.
  intros K Hrec HE id.
  pose proof (execute_outcome boot hosts record facts plan l (pr_seat rec) K)
    as HO. rewrite HE in HO. specialize (HO ltac:(congruence)).
  by apply (fo_freed _ _ _ _ _ HO).
Qed.

(** A journal that holds 64 entries for other records blocks every
    further resolution: the plan to resolve a record fails, and neither the
    record nor any file changes.  Published entries count, because nothing
    ever prunes them. *)
Theorem full_journal_blocks_resolution boot hosts record facts l f j :
  ledger_files l !! journal_name = Some f →
  serde_from_slice (file_data f) = Some j →
  MAX_JOURNAL_ENTRIES ≤ Z.of_nat (length (hj_entries j)) →
  journal_entry (pr_lifecycle_id (pb_record record)) j = None →
  let p := execute_previous_boot_plan boot hosts record facts
             ResolveHistoricalRecord l in
  is_ok p.2 = false ∧ lg_records p.1 = lg_records l
  ∧ ledger_files p.1 = ledger_files l
  ∧ lg_startup_quarantined_seats p.1 = lg_startup_quarantined_seats l.
Proof.
  intros. destruct (execute_journal_full boot hosts record facts l f j)
    as (? & (_ & _ & _ & ?) & ? & ?); auto.
Qed.

(** A journal left behind by one ledger commit blocks finalization for
    good: when an entry still names the inode that a commit has since
    replaced (commits replace the file), every finalization fails without
    changing record, file or quarantine, so a restart does not resume. *)
Theorem stale_journal_blocks_finalization boot hosts record facts plan l f j e :
  ledger_files l !! journal_name = Some f →
  serde_from_slice (file_data f) = Some j →
  e ∈ hj_entries j → stale_entry e l → finalizes plan = true →
  let p := execute_previous_boot_plan boot hosts record facts plan l in
  is_ok p.2 = false ∧ lg_records p.1 = lg_records l
  ∧ ledger_files p.1 = ledger_files l
  ∧ lg_startup_quarantined_seats p.1 = lg_startup_quarantined_seats l.
Proof.
  intros. destruct (execute_stale_journal boot hosts record facts plan l f j e)
    as (? & (_ & _ & _ & ?) & ? & ?); auto.
Qed.

(** After a restart a seat leaves startup quarantine only on a durable
    receipt: the journal on disk has an entry of that seat whose record is
    not in the ledger, and which either says the record was removed or
    announces the removal while the file is gone too; and never under a
    global quarantine. *)
Theorem resume_releases_on_receipt l l' r seat f :
  resume_removed_previous_boot_finalization l = (l', r) →
  ledger_files l !! journal_name = Some f →
  seat_startup_quarantined seat l = true →
  seat_startup_quarantined seat l' = false →
  startup_quarantined l = false
  ∧ ∃ j e, serde_from_slice (file_data f) = Some j ∧ e ∈ hj_entries j
      ∧ he_seat e = seat ∧ resumable e l.
Proof.
  unfold seat_startup_quarantined. intros HR Hf Hin Hout. bool_facts.
  unfold resume_removed_previous_boot_finalization in HR.
  rewrite sr_bind_eq in HR. unfold fin_io, sr_map_err in HR.
  pose proof (keeps_journal_load l) as Q1.
  destruct (journal_load l) as [l1 [j|e]] eqn:HJ; cbn in HR, Q1.
  2: { injection HR as <- _. destruct Q1 as ((_&_&_&E)&_). congruence. }
  apply (journal_load_reads _ _ _ _ HJ) in Hf. rewrite sr_bind_eq in HR.
  pose proof (keeps_validate_against_ledger j l1) as Q2.
  destruct (validate_against_ledger j l1) as [l2 [[]|e]]; cbn in HR, Q2;
    assert (readonly l l2) as ((_&_&F&E)&R&D) by (by etrans).
  2: { injection HR as <- _. congruence. }
  unfold startup_quarantined in *. rewrite F in HR.
  destruct (lg_startup_quarantined l); [injection HR as <- _; congruence|].
  split; [done|]. rewrite sr_bind_eq in HR.
  destruct (resume_entries _ j 0 l2) as [l3 r3] eqn:HS.
  apply resume_entries_releases in HS as (_ & _ & _ & HS).
  assert (lg_startup_quarantined_seats l' = lg_startup_quarantined_seats l3)
    as E'.
  { destruct r3 as [[j' c]|e]; [|by injection HR as <- _].
    rewrite sr_bind_eq in HR. destruct (c =? 0); cbn in HR.
    { by injection HR as <- _. }
    pose proof (keeps_journal_persist_frame j' l3) as ((_&_&_&HP)&_).
    destruct (journal_persist j' l3) as [l4 [[]|]]; injection HR as <- _; exact HP. }
  rewrite E' in Hout. rewrite <-E in Hin.
  destruct (HS seat Hin Hout) as (e & He & Hes & Hre).
  exists j, e. split; [done|]. split; [done|]. split; [done|].
  by apply (resumable_ext e l2).
Qed.
End Claims.
