(* ===== verification/Startup.v ===== *)
(** * Opening the ledger and reconciling it at startup

    [PersistentRecoveryLedger::open], the journal's effect on it
    ([persistent_storage_journal.rs]) and [StartupRecoveryCoordinator]
    ([startup.rs], [startup_previous_boot.rs], [startup_support.rs],
    [startup_quarantine.rs]). *)

From stdpp Require Import base gmap sets list strings pretty.
From Stdlib Require Import ZArith Lia.
From S2P Require Import Prelude DirFs RecoveryTypes LedgerTaxonomy Ledger.
From S2P Require Import LedgerLoad PreviousBoot SameBoot Admission Finalization.
From S2P Require Import FinalizationSafety.
#[local] Open Scope niralis_scope.

(** ** Opening *)

Section Open.
Context `{SerdeJson PersistentRecoveryRecord, SerdeValue}.
Context `{!SerdeJson HistoricalFinalizationJournal}.

Definition quarantine_entry (l : PersistentRecoveryLedger)
    (e : HistoricalFinalizationEntry) : PersistentRecoveryLedger :=
  if bool_decide (he_stage e = FreePublished) then l
  else mark_seat_startup_quarantine (he_seat e) l.

Definition apply_historical_journal_quarantine (l : PersistentRecoveryLedger)
    : PersistentRecoveryLedger :=
  match path_exists journal_name l with
  | (l, Ok true) =>
      match journal_load l with
      | (l, Ok journal) => foldl quarantine_entry l (hj_entries journal)
      | (l, Err _) => mark_startup_quarantine l
      end
  | (l, _) => l
  end.

(** From the acquired lock on.  [boot] answers [current_boot_id()];
    [entries] is the directory listing. *)
Definition open_locked (boot : result string IoError)
    (entries : list (string * File)) (d : DirFs)
    : result PersistentRecoveryLedger IoError :=
  let current_boot :=
    match boot with
    | Ok b => match BootIdentity_parse b with Ok i => Some i | Err _ => None end
    | Err _ => None
    end in
  match load_records current_boot entries d with
  | (_, Err e) => Err e
  | (d, Ok s) =>
      let record_set :=
        match current_boot with
        | Some b => classify_recovery_record_set (ld_read_results s) b
        | None =>
            let z := RecordSet_default in
            mkRecordSet (rs_blocked_seats z) (rs_same_boot_seats z)
              (rs_previous_boot_seats z) (rs_conflicts z) true
        end in
      Ok (apply_historical_journal_quarantine
            (mkLedger d (ld_result s) (ld_read_results s) record_set
               (ld_quarantined s || rs_global_quarantine record_set) ∅))
  end.
End Open.

(** ** Helpers of the coordinator *)

Record StartupReconciliationSummary := mkSummary {
  sm_free : Z; sm_quarantined : Z }.
Definition count_free (n : Z) (s : StartupReconciliationSummary) :=
  mkSummary (sm_free s + n) (sm_quarantined s).
Definition count_quarantined (s : StartupReconciliationSummary) :=
  mkSummary (sm_free s) (sm_quarantined s + 1).

Definition previous_boot_current_facts (host : InspectionHost)
    (record : PreviousBootRecoveryRecord)
    (records : list PersistentRecoveryRecord) (ambiguous_neighbor : bool)
    : PreviousBootCurrentFacts :=
  let facts :=
    match host_snapshot host record records with
    | Ok facts => facts
    | Err error =>
        let u := ObsInspectionUnavailable in
        let z := PreviousBootCurrentFacts_default in
        mkFacts (pf_authority z) (mkConflictFacts u u u u u) (pf_seat z)
          (pf_scopes z) (pf_sessions z) (pf_historical_pid_reuse z) (pf_vt z)
          (pf_competing_records z) [error] (pf_has_newer_record_for_seat z)
          (pf_has_same_boot_record_for_seat z) (pf_ambiguous_neighbor z)
    end in
  mkFacts (pf_authority facts) (pf_conflicts facts) (pf_seat facts)
    (pf_scopes facts) (pf_sessions facts) (pf_historical_pid_reuse facts)
    (pf_vt facts) (pf_competing_records facts) (pf_inspection_failures facts)
    (pf_has_newer_record_for_seat facts)
    (pf_has_same_boot_record_for_seat facts) ambiguous_neighbor.

Inductive StartupRecoveryDecision :=
| ObserveSurvivingWorker | ResumeEmergencyRecovery | ResumeAfterBoundaryProof
| ResumeLogindCleanup | ResumeVtRecovery | PreserveQuarantine
| DecideQuarantine (reason : StartupRecoveryFailure).
#[export] Instance StartupRecoveryDecision_eq_dec :
  EqDecision StartupRecoveryDecision.
Proof. solve_decision. Defined.

Definition persisted_decision (record : PersistentRecoveryRecord)
    : StartupRecoveryDecision :=
  let st := str_eqb (pr_state record) in
  if st "started" || st "worker_exited_unexpectedly"
  then ResumeEmergencyRecovery
  else if st "payload_boundary_proven_empty" then ResumeLogindCleanup
  else if st "logind_cleanup_completed" then ResumeVtRecovery
  else if st "vt_recovery_completed" then ResumeAfterBoundaryProof
  else if st "quarantined" || st "vt_disallocate_failed_busy"
  then PreserveQuarantine
  else if st "payload_prepared" || st "payload_registered"
  then ObserveSurvivingWorker
  else DecideQuarantine UnsupportedRehydration.

Definition conflict_keys (record : PersistentRecoveryRecord) : list string :=
  ["seat:" +:+ pr_seat record;
   match pr_target_vt record with Some vt => "vt:" +:+ pretty vt
   | None => EmptyString end;
   match pr_invocation_id record with Some id => "invocation:" +:+ id
   | None => EmptyString end].

Definition conflict_key (id : string)
    (st : gmap string string * gset string) (key : string)
    : gmap string string * gset string :=
  let '(seen, conflicted) := st in
  if str_is_empty key then st
  else (<[key := id]> seen,
        match seen !! key with
        | Some previous => {[id]} ∪ ({[previous]} ∪ conflicted)
        | None => conflicted
        end).

Definition conflicts (records : list PersistentRecoveryRecord) : gset string :=
  (foldl (λ st record,
            foldl (conflict_key (pr_lifecycle_id record)) st
              (conflict_keys record))
     (∅, ∅) records).2.

Definition can_retry_coherent_absent_boundary
    (record : PersistentRecoveryRecord) : bool :=
  str_eqb (pr_state record) "quarantined"
  && match pr_quarantine_reason record with
     | Some r => str_eqb r "boundary_identity_changed"
                 || str_eqb r "logind_identity_changed"
     | None => false end
  && bool_decide (pr_operation_ledger record
       = mkOpLedger NotStarted NotStarted NotStarted NotStarted NotStarted
           NotStarted NotStarted NotStarted).

(** ** The coordinator *)

Inductive UnknownScopeInventory :=
| ScopesNone | KnownSeats (seats : gset string) | GlobalQuarantine.

Inductive StartupRecoveryOutcome :=
| OutcomeFree | OutcomeQuarantined (reason : StartupRecoveryFailure).

(** [SupervisorRecoveryProvider], the two operations startup uses. *)
Record RecoveryProvider := mkProvider {
  pv_inventory : list PersistentRecoveryRecord →
    result UnknownScopeInventory StartupRecoveryFailure;
  pv_reconcile : SameBootRecoveryRecord → PersistentRecoveryLedger →
    PersistentRecoveryLedger * StartupRecoveryOutcome;
}.

(** What the machine answers while one startup runs: the host and the boot
    id may answer differently for each record. *)
Record StartupEnv := mkEnv {
  ev_current_boot : result BootIdentity PreviousBootInspectionError;
  ev_host : string → nat → InspectionHost;
  ev_boot_id : string → result string IoError;
}.

Section Reconcile.
Context `{SerdeJson PersistentRecoveryRecord}.
Context `{!SerdeJson HistoricalFinalizationJournal}.
Context (env : StartupEnv) (provider : RecoveryProvider).

Abbreviation Run := (PersistentRecoveryLedger * StartupReconciliationSummary)%type.

Definition quarantine_startup_record (id : string)
    (reason : StartupRecoveryFailure) (run : Run) : Run :=
  let '(l, summary) := run in
  if existsb (λ r, str_eqb (pr_lifecycle_id r) id
                   && str_eqb (pr_state r) "quarantined"
                   && bool_decide (pr_quarantine_reason r
                        = Some (persistent_reason reason)))
       (records_list l)
  then (l, count_quarantined summary)
  else match quarantine (ev_boot_id env id) id reason l with
       | (l, Err _) => (mark_startup_quarantine l, count_quarantined summary)
       | (l, Ok _) => (l, count_quarantined summary)
       end.

Definition finalize_or_quarantine (id : string) (run : Run) : Run :=
  let '(l, summary) := run in
  match finalize_startup_record (ev_boot_id env id) id l with
  | (l, Ok _) => (l, count_free 1 summary)
  | (l, Err _) => quarantine_startup_record id UnsupportedRehydration (l, summary)
  end.

Definition reconcile_previous (records : list PersistentRecoveryRecord)
    (record_set : RecoveryRecordSetClassification)
    (record : PreviousBootRecoveryRecord) (run : Run) : Run :=
  let '(l, summary) := run in
  let seat := pr_seat (pb_record record) in
  let id := pr_lifecycle_id (pb_record record) in
  if rs_global_quarantine record_set || seat_blocked record_set seat
  then (mark_seat_startup_quarantine seat l, count_quarantined summary)
  else
    let facts := previous_boot_current_facts (ev_host env id 5%nat) record
                   records (startup_quarantined l) in
    let plan := plan_previous_boot_reconciliation record facts in
    let l := mark_seat_startup_quarantine seat l in
    match execute_previous_boot_plan (ev_boot_id env id) (ev_host env id)
            record facts plan l with
    | (l, Ok SeatFreed) => (l, count_free 1 summary)
    | (l, _) => (l, count_quarantined summary)
    end.

Definition reconcile_same (blocked conflicted : gset string)
    (same : SameBootRecoveryRecord) (run : Run) : Run :=
  let '(l, summary) := run in
  let record := sb_record same in
  let id := pr_lifecycle_id record in
  match last (pr_vt_recovery_attempts record) with
  | Some (mkVtRecoveryAttempt attempt_id _ _ VraIntentPersisted _ _) =>
      let '(l, _) := finish_vt_recovery_attempt (ev_boot_id env id) id
                       attempt_id VraIndeterminate None l in
      (l, count_quarantined summary)
  | _ =>
  if bool_decide (pr_seat record ∈ blocked)
  then quarantine_startup_record id SrfUnknownPayloadScope run
  else if str_eqb (pr_state record) "record_resolved"
          || str_eqb (pr_state record) "cleared_by_boot_boundary"
  then finalize_or_quarantine id run
  else if bool_decide (id ∈ conflicted)
  then quarantine_startup_record id PersistentRecordConflict run
  else if bool_decide (persisted_decision record = PreserveQuarantine)
          && negb (can_retry_coherent_absent_boundary record)
  then (l, count_quarantined summary)
  else match pv_reconcile provider same l with
       | (l, OutcomeFree) => finalize_or_quarantine id (l, summary)
       | (l, OutcomeQuarantined reason) =>
           quarantine_startup_record id reason (l, summary)
       end
  end.

Definition reconcile_epoch (records : list PersistentRecoveryRecord)
    (record_set : RecoveryRecordSetClassification)
    (blocked conflicted : gset string) (run : Run)
    (epoch : RecoveryRecordEpoch) : Run :=
  match epoch with
  | EpochPreviousBoot record =>
      reconcile_previous records record_set record run
  | EpochSameBoot same => reconcile_same blocked conflicted same run
  end.

Fixpoint classify_epochs (boot : BootIdentity)
    (records : list PersistentRecoveryRecord)
    : result (list RecoveryRecordEpoch) PreviousBootInspectionError :=
  match records with
  | [] => Ok []
  | r :: rest =>
      match RecoveryRecordEpoch_classify r boot with
      | Err e => Err e
      | Ok e => match classify_epochs boot rest with
                | Ok es => Ok (e :: es)
                | Err e => Err e
                end
      end
  end.

Definition same_boot_records (epochs : list RecoveryRecordEpoch)
    : list PersistentRecoveryRecord :=
  omap (λ e, match e with EpochSameBoot s => Some (sb_record s)
             | EpochPreviousBoot _ => None end) epochs.

Definition abandon_startup (records : list PersistentRecoveryRecord)
    (l : PersistentRecoveryLedger) : Run :=
  (mark_startup_quarantine l,
   mkSummary 0 (Z.max (Z.of_nat (length records)) 1)).

(** Up to the end of the loop over the records; [inl] is an early return. *)
Definition reconcile_records (l : PersistentRecoveryLedger) : Run + Run :=
  let records := records_list l in
  match ev_current_boot env with
  | Err _ => inl (abandon_startup records l)
  | Ok current_boot =>
  match classify_epochs current_boot records with
  | Err _ => inl (abandon_startup records l)
  | Ok epochs =>
      let same := same_boot_records epochs in
      match (match pv_inventory provider same with
             | Ok i => i | Err _ => GlobalQuarantine end) with
      | GlobalQuarantine => inl (abandon_startup records l)
      | inventory =>
          let blocked := match inventory with KnownSeats s => s | _ => ∅ end in
          let l := foldl (λ l seat, mark_seat_startup_quarantine seat l) l
                     (elements blocked) in
          let record_set := lg_record_set l in
          if rs_global_quarantine record_set then inl (abandon_startup records l)
          else inr (foldl (reconcile_epoch records record_set blocked
                             (conflicts same))
                      (l, mkSummary 0 0) epochs)
      end
  end end.

Definition reconcile (l : PersistentRecoveryLedger) : Run :=
  match reconcile_records l with
  | inl run => run
  | inr (l, summary) =>
      match resume_removed_previous_boot_finalization l with
      | (l, Ok n) => (l, count_free n summary)
      | (l, Err _) => (l, summary)
      end
  end.
End Reconcile.

(** ** Lemmas on the lookups *)

Lemma find_record_keyed id l : keyed l → find_record id l = lg_records l !! id.
Proof.
  intros K. unfold find_record.
  destruct (List.find _ _) as [r|] eqn:E.
  - apply List.find_some in E as [Hin Hid]. apply str_eqb_true in Hid as <-.
    apply list_elem_of_In, btree_values_elem in Hin as [k Hk].
    by rewrite <-(K _ _ Hk) in Hk.
  - symmetry. apply eq_None_not_Some. intros [r Hr].
    eapply List.find_none in E; [|apply list_elem_of_In, btree_values_elem; eauto].
    by rewrite (K _ _ Hr), str_eqb_refl in E.
Qed.

Lemma records_list_NoDup l :
  keyed l → NoDup (pr_lifecycle_id <$> records_list l).
Proof.
  intros K. unfold records_list, btree_values.
  assert (pr_lifecycle_id <$> (btree_entries (lg_records l)).*2
          = (btree_entries (lg_records l)).*1) as ->;
    [|apply btree_entries_NoDup].
  rewrite <-list_fmap_compose. apply list_fmap_ext. intros i [k r] Hk.
  cbn. apply K. by apply btree_entries_elem, (list_elem_of_lookup_2 _ i).
Qed.

Lemma conflicts_singleton r : conflicts [r] = ∅.
Proof.
  unfold conflicts, conflict_keys. cbn [foldl].
  destruct (pr_target_vt r) as [vt|], (pr_invocation_id r) as [inv|]; cbn;
    rewrite ?lookup_empty, ?lookup_insert_ne by done;
    rewrite ?lookup_empty, ?lookup_insert_ne by done;
    by rewrite ?lookup_empty.
Qed.

Lemma records_list_singleton l id r :
  lg_records l = {[id := r]} → records_list l = [r].
Proof.
  intros HR. unfold records_list, btree_values, btree_entries.
  by rewrite HR, map_to_list_singleton.
Qed.

Section Loop.
Context `{SerdeJson PersistentRecoveryRecord}.
Context `{!SerdeJson HistoricalFinalizationJournal}.
Context `{!SerdeRoundtrip HistoricalFinalizationJournal}.
Context (env : StartupEnv) (provider : RecoveryProvider).

(** The provider works on the record it was given and leaves the quarantine
    verdicts alone, as the ledger operations it may call do. *)
Definition provider_local : Prop := ∀ same l,
  touches (pr_lifecycle_id (sb_record same)) l (pv_reconcile provider same l).1.

(** One iteration: other records stay, quarantine verdicts only grow, and
    the seat of another record is never released. *)
Record loop_step (id seat : string) (l l' : PersistentRecoveryLedger)
    : Prop := {
  lp_keyed : keyed l';
  lp_set : lg_record_set l' = lg_record_set l;
  lp_records : ∀ i, i ≠ id → lg_records l' !! i = lg_records l !! i;
  lp_quarantined : startup_quarantined l = true → startup_quarantined l' = true;
  lp_seats : ∀ s, s ≠ seat → seat_startup_quarantined s l = true →
    seat_startup_quarantined s l' = true;
}.

Lemma touches_loop_step id seat l l' :
  keyed l → touches id l l' → loop_step id seat l l'.
Proof.
  intros K HT. destruct (HT K) as [K' (F1&F2&F3&F4) R _ _].
  split; [done|done|done|..];
    unfold startup_quarantined, seat_startup_quarantined; by rewrite ?F3, ?F4.
Qed.

Lemma loop_step_trans id seat l1 l2 l3 :
  loop_step id seat l1 l2 → loop_step id seat l2 l3 → loop_step id seat l1 l3.
Proof.
  intros [_ S1 R1 Q1 D1] [K2 S2 R2 Q2 D2].
  split; [done|congruence| |by auto|by auto].
  intros i Hi. by rewrite R2, R1.
Qed.

Lemma quarantine_startup_record_step id reason seat run :
  keyed run.1 →
  loop_step id seat run.1
    (quarantine_startup_record env id reason run).1.
Proof.
  destruct run as [l sm]. unfold quarantine_startup_record. cbn [fst].
  intros K. destruct (existsb _ _); [by apply touches_loop_step|].
  pose proof (steps_touches id _ (quarantine_steps (ev_boot_id env id) id reason) l)
    as HT.
  destruct (quarantine _ _ _ l) as [l' [[]|e]]; cbn [fst] in *;
    [exact (touches_loop_step id seat l l' K HT)|].
  apply (touches_loop_step id seat) in HT as [K' S' R' Q' D']; [|done].
  by split; auto.
Qed.

Lemma finalize_or_quarantine_step id seat run :
  keyed run.1 →
  loop_step id seat run.1 (finalize_or_quarantine env id run).1.
Proof.
  destruct run as [l sm]. intros K. cbn in K. unfold finalize_or_quarantine.
  destruct (finalize_startup_record _ id l) as [l' r] eqn:E.
  assert (touches id l l') as HT.
  { destruct (lg_records l !! id) as [r0|] eqn:Hr.
    - pose proof (finalize_startup_record_mine (ev_boot_id env id) id l r0 K Hr
        l eq_refl) as HT. rewrite E in HT. destruct r; [apply HT|done].
    - unfold finalize_startup_record in E.
      apply record_for_operation_bind in E as [(_ & -> & _)|(? & ? & _)];
        [reflexivity|congruence]. }
  destruct r as [p|e]; [by apply touches_loop_step|].
  eapply loop_step_trans; [by apply touches_loop_step|].
  apply (quarantine_startup_record_step _ _ _ (l', sm)). cbn. by apply HT.
Qed.

Lemma reconcile_same_step blocked conflicted same seat run :
  provider_local → keyed run.1 →
  loop_step (pr_lifecycle_id (sb_record same)) seat run.1
    (reconcile_same env provider blocked conflicted same run).1.
Proof.
  intros HP K. destruct run as [l sm]. cbn in K. unfold reconcile_same.
  set (id := pr_lifecycle_id (sb_record same)).
  assert (loop_step id seat l
    (if bool_decide (pr_seat (sb_record same) ∈ blocked)
     then quarantine_startup_record env id SrfUnknownPayloadScope (l, sm)
     else if str_eqb (pr_state (sb_record same)) "record_resolved"
             || str_eqb (pr_state (sb_record same)) "cleared_by_boot_boundary"
     then finalize_or_quarantine env id (l, sm)
     else if bool_decide (id ∈ conflicted)
     then quarantine_startup_record env id PersistentRecordConflict (l, sm)
     else if bool_decide (persisted_decision (sb_record same) = PreserveQuarantine)
             && negb (can_retry_coherent_absent_boundary (sb_record same))
     then (l, count_quarantined sm)
     else match pv_reconcile provider same l with
          | (l, OutcomeFree) => finalize_or_quarantine env id (l, sm)
          | (l, OutcomeQuarantined reason) =>
              quarantine_startup_record env id reason (l, sm)
          end).1) as Hrest.
  { destruct (bool_decide _);
      [by apply (quarantine_startup_record_step _ _ _ (l, sm))|].
    destruct (_ || _); [by apply (finalize_or_quarantine_step _ _ (l, sm))|].
    destruct (bool_decide (id ∈ _));
      [by apply (quarantine_startup_record_step _ _ _ (l, sm))|].
    destruct (_ && _); [by apply touches_loop_step|].
    pose proof (HP same l) as HT. fold id in HT.
    destruct (pv_reconcile provider same l) as [l' [|reason]]; cbn in HT;
      (eapply loop_step_trans; [by apply touches_loop_step|]).
    - apply (finalize_or_quarantine_step _ _ (l', sm)). cbn. by apply HT.
    - apply (quarantine_startup_record_step _ _ _ (l', sm)). cbn. by apply HT. }
  destruct (last _) as [[att rb es [] pb pa]|]; try exact Hrest.
  pose proof (steps_touches id _ (finish_vt_recovery_attempt_steps
    (ev_boot_id env id) id att VraIndeterminate None) l) as HT.
  destruct (finish_vt_recovery_attempt _ _ _ _ _ l) as [l' r]. cbn in *.
  by apply touches_loop_step.
Qed.

(** A previous-boot record leaves its own seat quarantined or is gone. *)
Lemma reconcile_previous_step records set record run :
  keyed run.1 →
  (∀ r, lg_records run.1 !! pr_lifecycle_id (pb_record record) = Some r →
     pr_seat r = pr_seat (pb_record record)) →
  let l' := (reconcile_previous env records set record run).1 in
  loop_step (pr_lifecycle_id (pb_record record)) (pr_seat (pb_record record))
    run.1 l'
  ∧ (lg_records l' !! pr_lifecycle_id (pb_record record) = None
     ∨ seat_startup_quarantined (pr_seat (pb_record record)) l' = true)
  ∧ (seat_blocked set (pr_seat (pb_record record)) = true →
     ∀ s, seat_startup_quarantined s run.1 = true →
       seat_startup_quarantined s l' = true).
Proof.
  destruct run as [l sm]. cbn [fst]. intros K Hseat.
  unfold reconcile_previous.
  set (seat := pr_seat (pb_record record)) in *.
  set (id := pr_lifecycle_id (pb_record record)) in *.
  set (lm := mark_seat_startup_quarantine seat l).
  assert (∀ s, seat_startup_quarantined s l = true →
            seat_startup_quarantined s lm = true) as Hmark.
  { unfold seat_startup_quarantined. intros s Hs. bool_facts.
    apply bool_decide_eq_true. subst lm. cbn. set_solver. }
  assert (seat_startup_quarantined seat lm = true) as Hself.
  { apply bool_decide_eq_true. cbn. set_solver. }
  destruct (rs_global_quarantine set || seat_blocked set seat) eqn:Hb; cbn [fst].
  { split; [by split; auto|]. split; [by right|by auto]. }
  set (facts := previous_boot_current_facts _ _ _ _).
  set (plan := plan_previous_boot_reconciliation _ _).
  pose proof (execute_outcome (ev_boot_id env id) (ev_host env id) record facts
    plan lm seat K) as HO. fold id in HO.
  specialize (HO ltac:(intros rec Hrec; rewrite find_record_keyed in Hrec by done;
    symmetry; by apply Hseat)).
  destruct (execute_previous_boot_plan _ _ _ _ _ lm) as [l' r]. cbn [fst snd] in HO.
  assert ((match r with Ok SeatFreed => (l', count_free 1 sm)
           | _ => (l', count_quarantined sm) end).1 = l') as ->
    by (by destruct r as [[]|]).
  destruct HO as [K' _ S' Q' R' _ _ Hs _]. fold (startup_quarantined l') in Q'.
  apply orb_false_iff in Hb as [_ Hb]. rewrite Hb.
  split; [|split; [|done]].
  - split; [done|done|done|by rewrite Q'|]. intros s Hne Hq. apply Hmark in Hq.
    unfold seat_startup_quarantined in *. bool_facts.
    apply bool_decide_eq_true. destruct Hs as [->|[-> _]]; [done|set_solver].
  - destruct Hs as [Hs|[_ [Hg _]]]; [right|by left].
    unfold seat_startup_quarantined in *. by rewrite Hs.
Qed.

Definition epoch_record (e : RecoveryRecordEpoch) : PersistentRecoveryRecord :=
  match e with
  | EpochSameBoot s => sb_record s
  | EpochPreviousBoot p => pb_record p
  end.
Definition epoch_id (e : RecoveryRecordEpoch) : string :=
  pr_lifecycle_id (epoch_record e).
Definition epoch_seat (e : RecoveryRecordEpoch) : string :=
  pr_seat (epoch_record e).
Definition is_previous (e : RecoveryRecordEpoch) : Prop :=
  match e with EpochPreviousBoot _ => True | EpochSameBoot _ => False end.

(** Two records on one seat make the classifier block the seat. *)
Definition shared_seats_blocked (l : PersistentRecoveryLedger) : Prop :=
  ∀ i j ri rj, lg_records l !! i = Some ri → lg_records l !! j = Some rj →
    i ≠ j → pr_seat ri = pr_seat rj →
    seat_blocked (lg_record_set l) (pr_seat ri) = true.

Section Invariant.
Context (l0 : PersistentRecoveryLedger).
Context (records : list PersistentRecoveryRecord)
  (blocked conflicted : gset string).
Context (Hlocal : provider_local) (Hshared : shared_seats_blocked l0).

Definition in_ledger (e : RecoveryRecordEpoch) : Prop :=
  lg_records l0 !! epoch_id e = Some (epoch_record e).

(** Processed previous-boot records are gone or quarantined. *)
Record loop_inv (seen : list RecoveryRecordEpoch)
    (l : PersistentRecoveryLedger) : Prop := {
  li_keyed : keyed l;
  li_set : lg_record_set l = lg_record_set l0;
  li_rest : ∀ i, i ∉ epoch_id <$> seen →
    lg_records l !! i = lg_records l0 !! i;
  li_seen : ∀ e, e ∈ seen → is_previous e →
    lg_records l !! epoch_id e = None
    ∨ seat_startup_quarantined (epoch_seat e) l = true;
}.

Lemma loop_step_inv seen e l l' :
  loop_inv seen l → in_ledger e → Forall in_ledger seen →
  epoch_id e ∉ epoch_id <$> seen →
  loop_step (epoch_id e) (epoch_seat e) l l' →
  (is_previous e → lg_records l' !! epoch_id e = None
     ∨ seat_startup_quarantined (epoch_seat e) l' = true) →
  ((∃ e', e' ∈ seen ∧ epoch_seat e' = epoch_seat e) →
     ∀ s, seat_startup_quarantined s l = true →
       seat_startup_quarantined s l' = true) →
  loop_inv (seen ++ [e]) l'.
Proof.
  intros [K S R HS] He Hseen Hfresh [K' S' R' _ Q'] Hown Hkeep.
  split; [done|congruence|..].
  - intros i Hi. rewrite fmap_app in Hi. cbn in Hi.
    rewrite R' by set_solver. apply R. set_solver.
  - intros e' [Hin|Hin]%elem_of_app Hp;
      [|apply list_elem_of_singleton in Hin as ->; by auto].
    assert (epoch_id e' ≠ epoch_id e) as Hne.
    { intros E. apply Hfresh. rewrite <-E. by apply list_elem_of_fmap_2. }
    rewrite R' by done. destruct (HS e' Hin Hp) as [?|Hq]; [by left|right].
    destruct (decide (epoch_seat e' = epoch_seat e)) as [E|E]; [|by auto].
    apply Hkeep; eauto.
Qed.

Lemma reconcile_epoch_inv seen e run :
  loop_inv seen run.1 → in_ledger e → Forall in_ledger seen →
  epoch_id e ∉ epoch_id <$> seen →
  loop_inv (seen ++ [e])
    (reconcile_epoch env provider records (lg_record_set l0) blocked
       conflicted run e).1.
Proof.
  intros HI He Hseen Hfresh. pose proof (li_keyed _ _ HI) as K.
  destruct e as [same|prev]; cbn [reconcile_epoch].
  - apply (loop_step_inv _ _ run.1); try done;
      [by apply reconcile_same_step|].
    intros _ s Hs.
    apply (lp_seats _ ("." +:+ s) _ _
      (reconcile_same_step blocked conflicted same ("." +:+ s) run Hlocal K));
      [|done].
    intros E%(f_equal String.length). 
    assert (String.length ("." +:+ s) = S (String.length s)) by done. lia.
  - destruct (reconcile_previous_step records (lg_record_set l0) prev run K)
      as (HL & Hown & Hkeep).
    { intros r Hr. rewrite (li_rest _ _ HI) in Hr by done.
      unfold in_ledger, epoch_id in He. cbn in He. rewrite He in Hr.
      by injection Hr as <-. }
    apply (loop_step_inv _ _ run.1); try done.
    intros (e' & Hin & Hseat). apply Hkeep.
    rewrite Forall_forall in Hseen. pose proof (Hseen _ Hin) as He'.
    apply (Hshared _ (epoch_id e') _ (epoch_record e') He He'); [|done].
    intros E. apply Hfresh. rewrite E. by apply list_elem_of_fmap_2.
Qed.

Lemma loop_inv_fold seen todo run :
  loop_inv seen run.1 → Forall in_ledger (seen ++ todo) →
  NoDup (epoch_id <$> (seen ++ todo)) →
  loop_inv (seen ++ todo)
    (foldl (reconcile_epoch env provider records (lg_record_set l0) blocked
              conflicted) run todo).1.
Proof.
  revert seen run. induction todo as [|e todo IH]; intros seen run HI HF HN.
  { by rewrite app_nil_r. }
  cbn. rewrite (cons_middle e seen todo), app_assoc in *. apply IH; [|done..].
  apply Forall_app in HF as [HF _]. apply Forall_app in HF as [HF He].
  apply Forall_cons in He as [He _].
  apply reconcile_epoch_inv; [done|exact He|done|].
  rewrite !fmap_app in HN. apply NoDup_app in HN as [HN _].
  apply NoDup_app in HN as (_ & HN & _). intros Hin.
  apply (HN _ Hin). cbn. left.
Qed.
End Invariant.

Lemma classify_epochs_spec b rs es :
  classify_epochs b rs = Ok es →
  Forall2 (λ r e, RecoveryRecordEpoch_classify r b = Ok e) rs es.
Proof.
  revert es. induction rs as [|r rs IH]; cbn; intros es HE.
  { injection HE as <-. constructor. }
  destruct (RecoveryRecordEpoch_classify r b) as [e|] eqn:E; [|done].
  destruct (classify_epochs b rs) as [es'|]; [|done]. injection HE as <-.
  constructor; auto.
Qed.

Lemma classify_epoch_record r b e :
  RecoveryRecordEpoch_classify r b = Ok e →
  epoch_record e = r
  ∧ (pr_created_boot_id r ≠ boot_str b → is_previous e).
Proof.
  unfold RecoveryRecordEpoch_classify.
  destruct (BootIdentity_parse _) as [rb|] eqn:HP; [|done].
  apply BootIdentity_parse_str in HP.
  case_decide; intros [= <-]; split; try done. congruence.
Qed.

Lemma epochs_in_ledger b l es :
  keyed l → classify_epochs b (records_list l) = Ok es →
  Forall (in_ledger l) es ∧ NoDup (epoch_id <$> es)
  ∧ ∀ id r, lg_records l !! id = Some r → ∃ e, e ∈ es ∧ epoch_record e = r
      ∧ (pr_created_boot_id r ≠ boot_str b → is_previous e).
Proof.
  intros K HE%classify_epochs_spec.
  assert (epoch_record <$> es = records_list l) as Hmap.
  { clear K. induction HE as [|r e rs es Hre _ IH]; [done|]. cbn.
    apply classify_epoch_record in Hre as [-> _]. by f_equal. }
  split; [|split].
  - apply Forall_forall. intros e He. unfold in_ledger.
    assert (epoch_record e ∈ records_list l) as Hin.
    { rewrite <-Hmap. by apply list_elem_of_fmap_2. }
    apply btree_values_elem in Hin as [k Hk]. unfold epoch_id.
    by rewrite (K _ _ Hk).
  - assert (epoch_id <$> es = pr_lifecycle_id <$> records_list l) as ->.
    { rewrite <-Hmap, <-list_fmap_compose. done. }
    by apply records_list_NoDup.
  - intros id r Hr.
    assert (r ∈ records_list l) as Hin by (apply btree_values_elem; eauto).
    apply list_elem_of_lookup in Hin as [n Hn].
    destruct (Forall2_lookup_l _ _ _ _ _ HE Hn) as (e & He & Hc).
    exists e. split; [by eapply list_elem_of_lookup_2|].
    by apply classify_epoch_record.
Qed.
End Loop.

(** ** Marking and resuming *)

Lemma mark_seats_frame seats l :
  let l' := foldl (λ l seat, mark_seat_startup_quarantine seat l) l seats in
  lg_records l' = lg_records l ∧ lg_record_set l' = lg_record_set l
  ∧ startup_quarantined l' = startup_quarantined l
  ∧ ledger_files l' = ledger_files l
  ∧ (∀ s, seat_startup_quarantined s l' = true ↔
       s ∈ seats ∨ seat_startup_quarantined s l = true).
Proof.
  unfold seat_startup_quarantined. setoid_rewrite bool_decide_eq_true.
  revert l. induction seats as [|s0 seats IH]; intros l; cbn.
  { repeat split; set_solver. }
  destruct (IH (mark_seat_startup_quarantine s0 l)) as (-> & -> & -> & -> & HS).
  repeat (split; [done|]). intros s. rewrite HS. cbn. set_solver.
Qed.

Section Resume.
Context `{!SerdeJson HistoricalFinalizationJournal}.

Lemma resume_entries_verdicts es j c l :
  let l' := (resume_entries es j c l).1 in
  lg_record_set l' = lg_record_set l
  ∧ startup_quarantined l' = startup_quarantined l.
Proof.
  revert j c l. induction es as [|e es IH]; intros j c l; [done|]. cbn.
  destruct (_ || _); [apply IH|]. rewrite sr_bind_eq.
  set (skip := if bool_decide (he_stage e = RemovalIntent) then _ else _).
  assert (sr_keeps readonly skip) as Hskip.
  { subst skip. destruct (bool_decide _); [|quiet_auto].
    apply keeps_fin_io, record_file_exists_readonly. }
  specialize (Hskip l). unfold startup_quarantined in *.
  destruct (skip l) as [l1 [[|]|err]]; destruct Hskip as ((_ & S & Q & _) & _);
    cbn in S, Q; [destruct (IH j c l1) as [-> ->]; auto| |by auto].
  rewrite sr_bind_eq. cbn.
  destruct (IH (upsert (entry_stage FreePublished e) j) (c + 1)
    (clear_seat_startup_quarantine (he_seat e) l1)) as [-> ->]. by auto.
Qed.

Lemma resume_verdicts l :
  let l' := (resume_removed_previous_boot_finalization l).1 in
  lg_record_set l' = lg_record_set l
  ∧ startup_quarantined l' = startup_quarantined l
  ∧ lg_records l' = lg_records l
  ∧ (∀ s, seat_startup_quarantined s l' = true →
       seat_startup_quarantined s l = true).
Proof.
  unfold resume_removed_previous_boot_finalization. rewrite sr_bind_eq.
  pose proof (keeps_fin_io _ _ keeps_journal_load l) as Q1.
  destruct (fin_io journal_load l) as [l1 [j|e]]; cbn [fst] in Q1;
    unfold startup_quarantined, seat_startup_quarantined in *.
  2: { cbn. destruct Q1 as ((_&->&->&->)&->&_). auto. }
  rewrite sr_bind_eq.
  pose proof (keeps_map_err _ DurableConflict _
    (keeps_validate_against_ledger j) l1) as Q2.
  destruct (sr_map_err _ _ l1) as [l2 [[]|e]]; cbn [fst] in Q2;
    assert (readonly l l2) as ((_&S&Q&E)&R&D) by (by etrans); clear Q1 Q2.
  2: { cbn. rewrite S, Q, E, R. auto. }
  rewrite Q. destruct (lg_startup_quarantined l) eqn:Hq.
  { cbn. rewrite S, Q, E, R. auto. }
  rewrite sr_bind_eq. pose proof (resume_entries_verdicts (hj_entries j) j 0 l2) as V.
  destruct (resume_entries (hj_entries j) j 0 l2) as [l3 r3] eqn:HE.
  apply resume_entries_releases in HE as (R3 & _ & S3 & _). cbn in V.
  unfold startup_quarantined in V. destruct V as [V1 V2].
  assert (∀ l4, lg_record_set l4 = lg_record_set l3 ∧
    lg_startup_quarantined l4 = lg_startup_quarantined l3 ∧
    lg_records l4 = lg_records l3 ∧
    lg_startup_quarantined_seats l4 = lg_startup_quarantined_seats l3 →
    lg_record_set l4 = lg_record_set l ∧ lg_startup_quarantined l4 = false ∧
    lg_records l4 = lg_records l ∧
    ∀ s, bool_decide (s ∈ lg_startup_quarantined_seats l4) = true →
      bool_decide (s ∈ lg_startup_quarantined_seats l) = true) as Hfin.
  { intros l4 (-> & -> & -> & ->). repeat (split; [congruence|]).
    intros s Hs. bool_facts. apply bool_decide_eq_true. rewrite <-E. by apply S3. }
  destruct r3 as [[j' c]|e]; [|by apply Hfin].
  rewrite sr_bind_eq. destruct (c =? 0); [by apply Hfin|]. cbn [negb].
  unfold fin_io, sr_map_err.
  pose proof (keeps_journal_persist_frame j' l3) as HP.
  destruct (journal_persist j' l3) as [l4 [[]|]]; cbn in *; apply Hfin;
    destruct HP as ((_&?&?&?)&?); auto.
Qed.
End Resume.

(** ** Counting *)

Section Counting.
Context `{SerdeJson PersistentRecoveryRecord}.
Context `{!SerdeJson HistoricalFinalizationJournal}.
Context (env : StartupEnv) (provider : RecoveryProvider).

Definition counted (s : StartupReconciliationSummary) : Z :=
  sm_free s + sm_quarantined s.

Lemma quarantine_startup_record_counts id reason run :
  counted (quarantine_startup_record env id reason run).2 = counted run.2 + 1.
Proof.
  destruct run as [l sm]. unfold quarantine_startup_record, counted.
  destruct (existsb _ _); [cbn; lia|].
  destruct (quarantine _ _ _ l) as [l' [[]|e]]; cbn; lia.
Qed.
Lemma finalize_or_quarantine_counts id run :
  counted (finalize_or_quarantine env id run).2 = counted run.2 + 1.
Proof.
  destruct run as [l sm]. unfold finalize_or_quarantine.
  destruct (finalize_startup_record _ id l) as [l' [p|e]];
    [unfold counted; cbn; lia|apply (quarantine_startup_record_counts _ _ (l', sm))].
Qed.

Lemma reconcile_epoch_counts records set blocked conflicted run e :
  counted (reconcile_epoch env provider records set blocked conflicted run e).2
    = counted run.2 + 1.
Proof.
  destruct run as [l sm]. destruct e as [same|prev]; cbn [reconcile_epoch].
  - unfold reconcile_same.
    destruct (last _) as [[att rb es [] pb pa]|];
      try (destruct (finish_vt_recovery_attempt _ _ _ _ _ l); unfold counted;
           cbn; lia);
      (destruct (bool_decide _); [apply (quarantine_startup_record_counts _ _ (l, sm))|];
       destruct (_ || _); [apply (finalize_or_quarantine_counts _ (l, sm))|];
       destruct (bool_decide _); [apply (quarantine_startup_record_counts _ _ (l, sm))|];
       destruct (_ && _); [unfold counted; cbn; lia|];
       destruct (pv_reconcile provider same l) as [l' [|why]];
       [apply (finalize_or_quarantine_counts _ (l', sm))
       |apply (quarantine_startup_record_counts _ _ (l', sm))]).
  - unfold reconcile_previous. destruct (_ || _); [unfold counted; cbn; lia|].
    destruct (execute_previous_boot_plan _ _ _ _ _ _) as [l' [[]|e]];
      unfold counted; cbn; lia.
Qed.

Lemma fold_counts records set blocked conflicted es run :
  counted (foldl (reconcile_epoch env provider records set blocked conflicted)
             run es).2 = counted run.2 + Z.of_nat (length es).
Proof.
  revert run. induction es as [|e es IH]; intros run; [cbn; lia|].
  cbn [foldl length]. rewrite IH, reconcile_epoch_counts. lia.
Qed.

Lemma reconcile_records_count l l1 s1 :
  reconcile_records env provider l = inr (l1, s1) →
  counted s1 = Z.of_nat (length (records_list l)).
Proof.
  unfold reconcile_records. intros HE. destruct (ev_current_boot env); [|done].
  destruct (classify_epochs _ _) as [es|] eqn:Hes; [|done].
  apply classify_epochs_spec, Forall2_length in Hes. rewrite Hes.
  destruct (match pv_inventory provider _ with Ok i => i | _ => _ end);
    [..|done]; (destruct (rs_global_quarantine _); [done|]);
    injection HE as HE; apply (f_equal snd) in HE; cbn in HE; subst s1;
    rewrite fold_counts; done.
Qed.
End Counting.

(** ** Properties *)

Section Claims.
Context `{SerdeJson PersistentRecoveryRecord}.
Context `{!SerdeJson HistoricalFinalizationJournal}.
Context `{!SerdeRoundtrip HistoricalFinalizationJournal}.

(** Startup never publishes the seat of a surviving historical record by
    itself: after the loop over the records, every record of an earlier boot
    is either gone from the ledger or its seat is under startup quarantine,
    whatever the host, the disk and the boot id answered; this needs that
    the classifier blocks seats claimed twice and that the provider keeps to
    the record it was given. *)
Theorem surviving_history_is_quarantined env provider l l' summary b id r :
  keyed l → provider_local provider → shared_seats_blocked l →
  ev_current_boot env = Ok b →
  reconcile_records env provider l = inr (l', summary) →
  lg_records l !! id = Some r → pr_created_boot_id r ≠ boot_str b →
  lg_records l' !! id = None
  ∨ seat_startup_quarantined (pr_seat r) l' = true.
Proof.
  intros K HL HS Hb HR Hr Hboot. unfold reconcile_records in HR.
  rewrite Hb in HR. destruct (classify_epochs b _) as [es|] eqn:HE; [|done].
  destruct (epochs_in_ledger _ _ _ K HE) as (HF & HN & Hall).
  destruct (Hall _ _ Hr) as (e & He & Her & Hprev).
  set (inv := match pv_inventory provider _ with Ok i => i | _ => _ end) in HR.
  assert (∃ blocked, let l1 := foldl (λ l seat, mark_seat_startup_quarantine
      seat l) l (elements blocked) in
    foldl (reconcile_epoch env provider (records_list l) (lg_record_set l1)
      blocked (conflicts (same_boot_records es))) (l1, mkSummary 0 0) es
    = (l', summary)) as (blocked & Hfold).
  { destruct inv as [|seats|]; [exists ∅|exists seats|done];
      destruct (rs_global_quarantine _); try done; by injection HR. }
  clear HR inv. cbn zeta in Hfold.
  destruct (mark_seats_frame (elements blocked) l) as (R1 & S1 & _ & _ & _).
  set (l1 := foldl _ l _) in *. rewrite S1 in Hfold.
  pose proof (loop_inv_fold env provider l (records_list l) blocked
    (conflicts (same_boot_records es)) HL HS [] es (l1, mkSummary 0 0)) as HI.
  rewrite Hfold in HI. destruct HI as [_ _ _ HI]; [|done|done|].
  { split; cbn; [|done|by rewrite R1|set_solver].
    intros i r' Hr'. rewrite R1 in Hr'. by apply K. }
  pose proof (HI e He (Hprev Hboot)) as HI'. unfold epoch_id, epoch_seat in HI'.
  by rewrite Her, (K _ _ Hr) in HI'.
Qed.

(** The summary accounts for every record: startup either gives up, with
    nothing freed, every record counted as quarantined and the daemon under
    global quarantine, or it counts each record exactly once and adds the
    seats resumed from the journal. *)
Theorem reconcile_accounts_for_every_record env provider l :
  let '(l', s) := reconcile env provider l in
  let n := Z.of_nat (length (records_list l)) in
  (startup_quarantined l' = true ∧ sm_free s = 0
   ∧ sm_quarantined s = Z.max n 1)
  ∨ ∃ l1 s1, reconcile_records env provider l = inr (l1, s1)
      ∧ sm_free s1 + sm_quarantined s1 = n
      ∧ sm_quarantined s = sm_quarantined s1
      ∧ sm_free s = sm_free s1 +
          match (resume_removed_previous_boot_finalization l1).2 with
          | Ok k => k | Err _ => 0 end.
Proof.
  destruct (reconcile env provider l) as [l' s] eqn:HR. cbn zeta.
  unfold reconcile in HR.
  destruct (reconcile_records env provider l) as [run|[l1 s1]] eqn:HE.
  - left. subst run. unfold reconcile_records in HE.
    assert (∀ l0 : PersistentRecoveryLedger,
      @inl _ (PersistentRecoveryLedger * StartupReconciliationSummary)
        (abandon_startup (records_list l) l0) = inl (l', s) →
      startup_quarantined l' = true
      ∧ sm_free s = 0
      ∧ sm_quarantined s = Z.max (Z.of_nat (length (records_list l))) 1) as Hg.
    { intros l0 [= <- <-]. done. }
    destruct (ev_current_boot env); [|exact (Hg _ HE)].
    destruct (classify_epochs _ _); [|exact (Hg _ HE)].
    destruct (match pv_inventory provider _ with Ok i => i | _ => _ end);
      [..|exact (Hg _ HE)];
      (destruct (rs_global_quarantine _); [exact (Hg _ HE)|done]).
  - right. exists l1, s1. split; [done|].
    assert (sm_free s1 + sm_quarantined s1
            = Z.of_nat (length (records_list l))) as Hcount.
    { by eapply reconcile_records_count. }
    destruct (resume_removed_previous_boot_finalization l1) as [l2 [k|e]];
      injection HR as <- <-; cbn; (split; [done|]); split; lia.
Qed.

(** A quarantined record of the current boot does not block its seat
    after a restart of the daemon: with that record alone in the ledger,
    startup keeps it, counts it as quarantined, and marks no seat, so the
    admission verdict for the seat is clear and the seat starts free. *)
Theorem quarantined_same_boot_record_does_not_block env provider l b id r :
  lg_records l = {[id := r]} →
  ev_current_boot env = Ok b →
  RecoveryRecordEpoch_classify r b = Ok (EpochSameBoot (mkSameBoot r b)) →
  pr_state r = "quarantined"%string → pr_vt_recovery_attempts r = [] →
  can_retry_coherent_absent_boundary r = false →
  pv_inventory provider [r] = Ok ScopesNone →
  startup_quarantined l = false → rs_global_quarantine (lg_record_set l) = false →
  seat_blocked (lg_record_set l) (pr_seat r) = false →
  seat_startup_quarantined (pr_seat r) l = false →
  let '(l', s) := reconcile env provider l in
  lg_records l' !! id = Some r ∧ sm_quarantined s = 1
  ∧ recovery_admission_state (Some (Healthy l')) None (pr_seat r) = AdmissionClear
  ∧ (pr_seat r = "seat0"%string → initial_lifecycle (Some (Healthy l')) = SeatFree).
Proof.
  intros HR Hb HE Hst Hatt Hretry Hinv Hq Hg Hsb Hsq.
  assert (records_list l = [r]) as Hlist by (by apply records_list_singleton in HR).
  assert (persisted_decision r = PreserveQuarantine) as Hdec.
  { unfold persisted_decision. by rewrite Hst. }
  assert (reconcile_records env provider l = inr (l, mkSummary 0 1)) as Hrec.
  { unfold reconcile_records. rewrite Hb, Hlist. cbn [classify_epochs].
    rewrite HE. cbn [same_boot_records omap list_omap sb_record]. rewrite Hinv.
    cbn [foldl]. change (elements ∅) with (@nil string). cbn [foldl].
    rewrite Hg. cbn [reconcile_epoch]. unfold reconcile_same. cbn [sb_record].
    rewrite Hatt. cbn [last]. rewrite conflicts_singleton.
    rewrite !bool_decide_eq_false_2 by set_solver. rewrite Hst.
    rewrite Hretry, bool_decide_eq_true_2 by done. done. }
  unfold reconcile. rewrite Hrec.
  destruct (resume_verdicts l) as (S & Q & R & D).
  destruct (resume_removed_previous_boot_finalization l) as [l' [n|e]];
    cbn in S, Q, R, D;
    (assert (seat_startup_quarantined (pr_seat r) l' = false) as D'
       by (apply not_true_iff_false; intros ?%D; congruence));
    unfold recovery_admission_state, initial_lifecycle;
    rewrite R, HR, lookup_singleton_eq, S, Q, Hq, Hg, Hsb, D'; cbn;
    (split; [done|]); (split; [done|]); (split; [done|]);
    intros <-; by rewrite D', Hsb.
Qed.
End Claims.
