(* ===== verification/Scenarios.v ===== *)
(** * Concrete runs

    A small ledger, an inspection host that sees a quiet current boot, and
    executions of the recovery code on them: the witnesses of the recovery
    theorems and the scenarios in which a restart does not go the way the
    design describes. *)

From stdpp Require Import base gmap sets list strings.
From Stdlib Require Import ZArith Lia.
From S2P Require Import Prelude DirFs RecoveryTypes LedgerTaxonomy Ledger Codec.
From S2P Require Import LedgerDurability LedgerLoad PreviousBoot SameBoot.
From S2P Require Import Finalization FinalizationSafety Startup.
From S2P Require Import PreCommit Admission AdminRecovery.
#[local] Open Scope niralis_scope.

(** ** The journal in the concrete serializer *)

Definition stage_code (s : HistoricalFinalizationStage) : Z :=
  match s with
  | NotReplayed => 0 | ResolutionIntent => 1 | RecordResolved => 2
  | RuntimeReleaseIntent => 3 | RuntimeReleaseConfirmed => 4
  | RemovalIntent => 5 | Removed => 6 | FreePublished => 7
  end.
Definition code_stage (t : Z) : HistoricalFinalizationStage :=
  if t =? 0 then NotReplayed else if t =? 1 then ResolutionIntent
  else if t =? 2 then RecordResolved else if t =? 3 then RuntimeReleaseIntent
  else if t =? 4 then RuntimeReleaseConfirmed
  else if t =? 5 then RemovalIntent else if t =? 6 then Removed
  else FreePublished.

#[export] Instance codec_stage : Codec HistoricalFinalizationStage.
Proof. refine (codec_via stage_code code_stage _). by intros []. Defined.
#[export] Instance codec_not_replayed : Codec HistoricalNotReplayed.
Proof.
  refine (codec_via (λ '(mkNotReplayed a b c), (a, b, c))
            (λ '(a, b, c), mkNotReplayed a b c) _). by intros [].
Defined.
#[export] Instance codec_entry : Codec HistoricalFinalizationEntry.
Proof.
  refine (codec_via
    (λ '(mkEntry a b c d e f g h i j), (a, b, c, d, e, f, g, h, i, j))
    (λ '(a, b, c, d, e, f, g, h, i, j), mkEntry a b c d e f g h i j) _).
  by intros [].
Defined.
#[export] Instance codec_journal : Codec HistoricalFinalizationJournal.
Proof.
  refine (codec_via (λ '(mkJournal v es), (v, es)) (λ '(v, es), mkJournal v es) _).
  by intros [].
Defined.

(** ** A ledger with one record of an earlier boot *)

Definition record_of (id seat boot state : string) (ops : DurableOperationLedger)
    : PersistentRecoveryRecord :=
  mkRecoveryRecord 2 id 3 0 boot boot state 1000 1000 "u" "s" seat 10 11 None None
    (Some 77) (Some (1, 2)) None None None None None None None None None None None None None
    None "opened" ops None None [].

Definition ops_none : DurableOperationLedger :=
  mkOpLedger NotStarted NotStarted NotStarted NotStarted NotStarted NotStarted
    NotStarted NotStarted.
Definition ops_killed : DurableOperationLedger :=
  mkOpLedger (IntentPersisted 4) NotStarted NotStarted NotStarted NotStarted
    NotStarted NotStarted NotStarted.

Definition old_record : PersistentRecoveryRecord :=
  record_of "a" "seat0" "boot1" "started" ops_killed.
(** A record of the running boot, with a worker the supervisor knows. *)
Definition new_record : PersistentRecoveryRecord :=
  record_of "b" "seat0" "boot2" "started" ops_none.
Definition boot2 : BootIdentity := mkBootIdentity "boot2".
Definition boot_now : result string IoError := Ok "boot2"%string.

Definition bytes_of {A} `{Codec A} (a : A) : string := bits_to_string (enc a).
Definition file_of {A} `{Codec A} (ino : Z) (a : A) : File :=
  mkFile ino 1 0 384 RegularFile (bytes_of a).

Definition dir_of (files : gmap string File) (faults : list Fault) : DirFs :=
  mkDirFs files 1 0 (λ n, 100 + Z.of_nat n) 0 faults.
Definition ledger_of (files : gmap string File) (faults : list Fault)
    (records : gmap string PersistentRecoveryRecord) (seats : gset string)
    : PersistentRecoveryLedger :=
  mkLedger (dir_of files faults) records []
    RecordSet_default false seats.

(** The ledger of the running boot, with [r] under [id]. *)
Definition live_ledger (r : PersistentRecoveryRecord) : PersistentRecoveryLedger :=
  let id := pr_lifecycle_id r in
  ledger_of {[json_name id := file_of 8 r]} [] {[id := r]} ∅.

Definition quiet_facts : PreviousBootCurrentFacts :=
  mkFacts (mkAuthorityFacts None None None None true)
    CurrentBootConflictFacts_default (mkSeatFacts Unclaimed true None [] [])
    [] [] [] None [] [] false false false.
Definition quiet_host : InspectionHost :=
  mkHost (Ok boot2) (λ _ _, Ok quiet_facts).

Definition old_previous : PreviousBootRecoveryRecord :=
  mkPreviousBoot old_record (mkBootIdentity "boot1") boot2.

Definition start_ledger (faults : list Fault) : PersistentRecoveryLedger :=
  ledger_of {["a.json" := file_of 7 old_record]} faults
    {["a" := old_record]} {["seat0"]}.

Definition finalize_a (faults : list Fault)
    : PersistentRecoveryLedger * result FinalizationOutcome FinalizationError :=
  execute_previous_boot_plan boot_now (λ _, quiet_host) old_previous quiet_facts
    (plan_previous_boot_reconciliation old_previous quiet_facts)
    (start_ledger faults).

Example finalize_a_freed : (finalize_a []).2 = Ok SeatFreed.
Proof. vm_compute. reflexivity. Qed.

(** ** Crashing and restarting *)

(** The process stops at the [n]-th file-system call. *)
Definition crash_at (n : nat) : list Fault :=
  repeat None n ++ [Some (OtherKind, 0%nat)].

Definition quiet_env : StartupEnv :=
  mkEnv (Ok boot2) (λ _ _, quiet_host) (λ _, boot_now).
Definition idle_provider : RecoveryProvider :=
  mkProvider (λ _, Ok ScopesNone)
    (λ _ l, (l, OutcomeQuarantined UnsupportedRehydration)).

(** A fresh daemon on the files the old one left. *)
Definition restart (l : PersistentRecoveryLedger)
    : option (PersistentRecoveryLedger * StartupReconciliationSummary) :=
  let files := ledger_files l in
  match open_locked boot_now (map_to_list files) (dir_of files []) with
  | Ok l => Some (reconcile quiet_env idle_provider l)
  | Err _ => None
  end.

Definition freed_after_crash (n : nat) : option bool :=
  (λ '(l, _), negb (seat_startup_quarantined "seat0" l)
     && bool_decide (lg_records l !! "a" = None) && negb (startup_quarantined l))
  <$> restart (finalize_a (crash_at n)).1.

Definition leaves_temporary (n : nat) : bool :=
  existsb (str_ends_with ".tmp")
    (map_to_list (ledger_files (finalize_a (crash_at n)).1)).*1.

(** The calls from the one after the rename of the record to the creation of
    the journal's temporary file, at each of the four ledger commits. *)
Definition commit_windows : list nat :=
  seq 23 4 ++ seq 38 4 ++ seq 52 4 ++ seq 67 4.

(** A finalization interrupted at any one of its file-system calls, and the
    daemon restarted on the files it left: the restart completes it and frees
    the seat except in two kinds of places, where the seat stays quarantined.
    One is any interruption that leaves a temporary file behind; the other, with
    no temporary file, is between a commit of the record, which gives the file
    a new inode, and the journal update that records that inode. *)
Theorem restart_resumes_except :
  Forall (λ n,
    freed_after_crash n =
    Some (negb (leaves_temporary n || bool_decide (n ∈ commit_windows))))
    (seq 0 100) ∧ (finalize_a (crash_at 99)).2 = Ok SeatFreed.
Proof.
  split; [|vm_compute; reflexivity].
  apply Forall_forall. intros n Hn%elem_of_seq.
  assert (forallb (λ n, bool_decide (freed_after_crash n =
    Some (negb (leaves_temporary n || bool_decide (n ∈ commit_windows)))))
    (seq 0 100) = true) as H by (vm_compute; reflexivity).
  rewrite forallb_forall in H. specialize (H n).
  eapply bool_decide_eq_true_1, H, in_seq. lia.
Qed.

(** ** An administrative retry *)

Definition ops_finalized : DurableOperationLedger :=
  mkOpLedger (Confirmed 1) (Confirmed 2) NotStarted NotStarted NotStarted
    (OpFailed 3 EBUSY) NotStarted NotStarted.
Definition idle_vt : VtBusyProvenance :=
  mkVtBusyProvenance 3 (Some 1) (Some false) None [] false []
    KernelBusyUnattributed 0.
Definition busy_record : PersistentRecoveryRecord :=
  set_vt_busy_provenance (Some idle_vt)
    (set_quarantine_reason (Some "vt_disallocate_busy"%string)
       (record_of "b" "seat0" "boot2" "quarantined" ops_finalized)).
(** A record on the same seat that was last written earlier. *)
Definition older_record : PersistentRecoveryRecord :=
  set_transition (record_of "o" "seat0" "boot2" "quarantined" ops_none) 2 "boot2"
    "quarantined".

Definition admin_host (answer : result () SupervisorRecoveryError) : RecoveryAdminHost :=
  mkAdminHost (λ _, BfAbsent) (λ _ _, idle_vt) (λ _ _, idle_vt)
    (λ _, Ok (mkVtIdentity "seat0" 3 (mkPreviousVt 1) 4 3)) (λ _, answer) (λ _, Ok ()).
Definition admin_start (others : gmap string PersistentRecoveryRecord) : AdminState :=
  mkAdminState (mkWorld (controller_new "seat0" SeatFree) None)
    (ledger_of {["b.json" := file_of 8 busy_record]} []
       (<["b" := busy_record]> others) ∅) [].
Definition admin_retry (answer : result () SupervisorRecoveryError)
    (others : gmap string PersistentRecoveryRecord)
    : AdminState * result RecoveryAdminResponse SessionError :=
  retry_vt_disallocate boot_now (admin_host answer) "seat0" "b" 3 None
    (admin_start others).

(** An administrative retry can succeed on the VT and still strand the seat:
    the guard only refuses other records of the seat that are at least as new,
    and the check for any other record comes after the record has been removed.
    With an older record on the seat the request is answered as rejected, the
    record is gone, and the controller stays quarantined for it, so that a
    second request finds no record to finalize.  Alone on the seat, the same
    request frees it. *)
Theorem admin_retry_strands_seat :
  let alone := admin_retry (Ok ()) ∅ in
  let shared := admin_retry (Ok ()) {["o" := older_record]} in
  alone.2 = Ok (RetryAccepted "b" 6 1) ∧
  view (aw_controller (as_admission alone.1)) = VFree ∧
  shared.2 = Ok (Rejected "seat free preconditions changed" None) ∧
  lg_records (as_ledger shared.1) !! "b" = None ∧
  view (aw_controller (as_admission shared.1)) = VQuarantined "b" ∧
  (retry_vt_disallocate boot_now (admin_host (Ok ())) "seat0" "b" 3 None shared.1).2
    = Ok (Rejected "record does not exist" None).
Proof. vm_compute. repeat split. Qed.
