(* ===== verification/Witnesses.v ===== *)
(** * The theorems at concrete inputs

    Each theorem that assumes something about its input is applied here to an
    input where the assumptions hold: the ledgers of [Scenarios], the concrete
    serializer of [Codec], and small controllers and stores. *)

From stdpp Require Import base gmap sets list strings.
From Stdlib Require Import ZArith Lia.
From S2P Require Import Prelude DirFs RecoveryTypes LedgerTaxonomy Ledger Codec.
From S2P Require Import LedgerDurability LedgerLoad PreviousBoot PreCommit.
From S2P Require Import SameBoot Admission Finalization FinalizationSafety.
From S2P Require Import Startup Scenarios.
From S2P Require Import AdminRecovery.
#[local] Open Scope niralis_scope.

(** A run is the pair of its two components. *)
Ltac run_pair := rewrite <- surjective_pairing; reflexivity.

(** ** The ledger *)

Lemma classify_record_set_exact_witness :
  let l := [ValidPreviousBoot "a.json" old_record; ValidSameBoot "b.json" new_record] in
  seat_blocked (classify_recovery_record_set l boot2) "seat0" = true ↔
  2 ≤ count (seat_is "seat0") l.
Proof.
  intros l. refine (proj1 (classify_record_set_exact boot2 l _) _).
  vm_compute. repeat constructor; set_solver.
Defined.

Lemma singleton_record l id r i x :
  lg_records l !! i = Some x → lg_records l = {[id := r]} → i = id ∧ x = r.
Proof. intros Hx E. rewrite E in Hx. by apply lookup_singleton_Some in Hx as [-> ->]. Qed.

Lemma start_ledger_durable faults : ledger_durable (start_ledger faults).
Proof.
  intros id r Hr. apply (singleton_record _ "a" old_record) in Hr as [-> ->]; [|done].
  split; [done|]. split; [vm_compute; reflexivity|]. left.
  exists (file_of 7 old_record), old_record.
  split; [reflexivity|]. split; [vm_compute; reflexivity|]. done.
Qed.
Lemma start_ledger_keyed faults : keyed (start_ledger faults).
Proof.
  intros id r Hr. by apply (singleton_record _ "a" old_record) in Hr as [-> ->].
Qed.
Lemma live_ledger_keyed r : keyed (live_ledger r).
Proof.
  intros id x Hr. by apply (singleton_record _ (pr_lifecycle_id r) r) in Hr as [-> ->].
Qed.

Definition resolve_a : LedgerOp := LTransition "a" "record_resolved".


Lemma operation_advances_sequence_witness :
  let l' := (run_ledger_op (Ok "boot1"%string) resolve_a (start_ledger [])).1 in
  ∃ rec f, lg_records l' !! "a" = Some rec ∧ successor old_record rec
    ∧ ledger_files l' !! json_name "a" = Some f
    ∧ serde_from_slice (file_data f) = Some rec.
Proof.
  intros l'.
  apply (operation_advances_sequence (Ok "boot1"%string) resolve_a "a" (start_ledger [])).
  - apply start_ledger_durable.
  - reflexivity.
  - reflexivity.
  - vm_compute. reflexivity.
Defined.

Definition resolved_record : PersistentRecoveryRecord :=
  record_of "b" "seat0" "boot2" "record_resolved" ops_none.

Lemma removal_requires_resolution_witness :
  removable resolved_record.
Proof.
  destruct (removal_requires_resolution boot_now (LRemoveResolved "b")
              (live_ledger resolved_record) "b" resolved_record)
    as [?|[? _]]; [reflexivity|vm_compute; reflexivity|done|done].
Defined.

Lemma abandoned_temporary_blocks_witness :
  let tmp := file_of 9 0 in
  let l := set_fs (with_files (insert (tmp_name "a") tmp) (lg_fs (start_ledger [])))
             (start_ledger []) in
  is_ok (run_ledger_op boot_now resolve_a l).2 = false.
Proof.
  intros tmp l. apply (abandoned_temporary_blocks boot_now resolve_a "a" l tmp).
  - intros id r Hr. apply (singleton_record _ "a" old_record) in Hr as [-> ->]; [|done].
    split; [done|]. split; [vm_compute; reflexivity|]. left.
    exists (file_of 7 old_record), old_record.
    split; [reflexivity|]. split; [vm_compute; reflexivity|]. done.
  - reflexivity.
  - reflexivity.
Defined.

Lemma load_records_sound_and_closed_witness :
  let es := [("a.json"%string, file_of 7 old_record)] in
  let x := load_records (Some boot2) es (dir_of (list_to_map es) []) in
  ∃ s, x.2 = Ok s ∧ ld_quarantined s = false ∧
    ∃ r, acceptable "a.json" (file_of 7 old_record) r ∧
         ld_result s !! pr_lifecycle_id r = Some r.
Proof.
  intros es x. eexists. split; [vm_compute; reflexivity|].
  split; [reflexivity|].
  refine (proj2 (load_records_sound_and_closed (Some boot2) es
    (dir_of (list_to_map es) []) x.1 _ _) _ "a.json" (file_of 7 old_record) _ _);
    [vm_compute; reflexivity|reflexivity|by left|vm_compute; reflexivity].
Defined.

(** ** Recovery on the running boot *)

Lemma startup_permit_sound_witness :
  let x := finalize_startup_record boot_now "b" (live_ledger new_record) in
  is_ok x.2 = true ∧ gone "b" x.1 ∧ startup_quarantined x.1 = false.
Proof.
  intros x. split; [vm_compute; reflexivity|].
  destruct (startup_permit_sound boot_now "b" (live_ledger new_record) x.1 new_record
    (mkBinding boot2 "b" "b" 8 "seat0")) as (H1 & _ & _ & _ & _ & H2 & _).
  - apply live_ledger_keyed.
  - reflexivity.
  - vm_compute. reflexivity.
  - split; [exact H1|exact H2].
Defined.

Definition new_authority : SameBootRecoveryAuthority :=
  mkSameBootAuthority boot2 boot2 "b" 3.
Definition new_snapshot : RecoveryStateSnapshot := mkSnapshot new_record new_authority.

Lemma permit_after_durable_intent_witness :
  let x := persist_recovery_intent_from_snapshot boot_now new_snapshot "payload_kill" 4
             (live_ledger new_record) in
  ∃ next p, x.2 = Ok (next, p) ∧ persisted "b" (ss_record next) x.1.
Proof.
  intros x. eexists _, _. split; [vm_compute; reflexivity|].
  eapply (permit_after_durable_intent boot_now new_snapshot "payload_kill" 4
            (live_ledger new_record) x.1).
  - apply live_ledger_keyed.
  - vm_compute. reflexivity.
Defined.

Definition stubborn_host : ReleaseHost :=
  mkReleaseHost false OriginalStillAlive true.
Definition release_b : PersistentRecoveryLedger * SentSignals * result () StartupRecoveryFailure :=
  recover_validated_runtime_release boot_now stubborn_host new_authority new_record
    (live_ledger new_record, []).

Lemma release_signals_bounded_witness :
  release_b.1.2.*1 = [SIGTERM; SIGKILL] ∧
  ∃ sent, release_b.1.2.*1 = [] ++ sent ∧
    sent ∈ [[]; [SIGTERM]; [SIGKILL]; [SIGTERM; SIGKILL]].
Proof.
  split; [vm_compute; reflexivity|].
  destruct (release_signals_bounded boot_now stubborn_host new_authority new_record
    (live_ledger new_record) [] release_b.1.1 release_b.1.2 release_b.2)
    as (sent & H1 & H2 & _); [vm_compute; reflexivity|].
  exists sent. split; [exact H1|exact H2].
Defined.

Lemma release_leaves_refused_record_witness :
  ∃ f rec, ledger_files release_b.1.1 !! json_name "b" = Some f
    ∧ serde_from_slice (file_data f) = Some rec
    ∧ RuntimeReleaseBeforeRecordResolved ∈ validate_historical_record rec.
Proof.
  apply (release_leaves_refused_record boot_now stubborn_host new_authority new_record
    (live_ledger new_record) [] release_b.1.1 release_b.1.2 new_record).
  - apply live_ledger_keyed.
  - reflexivity.
  - discriminate.
  - vm_compute. reflexivity.
Defined.

(** ** Historical finalization *)

Abbreviation old_plan := (plan_previous_boot_reconciliation old_previous quiet_facts).

Lemma finalization_replays_nothing_witness :
  ∃ r', lg_records (finalize_a (crash_at 25)).1 !! "a" = Some r' ∧
    historical_view r' = historical_view old_record.
Proof.
  destruct (finalization_replays_nothing boot_now (λ _, quiet_host) old_previous
    quiet_facts old_plan (start_ledger (crash_at 25)) (finalize_a (crash_at 25)).1
    (finalize_a (crash_at 25)).2) as (_ & _ & _ & _ & _ & _ & H).
  - apply start_ledger_keyed.
  - vm_compute. reflexivity.
  - eexists. split; [vm_compute; reflexivity|].
    destruct (H _ ltac:(vm_compute; reflexivity)) as (r0 & Hr0 & E).
    apply (singleton_record _ "a" old_record) in Hr0 as [_ ->]; [exact E|done].
Defined.

Lemma finalization_fails_closed_witness : gone "a" (finalize_a []).1.
Proof.
  apply (finalization_fails_closed boot_now (λ _, quiet_host) old_previous
    quiet_facts old_plan (start_ledger []) (finalize_a []).1 (finalize_a []).2 "seat0").
  - apply start_ledger_keyed.
  - vm_compute. reflexivity.
  - vm_compute. reflexivity.
  - vm_compute. reflexivity.
Defined.

Lemma finalization_freed_witness : free_published "a" (finalize_a []).1.
Proof.
  apply (finalization_freed boot_now (λ _, quiet_host) old_previous quiet_facts
    old_plan (start_ledger []) (finalize_a []).1 old_record).
  - apply start_ledger_keyed.
  - vm_compute. reflexivity.
  - vm_compute. reflexivity.
Defined.

Definition spent_entry (n : nat) : HistoricalFinalizationEntry :=
  mkEntry (String (Ascii.ascii_of_nat (n + 48)) "x") "l" "seat1" "boot1" 9
    FreePublished [] None None None.
Definition full_journal : HistoricalFinalizationJournal :=
  mkJournal JOURNAL_VERSION (spent_entry <$> seq 0 64).
Definition with_journal (j : HistoricalFinalizationJournal)
    (l : PersistentRecoveryLedger) : PersistentRecoveryLedger :=
  set_fs (with_files (insert journal_name (file_of 9 j)) (lg_fs l)) l.

Lemma full_journal_blocks_resolution_witness :
  let l := with_journal full_journal (start_ledger []) in
  is_ok (execute_previous_boot_plan boot_now (λ _, quiet_host) old_previous
           quiet_facts ResolveHistoricalRecord l).2 = false.
Proof.
  intros l.
  apply (full_journal_blocks_resolution boot_now (λ _, quiet_host) old_previous
    quiet_facts l (file_of 9 full_journal) full_journal).
  - reflexivity.
  - vm_compute. reflexivity.
  - vm_compute. discriminate.
  - vm_compute. reflexivity.
Defined.

(** The journal the old process left when it stopped between a ledger commit
    and the journal update that follows it. *)
Definition crashed : PersistentRecoveryLedger := (finalize_a (crash_at 25)).1.
Definition crashed_entry : HistoricalFinalizationEntry :=
  mkEntry "a" "a" "seat0" "boot2" 3 ResolutionIntent
    [mkNotReplayed "payload_kill" (Some 4) "IntentPersisted { attempt_id: 4 }"]
    (Some 1) (Some 7) (Some 1).

Lemma stale_journal_blocks_finalization_witness :
  is_ok (execute_previous_boot_plan boot_now (λ _, quiet_host) old_previous
           quiet_facts old_plan crashed).2 = false.
Proof.
  apply (stale_journal_blocks_finalization boot_now (λ _, quiet_host) old_previous
    quiet_facts old_plan crashed
    (mkFile 101 1 0 384 RegularFile
       (bytes_of (mkJournal JOURNAL_VERSION [crashed_entry])))
    (mkJournal JOURNAL_VERSION [crashed_entry]) crashed_entry).
  - vm_compute. reflexivity.
  - vm_compute. reflexivity.
  - by left.
  - split; [vm_compute; eauto|]. split; [vm_compute; eauto|].
    eexists 7, _. split; [reflexivity|]. split; [vm_compute; reflexivity|discriminate].
  - vm_compute. reflexivity.
Defined.

Definition removed_entry : HistoricalFinalizationEntry :=
  entry_stage Removed crashed_entry.
Definition removed_ledger : PersistentRecoveryLedger :=
  with_journal (mkJournal JOURNAL_VERSION [removed_entry])
    (ledger_of ∅ [] ∅ {["seat0"]}).

Lemma resume_releases_on_receipt_witness :
  startup_quarantined removed_ledger = false ∧
  ∃ j e, serde_from_slice (bytes_of (mkJournal JOURNAL_VERSION [removed_entry])) = Some j
    ∧ e ∈ hj_entries j ∧ he_seat e = "seat0"%string ∧ resumable e removed_ledger.
Proof.
  apply (resume_releases_on_receipt removed_ledger
    (resume_removed_previous_boot_finalization removed_ledger).1
    (resume_removed_previous_boot_finalization removed_ledger).2 "seat0"
    (file_of 9 (mkJournal JOURNAL_VERSION [removed_entry]))).
  - vm_compute. reflexivity.
  - reflexivity.
  - vm_compute. reflexivity.
  - vm_compute. reflexivity.
Defined.

(** ** Startup *)

Lemma idle_provider_local : provider_local idle_provider.
Proof. intros same l. reflexivity. Qed.

Lemma start_ledger_shared faults : shared_seats_blocked (start_ledger faults).
Proof.
  intros i j ri rj Hi Hj Hne.
  apply (singleton_record _ "a" old_record) in Hi as [-> ->]; [|done].
  by apply (singleton_record _ "a" old_record) in Hj as [-> ->].
Qed.

(** Startup on the ledger whose first file-system call fails. *)
Definition failing_start : PersistentRecoveryLedger := start_ledger (crash_at 0).

Lemma surviving_history_is_quarantined_witness :
  ∃ l' s, reconcile_records quiet_env idle_provider failing_start = inr (l', s) ∧
    (lg_records l' !! "a" = None ∨ seat_startup_quarantined "seat0" l' = true).
Proof.
  eexists _, _. split; [vm_compute; reflexivity|].
  eapply (surviving_history_is_quarantined quiet_env idle_provider failing_start
            _ _ boot2 "a" old_record).
  - apply start_ledger_keyed.
  - apply idle_provider_local.
  - apply start_ledger_shared.
  - reflexivity.
  - vm_compute. reflexivity.
  - reflexivity.
  - discriminate.
Defined.

Definition quarantined_record : PersistentRecoveryRecord :=
  record_of "b" "seat0" "boot2" "quarantined" ops_none.

Lemma quarantined_same_boot_record_does_not_block_witness :
  let x := reconcile quiet_env idle_provider (live_ledger quarantined_record) in
  let '(l', s) := x in
  lg_records l' !! "b" = Some quarantined_record ∧ sm_quarantined s = 1
  ∧ recovery_admission_state (Some (Healthy l')) None "seat0" = AdmissionClear
  ∧ ("seat0"%string = "seat0"%string → initial_lifecycle (Some (Healthy l')) = SeatFree).
Proof.
  apply (quarantined_same_boot_record_does_not_block quiet_env idle_provider
    (live_ledger quarantined_record) boot2 "b" quarantined_record).
  all: vm_compute; reflexivity.
Defined.

(** ** The pre-commit store *)

#[export] Instance codec_precommit : Codec PreCommitRuntimeRecord.
Proof.
  refine (codec_via
    (λ '(mkPreCommit a b c d e f g h i j k l m n),
       (a, b, c, d, e, f, g, h, i, j, k, l, m, n))
    (λ '(a, b, c, d, e, f, g, h, i, j, k, l, m, n),
       mkPreCommit a b c d e f g h i j k l m n) _).
  by intros [].
Defined.

Definition reserved_record (seat boot : string) : PreCommitRuntimeRecord :=
  mkPreCommit 1 "c" 1 "c" seat 1 boot "reserved" None None None None 0 false.
Definition store_of (r : PreCommitRuntimeRecord) : PreCommitRuntimeStore :=
  mkStore (dir_of {["c.json" := file_of 5 r]} []) {["c" := r]} false ∅.
Definition binding_c : PreCommitRuntimeBinding :=
  mkPcBinding (mkPcAuthority "c" 1 "boot2" 0 (mkFileIdentity 1 5 1))
    (reserved_record "seat0" "boot2").

Lemma store_of_keyed seat boot : pc_keyed (store_of (reserved_record seat boot)).
Proof.
  intros k r. unfold store_of. cbn [ps_records]. rewrite lookup_singleton_Some.
  by intros [<- <-].
Qed.

Lemma binding_single_use_witness :
  let s' := (mark_handoff_committed binding_c
               (store_of (reserved_record "seat0" "boot2"))).1 in
  is_ok (mark_handoff_committed binding_c
           (store_of (reserved_record "seat0" "boot2"))).2 = true ∧
  ∃ e, (pc_remove binding_c s').2 = Err e.
Proof.
  intros s'. split; [vm_compute; reflexivity|].
  destruct (binding_single_use (Ok "boot2"%string) apply_handoff binding_c
    (store_of (reserved_record "seat0" "boot2")) s'
    (mkPcBinding (mkPcAuthority "c" 1 "boot2" 1 (mkFileIdentity 1 100 1))
       (mkPreCommit 1 "c" 1 "c" "seat0" 1 "boot2" "handoff_started" None None None
          None 1 true)) []) as (e & _ & H & _).
  - apply apply_handoff_identity.
  - apply store_of_keyed.
  - done.
  - vm_compute. reflexivity.
  - constructor.
  - exists e. exact H.
Defined.

Definition no_processes : Z → ProcHost := λ _, mkProc None None None (Some ESRCH) [].

Lemma precommit_startup_accounts_witness :
  let x := pc_reconcile_startup (Ok "boot2"%string) None no_processes
             (store_of (reserved_record "seat0" "boot2")) in
  pcs_cleared x.2 = 1 ∧
  ∃ gone kept,
    btree_values (ps_records (store_of (reserved_record "seat0" "boot2")))
      ≡ₚ gone ++ kept ∧ pcs_cleared x.2 = Z.of_nat (length gone).
Proof.
  intros x. split; [vm_compute; reflexivity|].
  pose proof (precommit_startup_accounts None no_processes "boot2"
    (store_of (reserved_record "seat0" "boot2")) (store_of_keyed _ _)) as H.
  fold x in H. destruct x as [s' sm].
  destruct H as (gone & kept & H1 & H2 & _). exists gone, kept. by split.
Defined.

Lemma proc_starttime_field_22_witness :
  proc_starttime (Some ("7 (a) R (b) 1" +:+ ") " +:+
    String.concat " " (replicate 19 "S" ++ ["4711"%string]))) = Some 4711.
Proof.
  refine (eq_trans (proc_starttime_field_22 "7 (a) R (b) 1"
    (replicate 19 "S"%string ++ ["4711"%string]) _) eq_refl).
  repeat constructor; discriminate.
Defined.

Definition zombie_host : ProcHost :=
  mkProc None None None None [(Some "7 (w) S 1"%string, None); (Some "7 (w) Z 1"%string, None)].

Lemma kill_exact_pid_exact_witness :
  kill_exact_pid zombie_host = Ok () ↔
  ph_kill zombie_host = None ∧
  Exists poll_shows_zombie (take 64 (ph_polls zombie_host)).
Proof.
  apply (kill_exact_pid_exact zombie_host).
  - by left.
  - repeat constructor.
Defined.

(** ** Admission *)

Definition free_world : AdmissionWorld :=
  mkWorld (controller_new "seat0" SeatFree)
    (Some (Healthy (store_of (reserved_record "seat0" "boot2")))).
Definition vt1 : PreviousVtIdentity := mkPreviousVt 1.
Definition lease_c : AdmissionLease := mkLease "seat0" 1 "c" 1 vt1 None.
Definition reserved_world : AdmissionWorld := (reserve "c" AdmissionClear vt1 free_world).1.

Lemma reservation_is_exclusive_witness :
  (run_admission_op (OpReserve "d" AdmissionClear vt1)
     (run_admission [OpPromote lease_c AdmissionClear] reserved_world)).2 = false.
Proof.
  apply (reservation_is_exclusive "c" AdmissionClear vt1 free_world reserved_world
    lease_c [OpPromote lease_c AdmissionClear] "d" AdmissionClear vt1).
  - apply controller_new_inv.
  - reflexivity.
  - by split.
Defined.

Lemma stale_lease_rejected_witness :
  let ops := [OpCancel (RollbackReserved lease_c); OpReserve "d" AdmissionClear vt1] in
  let w' := run_admission ops reserved_world in
  run_admission_op (OpPromote lease_c AdmissionClear) w' = (w', false).
Proof.
  intros ops. apply (stale_lease_rejected reserved_world ops _ 1).
  - apply (run_admission_inv [OpReserve "c" AdmissionClear vt1] free_world).
    apply controller_new_inv.
  - reflexivity.
  - vm_compute. discriminate.
  - vm_compute. reflexivity.
  - vm_compute. discriminate.
Defined.

Definition bound_lease : AdmissionLease := mkLease "seat0" 1 "c" 1 vt1 (Some binding_c).

Lemma settled_login_leaves_no_precommit_record_witness :
  let w' := (cancel (RollbackReserved bound_lease) reserved_world).1 in
  view (aw_controller w') = VFree.
Proof.
  intros w'.
  refine (proj2 (proj1 (settled_login_leaves_no_precommit_record reserved_world _)
    bound_lease binding_c w' _ _)).
  - apply (run_admission_inv [OpReserve "c" AdmissionClear vt1] free_world).
    apply controller_new_inv.
  - reflexivity.
  - vm_compute. reflexivity.
Defined.

(** ** Administrative recovery *)

Lemma admin_start_keyed : keyed (as_ledger (admin_start ∅)).
Proof.
  intros id r Hr. by apply (singleton_record _ "b" busy_record) in Hr as [-> ->].
Qed.

Lemma admin_ioctl_after_durable_intent_witness :
  ∃ record vt l1 rec,
    as_ioctls (admin_retry (Ok ()) ∅).1 = [] ++ [(vi_number vt, l1)] ∧
    lg_records (as_ledger (admin_start ∅)) !! "b" = Some record ∧
    persisted "b" rec l1.
Proof.
  destruct (admin_ioctl_after_durable_intent boot_now (admin_host (Ok ())) "seat0" "b"
    3 None (admin_start ∅) (admin_retry (Ok ()) ∅).1 (admin_retry (Ok ()) ∅).2)
    as [E|(record & vt & l1 & rec & H1 & H2 & _ & _ & _ & H3 & _)].
  - apply admin_start_keyed.
  - vm_compute. reflexivity.
  - exfalso. vm_compute in E. discriminate E.
  - exists record, vt, l1, rec. split; [exact H1|]. split; [exact H2|exact H3].
Defined.

Lemma admin_release_sound_witness :
  is_free (aw_controller (as_admission (admin_retry (Ok ()) ∅).1)) = true ∧
  (as_admission (admin_retry (Ok ()) ∅).1 = as_admission (admin_start ∅) ∨
   gone "b" (as_ledger (admin_retry (Ok ()) ∅).1) ∧
   seat_free_now "seat0" (as_ledger (admin_retry (Ok ()) ∅).1) = true ∧
   ∃ n a, (admin_retry (Ok ()) ∅).2 = Ok (RetryAccepted "b" n a)).
Proof.
  split; [vm_compute; reflexivity|].
  apply (admin_release_sound boot_now (admin_host (Ok ())) "seat0" "b"
    3 None (admin_start ∅)).
  - apply admin_start_keyed.
  - vm_compute. reflexivity.
  - vm_compute. reflexivity.
Defined.

Lemma admin_busy_reports_stale_sequence_witness :
  ∃ rec, lg_records (as_ledger (admin_retry (Err VtDisallocateBusy) ∅).1) !! "b" = Some rec ∧
    5 = u64_saturating_add 3 2 ∧ pr_sequence rec = 3 + 3.
Proof.
  apply (admin_busy_reports_stale_sequence boot_now (admin_host (Err VtDisallocateBusy))
    "seat0" "b" 3 None (admin_start ∅) (admin_retry (Err VtDisallocateBusy) ∅).1 5 1).
  - apply admin_start_keyed.
  - reflexivity.
  - vm_compute. reflexivity.
Defined.
