(* ===== verification/WireRuns.v ===== *)
(** * Concrete logins

    Serializers for the wire types and small runs of a greeter connection, a
    PAM conversation and a login transaction: the theorems of [Conversation],
    [Login], [Daemon] and [Client] at inputs where their assumptions hold. *)

From stdpp Require Import base gmap sets list strings.
From Stdlib Require Import ZArith Lia.
From S2P Require Import Prelude DirFs RecoveryTypes LedgerTaxonomy Ledger Codec.
From S2P Require Import PreviousBoot PreCommit SameBoot Admission Protocol.
From S2P Require Import Conversation.
From S2P Require Import Login Daemon Client Scenarios Witnesses.
#[local] Open Scope niralis_scope.

(** ** Serializers *)

#[export] Instance codec_PamPromptResponse : Codec PamPromptResponse.
Proof.
  refine (codec_via (λ v, match v with
    | RespSecret s => (0, s) | RespText s => (1, s) | RespNone => (2, EmptyString) end)
    (λ '(t, s), if t =? 0 then RespSecret s else if t =? 1 then RespText s
      else RespNone) _). by intros [].
Defined.
#[export] Instance codec_GreeterHandshake : Codec GreeterHandshake.
Proof.
  refine (codec_via (λ '(mkHandshake a b), (a, b)) (λ '(a, b), mkHandshake a b) _).
  by intros [].
Defined.
#[export] Instance codec_GreeterHandshakeResponse : Codec GreeterHandshakeResponse.
Proof.
  refine (codec_via (λ '(mkHandshakeResponse a b c d), (a, b, c, d))
    (λ '(a, b, c, d), mkHandshakeResponse a b c d) _). by intros [].
Defined.
#[export] Instance codec_GreeterRequest : Codec GreeterRequest.
Proof.
  refine (codec_via (λ v, match v with
    | GrStatus => (0, 0, EmptyString, EmptyString, EmptyString)
    | GrGetUsers => (1, 0, EmptyString, EmptyString, EmptyString)
    | GrGetSessions => (2, 0, EmptyString, EmptyString, EmptyString)
    | GrLogin u s p => (3, 0, u, s, p)
    | GrCancel n => (4, n, EmptyString, EmptyString, EmptyString) end)
    (λ '(t, n, u, s, p), if t =? 0 then GrStatus else if t =? 1 then GrGetUsers
      else if t =? 2 then GrGetSessions else if t =? 3 then GrLogin u s p
      else GrCancel n) _). by intros [].
Defined.
#[export] Instance codec_GreeterRequestEnvelope : Codec GreeterRequestEnvelope.
Proof.
  refine (codec_via
    (λ '(mkRequestEnvelope a b c d e f g h i), (a, b, c, d, e, f, g, h, i))
    (λ '(a, b, c, d, e, f, g, h, i), mkRequestEnvelope a b c d e f g h i) _).
  by intros [].
Defined.
#[export] Instance codec_SessionInfo : Codec SessionInfo.
Proof.
  refine (codec_via (λ '(mkSessionInfo a b c),
      (a, b, match c with Wayland => true | X11 => false end))
    (λ '(a, b, c), mkSessionInfo a b (if c : bool then Wayland else X11)) _).
  by intros [? ? []].
Defined.
#[export] Instance codec_UserInfo : Codec UserInfo.
Proof.
  refine (codec_via (λ '(mkUserInfo a b c), (a, b, c))
    (λ '(a, b, c), mkUserInfo a b c) _). by intros [].
Defined.
#[export] Instance codec_DaemonStatus : Codec DaemonStatus.
Proof.
  refine (codec_via (λ '(mkDaemonStatus a b c d), (a, b, c, d))
    (λ '(a, b, c, d), mkDaemonStatus a b c d) _). by intros [].
Defined.
#[export] Instance codec_NiralisResponse : Codec NiralisResponse.
Proof.
  pose (e := @nil UserInfo). pose (f := @nil SessionInfo).
  pose (s0 := mkSessionInfo EmptyString EmptyString X11).
  pose (d0 := mkDaemonStatus EmptyString EmptyString EmptyString EmptyString).
  refine (codec_via (λ v, match v with
    | RespStatus d => (0, d, e, f, s0, EmptyString)
    | RespUsers u => (1, d0, u, f, s0, EmptyString)
    | RespSessions s => (2, d0, e, s, s0, EmptyString)
    | LoginOk s => (3, d0, e, f, s, EmptyString)
    | SessionUnavailable m => (4, d0, e, f, s0, m)
    | LoginFailed m => (5, d0, e, f, s0, m)
    | RespError m => (6, d0, e, f, s0, m) end)
    (λ '(t, d, u, ss, s, m), if t =? 0 then RespStatus d else if t =? 1 then RespUsers u
      else if t =? 2 then RespSessions ss else if t =? 3 then LoginOk s
      else if t =? 4 then SessionUnavailable m else if t =? 5 then LoginFailed m
      else RespError m) _). by intros [].
Defined.
#[export] Instance codec_GreeterResponseEnvelope : Codec GreeterResponseEnvelope.
Proof.
  refine (codec_via (λ '(mkResponseEnvelope a b c), (a, b, c))
    (λ '(a, b, c), mkResponseEnvelope a b c) _). by intros [].
Defined.

(** ** A greeter that logs in and then asks to cancel *)

Definition niri : SessionInfo := mkSessionInfo "niri" "Niri" Wayland.
Definition peer1 : ValidatedPeerIdentity := mkPeer 100 100 (Some 7).
Definition conn1 : GreeterConnectionAuthority := mkConnection "g1-c1" 2 "seat0" peer1.

(** A backend that accepts every login. *)
Definition easy_host : DaemonHost Socket :=
  mkDaemonHost Socket
    (λ x w, (w, Ok (mkStarted (la_username x) (la_session x))))
    (Ok []) (Ok [niri])
    (λ id, Ok (if str_eqb id "niri"
               then Some (mkLaunchSpec niri "/s/niri.desktop" "/bin/niri" ["niri"%string])
               else None))
    (mkDaemonStatus "0.1" "/run/n.sock" "niri" "greeter").

Definition payload_size (g : GreeterRequest) : Z :=
  match serde_to_vec g with Some b => str_len b | None => 0 end.
Definition envelope (n : Z) (kind : string) (g : GreeterRequest) : GreeterRequestEnvelope :=
  mkRequestEnvelope 2 kind "g1-c1" 2 n n "seat0" (payload_size g) g.
Definition line {T} `{SerdeJson T} (v : T) : Stream :=
  match serde_to_vec v with
  | Some b => frame_bytes b ++ [Some NEWLINE]
  | None => []
  end.
Definition login1 : GreeterRequestEnvelope :=
  envelope 1 "login" (GrLogin "ada" "niri" "pw").
Definition cancel1 : GreeterRequestEnvelope := envelope 2 "cancel" (GrCancel 1).
Definition handler1 : DaemonHandler Socket :=
  mkHandler (Healthy (limiter_new 3 100)) (Healthy ∅) 1 [] []
    (mkSocket (line login1 ++ line cancel1) [] []).
Definition serve1 : option (DaemonHandler Socket * list GreeterRequestEnvelope
                            * result () NiralisdError) :=
  serve easy_host (λ _ t, t) (λ _ t, t) (λ i, (Z.of_nat i, Z.of_nat i))
    (S (stream_len handler1)) conn1 handler1.

Example serve1_runs :
  (λ x, (x.1.2, x.2, la_username <$> hd_logins x.1.1)) <$> serve1
  = Some ([login1; cancel1], Ok (), ["ada"%string]).
Proof. vm_compute. reflexivity. Qed.

Lemma handler1_none_open : none_open conn1 (hd_table handler1).
Proof. intros k _. unfold TransactionTable. by rewrite lookup_empty. Qed.

Lemma client_served_within_authority_witness :
  ∃ h' es r new, serve1 = Some (h', es, r) ∧ dispatched_ok conn1 es ∧
    hd_logins h' = [] ++ new ∧ Forall (asked_by conn1 es) new.
Proof.
  destruct (client_served_within_authority easy_host (λ _ t, t) (λ _ t, t)
    (λ i, (Z.of_nat i, Z.of_nat i)) conn1 ltac:(done) ltac:(done) ltac:(done)
    (S (stream_len handler1)) handler1 handler1_none_open ltac:(lia))
    as (h' & es & r & new & H1 & H2 & H3 & H4 & _).
  exists h', es, r, new. split; [exact H1|]. split; [exact H2|]. split; [exact H3|exact H4].
Defined.

Lemma cancel_never_reaches_backend_witness :
  match serve1 with Some (h', _, _) => hd_cancelled h' = [] | None => False end.
Proof.
  destruct serve1 as [[[h' es] r]|] eqn:E.
  - unfold serve1 in E.
    exact (cancel_never_reaches_backend easy_host (λ _ t, t) (λ _ t, t)
      (λ i, (Z.of_nat i, Z.of_nat i)) conn1 (λ _ _ _ _, eq_refl) (λ _ _ _ _, eq_refl)
      (S (stream_len handler1)) handler1 h' es r handler1_none_open E).
  - vm_compute in E. discriminate E.
Defined.

(** ** A user who guesses *)

Definition guess (t : Z) : LoginTry := mkTry "ada" t t AuthFailed.
Definition guesses : list LoginTry := [guess 1; guess 2; guess 3; guess 150].

Lemma rate_limit_enforced_witness :
  ∃ x rest, failures_of "ada" guesses (limiter_new 3 100) = x :: rest ∧
    has_gap 100 (tr_end x) rest.
Proof.
  apply (rate_limit_enforced "ada" guesses (limiter_new 3 100) 0).
  - split; [reflexivity|vm_compute; discriminate].
  - apply map_Forall_empty.
  - cbn. lia.
  - repeat constructor; discriminate.
  - vm_compute. reflexivity.
Defined.

(** ** A conversation *)

Definition prompt1 : PamPromptEnvelope :=
  mkPromptEnvelope 2 "pam_prompt" "g1-c1" 2 "seat0" 1 "c" "pam-c" 5 1 PromptEchoOff 9
    "Password:".
Definition answer1 : PamPromptResponseEnvelope :=
  mkPromptResponse 2 "pam_prompt_response" "g1-c1" 2 "seat0" 1 "c" "pam-c" 5 1
    PromptEchoOff
    (match serde_to_vec (RespSecret "pw") with Some b => str_len b | None => 0 end)
    (RespSecret "pw").
Definition worker_tx : WorkerTransactionIdentity :=
  mkWorkerTransaction "c" 1 "c" "seat0" 1 "reserved".
Definition event1 : PromptEvent :=
  mkPromptEvent "c" 42 worker_tx prompt1 (Some (Ok answer1)) 10 20 (Ok ()).
Definition authority1 : PamConversationAuthority :=
  mkAuthority "c" 1 "c" "seat0" 1 "g1-c1" 2 1 "c" "pam-c" 1 100 false None.

Lemma pam_relay_lockstep_witness :
  ∃ a, rl_authority (relay "c" 42 1 1 [event1; event1] (mkRelay (Some authority1) [])) = Some a
    ∧ same_conversation authority1 a.
Proof.
  destruct (pam_relay_lockstep "c" 42 1 1 "c" 1 "c" "seat0" 1 "g1-c1" 2 1 "c" "pam-c" 100
    authority1 [event1; event1] _ eq_refl ltac:(vm_compute; reflexivity) eq_refl)
    as (a & H1 & H2 & _).
  exists a. split; [exact H1|exact H2].
Defined.

Lemma pam_prompt_delivered_witness :
  forward_pam_prompt "c" 42 1 1 event1 (mkRelay (Some authority1) []) =
    (mkRelay (Some (ca_with (u64_wrapping_add 1 1) false None authority1))
       ([] ++ [(from_worker worker_tx "pam_prompt_response" 1, answer1)]), Ok ()).
Proof.
  apply (pam_prompt_delivered "c" 42 1 1 event1 answer1 authority1
    (mkRelay (Some authority1) [])); try reflexivity.
  - repeat split.
Defined.

(** ** A login transaction *)

(** No pre-commit store, and one whose directory fails every call. *)
Definition plain_world : AdmissionWorld :=
  mkWorld (controller_new "seat0" SeatFree) None.
Definition failing_world : AdmissionWorld :=
  mkWorld (controller_new "seat0" SeatFree)
    (Some (Healthy (mkStore (dir_of ∅ [Some (OtherKind, O)]) ∅ false ∅))).
Definition no_proc : Z → ProcHost := λ _, mkProc None None None None [].

Definition plain_reserved : AdmissionWorld := (reserve "c" AdmissionClear vt1 plain_world).1.
Definition tx_c : LoginTransaction := from_admission lease_c (greeter_private "c") "niri" 100.
Definition backend_c : TransactionOwnedLoginBackend :=
  mkBackend tx_c (mkChannel "c" 42) "reserved" 0 None.

Lemma prepared_login_commits_witness :
  let s := (prepare no_proc (authenticated no_proc backend_c plain_reserved).2
              plain_reserved).2 in
  permit_validate_expected "c" "niri" s = true.
Proof.
  intros s.
  refine (proj1 (prepared_login_commits no_proc "c" vt1 plain_world plain_reserved
    plain_reserved plain_reserved plain_reserved lease_c lease_c (greeter_private "c")
    "niri" 100 (mkChannel "c" 42) 1 backend_c backend_c _ _ _ _ _ _ _ _ _ _));
    try (vm_compute; reflexivity); vm_compute; discriminate.
Defined.

Definition pending_c : PendingLifecycleLease := mkPending "seat0" 1 "c" 1 None.
Definition plain_pending : AdmissionWorld := (promote lease_c AdmissionClear plain_reserved).1.
Definition launch_c : PendingLaunchTransaction :=
  pending pending_c (ob_with (lt_with None TxPrepared tx_c) "prepared" 2 backend_c).

Lemma login_single_winner_witness :
  let w1 := (commit_transaction launch_c AdmissionClear plain_pending).1 in
  cancel (RollbackPending pending_c) w1 = (w1, Err SessionSeatUnavailable).
Proof.
  intros w1.
  refine (proj2 (proj2 (proj2 (proj1 (login_single_winner launch_c pending_c AdmissionClear
    plain_pending eq_refl) w1 (mkCommit "seat0" 1 "c" 1 None) _)))).
  vm_compute. reflexivity.
Defined.

Lemma lost_token_strands_seat_witness :
  let w' := (reserve_seat (Ok "boot2"%string) "c" (Ok vt1) None failing_world).1 in
  ∃ g, held_at g (aw_controller w') ∧
    ∀ ops, Forall (λ op, token_generation op ≠ Some g) ops → run_admission ops w' = w'.
Proof.
  intros w'.
  apply (lost_token_strands_seat (Ok "boot2"%string) "c" vt1 None failing_world w'
    PersistentRecoveryUnavailable).
  - apply controller_new_inv.
  - left. exists (reserve "c" AdmissionClear vt1 failing_world).1, lease_c.
    split; vm_compute; reflexivity.
Defined.
