(* ===== verification/LaunchSpec.v ===== *)
(** * Resolving the command of a session

    [niralis-discovery/src/sessions/launch.rs]: the [Exec] line is split into
    arguments the way the Desktop Entry Specification quotes them, never by a
    shell; the command is resolved in the search path; [TryExec] gates the
    entry.  [quote_exec] is the printer the splitter is compared with. *)

From stdpp Require Import base gmap sets list strings sorting.
From Stdlib Require Import ZArith Lia.
From S2P Require Import Prelude Text Paths DirFs RecoveryTypes LedgerTaxonomy.
From S2P Require Import Ledger Protocol PreCommit Admission Conversation Login.
From S2P Require Import Daemon.
#[local] Open Scope niralis_scope.

Definition MAX_DESKTOP_ENTRY_BYTES : Z := 64 * 1024.
Definition MAX_EXEC_BYTES : Z := 8 * 1024.
Definition MAX_ARGC : Z := 64.
Definition MAX_ARG_BYTES : Z := 4 * 1024.
Definition MAX_ARGV_BYTES : Z := 16 * 1024.

(** ** The [Exec] line *)

Definition SPACE : Z := 32.
Definition TAB : Z := 9.
Definition QUOTE : Z := 34.
Definition BACKSLASH : Z := 92.
Definition PERCENT : Z := 37.
Definition DOLLAR : Z := 36.
Definition BACKTICK : Z := 96.

(** What [chars.next()] leaves. *)
Definition advance (chars : list Z) : list Z :=
  match chars with [] => chars | _ :: rest => rest end.

(** The token after [expand_percent]; [next] is what [chars.next()] gives. *)
Definition expand_percent (token : list Z) (next : option Z)
    : result (list Z) DiscoveryError :=
  match next with
  | None => Err InvalidLaunchSpec
  | Some code => if code =? PERCENT then Ok (token ++ [PERCENT])
                 else Err InvalidLaunchSpec
  end.

Definition push_token (argv : list (list Z)) (token : list Z)
    : result (list (list Z)) DiscoveryError :=
  if (MAX_ARG_BYTES <? text_len token) || (MAX_ARGC <=? Z.of_nat (length argv))
  then Err InvalidLaunchSpec else Ok (argv ++ [token]).

Definition escapable (c : Z) : bool :=
  (c =? QUOTE) || (c =? BACKTICK) || (c =? DOLLAR) || (c =? BACKSLASH).

(** The variables of the loop. *)
Record ExecState := mkExec {
  ex_argv : list (list Z);
  ex_token : list Z;
  ex_quoted : bool;
  ex_started : bool;
}.

(** The [while let Some(character) = chars.next()] loop. *)
Fixpoint exec_loop (chars : list Z) (st : ExecState)
    : result ExecState DiscoveryError :=
  match chars with
  | [] => Ok st
  | c :: rest =>
      let '(mkExec argv token quoted started) := st in
      if is_control c then Err InvalidLaunchSpec
      else if quoted then
        if c =? QUOTE then exec_loop rest (mkExec argv token false true)
        else if c =? BACKSLASH then
          match head rest with
          | Some escaped =>
              if escapable escaped
              then exec_loop (advance rest) (mkExec argv (token ++ [escaped]) true true)
              else Err InvalidLaunchSpec
          | None => Err InvalidLaunchSpec
          end
        else if c =? PERCENT then
          match expand_percent token (head rest) with
          | Ok token' => exec_loop (advance rest) (mkExec argv token' true true)
          | Err e => Err e
          end
        else exec_loop rest (mkExec argv (token ++ [c]) true true)
      else if (c =? SPACE) || (c =? TAB) then
        if started then
          match push_token argv token with
          | Ok argv' => exec_loop rest (mkExec argv' [] false false)
          | Err e => Err e
          end
        else exec_loop rest st
      else if c =? QUOTE then exec_loop rest (mkExec argv token true true)
      else if c =? PERCENT then
        match expand_percent token (head rest) with
        | Ok token' => exec_loop (advance rest) (mkExec argv token' false true)
        | Err e => Err e
        end
      else if c =? BACKSLASH then Err InvalidLaunchSpec
      else exec_loop rest (mkExec argv (token ++ [c]) false true)
  end.

(** [try_fold(0usize, ..)] with [checked_add]. *)
Fixpoint argv_bytes (argv : list (list Z)) (sum : Z) : option Z :=
  match argv with
  | [] => Some sum
  | arg :: rest =>
      match u64_checked_add sum (text_len arg + 1) with
      | Some sum' => argv_bytes rest sum'
      | None => None
      end
  end.

Definition parse_exec (value : list Z) : result (list (list Z)) DiscoveryError :=
  if bool_decide (value = []) || (MAX_EXEC_BYTES <? text_len value)
     || bool_decide (0 ∈ utf8_bytes value)
  then Err InvalidLaunchSpec
  else match exec_loop value (mkExec [] [] false false) with
  | Err e => Err e
  | Ok (mkExec argv token quoted started) =>
      if quoted || (negb started && bool_decide (argv = []))
      then Err InvalidLaunchSpec
      else match (if started then push_token argv token else Ok argv) with
      | Err e => Err e
      | Ok argv =>
          if bool_decide (argv = []) then Err InvalidLaunchSpec
          else match argv_bytes argv 0 with
          | None => Err InvalidLaunchSpec
          | Some total => if MAX_ARGV_BYTES <? total then Err InvalidLaunchSpec
                          else Ok argv
          end
      end
  end.

(** ** The command *)

(** [0o111]. *)
Definition EXEC_BITS : Z := 0x49.

Definition is_executable (fs : SessionFs) (path : string) : bool :=
  match sf_metadata fs path with
  | Some metadata => fm_is_file metadata && negb (Z.land (fm_mode metadata) EXEC_BITS =? 0)
  | None => false
  end.

Definition resolve_executable (fs : SessionFs) (command : string)
    (search_path : list string) : result string DiscoveryError :=
  let candidate :=
    if is_absolute command then Ok command
    else if negb (Z.of_nat (length (components command)) =? 1) || str_is_empty command
    then Err InvalidLaunchSpec
    else match list_find (λ path, is_executable fs path = true)
                 ((λ directory, path_join directory command) <$> search_path) with
         | Some (_, path) => Ok path
         | None => Err InvalidLaunchSpec
         end in
  match candidate with
  | Err e => Err e
  | Ok candidate =>
      if negb (is_executable fs candidate) then Err InvalidLaunchSpec
      else match sf_canonicalize fs candidate with
      | Some path => Ok path
      | None => Err InvalidLaunchSpec
      end
  end.

(** [u8::is_ascii_whitespace]: space, tab, line feed, form feed, carriage
    return. *)
Definition is_ascii_whitespace (b : Z) : bool :=
  (b =? 32) || (b =? 9) || (b =? 10) || (b =? 12) || (b =? 13).

Definition try_exec_is_available (fs : SessionFs) (value : list Z)
    (search_path : list string) : bool :=
  if bool_decide (value = []) || (MAX_ARG_BYTES <? text_len value)
     || existsb (λ byte, (byte =? 0) || is_ascii_whitespace byte) (utf8_bytes value)
  then false
  else is_ok (resolve_executable fs (str_of_text value) search_path).

(** [CanonicalSessionEntry] of [desktop_entry.rs]. *)
Record CanonicalSessionEntry := mkEntry {
  ce_session : SessionInfo;
  ce_source_path : string;
  ce_exec : list Z;
  ce_try_exec : option (list Z);
}.

Definition try_exec_is_eligible (fs : SessionFs) (entry : CanonicalSessionEntry)
    (search_path : list string) : bool :=
  match ce_try_exec entry with
  | Some value => try_exec_is_available fs value search_path
  | None => true
  end.

(** [argv[0]] panics on an empty vector; [None] here. *)
Definition resolve (fs : SessionFs) (entry : CanonicalSessionEntry)
    (search_path : list string)
    : option (result ResolvedSessionLaunchSpec DiscoveryError) :=
  match parse_exec (ce_exec entry) with
  | Err e => Some (Err e)
  | Ok argv =>
      match head argv with
      | None => None
      | Some argv0 => Some
          match resolve_executable fs (str_of_text argv0) search_path with
          | Err e => Err e
          | Ok executable =>
              let spec := mkLaunchSpec (ce_session entry) (ce_source_path entry)
                            executable (str_of_text <$> argv) in
              match ce_try_exec entry with
              | Some try_exec =>
                  if negb (try_exec_is_available fs try_exec search_path)
                  then Err InvalidLaunchSpec else Ok spec
              | None => Ok spec
              end
          end
      end
  end.

(** ** The quoting rules as a grammar *)

(** A character that stands for itself outside quotes. *)
Definition plain (c : Z) : bool :=
  negb (is_control c || (c =? SPACE) || (c =? QUOTE) || (c =? PERCENT)
        || (c =? BACKSLASH)).
(** A character that stands for itself between quotes. *)
Definition quotable (c : Z) : bool :=
  negb (is_control c || (c =? QUOTE) || (c =? PERCENT) || (c =? BACKSLASH)).

(** What may stand between two quotes, and the text it denotes. *)
Inductive quoted_body : list Z → list Z → Prop :=
| qb_nil : quoted_body [] []
| qb_char c s t :
    quotable c = true → quoted_body s t → quoted_body (c :: s) (c :: t)
| qb_escape c s t :
    escapable c = true → quoted_body s t → quoted_body (BACKSLASH :: c :: s) (c :: t)
| qb_percent s t :
    quoted_body s t → quoted_body (PERCENT :: PERCENT :: s) (PERCENT :: t).

(** A word: plain characters, [%%] and quoted parts next to each other. *)
Inductive word : list Z → list Z → Prop :=
| w_nil : word [] []
| w_char c s t : plain c = true → word s t → word (c :: s) (c :: t)
| w_percent s t : word s t → word (PERCENT :: PERCENT :: s) (PERCENT :: t)
| w_quoted q r s t :
    quoted_body q r → word s t → word (QUOTE :: q ++ QUOTE :: s) (r ++ t).

(** A line: words with spaces between and around them. *)
Inductive exec_line : list Z → list (list Z) → Prop :=
| el_nil : exec_line [] []
| el_space s args : exec_line s args → exec_line (SPACE :: s) args
| el_last w a : w ≠ [] → word w a → exec_line w [a]
| el_word w a s args :
    w ≠ [] → word w a → exec_line s args → exec_line (w ++ SPACE :: s) (a :: args).

(** The printer: every argument in quotes. *)
Definition escape_char (c : Z) : list Z :=
  if escapable c then [BACKSLASH; c]
  else if c =? PERCENT then [PERCENT; PERCENT] else [c].
Definition quote_arg (arg : list Z) : list Z :=
  QUOTE :: (arg ≫= escape_char) ++ [QUOTE].
Fixpoint quote_exec (argv : list (list Z)) : list Z :=
  match argv with
  | [] => []
  | [arg] => quote_arg arg
  | arg :: rest => quote_arg arg ++ SPACE :: quote_exec rest
  end.

(** *** The loop follows the grammar *)

Ltac char_cases :=
  repeat match goal with
  | H : (_ || _) = true |- _ => apply orb_true_iff in H as [H|H]
  | H : plain _ = true |- _ => unfold plain in H
  | H : quotable _ = true |- _ => unfold quotable in H
  | H : escapable _ = true |- _ => unfold escapable in H
  end; bool_facts; subst.

Lemma loop_quoted_complete q r s argv token started :
  quoted_body q r →
  exec_loop (q ++ QUOTE :: s) (mkExec argv token true started) =
  exec_loop s (mkExec argv (token ++ r) false true).
Proof.
  intros H. revert token started.
  induction H as [|c q r Hc _ IH|c q r Hc _ IH|q r _ IH]; intros token started.
  - cbn. by rewrite app_nil_r.
  - cbn [app exec_loop]. char_cases.
    repeat match goal with H : is_control _ = _ |- _ => rewrite H end.
    rewrite !(proj2 (Z.eqb_neq _ _)) by done. rewrite IH.
    by rewrite <- (assoc_L app).
  - cbn [app exec_loop head advance]. rewrite Hc. cbn.
    rewrite IH. by rewrite <- (assoc_L app).
  - cbn [app exec_loop head advance expand_percent]. cbn.
    rewrite IH. by rewrite <- (assoc_L app).
Qed.

Lemma loop_word_complete w t s argv token started :
  word w t →
  exec_loop (w ++ s) (mkExec argv token false started) =
  exec_loop s (mkExec argv (token ++ t) false (started || bool_decide (w ≠ []))).
Proof.
  intros H. revert token started.
  induction H as [|c w t Hc _ IH|w t _ IH|q r w t Hq _ IH]; intros token started.
  - cbn. by rewrite orb_false_r, app_nil_r.
  - cbn [app exec_loop]. char_cases.
    repeat match goal with H : is_control _ = _ |- _ => rewrite H end.
    assert (c ≠ TAB) by (intros ->; by cbn in *).
    rewrite !(proj2 (Z.eqb_neq _ _)) by done. cbn [orb]. rewrite IH.
    cbn [orb]. rewrite (bool_decide_true (c :: w ≠ [])) by done.
    by rewrite orb_true_r, <- (assoc_L app).
  - cbn [app exec_loop head advance expand_percent]. cbn.
    rewrite IH. rewrite <- (assoc_L app). by rewrite orb_true_r.
  - cbn [app exec_loop]. cbn. rewrite <- (assoc_L app). cbn [app].
    rewrite (loop_quoted_complete q r) by done. rewrite IH.
    rewrite <- (assoc_L app). by rewrite orb_true_r.
Qed.

Lemma loop_quoted_sound chars argv token started st' :
  exec_loop chars (mkExec argv token true started) = Ok st' →
  ex_quoted st' = false →
  ∃ q r s, chars = q ++ QUOTE :: s ∧ quoted_body q r ∧
    exec_loop s (mkExec argv (token ++ r) false true) = Ok st'.
Proof.
  remember (length chars) as n eqn:Hn. revert chars token started Hn.
  induction (lt_wf n) as [n _ IH]; intros chars token started -> H Hq.
  destruct chars as [|c rest]; [by simplify_eq/=|]. cbn [exec_loop] in H.
  destruct (is_control c) eqn:Hctl; [done|].
  destruct (Z.eqb_spec c QUOTE) as [->|Hn1].
  { exists [], [], rest. rewrite app_nil_r. auto using qb_nil. }
  destruct (Z.eqb_spec c BACKSLASH) as [->|Hn2];
    [|destruct (Z.eqb_spec c PERCENT) as [->|Hn3]].
  - destruct rest as [|e rest]; [done|]. cbn in H.
    destruct (escapable e) eqn:He; [|done].
    destruct (IH (length rest) ltac:(cbn; lia) rest _ _ eq_refl H Hq)
      as (q & r & s & -> & Hb & Hs).
    exists (BACKSLASH :: e :: q), (e :: r), s.
    split; [done|]. split; [by constructor|]. by rewrite <- (assoc_L app) in Hs.
  - destruct rest as [|e rest]; [done|]. cbn in H.
    destruct (Z.eqb_spec e PERCENT) as [->|]; [|done].
    destruct (IH (length rest) ltac:(cbn; lia) rest _ _ eq_refl H Hq)
      as (q & r & s & -> & Hb & Hs).
    exists (PERCENT :: PERCENT :: q), (PERCENT :: r), s.
    split; [done|]. split; [by constructor|]. by rewrite <- (assoc_L app) in Hs.
  - destruct (IH (length rest) ltac:(cbn; lia) rest _ _ eq_refl H Hq)
      as (q & r & s & -> & Hb & Hs).
    exists (c :: q), (c :: r), s.
    split; [done|]. split; [|by rewrite <- (assoc_L app) in Hs].
    constructor; [|done]. unfold quotable.
    by rewrite Hctl, !(proj2 (Z.eqb_neq _ _)).
Qed.

Lemma loop_word_sound chars argv token started st' :
  exec_loop chars (mkExec argv token false started) = Ok st' →
  ex_quoted st' = false →
  ∃ w t s, chars = w ++ s ∧ word w t ∧ (s = [] ∨ ∃ s0, s = SPACE :: s0) ∧
    exec_loop s (mkExec argv (token ++ t) false (started || bool_decide (w ≠ [])))
    = Ok st'.
Proof.
  remember (length chars) as n eqn:Hn. revert chars token started Hn.
  induction (lt_wf n) as [n _ IH]; intros chars token started -> H Hq.
  assert (∀ (v : list Z) (u rest token' : list Z),
    chars = v ++ rest → v ≠ [] → (∀ w t, word w t → word (v ++ w) (u ++ t)) →
    token' = token ++ u →
    exec_loop rest (mkExec argv token' false true) = Ok st' →
    ∃ w t s, chars = w ++ s ∧ word w t ∧ (s = [] ∨ ∃ s0, s = SPACE :: s0) ∧
      exec_loop s (mkExec argv (token ++ t) false (started || bool_decide (w ≠ [])))
      = Ok st') as Hstep.
  { intros v u rest token' -> Hv Hw -> Hr.
    destruct (IH (length rest)
                ltac:(rewrite length_app; destruct v; [done|cbn; lia])
                rest _ _ eq_refl Hr Hq) as (w & t & s & -> & Hword & Hs & Hrun).
    exists (v ++ w), (u ++ t), s.
    rewrite (bool_decide_true (v ++ w ≠ [])) by (by destruct v).
    rewrite orb_true_r, !(assoc_L app). auto. }
  destruct chars as [|c rest].
  { exists [], [], []. cbn in H. rewrite (app_nil_r token).
    rewrite bool_decide_false by (by intros []). rewrite orb_false_r.
    split; [done|]. split; [apply w_nil|]. split; [by left|exact H]. }
  cbn [exec_loop] in H. destruct (is_control c) eqn:Hctl; [done|].
  destruct (Z.eqb_spec c SPACE) as [->|Hsp].
  { exists [], [], (SPACE :: rest). rewrite (app_nil_r token).
    rewrite bool_decide_false by (by intros []). rewrite orb_false_r.
    split; [done|]. split; [apply w_nil|]. split; [eauto|exact H]. }
  destruct (Z.eqb_spec c TAB) as [->|Htab]; [done|]. cbn [orb] in H.
  destruct (Z.eqb_spec c QUOTE) as [->|Hn1].
  { apply loop_quoted_sound in H as (q & r & s & -> & Hb & Hs); [|done].
    apply (Hstep (QUOTE :: q ++ [QUOTE]) r s (token ++ r)); try done.
    - cbn. by rewrite <- (assoc_L app).
    - intros w t Hw. cbn. rewrite <- (assoc_L app). by constructor. }
  destruct (Z.eqb_spec c PERCENT) as [->|Hn2].
  { destruct rest as [|e rest]; [done|]. cbn in H.
    destruct (Z.eqb_spec e PERCENT) as [->|]; [|done].
    apply (Hstep [PERCENT; PERCENT] [PERCENT] rest (token ++ [PERCENT])); try done.
    intros w t Hw. by constructor. }
  destruct (Z.eqb_spec c BACKSLASH) as [->|Hn3]; [done|].
  apply (Hstep [c] [c] rest (token ++ [c])); try done.
  intros w t Hw. constructor; [|done]. unfold plain.
  by rewrite Hctl, !(proj2 (Z.eqb_neq _ _)).
Qed.

(** The arguments a loop state stands for at the end of the line. *)
Definition ex_args (st : ExecState) : list (list Z) :=
  ex_argv st ++ (if ex_started st then [ex_token st] else []).

Definition arg_fits (arg : list Z) : Prop := text_len arg ≤ MAX_ARG_BYTES.

Lemma push_token_Ok argv token argv' :
  push_token argv token = Ok argv' ↔
  argv' = argv ++ [token] ∧ arg_fits token ∧ Z.of_nat (length argv) < MAX_ARGC.
Proof.
  unfold push_token, arg_fits. split.
  - intros H. case_match; simplify_eq. bool_facts. auto.
  - intros (-> & H1 & H2). by rewrite (proj2 (Z.ltb_ge _ _)), (proj2 (Z.leb_gt _ _)).
Qed.

Lemma loop_line_sound chars argv st' :
  exec_loop chars (mkExec argv [] false false) = Ok st' →
  ex_quoted st' = false →
  ∃ args, exec_line chars args ∧ ex_args st' = argv ++ args ∧
    (Forall arg_fits argv → Forall arg_fits (ex_argv st')) ∧
    (Z.of_nat (length argv) ≤ MAX_ARGC → Z.of_nat (length (ex_argv st')) ≤ MAX_ARGC).
Proof.
  remember (length chars) as n eqn:Hn. revert chars argv Hn.
  induction (lt_wf n) as [n _ IH]; intros chars argv -> H Hq.
  apply loop_word_sound in H as (w & t & s & -> & Hw & [->|[s0 ->]] & H); [| |done].
  - cbn in H. simplify_eq. unfold ex_args. cbn [ex_argv ex_started ex_token].
    rewrite app_nil_r. case_bool_decide as Hne.
    + exists [t]. auto using el_last.
    + subst w. exists []. auto using el_nil.
  - cbn [exec_loop] in H. cbn [orb app] in H.
    change (is_control SPACE) with false in H. cbn in H.
    case_bool_decide as Hne.
    + destruct (push_token argv t) as [argv1|] eqn:Hp; [|done].
      apply push_token_Ok in Hp as (-> & Hfit & Hlen).
      destruct (IH (length s0) ltac:(rewrite length_app; cbn; lia) s0 _ eq_refl H Hq)
        as (args & Hl & Hargs & Hf & Hc).
      exists (t :: args). rewrite <- (assoc_L app) in Hargs.
      split_and!; [by constructor|done| |].
      * intros Ha. apply Hf, Forall_app_2; auto.
      * intros Ha. apply Hc. rewrite length_app. cbn. lia.
    + subst w. inversion Hw; subst t.
      destruct (IH (length s0) ltac:(cbn; lia) s0 _ eq_refl H Hq)
        as (args & Hl & Hargs & Hf & Hc).
      exists args. split; [by constructor|auto].
Qed.

Lemma loop_line_complete chars args argv :
  exec_line chars args →
  Forall arg_fits args → Z.of_nat (length argv + length args) ≤ MAX_ARGC →
  ∃ st', exec_loop chars (mkExec argv [] false false) = Ok st' ∧
    ex_quoted st' = false ∧ ex_args st' = argv ++ args ∧
    (ex_started st' = true →
     arg_fits (ex_token st') ∧ Z.of_nat (length (ex_argv st')) < MAX_ARGC).
Proof.
  intros H. revert argv.
  induction H as [|s args _ IH|w a Hne Hw|w a s args Hne Hw _ IH];
    intros argv Hfit Hlen.
  - exists (mkExec argv [] false false). unfold ex_args. by cbn.
  - cbn [exec_loop]. change (is_control SPACE) with false. cbn. auto.
  - rewrite <- (app_nil_r w), (loop_word_complete w a) by done.
    rewrite bool_decide_true by done. cbn.
    exists (mkExec argv a false true). unfold ex_args. cbn.
    apply Forall_cons_1 in Hfit as [Hfit _]. cbn in Hlen. split_and!; [done..|].
    intros _. split; [exact Hfit|unfold MAX_ARGC in *; lia].
  - apply Forall_cons_1 in Hfit as [Ha Hfit]. cbn in Hlen.
    rewrite (loop_word_complete w a) by done. rewrite bool_decide_true by done.
    cbn [exec_loop orb app]. change (is_control SPACE) with false. cbn.
    rewrite (proj2 (push_token_Ok argv a (argv ++ [a]))) by (split_and!; [done..|lia]).
    destruct (IH (argv ++ [a])) as (st' & Hrun & Hq & Hargs & Hst);
      [done|rewrite length_app; cbn; lia|].
    exists st'. rewrite <- (assoc_L app) in Hargs. auto.
Qed.

(** *** Every line denotes at most as many bytes as it has *)

Lemma len_utf8_pos c : 1 ≤ len_utf8 c.
Proof. unfold len_utf8. repeat case_match; lia. Qed.

Lemma quoted_body_len q r : quoted_body q r → text_len r ≤ text_len q.
Proof.
  induction 1 as [|c q r _ _ IH|c q r _ _ IH|q r _ IH]; [done|..];
    rewrite !text_len_cons; [lia|..].
  - change (len_utf8 BACKSLASH) with 1. lia.
  - change (len_utf8 PERCENT) with 1. lia.
Qed.

Lemma word_len w t : word w t → text_len t ≤ text_len w.
Proof.
  induction 1 as [|c w t _ _ IH|w t _ IH|q r w t Hq _ IH]; [done| | |].
  - rewrite !text_len_cons. lia.
  - rewrite !text_len_cons. change (len_utf8 PERCENT) with 1. lia.
  - apply quoted_body_len in Hq. change (QUOTE :: q ++ QUOTE :: w)
      with ([QUOTE] ++ q ++ [QUOTE] ++ w). rewrite !text_len_app.
    change (text_len [QUOTE]) with 1. lia.
Qed.

Definition argv_size (argv : list (list Z)) : Z :=
  foldr (λ arg n, text_len arg + 1 + n) 0 argv.

Lemma exec_line_len s args : exec_line s args → argv_size args ≤ text_len s + 1.
Proof.
  induction 1 as [|s args _ IH|w a Hne Hw|w a s args Hne Hw _ IH].
  - done.
  - rewrite text_len_cons. change (len_utf8 SPACE) with 1. lia.
  - apply word_len in Hw. cbn. lia.
  - apply word_len in Hw. change (w ++ SPACE :: s) with (w ++ [SPACE] ++ s).
    rewrite !text_len_app. change (text_len [SPACE]) with 1. cbn.
    unfold argv_size in IH. lia.
Qed.

Lemma argv_bytes_size argv sum :
  0 ≤ sum → sum + argv_size argv ≤ u64_max →
  argv_bytes argv sum = Some (sum + argv_size argv).
Proof.
  revert sum. induction argv as [|arg argv IH]; intros sum Hs H; cbn in *.
  - by rewrite Z.add_0_r.
  - pose proof (text_len_nonneg arg).
    assert (0 ≤ argv_size argv) by
      (clear; induction argv as [|a argv IH]; cbn; [done|];
       pose proof (text_len_nonneg a); unfold argv_size in IH; lia).
    unfold argv_size in *.
    rewrite (proj2 (u64_checked_add_Some sum (text_len arg + 1) (sum + (text_len arg + 1))))
      by (split; lia).
    rewrite IH by lia. f_equal. lia.
Qed.

(** ** The splitter is exactly the grammar *)

Lemma control_in_bytes s : 0 ∈ utf8_bytes s → ∃ c, c ∈ s ∧ is_control c = true.
Proof.
  unfold utf8_bytes. rewrite list_elem_of_bind. intros (c & H & Hc).
  exists c. split; [done|]. unfold encode_char in H.
  assert (∀ n, 0 ≤ n → n = 0 → is_control n = true) as H0 by (by intros n _ ->).
  repeat case_match; bool_facts;
    repeat match goal with
    | H : 0 ∈ _ :: _ |- _ => apply elem_of_cons in H as [H|H]
    | H : 0 ∈ [] |- _ => by apply not_elem_of_nil in H
    end; try by subst.
  all: lia_div.
Qed.

Lemma quoted_body_controls q r :
  quoted_body q r → Forall (λ c, is_control c = false) q.
Proof.
  induction 1 as [|c q r Hc _ IH|c q r Hc _ IH|q r _ IH];
    repeat (constructor; [|try done]); try done; char_cases; try done.
Qed.

Lemma word_controls w t : word w t → Forall (λ c, is_control c = false) w.
Proof.
  induction 1 as [|c w t Hc _ IH|w t _ IH|q r w t Hq _ IH]; [constructor|..].
  - constructor; [|done]. by char_cases.
  - by repeat constructor.
  - constructor; [done|]. apply Forall_app_2; [by eapply quoted_body_controls|].
    by constructor.
Qed.

Lemma exec_line_controls s args :
  exec_line s args → Forall (λ c, is_control c = false) s.
Proof.
  induction 1 as [|s args _ IH|w a Hne Hw|w a s args Hne Hw _ IH];
    [constructor|by constructor|by eapply word_controls|].
  apply Forall_app_2; [by eapply word_controls|]. by constructor.
Qed.

Lemma parse_exec_iff value argv :
  parse_exec value = Ok argv ↔
  exec_line value argv ∧ argv ≠ [] ∧ text_len value ≤ MAX_EXEC_BYTES ∧
  Z.of_nat (length argv) ≤ MAX_ARGC ∧ Forall arg_fits argv.
Proof.
  unfold parse_exec. split.
  - intros H. destruct (_ || _ || _) eqn:Hg in H; [done|]. bool_facts.
    destruct (exec_loop _ _) as [[argv1 token quoted started]|] eqn:Hrun; [|done].
    destruct (quoted || _) eqn:Hq in H; [done|].
    apply orb_false_iff in Hq as [-> Hq].
    apply loop_line_sound in Hrun as (args & Hl & Hargs & Hf & Hc); [|done].
    unfold ex_args in Hargs. cbn in Hargs, Hf, Hc.
    destruct started.
    + destruct (push_token argv1 token) as [argv2|] eqn:Hp; [|done].
      apply push_token_Ok in Hp as (-> & Hfit & Hlen). subst args.
      assert (argv = argv1 ++ [token]) as -> by (by repeat case_match; simplify_eq).
      rewrite length_app. split_and!; [done|by destruct argv1|lia|cbn; lia|].
      apply Forall_app_2; auto.
    + rewrite app_nil_r in Hargs. subst args.
      assert (argv = argv1) as -> by (by repeat case_match; simplify_eq).
      cbn in Hq. bool_facts. split_and!; auto; try lia. apply Hc. cbn. done.
  - intros (Hl & Hne & Hlen & Hcnt & Hfit).
    rewrite (bool_decide_false (value = [])) by
      (intros ->; inversion Hl as [| |? ? ? |w]; subst; try done; by destruct w).
    rewrite (proj2 (Z.ltb_ge _ _)) by done.
    rewrite (bool_decide_false (0 ∈ _)).
    2: { intros (c & Hc & Hctl)%control_in_bytes.
         apply exec_line_controls in Hl. rewrite Forall_forall in Hl.
         rewrite (Hl c) in Hctl; done. }
    cbn [orb].
    destruct (loop_line_complete value argv [] Hl Hfit) as
      ([argv1 token quoted started] & Hrun & Hq & Hargs & Hst); [cbn; lia|].
    cbn in Hq. subst quoted. rewrite Hrun. cbn [orb].
    unfold ex_args in Hargs. cbn in Hargs, Hst.
    pose proof (exec_line_len _ _ Hl) as Hsize.
    assert (argv_bytes argv 0 = Some (0 + argv_size argv)) as Hbytes.
    { apply argv_bytes_size; [done|]. unfold MAX_EXEC_BYTES, u64_max in *. lia. }
    assert ((MAX_ARGV_BYTES <? 0 + argv_size argv) = false) as Hmax.
    { apply Z.ltb_ge. unfold MAX_EXEC_BYTES, MAX_ARGV_BYTES in *. lia. }
    destruct started; cbn [negb andb].
    + destruct (Hst eq_refl) as [Ha Hb].
      rewrite (proj2 (push_token_Ok argv1 token argv)) by (by rewrite Hargs).
      by rewrite bool_decide_false, Hbytes, Hmax.
    + rewrite app_nil_r in Hargs. subst argv1.
      by rewrite !(bool_decide_false (argv = [])), Hbytes, Hmax by done.
Qed.

Lemma push_token_error argv token e :
  push_token argv token = Err e → e = InvalidLaunchSpec.
Proof. unfold push_token. intros. by case_match; simplify_eq. Qed.
Lemma expand_percent_error token next e :
  expand_percent token next = Err e → e = InvalidLaunchSpec.
Proof. unfold expand_percent. intros. by repeat case_match; simplify_eq. Qed.

Lemma exec_loop_error chars st e :
  exec_loop chars st = Err e → e = InvalidLaunchSpec.
Proof.
  remember (length chars) as n eqn:Hn. revert chars st Hn.
  induction (lt_wf n) as [n _ IH]; intros chars [argv token quoted started] ->.
  destruct chars as [|c rest]; [done|].
  assert (∀ st, exec_loop rest st = Err e → e = InvalidLaunchSpec) as H1.
  { intros st. apply (IH (length rest)); [cbn; lia|done]. }
  assert (∀ st, exec_loop (advance rest) st = Err e → e = InvalidLaunchSpec) as H2.
  { intros st. apply (IH (length (advance rest))); [|done].
    destruct rest; cbn; lia. }
  cbn [exec_loop]. intros H.
  repeat case_match; simplify_eq; eauto using push_token_error, expand_percent_error.
Qed.

Lemma parse_exec_error value e : parse_exec value = Err e → e = InvalidLaunchSpec.
Proof.
  unfold parse_exec. intros H.
  repeat case_match; simplify_eq; eauto using push_token_error, exec_loop_error.
Qed.

(** C34. [parse_exec] accepts exactly the lines of the quoting grammar that
    are within the limits, with exactly the arguments the grammar gives
    them: at least one argument, at most [MAX_ARGC] of them, each at most
    [MAX_ARG_BYTES] long, on a line of at most [MAX_EXEC_BYTES].  Every other
    line is refused with [InvalidLaunchSpec]; an accepted line never denotes
    more bytes than it has, so the limit on the whole vector is never the one
    that refuses. *)
Theorem parse_exec_exact value :
  (∀ argv, parse_exec value = Ok argv ↔
     exec_line value argv ∧ argv ≠ [] ∧ text_len value ≤ MAX_EXEC_BYTES ∧
     Z.of_nat (length argv) ≤ MAX_ARGC ∧ Forall arg_fits argv) ∧
  (∀ e, parse_exec value = Err e → e = InvalidLaunchSpec) ∧
  (∀ argv, parse_exec value = Ok argv →
     argv_size argv ≤ text_len value + 1 < MAX_ARGV_BYTES).
Proof.
  split; [intros argv; apply parse_exec_iff|]. split; [apply parse_exec_error|].
  intros argv (Hl & _ & Hlen & _)%parse_exec_iff.
  pose proof (exec_line_len _ _ Hl). unfold MAX_EXEC_BYTES, MAX_ARGV_BYTES in *. lia.
Qed.

(** ** Printing and splitting *)

Lemma quoted_body_escape arg :
  Forall (λ c, is_control c = false) arg → quoted_body (arg ≫= escape_char) arg.
Proof.
  induction 1 as [|c arg Hc _ IH]; [constructor|]. rewrite bind_cons.
  unfold escape_char. destruct (escapable c) eqn:He; [by constructor|].
  destruct (Z.eqb_spec c PERCENT) as [->|Hp]; [by constructor|].
  constructor; [|done]. unfold escapable in He. unfold quotable. bool_facts.
  by rewrite Hc, !(proj2 (Z.eqb_neq _ _)).
Qed.

Lemma word_quote_arg arg :
  Forall (λ c, is_control c = false) arg → word (quote_arg arg) arg.
Proof.
  intros H. rewrite <- (app_nil_r arg) at 2. unfold quote_arg.
  apply w_quoted; [by apply quoted_body_escape|constructor].
Qed.

Lemma exec_line_quote argv :
  Forall (Forall (λ c, is_control c = false)) argv →
  exec_line (quote_exec argv) argv.
Proof.
  induction 1 as [|arg argv Ha _ IH]; [constructor|].
  destruct argv as [|arg' argv].
  - apply el_last; [done|by apply word_quote_arg].
  - change (quote_exec (arg :: arg' :: argv))
      with (quote_arg arg ++ SPACE :: quote_exec (arg' :: argv)).
    apply el_word; [done|by apply word_quote_arg|done].
Qed.

(** Every argument vector without control characters survives printing
    and splitting: [parse_exec] gives back the arguments of [quote_exec],
    whatever spaces, quotes, backslashes, dollar or percent signs they hold,
    as long as the count, the arguments and the printed line are within the
    limits. *)
Theorem parse_exec_roundtrip argv :
  argv ≠ [] → Forall (Forall (λ c, is_control c = false)) argv →
  Z.of_nat (length argv) ≤ MAX_ARGC → Forall arg_fits argv →
  text_len (quote_exec argv) ≤ MAX_EXEC_BYTES →
  parse_exec (quote_exec argv) = Ok argv.
Proof.
  intros. apply parse_exec_iff. auto using exec_line_quote.
Qed.
