(* ===== verification/SessionDiscovery.v ===== *)
(** * Discovering the installed sessions

    [niralis-discovery/src/sessions]: which desktop entries may be trusted
    ([trust.rs]), reading one ([desktop_entry.rs]), collecting, listing and
    finding them ([discovery.rs]) and the directory the daemon asks
    ([mod.rs]).  The file system is the parameter [fs] of [Paths]. *)

From stdpp Require Import base gmap sets list strings sorting.
From Stdlib Require Import ZArith Lia.
From S2P Require Import Prelude Text Paths DirFs RecoveryTypes LedgerTaxonomy.
From S2P Require Import Ledger Protocol PreCommit Admission Conversation Login.
From S2P Require Import Daemon LaunchSpec.
#[local] Open Scope niralis_scope.

Inductive SessionSourceTrustPolicy := Permissive | RootOwned.
#[export] Instance SessionSourceTrustPolicy_eq_dec : EqDecision SessionSourceTrustPolicy.
Proof. solve_decision. Defined.

Record SessionDiscoveryConfig := mkDiscoveryConfig {
  dc_wayland_dirs : list string;
  dc_include_x11 : bool;
  dc_x11_dirs : list string;
  dc_exec_search_path : list string;
  dc_source_trust : SessionSourceTrustPolicy;
}.
Definition default_discovery_config : SessionDiscoveryConfig :=
  mkDiscoveryConfig ["/usr/share/wayland-sessions"] false ["/usr/share/xsessions"]
    ["/usr/local/bin"; "/usr/local/sbin"; "/usr/bin"; "/usr/sbin"] RootOwned.

(** ** Trust *)

(** [0o022]: writable by the group or by others. *)
Definition WRITE_BITS : Z := 0x12.

(** The check of one node of the walk to the root. *)
Definition node_trusted (fs : SessionFs) (node : string) : bool :=
  match sf_symlink_metadata fs node with
  | None => false
  | Some metadata =>
      negb (fm_is_symlink metadata || negb (fm_uid metadata =? 0)
            || negb (Z.land (fm_mode metadata) WRITE_BITS =? 0))
  end.

(** The [while let Some(node) = current] loop.  Every round goes to the
    parent, which is shorter, so the length of the path bounds the rounds. *)
Fixpoint walk_to_root (fs : SessionFs) (rounds : nat) (current : option string)
    : result () DiscoveryError :=
  match current, rounds with
  | None, _ => Ok ()
  | Some node, O => Err (UntrustedSessionSource node)
  | Some node, S rounds =>
      if node_trusted fs node then walk_to_root fs rounds (parent node)
      else Err (UntrustedSessionSource node)
  end.

Definition validate_source (fs : SessionFs) (path : string)
    (policy : SessionSourceTrustPolicy) (root : string) : result () DiscoveryError :=
  if negb (is_absolute path) then Err (UntrustedSessionSource path)
  else match sf_canonicalize fs root with
  | None => Err (UntrustedSessionSource root)
  | Some root =>
      match sf_canonicalize fs path with
      | None => Err (UntrustedSessionSource path)
      | Some canonical =>
          if negb (path_starts_with canonical root)
          then Err (UntrustedSessionSource path)
          else match sf_symlink_metadata fs path with
          | None => Err (UntrustedSessionSource path)
          | Some metadata =>
              if fm_is_symlink metadata || negb (fm_is_file metadata)
              then Err (UntrustedSessionSource path)
              else match policy with
              | Permissive => Ok ()
              | RootOwned => walk_to_root fs (S (String.length path)) (Some path)
              end
          end
      end
  end.

(** ** Reading a desktop entry *)

Fixpoint decode_value (value : list Z) : option (list Z) :=
  match value with
  | [] => Some []
  | c :: rest =>
      if negb (c =? BACKSLASH) then cons c <$> decode_value rest
      else match rest with
      | [] => None
      | e :: rest' =>
          if e =? 115 then cons SPACE <$> decode_value rest'
          else if e =? 110 then cons NEWLINE <$> decode_value rest'
          else if e =? 116 then cons TAB <$> decode_value rest'
          else if e =? 114 then cons 13 <$> decode_value rest'
          else if e =? BACKSLASH then cons BACKSLASH <$> decode_value rest'
          else if (e =? QUOTE) || (e =? DOLLAR) || (e =? BACKTICK)
          then (λ rest, BACKSLASH :: e :: rest) <$> decode_value rest'
          else None
      end
  end.

Definition Fields : Type := gmap (list Z) (list Z).

Definition starts_with_char (c : Z) (s : list Z) : bool :=
  match s with d :: _ => d =? c | [] => false end.
Definition ends_with_char (c : Z) (s : list Z) : bool :=
  match last s with Some d => d =? c | None => false end.

(** One round of the loop over the lines; [None] is the early return. *)
Definition entry_line (st : Fields * bool) (raw : list Z) : option (Fields * bool) :=
  let '(fields, in_desktop_entry) := st in
  let line := trim raw in
  if bool_decide (line = []) || starts_with_char 35 line || starts_with_char 59 line
  then Some st
  else if starts_with_char 91 line && ends_with_char 93 line
  then Some (fields, bool_decide (line = lit "[Desktop Entry]"))
  else if negb in_desktop_entry then Some st
  else match split_once 61 line with
  | None => None
  | Some (key, value) =>
      let key := trim key in
      if bool_decide (key = []) then None
      else match decode_value (trim value) with
      | None => None
      | Some decoded => Some (<[key := decoded]> fields, in_desktop_entry)
      end
  end.

Fixpoint entry_lines (st : Fields * bool) (ls : list (list Z)) : option (Fields * bool) :=
  match ls with
  | [] => Some st
  | line :: rest =>
      match entry_line st line with
      | Some st' => entry_lines st' rest
      | None => None
      end
  end.

Definition desktop_entry_fields (raw : list Z) : option Fields :=
  fst <$> entry_lines (∅, false) (lines raw).

Definition required_field (fields : Fields) (key : list Z) : option (list Z) :=
  match fields !! key with
  | None => None
  | Some value => let value := trim value in
                  if bool_decide (value = []) then None else Some value
  end.

Definition bool_field (fields : Fields) (key : list Z) : bool :=
  match fields !! key with
  | Some value => eq_ignore_ascii_case (trim value) (lit "true")
  | None => false
  end.

Definition session_root (config : SessionDiscoveryConfig) (kind : SessionKind)
    (path : string) : string :=
  let roots := match kind with
               | Wayland => dc_wayland_dirs config
               | X11 => dc_x11_dirs config
               end in
  match list_find (λ root, path_starts_with path root = true) roots with
  | Some (_, root) => root
  | None => path
  end.

(** What the parsed fields make of the entry: [None] when it is ignored. *)
Definition parse_desktop_session (fs : SessionFs) (path : string)
    (kind : SessionKind) (config : SessionDiscoveryConfig)
    : result (option CanonicalSessionEntry) DiscoveryError :=
  match validate_source fs path (dc_source_trust config)
          (session_root config kind path) with
  | Err e => Err e
  | Ok _ =>
      match sf_metadata fs path with
      | None => Err (ReadDesktopEntry path)
      | Some metadata =>
          if MAX_DESKTOP_ENTRY_BYTES <? fm_len metadata then Err InvalidLaunchSpec
          else match sf_read fs path with
          | None => Err (ReadDesktopEntry path)
          | Some bytes =>
              match str_from_utf8 bytes with
              | None => Err (MalformedDesktopEntry path)
              | Some raw =>
                  match desktop_entry_fields raw with
                  | None => Err (MalformedDesktopEntry path)
                  | Some fields =>
                      if negb (bool_decide
                           (fields !! lit "Type" = Some (lit "Application")))
                      then Ok None
                      else if bool_field fields (lit "Hidden")
                              || bool_field fields (lit "NoDisplay") then Ok None
                      else match required_field fields (lit "Name") with
                      | None => Ok None
                      | Some name =>
                          match required_field fields (lit "Exec") with
                          | None => Ok None
                          | Some exec =>
                              match (stem ← file_stem path;
                                     _ ← str_from_utf8 stem; Some stem) with
                              | None => Ok None
                              | Some id =>
                                  if str_is_empty id then Ok None
                                  else match sf_canonicalize fs path with
                                  | None => Err (ReadDesktopEntry path)
                                  | Some source_path =>
                                      Ok (Some (mkEntry
                                        (mkSessionInfo id (str_of_text name) kind)
                                        source_path exec
                                        (value ← fields !! lit "TryExec";
                                         let value := trim value in
                                         if bool_decide (value = []) then None
                                         else Some value)))
                                  end
                              end
                          end
                      end
                  end
              end
          end
      end
  end.

(** ** Collecting, listing and finding *)

(** The names [read_dir] gave, in the order of [sort_by_key(file_name)]. *)
Definition sorted_names (names : list (option string)) : list string :=
  merge_sort str_le (omap id names).

Definition entry_of (fs : SessionFs) (kind : SessionKind)
    (config : SessionDiscoveryConfig) (path : string) : option CanonicalSessionEntry :=
  if negb (bool_decide (extension path = Some "desktop")) then None
  else match parse_desktop_session fs path kind config with
  | Ok (Some session) =>
      if try_exec_is_eligible fs session (dc_exec_search_path config)
      then Some session else None
  | Ok None => None
  | Err _ => None
  end.

Definition collect_from_dir (fs : SessionFs) (dir : string) (kind : SessionKind)
    (config : SessionDiscoveryConfig) (sessions : list CanonicalSessionEntry)
    : result (list CanonicalSessionEntry) DiscoveryError :=
  match sf_read_dir fs dir with
  | DirNotFound => Ok sessions
  | DirError => Err (ReadDir dir)
  | DirEntries names =>
      Ok (sessions ++ omap (λ name, entry_of fs kind config (path_join dir name))
                        (sorted_names names))
  end.

Fixpoint collect_from_dirs (fs : SessionFs) (dirs : list string) (kind : SessionKind)
    (config : SessionDiscoveryConfig) (sessions : list CanonicalSessionEntry)
    : result (list CanonicalSessionEntry) DiscoveryError :=
  match dirs with
  | [] => Ok sessions
  | dir :: rest =>
      match collect_from_dir fs dir kind config sessions with
      | Ok sessions' => collect_from_dirs fs rest kind config sessions'
      | Err e => Err e
      end
  end.

(** [retain(|entry| seen.insert(..))]. *)
Fixpoint retain_first (seen : gset string) (entries : list CanonicalSessionEntry)
    : list CanonicalSessionEntry :=
  match entries with
  | [] => []
  | entry :: rest =>
      let id := si_id (ce_session entry) in
      if bool_decide (id ∈ seen) then retain_first seen rest
      else entry :: retain_first ({[id]} ∪ seen) rest
  end.

Definition collect_entries (fs : SessionFs) (config : SessionDiscoveryConfig)
    : result (list CanonicalSessionEntry) DiscoveryError :=
  match collect_from_dirs fs (dc_wayland_dirs config) Wayland config [] with
  | Err e => Err e
  | Ok entries =>
      match (if dc_include_x11 config
             then collect_from_dirs fs (dc_x11_dirs config) X11 config entries
             else Ok entries) with
      | Err e => Err e
      | Ok entries => Ok (retain_first ∅ entries)
      end
  end.

(** By name, then by id. *)
Definition session_le (left right : SessionInfo) : Prop :=
  match String.compare (si_name left) (si_name right) with
  | Lt => True
  | Eq => str_le (si_id left) (si_id right)
  | Gt => False
  end.
#[export] Instance session_le_dec left right : Decision (session_le left right).
Proof. unfold session_le. destruct (String.compare _ _); apply _. Defined.

Definition list_sessions (fs : SessionFs) (config : SessionDiscoveryConfig)
    : result (list SessionInfo) DiscoveryError :=
  match collect_entries fs config with
  | Err e => Err e
  | Ok entries => Ok (merge_sort session_le (ce_session <$> entries))
  end.

Definition find_entry (fs : SessionFs) (config : SessionDiscoveryConfig) (id : string)
    : result (option CanonicalSessionEntry) DiscoveryError :=
  match collect_entries fs config with
  | Err e => Err e
  | Ok entries =>
      Ok (snd <$> list_find (λ entry, si_id (ce_session entry) = id) entries)
  end.

Definition find_session (fs : SessionFs) (config : SessionDiscoveryConfig) (id : string)
    : result (option SessionInfo) DiscoveryError :=
  match find_entry fs config id with
  | Err e => Err e
  | Ok entry => Ok (ce_session <$> entry)
  end.

(** [None] would be the panic of [resolve]. *)
Definition resolve_launch_spec (fs : SessionFs) (config : SessionDiscoveryConfig)
    (id : string) : option (result (option ResolvedSessionLaunchSpec) DiscoveryError) :=
  match find_entry fs config id with
  | Err e => Some (Err e)
  | Ok None => Some (Ok None)
  | Ok (Some entry) =>
      match resolve fs entry (dc_exec_search_path config) with
      | None => None
      | Some (Ok spec) => Some (Ok (Some spec))
      | Some (Err e) => Some (Err e)
      end
  end.

(** ** The walk to the root *)

Lemma length_of_bytes bytes : String.length (of_bytes bytes) = length bytes.
Proof.
  unfold of_bytes. induction bytes as [|b bytes IH]; [done|]. cbn in *. by rewrite IH.
Qed.
Lemma length_as_bytes s : length (as_bytes s) = String.length s.
Proof. rewrite <- (of_bytes_as_bytes s) at 2. by rewrite length_of_bytes. Qed.

Definition pieces_len (pieces : list (list Z)) : nat :=
  foldr (λ (piece : list Z) n, S (length piece) + n)%nat O pieces.

Lemma join_pieces_len pieces :
  (length (join_pieces pieces) <= pieces_len pieces)%nat ∧
  (pieces ≠ [] → S (length (join_pieces pieces)) = pieces_len pieces).
Proof.
  induction pieces as [|p [|q pieces] [IH1 IH2]]; cbn in *; [done|split; [lia|intros _; lia]|].
  rewrite length_app. cbn. specialize (IH2 ltac:(done)). split; [lia|]. intros _. lia.
Qed.

Lemma pieces_len_cons piece pieces :
  pieces_len (piece :: pieces) = (S (length piece) + pieces_len pieces)%nat.
Proof. done. Qed.
Lemma pieces_len_app l m : pieces_len (l ++ m) = (pieces_len l + pieces_len m)%nat.
Proof.
  induction l as [|x l IH]; [done|]. rewrite <- app_comm_cons, !pieces_len_cons. lia.
Qed.
Lemma pieces_len_reverse pieces : pieces_len (reverse pieces) = pieces_len pieces.
Proof.
  induction pieces as [|p pieces IH]; [done|].
  rewrite reverse_cons, pieces_len_app, !pieces_len_cons, IH. cbn. lia.
Qed.

Lemma trim_pieces_len pieces : (pieces_len (trim_pieces pieces) <= pieces_len pieces)%nat.
Proof.
  induction pieces as [|p pieces IH]; [done|]. cbn [trim_pieces].
  destruct (parse_single_component p); rewrite !pieces_len_cons; lia.
Qed.
Lemma trim_pieces_head piece rest pieces :
  trim_pieces pieces = piece :: rest → piece ≠ [].
Proof.
  induction pieces as [|p pieces IH]; [done|]. cbn.
  destruct (parse_single_component p) eqn:Hp; [|done]. intros H. by simplify_eq; intros ->.
Qed.

Lemma join_split_on s : join_pieces (split_on SEP s) = s.
Proof.
  induction s as [|c s IH]; [done|]. cbn.
  destruct (split_on SEP s) as [|p ps] eqn:Hs.
  { by destruct s; cbn in Hs; repeat case_match. }
  destruct (Z.eqb_spec c SEP) as [->|].
  - cbn in *. by rewrite IH.
  - rewrite <- IH. by destruct ps.
Qed.

Lemma path_bytes path :
  as_bytes path = path_prefix path ++ join_pieces (path_pieces path).
Proof.
  unfold path_pieces. rewrite join_split_on. unfold path_prefix, is_absolute, include_cur_dir.
  destruct (as_bytes path) as [|b [|c bytes]]; cbn; [done|..];
    repeat case_match; bool_facts; subst; done.
Qed.

Lemma path_pieces_nonempty path : path_pieces path ≠ [].
Proof.
  unfold path_pieces. set (l := drop _ _). clearbody l.
  destruct l as [|c l]; [done|]. cbn. by repeat case_match.
Qed.

(** The parent of a path is shorter. *)
Lemma parent_shorter path up :
  parent path = Some up → (String.length up < String.length path)%nat.
Proof.
  unfold parent. rewrite <- (length_as_bytes path), path_bytes, length_app.
  destruct (join_pieces_len (path_pieces path)) as [_ Hj].
  specialize (Hj (path_pieces_nonempty path)).
  pose proof (trim_pieces_len (reverse (path_pieces path))) as Ht.
  rewrite pieces_len_reverse in Ht.
  destruct (trim_pieces (reverse (path_pieces path))) as [|piece rest] eqn:Hp.
  - destruct (path_prefix path) as [|b prefix]; [done|].
    destruct (b =? SEP); intros; simplify_eq/=; lia.
  - intros H. simplify_eq. apply trim_pieces_head in Hp.
    rewrite length_of_bytes, length_app. rewrite pieces_len_cons in Ht.
    pose proof (trim_pieces_len rest).
    destruct (join_pieces_len (reverse (trim_pieces rest))) as [Hj' _].
    rewrite pieces_len_reverse in Hj'. destruct piece; [done|].
    rewrite length_cons in Ht. lia.
Qed.

(** The nodes of the walk: the path and its ancestors. *)
Inductive ancestor (path : string) : string → Prop :=
| anc_self : ancestor path path
| anc_parent node up : ancestor path node → parent node = Some up → ancestor path up.

Lemma ancestor_first path up :
  ancestor path up → up = path ∨ ∃ next, parent path = Some next ∧ ancestor next up.
Proof.
  induction 1 as [|node up H IH Hup]; [by left|]. right.
  destruct IH as [->|(next & Hn & Ha)].
  - exists up. split; [done|constructor].
  - exists next. split; [done|]. by econstructor.
Qed.

Lemma ancestor_up path next up :
  parent path = Some next → ancestor next up → ancestor path up.
Proof.
  intros Hp. induction 1; [|by econstructor]. econstructor; [constructor|done].
Qed.

(** With as many rounds as the path has bytes the loop ends by itself. *)
Lemma walk_to_root_exact fs rounds path :
  (String.length path < rounds)%nat →
  walk_to_root fs rounds (Some path) = Ok () ↔
  ∀ node, ancestor path node → node_trusted fs node = true.
Proof.
  revert path. induction rounds as [|rounds IH]; intros path Hr; [lia|].
  cbn [walk_to_root]. destruct (node_trusted fs path) eqn:Hn.
  2: { split; [done|]. intros H. rewrite (H path) in Hn; [done|constructor]. }
  destruct (parent path) as [next|] eqn:Hp.
  - rewrite IH by (apply parent_shorter in Hp; lia). split.
    + intros H node [->|(next' & Hn' & Ha)]%ancestor_first; [done|].
      simplify_eq. auto.
    + intros H node Ha. apply H. by eapply ancestor_up.
  - destruct rounds; split; try done.
    all: intros _ node [->|(next' & Hn' & Ha)]%ancestor_first; [done|congruence].
Qed.

(** The path, its parent, and so on up to a path without a parent. *)
Inductive climbs : string → list string → Prop :=
| climbs_top path : parent path = None → climbs path [path]
| climbs_up path up chain :
    parent path = Some up → climbs up chain → climbs path (path :: chain).

Lemma climbs_total path :
  ∃ chain, climbs path chain ∧ (length chain <= S (String.length path))%nat.
Proof.
  remember (String.length path) as n eqn:Hn. revert path Hn.
  induction (lt_wf n) as [n _ IH]; intros path ->.
  destruct (parent path) as [up|] eqn:Hp.
  - pose proof (parent_shorter _ _ Hp) as Hlt.
    destruct (IH _ Hlt up eq_refl) as (chain & Hc & Hl).
    exists (path :: chain). split; [by econstructor|]. cbn. lia.
  - exists [path]. split; [by constructor|]. cbn. lia.
Qed.

Definition first_untrusted (fs : SessionFs) (chain : list string)
    : result () DiscoveryError :=
  match list_find (λ node, node_trusted fs node = false) chain with
  | Some (_, node) => Err (UntrustedSessionSource node)
  | None => Ok ()
  end.

Lemma walk_to_root_chain fs path chain rounds :
  climbs path chain → (String.length path < rounds)%nat →
  walk_to_root fs rounds (Some path) = first_untrusted fs chain.
Proof.
  intros H. revert rounds. induction H as [path Hp|path up chain Hp _ IH];
    intros [|rounds] Hr; try lia; cbn [walk_to_root]; unfold first_untrusted; cbn.
  - destruct (node_trusted fs path); [|done]. rewrite Hp. by destruct rounds.
  - destruct (node_trusted fs path); [|done]. cbn.
    rewrite Hp, IH by (apply parent_shorter in Hp; lia). unfold first_untrusted.
    by destruct (list_find _ chain) as [[]|].
Qed.

(** The walk to the root ends for every path: the chain of parents is
    finite, at most one node longer than the path has bytes, and with that
    many rounds the loop answers by itself, naming the first node of the
    chain that is a link, not owned by root, writable by others or
    unreadable. *)
Theorem source_walk_terminates fs path :
  ∃ chain, climbs path chain ∧ (length chain <= S (String.length path))%nat ∧
    ∀ rounds, (String.length path < rounds)%nat →
      walk_to_root fs rounds (Some path) = first_untrusted fs chain.
Proof.
  destruct (climbs_total path) as (chain & Hc & Hl).
  exists chain. eauto using walk_to_root_chain.
Qed.

(** A desktop entry is trusted exactly when its path is absolute, it lies
    inside its session directory once both are canonical, it is a regular
    file and no link, and, unless the policy is permissive, the entry and
    every directory above it up to the root are no links, belong to root and
    are writable by nobody else. *)
Theorem validate_source_exact fs path policy root :
  validate_source fs path policy root = Ok () ↔
  is_absolute path = true ∧
  (∃ canonical_root canonical metadata,
     sf_canonicalize fs root = Some canonical_root ∧
     sf_canonicalize fs path = Some canonical ∧
     path_starts_with canonical canonical_root = true ∧
     sf_symlink_metadata fs path = Some metadata ∧
     fm_is_symlink metadata = false ∧ fm_is_file metadata = true) ∧
  (policy = RootOwned →
   ∀ node, ancestor path node → node_trusted fs node = true).
Proof.
  assert (walk_to_root fs (S (String.length path)) (Some path) = Ok () ↔
    ∀ node, ancestor path node → node_trusted fs node = true) as Hwalk
    by (apply walk_to_root_exact; lia).
  unfold validate_source. split.
  - intros H. repeat case_match; simplify_eq; bool_facts.
    all: split; [done|]; split; [do 3 eexists; eauto 10|]; try done.
    intros _. by apply Hwalk.
  - intros (Ha & (croot & canonical & metadata & Hr & Hc & Hs & Hm & Hl & Hf) & Hp).
    rewrite Ha, Hr, Hc, Hs, Hm, Hl, Hf. cbn. destruct policy; [done|].
    apply Hwalk. auto.
Qed.

(** ** Printing a desktop entry *)

Definition encode_value_char (c : Z) : list Z :=
  if c =? SPACE then [BACKSLASH; 115]
  else if c =? NEWLINE then [BACKSLASH; 110]
  else if c =? TAB then [BACKSLASH; 116]
  else if c =? 13 then [BACKSLASH; 114]
  else if c =? BACKSLASH then [BACKSLASH; BACKSLASH]
  else [c].
Definition encode_value (value : list Z) : list Z := value ≫= encode_value_char.

Definition print_field (field : list Z * list Z) : list Z :=
  field.1 ++ 61 :: encode_value field.2.
Definition print_lines (ls : list (list Z)) : list Z :=
  ls ≫= (λ line, line ++ [NEWLINE]).
Definition print_entry (fields : list (list Z * list Z)) : list Z :=
  print_lines (lit "[Desktop Entry]" :: (print_field <$> fields)).

Lemma decode_encode_value value : decode_value (encode_value value) = Some value.
Proof.
  unfold encode_value. induction value as [|c value IH]; [done|].
  rewrite bind_cons. unfold encode_value_char at 1.
  destruct (Z.eqb_spec c SPACE) as [->|]; [cbn; by rewrite IH|].
  destruct (Z.eqb_spec c NEWLINE) as [->|]; [cbn; by rewrite IH|].
  destruct (Z.eqb_spec c TAB) as [->|]; [cbn; by rewrite IH|].
  destruct (Z.eqb_spec c 13) as [->|]; [cbn; by rewrite IH|].
  destruct (Z.eqb_spec c BACKSLASH) as [->|Hb]; [cbn; by rewrite IH|].
  cbn [app decode_value]. rewrite (proj2 (Z.eqb_neq c BACKSLASH)) by done.
  cbn. by rewrite IH.
Qed.

Definition option_list {A} (o : option A) : list A :=
  match o with Some a => [a] | None => [] end.

(** The characters a printed value can hold next to its ends. *)
Definition edge_ok (c : Z) : Prop :=
  is_whitespace c = false ∨ c = SPACE ∨ c = TAB ∨ c = NEWLINE ∨ c = 13.
Definition value_ok (value : list Z) : Prop :=
  Forall edge_ok (option_list (head value) ++ option_list (last value)).
Definition key_ok (key : list Z) : Prop :=
  key ≠ [] ∧ 61 ∉ key ∧ NEWLINE ∉ key ∧ trim key = key ∧
  starts_with_char 35 key = false ∧ starts_with_char 59 key = false ∧
  starts_with_char 91 key = false.
#[export] Instance value_ok_dec value : Decision (value_ok value).
Proof. unfold value_ok, edge_ok. apply _. Defined.
#[export] Instance key_ok_dec key : Decision (key_ok key).
Proof. unfold key_ok. apply _. Defined.

Lemma value_ok_ends value c :
  value_ok value → head value = Some c ∨ last value = Some c → edge_ok c.
Proof.
  unfold value_ok. rewrite Forall_app. intros [H1 H2] [H|H]; rewrite H in *; cbn in *.
  - by apply Forall_cons_1 in H1 as [].
  - by apply Forall_cons_1 in H2 as [].
Qed.

Lemma encode_value_no_newline value : NEWLINE ∉ encode_value value.
Proof.
  unfold encode_value. rewrite list_elem_of_bind. intros (c & H & _).
  unfold encode_value_char in H.
  repeat case_match; bool_facts;
    repeat match goal with
    | H : _ ∈ _ :: _ |- _ => apply elem_of_cons in H as [H|H]
    | H : _ ∈ [] |- _ => by apply not_elem_of_nil in H
    end; unfold NEWLINE, BACKSLASH in *; lia.
Qed.

Lemma encode_value_head value c :
  value_ok value → head (encode_value value) = Some c → is_whitespace c = false.
Proof.
  intros Hok. destruct value as [|d value]; [done|].
  assert (edge_ok d) as [Hd|Hd] by (apply (value_ok_ends _ _ Hok); auto).
  - unfold encode_value. rewrite bind_cons. unfold encode_value_char.
    repeat case_match; intros; by simplify_eq/=.
  - by destruct Hd as [->|[->|[->| ->]]]; cbn; intros; simplify_eq.
Qed.

Lemma encode_value_last value c :
  value_ok value → last (encode_value value) = Some c →
  is_whitespace c = false.
Proof.
  intros Hok. destruct value as [|d value] using rev_ind; [done|]. clear IHvalue.
  assert (edge_ok d) as Hd by (apply (value_ok_ends _ _ Hok); rewrite last_snoc; auto).
  unfold encode_value. rewrite bind_app, bind_cons. cbn [mbind list_bind]. rewrite app_nil_r.
  destruct Hd as [Hd|Hd].
  - unfold encode_value_char at 2.
    repeat case_match; rewrite last_app; intros; by simplify_eq/=.
  - by destruct Hd as [->|[->|[->| ->]]]; rewrite last_app; cbn; intros; simplify_eq.
Qed.

Lemma lines_print_lines ls :
  Forall (λ line, NEWLINE ∉ line ∧ last line ≠ Some 13) ls →
  lines (print_lines ls) = ls.
Proof.
  intros H. unfold lines.
  assert (split_on NEWLINE (print_lines ls) = ls ++ [[]]) as ->.
  { unfold print_lines. induction H as [|line ls [Hl _] _ IH]; [done|].
    rewrite bind_cons, <- (assoc_L app). cbn [app]. by rewrite split_on_app, IH. }
  rewrite removelast_last, last_snoc.
  induction H as [|line ls [_ Hcr] _ IH]; [done|]. cbn. rewrite IH. f_equal.
  unfold strip_cr. rewrite <- head_reverse in Hcr.
  destruct (reverse line) as [|c rest]; [done|]. cbn in Hcr.
  by repeat case_match.
Qed.

Lemma last_cons_default (x : Z) (l : list Z) c :
  last (x :: l) = Some c → (l = [] ∧ c = x) ∨ last l = Some c.
Proof.
  rewrite last_cons. destruct (last l) eqn:Hl; intros; simplify_eq; auto.
  left. apply last_None in Hl. auto.
Qed.

Lemma print_field_last key value c :
  value_ok value → last (print_field (key, value)) = Some c → is_whitespace c = false.
Proof.
  intros Hok. unfold print_field. rewrite last_app_cons. cbn [fst snd].
  intros [[_ ->]|H]%last_cons_default; [done|]. by eapply encode_value_last.
Qed.

Lemma print_field_trim key value :
  key_ok key → value_ok value →
  trim (print_field (key, value)) = print_field (key, value).
Proof.
  intros (Hne & _ & _ & Htrim & _) Hok. apply trim_id.
  - intros c Hc. destruct key as [|d key]; [done|]. cbn in Hc. simplify_eq.
    destruct (is_whitespace c) eqn:Hw; [|done]. exfalso.
    unfold trim in Htrim. cbn [trim_start] in Htrim. rewrite Hw in Htrim.
    apply (f_equal length) in Htrim. unfold trim_end in Htrim.
    rewrite length_reverse in Htrim.
    destruct (trim_start_spec key) as (b1 & H1 & _).
    destruct (trim_start_spec (reverse (trim_start key))) as (b2 & H2 & _).
    apply (f_equal length) in H1, H2. rewrite length_app in H1, H2.
    rewrite length_reverse in H2. cbn in Htrim. lia.
  - intros c. by apply print_field_last.
Qed.

Lemma starts_with_char_app c key rest :
  key ≠ [] → starts_with_char c (key ++ rest) = starts_with_char c key.
Proof. by destruct key. Qed.

Lemma entry_line_field fields key value :
  key_ok key → value_ok value →
  entry_line (fields, true) (print_field (key, value)) =
  Some (<[key := value]> fields, true).
Proof.
  intros Hk Hv. unfold entry_line. rewrite print_field_trim by done.
  destruct Hk as (Hne & Heq & Hnl & Htrim & H1 & H2 & H3).
  unfold print_field. cbn [fst snd].
  rewrite bool_decide_false by (by destruct key).
  rewrite !starts_with_char_app, H1, H2, H3 by done. cbn [orb andb negb].
  rewrite split_once_app by done. rewrite Htrim, bool_decide_false by done.
  rewrite trim_id, decode_encode_value by
    (intros; first [by eapply encode_value_head | by eapply encode_value_last]).
  done.
Qed.

Lemma entry_lines_fields fields acc :
  Forall (λ field, key_ok field.1 ∧ value_ok field.2) fields →
  entry_lines (acc, true) (print_field <$> fields) =
  Some (foldl (λ m field, <[field.1 := field.2]> m) acc fields, true).
Proof.
  intros H. revert acc. induction H as [|[key value] fields [Hk Hv] _ IH]; intros acc;
    [done|]. cbn [fmap list_fmap entry_lines foldl fst snd] in *.
  by rewrite entry_line_field, IH.
Qed.

Lemma foldl_insert_map (fields : list (list Z * list Z)) (acc : gmap (list Z) (list Z)) :
  NoDup fields.*1 →
  foldl (λ m field, <[field.1 := field.2]> m) acc fields = list_to_map fields ∪ acc.
Proof.
  revert acc. induction fields as [|[k v] fields IH]; intros acc Hnd; cbn.
  { by rewrite (left_id_L ∅ (∪)). }
  apply NoDup_cons in Hnd as [Hk Hnd]. rewrite IH by done.
  apply not_elem_of_list_to_map_1 in Hk.
  rewrite <- insert_union_r by done. apply insert_union_l.
Qed.

(** Reading back a printed desktop entry gives its fields: for keys that
    are legal in the format and values whose ends are not exotic white space,
    [desktop_entry_fields] of the printed entry is the map of the fields,
    spaces, tabs, newlines and backslashes of the values included. *)
Theorem desktop_entry_roundtrip fields :
  NoDup fields.*1 →
  Forall (λ field, key_ok field.1 ∧ value_ok field.2) fields →
  desktop_entry_fields (print_entry fields) = Some (list_to_map fields).
Proof.
  intros Hnd Hok. unfold desktop_entry_fields, print_entry.
  rewrite lines_print_lines.
  - change (entry_lines (∅, false) (lit "[Desktop Entry]" :: (print_field <$> fields)))
      with (entry_lines (∅, true) (print_field <$> fields)).
    rewrite entry_lines_fields by done. cbn.
    rewrite foldl_insert_map by done. f_equal. apply (right_id_L ∅ (∪)).
  - constructor.
    + split; [|done]. by apply (bool_decide_unpack _).
    + apply Forall_fmap. eapply Forall_impl; [done|].
      intros [key value] [(Hne & Heq & Hnl & _) Hv]. cbn in *. split.
      * unfold print_field. cbn. rewrite elem_of_app, elem_of_cons.
        intros [?|[?|?]]; [done|done|]. by eapply encode_value_no_newline.
      * intros Hc. by apply print_field_last in Hc.
Qed.

(** ** Listing and finding agree *)

#[export] Instance str_le_total : Total str_le.
Proof. intros a b. unfold str_le. apply String.leb_total. Qed.

#[export] Instance session_le_total : Total session_le.
Proof.
  intros a b. unfold session_le.
  rewrite (String.compare_antisym (si_name b)).
  destruct (String.compare (si_name a) (si_name b)); cbn; auto.
  apply str_le_total.
Qed.

(** Where an entry comes from: an eligible desktop file of a configured
    directory, read and trusted. *)
Definition entry_source (fs : SessionFs) (config : SessionDiscoveryConfig)
    (entry : CanonicalSessionEntry) : Prop :=
  ∃ kind dir name,
    (kind = Wayland ∧ dir ∈ dc_wayland_dirs config ∨
     kind = X11 ∧ dc_include_x11 config = true ∧ dir ∈ dc_x11_dirs config) ∧
    let path := path_join dir name in
    extension path = Some "desktop" ∧
    validate_source fs path (dc_source_trust config) (session_root config kind path)
      = Ok () ∧
    parse_desktop_session fs path kind config = Ok (Some entry) ∧
    try_exec_is_eligible fs entry (dc_exec_search_path config) = true ∧
    si_kind (ce_session entry) = kind.

Lemma parse_desktop_session_source fs path kind config entry :
  parse_desktop_session fs path kind config = Ok (Some entry) →
  validate_source fs path (dc_source_trust config) (session_root config kind path)
    = Ok () ∧ si_kind (ce_session entry) = kind.
Proof.
  unfold parse_desktop_session. intros H.
  destruct (validate_source _ _ _ _) as [[]|]; [|done].
  split; [done|]. repeat case_match; by simplify_eq.
Qed.

Lemma entry_of_Some fs kind config path entry :
  entry_of fs kind config path = Some entry →
  extension path = Some "desktop" ∧
  parse_desktop_session fs path kind config = Ok (Some entry) ∧
  try_exec_is_eligible fs entry (dc_exec_search_path config) = true.
Proof.
  unfold entry_of. intros H. repeat case_match; simplify_eq; bool_facts; auto.
Qed.

Lemma collect_from_dirs_elem fs dirs kind config sessions out entry :
  collect_from_dirs fs dirs kind config sessions = Ok out → entry ∈ out →
  entry ∈ sessions ∨
  ∃ dir name, dir ∈ dirs ∧ entry_of fs kind config (path_join dir name) = Some entry.
Proof.
  revert sessions. induction dirs as [|dir dirs IH]; intros sessions H Hin.
  { cbn in H. simplify_eq. auto. }
  cbn in H. unfold collect_from_dir in H.
  destruct (sf_read_dir fs dir) as [| |names]; [|done|].
  - destruct (IH _ H Hin) as [?|(d & n & Hd & He)]; [auto|].
    right. exists d, n. split; [by right|done].
  - destruct (IH _ H Hin) as [[?|Ho]%elem_of_app|(d & n & Hd & He)]; [auto| |].
    + apply list_elem_of_omap in Ho as (name & _ & Ho).
      right. exists dir, name. split; [by left|done].
    + right. exists d, n. split; [by right|done].
Qed.

Lemma retain_first_elem seen entries entry :
  entry ∈ retain_first seen entries → entry ∈ entries.
Proof.
  revert seen. induction entries as [|e entries IH]; intros seen; [done|]. cbn.
  case_bool_decide; [intros; right; eauto|].
  intros [->|?]%elem_of_cons; [by left|]. right. eauto.
Qed.

Lemma retain_first_NoDup seen entries :
  NoDup ((si_id ∘ ce_session) <$> retain_first seen entries) ∧
  (∀ entry, entry ∈ retain_first seen entries → si_id (ce_session entry) ∉ seen).
Proof.
  revert seen. induction entries as [|e entries IH]; intros seen.
  { split; [constructor|]. by intros ? ?%not_elem_of_nil. }
  cbn [retain_first]. case_bool_decide as Hseen; [apply IH|].
  destruct (IH ({[si_id (ce_session e)]} ∪ seen)) as [Hnd Hns].
  split.
  - rewrite fmap_cons. apply NoDup_cons. split; [|done].
    intros (e' & Heq & Hin)%list_elem_of_fmap. apply Hns in Hin.
    cbn in Heq. rewrite Heq in Hin. set_solver.
  - intros entry [->|Hin]%elem_of_cons; [done|]. apply Hns in Hin. set_solver.
Qed.

Lemma collect_entries_sound fs config entries :
  collect_entries fs config = Ok entries →
  NoDup ((si_id ∘ ce_session) <$> entries) ∧ Forall (entry_source fs config) entries.
Proof.
  unfold collect_entries. intros H.
  destruct (collect_from_dirs _ _ Wayland _ _) as [w|] eqn:Hw; [|done].
  destruct (if dc_include_x11 config then _ else _) as [all|] eqn:Hx; [|done].
  simplify_eq. split; [apply retain_first_NoDup|].
  apply Forall_forall. intros entry Hin%retain_first_elem.
  assert (∀ kind dir name,
    (kind = Wayland ∧ dir ∈ dc_wayland_dirs config ∨
     kind = X11 ∧ dc_include_x11 config = true ∧ dir ∈ dc_x11_dirs config) →
    entry_of fs kind config (path_join dir name) = Some entry →
    entry_source fs config entry) as Hsrc.
  { intros kind dir name Hd (Hext & Hp & Ht)%entry_of_Some.
    destruct (parse_desktop_session_source _ _ _ _ _ Hp).
    exists kind, dir, name. split; [exact Hd|]. cbv zeta. auto 10. }
  assert (entry ∈ w → entry_source fs config entry) as Hwl.
  { intros Hi. destruct (collect_from_dirs_elem _ _ _ _ _ _ _ Hw Hi)
      as [?%not_elem_of_nil|(dir & name & Hd & He)]; [done|].
    by apply (Hsrc Wayland dir name); [left|]. }
  destruct (dc_include_x11 config); [|simplify_eq; auto].
  destruct (collect_from_dirs_elem _ _ _ _ _ _ _ Hx Hin)
    as [?|(dir & name & Hd & He)]; [auto|].
  by apply (Hsrc X11 dir name); [right|].
Qed.

Lemma list_find_unique {A} (f : A → string) (l : list A) (x : A) :
  NoDup (f <$> l) → x ∈ l → snd <$> list_find (λ y, f y = f x) l = Some x.
Proof.
  induction l as [|y l IH]; [by intros _ ?%not_elem_of_nil|].
  rewrite fmap_cons. intros [Hy Hnd]%NoDup_cons [->|Hin]%elem_of_cons; cbn.
  - by rewrite decide_True.
  - rewrite decide_False.
    + specialize (IH Hnd Hin). by destruct (list_find _ l) as [[]|].
    + intros Heq. apply Hy. rewrite Heq. by apply list_elem_of_fmap_2.
Qed.

Lemma list_find_snd_elem {A} (P : A → Prop) `{∀ x, Decision (P x)} (l : list A) x :
  snd <$> list_find P l = Some x → x ∈ l ∧ P x.
Proof.
  destruct (list_find P l) as [[i y]|] eqn:Hf; [|done]. intros; simplify_eq/=.
  apply list_find_Some in Hf as (Hl & Hp & _).
  split; [by eapply list_elem_of_lookup_2|done].
Qed.

Lemma list_sessions_elem fs config sessions entries :
  list_sessions fs config = Ok sessions → collect_entries fs config = Ok entries →
  sessions ≡ₚ ce_session <$> entries.
Proof.
  unfold list_sessions. intros H Hc. rewrite Hc in H. simplify_eq.
  apply merge_sort_Permutation.
Qed.

Lemma find_session_listed fs config sessions s :
  list_sessions fs config = Ok sessions →
  s ∈ sessions ↔ find_session fs config (si_id s) = Ok (Some s).
Proof.
  intros Hl. pose proof Hl as Hl'. unfold list_sessions in Hl'.
  destruct (collect_entries fs config) as [entries|] eqn:He; [|done].
  rewrite (list_sessions_elem _ _ _ _ Hl He).
  unfold find_session, find_entry. rewrite He.
  destruct (collect_entries_sound _ _ _ He) as [Hnd _]. split.
  - intros (entry & -> & Hin)%list_elem_of_fmap.
    pose proof (list_find_unique (si_id ∘ ce_session) entries entry Hnd Hin) as Hf.
    cbn in Hf. by rewrite Hf.
  - intros H. destruct (snd <$> list_find _ entries) as [entry|] eqn:Hf; [|done].
    simplify_eq/=. apply list_find_snd_elem in Hf as [Hin _].
    by apply list_elem_of_fmap_2.
Qed.

(** The list of sessions names every session once, in the order of names
    and ids; each comes from a trusted, eligible desktop file of a configured
    directory; and a session is in the list exactly when looking its id up
    finds it. *)
Theorem list_sessions_sound fs config sessions :
  list_sessions fs config = Ok sessions →
  NoDup (si_id <$> sessions) ∧ Sorted session_le sessions ∧
  (∀ s, s ∈ sessions → ∃ entry, ce_session entry = s ∧ entry_source fs config entry) ∧
  (∀ s, s ∈ sessions ↔ find_session fs config (si_id s) = Ok (Some s)).
Proof.
  intros Hl. pose proof Hl as Hl'. unfold list_sessions in Hl'.
  destruct (collect_entries fs config) as [entries|] eqn:He; [|done].
  pose proof (list_sessions_elem _ _ _ _ Hl He) as Hperm.
  destruct (collect_entries_sound _ _ _ He) as [Hnd Hsrc]. split_and!.
  - by rewrite Hperm, <- list_fmap_compose.
  - simplify_eq. apply Sorted_merge_sort, _.
  - intros s. rewrite Hperm. intros (entry & -> & Hin)%list_elem_of_fmap.
    exists entry. split; [done|]. by eapply Forall_forall in Hsrc.
  - intros s. by apply find_session_listed.
Qed.

(** ** The launch specification *)

(** Where the executable comes from: the command itself when it is absolute,
    else the first directory of the search path that has it. *)
Definition command_candidate (command : string) (search_path : list string)
    (candidate : string) : Prop :=
  is_absolute command = true ∧ candidate = command ∨
  is_absolute command = false ∧ length (components command) = 1%nat ∧
  ∃ dir, dir ∈ search_path ∧ candidate = path_join dir command.

Lemma resolve_executable_sound fs command search_path executable :
  resolve_executable fs command search_path = Ok executable →
  ∃ candidate, command_candidate command search_path candidate ∧
    is_executable fs candidate = true ∧
    sf_canonicalize fs candidate = Some executable.
Proof.
  unfold resolve_executable, command_candidate. intros H.
  destruct (is_absolute command) eqn:Ha.
  - repeat case_match; simplify_eq; bool_facts. eauto 10.
  - destruct (negb _ || _) eqn:Hg in H; [done|]. bool_facts.
    destruct (list_find _ _) as [[i path]|] eqn:Hf; [|done].
    apply list_find_Some in Hf as (Hl & Hex & _). rewrite Hex in H. cbn in H.
    case_match; simplify_eq. apply list_elem_of_lookup_2 in Hl.
    apply list_elem_of_fmap in Hl as (dir & -> & Hdir).
    eexists. split; [right; split_and!; [done|lia|eauto]|done].
Qed.

(** What the launch specification of a session is made of. *)
Definition spec_of_entry (fs : SessionFs) (config : SessionDiscoveryConfig)
    (entry : CanonicalSessionEntry) (spec : ResolvedSessionLaunchSpec) : Prop :=
  ls_session spec = ce_session entry ∧ ls_source_path spec = ce_source_path entry ∧
  ∃ argv0 args candidate,
    parse_exec (ce_exec entry) = Ok (argv0 :: args) ∧
    ls_argv spec = str_of_text <$> argv0 :: args ∧
    command_candidate (str_of_text argv0) (dc_exec_search_path config) candidate ∧
    is_executable fs candidate = true ∧
    sf_canonicalize fs candidate = Some (ls_executable spec).

Lemma resolve_total fs entry search_path :
  ∃ r, resolve fs entry search_path = Some r.
Proof.
  unfold resolve. destruct (parse_exec _) as [argv|] eqn:Hp; [|eauto].
  apply parse_exec_iff in Hp as (_ & Hne & _). destruct argv; [done|]. cbn. eauto.
Qed.

Lemma resolve_sound fs config entry spec :
  resolve fs entry (dc_exec_search_path config) = Some (Ok spec) →
  spec_of_entry fs config entry spec.
Proof.
  unfold resolve. intros H.
  destruct (parse_exec _) as [[|argv0 args]|] eqn:Hp; [done| |done]. cbn in H.
  destruct (resolve_executable _ _ _) as [executable|] eqn:Hr; [|done].
  apply resolve_executable_sound in Hr as (candidate & Hc & Hx & Hcan).
  assert (spec = mkLaunchSpec (ce_session entry) (ce_source_path entry) executable
                   (str_of_text <$> argv0 :: args)) as ->
    by (repeat case_match; by simplify_eq).
  split; [done|]. split; [done|]. exists argv0, args, candidate. done.
Qed.

Lemma resolve_launch_spec_sound fs config id spec :
  resolve_launch_spec fs config id = Some (Ok (Some spec)) →
  ∃ sessions entry, list_sessions fs config = Ok sessions ∧
    ce_session entry ∈ sessions ∧ si_id (ce_session entry) = id ∧
    entry_source fs config entry ∧ spec_of_entry fs config entry spec.
Proof.
  unfold resolve_launch_spec, find_entry, list_sessions. intros H.
  destruct (collect_entries fs config) as [entries|] eqn:He; [|done].
  destruct (collect_entries_sound _ _ _ He) as [_ Hsrc].
  destruct (snd <$> list_find _ entries) as [entry|] eqn:Hf; [|done].
  apply list_find_snd_elem in Hf as [Hin Hid].
  destruct (resolve _ _ _) as [[spec'|]|] eqn:Hr; [|done|done]. simplify_eq.
  eexists _, entry. split; [done|]. split_and!.
  - rewrite (merge_sort_Permutation session_le _). by apply list_elem_of_fmap_2.
  - done.
  - by eapply Forall_forall in Hsrc.
  - by apply resolve_sound.
Qed.

(** [resolve_launch_spec] never panics, and what it resolves for an id is
    the listed session with that id: its arguments are those of the [Exec]
    line of a trusted desktop file, its executable is the canonical path of
    an executable file named by the command or found in the search path. *)
Theorem resolved_spec_sound fs config id :
  (∃ r, resolve_launch_spec fs config id = Some r) ∧
  ∀ spec, resolve_launch_spec fs config id = Some (Ok (Some spec)) →
    ∃ sessions entry, list_sessions fs config = Ok sessions ∧
      ce_session entry ∈ sessions ∧ si_id (ce_session entry) = id ∧
      entry_source fs config entry ∧ spec_of_entry fs config entry spec.
Proof.
  split; [|intros spec; apply resolve_launch_spec_sound].
  unfold resolve_launch_spec. destruct (find_entry _ _ _) as [[entry|]|]; [|eauto..].
  destruct (resolve_total fs entry (dc_exec_search_path config)) as [[|] ->]; eauto.
Qed.
