(* ===== verification/UserDiscovery.v ===== *)
(** * Discovering the users, and the directories behind the daemon

    [niralis-discovery/src/users]: which accounts the greeter offers
    ([filter.rs]) out of the password database ([nss.rs], whose entries are a
    parameter), and [discovery_host]: the daemon's handler with the two
    directories of the discovery behind it. *)

From stdpp Require Import base gmap sets list strings sorting.
From Stdlib Require Import ZArith Lia.
From S2P Require Import Prelude Text Paths DirFs RecoveryTypes LedgerTaxonomy.
From S2P Require Import Ledger Protocol PreCommit Admission Conversation Login.
From S2P Require Import Daemon LaunchSpec SessionDiscovery.
#[local] Open Scope niralis_scope.

Record SystemUser := mkSystemUser {
  su_uid : Z;
  su_username : string;
  su_gecos : list Z;
  su_shell : string;
}.
Record UserDiscoveryConfig := mkUserConfig {
  uc_min_uid : Z;
  uc_allow_root : bool;
  uc_exclude : list string;
}.
Definition default_user_config : UserDiscoveryConfig :=
  mkUserConfig 1000 false ["nobody"].

(** The loop over [getpwent]: nameless entries are skipped. *)
Fixpoint enumerate_system_users (passwd : list SystemUser) : list SystemUser :=
  match passwd with
  | [] => []
  | user :: rest =>
      if negb (str_is_empty (su_username user))
      then user :: enumerate_system_users rest
      else enumerate_system_users rest
  end.

Definition display_name_from_gecos (gecos : list Z) (username : string) : string :=
  let name := trim (default [] (head (split_on 44 gecos))) in
  if bool_decide (name = []) then username else str_of_text name.

Definition has_noninteractive_shell (shell : string) : bool :=
  let shell_name := default shell (file_name shell) in
  str_eqb shell_name "nologin" || str_eqb shell_name "false".

Definition user_le (left right : UserInfo) : Prop :=
  match String.compare (ui_display_name left) (ui_display_name right) with
  | Lt => True
  | Eq => str_le (ui_username left) (ui_username right)
  | Gt => False
  end.
#[export] Instance user_le_dec left right : Decision (user_le left right).
Proof. unfold user_le. destruct (String.compare _ _); apply _. Defined.
#[export] Instance user_le_total : Total user_le.
Proof.
  intros a b. unfold user_le.
  rewrite (String.compare_antisym (ui_display_name b)).
  destruct (String.compare (ui_display_name a) (ui_display_name b)); cbn; auto.
  apply str_le_total.
Qed.

(** The source's chain of filters and the final [map]. *)
Definition filter_users (users : list SystemUser) (config : UserDiscoveryConfig)
    : list UserInfo :=
  let excluded : gset string := list_to_set (uc_exclude config) in
  let kept :=
    List.filter (λ user, negb (has_noninteractive_shell (su_shell user)))
      (List.filter (λ user, negb (bool_decide (su_username user ∈ excluded)))
        (List.filter (λ user, uc_allow_root config || negb (su_uid user =? 0))
          (List.filter (λ user, uc_min_uid config <=? su_uid user) users))) in
  merge_sort user_le
    ((λ user, mkUserInfo (su_uid user) (su_username user)
                (display_name_from_gecos (su_gecos user) (su_username user))) <$> kept).

Definition list_users (passwd : list SystemUser) (config : UserDiscoveryConfig)
    : result (list UserInfo) DiscoveryError :=
  Ok (filter_users (enumerate_system_users passwd) config).

(** ** What is offered *)

(** An account the greeter may offer. *)
Definition offered (config : UserDiscoveryConfig) (user : SystemUser) : Prop :=
  su_username user ≠ EmptyString ∧ uc_min_uid config ≤ su_uid user ∧
  (su_uid user = 0 → uc_allow_root config = true) ∧
  su_username user ∉ uc_exclude config ∧
  has_noninteractive_shell (su_shell user) = false.

Lemma enumerate_elem passwd user :
  user ∈ enumerate_system_users passwd ↔
  user ∈ passwd ∧ su_username user ≠ EmptyString.
Proof.
  induction passwd as [|u passwd IH]; cbn.
  { split; [by intros ?%not_elem_of_nil|by intros [?%not_elem_of_nil _]]. }
  destruct (str_is_empty (su_username u)) eqn:He; cbn; bool_facts;
    rewrite ?elem_of_cons, IH; naive_solver.
Qed.

Lemma elem_of_filter_bool {A} (f : A → bool) l x :
  x ∈ List.filter f l ↔ x ∈ l ∧ f x = true.
Proof. rewrite !list_elem_of_In. apply filter_In. Qed.

(** The users the greeter sees are exactly the accounts the policy
    offers: named, at or above the lowest uid, not root unless that is
    allowed, not excluded and with a login shell; each with its uid, name and
    display name, in the order of display names and names. *)
Theorem list_users_exact passwd config :
  ∃ users, list_users passwd config = Ok users ∧ Sorted user_le users ∧
    ∀ info, info ∈ users ↔ ∃ user, user ∈ passwd ∧ offered config user ∧
      info = mkUserInfo (su_uid user) (su_username user)
               (display_name_from_gecos (su_gecos user) (su_username user)).
Proof.
  eexists. split; [done|]. split; [apply Sorted_merge_sort, _|].
  intros info. unfold filter_users. rewrite (merge_sort_Permutation user_le _).
  rewrite list_elem_of_fmap. setoid_rewrite elem_of_filter_bool.
  setoid_rewrite elem_of_filter_bool. setoid_rewrite elem_of_filter_bool.
  setoid_rewrite elem_of_filter_bool. setoid_rewrite enumerate_elem.
  unfold offered. split.
  - intros (user & -> & ((((Hin & Hn) & H1) & H2) & H3) & H4). bool_facts.
    exists user. split; [done|]. split; [|done]. split_and!; try done.
    + intros H0. rewrite H0 in H2. cbn in H2. by rewrite orb_false_r in H2.
    + by rewrite elem_of_list_to_set in H3.
  - intros (user & Hin & (Hn & H1 & H2 & H3 & H4) & ->).
    exists user. split; [done|]. split_and!; try done.
    + by apply Z.leb_le.
    + destruct (Z.eqb_spec (su_uid user) 0); cbn; [by rewrite H2|by rewrite orb_true_r].
    + rewrite bool_decide_false; [done|]. by rewrite elem_of_list_to_set.
    + by rewrite H4.
Qed.

(** ** The daemon with the discovery behind it *)

Section Host.
Context (fs : SessionFs) (sessions : SessionDiscoveryConfig).
Context (passwd : list SystemUser) (users : UserDiscoveryConfig).
Context {X : Type} (login : LoginAttempt → X → X * result StartedSession LoginBackendError).
Context (status : DaemonStatus).

(** [DaemonHandler] over [DesktopSessionDirectory] and [NssUserDirectory]; a
    panic of the resolution, which never happens, is an error here. *)
Definition discovery_host : DaemonHost X :=
  mkDaemonHost X login (list_users passwd users) (list_sessions fs sessions)
    (λ id, default (Err InvalidLaunchSpec) (resolve_launch_spec fs sessions id))
    status.

(** C33. A login reaches the backend only for a session the greeter was
    offered: whatever id the greeter sends, either no login is attempted, or
    exactly one is, for the listed session with that id, with the command
    line of its trusted desktop file. *)
Theorem login_launches_listed_session others now_check now_failure username password
    session connection h :
  let '(h', response) := handle_login_with_binding discovery_host others now_check
    now_failure username password session connection h in
  (hd_logins h' = hd_logins h ∧ is_login_ok response = false) ∨
  ∃ attempt listed entry,
    hd_logins h' = hd_logins h ++ [attempt] ∧
    handle discovery_host ReqGetSessions = RespSessions listed ∧
    la_session attempt ∈ listed ∧ si_id (la_session attempt) = session ∧
    la_session attempt = ce_session entry ∧ entry_source fs sessions entry ∧
    spec_of_entry fs sessions entry (la_launch_spec attempt) ∧
    (∀ s, response = LoginOk s → s = la_session attempt).
Proof.
  destruct (handle_login_with_binding _ _ _ _ _ _ _ _ _) as [h' response] eqn:H.
  unfold handle_login_with_binding in H.
  destruct (handler_is_limited username now_check h) as [h1 limited] eqn:Hlim.
  assert (hd_logins h1 = hd_logins h) as Hl1.
  { unfold handler_is_limited in Hlim. repeat case_match; by simplify_eq. }
  destruct limited; [left; by simplify_eq|].
  destruct (dh_resolve_launch_spec discovery_host session) as [[spec|]|] eqn:Hr;
    [|left; by simplify_eq..].
  destruct (next_login_attempt_id h1) as [h2 id] eqn:Hid.
  assert (hd_logins h2 = hd_logins h) as Hl2.
  { rewrite <- Hl1. unfold next_login_attempt_id in Hid. repeat case_match; by simplify_eq. }
  right. cbn in Hr.
  destruct (resolve_launch_spec fs sessions session) as [[[spec'|]|]|] eqn:Hres;
    simplify_eq/=.
  apply resolve_launch_spec_sound in Hres as (listed & entry & Hls & Hin & Hsid & Hsrc & Hspec).
  assert (ls_session spec = ce_session entry) as Hse by apply Hspec.
  set (attempt := mkLoginAttempt _ _ _ _ _ _) in H.
  destruct (backend_login _ _ attempt h2) as [h3 r] eqn:Hb.
  assert (hd_logins h3 = hd_logins h ++ [attempt]) as Hl3.
  { rewrite <- Hl2. unfold backend_login in Hb. repeat case_match; by simplify_eq. }
  exists attempt, listed, entry. cbn [handle]. rewrite Hls.
  split.
  { rewrite <- Hl3. repeat case_match; by simplify_eq. }
  subst attempt. cbn [la_session la_launch_spec]. rewrite Hse.
  split_and!; try done. intros s Hs. repeat case_match; simplify_eq; congruence.
Qed.
End Host.
