(* ===== verification/DiscoveryRuns.v ===== *)
(** * Runs of the discovery

    Concrete command lines, desktop entries and a small file system on which
    the theorems of the discovery apply. *)

From stdpp Require Import base gmap sets list strings sorting.
From Stdlib Require Import ZArith Lia.
From S2P Require Import Prelude Text Paths DirFs RecoveryTypes LedgerTaxonomy.
From S2P Require Import Ledger Protocol PreCommit Admission Conversation Login.
From S2P Require Import Daemon LaunchSpec SessionDiscovery UserDiscovery.
#[local] Open Scope niralis_scope.

(** Arguments with a space, quotes, a dollar and a percent sign. *)
Definition sample_argv : list (list Z) :=
  [lit "niri"; lit "--title"; lit "50% of $HOME"; [QUOTE; BACKSLASH; BACKTICK]; []].

Lemma parse_exec_roundtrip_witness :
  parse_exec (quote_exec sample_argv) = Ok sample_argv.
Proof.
  apply parse_exec_roundtrip.
  - discriminate.
  - repeat constructor.
  - vm_compute. discriminate.
  - repeat constructor; vm_compute; discriminate.
  - vm_compute. discriminate.
Defined.

(** The words of the source's own tests. *)
Example exec_tokens_are_not_shell :
  parse_exec (lit "example $HOME && rm") =
  Ok [lit "example"; lit "$HOME"; lit "&&"; lit "rm"].
Proof. reflexivity. Qed.
Example field_codes_fail_closed :
  parse_exec (lit "example %f") = Err InvalidLaunchSpec.
Proof. reflexivity. Qed.
(** A tab is a control character before it is a separator. *)
Example tab_separator_is_refused :
  parse_exec (lit "niri" ++ [TAB] ++ lit "--session") = Err InvalidLaunchSpec.
Proof. reflexivity. Qed.

Definition niri_fields : list (list Z * list Z) :=
  [(lit "Type", lit "Application"); (lit "Name", lit " Niri ");
   (lit "Exec", lit "niri --session"); (lit "TryExec", lit "niri")].

Lemma desktop_entry_roundtrip_witness :
  desktop_entry_fields (print_entry niri_fields) = Some (list_to_map niri_fields).
Proof.
  apply desktop_entry_roundtrip.
  - by apply (bool_decide_unpack _).
  - apply (bool_decide_unpack _). vm_compute. exact I.
Defined.

(** One session directory with one desktop file, everything owned by root. *)
Definition sessions_dir : string := "/usr/share/wayland-sessions".
Definition niri_path : string := "/usr/share/wayland-sessions/niri.desktop".
Definition root_node (is_file : bool) : FileMeta :=
  mkFileMeta is_file false 0 0x1ED 200.
Definition sample_fs : SessionFs := mkSessionFs
  (λ path, if str_eqb path niri_path || str_eqb path "/usr/bin/niri"
           then Some (root_node true) else None)
  (λ path, if str_eqb path niri_path then Some (root_node true)
           else Some (root_node false))
  Some
  (λ path, if str_eqb path niri_path then Some (str_of_text (print_entry niri_fields))
           else None)
  (λ path, if str_eqb path sessions_dir
           then DirEntries [Some "README"; None; Some "niri.desktop"]
           else DirNotFound).

Definition niri_session : SessionInfo := mkSessionInfo "niri" "Niri" Wayland.

Lemma list_sessions_sound_witness :
  NoDup (si_id <$> [niri_session]) ∧ Sorted session_le [niri_session] ∧
  (∀ s, s ∈ [niri_session] → ∃ entry, ce_session entry = s ∧
     entry_source sample_fs default_discovery_config entry) ∧
  (∀ s, s ∈ [niri_session] ↔
     find_session sample_fs default_discovery_config (si_id s) = Ok (Some s)).
Proof. apply list_sessions_sound. vm_compute. reflexivity. Defined.

Example niri_resolves :
  resolve_launch_spec sample_fs default_discovery_config "niri" =
  Some (Ok (Some (mkLaunchSpec niri_session niri_path "/usr/bin/niri"
                    ["niri"; "--session"]))).
Proof. vm_compute. reflexivity. Qed.
