(* ===== verification/CgroupState.v ===== *)
(** * Is a control group empty?

    [launcher/recovery/cgroup_state.rs]: the state of a payload's boundary is
    read from the files [cgroup.events] and [cgroup.procs] of its directory
    and of every directory below it; [/proc/<pid>/cgroup] says which group a
    process is in.  The directory tree is what the reads of one call answer:
    every read may fail, and a directory may be gone by the time it is read. *)

From stdpp Require Import base gmap sets list strings.
From Stdlib Require Import ZArith Lia.
From S2P Require Import Prelude Text DirFs RecoveryTypes.

(** ** The tree *)

(** A failed read: the kind of the error, and whether the directory was still
    there when the failure was looked at. *)
Record CgFailure := mkCgFailure { cf_kind : ErrorKind; cf_path_exists : bool }.

Inductive CgroupDir :=
| mkCgroupDir (events procs : result string CgFailure) (entries : CgEntries)
with CgEntries :=
| EntriesEnd
| EntriesFail (failure : CgFailure)
| EntryTypeFail
| EntryFile (rest : CgEntries)
| EntryDir (dir : CgroupDir) (rest : CgEntries).

(** [symlink_metadata] of the directory of a control group. *)
Inductive CgLookup :=
| CgMissing | CgLookupFail | CgNotDirectory | CgDirectory (dir : CgroupDir).

Inductive SupervisorBoundaryState := BoundaryPopulated | BoundaryEmpty | BoundaryAbsent.
#[export] Instance SupervisorBoundaryState_eq_dec : EqDecision SupervisorBoundaryState.
Proof. solve_decision. Defined.

Definition vacant_state (s : SupervisorBoundaryState) : bool :=
  match s with BoundaryPopulated => false | _ => true end.

(** ** Parsers *)

(** [u8::is_ascii_whitespace]. *)
Definition is_ascii_whitespace (b : Z) : bool :=
  (b =? 32) || (b =? 9) || (b =? 10) || (b =? 12) || (b =? 13).

(** [split_ascii_whitespace]; [word] is the word being read. *)
Fixpoint ascii_words (word s : text) : list text :=
  match s with
  | [] => if bool_decide (word = []) then [] else [word]
  | c :: rest =>
      if is_ascii_whitespace c
      then (if bool_decide (word = []) then [] else [word]) ++ ascii_words [] rest
      else ascii_words (word ++ [c]) rest
  end.

(** [parse] into an unsigned integer of at most [max]. *)
Fixpoint parse_digits (max acc : Z) (s : text) : option Z :=
  match s with
  | [] => Some acc
  | c :: rest =>
      if between 48 57 c && (acc * 10 + (c - 48) <=? max)
      then parse_digits max (acc * 10 + (c - 48)) rest else None
  end.
Definition parse_uint (max : Z) (s : text) : option Z :=
  match s with
  | [] => None
  | 43 :: rest => if bool_decide (rest = []) then None else parse_digits max 0 rest
  | _ => parse_digits max 0 s
  end.

Definition populated_field (line : text) : option Z :=
  match ascii_words [] line with
  | [key; value] => if bool_decide (key = lit "populated") then parse_uint 255 value else None
  | _ => None
  end.

Definition parse_populated (bytes : string) : option Z :=
  text ← str_from_utf8 bytes;
  match omap populated_field (lines text) with
  | [value] => if between 0 1 value then Some value else None
  | _ => None
  end.

Definition MAX_CGROUP_FILE_BYTES : Z := 64 * 1024.

(** [read_bounded_file] of a file whose whole content is [content]. *)
Definition read_bounded_file (content : result string CgFailure)
    : result string CgFailure :=
  match content with
  | Ok bytes => if MAX_CGROUP_FILE_BYTES <? str_len bytes
                then Err (mkCgFailure OtherKind true) else Ok bytes
  | Err failure => Err failure
  end.

Definition cgroup_read_failure (failure : CgFailure)
    : result SupervisorBoundaryState SupervisorRecoveryError :=
  if bool_decide (cf_kind failure = NotFound) && negb (cf_path_exists failure)
  then Ok BoundaryAbsent else Err InvalidPayloadIdentity.

Definition blank_procs (bytes : string) : bool :=
  forallb is_ascii_whitespace (as_bytes bytes).

(** ** The state of a directory and of the boundary *)

(** [read_supervisor_boundary_state_from_path] and the loop over its entries. *)
Fixpoint state_from_path (dir : CgroupDir)
    : result SupervisorBoundaryState SupervisorRecoveryError :=
  let '(mkCgroupDir events procs entries) := dir in
  match read_bounded_file events with
  | Err failure => cgroup_read_failure failure
  | Ok events =>
      match read_bounded_file procs with
      | Err failure => cgroup_read_failure failure
      | Ok procs =>
          if negb (bool_decide (parse_populated events = Some 0)) || negb (blank_procs procs)
          then Ok BoundaryPopulated else entries_state entries
      end
  end
with entries_state (entries : CgEntries)
    : result SupervisorBoundaryState SupervisorRecoveryError :=
  match entries with
  | EntriesEnd => Ok BoundaryEmpty
  | EntriesFail failure => cgroup_read_failure failure
  | EntryTypeFail => Err InvalidPayloadIdentity
  | EntryFile rest => entries_state rest
  | EntryDir dir rest =>
      match state_from_path dir with
      | Err e => Err e
      | Ok BoundaryPopulated => Ok BoundaryPopulated
      | Ok _ => entries_state rest
      end
  end.

(** [control_group.contains("..")] and the leading slash, checked before the
    directory is looked at. *)
Definition cgroup_path_valid (control_group : string) : bool :=
  match as_bytes control_group with b :: _ => b =? 47 | [] => false end
  && negb (str_contains ".." control_group).

Definition read_supervisor_boundary_state (tree : string → CgLookup)
    (control_group : string) : result SupervisorBoundaryState SupervisorRecoveryError :=
  if negb (cgroup_path_valid control_group) then Err InvalidPayloadIdentity
  else match tree control_group with
  | CgMissing => Ok BoundaryAbsent
  | CgLookupFail | CgNotDirectory => Err InvalidPayloadIdentity
  | CgDirectory (mkCgroupDir events procs entries) =>
      match read_bounded_file events with
      | Err failure => cgroup_read_failure failure
      | Ok events =>
          match parse_populated events with
          | None => Err InvalidPayloadIdentity
          | Some populated =>
              match read_bounded_file procs with
              | Err failure => cgroup_read_failure failure
              | Ok procs =>
                  if negb (populated =? 0) || negb (blank_procs procs)
                  then Ok BoundaryPopulated else entries_state entries
              end
          end
      end
  end.

(** ** The group of a process *)

Definition unified_lines (content : string) : list string :=
  omap (λ line, match line with
                | a :: b :: c :: rest =>
                    if bool_decide ([a; b; c] = lit "0::") then Some (of_bytes rest) else None
                | _ => None
                end) (lines (as_bytes content)).

Definition starts_with_slash (s : string) : bool :=
  match as_bytes s with b :: _ => b =? 47 | [] => false end.

Definition read_pid_cgroup (content : option string)
    : result string SupervisorRecoveryError :=
  match content with
  | None => Err InvalidPayloadIdentity
  | Some content =>
      match unified_lines content with
      | [value] => if starts_with_slash value then Ok value else Err InvalidPayloadIdentity
      | _ => Err InvalidPayloadIdentity
      end
  end.

(** [exists] answers whether [/proc/<pid>] is there. *)
Definition ensure_outside_boundary (content : option string) (exists_ : bool)
    (boundary : string) : result () SupervisorRecoveryError :=
  match read_pid_cgroup content with
  | Ok value =>
      if str_eqb value boundary || String.prefix (boundary +:+ "/") value
      then Err InvalidPayloadIdentity else Ok ()
  | Err error => if exists_ then Err error else Ok ()
  end.

(** ** What the state means *)

Definition reads_gone (content : result string CgFailure) : Prop :=
  ∃ failure, content = Err failure ∧ cf_kind failure = NotFound ∧
    cf_path_exists failure = false.

(** A directory no process is in, nor in any directory below it: its files say
    so, or it went away while it was read. *)
Inductive vacant : CgroupDir → Prop :=
| vacant_events_gone events procs entries :
    reads_gone events → vacant (mkCgroupDir events procs entries)
| vacant_procs_gone events procs entries bytes :
    read_bounded_file events = Ok bytes → reads_gone procs →
    vacant (mkCgroupDir events procs entries)
| vacant_below events procs entries bytes members :
    read_bounded_file events = Ok bytes → parse_populated bytes = Some 0 →
    read_bounded_file procs = Ok members → blank_procs members = true →
    all_vacant entries → vacant (mkCgroupDir events procs entries)
with all_vacant : CgEntries → Prop :=
| all_vacant_end : all_vacant EntriesEnd
| all_vacant_gone failure :
    reads_gone (Err failure) → all_vacant (EntriesFail failure)
| all_vacant_file rest : all_vacant rest → all_vacant (EntryFile rest)
| all_vacant_dir dir rest :
    vacant dir → all_vacant rest → all_vacant (EntryDir dir rest).

(** The events file of the boundary itself must make sense when it is read. *)
Definition boundary_vacant (dir : CgroupDir) : Prop :=
  let '(mkCgroupDir events _ _) := dir in
  vacant dir ∧ ∀ bytes, read_bounded_file events = Ok bytes → parse_populated bytes ≠ None.

Scheme CgroupDir_mut := Induction for CgroupDir Sort Prop
with CgEntries_mut := Induction for CgEntries Sort Prop.
Combined Scheme cgroup_mutind from CgroupDir_mut, CgEntries_mut.

Definition says_vacant (r : result SupervisorBoundaryState SupervisorRecoveryError)
    : bool :=
  match r with Ok state => vacant_state state | Err _ => false end.

Lemma read_failure_vacant failure :
  says_vacant (cgroup_read_failure failure) = true ↔ reads_gone (Err failure).
Proof.
  unfold cgroup_read_failure, reads_gone.
  case_bool_decide; destruct (cf_path_exists failure) eqn:?; cbn; naive_solver.
Qed.

Lemma bounded_failure content failure :
  read_bounded_file content = Err failure →
  reads_gone (Err failure) ↔ reads_gone content.
Proof.
  unfold read_bounded_file, reads_gone.
  destruct content as [bytes|]; [case_match|]; naive_solver.
Qed.

Lemma gone_not_read content bytes :
  read_bounded_file content = Ok bytes → reads_gone content → False.
Proof. intros H (failure & -> & _). done. Qed.

(** What decides a directory whose two files could be read. *)
Lemma vacant_read events procs entries bytes members :
  read_bounded_file events = Ok bytes → read_bounded_file procs = Ok members →
  vacant (mkCgroupDir events procs entries) ↔
  parse_populated bytes = Some 0 ∧ blank_procs members = true ∧ all_vacant entries.
Proof.
  intros He Hp. split.
  - inversion 1 as [? ? ? Hg|? ? ? ? _ Hg|]; simplify_eq.
    + by destruct (gone_not_read events bytes).
    + by destruct (gone_not_read procs members).
    + split_and!; congruence.
  - intros (? & ? & ?). by eapply vacant_below.
Qed.

Lemma vacant_events_fail events procs entries failure :
  read_bounded_file events = Err failure →
  vacant (mkCgroupDir events procs entries) ↔ reads_gone events.
Proof.
  intros He. split; [|by constructor].
  inversion 1; subst; [done|congruence..].
Qed.

Lemma vacant_procs_fail events procs entries bytes failure :
  read_bounded_file events = Ok bytes → read_bounded_file procs = Err failure →
  vacant (mkCgroupDir events procs entries) ↔ reads_gone procs.
Proof.
  intros He Hp. split; [|by econstructor].
  inversion 1 as [? ? ? Hg|? ? ? ? _ Hg|]; subst; [|done|congruence].
  by destruct (gone_not_read events bytes).
Qed.

Lemma states_vacant :
  (∀ dir, says_vacant (state_from_path dir) = true ↔ vacant dir) ∧
  (∀ entries, says_vacant (entries_state entries) = true ↔ all_vacant entries).
Proof.
  apply cgroup_mutind.
  - intros events procs entries IH. cbn.
    destruct (read_bounded_file events) as [bytes|] eqn:He;
      [|by rewrite (vacant_events_fail _ _ _ _ He), read_failure_vacant, bounded_failure].
    destruct (read_bounded_file procs) as [members|] eqn:Hp;
      [|by rewrite (vacant_procs_fail _ _ _ _ _ He Hp), read_failure_vacant, bounded_failure].
    rewrite (vacant_read _ _ _ _ _ He Hp), <- IH.
    case_bool_decide; destruct (blank_procs members); cbn; naive_solver.
  - split; [by constructor|done].
  - intros failure. cbn. rewrite read_failure_vacant. split; [by constructor|].
    by inversion 1.
  - split; [done|by inversion 1].
  - intros rest IH. cbn. rewrite IH. split; [by constructor|by inversion 1].
  - intros dir IHd rest IHr. cbn.
    assert (all_vacant (EntryDir dir rest) ↔ vacant dir ∧ all_vacant rest) as ->
      by (split; [by inversion 1|intros [??]; by constructor]).
    rewrite <- IHd, <- IHr. destruct (state_from_path dir) as [[]|]; cbn; naive_solver.
Qed.

(** A process is in the directory or below it, where the reads could see it. *)
Inductive shows_process : CgroupDir → Prop :=
| shows_here events procs entries members :
    read_bounded_file procs = Ok members → blank_procs members = false →
    is_ok (read_bounded_file events) = true →
    shows_process (mkCgroupDir events procs entries)
| shows_below events procs entries :
    is_ok (read_bounded_file events) = true → is_ok (read_bounded_file procs) = true →
    some_shows entries → shows_process (mkCgroupDir events procs entries)
with some_shows : CgEntries → Prop :=
| shows_later_file rest : some_shows rest → some_shows (EntryFile rest)
| shows_later_dir dir rest : some_shows rest → some_shows (EntryDir dir rest)
| shows_in_dir dir rest : shows_process dir → some_shows (EntryDir dir rest).

Lemma vacant_shows_nothing :
  (∀ dir, vacant dir → ¬ shows_process dir) ∧
  (∀ entries, all_vacant entries → ¬ some_shows entries).
Proof.
  apply cgroup_mutind.
  - intros events procs entries IH Hv Hs. revert Hv.
    inversion Hs as [? ? ? members Hp Hb He|? ? ? He Hp Hbelow]; subst;
      destruct (read_bounded_file events) as [bytes|] eqn:E; try done.
    + rewrite (vacant_read _ _ _ _ _ E Hp). intros (_ & ? & _). congruence.
    + destruct (read_bounded_file procs) as [members|] eqn:E'; [|done].
      rewrite (vacant_read _ _ _ _ _ E E'). intros (_ & _ & ?). by apply IH.
  - by inversion 2.
  - by inversion 2.
  - by inversion 1.
  - intros rest IH Hv Hs. inversion Hv; inversion Hs; subst; by apply IH.
  - intros dir IHd rest IHr Hv Hs. inversion Hv; inversion Hs; subst;
      [by apply IHr|by apply IHd].
Qed.

(** C15. A boundary is reported empty or gone exactly when its path is an
    absolute one without [..] and either its directory does not exist or every
    directory of its tree says that nobody is in it or went away while it was
    read; then no directory that could be read, at any depth, lists a
    process. *)
Theorem boundary_vacant_exact tree control_group :
  (says_vacant (read_supervisor_boundary_state tree control_group) = true ↔
   cgroup_path_valid control_group = true ∧
   (tree control_group = CgMissing ∨
    ∃ dir, tree control_group = CgDirectory dir ∧ boundary_vacant dir)) ∧
  (∀ dir, tree control_group = CgDirectory dir →
   says_vacant (read_supervisor_boundary_state tree control_group) = true →
   ¬ shows_process dir).
Proof.
  assert (∀ dir, tree control_group = CgDirectory dir → cgroup_path_valid control_group = true →
    says_vacant (read_supervisor_boundary_state tree control_group) = true ↔
    boundary_vacant dir) as Hdir.
  { intros [events procs entries] Ht Hp. unfold read_supervisor_boundary_state.
    rewrite Hp, Ht. cbn.
    destruct (read_bounded_file events) as [bytes|] eqn:He.
    2: { rewrite (vacant_events_fail _ _ _ _ He), read_failure_vacant, bounded_failure by done.
         split; [by split|by intros [? _]]. }
    destruct (parse_populated bytes) as [n|] eqn:Hn.
    2: { split; [done|]. intros [_ H]. by edestruct H. }
    destruct (read_bounded_file procs) as [members|] eqn:Hm.
    2: { rewrite (vacant_procs_fail _ _ _ _ _ He Hm), read_failure_vacant, bounded_failure
           by done. split; [|by intros [? _]]. split; [done|congruence]. }
    rewrite (vacant_read _ _ _ _ _ He Hm), <- (proj2 states_vacant entries), Hn.
    assert (∀ bytes', @Ok string CgFailure bytes = Ok bytes' → parse_populated bytes' ≠ None)
      by congruence.
    destruct (Z.eqb_spec n 0), (blank_procs members); cbn; naive_solver. }
  split.
  - destruct (cgroup_path_valid control_group) eqn:Hp.
    2: { unfold read_supervisor_boundary_state. rewrite Hp. cbn. naive_solver. }
    destruct (tree control_group) as [| | |dir] eqn:Ht.
    4: { rewrite Hdir by done. naive_solver. }
    all: unfold read_supervisor_boundary_state; rewrite Hp, Ht; cbn; naive_solver.
  - intros dir Ht H. destruct (cgroup_path_valid control_group) eqn:Hp.
    2: { unfold read_supervisor_boundary_state in H. by rewrite Hp in H. }
    apply (Hdir dir Ht eq_refl) in H. destruct dir. by apply vacant_shows_nothing, H.
Qed.
