(* ===== verification/HostWorld.v ===== *)
(** * The machine a recovery talks to

    Recovery asks [/proc], cgroupfs, systemd, logind and the virtual terminal,
    and acts on them.  [HostView] is what they answer at one moment,
    [RecoveryWorld] the moment, the ledger, the state of the two owner watches
    and the log of what was done, each effect with the ledger it was done
    under.  On top of it: D-Bus calls ([systemd_dbus.rs], [logind_identity.rs],
    [logind_cleanup.rs]), owner watches ([owner_watch*.rs]) and the identity of
    a persisted process ([startup_process.rs]), all under
    [launcher/recovery]. *)

From stdpp Require Import base gmap sets list strings pretty.
From Stdlib Require Import ZArith Lia Ascii.
From S2P Require Import Prelude Text DirFs RecoveryTypes LedgerTaxonomy Ledger.
From S2P Require Import PreviousBoot PreCommit SameBoot Admission AdminRecovery.
From S2P Require Import WorkerRecord CgroupState.
#[local] Open Scope niralis_scope.

(** ** What the machine answers *)

(** [zbus::Error], as far as the code looks at it. *)
Inductive BusError := MethodError (name : string) | OtherBusError.

(** The properties [read_unit_observation] asks for. *)
Record UnitProperties := mkUnitProperties {
  up_invocation_id : list Z;
  up_id : string;
  up_control_group : string;
  up_slice : string;
  up_transient : bool;
  up_active_state : string;
  up_sub_state : string;
}.
(** The properties [read_logind_identity] asks for. *)
Record SessionProperties := mkSessionProperties {
  sp_id : string;
  sp_uid : Z;
  sp_leader : Z;
  sp_name : string;
  sp_seat : string;
  sp_vt_number : Z;
  sp_type : string;
  sp_class : string;
  sp_desktop : option string;
  sp_state : string;
  sp_scope : string;
}.

Inductive WatchName := SystemdWatch | LogindWatch.
#[export] Instance WatchName_eq_dec : EqDecision WatchName.
Proof. solve_decision. Defined.

(** The requests [ioctl] makes of a terminal. *)
Inductive VtIoctl :=
| KdSetModeText (vt : Z) | VtSetModeAuto (vt : Z) | VtActivate (vt : Z)
| VtDisallocate (vt : Z).

(** A return of [poll]: an error, or which of the waited for descriptors and
    the timer became readable. *)
Inductive Wakeup :=
| PollError (errno : Z)
| PollReady (observer timer watch : bool).

(** [libselinux]: whether the library and its two symbols load, and what they
    answer. *)
Record SelinuxView := mkSelinux {
  sx_library : bool;
  sx_is_enabled : option Z;
  sx_restore : option (string → option Z);
}.

(** What the inspection of a terminal and of the current boot reads besides.
    An error of [std::fs] is its [raw_os_error]; a file's status is whether it
    is a character device, and its device numbers. *)
Record InspectView := mkInspectView {
  iq_proc_names : result (list string) (option Z);
  iq_proc_uid : Z → result Z (option Z);
  iq_fd_names : Z → result (list string) (option Z);
  iq_fd_link : Z → string → result string (option Z);
  iq_fd_stat : Z → string → result (bool * Z * Z) (option Z);
  iq_tty_stat : Z → result (bool * Z * Z) (option Z);
  iq_boottime : option (Z * Z);
  (* the property [Seat] of a session, asked for as a string *)
  iq_seat_string : string → option string;
}.

Record HostView := mkHostView {
  hv_boot_id : result string IoError;
  (* processes *)
  hv_stat : Z → option string;
  hv_exe : Z → option (Z * Z);
  hv_cgroup_of : Z → option string;
  hv_self_pid : Z;
  hv_proc_exists : Z → bool;
  hv_pidfd_open : Z → bool;
  hv_pidfd_readable : Z → option bool;
  hv_status_of : Z → option string;
  (* cgroupfs *)
  hv_cgroups : string → CgLookup;
  hv_events_file : string → option string;
  (* D-Bus *)
  hv_connects : bool;
  hv_name_owner : WatchName → option string;
  hv_unit_by_invocation : list Z → result string BusError;
  hv_unit : string → option UnitProperties;
  hv_unit_call : SystemdUnitOperation → string → option BusError;
  hv_list_units : option (list (string * string));
  hv_get_session : string → result string BusError;
  hv_session : string → option SessionProperties;
  hv_list_sessions : option (list (string * Z * string * string));
  hv_terminate : string → option BusError;
  hv_session_file : string → bool;
  (* waiting *)
  hv_watch_opens : bool;
  hv_owner_signal : WatchName → option (option string);
  hv_watch_readable : WatchName → bool;
  hv_inotify : bool;
  hv_timer : bool;
  hv_wakeups : list Wakeup;
  (* terminals *)
  hv_open_tty : string → option Z;
  hv_fstat_tty : string → option (bool * Z * Z);
  hv_ioctl : VtIoctl → option Z;
  hv_vt_state : result (Z * Z) Z;
  hv_selinux : SelinuxView;
  hv_vt_observer : option Z;
  hv_active_tty : option string;
  hv_inspect : InspectView;
}.

(** ** The world *)

Inductive AuthorityWatchState :=
| WatchStable (unique_owner : string) (generation : Z)
| WatchChanged (previous_owner current_owner : string) (generation : Z)
| WatchLost (generation : Z).

Record OwnerWatch := mkOwnerWatch {
  ow_state : AuthorityWatchState;
  ow_generation : Z;
}.

Inductive RecoveryEffect :=
| EffUnit (operation : SystemdUnitOperation) (path : string)
| EffTerminateSession (id : string)
| EffIoctl (request : VtIoctl)
| EffRestoreContext (path : string)
| EffSignalWorker (pid : Z) (signal : Signal).

Record RecoveryWorld := mkWorld {
  rw_host : nat → HostView;
  rw_time : nat;
  rw_ledger : PersistentRecoveryLedger;
  rw_watches : WatchName → OwnerWatch;
  rw_effects : list (RecoveryEffect * PersistentRecoveryLedger);
}.
Abbreviation RC := (SR RecoveryWorld).

Definition tick (w : RecoveryWorld) : RecoveryWorld :=
  mkWorld (rw_host w) (S (rw_time w)) (rw_ledger w) (rw_watches w) (rw_effects w).
Definition set_rw_ledger (l : PersistentRecoveryLedger) (w : RecoveryWorld) : RecoveryWorld :=
  mkWorld (rw_host w) (rw_time w) l (rw_watches w) (rw_effects w).
Definition set_watch (n : WatchName) (watch : OwnerWatch) (w : RecoveryWorld)
    : RecoveryWorld :=
  mkWorld (rw_host w) (rw_time w) (rw_ledger w)
    (λ m, if bool_decide (m = n) then watch else rw_watches w m) (rw_effects w).
Definition log_effect (e : RecoveryEffect) (w : RecoveryWorld) : RecoveryWorld :=
  mkWorld (rw_host w) (rw_time w) (rw_ledger w) (rw_watches w)
    (rw_effects w ++ [(e, rw_ledger w)]).

(** Ask the machine, which may answer differently the next time. *)
Definition observe {E A} (f : HostView → A) : RC E A := λ w,
  (tick w, Ok (f (rw_host w (rw_time w)))).
(** Ask for something to be done. *)
Definition act {E A} (e : RecoveryEffect) (f : HostView → A) : RC E A := λ w,
  (tick (log_effect e w), Ok (f (rw_host w (rw_time w)))).
Definition observe_or {E A} (e : E) (f : HostView → option A) : RC E A :=
  let* r := observe f in sr_lift (ok_or r e).
(** A ledger operation; the boot id is read while it runs. *)
Definition on_record {A} (f : StartupRecoveryFailure)
    (m : result string IoError → SR PersistentRecoveryLedger IoError A)
    : RC StartupRecoveryFailure A :=
  let* boot := observe hv_boot_id in
  sr_map_err (λ _, f) (sr_zoom rw_ledger set_rw_ledger (m boot)).

Definition sr_ok {S E A} (m : SR S E A) : SR S E bool := λ s,
  let '(s, r) := m s in (s, Ok (is_ok r)).

(** ** D-Bus: systemd *)

Abbreviation SRE := SupervisorRecoveryError (only parsing).

Definition connect {E} (e : E) : RC E () :=
  let* connected := observe hv_connects in
  ensure connected else e.

Definition systemd_owner : RC SRE string :=
  observe_or BusUnavailable (λ h, hv_name_owner h SystemdWatch).

Definition hex_value (c : Z) : option Z :=
  if between 48 57 c then Some (c - 48)
  else if between 65 70 c then Some (c - 55)
  else if between 97 102 c then Some (c - 87) else None.

Fixpoint hex_pairs (s : list Z) : option (list Z) :=
  match s with
  | a :: b :: rest =>
      high ← hex_value a; low ← hex_value b;
      bytes ← hex_pairs rest; Some (high * 16 + low :: bytes)
  | [] => Some []
  | _ => None
  end.
Definition parse_invocation_id (value : string) : option (list Z) :=
  if str_len value =? 32 then hex_pairs (as_bytes value) else None.

(** [format!("{byte:02x}")]. *)
Definition hex_digit (n : Z) : Z := if n <? 10 then n + 48 else n + 87.
Definition hex_of_bytes (bytes : list Z) : string :=
  of_bytes (bytes ≫= λ b, [hex_digit (b / 16); hex_digit (b mod 16)]).

Definition is_absent_invocation_error (name : string) : bool :=
  str_eqb name "org.freedesktop.systemd1.NoSuchUnit"
  || str_eqb name "org.freedesktop.systemd1.NoUnitForInvocationID"
  || str_eqb name "org.freedesktop.DBus.Error.UnknownObject".

Definition resolve_invocation (invocation_id : string) : RC SRE (option string) :=
  match parse_invocation_id invocation_id with
  | None => sr_fail InvalidPayloadIdentity
  | Some invocation =>
      let* answer := observe (λ h, hv_unit_by_invocation h invocation) in
      match answer with
      | Ok path => sr_ret (Some path)
      | Err (MethodError name) =>
          if is_absent_invocation_error name then sr_ret None else sr_fail BusUnavailable
      | Err OtherBusError => sr_fail BusUnavailable
      end
  end.

Definition is_authorization_error (name : string) : bool :=
  str_eqb name "org.freedesktop.DBus.Error.AccessDenied"
  || str_eqb name "org.freedesktop.DBus.Error.InteractiveAuthorizationRequired".

Definition classify_unit_call_error (error : BusError) (operation : SystemdUnitOperation)
    : SupervisorRecoveryError :=
  match error with
  | MethodError name =>
      if is_authorization_error name
      then AuthorizationDenied "org.freedesktop.systemd1.manage-units" operation
      else BusUnavailable
  | OtherBusError => BusUnavailable
  end.

Definition unit_call (operation : SystemdUnitOperation) (path : string) : RC SRE () :=
  let* answer := act (EffUnit operation path) (λ h, hv_unit_call h operation path) in
  match answer with
  | None => sr_ret ()
  | Some error => sr_fail (classify_unit_call_error error operation)
  end.

Record SupervisorUnitObservation := mkObservation {
  uo_object_path : string;
  uo_id : string;
  uo_invocation_id : string;
  uo_control_group : string;
  uo_slice : string;
  uo_transient : bool;
  uo_active_state : string;
  uo_sub_state : string;
}.
#[export] Instance SupervisorUnitObservation_eq_dec : EqDecision SupervisorUnitObservation.
Proof. solve_decision. Defined.

Definition read_unit_observation (path : string) : RC SRE SupervisorUnitObservation :=
  let* p := observe_or BusUnavailable (λ h, hv_unit h path) in
  sr_ret (mkObservation path (up_id p) (hex_of_bytes (up_invocation_id p))
            (up_control_group p) (up_slice p) (up_transient p) (up_active_state p)
            (up_sub_state p)).

Definition unit_is_terminal (o : SupervisorUnitObservation) : bool :=
  (str_eqb (uo_active_state o) "inactive" || str_eqb (uo_active_state o) "failed")
  && (str_eqb (uo_sub_state o) "dead" || str_eqb (uo_sub_state o) "failed"
      || str_eqb (uo_sub_state o) "exited").

Definition user_slice (uid : Z) : string := "user-" +:+ pretty uid +:+ ".slice".
Definition scope_control_group (uid : Z) (unit_name : string) : string :=
  "/user.slice/" +:+ user_slice uid +:+ "/" +:+ unit_name.

Definition validate_unit_observation (identity : PayloadScopeIdentity)
    (o : SupervisorUnitObservation) (terminal_control_group : option string)
    : result () SRE :=
  let expected := scope_control_group (psi_expected_uid identity) (psi_unit_name identity) in
  let control_group_matches :=
    str_eqb (uo_control_group o) expected
    || (bool_decide (terminal_control_group = Some expected)
        && str_is_empty (uo_control_group o) && unit_is_terminal o) in
  if negb (str_eqb (uo_id o) (psi_unit_name identity))
     || negb (str_eqb (uo_invocation_id o) (psi_invocation_id identity))
     || negb (str_eqb (uo_slice o) (user_slice (psi_expected_uid identity)))
     || negb (uo_transient o) || negb control_group_matches
  then Err BoundaryIdentityChanged else Ok ().

(** ** D-Bus: logind *)

(** [LogindSessionId::new]. *)
Definition LogindSessionId_new (value : string) : option string :=
  if negb (str_is_empty value) && (str_len value <=? 128)
     && negb (str_contains_byte NUL value)
  then Some value else None.

Definition is_absent_session_error (name : string) : bool :=
  str_eqb name "org.freedesktop.login1.NoSuchSession"
  || str_eqb name "org.freedesktop.DBus.Error.UnknownObject".

Definition logind_owner : RC SRE string :=
  connect LogindUnavailable ;;;
  observe_or LogindUnavailable (λ h, hv_name_owner h LogindWatch).

Definition logind_session_exists (id : string) : RC SRE bool :=
  connect LogindUnavailable ;;;
  let* answer := observe (λ h, hv_get_session h id) in
  match answer with
  | Ok _ => sr_ret true
  | Err (MethodError name) =>
      if is_absent_session_error name then sr_ret false else sr_fail LogindUnavailable
  | Err OtherBusError => sr_fail LogindUnavailable
  end.

Definition read_logind_identity (path id : string)
    : RC SRE SupervisorLogindSessionIdentity :=
  let* p := observe_or LogindUnavailable (λ h, hv_session h path) in
  ensure str_eqb (sp_id p) id && negb (sp_uid p =? 0) && negb (sp_leader p =? 0)
         && negb (str_is_empty (sp_name p)) && negb (str_is_empty (sp_seat p))
         && negb (sp_vt_number p =? 0)
         && (str_eqb (sp_type p) "wayland" || str_eqb (sp_type p) "x11")
         && str_eqb (sp_class p) "user" && negb (str_is_empty (sp_state p))
         && negb (str_is_empty (sp_scope p))
    else LogindIdentityChanged ;;;
  sr_ret (mkLogindIdentity id path (sp_uid p) (sp_name p) (sp_leader p) (sp_seat p)
            (sp_vt_number p) (sp_type p) (sp_class p)
            (default EmptyString (sp_desktop p)) (sp_state p) (sp_scope p)).

Definition resolve_logind_identity (payload : PayloadScopeIdentity)
    : RC SRE SupervisorLogindSessionIdentity :=
  connect LogindUnavailable ;;;
  let* answer := observe (λ h, hv_get_session h (psi_logind_session_id payload)) in
  match answer with
  | Ok path => read_logind_identity path (psi_logind_session_id payload)
  | Err _ => sr_fail LogindUnavailable
  end.

(** [LogindRemovalObserver::open]. *)
Definition removal_observer_open (id : string) : RC SRE () :=
  ensure negb (str_is_empty id || (128 <? str_len id)
               || str_any (λ c, negb (is_ascii_alphanumeric c)
                                && negb (bool_decide (c = "-"%char))
                                && negb (bool_decide (c = "_"%char))) id)
    else LogindIdentityChanged ;;;
  let* opened := observe hv_inotify in
  ensure opened else LogindUnavailable.

(** The loop of [LogindRemovalObserver::wait]; its timer expires after the
    last wakeup. *)
Fixpoint removal_wait (wakeups : list Wakeup) (id : string) : RC SRE () :=
  match wakeups with
  | [] => sr_fail LogindRemovalTimedOut
  | PollError errno :: rest =>
      if errno =? EINTR then removal_wait rest id else sr_fail LogindUnavailable
  | PollReady observer timer _ :: rest =>
      if timer then sr_fail LogindRemovalTimedOut
      else if negb observer then removal_wait rest id
      else
        let* there := observe (λ h, hv_session_file h id) in
        if there then removal_wait rest id else sr_ret ()
  end.
Definition removal_observer_wait (id : string) : RC SRE () :=
  let* there := observe (λ h, hv_session_file h id) in
  if negb there then sr_ret ()
  else
    let* armed := observe hv_timer in
    ensure armed else BoundaryObserverUnavailable ;;;
    let* wakeups := observe hv_wakeups in
    removal_wait wakeups id.

Definition terminate_logind_session_raw (identity : SupervisorLogindSessionIdentity)
    : RC SRE SupervisorLogindCleanupResult :=
  let id := sli_id identity in
  connect LogindUnavailable ;;;
  let* answer := observe (λ h, hv_get_session h id) in
  match answer with
  | Err OtherBusError => sr_fail LogindUnavailable
  | Err (MethodError name) =>
      if is_absent_session_error name then sr_ret LogindAlreadyGone
      else sr_fail LogindUnavailable
  | Ok path =>
      ensure str_eqb path (sli_object_path identity) else LogindIdentityChanged ;;;
      let* observed := read_logind_identity path id in
      ensure bool_decide (observed = identity) else LogindIdentityChanged ;;;
      removal_observer_open id ;;;
      let* answer := act (EffTerminateSession id) (λ h, hv_terminate h id) in
      match answer with
      | None => removal_observer_wait id ;;; sr_ret LogindRemoved
      | Some OtherBusError => sr_fail LogindUnavailable
      | Some (MethodError name) =>
          if is_absent_session_error name then
            let* there := observe (λ h, hv_session_file h id) in
            if there then sr_fail LogindUnavailable else sr_ret LogindAlreadyGone
          else sr_fail LogindUnavailable
      end
  end.

(** ** Owner watches *)

Definition read_watch {E} (n : WatchName) : RC E AuthorityWatchState := λ w,
  (w, Ok (ow_state (rw_watches w n))).

(** The generation advances; a stable watch becomes [next]. *)
Definition end_watch {E} (n : WatchName) (next : string → Z → AuthorityWatchState)
    : RC E () := λ w,
  let watch := rw_watches w n in
  let generation := u64_wrapping_add (ow_generation watch) 1 in
  let state := match ow_state watch with
               | WatchStable owner _ => next owner generation
               | state => state
               end in
  (set_watch n (mkOwnerWatch state generation) w, Ok ()).
Definition mark_lost {E} (n : WatchName) : RC E () := end_watch n (λ _, WatchLost).
Definition invalidate {E} (n : WatchName) (previous current : string) : RC E () :=
  end_watch n (λ _, WatchChanged previous current).

(** The watching thread has received [NameOwnerChanged] since it was last
    looked at. *)
Definition deliver_signal {E} (n : WatchName) : RC E () :=
  let* signal := observe (λ h, hv_owner_signal h n) in
  match signal with
  | None => sr_ret ()
  | Some (Some current) => end_watch n (λ owner, WatchChanged owner current)
  | Some None => mark_lost n
  end.

Definition watch_state {E} (n : WatchName) : RC E AuthorityWatchState :=
  deliver_signal n ;;; read_watch n.

Definition current_owner (n : WatchName) : RC SRE string :=
  connect BusUnavailable ;;; observe_or BusUnavailable (λ h, hv_name_owner h n).

(** [OwnerWatch::stable]. *)
Definition watch_stable (n : WatchName) : RC SRE () :=
  let* readable := observe (λ h, hv_watch_readable h n) in
  (if readable then mark_lost n else sr_ret ()) ;;;
  let* state := watch_state n in
  match state with
  | WatchStable unique_owner _ => λ w,
      match current_owner n w with
      | (w, Ok current) =>
          if str_eqb current unique_owner then (w, Ok ())
          else (invalidate n unique_owner current ;;; sr_fail BusUnavailable) w
      | (w, Err error) => (mark_lost n ;;; sr_fail error) w
      end
  | _ => sr_fail BusUnavailable
  end.

Record AuthoritySnapshot := mkAuthority {
  as_unique_owner : string;
  as_generation : Z;
}.

Definition stable_snapshot (n : WatchName) : RC SRE AuthoritySnapshot :=
  watch_stable n ;;;
  let* state := watch_state n in
  match state with
  | WatchStable owner generation => sr_ret (mkAuthority owner generation)
  | _ => sr_fail BusUnavailable
  end.

Definition still_authorizes (n : WatchName) (snapshot : AuthoritySnapshot) : RC SRE () :=
  watch_stable n ;;;
  let* state := watch_state n in
  match state with
  | WatchStable owner generation =>
      ensure str_eqb owner (as_unique_owner snapshot)
             && (generation =? as_generation snapshot) else BusUnavailable
  | _ => sr_fail BusUnavailable
  end.

Definition watch_open (n : WatchName) (initial_owner : string) : RC SRE () :=
  let* opened := observe hv_watch_opens in
  ensure opened else BusUnavailable ;;;
  sr_modify (set_watch n (mkOwnerWatch (WatchStable initial_owner 0) 0)).

Definition open_recovery_owner_watches : RC SRE () :=
  connect BusUnavailable ;;;
  let* systemd := systemd_owner in
  let* logind := logind_owner in
  watch_open SystemdWatch systemd ;;;
  watch_open LogindWatch logind.

(** ** Processes *)

Definition rehydrate_process_identity {E} (pid : Z) (expected_starttime : option Z)
    (expected_executable : option (Z * Z)) (expected_cgroup : option string)
    : RC E PersistedProcessIdentity :=
  if (pid =? 0) || bool_decide (expected_starttime = None) then sr_ret ProcessIndeterminate
  else
  let* stat := observe (λ h, hv_stat h pid) in
  match stat with
  | None => sr_ret OriginalGone
  | Some _ =>
  match proc_starttime stat with
  | None => sr_ret ProcessIndeterminate
  | Some starttime =>
  if negb (bool_decide (Some starttime = expected_starttime)) then sr_ret PidReused
  else
  let* exe := observe (λ h, hv_exe h pid) in
  let exe_check := match expected_executable with
                   | None => None
                   | Some expected =>
                       match exe with
                       | None => Some ProcessIndeterminate
                       | Some observed =>
                           if bool_decide (observed = expected) then None
                           else Some PidReused
                       end
                   end in
  match exe_check with
  | Some verdict => sr_ret verdict
  | None =>
  let* cgroup := observe (λ h, hv_cgroup_of h pid) in
  let cgroup_check := match expected_cgroup with
                      | None => None
                      | Some expected =>
                          match proc_cgroup cgroup with
                          | None => Some ProcessIndeterminate
                          | Some observed =>
                              if str_eqb observed expected then None else Some PidReused
                          end
                      end in
  match cgroup_check with
  | Some verdict => sr_ret verdict
  | None =>
  let* opened := observe (λ h, hv_pidfd_open h pid) in
  if negb opened then sr_ret ProcessIndeterminate
  else
  let* readable := observe (λ h, hv_pidfd_readable h pid) in
  sr_ret (match readable with
          | None => ProcessIndeterminate
          | Some true => OriginalGone
          | Some false => OriginalStillAlive
          end)
  end end end end.

(** [ensure_outside_boundary] of a process. *)
Definition pid_outside_boundary (pid : Z) (boundary : string) : RC SRE () :=
  let* content := observe (λ h, hv_cgroup_of h pid) in
  let* there := observe (λ h, hv_proc_exists h pid) in
  sr_lift (ensure_outside_boundary content there boundary).

Definition boundary_state (control_group : string) : RC SRE SupervisorBoundaryState :=
  let* tree := observe hv_cgroups in
  sr_lift (read_supervisor_boundary_state tree control_group).

(** [CgroupEventsObserver::refresh] on the content of the events file. *)
Definition observer_refresh (control_group : string) : RC SRE () :=
  let* content := observe (λ h, hv_events_file h control_group) in
  match content with
  | None => sr_fail BoundaryObserverUnavailable
  | Some bytes =>
      ensure (str_len bytes <=? MAX_CGROUP_FILE_BYTES)
             && bool_decide (is_Some (parse_populated bytes))
        else BoundaryObserverUnavailable
  end.
Definition observer_open (control_group : string) : RC SRE () :=
  ensure cgroup_path_valid control_group else InvalidPayloadIdentity ;;;
  observer_refresh control_group.
