(* ===== verification/VtHolders.v ===== *)
(** * Who holds a busy terminal

    [vt_busy.rs], [vt_busy_holders.rs] and [vt_busy_support.rs] of
    [launcher/recovery].  When the kernel refuses to give a terminal up, the
    supervisor looks in [/proc] for processes with an open descriptor of it,
    records them and classifies what it found.  The inspection only reads: a
    process is recorded when a descriptor of it leads to the terminal's device
    and its start time did not change meanwhile. *)

From stdpp Require Import base gmap sets list strings pretty.
From Stdlib Require Import ZArith Lia.
From S2P Require Import Prelude Text Paths DirFs RecoveryTypes LedgerTaxonomy.
From S2P Require Import Ledger.
From S2P Require Import PreviousBoot PreCommit SameBoot Admission AdminRecovery.
From S2P Require Import WorkerRecord CgroupState HostWorld.
#[local] Open Scope niralis_scope.

Definition MAX_VT_BUSY_HOLDERS : Z := 32.
Definition MAX_VT_INSPECTION_FAILURES : Z := 32.
Definition ENOTTY : Z := 25.

(** [raw_os_error().unwrap_or(libc::EIO)]. *)
Definition errno_of (error : option Z) : Z := default EIO error.

Definition device_identity (major minor : Z) : DeviceIdentity :=
  mkDeviceIdentity major minor true.

Definition push_failure (failures : list VtInspectionFailure) (failure : VtInspectionFailure)
    : list VtInspectionFailure :=
  if Z.of_nat (length failures) <? MAX_VT_INSPECTION_FAILURES
  then failures ++ [failure] else failures.

(** [tv_sec as u64] and [tv_nsec as u64] wrap; the sum saturates. *)
Definition boottime_ns (clock : option (Z * Z)) : Z :=
  match clock with
  | Some (sec, nsec) =>
      u64_saturating_add (Z.min u64_max (sec mod 2 ^ 64 * 1000000000)) (nsec mod 2 ^ 64)
  | None => 0
  end.

(** ** The search *)

(** What [enumerate_holders] has collected. *)
Record Findings := mkFindings {
  fi_holders : list VtHolderIdentity;
  fi_truncated : bool;
  fi_failures : list VtInspectionFailure;
}.
Definition fail_with (failure : VtInspectionFailure) (f : Findings) : Findings :=
  mkFindings (fi_holders f) (fi_truncated f) (push_failure (fi_failures f) failure).
(** A file that is gone is no failure. *)
Definition fail_unless_gone (error : option Z) (failure : Z → VtInspectionFailure)
    (f : Findings) : Findings :=
  if bool_decide (error = Some ENOENT) then f else fail_with (failure (errno_of error)) f.
Definition add_holder (holder : VtHolderIdentity) (f : Findings) : Findings :=
  mkFindings (fi_holders f ++ [holder]) (fi_truncated f) (fi_failures f).

Definition asked {E A} (f : InspectView → A) : RC E A := observe (λ h, f (hv_inspect h)).

Definition vt_path (n : Z) : string := "/dev/tty" +:+ pretty n.
(** [PathBuf]s are equal when their components are. *)
Definition same_path (a b : string) : bool := bool_decide (components a = components b).

(** A descriptor whose link names the terminal. *)
Definition inspect_candidate {E} (target : DeviceIdentity) (pid starttime uid fd : Z)
    (name : string) (f : Findings) : RC E Findings :=
  let* metadata := asked (λ q, iq_fd_stat q pid name) in
  match metadata with
  | Err error => sr_ret (fail_unless_gone error (VifFdInspection pid fd) f)
  | Ok (is_char_device, major, minor) =>
      if negb is_char_device || negb (bool_decide (device_identity major minor = target))
      then sr_ret f
      else
        let* stat := observe (λ h, hv_stat h pid) in
        if negb (bool_decide (proc_starttime stat = Some starttime)) then sr_ret f
        else if Z.of_nat (length (fi_holders f)) =? MAX_VT_BUSY_HOLDERS
        then sr_ret (mkFindings (fi_holders f) true (fi_failures f))
        else
          let* executable := observe (λ h, hv_exe h pid) in
          let* cgroup := observe (λ h, hv_cgroup_of h pid) in
          sr_ret (add_holder (mkVtHolderIdentity pid starttime uid fd executable
                                (cgroup ≫= λ text, head (unified_lines text)) None) f)
  end.

Definition inspect_fd {E} (target : DeviceIdentity) (pid starttime uid : Z)
    (name : string) (f : Findings) : RC E Findings :=
  match parse_u32 name with
  | None => sr_ret f
  | Some fd =>
      let* link := asked (λ q, iq_fd_link q pid name) in
      match link with
      | Err error => sr_ret (fail_unless_gone error (VifFdInspection pid fd) f)
      | Ok link =>
          if same_path link (vt_path (di_minor target))
          then inspect_candidate target pid starttime uid fd name f
          else sr_ret f
      end
  end.

(** A [for] loop that threads what was found. *)
Fixpoint for_each {E} (step : string → Findings → RC E Findings) (names : list string)
    (f : Findings) : RC E Findings :=
  match names with
  | [] => sr_ret f
  | name :: rest => let* f := step name f in for_each step rest f
  end.

Definition inspect_process {E} (target : DeviceIdentity) (name : string) (f : Findings)
    : RC E Findings :=
  match parse_u32 name with
  | None => sr_ret f
  | Some pid =>
      let* stat := observe (λ h, hv_stat h pid) in
      match proc_starttime stat with
      | None => sr_ret f
      | Some starttime =>
          let* uid := asked (λ q, iq_proc_uid q pid) in
          match uid with
          | Err error => sr_ret (fail_with (VifProcessIdentity pid (errno_of error)) f)
          | Ok uid =>
              let* fds := asked (λ q, iq_fd_names q pid) in
              match fds with
              | Err error => sr_ret (fail_unless_gone error (VifProcessIdentity pid) f)
              | Ok fds => for_each (inspect_fd target pid starttime uid) fds f
              end
          end
      end
  end.

Definition enumerate_holders {E} (target : DeviceIdentity) (f : Findings) : RC E Findings :=
  let* entries := asked iq_proc_names in
  match entries with
  | Err error => sr_ret (fail_with (VifProcEnumeration (errno_of error)) f)
  | Ok names => for_each (inspect_process target) names f
  end.

(** ** The report *)

(** [VtKnownProcess]: a pid and, when it is known, its start time. *)
Definition VtKnownProcess : Type := Z * option Z.

Definition target_device {E} (target_vt : Z) (failures : list VtInspectionFailure)
    : RC E (option DeviceIdentity * list VtInspectionFailure) :=
  let* metadata := asked (λ q, iq_tty_stat q target_vt) in
  sr_ret (match metadata with
          | Ok (true, major, minor) => (Some (device_identity major minor), failures)
          | Ok _ => (None, push_failure failures (VifTargetDevice ENOTTY))
          | Err error => (None, push_failure failures (VifTargetDevice (errno_of error)))
          end).

Definition active_vt_or_failure {E} (failures : list VtInspectionFailure)
    : RC E (option Z * list VtInspectionFailure) :=
  let* opened := observe (λ h, hv_open_tty h "/dev/tty0") in
  match opened with
  | Some errno => sr_ret (None, push_failure failures (VifActiveVt errno))
  | None =>
      let* state := observe hv_vt_state in
      sr_ret (match state with
              | Ok (active, _) => (Some active, failures)
              | Err errno => (None, push_failure failures (VifActiveVt errno))
              end)
  end.

(** A holder that is one of the session's own processes. *)
Definition known_holder (known : list VtKnownProcess) (holder : VtHolderIdentity) : bool :=
  existsb (λ process, (process.1 =? vh_pid holder)
             && bool_decide (is_Some process.2)
             && bool_decide (process.2 = Some (vh_starttime holder))) known.

Definition classify_busy (known : list VtKnownProcess) (target : option DeviceIdentity)
    (active : option Z) (target_is_foreground : option bool) (f : Findings)
    : VtBusyClassification :=
  if existsb (known_holder known) (fi_holders f) then InternalNiralisHolder
  else if bool_decide (target_is_foreground = Some true) then TargetStillForeground
  else if bool_decide (target = None) || bool_decide (active = None)
          || negb (bool_decide (fi_failures f = []))
  then VbcInspectionUnavailable
  else if (1 <? Z.of_nat (length (fi_holders f))) || fi_truncated f
  then MultipleVisibleUserspaceHolders
  else if Z.of_nat (length (fi_holders f)) =? 1 then VisibleUserspaceHolder
  else KernelBusyUnattributed.

Definition inspect_vt_busy {E} (target_vt : Z) (known : list VtKnownProcess)
    : RC E VtBusyProvenance :=
  let* device := target_device target_vt [] in
  let '(target, failures) := device in
  let* foreground := active_vt_or_failure failures in
  let '(active, failures) := foreground in
  let f := mkFindings [] false failures in
  let* f := match target with
            | Some device => enumerate_holders device f
            | None => sr_ret f
            end in
  let target_is_foreground := (λ value, value =? target_vt) <$> active in
  let classification := classify_busy known target active target_is_foreground f in
  let* clock := asked iq_boottime in
  sr_ret (mkVtBusyProvenance target_vt active target_is_foreground target (fi_holders f)
            (fi_truncated f) (fi_failures f) classification (boottime_ns clock)).
