(* ===== verification/UnitPin.v ===== *)
(** * Holding on to the payload's unit

    [launcher/recovery/systemd_pin.rs] and [systemd_rehydrate.rs]: a reference
    on the systemd unit of the payload, taken once its identity was read
    twice, through which the payload can be killed and the unit released;
    the pin of a live session and the one a recovery makes from a durable
    record.  [unknown_scope.rs]: payload units no record accounts for. *)

From stdpp Require Import base gmap sets list strings pretty.
From Stdlib Require Import ZArith Lia.
From S2P Require Import Prelude Text DirFs RecoveryTypes LedgerTaxonomy Ledger.
From S2P Require Import PreviousBoot PreCommit SameBoot Finalization Startup.
From S2P Require Import Admission AdminRecovery WorkerRecord CgroupState.
From S2P Require Import HostWorld.
#[local] Open Scope niralis_scope.

(** ** The pin *)

Record PinnedInvocationInner := mkPinned {
  pin_systemd_owner : string;
  pin_identity : PayloadScopeIdentity;
  pin_object_path : string;
  pin_cgroup : string;
  pin_slice : string;
  pin_worker_pid : Z;
  pin_launcher_pid : Z;
  pin_reference_held : bool;
  pin_emergency_kill_requested : bool;
}.

(** A method of the pin: it acts on the world and on its own two flags. *)
Abbreviation PN := (SR (RecoveryWorld * PinnedInvocationInner)).
Definition in_world {E A} (m : RC E A) : PN E A := sr_zoom fst (λ w s, (w, s.2)) m.
Definition this_pin {E} : PN E PinnedInvocationInner := λ s, (s, Ok s.2).
Definition set_flags {E} (held requested : bool) : PN E () := λ s,
  let '(w, p) := s in
  (w, mkPinned (pin_systemd_owner p) (pin_identity p) (pin_object_path p) (pin_cgroup p)
        (pin_slice p) (pin_worker_pid p) (pin_launcher_pid p) held requested, Ok ()).

Definition validate_owner : PN SupervisorRecoveryError () :=
  let* p := this_pin in
  let* owner := in_world systemd_owner in
  ensure str_eqb owner (pin_systemd_owner p) else BusUnavailable.

Definition revalidate (allow_terminal_cgroup_clear : bool)
    : PN SupervisorRecoveryError SupervisorUnitObservation :=
  validate_owner ;;;
  let* p := this_pin in
  let* path := in_world (resolve_invocation (psi_invocation_id (pin_identity p))) in
  let* path := sr_lift (ok_or path BoundaryIdentityChanged) in
  ensure str_eqb path (pin_object_path p) else BoundaryIdentityChanged ;;;
  let* observation := in_world (read_unit_observation path) in
  sr_lift (validate_unit_observation (pin_identity p) observation
             (if allow_terminal_cgroup_clear then Some (pin_cgroup p) else None)) ;;;
  ensure str_eqb (uo_slice observation) (pin_slice p) else BoundaryIdentityChanged ;;;
  in_world (pid_outside_boundary (pin_worker_pid p) (pin_cgroup p)) ;;;
  in_world (pid_outside_boundary (pin_launcher_pid p) (pin_cgroup p)) ;;;
  validate_owner ;;;
  sr_ret observation.

Definition pin_boundary_state : PN SupervisorRecoveryError SupervisorBoundaryState :=
  let* p := this_pin in in_world (boundary_state (pin_cgroup p)).

Definition request_emergency_kill : PN SupervisorRecoveryError () :=
  let* p := this_pin in
  ensure negb (pin_emergency_kill_requested p) else BusDeliveryIndeterminate ;;;
  revalidate false ;;;
  let* state := pin_boundary_state in
  if vacant_state state then sr_ret ()
  else
    set_flags (pin_reference_held p) true ;;;
    sr_map_err (λ error, match error with
                         | BusUnavailable => BusDeliveryIndeterminate
                         | other => other
                         end)
      (in_world (unit_call SuoKill (pin_object_path p))) ;;;
    sr_map_err (λ _, BusDeliveryIndeterminate) validate_owner.

Definition pin_release : PN SupervisorRecoveryError () :=
  let* p := this_pin in
  if negb (pin_reference_held p) then sr_ret ()
  else
    validate_owner ;;;
    sr_map_err (λ _, SupervisorUnrefFailed)
      (in_world (unit_call SuoUnref (pin_object_path p))) ;;;
    set_flags false (pin_emergency_kill_requested p).

(** ** Taking the reference *)

(** [let _ = unit_call(.., "Unref", ..)]. *)
Definition unref_unit {E} (path : string) : RC E () :=
  act (EffUnit SuoUnref path) (λ _, ()).

(** Run [m]; when it fails, give the reference on [path] back. *)
Definition or_unref {A} (path : string) (m : RC SupervisorRecoveryError A)
    : RC SupervisorRecoveryError A := λ w,
  match m w with
  | (w, Ok a) => (w, Ok a)
  | (w, Err error) => (unref_unit path ;;; sr_fail error) w
  end.

(** [SupervisorLeaderPidfd::observed_dead]. *)
Definition observed_dead (pid : Z) : RC SupervisorRecoveryError bool :=
  observe_or LeaderPidfdUnavailable (λ h, hv_pidfd_readable h pid).

Definition leader_pidfd_open (pid : Z) : RC SupervisorRecoveryError () :=
  ensure negb ((pid =? 0) || (2 ^ 31 - 1 <? pid)) else LeaderPidfdUnavailable ;;;
  let* opened := observe (λ h, hv_pidfd_open h pid) in
  ensure opened else LeaderPidfdUnavailable ;;;
  let* dead := observed_dead pid in
  ensure negb dead else LeaderAlreadyDead.

(** [PinnedInvocationInner::acquire], with the pidfd of the leader open. *)
Definition acquire (identity : PayloadScopeIdentity)
    (leader_pid worker_pid launcher_pid fd_pid : Z)
    : RC SupervisorRecoveryError PinnedInvocationInner :=
  ensure validate_scope identity && (fd_pid =? leader_pid) else InvalidPayloadIdentity ;;;
  let* dead := observed_dead leader_pid in
  ensure negb dead else InvalidPayloadIdentity ;;;
  connect BusUnavailable ;;;
  let* owner := systemd_owner in
  let* path := resolve_invocation (psi_invocation_id identity) in
  let* path := sr_lift (ok_or path InvalidPayloadIdentity) in
  let* first := read_unit_observation path in
  sr_lift (validate_unit_observation identity first None) ;;;
  unit_call SuoRef path ;;;
  let* second_path := resolve_invocation (psi_invocation_id identity) in
  let* second_path := sr_lift (ok_or second_path BoundaryIdentityChanged) in
  (if str_eqb second_path path then sr_ret ()
   else unref_unit path ;;; sr_fail BoundaryIdentityChanged) ;;;
  let* second := read_unit_observation second_path in
  (if bool_decide (first = second) then sr_ret ()
   else unref_unit path ;;; sr_fail BoundaryIdentityChanged) ;;;
  or_unref path
    (sr_lift (validate_unit_observation identity second None) ;;;
     let* now := systemd_owner in
     ensure str_eqb now owner else BusUnavailable ;;;
     let* content := observe (λ h, hv_cgroup_of h leader_pid) in
     let* leader_cgroup := sr_lift (read_pid_cgroup content) in
     let* dead := observed_dead leader_pid in
     ensure negb dead && str_eqb leader_cgroup (uo_control_group second)
       else InvalidPayloadIdentity ;;;
     pid_outside_boundary worker_pid (uo_control_group second) ;;;
     pid_outside_boundary launcher_pid (uo_control_group second)) ;;;
  sr_ret (mkPinned owner identity path (uo_control_group second) (uo_slice second)
            worker_pid launcher_pid true false).

(** ** The pin of a recovery *)

Record RecoveryInvocationBinding := mkInvocationBinding {
  rb_boot_id : BootIdentity;
  rb_record_id : string;
  rb_lifecycle_id : string;
  rb_record_sequence : Z;
  rb_invocation_id : string;
  rb_control_group : string;
  rb_owner_generation : Z;
}.
Record RecoveryPinnedInvocationUnit := mkRecoveryPin {
  rpn_inner : PinnedInvocationInner;
  rpn_binding : RecoveryInvocationBinding;
}.

Abbreviation RN := (SR (RecoveryWorld * RecoveryPinnedInvocationUnit)).
Definition world_of {E A} (m : RC E A) : RN E A := sr_zoom fst (λ w s, (w, s.2)) m.
Definition inner_of {E A} (m : PN E A) : RN E A :=
  sr_zoom (λ s, (s.1, rpn_inner s.2)) (λ t s, (t.1, mkRecoveryPin t.2 (rpn_binding s.2))) m.
Definition recovery_pin {E} : RN E RecoveryPinnedInvocationUnit := λ s, (s, Ok s.2).

(** What the pin reports of itself to a boundary proof. *)
Definition pinned_unit (p : RecoveryPinnedInvocationUnit) : PinnedUnit :=
  mkPin (rb_invocation_id (rpn_binding p)) (pin_cgroup (rpn_inner p))
    (rb_owner_generation (rpn_binding p)).

Definition binds (b : RecoveryInvocationBinding) (record : PersistentRecoveryRecord)
    : bool :=
  str_eqb (rb_record_id b) (pr_lifecycle_id record)
  && str_eqb (rb_lifecycle_id b) (pr_lifecycle_id record)
  && str_eqb (rb_invocation_id b) (default EmptyString (pr_invocation_id record))
  && str_eqb (rb_control_group b) (default EmptyString (pr_control_group record)).

Definition rebind (authority : SameBootRecoveryAuthority)
    (record : PersistentRecoveryRecord) : RN SupervisorRecoveryError () :=
  let* p := recovery_pin in
  let b := rpn_binding p in
  ensure same_boot_validates authority record && binds b record
    else BoundaryIdentityChanged ;;;
  λ s, ((s.1, mkRecoveryPin (rpn_inner p)
                (mkInvocationBinding (rb_boot_id b) (rb_record_id b) (rb_lifecycle_id b)
                   (pr_sequence record) (rb_invocation_id b) (rb_control_group b)
                   (rb_owner_generation b))), Ok ()).

Definition validate_binding (authority : SameBootRecoveryAuthority)
    (record : PersistentRecoveryRecord) (permit : RecoveryOperationPermit)
    : RN SupervisorRecoveryError () :=
  let* p := recovery_pin in
  let b := rpn_binding p in
  ensure same_boot_validates authority record
         && bool_decide (rb_boot_id b = sa_current_boot authority)
         && binds b record
         && (rb_record_sequence b =? pr_sequence record)
         && permit_matches permit record (sa_current_boot authority) (op_attempt_id permit)
    else BoundaryIdentityChanged ;;;
  inner_of validate_owner.

Definition request_recovery_emergency_kill (authority : SameBootRecoveryAuthority)
    (record : PersistentRecoveryRecord) (permit : RecoveryOperationPermit)
    : RN SupervisorRecoveryError () :=
  validate_binding authority record permit ;;;
  inner_of request_emergency_kill.

Definition release_recovery (authority : SameBootRecoveryAuthority)
    (record : PersistentRecoveryRecord) (permit : RecoveryOperationPermit)
    (proof : AuthorizedRecoveryBoundaryProof) : RN SupervisorRecoveryError () :=
  validate_binding authority record permit ;;;
  let* p := recovery_pin in
  ensure authorized_matches_pin proof record (pinned_unit p)
    else BoundaryIdentityChanged ;;;
  inner_of pin_release.

(** The identity is read again under the reference; a difference gives the
    reference back. *)
Definition rehydrate (identity : PayloadScopeIdentity) (worker_pid launcher_pid : Z)
    (authority : SameBootRecoveryAuthority) (record : PersistentRecoveryRecord)
    : RC SupervisorRecoveryError RecoveryPinnedInvocationUnit :=
  ensure validate_scope identity && negb (worker_pid =? 0) && negb (launcher_pid =? 0)
         && same_boot_validates authority record
    else InvalidPayloadIdentity ;;;
  ensure bool_decide (pr_invocation_id record = Some (psi_invocation_id identity))
         && bool_decide (is_Some (pr_control_group record))
    else BoundaryIdentityChanged ;;;
  connect BusUnavailable ;;;
  let* owner := systemd_owner in
  let* path := resolve_invocation (psi_invocation_id identity) in
  let* path := sr_lift (ok_or path BoundaryIdentityChanged) in
  let* first := read_unit_observation path in
  sr_lift (validate_unit_observation identity first None) ;;;
  unit_call SuoRef path ;;;
  let* second := or_unref path
    (let* second_path := resolve_invocation (psi_invocation_id identity) in
     let* second_path := sr_lift (ok_or second_path BoundaryIdentityChanged) in
     ensure str_eqb second_path path else BoundaryIdentityChanged ;;;
     let* second := read_unit_observation second_path in
     sr_lift (validate_unit_observation identity second None) ;;;
     pid_outside_boundary worker_pid (uo_control_group second) ;;;
     pid_outside_boundary launcher_pid (uo_control_group second) ;;;
     ensure bool_decide (first = second) else BoundaryIdentityChanged ;;;
     let* now := systemd_owner in
     ensure str_eqb now owner else BoundaryIdentityChanged ;;;
     sr_ret second) in
  sr_ret (mkRecoveryPin
    (mkPinned owner identity path (uo_control_group second) (uo_slice second) worker_pid
       launcher_pid true false)
    (mkInvocationBinding (sa_current_boot authority) (pr_lifecycle_id record)
       (pr_lifecycle_id record) (pr_sequence record) (psi_invocation_id identity)
       (uo_control_group second) 0)).

(** ** Units no record accounts for *)

Definition represents (record : PersistentRecoveryRecord) (id path invocation : string)
    : bool :=
  bool_decide (pr_payload_unit record = Some id)
  || bool_decide (pr_object_path record = Some path)
  || bool_decide (pr_invocation_id record = Some invocation).

Definition known_scope (records : list PersistentRecoveryRecord)
    (id path invocation : string) : bool :=
  match filter (λ record, represents record id path invocation = true) records with
  | [record] =>
      bool_decide (pr_payload_unit record = Some id)
      && bool_decide (pr_object_path record = Some path)
      && bool_decide (pr_invocation_id record = Some invocation)
  | _ => false
  end.

Definition same_unit (a b : SupervisorUnitObservation) : bool :=
  str_eqb (uo_id a) (uo_id b) && str_eqb (uo_invocation_id a) (uo_invocation_id b)
  && str_eqb (uo_control_group a) (uo_control_group b)
  && str_eqb (uo_slice a) (uo_slice b) && bool_decide (uo_transient a = uo_transient b).

(** Whether one listed unit is a payload scope the records do not explain. *)
Definition scope_unknown (records : list PersistentRecoveryRecord) (id path : string)
    : RC SupervisorRecoveryError bool :=
  if negb (String.prefix "niralis-payload-" id) || negb (str_ends_with ".scope" id)
  then sr_ret false
  else
    let* listed := read_unit_observation path in
    let* canonical := resolve_invocation (uo_invocation_id listed) in
    match canonical with
    | None => sr_ret true
    | Some canonical =>
        let* observation := read_unit_observation canonical in
        sr_ret (negb (same_unit listed observation)
                || negb (known_scope records id canonical (uo_invocation_id observation)))
    end.

Fixpoint any_unknown (records : list PersistentRecoveryRecord)
    (units : list (string * string)) : RC SupervisorRecoveryError bool :=
  match units with
  | [] => sr_ret false
  | (id, path) :: rest =>
      let* unknown := scope_unknown records id path in
      let* others := any_unknown records rest in
      sr_ret (unknown || others)
  end.

Definition inventory_unknown_payload_scopes (records : list PersistentRecoveryRecord)
    : RC StartupRecoveryFailure UnknownScopeInventory :=
  connect SrfUnknownPayloadScope ;;;
  let* units := observe_or SrfUnknownPayloadScope hv_list_units in
  let* unknown := sr_map_err (λ _, SrfUnknownPayloadScope) (any_unknown records units) in
  sr_ret (if unknown then GlobalQuarantine else ScopesNone).
