(* ===== verification/VtControl.v ===== *)
(** * The virtual terminal

    [launcher/recovery/vt.rs]: giving a session's terminal back, from text mode
    to its disallocation; [vt_verification.rs]: what a terminal's state proves;
    [vt_recovery_effects.rs] and [logind_recovery_effects.rs]: the two adapters
    that let a recovery act on a terminal or a login session only with a target
    validated against the record, a permit and a stable owner. *)

From stdpp Require Import base gmap sets list strings pretty.
From Stdlib Require Import ZArith Lia.
From S2P Require Import Prelude Text DirFs RecoveryTypes LedgerTaxonomy Ledger.
From S2P Require Import PreviousBoot PreCommit SameBoot Admission AdminRecovery.
From S2P Require Import WorkerRecord CgroupState HostWorld.
#[local] Open Scope niralis_scope.

Abbreviation SRE := SupervisorRecoveryError (only parsing).

Definition ENOSYS : Z := 38.

(** ** What a terminal's identity and state say *)

Definition vt_in_range (n : Z) : bool := (1 <=? n) && (n <=? 63).

Definition validate_vt_identity (identity : SupervisorVtIdentity) : result () SRE :=
  if negb (str_eqb (vi_seat identity) "seat0")
     || negb (vt_in_range (vi_number identity))
     || negb (vt_in_range (pv_number (vi_previous identity)))
     || (vi_number identity =? pv_number (vi_previous identity))
     || negb (vi_device_major identity =? 4)
     || negb (vi_device_minor identity =? vi_number identity)
  then Err VtIdentityChanged else Ok ().

Definition tty_path (n : Z) : string := "/dev/tty" +:+ pretty n.

(** [fstat] of the open terminal: character device, major and minor. *)
Definition validate_tty_device (path : string) (identity : SupervisorVtIdentity)
    : RC SRE () :=
  let* device := observe (λ h, hv_fstat_tty h path) in
  match device with
  | Some (true, major, minor) =>
      ensure (major =? vi_device_major identity) && (minor =? vi_device_minor identity)
        else VtIdentityChanged
  | _ => sr_fail VtIdentityChanged
  end.

Definition open_tty (path : string) : RC SRE () :=
  let* failed := observe (λ h, hv_open_tty h path) in
  match failed with Some errno => sr_fail (VtOpenFailed errno) | None => sr_ret () end.

(** [VT_GETSTATE]: the active terminal and the bits of the allocated ones. *)
Definition read_vt_state : RC SRE (Z * Z) :=
  let* state := observe hv_vt_state in
  sr_lift (map_err VtActivationFailed state).

(** [1u16.checked_shl(target - 1)], then the bit of [allocated]. *)
Definition vt_state_proves_target_disallocated (allocated target : Z) : bool :=
  (target - 1 <? 16) && (Z.land allocated (Z.shiftl 1 (target - 1) mod 2 ^ 16) =? 0).

Inductive StartupVtRecoveryState := VtRecovered | VtNeedsRecovery.

Definition inspect_startup_virtual_terminal (identity : SupervisorVtIdentity)
    : RC SRE StartupVtRecoveryState :=
  sr_lift (validate_vt_identity identity) ;;;
  open_tty (tty_path (vi_number identity)) ;;;
  validate_tty_device (tty_path (vi_number identity)) identity ;;;
  open_tty "/dev/tty0" ;;;
  let* state := read_vt_state in
  ensure (state.1 =? pv_number (vi_previous identity))
         && (1 <=? vi_number identity) && (vi_number identity <=? 16)
    else VtIdentityChanged ;;;
  sr_ret (if vt_state_proves_target_disallocated state.2 (vi_number identity)
          then VtRecovered else VtNeedsRecovery).

(** ** Giving the terminal back *)

Definition ioctl {E} (request : VtIoctl) : RC E (option Z) :=
  act (EffIoctl request) (λ h, hv_ioctl h request).

Definition restore_default_selinux_context (path : string) : RC SRE () :=
  let* selinux := observe hv_selinux in
  ensure sx_library selinux else SelinuxRestoreFailed ENOENT ;;;
  match sx_is_enabled selinux with
  | None => sr_fail (SelinuxRestoreFailed ENOSYS)
  | Some enabled =>
      if enabled =? 0 then sr_ret ()
      else match sx_restore selinux with
      | None => sr_fail (SelinuxRestoreFailed ENOSYS)
      | Some restore =>
          let* failed := act (EffRestoreContext path) (λ _, restore path) in
          match failed with
          | Some errno => sr_fail (SelinuxRestoreFailed errno)
          | None => sr_ret ()
          end
      end
  end.

Definition active_vt : RC SRE Z :=
  let* state := read_vt_state in sr_ret state.1.

(** The loop of [wait_for_previous_vt_activation]; its timer expires after the
    last wakeup. *)
Fixpoint activation_wait (wakeups : list Wakeup) (expected : Z) : RC SRE () :=
  match wakeups with
  | [] =>
      let* active := active_vt in
      ensure active =? expected else VtActivationFailed ETIMEDOUT
  | PollError errno :: rest =>
      if errno =? EINTR then activation_wait rest expected
      else sr_fail (VtActivationFailed errno)
  | PollReady _ timer _ :: rest =>
      let* active := active_vt in
      if active =? expected then sr_ret ()
      else if timer then sr_fail (VtActivationFailed ETIMEDOUT)
      else activation_wait rest expected
  end.

Definition wait_for_previous_vt_activation (expected : Z) : RC SRE () :=
  let* active := active_vt in
  if active =? expected then sr_ret ()
  else
    let* observer := observe hv_vt_observer in
    match observer with
    | Some errno => sr_fail (VtActivationFailed errno)
    | None =>
        let* armed := observe hv_timer in
        ensure armed else BoundaryObserverUnavailable ;;;
        let* wakeups := observe hv_wakeups in
        activation_wait wakeups expected
    end.

Definition disallocate_virtual_terminal (target : Z) : RC SRE () :=
  let* failed := ioctl (VtDisallocate target) in
  match failed with
  | None => sr_ret ()
  | Some errno => sr_fail (if errno =? EBUSY then VtDisallocateBusy
                           else VtDisallocateFailed errno)
  end.

(** The second reading of the active terminal is for the log, which is taken
    to be enabled. *)
Definition recover_virtual_terminal_raw (identity : SupervisorVtIdentity) : RC SRE () :=
  let n := vi_number identity in
  let previous := pv_number (vi_previous identity) in
  sr_lift (validate_vt_identity identity) ;;;
  open_tty (tty_path n) ;;;
  validate_tty_device (tty_path n) identity ;;;
  let* failed := ioctl (KdSetModeText n) in
  sr_lift (match failed with Some errno => Err (VtKernelRestoreFailed errno) | None => Ok () end) ;;;
  let* failed := ioctl (VtSetModeAuto n) in
  sr_lift (match failed with Some errno => Err (VtKernelRestoreFailed errno) | None => Ok () end) ;;;
  restore_default_selinux_context (tty_path n) ;;;
  open_tty "/dev/tty0" ;;;
  let* failed := ioctl (VtActivate previous) in
  sr_lift (match failed with Some errno => Err (VtActivationFailed errno) | None => Ok () end) ;;;
  wait_for_previous_vt_activation previous ;;;
  active_vt ;;;
  disallocate_virtual_terminal n.

(** ** Acting with a validated target *)

Record ValidatedRecoveryVtTarget := mkVtTarget {
  vtt_boot_id : BootIdentity;
  vtt_record_id : string;
  vtt_lifecycle_id : string;
  vtt_sequence : Z;
  vtt_identity : SupervisorVtIdentity;
  vtt_active_vt : Z;
  vtt_owner_generation : Z;
  vtt_boundary_sequence : Z;
}.

Definition vt_target_from_identity (s : RecoveryStateSnapshot)
    (identity : SupervisorVtIdentity) (proof : AuthorizedRecoveryBoundaryProof)
    (owner : AuthoritySnapshot) : result ValidatedRecoveryVtTarget SRE :=
  let record := ss_record s in
  match validate_vt_identity identity with
  | Err e => Err e
  | Ok _ =>
      if negb (snapshot_validates s) || negb (authorized_matches_snapshot proof s)
         || negb (str_eqb (vi_seat identity) (pr_seat record))
         || negb (bool_decide (Some (vi_number identity) = pr_target_vt record))
         || negb (bool_decide (Some (pv_number (vi_previous identity))
                               = pr_previous_vt record))
      then Err VtIdentityChanged
      else Ok (mkVtTarget (snapshot_current_boot s) (pr_lifecycle_id record)
                 (pr_lifecycle_id record) (pr_sequence record) identity
                 (default 0 (pr_previous_vt record)) (as_generation owner)
                 (pr_sequence record))
  end.

Definition target_matches_authority (boot_id : BootIdentity)
    (record_id lifecycle_id : string) (sequence : Z)
    (authority : SameBootRecoveryAuthority) : bool :=
  bool_decide (boot_id = sa_current_boot authority)
  && str_eqb record_id (sa_lifecycle_id authority)
  && str_eqb lifecycle_id (sa_lifecycle_id authority)
  && (sequence =? sa_record_sequence authority).

(** [SameBootVtEffects::recover]. *)
Definition vt_effects_recover (authority : SameBootRecoveryAuthority)
    (target : ValidatedRecoveryVtTarget) (proof : AuthorizedRecoveryBoundaryProof)
    (permit : RecoveryOperationPermit) (n : WatchName) (owner : AuthoritySnapshot)
    : RC SRE () :=
  ensure target_matches_authority (vtt_boot_id target) (vtt_record_id target)
           (vtt_lifecycle_id target) (vtt_sequence target) authority
         && (vtt_boundary_sequence target =? vtt_sequence target)
         && (vtt_active_vt target =? pv_number (vi_previous (vtt_identity target)))
         && (vtt_owner_generation target =? as_generation owner)
         && permit_matches_binding permit authority (vtt_record_id target)
              (vtt_lifecycle_id target) (vtt_sequence target) (vtt_boot_id target)
         && authorized_matches_binding proof (vtt_boot_id target) (vtt_record_id target)
              (vtt_lifecycle_id target) (vtt_sequence target)
    else VtIdentityChanged ;;;
  sr_map_err (λ _, SystemdOwnerChanged) (still_authorizes n owner) ;;;
  λ w,
    let '(w, result) := recover_virtual_terminal_raw (vtt_identity target) w in
    match still_authorizes n owner w with
    | (w, Err _) => (w, Err BusDeliveryIndeterminate)
    | (w, Ok _) => (w, result)
    end.

Record ValidatedRecoveryLogindSession := mkLogindTarget {
  lgt_boot_id : BootIdentity;
  lgt_record_id : string;
  lgt_lifecycle_id : string;
  lgt_sequence : Z;
  lgt_seat : string;
  lgt_id : string;
  lgt_object_path : string;
  lgt_owner_generation : Z;
  lgt_identity : SupervisorLogindSessionIdentity;
}.

Definition logind_target_from_identity (s : RecoveryStateSnapshot)
    (identity : SupervisorLogindSessionIdentity) (owner : AuthoritySnapshot)
    : result ValidatedRecoveryLogindSession SRE :=
  let record := ss_record s in
  if negb (snapshot_validates s)
     || negb (str_eqb (sli_id identity) (default EmptyString (pr_logind_session_id record)))
     || negb (str_eqb (sli_object_path identity)
                (default EmptyString (pr_logind_object_path record)))
     || negb (str_eqb (sli_seat identity) (pr_seat record))
     || negb (sli_leader identity =? pr_worker_pid record)
     || negb (bool_decide (Some (sli_vt_number identity) = pr_target_vt record))
  then Err LogindIdentityChanged
  else Ok (mkLogindTarget (snapshot_current_boot s) (pr_lifecycle_id record)
             (pr_lifecycle_id record) (pr_sequence record) (sli_seat identity)
             (sli_id identity) (sli_object_path identity) (as_generation owner) identity).

(** [SameBootLogindEffects::terminate_session]. *)
Definition logind_effects_terminate (authority : SameBootRecoveryAuthority)
    (target : ValidatedRecoveryLogindSession) (permit : RecoveryOperationPermit)
    (n : WatchName) (owner : AuthoritySnapshot) : RC SRE SupervisorLogindCleanupResult :=
  ensure target_matches_authority (lgt_boot_id target) (lgt_record_id target)
           (lgt_lifecycle_id target) (lgt_sequence target) authority
         && permit_matches_binding permit authority (lgt_record_id target)
              (lgt_lifecycle_id target) (lgt_sequence target) (lgt_boot_id target)
         && (lgt_owner_generation target =? as_generation owner)
    else LogindIdentityChanged ;;;
  sr_map_err (λ _, LogindOwnerChanged) (still_authorizes n owner) ;;;
  let* result := terminate_logind_session_raw (lgt_identity target) in
  sr_map_err (λ _, LogindCleanupIndeterminate) (still_authorizes n owner) ;;;
  sr_ret result.
