(* ===== verification/LiveBoundary.v ===== *)
(** * The Linux provider of a running supervisor

    [launcher/recovery/boundary.rs], [boundary_proof.rs], [systemd_pin_live.rs]
    and [linux_provider.rs]: what the supervisor asks of the machine while a
    session lives: which terminal is active, whether a payload announced by a
    worker is the one systemd and logind know, whether it is gone, and what is
    left to clean up when a worker dies.  [live_provider] is the
    [RecoveryProvider] the supervisor loop is written against. *)

From stdpp Require Import base gmap sets list strings pretty.
From Stdlib Require Import ZArith Lia.
From S2P Require Import Prelude Text DirFs RecoveryTypes LedgerTaxonomy Ledger.
From S2P Require Import PreviousBoot PreCommit SameBoot Admission AdminRecovery.
From S2P Require Import WorkerRecord CgroupState HostWorld UnitPin VtControl.
#[local] Open Scope niralis_scope.

Abbreviation SRE := SupervisorRecoveryError (only parsing).

(** ** The boundary of a live payload *)

Record LinuxLivePayloadBoundary := mkLive {
  lb_pin : PinnedInvocationInner;
  lb_leader : Z;
}.

(** What the boundary tells about itself. *)
Definition boundary_of (b : LinuxLivePayloadBoundary) : PayloadBoundary :=
  mkBoundary (pin_identity (lb_pin b)) (Some (pin_object_path (lb_pin b)))
    (Some (pin_cgroup (lb_pin b))) (Some (pin_slice (lb_pin b))) (lb_leader b).

(** [leader.observed_dead()? && matches!(pin.boundary_state()?, Empty | Absent)]. *)
Definition leader_gone (leader : Z) : PN SRE bool :=
  let* dead := in_world (observed_dead leader) in
  if negb dead then sr_ret false
  else let* state := pin_boundary_state in sr_ret (vacant_state state).

(** The loop of [wait_for_emergency_boundary]; its timer expires after the last
    wakeup.  Without an observer its descriptor is never ready. *)
Fixpoint emergency_wait (wakeups : list Wakeup) (leader : Z) (observing : bool)
    : PN SRE () :=
  match wakeups with
  | [] => sr_fail BoundaryTimedOut
  | PollError errno :: rest =>
      if errno =? EINTR then emergency_wait rest leader observing
      else sr_fail BoundaryObserverUnavailable
  | PollReady observer timer _ :: rest =>
      if timer then sr_fail BoundaryTimedOut
      else
        let* p := this_pin in
        (if observer && observing then in_world (observer_refresh (pin_cgroup p))
         else sr_ret ()) ;;;
        let* gone := leader_gone leader in
        if gone then sr_ret () else emergency_wait rest leader observing
  end.

Definition wait_for_emergency_boundary (leader : Z) (observing : bool) : PN SRE () :=
  let* gone := leader_gone leader in
  if gone then sr_ret ()
  else
    let* armed := in_world (observe hv_timer) in
    ensure armed else BoundaryObserverUnavailable ;;;
    let* wakeups := in_world (observe hv_wakeups) in
    emergency_wait wakeups leader observing.

(** The unit is there and has ended. *)
Definition ended_unit : PN SRE () :=
  let* observation := revalidate true in
  ensure unit_is_terminal observation else BoundaryStillPopulated.

Definition prove_linux_supervisor_emergency_boundary (leader : Z) (worker_exit : ExitStatus)
    : PN SRE SupervisorEmergencyBoundaryProof :=
  let* p := this_pin in
  let identity := pin_identity p in
  validate_owner ;;;
  let* dead := in_world (observed_dead leader) in
  ensure dead else LeaderStillAlive ;;;
  let* first := in_world (resolve_invocation (psi_invocation_id identity)) in
  match first with
  | Some path =>
      ensure str_eqb path (pin_object_path p) else BoundaryIdentityChanged ;;;
      ended_unit
  | None => sr_ret ()
  end ;;;
  let* state := pin_boundary_state in
  ensure vacant_state state else BoundaryStillPopulated ;;;
  in_world (pid_outside_boundary (pin_worker_pid p) (pin_cgroup p)) ;;;
  in_world (pid_outside_boundary (pin_launcher_pid p) (pin_cgroup p)) ;;;
  validate_owner ;;;
  let* second := in_world (resolve_invocation (psi_invocation_id identity)) in
  match first, second with
  | Some a, Some b =>
      if str_eqb a b then ended_unit else sr_fail BoundaryIdentityChanged
  | None, None => sr_ret ()
  | _, _ => sr_fail BoundaryIdentityChanged
  end ;;;
  sr_ret (mkEmergencyProof (psi_unit_name identity) (psi_invocation_id identity)
            (pin_cgroup p) (exit_status_label worker_exit) true true).

Definition recover_live_emergency (leader : Z) (worker_exit : ExitStatus)
    : PN SRE SupervisorEmergencyBoundaryProof :=
  revalidate true ;;;
  let* p := this_pin in
  let* initial_state := pin_boundary_state in
  let populated := bool_decide (initial_state = BoundaryPopulated) in
  (if populated then in_world (observer_open (pin_cgroup p)) else sr_ret ()) ;;;
  (if populated then request_emergency_kill else sr_ret ()) ;;;
  wait_for_emergency_boundary leader populated ;;;
  prove_linux_supervisor_emergency_boundary leader worker_exit.

Definition verify_empty (leader : Z) (worker_exit : ExitStatus)
    : PN SRE SupervisorEmergencyBoundaryProof :=
  prove_linux_supervisor_emergency_boundary leader worker_exit.

(** ** The login session *)

Definition cleanup_logind_session (identity : SupervisorLogindSessionIdentity)
    : RC SRE SupervisorLogindCleanupResult :=
  terminate_logind_session_raw identity.

Definition logind_session_absent (identity : SupervisorLogindSessionIdentity)
    : RC SRE bool :=
  let id := sli_id identity in
  connect LogindUnavailable ;;;
  let* answer := observe (λ h, hv_get_session h id) in
  match answer with
  | Ok path =>
      ensure str_eqb path (sli_object_path identity) else LogindIdentityChanged ;;;
      removal_observer_open id ;;;
      let* again := observe (λ h, hv_get_session h id) in
      match again with
      | Ok second =>
          ensure str_eqb second path else LogindIdentityChanged ;;;
          removal_observer_wait id ;;;
          sr_ret true
      | Err (MethodError name) =>
          if is_absent_session_error name then sr_ret true else sr_fail LogindUnavailable
      | Err OtherBusError => sr_fail LogindUnavailable
      end
  | Err (MethodError name) =>
      if is_absent_session_error name then sr_ret true else sr_fail LogindUnavailable
  | Err OtherBusError => sr_fail LogindUnavailable
  end.

(** The loop of [resolve_logind_identity_by_leader]. *)
Fixpoint match_leader (sessions : list (string * Z * string * string)) (worker_pid : Z)
    (expected_desktop : string) (matched : option SupervisorLogindSessionIdentity)
    : RC SRE (option SupervisorLogindSessionIdentity) :=
  match sessions with
  | [] => sr_ret matched
  | (id, listed_uid, listed_seat, path) :: rest =>
      let* id := sr_lift (ok_or (LogindSessionId_new id) LogindIdentityChanged) in
      let* leader := observe_or LogindUnavailable (λ h, sp_leader <$> hv_session h path) in
      if negb (leader =? worker_pid) then match_leader rest worker_pid expected_desktop matched
      else
        let* identity := read_logind_identity path id in
        ensure (sli_uid identity =? listed_uid) && str_eqb (sli_seat identity) listed_seat
               && str_eqb (sli_seat identity) "seat0"
               && (str_is_empty (sli_desktop identity)
                   || str_eqb (sli_desktop identity) expected_desktop)
               && bool_decide (matched = None)
          else LogindIdentityChanged ;;;
        match_leader rest worker_pid expected_desktop (Some identity)
  end.

Definition resolve_logind_identity_by_leader (worker_pid : Z) (expected_desktop : string)
    : RC SRE SupervisorLogindSessionIdentity :=
  connect LogindUnavailable ;;;
  let* sessions := observe_or LogindUnavailable hv_list_sessions in
  let* matched := match_leader sessions worker_pid expected_desktop None in
  sr_lift (ok_or matched InvalidRecord).

(** ** The payload a worker announced *)

(** The number after [prefix] on the first line that starts with it. *)
Definition strip_prefix (prefix line : text) : option text :=
  if bool_decide (take (length prefix) line = prefix) then Some (drop (length prefix) line)
  else None.
Definition status_field (prefix : string) (status : text) : option Z :=
  line ← head (omap (strip_prefix (lit prefix)) (lines status));
  word ← head (ascii_words [] line);
  parse_uint (2 ^ 32 - 1) word.

Definition read_process_credentials (pid : Z) : RC SRE (Z * Z) :=
  let* status := observe (λ h, hv_status_of h pid) in
  let* status := sr_lift (ok_or (status ≫= str_from_utf8) InvalidPayloadIdentity) in
  match status_field "Uid:" status, status_field "Gid:" status with
  | Some uid, Some gid =>
      ensure negb (uid =? 0) && negb (gid =? 0) else InvalidPayloadIdentity ;;;
      sr_ret (uid, gid)
  | _, _ => sr_fail InvalidPayloadIdentity
  end.

Definition capture_previous_vt (seat : string) : RC SRE PreviousVtIdentity :=
  ensure str_eqb seat "seat0" else VtIdentityChanged ;;;
  let* active := observe hv_active_tty in
  let* active := sr_lift (ok_or (active ≫= str_from_utf8) VtIdentityChanged) in
  let* number := sr_lift (ok_or (digits ← strip_prefix (lit "tty") (trim active);
                                 parse_uint (2 ^ 32 - 1) digits) VtIdentityChanged) in
  ensure vt_in_range number else VtIdentityChanged ;;;
  sr_ret (mkPreviousVt number).

Definition prepare_payload (identity : PayloadScopeIdentity)
    (leader_pid worker_pid launcher_pid : Z) (previous_vt : PreviousVtIdentity)
    : RC SRE (LinuxLivePayloadBoundary * SupervisorPreparedPayload) :=
  leader_pidfd_open leader_pid ;;;
  let* pin := acquire identity leader_pid worker_pid launcher_pid leader_pid in
  let* logind := resolve_logind_identity identity in
  ensure (sli_uid logind =? psi_expected_uid identity)
         && str_eqb (sli_id logind) (psi_logind_session_id identity)
         && (sli_leader logind =? worker_pid) && str_eqb (sli_seat logind) "seat0"
         && negb (sli_vt_number logind =? pv_number previous_vt)
    else LogindIdentityChanged ;;;
  let* credentials := read_process_credentials leader_pid in
  ensure credentials.1 =? psi_expected_uid identity else InvalidPayloadIdentity ;;;
  let vt := mkVtIdentity (sli_seat logind) (sli_vt_number logind) previous_vt 4
              (sli_vt_number logind) in
  let boundary := mkLive pin leader_pid in
  sr_ret (boundary, mkPayload (boundary_of boundary) logind vt credentials.2).

Definition recover_pre_payload (worker_pid : Z) (expected_username session_name : string)
    (previous_vt : PreviousVtIdentity) : RC SRE SupervisorLogindCleanupResult :=
  let* identity := resolve_logind_identity_by_leader worker_pid session_name in
  ensure str_eqb (sli_username identity) expected_username
         && negb (sli_vt_number identity =? pv_number previous_vt)
    else VtIdentityChanged ;;;
  let vt := mkVtIdentity (sli_seat identity) (sli_vt_number identity) previous_vt 4
              (sli_vt_number identity) in
  let* logind_result := cleanup_logind_session identity in
  recover_virtual_terminal_raw vt ;;;
  sr_ret logind_result.

(** ** The provider *)

Inductive LiveOperation :=
| OpCaptureVt | OpPreparePayload | OpPrePayload | OpCleanupLogind | OpConfirmAbsent
| OpRecoverVt | OpRecoverLive | OpVerifyEmpty | OpReleaseLive.

(** [LinuxSupervisorRecoveryProvider] during a round of the loop: [before] is
    the machine when an operation starts, [live] the boundary the supervisor
    holds for a payload. *)
Definition live_provider (before : LiveOperation → RecoveryWorld)
    (live : PayloadBoundary → LinuxLivePayloadBoundary) : WorkerRecord.RecoveryProvider :=
  let on_pin {A} (op : LiveOperation) (m : Z → PN SRE A) (b : PayloadBoundary) :=
    (m (lb_leader (live b)) (before op, lb_pin (live b))).2 in
  WorkerRecord.mkProvider
    (λ seat, (capture_previous_vt seat (before OpCaptureVt)).2)
    (λ identity leader worker launcher previous,
       match (prepare_payload identity leader worker launcher previous
                (before OpPreparePayload)).2 with
       | Ok res => Ok res.2
       | Err e => Err e
       end)
    (λ worker user session previous,
       (recover_pre_payload worker user session previous (before OpPrePayload)).2)
    (λ identity, (cleanup_logind_session identity (before OpCleanupLogind)).2)
    (λ identity, (logind_session_absent identity (before OpConfirmAbsent)).2)
    (λ vt, (recover_virtual_terminal_raw vt (before OpRecoverVt)).2)
    (λ b status, on_pin OpRecoverLive (λ leader, recover_live_emergency leader status) b)
    (λ b status, on_pin OpVerifyEmpty (λ leader, verify_empty leader status) b)
    (λ b, on_pin OpReleaseLive (λ _, pin_release) b).
