(* ===== verification/SameBootRecovery.v ===== *)
(** * Recovering one session of the running boot

    [launcher/recovery/startup_same_boot*.rs], [startup_absent_boundary.rs] and
    [startup_vt_recovery.rs]: what a restarted daemon does with the record of a
    session it finds running or half cleaned up.  The worker is released, the
    payload killed and proven gone, the unit released, the login session
    terminated and the terminal given back, every step announced in the ledger
    before and confirmed after it; anything that does not fit the record ends
    the attempt.  This is the Linux provider of the startup coordinator
    ([linux_provider.rs], [startup_linux.rs]). *)

From stdpp Require Import base gmap sets list strings pretty.
From Stdlib Require Import ZArith Lia.
From S2P Require Import Prelude Text DirFs RecoveryTypes LedgerTaxonomy Ledger.
From S2P Require Import PreviousBoot PreCommit SameBoot Finalization Admission.
From S2P Require Import AdminRecovery WorkerRecord CgroupState HostWorld.
From S2P Require Import VtHolders UnitPin VtControl Startup.
#[local] Open Scope niralis_scope.

Abbreviation SRF := StartupRecoveryFailure (only parsing).

(** [map_err(|_| f)]. *)
Definition or_else {S A} (f : SRF) (m : SR S SupervisorRecoveryError A) : SR S SRF A :=
  sr_map_err (λ _, f) m.

(** Run a method of a pin, and go on with the pin it leaves. *)
Definition with_pin {E A} (m : RN E A) (pin : RecoveryPinnedInvocationUnit)
    : RC E (A * RecoveryPinnedInvocationUnit) := λ w,
  let '(w, pin, r) := m (w, pin) in
  (w, match r with Ok a => Ok (a, pin) | Err e => Err e end).

(** ** The payload *)

(** The loop of [wait_for_boundary_empty]; its timer expires after the last
    wakeup. *)
Fixpoint boundary_wait (wakeups : list Wakeup) (n : WatchName)
    (authority : AuthoritySnapshot) (control_group : string) : RC SRF () :=
  or_else SrfSystemdOwnerChanged (still_authorizes n authority) ;;;
  let* state := or_else SrfBoundaryIdentityChanged (boundary_state control_group) in
  if vacant_state state then sr_ret ()
  else match wakeups with
  | [] | PollError _ :: _ => sr_fail SrfBoundaryIdentityChanged
  | PollReady observer timer watch :: rest =>
      if timer then sr_fail SrfBoundaryIdentityChanged
      else
        (if watch then or_else SrfSystemdOwnerChanged (still_authorizes n authority)
         else sr_ret ()) ;;;
        (if observer then or_else SrfBoundaryIdentityChanged (observer_refresh control_group)
         else sr_ret ()) ;;;
        boundary_wait rest n authority control_group
  end.

Definition wait_for_boundary_empty (pin : RecoveryPinnedInvocationUnit) (n : WatchName)
    (authority : AuthoritySnapshot) : RC SRF () :=
  let control_group := pin_cgroup (rpn_inner pin) in
  or_else SrfBoundaryIdentityChanged (observer_open control_group) ;;;
  let* armed := observe hv_timer in
  ensure armed else SrfBoundaryIdentityChanged ;;;
  let* wakeups := observe hv_wakeups in
  boundary_wait wakeups n authority control_group.

(** A method that does not change the pin. *)
Definition ask_pin {A} (f : SRF) (m : PN SupervisorRecoveryError A)
    (pin : RecoveryPinnedInvocationUnit) : RC SRF A :=
  let* r := or_else f (with_pin (inner_of m) pin) in sr_ret r.1.

(** One of the two readings of the unit in [startup_boundary_proof]. *)
Definition terminal_reading (pin : RecoveryPinnedInvocationUnit) (n : WatchName)
    (authority : AuthoritySnapshot) : RC SRF () :=
  or_else SrfSystemdOwnerChanged (still_authorizes n authority) ;;;
  let* observation := ask_pin SrfBoundaryIdentityChanged (revalidate true) pin in
  if unit_is_terminal observation then sr_ret ()
  else
    let* state := ask_pin SrfBoundaryIdentityChanged pin_boundary_state pin in
    ensure bool_decide (state = BoundaryAbsent) else SrfBoundaryIdentityChanged.

Definition startup_boundary_proof (pin : RecoveryPinnedInvocationUnit) (n : WatchName)
    (authority : AuthoritySnapshot) (s : RecoveryStateSnapshot)
    : RC SRF RecoveryBoundaryEmptyProof :=
  let inner := rpn_inner pin in
  or_else SrfSystemdOwnerChanged (still_authorizes n authority) ;;;
  ask_pin SrfSystemdOwnerChanged validate_owner pin ;;;
  let* state := ask_pin SrfBoundaryIdentityChanged pin_boundary_state pin in
  ensure vacant_state state else SrfBoundaryIdentityChanged ;;;
  or_else SrfBoundaryIdentityChanged
    (pid_outside_boundary (pin_worker_pid inner) (pin_cgroup inner)) ;;;
  or_else SrfBoundaryIdentityChanged
    (pid_outside_boundary (pin_launcher_pid inner) (pin_cgroup inner)) ;;;
  terminal_reading pin n authority ;;;
  terminal_reading pin n authority ;;;
  or_else SrfSystemdOwnerChanged (still_authorizes n authority) ;;;
  ask_pin SrfSystemdOwnerChanged validate_owner pin ;;;
  ensure snapshot_validates s else SrfBoundaryIdentityChanged ;;;
  sr_ret (from_verified_boundary s (pinned_unit pin)).

Definition is_intent_or_indeterminate (o : DurableOperationState) : bool :=
  match o with IntentPersisted _ | Indeterminate _ _ => true | _ => false end.

Section Reconcile.
Context `{SerdeJson PersistentRecoveryRecord}.

Definition persist_intent (s : RecoveryStateSnapshot) (operation : string) (attempt : Z)
    : RC SRF (RecoveryStateSnapshot * RecoveryOperationPermit) :=
  on_record UnsupportedRehydration (λ boot,
    persist_recovery_intent_from_snapshot boot s operation attempt).
Definition confirm (id operation : string) (attempt : Z) : RC SRF () :=
  on_record UnsupportedRehydration (λ boot, operation_confirmed boot id operation attempt).
Definition refresh (s : RecoveryStateSnapshot) : RC SRF RecoveryStateSnapshot :=
  on_record UnsupportedRehydration (λ _, refresh_recovery_snapshot s).

(** The kill of a populated boundary. *)
Definition kill_payload (s : RecoveryStateSnapshot) (pin : RecoveryPinnedInvocationUnit)
    (n : WatchName) : RC SRF (RecoveryStateSnapshot * RecoveryPinnedInvocationUnit) :=
  let record := ss_record s in
  let* owner := or_else SrfSystemdOwnerChanged (stable_snapshot n) in
  ensure negb (is_intent_or_indeterminate (ol_payload_kill (pr_operation_ledger record)))
    else SrfBoundaryIdentityChanged ;;;
  let attempt := u64_saturating_add (pr_sequence record) 1 in
  let* res := persist_intent s "payload_kill" attempt in
  let '(next, permit) := res in
  let* res := or_else SrfBoundaryIdentityChanged
                (with_pin (rebind (ss_authority next) (ss_record next)) pin) in
  let* res := or_else SrfBoundaryIdentityChanged
                (with_pin (request_recovery_emergency_kill (ss_authority next)
                             (ss_record next) permit) res.2) in
  let pin := res.2 in
  or_else SrfSystemdOwnerChanged (still_authorizes n owner) ;;;
  wait_for_boundary_empty pin n owner ;;;
  confirm (pr_lifecycle_id (ss_record next)) "payload_kill" attempt ;;;
  let* s := refresh next in
  let* res := or_else SrfBoundaryIdentityChanged
                (with_pin (rebind (ss_authority s) (ss_record s)) pin) in
  sr_ret (s, res.2).

Definition reconcile_payload (s : RecoveryStateSnapshot)
    (pin : RecoveryPinnedInvocationUnit) (leader : PersistedProcessIdentity)
    (n : WatchName)
    : RC SRF (RecoveryStateSnapshot * RecoveryPinnedInvocationUnit
              * RecoveryBoundaryEmptyProof) :=
  let* state := ask_pin SrfBoundaryIdentityChanged pin_boundary_state pin in
  let* res := (if bool_decide (state = BoundaryPopulated) then kill_payload s pin n
               else sr_ret (s, pin)) in
  let '(s, pin) := res in
  ensure match leader with OriginalStillAlive => false | _ => true end
    else LeaderIdentityIndeterminate ;;;
  let* owner := or_else SrfSystemdOwnerChanged (stable_snapshot n) in
  let* proof := startup_boundary_proof pin n owner s in
  sr_ret (s, pin, proof).

(** ** The terminal *)

Definition persisted_vt_identity (record : PersistentRecoveryRecord)
    : result SupervisorVtIdentity SRF :=
  match pr_target_vt record, pr_previous_vt record with
  | Some target, Some previous =>
      Ok (mkVtIdentity (pr_seat record) target (mkPreviousVt previous) 4 target)
  | _, _ => Err SrfLogindIdentityChanged
  end.

(** The processes of the session, for the inspection of a busy terminal. *)
Definition known_processes (self : Z) (record : PersistentRecoveryRecord)
    : list (Z * option Z) :=
  [(self, None); (pr_worker_pid record, pr_worker_starttime record);
   (pr_launcher_pid record, None);
   (default 0 (pr_leader_pid record), pr_leader_starttime record)].

(** The terminal was not given back; a busy one is recorded with who holds it. *)
Definition vt_recovery_failed (next : RecoveryStateSnapshot) (vt : SupervisorVtIdentity)
    (attempt : Z) (error : SupervisorRecoveryError) : RC SRF () :=
  let id := pr_lifecycle_id (ss_record next) in
  match error with
  | VtDisallocateBusy =>
      on_record UnsupportedRehydration (λ boot,
        operation_failed boot id "vt_disallocate" attempt EBUSY) ;;;
      let* self := observe hv_self_pid in
      let* provenance := inspect_vt_busy (vi_number vt)
                           (known_processes self (ss_record next)) in
      on_record UnsupportedRehydration (λ boot,
        record_vt_busy_provenance boot id provenance) ;;;
      sr_fail SrfVtDisallocateBusy
  | _ => sr_fail SrfLogindIdentityChanged
  end.

Definition reconcile_startup_vt (s : RecoveryStateSnapshot)
    (boundary_proof : option AuthorizedRecoveryBoundaryProof) (n : WatchName)
    : RC SRF () :=
  let record := ss_record s in
  let* vt := sr_lift (persisted_vt_identity record) in
  match ol_vt_disallocate (pr_operation_ledger record) with
  | Confirmed _ => sr_ret ()
  | OpFailed _ class =>
      sr_fail (if class =? EBUSY then SrfVtDisallocateBusy else SrfLogindIdentityChanged)
  | IntentPersisted _ | Indeterminate _ _ => sr_fail SrfLogindIdentityChanged
  | NotStarted =>
      let attempt := u64_saturating_add (pr_sequence record) 3 in
      let* proof := sr_lift (ok_or boundary_proof SrfBoundaryIdentityChanged) in
      let* owner := or_else SrfSystemdOwnerChanged (stable_snapshot n) in
      sr_lift (map_err (λ _, SrfBoundaryIdentityChanged)
                 (vt_target_from_identity s vt proof owner)) ;;;
      let* res := persist_intent s "vt_disallocate" attempt in
      let '(next, permit) := res in
      let id := pr_lifecycle_id (ss_record next) in
      let authorized := authorize_next_sequence (pr_sequence (ss_record next)) proof in
      let* target := sr_lift (map_err (λ _, SrfBoundaryIdentityChanged)
                       (vt_target_from_identity next vt authorized owner)) in
      λ w,
        match vt_effects_recover (ss_authority next) target authorized permit n owner w with
        | (w, Ok _) => confirm id "vt_disallocate" attempt w
        | (w, Err error) => vt_recovery_failed next vt attempt error w
        end
  end.

(** ** The login session *)

Definition scope_identity_of (record : PersistentRecoveryRecord) (id : string)
    (f : SRF) : result PayloadScopeIdentity SRF :=
  match pr_payload_unit record, pr_invocation_id record with
  | Some unit_name, Some invocation_id =>
      Ok (mkScopeIdentity unit_name invocation_id (pr_uid record) id)
  | _, _ => Err f
  end.

(** The termination of a session logind still knows. *)
Definition terminate_session (s : RecoveryStateSnapshot) (id : string) (n : WatchName)
    (authority : AuthoritySnapshot) : RC SRF RecoveryStateSnapshot :=
  let record := ss_record s in
  let* identity := sr_lift (scope_identity_of record id SrfLogindIdentityChanged) in
  let* session := or_else SrfLogindIdentityChanged (resolve_logind_identity identity) in
  let* object_path := sr_lift (ok_or (pr_logind_object_path record)
                                 SrfLogindIdentityChanged) in
  ensure str_eqb (sli_object_path session) object_path
         && (sli_uid session =? pr_uid record)
         && (sli_leader session =? pr_worker_pid record)
         && str_eqb (sli_seat session) (pr_seat record)
         && bool_decide (Some (sli_vt_number session) = pr_target_vt record)
    else SrfLogindIdentityChanged ;;;
  let* validated := sr_lift (map_err (λ _, SrfLogindIdentityChanged)
                      (logind_target_from_identity s session authority)) in
  or_else SrfLogindOwnerChanged (still_authorizes n authority) ;;;
  let attempt := u64_saturating_add (pr_sequence record) 2 in
  let* res := persist_intent s "logind_termination" attempt in
  let '(next, permit) := res in
  let* target := sr_lift (map_err (λ _, SrfLogindIdentityChanged)
                   (logind_target_from_identity next (lgt_identity validated) authority)) in
  sr_map_err (λ error, match error with
                       | LogindCleanupIndeterminate | LogindOwnerChanged =>
                           SrfLogindOwnerChanged
                       | _ => SrfLogindIdentityChanged
                       end)
    (logind_effects_terminate (ss_authority next) target permit n authority) ;;;
  or_else SrfLogindOwnerChanged (still_authorizes n authority) ;;;
  confirm (pr_lifecycle_id (ss_record next)) "logind_termination" attempt ;;;
  refresh next.

Definition logind_id_of (record : PersistentRecoveryRecord) : option string :=
  id ← pr_logind_session_id record; LogindSessionId_new id.

Definition same_logind_owner (owner : string) (n : WatchName)
    (authority : AuthoritySnapshot) : RC SRF () :=
  let* now := or_else SrfLogindOwnerChanged logind_owner in
  ensure str_eqb now owner else SrfLogindOwnerChanged ;;;
  or_else SrfLogindOwnerChanged (still_authorizes n authority).

Definition reconcile_logind_and_vt (s : RecoveryStateSnapshot) (n : WatchName)
    (boundary_proof : option AuthorizedRecoveryBoundaryProof) : RC SRF () :=
  let* authority := or_else SrfLogindOwnerChanged (stable_snapshot n) in
  let* owner := or_else SrfLogindOwnerChanged logind_owner in
  let* id := sr_lift (ok_or (logind_id_of (ss_record s)) SrfLogindIdentityChanged) in
  let* there := or_else SrfLogindOwnerChanged (logind_session_exists id) in
  let* s := (if there then terminate_session s id n authority else sr_ret s) in
  same_logind_owner owner n authority ;;;
  reconcile_startup_vt s boundary_proof n.

(** ** A boundary that is gone *)

Definition confirm_default_tty_context (record : PersistentRecoveryRecord)
    (vt : SupervisorVtIdentity) : RC SRF () :=
  let id := pr_lifecycle_id record in
  match ol_selinux_restore (pr_operation_ledger record) with
  | NotStarted =>
      let attempt := u64_saturating_add (pr_sequence record) 1 in
      on_record UnsupportedRehydration (λ boot,
        operation_intent boot id "selinux_restore" attempt) ;;;
      or_else SrfLogindIdentityChanged
        (restore_default_selinux_context (tty_path (vi_number vt))) ;;;
      confirm id "selinux_restore" attempt
  | Confirmed _ => sr_ret ()
  | IntentPersisted _ | OpFailed _ _ | Indeterminate _ _ =>
      sr_fail SrfLogindIdentityChanged
  end.

(** [BootIdentity::parse(current_boot_id()?)?] and the snapshot under it. *)
Definition current_snapshot (record : PersistentRecoveryRecord)
    : RC SRF RecoveryStateSnapshot :=
  let* boot := observe hv_boot_id in
  let* boot := sr_lift (map_err (λ _, SrfLogindOwnerChanged) boot) in
  let* boot := sr_lift (map_err (λ _, SrfLogindOwnerChanged) (BootIdentity_parse boot)) in
  sr_lift (map_err (λ _, SrfLogindOwnerChanged) (snapshot_from_record boot record)).

(** The terminal of a session whose boundary is gone. *)
Definition recover_absent_boundary_vt (record : PersistentRecoveryRecord)
    (vt : SupervisorVtIdentity) (n : WatchName) : RC SRF () :=
  let* state := or_else SrfLogindIdentityChanged (inspect_startup_virtual_terminal vt) in
  match state with
  | VtRecovered => confirm_default_tty_context record vt
  | VtNeedsRecovery =>
      let* s := current_snapshot record in
      reconcile_startup_vt s
        (Some (boundary_authorize (pr_sequence (ss_record s)) (from_absent_boundary s))) n
  end.

Definition confirm_absent_boundary_logind_and_vt (record : PersistentRecoveryRecord)
    (n : WatchName) : RC SRF () :=
  let* authority := or_else SrfLogindOwnerChanged (stable_snapshot n) in
  let* owner := or_else SrfLogindOwnerChanged logind_owner in
  let* id := sr_lift (ok_or (pr_logind_session_id record) SrfLogindIdentityChanged) in
  let* there := or_else SrfLogindOwnerChanged (logind_session_exists id) in
  ensure negb there else SrfLogindIdentityChanged ;;;
  or_else SrfLogindOwnerChanged (still_authorizes n authority) ;;;
  let* now := or_else SrfLogindOwnerChanged logind_owner in
  ensure str_eqb now owner else SrfLogindOwnerChanged ;;;
  let* vt := sr_lift (persisted_vt_identity record) in
  recover_absent_boundary_vt record vt n ;;;
  or_else SrfLogindOwnerChanged (still_authorizes n authority) ;;;
  let* now := or_else SrfLogindOwnerChanged logind_owner in
  ensure str_eqb now owner else SrfLogindOwnerChanged.

(** One of the two readings of [prove_startup_absent_boundary]. *)
Definition absent_reading (identity : PayloadScopeIdentity) (control_group owner : string)
    (n : WatchName) : RC SRF () :=
  or_else SrfSystemdOwnerChanged (watch_stable n) ;;;
  let* unit := or_else SrfSystemdOwnerChanged
                 (resolve_invocation (psi_invocation_id identity)) in
  ensure bool_decide (unit = None) else SrfBoundaryIdentityChanged ;;;
  let* tree := observe hv_cgroups in
  ensure match read_supervisor_boundary_state tree control_group with
         | Ok BoundaryAbsent => true | _ => false end else SrfBoundaryIdentityChanged ;;;
  let* now := or_else SrfSystemdOwnerChanged systemd_owner in
  ensure str_eqb now owner else SrfSystemdOwnerChanged.

Definition prove_startup_absent_boundary (record : PersistentRecoveryRecord)
    (identity : PayloadScopeIdentity) (leader : PersistedProcessIdentity) (n : WatchName)
    : RC SRF () :=
  let uid := psi_expected_uid identity in
  let expected := scope_control_group uid (psi_unit_name identity) in
  ensure match leader with OriginalStillAlive => false | _ => true end
         && bool_decide (pr_transient record = Some true)
         && bool_decide (pr_payload_unit record = Some (psi_unit_name identity))
         && bool_decide (pr_control_group record = Some expected)
         && bool_decide (pr_slice record = Some (user_slice uid))
    else SrfBoundaryIdentityChanged ;;;
  let* control_group := sr_lift (ok_or (pr_control_group record)
                                   SrfBoundaryIdentityChanged) in
  or_else SrfSystemdOwnerChanged (watch_stable n) ;;;
  connect SrfSystemdOwnerChanged ;;;
  let* owner := or_else SrfSystemdOwnerChanged systemd_owner in
  or_else SrfBoundaryIdentityChanged
    (pid_outside_boundary (pr_worker_pid record) control_group) ;;;
  or_else SrfBoundaryIdentityChanged
    (pid_outside_boundary (pr_launcher_pid record) control_group) ;;;
  absent_reading identity control_group owner n ;;;
  absent_reading identity control_group owner n ;;;
  or_else SrfSystemdOwnerChanged (watch_stable n).

(** ** The worker *)

Definition exited (pid : Z) (h : HostView) : bool :=
  match hv_pidfd_readable h pid with Some true => true | _ => false end.

Definition worker_identity {E} (record : PersistentRecoveryRecord)
    : RC E PersistedProcessIdentity :=
  rehydrate_process_identity (pr_worker_pid record) (pr_worker_starttime record)
    (pr_worker_executable record) (pr_worker_cgroup record).

Definition ok_of {A} (r : result A Empty_set) : A :=
  match r with Ok a => a | Err e => match e with end end.

(** [recover_validated_runtime_release], with the answers it meets: whether
    the worker exits on SIGTERM, who has its pid then, and whether that exits
    on SIGKILL. *)
Definition release_surviving_worker (authority : SameBootRecoveryAuthority)
    (record : PersistentRecoveryRecord) : RC SRF () := λ w,
  let pid := pr_worker_pid record in
  let now := rw_host w (rw_time w) in
  let '(w1, after) := worker_identity record (tick w) in
  let answers := mkReleaseHost (exited pid now) (ok_of after)
                   (exited pid (rw_host w1 (rw_time w1))) in
  let '((l, signals), r) := recover_validated_runtime_release (hv_boot_id now) answers
                              authority record (rw_ledger w, []) in
  (mkWorld (rw_host w) (S (rw_time w1)) l (rw_watches w)
     (rw_effects w ++ ((λ e, (EffSignalWorker pid e.1, e.2)) <$> signals)), r).

(** ** The whole record *)

Definition leader_identity (record : PersistentRecoveryRecord)
    : RC SRF PersistedProcessIdentity :=
  match pr_leader_pid record with
  | Some pid =>
      rehydrate_process_identity pid (pr_leader_starttime record)
        (pr_leader_executable record) (pr_control_group record)
  | None => sr_fail LeaderIdentityIndeterminate
  end.

(** From the pinned unit to the terminal. *)
Definition recover_pinned (s : RecoveryStateSnapshot) (pin : RecoveryPinnedInvocationUnit)
    (leader : PersistedProcessIdentity) : RC SRF () :=
  let* res := reconcile_payload s pin leader SystemdWatch in
  let '(s, pin, proof) := res in
  let attempt := u64_saturating_add (pr_sequence (ss_record s)) 1 in
  let* res := on_record UnsupportedRehydration (λ boot,
                persist_recovery_unref_intent boot s proof attempt) in
  let '(s, permit, authorized) := res in
  let* res := or_else SrfBoundaryIdentityChanged
                (with_pin (rebind (ss_authority s) (ss_record s)) pin) in
  or_else SrfBoundaryIdentityChanged
    (with_pin (release_recovery (ss_authority s) (ss_record s) permit authorized) res.2) ;;;
  confirm (pr_lifecycle_id (ss_record s)) "supervisor_unref" attempt ;;;
  let* s := refresh s in
  reconcile_logind_and_vt s LogindWatch (Some authorized).

(** [same_boot.snapshot()]; its [expect] holds for a classified record. *)
Definition same_boot_snapshot (same : SameBootRecoveryRecord)
    : result RecoveryStateSnapshot PreviousBootInspectionError :=
  snapshot_from_record (sb_current_boot same) (sb_record same).

(** The unit could not be pinned; if it is not there, neither may its boundary
    be. *)
Definition recover_unpinned (record : PersistentRecoveryRecord)
    (identity : PayloadScopeIdentity) (leader : PersistedProcessIdentity)
    (error : SupervisorRecoveryError) : RC SRF () :=
  match error with
  | BusUnavailable | AuthorizationDenied _ _ => sr_fail SrfSystemdOwnerChanged
  | BoundaryIdentityChanged =>
      prove_startup_absent_boundary record identity leader SystemdWatch ;;;
      confirm_absent_boundary_logind_and_vt record LogindWatch
  | _ => sr_fail SrfBoundaryIdentityChanged
  end.

(** From the worker to the unit of the payload. *)
Definition recover_snapshot (s : RecoveryStateSnapshot) : RC SRF () :=
  let record := ss_record s in
  let authority := ss_authority s in
  ensure same_boot_validates authority record else SrfBoundaryIdentityChanged ;;;
  let* worker := worker_identity record in
  match worker with
  | OriginalStillAlive => release_surviving_worker authority record
  | OriginalGone => sr_ret ()
  | PidReused | ProcessIndeterminate => sr_fail WorkerIdentityIndeterminate
  end ;;;
  let* leader := leader_identity record in
  ensure match leader with ProcessIndeterminate => false | _ => true end
    else LeaderIdentityIndeterminate ;;;
  let* unit_name := sr_lift (ok_or (pr_payload_unit record) SrfBoundaryIdentityChanged) in
  let* invocation_id := sr_lift (ok_or (pr_invocation_id record)
                                   SrfBoundaryIdentityChanged) in
  let* session_id := sr_lift (ok_or (logind_id_of record) SrfLogindIdentityChanged) in
  let identity := mkScopeIdentity unit_name invocation_id (pr_uid record) session_id in
  ensure bool_decide (pr_transient record = Some true) && validate_scope identity
    else SrfBoundaryIdentityChanged ;;;
  or_else SrfSystemdOwnerChanged open_recovery_owner_watches ;;;
  λ w,
    match rehydrate identity (pr_worker_pid record) (pr_launcher_pid record) authority
            record w with
    | (w, Ok pin) => recover_pinned s pin leader w
    | (w, Err error) => recover_unpinned record identity leader error w
    end.

Definition reconcile_same_boot_record (same : SameBootRecoveryRecord) (w : RecoveryWorld)
    : RecoveryWorld * StartupRecoveryOutcome :=
  match same_boot_snapshot same with
  | Err _ => (w, Startup.OutcomeQuarantined SrfBoundaryIdentityChanged)
  | Ok s =>
      match recover_snapshot s w with
      | (w, Ok _) => (w, OutcomeFree)
      | (w, Err reason) => (w, Startup.OutcomeQuarantined reason)
      end
  end.

(** [LinuxSupervisorRecoveryProvider], the two operations startup uses; the
    machine answers from [start same] on, and [opened] is the ledger startup
    opened. *)
Definition linux_provider (machine : nat → HostView) (start : SameBootRecoveryRecord → nat)
    (opened : PersistentRecoveryLedger) : Startup.RecoveryProvider :=
  let unwatched := λ _, mkOwnerWatch (WatchLost 0) 0 in
  Startup.mkProvider
    (λ records, (inventory_unknown_payload_scopes records
                   (mkWorld machine 0 opened unwatched [])).2)
    (λ same l,
       let '(w, outcome) := reconcile_same_boot_record same
                              (mkWorld machine (start same) l unwatched []) in
       (rw_ledger w, outcome)).
End Reconcile.
