(* ===== verification/BootInspection.v ===== *)
(** * The inspection of the current boot

    [previous_boot_linux_host.rs], [previous_boot_linux_facts.rs] and
    [previous_boot_linux_vt.rs] of [launcher/recovery]: what the Linux host
    tells the planner of a record of an earlier boot about the machine that
    runs now; and [LinuxRecoveryAdminHost] of
    [launcher/recovery_admin_host/linux.rs] with [vt_admin_effects.rs], the
    host of an administrator's retry. *)

From stdpp Require Import base gmap sets list strings pretty.
From Stdlib Require Import ZArith Lia.
From S2P Require Import Prelude Text DirFs RecoveryTypes LedgerTaxonomy Ledger.
From S2P Require Import PreviousBoot PreCommit SameBoot Finalization Admission.
From S2P Require Import AdminRecovery WorkerRecord CgroupState HostWorld.
From S2P Require Import VtHolders UnitPin VtControl Startup SameBootRecovery.
#[local] Open Scope niralis_scope.

Abbreviation PBE := PreviousBootInspectionError (only parsing).

(** ** What runs now *)

Definition is_payload_scope (id : string) : bool :=
  String.prefix "niralis-" id && str_ends_with ".scope" id.

Definition scope_facts (o : SupervisorUnitObservation) : CurrentScopeFacts :=
  mkScopeFacts (uo_id o) (uo_object_path o) (uo_invocation_id o) (uo_control_group o)
    (uo_slice o) (uo_transient o) (uo_active_state o) (uo_sub_state o).

(** [.map(..).collect::<Result<Vec<_>, _>>()]. *)
Fixpoint collect {E A B} (f : A → RC E B) (l : list A) : RC E (list B) :=
  match l with
  | [] => sr_ret []
  | a :: rest =>
      let* b := f a in
      let* others := collect f rest in
      sr_ret (b :: others)
  end.

Definition list_current_scopes : RC PBE (list CurrentScopeFacts) :=
  let* units := observe_or Unavailable hv_list_units in
  collect (λ unit : string * string,
             let* o := sr_map_err (λ _, Unavailable) (read_unit_observation unit.2) in
             sr_ret (scope_facts o))
    (filter (λ unit, is_payload_scope unit.1 = true) units).

Abbreviation ListedSession := (string * Z * string * string)%type.
Definition on_seat (seat : string) (entry : ListedSession) : bool :=
  let '(_, _, listed_seat, _) := entry in str_eqb seat "*" || str_eqb listed_seat seat.

Definition session_property {A} (path : string) (field : SessionProperties → A) : RC PBE A :=
  observe_or Unavailable (λ h, field <$> hv_session h path).
(** The seat is asked for as a string. *)
Definition session_facts (entry : ListedSession) : RC PBE CurrentSessionFacts :=
  let '(listed_id, _, _, path) := entry in
  let* session_id := session_property path sp_id in
  let* seat := observe_or Unavailable (λ h, iq_seat_string (hv_inspect h) path) in
  let* leader_pid := session_property path sp_leader in
  let* vt := session_property path sp_vt_number in
  let* state := session_property path sp_state in
  let* scope := session_property path sp_scope in
  sr_ret (mkSessionFacts (if str_is_empty session_id then listed_id else session_id) path
            seat leader_pid vt state scope).

Definition list_current_sessions (seat : string) : RC PBE (list CurrentSessionFacts) :=
  connect Unavailable ;;;
  let* entries := observe_or Unavailable hv_list_sessions in
  collect session_facts (filter (λ entry, on_seat seat entry = true) entries).

Definition observation (present : bool) : CurrentIdentityObservation :=
  if present then PresentButDifferentIdentity else ObsAbsent.

(** [old.as_deref() == Some(current.as_str())] for one of the current ones. *)
Definition any_is {A} (old : option string) (field : A → string) (l : list A) : bool :=
  existsb (λ a, bool_decide (old = Some (field a))) l.

Definition current_conflicts (record : PreviousBootRecoveryRecord)
    (records : list PersistentRecoveryRecord) (scopes : list CurrentScopeFacts)
    (sessions : list CurrentSessionFacts) : CurrentBootConflictFacts :=
  let old := pb_record record in
  mkConflictFacts
    (observation (any_is (pr_payload_unit old) sf_unit_name scopes))
    (observation (any_is (pr_invocation_id old) sf_invocation_id scopes))
    (observation (any_is (pr_control_group old) sf_control_group scopes))
    (observation (any_is (pr_logind_session_id old) ssf_session_id sessions))
    (observation (existsb (λ r, str_eqb (pr_lifecycle_id r) (pr_lifecycle_id old)
                    && negb (str_eqb (pr_created_boot_id r) (pr_created_boot_id old))) records)).

Definition current_seat (record : PreviousBootRecoveryRecord)
    (records : list PersistentRecoveryRecord) (scopes : list CurrentScopeFacts)
    (sessions : list CurrentSessionFacts) (current_boot : BootIdentity) : CurrentSeatFacts :=
  let current_record := List.find (λ r, str_eqb (pr_seat r) (pr_seat (pb_record record))
                          && str_eqb (pr_created_boot_id r) (boot_str current_boot)) records in
  mkSeatFacts
    (match current_record with
     | Some _ => ClaimedByCurrentLifecycle
     | None => if bool_decide (scopes = []) && bool_decide (sessions = [])
               then Unclaimed else SeatConflicting
     end)
    true (pr_lifecycle_id <$> current_record) sessions scopes.

(** The historical processes whose pid is in use. *)
Definition pid_collision (entry : Z * option Z * option (Z * Z))
    : RC PBE (list HistoricalIdentityCollision) :=
  let '(pid, starttime, executable) := entry in
  if pid =? 0 then sr_ret []
  else
    let* there := observe (λ h, hv_proc_exists h pid) in
    if negb there then sr_ret []
    else
      let* stat := observe (λ h, hv_stat h pid) in
      let* exe := observe (λ h, hv_exe h pid) in
      let* cgroup := observe (λ h, hv_cgroup_of h pid) in
      sr_ret [mkCollision pid starttime (proc_starttime stat) executable exe
                (cgroup ≫= λ text, head (unified_lines text))].
Definition historical_processes (r : PersistentRecoveryRecord)
    : list (Z * option Z * option (Z * Z)) :=
  [(pr_worker_pid r, pr_worker_starttime r, pr_worker_executable r);
   (pr_launcher_pid r, pr_launcher_starttime r, pr_launcher_executable r);
   (default 0 (pr_leader_pid r), pr_leader_starttime r, pr_leader_executable r)].
Definition historical_pid_collisions (r : PersistentRecoveryRecord)
    : RC PBE (list HistoricalIdentityCollision) :=
  let* found := collect pid_collision (historical_processes r) in
  sr_ret (concat found).

(** ** The terminal *)

Definition read_active_vt : RC PBE (option Z) :=
  let* opened := observe (λ h, hv_open_tty h "/dev/tty0") in
  ensure bool_decide (opened = None) else Unavailable ;;;
  let* state := observe hv_vt_state in
  match state with
  | Ok (active, _) => sr_ret (Some active)
  | Err _ => sr_fail Unavailable
  end.

Definition inspect_vt (vt : Z) : RC PBE CurrentVtFacts :=
  let* active := read_active_vt in
  let* metadata := asked (λ q, iq_tty_stat q vt) in
  match metadata with
  | Err _ => sr_fail Unavailable
  | Ok (_, major, minor) =>
      let* f := enumerate_holders (device_identity major minor) (mkFindings [] false []) in
      let disposition := if bool_decide (active = Some vt) then VtForeground
                         else if negb (bool_decide (fi_holders f = []))
                         then VisibleCurrentHolder else NotForegroundAndUnused in
      sr_ret (mkVtFacts vt active disposition
                (negb (fi_truncated f) && bool_decide (fi_failures f = [])) (fi_holders f))
  end.

(** ** The host *)

Definition current_boot_identity : RC PBE BootIdentity :=
  let* id := observe hv_boot_id in
  sr_lift (match id with Ok id => BootIdentity_parse id | Err _ => Err Unavailable end).

(** [target_vt.map(inspect_vt).transpose()]. *)
Definition inspect_target_vt (target_vt : option Z) : RC PBE (option CurrentVtFacts) :=
  match target_vt with
  | None => sr_ret None
  | Some vt => let* facts := inspect_vt vt in sr_ret (Some facts)
  end.

Definition inspect_current_snapshot (record : PreviousBootRecoveryRecord)
    (records : list PersistentRecoveryRecord) : RC PBE PreviousBootCurrentFacts :=
  let old := pb_record record in
  let unavailable {A} (m : RC SupervisorRecoveryError A) := sr_map_err (λ _, Unavailable) m in
  let* boot := current_boot_identity in
  connect Unavailable ;;;
  let* systemd_before := unavailable systemd_owner in
  let* scopes := list_current_scopes in
  let* logind_before := unavailable logind_owner in
  let* sessions := list_current_sessions (pr_seat old) in
  let conflicts := current_conflicts record records scopes sessions in
  let seat := current_seat record records scopes sessions boot in
  let* vt := inspect_target_vt (pr_target_vt old) in
  let* reuse := historical_pid_collisions old in
  let* systemd_after := unavailable systemd_owner in
  let* logind_after := unavailable logind_owner in
  ensure str_eqb systemd_before systemd_after && str_eqb logind_before logind_after
    else AuthorityChanged ;;;
  let same_seat r := str_eqb (pr_seat r) (pr_seat old) in
  sr_ret (mkFacts
    (mkAuthorityFacts (Some systemd_before) (Some 0) (Some logind_before) (Some 0) true)
    conflicts seat scopes sessions reuse vt
    (pr_lifecycle_id <$> filter (λ r, same_seat r
       && negb (str_eqb (pr_lifecycle_id r) (pr_lifecycle_id old)) = true) records)
    []
    (existsb (λ r, same_seat r && (pr_sequence old <? pr_sequence r)) records)
    (existsb (λ r, same_seat r && str_eqb (pr_created_boot_id r) (boot_str boot)) records)
    false).

(** The narrower questions of the host, for a record's identities and for a
    seat. *)
Definition inspect_current_conflicts (record : PersistentRecoveryRecord)
    : RC PBE CurrentBootConflictFacts :=
  connect Unavailable ;;;
  let* scopes := list_current_scopes in
  let* sessions := list_current_sessions "*" in
  sr_ret (mkConflictFacts
    (observation (any_is (pr_payload_unit record) sf_unit_name scopes))
    (observation (any_is (pr_invocation_id record) sf_invocation_id scopes))
    (observation (any_is (pr_control_group record) sf_control_group scopes))
    (observation (any_is (pr_logind_session_id record) ssf_session_id sessions))
    ObsAbsent).
Definition inspect_current_seat (seat : string) : RC PBE CurrentSeatFacts :=
  connect Unavailable ;;;
  let* scopes := list_current_scopes in
  let* sessions := list_current_sessions seat in
  sr_ret (mkSeatFacts
    (if bool_decide (scopes = []) && bool_decide (sessions = []) then Unclaimed
     else SeatConflicting) true None sessions scopes).

(** [LinuxPreviousBootInspectionHost], asked at some moments of the machine. *)
Definition LinuxPreviousBootInspectionHost (at_boot at_snapshot : RecoveryWorld)
    : InspectionHost :=
  mkHost (current_boot_identity at_boot).2
    (λ record records, (inspect_current_snapshot record records at_snapshot).2).

(** ** The host of an administrator's retry *)

Definition disallocate_virtual_terminal_once (target : Z) : RC SupervisorRecoveryError () :=
  open_tty "/dev/tty0" ;;; disallocate_virtual_terminal target.

(** Run a routine and look at its result. *)
Definition tried {E F A} (m : RC E A) : RC F (result A E) := λ w,
  let '(w, r) := m w in (w, Ok r).

(** A process that is not proven gone. *)
Definition process_verdict (alive : RecoveryAdminBoundaryFacts)
    (identity : PersistedProcessIdentity) : result () RecoveryAdminBoundaryFacts :=
  match identity with
  | OriginalStillAlive => Err alive
  | PidReused => Err BfProcessIdentityReused
  | ProcessIndeterminate => Err BfIndeterminate
  | OriginalGone => Ok ()
  end.

(** [inspect_boundary] up to its [Absent]: the error is what it returns
    early. *)
Definition boundary_checks (record : PersistentRecoveryRecord)
    : RC RecoveryAdminBoundaryFacts () :=
  sr_map_err (λ _, BfIndeterminate) open_recovery_owner_watches ;;;
  let* systemd := tried (stable_snapshot SystemdWatch) in
  let* logind := tried (stable_snapshot LogindWatch) in
  match systemd, logind with
  | Ok systemd_snapshot, Ok logind_snapshot =>
      let* worker := rehydrate_process_identity (pr_worker_pid record)
                       (pr_worker_starttime record) (pr_worker_executable record)
                       (pr_worker_cgroup record) in
      let* launcher := rehydrate_process_identity (pr_launcher_pid record)
                         (pr_launcher_starttime record) (pr_launcher_executable record) None in
      sr_lift (process_verdict BfWorkerAlive worker) ;;;
      sr_lift (process_verdict BfLauncherAlive launcher) ;;;
      let* id := sr_lift (ok_or (pr_logind_session_id record ≫= LogindSessionId_new)
                            BfIndeterminate) in
      let* there := sr_map_err (λ _, BfIndeterminate) (logind_session_exists id) in
      ensure negb there else BfLogindPresent ;;;
      let* invocation := sr_lift (ok_or (pr_invocation_id record) BfIndeterminate) in
      connect BfIndeterminate ;;;
      let* path := sr_map_err (λ _, BfIndeterminate) (resolve_invocation invocation) in
      ensure bool_decide (path = None) else BfPopulated ;;;
      sr_map_err (λ _, BfAuthorityChanged) (still_authorizes SystemdWatch systemd_snapshot) ;;;
      sr_map_err (λ _, BfAuthorityChanged) (still_authorizes LogindWatch logind_snapshot)
  | _, _ => sr_fail BfAuthorityLost
  end.
Definition inspect_boundary (record : PersistentRecoveryRecord) (w : RecoveryWorld)
    : RecoveryAdminBoundaryFacts :=
  match (boundary_checks record w).2 with Ok _ => BfAbsent | Err facts => facts end.

(** [inspect_vt], with the processes of the record. *)
Definition inspect_admin_vt {E} (record : PersistentRecoveryRecord) (target_vt : Z)
    : RC E VtBusyProvenance :=
  let* self := observe (λ h, (hv_self_pid h, proc_starttime (hv_stat h (hv_self_pid h)))) in
  inspect_vt_busy target_vt
    [self; (pr_worker_pid record, pr_worker_starttime record);
     (pr_launcher_pid record, pr_launcher_starttime record)].
(** What the inspection reports, which never fails. *)
Definition admin_vt_report (record : PersistentRecoveryRecord) (target_vt : Z)
    (w : RecoveryWorld) : VtBusyProvenance :=
  match (inspect_admin_vt (E:=Empty_set) record target_vt w).2 with
  | Ok report => report
  | Err e => match e with end
  end.

(** [LinuxRecoveryAdminHost], asked at some moments of the machine. *)
Definition LinuxRecoveryAdminHost (at_boundary at_vt at_ioctl at_after : RecoveryWorld)
    : RecoveryAdminHost :=
  mkAdminHost
    (λ record, inspect_boundary record at_boundary)
    (λ record vt, admin_vt_report record vt at_vt)
    (λ record vt, admin_vt_report record vt at_after)
    (λ record, map_err (λ _, VtIdentityChanged) (persisted_vt_identity record))
    (λ vt, (disallocate_virtual_terminal_once vt at_ioctl).2)
    (λ _, Ok ()).
