(* ===== verification/RecoveryTrace.v ===== *)
(** * What the steps of a recovery do to the machine

    Every routine that asks or acts leaves the ledger alone and extends the log
    of effects by at most the effects of a given list, in its order.  [emits]
    states this for a routine, the hint database [emits] holds it for those of
    [HostWorld], [UnitPin], [VtControl] and [SameBootRecovery], and [solve_emits]
    composes it along a routine's text. *)

From stdpp Require Import base gmap sets list strings pretty.
From Stdlib Require Import ZArith Lia.
From S2P Require Import Prelude Text DirFs RecoveryTypes LedgerTaxonomy Ledger.
From S2P Require Import PreviousBoot PreCommit SameBoot Admission AdminRecovery.
From S2P Require Import WorkerRecord CgroupState HostWorld VtHolders UnitPin.
From S2P Require Import VtControl.
From S2P Require Import Startup SameBootRecovery.
#[local] Open Scope niralis_scope.

(** ** Kinds of effects *)

Inductive EffectKind :=
| KTermWorker (pid : Z) | KKillWorker (pid : Z) | KRef | KKill | KUnref | KTerminate
| KSetText | KSetMode | KRestore | KActivate | KDisallocate.
#[export] Instance EffectKind_eq_dec : EqDecision EffectKind.
Proof. solve_decision. Defined.

Definition effect_kind (e : RecoveryEffect) : EffectKind :=
  match e with
  | EffUnit SuoRef _ => KRef
  | EffUnit SuoKill _ => KKill
  | EffUnit SuoUnref _ => KUnref
  | EffTerminateSession _ => KTerminate
  | EffIoctl (KdSetModeText _) => KSetText
  | EffIoctl (VtSetModeAuto _) => KSetMode
  | EffIoctl (VtActivate _) => KActivate
  | EffIoctl (VtDisallocate _) => KDisallocate
  | EffRestoreContext _ => KRestore
  | EffSignalWorker pid SIGTERM => KTermWorker pid
  | EffSignalWorker pid SIGKILL => KKillWorker pid
  end.

(** The world [w'] differs from [w] by effects of the kinds [kinds], in that
    order, done under the ledger of [w]. *)
Record extends (kinds : list EffectKind) (w w' : RecoveryWorld) : Prop := {
  ex_ledger : rw_ledger w' = rw_ledger w;
  ex_host : rw_host w' = rw_host w;
  ex_time : (rw_time w ≤ rw_time w')%nat;
  ex_effects : ∃ effects,
    rw_effects w' = rw_effects w ++ ((λ e, (e, rw_ledger w)) <$> effects) ∧
    (effect_kind <$> effects) `sublist_of` kinds;
}.

Lemma extends_refl kinds w : extends kinds w w.
Proof.
  split; [done..|]. exists []. split; [by rewrite app_nil_r|]. apply sublist_nil_l.
Qed.
Lemma extends_trans k1 k2 w1 w2 w3 :
  extends k1 w1 w2 → extends k2 w2 w3 → extends (k1 ++ k2) w1 w3.
Proof.
  intros [L1 H1 T1 (e1 & E1 & S1)] [L2 H2 T2 (e2 & E2 & S2)].
  split; [congruence..|lia|]. exists (e1 ++ e2). rewrite E2, E1, L1, fmap_app, <- app_assoc.
  split; [done|]. rewrite fmap_app. by apply sublist_app.
Qed.
Lemma extends_weaken k1 k2 w w' :
  k1 `sublist_of` k2 → extends k1 w w' → extends k2 w w'.
Proof.
  intros Hk [L H T (es & E & S)]. split; [done..|]. exists es. split; [done|]. by etrans.
Qed.

(** ** Routines *)

Section Emits.
Context {S : Type} (get : S → RecoveryWorld).

Definition emits {E A} (kinds : list EffectKind) (m : SR S E A) : Prop :=
  ∀ s, extends kinds (get s) (get (m s).1).

Lemma emits_weaken {E A} k1 k2 (m : SR S E A) :
  k1 `sublist_of` k2 → emits k1 m → emits k2 m.
Proof. intros Hk Hm s. by eapply extends_weaken. Qed.
Lemma emits_read {E A} k (f : S → result A E) : emits k (λ s, (s, f s)).
Proof. intros s. apply extends_refl. Qed.
Lemma emits_ret {E A} k (a : A) : emits k (sr_ret (E:=E) a).
Proof. apply emits_read. Qed.
Lemma emits_fail {E A} k (e : E) : emits k (sr_fail (A:=A) e).
Proof. apply emits_read. Qed.
Lemma emits_lift {E A} k (r : result A E) : emits k (sr_lift r).
Proof. apply emits_read. Qed.
Lemma emits_bind {E A B} k1 k2 (m : SR S E A) (k : A → SR S E B) :
  emits k1 m → (∀ a, emits k2 (k a)) → emits (k1 ++ k2) (sr_bind m k).
Proof.
  intros Hm Hk s. unfold sr_bind. specialize (Hm s).
  destruct (m s) as [s' [a|e]]; cbn in *.
  - by eapply extends_trans, Hk.
  - eapply extends_weaken; [|exact Hm]. by apply sublist_inserts_r.
Qed.
(** The first routine does nothing to the machine. *)
Lemma emits_quiet_bind {E A B} kinds (m : SR S E A) (k : A → SR S E B) :
  emits [] m → (∀ a, emits kinds (k a)) → emits kinds (sr_bind m k).
Proof. apply (emits_bind []). Qed.
(** The first routine does the first thing. *)
Lemma emits_first_bind {E A B} kind kinds (m : SR S E A) (k : A → SR S E B) :
  emits [kind] m → (∀ a, emits kinds (k a)) → emits (kind :: kinds) (sr_bind m k).
Proof. apply (emits_bind [kind]). Qed.
Lemma emits_map_err {E F A} kinds (f : E → F) (m : SR S E A) :
  emits kinds m → emits kinds (sr_map_err f m).
Proof. intros Hm s. unfold sr_map_err. specialize (Hm s). by destruct (m s). Qed.
Lemma emits_ensure {E} kinds (b : bool) (e : E) :
  emits kinds (if b then sr_ret () else sr_fail e).
Proof. destruct b; apply emits_read. Qed.
End Emits.

Abbreviation acts := (emits id).

Create HintDb emits discriminated.
#[export] Hint Constants Opaque : emits.

Lemma observe_emits {E A} k (f : HostView → A) : acts k (observe (E:=E) f).
Proof.
  intros w. split; cbn; [done..|lia|]. exists []. split; [by rewrite app_nil_r|].
  apply sublist_nil_l.
Qed.
Lemma act_emits {E A} e (f : HostView → A) : acts [effect_kind e] (act (E:=E) e f).
Proof. intros w. split; cbn; [done..|lia|]. by exists [e]. Qed.
#[export] Hint Resolve emits_ret emits_fail emits_lift emits_read emits_ensure
  observe_emits : emits.

(** Compose along the text of a routine.  The goal's list is consumed from its
    head by the routines that act. *)
Ltac emits_step :=
  match goal with
  | |- emits _ _ (sr_bind _ _) =>
      first [ apply emits_quiet_bind; [solve [emits_auto]|intros ?]
            | apply emits_first_bind; [solve [emits_auto]|intros ?]
            | eapply emits_weaken; [|apply emits_bind; [solve [emits_auto]|intros ?]];
              [solve [eauto with emits]|] ]
  | |- emits _ _ (sr_map_err _ _) => apply emits_map_err
  | |- emits _ _ (match ?x with _ => _ end) => destruct x eqn:?
  | |- emits _ _ (if ?x then _ else _) => destruct x eqn:?
  | |- emits _ _ (let '(_, _) := ?x in _) => destruct x eqn:?
  end
with emits_auto := solve [eauto with emits nocore] || (repeat (first [solve [eauto with emits nocore] | emits_step])).
Ltac solve_emits := intros; cbn beta zeta; emits_auto.

Lemma observe_or_emits {E A} k (e : E) (f : HostView → option A) : acts k (observe_or e f).
Proof. unfold observe_or. solve_emits. Qed.
Lemma connect_emits {E} k (e : E) : acts k (connect e).
Proof. unfold connect. solve_emits. Qed.
#[export] Hint Resolve observe_or_emits connect_emits : emits.

Lemma asked_emits {E A} k (f : InspectView → A) : acts k (asked (E:=E) f).
Proof. apply observe_emits. Qed.
#[export] Hint Resolve asked_emits : emits.
Lemma for_each_emits {E} k (step : string → Findings → RC E Findings) names f :
  (∀ name f, acts [] (step name f)) → acts k (for_each step names f).
Proof.
  intros Hs. revert f. induction names as [|name rest IH]; intros f; cbn [for_each]; [solve_emits|].
  by apply emits_quiet_bind.
Qed.
Lemma inspect_fd_emits {E} k target pid starttime uid name f :
  acts k (inspect_fd (E:=E) target pid starttime uid name f).
Proof. unfold inspect_fd, inspect_candidate. solve_emits. Qed.
#[export] Hint Resolve inspect_fd_emits : emits.
Lemma inspect_process_emits {E} k target name f :
  acts k (inspect_process (E:=E) target name f).
Proof.
  unfold inspect_process. emits_auto. apply for_each_emits. solve_emits.
Qed.
#[export] Hint Resolve inspect_process_emits : emits.
Lemma enumerate_holders_emits {E} k target f : acts k (enumerate_holders (E:=E) target f).
Proof. unfold enumerate_holders. emits_auto. apply for_each_emits. solve_emits. Qed.
#[export] Hint Resolve enumerate_holders_emits : emits.
Lemma inspect_vt_busy_emits {E} k vt known : acts k (inspect_vt_busy (E:=E) vt known).
Proof. unfold inspect_vt_busy, target_device, active_vt_or_failure. solve_emits. Qed.
#[export] Hint Resolve inspect_vt_busy_emits : emits.

(** ** The machine *)

Lemma systemd_owner_emits k : acts k systemd_owner.
Proof. unfold systemd_owner. solve_emits. Qed.
Lemma logind_owner_emits k : acts k logind_owner.
Proof. unfold logind_owner. solve_emits. Qed.
Lemma resolve_invocation_emits k id : acts k (resolve_invocation id).
Proof. unfold resolve_invocation. solve_emits. Qed.
Lemma read_unit_observation_emits k path : acts k (read_unit_observation path).
Proof. unfold read_unit_observation. solve_emits. Qed.
Lemma logind_session_exists_emits k id : acts k (logind_session_exists id).
Proof. unfold logind_session_exists. solve_emits. Qed.
Lemma read_logind_identity_emits k path id : acts k (read_logind_identity path id).
Proof. unfold read_logind_identity. solve_emits. Qed.
#[export] Hint Resolve systemd_owner_emits logind_owner_emits resolve_invocation_emits
  read_unit_observation_emits logind_session_exists_emits read_logind_identity_emits : emits.
Lemma resolve_logind_identity_emits k p : acts k (resolve_logind_identity p).
Proof. unfold resolve_logind_identity. solve_emits. Qed.
Lemma removal_observer_open_emits k id : acts k (removal_observer_open id).
Proof. unfold removal_observer_open. solve_emits. Qed.
Lemma removal_wait_emits k wakeups id : acts k (removal_wait wakeups id).
Proof.
  induction wakeups as [|[errno|observer timer watch] rest IH]; cbn [removal_wait];
    solve_emits.
Qed.
#[export] Hint Resolve resolve_logind_identity_emits removal_observer_open_emits
  removal_wait_emits : emits.
Lemma removal_observer_wait_emits k id : acts k (removal_observer_wait id).
Proof. unfold removal_observer_wait. solve_emits. Qed.
#[export] Hint Resolve removal_observer_wait_emits : emits.

Lemma unit_call_emits op path : acts [effect_kind (EffUnit op path)] (unit_call op path).
Proof.
  unfold unit_call. apply emits_first_bind; [apply act_emits|]. intros [e|]; solve_emits.
Qed.
Lemma unit_ref_emits path : acts [KRef] (unit_call SuoRef path).
Proof. exact (unit_call_emits SuoRef path). Qed.
Lemma unit_kill_emits path : acts [KKill] (unit_call SuoKill path).
Proof. exact (unit_call_emits SuoKill path). Qed.
Lemma unit_unref_emits path : acts [KUnref] (unit_call SuoUnref path).
Proof. exact (unit_call_emits SuoUnref path). Qed.
Lemma terminate_act_emits {E A} id (f : HostView → A) :
  acts [KTerminate] (act (E:=E) (EffTerminateSession id) f).
Proof. exact (act_emits (EffTerminateSession id) f). Qed.
Lemma restore_act_emits {E A} path (f : HostView → A) :
  acts [KRestore] (act (E:=E) (EffRestoreContext path) f).
Proof. exact (act_emits (EffRestoreContext path) f). Qed.
#[export] Hint Resolve unit_ref_emits unit_kill_emits unit_unref_emits terminate_act_emits
  restore_act_emits : emits.

Lemma terminate_raw_emits identity :
  acts [KTerminate] (terminate_logind_session_raw identity).
Proof. unfold terminate_logind_session_raw. solve_emits. Qed.
#[export] Hint Resolve terminate_raw_emits : emits.

(** ** Watches and processes *)

Lemma end_watch_emits {E} k n next : acts k (end_watch (E:=E) n next).
Proof.
  intros w. split; [done..|]. exists []. split; [by rewrite app_nil_r|]. apply sublist_nil_l.
Qed.
#[export] Hint Resolve end_watch_emits : emits.
Lemma mark_lost_emits {E} k n : acts k (mark_lost (E:=E) n).
Proof. apply end_watch_emits. Qed.
Lemma invalidate_emits {E} k n a b : acts k (invalidate (E:=E) n a b).
Proof. apply end_watch_emits. Qed.
Lemma read_watch_emits {E} k n : acts k (read_watch (E:=E) n).
Proof. apply emits_read. Qed.
#[export] Hint Resolve mark_lost_emits invalidate_emits read_watch_emits : emits.
Lemma deliver_signal_emits {E} k n : acts k (deliver_signal (E:=E) n).
Proof. unfold deliver_signal. solve_emits. Qed.
#[export] Hint Resolve deliver_signal_emits : emits.
Lemma watch_state_emits {E} k n : acts k (watch_state (E:=E) n).
Proof. unfold watch_state. solve_emits. Qed.
Lemma current_owner_emits k n : acts k (current_owner n).
Proof. unfold current_owner. solve_emits. Qed.
#[export] Hint Resolve watch_state_emits current_owner_emits : emits.

(** A routine whose failure is followed by another one. *)
Lemma emits_case {S E F A B} (get : S → RecoveryWorld) k1 k2 (m : SR S E A)
    (ok : A → SR S F B) (err : E → SR S F B) :
  emits get k1 m → (∀ a, emits get k2 (ok a)) → (∀ e, emits get k2 (err e)) →
  emits get (k1 ++ k2)
    (λ s, match m s with (s, Ok a) => ok a s | (s, Err e) => err e s end).
Proof.
  intros Hm Hok Herr s. specialize (Hm s).
  destruct (m s) as [s' [a|e]]; cbn in *; by eapply extends_trans, Hok || eapply extends_trans, Herr.
Qed.

Lemma watch_stable_emits k n : acts k (watch_stable n).
Proof.
  unfold watch_stable. apply emits_quiet_bind; [solve_emits|intros readable].
  apply emits_quiet_bind; [solve_emits|intros _].
  apply emits_quiet_bind; [solve_emits|intros [owner g| |]]; [|solve_emits..].
  intros w. pose proof (current_owner_emits [] n w) as Hc.
  destruct (current_owner n w) as [w' [current|e]]; cbn in Hc; cbn.
  - destruct (str_eqb current owner); [by eapply extends_weaken; [|exact Hc]; apply sublist_nil_l|].
    eapply (extends_trans []); [exact Hc|].
    assert (acts k (invalidate n owner current ;;; sr_fail (A:=()) BusUnavailable)) as Hi
      by solve_emits. exact (Hi w').
  - eapply (extends_trans []); [exact Hc|].
    assert (acts k (mark_lost n ;;; sr_fail (A:=()) e)) as Hi by solve_emits.
    exact (Hi w').
Qed.
#[export] Hint Resolve watch_stable_emits : emits.
Lemma stable_snapshot_emits k n : acts k (stable_snapshot n).
Proof. unfold stable_snapshot. solve_emits. Qed.
Lemma still_authorizes_emits k n s : acts k (still_authorizes n s).
Proof. unfold still_authorizes. solve_emits. Qed.
Lemma set_watch_emits {E} k n watch : acts k (sr_modify (E:=E) (set_watch n watch)).
Proof.
  intros w. split; [done..|]. exists []. split; [by rewrite app_nil_r|]. apply sublist_nil_l.
Qed.
#[export] Hint Resolve stable_snapshot_emits still_authorizes_emits set_watch_emits : emits.
Lemma watch_open_emits k n owner : acts k (watch_open n owner).
Proof. unfold watch_open. solve_emits. Qed.
#[export] Hint Resolve watch_open_emits : emits.
Lemma open_watches_emits k : acts k open_recovery_owner_watches.
Proof. unfold open_recovery_owner_watches. solve_emits. Qed.
Lemma rehydrate_process_emits {E} k pid st exe cg :
  acts k (rehydrate_process_identity (E:=E) pid st exe cg).
Proof. unfold rehydrate_process_identity. solve_emits. Qed.
Lemma pid_outside_emits k pid b : acts k (pid_outside_boundary pid b).
Proof. unfold pid_outside_boundary. solve_emits. Qed.
Lemma boundary_state_emits k cg : acts k (boundary_state cg).
Proof. unfold boundary_state. solve_emits. Qed.
Lemma observer_refresh_emits k cg : acts k (observer_refresh cg).
Proof. unfold observer_refresh. solve_emits. Qed.
#[export] Hint Resolve open_watches_emits rehydrate_process_emits pid_outside_emits
  boundary_state_emits observer_refresh_emits : emits.
Lemma observer_open_emits k cg : acts k (observer_open cg).
Proof. unfold observer_open. solve_emits. Qed.
#[export] Hint Resolve observer_open_emits : emits.

(** ** Pins *)

Lemma in_world_emits {E A} k (m : RC E A) : acts k m → emits fst k (in_world m).
Proof.
  intros Hm [w p]. specialize (Hm w). unfold in_world, sr_zoom. cbn in *.
  by destruct (m w).
Qed.
Lemma inner_of_emits {E A} k (m : PN E A) : emits fst k m → emits fst k (inner_of m).
Proof.
  intros Hm [w p]. specialize (Hm (w, rpn_inner p)). unfold inner_of, sr_zoom. cbn in *.
  by destruct (m (w, rpn_inner p)).
Qed.
Lemma this_pin_emits {E} k : emits fst k (this_pin (E:=E)).
Proof. apply emits_read. Qed.
Lemma recovery_pin_emits {E} k : emits fst k (recovery_pin (E:=E)).
Proof. apply emits_read. Qed.
Lemma set_flags_emits {E} k a b : emits fst k (set_flags (E:=E) a b).
Proof. intros [w p]. apply extends_refl. Qed.
#[export] Hint Resolve in_world_emits inner_of_emits this_pin_emits recovery_pin_emits
  set_flags_emits emits_map_err : emits.

Lemma validate_owner_emits k : emits fst k validate_owner.
Proof. unfold validate_owner. solve_emits. Qed.
#[export] Hint Resolve validate_owner_emits : emits.
Lemma revalidate_emits k b : emits fst k (revalidate b).
Proof. unfold revalidate. solve_emits. Qed.
Lemma pin_boundary_state_emits k : emits fst k pin_boundary_state.
Proof. unfold pin_boundary_state. solve_emits. Qed.
#[export] Hint Resolve revalidate_emits pin_boundary_state_emits : emits.
Lemma request_kill_emits : emits fst [KKill] request_emergency_kill.
Proof. unfold request_emergency_kill. solve_emits. Qed.
Lemma pin_release_emits : emits fst [KUnref] pin_release.
Proof. unfold pin_release. solve_emits. Qed.
#[export] Hint Resolve request_kill_emits pin_release_emits : emits.
Lemma rebind_emits k authority record : emits fst k (rebind authority record).
Proof.
  unfold rebind. apply emits_quiet_bind; [solve_emits|intros p].
  apply emits_quiet_bind; [solve_emits|intros _]. intros [w q]. apply extends_refl.
Qed.
Lemma validate_binding_emits k authority record permit :
  emits fst k (validate_binding authority record permit).
Proof. unfold validate_binding. solve_emits. Qed.
#[export] Hint Resolve rebind_emits validate_binding_emits : emits.
Lemma recovery_kill_emits authority record permit :
  emits fst [KKill] (request_recovery_emergency_kill authority record permit).
Proof. unfold request_recovery_emergency_kill. solve_emits. Qed.
Lemma release_recovery_emits authority record permit proof :
  emits fst [KUnref] (release_recovery authority record permit proof).
Proof. unfold release_recovery. solve_emits. Qed.
#[export] Hint Resolve recovery_kill_emits release_recovery_emits : emits.

Lemma unref_unit_emits {E} path : acts [KUnref] (unref_unit (E:=E) path).
Proof. exact (act_emits (EffUnit SuoUnref path) _). Qed.
#[export] Hint Resolve unref_unit_emits : emits.
Lemma or_unref_emits {A} path (m : RC SupervisorRecoveryError A) :
  acts [] m → acts [KUnref] (or_unref path m).
Proof.
  intros Hm. apply (emits_case id [] [KUnref] m (λ a, sr_ret a)
    (λ e, unref_unit path ;;; sr_fail e)); [done|solve_emits..].
Qed.
#[export] Hint Extern 1 (emits id [KUnref] (or_unref _ _)) =>
  apply or_unref_emits; solve_emits : emits.
Lemma rehydrate_emits identity wp lp authority record :
  acts [KRef; KUnref] (rehydrate identity wp lp authority record).
Proof. unfold rehydrate. solve_emits. Qed.
#[export] Hint Resolve rehydrate_emits : emits.

(** ** The terminal and the login session *)

Lemma validate_tty_device_emits k path identity : acts k (validate_tty_device path identity).
Proof. unfold validate_tty_device. solve_emits. Qed.
Lemma open_tty_emits k path : acts k (open_tty path).
Proof. unfold open_tty. solve_emits. Qed.
Lemma read_vt_state_emits k : acts k read_vt_state.
Proof. unfold read_vt_state. solve_emits. Qed.
#[export] Hint Resolve validate_tty_device_emits open_tty_emits read_vt_state_emits : emits.
Lemma inspect_vt_emits k identity : acts k (inspect_startup_virtual_terminal identity).
Proof. unfold inspect_startup_virtual_terminal. solve_emits. Qed.
Lemma active_vt_emits k : acts k active_vt.
Proof. unfold active_vt. solve_emits. Qed.
#[export] Hint Resolve inspect_vt_emits active_vt_emits : emits.
Lemma activation_wait_emits k wakeups expected : acts k (activation_wait wakeups expected).
Proof.
  induction wakeups as [|[errno|observer timer watch] rest IH]; cbn [activation_wait];
    solve_emits.
Qed.
#[export] Hint Resolve activation_wait_emits : emits.
Lemma wait_activation_emits k expected : acts k (wait_for_previous_vt_activation expected).
Proof. unfold wait_for_previous_vt_activation. solve_emits. Qed.
#[export] Hint Resolve wait_activation_emits : emits.
Lemma restore_context_emits path : acts [KRestore] (restore_default_selinux_context path).
Proof. unfold restore_default_selinux_context. solve_emits. Qed.
Lemma set_text_emits {E} n : acts [KSetText] (ioctl (E:=E) (KdSetModeText n)).
Proof. exact (act_emits (EffIoctl (KdSetModeText n)) _). Qed.
Lemma set_mode_emits {E} n : acts [KSetMode] (ioctl (E:=E) (VtSetModeAuto n)).
Proof. exact (act_emits (EffIoctl (VtSetModeAuto n)) _). Qed.
Lemma activate_emits {E} n : acts [KActivate] (ioctl (E:=E) (VtActivate n)).
Proof. exact (act_emits (EffIoctl (VtActivate n)) _). Qed.
Lemma disallocate_emits {E} n : acts [KDisallocate] (ioctl (E:=E) (VtDisallocate n)).
Proof. exact (act_emits (EffIoctl (VtDisallocate n)) _). Qed.
#[export] Hint Resolve restore_context_emits set_text_emits set_mode_emits activate_emits
  disallocate_emits : emits.
Lemma disallocate_vt_emits n : acts [KDisallocate] (disallocate_virtual_terminal n).
Proof. unfold disallocate_virtual_terminal. solve_emits. Qed.
#[export] Hint Resolve disallocate_vt_emits : emits.

Definition vt_kinds : list EffectKind :=
  [KSetText; KSetMode; KRestore; KActivate; KDisallocate].

Lemma recover_vt_emits identity : acts vt_kinds (recover_virtual_terminal_raw identity).
Proof. unfold recover_virtual_terminal_raw, vt_kinds. solve_emits. Qed.
#[export] Hint Resolve recover_vt_emits : emits.
Lemma vt_effects_emits authority target proof permit n owner :
  acts vt_kinds (vt_effects_recover authority target proof permit n owner).
Proof.
  unfold vt_effects_recover. apply emits_quiet_bind; [solve_emits|intros _].
  apply emits_quiet_bind; [solve_emits|intros _]. intros w.
  pose proof (recover_vt_emits (vtt_identity target) w) as Hr.
  destruct (recover_virtual_terminal_raw _ w) as [w1 r]. cbn in Hr.
  pose proof (still_authorizes_emits [] n owner w1) as Hs.
  apply (extends_weaken (vt_kinds ++ [])); [by rewrite app_nil_r|].
  by destruct (still_authorizes n owner w1) as [w2 []]; eapply extends_trans.
Qed.
Lemma logind_effects_emits authority target permit n owner :
  acts [KTerminate] (logind_effects_terminate authority target permit n owner).
Proof. unfold logind_effects_terminate. solve_emits. Qed.
#[export] Hint Resolve vt_effects_emits logind_effects_emits : emits.

(** ** The routines of the recovery that only ask *)

Lemma with_pin_emits {E A} k (m : RN E A) pin : emits fst k m → acts k (with_pin m pin).
Proof.
  intros Hm w. specialize (Hm (w, pin)). unfold with_pin.
  by destruct (m (w, pin)) as [[w' pin'] r].
Qed.
Lemma or_else_emits {A} k f (m : RC SupervisorRecoveryError A) :
  acts k m → acts k (or_else f m).
Proof. apply emits_map_err. Qed.
#[export] Hint Resolve with_pin_emits or_else_emits : emits.
Lemma ask_pin_emits {A} k f (m : PN SupervisorRecoveryError A) pin :
  emits fst k m → acts k (ask_pin f m pin).
Proof.
  intros Hm. unfold ask_pin. apply (emits_weaken _ (k ++ [])); [by rewrite app_nil_r|].
  apply emits_bind; [|solve_emits]. by apply or_else_emits, with_pin_emits, inner_of_emits.
Qed.
#[export] Hint Resolve ask_pin_emits : emits.
Lemma boundary_wait_emits wakeups n authority cg :
  acts [] (boundary_wait wakeups n authority cg).
Proof.
  induction wakeups as [|[errno|observer timer watch] rest IH]; cbn [boundary_wait];
    solve_emits.
Qed.
#[export] Hint Resolve boundary_wait_emits : emits.
Lemma wait_boundary_emits pin n authority : acts [] (wait_for_boundary_empty pin n authority).
Proof. unfold wait_for_boundary_empty. solve_emits. Qed.
Lemma terminal_reading_emits pin n authority : acts [] (terminal_reading pin n authority).
Proof. unfold terminal_reading. solve_emits. Qed.
#[export] Hint Resolve wait_boundary_emits terminal_reading_emits : emits.
Lemma boundary_proof_emits pin n authority s : acts [] (startup_boundary_proof pin n authority s).
Proof. unfold startup_boundary_proof. solve_emits. Qed.
Lemma same_logind_owner_emits owner n authority : acts [] (same_logind_owner owner n authority).
Proof. unfold same_logind_owner. solve_emits. Qed.
Lemma absent_reading_emits identity cg owner n : acts [] (absent_reading identity cg owner n).
Proof. unfold absent_reading. solve_emits. Qed.
#[export] Hint Resolve boundary_proof_emits same_logind_owner_emits absent_reading_emits : emits.
Lemma prove_absent_emits record identity leader n :
  acts [] (prove_startup_absent_boundary record identity leader n).
Proof. unfold prove_startup_absent_boundary. solve_emits. Qed.
Lemma worker_identity_emits {E} record : acts [] (worker_identity (E:=E) record).
Proof. unfold worker_identity. solve_emits. Qed.
Lemma leader_identity_emits record : acts [] (leader_identity record).
Proof. unfold leader_identity. solve_emits. Qed.
Lemma current_snapshot_emits record : acts [] (current_snapshot record).
Proof. unfold current_snapshot. solve_emits. Qed.
#[export] Hint Resolve prove_absent_emits worker_identity_emits leader_identity_emits
  current_snapshot_emits : emits.
