(* ===== verification/SameBootRecoverySafety.v ===== *)
(** * What the recovery of a running boot's session guarantees

    Whatever the machine answers, the recovery of one record touches only that
    record, acts in a fixed order (the unit may be unpinned twice, every other
    act comes at most once), and none before its intent is on disk; it reports success only after the payload's boundary was
    seen vacant. *)

From stdpp Require Import base gmap sets list strings pretty.
From Stdlib Require Import ZArith Lia.
From S2P Require Import Prelude Text DirFs RecoveryTypes LedgerTaxonomy Ledger.
From S2P Require Import PreviousBoot PreCommit SameBoot Finalization Admission.
From S2P Require Import AdminRecovery WorkerRecord CgroupState HostWorld.
From S2P Require Import UnitPin VtControl Startup RecoveryTrace.
From S2P Require Import SameBootRecovery.
#[local] Open Scope niralis_scope.

(** ** Steps of a recovery *)

Section Steps.
Context `{SerdeJson PersistentRecoveryRecord}.
Context `{!SerdeRoundtrip PersistentRecoveryRecord}.
(** The record that is recovered, as it was found, and its id. *)
Context (found : PersistentRecoveryRecord) (rid : string).

(** The intent of an operation is in the record and in its file. *)
Definition announced (op : string) (l : PersistentRecoveryLedger) : Prop :=
  ∃ r attempt, persisted rid r l ∧
    operation_of op (pr_operation_ledger r) = Some (IntentPersisted attempt).

Definition announced_for (kind : EffectKind) (l : PersistentRecoveryLedger) : Prop :=
  match kind with
  | KRef | KUnref => True
  | KTermWorker _ => signal_announced found (SIGTERM, l)
  | KKillWorker _ => signal_announced found (SIGKILL, l)
  | KKill => announced "payload_kill" l
  | KTerminate => announced "logind_termination" l
  | KRestore => announced "vt_disallocate" l ∨ announced "selinux_restore" l
  | KSetText | KSetMode | KActivate | KDisallocate => announced "vt_disallocate" l
  end.

Record recovery_step (kinds : list EffectKind) (w w' : RecoveryWorld) : Prop := {
  st_ledger : touches rid (rw_ledger w) (rw_ledger w');
  st_host : rw_host w' = rw_host w;
  st_time : (rw_time w ≤ rw_time w')%nat;
  st_effects : ∃ effects, rw_effects w' = rw_effects w ++ effects ∧
    (effect_kind <$> effects.*1) `sublist_of` kinds ∧
    Forall (λ e, announced_for (effect_kind e.1) e.2) effects;
}.

Lemma step_refl kinds w : recovery_step kinds w w.
Proof.
  split; [reflexivity|done..|]. exists []. rewrite app_nil_r. split; [done|].
  split; [apply sublist_nil_l|constructor].
Qed.
Lemma step_trans k1 k2 w1 w2 w3 :
  recovery_step k1 w1 w2 → recovery_step k2 w2 w3 → recovery_step (k1 ++ k2) w1 w3.
Proof.
  intros [L1 H1 T1 (e1 & E1 & S1 & F1)] [L2 H2 T2 (e2 & E2 & S2 & F2)].
  split; [by etrans|congruence|lia|]. exists (e1 ++ e2).
  rewrite E2, E1, app_assoc, !fmap_app. split; [done|].
  split; [by apply sublist_app|by apply Forall_app].
Qed.
Lemma step_weaken k1 k2 w w' :
  k1 `sublist_of` k2 → recovery_step k1 w w' → recovery_step k2 w w'.
Proof.
  intros Hk [L Hh T (es & E & S & F)]. split; [done..|].
  exists es. split; [done|]. split; [by etrans|done].
Qed.
Lemma step_keyed kinds w w' :
  recovery_step kinds w w' → keyed (rw_ledger w) → keyed (rw_ledger w').
Proof. intros [L _ _ _] K. apply L, K. Qed.

(** From a ledger in [P], [m] takes such a step, and success establishes [Q]. *)
Definition goes {E A} (P : PersistentRecoveryLedger → Prop) (kinds : list EffectKind)
    (m : RC E A) (Q : A → PersistentRecoveryLedger → Prop) : Prop :=
  ∀ w, keyed (rw_ledger w) → P (rw_ledger w) →
    recovery_step kinds w (m w).1 ∧ ∀ a, (m w).2 = Ok a → Q a (rw_ledger (m w).1).

Lemma goes_bind {E A B} P k1 k2 (m : RC E A) (k : A → RC E B) Q R :
  goes P k1 m Q → (∀ a, goes (Q a) k2 (k a) R) → goes P (k1 ++ k2) (sr_bind m k) R.
Proof.
  intros Hm Hk w K HP. unfold sr_bind. destruct (Hm w K HP) as [Hs HQ].
  destruct (m w) as [w' [a|e]]; cbn in *.
  - pose proof (step_keyed _ _ _ Hs K) as K'.
    destruct (Hk a w' K' (HQ _ eq_refl)) as [Hs' HR]. split; [by eapply step_trans|done].
  - split; [|done]. eapply step_weaken; [|exact Hs]. by apply sublist_inserts_r.
Qed.
Lemma goes_weaken {E A} P P' k k' (m : RC E A) Q Q' :
  goes P' k' m Q' → k' `sublist_of` k → (∀ l, P l → P' l) →
  (∀ a l, Q' a l → Q a l) → goes P k m Q.
Proof.
  intros Hm Hk HP HQ w K Hw. destruct (Hm w K (HP _ Hw)) as [Hs HQ'].
  split; [by eapply step_weaken|auto].
Qed.
Lemma goes_pure {E A} P (R : Prop) k (m : RC E A) Q :
  (R → goes P k m Q) → goes (λ l, R ∧ P l) k m Q.
Proof. intros Hm w K [HR HP]. by apply Hm. Qed.
Lemma goes_map_err {E F A} P k (f : E → F) (m : RC E A) Q :
  goes P k m Q → goes P k (sr_map_err f m) Q.
Proof.
  intros Hm w K HP. unfold sr_map_err. destruct (Hm w K HP) as [Hs HQ].
  destruct (m w) as [w' [a|e]]; cbn in *; [|done]. split; [done|].
  intros b [= ->]. by apply HQ.
Qed.
Lemma goes_lift {E A} P k (r : result A E) Q :
  (∀ a l, P l → r = Ok a → Q a l) → goes P k (sr_lift r) Q.
Proof. intros HQ w K HP. split; [apply step_refl|]. eauto. Qed.
Lemma goes_ensure {E} P k (b : bool) (e : E) Q :
  (∀ l, P l → b = true → Q () l) → goes P k (if b then sr_ret () else sr_fail e) Q.
Proof.
  intros HQ w K HP. destruct b; (split; [apply step_refl|]); [|done].
  intros [] _. by apply HQ.
Qed.
Lemma goes_ret {E A} (P : PersistentRecoveryLedger → Prop) k (a : A) Q :
  (∀ l, P l → Q a l) → goes P k (sr_ret (E:=E) a) Q.
Proof. intros HQ w K HP. split; [apply step_refl|]. intros b [= <-]. by apply HQ. Qed.
Lemma goes_fail {E A} P k (e : E) Q : goes P k (sr_fail (A:=A) e) Q.
Proof. intros w K HP. split; [apply step_refl|done]. Qed.

(** A routine that asks or acts under intents that are on disk. *)
Lemma extends_step k w w' :
  (∀ kind, kind ∈ k → announced_for kind (rw_ledger w)) → extends k w w' →
  recovery_step k w w'.
Proof.
  intros Ha [L Hh T (es & E & S)]. split; [rewrite L; reflexivity|done|done|].
  eexists. split; [exact E|]. split.
  - assert (((λ e, (e, rw_ledger w)) <$> es).*1 = es) as ->; [|done].
    rewrite <- list_fmap_compose. apply list_fmap_id.
  - apply Forall_fmap, Forall_forall. intros e He. apply Ha.
    eapply elem_of_sublist; [|exact S]. by apply list_elem_of_fmap_2.
Qed.

Lemma goes_acts {E A} P k (m : RC E A) :
  acts k m → (∀ l kind, P l → kind ∈ k → announced_for kind l) →
  goes P k m (λ _, P).
Proof.
  intros Hm Ha w K HP. pose proof (Hm w : extends k w (m w).1) as He. split.
  - apply extends_step; [|exact He]. eauto.
  - intros a _. by rewrite (ex_ledger _ _ _ He).
Qed.
Lemma goes_quiet {E A} P (m : RC E A) : acts [] m → goes P [] m (λ _, P).
Proof. intros Hm. apply goes_acts; [done|]. intros l kind _. by intros ?%elem_of_nil. Qed.

(** ** Ledger operations *)

Definition current (s : RecoveryStateSnapshot) (l : PersistentRecoveryLedger) : Prop :=
  lg_records l !! rid = Some (ss_record s).

Lemma goes_on_record {A} P f (m : result string IoError → LG A) Q :
  (∀ boot, sr_keeps (touches rid) (m boot)) →
  (∀ boot l l' a, keyed l → P l → m boot l = (l', Ok a) → Q a l') →
  goes P [] (on_record f m) Q.
Proof.
  intros Hk HQ w K HP. unfold on_record, sr_bind, sr_map_err, sr_zoom, observe. cbn.
  set (boot := hv_boot_id _).
  pose proof (Hk boot (rw_ledger w)) as Ht. pose proof (HQ boot (rw_ledger w)) as Hq.
  destruct (m boot (rw_ledger w)) as [l' r]; cbn in *. split.
  - split; cbn; [done..|lia|]. exists []. rewrite app_nil_r. split; [done|].
    split; [apply sublist_nil_l|constructor].
  - intros a Ha. destruct r; [|done]. cbn in Ha. injection Ha as ->. by eapply Hq.
Qed.

Lemma lookup_keeps i : sr_keeps (touches rid) (record_for_operation i).
Proof. intros l. reflexivity. Qed.

Ltac keeps_touches :=
  repeat first
    [ apply steps_touches, update_operation_steps | apply lookup_keeps
    | apply (keeps_lift (touches rid)) | apply (keeps_ret (touches rid))
    | apply (keeps_fail (touches rid)) | apply (keeps_bind (touches rid)); [|intros ?]
    | case_match ].

Lemma persist_intent_keeps boot s op attempt :
  pr_lifecycle_id (ss_record s) = rid →
  sr_keeps (touches rid) (persist_recovery_intent_from_snapshot boot s op attempt).
Proof.
  intros Hs. unfold persist_recovery_intent_from_snapshot. rewrite Hs.
  keeps_touches.
Qed.

Lemma refresh_keeps s : sr_keeps (touches rid) (refresh_recovery_snapshot s).
Proof.
  unfold refresh_recovery_snapshot.
  keeps_touches.
Qed.

(** A property of the ledger that a successful update of [op] keeps. *)
Definition op_stable (op : string) (J : PersistentRecoveryLedger → Prop) : Prop :=
  ∀ boot state l l', keyed l → J l → update_operation boot rid op state l = (l', Ok ()) →
    J l'.
Lemma op_stable_True op : op_stable op (λ _, True).
Proof. by intros boot state l l' _ _ _. Qed.
#[local] Hint Resolve op_stable_True : core.

Lemma persist_intent_updates boot s op attempt l l' res :
  pr_lifecycle_id (ss_record s) = rid →
  persist_recovery_intent_from_snapshot boot s op attempt l = (l', Ok res) →
  update_operation boot rid op (IntentPersisted attempt) l = (l', Ok ()).
Proof.
  intros Hs HE. unfold persist_recovery_intent_from_snapshot in HE. rewrite Hs in HE.
  rewrite sr_bind_eq in HE. destruct (snapshot_validates s); [|done]. cbn in HE.
  rewrite sr_bind_eq in HE. unfold operation_intent in HE.
  destruct (update_operation _ _ _ _ l) as [l1 [[]|]]; [|done].
  unfold sr_bind, record_for_operation, snapshot_or, sr_lift in HE. cbn in HE.
  destruct (lg_records l1 !! rid) as [r|]; [|done]. cbn in HE.
  destruct (snapshot_from_record _ r); [|done]. cbn in HE.
  destruct (make_recovery_permit r attempt); [|done]. by injection HE as <- _.
Qed.

Lemma goes_persist J s op attempt :
  pr_lifecycle_id (ss_record s) = rid → op_stable op J →
  goes J [] (persist_intent s op attempt)
    (λ res l, (announced op l ∧ J l) ∧ current res.1 l).
Proof.
  intros Hs HJ. apply goes_on_record.
  - intros boot. by apply persist_intent_keeps.
  - intros boot l l' [next permit] K Jl HE.
    pose proof (persist_intent_updates _ _ _ _ _ _ _ Hs HE) as HU.
    apply persist_intent_persisted in HE as (HP & HO & _); [|done]. rewrite Hs in HP.
    split; [|apply HP]. split; [by exists (ss_record next), attempt|by eapply HJ].
Qed.
Lemma goes_confirm (P J : PersistentRecoveryLedger → Prop) op attempt :
  (∀ l, P l → J l) → op_stable op J → goes P [] (confirm rid op attempt) (λ _, J).
Proof.
  intros HP HJ. apply goes_on_record.
  - intros boot. apply steps_touches, update_operation_steps.
  - intros boot l l' [] K Pl HE. eapply HJ; [done|by apply HP|exact HE].
Qed.
Lemma goes_refresh J s :
  pr_lifecycle_id (ss_record s) = rid →
  goes J [] (refresh s) (λ s' l, J l ∧ current s' l).
Proof.
  intros Hs. apply goes_on_record; [intros _; apply refresh_keeps|].
  intros _ l l' s' K Jl HE. unfold refresh_recovery_snapshot in HE. rewrite Hs in HE.
  rewrite sr_bind_eq in HE. destruct (snapshot_validates s); [|done]. cbn in HE.
  destruct (lg_records l !! rid) as [r|] eqn:Hr; [|done]. cbn in HE.
  unfold snapshot_or, sr_lift in HE.
  destruct (snapshot_from_record _ r) as [s''|] eqn:E; [|done]. cbn in HE.
  injection HE as <- <-. apply snapshot_from_record_record in E as Er.
  unfold current. split; [done|congruence].
Qed.

Lemma current_mine s l : keyed l → current s l → pr_lifecycle_id (ss_record s) = rid.
Proof. intros K Hc. by apply K. Qed.
(** A snapshot that is current is of the record. *)
Lemma goes_current {E A} P s k (m : RC E A) Q :
  (pr_lifecycle_id (ss_record s) = rid → goes (λ l, P l ∧ current s l) k m Q) →
  goes (λ l, P l ∧ current s l) k m Q.
Proof. intros Hm w K [HP Hc]. apply Hm; [by eapply current_mine|done|done]. Qed.

(** ** The routines of the recovery *)

Lemma goes_quiet_bind {E A B} P kinds (m : RC E A) (k : A → RC E B) R :
  acts [] m → (∀ a, goes P kinds (k a) R) → goes P kinds (sr_bind m k) R.
Proof. intros Hm Hk. eapply (goes_bind P [] kinds); [by apply goes_quiet|done]. Qed.
Lemma goes_seq {E A B} P kinds (m : RC E A) (k : A → RC E B) Q R :
  goes P [] m Q → (∀ a, goes (Q a) kinds (k a) R) → goes P kinds (sr_bind m k) R.
Proof. apply (goes_bind P [] kinds). Qed.
Lemma goes_ensure_bind {E B} P kinds (b : bool) (e : E) (k : () → RC E B) R :
  (b = true → goes P kinds (k ()) R) →
  goes P kinds (sr_bind (if b then sr_ret () else sr_fail e) k) R.
Proof. intros Hk. destruct b; [by apply Hk|]. intros w K HP. split; [apply step_refl|done]. Qed.
Lemma goes_lift_bind {E A B} P kinds (r : result A E) (k : A → RC E B) R :
  (∀ a, r = Ok a → goes P kinds (k a) R) → goes P kinds (sr_bind (sr_lift r) k) R.
Proof.
  intros Hk. destruct r as [a|e]; [by apply Hk|]. intros w K HP. split; [apply step_refl|done].
Qed.

Lemma goes_case {E F A B} P k1 k2 (m : RC E A) (ok : A → RC F B) (err : E → RC F B) Q R :
  goes P k1 m Q → (∀ a, goes (Q a) k2 (ok a) R) → (∀ e, goes (λ _, True) k2 (err e) R) →
  goes P (k1 ++ k2)
    (λ w, match m w with (w, Ok a) => ok a w | (w, Err e) => err e w end) R.
Proof.
  intros Hm Hok Herr w K HP. destruct (Hm w K HP) as [Hs HQ].
  pose proof (step_keyed _ _ _ Hs K) as K'.
  destruct (m w) as [w' [a|e]]; cbn in *.
  - destruct (Hok a w' K' (HQ _ eq_refl)) as [Hs' HR]. split; [by eapply step_trans|done].
  - destruct (Herr e w' K' I) as [Hs' HR]. split; [by eapply step_trans|done].
Qed.

Lemma goes_known {E A} (R : Prop) k (m : RC E A) Q :
  (R → goes (λ _, True) k m Q) → goes (λ _, R) k m Q.
Proof. intros Hm w K HR. by apply Hm. Qed.
(** A routine that asks, with what its answer satisfies. *)
Lemma goes_result {E A B} P kinds (m : RC E A) (k : A → RC E B) R (X : A → Prop) :
  acts [] m → (∀ w a, (m w).2 = Ok a → X a) → (∀ a, X a → goes P kinds (k a) R) →
  goes P kinds (sr_bind m k) R.
Proof.
  intros Hm HX Hk. eapply (goes_seq _ _ _ _ (λ a l, X a ∧ P l)).
  - intros w K HP. destruct (goes_quiet P m Hm w K HP) as [Hs HQ]. split; [done|].
    intros a Ha. split; [by eapply HX|by eapply HQ].
  - intros a. apply goes_pure, Hk.
Qed.

(** Skip what only asks. *)
Ltac skip :=
  cbn zeta;
  repeat match goal with
  | |- goes _ _ (sr_bind (if _ then sr_ret () else sr_fail _) _) _ =>
      apply goes_ensure_bind; intros ?
  | |- goes _ _ (sr_bind (sr_lift _) _) _ => apply goes_lift_bind; intros ? ?
  | |- goes _ _ (sr_bind _ _) _ => apply goes_quiet_bind; [solve [solve_emits]|intros ?]
  end.

Lemma goes_kill_payload J s pin n :
  pr_lifecycle_id (ss_record s) = rid → op_stable "payload_kill" J →
  goes J [KKill] (kill_payload s pin n) (λ res l, J l ∧ current res.1 l).
Proof.
  intros Hs HJ. unfold kill_payload. skip.
  eapply goes_seq; [by apply goes_persist|intros [next permit]].
  apply goes_current. cbn [fst]. intros Hn. skip.
  eapply (goes_bind _ [KKill] []); [apply goes_acts; [solve_emits|]|intros [[] pin']].
  { intros l kind [[Ha _] _] ->%list_elem_of_singleton. exact Ha. }
  skip. rewrite Hn. eapply goes_seq; [apply (goes_confirm _ J)|intros ?]; [naive_solver|done|].
  eapply goes_seq; [by apply goes_refresh|intros s']. skip.
  by apply goes_ret.
Qed.

(** A snapshot made along the way is of the record. *)
Lemma goes_mine {E A} (f : A → RecoveryStateSnapshot) P k (m : RC E A) J :
  goes P k m (λ a l, J l ∧ current (f a) l) →
  goes P k m (λ a l, pr_lifecycle_id (ss_record (f a)) = rid ∧ J l).
Proof.
  intros Hm w K HP. destruct (Hm w K HP) as [Hst HQ]. split; [done|].
  intros a Ha. destruct (HQ a Ha) as [HJ Hc]. split; [|done].
  eapply current_mine; [|exact Hc]. by eapply step_keyed.
Qed.

Lemma goes_reconcile_payload J s pin leader n :
  pr_lifecycle_id (ss_record s) = rid → op_stable "payload_kill" J →
  goes J [KKill] (reconcile_payload s pin leader n)
    (λ res l, pr_lifecycle_id (ss_record res.1.1) = rid ∧ J l).
Proof.
  intros Hs HJ. unfold reconcile_payload. skip.
  eapply (goes_bind _ [KKill] [] _ _ (λ res l, pr_lifecycle_id (ss_record res.1) = rid ∧ J l)).
  - case_bool_decide; [|by apply goes_ret]. by apply goes_mine, goes_kill_payload.
  - intros [s' pin']. apply goes_pure. cbn [fst]. intros Hs'. skip. by apply goes_ret.
Qed.

Lemma goes_vt s proof n :
  pr_lifecycle_id (ss_record s) = rid →
  goes (λ _, True) vt_kinds (reconcile_startup_vt s proof n) (λ _ _, True).
Proof.
  intros Hs. unfold reconcile_startup_vt. skip.
  destruct (ol_vt_disallocate _); [|apply goes_fail|by apply goes_ret|apply goes_fail..].
  skip. eapply goes_seq; [by apply goes_persist|intros [next permit]].
  apply goes_current. cbn [fst]. intros Hn. skip.
  rewrite <- (app_nil_r vt_kinds).
  eapply goes_case; [apply goes_acts; [apply vt_effects_emits|]|intros []|intros e].
  - intros l kind [[Ha _] _] Hk. unfold vt_kinds in Hk.
    repeat (apply elem_of_cons in Hk as [->|Hk]; [cbn; by auto|]). by apply elem_of_nil in Hk.
  - rewrite Hn. by apply goes_confirm.
  - unfold vt_recovery_failed. rewrite Hn. destruct e; try (apply goes_fail). cbn zeta.
    eapply goes_seq.
    { apply (goes_on_record _ _ _ (λ _ _, True)); [|done].
      intros boot. apply steps_touches, update_operation_steps. }
    intros ?. skip. eapply goes_seq; [|intros ?; apply goes_fail].
    apply (goes_on_record _ _ _ (λ _ _, True)); [|done].
    intros boot. apply steps_touches, record_vt_busy_provenance_steps.
Qed.

Lemma goes_terminate J s sid n authority :
  pr_lifecycle_id (ss_record s) = rid → op_stable "logind_termination" J →
  goes J [KTerminate] (terminate_session s sid n authority) (λ s' l, J l ∧ current s' l).
Proof.
  intros Hs HJ. unfold terminate_session. skip.
  eapply goes_seq; [by apply goes_persist|intros [next permit]].
  apply goes_current. cbn [fst]. intros Hn. skip.
  eapply (goes_bind _ [KTerminate] []); [apply goes_acts; [solve_emits|]|intros ?].
  { intros l kind [[Ha _] _] ->%list_elem_of_singleton. exact Ha. }
  skip. rewrite Hn. eapply goes_seq; [apply (goes_confirm _ J)|intros ?]; [naive_solver|done|].
  by apply goes_refresh.
Qed.

Lemma goes_logind_and_vt s n proof :
  pr_lifecycle_id (ss_record s) = rid →
  goes (λ _, True) (KTerminate :: vt_kinds) (reconcile_logind_and_vt s n proof) (λ _ _, True).
Proof.
  intros Hs. unfold reconcile_logind_and_vt. skip.
  eapply (goes_bind _ [KTerminate] vt_kinds _ _
    (λ s' _, pr_lifecycle_id (ss_record s') = rid ∧ True)).
  - case_match; [by apply (goes_mine id), goes_terminate|by apply goes_ret].
  - intros s'. apply goes_pure. intros Hs'. skip. by apply goes_vt.
Qed.

Lemma goes_restore record vt :
  pr_lifecycle_id record = rid →
  goes (λ _, True) [KRestore] (confirm_default_tty_context record vt) (λ _ _, True).
Proof.
  intros Hr. unfold confirm_default_tty_context. rewrite Hr.
  destruct (ol_selinux_restore _); [|apply goes_fail|by apply goes_ret|apply goes_fail..].
  eapply goes_seq.
  { apply (goes_on_record _ _ _ (λ _ l, announced "selinux_restore" l)).
    - intros boot. apply steps_touches, update_operation_steps.
    - intros boot l l' [] K _ HE. unfold operation_intent in HE.
      apply update_operation_persisted in HE as (r & rec & _ & HP & HO & _); [|done].
      by eexists _, _. }
  intros ?. eapply (goes_bind _ [KRestore] []); [apply goes_acts; [solve_emits|]|intros ?].
  { intros l kind Ha ->%list_elem_of_singleton. by right. }
  by apply goes_confirm.
Qed.

Lemma goes_absent_vt record vt n :
  pr_lifecycle_id record = rid →
  goes (λ _, True) vt_kinds (recover_absent_boundary_vt record vt n) (λ _ _, True).
Proof.
  intros Hr. unfold recover_absent_boundary_vt. skip.
  destruct a.
  - eapply goes_weaken; [by apply goes_restore| |done..].
    unfold vt_kinds. repeat constructor.
  - eapply (goes_result _ _ _ _ _ (λ s, ss_record s = record)); [solve_emits| |].
    + intros w s E. unfold current_snapshot, sr_bind, sr_lift, observe in E. cbn in E.
      destruct (hv_boot_id _) as [b|]; [|done]. cbn in E.
      destruct (BootIdentity_parse b) as [b'|]; [|done]. cbn in E.
      destruct (snapshot_from_record b' record) eqn:Es; [|done]. cbn in E.
      injection E as <-. by eapply snapshot_from_record_record.
    + intros s Hs. apply goes_vt. congruence.
Qed.

Lemma goes_absent record n :
  pr_lifecycle_id record = rid →
  goes (λ _, True) vt_kinds (confirm_absent_boundary_logind_and_vt record n) (λ _ _, True).
Proof.
  intros Hr. unfold confirm_absent_boundary_logind_and_vt. skip.
  rewrite <- (app_nil_r vt_kinds).
  eapply goes_bind; [by apply goes_absent_vt|intros ?]. skip.
  by apply goes_ensure.
Qed.

Lemma unref_intent_keeps boot s proof attempt :
  pr_lifecycle_id (ss_record s) = rid →
  sr_keeps (touches rid) (persist_recovery_unref_intent boot s proof attempt).
Proof.
  intros Hs. unfold persist_recovery_unref_intent.
  apply (keeps_bind (touches rid)); [case_match; [apply keeps_ret|apply keeps_fail]; apply _|].
  intros _. apply (keeps_bind (touches rid)); [by apply persist_intent_keeps|].
  intros [next permit]. apply (keeps_ret (touches rid)).
Qed.

Lemma goes_unref J s proof attempt :
  pr_lifecycle_id (ss_record s) = rid → op_stable "supervisor_unref" J →
  goes J [] (on_record UnsupportedRehydration (λ boot,
               persist_recovery_unref_intent boot s proof attempt))
    (λ res l, (ap_authorized_sequence res.2 = pr_sequence (ss_record res.1.1) ∧ J l) ∧
              current res.1.1 l).
Proof.
  intros Hs HJ. apply goes_on_record; [intros boot; by apply unref_intent_keeps|].
  intros boot l l' [[next permit] authorized] K Jl HE. cbn.
  unfold persist_recovery_unref_intent in HE.
  rewrite sr_bind_eq in HE. destruct (_ && _); [|done]. cbn in HE.
  rewrite sr_bind_eq in HE.
  destruct (persist_recovery_intent_from_snapshot _ _ _ _ l) as [l1 [[n1 p1]|]] eqn:E;
    [|done]. cbn in HE. injection HE as <- <- <- <-.
  pose proof (persist_intent_updates _ _ _ _ _ _ _ Hs E) as HU.
  apply persist_intent_persisted in E as (HP & _); [|done]. rewrite Hs in HP.
  split; [|apply HP]. split; [done|by eapply HJ].
Qed.

Lemma goes_recover_pinned s pin leader :
  pr_lifecycle_id (ss_record s) = rid →
  goes (λ _, True) (KKill :: KUnref :: KTerminate :: vt_kinds) (recover_pinned s pin leader)
    (λ _ _, True).
Proof.
  intros Hs. unfold recover_pinned.
  eapply (goes_bind _ [KKill]); [by apply goes_reconcile_payload|intros [[s' pin'] proof]].
  cbn [fst]. apply goes_pure. intros Hs'. cbn zeta.
  eapply goes_seq; [by apply goes_unref|intros [[next permit] authorized]].
  apply goes_current. cbn [fst]. intros Hn. skip.
  eapply (goes_bind _ [KUnref]); [apply goes_acts; [solve_emits|]|intros ?].
  { intros l kind _ ->%list_elem_of_singleton. exact I. }
  rewrite Hn. eapply goes_seq; [by apply (goes_confirm _ (λ _, True))|intros ?].
  eapply goes_seq; [by apply goes_refresh|intros s2].
  intros w K [_ Hc]. apply goes_logind_and_vt; [by eapply current_mine|done|done].
Qed.

(** ** The terminal behind a pinned unit

    The proof that the boundary is empty is authorized for the sequence the
    record has when the release of the unit is announced.  Confirming that
    release advances the sequence, so the proof no longer fits the record when
    the terminal is to be given back. *)

(** The terminal is untouched and the record's sequence at least [n]. *)
Definition vt_pending (n : Z) (l : PersistentRecoveryLedger) : Prop :=
  ∃ r, lg_records l !! rid = Some r ∧
    ol_vt_disallocate (pr_operation_ledger r) = NotStarted ∧ n ≤ pr_sequence r.

Lemma update_vt_pending n boot op state l l' :
  op ≠ "vt_disallocate"%string → keyed l → vt_pending n l →
  update_operation boot rid op state l = (l', Ok ()) → vt_pending (n + 1) l'.
Proof.
  intros Hop K (r & Hr & Hv & Hn) HE. unfold update_operation in HE.
  apply record_for_operation_bind in HE as [(_ & _ & ?)|(r1 & Hr1 & HE)]; [done|].
  assert (r1 = r) as -> by congruence.
  destruct (with_operation op state (pr_operation_ledger r)) as [o'|] eqn:HW; [|done].
  assert (ol_vt_disallocate o' = ol_vt_disallocate (pr_operation_ledger r)) as Hv'.
  { unfold with_operation in HW. destruct (pr_operation_ledger r).
    repeat case_match; simplify_eq/=; try done.
    exfalso. apply Hop. by apply str_eqb_true. }
  unfold commit_transition, sr_bind, sr_lift in HE.
  destruct (record_transition _ _ _) as [rec|e] eqn:HT; [|done]. cbn in HE.
  unfold record_transition in HT. split_cases HT.
  apply u64_checked_add_Some in Heqo as [-> _].
  apply commit_persisted in HE as [HE _]. eexists. split; [|split].
  - rewrite <- (K _ _ Hr). exact HE.
  - cbn. congruence.
  - cbn. lia.
Qed.

Lemma vt_pending_stable n op : op ≠ "vt_disallocate"%string → op_stable op (vt_pending n).
Proof.
  intros Hop boot state l l' K HP HE.
  eapply update_vt_pending in HE as (r & Hr & Hv & Hn); [|done..].
  exists r. split_and!; [done..|lia].
Qed.

Lemma outdated_proof_refused s vt proof owner target :
  ap_authorized_sequence proof < pr_sequence (ss_record s) →
  vt_target_from_identity s vt proof owner ≠ Ok target.
Proof.
  intros Hlt. unfold vt_target_from_identity, authorized_matches_snapshot.
  rewrite (proj2 (Z.eqb_neq _ _)) by lia. cbn.
  destruct (validate_vt_identity vt); [|done]. by rewrite orb_true_r.
Qed.

Lemma goes_vt_outdated s proof n :
  goes (λ l, vt_pending (ap_authorized_sequence proof + 1) l ∧ current s l) []
    (reconcile_startup_vt s (Some proof) n) (λ _ _, False).
Proof.
  intros w K [(r & Hr & Hv & Hm) Hc]. unfold current in Hc.
  assert (r = ss_record s) as -> by congruence. clear Hr Hc.
  assert (goes (λ _, True) [] (reconcile_startup_vt s (Some proof) n) (λ _ _, False)) as Hg;
    [|by apply Hg].
  unfold reconcile_startup_vt. rewrite Hv. skip.
  match goal with H : ok_or (Some proof) _ = Ok ?p |- _ => injection H as <- end.
  exfalso. match goal with H : map_err _ (vt_target_from_identity s ?vt ?p ?o) = Ok ?t |- _ =>
    destruct (vt_target_from_identity s vt p o) as [t'|] eqn:Et; [|done] end.
  eapply outdated_proof_refused; [|exact Et]. lia.
Qed.

Lemma goes_pinned_outdated n s pin leader :
  pr_lifecycle_id (ss_record s) = rid →
  goes (vt_pending n) [KKill; KUnref; KTerminate] (recover_pinned s pin leader)
    (λ _ _, False).
Proof.
  intros Hs. unfold recover_pinned.
  eapply (goes_bind _ [KKill]).
  { apply goes_reconcile_payload; [done|]. by apply vt_pending_stable. }
  intros [[s' pin'] proof]. cbn [fst]. apply goes_pure. intros Hs'. cbn zeta.
  eapply goes_seq; [apply goes_unref; [done|by apply vt_pending_stable]|].
  intros [[next permit] authorized]. apply goes_current. cbn [fst snd]. intros Hn. skip.
  eapply (goes_bind _ [KUnref]); [apply goes_acts; [solve_emits|]|intros ?].
  { intros l kind _ ->%list_elem_of_singleton. exact I. }
  rewrite Hn. set (m := ap_authorized_sequence authorized).
  eapply (goes_seq _ _ _ _ (λ _, vt_pending (m + 1))).
  { apply goes_on_record; [intros boot; apply steps_touches, update_operation_steps|].
    intros boot l l' [] K [[Ha (r & Hr & Hv & _)] Hc] HE.
    eapply update_vt_pending; [| |exists r; split_and!; [done..|]|exact HE]; [done..|].
    unfold current in Hc. assert (r = ss_record next) by congruence. subst r m. lia. }
  intros ?. eapply goes_seq; [by apply goes_refresh|intros s2].
  unfold reconcile_logind_and_vt. apply goes_current. intros Hs2. skip.
  eapply (goes_bind _ [KTerminate] [] _ _ (λ s3 l, vt_pending (m + 1) l ∧ current s3 l)).
  - case_match; [|by apply goes_ret].
    eapply goes_weaken; [apply (goes_terminate (vt_pending (m + 1)))|..]; try done.
    + by apply vt_pending_stable.
    + by intros l [? _].
  - intros s3. skip. apply goes_vt_outdated.
Qed.

(** ** The worker *)

Definition touches_fst (s s' : PersistentRecoveryLedger * SentSignals) : Prop :=
  touches rid s.1 s'.1.
#[local] Instance touches_fst_preorder : PreOrder touches_fst.
Proof.
  split; [by intros s; unfold touches_fst|]. intros x y z. unfold touches_fst. by etrans.
Qed.
Lemma on_ledger_touches {A} f (m : LG A) :
  sr_keeps (touches rid) m → sr_keeps touches_fst (on_ledger f m).
Proof.
  intros Hm [l sg]. specialize (Hm l). unfold on_ledger, sr_map_err, sr_zoom, touches_fst.
  cbn in *. by destruct (m l).
Qed.
Lemma signal_touches sig authority record :
  sr_keeps touches_fst (signal_worker sig authority record).
Proof.
  intros s. unfold signal_worker, touches_fst. case_match; cbn; reflexivity.
Qed.

Lemma release_touches boot answers authority record :
  pr_lifecycle_id record = rid →
  sr_keeps touches_fst (recover_validated_runtime_release boot answers authority record).
Proof.
  intros Hr. unfold recover_validated_runtime_release, escalate_release, confirm_release.
  rewrite Hr.
  repeat first
    [ apply on_ledger_touches, steps_touches, update_operation_steps
    | apply on_ledger_touches, steps_touches, transition_with_operation_steps
    | apply signal_touches | apply (keeps_ret touches_fst) | apply (keeps_fail touches_fst)
    | apply (keeps_bind touches_fst); [|intros ?] | case_match ].
Qed.

Definition signal_kinds (pid : Z) : list EffectKind := [KTermWorker pid; KKillWorker pid].
Lemma signal_kinds_of pid (signals : SentSignals) :
  effect_kind <$> ((λ e, (EffSignalWorker pid e.1, e.2)) <$> signals).*1 =
  (λ signal, effect_kind (EffSignalWorker pid signal)) <$> signals.*1.
Proof. induction signals as [|e signals IH]; cbn; [done|]. by rewrite IH. Qed.
Lemma goes_release authority :
  pr_lifecycle_id found = rid →
  goes (λ _, True) (signal_kinds (pr_worker_pid found)) (release_surviving_worker authority found)
    (λ _ _, True).
Proof.
  intros Hr w K _. unfold release_surviving_worker.
  pose proof (worker_identity_emits (E:=Empty_set) found (tick w)) as He.
  destruct (worker_identity found (tick w)) as [w1 after].
  change (extends [] (tick w) w1) in He.
  set (answers := mkReleaseHost _ _ _). set (boot := hv_boot_id _).
  pose proof (release_touches boot answers authority found Hr (rw_ledger w, [])) as Ht.
  pose proof (release_announces boot answers authority found (rw_ledger w, [])
    (conj K (List.Forall_nil _))) as Ha.
  destruct (recover_validated_runtime_release boot answers authority found (rw_ledger w, []))
    as [[l signals] r] eqn:HE.
  apply release_signals_bounded in HE as (sent & Hs & Hsent & _). cbn in Hs.
  assert (Forall (signal_announced found) signals) as Hann by (destruct r; apply Ha).
  split; [|done]. pose proof (ex_time _ _ _ He) as Htime. cbn in Ht, Htime.
  split; cbn; [done..|lia|]. eexists. split; [done|].
  split; [|apply Forall_fmap; eapply Forall_impl; [exact Hann|]; by intros [[] ?]].
  rewrite signal_kinds_of, Hs. unfold signal_kinds.
  rewrite !elem_of_cons in Hsent. destruct Hsent as [->|[->|[->|[->|[]%elem_of_nil]]]]; cbn;
    repeat constructor.
Qed.

(** ** The whole recovery *)

(** The order in which a recovery acts: it ends a worker that survived, takes
    its reference on the unit (and may give it back), kills the payload,
    releases the unit, terminates the login session, and gives the terminal
    back. *)
Definition recovery_order : list EffectKind :=
  [KTermWorker (pr_worker_pid found); KKillWorker (pr_worker_pid found);
   KRef; KUnref; KKill; KUnref; KTerminate; KSetText; KSetMode; KRestore; KActivate;
   KDisallocate].

Lemma goes_recover_snapshot s :
  ss_record s = found → pr_lifecycle_id found = rid →
  goes (λ _, True) recovery_order (recover_snapshot s) (λ _ _, True).
Proof.
  intros Hf Hid. assert (pr_lifecycle_id (ss_record s) = rid) as Hs by (by rewrite Hf).
  unfold recover_snapshot. skip.
  eapply (goes_bind _ (signal_kinds (pr_worker_pid found))
            [KRef; KUnref; KKill; KUnref; KTerminate; KSetText; KSetMode; KRestore; KActivate;
             KDisallocate] _ _ (λ _ _, True)).
  { rewrite Hf. destruct a; [by apply goes_release|by apply goes_ret|apply goes_fail..]. }
  intros ?. skip.
  apply (goes_case _ [KRef; KUnref] (KKill :: KUnref :: KTerminate :: vt_kinds) _ _ _
    (λ _ _, True)).
  - eapply goes_weaken; [apply (goes_acts (λ _, True)); [apply rehydrate_emits|]|done..].
    intros l kind _ [->|[->|[]%elem_of_nil]%elem_of_cons]%elem_of_cons; exact I.
  - intros pin. by apply goes_recover_pinned.
  - intros e. unfold recover_unpinned. destruct e; try apply goes_fail. skip.
    eapply goes_weaken; [by apply goes_absent| |done..].
    by do 3 apply sublist_cons.
Qed.
End Steps.

(** ** What a recovery has seen *)

Definition later (w w' : RecoveryWorld) : Prop :=
  rw_host w' = rw_host w ∧ (rw_time w ≤ rw_time w')%nat.
#[export] Instance later_preorder : PreOrder later.
Proof.
  split; [by intros w|]. intros x y z [H1 T1] [H2 T2]. split; [congruence|lia].
Qed.

(** Success means that the machine looked like [X] at some moment of the run. *)
Definition sees {E A} (X : HostView → Prop) (m : RC E A) : Prop :=
  ∀ w, is_ok (m w).2 = true →
    ∃ t, (rw_time w ≤ t < rw_time (m w).1)%nat ∧ X (rw_host w t).

Lemma acts_later {E A} kinds (m : RC E A) : acts kinds m → sr_keeps later m.
Proof. intros Hm w. destruct (Hm w) as [_ Hh Ht _]. done. Qed.
Lemma on_record_later {A} f (m : result string IoError → LG A) :
  sr_keeps later (on_record f m).
Proof.
  intros w. unfold on_record, sr_bind, sr_map_err, sr_zoom, observe. cbn.
  destruct (m _ _). split; cbn; [done|lia].
Qed.
Lemma later_case {E F A B} (m : RC E A) (ok : A → RC F B) (err : E → RC F B) :
  sr_keeps later m → (∀ a, sr_keeps later (ok a)) → (∀ e, sr_keeps later (err e)) →
  sr_keeps later (λ w, match m w with (w, Ok a) => ok a w | (w, Err e) => err e w end).
Proof.
  intros Hm Hok Herr w. specialize (Hm w). destruct (m w) as [w' [a|e]]; cbn in *;
    (etrans; [exact Hm|]); [apply Hok|apply Herr].
Qed.

Lemma sees_left {E A B} X (m : RC E A) (k : A → RC E B) :
  sees X m → (∀ a, sr_keeps later (k a)) → sees X (sr_bind m k).
Proof.
  intros Hm Hk w Hok. unfold sr_bind in *. specialize (Hm w).
  destruct (m w) as [w' [a|e]]; cbn in *; [|done].
  destruct (Hm eq_refl) as (t & Ht & HX). destruct (Hk a w') as [_ Htime].
  exists t. split; [lia|done].
Qed.
Lemma sees_right {E A B} X (Y : A → Prop) (m : RC E A) (k : A → RC E B) :
  sr_keeps later m → (∀ w a, (m w).2 = Ok a → Y a) → (∀ a, Y a → sees X (k a)) →
  sees X (sr_bind m k).
Proof.
  intros Hm HY Hk w Hok. unfold sr_bind in *. specialize (Hm w). specialize (HY w).
  destruct (m w) as [w' [a|e]]; cbn in *; [|done]. destruct Hm as [Hh Ht].
  destruct (Hk a (HY _ eq_refl) w' Hok) as (t & Htt & HX).
  exists t. rewrite Hh in HX. split; [lia|done].
Qed.
Lemma sees_skip {E A B} X (m : RC E A) (k : A → RC E B) :
  sr_keeps later m → (∀ a, sees X (k a)) → sees X (sr_bind m k).
Proof. intros Hm Hk. by apply (sees_right _ (λ _, True)). Qed.
(** The moment of the question counts when the answer passed a check. *)
Lemma sees_checked {E A B} X (m : RC E A) (k : A → RC E B) :
  sr_keeps later m →
  (∀ w a, (m w).2 = Ok a → is_ok (k a (m w).1).2 = true →
    ∃ t, (rw_time w ≤ t < rw_time (m w).1)%nat ∧ X (rw_host w t)) →
  (∀ a, sr_keeps later (k a)) → sees X (sr_bind m k).
Proof.
  intros Hm HX Hk w Hok. unfold sr_bind in *. specialize (HX w).
  destruct (m w) as [w' [a|e]]; cbn in *; [|done].
  destruct (HX a eq_refl Hok) as (t & Ht & Hx). destruct (Hk a w') as [_ Hl].
  exists t. split; [lia|done].
Qed.
Lemma sees_fail {E A} X (e : E) : sees X (sr_fail (A:=A) e).
Proof. by intros w Hok. Qed.

Ltac acts_auto kinds := solve [apply (acts_later kinds); solve_emits].
Ltac later_acts :=
  first [ acts_auto (@nil EffectKind) | acts_auto [KKill] | acts_auto [KUnref]
        | acts_auto [KTerminate] | acts_auto [KRestore] | acts_auto vt_kinds
        | acts_auto [KRef; KUnref] ].
Ltac later_auto :=
  repeat match goal with
  | |- sr_keeps later (on_record _ _) => apply on_record_later
  | |- sr_keeps later (sr_bind _ _) =>
      first [ later_acts | apply (keeps_bind later); [|intros ?] ]
  | |- sr_keeps later (match ?x with _ => _ end) => destruct x
  | |- sr_keeps later (if ?x then _ else _) => destruct x
  | |- sr_keeps later (λ w, match _ with _ => _ end) => apply later_case; [|intros ?..]
  | |- sr_keeps later (confirm _ _ _) => apply on_record_later
  | |- sr_keeps later (refresh _) => apply on_record_later
  | |- sr_keeps later (persist_intent _ _ _) => apply on_record_later
  | |- _ => later_acts
  end.

Section Seen.
Context `{SerdeJson PersistentRecoveryRecord}.

Lemma kill_later s pin n : sr_keeps later (kill_payload s pin n).
Proof. unfold kill_payload. cbn zeta. later_auto. Qed.
Lemma terminate_later s id n authority : sr_keeps later (terminate_session s id n authority).
Proof. unfold terminate_session. cbn zeta. later_auto. Qed.
Lemma vt_failed_later next vt attempt e : sr_keeps later (vt_recovery_failed next vt attempt e).
Proof. unfold vt_recovery_failed. cbn zeta. later_auto. Qed.
Lemma vt_later s proof n : sr_keeps later (reconcile_startup_vt s proof n).
Proof.
  unfold reconcile_startup_vt. cbn zeta. later_auto;
    [apply on_record_later|apply vt_failed_later].
Qed.
Lemma logind_vt_later s n proof : sr_keeps later (reconcile_logind_and_vt s n proof).
Proof. unfold reconcile_logind_and_vt. later_auto; [apply terminate_later|apply vt_later]. Qed.
Lemma absent_later record n :
  sr_keeps later (confirm_absent_boundary_logind_and_vt record n).
Proof.
  unfold confirm_absent_boundary_logind_and_vt, recover_absent_boundary_vt,
    confirm_default_tty_context. later_auto. apply vt_later.
Qed.
Lemma release_later authority record :
  sr_keeps later (release_surviving_worker authority record).
Proof.
  intros w. unfold release_surviving_worker.
  pose proof (acts_later _ _ (worker_identity_emits (E:=Empty_set) record) (tick w)) as [He Ht].
  destruct (worker_identity record (tick w)) as [w1 after].
  destruct (recover_validated_runtime_release _ _ _ _ _) as [[l signals] r].
  cbn in *. split; cbn; [done|lia].
Qed.

(** ** The boundary was seen vacant *)

Definition vacant_at (control_group : string) (h : HostView) : Prop :=
  says_vacant (read_supervisor_boundary_state (hv_cgroups h) control_group) = true.

Definition same_cgroup (s s' : RecoveryWorld * RecoveryPinnedInvocationUnit) : Prop :=
  pin_cgroup (rpn_inner s'.2) = pin_cgroup (rpn_inner s.2).
Definition same_cgroup_inner (s s' : RecoveryWorld * PinnedInvocationInner) : Prop :=
  pin_cgroup s'.2 = pin_cgroup s.2.
#[local] Instance same_cgroup_preorder : PreOrder same_cgroup.
Proof. split; [by intros s|]. intros x y z Hxy Hyz. unfold same_cgroup in *. congruence. Qed.
#[local] Instance same_cgroup_inner_preorder : PreOrder same_cgroup_inner.
Proof.
  split; [by intros s|]. intros x y z Hxy Hyz. unfold same_cgroup_inner in *. congruence.
Qed.

Lemma in_world_cgroup {E A} (m : RC E A) : sr_keeps same_cgroup_inner (in_world m).
Proof. intros [w pin]. unfold in_world, sr_zoom, same_cgroup_inner. cbn. by destruct (m w). Qed.
Lemma inner_of_cgroup {E A} (m : PN E A) :
  sr_keeps same_cgroup_inner m → sr_keeps same_cgroup (inner_of m).
Proof.
  intros Hm [w pin]. specialize (Hm (w, rpn_inner pin)).
  unfold inner_of, sr_zoom, same_cgroup, same_cgroup_inner in *. cbn in *.
  by destruct (m (w, rpn_inner pin)).
Qed.
Lemma set_flags_cgroup {E} a b : sr_keeps same_cgroup_inner (set_flags (E:=E) a b).
Proof. by intros [w pin]. Qed.

Ltac cgroup_auto R :=
  repeat first
    [ apply in_world_cgroup | apply set_flags_cgroup | apply (keeps_read R)
    | apply (keeps_ret R) | apply (keeps_fail R) | apply (keeps_lift R)
    | apply (keeps_map_err R) | apply (keeps_bind R); [|intros ?] | case_match ].

Lemma validate_owner_cgroup : sr_keeps same_cgroup_inner validate_owner.
Proof. unfold validate_owner, this_pin. cgroup_auto same_cgroup_inner. Qed.
Lemma revalidate_cgroup b : sr_keeps same_cgroup_inner (revalidate b).
Proof.
  unfold revalidate, this_pin.
  repeat first [ apply validate_owner_cgroup | progress cgroup_auto same_cgroup_inner ].
Qed.
Lemma rebind_cgroup authority record : sr_keeps same_cgroup (rebind authority record).
Proof.
  intros [w pin]. unfold rebind, recovery_pin, sr_bind, same_cgroup. cbn.
  by destruct (_ && _).
Qed.
Lemma request_kill_cgroup : sr_keeps same_cgroup_inner request_emergency_kill.
Proof.
  unfold request_emergency_kill, pin_boundary_state, this_pin.
  repeat first [ apply validate_owner_cgroup | apply revalidate_cgroup
               | progress cgroup_auto same_cgroup_inner ].
Qed.
Lemma recovery_kill_cgroup authority record permit :
  sr_keeps same_cgroup (request_recovery_emergency_kill authority record permit).
Proof.
  unfold request_recovery_emergency_kill, validate_binding, recovery_pin.
  repeat first [ apply inner_of_cgroup, validate_owner_cgroup
               | apply inner_of_cgroup, request_kill_cgroup
               | progress cgroup_auto same_cgroup ].
Qed.

Lemma with_pin_cgroup {E A} (m : RN E A) pin w a pin' :
  sr_keeps same_cgroup m → (with_pin m pin w).2 = Ok (a, pin') →
  pin_cgroup (rpn_inner pin') = pin_cgroup (rpn_inner pin).
Proof.
  intros Hm HE. specialize (Hm (w, pin)). unfold with_pin in HE.
  destruct (m (w, pin)) as [[w' pin1] [b|e]]; cbn in *; [|done].
  by injection HE as _ ->.
Qed.

(** What a successful bind went through. *)
Lemma bind_ok_result {S E A B} (m : SR S E A) (k : A → SR S E B) s b :
  (sr_bind m k s).2 = Ok b → ∃ a, (m s).2 = Ok a ∧ (k a (m s).1).2 = Ok b.
Proof. unfold sr_bind. destruct (m s) as [s' [a|e]]; naive_solver. Qed.
Lemma map_err_ok_result {S E F A} (f : E → F) (m : SR S E A) s a :
  (sr_map_err f m s).2 = Ok a → (m s).2 = Ok a.
Proof. unfold sr_map_err. destruct (m s) as [s' [b|e]]; naive_solver. Qed.

Lemma kill_payload_cgroup s pin n w s' pin' :
  (kill_payload s pin n w).2 = Ok (s', pin') →
  pin_cgroup (rpn_inner pin') = pin_cgroup (rpn_inner pin).
Proof.
  unfold kill_payload. intros HE.
  apply bind_ok_result in HE as (owner & _ & HE). apply bind_ok_result in HE as ([] & _ & HE).
  cbn zeta in HE. apply bind_ok_result in HE as ([next permit] & _ & HE).
  apply bind_ok_result in HE as ([[] p1] & H1 & HE). apply bind_ok_result in HE as ([[] p2] & H2 & HE).
  cbn [snd] in *. apply bind_ok_result in HE as ([] & _ & HE). apply bind_ok_result in HE as ([] & _ & HE).
  apply bind_ok_result in HE as (u & _ & HE). apply bind_ok_result in HE as (s1 & _ & HE).
  apply bind_ok_result in HE as ([[] p3] & H3 & HE). cbn in HE. injection HE as _ <-.
  apply map_err_ok_result, with_pin_cgroup in H1; [|apply rebind_cgroup].
  apply map_err_ok_result, with_pin_cgroup in H2; [|apply recovery_kill_cgroup].
  apply map_err_ok_result, with_pin_cgroup in H3; [|apply rebind_cgroup]. congruence.
Qed.

Lemma ask_boundary_state f pin w state :
  (ask_pin f pin_boundary_state pin w).2 = Ok state →
  read_supervisor_boundary_state (hv_cgroups (rw_host w (rw_time w)))
    (pin_cgroup (rpn_inner pin)) = Ok state ∧
  rw_time (ask_pin f pin_boundary_state pin w).1 = S (rw_time w).
Proof.
  unfold ask_pin, or_else, with_pin, inner_of, pin_boundary_state, this_pin, in_world,
    boundary_state, sr_bind, sr_map_err, sr_zoom, observe, sr_lift. cbn.
  destruct (read_supervisor_boundary_state _ _); cbn; naive_solver.
Qed.

Lemma boundary_proof_sees pin n owner s :
  sees (vacant_at (pin_cgroup (rpn_inner pin))) (startup_boundary_proof pin n owner s).
Proof.
  unfold startup_boundary_proof. cbn zeta.
  apply sees_skip; [later_acts|intros _]. apply sees_skip; [later_acts|intros _].
  apply sees_checked; [later_acts| |].
  - intros w state Hs Hok. apply ask_boundary_state in Hs as [Hr Ht].
    destruct (vacant_state state) eqn:Hv; [|done]. exists (rw_time w). split; [lia|].
    unfold vacant_at. by rewrite Hr.
  - intros state. later_acts.
Qed.

Lemma reconcile_payload_sees s pin leader n :
  sees (vacant_at (pin_cgroup (rpn_inner pin))) (reconcile_payload s pin leader n).
Proof.
  unfold reconcile_payload. apply sees_skip; [later_acts|intros state].
  apply (sees_right _ (λ res, pin_cgroup (rpn_inner res.2) = pin_cgroup (rpn_inner pin))).
  - case_bool_decide; [apply kill_later|later_acts].
  - case_bool_decide; intros w [s' pin'] HE; [by eapply kill_payload_cgroup|].
    by injection HE as _ <-.
  - intros [s' pin'] <-. cbn [snd]. apply sees_skip; [later_acts|intros _].
    apply sees_skip; [later_acts|intros owner].
    apply sees_left; [apply boundary_proof_sees|intros proof; later_acts].
Qed.

Lemma recover_pinned_sees s pin leader :
  sees (vacant_at (pin_cgroup (rpn_inner pin))) (recover_pinned s pin leader).
Proof.
  unfold recover_pinned. apply sees_left; [apply reconcile_payload_sees|].
  intros [[s' pin'] proof]. cbn zeta. later_auto. apply logind_vt_later.
Qed.

Lemma absent_reading_sees identity cg owner n :
  sees (vacant_at cg) (absent_reading identity cg owner n).
Proof.
  unfold absent_reading. apply sees_skip; [later_acts|intros _].
  apply sees_skip; [later_acts|intros unit]. apply sees_skip; [later_acts|intros _].
  apply sees_checked; [later_acts| |].
  - intros w tree [= <-] Hok. exists (rw_time w). split; [cbn; lia|]. unfold vacant_at.
    by destruct (read_supervisor_boundary_state _ _) as [[]|].
  - intros tree. later_acts.
Qed.

Lemma prove_absent_sees record identity leader n :
  sees (vacant_at (scope_control_group (psi_expected_uid identity) (psi_unit_name identity)))
    (prove_startup_absent_boundary record identity leader n).
Proof.
  unfold prove_startup_absent_boundary. cbn zeta. set (cg := scope_control_group _ _).
  apply (sees_right _ (λ _, pr_control_group record = Some cg)).
  { case_match; later_acts. }
  { intros w [] HE. case_match; [|done]. bool_facts. done. }
  intros _ ->. apply (sees_right _ (λ a, a = cg)); [later_acts|by intros w a [= <-]|].
  intros ? ->. do 5 (apply sees_skip; [later_acts|intros ?]).
  apply sees_left; [apply absent_reading_sees|intros ?; later_acts].
Qed.

Lemma rehydrate_cgroup identity wp lp authority record w pin :
  (rehydrate identity wp lp authority record w).2 = Ok pin →
  pin_cgroup (rpn_inner pin) =
    scope_control_group (psi_expected_uid identity) (psi_unit_name identity).
Proof.
  unfold rehydrate. intros HE.
  apply bind_ok_result in HE as (? & _ & HE). apply bind_ok_result in HE as (? & _ & HE).
  apply bind_ok_result in HE as (? & _ & HE). apply bind_ok_result in HE as (owner & _ & HE).
  apply bind_ok_result in HE as (? & _ & HE). apply bind_ok_result in HE as (path & _ & HE).
  apply bind_ok_result in HE as (first & _ & HE). apply bind_ok_result in HE as (? & _ & HE).
  apply bind_ok_result in HE as (? & _ & HE). apply bind_ok_result in HE as (second & Hs & HE).
  cbn in HE. injection HE as <-. cbn.
  unfold or_unref in Hs. revert Hs.
  match goal with |- context [match ?m ?w with _ => _ end] =>
    destruct (m w) as [w1 [o|e]] eqn:Em end; [|done].
  intros [= ->]. apply (f_equal snd) in Em. cbn in Em.
  apply bind_ok_result in Em as (? & _ & Em). apply bind_ok_result in Em as (? & _ & Em).
  apply bind_ok_result in Em as (? & _ & Em). apply bind_ok_result in Em as (o & _ & Em).
  apply bind_ok_result in Em as ([] & Hv & Em). cbn in Hv.
  do 4 (apply bind_ok_result in Em as (? & _ & Em)). apply bind_ok_result in Em as (? & _ & Em).
  cbn in Em. injection Em as ->.
  unfold validate_unit_observation in Hv. cbn in Hv.
  destruct (str_eqb (uo_control_group second) _) eqn:Hc; [by apply str_eqb_true|].
  rewrite orb_true_r in Hv. done.
Qed.

(** A record whose unit could be pinned and one whose unit is not there. *)
Lemma sees_case {E F A B} X (Y : A → Prop) (m : RC E A) (ok : A → RC F B) (err : E → RC F B) :
  sr_keeps later m → (∀ w a, (m w).2 = Ok a → Y a) → (∀ a, Y a → sees X (ok a)) →
  (∀ e, sees X (err e)) →
  sees X (λ w, match m w with (w, Ok a) => ok a w | (w, Err e) => err e w end).
Proof.
  intros Hm HY Hok Herr w. specialize (Hm w). specialize (HY w).
  destruct (m w) as [w' [a|e]]; cbn in *; destruct Hm as [Hh Ht]; intros Hr.
  - destruct (Hok a (HY _ eq_refl) w' Hr) as (t & Htt & HX).
    exists t. rewrite Hh in HX. split; [lia|done].
  - destruct (Herr e w' Hr) as (t & Htt & HX). exists t. rewrite Hh in HX. split; [lia|done].
Qed.

Lemma recover_snapshot_sees s unit_name :
  pr_payload_unit (ss_record s) = Some unit_name →
  sees (vacant_at (scope_control_group (pr_uid (ss_record s)) unit_name))
    (recover_snapshot s).
Proof.
  intros Hu. unfold recover_snapshot. rewrite Hu. cbn zeta.
  apply sees_skip; [later_auto|intros _]. apply sees_skip; [later_auto|intros worker].
  apply sees_skip; [destruct worker; first [apply release_later|later_auto]|intros _].
  apply sees_skip; [unfold leader_identity; later_auto|intros leader].
  apply sees_skip; [later_auto|intros _].
  apply (sees_right _ (λ u, u = unit_name)); [later_auto|by intros w u [= <-]|intros ? ->].
  do 4 (apply sees_skip; [later_auto|intros ?]).
  apply (sees_case _ (λ pin, pin_cgroup (rpn_inner pin) =
    scope_control_group (pr_uid (ss_record s)) unit_name)); [later_acts| | |].
  - intros w pin Hp. by apply rehydrate_cgroup in Hp.
  - intros pin Hp. rewrite <- Hp. apply recover_pinned_sees.
  - intros e. unfold recover_unpinned. destruct e; try apply sees_fail.
    apply sees_left; [|intros ?; apply absent_later].
    match goal with |- sees _ (prove_startup_absent_boundary ?r ?i ?l ?n) =>
      exact (prove_absent_sees r i l n) end.
Qed.

Lemma recover_snapshot_unit s w :
  is_ok (recover_snapshot s w).2 = true →
  ∃ unit_name, pr_payload_unit (ss_record s) = Some unit_name.
Proof.
  unfold recover_snapshot. cbn zeta.
  destruct (pr_payload_unit (ss_record s)) as [u|]; [by exists u|].
  intros Hok. destruct (_ w).2 as [a|] eqn:HE in Hok; [|done].
  repeat (apply bind_ok_result in HE as (? & ? & HE); try done).
Qed.
End Seen.

Section Claims.
Context `{SerdeJson PersistentRecoveryRecord}.
Context `{!SerdeRoundtrip PersistentRecoveryRecord}.

Lemma reconcile_steps same w :
  keyed (rw_ledger w) →
  recovery_step (sb_record same) (pr_lifecycle_id (sb_record same))
    (recovery_order (sb_record same)) w
    (reconcile_same_boot_record same w).1.
Proof.
  intros K. unfold reconcile_same_boot_record, same_boot_snapshot.
  destruct (snapshot_from_record _ _) as [s|] eqn:Es; [|apply step_refl].
  apply snapshot_from_record_record in Es.
  destruct (goes_recover_snapshot (sb_record same) (pr_lifecycle_id (sb_record same)) s Es eq_refl)
    with w as [Hs _]; [done|done|].
  by destruct (recover_snapshot s w) as [w' []].
Qed.


(** The Linux provider keeps to the record it is given, as the startup
    coordinator relies on: reconciling one record leaves every other record,
    every other file and the quarantine verdicts as they were. *)
Theorem linux_provider_is_local machine start opened :
  provider_local (linux_provider machine start opened).
Proof.
  intros same l K. cbn.
  set (w := mkWorld machine _ l _ _).
  pose proof (reconcile_steps same w K) as Hs.
  destruct (reconcile_same_boot_record same w) as [w' outcome]. cbn in *.
  by apply (st_ledger _ _ _ _ _ Hs).
Qed.

(** C14. The recovery of a record of the running boot reports the seat free
    only if, at some moment of that very run, the kernel's own tree showed
    the boundary of the payload named in the record vacant: the control group
    of the user and unit on record, absent or without a single process. *)
Theorem freed_boundary_was_vacant same w w' :
  reconcile_same_boot_record same w = (w', OutcomeFree) →
  ∃ unit_name t, pr_payload_unit (sb_record same) = Some unit_name ∧
    (rw_time w ≤ t < rw_time w')%nat ∧
    vacant_at (scope_control_group (pr_uid (sb_record same)) unit_name) (rw_host w t).
Proof.
  unfold reconcile_same_boot_record, same_boot_snapshot. intros HE.
  destruct (snapshot_from_record _ _) as [s|] eqn:Es; [|done].
  apply snapshot_from_record_record in Es. rewrite <- Es.
  pose proof (recover_snapshot_unit s w) as Hu.
  pose proof (λ u Hu, recover_snapshot_sees s u Hu w) as Hsees.
  destruct (recover_snapshot s w) as [w1 [[]|]]; [|done]. injection HE as <-.
  destruct (Hu eq_refl) as [u Hpu]. destruct (Hsees u Hpu eq_refl) as (t & Ht & Hv).
  by exists u, t.
Qed.

(** Once the unit of the payload could be pinned, the recovery never
    gives the terminal back: the proof that the boundary is empty is bound to
    the sequence at which the release of the unit was announced, and
    confirming that release moves the record past it.  Whatever the machine
    answers, a record whose terminal is untouched is not freed, and the
    terminal is not touched. *)
Theorem pinned_recovery_never_frees s pin leader w w' r record :
  keyed (rw_ledger w) →
  lg_records (rw_ledger w) !! pr_lifecycle_id (ss_record s) = Some record →
  ol_vt_disallocate (pr_operation_ledger record) = NotStarted →
  recover_pinned s pin leader w = (w', r) →
  (∃ failure, r = Err failure) ∧
  ∃ effects, rw_effects w' = rw_effects w ++ effects ∧
    (effect_kind <$> effects.*1) `sublist_of` [KKill; KUnref; KTerminate].
Proof.
  intros K Hr Hv HE.
  destruct (goes_pinned_outdated (ss_record s) (pr_lifecycle_id (ss_record s)) (pr_sequence record)
              s pin leader eq_refl w K) as [[_ _ _ (effects & HE1 & HS & _)] Hq].
  { exists record. split_and!; [done..|lia]. }
  rewrite HE in HE1, Hq. cbn in *. split; [|by exists effects].
  destruct r as [[]|f]; [by destruct (Hq () eq_refl)|by exists f].
Qed.
End Claims.
