(* ===== verification/TerminalSafety.v ===== *)
(** * When a recovery gives a terminal up

    A terminal is disallocated only after the machine itself said that the
    terminal the session came from is the active one; whatever fails before
    leaves it allocated. *)

From stdpp Require Import base gmap sets list strings pretty.
From Stdlib Require Import ZArith Lia.
From S2P Require Import Prelude Text DirFs RecoveryTypes LedgerTaxonomy Ledger.
From S2P Require Import PreviousBoot PreCommit SameBoot Finalization Admission.
From S2P Require Import AdminRecovery WorkerRecord CgroupState HostWorld.
From S2P Require Import UnitPin VtControl Startup RecoveryTrace.
From S2P Require Import SameBootRecovery SameBootRecoverySafety.
#[local] Open Scope niralis_scope.

(** The machine looked like [Y] at a moment between [w] and [w']. *)
Definition seen (Y : HostView → Prop) (w w' : RecoveryWorld) : Prop :=
  ∃ t, (rw_time w ≤ t < rw_time w')%nat ∧ Y (rw_host w t).
(** Between [w] and [w'] no terminal but [n] was disallocated, and none unless
    [P]. *)
Definition released (n : Z) (P : Prop) (w w' : RecoveryWorld) : Prop :=
  ∃ effects, rw_effects w' = rw_effects w ++ effects ∧
    ∀ e, e ∈ effects.*1 → effect_kind e = KDisallocate →
      e = EffIoctl (VtDisallocate n) ∧ P.
(** [m] disallocates no terminal but [n], and only when the machine looked like
    [Y] at some moment before [m] was over. *)
Definition releases {E A} (n : Z) (Y : HostView → Prop) (m : RC E A) : Prop :=
  ∀ w, later w (m w).1 ∧ released n (seen Y w (m w).1) w (m w).1.

Lemma seen_left Y w w1 w2 : later w1 w2 → seen Y w w1 → seen Y w w2.
Proof. intros [_ Hl] (t & Ht & HY). exists t. split; [lia|done]. Qed.
Lemma seen_right Y w w1 w2 : later w w1 → seen Y w1 w2 → seen Y w w2.
Proof. intros [Hh Hl] (t & Ht & HY). rewrite Hh in HY. exists t. split; [lia|done]. Qed.
Lemma released_mono n (P Q : Prop) w w' : (P → Q) → released n P w w' → released n Q w w'.
Proof. intros HPQ (es & HE & Hes). exists es. naive_solver. Qed.
Lemma released_trans n P w w1 w2 :
  released n P w w1 → released n P w1 w2 → released n P w w2.
Proof.
  intros (e1 & H1 & F1) (e2 & H2 & F2). exists (e1 ++ e2).
  rewrite H2, H1, app_assoc. split; [done|].
  intros e. rewrite fmap_app, elem_of_app. naive_solver.
Qed.
Lemma released_none n P ks w w' : extends ks w w' → KDisallocate ∉ ks → released n P w w'.
Proof.
  intros [_ _ _ (es & HE & Hs)] Hk. eexists. split; [exact HE|].
  intros e He Hd. exfalso. apply Hk. eapply elem_of_sublist; [|exact Hs].
  rewrite <- Hd. apply list_elem_of_fmap_2.
  rewrite <- list_fmap_compose in He. by rewrite list_fmap_id in He.
Qed.

Lemma releases_acts {E A} n Y ks (m : RC E A) :
  acts ks m → KDisallocate ∉ ks → releases n Y m.
Proof.
  intros Hm Hk w. split; [by eapply acts_later|]. by eapply released_none; [apply Hm|].
Qed.
Lemma releases_on_record {A} n Y f (m : result string IoError → LG A) :
  releases n Y (on_record f m).
Proof.
  intros w. split; [apply on_record_later|]. exists [].
  unfold on_record, sr_bind, sr_map_err, sr_zoom, observe. cbn.
  destruct (m _ _). cbn. rewrite app_nil_r. split; [done|]. by intros e ?%elem_of_nil.
Qed.

(** One routine after another; when the first has seen [Y], the second may
    disallocate. *)
Lemma releases_then {E A} n Y w w1 (m : RC E A) :
  later w w1 → released n (seen Y w w1) w w1 → releases n Y m →
  later w (m w1).1 ∧ released n (seen Y w (m w1).1) w (m w1).1.
Proof.
  intros L1 R1 Hm. destruct (Hm w1) as [L2 R2]. split; [by etrans|].
  eapply released_trans; eapply released_mono; [|exact R1| |exact R2]; intros.
  - by eapply seen_left.
  - by eapply seen_right.
Qed.
Lemma releases_bind {E A B} n Y (m : RC E A) (k : A → RC E B) :
  releases n Y m → (∀ a, releases n Y (k a)) → releases n Y (sr_bind m k).
Proof.
  intros Hm Hk w. unfold sr_bind. destruct (Hm w) as [L1 R1].
  destruct (m w) as [w1 [a|e]]; cbn in *; [by apply releases_then|done].
Qed.
Lemma releases_lift_bind {E A B} n Y (r : result A E) (k : A → RC E B) :
  (∀ a, r = Ok a → releases n Y (k a)) → releases n Y (sr_bind (sr_lift r) k).
Proof.
  intros Hk. destruct r as [a|e]; [by apply Hk|].
  by apply (releases_acts _ _ []); [apply emits_fail|apply not_elem_of_nil].
Qed.
Lemma releases_case {E F A B} n Y (m : RC E A) (ok : A → RC F B) (err : E → RC F B) :
  releases n Y m → (∀ a, releases n Y (ok a)) → (∀ e, releases n Y (err e)) →
  releases n Y (λ w, match m w with (w, Ok a) => ok a w | (w, Err e) => err e w end).
Proof.
  intros Hm Hok Herr w. destruct (Hm w) as [L1 R1].
  destruct (m w) as [w1 [a|e]]; cbn in *; by apply releases_then.
Qed.
Lemma releases_seen {E A B} n Y ks (m : RC E A) (k : A → RC E B) :
  acts ks m → KDisallocate ∉ ks → sees Y m → (∀ a, releases n (λ _, True) (k a)) →
  releases n Y (sr_bind m k).
Proof.
  intros Hm Hks Hs Hk w. destruct (releases_acts n Y ks m Hm Hks w) as [L1 R1].
  specialize (Hs w). unfold sr_bind. destruct (m w) as [w1 [a|e]]; cbn in *; [|done].
  destruct (Hk a w1) as [L2 R2]. split; [by etrans|].
  specialize (Hs eq_refl : seen Y w w1).
  eapply released_trans; eapply released_mono; [|exact R1| |exact R2];
    intros _; by eapply seen_left.
Qed.

(** ** The terminal itself *)

Definition active_is (vt : Z) (h : HostView) : Prop :=
  ∃ allocated, hv_vt_state h = Ok (vt, allocated).

Lemma active_checked {A} expected (k : Z → RC SupervisorRecoveryError A) :
  (∀ a, sr_keeps later (k a)) →
  (∀ a w, a ≠ expected → is_ok (k a w).2 = true →
     ∃ t, (rw_time w ≤ t < rw_time (k a w).1)%nat ∧ active_is expected (rw_host w t)) →
  sees (active_is expected) (sr_bind active_vt k).
Proof.
  intros Hl Hk w. unfold active_vt, read_vt_state, sr_bind, observe, sr_lift, map_err. cbn.
  destruct (hv_vt_state (rw_host w (rw_time w))) as [[active allocated]|] eqn:Hv; [|done].
  cbn. destruct (Hl active (tick w)) as [_ Ht]. intros Hok.
  destruct (decide (active = expected)) as [->|Hne].
  - exists (rw_time w). cbn in Ht. split; [lia|]. by exists allocated.
  - destruct (Hk active (tick w) Hne Hok) as (t & Htt & Ha). exists t. cbn in *.
    split; [lia|done].
Qed.

Lemma activation_wait_sees wakeups expected :
  sees (active_is expected) (activation_wait wakeups expected).
Proof.
  induction wakeups as [|[errno|observer timer watch] rest IH]; cbn [activation_wait].
  - apply active_checked; [intros a; later_auto|].
    intros a w Hne. by rewrite (proj2 (Z.eqb_neq _ _)) by done.
  - case_match; [done|apply sees_fail].
  - apply active_checked; [intros a; later_auto|].
    intros a w Hne. rewrite (proj2 (Z.eqb_neq _ _)) by done. destruct timer; [done|].
    apply IH.
Qed.
Lemma wait_activation_sees expected :
  sees (active_is expected) (wait_for_previous_vt_activation expected).
Proof.
  unfold wait_for_previous_vt_activation. apply active_checked; [intros a; later_auto|].
  intros a w Hne. rewrite (proj2 (Z.eqb_neq _ _)) by done. revert w.
  change (sees (active_is expected) (A:=()) (E:=SupervisorRecoveryError)
    (let* observer := observe hv_vt_observer in
     match observer with
     | Some errno => sr_fail (VtActivationFailed errno)
     | None =>
         let* armed := observe hv_timer in
         ensure armed else BoundaryObserverUnavailable ;;;
         let* wakeups := observe hv_wakeups in
         activation_wait wakeups expected
     end)).
  apply sees_skip; [later_acts|intros [errno|]]; [apply sees_fail|].
  do 3 (apply sees_skip; [later_acts|intros ?]). apply activation_wait_sees.
Qed.

Ltac releases_acts ks :=
  solve [apply (releases_acts _ _ ks); [solve_emits|apply (bool_decide_unpack _); reflexivity]].
Ltac releases_auto :=
  repeat first
    [ apply releases_on_record | releases_acts (@nil EffectKind) | releases_acts [KSetText]
    | releases_acts [KSetMode] | releases_acts [KRestore] | releases_acts [KActivate]
    | apply releases_bind; [|intros ?] ].

Lemma disallocate_releases n : releases n (λ _, True) (disallocate_virtual_terminal n).
Proof.
  intros w. split; [eapply acts_later, disallocate_vt_emits|]. exists [(EffIoctl (VtDisallocate n), rw_ledger w)].
  unfold disallocate_virtual_terminal, ioctl, act, sr_bind. cbn.
  destruct (hv_ioctl _ _); cbn; (split; [done|]);
    (intros e ->%list_elem_of_singleton _; split; [done|]); exists (rw_time w); cbn; (split; [lia|done]).
Qed.

Lemma recover_vt_releases identity :
  releases (vi_number identity) (active_is (pv_number (vi_previous identity)))
    (recover_virtual_terminal_raw identity).
Proof.
  unfold recover_virtual_terminal_raw. cbn zeta.
  do 11 (apply releases_bind; [releases_auto|intros ?]).
  eapply (releases_seen _ _ []); [solve_emits|by apply not_elem_of_nil|
    apply wait_activation_sees|intros ?].
  apply releases_bind; [releases_auto|intros ?]. apply disallocate_releases.
Qed.

Lemma vt_effects_releases authority target proof permit n owner :
  releases (vi_number (vtt_identity target))
    (active_is (pv_number (vi_previous (vtt_identity target))))
    (vt_effects_recover authority target proof permit n owner).
Proof.
  unfold vt_effects_recover. do 2 (apply releases_bind; [releases_auto|intros ?]).
  intros w. destruct (recover_vt_releases (vtt_identity target) w) as [L1 R1].
  destruct (recover_virtual_terminal_raw _ w) as [w1 r]; cbn in L1, R1.
  assert (releases (vi_number (vtt_identity target))
    (active_is (pv_number (vi_previous (vtt_identity target)))) (still_authorizes n owner)) as Hs
    by releases_auto.
  destruct (releases_then _ _ _ _ _ L1 R1 Hs) as [L2 R2].
  by destruct (still_authorizes n owner w1) as [w2 []].
Qed.

Lemma target_identity s identity proof owner target :
  vt_target_from_identity s identity proof owner = Ok target → vtt_identity target = identity.
Proof.
  unfold vt_target_from_identity. destruct (validate_vt_identity _); [|done].
  case_match; [done|]. by intros [= <-].
Qed.

Section Claims.
Context `{SerdeJson PersistentRecoveryRecord}.

Lemma vt_failed_releases m Y next vt attempt e :
  releases m Y (vt_recovery_failed next vt attempt e).
Proof. unfold vt_recovery_failed. cbn zeta. case_match; releases_auto. Qed.

Lemma startup_vt_releases s proof n vt :
  persisted_vt_identity (ss_record s) = Ok vt →
  releases (vi_number vt) (active_is (pv_number (vi_previous vt)))
    (reconcile_startup_vt s proof n).
Proof.
  intros Hvt. unfold reconcile_startup_vt. cbn zeta. rewrite Hvt.
  apply releases_lift_bind. intros ? [= <-].
  case_match; try releases_acts (@nil EffectKind).
  do 3 (apply releases_bind; [releases_auto|intros ?]).
  apply releases_bind; [apply releases_on_record|intros [next permit]].
  apply releases_lift_bind. intros target Ht. apply releases_case.
  - destruct (vt_target_from_identity _ _ _ _) as [t|] eqn:Et; [|done]. injection Ht as ->.
    apply target_identity in Et as <-. apply vt_effects_releases.
  - intros ?. apply releases_on_record.
  - intros e. apply vt_failed_releases.
Qed.

(** When the recovery of a session gives a terminal up, it is the terminal
    the record names as the session's, and at some moment of that run the
    kernel reported the terminal the record names as the previous one to be
    the active one.  A recovery in which that never happened leaves the
    terminal allocated. *)
Theorem disallocated_terminal_was_left s proof n w w' r effects effect :
  reconcile_startup_vt s proof n w = (w', r) →
  rw_effects w' = rw_effects w ++ effects →
  effect ∈ effects.*1 → effect_kind effect = KDisallocate →
  ∃ target previous t,
    pr_target_vt (ss_record s) = Some target ∧ pr_previous_vt (ss_record s) = Some previous ∧
    effect = EffIoctl (VtDisallocate target) ∧
    (rw_time w ≤ t < rw_time w')%nat ∧ active_is previous (rw_host w t).
Proof.
  intros HE Heff Hin Hk.
  destruct (persisted_vt_identity (ss_record s)) as [vt|f] eqn:Hvt.
  - destruct (startup_vt_releases s proof n vt Hvt w) as [_ (es & He & Hes)].
    rewrite HE in *. cbn in *. rewrite Heff in He. apply app_inv_head in He as ->.
    destruct (Hes effect Hin Hk) as (-> & t & Ht & Ha).
    unfold persisted_vt_identity in Hvt.
    destruct (pr_target_vt _) as [target|], (pr_previous_vt _) as [previous|]; try done.
    injection Hvt as <-. by exists target, previous, t.
  - exfalso. unfold reconcile_startup_vt in HE. rewrite Hvt in HE. injection HE as <- _.
    rewrite <- (app_nil_r (rw_effects w)) in Heff at 1. apply app_inv_head in Heff as <-.
    by apply elem_of_nil in Hin.
Qed.
End Claims.
