(* ===== verification/LiveBoundarySafety.v ===== *)
(** * What the Linux provider's answers mean

    The supervisor loop is proved against the answers of its provider.  Here
    the answers of the Linux one are tied to the machine: a proof of an empty
    boundary was witnessed by the control group tree and by the leader's
    pidfd, a payload is killed at most once, and the record made of a prepared
    payload names exactly what a later recovery looks for. *)

From stdpp Require Import base gmap sets list strings pretty.
From Stdlib Require Import ZArith Lia.
From S2P Require Import Prelude Text DirFs RecoveryTypes LedgerTaxonomy Ledger.
From S2P Require Import PreviousBoot PreCommit SameBoot Finalization Admission.
From S2P Require Import AdminRecovery WorkerRecord Supervisor SupervisorSafety.
From S2P Require Import SupervisorExits CgroupState HostWorld UnitPin VtControl.
From S2P Require Import LiveBoundary Startup RecoveryTrace SameBootRecovery.
From S2P Require Import SameBootRecoverySafety TerminalSafety.
#[local] Open Scope niralis_scope.

(** ** Effects of the live operations *)

Lemma leader_gone_emits k leader : emits fst k (leader_gone leader).
Proof. unfold leader_gone, observed_dead. solve_emits. Qed.
#[export] Hint Resolve leader_gone_emits : emits.
Lemma emergency_wait_emits k wakeups leader observing :
  emits fst k (emergency_wait wakeups leader observing).
Proof.
  induction wakeups as [|[errno|observer timer watch] rest IH]; cbn [emergency_wait];
    solve_emits.
Qed.
#[export] Hint Resolve emergency_wait_emits : emits.
Lemma wait_emergency_emits k leader observing :
  emits fst k (wait_for_emergency_boundary leader observing).
Proof. unfold wait_for_emergency_boundary. solve_emits. Qed.
Lemma ended_unit_emits k : emits fst k ended_unit.
Proof. unfold ended_unit. solve_emits. Qed.
#[export] Hint Resolve wait_emergency_emits ended_unit_emits : emits.
Lemma prove_boundary_emits k leader status :
  emits fst k (prove_linux_supervisor_emergency_boundary leader status).
Proof. unfold prove_linux_supervisor_emergency_boundary, observed_dead. solve_emits. Qed.
#[export] Hint Resolve prove_boundary_emits : emits.
Lemma recover_live_emits leader status :
  emits fst [KKill] (recover_live_emergency leader status).
Proof. unfold recover_live_emergency. solve_emits. Qed.

(** ** What leaves the pin alone *)

Definition same_pin (s s' : RecoveryWorld * PinnedInvocationInner) : Prop := s'.2 = s.2.
#[local] Instance same_pin_preorder : PreOrder same_pin.
Proof. split; [by intros s|]. intros x y z Hxy Hyz. unfold same_pin in *. congruence. Qed.

Lemma in_world_pin {E A} (m : RC E A) : sr_keeps same_pin (in_world m).
Proof. intros [w pin]. unfold in_world, sr_zoom, same_pin. cbn. by destruct (m w). Qed.

Create HintDb pin discriminated.
#[export] Hint Constants Opaque : pin.
#[export] Hint Resolve in_world_pin : pin.

Ltac pin_auto :=
  repeat first
    [ solve [eauto with pin nocore] | apply (keeps_read same_pin)
    | apply (keeps_ret same_pin) | apply (keeps_fail same_pin)
    | apply (keeps_lift same_pin) | apply (keeps_map_err same_pin)
    | apply (keeps_bind same_pin); [|intros ?] | case_match ].

Lemma validate_owner_pin : sr_keeps same_pin validate_owner.
Proof. unfold validate_owner, this_pin. pin_auto. Qed.
#[export] Hint Resolve validate_owner_pin : pin.
Lemma revalidate_pin b : sr_keeps same_pin (revalidate b).
Proof. unfold revalidate, this_pin. pin_auto. Qed.
Lemma boundary_state_pin : sr_keeps same_pin pin_boundary_state.
Proof. unfold pin_boundary_state, this_pin. pin_auto. Qed.
#[export] Hint Resolve revalidate_pin boundary_state_pin : pin.
Lemma leader_gone_pin leader : sr_keeps same_pin (leader_gone leader).
Proof. unfold leader_gone. pin_auto. Qed.
#[export] Hint Resolve leader_gone_pin : pin.
Lemma emergency_wait_pin wakeups leader observing :
  sr_keeps same_pin (emergency_wait wakeups leader observing).
Proof.
  induction wakeups as [|[errno|observer timer watch] rest IH]; cbn [emergency_wait];
    unfold this_pin; pin_auto.
Qed.
#[export] Hint Resolve emergency_wait_pin : pin.
Lemma wait_emergency_pin leader observing :
  sr_keeps same_pin (wait_for_emergency_boundary leader observing).
Proof. unfold wait_for_emergency_boundary. pin_auto. Qed.
Lemma ended_unit_pin : sr_keeps same_pin ended_unit.
Proof. unfold ended_unit. pin_auto. Qed.
#[export] Hint Resolve wait_emergency_pin ended_unit_pin : pin.
Lemma prove_boundary_pin leader status :
  sr_keeps same_pin (prove_linux_supervisor_emergency_boundary leader status).
Proof. unfold prove_linux_supervisor_emergency_boundary, this_pin. pin_auto. Qed.
#[export] Hint Resolve prove_boundary_pin : pin.

(** ** What a success has seen *)

(** Success means that the machine looked like [X], for the control group of
    the pin, at some moment of the run. *)
Definition witnessed {E A} (X : string → HostView → Prop) (m : PN E A) : Prop :=
  ∀ w pin, is_ok (m (w, pin)).2 = true → seen (X (pin_cgroup pin)) w (m (w, pin)).1.1.

Lemma emits_later {E A} k (m : PN E A) s : emits fst k m → later s.1 (m s).1.1.
Proof. intros Hm. destruct (Hm s) as [_ Hh Ht _]. done. Qed.

Lemma witnessed_skip {E A B} X k (m : PN E A) (f : A → PN E B) :
  emits fst k m → sr_keeps same_cgroup_inner m → (∀ a, witnessed X (f a)) →
  witnessed X (sr_bind m f).
Proof.
  intros Hm Hc Hf w pin Hok. unfold sr_bind in *.
  pose proof (emits_later k m (w, pin) Hm) as Hl. specialize (Hc (w, pin)).
  unfold same_cgroup_inner in Hc.
  destruct (m (w, pin)) as [[w1 pin1] [a|e]]; cbn in *; [|done].
  eapply seen_right; [exact Hl|]. rewrite <- Hc. by apply Hf.
Qed.
Lemma witnessed_left {E A B} X k (m : PN E A) (f : A → PN E B) :
  witnessed X m → (∀ a, emits fst k (f a)) → witnessed X (sr_bind m f).
Proof.
  intros Hm Hf w pin Hok. unfold sr_bind in *. specialize (Hm w pin).
  destruct (m (w, pin)) as [s1 [a|e]]; cbn in *; [|done].
  eapply seen_left; [by apply (emits_later k)|by apply Hm].
Qed.
(** The moment of a question counts when its answer passed a check. *)
Lemma witnessed_checked {E A B} X k (m : PN E A) (f : A → PN E B) :
  (∀ w pin a, (m (w, pin)).2 = Ok a → is_ok (f a (m (w, pin)).1).2 = true →
     seen (X (pin_cgroup pin)) w (m (w, pin)).1.1) →
  (∀ a, emits fst k (f a)) → witnessed X (sr_bind m f).
Proof.
  intros Hm Hf w pin Hok. unfold sr_bind in *. specialize (Hm w pin).
  destruct (m (w, pin)) as [s1 [a|e]]; cbn in *; [|done].
  eapply seen_left; [by apply (emits_later k)|by eapply Hm].
Qed.

Lemma same_pin_cgroup {E A} (m : PN E A) : sr_keeps same_pin m → sr_keeps same_cgroup_inner m.
Proof. intros Hm s. unfold same_cgroup_inner. by rewrite (Hm s). Qed.

Ltac skip_quiet :=
  apply (witnessed_skip _ []);
    [solve [unfold observed_dead; solve_emits]|apply same_pin_cgroup; unfold this_pin; pin_auto|intros ?].

Lemma observed_dead_seen leader w pin dead :
  (in_world (observed_dead leader) (w, pin)).2 = Ok dead → dead = true →
  seen (λ h, hv_pidfd_readable h leader = Some true) w
    (in_world (observed_dead leader) (w, pin)).1.1.
Proof.
  unfold in_world, sr_zoom, observed_dead, observe_or, sr_bind, observe, sr_lift. cbn.
  destruct (hv_pidfd_readable _ _) as [[]|] eqn:Hp; cbn; [|naive_solver..].
  intros _ _. exists (rw_time w). cbn. split; [lia|done].
Qed.
Lemma boundary_state_seen w pin state :
  (pin_boundary_state (w, pin)).2 = Ok state → vacant_state state = true →
  seen (vacant_at (pin_cgroup pin)) w (pin_boundary_state (w, pin)).1.1.
Proof.
  unfold pin_boundary_state, this_pin, in_world, boundary_state, sr_bind, sr_zoom, observe,
    sr_lift. cbn.
  destruct (read_supervisor_boundary_state _ _) as [state'|] eqn:Hr; cbn; [|done].
  intros [= ->] Hv. exists (rw_time w). cbn. split; [lia|]. unfold vacant_at. by rewrite Hr.
Qed.

Lemma prove_boundary_vacant leader status :
  witnessed vacant_at (prove_linux_supervisor_emergency_boundary leader status).
Proof.
  unfold prove_linux_supervisor_emergency_boundary. do 6 skip_quiet.
  eapply (witnessed_checked _ []); [|solve_emits].
  intros w pin state Hs Hok. eapply boundary_state_seen; [exact Hs|].
  by destruct (vacant_state state).
Qed.
Lemma prove_boundary_dead leader status :
  witnessed (λ _ h, hv_pidfd_readable h leader = Some true)
    (prove_linux_supervisor_emergency_boundary leader status).
Proof.
  unfold prove_linux_supervisor_emergency_boundary. do 2 skip_quiet.
  eapply (witnessed_checked _ []); [|unfold observed_dead; solve_emits].
  intros w pin dead Hd Hok. eapply observed_dead_seen; [exact Hd|]. by destruct dead.
Qed.

Lemma recover_live_witnessed X leader status :
  witnessed X (prove_linux_supervisor_emergency_boundary leader status) →
  witnessed X (recover_live_emergency leader status).
Proof.
  intros HX. unfold recover_live_emergency. cbn zeta. do 4 skip_quiet.
  apply (witnessed_skip _ [KKill]).
  - case_match; solve_emits.
  - case_match; [apply request_kill_cgroup|]. by intros s.
  - intros ?. skip_quiet. exact HX.
Qed.

(** A success names the control group of the pin. *)
Definition names {E} (m : PN E SupervisorEmergencyBoundaryProof) : Prop :=
  ∀ s proof, (m s).2 = Ok proof → ep_control_group proof = pin_cgroup s.2.
Lemma names_skip {E A} (m : PN E A) (f : A → PN E SupervisorEmergencyBoundaryProof) :
  sr_keeps same_cgroup_inner m → (∀ a, names (f a)) → names (sr_bind m f).
Proof.
  intros Hc Hf s proof HE. apply bind_ok_result in HE as (a & _ & HE).
  apply Hf in HE. by rewrite (Hc s) in HE.
Qed.

Lemma prove_boundary_names leader status :
  names (prove_linux_supervisor_emergency_boundary leader status).
Proof.
  intros s proof HE. unfold prove_linux_supervisor_emergency_boundary in HE.
  apply bind_ok_result in HE as (p & [= <-] & HE). cbn zeta in HE.
  do 12 (apply bind_ok_result in HE as (? & _ & HE)). cbn in HE. by injection HE as <-.
Qed.
Lemma recover_live_names leader status : names (recover_live_emergency leader status).
Proof.
  unfold recover_live_emergency. cbn zeta.
  do 4 (apply names_skip; [apply same_pin_cgroup; unfold this_pin; pin_auto|intros ?]).
  apply names_skip; [case_match; [apply request_kill_cgroup|by intros s]|intros ?].
  apply names_skip; [apply same_pin_cgroup; pin_auto|intros ?]. apply prove_boundary_names.
Qed.

(** ** The seat of a running session *)

(** A boundary in the hands of the provider was empty at a moment of the
    operation, and its leader dead. *)
Definition seen_empty (boundary : LinuxLivePayloadBoundary) (w : RecoveryWorld) : Prop :=
  ∃ t t', (rw_time w ≤ t)%nat ∧ vacant_at (pin_cgroup (lb_pin boundary)) (rw_host w t) ∧
    (rw_time w ≤ t')%nat ∧
    hv_pidfd_readable (rw_host w t') (lb_leader boundary) = Some true.

Lemma proof_seen_empty (m : PN SupervisorRecoveryError SupervisorEmergencyBoundaryProof)
    boundary w proof :
  witnessed vacant_at m →
  witnessed (λ _ h, hv_pidfd_readable h (lb_leader boundary) = Some true) m →
  (m (w, lb_pin boundary)).2 = Ok proof → seen_empty boundary w.
Proof.
  intros Hv Hd HE. specialize (Hv w (lb_pin boundary)). specialize (Hd w (lb_pin boundary)).
  rewrite HE in Hv, Hd. destruct (Hv eq_refl) as (t & Ht & Hvt).
  destruct (Hd eq_refl) as (t' & Ht' & Hdt). exists t, t'. split_and!; [lia|done|lia|done].
Qed.

(** C16. With the Linux provider, at any point of the loop's life, a reaping
    frees the seat of the running session only if the machine itself showed,
    while the provider was asked to verify or to clear the payload's
    boundary, that the control group held for the payload was vacant, at
    every depth, and that the leader of the payload had exited. *)
Theorem freed_seat_was_seen_empty `{SerdeJson PersistentRecoveryRecord}
    `{SerdeJson PreCommitRuntimeRecord} ledger store rounds host worker before live :
  sh_provider host = live_provider before live →
  let s := run_loop rounds (supervisor_new ledger store) in
  sl_children s = [worker] →
  is_free (aw_controller (sl_admission (reap_exited_workers host s))) = true →
  ∃ payload, state_payload (wr_state (sw_record worker)) = Some payload ∧
    (seen_empty (live (pp_boundary payload)) (before OpVerifyEmpty) ∨
     seen_empty (live (pp_boundary payload)) (before OpRecoverLive)).
Proof.
  intros Hp s Hc Hf.
  destruct (reaped_settled host worker s) as (pid & status & _ & _ & _ & payload & Hpay & Hs);
    [apply run_loop_seat_inv, supervisor_new_seat_inv|done..|].
  exists payload. split; [done|].
  destruct Hs as [(_ & [[proof Hv] _] & _)|[[proof Hv] _]]; rewrite Hp in Hv;
    set (boundary := live (pp_boundary payload)).
  - left. apply (proof_seen_empty (verify_empty (lb_leader boundary) status) _ _ proof);
      [apply prove_boundary_vacant|apply prove_boundary_dead|exact Hv].
  - right.
    apply (proof_seen_empty (recover_live_emergency (lb_leader boundary) status) _ _ proof);
      [apply recover_live_witnessed, prove_boundary_vacant
      |apply recover_live_witnessed, prove_boundary_dead|exact Hv].
Qed.

(** ** One kill per payload *)

Definition kill_count (kinds : list EffectKind) : nat := count_occ EffectKind_eq_dec kinds KKill.
Definition kills (w : RecoveryWorld) : nat :=
  kill_count (effect_kind <$> (rw_effects w).*1).
(** The kills asked for, and the one the pin still allows. *)
Definition kill_budget (s : RecoveryWorld * PinnedInvocationInner) : nat :=
  (kills s.1 + if pin_emergency_kill_requested s.2 then 0 else 1)%nat.
Definition within_budget (s s' : RecoveryWorld * PinnedInvocationInner) : Prop :=
  (kill_budget s' ≤ kill_budget s)%nat.
#[local] Instance within_budget_preorder : PreOrder within_budget.
Proof. split; [intros s; unfold within_budget; lia|]. intros x y z Hxy Hyz. unfold within_budget in *. lia. Qed.

Lemma sublist_kills l k : l `sublist_of` k → (kill_count l ≤ kill_count k)%nat.
Proof.
  induction 1 as [|x l k _ IH|x l k _ IH]; unfold kill_count in *; cbn; [done|..];
    repeat case_match; lia.
Qed.
Lemma extends_kills k w w' : extends k w w' → (kills w' ≤ kills w + kill_count k)%nat.
Proof.
  intros [_ _ _ (es & HE & Hs)]. unfold kills, kill_count.
  rewrite HE, !fmap_app, count_occ_app. apply sublist_kills in Hs. unfold kill_count in Hs.
  enough (effect_kind <$> ((λ e, (e, rw_ledger w)) <$> es).*1 = effect_kind <$> es) as -> by lia.
  f_equal. rewrite <- list_fmap_compose. apply list_fmap_id.
Qed.

(** What keeps the pin and does not kill stays within the budget. *)
Lemma quiet_budget {E A} k (m : PN E A) :
  emits fst k m → kill_count k = 0%nat → sr_keeps same_pin m → sr_keeps within_budget m.
Proof.
  intros Hm Hk Hp s. unfold within_budget, kill_budget. rewrite (Hp s).
  pose proof (extends_kills _ _ _ (Hm s)). lia.
Qed.
(** Nothing was killed unless the pin says so. *)
Definition kill_noted (s s' : RecoveryWorld * PinnedInvocationInner) : Prop :=
  pin_emergency_kill_requested s'.2 = true ∨
  ((kills s'.1 ≤ kills s.1)%nat ∧
   pin_emergency_kill_requested s'.2 = pin_emergency_kill_requested s.2).
#[local] Instance kill_noted_preorder : PreOrder kill_noted.
Proof.
  split; [by right|]. intros x y z [Hy|[Ky Fy]] [Hz|[Kz Fz]]; unfold kill_noted in *;
    [by left|left; congruence|by left|right]. split; [lia|congruence].
Qed.
Lemma quiet_noted {E A} (m : PN E A) :
  emits fst [] m → sr_keeps same_pin m → sr_keeps kill_noted m.
Proof.
  intros Hm Hp s. right. rewrite (Hp s). pose proof (extends_kills _ _ _ (Hm s)) as Hk.
  cbn in Hk. split; [lia|done].
Qed.
Lemma flagged_noted {E A} held (m : PN E A) :
  sr_keeps same_pin m → sr_keeps kill_noted (set_flags held true ;;; m).
Proof.
  intros Hm [w p]. left. unfold sr_bind, set_flags. cbn.
  by rewrite (Hm (w, mkPinned _ _ _ _ _ _ _ _ _)).
Qed.

Lemma request_kill_noted : sr_keeps kill_noted request_emergency_kill.
Proof.
  unfold request_emergency_kill.
  do 4 (apply (keeps_bind kill_noted);
        [apply quiet_noted; [solve_emits|unfold this_pin; pin_auto]|intros ?]).
  case_match; [apply (keeps_ret kill_noted)|]. apply flagged_noted. pin_auto.
Qed.
Lemma request_kill_budget : sr_keeps within_budget request_emergency_kill.
Proof.
  intros s. pose proof (request_kill_noted s) as Hn.
  pose proof (extends_kills _ _ _ (request_kill_emits s)) as Hk.
  change (kill_count [KKill]) with 1%nat in Hk.
  destruct (pin_emergency_kill_requested s.2) eqn:Hr.
  - unfold request_emergency_kill. rewrite sr_bind_eq. cbn. rewrite Hr. reflexivity.
  - unfold within_budget, kill_budget. rewrite Hr.
    destruct Hn as [->|[Hk' ->]]; [|rewrite Hr]; lia.
Qed.

(** ** The operations of the supervisor on one payload *)

Inductive LiveCall :=
| RecoverLive (status : ExitStatus) | VerifyEmpty (status : ExitStatus) | ReleaseLive.
Definition live_call (leader : Z) (call : LiveCall)
    (s : RecoveryWorld * PinnedInvocationInner) : RecoveryWorld * PinnedInvocationInner :=
  match call with
  | RecoverLive status => (recover_live_emergency leader status s).1
  | VerifyEmpty status => (verify_empty leader status s).1
  | ReleaseLive => (pin_release s).1
  end.
Definition live_calls (leader : Z) (calls : list LiveCall)
    (s : RecoveryWorld * PinnedInvocationInner) : RecoveryWorld * PinnedInvocationInner :=
  foldl (λ s call, live_call leader call s) s calls.

Lemma recover_live_budget leader status :
  sr_keeps within_budget (recover_live_emergency leader status).
Proof.
  unfold recover_live_emergency. cbn zeta.
  do 4 (apply (keeps_bind within_budget);
        [apply (quiet_budget []); [solve_emits|done|unfold this_pin; pin_auto]|intros ?]).
  apply (keeps_bind within_budget).
  { case_match; [apply request_kill_budget|apply (keeps_ret within_budget)]. }
  intros ?. apply (quiet_budget []); [solve_emits|done|pin_auto].
Qed.
Lemma release_budget : sr_keeps within_budget pin_release.
Proof.
  intros [w p]. unfold within_budget, kill_budget.
  pose proof (extends_kills _ _ _ (pin_release_emits (w, p))) as Hk.
  change (kill_count [KUnref]) with 0%nat in Hk.
  enough (pin_emergency_kill_requested (pin_release (w, p)).1.2 =
          pin_emergency_kill_requested p) as -> by (cbn [fst snd] in *; lia).
  unfold pin_release. rewrite sr_bind_eq. cbn [this_pin snd].
  destruct (negb (pin_reference_held p)); [done|]. rewrite sr_bind_eq.
  pose proof (validate_owner_pin (w, p)) as Hp. unfold same_pin in Hp.
  destruct (validate_owner (w, p)) as [[w1 p1] [[]|]]; cbn [fst snd] in Hp; subst p1; [|done].
  rewrite sr_bind_eq.
  match goal with |- context [match ?m ?s with _ => _ end] =>
    assert (sr_keeps same_pin m) as Hm by pin_auto; specialize (Hm s);
    unfold same_pin in Hm; destruct (m s) as [[w2 p2] [[]|]] end;
    cbn [fst snd] in Hm; by subst p2.
Qed.
Lemma live_call_budget leader call s : within_budget s (live_call leader call s).
Proof.
  destruct call as [status|status|]; cbn [live_call].
  - apply recover_live_budget.
  - apply (quiet_budget []); [unfold verify_empty; solve_emits|done|unfold verify_empty; pin_auto].
  - apply release_budget.
Qed.

(** Whatever the supervisor asks of the boundary of a payload, in whatever
    order and however often, and whatever the machine answers, systemd is
    asked at most once to kill the payload. *)
Theorem payload_killed_at_most_once leader calls w pin :
  pin_emergency_kill_requested pin = false →
  (kills (live_calls leader calls (w, pin)).1 ≤ kills w + 1)%nat.
Proof.
  intros Hf. assert (within_budget (w, pin) (live_calls leader calls (w, pin))) as Hb.
  { unfold live_calls. generalize (w, pin). induction calls as [|call calls IH]; intros s;
      cbn [foldl]; [reflexivity|]. etrans; [apply live_call_budget|apply IH]. }
  unfold within_budget, kill_budget in Hb. cbn [fst snd] in Hb. rewrite Hf in Hb. lia.
Qed.

(** ** The record of a prepared payload *)

Lemma ensure_ok_result {S E} (b : bool) (e : E) (s : S) a :
  ((if b then sr_ret () else sr_fail e : SR S E ()) s).2 = Ok a → b = true.
Proof. by destruct b. Qed.
Lemma or_unref_ok {A} path (m : RC SupervisorRecoveryError A) w a :
  (or_unref path m w).2 = Ok a → (m w).2 = Ok a.
Proof. unfold or_unref. by destruct (m w) as [w' []]. Qed.

Lemma validate_observation_ok identity o :
  validate_unit_observation identity o None = Ok () →
  uo_control_group o = scope_control_group (psi_expected_uid identity) (psi_unit_name identity) ∧
  uo_slice o = user_slice (psi_expected_uid identity).
Proof.
  unfold validate_unit_observation. cbn. rewrite orb_false_r.
  destruct (str_eqb (uo_control_group o) _) eqn:Hc; [|by rewrite orb_true_r].
  destruct (str_eqb (uo_slice o) _) eqn:Hs; [|by rewrite !orb_true_r].
  intros _. split; by apply str_eqb_true.
Qed.

Lemma acquire_pin identity leader worker launcher fd w pin :
  (acquire identity leader worker launcher fd w).2 = Ok pin →
  validate_scope identity = true ∧ pin_identity pin = identity ∧
  pin_cgroup pin = scope_control_group (psi_expected_uid identity) (psi_unit_name identity) ∧
  pin_slice pin = user_slice (psi_expected_uid identity).
Proof.
  unfold acquire. intros HE. apply bind_ok_result in HE as (? & Hv & HE).
  apply ensure_ok_result in Hv. apply andb_true_iff in Hv as [Hv _].
  do 12 (apply bind_ok_result in HE as (? & _ & HE)). apply bind_ok_result in HE as (second & _ & HE).
  apply bind_ok_result in HE as (? & _ & HE). apply bind_ok_result in HE as (? & Ho & HE).
  cbn in HE. injection HE as <-. cbn. apply or_unref_ok, bind_ok_result in Ho as ([] & Ho & _).
  cbn in Ho. apply validate_observation_ok in Ho as [Hc Hs]. done.
Qed.

(** Every payload the Linux provider prepares for a worker is one a later
    recovery finds again: the durable record made of it names the scope, the
    control group and the slice that the recovery derives from user and unit,
    the terminal recovery rebuilds from the record is the payload's, different
    from the previous one, and as long as logind reports the session
    unchanged, recovery accepts it as the record's. *)
Theorem prepared_payload_is_recoverable identity leader worker launcher previous w w'
    boundary payload host id user session :
  prepare_payload identity leader worker launcher previous w = (w', Ok (boundary, payload)) →
  let record := prepared host id worker launcher user session previous payload in
  let uid := psi_expected_uid identity in
  validate_scope identity = true ∧
  pr_uid record = uid ∧ pr_transient record = Some true ∧
  scope_identity_of record (psi_logind_session_id identity) SrfLogindIdentityChanged =
    Ok identity ∧
  pr_control_group record = Some (scope_control_group uid (psi_unit_name identity)) ∧
  pr_slice record = Some (user_slice uid) ∧
  persisted_vt_identity record = Ok (pp_vt payload) ∧
  vi_number (pp_vt payload) ≠ pv_number previous ∧
  (∀ s owner, ss_record s = record → snapshot_validates s = true →
     is_ok (logind_target_from_identity s (pp_logind payload) owner) = true).
Proof.
  intros HE record uid. apply (f_equal snd) in HE. cbn [snd] in HE. unfold prepare_payload in HE.
  apply bind_ok_result in HE as (? & _ & HE). apply bind_ok_result in HE as (pin & Hp & HE).
  apply acquire_pin in Hp as (Hv & Hi & Hc & Hs).
  apply bind_ok_result in HE as (logind & _ & HE). apply bind_ok_result in HE as (? & Hl & HE).
  apply ensure_ok_result in Hl. apply bind_ok_result in HE as (credentials & _ & HE).
  apply bind_ok_result in HE as (? & _ & HE). cbn in HE. injection HE as <- <-.
  bool_facts. subst uid. destruct identity as [unit inv uid sid]. cbn in *.
  unfold record, scope_identity_of, persisted_vt_identity, prepared. cbn.
  rewrite Hi, Hc, Hs. cbn. split_and!; try done.
  - by destruct previous.
  - intros s owner Hr Hval. unfold logind_target_from_identity. rewrite Hval, Hr. cbn.
    repeat match goal with H : sli_id _ = _ |- _ => rewrite H | H : sli_leader _ = _ |- _ =>
      rewrite H end.
    by rewrite !str_eqb_refl, Z.eqb_refl, bool_decide_true.
Qed.
