(* ===== verification/InspectionSafety.v ===== *)
(** * What an inspection of the machine proves

    Theorems about [VtHolders] and [BootInspection]: what the report on a busy
    terminal says is what was seen; a record of an earlier boot is only
    resolved when the machine showed that nothing of it is left or reused; and
    an administrator's retry only reaches a terminal nobody was seen to use. *)

From stdpp Require Import base gmap sets list strings pretty.
From Stdlib Require Import ZArith Lia.
From S2P Require Import Prelude Text Paths DirFs RecoveryTypes LedgerTaxonomy.
From S2P Require Import Ledger.
From S2P Require Import PreviousBoot PreCommit SameBoot Finalization Admission.
From S2P Require Import AdminRecovery WorkerRecord CgroupState HostWorld.
From S2P Require Import VtHolders UnitPin VtControl Startup SameBootRecovery.
From S2P Require Import BootInspection.
From S2P Require Import RecoveryTrace SameBootRecoverySafety.
#[local] Open Scope niralis_scope.

(** ** Moments of a run *)

(** While [w] became [w'] the machine looked like [X]. *)
Definition saw (w w' : RecoveryWorld) (X : HostView → Prop) : Prop :=
  ∃ t, (rw_time w ≤ t < rw_time w')%nat ∧ X (rw_host w t).

Lemma saw_tick (X : HostView → Prop) w : X (rw_host w (rw_time w)) → saw w (tick w) X.
Proof. intros H. exists (rw_time w). cbn. split; [lia|done]. Qed.
Lemma saw_widen X w0 w w' w1 : later w0 w → later w' w1 → saw w w' X → saw w0 w1 X.
Proof.
  intros [H0 T0] [_ T1] (t & Ht & HX). exists t. rewrite <- H0. split; [lia|done].
Qed.
Lemma saw_weaken (X Y : HostView → Prop) w w' : (∀ h, X h → Y h) → saw w w' X → saw w w' Y.
Proof. intros H (t & Ht & HX). exists t. eauto. Qed.
Lemma saw_left X w w1 w2 : later w1 w2 → saw w w1 X → saw w w2 X.
Proof. intros H. by apply saw_widen. Qed.
Lemma saw_right X w w1 w2 : later w w1 → saw w1 w2 X → saw w w2 X.
Proof. intros H. by apply saw_widen. Qed.

Lemma observe_ok {E A} (f : HostView → A) w w' a :
  observe (E:=E) f w = (w', Ok a) → w' = tick w ∧ a = f (rw_host w (rw_time w)).
Proof. by intros [= <- <-]. Qed.
Lemma observe_or_ok {E A} (e : E) (f : HostView → option A) w w' a :
  observe_or e f w = (w', Ok a) → w' = tick w ∧ f (rw_host w (rw_time w)) = Some a.
Proof.
  unfold observe_or. intros (w1 & b & [-> ->]%observe_ok & [-> H]%lift_ok)%bind_ok.
  by apply ok_or_ok in H.
Qed.
Lemma connect_ok {E} (e : E) w w' u : connect e w = (w', Ok u) → w' = tick w.
Proof.
  unfold connect. by intros (w1 & b & [-> ->]%observe_ok & [-> H]%ensure_ok)%bind_ok.
Qed.
Lemma later_tick w : later w (tick w).
Proof. split; cbn; [done|lia]. Qed.
Lemma run_later {E A} (m : RC E A) w w' r : acts [] m → m w = (w', r) → later w w'.
Proof. intros Hm H. pose proof (acts_later [] m Hm w) as L. by rewrite H in L. Qed.


(** Split a successful run into its questions. *)
Ltac ask_run H :=
  lazymatch type of H with
  | sr_bind _ _ _ = (_, Ok _) =>
      let R := fresh "R" in let w := fresh "w" in let a := fresh "a" in
      apply bind_ok in H as (w & a & R & H); ask_run R; ask_run H
  | observe _ _ = (_, Ok _) => apply observe_ok in H as [-> ->]
  | asked _ _ = (_, Ok _) => apply observe_ok in H as [-> ->]
  | observe_or _ _ _ = (_, Ok _) => apply observe_or_ok in H as [-> H]
  | connect _ _ = (_, Ok _) => apply connect_ok in H as ->
  | sr_map_err _ _ _ = (_, Ok _) => apply map_err_ok in H; ask_run H
  | sr_lift _ _ = (_, Ok _) => let L := fresh "L" in apply lift_ok in H as [-> L]
  | (if _ then sr_ret () else sr_fail _) _ = (_, Ok _) =>
      let B := fresh "B" in apply ensure_ok in H as [-> B]
  | sr_ret _ _ = (_, Ok _) => injection H as <- <-
  | _ => idtac
  end.

(** ** The search for holders *)

Lemma push_failure_nonempty l x : push_failure l x ≠ [].
Proof.
  unfold push_failure. case_match; [by destruct l|]. bool_facts. intros ->. cbn in *.
  unfold MAX_VT_INSPECTION_FAILURES in *. lia.
Qed.
Lemma push_failure_bound l x :
  Z.of_nat (length l) ≤ MAX_VT_INSPECTION_FAILURES →
  Z.of_nat (length (push_failure l x)) ≤ MAX_VT_INSPECTION_FAILURES.
Proof. unfold push_failure. case_match; bool_facts; [rewrite length_app; cbn|]; lia. Qed.

(** Nothing was found and nothing went wrong. *)
Definition clean (f : Findings) : Prop :=
  fi_holders f = [] ∧ fi_truncated f = false ∧ fi_failures f = [].

Lemma fail_not_clean failure f : ¬ clean (fail_with failure f).
Proof. intros (_ & _ & H). by apply push_failure_nonempty in H. Qed.
Lemma unless_gone_clean error failure f :
  clean (fail_unless_gone error failure f) → error = Some ENOENT ∧ clean f.
Proof.
  unfold fail_unless_gone. case_bool_decide; [done|]. by intros ?%fail_not_clean.
Qed.
Lemma add_not_clean holder f : ¬ clean (add_holder holder f).
Proof. intros (H & _). cbn in H. by destruct (fi_holders f). Qed.

(** At one moment, why a descriptor of the process that started at [starttime]
    is not one of the terminal. *)
Definition not_held (target : DeviceIdentity) (pid starttime : Z) (name : string)
    (h : HostView) : Prop :=
  let q := hv_inspect h in
  iq_fd_link q pid name = Err (Some ENOENT) ∨
  (∃ link, iq_fd_link q pid name = Ok link ∧
     same_path link (vt_path (di_minor target)) = false) ∨
  iq_fd_stat q pid name = Err (Some ENOENT) ∨
  (∃ c major minor, iq_fd_stat q pid name = Ok (c, major, minor) ∧
     (c = false ∨ device_identity major minor ≠ target)) ∨
  proc_starttime (hv_stat h pid) ≠ Some starttime.

(** The process [name] of [/proc] was gone, or none of the descriptors it had
    led to the terminal. *)
Definition process_free (target : DeviceIdentity) (w w' : RecoveryWorld) (name : string)
    : Prop :=
  ∀ pid, parse_u32 name = Some pid →
    saw w w' (λ h, proc_starttime (hv_stat h pid) = None) ∨
    saw w w' (λ h, iq_fd_names (hv_inspect h) pid = Err (Some ENOENT)) ∨
    ∃ starttime fds,
      saw w w' (λ h, proc_starttime (hv_stat h pid) = Some starttime) ∧
      saw w w' (λ h, iq_fd_names (hv_inspect h) pid = Ok fds) ∧
      ∀ fd, fd ∈ fds → is_Some (parse_u32 fd) → saw w w' (not_held target pid starttime fd).

(** Nobody in the listing of [/proc] held the terminal. *)
Definition nobody_holds (target : DeviceIdentity) (w w' : RecoveryWorld) : Prop :=
  ∃ names, saw w w' (λ h, iq_proc_names (hv_inspect h) = Ok names) ∧
    ∀ name, name ∈ names → process_free target w w' name.

Lemma process_free_widen target w0 w w' w1 name :
  later w0 w → later w' w1 → process_free target w w' name → process_free target w0 w1 name.
Proof.
  intros H0 H1 H pid Hp. destruct (H pid Hp) as [?|[?|(st & fds & ? & ? & Hf)]];
    [left|right; left|right; right]; try by eapply saw_widen.
  exists st, fds. split_and!; try by eapply saw_widen. intros fd ? ?.
  eapply saw_widen; [done..|]. by apply Hf.
Qed.

Lemma inspect_fd_clean {E} target pid starttime uid name f f' w w' :
  inspect_fd (E:=E) target pid starttime uid name f w = (w', Ok f') → clean f' →
  clean f ∧ (is_Some (parse_u32 name) → saw w w' (not_held target pid starttime name)).
Proof.
  unfold inspect_fd. destruct (parse_u32 name) as [fd|]; intros H C.
  2: { ask_run H. split; [done|]. by intros []. }
  apply bind_ok in H as (w1 & link & R & H). ask_run R.
  destruct (iq_fd_link _ _ _) as [link|error] eqn:Hl.
  2: { ask_run H. apply unless_gone_clean in C as [-> ?]. split; [done|]. intros _.
       apply saw_tick. by left. }
  destruct (same_path link _) eqn:Hs.
  2: { ask_run H. split; [done|]. intros _. apply saw_tick. right; left. eauto. }
  unfold inspect_candidate in H. apply bind_ok in H as (w2 & metadata & R & H). ask_run R.
  cbn [rw_host tick rw_time] in H. set (t := S (rw_time w)) in *.
  destruct (iq_fd_stat _ _ _) as [[[c major] minor]|error] eqn:Hm.
  2: { ask_run H. apply unless_gone_clean in C as [-> ?]. split; [done|]. intros _.
       exists t. split; [cbn; lia|]. right; right; left. done. }
  destruct (negb c || _) eqn:Hc.
  { ask_run H. split; [done|]. intros _. exists t. split; [cbn; lia|].
    right; right; right; left. exists c, major, minor. split; [done|].
    destruct c; [right|by left]. cbn in Hc. by bool_facts. }
  apply bind_ok in H as (w3 & stat & R & H). ask_run R. cbn [rw_host tick rw_time] in H.
  destruct (negb (bool_decide (proc_starttime _ = _))) eqn:Hst.
  { ask_run H. split; [done|]. intros _. exists (S t). split; [cbn; lia|].
    do 4 right. by bool_facts. }
  destruct (_ =? MAX_VT_BUSY_HOLDERS).
  { ask_run H. by destruct C as (_ & ? & _). }
  ask_run H. by apply add_not_clean in C.
Qed.

Lemma for_each_clean {E} (step : string → Findings → RC E Findings)
    (X : RecoveryWorld → RecoveryWorld → string → Prop) :
  (∀ name f, acts [] (step name f)) →
  (∀ name f f' w w', step name f w = (w', Ok f') → clean f' → clean f ∧ X w w' name) →
  (∀ name w0 w w' w1, later w0 w → later w' w1 → X w w' name → X w0 w1 name) →
  ∀ names f f' w w', for_each step names f w = (w', Ok f') → clean f' →
    clean f ∧ ∀ name, name ∈ names → X w w' name.
Proof.
  intros Ha Hs Hw. induction names as [|name rest IH]; intros f f' w w' H C; cbn [for_each] in H.
  { ask_run H. split; [done|]. by intros ? ?%elem_of_nil. }
  apply bind_ok in H as (w1 & f1 & R & H).
  pose proof (run_later _ _ _ _ (Ha name f) R) as L1.
  pose proof (run_later _ _ _ _ (for_each_emits [] step rest f1 Ha) H) as L2.
  apply IH in H as [C1 Hr]; [|done]. apply Hs in R as [C0 Hn]; [|done]. split; [done|].
  intros x [->|Hx]%elem_of_cons; (eapply Hw; [| |eauto]); done.
Qed.

Lemma inspect_process_clean {E} target name f f' w w' :
  inspect_process (E:=E) target name f w = (w', Ok f') → clean f' →
  clean f ∧ process_free target w w' name.
Proof.
  unfold inspect_process, process_free. destruct (parse_u32 name) as [pid|]; intros H C.
  2: { ask_run H. by split. }
  apply bind_ok in H as (w1 & stat & R & H). ask_run R.
  destruct (proc_starttime _) as [starttime|] eqn:Hst.
  2: { ask_run H. split; [done|]. intros ? [= <-]. left. by apply saw_tick. }
  apply bind_ok in H as (w2 & uid & R & H). ask_run R.
  destruct (iq_proc_uid _ _) as [uid|error]; [|ask_run H; by apply fail_not_clean in C].
  apply bind_ok in H as (w3 & fds & R & H). ask_run R. cbn [rw_host tick rw_time] in H.
  destruct (iq_fd_names _ _) as [fds|error] eqn:Hf.
  2: { ask_run H. apply unless_gone_clean in C as [-> ?]. split; [done|]. intros ? [= <-].
       right; left. eexists. split; [|exact Hf]. cbn; lia. }
  assert (later (tick (tick (tick w))) w') as L.
  { eapply run_later; [|exact H]. apply for_each_emits. intros. apply inspect_fd_emits. }
  apply (for_each_clean _ (λ w w' fd, is_Some (parse_u32 fd) →
           saw w w' (not_held target pid starttime fd))) in H as [? H]; [|..|done].
  - split; [done|]. intros ? [= <-]. right; right. exists starttime, fds. destruct L as [_ L].
    cbn in L. split_and!.
    + exists (rw_time w). split; [lia|done].
    + eexists. split; [|exact Hf]. lia.
    + intros fd Hin Hp. eapply saw_right; [|by apply H]. split; cbn; [done|lia].
  - intros. apply inspect_fd_emits.
  - intros fd g g' x x' Hx Cg. by eapply inspect_fd_clean.
  - intros fd w0 x x' w1 ? ? Hx Hp. eapply saw_widen; eauto.
Qed.

Lemma enumerate_clean {E} target f f' w w' :
  enumerate_holders (E:=E) target f w = (w', Ok f') → clean f' →
  clean f ∧ nobody_holds target w w'.
Proof.
  unfold enumerate_holders. intros H C.
  apply bind_ok in H as (w1 & names & R & H). ask_run R.
  destruct (iq_proc_names _) as [names|error] eqn:Hn; [|ask_run H; by apply fail_not_clean in C].
  assert (later (tick w) w') as L.
  { eapply run_later; [|exact H]. apply for_each_emits. intros. apply inspect_process_emits. }
  apply (for_each_clean _ (process_free target)) in H as [? H]; [|..|done].
  - split; [done|]. exists names. split; [by eapply saw_left, saw_tick|].
    intros name Hin. eapply process_free_widen; [apply later_tick|reflexivity|by apply H].
  - intros. apply inspect_process_emits.
  - intros. by eapply inspect_process_clean.
  - intros. by eapply process_free_widen.
Qed.

(** One after the other: the process had its start time, a descriptor of it
    named the terminal, was the terminal's device, and the process had the same
    start time still. *)
Definition holder_seen (target : DeviceIdentity) (w w' : RecoveryWorld)
    (holder : VtHolderIdentity) : Prop :=
  let pid := vh_pid holder in
  let started h := proc_starttime (hv_stat h pid) = Some (vh_starttime holder) in
  ∃ name link major minor t1 t2 t3 t4,
    parse_u32 name = Some (vh_fd holder) ∧
    (rw_time w ≤ t1 < t2)%nat ∧ (t2 < t3)%nat ∧ (t3 < t4 < rw_time w')%nat ∧
    started (rw_host w t1) ∧
    iq_fd_link (hv_inspect (rw_host w t2)) pid name = Ok link ∧
    same_path link (vt_path (di_minor target)) = true ∧
    iq_fd_stat (hv_inspect (rw_host w t3)) pid name = Ok (true, major, minor) ∧
    device_identity major minor = target ∧
    started (rw_host w t4).

Lemma holder_seen_widen target w0 w w' w1 holder :
  later w0 w → later w' w1 → holder_seen target w w' holder → holder_seen target w0 w1 holder.
Proof.
  intros [H0 T0] [_ T1] (name & link & major & minor & t1 & t2 & t3 & t4 & ? & ? & ? & ? & Hs).
  exists name, link, major, minor, t1, t2, t3, t4. rewrite <- H0. split_and!; try lia; apply Hs || done.
Qed.

(** What a search adds: holders that were seen, within the bounds. *)
Record searched (target : DeviceIdentity) (w w' : RecoveryWorld) (f f' : Findings) : Prop := {
  sd_holders : ∀ holder, holder ∈ fi_holders f' →
    holder ∈ fi_holders f ∨ holder_seen target w w' holder;
  sd_bound : Z.of_nat (length (fi_holders f)) ≤ MAX_VT_BUSY_HOLDERS →
    Z.of_nat (length (fi_holders f')) ≤ MAX_VT_BUSY_HOLDERS;
  sd_truncated : (fi_truncated f = true → Z.of_nat (length (fi_holders f)) = MAX_VT_BUSY_HOLDERS) →
    fi_truncated f' = true → Z.of_nat (length (fi_holders f')) = MAX_VT_BUSY_HOLDERS;
  sd_failures : Z.of_nat (length (fi_failures f)) ≤ MAX_VT_INSPECTION_FAILURES →
    Z.of_nat (length (fi_failures f')) ≤ MAX_VT_INSPECTION_FAILURES;
}.
Lemma searched_refl target w w' f : searched target w w' f f.
Proof. split; auto. Qed.
Lemma searched_trans target w w1 w' f f1 f' :
  later w1 w' → searched target w w1 f f1 → searched target w w' f1 f' →
  searched target w w' f f'.
Proof.
  intros L [H1 B1 T1 F1] [H2 B2 T2 F2]. split; auto.
  intros holder [Hf|?]%H2; [|by right]. destruct (H1 _ Hf) as [?|?]; [by left|right].
  by eapply holder_seen_widen.
Qed.
Lemma searched_fail target w w' f failure : searched target w w' f (fail_with failure f).
Proof. split; cbn; auto using push_failure_bound. Qed.
Lemma searched_unless_gone target w w' f error failure :
  searched target w w' f (fail_unless_gone error failure f).
Proof.
  unfold fail_unless_gone. case_bool_decide; [apply searched_refl|apply searched_fail].
Qed.

(** A descriptor of a process whose start time was read at [t1]. *)
Lemma inspect_fd_searched {E} target pid starttime uid name f f' w0 t1 w w' :
  later w0 w → (rw_time w0 ≤ t1 < rw_time w)%nat →
  proc_starttime (hv_stat (rw_host w0 t1) pid) = Some starttime →
  inspect_fd (E:=E) target pid starttime uid name f w = (w', Ok f') →
  searched target w0 w' f f'.
Proof.
  intros [V T] Ht1 Hst1. unfold inspect_fd. destruct (parse_u32 name) as [fd|] eqn:Hfd; intros H.
  2: { ask_run H. apply searched_refl. }
  apply bind_ok in H as (w1 & link & R & H). ask_run R. rewrite V in H.
  destruct (iq_fd_link _ _ _) as [link|error] eqn:Hl; [|ask_run H; apply searched_unless_gone].
  destruct (same_path link _) eqn:Hs; [|ask_run H; apply searched_refl].
  unfold inspect_candidate in H. apply bind_ok in H as (w2 & metadata & R & H). ask_run R.
  cbn [rw_host tick rw_time] in H. rewrite V in H.
  destruct (iq_fd_stat _ _ _) as [[[c major] minor]|error] eqn:Hm;
    [|ask_run H; apply searched_unless_gone].
  destruct (negb c || _) eqn:Hc; [ask_run H; apply searched_refl|].
  apply orb_false_iff in Hc as [Hc Hd]. bool_facts. subst c.
  apply bind_ok in H as (w3 & stat & R & H). ask_run R. cbn [rw_host tick rw_time] in H.
  rewrite V in H. destruct (negb (bool_decide (proc_starttime _ = _))) eqn:Hst;
    [ask_run H; apply searched_refl|]. bool_facts.
  destruct (_ =? MAX_VT_BUSY_HOLDERS) eqn:Hmax; bool_facts.
  { ask_run H. split; cbn; auto. }
  ask_run H. split; cbn; auto.
  - intros holder [?| ->%list_elem_of_singleton]%elem_of_app; [by left|right].
    exists name, link, major, minor, t1, (rw_time w), (S (rw_time w)), (S (S (rw_time w))).
    cbn. split_and!; try done; lia.
  - rewrite length_app. cbn. lia.
  - intros Htr Htrue. specialize (Htr Htrue). lia.
Qed.

(** The loop, seen from a moment [w0]; its steps start after [wa]. *)
Lemma for_each_searched {E} target w0 wa (step : string → Findings → RC E Findings) :
  (∀ name f, acts [] (step name f)) →
  (∀ name f f' w w', later wa w → step name f w = (w', Ok f') → searched target w0 w' f f') →
  ∀ names f f' w w', later wa w → for_each step names f w = (w', Ok f') →
    searched target w0 w' f f'.
Proof.
  intros Ha Hs. induction names as [|name rest IH]; intros f f' w w' L H; cbn [for_each] in H.
  { ask_run H. apply searched_refl. }
  apply bind_ok in H as (w1 & f1 & R & H).
  pose proof (run_later _ _ _ _ (Ha name f) R) as L1.
  pose proof (run_later _ _ _ _ (for_each_emits [] step rest f1 Ha) H) as L2.
  eapply searched_trans; [exact L2|by eapply Hs|]. eapply IH; [|exact H]. by etrans.
Qed.

Lemma inspect_process_searched {E} target name f f' w0 w w' :
  later w0 w → inspect_process (E:=E) target name f w = (w', Ok f') → searched target w0 w' f f'.
Proof.
  intros [V T]. unfold inspect_process. destruct (parse_u32 name) as [pid|]; intros H.
  2: { ask_run H. apply searched_refl. }
  apply bind_ok in H as (w1 & stat & R & H). ask_run R.
  destruct (proc_starttime _) as [starttime|] eqn:Hst; [|ask_run H; apply searched_refl].
  apply bind_ok in H as (w2 & uid & R & H). ask_run R.
  destruct (iq_proc_uid _ _) as [uid|error]; [|ask_run H; apply searched_fail].
  apply bind_ok in H as (w3 & fds & R & H). ask_run R.
  destruct (iq_fd_names _ _) as [fds|error]; [|ask_run H; apply searched_unless_gone].
  rewrite V in Hst. eapply (for_each_searched target w0 (tick w)); [| | |exact H].
  - intros. apply inspect_fd_emits.
  - intros fd g g' x x' [Vx Tx] Hx. cbn in Vx, Tx.
    eapply inspect_fd_searched; [| |exact Hst|exact Hx]; [split; [congruence|lia]|lia].
  - split; cbn; [done|lia].
Qed.

Lemma enumerate_searched {E} target f f' w w' :
  enumerate_holders (E:=E) target f w = (w', Ok f') → searched target w w' f f'.
Proof.
  unfold enumerate_holders. intros H. apply bind_ok in H as (w1 & names & R & H). ask_run R.
  destruct (iq_proc_names _) as [names|error]; [|ask_run H; apply searched_fail].
  eapply (for_each_searched target w w); [| |apply later_tick|exact H].
  - intros. apply inspect_process_emits.
  - intros. by eapply inspect_process_searched.
Qed.

(** ** The report on a busy terminal *)

(** An inspection never fails. *)
Definition always {E A} (m : RC E A) : Prop := ∀ w, ∃ w' a, m w = (w', Ok a).
Lemma always_ret {E A} (a : A) : always (sr_ret (E:=E) a).
Proof. intros w. by exists w, a. Qed.
Lemma always_observe {E A} (f : HostView → A) : always (observe (E:=E) f).
Proof. intros w. eexists _, _. reflexivity. Qed.
Lemma always_bind {E A B} (m : RC E A) (k : A → RC E B) :
  always m → (∀ a, always (k a)) → always (sr_bind m k).
Proof. intros Hm Hk w. unfold sr_bind. destruct (Hm w) as (w1 & a & ->). apply Hk. Qed.
Lemma always_for_each {E} (step : string → Findings → RC E Findings) names f :
  (∀ name f, always (step name f)) → always (for_each step names f).
Proof.
  intros Hs. revert f. induction names as [|name rest IH]; intros f; cbn [for_each].
  - apply always_ret.
  - by apply always_bind.
Qed.
Ltac always_auto :=
  repeat match goal with
  | |- always (sr_ret _) => apply always_ret
  | |- always (observe _) => apply always_observe
  | |- always (asked _) => apply always_observe
  | |- always (for_each _ _ _) => apply always_for_each; intros ? ?
  | |- always (sr_bind _ _) => apply always_bind; [|intros ?]
  | |- always (match ?x with _ => _ end) => destruct x
  | |- always (if ?x then _ else _) => destruct x
  | |- always (inspect_process _ _ _) => unfold inspect_process
  | |- always (inspect_fd _ _ _ _ _ _) => unfold inspect_fd
  | |- always (inspect_candidate _ _ _ _ _ _ _) => unfold inspect_candidate
  | |- always (enumerate_holders _ _) => unfold enumerate_holders
  | |- always (target_device _ _) => unfold target_device
  | |- always (active_vt_or_failure _) => unfold active_vt_or_failure
  end.
Lemma inspect_vt_busy_always {E} vt known : always (inspect_vt_busy (E:=E) vt known).
Proof. unfold inspect_vt_busy. always_auto. Qed.

(** The terminal is this device. *)
Definition is_device (vt : Z) (device : DeviceIdentity) (h : HostView) : Prop :=
  ∃ major minor, iq_tty_stat (hv_inspect h) vt = Ok (true, major, minor) ∧
    device = device_identity major minor.
(** This terminal is in the foreground. *)
Definition foreground (vt : Z) (h : HostView) : Prop :=
  ∃ allocated, hv_vt_state h = Ok (vt, allocated).

(** What a classification asserts of the moments of the inspection. *)
Definition classification_means (vt : Z) (known : list VtKnownProcess) (w w' : RecoveryWorld)
    (p : VtBusyProvenance) : Prop :=
  match vb_classification p with
  | InternalNiralisHolder => ∃ holder, holder ∈ vb_visible_holders p ∧
      (vh_pid holder, Some (vh_starttime holder)) ∈ known
  | TargetStillForeground => saw w w' (foreground vt)
  | MultipleVisibleUserspaceHolders => (2 ≤ length (vb_visible_holders p))%nat
  | VisibleUserspaceHolder => ∃ holder, vb_visible_holders p = [holder]
  | KernelBusyUnattributed =>
      vb_visible_holders p = [] ∧
      (∃ active, active ≠ vt ∧ vb_observed_active_vt p = Some active ∧
         saw w w' (foreground active)) ∧
      ∃ device, saw w w' (is_device vt device) ∧ nobody_holds device w w'
  | VbcInspectionUnavailable => True
  end.

(** The report is bounded, its holders were seen and its verdict is meant. *)
Record honest (vt : Z) (known : list VtKnownProcess) (w w' : RecoveryWorld)
    (p : VtBusyProvenance) : Prop := {
  hn_holders : Z.of_nat (length (vb_visible_holders p)) ≤ MAX_VT_BUSY_HOLDERS;
  hn_failures : Z.of_nat (length (vb_inspection_failures p)) ≤ MAX_VT_INSPECTION_FAILURES;
  hn_truncated : vb_holders_truncated p = true →
    Z.of_nat (length (vb_visible_holders p)) = MAX_VT_BUSY_HOLDERS;
  hn_seen : ∀ holder, holder ∈ vb_visible_holders p →
    ∃ device, saw w w' (is_device vt device) ∧ holder_seen device w w' holder;
  hn_verdict : classification_means vt known w w' p;
}.

Lemma target_device_ok {E} vt failures w w' target failures' :
  target_device (E:=E) vt failures w = (w', Ok (target, failures')) →
  w' = tick w ∧ (∀ device, target = Some device → saw w w' (is_device vt device)) ∧
  (Z.of_nat (length failures) ≤ MAX_VT_INSPECTION_FAILURES →
   Z.of_nat (length failures') ≤ MAX_VT_INSPECTION_FAILURES).
Proof.
  unfold target_device. intros H. apply bind_ok in H as (w1 & metadata & R & H). ask_run R.
  destruct (iq_tty_stat _ _) as [[[[] major] minor]|error] eqn:Hm; injection H as <- <- <-;
    (split_and!; [done| |auto using push_failure_bound]); intros device [=]; subst.
  apply saw_tick. by exists major, minor.
Qed.
Lemma active_vt_ok {E} failures w w' active failures' :
  active_vt_or_failure (E:=E) failures w = (w', Ok (active, failures')) →
  later w w' ∧ (∀ vt, active = Some vt → saw w w' (foreground vt)) ∧
  (Z.of_nat (length failures) ≤ MAX_VT_INSPECTION_FAILURES →
   Z.of_nat (length failures') ≤ MAX_VT_INSPECTION_FAILURES).
Proof.
  unfold active_vt_or_failure. intros H. apply bind_ok in H as (w1 & opened & R & H). ask_run R.
  destruct (hv_open_tty _ _) as [errno|].
  { injection H as <- <- <-. split_and!; [apply later_tick|done|auto using push_failure_bound]. }
  apply bind_ok in H as (w2 & state & R & H). ask_run R.
  destruct (hv_vt_state _) as [[active0 allocated]|errno] eqn:Hs; injection H as <- <- <-;
    (split_and!; [split; cbn; [done|lia]| |auto using push_failure_bound]); intros vt [=]; subst.
  eapply saw_right; [apply later_tick|]. apply saw_tick. by exists allocated.
Qed.
Lemma known_holder_in known holder :
  known_holder known holder = true → (vh_pid holder, Some (vh_starttime holder)) ∈ known.
Proof.
  unfold known_holder. intros ([pid st] & Hin & H)%existsb_exists.
  rewrite !andb_true_iff in H. destruct H as [[H _] H']. bool_facts. cbn in *. subst.
  by apply list_elem_of_In.
Qed.
Lemma classify_kernel_busy known target active fore f :
  classify_busy known target active fore f = KernelBusyUnattributed →
  is_Some target ∧ is_Some active ∧ fore ≠ Some true ∧ clean f.
Proof.
  unfold classify_busy. do 2 (case_match; [done|]).
  destruct (bool_decide (target = None) || _ || _) eqn:Hu; [done|].
  destruct (_ || fi_truncated f) eqn:Hm; [done|]. destruct (_ =? 1) eqn:Ho; [done|].
  bool_facts. intros _. split_and!; [by apply not_eq_None_Some..|done|].
  split_and!; [|done|done]. destruct (fi_holders f); [done|]. cbn in *. lia.
Qed.

(** The parts of an inspection: what it found, and what stood behind it. *)
Record busy_run (vt : Z) (w w' : RecoveryWorld) (target : option DeviceIdentity)
    (active : option Z) (f : Findings) : Prop := {
  br_device : ∀ device, target = Some device → saw w w' (is_device vt device);
  br_active : ∀ value, active = Some value → saw w w' (foreground value);
  br_clean : ∀ device, target = Some device → clean f → nobody_holds device w w';
  br_seen : ∀ holder, holder ∈ fi_holders f →
    ∃ device, target = Some device ∧ holder_seen device w w' holder;
  br_bounds : Z.of_nat (length (fi_holders f)) ≤ MAX_VT_BUSY_HOLDERS ∧
    Z.of_nat (length (fi_failures f)) ≤ MAX_VT_INSPECTION_FAILURES ∧
    (fi_truncated f = true → Z.of_nat (length (fi_holders f)) = MAX_VT_BUSY_HOLDERS);
}.
Lemma nobody_holds_widen target w0 w w' w1 :
  later w0 w → later w' w1 → nobody_holds target w w' → nobody_holds target w0 w1.
Proof.
  intros H0 H1 (names & Hn & H). exists names. split; [by eapply saw_widen|].
  intros name Hin. eapply process_free_widen; eauto.
Qed.
Lemma inspect_vt_busy_run {E} vt known w w' p :
  inspect_vt_busy (E:=E) vt known w = (w', Ok p) →
  ∃ target active f clock, busy_run vt w w' target active f ∧
    let fore := (λ value, value =? vt) <$> active in
    p = mkVtBusyProvenance vt active fore target (fi_holders f) (fi_truncated f) (fi_failures f)
          (classify_busy known target active fore f) (boottime_ns clock).
Proof.
  unfold inspect_vt_busy. intros H.
  apply bind_ok in H as (w1 & [target failures1] & R1 & H).
  apply bind_ok in H as (w2 & [active failures2] & R2 & H).
  apply bind_ok in H as (w3 & f & R3 & H). apply bind_ok in H as (w4 & clock & R4 & H).
  ask_run R4. injection H as <- <-. eexists target, active, f, _. split; [|done].
  apply target_device_ok in R1 as (-> & Hd & B1). apply active_vt_ok in R2 as (L2 & Ha & B2).
  specialize (B2 (B1 ltac:(done))).
  assert (later w2 w3) as L3.
  { eapply run_later; [|exact R3]. destruct target; [apply enumerate_holders_emits|apply emits_ret]. }
  pose proof (later_tick w) as L1. pose proof (later_tick w3) as L4.
  assert (later w w2) as L02 by (by etrans). assert (later w2 (tick w3)) as L24 by (by etrans).
  destruct target as [device|].
  - pose proof (enumerate_searched _ _ _ _ _ R3) as [Hs Hb Ht Hf]. split.
    + intros v Hv. eapply saw_left; [|by apply Hd]. by etrans.
    + intros v Hv. eapply saw_widen; [exact L1| |by apply Ha]. by etrans.
    + intros v [= <-] C. eapply nobody_holds_widen; [exact L02|exact L4|].
      by eapply enumerate_clean.
    + intros holder Hin. destruct (Hs holder Hin) as [[]%elem_of_nil|?]. exists device.
      split; [done|]. eapply holder_seen_widen; [exact L02|exact L4|done].
    + split_and!; [by apply Hb|by apply Hf|by apply Ht].
  - injection R3 as <- <-. split; cbn; [done| |done|by intros ? ?%elem_of_nil|done].
    intros v Hv. eapply saw_widen; [exact L1|exact L4|by apply Ha].
Qed.

Lemma classify_means vt known w w' target active f clock :
  busy_run vt w w' target active f →
  let fore := (λ value, value =? vt) <$> active in
  classification_means vt known w w'
    (mkVtBusyProvenance vt active fore target (fi_holders f) (fi_truncated f) (fi_failures f)
       (classify_busy known target active fore f) clock).
Proof.
  intros [Hd Ha Hc Hs (_ & _ & Ht)] fore.
  pose proof (classify_kernel_busy known target active fore f) as Hk.
  unfold classification_means, classify_busy in *.
  cbn [vb_classification vb_visible_holders vb_observed_active_vt].
  destruct (existsb (known_holder known) _) eqn:Hi.
  { apply existsb_exists in Hi as (holder & Hin & H). exists holder.
    split; [by apply list_elem_of_In|by apply known_holder_in]. }
  case_bool_decide as Hf.
  { destruct active as [value|]; [|done]. injection Hf as Hv. bool_facts. subst. auto. }
  destruct (bool_decide (target = None) || _ || _); [done|].
  destruct (_ || fi_truncated f) eqn:Hm.
  { destruct (fi_truncated f); [specialize (Ht eq_refl); unfold MAX_VT_BUSY_HOLDERS in Ht; lia|].
    rewrite orb_false_r in Hm. bool_facts. lia. }
  destruct (_ =? 1) eqn:H1.
  { bool_facts. destruct (fi_holders f) as [|holder [|]]; cbn in H1; try lia. eauto. }
  destruct (Hk eq_refl) as ([device ->] & [value ->] & _ & C). split; [apply C|].
  split; [|by exists device; auto]. exists value. split_and!; [|done|by apply Ha].
  intros ->. apply Hf. cbn. by rewrite Z.eqb_refl.
Qed.

(** The report on a busy terminal is honest, whatever happens on the
    machine meanwhile.  The inspection always answers; it names at most 32
    holders and 32 failures, and says so when it dropped holders; every holder
    it names was seen: its start time, then a descriptor of it that names the
    terminal and then is the terminal's device, then the same start time.  An
    own process is one of those known, with its start time; a terminal called
    busy without a visible reason was not in the foreground, and the search
    went through every process of [/proc] and every descriptor without finding
    one of it. *)
Theorem busy_report_is_honest {E} vt known w :
  let '(w', r) := inspect_vt_busy (E:=E) vt known w in
  ∃ p, r = Ok p ∧ vb_target_vt p = vt ∧ honest vt known w w' p.
Proof.
  destruct (inspect_vt_busy_always (E:=E) vt known w) as (w' & p & H). rewrite H.
  exists p. split; [done|]. apply inspect_vt_busy_run in H as (target & active & f & clock & R & ->).
  split; [done|]. destruct (br_bounds _ _ _ _ _ _ R) as (? & ? & ?).
  split; cbn; try done; [|by apply classify_means].
  intros holder (device & Hd & ?)%(br_seen _ _ _ _ _ _ R). exists device.
  split; [|done]. by apply (br_device _ _ _ _ _ _ R).
Qed.

(** ** A record of an earlier boot *)

Lemma collect_emits {E A B} k (f : A → RC E B) l : (∀ a, acts [] (f a)) → acts k (collect f l).
Proof.
  intros Hf. revert k. induction l as [|a rest IH]; intros k; cbn [collect]; [solve_emits|].
  apply emits_quiet_bind; [done|intros b]. apply emits_quiet_bind; [done|intros bs; solve_emits].
Qed.
Lemma list_current_scopes_emits k : acts k list_current_scopes.
Proof.
  unfold list_current_scopes. apply emits_quiet_bind; [solve_emits|intros units].
  apply collect_emits. solve_emits.
Qed.
Lemma list_current_sessions_emits k seat : acts k (list_current_sessions seat).
Proof.
  unfold list_current_sessions. apply emits_quiet_bind; [solve_emits|intros _].
  apply emits_quiet_bind; [solve_emits|intros entries]. apply collect_emits.
  intros [[[id uid] listed] path]. unfold session_facts, session_property. solve_emits.
Qed.
Lemma pid_collisions_emits k r : acts k (historical_pid_collisions r).
Proof.
  unfold historical_pid_collisions. apply emits_quiet_bind; [|solve_emits].
  apply collect_emits. intros [[pid st] exe]. unfold pid_collision. solve_emits.
Qed.
Lemma inspect_target_vt_emits k vt : acts k (inspect_target_vt vt).
Proof. unfold inspect_target_vt, inspect_vt, read_active_vt. solve_emits. Qed.
Lemma boot_identity_emits k : acts k current_boot_identity.
Proof. unfold current_boot_identity. solve_emits. Qed.
#[export] Hint Resolve list_current_scopes_emits list_current_sessions_emits
  pid_collisions_emits inspect_target_vt_emits boot_identity_emits : emits.

(** An empty list was collected from nothing. *)
Lemma collect_nil {E A B} (f : A → RC E B) l w w' : collect f l w = (w', Ok []) → l = [].
Proof.
  destruct l as [|a rest]; [done|]. cbn [collect]. intros H.
  apply bind_ok in H as (w1 & b & _ & H). by apply bind_ok in H as (w2 & bs & _ & H).
Qed.
(** Every element was asked about. *)
Lemma collect_all {E A B} (f : A → RC E B) (X : A → RecoveryWorld → RecoveryWorld → Prop)
    (Y : B → Prop) :
  (∀ a, acts [] (f a)) → (∀ a w w' b, f a w = (w', Ok b) → Y b → X a w w') →
  (∀ a w0 w w' w1, later w0 w → later w' w1 → X a w w' → X a w0 w1) →
  ∀ l w w' bs, collect f l w = (w', Ok bs) → Forall Y bs → ∀ a, a ∈ l → X a w w'.
Proof.
  intros Ha Hf Hw. induction l as [|a rest IH]; intros w w' bs H HY x Hx;
    [by apply elem_of_nil in Hx|]. cbn [collect] in H.
  apply bind_ok in H as (w1 & b & R & H). apply bind_ok in H as (w2 & others & R2 & H).
  injection H as <- <-. apply Forall_cons in HY as [Hb HY].
  pose proof (run_later _ _ _ _ (Ha a) R) as L1.
  pose proof (run_later _ _ _ _ (collect_emits [] f rest Ha) R2) as L2.
  apply elem_of_cons in Hx as [->|Hx]; (eapply Hw; [| |eauto]); done.
Qed.

Lemma no_scopes w w' :
  list_current_scopes w = (w', Ok []) →
  ∃ units, saw w w' (λ h, hv_list_units h = Some units) ∧
    ∀ unit, unit ∈ units → is_payload_scope unit.1 = false.
Proof.
  unfold list_current_scopes. intros H. apply bind_ok in H as (w1 & units & R & H). ask_run R.
  exists units. split.
  - eapply saw_left; [|by apply saw_tick]. eapply run_later; [|exact H].
    apply collect_emits. solve_emits.
  - apply collect_nil in H. intros unit Hin. apply not_true_is_false. intros Hp.
    assert (unit ∈ filter (λ unit : string * string, is_payload_scope unit.1 = true) units) as Hf
      by (by apply list_elem_of_filter). rewrite H in Hf. by apply elem_of_nil in Hf.
Qed.

Lemma no_sessions seat w w' :
  list_current_sessions seat w = (w', Ok []) →
  ∃ sessions, saw w w' (λ h, hv_list_sessions h = Some sessions) ∧
    ∀ entry, entry ∈ sessions → on_seat seat entry = false.
Proof.
  intros H. pose proof (run_later _ _ _ _ (list_current_sessions_emits [] seat) H) as L.
  unfold list_current_sessions in H. apply bind_ok in H as (w1 & [] & R & H). ask_run R.
  apply bind_ok in H as (w1 & entries & R & H). ask_run R. apply collect_nil in H as Hn.
  exists entries. split.
  - eapply (saw_widen _ _ (tick w) (tick (tick w))); [apply later_tick| |by apply saw_tick].
    eapply run_later; [|exact H]. apply collect_emits. intros [[[id uid] listed] path].
    unfold session_facts, session_property. solve_emits.
  - intros entry Hin. apply not_true_is_false. intros Hp.
    assert (entry ∈ filter (λ entry, on_seat seat entry = true) entries) as Hf
      by (by apply list_elem_of_filter). rewrite Hn in Hf. by apply elem_of_nil in Hf.
Qed.

Lemma no_collisions r w w' pid starttime executable :
  historical_pid_collisions r w = (w', Ok []) →
  (pid, starttime, executable) ∈ historical_processes r → pid ≠ 0 →
  saw w w' (λ h, hv_proc_exists h pid = false).
Proof.
  unfold historical_pid_collisions. intros H Hin Hp.
  apply bind_ok in H as (w1 & found & R & H). injection H as <- Hc.
  apply (collect_all pid_collision (λ entry w w', entry.1.1 ≠ 0 →
           saw w w' (λ h, hv_proc_exists h entry.1.1 = false)) (λ found, found = []))
    with (4:=R) (a:=(pid, starttime, executable)); try done.
  - intros [[p st] exe]. unfold pid_collision. solve_emits.
  - intros [[p st] exe] x x' b Hx -> Hq. unfold pid_collision in Hx. cbn in Hq.
    rewrite (proj2 (Z.eqb_neq _ _) Hq) in Hx. apply bind_ok in Hx as (x1 & there & Rx & Hx).
    ask_run Rx. destruct (negb _) eqn:Hn; [injection Hx as <-; bool_facts; by apply saw_tick|].
    do 3 (apply bind_ok in Hx as (? & ? & _ & Hx)). done.
  - intros [[p st] exe] w0 x x' x1 ? ? Hx Hq. eapply saw_widen; eauto.
  - apply concat_nil_Forall in Hc. by eapply Forall_impl.
Qed.

(** The terminal of the record, when the planner may resolve it. *)
Lemma inspect_vt_unused vt w w' facts :
  inspect_vt vt w = (w', Ok facts) → vf_disposition facts = NotForegroundAndUnused →
  vf_inspection_complete facts = true →
  (∃ active, active ≠ vt ∧ saw w w' (foreground active)) ∧
  ∃ c major minor, saw w w' (λ h, iq_tty_stat (hv_inspect h) vt = Ok (c, major, minor)) ∧
    nobody_holds (device_identity major minor) w w'.
Proof.
  unfold inspect_vt. intros H Hd Hi. apply bind_ok in H as (w1 & active & R & H).
  assert (∃ value, active = Some value ∧ w1 = tick (tick w) ∧ saw w w1 (foreground value))
    as (value & -> & -> & Ha).
  { unfold read_active_vt in R. apply bind_ok in R as (? & opened & R1 & R). ask_run R1.
    apply bind_ok in R as (? & [] & R1 & R). ask_run R1.
    apply bind_ok in R as (? & state & R1 & R). ask_run R1.
    destruct (hv_vt_state _) as [[value allocated]|] eqn:Hs; [|done]. injection R as <- <-.
    exists value. split_and!; [done..|]. eapply saw_right; [apply later_tick|].
    apply saw_tick. by exists allocated. }
  clear R. apply bind_ok in H as (w2 & metadata & R & H). ask_run R.
  destruct (iq_tty_stat _ _) as [[[c major] minor]|] eqn:Hm; [|done].
  apply bind_ok in H as (w3 & f & R & H). injection H as <- <-. cbn in Hd, Hi.
  assert (later (tick (tick (tick w))) w3) as L.
  { eapply run_later; [|exact R]. apply enumerate_holders_emits. }
  case_bool_decide as Hv; [done|]. destruct (negb (bool_decide (fi_holders f = []))) eqn:Hh;
    [done|]. bool_facts. apply enumerate_clean in R as [_ Hn]; [|done].
  split; [exists value|exists c, major, minor]; split.
  - by intros ->.
  - eapply saw_left; [|exact Ha]. etrans; [apply later_tick|done].
  - eapply (saw_widen _ _ (tick (tick w)) (tick (tick (tick w)))); [|done|by apply saw_tick].
    split; cbn; [done|lia].
  - eapply nobody_holds_widen; [|reflexivity|exact Hn]. split; cbn; [done|lia].
Qed.

(** What the machine showed before a record of an earlier boot is resolved. *)
Record quiet_boot (record : PreviousBootRecoveryRecord) (records : list PersistentRecoveryRecord)
    (w w' : RecoveryWorld) : Prop := {
  qb_scopes : ∃ units, saw w w' (λ h, hv_list_units h = Some units) ∧
    ∀ unit, unit ∈ units → is_payload_scope unit.1 = false;
  qb_sessions : ∃ sessions, saw w w' (λ h, hv_list_sessions h = Some sessions) ∧
    ∀ entry, entry ∈ sessions → on_seat (pr_seat (pb_record record)) entry = false;
  qb_processes : ∀ pid,
    pid ∈ [pr_worker_pid (pb_record record); pr_launcher_pid (pb_record record);
           default 0 (pr_leader_pid (pb_record record))] →
    pid ≠ 0 → saw w w' (λ h, hv_proc_exists h pid = false);
  qb_terminal : ∀ vt, pr_target_vt (pb_record record) = Some vt →
    (∃ active, active ≠ vt ∧ saw w w' (foreground active)) ∧
    ∃ c major minor, saw w w' (λ h, iq_tty_stat (hv_inspect h) vt = Ok (c, major, minor)) ∧
      nobody_holds (device_identity major minor) w w';
  qb_owners : ∀ n, ∃ owner t1 t2, (rw_time w ≤ t1 < t2)%nat ∧ (t2 < rw_time w')%nat ∧
    hv_name_owner (rw_host w t1) n = Some owner ∧ hv_name_owner (rw_host w t2) n = Some owner;
  qb_records : ∃ boot, saw w w' (λ h, hv_boot_id h = Ok boot) ∧
    ∀ other, other ∈ records → pr_seat other = pr_seat (pb_record record) →
      pr_lifecycle_id other = pr_lifecycle_id (pb_record record) ∧
      pr_sequence other ≤ pr_sequence (pb_record record) ∧ pr_created_boot_id other ≠ boot;
}.

Lemma systemd_owner_ok w w' owner :
  systemd_owner w = (w', Ok owner) →
  w' = tick w ∧ hv_name_owner (rw_host w (rw_time w)) SystemdWatch = Some owner.
Proof. apply observe_or_ok. Qed.
Lemma logind_owner_ok w w' owner :
  logind_owner w = (w', Ok owner) →
  w' = tick (tick w) ∧ hv_name_owner (rw_host w (S (rw_time w))) LogindWatch = Some owner.
Proof.
  unfold logind_owner. intros H. apply bind_ok in H as (w1 & [] & R & H). ask_run R.
  by apply observe_or_ok in H.
Qed.
Lemma boot_identity_ok w w' boot :
  current_boot_identity w = (w', Ok boot) →
  w' = tick w ∧ hv_boot_id (rw_host w (rw_time w)) = Ok (boot_str boot).
Proof.
  unfold current_boot_identity. intros H. apply bind_ok in H as (w1 & id & R & H). ask_run R.
  apply lift_ok in H as [-> H]. split; [done|]. destruct (hv_boot_id _) as [id|]; [|done].
  unfold BootIdentity_parse in H. case_match; [done|]. by injection H as <-.
Qed.

Lemma existsb_false_in {A} (f : A → bool) l a : existsb f l = false → a ∈ l → f a = false.
Proof. rewrite existsb_false_elem. auto. Qed.

Lemma seat_unclaimed record records scopes sessions boot :
  st_runtime_state (current_seat record records scopes sessions boot) = Unclaimed →
  scopes = [] ∧ sessions = [].
Proof.
  unfold current_seat. cbn. destruct (List.find _ _); [done|].
  destruct (_ && _) eqn:H; [|done]. by bool_facts.
Qed.

(** The parts of a snapshot. *)
Lemma snapshot_run record records w w' facts :
  inspect_current_snapshot record records w = (w', Ok facts) →
  let old := pb_record record in
  ∃ boot scopes sessions w3 w4 w5 w6 w7 w8,
    later w w3 ∧ list_current_scopes w3 = (w4, Ok scopes) ∧
    later w4 w5 ∧ list_current_sessions (pr_seat old) w5 = (w6, Ok sessions) ∧
    inspect_target_vt (pr_target_vt old) w6 = (w7, Ok (pf_vt facts)) ∧
    historical_pid_collisions old w7 = (w8, Ok (pf_historical_pid_reuse facts)) ∧
    later w8 w' ∧
    (∃ sys log, rw_time w3 = (S (S (S (rw_time w))))%nat ∧ rw_time w5 = S (S (rw_time w4)) ∧
       rw_time w' = S (S (S (rw_time w8))) ∧
       hv_name_owner (rw_host w (S (S (rw_time w)))) SystemdWatch = Some sys ∧
       hv_name_owner (rw_host w8 (rw_time w8)) SystemdWatch = Some sys ∧
       hv_name_owner (rw_host w4 (S (rw_time w4))) LogindWatch = Some log ∧
       hv_name_owner (rw_host w8 (S (S (rw_time w8)))) LogindWatch = Some log) ∧
    saw w w3 (λ h, hv_boot_id h = Ok (boot_str boot)) ∧
    pf_seat facts = current_seat record records scopes sessions boot ∧
    pf_competing_records facts = pr_lifecycle_id <$> filter (λ r,
      str_eqb (pr_seat r) (pr_seat old) && negb (str_eqb (pr_lifecycle_id r) (pr_lifecycle_id old))
        = true) records ∧
    pf_has_newer_record_for_seat facts = existsb (λ r, str_eqb (pr_seat r) (pr_seat old)
      && (pr_sequence old <? pr_sequence r)) records ∧
    pf_has_same_boot_record_for_seat facts = existsb (λ r, str_eqb (pr_seat r) (pr_seat old)
      && str_eqb (pr_created_boot_id r) (boot_str boot)) records.
Proof.
  intros H old. unfold inspect_current_snapshot in H.
  apply bind_ok in H as (w1 & boot & Rb & H). apply boot_identity_ok in Rb as [-> Hb].
  apply bind_ok in H as (w2 & [] & Rc & H). apply connect_ok in Rc as ->.
  apply bind_ok in H as (w3 & sys & Rs & H). apply map_err_ok, systemd_owner_ok in Rs as [-> Hs].
  apply bind_ok in H as (w4 & scopes & Rsc & H).
  apply bind_ok in H as (w5 & log & Rl & H). apply map_err_ok, logind_owner_ok in Rl as [-> Hl].
  apply bind_ok in H as (w6 & sessions & Rse & H).
  apply bind_ok in H as (w7 & vt & Rv & H). apply bind_ok in H as (w8 & reuse & Rr & H).
  apply bind_ok in H as (w9 & sys' & Rs & H). apply map_err_ok, systemd_owner_ok in Rs as [-> Hs'].
  apply bind_ok in H as (w10 & log' & Rl & H). apply map_err_ok, logind_owner_ok in Rl as [-> Hl'].
  apply bind_ok in H as (w11 & [] & Re & H). apply ensure_ok in Re as [-> He].
  injection H as <- <-. bool_facts. subst sys' log'.
  exists boot, scopes, sessions, (tick (tick (tick w))), w4, (tick (tick w4)), w6, w7, w8.
  split_and!; try done; try (split; cbn; [done|lia]).
  - exists sys, log. cbn. by split_and!.
  - exists (rw_time w). cbn. split; [lia|done].
Qed.

(** No other record of the seat, none that is newer, none of the running boot. *)
Lemma sole_record (old : PersistentRecoveryRecord) records boot :
  pr_lifecycle_id <$> filter (λ r, str_eqb (pr_seat r) (pr_seat old)
    && negb (str_eqb (pr_lifecycle_id r) (pr_lifecycle_id old)) = true) records = [] →
  existsb (λ r, str_eqb (pr_seat r) (pr_seat old)
    && (pr_sequence old <? pr_sequence r)) records = false →
  existsb (λ r, str_eqb (pr_seat r) (pr_seat old)
    && str_eqb (pr_created_boot_id r) boot) records = false →
  ∀ other, other ∈ records → pr_seat other = pr_seat old →
    pr_lifecycle_id other = pr_lifecycle_id old ∧ pr_sequence other ≤ pr_sequence old ∧
    pr_created_boot_id other ≠ boot.
Proof.
  intros Hcompete Hnewer Hsame other Hin Hst.
  apply fmap_nil_inv in Hcompete. split_and!.
  - destruct (decide (pr_lifecycle_id other = pr_lifecycle_id old));
      [done|exfalso]. refine (filter_nil_not_elem_of _ _ other Hcompete _ Hin).
    rewrite Hst, str_eqb_refl. cbn. by rewrite (proj2 (str_eqb_false _ _)).
  - apply (existsb_false_in _ _ other) in Hnewer; [|done]. cbv beta in Hnewer. rewrite Hst, str_eqb_refl in Hnewer.
    cbn in Hnewer. by bool_facts.
  - apply (existsb_false_in _ _ other) in Hsame; [|done]. cbv beta in Hsame. rewrite Hst, str_eqb_refl in Hsame.
    cbn in Hsame. by bool_facts.
Qed.

(** The coordinator adds its own verdict on the neighbours of the record. *)
Definition with_neighbor (facts : PreviousBootCurrentFacts) (ambiguous : bool)
    : PreviousBootCurrentFacts :=
  mkFacts (pf_authority facts) (pf_conflicts facts) (pf_seat facts)
    (pf_scopes facts) (pf_sessions facts) (pf_historical_pid_reuse facts)
    (pf_vt facts) (pf_competing_records facts) (pf_inspection_failures facts)
    (pf_has_newer_record_for_seat facts) (pf_has_same_boot_record_for_seat facts) ambiguous.

Lemma snapshot_quiet record records w w' facts ambiguous :
  inspect_current_snapshot record records w = (w', Ok facts) →
  SafeToFinalize (pb_record record) (with_neighbor facts ambiguous) →
  quiet_boot record records w w'.
Proof.
  intros H [_ _ _ _ Hreuse Hcompete Hsame Hnewer _ _ Hseat Hvt Hunused _].
  cbn in Hreuse, Hcompete, Hsame, Hnewer, Hseat, Hvt, Hunused.
  apply snapshot_run in H as (boot & scopes & sessions & w3 & w4 & w5 & w6 & w7 & w8 & L3 & Rsc &
    L5 & Rse & Rv & Rr & L8 & (sys & log & T3 & T5 & T' & Hs & Hs' & Hl & Hl') & Hb & Es & Ec & En & Ea).
  rewrite Es in Hseat. apply seat_unclaimed in Hseat as [-> ->].
  pose proof (run_later _ _ _ _ (list_current_scopes_emits []) Rsc) as L4.
  pose proof (run_later _ _ _ _ (list_current_sessions_emits [] _) Rse) as L6.
  pose proof (run_later _ _ _ _ (inspect_target_vt_emits [] _) Rv) as L7.
  pose proof (run_later _ _ _ _ (pid_collisions_emits [] _) Rr) as L8'.
  assert (later w w5) as L05 by (etrans; [exact L3|etrans; [exact L4|exact L5]]).
  assert (later w w6) as L06 by (by etrans).
  assert (later w4 w') as L4' by (do 5 (etrans; [eassumption|]); reflexivity).
  assert (later w6 w') as L6' by (do 3 (etrans; [eassumption|]); reflexivity).
  split.
  - apply no_scopes in Rsc as (units & Hsaw & Hn). exists units. split; [|done].
    eapply saw_widen; [exact L3|exact L4'|exact Hsaw].
  - apply no_sessions in Rse as (entries & Hsaw & Hn). exists entries. split; [|done].
    eapply saw_widen; [exact L05|exact L6'|exact Hsaw].
  - intros pid Hin Hp. rewrite Hreuse in Rr.
    eapply (saw_widen _ _ w7 w8); [by etrans; [exact L06|]|exact L8|].
    apply list_elem_of_lookup in Hin as [i Hi].
    destruct i as [|[|[|]]]; cbn in Hi; simplify_eq;
      (eapply no_collisions; [exact Rr| |exact Hp]); unfold historical_processes;
      repeat (apply list_elem_of_here || apply list_elem_of_further).
  - intros v Hv. destruct (Hvt ltac:(rewrite Hv; eauto)) as (vf & Ev & Hi & _).
    specialize (Hunused vf Ev). rewrite Hv, Ev in Rv. unfold inspect_target_vt in Rv.
    apply bind_ok in Rv as (x & vf' & Rv & [= -> ->]).
    apply inspect_vt_unused in Rv as [(active & ? & Ha) (c & major & minor & Hd & Hn)]; [|done..].
    assert (later w7 w') as L7' by (by etrans).
    split; [exists active; split; [done|]|exists c, major, minor; split].
    + by eapply (saw_widen _ _ w6 w7).
    + by eapply (saw_widen _ _ w6 w7).
    + by eapply (nobody_holds_widen _ _ w6 w7).
  - destruct L3, L4, L5, L6, L7, L8, L8'.
    assert (rw_host w8 = rw_host w) as V8 by congruence.
    assert (rw_host w4 = rw_host w) as V4 by congruence. rewrite V8 in Hs', Hl'. rewrite V4 in Hl.
    intros []; [exists sys, (S (S (rw_time w))), (rw_time w8)|
                exists log, (S (rw_time w4)), (S (S (rw_time w8)))]; split_and!; try done; lia.
  - exists (boot_str boot). split.
    { eapply saw_left; [|exact Hb]. by etrans. }
    rewrite Ec in Hcompete. rewrite En in Hnewer. rewrite Ea in Hsame. by apply sole_record.
Qed.

Section History.
Context `{SerdeJson PersistentRecoveryRecord}.
Context `{!SerdeJson HistoricalFinalizationJournal}.

(** C17. With the Linux host, the restart frees the seat of a record of an
    earlier boot only if the machine showed, while the plan was made, that
    nothing of that session is left and nothing took its place: systemd listed
    no payload scope, logind no session of the seat, the processes on record
    were gone, another terminal was in the foreground and the whole of [/proc]
    was searched without a descriptor of the record's terminal, systemd and
    logind kept their owners from before to after, and no other record names
    the seat. *)
Theorem freed_history_was_quiet env records set record l summary at_boot at_snapshot :
  ev_host env (pr_lifecycle_id (pb_record record)) 5%nat =
    LinuxPreviousBootInspectionHost at_boot at_snapshot →
  sm_free (reconcile_previous env records set record (l, summary)).2 ≠ sm_free summary →
  ∃ w', quiet_boot record records at_snapshot w'.
Proof.
  intros Hh. unfold reconcile_previous. destruct (_ || _); [done|]. rewrite Hh.
  unfold previous_boot_current_facts. cbn [host_snapshot LinuxPreviousBootInspectionHost].
  destruct (inspect_current_snapshot record records at_snapshot) as [w' [facts|error]] eqn:Hs;
    cbn [snd].
  - match goal with |- context [plan_previous_boot_reconciliation record ?f] => set (facts' := f) end.
    destruct (finalizes (plan_previous_boot_reconciliation record facts')) eqn:Hf.
    2: { unfold execute_previous_boot_plan. rewrite Hf. by cbn. }
    intros _. exists w'. eapply snapshot_quiet; [exact Hs|]. by apply plan_finalizes_sound in Hf.
  - match goal with |- context [plan_previous_boot_reconciliation record ?f] => set (facts' := f) end.
    destruct (finalizes (plan_previous_boot_reconciliation record facts')) eqn:Hf.
    + apply plan_finalizes_sound in Hf. by destruct Hf.
    + unfold execute_previous_boot_plan. rewrite Hf. by cbn.
Qed.
End History.

(** ** The administrator's retry *)

(** A process on record has exited. *)
Definition process_gone (pid : Z) (w w' : RecoveryWorld) : Prop :=
  saw w w' (λ h, hv_stat h pid = None) ∨ saw w w' (λ h, hv_pidfd_readable h pid = Some true).

(** What the retry's boundary inspection saw before it answered [Absent]. *)
Record boundary_gone (record : PersistentRecoveryRecord) (w w' : RecoveryWorld) : Prop := {
  bg_worker : process_gone (pr_worker_pid record) w w';
  bg_launcher : process_gone (pr_launcher_pid record) w w';
  bg_session : ∃ id name, pr_logind_session_id record = Some id ∧
    is_absent_session_error name = true ∧
    saw w w' (λ h, hv_get_session h id = Err (MethodError name));
  bg_unit : ∃ hex invocation name, pr_invocation_id record = Some hex ∧
    parse_invocation_id hex = Some invocation ∧ is_absent_invocation_error name = true ∧
    saw w w' (λ h, hv_unit_by_invocation h invocation = Err (MethodError name));
}.

Lemma process_gone_widen pid w0 w w' w1 :
  later w0 w → later w' w1 → process_gone pid w w' → process_gone pid w0 w1.
Proof. intros ? ? [?|?]; [left|right]; by eapply saw_widen. Qed.

(** The last question of [rehydrate_process_identity]. *)
Lemma pidfd_gone {E} pid w x w' :
  later w x →
  (let* opened := observe (λ h, hv_pidfd_open h pid) in
   if negb opened then sr_ret ProcessIndeterminate
   else let* readable := observe (λ h, hv_pidfd_readable h pid) in
        sr_ret (match readable with
                | None => ProcessIndeterminate
                | Some true => OriginalGone
                | Some false => OriginalStillAlive
                end) : RC E PersistedProcessIdentity) x = (w', Ok OriginalGone) →
  process_gone pid w w'.
Proof.
  intros L Hx. apply bind_ok in Hx as (x1 & opened & R & Hx). ask_run R.
  destruct (negb _); [done|]. apply bind_ok in Hx as (x2 & readable & R & Hx). ask_run R.
  destruct (hv_pidfd_readable _ _) as [[]|] eqn:Hr; try done. injection Hx as <-. right.
  eapply saw_right; [|by apply saw_tick]. etrans; [exact L|apply later_tick].
Qed.
Lemma rehydrate_gone {E} pid st exe cg w w' :
  rehydrate_process_identity (E:=E) pid st exe cg w = (w', Ok OriginalGone) →
  process_gone pid w w'.
Proof.
  unfold rehydrate_process_identity. destruct (_ || _); [done|].
  intros H. apply bind_ok in H as (w1 & stat & R & H). ask_run R.
  destruct (hv_stat _ _) eqn:Hst; [|injection H as <-; left; by apply saw_tick].
  destruct (proc_starttime _); [|done]. destruct (negb _); [done|].
  apply bind_ok in H as (w2 & e & R & H). ask_run R.
  assert (later w (tick (tick (tick w)))) as L' by (split; cbn; [done|lia]).
  destruct exe as [exe|]; [destruct (hv_exe _ _); [case_bool_decide|]; try done|].
  all: apply bind_ok in H as (w3 & cgroup & R & H); ask_run R.
  all: destruct cg as [cg|]; [destruct (proc_cgroup _); [destruct (str_eqb _ _)|]; try done|].
  all: by apply (pidfd_gone (E:=E) _ _ _ _ L').
Qed.

Lemma session_absent id w w' :
  logind_session_exists id w = (w', Ok false) →
  ∃ name, is_absent_session_error name = true ∧
    saw w w' (λ h, hv_get_session h id = Err (MethodError name)).
Proof.
  unfold logind_session_exists. intros H. apply bind_ok in H as (w1 & [] & R & H). ask_run R.
  apply bind_ok in H as (w2 & answer & R & H). ask_run R.
  destruct (hv_get_session _ _) as [|[name|]] eqn:Hs; try done.
  destruct (is_absent_session_error name) eqn:Hn; [|done]. injection H as <-.
  exists name. split; [done|]. eapply saw_right; [apply later_tick|by apply saw_tick].
Qed.
Lemma invocation_absent hex w w' :
  resolve_invocation hex w = (w', Ok None) →
  ∃ invocation name, parse_invocation_id hex = Some invocation ∧
    is_absent_invocation_error name = true ∧
    saw w w' (λ h, hv_unit_by_invocation h invocation = Err (MethodError name)).
Proof.
  unfold resolve_invocation. destruct (parse_invocation_id hex) as [invocation|]; [|done].
  intros H. apply bind_ok in H as (w1 & answer & R & H). ask_run R.
  destruct (hv_unit_by_invocation _ _) as [|[name|]] eqn:Hs; try done.
  destruct (is_absent_invocation_error name) eqn:Hn; [|done]. injection H as <-.
  exists invocation, name. split_and!; [done..|]. by apply saw_tick.
Qed.
Lemma tried_ok {E F A} (m : RC E A) w w' r : tried (F:=F) m w = (w', Ok r) → m w = (w', r).
Proof. unfold tried. destruct (m w). by intros [= <- <-]. Qed.
Lemma process_verdict_ok alive identity : process_verdict alive identity = Ok () → identity = OriginalGone.
Proof. by destruct identity. Qed.

(** Take the next routine off a run: its result, and that time went on. *)
Ltac next_run H w a R L :=
  apply bind_ok in H as (w & a & R & H);
  first [apply map_err_ok in R | apply tried_ok in R | idtac];
  lazymatch type of R with _ ?x = _ =>
    assert (later x w) as L by (eapply run_later; [|exact R]; solve_emits) end.

Lemma boundary_checks_gone record w w' :
  boundary_checks record w = (w', Ok ()) → boundary_gone record w w'.
Proof.
  unfold boundary_checks. intros H.
  next_run H w1 u1 R1 L1.
  next_run H w2 systemd R2 L2.
  next_run H w3 logind R3 L3.
  destruct systemd as [systemd|]; [|done]. destruct logind as [logind|]; [|done].
  next_run H w4 worker R4 L4.
  next_run H w5 launcher R5 L5.
  apply bind_ok in H as (x & [] & Rx & H). apply lift_ok in Rx as [-> ->%process_verdict_ok].
  apply bind_ok in H as (x & [] & Rx & H). apply lift_ok in Rx as [-> ->%process_verdict_ok].
  apply bind_ok in H as (x & id & Rx & H). apply lift_ok in Rx as [-> Hid%ok_or_ok].
  next_run H w6 there R6 L6.
  apply bind_ok in H as (x & [] & Rx & H). apply ensure_ok in Rx as [-> Hthere].
  apply bind_ok in H as (x & hex & Rx & H). apply lift_ok in Rx as [-> Hhex%ok_or_ok].
  apply bind_ok in H as (x & [] & Rx & H). apply connect_ok in Rx as ->.
  next_run H w7 path R7 L7.
  apply bind_ok in H as (x & [] & Rx & H). apply ensure_ok in Rx as [-> Hpath].
  bool_facts. subst there path.
  assert (later w7 w') as L8.
  { eapply run_later; [|exact H]. solve_emits. }
  apply rehydrate_gone in R4, R5. apply session_absent in R6 as (n1 & ? & Hs).
  apply invocation_absent in R7 as (inv & n2 & ? & ? & Hu).
  assert (pr_logind_session_id record = Some id) as Hlid.
  { destruct (pr_logind_session_id record) as [i|]; [|done]. cbn in Hid.
    unfold LogindSessionId_new in Hid. case_match; [|done]. by simplify_eq. }
  assert (later w w3) as K3 by (etrans; [exact L1|by etrans]).
  assert (later w w4) as K4 by (by etrans). assert (later w w5) as K5 by (by etrans).
  assert (later w (tick w6)) as K6 by (etrans; [exact K5|etrans; [exact L6|apply later_tick]]).
  assert (later w6 w') as J6 by (etrans; [apply later_tick|by etrans]).
  assert (later w5 w') as J5 by (by etrans). assert (later w4 w') as J4 by (by etrans).
  split.
  - by eapply (process_gone_widen _ _ w3 w4).
  - by eapply (process_gone_widen _ _ w4 w5).
  - exists id, n1. split_and!; [done..|]. by eapply (saw_widen _ _ w5 w6).
  - exists hex, inv, n2. split_and!; [done..|]. by eapply (saw_widen _ _ (tick w6) w7).
Qed.

(** A routine that never fails with [e]. *)
Definition never {E A} (e : E) (m : RC E A) : Prop := ∀ w, (m w).2 ≠ Err e.
Lemma never_bind {E A B} (e : E) (m : RC E A) (k : A → RC E B) :
  never e m → (∀ a, never e (k a)) → never e (sr_bind m k).
Proof.
  intros Hm Hk w. unfold sr_bind. specialize (Hm w).
  destruct (m w) as [w' [a|e']]; [apply Hk|]. intros [= ->]. by apply Hm.
Qed.
Lemma never_map_err {E F A} (e : F) (f : E → F) (m : RC E A) :
  (∀ e', f e' ≠ e) → never e (sr_map_err f m).
Proof. intros Hf w. unfold sr_map_err. destruct (m w) as [w' [a|e']]; [done|]. intros [= H]. by apply (Hf e'). Qed.
Lemma never_lift {E A} (e : E) (r : result A E) : r ≠ Err e → never e (sr_lift r).
Proof. intros Hr w. exact Hr. Qed.
Lemma never_ensure {E} (e e' : E) (b : bool) : e' ≠ e → never e (if b then sr_ret () else sr_fail e').
Proof. intros He w. destruct b; [done|]. by intros [= ?]. Qed.
Lemma never_always {E A} (e : E) (m : RC E A) : always m → never e m.
Proof. intros Hm w. by destruct (Hm w) as (w' & a & ->). Qed.
Lemma tried_always {E F A} (m : RC E A) : always (tried (F:=F) m).
Proof. intros w. unfold tried. destruct (m w). eauto. Qed.
Lemma rehydrate_always {E} pid st exe cg : always (rehydrate_process_identity (E:=E) pid st exe cg).
Proof. unfold rehydrate_process_identity. always_auto. Qed.
Lemma boundary_checks_verdict record w : (boundary_checks record w).2 ≠ Err BfAbsent.
Proof.
  revert w. change (never BfAbsent (boundary_checks record)). unfold boundary_checks, connect.
  repeat match goal with
  | |- never _ (sr_bind _ _) => apply never_bind; [|intros ?]
  | |- never _ (sr_map_err _ _) => by apply never_map_err
  | |- never _ (sr_lift (process_verdict _ ?i)) => apply never_lift; by destruct i
  | |- never _ (sr_lift (ok_or ?o _)) => apply never_lift; by destruct o
  | |- never _ (if _ then sr_ret () else sr_fail _) => by apply never_ensure
  | |- never _ (observe _) => apply never_always, always_observe
  | |- never _ (tried _) => apply never_always, tried_always
  | |- never _ (rehydrate_process_identity _ _ _ _) => apply never_always, rehydrate_always
  | |- never _ (sr_fail _) => by intros ? [=]
  | |- never _ (match ?x with _ => _ end) => destruct x
  end.
Qed.

Lemma admin_vt_report_run record vt w :
  ∃ w' known, inspect_vt_busy (E:=Empty_set) vt known (tick w) =
    (w', Ok (admin_vt_report record vt w)).
Proof.
  unfold admin_vt_report, inspect_admin_vt, sr_bind, observe.
  match goal with |- context [inspect_vt_busy vt ?known (tick w)] =>
    destruct (inspect_vt_busy_always (E:=Empty_set) vt known (tick w)) as (w' & p & Hp);
    exists w', known end.
  by rewrite Hp.
Qed.

Section Retry.
Context `{SerdeJson PersistentRecoveryRecord} `{!SerdeRoundtrip PersistentRecoveryRecord}.

(** A retry that is not refused asked the host, which answered [Absent]. *)
Lemma unrefused_boundary boot host seat id seq ack l record :
  retry_refusal boot host seat id seq ack l record = None →
  ah_inspect_boundary host record = BfAbsent.
Proof.
  unfold retry_refusal. cbv zeta. intros Hn.
  destruct (is_absent (ah_inspect_boundary host record)) eqn:Ha;
    [by destruct (ah_inspect_boundary host record)|exfalso].
  cbn in Hn. repeat (case_match; try done).
Qed.

(** With the Linux host, an administrator's retry reaches the terminal only
    if the machine showed first that the session is gone (the worker and the
    launcher had exited, logind had no session and systemd no unit under the
    identities on record) and that nobody uses the terminal: the record's
    previous terminal was the active one, and the whole of [/proc] was
    searched without finding a descriptor of the record's terminal.  Then
    there is exactly one request, for the terminal on record. *)
Theorem admin_retry_on_unused_terminal boot at_boundary at_vt at_ioctl at_after
    seat id seq ack s s' r :
  keyed (as_ledger s) →
  retry_vt_disallocate boot (LinuxRecoveryAdminHost at_boundary at_vt at_ioctl at_after)
    seat id seq ack s = (s', r) →
  as_ioctls s' ≠ as_ioctls s →
  ∃ record vt previous l1 w1 w2 device,
    lg_records (as_ledger s) !! id = Some record ∧
    pr_target_vt record = Some vt ∧ pr_previous_vt record = Some previous ∧ vt ≠ previous ∧
    as_ioctls s' = as_ioctls s ++ [(vt, l1)] ∧
    boundary_gone record at_boundary w1 ∧
    saw at_vt w2 (foreground previous) ∧ saw at_vt w2 (is_device vt device) ∧
    nobody_holds device at_vt w2.
Proof.
  set (host := LinuxRecoveryAdminHost at_boundary at_vt at_ioctl at_after). intros K HC Hio.
  apply retry_cases in HC as [(HC & _)|(record & vt & s1 & rec & HC)]; [by destruct Hio| |done].
  destruct HC as (Hr & Href & Hvt & Hpre & _ & _ & _ & _ & _ & Hlog & HA).
  pose proof (after_disallocate_ioctls boot host id seq record vt (next_attempt_id record) s1) as Hk.
  rewrite HA in Hk. cbn in Hvt. unfold persisted_vt_identity in Hvt.
  destruct (pr_target_vt record) as [target|] eqn:Ht; [|done].
  destruct (pr_previous_vt record) as [previous|] eqn:Hpv; [|done]. injection Hvt as <-.
  apply unrefused_boundary in Href. cbn in Href, Hpre. unfold inspect_boundary in Href.
  pose proof (boundary_checks_verdict record at_boundary) as Hverdict.
  destruct (boundary_checks record at_boundary) as [w1 [[]|facts]] eqn:Hb; cbn in Href, Hverdict;
    [|by subst].
  destruct (admin_vt_report_run record target at_vt) as (w2 & known & Hw).
  apply inspect_vt_busy_run in Hw as (device & active & f & clock & Rb & Ep).
  pose proof (classify_means target known _ _ _ _ _ (boottime_ns clock) Rb) as Hm.
  cbv zeta in Ep, Hm. rewrite <- Ep in Hm. unfold vt_preconditions in Hpre.
  rewrite !andb_true_iff in Hpre. destruct Hpre as [[_ Hc] Ha]. bool_facts. cbn in Ha.
  unfold classification_means in Hm. destruct (vb_classification _); try done.
  destruct Hm as (_ & (value & Hne & Hv & Hf) & dev & Hd & Hn).
  rewrite Ha in Hv. injection Hv as <-. pose proof (later_tick at_vt) as L.
  exists record, target, previous, (as_ledger s1), w1, w2, dev.
  split_and!; try done; [unfold same_ioctls in Hk; cbn in Hk, Hlog; congruence|by apply boundary_checks_gone|..].
  - by eapply saw_right.
  - by eapply saw_right.
  - by eapply nobody_holds_widen.
Qed.
End Retry.

(** ** Where the inspection falls short *)

Lemma session_facts_fail entry w :
  (∀ t path, iq_seat_string (hv_inspect (rw_host w t)) path = None) →
  (session_facts entry w).2 = Err Unavailable.
Proof.
  intros Hn. destruct entry as [[[id uid] listed] path].
  unfold session_facts, session_property, observe_or, sr_bind, observe, sr_lift. cbn.
  destruct (hv_session _ _); cbn; [|done]. by rewrite Hn.
Qed.

(** logind's property [Seat] is a pair of a name and a path, which is how
    [read_logind_identity] reads it; asked for as a string it cannot be read.
    Then a single session listed for the seat makes the whole inspection
    unavailable, instead of showing who occupies the seat. *)
Theorem listed_session_blocks_inspection seat w entries entry :
  (∀ t path, iq_seat_string (hv_inspect (rw_host w t)) path = None) →
  hv_list_sessions (rw_host w (S (rw_time w))) = Some entries →
  entry ∈ entries → on_seat seat entry = true →
  (list_current_sessions seat w).2 = Err Unavailable.
Proof.
  intros Hn Hl Hin Hs. unfold list_current_sessions, connect, observe_or, sr_bind, observe, sr_lift.
  cbn. destruct (hv_connects _); [|done]. cbn. rewrite Hl. cbn.
  destruct (filter _ entries) as [|first rest] eqn:Hf.
  { exfalso. by apply (filter_nil_not_elem_of _ _ entry Hf). }
  cbn [collect]. unfold sr_bind at 1.
  pose proof (session_facts_fail first (tick (tick w)) Hn) as He.
  destruct (session_facts first (tick (tick w))) as [x r]. cbn in He. by rewrite He.
Qed.

(** The list of own processes a startup recovery passes on has no start time
    for the supervisor and the launcher, and only processes with a start time
    are recognized: a terminal they hold is reported as held by a stranger. *)
Theorem supervisor_not_recognized self record holder :
  vh_pid holder ≠ pr_worker_pid record → vh_pid holder ≠ default 0 (pr_leader_pid record) →
  known_holder (known_processes self record) holder = false.
Proof.
  intros Hw Hl. unfold known_holder, known_processes. cbn [existsb fst snd].
  rewrite (proj2 (Z.eqb_neq (pr_worker_pid record) _)), (proj2 (Z.eqb_neq (default 0 _) _)) by done.
  rewrite !(bool_decide_eq_false_2 (is_Some None)) by (by intros []). cbn.
  by rewrite !andb_false_r.
Qed.
