(* ===== verification/SupervisorRuns.v ===== *)
(** * Runs of the supervisor loop

    A supervisor with an empty ledger, a login from the reservation of the seat
    to the registered session, and its ends: a clean exit, a crash that the
    emergency recovery repairs, an aborted launch.  The witnesses of the
    supervisor's theorems, and what a restart finds after such a crash. *)

From stdpp Require Import base gmap sets list strings.
From Stdlib Require Import ZArith Lia.
From S2P Require Import Prelude DirFs RecoveryTypes LedgerTaxonomy Ledger Codec.
From S2P Require Import LedgerDurability LedgerLoad PreviousBoot SameBoot.
From S2P Require Import Finalization FinalizationSafety Startup PreCommit.
From S2P Require Import Admission AdminRecovery Scenarios Witnesses Protocol.
From S2P Require Import Conversation Login Daemon WorkerRecord Supervisor.
From S2P Require Import SupervisorSafety SupervisorExits SupervisorLedger.
From S2P Require Import SupervisorProtocol.
#[local] Open Scope niralis_scope.

(** ** The host *)

Definition scope_of (id : string) : PayloadScopeIdentity :=
  mkScopeIdentity ("niralis-" +:+ id +:+ ".scope") "inv" 1000 "c1".
Definition payload_of (id : string) : SupervisorPreparedPayload :=
  mkPayload (mkBoundary (scope_of id) (Some "/unit"%string) (Some "/cg"%string) None 20)
    (mkLogindIdentity "c1" "/session/c1" 1000 "u" 20 "seat0" 2 "wayland" "user" "s" "active"
       "session-c1.scope")
    (mkVtIdentity "seat0" 2 (mkPreviousVt 1) 4 2) 1000.
Definition proof_of : SupervisorEmergencyBoundaryProof :=
  mkEmergencyProof "u" "inv" "/cg" "exit:1" true true.

(** A provider whose every step succeeds. *)
Definition obliging (id : string) : RecoveryProvider :=
  mkProvider (λ _, Ok (mkPreviousVt 1)) (λ _ _ _ _ _, Ok (payload_of id))
    (λ _ _ _ _, Ok LogindRemoved) (λ _, Ok LogindRemoved) (λ _, Ok true) (λ _, Ok ())
    (λ _ _, Ok proof_of) (λ _ _, Ok proof_of) (λ _, Ok ()).

Definition children_answer (status : option ExitStatus) : ChildHost :=
  mkChildHost (λ _, Some status) (λ _, true) (λ _, status).

Definition loop_host (id : string) (status : option ExitStatus) : SupervisorHost :=
  mkSupervisorHost (obliging id) (children_answer status)
    (mkPrepareHost boot_now 0 (λ _, None) (λ _, None) (λ _, None))
    (λ _, zombie_host) boot_now 1 (admin_host (Ok ())) true (λ _, true) (λ _, None).

(** ** A login *)

Definition session_s : StartedSession :=
  mkStarted "u" (mkSessionInfo "s" "S" Wayland).
Definition lease_of (id : string) (g : Z) : AdmissionLease :=
  mkLease "seat0" g id g (mkPreviousVt 1) None.
Definition pending_of (id : string) (g : Z) : PendingLifecycleLease :=
  mkPending "seat0" g id g None.
Definition transaction_of (id : string) (g : Z) : PendingLaunchTransaction :=
  mkPendingLaunch
    (mkLoginTransaction "t" (mkGreeter "g" None None None None) id "seat0" g g "s" 100 None
       TxPrepared)
    (Some (pending_of id g)) None.
Definition registration_of (id : string) (g : Z) : RunningRegistration :=
  mkRegistration (transaction_of id g) "r1" session_s 20 20 id "c1" (scope_of id) "n1".

Definition launch (id : string) (g : Z) : list WorkerSupervisorMessage :=
  [MsgReserveSeat id; MsgBeginPending (lease_of id g) 10 1 session_s (Healthy 10);
   MsgRecordPreparedScope id 10 20 (scope_of id) "n1"; MsgMarkPayloadRegistered id 10].
Definition login (id : string) (g : Z) : list WorkerSupervisorMessage :=
  launch id g ++ [MsgRegister (registration_of id g)].
Definition rounds_of (id : string) (messages : list WorkerSupervisorMessage)
    : list (SupervisorHost * option WorkerSupervisorMessage) :=
  (λ m, (loop_host id None, Some m)) <$> messages.

Definition empty_ledger : option (Shared PersistentRecoveryLedger) :=
  Some (Healthy (ledger_of ∅ [] ∅ ∅)).
Definition running_loop : SupervisorLoopState :=
  run_loop (rounds_of "w1" (login "w1" 1)) (supervisor_new empty_ledger None).

Definition state_in_ledger (id : string) (s : SupervisorLoopState) : option string :=
  pr_state <$> durable_record id s.

(** ** Ends of the session *)

(** The session's worker exits, and the loop reaps it. *)
Definition ended (status : ExitStatus) : SupervisorLoopState :=
  reap_exited_workers (loop_host "w1" (Some status)) running_loop.
Definition crash : ExitStatus := Signaled 9.

Example clean_end_frees_and_forgets :
  seat_open (ended (Exited 0)) = true ∧ state_in_ledger "w1" (ended (Exited 0)) = None.
Proof. by vm_compute. Qed.

(** After the crash the seat is open and takes a second login; its record joins
    the one the crash left behind. *)
Definition second_login : SupervisorLoopState :=
  run_loop (rounds_of "w2" (login "w2" 2)) (ended crash).

(** What a daemon started on the files of a supervisor makes of the seat. *)
Definition lifecycle_after_restart (s : SupervisorLoopState) : option SeatLifecycle :=
  match sl_ledger s with
  | Some (Healthy l) =>
      let files := ledger_files l in
      match open_locked boot_now (map_to_list files) (dir_of files []) with
      | Ok l => Some (initial_lifecycle (Some (Healthy l)))
      | Err _ => None
      end
  | _ => None
  end.

(** The crash was repaired, yet a daemon started after the next login finds two
    records for the seat and quarantines it; after the first login alone it does
    not. *)
Example crash_record_quarantines_next_start :
  seat_open (ended crash) = true ∧
  state_in_ledger "w1" second_login = Some "worker_exited_unexpectedly"%string ∧
  state_in_ledger "w2" second_login = Some "started"%string ∧
  lifecycle_after_restart running_loop = Some SeatFree ∧
  lifecycle_after_restart second_login =
    Some (SeatQuarantined "consolidated-recovery-seat0" RecoveryRecordValidation
            UnknownPayloadScope).
Proof. by vm_compute. Qed.

(** ** Witnesses *)

Definition running_worker : SupervisedWorker :=
  mkSupervised (mkRunning "seat0" "w1" 1)
    (mkWorkerRecord "w1" 10 1 "s" "u" None (Started (payload_of "w1") "r1"))
    (Healthy 10) session_s 20 20 "w1" "n1" false.

Lemma reaping_frees_only_settled_witness :
  seat_open (ended (Exited 0)) = true ∧
  ∃ pid status, sw_child running_worker = Healthy pid ∧
    ch_try_wait (sh_children (loop_host "w1" (Some (Exited 0)))) pid =
      Some (Some status) ∧
    sw_terminal_vt_reported_busy running_worker = false ∧
    exit_settled (loop_host "w1" (Some (Exited 0))) running_worker status
      (ended (Exited 0)).
Proof.
  split; [by vm_compute|]. unfold ended, running_loop.
  apply (reaping_frees_only_settled empty_ledger None (rounds_of "w1" (login "w1" 1))
    (loop_host "w1" (Some (Exited 0))) running_worker); by vm_compute.
Defined.

Lemma recovered_crash_keeps_record_witness :
  seat_open (ended crash) = true ∧ is_Some (durable_record "w1" (ended crash)).
Proof.
  split; [by vm_compute|]. unfold ended, running_loop.
  apply (recovered_crash_keeps_record empty_ledger None (rounds_of "w1" (login "w1" 1))
    (loop_host "w1" (Some crash)) running_worker 10 crash); try (by vm_compute).
  vm_compute. by eexists.
Defined.

Definition launched_loop : SupervisorLoopState :=
  run_loop (rounds_of "w1" (launch "w1" 1)) (supervisor_new empty_ledger None).
Definition registered_loop : SupervisorLoopState :=
  (register_running (loop_host "w1" None) (registration_of "w1" 1) launched_loop).1.

Lemma bool_keyed l :
  forallb (λ '(id, r), str_eqb (pr_lifecycle_id r) id) (map_to_list (lg_records l)) = true →
  keyed l.
Proof.
  intros Hf id r Hl. rewrite forallb_forall in Hf. apply str_eqb_true.
  apply (Hf (id, r)). by apply list_elem_of_In, elem_of_map_to_list.
Qed.

Lemma loop_keyed_by s :
  match sl_ledger s with
  | Some (Healthy l) => forallb (λ '(id, r), str_eqb (pr_lifecycle_id r) id)
                          (map_to_list (lg_records l))
  | _ => true
  end = true → loop_keyed s.
Proof.
  unfold loop_keyed. destruct (sl_ledger s) as [[l|]|]; [|done..]. apply bool_keyed.
Qed.

Lemma registered_session_is_durable_witness :
  durably_started "w1" registered_loop ∧
  ∃ worker, sl_children registered_loop = [worker] ∧ sw_worker_id worker = "w1"%string.
Proof.
  destruct (registered_session_is_durable empty_ledger None (rounds_of "w1" (launch "w1" 1))
    (loop_host "w1" None) (registration_of "w1" 1) registered_loop)
    as (_ & Hd & worker & _ & _ & _ & Hw & Hi & _).
  - apply loop_keyed_by. by vm_compute.
  - by vm_compute.
  - split; [exact Hd|]. exists worker. exact (conj Hw Hi).
Defined.

Definition aborted_loop : SupervisorLoopState :=
  (abort_pending (loop_host "w1" (Some crash)) (pending_of "w1" 1) false None
     launched_loop).1.

Lemma aborted_launch_opens_only_settled_witness :
  (∀ entry, entry ∈ sl_pending launched_loop →
     wr_lifecycle_id (pw_record entry) ≠ "w1"%string) ∨
  ∃ entry, entry ∈ sl_pending launched_loop ∧
    wr_lifecycle_id (pw_record entry) = "w1"%string ∧
    abort_settled (loop_host "w1" (Some crash)) false entry aborted_loop.
Proof.
  apply (aborted_launch_opens_only_settled (loop_host "w1" (Some crash))
    (pending_of "w1" 1) false None launched_loop); by vm_compute.
Defined.

(** The worker announces the disallocation of its VT, then reports it busy. *)
Definition announced_loop : SupervisorLoopState :=
  (accept_terminal_vt_intent (loop_host "w1" None) "w1" 10 "n1" (scope_of "w1")
     running_loop).1.
Definition reported_loop : SupervisorLoopState :=
  (accept_terminal_vt_result (loop_host "w1" None) "w1" 10 "n1" 4 TvVtDisallocateBusy
     announced_loop).1.

Lemma terminal_vt_report_accepted_once_witness :
  vt_operation_is "w1" (OpFailed 4 EBUSY) reported_loop ∧
  accept_terminal_vt_result (loop_host "w1" None) "w1" 10 "n1" 4 TvReleased reported_loop =
    (reported_loop, Err WorkerProtocolFailed).
Proof.
  destruct (terminal_vt_report_accepted_once (loop_host "w1" None) "w1" 10 "n1" 4
    TvVtDisallocateBusy announced_loop reported_loop) as (_ & Ho & _ & Hr).
  - apply loop_keyed_by. by vm_compute.
  - by vm_compute.
  - split; [exact Ho|]. apply Hr.
Defined.

(** A login, then the crash of its worker: the record left behind still loads. *)
Definition rounds_to_crash : list (SupervisorHost * option WorkerSupervisorMessage) :=
  rounds_of "w1" (login "w1" 1) ++ [(loop_host "w1" (Some crash), None)].

Lemma supervisor_records_load_witness :
  match sl_ledger (run_loop rounds_to_crash (supervisor_new empty_ledger None)) with
  | Some (Healthy l) => ∀ id r, lg_records l !! id = Some r →
      pr_lifecycle_id r = id ∧ Ledger.validate_record r = Ok () ∧
      validate_historical_record r = []
  | _ => True
  end.
Proof.
  apply (supervisor_records_load empty_ledger None rounds_to_crash).
  - repeat constructor.
  - intros id r Hl. cbn in Hl. by rewrite lookup_empty in Hl.
Defined.
