(* ===== verification/RecoveryRuns.v ===== *)
(** * Recoveries on a concrete machine

    A machine that answers what a cooperative one would, and the recovery of
    one session on it: one whose unit systemd no longer knows, which is freed,
    and one whose unit is still there, which is killed and then quarantined;
    the witnesses of the theorems on the recovery of a running boot.  Then
    inspections of a machine with one process besides: its report on a busy
    terminal, a record of an earlier boot that is freed on it and an
    administrator's retry that succeeds on it. *)

From stdpp Require Import base gmap sets list strings pretty.
From Stdlib Require Import ZArith Lia.
From S2P Require Import Prelude Text DirFs RecoveryTypes LedgerTaxonomy Ledger.
From S2P Require Import Codec PreviousBoot PreCommit SameBoot Finalization.
From S2P Require Import Admission AdminRecovery WorkerRecord CgroupState.
From S2P Require Import HostWorld UnitPin VtControl Startup Scenarios.
From S2P Require Import SupervisorRuns RecoveryTrace SameBootRecovery.
From S2P Require Import SameBootRecoverySafety TerminalSafety Protocol.
From S2P Require Import Conversation Login Daemon Witnesses Supervisor.
From S2P Require Import SupervisorSafety SupervisorExits LiveBoundary.
From S2P Require Import LiveBoundarySafety VtHolders BootInspection.
From S2P Require Import InspectionSafety.
#[local] Open Scope niralis_scope.

(** ** The session *)

Definition invocation_hex : string := "000102030405060708090a0b0c0d0e0f".
Definition scope_name : string := "niralis-payload-x.scope".
Definition unit_path : string := "/unit/x".
Definition group_path : string := scope_control_group 1000 scope_name.

Definition session_record : PersistentRecoveryRecord :=
  mkRecoveryRecord 2 "b" 3 0 "boot2" "boot2" "started" 1000 1000 "u" "s" "seat0" 10 11 None
    None (Some 77) (Some (1, 2)) None (Some 20) (Some 78) None (Some scope_name)
    (Some true) (Some invocation_hex) (Some unit_path) (Some group_path)
    (Some (user_slice 1000)) (Some "c1"%string) (Some "/session/c1"%string) (Some 3) (Some 1)
    "opened" ops_none None None [].

Definition session_same : SameBootRecoveryRecord := mkSameBoot session_record boot2.

(** ** The machine *)

Definition group_dir (events procs : string) : CgroupDir :=
  mkCgroupDir (Ok events) (Ok procs) EntriesEnd.
Definition newline : string := String (Ascii.ascii_of_nat 10) "".
Definition populated_dir : CgroupDir := group_dir ("populated 1" +:+ newline) ("21" +:+ newline).
Definition empty_dir : CgroupDir := group_dir ("populated 0" +:+ newline) "".

Definition gone_session (id : string) : result string BusError :=
  Err (MethodError "org.freedesktop.login1.NoSuchSession").

(** Nobody in [/proc], and terminals that are character devices. *)
Definition idle_proc : InspectView :=
  mkInspectView (Ok []) (λ _, Err None) (λ _, Err None) (λ _ _, Err None) (λ _ _, Err None)
    (λ n, Ok (true, 4, n)) (Some (1, 0)) (λ _, None).

(** The answers of one moment: whether the leader, process 20, lives, whether
    systemd knows the unit, what the boundary looks like, whether logind knows
    the session and which terminal is active. *)
Definition machine_with (alive known : bool) (state : string) (dir : CgLookup)
    (session : bool) (active allocated : Z) : HostView :=
  mkHostView (Ok "boot2"%string)
    (λ _, None) (λ _, None)
    (λ pid, if pid =? 20 then Some ("0::" +:+ group_path +:+ newline) else None)
    1 (λ _, false) (λ _, true) (λ _, Some (negb alive))
    (λ _, Some ("Name: s" +:+ newline +:+ "Uid: 1000 1000 1000 1000" +:+ newline
                +:+ "Gid: 1001 1001 1001 1001" +:+ newline))
    (λ _, dir) (λ _, Some ("populated 0" +:+ newline))
    true (λ n, Some (match n with SystemdWatch => ":1.1" | LogindWatch => ":1.2" end))
    (λ _, if known then Ok unit_path
          else Err (MethodError "org.freedesktop.systemd1.NoUnitForInvocationID"))
    (λ _, Some (mkUnitProperties (Z.of_nat <$> seq 0 16) scope_name group_path
                  (user_slice 1000) true state "dead"))
    (λ _ _, None) (Some [])
    (λ id, if session then Ok "/session/c1"%string else gone_session id)
    (λ _, Some (mkSessionProperties "c1" 1000 10 "u" "seat0" 3 "wayland" "user" None
                  "active" "session-c1.scope"))
    (Some []) (λ _, None) (λ _, false)
    true (λ _, None) (λ _, false) true true [PollReady true false false; PollReady false true false]
    (λ _, None) (λ p, if str_eqb p "/dev/tty3" then Some (true, 4, 3) else None)
    (λ _, None) (Ok (active, allocated)) (mkSelinux true (Some 1) (Some (λ _, None)))
    None (Some ("tty1" +:+ newline)) idle_proc.

Definition machine := machine_with false.

Definition start_world (host : nat → HostView) : RecoveryWorld :=
  mkWorld host 0 (live_ledger session_record) (λ _, mkOwnerWatch (WatchLost 0) 0) [].

(** systemd has forgotten the unit, logind the session. *)
Definition quiet_machine : HostView := machine false "" CgMissing false 1 4.
Definition absent_run : RecoveryWorld * StartupRecoveryOutcome :=
  reconcile_same_boot_record session_same
    (start_world (λ _, quiet_machine)).

(** The unit is there and its processes live until the kill, at [40]. *)
Definition living_machine (t : nat) : HostView :=
  if bool_decide (t < 40)%nat
  then machine true "active" (CgDirectory populated_dir) true 3 4
  else machine true "inactive" (CgDirectory empty_dir) true 3 4.
Definition pinned_run : RecoveryWorld * StartupRecoveryOutcome :=
  reconcile_same_boot_record session_same (start_world living_machine).

Definition done_by (run : RecoveryWorld * StartupRecoveryOutcome) : list RecoveryEffect :=
  (rw_effects run.1).*1.

(** A session whose unit is gone is freed and its terminal given back. *)
Example absent_session_is_freed :
  absent_run.2 = OutcomeFree ∧
  done_by absent_run = [EffIoctl (KdSetModeText 3); EffIoctl (VtSetModeAuto 3);
                        EffRestoreContext "/dev/tty3"; EffIoctl (VtActivate 1);
                        EffIoctl (VtDisallocate 3)].
Proof. vm_compute. by split. Qed.

(** On a machine that does all it is asked, a session whose unit is still
    there is killed, released and logged out, and its seat stays closed. *)
Example pinned_session_is_quarantined :
  pinned_run.2 = Startup.OutcomeQuarantined SrfBoundaryIdentityChanged ∧
  done_by pinned_run = [EffUnit SuoRef unit_path; EffUnit SuoKill unit_path;
                        EffUnit SuoUnref unit_path; EffTerminateSession "c1"].
Proof. vm_compute. by split. Qed.

(** ** Witnesses *)


Lemma linux_provider_is_local_witness :
  touch_step "b" (live_ledger session_record)
    (Startup.pv_reconcile (linux_provider (λ _, quiet_machine) (λ _, 0%nat)
       (live_ledger session_record)) session_same (live_ledger session_record)).1.
Proof.
  apply (linux_provider_is_local (λ _, quiet_machine) (λ _, 0%nat)
    (live_ledger session_record) session_same (live_ledger session_record)).
  apply live_ledger_keyed.
Defined.

Lemma freed_boundary_was_vacant_witness :
  ∃ t, (t < rw_time absent_run.1)%nat ∧
    vacant_at group_path quiet_machine.
Proof.
  destruct (freed_boundary_was_vacant session_same
              (start_world (λ _, quiet_machine)) absent_run.1)
    as (u & t & Hu & Ht & Hv).
  - unfold absent_run. vm_compute. reflexivity.
  - exists t. split; [lia|]. injection Hu as <-. exact Hv.
Defined.

Definition session_snapshot : RecoveryStateSnapshot :=
  mkSnapshot session_record (mkSameBootAuthority boot2 boot2 "b" 3).
Definition session_pin : RecoveryPinnedInvocationUnit :=
  mkRecoveryPin
    (mkPinned ":1.1" (mkScopeIdentity scope_name invocation_hex 1000 "c1") unit_path
       group_path (user_slice 1000) 10 11 true false)
    (mkInvocationBinding boot2 "b" "b" 3 invocation_hex group_path 0).
Definition watched_world (host : nat → HostView) : RecoveryWorld :=
  mkWorld host 0 (live_ledger session_record)
    (λ n, mkOwnerWatch (WatchStable (match n with SystemdWatch => ":1.1" | _ => ":1.2" end) 0) 0) [].
Definition recovered_from_pin : RecoveryWorld * result () StartupRecoveryFailure :=
  recover_pinned session_snapshot session_pin OriginalGone
    (watched_world (λ t, living_machine (t + 20))).

Lemma pinned_recovery_never_frees_witness :
  (∃ failure, recovered_from_pin.2 = Err failure) ∧
  (effect_kind <$> (rw_effects recovered_from_pin.1).*1) = [KKill; KUnref; KTerminate].
Proof.
  split; [|vm_compute; reflexivity].
  destruct (pinned_recovery_never_frees session_snapshot session_pin OriginalGone
              (watched_world (λ t, living_machine (t + 20))) recovered_from_pin.1
              recovered_from_pin.2 session_record) as [Hf _].
  - apply live_ledger_keyed.
  - apply lookup_singleton_eq.
  - reflexivity.
  - unfold recovered_from_pin. by destruct (recover_pinned _ _ _ _).
  - exact Hf.
Defined.

Lemma boundary_vacant_exact_witness :
  says_vacant (read_supervisor_boundary_state (λ _, CgDirectory empty_dir) group_path) = true ∧
  ¬ shows_process empty_dir.
Proof.
  destruct (boundary_vacant_exact (λ _, CgDirectory empty_dir) group_path) as [_ Hs].
  split; [vm_compute; reflexivity|]. apply (Hs empty_dir); [reflexivity|].
  vm_compute. reflexivity.
Defined.

Definition given_back : RecoveryWorld * result () StartupRecoveryFailure :=
  reconcile_startup_vt session_snapshot
    (Some (boundary_authorize 3 (from_absent_boundary session_snapshot))) LogindWatch
    (watched_world (λ _, quiet_machine)).

Lemma disallocated_terminal_was_left_witness :
  given_back.2 = Ok () ∧ ∃ t, (t < rw_time given_back.1)%nat ∧ active_is 1 quiet_machine.
Proof.
  split; [vm_compute; reflexivity|].
  destruct (disallocated_terminal_was_left session_snapshot
    (Some (boundary_authorize 3 (from_absent_boundary session_snapshot))) LogindWatch
    (watched_world (λ _, quiet_machine)) given_back.1 given_back.2 (rw_effects given_back.1)
    (EffIoctl (VtDisallocate 3))) as (target & previous & t & _ & Hp & _ & Ht & Ha).
  - unfold given_back. by destruct (reconcile_startup_vt _ _ _ _).
  - reflexivity.
  - assert ((rw_effects given_back.1).*1 = done_by absent_run) as -> by (vm_compute; reflexivity).
    vm_compute. do 4 right. left.
  - reflexivity.
  - exists t. split; [lia|]. injection Hp as <-. exact Ha.
Defined.

(** ** A running session on this machine *)

Definition session_boundary : LinuxLivePayloadBoundary := mkLive (rpn_inner session_pin) 20.
Definition linux_host (status : ExitStatus) (host : nat → HostView) : SupervisorHost :=
  mkSupervisorHost (live_provider (λ _, watched_world host) (λ _, session_boundary))
    (children_answer (Some status))
    (mkPrepareHost boot_now 0 (λ _, None) (λ _, None) (λ _, None))
    (λ _, zombie_host) boot_now 1 (admin_host (Ok ())) true (λ _, true) (λ _, None).

(** The worker ends well, and the machine shows nothing of the session. *)
Lemma freed_seat_was_seen_empty_witness :
  seen_empty session_boundary (watched_world (λ _, quiet_machine)).
Proof.
  destruct (freed_seat_was_seen_empty empty_ledger None (rounds_of "w1" (login "w1" 1))
    (linux_host (Exited 0) (λ _, quiet_machine)) running_worker
    (λ _, watched_world (λ _, quiet_machine)) (λ _, session_boundary))
    as (payload & _ & [Hs|Hs]); [reflexivity|by vm_compute|by vm_compute|exact Hs..].
Defined.

(** The worker crashed and left its session running. *)
Definition crash_calls : RecoveryWorld * PinnedInvocationInner :=
  live_calls 20 [RecoverLive crash; RecoverLive crash; VerifyEmpty crash; ReleaseLive]
    (watched_world (λ t, living_machine (t + 20)), rpn_inner session_pin).

Lemma payload_killed_at_most_once_witness :
  kills crash_calls.1 = 1%nat ∧ (kills crash_calls.1 ≤ 1)%nat.
Proof.
  split; [vm_compute; reflexivity|].
  apply (payload_killed_at_most_once 20
    [RecoverLive crash; RecoverLive crash; VerifyEmpty crash; ReleaseLive]
    (watched_world (λ t, living_machine (t + 20))) (rpn_inner session_pin)).
  reflexivity.
Defined.

Definition session_identity : PayloadScopeIdentity :=
  mkScopeIdentity scope_name invocation_hex 1000 "c1".
Definition login_machine : HostView :=
  machine_with true true "active" (CgDirectory populated_dir) true 3 4.
Definition prepared_session :
    RecoveryWorld * result (LinuxLivePayloadBoundary * SupervisorPreparedPayload)
                      SupervisorRecoveryError :=
  prepare_payload session_identity 20 10 11 (mkPreviousVt 1)
    (watched_world (λ _, login_machine)).
Definition session_payload : SupervisorPreparedPayload :=
  mkPayload (boundary_of session_boundary)
    (mkLogindIdentity "c1" "/session/c1" 1000 "u" 10 "seat0" 3 "wayland" "user" "" "active"
       "session-c1.scope")
    (mkVtIdentity "seat0" 3 (mkPreviousVt 1) 4 3) 1001.

Lemma prepared_payload_is_recoverable_witness :
  let record := prepared (mkPrepareHost boot_now 0 (λ _, None) (λ _, None) (λ _, None))
                  "w1" 10 11 "u" "s" (mkPreviousVt 1) session_payload in
  pr_control_group record = Some group_path ∧
  persisted_vt_identity record = Ok (pp_vt session_payload).
Proof.
  destruct (prepared_payload_is_recoverable session_identity 20 10 11 (mkPreviousVt 1)
    (watched_world (λ _, login_machine)) prepared_session.1 session_boundary session_payload
    (mkPrepareHost boot_now 0 (λ _, None) (λ _, None) (λ _, None)) "w1" "u" "s")
    as (_ & _ & _ & _ & Hc & _ & Hv & _).
  - vm_compute. reflexivity.
  - by split.
Defined.

(** ** Inspections *)

(** Process 42, with two descriptors; the second one leads to [link]. *)
Definition one_process (link : string) : InspectView :=
  mkInspectView (Ok ["1"; "42"; "self"]%string)
    (λ pid, if pid =? 42 then Ok 1000 else Err (Some ENOENT))
    (λ pid, if pid =? 42 then Ok ["0"; "7"]%string else Err (Some ENOENT))
    (λ _ name, Ok (if str_eqb name "0" then "/dev/null"%string else link))
    (λ _ _, Ok (true, 4, 3)) (λ n, Ok (true, 4, n)) (Some (12, 34)) (λ _, None).
Definition stat_of_42 : string :=
  "42 (a b) S 1 42 42 0 -1 0 0 0 0 0 0 0 0 0 20 0 1 0 9876 0 0".

(** A machine on which nothing of a session is left. *)
Definition crowded_machine (link : string) : HostView :=
  mkHostView (Ok "boot2"%string)
    (λ pid, if pid =? 42 then Some stat_of_42 else None)
    (λ pid, if pid =? 42 then Some (1, 99) else None)
    (λ pid, if pid =? 42 then Some ("0::/user.slice" +:+ newline) else None)
    1 (λ pid, pid =? 42) (λ _, true) (λ _, Some true) (λ _, None)
    (λ _, CgMissing) (λ _, None)
    true (λ n, Some (match n with SystemdWatch => ":1.1" | LogindWatch => ":1.2" end))
    (λ _, Err (MethodError "org.freedesktop.systemd1.NoUnitForInvocationID"))
    (λ _, None) (λ _ _, None) (Some [("dbus.service", "/unit/dbus")]%string)
    gone_session (λ _, None) (Some [("9", 1000, "seat1", "/session/9")]%string) (λ _, None)
    (λ _, false) true (λ _, None) (λ _, false) true true []
    (λ _, None) (λ _, None) (λ _, None) (Ok (1, 2)) (mkSelinux true (Some 0) None)
    None (Some ("tty1" +:+ newline)) (one_process link).

Definition looking_at (h : HostView) : RecoveryWorld := start_world (λ _, h).

(** A process that holds the terminal is named; one that does not is not. *)
Example holder_is_reported :
  (inspect_vt_busy (E:=Empty_set) 3 [(20, Some 78)]
     (looking_at (crowded_machine "/dev/tty3"))).2 =
  Ok (mkVtBusyProvenance 3 (Some 1) (Some false) (Some (mkDeviceIdentity 4 3 true))
        [mkVtHolderIdentity 42 9876 1000 7 (Some (1, 99)) (Some "/user.slice"%string) None]
        false [] VisibleUserspaceHolder 12000000034).
Proof. vm_compute. reflexivity. Qed.
Example own_holder_is_recognized :
  vb_classification <$> match (inspect_vt_busy (E:=Empty_set) 3 [(42, Some 9876)]
     (looking_at (crowded_machine "/dev/tty3"))).2 with Ok p => Some p | Err _ => None end =
  Some InternalNiralisHolder.
Proof. vm_compute. reflexivity. Qed.

(** ** A record of an earlier boot *)

Definition history_record : PersistentRecoveryRecord :=
  mkRecoveryRecord 2 "a" 3 0 "boot1" "boot1" "started" 1000 1000 "u" "s" "seat0" 10 11 (Some 76)
    None (Some 77) (Some (1, 2)) None (Some 20) (Some 78) None (Some scope_name)
    (Some true) (Some invocation_hex) (Some unit_path) (Some group_path)
    (Some (user_slice 1000)) (Some "c1"%string) (Some "/session/c1"%string) (Some 3) (Some 1)
    "opened" ops_killed None None [].
Definition history_previous : PreviousBootRecoveryRecord :=
  mkPreviousBoot history_record (mkBootIdentity "boot1") boot2.
Definition quiet_world : RecoveryWorld := looking_at (crowded_machine "/dev/pts/1").
Definition linux_env : StartupEnv :=
  mkEnv (Ok boot2) (λ _ _, LinuxPreviousBootInspectionHost quiet_world quiet_world)
    (λ _, boot_now).
Definition history_ledger : PersistentRecoveryLedger :=
  ledger_of {["a.json" := file_of 7 history_record]} [] {["a" := history_record]} ∅.

Lemma freed_history_was_quiet_witness :
  ∃ w', quiet_boot history_previous [history_record] quiet_world w'.
Proof.
  apply (freed_history_was_quiet linux_env [history_record] RecordSet_default history_previous
           history_ledger (mkSummary 0 0) quiet_world quiet_world); [reflexivity|].
  vm_compute. discriminate.
Defined.

(** ** An administrator's retry *)

Definition retry_record : PersistentRecoveryRecord :=
  mkRecoveryRecord 2 "b" 3 0 "boot2" "boot2" "quarantined" 1000 1000 "u" "s" "seat0" 10 11
    (Some 76) None (Some 77) (Some (1, 2)) None (Some 20) (Some 78) None (Some scope_name)
    (Some true) (Some invocation_hex) (Some unit_path) (Some group_path)
    (Some (user_slice 1000)) (Some "c1"%string) (Some "/session/c1"%string) (Some 3) (Some 1)
    "opened" ops_finalized (Some "vt_disallocate_busy"%string) (Some idle_vt) [].
Definition retry_start : AdminState :=
  mkAdminState (Admission.mkWorld (controller_new "seat0" SeatFree) None)
    (ledger_of {["b.json" := file_of 8 retry_record]} [] {["b" := retry_record]} ∅) [].
Definition retry_host : RecoveryAdminHost :=
  LinuxRecoveryAdminHost quiet_world quiet_world quiet_world quiet_world.
Definition retry_run : AdminState * result RecoveryAdminResponse SessionError :=
  retry_vt_disallocate boot_now retry_host "seat0" "b" 3 None retry_start.

Lemma admin_retry_on_unused_terminal_witness :
  (as_ioctls retry_run.1).*1 = [3] ∧
  ∃ record vt previous l1 w1 w2 device,
    lg_records (as_ledger retry_start) !! "b" = Some record ∧
    pr_target_vt record = Some vt ∧ pr_previous_vt record = Some previous ∧ vt ≠ previous ∧
    as_ioctls retry_run.1 = as_ioctls retry_start ++ [(vt, l1)] ∧
    boundary_gone record quiet_world w1 ∧
    saw quiet_world w2 (foreground previous) ∧ saw quiet_world w2 (is_device vt device) ∧
    nobody_holds device quiet_world w2.
Proof.
  split; [vm_compute; reflexivity|].
  apply (admin_retry_on_unused_terminal boot_now quiet_world quiet_world quiet_world quiet_world
           "seat0" "b" 3 None retry_start retry_run.1 retry_run.2).
  - intros id r. cbn. rewrite lookup_singleton_Some. by intros [<- <-].
  - exact (surjective_pairing retry_run).
  - vm_compute. discriminate.
Defined.
