(* ===== verification/LaunchRuns.v ===== *)
(** * Runs of the launch

    A worker that prepares, registers its scope and reports its session; the
    same worker found dead at the registration; and a registration whose start
    cannot be made durable. *)

From stdpp Require Import base gmap sets list strings.
From Stdlib Require Import ZArith Lia.
From S2P Require Import Prelude DirFs RecoveryTypes LedgerTaxonomy Ledger Codec.
From S2P Require Import LedgerDurability LedgerLoad PreviousBoot SameBoot.
From S2P Require Import Finalization FinalizationSafety Startup PreCommit.
From S2P Require Import Admission AdminRecovery Scenarios Witnesses Protocol.
From S2P Require Import Conversation Login Daemon WireRuns WorkerRecord.
From S2P Require Import Supervisor SupervisorSafety SupervisorExits.
From S2P Require Import SupervisorProtocol SupervisorRuns Launch LaunchSafety.
From S2P Require Import RunningControl.
#[local] Open Scope niralis_scope.

(** ** The environment *)

Definition launch_scope : PayloadScopeIdentity :=
  mkScopeIdentity "niralis-payload-w1.scope" "0123456789abcdef0123456789abcdef" 1000 "c1".
Definition launch_payload : SupervisorPreparedPayload :=
  mkPayload (mkBoundary launch_scope (Some "/unit"%string) (Some "/cg"%string) None 20)
    (pp_logind (payload_of "w1")) (pp_vt (payload_of "w1")) 1000.
Definition launch_loop_host : SupervisorHost :=
  mkSupervisorHost
    (mkProvider (λ _, Ok (mkPreviousVt 1)) (λ _ _ _ _ _, Ok launch_payload)
       (λ _ _ _ _, Ok LogindRemoved) (λ _, Ok LogindRemoved) (λ _, Ok true) (λ _, Ok ())
       (λ _ _, Ok proof_of) (λ _ _, Ok proof_of) (λ _, Ok ()))
    (mkChildHost (λ _, Some None) (λ _, true) (λ _, Some crash))
    (mkPrepareHost boot_now 0 (λ _, None) (λ _, None) (λ _, None))
    (λ _, zombie_host) boot_now 1 (admin_host (Ok ())) true (λ _, true) (λ _, None).

Definition transaction_at (stage : string) : WorkerTransactionIdentity :=
  mkWorkerTransaction "w1" 1 "w1" "seat0" 1 stage.
Definition event (r : WorkerResponse) : LaunchEvent :=
  mkLaunchEvent (Ok (mkWorkerEnvelope 14 r)) true None ScopeReleased None 0 0 (Ok ()).
Definition prepared_events : list LaunchEvent :=
  [event (WrPreparing "w1" (transaction_at "preparing"));
   event (WrPayloadScopePrepared "w1" (transaction_at "scope_prepared") 10 20 "n1"
            launch_scope)].
Definition started_event : LaunchEvent :=
  event (WrStarted session_s 20 20 1 "w1" "c1" (transaction_at "started")).

Definition launch_host (events : list LaunchEvent) (at_register : option ExitStatus)
    : LaunchHost :=
  mkLaunchHost (Ok "w1"%string) (λ _, mkCall launch_loop_host true true) (λ _, zombie_host)
    (Ok 10) 1 100 0 (Ok ()) events (Ok true) 0 (Some at_register) (Ok (Some crash)).

Definition fresh_launch : Launch :=
  mkLaunch (supervisor_new empty_ledger None) 0 (mkRelay None []) [] false.
Definition launched (host : LaunchHost) : Launch * result (StartedSession * string) SessionError :=
  start_pam_worker host session_s None fresh_launch.

(** ** The session starts *)

Example launch_starts :
  (launched (launch_host (prepared_events ++ [started_event]) None)).2 =
  Ok (session_s, "w1"%string).
Proof. by vm_compute. Qed.

(** A worker that dies between its report and the registration: the launch
    returns an error, its transaction is gone, and the seat stays pending. *)
Example exit_before_registration_strands_seat :
  let r := launched (launch_host (prepared_events ++ [started_event]) (Some crash)) in
  r.2 = Err WorkerExitedAfterStart ∧ ln_taken r.1 = true ∧
  phase_of (ln_loop r.1) = PhasePending 1 "w1" 1 ∧
  (loop_reserve_seat launch_loop_host "w2" (ln_loop r.1)).2 = Err SessionSeatUnavailable.
Proof. by vm_compute. Qed.

(** ** Witnesses *)

(** The worker stops answering after it registered its scope. *)
Definition silent_host : LaunchHost := launch_host prepared_events None.

Lemma silent_responsive : responsive silent_host.
Proof. by split. Qed.

(** A launch with a pre-commit store, whose file operations fail as scheduled. *)
Definition stored_launch (faults : list Fault) : Launch :=
  mkLaunch (supervisor_new empty_ledger
              (Some (Healthy (mkStore (dir_of ∅ faults) ∅ false ∅)))) 0 (mkRelay None []) [] false.
Definition unspawned_host : LaunchHost :=
  mkLaunchHost (Ok "w1"%string) (λ _, mkCall launch_loop_host true true) (λ _, zombie_host)
    (Err WorkerSpawnFailed) 1 100 0 (Ok ()) [] (Ok true) 0 (Some None) (Ok (Some crash)).
Definition stored_lease : result AdmissionLease SessionError :=
  (call silent_host (λ h, loop_reserve_seat h "w1") (stored_launch [])).2.

Lemma launch_settles_seat_witness :
  match stored_lease with Ok lease => is_Some (al_precommit lease) | Err _ => False end ∧
  let s' := (start_pam_worker silent_host session_s None (stored_launch [])).1 in
  ln_taken s' = true ∨ phase_of (ln_loop s') = PhaseFree.
Proof.
  destruct stored_lease as [lease|] eqn:Hl; [|by vm_compute in Hl].
  split; [vm_compute in Hl; injection Hl as <-; by eexists|].
  apply (launch_settles_seat silent_host session_s None "w1" lease (stored_launch [])
    (call silent_host (λ h, loop_reserve_seat h "w1") (stored_launch [])).1).
  - exact silent_responsive.
  - apply supervisor_new_seat_inv.
  - constructor.
  - constructor.
  - reflexivity.
  - unfold stored_lease in Hl. rewrite <- Hl. by destruct (call _ _ _).
Defined.

(** A worker that cannot be spawned gives the seat back and its record with it;
    when the removal of the record fails (the schedule's ninth call), the seat
    stays reserved. *)
Example unspawned_gives_back :
  let s' := (start_pam_worker unspawned_host session_s None (stored_launch [])).1 in
  phase_of (ln_loop s') = PhaseFree ∧
  (λ w, match w with Healthy store => ps_records store | Poisoned => ∅ end)
    <$> aw_store (sl_admission (ln_loop s')) = Some ∅.
Proof. by vm_compute. Qed.
Example failed_removal_keeps_seat :
  let s' := (start_pam_worker unspawned_host session_s None
               (stored_launch (replicate 8 None ++ [Some (OtherKind, O)]))).1 in
  phase_of (ln_loop s') = PhaseReserved 1 "w1" 1.
Proof. by vm_compute. Qed.

(** The ledger's next file operation fails. *)
Definition faulty (s : SupervisorLoopState) : SupervisorLoopState :=
  match sl_ledger s with
  | Some (Healthy l) =>
      let d := lg_fs l in
      set_ledger (Some (Healthy (set_fs (mkDirFs (dir_files d) (dir_dev d) (dir_uid d)
        (dir_alloc d) (dir_allocs d) [Some (OtherKind, 0%nat)]) l))) s
  | _ => s
  end.

Definition pending_entry : PendingWorkerLifecycle :=
  mkPendingWorker
    (mkWorkerRecord "w1" 10 1 "s" "u" None (PayloadRegistered (payload_of "w1") "n1"))
    (Healthy 10) ReleaseNotRequested 1 false.

Lemma undurable_start_strands_seat_witness :
  let s := faulty launched_loop in
  let s' := (register_running (loop_host "w1" None) (registration_of "w1" 1) s).1 in
  sl_pending s' = [] ∧ sl_children s' = sl_children s ∧
  matches_pending (pending_of "w1" 1) (aw_controller (sl_admission s')) = true ∧
  ∀ host' id, is_ok (loop_reserve_seat host' id s').2 = false.
Proof.
  apply (undurable_start_strands_seat (loop_host "w1" None) (registration_of "w1" 1)
    (pending_of "w1" 1) 0 pending_entry [] (payload_of "w1") "n1"
    PersistentRecoveryUnavailable (faulty launched_loop)); by vm_compute.
Defined.

(** The running worker of [running_loop] announces the disallocation of its VT
    and reports it. *)
Definition vt_turns : list ControlTurn :=
  [mkTurn (loop_host "w1" None)
     (Some (mkControlEnvelope 7 (WcTerminalVtCleanupIntent "w1" 10 "n1" (scope_of "w1"))))
     true true true;
   mkTurn (loop_host "w1" None)
     (Some (mkControlEnvelope 7 (WcTerminalVtCleanupResult "w1" 10 "n1" 4 TvReleased)))
     true true true].

Lemma vt_acknowledgements_are_durable_witness :
  (running_control vt_turns running_loop).2.*1.*2 =
    [WcTerminalVtCleanupIntentAcknowledged "w1" 10 "n1" 4;
     WcTerminalVtCleanupResultAcknowledged "w1" 10 "n1" 4] ∧
  Forall (λ '(t, a, at_s), acknowledges (tn_request t) a at_s)
    (running_control vt_turns running_loop).2.
Proof.
  split; [by vm_compute|]. apply (vt_acknowledgements_are_durable vt_turns running_loop).
  apply loop_keyed_by. by vm_compute.
Defined.
