(* ===== verification/ScopeRelease.v ===== *)
(** * Verifying that a payload scope was released

    [scope_release/verifier.rs] and [observation.rs] of [niralis-session]: when
    a worker that could not start its session says that it has cleaned up, the
    launcher asks systemd and cgroupfs itself.  The unit is looked up twice by
    its invocation, its properties are read twice, and its control group is
    looked at last.  Each question is a moment of its own, between which the
    machine may change.  The launch of [Launch] is then run with this verifier
    in place of the answer it leaves open. *)

From stdpp Require Import base gmap sets list strings.
From Stdlib Require Import ZArith Lia.
From S2P Require Import Prelude Text DirFs RecoveryTypes LedgerTaxonomy Ledger.
From S2P Require Import PreviousBoot PreCommit SameBoot Admission AdminRecovery.
From S2P Require Import Protocol Conversation Login Daemon WorkerRecord.
From S2P Require Import Supervisor.
From S2P Require Import Launch CgroupState HostWorld.
#[local] Open Scope niralis_scope.

Abbreviation RV := (RC PayloadScopeRecoveryReason).

Record ReleaseObservation := mkReleaseObservation {
  ro_id : string;
  ro_invocation_id : string;
  ro_active : string;
  ro_sub : string;
  ro_slice : string;
  ro_control_group : string;
  ro_transient : bool;
}.
#[export] Instance ReleaseObservation_eq_dec : EqDecision ReleaseObservation.
Proof. solve_decision. Defined.

(** One property of the unit behind an object path. *)
Definition unit_property {A} (path : string) (f : UnitProperties → A) : RV A :=
  observe_or VerificationUnavailable (λ h, f <$> hv_unit h path).

Definition read_observation (path : string) : RV ReleaseObservation :=
  let* id := unit_property path up_id in
  let* invocation := unit_property path up_invocation_id in
  let* active := unit_property path up_active_state in
  let* sub := unit_property path up_sub_state in
  let* transient := unit_property path up_transient in
  let* slice := unit_property path up_slice in
  let* control_group := unit_property path up_control_group in
  ensure (length invocation =? 16)%nat else IdentityMismatch ;;;
  sr_ret (mkReleaseObservation id (hex_of_bytes invocation) active sub slice control_group
            transient).

(** [symlink_metadata] of the directory. *)
Definition lookup_absent (l : CgLookup) : result bool PayloadScopeRecoveryReason :=
  match l with
  | CgMissing => Ok true
  | CgLookupFail => Err VerificationUnavailable
  | CgNotDirectory | CgDirectory _ => Ok false
  end.
Definition boundary_absent (control_group : string) : RV bool :=
  let* l := observe (λ h, hv_cgroups h control_group) in
  sr_lift (lookup_absent l).

(** [read_to_string] of [cgroup.procs]: the text, or the kind of the error. *)
Definition read_procs (l : CgLookup) : result text ErrorKind :=
  match l with
  | CgMissing => Err NotFound
  | CgLookupFail | CgNotDirectory => Err OtherKind
  | CgDirectory (mkCgroupDir _ (Err failure) _) => Err (cf_kind failure)
  | CgDirectory (mkCgroupDir _ (Ok bytes) _) => ok_or (str_from_utf8 bytes) OtherKind
  end.
Definition no_members (members : text) : bool :=
  forallb (λ line, bool_decide (line = [])) (lines members).
Definition boundary_empty_or_absent (control_group : string) : RV bool :=
  let* procs := observe (λ h, read_procs (hv_cgroups h control_group)) in
  match procs with
  | Ok members => sr_ret (no_members members)
  | Err NotFound => boundary_absent control_group
  | Err _ => sr_fail VerificationUnavailable
  end.

Definition is_missing_unit_error (name : string) : bool :=
  str_eqb name "org.freedesktop.systemd1.NoSuchUnit"
  || str_eqb name "org.freedesktop.DBus.Error.UnknownObject".
(** [ResolvedInvocation] is the path, or [None] for a missing unit. *)
Definition resolve_by_invocation (invocation : list Z) : RV (option string) :=
  let* answer := observe (λ h, hv_unit_by_invocation h invocation) in
  match answer with
  | Ok path => sr_ret (Some path)
  | Err (MethodError name) =>
      if is_missing_unit_error name then sr_ret None else sr_fail VerificationUnavailable
  | Err OtherBusError => sr_fail VerificationUnavailable
  end.

Definition is_ended (o : ReleaseObservation) : bool :=
  (str_eqb (ro_active o) "inactive" || str_eqb (ro_active o) "failed")
  && (str_eqb (ro_sub o) "dead" || str_eqb (ro_sub o) "failed"
      || str_eqb (ro_sub o) "exited").
Definition is_the_unit (identity : PayloadScopeIdentity) (o : ReleaseObservation) : bool :=
  str_eqb (ro_id o) (psi_unit_name identity)
  && str_eqb (ro_invocation_id o) (psi_invocation_id identity)
  && str_eqb (ro_slice o) (user_slice (psi_expected_uid identity))
  && ro_transient o
  && (str_is_empty (ro_control_group o)
      || str_eqb (ro_control_group o)
           (scope_control_group (psi_expected_uid identity) (psi_unit_name identity))).

Definition recovery_required (reason : PayloadScopeRecoveryReason)
    : RV ScopeReleaseVerification := sr_ret (ScopeRecoveryRequired reason).

(** What is left to check of a unit that is present both times. *)
Definition verify_present (identity : PayloadScopeIdentity) (path : string)
    (first : option ReleaseObservation) : RV ScopeReleaseVerification :=
  let* o := read_observation path in
  if negb (bool_decide (first = Some o)) then recovery_required IdentityMismatch
  else if negb (is_the_unit identity o) then recovery_required IdentityMismatch
  else if negb (is_ended o) then recovery_required UnitStillActive
  else
    let* clear := boundary_empty_or_absent
      (scope_control_group (psi_expected_uid identity) (psi_unit_name identity)) in
    if clear then sr_ret ScopeReleased else recovery_required MembershipNotEmpty.

(** The unit is looked up by its invocation, read, and looked up again. *)
Definition verify_unit (identity : PayloadScopeIdentity) (invocation : list Z)
    : RV ScopeReleaseVerification :=
  let* first := resolve_by_invocation invocation in
  let* first_observation := match first with
    | Some path => let* o := read_observation path in sr_ret (Some o)
    | None => sr_ret None
    end in
  let* second := resolve_by_invocation invocation in
  match first, second with
  | None, None =>
      let* gone := boundary_absent
        (scope_control_group (psi_expected_uid identity) (psi_unit_name identity)) in
      if gone then sr_ret ScopeReleased else recovery_required MembershipNotEmpty
  | Some first_path, Some second_path =>
      if str_eqb first_path second_path
      then verify_present identity second_path first_observation
      else recovery_required InvocationIdMismatch
  | _, _ => recovery_required InvocationIdMismatch
  end.

(** [now] is the instant the time left is computed at. *)
Definition verify_systemd (now : Z) (identity : PayloadScopeIdentity) (deadline : Z)
    : RV ScopeReleaseVerification :=
  if negb (validate_scope identity) then recovery_required IdentityMismatch
  else
    ensure now <? deadline else VerificationUnavailable ;;;
    connect VerificationUnavailable ;;;
    let* invocation := sr_lift (ok_or (parse_invocation_id (psi_invocation_id identity))
                                  IdentityMismatch) in
    verify_unit identity invocation.

(** [SystemdPayloadScopeReleaseVerifier::verify]. *)
Definition verify (now : Z) (identity : PayloadScopeIdentity) (deadline : Z)
    (w : RecoveryWorld) : RecoveryWorld * ScopeReleaseVerification :=
  match verify_systemd now identity deadline w with
  | (w, Ok verdict) => (w, verdict)
  | (w, Err reason) => (w, ScopeRecoveryRequired reason)
  end.

(** ** What the machine has to show *)

Section Shown.
Context (identity : PayloadScopeIdentity).
Abbreviation boundary :=
  (scope_control_group (psi_expected_uid identity) (psi_unit_name identity)).

Definition resolved (h : HostView) : result string BusError :=
  match parse_invocation_id (psi_invocation_id identity) with
  | Some invocation => hv_unit_by_invocation h invocation
  | None => Err OtherBusError
  end.
(** systemd does not know the invocation. *)
Definition unknown_unit (h : HostView) : bool :=
  match resolved h with Err (MethodError name) => is_missing_unit_error name | _ => false end.

(** The state systemd gives the unit is one of an ended unit. *)
Definition ended_states (p : UnitProperties) : bool :=
  (str_eqb (up_active_state p) "inactive" || str_eqb (up_active_state p) "failed")
  && (str_eqb (up_sub_state p) "dead" || str_eqb (up_sub_state p) "failed"
      || str_eqb (up_sub_state p) "exited").

(** The directory of the boundary lists nobody or is missing. *)
Definition clear_boundary (h : HostView) : bool :=
  match read_procs (hv_cgroups h boundary) with
  | Ok members => no_members members
  | Err _ => match hv_cgroups h boundary with CgMissing => true | _ => false end
  end.
End Shown.

(** The unit behind a path was seen with a property. *)
Definition seen_with {A} (w : RecoveryWorld) (from to : nat) (path : string)
    (f : UnitProperties → A) (v : A) : Prop :=
  ∃ t p, (from ≤ t < to)%nat ∧ hv_unit (rw_host w t) path = Some p ∧ f p = v.
(** All of an observation was seen, each property at a moment of its own. *)
Record seen_unit (w : RecoveryWorld) (from to : nat) (path : string)
    (o : ReleaseObservation) : Prop := mkSeenUnit {
  su_id : seen_with w from to path up_id (ro_id o);
  su_invocation : seen_with w from to path (λ p, hex_of_bytes (up_invocation_id p))
                    (ro_invocation_id o);
  su_active : seen_with w from to path up_active_state (ro_active o);
  su_sub : seen_with w from to path up_sub_state (ro_sub o);
  su_slice : seen_with w from to path up_slice (ro_slice o);
  su_control_group : seen_with w from to path up_control_group (ro_control_group o);
  su_transient : seen_with w from to path up_transient (ro_transient o);
}.

(** The two ways a scope is shown to be released: systemd does not know the
    invocation, twice, and then its directory is missing; or it names the same
    unit twice, each time with the same properties, which are the recorded
    unit's and those of an ended one, and then the directory lists nobody or
    is missing. *)
Definition shown_released (w w' : RecoveryWorld) (identity : PayloadScopeIdentity) : Prop :=
  ∃ t1 t2 t3, (rw_time w ≤ t1 < t2)%nat ∧ (t2 < t3 < rw_time w')%nat ∧
  ((unknown_unit identity (rw_host w t1) = true ∧ unknown_unit identity (rw_host w t2) = true ∧
    hv_cgroups (rw_host w t3)
      (scope_control_group (psi_expected_uid identity) (psi_unit_name identity)) = CgMissing) ∨
   (∃ path o, resolved identity (rw_host w t1) = Ok path ∧
      resolved identity (rw_host w t2) = Ok path ∧
      seen_unit w t1 t2 path o ∧ seen_unit w t2 t3 path o ∧
      is_the_unit identity o = true ∧ is_ended o = true ∧
      clear_boundary identity (rw_host w t3) = true)).

(** ** Asking changes nothing but the time *)

Definition asked (w w' : RecoveryWorld) : Prop := ∃ n, w' = Nat.iter n tick w.
#[export] Instance asked_preorder : PreOrder asked.
Proof.
  split; [by exists 0%nat|]. intros w w1 w2 [n ->] [m ->]. exists (m + n)%nat.
  by rewrite Nat.iter_add.
Qed.
Lemma iter_tick n w :
  rw_time (Nat.iter n tick w) = (n + rw_time w)%nat ∧
  rw_host (Nat.iter n tick w) = rw_host w ∧
  rw_ledger (Nat.iter n tick w) = rw_ledger w ∧
  rw_effects (Nat.iter n tick w) = rw_effects w.
Proof.
  induction n as [|n [IH1 [IH2 [IH3 IH4]]]]; [done|].
  change (Nat.iter (S n) tick w) with (tick (Nat.iter n tick w)).
  cbn [tick rw_time rw_host rw_ledger rw_effects]. by rewrite IH1.
Qed.
Lemma asked_facts w w' :
  asked w w' → rw_host w' = rw_host w ∧ (rw_time w ≤ rw_time w')%nat.
Proof. intros [n ->]. destruct (iter_tick n w) as (-> & -> & _). split; [done|lia]. Qed.

Lemma unit_property_ok {A} path (f : UnitProperties → A) w w' a :
  unit_property path f w = (w', Ok a) →
  w' = tick w ∧ seen_with w (rw_time w) (S (rw_time w)) path f a.
Proof.
  unfold unit_property, observe_or. intros (w1 & r & [= <- <-] & H)%bind_ok.
  apply lift_ok in H as [-> Hr%ok_or_ok].
  destruct (hv_unit (rw_host w (rw_time w)) path) as [p|] eqn:Hp; [|done].
  injection Hr as <-. split; [done|]. exists (rw_time w), p. split; [lia|done].
Qed.
Lemma seen_wider {A} w from to from' to' path (f : UnitProperties → A) v :
  seen_with w from to path f v → (from' ≤ from)%nat → (to ≤ to')%nat →
  seen_with w from' to' path f v.
Proof. intros (t & p & Ht & H) ? ?. exists t, p. split; [lia|done]. Qed.

Lemma read_observation_ok path w w' o :
  read_observation path w = (w', Ok o) →
  asked w w' ∧ (rw_time w < rw_time w')%nat ∧ seen_unit w (rw_time w) (rw_time w') path o.
Proof.
  unfold read_observation.
  intros (w1 & id & [-> H1]%unit_property_ok & H)%bind_ok.
  apply bind_ok in H as (w2 & invocation & [-> H2]%unit_property_ok & H).
  apply bind_ok in H as (w3 & active & [-> H3]%unit_property_ok & H).
  apply bind_ok in H as (w4 & sub & [-> H4]%unit_property_ok & H).
  apply bind_ok in H as (w5 & transient & [-> H5]%unit_property_ok & H).
  apply bind_ok in H as (w6 & slice & [-> H6]%unit_property_ok & H).
  apply bind_ok in H as (w7 & group & [-> H7]%unit_property_ok & H).
  apply bind_ok in H as (w8 & [] & [-> _]%ensure_ok & [= <- <-]).
  split; [by exists 7%nat|]. split; [cbn; lia|].
  split; cbn [ro_id ro_invocation_id ro_active ro_sub ro_slice ro_control_group ro_transient].
  2: { destruct H2 as (t & p & Ht & Hp & <-). exists t, p. split; [cbn in *; lia|done]. }
  all: eapply seen_wider; [eassumption|cbn; lia..].
Qed.

Lemma resolve_by_invocation_ok identity invocation w w' r :
  parse_invocation_id (psi_invocation_id identity) = Some invocation →
  resolve_by_invocation invocation w = (w', Ok r) →
  w' = tick w ∧
  match r with
  | Some path => resolved identity (rw_host w (rw_time w)) = Ok path
  | None => unknown_unit identity (rw_host w (rw_time w)) = true
  end.
Proof.
  intros Hi. unfold resolve_by_invocation, unknown_unit, resolved. rewrite Hi.
  intros (w1 & answer & [= <- <-] & H)%bind_ok.
  destruct (hv_unit_by_invocation _ invocation) as [path|[name|]] eqn:Ha; [| |done].
  - by injection H as <- <-.
  - destruct (is_missing_unit_error name) eqn:Hm; [|done]. by injection H as <- <-.
Qed.

Lemma boundary_absent_ok identity w w' :
  boundary_absent (scope_control_group (psi_expected_uid identity) (psi_unit_name identity)) w
    = (w', Ok true) →
  w' = tick w ∧
  hv_cgroups (rw_host w (rw_time w))
    (scope_control_group (psi_expected_uid identity) (psi_unit_name identity)) = CgMissing.
Proof.
  unfold boundary_absent. intros (w1 & l & [= <- <-] & [-> H]%lift_ok)%bind_ok.
  by destruct (hv_cgroups _ _).
Qed.
Lemma boundary_clear_ok identity w w' :
  boundary_empty_or_absent
    (scope_control_group (psi_expected_uid identity) (psi_unit_name identity)) w = (w', Ok true) →
  ∃ t, asked w w' ∧ (rw_time w ≤ t < rw_time w')%nat ∧
    clear_boundary identity (rw_host w t) = true.
Proof.
  unfold boundary_empty_or_absent. intros (w1 & r & [= <- <-] & H)%bind_ok.
  destruct (read_procs _) as [members|k] eqn:Hr.
  - injection H as <- Hn. exists (rw_time w). split; [by exists 1%nat|].
    split; [cbn; lia|]. unfold clear_boundary. by rewrite Hr.
  - destruct k; try done. apply boundary_absent_ok in H as [-> H]. exists (S (rw_time w)).
    split; [by exists 2%nat|]. split; [cbn; lia|]. unfold clear_boundary. cbn in H.
    by rewrite H.
Qed.

Lemma verify_present_ok identity path first w w' :
  verify_present identity path first w = (w', Ok ScopeReleased) →
  ∃ o t, first = Some o ∧ asked w w' ∧ (rw_time w < t < rw_time w')%nat ∧
    seen_unit w (rw_time w) t path o ∧ is_the_unit identity o = true ∧ is_ended o = true ∧
    clear_boundary identity (rw_host w t) = true.
Proof.
  unfold verify_present. intros (w1 & o & Ho & H)%bind_ok.
  apply read_observation_ok in Ho as (Ha1 & Hlt & Hs).
  case_bool_decide as Hf; [|done]. cbn [negb] in H.
  destruct (is_the_unit identity o) eqn:Hi; [|done]. destruct (is_ended o) eqn:He; [|done].
  cbn [negb] in H. apply bind_ok in H as (w2 & clear & Hc & H).
  destruct clear; [|done]. injection H as <-.
  apply boundary_clear_ok in Hc as (t & Ha2 & Ht & Hc).
  destruct (asked_facts _ _ Ha1) as [Hh _]. rewrite Hh in Hc.
  exists o, t. split_and!; [done|by etrans|lia|lia| |done..].
  destruct Hs as [S1 S2 S3 S4 S5 S6 S7].
  split; (eapply seen_wider; [eassumption|lia..]).
Qed.

(** A verdict of release, taken apart. *)
Lemma verify_systemd_shown now identity deadline w w' :
  verify_systemd now identity deadline w = (w', Ok ScopeReleased) →
  validate_scope identity = true ∧ now < deadline ∧ asked w w' ∧ shown_released w w' identity.
Proof.
  unfold verify_systemd. destruct (validate_scope identity); [|done]. cbn [negb].
  intros (w0 & [] & [-> Hd%Z.ltb_lt]%ensure_ok & H)%bind_ok.
  apply bind_ok in H as (w1 & [] & Hc & H).
  apply bind_ok in Hc as (w1' & connected & [= <- <-] & [-> _]%ensure_ok).
  apply bind_ok in H as (w2 & invocation & [-> Hi%ok_or_ok]%lift_ok & H).
  unfold verify_unit in H.
  apply bind_ok in H as (w3 & first & [-> Hr1]%(resolve_by_invocation_ok _ _ _ _ _ Hi) & H).
  destruct first as [path|].
  - apply bind_ok in H as (w4 & first_observation & Ho & H).
    apply bind_ok in Ho as (w4' & o & Ho & [= <- <-]).
    apply read_observation_ok in Ho as (Ha1 & Hlt & Hs1).
    apply bind_ok in H as (w5 & second & [-> Hr2]%(resolve_by_invocation_ok _ _ _ _ _ Hi) & H).
    destruct second as [path'|]; [|done].
    destruct (str_eqb path path') eqn:Hp; [|done]. apply str_eqb_true in Hp as <-.
    apply verify_present_ok in H as (o' & t & [= <-] & Ha2 & Ht & Hs2 & Hu & He & Hc).
    destruct (asked_facts _ _ Ha1) as [Hh1 _]. cbn [tick rw_time rw_host] in *.
    rewrite Hh1 in *.
    split_and!; [done..| |].
    { etrans; [by exists 2%nat|]. etrans; [exact Ha1|]. etrans; [by exists 1%nat|exact Ha2]. }
    exists (S (rw_time w)), (rw_time w4'), t. cbn in Hlt |- *. split_and!; [lia..|].
    right. exists path, o. split_and!; try done.
    + destruct Hs1 as [S1 S2 S3 S4 S5 S6 S7]. cbn in *.
      split; (eapply seen_wider; [eassumption|lia..]).
    + destruct Hs2 as [S1 S2 S3 S4 S5 S6 S7]. unfold seen_with in *. cbn in *. rewrite Hh1 in *.
      split; (eapply seen_wider; [eassumption|lia..]).
  - apply bind_ok in H as (w4 & first_observation & [= <- <-] & H).
    apply bind_ok in H as (w5 & second & [-> Hr2]%(resolve_by_invocation_ok _ _ _ _ _ Hi) & H).
    destruct second as [path'|]; [done|].
    apply bind_ok in H as (w6 & gone & Hg & H). destruct gone; [|done]. injection H as <-.
    apply boundary_absent_ok in Hg as [-> Hg]. cbn [tick rw_time rw_host] in *.
    split_and!; [done..|by exists 4%nat|].
    exists (S (rw_time w)), (S (S (rw_time w))), (S (S (S (rw_time w)))).
    cbn. split_and!; [lia..|]. by left.
Qed.

(** ** The launch with this verifier *)

(** Handling one message of the worker, the launcher's question to the
    verifier answered by [verify] for the scope that is registered. *)
Definition with_systemd_verifier (host : LaunchHost) (now : Z) (w : RecoveryWorld)
    (phase : PendingLaunchPhase) (e : LaunchEvent) : LaunchEvent :=
  match phase with
  | LaunchScopeRegistered identity _ =>
      mkLaunchEvent (le_response e) (le_control_sent e) (le_control_read e)
        (verify now identity (lh_deadline host) w).2
        (le_answer e) (le_now_prompt e) (le_now_response e) (le_prompt_written e)
  | _ => e
  end.

(** The loop knows the payload's scope to be released. *)
Definition released_entry (e : PendingWorkerLifecycle) : bool :=
  match wr_state (pw_record e) with PayloadReleased _ => true | _ => false end.
(** The worker was told so. *)
Definition says_released (request : WorkerControlRequest) : bool :=
  match request with WcPayloadScopeReleased _ _ _ _ _ => true | _ => false end.

Definition unreleased (s s' : SupervisorLoopState) : Prop :=
  ∀ e', e' ∈ sl_pending s' → released_entry e' = true →
  ∃ e, e ∈ sl_pending s ∧ released_entry e = true ∧
    wr_lifecycle_id (pw_record e) = wr_lifecycle_id (pw_record e').
Definition untold (s s' : Launch) : Prop :=
  unreleased (ln_loop s) (ln_loop s') ∧
  ∀ request, request ∈ ln_control s' → says_released request = true → request ∈ ln_control s.

#[export] Instance unreleased_preorder : PreOrder unreleased.
Proof.
  split; [by intros s e' He Hr; exists e'|].
  intros s s1 s2 H1 H2 e2 He2 Hr2. destruct (H2 e2 He2 Hr2) as (e1 & He1 & Hr1 & <-).
  by apply H1.
Qed.
#[export] Instance untold_preorder : PreOrder untold.
Proof.
  split; [by intros s; split|].
  intros s s1 s2 [H1 C1] [H2 C2]. split; [by etrans|auto].
Qed.

Lemma unreleased_same s s' : sl_pending s' = sl_pending s → unreleased s s'.
Proof. intros H e' He Hr. exists e'. by rewrite <- H. Qed.
Lemma unreleased_put i entry e s :
  sl_pending s !! i = Some entry →
  (released_entry e = true → released_entry entry = true ∧
     wr_lifecycle_id (pw_record entry) = wr_lifecycle_id (pw_record e)) →
  unreleased s (put_entry i e s).
Proof.
  intros Hi He e' Hin Hr. unfold put_entry in Hin. cbn in Hin.
  apply list_elem_of_lookup in Hin as [j Hj].
  apply list_lookup_insert_Some in Hj as [(-> & -> & _)|[_ Hj]].
  - destruct (He Hr) as [Hr' Hid]. exists entry.
    split; [by eapply list_elem_of_lookup_2|done].
  - exists e'. split; [by eapply list_elem_of_lookup_2|done].
Qed.

(** Steps of the loop that leave the pending entries alone. *)
Definition same_pending (s s' : SupervisorLoopState) : Prop := sl_pending s' = sl_pending s.
#[export] Instance same_pending_preorder : PreOrder same_pending.
Proof. split; [done|]. by intros s s1 s2 H1 H2; unfold same_pending in *; rewrite H2. Qed.
Lemma durable_same_pending e m : sr_keeps same_pending (with_durable e m).
Proof.
  intros s. unfold with_durable. destruct (sl_ledger s) as [[l|]|]; [|done..].
  by destruct (m l).
Qed.
Lemma admission_same_pending {E A} (m : SR AdmissionWorld E A) :
  sr_keeps same_pending (on_admission m).
Proof. intros s. unfold on_admission, sr_zoom. by destruct (m _). Qed.
Lemma ignore_same_pending {E F A} (m : SR SupervisorLoopState E A) :
  sr_keeps same_pending m → sr_keeps same_pending (ignore (F:=F) m).
Proof. intros Hm s. apply Hm. Qed.

Section Loop.
Context `{SerdeJson PersistentRecoveryRecord} `{SerdeJson PreCommitRuntimeRecord}.

Lemma recover_exited_same_pending host worker status :
  sr_keeps same_pending (recover_exited host worker status).
Proof.
  unfold recover_exited. destruct (mark_worker_exited_unexpectedly _ _) as [record c].
  apply keeps_bind; [apply _|apply ignore_same_pending, durable_same_pending|intros _].
  apply keeps_bind; [apply _|apply admission_same_pending|intros receipt].
  destruct (recover _ _ _) as [record' []].
  1: apply ignore_same_pending, admission_same_pending.
  apply keeps_bind; [apply _| |intros _].
  { apply ignore_same_pending. destruct reason; try (by intros ?). apply durable_same_pending. }
  apply keeps_bind; [apply _|apply ignore_same_pending, admission_same_pending|].
  by intros _ s.
Qed.
Lemma finish_worker_same_pending host worker status s :
  same_pending s (finish_worker host worker status s).
Proof.
  unfold finish_worker. destruct (sw_terminal_vt_reported_busy worker).
  { apply (admission_same_pending _ s). }
  destruct (exit_success status && _); [|exact (recover_exited_same_pending host worker status s)].
  pose proof (durable_same_pending WorkerIoFailed (resolve_and_remove (sh_boot host)
    (wr_lifecycle_id (sw_record worker))) s) as H1.
  unfold resolve_clean_worker_record. destruct (with_durable _ _ s) as [s1 [[]|e]];
    cbn [fst is_ok] in *; (etrans; [exact H1|]).
  - apply (admission_same_pending _ s1).
  - exact (recover_exited_same_pending host worker status s1).
Qed.
Lemma reap_from_same_pending host rounds index s :
  same_pending s (reap_from host rounds index s).
Proof.
  revert index s. induction rounds as [|rounds IH]; intros index s; [done|]. cbn [reap_from].
  destruct (sl_children s !! index) as [worker|]; [|done].
  destruct (sw_child worker) as [pid|]; [|apply IH].
  destruct (ch_try_wait _ pid) as [[status|]|]; [|apply IH..].
  etrans; [|apply IH]. unfold finish_exited_worker.
  destruct (swap_remove _ _) as [[worker' rest]|]; [|done].
  apply (finish_worker_same_pending host worker' status (set_children rest s)).
Qed.

Lemma record_prepared_scope_unreleased h id pid spid identity nonce :
  sr_keeps unreleased (record_prepared_scope h id pid spid identity nonce).
Proof.
  intros s. unfold record_prepared_scope.
  destruct (find_entry _ s) as [[i entry]|] eqn:Hf; [|done].
  apply list_find_Some in Hf as (Hi & _). destruct (_ || _); [done|].
  destruct (wr_state (pw_record entry)) eqn:Hw; try done.
  destruct (rp_prepare_payload _ _ _ _ _ _) as [payload|e].
  - unfold persist_new_record_to.
    match goal with |- context [with_durable ?e ?m s] =>
      pose proof (durable_same_pending e m s) as Hd;
      destruct (with_durable e m s) as [s1 [[]|err]] end;
      cbn [fst] in *; (etrans; [by apply unreleased_same|]);
      (eapply unreleased_put; [by rewrite Hd|done]).
  - cbn zeta. etrans; [|by apply unreleased_same, admission_same_pending].
    by eapply unreleased_put.
Qed.
Lemma mark_payload_registered_unreleased h id pid :
  sr_keeps unreleased (mark_payload_registered h id pid).
Proof.
  intros s. unfold mark_payload_registered.
  destruct (find_entry _ s) as [[i entry]|] eqn:Hf; [|done].
  apply list_find_Some in Hf as (Hi & _). destruct (wr_state _) eqn:Hw; try done.
  etrans; [|apply unreleased_same, durable_same_pending]. by eapply unreleased_put.
Qed.
Lemma begin_release_unreleased request : sr_keeps unreleased (begin_release request).
Proof.
  intros s. unfold begin_release.
  destruct (find_entry _ s) as [[i entry]|] eqn:Hf; [|done].
  apply list_find_Some in Hf as (Hi & _). destruct (_ && _); [|done]. by eapply unreleased_put.
Qed.
Lemma complete_release_unreleased h token reason :
  sr_keeps unreleased (complete_release h token (ScopeRecoveryRequired reason)).
Proof.
  intros s. unfold complete_release.
  destruct (find_entry _ s) as [[i entry]|] eqn:Hf; [|done].
  apply list_find_Some in Hf as (Hi & _). by eapply unreleased_put.
Qed.
End Loop.

Section Told.
Context `{SerdeJson PersistentRecoveryRecord} `{SerdeJson PreCommitRuntimeRecord}.
Context `{SerdeJson PamPromptResponse}.
Context (host : LaunchHost) (worker_id : string) (worker_pid generation attempt_id : Z).

Lemma call_untold {A} (f : SupervisorHost → SL A) :
  (∀ h, sr_keeps unreleased (f h)) → sr_keeps untold (call host f).
Proof.
  intros Hf s. unfold call. destruct (cl_delivered _); [|done].
  specialize (Hf (cl_host (lh_calls host (ln_calls s))) (ln_loop s)).
  destruct (f _ _) as [l r]. cbn [fst] in *. split; [|done]. cbn [after_call ln_loop].
  etrans; [exact Hf|]. apply unreleased_same, reap_from_same_pending.
Qed.
Lemma log_untold request :
  says_released request = false → sr_keeps untold (E:=SessionError)
    (sr_modify (log_control request)).
Proof.
  intros Hr s. split; [done|]. cbn. intros request' [Hin| ->%list_elem_of_singleton]%elem_of_app;
    [done|congruence].
Qed.

(** Every message of the worker but a confirmed release leaves it untold. *)
Lemma on_event_untold e phase control :
  match phase with LaunchScopeRegistered _ _ => le_verification e ≠ ScopeReleased | _ => True end →
  sr_keeps untold (on_event host worker_id worker_pid generation attempt_id e phase control).
Proof.
  intros Hv. unfold on_event. destruct (le_response e) as [response|]; [|by intros s].
  destruct (negb _); [by intros s|]. destruct (we_message response); try by intros s.
  - intros s. unfold on_pam_prompt. destruct (negb _); [done|].
    by destruct (forward_pam_prompt _ _ _ _ _ _).
  - unfold on_preparing. destruct (_ && _); by intros s.
  - unfold on_scope_prepared. destruct (_ || _); [by intros s|].
    apply keeps_bind; [apply _|apply call_untold; intros h; apply record_prepared_scope_unreleased|].
    intros _. destruct (le_control_sent e); [|by intros s].
    apply keeps_bind; [apply _|by apply log_untold|intros _].
    apply keeps_bind; [apply _|apply call_untold; intros h; apply mark_payload_registered_unreleased|].
    by intros _ s.
  - unfold on_release_ready. destruct phase as [| |identity nonce]; try by intros s.
    destruct (negb _); [by intros s|]. destruct control as [transaction|]; [|by intros s].
    destruct (release_request _ _ _ _ _ _) as [release_nonce|]; [|by intros s].
    destruct (le_verification e) as [|reason]; [done|].
    apply keeps_bind; [apply _|apply call_untold; intros _; apply begin_release_unreleased|].
    intros token.
    apply keeps_bind; [apply _|apply call_untold; intros h; apply complete_release_unreleased|].
    intros _. destruct (le_control_sent e); [|by intros s].
    apply keeps_bind; [apply _|by apply log_untold|]. by intros _ s.
Qed.
End Told.

(** C7. A payload scope counts as released only if the machine showed it.
    Whatever the worker sends, in whatever phase of its launch, and whatever
    systemd and the control groups answer meanwhile: when handling the message
    tells the worker that its scope is released, or makes the loop take the
    payload of a pending worker for released, then the scope is the registered
    one, the deadline had not passed, and between question and verdict systemd
    either did not know the invocation, twice, and its directory was missing,
    or named one unit twice, both times the recorded, transient, ended unit of
    the user, whose directory then listed nobody or was missing.  Verifying
    changes nothing. *)
Theorem released_scope_was_shown `{SerdeJson PersistentRecoveryRecord}
    `{SerdeJson PreCommitRuntimeRecord} `{SerdeJson PamPromptResponse}
    (host : LaunchHost) (worker_id : string) (worker_pid generation attempt_id now : Z)
    (w : RecoveryWorld) (e : LaunchEvent) (phase : PendingLaunchPhase)
    (control : option WorkerTransactionIdentity) (s : Launch) :
  let s' := (on_event host worker_id worker_pid generation attempt_id
               (with_systemd_verifier host now w phase e) phase control s).1 in
  (∃ request, request ∈ ln_control s' ∧ (request ∉ ln_control s) ∧
     says_released request = true) ∨
  (¬ unreleased (ln_loop s) (ln_loop s')) →
  ∃ identity nonce,
    phase = LaunchScopeRegistered identity nonce ∧ validate_scope identity = true ∧
    now < lh_deadline host ∧
    let w' := (verify now identity (lh_deadline host) w).1 in
    asked w w' ∧ shown_released w w' identity.
Proof.
  intros s' Hnew.
  assert (¬ untold s s') as Hn.
  { intros [Hu Hc]. destruct Hnew as [(request & H2 & H3 & H4)|Hn]; [|done]. destruct H3.
    by apply Hc. }
  destruct phase as [| |identity nonce]; [by destruct Hn; apply on_event_untold..|].
  exists identity, nonce. subst s'. unfold verify.
  destruct (verify_systemd now identity (lh_deadline host) w) as [w' [[|reason]|reason]] eqn:Hs.
  - by apply verify_systemd_shown in Hs as (? & ? & ? & ?).
  - destruct Hn. apply on_event_untold. cbn. unfold verify. by rewrite Hs.
  - destruct Hn. apply on_event_untold. cbn. unfold verify. by rewrite Hs.
Qed.

(** ** A machine that stands still *)

Definition stable (h : HostView) (w : RecoveryWorld) : Prop := ∀ t, rw_host w t = h.
(** On a machine that always answers [h], [m] answers [r]. *)
Definition answers {E A} (h : HostView) (m : RC E A) (r : result A E) : Prop :=
  ∀ w, stable h w → stable h (m w).1 ∧ (m w).2 = r.

Lemma answers_lift {E A} h (r : result A E) : answers h (sr_lift r) r.
Proof. by intros w Hw. Qed.
Lemma answers_observe {E A} h (f : HostView → A) : answers (E:=E) h (observe f) (Ok (f h)).
Proof. intros w Hw. split; [exact Hw|]. cbn. by rewrite Hw. Qed.
Lemma answers_bind {E A B} h (m : RC E A) (k : A → RC E B) r r' :
  answers h m r →
  match r with Ok a => answers h (k a) r' | Err e => r' = Err e end →
  answers h (sr_bind m k) r'.
Proof.
  intros Hm Hk w Hw. destruct (Hm w Hw) as [H1 H2]. rewrite sr_bind_eq.
  destruct (m w) as [w1 [a|e]]; cbn [fst snd] in *; subst r; [by apply Hk|by rewrite Hk].
Qed.
Lemma answers_ensure {E} h (b : bool) (e : E) :
  answers h (ensure b else e) (if b then Ok () else Err e).
Proof. by destruct b; intros w Hw. Qed.

(** The unit as systemd shows it all the while. *)
Definition observation_of (p : UnitProperties) : ReleaseObservation :=
  mkReleaseObservation (up_id p) (hex_of_bytes (up_invocation_id p)) (up_active_state p)
    (up_sub_state p) (up_slice p) (up_control_group p) (up_transient p).

(** What such a machine has to show. *)
Definition released_unit (identity : PayloadScopeIdentity) (h : HostView) : bool :=
  match resolved identity h with
  | Ok path =>
      match hv_unit h path with
      | Some p => (length (up_invocation_id p) =? 16)%nat
                  && is_the_unit identity (observation_of p) && is_ended (observation_of p)
                  && clear_boundary identity h
      | None => false
      end
  | Err _ =>
      unknown_unit identity h
      && match hv_cgroups h (scope_control_group (psi_expected_uid identity)
                               (psi_unit_name identity)) with CgMissing => true | _ => false end
  end.
Definition released_view (identity : PayloadScopeIdentity) (h : HostView) : bool :=
  validate_scope identity && hv_connects h && released_unit identity h.

Lemma unit_property_answers {A} h path (f : UnitProperties → A) :
  answers h (unit_property path f)
    (ok_or (f <$> hv_unit h path) VerificationUnavailable).
Proof. eapply answers_bind; [apply answers_observe|]. apply answers_lift. Qed.
Lemma read_observation_answers h path :
  answers h (read_observation path)
    match hv_unit h path with
    | None => Err VerificationUnavailable
    | Some p => if (length (up_invocation_id p) =? 16)%nat then Ok (observation_of p)
                else Err IdentityMismatch
    end.
Proof.
  unfold read_observation.
  eapply answers_bind; [apply unit_property_answers|].
  destruct (hv_unit h path) as [p|] eqn:Hp; [|done]. cbn.
  do 6 (eapply answers_bind; [apply unit_property_answers|]; rewrite Hp; cbn).
  eapply answers_bind; [apply answers_ensure|]. by destruct (_ =? 16)%nat.
Qed.

Lemma boundary_clear_answers identity h :
  ∃ r, answers h (boundary_empty_or_absent
         (scope_control_group (psi_expected_uid identity) (psi_unit_name identity))) r ∧
    (r = Ok true ↔ clear_boundary identity h = true).
Proof.
  unfold clear_boundary.
  set (b := scope_control_group (psi_expected_uid identity) (psi_unit_name identity)).
  destruct (read_procs (hv_cgroups h b)) as [members|k] eqn:Hr.
  - exists (Ok (no_members members)). split.
    + eapply answers_bind; [apply answers_observe|]. cbv beta iota. rewrite Hr. by intros w Hw.
    + split; [by intros [= ->]|by intros ->].
  - exists (match k with NotFound => lookup_absent (hv_cgroups h b)
                       | _ => Err VerificationUnavailable end). split.
    + eapply answers_bind; [apply answers_observe|]. cbv beta iota. rewrite Hr.
      destruct k; try by intros w Hw. eapply answers_bind; [apply answers_observe|].
      apply answers_lift.
    + destruct (hv_cgroups h b) eqn:Hb; cbn in Hr; simplify_eq; cbn; try done.
      all: by destruct k.
Qed.

Lemma verify_present_answers identity path p first h :
  hv_unit h path = Some p → first = Some (observation_of p) →
  (length (up_invocation_id p) =? 16)%nat = true →
  ∃ r, answers h (verify_present identity path first) r ∧
    (r = Ok ScopeReleased ↔
     is_the_unit identity (observation_of p) && is_ended (observation_of p)
     && clear_boundary identity h = true).
Proof.
  intros Hp -> Hl. pose proof (read_observation_answers h path) as Ho. rewrite Hp, Hl in Ho.
  destruct (boundary_clear_answers identity h) as (r & Hr & Hc).
  exists (if negb (is_the_unit identity (observation_of p))
          then Ok (ScopeRecoveryRequired IdentityMismatch)
          else if negb (is_ended (observation_of p))
          then Ok (ScopeRecoveryRequired UnitStillActive)
          else match r with
               | Ok true => Ok ScopeReleased
               | Ok false => Ok (ScopeRecoveryRequired MembershipNotEmpty)
               | Err e => Err e
               end).
  split.
  - unfold verify_present. eapply answers_bind; [apply Ho|]. cbv beta iota.
    rewrite bool_decide_eq_true_2 by done. cbn [negb].
    destruct (is_the_unit _ _); [|by intros w Hw]. destruct (is_ended _); [|by intros w Hw].
    cbn [negb]. eapply answers_bind; [apply Hr|]. by destruct r as [[]|]; intros.
  - destruct (is_the_unit _ _), (is_ended _); cbn [negb andb]; try done.
    rewrite <- Hc. by destruct r as [[]|].
Qed.

Lemma resolve_answers identity invocation h :
  parse_invocation_id (psi_invocation_id identity) = Some invocation →
  answers h (resolve_by_invocation invocation)
    match resolved identity h with
    | Ok path => Ok (Some path)
    | Err _ => if unknown_unit identity h then Ok None else Err VerificationUnavailable
    end.
Proof.
  intros Hi. unfold unknown_unit, resolved. rewrite Hi.
  eapply answers_bind; [apply answers_observe|]. cbn.
  destruct (hv_unit_by_invocation h invocation) as [path|[name|]]; try by intros w Hw.
  by destruct (is_missing_unit_error name); intros w Hw.
Qed.

Lemma verify_unit_answers identity invocation h :
  parse_invocation_id (psi_invocation_id identity) = Some invocation →
  ∃ r, answers h (verify_unit identity invocation) r ∧
    (r = Ok ScopeReleased ↔ released_unit identity h = true).
Proof.
  intros Hi. pose proof (resolve_answers identity invocation h Hi) as Hr.
  unfold released_unit.
  destruct (resolved identity h) as [path|e].
  - pose proof (read_observation_answers h path) as Ho.
    destruct (hv_unit h path) as [p|] eqn:Hp.
    2: { exists (Err VerificationUnavailable). split; [|done].
         eapply answers_bind; [apply Hr|]. cbv beta iota.
         eapply answers_bind; [eapply answers_bind; [apply Ho|reflexivity]|reflexivity]. }
    destruct (_ =? 16)%nat eqn:Hl; cbn [andb].
    2: { exists (Err IdentityMismatch). split; [|done].
         eapply answers_bind; [apply Hr|]. cbv beta iota.
         eapply answers_bind; [eapply answers_bind; [apply Ho|reflexivity]|reflexivity]. }
    destruct (verify_present_answers identity path p (Some (observation_of p)) h Hp eq_refl Hl)
      as (r & Hv & Hx).
    exists r. split; [|done]. eapply answers_bind; [apply Hr|]. cbv beta iota.
    eapply answers_bind; [eapply answers_bind; [apply Ho|apply answers_lift]|]. cbv beta iota.
    eapply answers_bind; [apply Hr|]. cbv beta iota. by rewrite str_eqb_refl.
  - destruct (unknown_unit identity h); cbn [andb].
    2: { exists (Err VerificationUnavailable). split; [|done].
         by eapply answers_bind; [apply Hr|]. }
    set (b := scope_control_group (psi_expected_uid identity) (psi_unit_name identity)).
    exists (match lookup_absent (hv_cgroups h b) with
            | Ok true => Ok ScopeReleased
            | Ok false => Ok (ScopeRecoveryRequired MembershipNotEmpty)
            | Err e => Err e
            end).
    split; [|by destruct (hv_cgroups h b)].
    eapply answers_bind; [apply Hr|]. cbv beta iota.
    eapply answers_bind; [apply answers_lift|]. cbv beta iota.
    eapply answers_bind; [apply Hr|]. cbv beta iota.
    eapply answers_bind; [eapply answers_bind; [apply answers_observe|apply answers_lift]|].
    fold b. by destruct (lookup_absent _) as [[]|]; intros.
Qed.

(** On a machine that stands still the verifier is exact: it reports the scope
    released precisely when it is asked in time and the machine shows a
    released scope.  A scope that is gone is therefore always reported so, and
    one that is not never is. *)
Theorem stable_release_exact (h : HostView) (w : RecoveryWorld) (now deadline : Z)
    (identity : PayloadScopeIdentity) :
  stable h w →
  (verify now identity deadline w).2 = ScopeReleased ↔
  now < deadline ∧ released_view identity h = true.
Proof.
  intros Hw.
  assert (∃ r, answers h (verify_systemd now identity deadline) r ∧
    (r = Ok ScopeReleased ↔ now < deadline ∧ released_view identity h = true))
    as (r & Hr & Hx).
  2: { destruct (Hr w Hw) as [_ E]. unfold verify. rewrite <- Hx.
       destruct (verify_systemd _ _ _ _) as [w' [v|reason]]; cbn in *; subst r;
         (split; [congruence|by intros [= ->]]). }
  unfold verify_systemd, released_view.
  destruct (validate_scope identity); cbn [negb andb].
  2: { exists (Ok (ScopeRecoveryRequired IdentityMismatch)).
       split; [by intros w' Hw'|]. by split; [|intros [_ ?]]. }
  destruct (Z.ltb_spec now deadline) as [Hd|Hd].
  2: { exists (Err VerificationUnavailable). split; [|split; [done|lia]].
       eapply answers_bind; [apply answers_lift|done]. }
  assert (answers h (connect VerificationUnavailable)
    (if hv_connects h then Ok () else Err VerificationUnavailable)) as Hc.
  { eapply answers_bind; [apply answers_observe|]. apply answers_ensure. }
  destruct (hv_connects h); cbn [andb].
  2: { exists (Err VerificationUnavailable). split; [|by split; [|intros [_ ?]]].
       eapply answers_bind; [apply answers_lift|]. by eapply answers_bind; [apply Hc|]. }
  destruct (parse_invocation_id (psi_invocation_id identity)) as [invocation|] eqn:Hi.
  - destruct (verify_unit_answers identity invocation h Hi) as (r & Hr & Hx).
    exists r. split; [|rewrite Hx; tauto].
    eapply answers_bind; [apply answers_lift|]. eapply answers_bind; [apply Hc|].
    by eapply answers_bind; [apply answers_lift|].
  - exists (Err IdentityMismatch). split.
    + eapply answers_bind; [apply answers_lift|]. eapply answers_bind; [apply Hc|].
      by eapply answers_bind; [apply answers_lift|].
    + split; [done|]. unfold released_unit, unknown_unit, resolved. rewrite Hi. by intros [_ ?].
Qed.
