(* ===== verification/WorkerPam.v ===== *)
(** * The conversation between PAM and the worker

    [niralis-auth/src/conversation.rs] and [pam_native/conversation.rs]: the
    callback [libpam] calls with an array of messages, and the conversation
    that answers them, from the credentials of the request or from a driver.
    [niralis-session-worker/src/runtime/pam_conversation.rs]: the driver of a
    worker, which sends every message to the launcher as a prompt and reads
    the answer from the supervisor channel.  A C string is a byte string
    without NUL; [libpam]'s calls, the allocator and whatever is behind the
    driver's two channels are parameters. *)

From stdpp Require Import base gmap sets list strings.
From Stdlib Require Import ZArith Lia.
From S2P Require Import Prelude Text DirFs RecoveryTypes LedgerTaxonomy Ledger.
From S2P Require Import PreviousBoot PreCommit SameBoot Admission Protocol.
From S2P Require Import Conversation WorkerRecord Supervisor Launch.
#[local] Open Scope niralis_scope.

(** ** The driver's trait *)

(** [trait PamConversationDriver]; its error has no content. *)
Class PamConversationDriver (D : Type) :=
  driver_respond : PamMessageStyle → string → SR D () PamPromptResponse.

(** ** The conversation *)

(** [CString::new]. *)
Definition cstring (s : string) : result string () :=
  if str_contains_byte NUL s then Err () else Ok s.

Definition response_to_cstring (response : PamPromptResponse) (secret : bool)
    : result string () :=
  match secret, response with
  | true, RespSecret value => cstring value
  | false, RespText value => cstring value
  | _, _ => Err ()
  end.

Record SilentPasswordConversation (D : Type) := mkSilent {
  sp_username : string;
  sp_password : string;
  sp_driver : option D;
  sp_failed : bool;
}.
Arguments mkSilent {D}.
Arguments sp_username {D}.
Arguments sp_password {D}.
Arguments sp_driver {D}.
Arguments sp_failed {D}.

Inductive ConversationAction := EchoOff | EchoOn | ActionError | ActionInfo | ActionInvalid.
Definition conversation_action (style : Z) : ConversationAction :=
  if style =? 1 then EchoOff else if style =? 2 then EchoOn
  else if style =? 3 then ActionError else if style =? 4 then ActionInfo
  else ActionInvalid.

(** [struct pam_message]; a null [msg] is [None]. *)
Record PamMessage := mkPamMessage {
  pm_msg_style : Z;
  pm_msg : option string;
}.
(** One call of the callback; null pointers are [None] and [false]. *)
Record ConverseCall := mkConverseCall {
  cc_count : Z;
  cc_messages : option (list (option PamMessage));
  cc_responses_given : bool;
  cc_data_given : bool;
}.
Inductive PamReturnCode := PamSuccess | PamConvErr | PamBufErr.

(** What a call leaves: the code, the array it hands to [libpam], and the
    copies of answers that stay allocated with nothing pointing to them. *)
Record ConverseResult := mkConverseResult {
  cr_code : PamReturnCode;
  cr_responses : option (list (option string));
  cr_lost : list string;
}.

Section Converse.
Context {D : Type} `{PamConversationDriver D}.
Abbreviation SP := (SilentPasswordConversation D).

Definition silent_new : SP := mkSilent EmptyString EmptyString None false.
Definition silent_with_driver (d : D) : SP := mkSilent EmptyString EmptyString (Some d) false.
Definition set_credentials (username password : string) (c : SP) : SP :=
  mkSilent username password (sp_driver c) (sp_failed c).
Definition clear_password (c : SP) : SP :=
  mkSilent (sp_username c) EmptyString (sp_driver c) (sp_failed c).
Definition set_driver (d : D) (c : SP) : SP :=
  mkSilent (sp_username c) (sp_password c) (Some d) (sp_failed c).
Definition set_failed (c : SP) : SP :=
  mkSilent (sp_username c) (sp_password c) (sp_driver c) true.

Definition prompt_echo (msg : string) : SR SP () string := λ c,
  match sp_driver c with
  | Some d =>
      let '(d, answer) := driver_respond PromptEchoOn msg d in
      (set_driver d c, match answer with
                       | Ok response => response_to_cstring response false
                       | Err _ => Err ()
                       end)
  | None => (c, cstring (sp_username c))
  end.
Definition prompt_blind (msg : string) : SR SP () string := λ c,
  match sp_driver c with
  | Some d =>
      let '(d, answer) := driver_respond PromptEchoOff msg d in
      (set_driver d c, match answer with
                       | Ok response => response_to_cstring response true
                       | Err _ => Err ()
                       end)
  | None => (c, cstring (sp_password c))
  end.
Definition is_none_response (r : result PamPromptResponse ()) : bool :=
  match r with Ok RespNone => true | _ => false end.
(** A message that is only shown: anything but an empty answer is remembered. *)
Definition show (style : PamMessageStyle) (msg : string) (c : SP) : SP :=
  match sp_driver c with
  | Some d =>
      let '(d, answer) := driver_respond style msg d in
      if is_none_response answer then set_driver d c else set_failed (set_driver d c)
  | None => c
  end.
Definition info (msg : string) (c : SP) : SP := show Informational msg c.
Definition error (msg : string) (c : SP) : SP := show StyleError msg c.

(** The loop; [given] is the array filled so far, [copied i] whether the
    [i]-th [strdup] gets its memory. *)
Section Allocation.
Context (allocated : bool) (copied : nat → bool).

Definition lose (code : PamReturnCode) (given : list (option string)) : ConverseResult :=
  mkConverseResult code None (omap id given).

Fixpoint converse_from (given : list (option string)) (messages : list (option PamMessage))
    (c : SP) : SP * result (list (option string)) ConverseResult :=
  match messages with
  | [] => (c, Ok given)
  | message :: rest =>
      match message with
      | None | Some (mkPamMessage _ None) => (c, Err (lose PamConvErr given))
      | Some (mkPamMessage style (Some text)) =>
          let answered (m : SR SP () string) :=
            match m c with
            | (c, Err _) => (c, Err (lose PamConvErr given))
            | (c, Ok answer) =>
                if copied (length given) then converse_from (given ++ [Some answer]) rest c
                else (c, Err (lose PamBufErr given))
            end in
          match conversation_action style with
          | EchoOff => answered (prompt_blind text)
          | EchoOn => answered (prompt_echo text)
          | ActionError => converse_from (given ++ [None]) rest (error text c)
          | ActionInfo => converse_from (given ++ [None]) rest (info text c)
          | ActionInvalid => (c, Err (lose PamConvErr given))
          end
      end
  end.

Definition converse (call : ConverseCall) (c : SP) : SP * ConverseResult :=
  match cc_messages call with
  | None => (c, lose PamConvErr [])
  | Some messages =>
      if (cc_count call <? 0) || negb (cc_responses_given call) || negb (cc_data_given call)
      then (c, lose PamConvErr [])
      else if negb allocated then (c, lose PamBufErr [])
      else match converse_from [] (take (Z.to_nat (cc_count call)) messages) c with
      | (c, Err r) => (c, r)
      | (c, Ok given) =>
          if sp_failed c then (c, lose PamConvErr given)
          else (c, mkConverseResult PamSuccess (Some given) [])
      end
  end.
End Allocation.

(** ** A conversation that stops at the first failure *)

(** What one message should give: an answer, or nothing for a message that is
    only shown, whose receipt is confirmed. *)
Definition ask (message : option PamMessage) : SR SP () (option string) :=
  match message with
  | Some (mkPamMessage style (Some text)) =>
      match conversation_action style with
      | EchoOff => let* answer := prompt_blind text in sr_ret (Some answer)
      | EchoOn => let* answer := prompt_echo text in sr_ret (Some answer)
      | ActionError =>
          sr_modify (error text) ;;; let* c := sr_get in
          ensure negb (sp_failed c) else () ;;; sr_ret None
      | ActionInfo =>
          sr_modify (info text) ;;; let* c := sr_get in
          ensure negb (sp_failed c) else () ;;; sr_ret None
      | ActionInvalid => sr_fail ()
      end
  | _ => sr_fail ()
  end.
Fixpoint ask_all (messages : list (option PamMessage)) : SR SP () (list (option string)) :=
  match messages with
  | [] => sr_ret []
  | m :: rest => let* a := ask m in let* l := ask_all rest in sr_ret (a :: l)
  end.
End Converse.

(** ** The driver of a worker *)

Record WorkerPamConversationDriver := mkDriver {
  pd_binding : LoginRequestBinding;
  pd_conversation_id : string;
  pd_transaction : WorkerTransactionIdentity;
  pd_worker_id : string;
  pd_worker_pid : Z;
  pd_prompt_id : Z;
  pd_sequence : Z;
}.
Definition driver_new (binding : LoginRequestBinding) (conversation_id : string)
    (transaction : WorkerTransactionIdentity) (worker_id : string) (worker_pid : Z)
    : WorkerPamConversationDriver :=
  mkDriver binding conversation_id transaction worker_id worker_pid 0 0.
Definition pd_with (prompt_id sequence : Z) (d : WorkerPamConversationDriver)
    : WorkerPamConversationDriver :=
  mkDriver (pd_binding d) (pd_conversation_id d) (pd_transaction d) (pd_worker_id d)
    (pd_worker_pid d) prompt_id sequence.

Definition prompt_of (d : WorkerPamConversationDriver) (style : PamMessageStyle)
    (message : string) : PamPromptEnvelope :=
  mkPromptEnvelope GREETER_PROTOCOL_VERSION "pam_prompt" (lb_connection_id (pd_binding d))
    (lb_connection_epoch (pd_binding d)) (lb_seat (pd_binding d))
    (lb_request_id (pd_binding d)) (wt_transaction_id (pd_transaction d))
    (pd_conversation_id d) (pd_prompt_id d) (pd_sequence d) style (str_len message) message.

(** Does the response of the supervisor channel answer the last prompt? *)
Definition answers_prompt (d : WorkerPamConversationDriver) (style : PamMessageStyle)
    (e : WorkerControlEnvelope) : option PamPromptResponseEnvelope :=
  if negb (wc_version e =? WORKER_CONTROL_PROTOCOL_VERSION) then None
  else match wc_message e with
  | WcPamPromptResponse transaction worker_id expected_worker_pid r =>
      if str_eqb worker_id (pd_worker_id d) && (expected_worker_pid =? pd_worker_pid d)
         && matches_worker transaction (pd_transaction d) "pam_prompt_response" (pd_sequence d)
         && str_eqb (rp_connection_id r) (lb_connection_id (pd_binding d))
         && (rp_connection_epoch r =? lb_connection_epoch (pd_binding d))
         && str_eqb (rp_seat r) (lb_seat (pd_binding d))
         && (rp_request_id r =? lb_request_id (pd_binding d))
         && str_eqb (rp_transaction_id r) (wt_transaction_id (pd_transaction d))
         && str_eqb (rp_conversation_id r) (pd_conversation_id d)
         && (rp_prompt_id r =? pd_prompt_id d) && (rp_sequence r =? pd_sequence d)
         && bool_decide (rp_style r = style)
      then Some r else None
  | _ => None
  end.

(** A text a prompt can carry. *)
Definition speakable (message : string) : bool :=
  bool_decide (is_Some (str_from_utf8 message))
  && negb (str_is_empty message) && (str_len message <=? 4096).

Section Driver.
Context `{SerdeJson PamPromptResponse}.
(** What is behind the two channels: it takes the message written to standard
    output and gives the next envelope of the supervisor channel, or an error
    when one of the channels fails. *)
Context {P : Type} (peer : WorkerResponse → SR P () WorkerControlEnvelope).
Abbreviation DS := (WorkerPamConversationDriver * P)%type.

Definition on_driver {A} (m : SR WorkerPamConversationDriver () A) : SR DS () A :=
  sr_zoom fst (λ d s, (d, s.2)) m.
Definition count_prompt : SR WorkerPamConversationDriver () () :=
  let* d := sr_get in
  let* n := sr_lift (ok_or (u64_checked_add (pd_prompt_id d) 1) ()) in
  sr_put (pd_with n (pd_sequence d) d).
Definition count_sequence : SR WorkerPamConversationDriver () () :=
  let* d := sr_get in
  let* n := sr_lift (ok_or (u64_checked_add (pd_sequence d) 1) ()) in
  sr_put (pd_with (pd_prompt_id d) n d).

Definition worker_respond (style : PamMessageStyle) (message : string)
    : SR DS () PamPromptResponse :=
  on_driver count_prompt ;;;
  on_driver count_sequence ;;;
  ensure speakable message else () ;;;
  let* d := on_driver sr_get in
  let* e := sr_zoom snd (λ p s, (s.1, p))
              (peer (WrPamPrompt (pd_worker_id d) (pd_worker_pid d) (pd_transaction d)
                       (prompt_of d style message))) in
  let* r := sr_lift (ok_or (answers_prompt d style e) ()) in
  sr_lift (map_err (λ _, ()) (response_validate_shape r)) ;;;
  sr_ret (rp_response r).
#[global] Instance worker_driver : PamConversationDriver DS := worker_respond.
End Driver.

(** ** The callback and the strict conversation *)

Section ConverseFacts.
Context {D : Type} `{PamConversationDriver D}.
Abbreviation SP := (SilentPasswordConversation D).

Lemma show_cases style text (c : SP) :
  sp_failed (show style text c) = sp_failed c ∨ sp_failed (show style text c) = true.
Proof.
  unfold show. destruct (sp_driver c) as [d0|]; [|auto].
  destruct (driver_respond _ _ d0) as [d r].
  destruct (is_none_response r); auto.
Qed.
Lemma prompt_blind_failed text (c c' : SP) r :
  prompt_blind text c = (c', r) → sp_failed c' = sp_failed c.
Proof.
  unfold prompt_blind. destruct (sp_driver c); [|by intros [= <- _]].
  destruct (driver_respond _ _ _). by intros [= <- _].
Qed.
Lemma prompt_echo_failed text (c c' : SP) r :
  prompt_echo text c = (c', r) → sp_failed c' = sp_failed c.
Proof.
  unfold prompt_echo. destruct (sp_driver c); [|by intros [= <- _]].
  destruct (driver_respond _ _ _). by intros [= <- _].
Qed.

(** Once a shown message failed the flag stays, and the call cannot succeed. *)
Lemma converse_from_sticky given ms (c c' : SP) r :
  converse_from (λ _, true) given ms c = (c', r) → sp_failed c = true → sp_failed c' = true.
Proof.
  revert given c. induction ms as [|m ms IH]; intros given c; cbn; [by intros [= <- _]|].
  assert (∀ style text, sp_failed c = true → sp_failed (show style text c) = true) as Hs.
  { intros style text Hc. destruct (show_cases style text c) as [->| ->]; done. }
  destruct m as [[style [text|]]|]; [|by intros [= <- _]..].
  destruct (conversation_action style).
  - destruct (prompt_blind text c) as [c1 [a|]] eqn:Hp; intros HC Hf;
      apply prompt_blind_failed in Hp.
    + eapply IH; [exact HC|congruence].
    + injection HC as <- _. congruence.
  - destruct (prompt_echo text c) as [c1 [a|]] eqn:Hp; intros HC Hf;
      apply prompt_echo_failed in Hp.
    + eapply IH; [exact HC|congruence].
    + injection HC as <- _. congruence.
  - intros HC Hf. eapply IH; [exact HC|]. by apply Hs.
  - intros HC Hf. eapply IH; [exact HC|]. by apply Hs.
  - by intros [= <- _].
Qed.

(** A call that stops in the loop reports an error. *)
Lemma converse_from_code given ms (c c' : SP) r :
  converse_from (λ _, true) given ms c = (c', Err r) → cr_code r ≠ PamSuccess.
Proof.
  revert given c. induction ms as [|m ms IH]; intros given c; cbn; [done|].
  destruct m as [[style [text|]]|]; [|by intros [= _ <-]..].
  destruct (conversation_action style); try (by intros [= _ <-]); try by apply IH.
  - destruct (prompt_blind text c) as [c1 [a|]]; [apply IH|by intros [= _ <-]].
  - destruct (prompt_echo text c) as [c1 [a|]]; [apply IH|by intros [= _ <-]].
Qed.

(** The loop and the strict conversation agree on what succeeds. *)
Lemma converse_from_exact given ms (c c' : SP) out :
  sp_failed c = false →
  (converse_from (λ _, true) given ms c = (c', Ok out) ∧ sp_failed c' = false) ↔
  ∃ out', out = given ++ out' ∧ ask_all ms c = (c', Ok out').
Proof.
  revert given c. induction ms as [|m ms IH]; intros given c Hc.
  { cbn. split.
    - intros [[= <- <-] _]. exists []. by rewrite app_nil_r.
    - intros (out' & -> & [= <- <-]). by rewrite app_nil_r. }
  (* an answered or shown message, and the rest *)
  assert (∀ a c1, sp_failed c1 = false →
    (converse_from (λ _, true) (given ++ [a]) ms c1 = (c', Ok out) ∧ sp_failed c' = false) ↔
    ∃ out', out = given ++ out' ∧
      (let* l := ask_all ms in sr_ret (a :: l)) c1 = (c', Ok out')) as Hstep.
  { intros a c1 H1. rewrite (IH _ _ H1). split.
    - intros (out' & -> & HA). exists (a :: out'). rewrite <- app_assoc. split; [done|].
      by rewrite sr_bind_eq, HA.
    - intros (out' & -> & (c2 & l & HA & [= <- <-])%bind_ok).
      exists l. by rewrite <- app_assoc. }
  assert (∀ style text, let c1 := show style text c in
    (converse_from (λ _, true) (given ++ [None]) ms c1 = (c', Ok out) ∧ sp_failed c' = false) ↔
    ∃ out', out = given ++ out' ∧
      (let* a := (sr_modify (show style text) ;;; let* c := sr_get in
                  ensure negb (sp_failed c) else () ;;; sr_ret None) in
       let* l := ask_all ms in sr_ret (a :: l)) c = (c', Ok out')) as Hshow.
  { intros style text c1. rewrite !sr_bind_eq. cbn. fold c1.
    destruct (sp_failed c1) eqn:H1; cbn; [|by apply Hstep]. split.
    - intros [HC Hf]. apply converse_from_sticky in HC; congruence.
    - by intros (? & _ & ?). }
  cbn [converse_from ask_all ask]. destruct m as [[style [text|]]|].
  2-3: split; [by intros [? _]|by intros (? & _ & ?)].
  unfold ask. destruct (conversation_action style).
  - rewrite !sr_bind_eq. destruct (prompt_blind text c) as [c1 [a|]] eqn:Hp.
    + apply Hstep. apply prompt_blind_failed in Hp. congruence.
    + split; [by intros [? _]|by intros (? & _ & ?)].
  - rewrite !sr_bind_eq. destruct (prompt_echo text c) as [c1 [a|]] eqn:Hp.
    + apply Hstep. apply prompt_echo_failed in Hp. congruence.
    + split; [by intros [? _]|by intros (? & _ & ?)].
  - apply Hshow.
  - apply Hshow.
  - split; [by intros [? _]|by intros (? & _ & ?)].
Qed.
End ConverseFacts.

Lemma converse_agrees {D} `{PamConversationDriver D} (call : ConverseCall)
    (messages : list (option PamMessage)) (c c' : SilentPasswordConversation D)
    (out : list (option string)) :
  cc_messages call = Some messages → cc_count call = Z.of_nat (length messages) →
  cc_responses_given call = true → cc_data_given call = true →
  converse true (λ _, true) call c = (c', mkConverseResult PamSuccess (Some out) []) ↔
  sp_failed c = false ∧ ask_all messages c = (c', Ok out).
Proof.
  intros Hm Hn Hr Hd. unfold converse. rewrite Hm, Hn, Hr, Hd. cbn.
  destruct (Z.ltb_spec (Z.of_nat (length messages)) 0); [lia|]. cbn.
  rewrite Nat2Z.id, take_ge by done.
  pose proof (converse_from_exact [] messages c) as HX.
  destruct (converse_from _ [] messages c) as [c1 [given|r]] eqn:HC.
  - destruct (sp_failed c) eqn:Hc.
    { rewrite (converse_from_sticky _ _ _ _ _ HC Hc). split; [by intros [=]|by intros [? _]]. }
    specialize (HX c' out eq_refl). cbn in HX. split.
    + destruct (sp_failed c1) eqn:Hf; [by intros [=]|]. intros [= <- <-].
      split; [done|]. destruct (proj1 HX) as (? & -> & ?); done.
    + intros [_ HA]. by destruct (proj2 HX) as [[= <- <-] ->]; [eexists|].
  - pose proof (converse_from_code _ _ _ _ _ HC) as Hr'. split.
    + intros [= _ ->]. done.
    + intros [Hc HA]. destruct (HX c' out Hc) as [_ HX'].
      destruct HX' as [? _]; [by eexists|done].
Qed.

(** C25. The PAM callback succeeds precisely when the strict conversation does:
    it keeps going after a message that was only shown and not confirmed and
    looks at a flag at the end, but it hands [libpam] an array exactly when
    nothing failed before or during the call, and then the array has one entry
    per message, the driver's answer to each question and nothing for the
    messages that are only shown.  [libpam] is assumed to pass its three
    pointers and the number of messages, and the allocations to succeed. *)
Theorem converse_exact {D} `{PamConversationDriver D} (call : ConverseCall)
    (messages : list (option PamMessage)) (c c' : SilentPasswordConversation D)
    (out : list (option string)) :
  cc_messages call = Some messages → cc_count call = Z.of_nat (length messages) →
  cc_responses_given call = true → cc_data_given call = true →
  converse true (λ _, true) call c = (c', mkConverseResult PamSuccess (Some out) []) ↔
  sp_failed c = false ∧ ask_all messages c = (c', Ok out).
Proof. apply converse_agrees. Qed.
