(* ===== verification/PamDialogue.v ===== *)
(** * The dialogue between PAM and the greeter

    The driver of a worker ([WorkerPam]), the relay of the launcher
    ([Conversation]) and the greeter's transport
    ([SocketPamConversation::round_trip] of
    [niralisd/src/server/client_protocol.rs]) put together, and what they
    promise as a whole: a dialogue that asks one question at a time and is
    over at the first failure. *)

From stdpp Require Import base gmap sets list strings.
From Stdlib Require Import ZArith Lia.
From S2P Require Import Prelude Text DirFs RecoveryTypes LedgerTaxonomy Ledger.
From S2P Require Import PreviousBoot PreCommit SameBoot Admission Protocol.
From S2P Require Import Conversation Login Daemon Client WorkerRecord.
From S2P Require Import Supervisor Launch WorkerPam.
#[local] Open Scope niralis_scope.

(** ** The transport of a connection *)

Record SocketPamConversation := mkSocketPam {
  sc_connection_id : string;
  sc_connection_epoch : Z;
  sc_seat : string;
}.
Definition as_session_error {A} (e : SessionError) (m : SO A) : SR Socket SessionError A :=
  sr_map_err (λ _, e) m.

Definition round_trip `{SerdeJson PamPromptEnvelope} `{SerdeJson PamPromptResponse}
    `{SerdeJson PamPromptResponseEnvelope} (c : SocketPamConversation)
    (prompt : PamPromptEnvelope) : SR Socket SessionError PamPromptResponseEnvelope :=
  let* encoded := sr_lift (ok_or (serde_to_vec prompt) WorkerProtocolFailed) in
  ensure str_len encoded <=? MAX_GREETER_FRAME_BYTES else WorkerProtocolFailed ;;;
  as_session_error WorkerIoFailed (write_line encoded) ;;;
  let* frame := as_session_error WorkerIoFailed socket_read_frame in
  let* response := sr_lift (ok_or (serde_from_slice frame) WorkerProtocolFailed) in
  sr_lift (map_err (λ _, WorkerProtocolFailed) (response_validate_shape response)) ;;;
  ensure str_eqb (rp_connection_id response) (sc_connection_id c)
         && (rp_connection_epoch response =? sc_connection_epoch c)
         && str_eqb (rp_seat response) (sc_seat c)
    else WorkerProtocolFailed ;;;
  sr_ret response.

(** ** The launcher, seen from the worker *)

Section Dialogue.
Context `{SerdeJson PamPromptResponse}.
(** The greeter: its state, the clock it is seen by, the answer to a prompt
    and whether the answer can be written to the worker. *)
Context {G : Type} (clock : G → Z).
Context (greeter : PamPromptEnvelope → SR G SessionError PamPromptResponseEnvelope).
Context (written : G → result () SessionError).
Context (worker_id : string) (worker_pid generation attempt_id : Z).

(** The launch waits for the worker until a prompt of it is refused. *)
Record Launcher := mkLauncher {
  lc_open : bool;
  lc_relay : PamRelay;
  lc_greeter : G;
}.

(** The checks before the greeter is asked. *)
Definition checked_prompt (id : string) (pid : Z) (transaction : WorkerTransactionIdentity)
    (p : PamPromptEnvelope) (now : Z) : PR () :=
  ensure str_eqb id worker_id && (pid =? worker_pid) && is_ok (prompt_validate_shape p)
         && valid_transaction transaction worker_id generation attempt_id "reserved"
    else WorkerProtocolFailed ;;;
  with_authority (accept_wire_prompt now p).

(** The envelope [send_supervisor_control_request] writes. *)
Definition control_response (x : ControlTransactionIdentity * PamPromptResponseEnvelope)
    : WorkerControlEnvelope :=
  mkControlEnvelope WORKER_CONTROL_PROTOCOL_VERSION
    (WcPamPromptResponse x.1 worker_id worker_pid x.2).

Definition launcher_turn (message : WorkerResponse) : SR Launcher () WorkerControlEnvelope := λ s,
  match lc_open s, message with
  | true, WrPamPrompt id pid transaction p =>
      let now := clock (lc_greeter s) in
      match checked_prompt id pid transaction p now (lc_relay s) with
      | (r, Err _) => (mkLauncher false r (lc_greeter s), Err ())
      | (_, Ok _) =>
          let '(g, answer) := greeter p (lc_greeter s) in
          match forward_pam_prompt worker_id worker_pid generation attempt_id
                  (mkPromptEvent id pid transaction p (Some answer) now (clock g) (written g))
                  (lc_relay s) with
          | (r, Err _) => (mkLauncher false r g, Err ())
          | (r, Ok _) =>
              (mkLauncher true r g, ok_or (control_response <$> last (rl_sent r)) ())
          end
      end
  | _, _ => (mkLauncher false (lc_relay s) (lc_greeter s), Err ())
  end.

(** The driver of the worker, over the launcher. *)
Definition dialogue_respond (style : PamMessageStyle) (message : string)
    : SR (WorkerPamConversationDriver * Launcher) () PamPromptResponse :=
  worker_respond launcher_turn style message.

(** ** What the dialogue promises *)

Record Dialogue := mkDialogue {
  dg_open : bool;
  dg_asked : Z;
  dg_greeter : G;
}.
Definition sayable (message : string) : bool :=
  speakable message && negb (str_contains_byte NUL message).

(** An answer that reaches PAM: given in time, to this very prompt. *)
Definition accepted (deadline : Z) (p : PamPromptEnvelope) (g : G)
    (answer : result PamPromptResponseEnvelope SessionError) : option PamPromptResponse :=
  match answer with
  | Ok r => if echoes r p && is_ok (response_validate_shape r) && (clock g <? deadline)
               && is_ok (written g)
            then Some (rp_response r) else None
  | Err _ => None
  end.

(** The question is put to the greeter as prompt number [dg_asked + 1] while
    the dialogue is open and in time; anything but an accepted answer ends it. *)
Definition dialogue_ask (d : WorkerPamConversationDriver) (deadline : Z)
    (style : PamMessageStyle) (message : string) : SR Dialogue () PamPromptResponse := λ s,
  let n := dg_asked s + 1 in
  let closed g := mkDialogue false n g in
  if negb (dg_open s && (n <? 2 ^ 64) && sayable message && (clock (dg_greeter s) <? deadline))
  then (closed (dg_greeter s), Err ())
  else
    let p := prompt_of (pd_with n n d) style message in
    let '(g, answer) := greeter p (dg_greeter s) in
    match accepted deadline p g answer with
    | Some r => (mkDialogue true n g, Ok r)
    | None => (closed g, Err ())
    end.

(** Every question of a run, with its outcome. *)
Fixpoint questions {S : Type} (respond : PamMessageStyle → string → SR S () PamPromptResponse)
    (asked : list (PamMessageStyle * string)) (s : S) : list (result PamPromptResponse ()) :=
  match asked with
  | [] => []
  | (style, message) :: rest =>
      let '(s, r) := respond style message s in r :: questions respond rest s
  end.
End Dialogue.

(** ** The driver, case by case *)

Lemma worker_respond_cases `{SerdeJson PamPromptResponse} {P}
    (peer : WorkerResponse → SR P () WorkerControlEnvelope) style message d p :
  worker_respond peer style message (d, p) =
  match u64_checked_add (pd_prompt_id d) 1, u64_checked_add (pd_sequence d) 1 with
  | None, _ => ((d, p), Err ())
  | Some i, None => ((pd_with i (pd_sequence d) d, p), Err ())
  | Some i, Some n =>
      let d := pd_with i n d in
      if speakable message then
        let '(p, e) := peer (WrPamPrompt (pd_worker_id d) (pd_worker_pid d)
                               (pd_transaction d) (prompt_of d style message)) p in
        ((d, p), match e with
                 | Ok e => match answers_prompt d style e with
                           | Some r => if is_ok (response_validate_shape r)
                                       then Ok (rp_response r) else Err ()
                           | None => Err ()
                           end
                 | Err _ => Err ()
                 end)
      else ((d, p), Err ())
  end.
Proof.
  unfold worker_respond, on_driver, count_prompt, count_sequence, sr_zoom, sr_bind. cbn.
  destruct (u64_checked_add (pd_prompt_id d) 1) as [i|]; cbn; [|done].
  destruct (u64_checked_add (pd_sequence d) 1) as [n|]; cbn; [|done].
  destruct (speakable message); cbn; [|done].
  destruct (peer _ p) as [p' [e|[]]]; cbn; [|done].
  destruct (answers_prompt _ style e) as [r|]; cbn; [|done].
  by destruct (response_validate_shape r) as [[]|].
Qed.

Section DialogueFacts.
Context `{SerdeJson PamPromptResponse}.
Context {G : Type} (clock : G → Z).
Context (greeter : PamPromptEnvelope → SR G SessionError PamPromptResponseEnvelope).
Context (written : G → result () SessionError).
Context (worker_id : string) (worker_pid generation attempt_id : Z).
Abbreviation turn := (launcher_turn clock greeter written worker_id worker_pid generation attempt_id).
Abbreviation forward := (forward_pam_prompt worker_id worker_pid generation attempt_id).
Abbreviation vetted := (checked_prompt worker_id worker_pid generation attempt_id).

(** What the driver of a worker and the authority of its launch agree on. *)
Record bound (a : PamConversationAuthority) (d : WorkerPamConversationDriver) : Prop := {
  bd_prompt : ∀ i n style message,
    names_conversation a (prompt_of (pd_with i n d) style message);
  bd_worker : pd_worker_id d = worker_id ∧ pd_worker_pid d = worker_pid;
  bd_transaction : valid_transaction (pd_transaction d) worker_id generation attempt_id
    "reserved" = true;
  bd_shape : ∀ n style message, 0 < n → sayable message = true →
    prompt_validate_shape (prompt_of (pd_with n n d) style message) = Ok ();
}.
Lemma bound_same a a' d : same_conversation a a' → bound a d → bound a' d.
Proof.
  intros Hs [Hp Hw Ht Hsh]. constructor; [|done..]. intros i n style message.
  specialize (Hp i n style message). unfold names_conversation, same_conversation in *.
  destruct a, a'. cbn in *. by injection Hs as -> -> -> -> -> -> -> -> -> -> ->.
Qed.

(** The launcher refuses a prompt that is malformed, out of order or late, and
    the greeter does not see it. *)
Lemma turn_refused a id pid transaction p l :
  rl_authority (lc_relay l) = Some a →
  is_ok (prompt_validate_shape p) = false ∨ pp_sequence p ≠ ca_next_sequence a ∨
    ca_deadline a ≤ clock (lc_greeter l) →
  ∃ r, turn (WrPamPrompt id pid transaction p) l = (mkLauncher false r (lc_greeter l), Err ()).
Proof.
  intros Ha Hs. unfold launcher_turn. destruct (lc_open l); [|by eexists].
  assert (is_ok (vetted id pid transaction p (clock (lc_greeter l)) (lc_relay l)).2 = false) as HA.
  { unfold checked_prompt. rewrite sr_bind_eq.
    destruct (is_ok (prompt_validate_shape p)); [|by rewrite andb_false_r].
    destruct Hs as [?|Hs]; [done|]. destruct (_ && _); [|done]. cbn.
    unfold with_authority. rewrite Ha. unfold accept_wire_prompt.
    destruct (ca_consumed a || _) eqn:Hc; [done|]. bool_facts. destruct Hs as [Hs|]; [|lia].
    rewrite (proj2 (Z.eqb_neq _ _) Hs). cbn. by rewrite !orb_true_r. }
  destruct (vetted _ _ _ _ _ _) as [r [[]|]]; [done|]. by eexists.
Qed.

(** A dialogue that is over: the launch ended, the numbers ran out, or the
    driver is ahead of the launcher. *)
Definition over (x : WorkerPamConversationDriver * Launcher (G:=G)) : Prop :=
  lc_open x.2 = false ∨ pd_prompt_id x.1 = 2 ^ 64 - 1 ∨
  ∃ a, rl_authority (lc_relay x.2) = Some a ∧ ca_next_sequence a ≤ pd_sequence x.1.

Lemma over_stays style message x :
  over x →
  let '(x', r) := worker_respond turn style message x in over x' ∧ r = Err ().
Proof.
  destruct x as [d l]. intros Ho. rewrite worker_respond_cases.
  destruct (u64_checked_add (pd_prompt_id d) 1) as [i|] eqn:Hi; [|done].
  apply u64_checked_add_Some in Hi as [-> Hi].
  destruct Ho as [Hl|[Hm|(a & Ha & Hs)]]; cbn in *.
  - destruct (u64_checked_add (pd_sequence d) 1); [|by split; [left|]].
    destruct (speakable message); [|by split; [left|]]. unfold launcher_turn. rewrite Hl.
    by split; [left|].
  - unfold u64_max in Hi. lia.
  - destruct (u64_checked_add (pd_sequence d) 1) as [n|] eqn:Hn.
    2: { split; [|done]. right; right. by exists a. }
    apply u64_checked_add_Some in Hn as [-> Hn]. destruct (speakable message).
    2: { split; [|done]. right; right. exists a. cbn. split; [done|lia]. }
    edestruct turn_refused as [r ->]; [exact Ha|right; left; cbn; lia|]. by split; [left|].
Qed.

(** A launcher that waits for prompt number [n]. *)
Record waiting (a : PamConversationAuthority) (n : Z) (l : Launcher (G:=G)) : Prop := {
  wa_open : lc_open l = true;
  wa_authority : rl_authority (lc_relay l) = Some a;
  wa_live : ca_consumed a = false;
  wa_idle : ca_pending a = None;
  wa_next : ca_next_sequence a = u64_wrapping_add n 1;
}.

(** A prompt that is admitted, up to the greeter's answer. *)
Lemma forward_admitted (e : PromptEvent) a s answer :
  rl_authority s = Some a → ca_consumed a = false → ca_pending a = None →
  pe_now_prompt e < ca_deadline a → pe_worker_id e = worker_id → pe_worker_pid e = worker_pid →
  valid_transaction (pe_transaction e) worker_id generation attempt_id "reserved" = true →
  prompt_validate_shape (pe_prompt e) = Ok () → names_conversation a (pe_prompt e) →
  pp_sequence (pe_prompt e) = ca_next_sequence a → pe_answer e = Some answer →
  let '(s', r) := forward e s in
  match answer with
  | Ok resp =>
      if echoes resp (pe_prompt e) && is_ok (response_validate_shape resp)
         && (pe_now_response e <? ca_deadline a) && is_ok (pe_written e)
      then s' = mkRelay (Some (ca_with (u64_wrapping_add (ca_next_sequence a) 1) false None a))
                  (rl_sent s ++ [(from_worker (pe_transaction e) "pam_prompt_response"
                                    (ca_next_sequence a), resp)]) ∧ r = Ok ()
      else is_ok r = false
  | Err _ => is_ok r = false
  end.
Proof.
  intros Ha Hc Hp Hd1 Hw Hpid Hv Hsh Hask Hseq Hans.
  destruct (forward e s) as [s' r] eqn:HF. revert HF.
  unfold forward_pam_prompt. rewrite sr_bind_eq, Hw, Hpid, Hsh, Hv, str_eqb_refl, Z.eqb_refl.
  cbn. rewrite Hans. cbn. rewrite sr_bind_eq.
  rewrite (with_authority_Some _ _ _ _ _ Ha
             (accept_wire_prompt_next _ _ _ Hc Hp Hd1 Hask Hseq Hsh)). cbn.
  destruct answer as [resp|]; [|by intros [= <- <-]]. cbn.
  destruct (echoes resp (pe_prompt e)) eqn:He; cbn; [|by intros [= <- <-]].
  destruct (response_validate_shape resp) as [[]|] eqn:Hr; cbn; [|by intros [= <- <-]].
  rewrite sr_bind_eq.
  destruct (Z.ltb_spec (pe_now_response e) (ca_deadline a)) as [Hd2|Hd2].
  - erewrite (with_authority_Some _ (mkRelay (Some (ca_with _ _ _ a)) (rl_sent s)));
      [|reflexivity|by apply (accept_wire_response_echo _ _ (pe_prompt e))].
    cbn. rewrite Hseq. destruct (pe_written e) as [[]|]; by intros [= <- <-].
  - unfold with_authority, accept_wire_response. cbn.
    rewrite (proj2 (Z.leb_le _ _) Hd2). cbn. by intros [= <- <-].
Qed.

(** The next prompt, put to a launcher that waits for it. *)
Lemma turn_open a d n style message l :
  bound a d → waiting a n l → 0 ≤ n < u64_max → sayable message = true →
  clock (lc_greeter l) < ca_deadline a →
  let d := pd_with (n + 1) (n + 1) d in
  let p := prompt_of d style message in
  let '(g, answer) := greeter p (lc_greeter l) in
  let '(l', e) := turn (WrPamPrompt (pd_worker_id d) (pd_worker_pid d) (pd_transaction d) p) l in
  match accepted clock written (ca_deadline a) p g answer with
  | Some resp =>
      waiting (ca_with (u64_wrapping_add (n + 1) 1) false None a) (n + 1) l' ∧
      lc_greeter l' = g ∧
      ∃ r, rp_response r = resp ∧ echoes r p = true ∧ response_validate_shape r = Ok () ∧
        e = Ok (control_response worker_id worker_pid
                  (from_worker (pd_transaction d) "pam_prompt_response" (n + 1), r))
  | None => lc_open l' = false ∧ e = Err ()
  end.
Proof.
  intros [Hb [Hw Hpid] Ht Hsh] [Hl Ha Hc Hi Hn] Hr Hs Ht0 d' p.
  assert (ca_next_sequence a = n + 1) as Hn'. { rewrite Hn. apply u64_wrapping_add_small. lia. }
  assert (prompt_validate_shape p = Ok ()) as Hp by (apply Hsh; [lia|done]).
  assert (pp_sequence p = ca_next_sequence a) as Hq by done.
  specialize (Hb (n + 1) (n + 1) style message). fold d' p in Hb.
  destruct (greeter p (lc_greeter l)) as [g answer] eqn:HG.
  unfold launcher_turn. rewrite Hl.
  assert (vetted (pd_worker_id d') (pd_worker_pid d') (pd_transaction d') p
            (clock (lc_greeter l)) (lc_relay l) =
          (mkRelay (Some (ca_with (u64_wrapping_add (ca_next_sequence a) 1) false
             (Some (pp_prompt_id p, pp_style p, pp_sequence p)) a)) (rl_sent (lc_relay l)), Ok ()))
    as ->.
  { unfold checked_prompt. cbn [pd_worker_id pd_worker_pid pd_transaction pd_with d'].
    rewrite Hw, Hpid, Hp, Ht, str_eqb_refl, Z.eqb_refl, sr_bind_eq. cbn -[accept_wire_prompt p].
    by rewrite (with_authority_Some _ _ _ _ _ Ha
                  (accept_wire_prompt_next _ _ _ Hc Hi Ht0 Hb Hq Hp)). }
  rewrite HG. cbn -[forward_pam_prompt p d'].
  match goal with |- context [forward ?e ?s] =>
    pose proof (forward_admitted e a s answer Ha Hc Hi Ht0 Hw Hpid Ht Hp Hb Hq eq_refl) as HF;
    destruct (forward e s) as [s' v]
  end. cbn -[p d'] in HF. unfold accepted. destruct answer as [resp|].
  2: { by destruct v. }
  destruct (_ && _ && _ && _) eqn:Hg.
  - destruct HF as [-> ->]. cbn -[p d']. rewrite Hn', last_snoc. cbn -[p d'].
    split; [by constructor|]. split; [done|]. exists resp. bool_facts.
    split; [done|]. split; [done|]. by destruct (response_validate_shape resp) as [[]|].
  - by destruct v.
Qed.

(** The worker takes the answer the launcher sends. *)
Lemma answer_taken d style message r :
  pd_worker_id d = worker_id → pd_worker_pid d = worker_pid →
  echoes r (prompt_of d style message) = true →
  answers_prompt d style (control_response worker_id worker_pid
    (from_worker (pd_transaction d) "pam_prompt_response" (pd_sequence d), r)) = Some r.
Proof.
  intros <- <-. unfold echoes, answers_prompt, matches_worker, from_worker. cbn. intros He.
  bool_facts. repeat match goal with E : rp_style r = _ |- _ => rewrite E; clear E
    | E : _ r = _ |- _ => rewrite E; clear E end.
  rewrite !str_eqb_refl, !Z.eqb_refl, bool_decide_eq_true_2 by done. done.
Qed.

Definition related (a0 : PamConversationAuthority) (d0 : WorkerPamConversationDriver)
    (x : WorkerPamConversationDriver * Launcher (G:=G)) (s : Dialogue (G:=G)) : Prop :=
  if dg_open s then
    ∃ a, same_conversation a0 a ∧ waiting a (dg_asked s) x.2 ∧
      x.1 = pd_with (dg_asked s) (dg_asked s) d0 ∧ 0 ≤ dg_asked s ≤ u64_max ∧
      lc_greeter x.2 = dg_greeter s
  else over x.

Lemma dialogue_step a0 d0 style message x s :
  bound a0 d0 → related a0 d0 x s →
  let '(x', r) := worker_respond turn style message x in
  let '(s', r') := dialogue_ask clock greeter written d0 (ca_deadline a0) style message s in
  r = r' ∧ related a0 d0 x' s'.
Proof.
  intros Hb. unfold related at 1, dialogue_ask. destruct (dg_open s) eqn:Ho; cbn [andb negb].
  2: { intros Hv. pose proof (over_stays style message x Hv) as HX.
       destruct (worker_respond _ _ _ x) as [x' r]. destruct HX as [HX ->]. by split. }
  destruct x as [d l]. cbn [fst snd]. intros (a & Hs & Hw & -> & Hn & Hg).
  pose proof (bound_same _ _ _ Hs Hb) as Ha.
  assert (ca_deadline a0 = ca_deadline a) as Hd by (destruct a0, a; by injection Hs).
  rewrite worker_respond_cases. cbn [pd_prompt_id pd_sequence pd_with].
  destruct (Z.ltb_spec (dg_asked s + 1) (2 ^ 64)) as [Hm|Hm].
  2: { destruct (u64_checked_add _ 1) eqn:HC.
       { apply u64_checked_add_Some in HC as [_ ?]. unfold u64_max in *. lia. }
       split; [done|]. right; left. cbn. unfold u64_max in *. lia. }
  rewrite (proj2 (u64_checked_add_Some (dg_asked s) 1 _)
             (conj eq_refl (ltac:(unfold u64_max; lia) : dg_asked s + 1 ≤ u64_max))).
  cbn zeta. cbn [andb].
  assert (ca_next_sequence a = dg_asked s + 1) as Hq.
  { rewrite (wa_next _ _ _ Hw). apply u64_wrapping_add_small. unfold u64_max. lia. }
  unfold sayable. destruct (speakable message) eqn:Hp; cbn [andb negb].
  2: { split; [done|]. right; right. exists a. cbn. split; [apply Hw|lia]. }
  match goal with |- context [turn ?m l] => set (msg := m) end.
  assert (∀ n, str_contains_byte NUL message = true →
    is_ok (prompt_validate_shape (prompt_of (pd_with n n d0) style message)) = false) as Hnul.
  { intros n HN. unfold prompt_validate_shape. cbn [pp_message prompt_of].
    by rewrite HN, !orb_true_r. }
  destruct (str_contains_byte NUL message) eqn:HN; cbn [andb negb];
    [|rewrite Hd, <- Hg; destruct (Z.ltb_spec (clock (lc_greeter l)) (ca_deadline a)) as [Ht|Ht];
      cbn [negb]].
  - subst msg. edestruct (turn_refused a) as [r ->]; [apply Hw|left; by apply Hnul|]. by split; [|left].
  - assert (sayable message = true) as Hy by (unfold sayable; by rewrite Hp, HN).
    pose proof (turn_open a d0 (dg_asked s) style message l Ha Hw ltac:(unfold u64_max; lia)
      Hy Ht) as HT. cbn zeta in HT.
    destruct (greeter _ (lc_greeter l)) as [g answer].
    match type of HT with context [turn ?m l] => change m with msg in HT end. change (pd_with _ _ (pd_with _ _ d0)) with
      (pd_with (dg_asked s + 1) (dg_asked s + 1) d0).
    destruct (turn msg l) as [l' e]. cbn zeta.
    destruct (accepted _ _ _ _ g answer) as [resp|].
    + destruct HT as (HW & HG & r & <- & He & Hr & ->).
      destruct (bd_worker _ _ Ha) as [Hw1 Hw2].
      rewrite (answer_taken (pd_with (dg_asked s + 1) (dg_asked s + 1) d0) _ message) by done.
      rewrite Hr. split; [done|]. eexists. split; [|split; [exact HW|]].
      * etransitivity; [exact Hs|]. apply same_conversation_with.
      * split; [done|]. cbn. unfold u64_max. split; [lia|done].
    + destruct HT as [? ->]. by split; [|left].
  - subst msg. edestruct (turn_refused a) as [r ->]; [apply Hw|by right; right|]. by split; [|left].
Qed.

Lemma dialogue_run a0 d0 asked x s :
  bound a0 d0 → related a0 d0 x s →
  questions (worker_respond turn) asked x =
  questions (dialogue_ask clock greeter written d0 (ca_deadline a0)) asked s.
Proof.
  intros Hb. revert x s. induction asked as [|[style message] rest IH]; intros x s HR; [done|].
  cbn. pose proof (dialogue_step a0 d0 style message x s Hb HR) as HS.
  destruct (worker_respond _ _ _ x) as [x' r], (dialogue_ask _ _ _ _ _ _ _ s) as [s' r'].
  destruct HS as [-> HR']. by rewrite (IH _ _ HR').
Qed.
End DialogueFacts.

(** ** The dialogue of a login *)

(** The launch checks the identity the worker reports; the worker builds its
    driver from it and from the request's binding. *)
Definition login_driver (b : LoginRequestBinding) (t : WorkerTransactionIdentity)
    (worker_id : string) (worker_pid : Z) : WorkerPamConversationDriver :=
  driver_new b ("pam-" +:+ wt_lifecycle_id t) t worker_id worker_pid.
Definition login_authority (lease : AdmissionLease) (b : LoginRequestBinding)
    (worker_pid : Z) (session : string) (deadline : Z) : option PamConversationAuthority :=
  issue_conversation (mkChannel (al_lifecycle_id lease) worker_pid)
    (from_admission lease (from_binding b (al_lifecycle_id lease)) session deadline).

Section LoginDialogue.
Context `{SerdeJson PamPromptResponse}.
Context {G : Type} (clock : G → Z).
Context (greeter : PamPromptEnvelope → SR G SessionError PamPromptResponseEnvelope).
Context (written : G → result () SessionError).
Context (lease : AdmissionLease) (b : LoginRequestBinding) (t : WorkerTransactionIdentity).
Context (worker_pid : Z) (session : string) (deadline : Z) (a0 : PamConversationAuthority).
Let worker_id := al_lifecycle_id lease.
Let d0 := login_driver b t worker_id worker_pid.

Hypothesis issued : login_authority lease b worker_pid session deadline = Some a0.
Hypothesis reported : valid_transaction t worker_id (al_generation lease) (al_attempt_id lease)
  "reserved" = true.

(** The questions of PAM in the dialogue of this login. *)
Definition login_questions (asked : list (PamMessageStyle * string)) (g : G)
    : list (result PamPromptResponse ()) :=
  questions (dialogue_respond clock greeter written worker_id worker_pid
               (al_generation lease) (al_attempt_id lease)) asked
    (d0, mkLauncher true (mkRelay (Some a0) []) g).

Lemma issued_cases :
  a0 = mkAuthority worker_id (al_attempt_id lease) worker_id (al_seat lease)
         (al_generation lease) (lb_connection_id b) (lb_connection_epoch b) (lb_request_id b)
         worker_id ("pam-" +:+ worker_id) 1 deadline false None ∧
  worker_id ≠ EmptyString ∧ al_seat lease ≠ EmptyString ∧ lb_connection_epoch b ≠ 0 ∧
  lb_request_id b ≠ 0.
Proof.
  pose proof issued as HI. unfold login_authority, issue_conversation, issue in HI.
  cbn -[String.append] in HI. destruct (_ || _) eqn:Hg in HI; [done|]. injection HI as <-.
  bool_facts. done.
Qed.

Lemma login_bound :
  lb_seat b = al_seat lease →
  bound worker_id worker_pid (al_generation lease) (al_attempt_id lease) a0 d0.
Proof.
  intros Hseat. destruct issued_cases as (-> & Hw & Hs & He & Hr).
  pose proof reported as Ht. unfold valid_transaction in Ht. bool_facts.
  constructor; [|done|exact reported|].
  - intros i n style message. unfold names_conversation. cbn -[String.append].
    split_and!; try done. by f_equal.
  - intros n style message Hn Hm. unfold sayable, speakable in Hm. bool_facts.
    unfold prompt_validate_shape. cbn -[String.append].
    match goal with |- (if ?g then _ else _) = _ => destruct g eqn:HG end; [|done].
    exfalso. apply Is_true_true in HG. rewrite !orb_True, !Is_true_true in HG.
    rewrite !negb_true_iff, !str_eqb_false, !str_is_empty_true, !Z.eqb_eq, !Z.eqb_neq,
      !Z.ltb_lt in HG.
    unfold MAX_GREETER_PAYLOAD_BYTES, str_contains_byte in *.
    destruct_or!; congruence || lia || done.
Qed.

Lemma pam_dialogue_agrees asked g :
  lb_seat b = al_seat lease →
  login_questions asked g =
  questions (dialogue_ask clock greeter written d0 deadline) asked (mkDialogue true 0 g).
Proof.
  intros Hseat. pose proof (login_bound Hseat) as Hb. destruct issued_cases as (Ha & _).
  assert (deadline = ca_deadline a0) as -> by (by rewrite Ha).
  unfold login_questions, dialogue_respond.
  eapply dialogue_run; [exact Hb|]. exists a0. split; [done|].
  split; [rewrite Ha; by constructor|]. unfold u64_max. by split_and!.
Qed.

(** The launch has no authority, or the worker is bound to a seat that is not
    the authority's. *)
Definition foreign (x : WorkerPamConversationDriver * Launcher (G:=G)) : Prop :=
  pd_binding x.1 = b ∧
  (lc_open x.2 = false ∨ rl_authority (lc_relay x.2) = None ∨
   ∃ a, rl_authority (lc_relay x.2) = Some a ∧ lb_seat b ≠ ca_seat a).
Lemma foreign_stays style message x :
  foreign x →
  let '(x', r) := worker_respond (launcher_turn clock greeter written worker_id worker_pid
    (al_generation lease) (al_attempt_id lease)) style message x in
  foreign x' ∧ r = Err ().
Proof.
  destruct x as [d l]. unfold foreign. cbn [fst snd]. intros [Hb Hl].
  rewrite worker_respond_cases.
  destruct (u64_checked_add (pd_prompt_id d) 1) as [i|]; [|done].
  destruct (u64_checked_add (pd_sequence d) 1) as [n|]; [|done].
  cbn zeta. destruct (speakable message); [|done]. unfold launcher_turn.
  destruct Hl as [Hl|Hl]; [rewrite Hl; by repeat split; auto|].
  destruct (lc_open l); [|by repeat split; auto].
  match goal with |- context [checked_prompt ?w ?p ?g ?t ?id ?pid ?tr ?pr ?now ?s] =>
    assert (is_ok (checked_prompt w p g t id pid tr pr now s).2 = false) as HA;
    [|destruct (checked_prompt w p g t id pid tr pr now s) as [r [[]|]]; [done|];
      by repeat split; auto] end.
  unfold checked_prompt. rewrite sr_bind_eq. destruct (_ && _); [|done]. cbn.
  unfold with_authority. destruct Hl as [->|(a & -> & Hs)]; [done|]. unfold accept_wire_prompt.
  destruct (ca_consumed a || _); [done|]. cbn [pp_seat prompt_of pd_binding pd_with].
  rewrite Hb, (proj2 (str_eqb_false _ _) Hs). cbn. by rewrite !orb_true_r.
Qed.

Lemma foreign_run asked x :
  foreign x →
  questions (dialogue_respond clock greeter written worker_id worker_pid
               (al_generation lease) (al_attempt_id lease)) asked x =
  replicate (length asked) (Err ()).
Proof.
  revert x. induction asked as [|[style message] rest IH]; intros x Hx; [done|]. cbn.
  unfold dialogue_respond in *. pose proof (foreign_stays style message x Hx) as HS.
  destruct (worker_respond _ _ _ x) as [x' r]. destruct HS as [HS ->]. f_equal. by apply IH.
Qed.

Lemma foreign_seat asked g :
  lb_seat b ≠ al_seat lease →
  login_questions asked g = replicate (length asked) (Err ()).
Proof.
  intros Hseat. destruct issued_cases as (Ha & _). apply foreign_run.
  split; [done|]. right. right. exists a0. rewrite Ha. by split.
Qed.
(** A login on a connection whose seat is not the seat of the lease: no
    question of PAM reaches the greeter, and none is answered. *)
Theorem foreign_seat_is_never_asked asked g :
  lb_seat b ≠ al_seat lease →
  login_questions asked g = replicate (length asked) (Err ()).
Proof. apply foreign_seat. Qed.
End LoginDialogue.

(** A dialogue that is over answers nothing. *)
Lemma over_run {G} (clock : G → Z)
    (greeter : PamPromptEnvelope → SR G SessionError PamPromptResponseEnvelope)
    (written : G → result () SessionError) `{SerdeJson PamPromptResponse} d deadline asked s :
  dg_open s = false →
  questions (dialogue_ask clock greeter written d deadline) asked s =
  replicate (length asked) (Err ()).
Proof.
  revert s. induction asked as [|[style message] rest IH]; intros s Ho; [done|]. cbn.
  unfold dialogue_ask at 1. rewrite Ho. cbn. f_equal. by apply IH.
Qed.

(** ** The dialogue over a connection *)

(** The identity the launch sends to the worker. *)
Definition launch_identity (lease : AdmissionLease) : WorkerTransactionIdentity :=
  mkWorkerTransaction (al_lifecycle_id lease) (al_attempt_id lease) (al_lifecycle_id lease)
    "seat0" (al_generation lease) "reserved".
Lemma launch_identity_valid lease :
  valid_transaction (launch_identity lease) (al_lifecycle_id lease) (al_generation lease)
    (al_attempt_id lease) "reserved" = true.
Proof. unfold valid_transaction, launch_identity. cbn. by rewrite !str_eqb_refl, !Z.eqb_refl. Qed.
(** The transport of the connection a login came in on. *)
Definition connection_transport (b : LoginRequestBinding) : SocketPamConversation :=
  mkSocketPam (lb_connection_id b) (lb_connection_epoch b) (lb_seat b).
(** The greeter behind that transport: its socket, with every byte it will have
    sent and every fault of writing to it, and the number of prompts so far, by
    which the clock and the control channel may behave differently each time. *)
Definition socket_greeter `{SerdeJson PamPromptEnvelope} `{SerdeJson PamPromptResponse}
    `{SerdeJson PamPromptResponseEnvelope} (c : SocketPamConversation) (p : PamPromptEnvelope)
    : SR (Socket * nat) SessionError PamPromptResponseEnvelope := λ x,
  let '(socket, r) := round_trip c p x.1 in ((socket, S x.2), r).

(** C23. The driver of a worker, the relay of the launch and the transport of
    the greeter's connection together are one dialogue: for every lease,
    connection, list of questions of PAM, sequence of bytes and write faults of
    the connection, clock and control channel, every question has the outcome
    the abstract dialogue gives it.  The dialogue is open from the start exactly
    when the launch could issue an authority and the connection's seat is the
    lease's; on any other login no question reaches the greeter and none is
    answered.  While it is open, a question is put to the greeter as the prompt
    with the next number, before the deadline; its outcome is the greeter's
    answer to that very prompt if it comes through the transport, is well
    formed, in time and delivered; the first question without such an answer
    ends the dialogue for good.  Driver and launcher count prompts separately
    and never disagree on an answer. *)
Theorem pam_dialogue_refines `{!SerdeJson PamPromptEnvelope, !SerdeJson PamPromptResponse}
    `{!SerdeJson PamPromptResponseEnvelope}
    (clock : Socket * nat → Z) (written : Socket * nat → result () SessionError)
    (lease : AdmissionLease) (b : LoginRequestBinding) (worker_pid : Z) (session : string)
    (deadline : Z) (asked : list (PamMessageStyle * string)) (socket : Socket) :
  let greeter := socket_greeter (connection_transport b) in
  let worker_id := al_lifecycle_id lease in
  let driver := login_driver b (launch_identity lease) worker_id worker_pid in
  let authority := login_authority lease b worker_pid session deadline in
  questions (dialogue_respond clock greeter written worker_id worker_pid
               (al_generation lease) (al_attempt_id lease)) asked
    (driver, mkLauncher true (mkRelay authority []) (socket, 0%nat)) =
  questions (dialogue_ask clock greeter written driver deadline) asked
    (mkDialogue (bool_decide (is_Some authority) && str_eqb (lb_seat b) (al_seat lease))
       0 (socket, 0%nat)).
Proof.
  cbv zeta. destruct (login_authority lease b worker_pid session deadline) as [a0|] eqn:HI.
  2: { rewrite (foreign_run _ _ _ _ b); [by rewrite over_run|]. split; [done|]. by right; left. }
  pose proof (launch_identity_valid lease) as Ht.
  rewrite bool_decide_eq_true_2 by (by eexists). cbn [andb].
  destruct (str_eqb (lb_seat b) (al_seat lease)) eqn:Hs.
  - apply str_eqb_true in Hs. eapply pam_dialogue_agrees; done.
  - apply str_eqb_false in Hs. rewrite over_run by done. eapply foreign_seat; done.
Qed.
