(* ===== verification/Ctl.v ===== *)
(** * The command-line client

    [niralisctl/src/main]: the password read from standard input, the request
    sent to the daemon's socket, and the answers to PAM's prompts while a
    login runs ([commands.rs], [transport.rs], [pam_prompt.rs]).  The stream of
    the daemon and the faults of writing are those of [Client]. *)

From stdpp Require Import base gmap sets list strings.
From Stdlib Require Import ZArith Lia.
From S2P Require Import Prelude Text DirFs RecoveryTypes LedgerTaxonomy Ledger.
From S2P Require Import PreviousBoot PreCommit SameBoot Admission Protocol.
From S2P Require Import Conversation Login Daemon Client WorkerRecord.
From S2P Require Import Supervisor Launch WorkerPam.
From S2P Require Import PamDialogue.
#[local] Open Scope niralis_scope.

Inductive CliError :=
| PasswordStdinRequired | PasswordStdinEof | CliIo | CliJson
| GreeterProtocol (reason : string) | RecoveryRequiresRoot
| RecoveryProtocol (reason : string).

(** ** Lines *)

(** [BufRead::read_line]: up to and with the newline, or the end of the
    stream; the bytes must be UTF-8. *)
Fixpoint read_line_bytes (s : Stream) : Stream * result string CliError :=
  match s with
  | [] => ([], Ok EmptyString)
  | None :: rest => (rest, Err CliIo)
  | Some c :: rest =>
      if bool_decide (c = NEWLINE) then (rest, Ok (String c EmptyString))
      else match read_line_bytes rest with
           | (s, Ok line) => (s, Ok (String c line))
           | (s, Err e) => (s, Err e)
           end
  end.
Definition read_line (s : Stream) : Stream * result string CliError :=
  match read_line_bytes s with
  | (s, Ok line) =>
      (s, if bool_decide (is_Some (str_from_utf8 line)) then Ok line else Err CliIo)
  | (s, Err e) => (s, Err e)
  end.

Definition LF : string := String NEWLINE EmptyString.
Definition CRLF : string := String (Ascii.ascii_of_nat 13) LF.
Definition str_truncate (n : nat) (s : string) : string := String.substring 0 n s.

Definition read_password_line (input : Stream) : result string CliError :=
  match (read_line input).2 with
  | Err e => Err e
  | Ok password =>
      if str_len password =? 0 then Err PasswordStdinEof
      else if str_ends_with CRLF password
      then Ok (str_truncate (String.length password - 2) password)
      else if str_ends_with LF password
      then Ok (str_truncate (String.length password - 1) password)
      else Ok password
  end.

(** [str::trim_end] of a line. *)
Definition str_trim_end (s : string) : string :=
  match str_from_utf8 s with
  | Some t => str_of_text (trim_end t)
  | None => s
  end.

(** ** The request *)

(** The connection, and the password that has not been given to PAM yet. *)
Record Ctl := mkCtl {
  ct_socket : Socket;
  ct_pam_password : option string;
}.
Abbreviation CT := (SR Ctl CliError).
Definition on_daemon {A} (m : SR Socket CliError A) : CT A :=
  sr_zoom ct_socket (λ x c, mkCtl x (ct_pam_password c)) m.

Definition read_greeter_line : SR Socket CliError string := λ s,
  let '(stream, r) := read_line (so_stream s) in
  (mkSocket stream (so_write_faults s) (so_written s),
   match r with
   | Err e => Err e
   | Ok line =>
       if str_len line =? 0 then Err (GreeterProtocol "unexpected end of stream")
       else if (MAX_GREETER_FRAME_BYTES <? str_len line) || negb (str_ends_with LF line)
       then Err (GreeterProtocol "invalid frame")
       else Ok line
   end).

(** [serde_json::to_writer], the newline and the flush. *)
Definition send_json {T} `{SerdeJson T} (value : T) : SR Socket CliError () :=
  let* encoded := sr_lift (ok_or (serde_to_vec value) CliJson) in
  sr_map_err (λ _, CliIo) (write_line encoded).

Definition payload_of (request : NiralisRequest) : option GreeterRequest :=
  match request with
  | ReqStatus => Some GrStatus
  | ReqGetUsers => Some GrGetUsers
  | ReqGetSessions => Some GrGetSessions
  | ReqLogin username password session => Some (GrLogin username session password)
  | ReqShutdown | ReqReboot => None
  end.

Definition valid_handshake (h : GreeterHandshakeResponse) : bool :=
  (hr_protocol_version h =? GREETER_PROTOCOL_VERSION) && negb (hr_connection_epoch h =? 0)
  && negb (str_is_empty (hr_connection_id h)) && negb (str_is_empty (hr_seat h)).

Definition request_envelope (h : GreeterHandshakeResponse) (payload : GreeterRequest)
    (payload_len : Z) : GreeterRequestEnvelope :=
  mkRequestEnvelope GREETER_PROTOCOL_VERSION (expected_message_type payload)
    (hr_connection_id h) (hr_connection_epoch h) 1 1 (hr_seat h) payload_len payload.

(** ** The prompts of PAM *)

Definition pam_response_for_prompt (p : PamPromptEnvelope) (request : NiralisRequest)
    : SR (option string) CliError PamPromptResponse := λ password,
  match pp_style p with
  | PromptEchoOff =>
      (None, match password with
             | Some password => Ok (RespSecret password)
             | None => Err (GreeterProtocol "repeated PAM secret prompt")
             end)
  | PromptEchoOn =>
      (password, match request with
                 | ReqLogin username _ _ => Ok (RespText username)
                 | _ => Err (GreeterProtocol "PAM prompt received for non-login request")
                 end)
  | Informational | StyleError => (password, Ok RespNone)
  end.

Definition reply_envelope (p : PamPromptEnvelope) (response : PamPromptResponse)
    (payload_len : Z) : PamPromptResponseEnvelope :=
  mkPromptResponse GREETER_PROTOCOL_VERSION "pam_prompt_response" (pp_connection_id p)
    (pp_connection_epoch p) (pp_seat p) (pp_request_id p) (pp_transaction_id p)
    (pp_conversation_id p) (pp_prompt_id p) (pp_sequence p) (pp_style p) payload_len response.

Section Ctl.
Context `{!SerdeJson GreeterHandshake, !SerdeJson GreeterHandshakeResponse}.
Context `{!SerdeJson GreeterRequest, !SerdeJson GreeterRequestEnvelope}.
Context `{!SerdeJson GreeterResponseEnvelope, !SerdeJson PamPromptEnvelope}.
Context `{!SerdeJson PamPromptResponse, !SerdeJson PamPromptResponseEnvelope}.

Definition answer_prompt (p : PamPromptEnvelope) (request : NiralisRequest)
    : SR (option string) CliError PamPromptResponseEnvelope :=
  sr_lift (map_err (λ _, GreeterProtocol "invalid PAM prompt shape")
             (prompt_validate_shape p)) ;;;
  let* response := pam_response_for_prompt p request in
  let* encoded := sr_lift (ok_or (serde_to_vec response)
                             (GreeterProtocol "invalid PAM response")) in
  let envelope := reply_envelope p response (str_len encoded) in
  sr_lift (map_err (λ _, GreeterProtocol "invalid PAM response shape")
             (response_validate_shape envelope)) ;;;
  sr_ret envelope.

(** One line of the daemon: the response, or a prompt to answer. *)
Definition on_line (request : NiralisRequest) (connection_epoch : Z) (line : string)
    : SR (option string) CliError (NiralisResponse + PamPromptResponseEnvelope) :=
  match serde_from_slice (R:=GreeterResponseEnvelope) (str_trim_end line) with
  | Some response =>
      ensure (gr_request_id response =? 1) && (gr_connection_epoch response =? connection_epoch)
        else GreeterProtocol "response correlation mismatch" ;;;
      sr_ret (inl (gr_result response))
  | None =>
      let* p := sr_lift (ok_or (serde_from_slice (str_trim_end line))
                           (GreeterProtocol "invalid PAM prompt envelope")) in
      let* envelope := answer_prompt p request in sr_ret (inr envelope)
  end.

Definition next_line (request : NiralisRequest) (connection_epoch : Z)
    : CT (NiralisResponse + PamPromptResponseEnvelope) :=
  let* line := on_daemon read_greeter_line in
  sr_zoom ct_pam_password (λ p c, mkCtl (ct_socket c) p) (on_line request connection_epoch line).

(** The loop; [fuel] bounds the number of lines. *)
Fixpoint read_login_response (fuel : nat) (request : NiralisRequest) (connection_epoch : Z)
    (c : Ctl) : option (Ctl * result NiralisResponse CliError) :=
  match fuel with
  | O => None
  | S fuel =>
      match next_line request connection_epoch c with
      | (c, Err e) => Some (c, Err e)
      | (c, Ok (inl response)) => Some (c, Ok response)
      | (c, Ok (inr envelope)) =>
          match on_daemon (send_json envelope) c with
          | (c, Err e) => Some (c, Err e)
          | (c, Ok _) => read_login_response fuel request connection_epoch c
          end
      end
  end.

(** The handshake and the request, up to the answer. *)
Definition open_request (request : NiralisRequest) : CT (Z + NiralisResponse) :=
  on_daemon (send_json (mkHandshake GREETER_PROTOCOL_VERSION "handshake")) ;;;
  let* line := on_daemon read_greeter_line in
  let* h := sr_lift (ok_or (serde_from_slice (R:=GreeterHandshakeResponse)
                              (str_trim_end line)) CliJson) in
  ensure valid_handshake h else GreeterProtocol "invalid handshake response" ;;;
  sr_modify (λ c, mkCtl (ct_socket c)
    match request with ReqLogin _ password _ => Some password | _ => None end) ;;;
  match payload_of request with
  | None => sr_ret (inr (RespError "not implemented"))
  | Some payload =>
      let* encoded := sr_lift (ok_or (serde_to_vec payload) CliJson) in
      on_daemon (send_json (request_envelope h payload (str_len encoded))) ;;;
      sr_ret (inl (hr_connection_epoch h))
  end.

(** [socket] is the connection, if [connect] succeeds. *)
Definition send_request (fuel : nat) (socket : option Socket) (request : NiralisRequest)
    : option (result NiralisResponse CliError) :=
  match socket with
  | None => Some (Err CliIo)
  | Some socket =>
      match open_request request (mkCtl socket None) with
      | (_, Err e) => Some (Err e)
      | (_, Ok (inr response)) => Some (Ok response)
      | (c, Ok (inl connection_epoch)) =>
          snd <$> read_login_response fuel request connection_epoch c
      end
  end.

(** ** The client as the greeter of a dialogue *)

(** The bytes of a value and the newline, as the other side reads them. *)
Definition sent {T} `{SerdeJson T} (value : T) : Stream :=
  match serde_to_vec value with
  | Some bytes => frame_bytes bytes ++ [Some NEWLINE]
  | None => []
  end.

(** What the daemon's transport returns for a prompt when the client is at the
    other end: the client reads the line, and its reply, if it makes one, is
    what the transport reads. *)
Definition ctl_greeter (conversation : SocketPamConversation) (request : NiralisRequest)
    (p : PamPromptEnvelope) : SR (option string) SessionError PamPromptResponseEnvelope :=
  λ password,
  let '(c, reply) := next_line request (sc_connection_epoch conversation)
                       (mkCtl (mkSocket (sent p) [] []) password) in
  let stream := match reply with Ok (inr envelope) => sent envelope | _ => [] end in
  (ct_pam_password c, (round_trip conversation p (mkSocket stream [] [])).2).
End Ctl.

(** ** Lines that cross *)

Lemma read_line_bytes_exact bytes rest :
  str_contains_byte NEWLINE bytes = false →
  read_line_bytes (frame_bytes bytes ++ Some NEWLINE :: rest) = (rest, Ok (bytes +:+ LF)).
Proof.
  induction bytes as [|c bytes IH]; [done|].
  unfold str_contains_byte. cbn. intros [Hc Hn]%orb_false_iff.
  rewrite Hc. unfold frame_bytes, str_contains_byte in IH. by rewrite (IH Hn).
Qed.
Lemma str_len_app s t : str_len (s +:+ t) = str_len s + str_len t.
Proof.
  unfold str_len. induction s as [|c s IH]; [done|]. rewrite str_app_cons. cbn.
  unfold str_len in *. lia.
Qed.
Lemma substring_all s : String.substring 0 (String.length s) s = s.
Proof. induction s as [|c s IH]; [done|]. cbn. by rewrite IH. Qed.
Lemma substring_app s t : String.substring (String.length s) (String.length t) (s +:+ t) = t.
Proof.
  induction s as [|c s IH]; [apply substring_all|]. rewrite str_app_cons. cbn. exact IH.
Qed.
Lemma substring_prefix s t : String.substring 0 (String.length s) (s +:+ t) = s.
Proof.
  induction s as [|c s IH]; [by destruct t|]. rewrite str_app_cons. cbn. by rewrite IH.
Qed.
Lemma str_length_app s t : String.length (s +:+ t) = (String.length s + String.length t)%nat.
Proof. induction s as [|c s IH]; [done|]. rewrite str_app_cons. cbn. by rewrite IH. Qed.
Lemma str_ends_with_app s t : str_ends_with t (s +:+ t) = true.
Proof.
  unfold str_ends_with. rewrite str_length_app.
  replace (String.length s + String.length t - String.length t)%nat with (String.length s) by lia.
  rewrite substring_app, str_eqb_refl, andb_true_r. apply Nat.leb_le. lia.
Qed.

Section Crossing.
Context `{!SerdeJson GreeterResponseEnvelope, !SerdeJson PamPromptEnvelope}.
Context `{!SerdeJson PamPromptResponse, !SerdeJson PamPromptResponseEnvelope}.

(** A prompt that crosses the socket as a line: it is encoded without a
    newline, in UTF-8, within the limit and with nothing for [trim_end] to
    remove, and it parses as what it is and not as a response. *)
Definition prompt_crosses (p : PamPromptEnvelope) : Prop :=
  ∃ bytes, serde_to_vec p = Some bytes ∧ str_contains_byte NEWLINE bytes = false ∧
    str_len bytes < MAX_GREETER_FRAME_BYTES ∧ is_Some (str_from_utf8 (bytes +:+ LF)) ∧
    str_trim_end (bytes +:+ LF) = bytes ∧ serde_from_slice bytes = Some p ∧
    serde_from_slice (R:=GreeterResponseEnvelope) bytes = None.
(** The reply to [p], and the length it declares for its payload. *)
Definition reply_crosses (p : PamPromptEnvelope) (response : PamPromptResponse) : Prop :=
  ∃ payload bytes, serde_to_vec response = Some payload ∧
    str_len payload ≤ MAX_GREETER_PAYLOAD_BYTES ∧
    let r := reply_envelope p response (str_len payload) in
    serde_to_vec r = Some bytes ∧ str_contains_byte NEWLINE bytes = false ∧
    str_len bytes < MAX_GREETER_FRAME_BYTES ∧ serde_from_slice bytes = Some r.

Lemma reply_echoes p response n : echoes (reply_envelope p response n) p = true.
Proof.
  unfold echoes. cbn. by rewrite !str_eqb_refl, !Z.eqb_refl, bool_decide_eq_true_2.
Qed.
Lemma reply_shape p response payload :
  prompt_validate_shape p = Ok () → serde_to_vec response = Some payload →
  str_len payload ≤ MAX_GREETER_PAYLOAD_BYTES → compatible (pp_style p) response = true →
  response_validate_shape (reply_envelope p response (str_len payload)) = Ok ().
Proof.
  intros Hp He Hl Hc. unfold prompt_validate_shape in Hp.
  destruct (_ || _) eqn:Hg in Hp; [done|]. bool_facts.
  unfold response_validate_shape. cbn -[MAX_GREETER_PAYLOAD_BYTES].
  rewrite He, Hc, Z.eqb_refl.
  destruct (Z.ltb_spec MAX_GREETER_PAYLOAD_BYTES (str_len payload)); [lia|].
  rewrite !(proj2 (Z.eqb_neq _ _)), !(proj2 (str_is_empty_false _)) by done. done.
Qed.

Lemma next_line_prompt request epoch p rest faults log password :
  prompt_crosses p →
  next_line request epoch (mkCtl (mkSocket (sent p ++ rest) faults log) password) =
  let '(password, r) := answer_prompt p request password in
  (mkCtl (mkSocket rest faults log) password,
   match r with Ok e => Ok (inr e) | Err e => Err e end).
Proof.
  intros (bytes & He & Hn & Hl & Hu & Ht & Hp & Hr). unfold next_line, sent. rewrite He.
  rewrite sr_bind_eq. unfold on_daemon, sr_zoom, read_greeter_line, read_line. cbn [ct_socket so_stream].
  rewrite <- app_assoc. cbn [app]. rewrite (read_line_bytes_exact _ _ Hn).
  rewrite bool_decide_eq_true_2 by done.
  destruct (Z.eqb_spec (str_len (bytes +:+ LF)) 0) as [Hz|Hz].
  { exfalso. rewrite str_len_app in Hz. unfold str_len, LF in Hz. cbn in Hz. lia. }
  destruct (Z.ltb_spec MAX_GREETER_FRAME_BYTES (str_len (bytes +:+ LF))) as [Hb|Hb].
  { exfalso. rewrite str_len_app in Hb. unfold str_len at 2, LF in Hb. cbn in Hb. lia. }
  rewrite str_ends_with_app. cbn [orb negb]. unfold on_line. rewrite Ht, Hr, Hp.
  cbn -[answer_prompt]. rewrite !sr_bind_eq. cbn -[answer_prompt].
  by destruct (answer_prompt p request password) as [pw [e|e]].
Qed.

(** The transport hands the launcher the client's own reply. *)
Lemma round_trip_reply conversation p r bytes :
  prompt_crosses p → response_validate_shape r = Ok () →
  serde_to_vec r = Some bytes → str_contains_byte NEWLINE bytes = false →
  str_len bytes < MAX_GREETER_FRAME_BYTES → serde_from_slice bytes = Some r →
  rp_connection_id r = sc_connection_id conversation →
  rp_connection_epoch r = sc_connection_epoch conversation →
  rp_seat r = sc_seat conversation →
  (round_trip conversation p (mkSocket (sent r) [] [])).2 = Ok r.
Proof.
  intros (pb & He & _ & Hl & _) Hs Hr Hn Hrl Hrp H1 H2 H3. unfold round_trip.
  rewrite He. cbn -[response_validate_shape MAX_GREETER_FRAME_BYTES socket_read_frame write_line].
  destruct (Z.leb_spec (str_len pb) MAX_GREETER_FRAME_BYTES); [|lia].
  unfold sent. rewrite Hr. rewrite !sr_bind_eq. cbn -[response_validate_shape read_frame].
  rewrite sr_bind_eq. unfold as_session_error, socket_read_frame. rewrite sr_map_err_eq.
  cbn [so_stream]. rewrite (proj2 (read_frame_exact _ [] bytes)) by done.
  cbn -[response_validate_shape]. rewrite Hrp. cbn -[response_validate_shape].
  rewrite Hs. cbn. by rewrite H1, H2, H3, !str_eqb_refl, Z.eqb_refl.
Qed.
End Crossing.

(** ** A login with this client *)

Definition style_code (style : PamMessageStyle) : Z :=
  match style with PromptEchoOff => 1 | PromptEchoOn => 2 | StyleError => 3 | Informational => 4 end.
Definition pam_message (m : PamMessageStyle * string) : option PamMessage :=
  Some (mkPamMessage (style_code m.1) (Some m.2)).
Definition is_secret (m : PamMessageStyle * string) : bool :=
  match m.1 with PromptEchoOff => true | _ => false end.

(** What PAM should get for each style of message. *)
Definition expected_response (username password : string) (style : PamMessageStyle)
    : PamPromptResponse :=
  match style with
  | PromptEchoOff => RespSecret password
  | PromptEchoOn => RespText username
  | Informational | StyleError => RespNone
  end.
Definition expected_output (username password : string) (style : PamMessageStyle)
    : option string :=
  match style with
  | PromptEchoOff => Some password
  | PromptEchoOn => Some username
  | Informational | StyleError => None
  end.

(** The prompts of the dialogue, numbered from [n + 1]. *)
Fixpoint transcript (d : WorkerPamConversationDriver) (n : Z)
    (asked : list (PamMessageStyle * string)) : list PamPromptEnvelope :=
  match asked with
  | [] => []
  | (style, message) :: rest =>
      prompt_of (pd_with (n + 1) (n + 1) d) style message :: transcript d (n + 1) rest
  end.

(** A user name that can be an answer. *)
Definition text_bounded (s : string) : bool := compatible PromptEchoOn (RespText s).

(** Asking everything, over a driver that answers everything. *)
Lemma ask_all_questions {D} `{!PamConversationDriver D} username password asked u w (x : D) :
  text_bounded username = true → is_bounded password = true →
  questions driver_respond asked x =
    (λ m, Ok (expected_response username password m.1)) <$> asked →
  ∃ x', ask_all (pam_message <$> asked) (mkSilent u w (Some x) false) =
    (mkSilent u w (Some x') false, Ok ((expected_output username password ∘ fst) <$> asked)).
Proof.
  intros Hu Hp. revert x. induction asked as [|[style message] rest IH]; intros x; [by eexists|].
  cbn [questions]. destruct (driver_respond style message x) as [x1 r] eqn:HR.
  rewrite fmap_cons. intros [= -> HQ]. destruct (IH _ HQ) as [x' HA].
  exists x'. rewrite !fmap_cons. cbn [ask_all]. rewrite sr_bind_eq.
  unfold text_bounded, compatible in Hu. unfold is_bounded in Hp. bool_facts.
  assert (ask (pam_message (style, message)) (mkSilent u w (Some x) false) =
    (mkSilent u w (Some x1) false, Ok (expected_output username password style))) as ->.
  { destruct style; unfold ask; cbn; rewrite ?sr_bind_eq;
      unfold prompt_blind, prompt_echo, error, info, show; cbn; rewrite HR; cbn;
      unfold cstring; repeat match goal with E : str_contains_byte _ _ = _ |- _ => rewrite E end;
      done. }
  rewrite sr_bind_eq, HA. done.
Qed.

Section CtlLogin.
Context `{!SerdeJson GreeterResponseEnvelope, !SerdeJson PamPromptEnvelope}.
Context `{!SerdeJson PamPromptResponse, !SerdeJson PamPromptResponseEnvelope}.
Context (b : LoginRequestBinding) (username password session : string).
Context (clock : option string → Z) (deadline : Z).
Let conversation := connection_transport b.
Let request := ReqLogin username password session.

Hypothesis username_ok : text_bounded username = true.
Hypothesis password_ok : is_bounded password = true.
Hypothesis in_time : ∀ left, clock left < deadline.

(** The client answers a well-formed prompt it still has an answer for. *)
Lemma ctl_greeter_answers p left :
  prompt_validate_shape p = Ok () → prompt_crosses p →
  reply_crosses p (expected_response username password (pp_style p)) →
  pp_connection_id p = lb_connection_id b → pp_connection_epoch p = lb_connection_epoch b →
  pp_seat p = lb_seat b → (pp_style p = PromptEchoOff → left = Some password) →
  ∃ n, let r := reply_envelope p (expected_response username password (pp_style p)) n in
    response_validate_shape r = Ok () ∧
    ctl_greeter conversation request p left =
      (match pp_style p with PromptEchoOff => None | _ => left end, Ok r).
Proof.
  intros Hs Hp (payload & bytes & He & Hl & Hr & Hn & Hb & Hd) H1 H2 H3 Hleft.
  exists (str_len payload). set (r := reply_envelope _ _ _) in *.
  assert (compatible (pp_style p) (expected_response username password (pp_style p)) = true) as Hc.
  { destruct (pp_style p); [exact password_ok|exact username_ok|done..]. }
  pose proof (reply_shape _ _ _ Hs He Hl Hc) as Hsh. fold r in Hsh. split; [done|].
  unfold ctl_greeter. rewrite <- (app_nil_r (sent p)), (next_line_prompt _ _ _ _ _ _ _ Hp).
  assert (answer_prompt p request left =
    (match pp_style p with PromptEchoOff => None | _ => left end, Ok r)) as ->.
  { unfold answer_prompt, pam_response_for_prompt. rewrite Hs, !sr_bind_eq. cbn -[response_validate_shape].
    rewrite sr_bind_eq. subst request r.
    destruct (pp_style p) eqn:Hst; cbn -[response_validate_shape] in *;
      rewrite ?(Hleft eq_refl), He; cbn -[response_validate_shape]; by rewrite Hsh. }
  cbn [ct_pam_password]. f_equal. by eapply round_trip_reply.
Qed.

Lemma ctl_dialogue d asked n left :
  (∀ k style message, 0 < k → sayable message = true →
     prompt_validate_shape (prompt_of (pd_with k k d) style message) = Ok ()) →
  pd_binding d = b →
  0 ≤ n → n + Z.of_nat (length asked) < 2 ^ 64 →
  Forall (λ m, sayable m.2 = true) asked →
  (left = Some password ∧ (length (filter is_secret asked) ≤ 1)%nat ∨
   filter is_secret asked = []) →
  Forall (λ p, prompt_crosses p ∧
               reply_crosses p (expected_response username password (pp_style p)))
    (transcript d n asked) →
  questions (dialogue_ask clock (ctl_greeter conversation request) (λ _, Ok ()) d deadline)
    asked (mkDialogue true n left) =
  (λ m, Ok (expected_response username password m.1)) <$> asked.
Proof.
  intros Hshape Hbd. revert n left. induction asked as [|[style message] rest IH];
    intros n left Hn Hlen Hsay Hone Hcross; [done|].
  cbn [questions]. inversion_clear Hsay as [|? ? Hm Hrest]. cbn in Hm.
  cbn [transcript] in Hcross. inversion_clear Hcross as [|? ? [Hp Hr] Hc].
  rewrite fmap_cons. cbn [length] in Hlen. unfold dialogue_ask at 1. cbn [dg_open dg_asked dg_greeter].
  rewrite Hm, (proj2 (Z.ltb_lt _ _) (in_time _)), (proj2 (Z.ltb_lt (n + 1) (2 ^ 64))) by lia.
  cbn [andb negb].
  set (p := prompt_of (pd_with (n + 1) (n + 1) d) style message) in *.
  assert (pp_style p = style) as Hst by done.
  destruct (ctl_greeter_answers p left) as (k & Hsh & HG); [apply Hshape; [lia|done]|done|done|..].
  1-3: by cbn; rewrite Hbd.
  { rewrite Hst. intros ->. destruct Hone as [[? _]|Hno]; [done|].
    rewrite filter_cons_True in Hno by done. done. }
  rewrite HG. unfold accepted. rewrite reply_echoes, Hsh, (proj2 (Z.ltb_lt _ _) (in_time _)).
  cbn [andb is_ok rp_response reply_envelope]. rewrite Hst. f_equal.
  apply IH; [lia|lia|done| |done].
  destruct style.
  - right. rewrite filter_cons_True in Hone by done. destruct Hone as [[_ Hone]|?]; [|done].
    cbn in Hone. apply length_zero_iff_nil. lia.
  - rewrite filter_cons_False in Hone by auto. exact Hone.
  - rewrite filter_cons_False in Hone by auto. exact Hone.
  - rewrite filter_cons_False in Hone by auto. exact Hone.
Qed.
End CtlLogin.

(** C24. One call of PAM's conversation callback, answered by [niralisctl], when
    nothing goes wrong on the way.  The worker's driver, the launcher's relay,
    the daemon's transport and the client are composed, with their own checks
    and counters.  Assumed are: the launch could issue an authority, the
    connection's seat is the lease's, the deadline does not pass, writing to the
    worker and PAM's allocations succeed, user name and password are within
    their bounds, PAM's messages are printable and ask for at most one secret,
    and every prompt and reply of this call crosses the socket as one line
    ([prompt_crosses], [reply_crosses]).  Then the callback succeeds and hands
    PAM the user name for each visible question, the password for the hidden
    one and nothing for the messages that are only shown. *)
Theorem ctl_login_conversation
    `{!SerdeJson GreeterResponseEnvelope, !SerdeJson PamPromptEnvelope}
    `{!SerdeJson PamPromptResponse, !SerdeJson PamPromptResponseEnvelope}
    (lease : AdmissionLease) (b : LoginRequestBinding) (worker_pid : Z)
    (clock : option string → Z) (deadline : Z) (a0 : PamConversationAuthority)
    (username password session : string) (asked : list (PamMessageStyle * string)) :
  login_authority lease b worker_pid session deadline = Some a0 →
  lb_seat b = al_seat lease → (∀ left, clock left < deadline) →
  text_bounded username = true → is_bounded password = true →
  Z.of_nat (length asked) < 2 ^ 64 → Forall (λ m, sayable m.2 = true) asked →
  (length (filter is_secret asked) ≤ 1)%nat →
  let d := login_driver b (launch_identity lease) (al_lifecycle_id lease) worker_pid in
  Forall (λ p, prompt_crosses p ∧
               reply_crosses p (expected_response username password (pp_style p)))
    (transcript d 0 asked) →
  let greeter := ctl_greeter (connection_transport b) (ReqLogin username password session) in
  let driver := worker_driver (launcher_turn clock greeter (λ _, Ok ())
    (al_lifecycle_id lease) worker_pid (al_generation lease) (al_attempt_id lease)) in
  let launcher := mkLauncher true (mkRelay (Some a0) []) (Some password) in
  (@converse _ driver true (λ _, true)
     (mkConverseCall (Z.of_nat (length asked)) (Some (pam_message <$> asked)) true true)
     (set_credentials username password (silent_with_driver (d, launcher)))).2 =
  mkConverseResult PamSuccess (Some ((expected_output username password ∘ fst) <$> asked)) [].
Proof.
  intros HI Hseat Hnow Hu Hp Hlen Hsay Hone d Hcross greeter driver launcher.
  pose proof (launch_identity_valid lease) as Ht.
  pose proof (login_bound lease b _ worker_pid session deadline a0 HI Ht Hseat) as [_ _ _ Hsh].
  pose proof (pam_dialogue_agrees clock greeter (λ _, Ok ()) lease b _ worker_pid session
    deadline a0 HI Ht asked (Some password) Hseat) as HQ.
  subst greeter. unfold login_questions, dialogue_respond in HQ. fold d in HQ.
  rewrite (ctl_dialogue b username password session clock deadline Hu Hp Hnow d asked 0) in HQ
    by (done || by left).
  destruct (ask_all_questions username password asked username password (d, launcher)
    Hu Hp HQ) as [x' HA].
  set (call := mkConverseCall _ _ _ _).
  assert (cc_count call = Z.of_nat (length (pam_message <$> asked))) as Hcount
    by (by rewrite length_fmap).
  pose proof (proj2 (@converse_agrees _ driver call _ (mkSilent username password
    (Some (d, launcher)) false) _ _ eq_refl Hcount eq_refl eq_refl) (conj eq_refl HA)) as HC.
  exact (f_equal snd HC).
Qed.

(** ** The request and the daemon *)

(** The handshake response the daemon sends for a connection. *)
Definition handshake_of (a : GreeterConnectionAuthority) : GreeterHandshakeResponse :=
  mkHandshakeResponse GREETER_PROTOCOL_VERSION (ga_connection_id a) (ga_connection_epoch a)
    (ga_seat a).

(** The daemon accepts what the client sends: the client takes the handshake
    of every connection that names itself and its seat, and the envelope it
    builds passes the daemon's checks of shape, authority, sequence and
    request id, and is the first thing dispatched. *)
Theorem ctl_request_accepted `{!SerdeJson GreeterRequest} (a : GreeterConnectionAuthority)
    (request : NiralisRequest) (payload : GreeterRequest) (bytes : string)
    (handler : DaemonHandler Socket) :
  ga_connection_id a ≠ EmptyString → ga_connection_epoch a ≠ 0 → ga_seat a ≠ EmptyString →
  payload_of request = Some payload → serde_to_vec payload = Some bytes →
  str_len bytes ≤ MAX_GREETER_PAYLOAD_BYTES →
  (∀ username password session, request = ReqLogin username password session →
     is_bounded password = true) →
  let e := request_envelope (handshake_of a) payload (str_len bytes) in
  valid_handshake (handshake_of a) = true ∧
  accept_envelope a e (mkClient handler 0 ∅ []) = (mkClient handler 1 {[1]} [e], Ok ()).
Proof.
  intros Hid Hep Hseat Hp He Hl Hs e. split.
  { unfold valid_handshake. cbn. rewrite (proj2 (Z.eqb_neq _ _) Hep).
    by rewrite !(proj2 (str_is_empty_false _)). }
  assert (request_validate_shape e = Ok ()) as Hsh.
  { unfold request_validate_shape. cbn -[MAX_GREETER_PAYLOAD_BYTES]. rewrite He, Z.eqb_refl.
    destruct (Z.ltb_spec MAX_GREETER_PAYLOAD_BYTES (str_len bytes)); [lia|]. cbn.
    rewrite str_eqb_refl. destruct request; simplify_eq/=; try done.
    by rewrite (Hs _ _ _ eq_refl). }
  unfold accept_envelope. rewrite Hsh. cbn -[e].
  unfold authority_matches. cbn. rewrite !str_eqb_refl, Z.eqb_refl. cbn.
  rewrite bool_decide_eq_false_2 by set_solver. by rewrite union_empty_r_L.
Qed.

(** The two ends disagree on the longest line: the daemon sends a response of
    exactly [MAX_GREETER_FRAME_BYTES] bytes, and the client refuses the line
    because it counts the newline. *)
Theorem longest_response_is_lost `{!SerdeJson GreeterResponseEnvelope}
    (response : GreeterResponseEnvelope) (bytes : string) (s : Socket) :
  serde_to_vec response = Some bytes → str_len bytes = MAX_GREETER_FRAME_BYTES →
  str_contains_byte NEWLINE bytes = false → is_Some (str_from_utf8 (bytes +:+ LF)) →
  so_write_faults s = [] →
  write_response response s = (mkSocket (so_stream s) [] (so_written s ++ [bytes]), Ok ()) ∧
  (read_greeter_line (mkSocket (frame_bytes bytes ++ [Some NEWLINE]) [] [])).2 =
    Err (GreeterProtocol "invalid frame").
Proof.
  intros He Hl Hn Hu Hf. split.
  - unfold write_response. rewrite He. cbn -[MAX_GREETER_FRAME_BYTES].
    rewrite Hl, Z.ltb_irrefl. unfold write_line. by rewrite Hf.
  - unfold read_greeter_line, read_line. cbn [so_stream snd].
    rewrite (read_line_bytes_exact _ _ Hn), bool_decide_eq_true_2 by done.
    rewrite str_len_app, Hl. done.
Qed.

(** A password line is read back without its ending, and nothing else of it
    is touched. *)
Theorem password_line_exact (password : string) (rest : Stream) :
  str_contains_byte NEWLINE password = false →
  is_Some (str_from_utf8 (password +:+ CRLF)) →
  read_password_line (frame_bytes (password +:+ String (Ascii.ascii_of_nat 13) EmptyString)
                        ++ Some NEWLINE :: rest) = Ok password.
Proof.
  intros Hn Hu. set (cr := String (Ascii.ascii_of_nat 13) EmptyString) in *.
  assert ((password +:+ cr) +:+ LF = password +:+ CRLF) as Ha.
  { unfold cr. clear. induction password as [|c s IH]; [done|]. by rewrite !str_app_cons, IH. }
  assert (str_contains_byte NEWLINE (password +:+ cr) = false) as Hn'.
  { clear Hu Ha. revert Hn. unfold str_contains_byte.
    induction password as [|c s IH]; [done|]. rewrite str_app_cons. cbn.
    intros [Hc Hs]%orb_false_iff. by rewrite Hc, (IH Hs). }
  unfold read_password_line, read_line. rewrite (read_line_bytes_exact _ _ Hn'), Ha.
  rewrite bool_decide_eq_true_2 by done. cbn [snd].
  destruct (Z.eqb_spec (str_len (password +:+ CRLF)) 0) as [Hz|_].
  { rewrite str_len_app in Hz. unfold str_len in Hz. cbn in Hz. lia. }
  rewrite str_ends_with_app. unfold str_truncate. rewrite str_length_app.
  replace (String.length password + String.length CRLF - 2)%nat with (String.length password)
    by (cbn; lia). by rewrite substring_prefix.
Qed.
