(* ===== verification/DaemonStart.v ===== *)
(** * Starting the daemon

    [niralisd/src]: the configuration and the backend it selects
    ([config.rs], [login_backend.rs], [main.rs]), the trust in the binaries
    that will run as root ([session_launcher/build_trust.rs]), the identity of
    the greeter and the socket it may connect to, and the limit on connections
    ([server/socket_nss.rs]).  TOML and NSS are parameters; the calls on files
    are those of [Paths] for reading, and a directory tree of its own where the
    daemon changes it. *)

From stdpp Require Import base gmap sets list strings.
From Stdlib Require Import ZArith Lia.
From S2P Require Import Prelude Text Paths DirFs RecoveryTypes LedgerTaxonomy.
From S2P Require Import Ledger.
From S2P Require Import PreviousBoot PreCommit SameBoot Admission Protocol.
From S2P Require Import Daemon.
From S2P Require Import LaunchSpec SessionDiscovery UserDiscovery.
#[local] Open Scope niralis_scope.

(** ** The configuration *)

Definition DEFAULT_CONFIG_PATH : string := "/etc/niralis/niralis.toml".
Definition DEFAULT_SOCKET_PATH : string := "/run/niralis/niralisd.sock".

Record DaemonConfig := mkDaemonConfig {
  dm_socket : string;
  dm_log_level : string;
  dm_seat : string;
}.
Record GreeterConfig := mkGreeterConfig {
  gc_command : string;
  gc_user : string;
}.
Inductive AuthBackend := AuthMock | AuthPam.
Record AuthConfig := mkAuthConfig {
  ac_backend : AuthBackend;
  ac_pam_service : string;
  ac_max_attempts : Z;
  ac_cooldown_seconds : Z;
}.
Record SessionsConfig := mkSessionsConfig {
  sn_wayland_dirs : list string;
  sn_include_x11 : bool;
  sn_x11_dirs : list string;
  sn_exec_search_path : list string;
}.
Inductive SessionLauncherBackend := LauncherMock | LauncherWorker.
Record SessionConfig := mkSessionConfig {
  se_default : string;
  se_command : string;
  se_launcher : SessionLauncherBackend;
  se_worker_path : string;
  se_worker_timeout_seconds : Z;
  se_child_path : string;
  se_probe_path : string;
}.
Record Config := mkConfig {
  cg_daemon : DaemonConfig;
  cg_greeter : GreeterConfig;
  cg_auth : AuthConfig;
  cg_users : UserDiscoveryConfig;
  cg_sessions : SessionsConfig;
  cg_session : SessionConfig;
}.

Definition default_users_config : UserDiscoveryConfig := mkUserConfig 1000 false ["nobody"].
Definition default_sessions_config : SessionsConfig :=
  mkSessionsConfig ["/usr/share/wayland-sessions"] false ["/usr/share/xsessions"]
    ["/usr/local/bin"; "/usr/local/sbin"; "/usr/bin"; "/usr/sbin"].
Definition default_config : Config :=
  mkConfig (mkDaemonConfig DEFAULT_SOCKET_PATH "info" "seat0")
    (mkGreeterConfig "/usr/bin/niralis-greeter" "niralis")
    (mkAuthConfig AuthPam "niralis" 5 10)
    default_users_config default_sessions_config
    (mkSessionConfig "niri" "niri-session" LauncherWorker "/usr/libexec/niralis-session-worker"
       5 "/usr/libexec/niralis-session-child" "/usr/libexec/niralis-session-probe").

(** The errors of [NiralisdError] that starting returns. *)
Inductive StartError :=
| ConfigRead (path : string) (not_found : bool) | ConfigParse (path : string)
| StartIo | InvalidSocketPath (path : string)
| GreeterUserNameContainsNul | GreeterUserNotFound (username : string)
| GreeterIdentityLookupFailed (username : string)
| InvalidGreeterUid | InvalidGreeterGid
| StartInvalidWorkerPath (path : string) | InvalidWorkerTimeout (seconds : Z)
| StartRecoveryUnavailable
| WorkerUnavailable (path : string) | WorkerUntrusted (path : string)
| InvalidSessionChildPath (path : string) | SessionChildUnavailable (path : string)
| SessionChildUntrusted (path : string)
| InvalidSessionProbePath (path : string) | SessionProbeUnavailable (path : string)
| SessionProbeUntrusted (path : string)
| InvalidAuthLauncherCombination.

(** [read] is [read_to_string], which says whether the file was not found;
    [toml] is [toml::from_str]. *)
Definition config_load (read : string → result string bool) (toml : string → option Config)
    (path : string) : result Config StartError :=
  match read path with
  | Err not_found => Err (ConfigRead path not_found)
  | Ok raw => ok_or (toml raw) (ConfigParse path)
  end.
Definition load_default_or_builtin (read : string → result string bool)
    (toml : string → option Config) (path : string) : result Config StartError :=
  match config_load read toml path with
  | Ok config => Ok config
  | Err (ConfigRead _ true as error) =>
      if str_eqb path DEFAULT_CONFIG_PATH then Ok default_config else Err error
  | Err error => Err error
  end.

Definition build_user_directory (config : Config) : UserDiscoveryConfig := cg_users config.
Definition build_session_directory (config : Config) : SessionDiscoveryConfig :=
  mkDiscoveryConfig (sn_wayland_dirs (cg_sessions config)) (sn_include_x11 (cg_sessions config))
    (sn_x11_dirs (cg_sessions config)) (sn_exec_search_path (cg_sessions config))
    (match ac_backend (cg_auth config) with AuthPam => RootOwned | AuthMock => Permissive end).

(** ** Trusted executables *)

Inductive ExecutableRole := RoleWorker | RoleChild | RoleProbe.
Definition invalid (path : string) (role : ExecutableRole) : StartError :=
  match role with
  | RoleWorker => StartInvalidWorkerPath path
  | RoleChild => InvalidSessionChildPath path
  | RoleProbe => InvalidSessionProbePath path
  end.
Definition unavailable (path : string) (role : ExecutableRole) : StartError :=
  match role with
  | RoleWorker => WorkerUnavailable path
  | RoleChild => SessionChildUnavailable path
  | RoleProbe => SessionProbeUnavailable path
  end.
Definition untrusted (path : string) (role : ExecutableRole) : StartError :=
  match role with
  | RoleWorker => WorkerUntrusted path
  | RoleChild => SessionChildUntrusted path
  | RoleProbe => SessionProbeUntrusted path
  end.

(** [0o022 | 0o6000]: writable by others, set-user-id or set-group-id. *)
Definition UNTRUSTED_BITS : Z := Z.lor 18 3072.
(** [0o111]. *)
Definition EXECUTE_BITS : Z := 73.
Definition has_trusted_owner_and_permissions (uid mode : Z) : bool :=
  (uid =? 0) && (Z.land mode UNTRUSTED_BITS =? 0).

(** [st_mode & S_IFMT == S_IFDIR]. *)
Definition meta_is_dir (m : FileMeta) : bool := Z.land (fm_mode m) 61440 =? 16384.

Section Trust.
Context (fs : SessionFs).

Definition validate_basic_executable (path : string) (role : ExecutableRole)
    : result () StartError :=
  if negb (is_absolute path) then Err (invalid path role)
  else match sf_symlink_metadata fs path with
  | None => Err (unavailable path role)
  | Some m =>
      if fm_is_symlink m then Err (untrusted path role)
      else if negb (fm_is_file m) || (Z.land (fm_mode m) EXECUTE_BITS =? 0)
      then Err (unavailable path role)
      else Ok ()
  end.
Definition validate_trusted_node (path : string) (expect_file : bool) (role : ExecutableRole)
    : result () StartError :=
  match sf_symlink_metadata fs path with
  | None => Err (unavailable path role)
  | Some m =>
      if fm_is_symlink m then Err (untrusted path role)
      else if expect_file && negb (fm_is_file m) then Err (unavailable path role)
      else if negb expect_file && negb (meta_is_dir m) then Err (unavailable path role)
      else if negb (has_trusted_owner_and_permissions (fm_uid m) (fm_mode m))
      then Err (untrusted path role)
      else Ok ()
  end.

(** The loop over the parents; the length of the path bounds the rounds. *)
Fixpoint validate_parents (rounds : nat) (current : option string) (role : ExecutableRole)
    : result () StartError :=
  match current, rounds with
  | None, _ => Ok ()
  | Some node, O => Err (untrusted node role)
  | Some node, S rounds =>
      match validate_trusted_node node false role with
      | Err e => Err e
      | Ok _ => validate_parents rounds (parent node) role
      end
  end.
Definition validate_trusted_executable (path : string) (role : ExecutableRole)
    : result () StartError :=
  match validate_basic_executable path role with
  | Err e => Err e
  | Ok _ =>
      match validate_trusted_node path true role with
      | Err e => Err e
      | Ok _ => validate_parents (String.length path) (parent path) role
      end
  end.

Definition validate_worker_timeout (seconds : Z) : result () StartError :=
  if (1 <=? seconds) && (seconds <=? 60) then Ok () else Err (InvalidWorkerTimeout seconds).
Definition validate_worker_binary (config : Config) : result () StartError :=
  let path := se_worker_path (cg_session config) in
  if negb (is_absolute path) then Err (StartInvalidWorkerPath path)
  else match ac_backend (cg_auth config) with
  | AuthPam => validate_trusted_executable path RoleWorker
  | AuthMock => validate_basic_executable path RoleWorker
  end.

(** ** The launcher *)

(** [real_graphical_gate_environment], over [std::env::var]. *)
Definition real_graphical_gate_environment (env : string → option string)
    : list (string * string) :=
  match env "NIRALIS_ALLOW_REAL_GRAPHICAL_SESSION"%string,
        env "NIRALIS_REAL_GRAPHICAL_SESSION"%string,
        env "NIRALIS_REAL_GRAPHICAL_SMOKE_MAX_SECONDS"%string with
  | Some allow, Some session, Some watchdog =>
      if negb (str_eqb allow "1") || str_is_empty session || (128 <? str_len session)
         || match parse_u64 watchdog with
            | Some seconds => negb ((1 <=? seconds) && (seconds <=? 3600))
            | None => true
            end
      then []
      else [("NIRALIS_ALLOW_REAL_GRAPHICAL_SESSION"%string, allow);
            ("NIRALIS_REAL_GRAPHICAL_SESSION"%string, session);
            ("NIRALIS_REAL_GRAPHICAL_SMOKE_MAX_SECONDS"%string, watchdog)]
  | _, _, _ => []
  end.

Record WorkerSessionLauncher := mkWorkerLauncher {
  wl_worker_path : string;
  wl_session_child_path : string;
  wl_session_probe_path : string;
  wl_timeout : Z;
  wl_worker_environment : list (string * string);
}.
Context (env : string → option string) (ledger_opens : bool).

(** [WorkerSessionLauncher::new_persistent]; the supervisor it starts is
    [Supervisor]'s. *)
Definition new_persistent (worker_path child_path probe_path : string) (timeout : Z)
    (environment : list (string * string)) : result WorkerSessionLauncher SessionError :=
  if negb (is_absolute worker_path) || negb (is_absolute child_path)
     || negb (is_absolute probe_path)
  then Err InvalidWorkerPath
  else if negb ledger_opens then Err PersistentRecoveryUnavailable
  else Ok (mkWorkerLauncher worker_path child_path probe_path timeout environment).
Definition map_worker_launcher_error (e : SessionError) (worker_path : string) : StartError :=
  match e with
  | PersistentRecoveryUnavailable => StartRecoveryUnavailable
  | _ => StartInvalidWorkerPath worker_path
  end.

Definition build_worker_session_launcher (config : Config)
    : result WorkerSessionLauncher StartError :=
  let s := cg_session config in
  match validate_worker_timeout (se_worker_timeout_seconds s) with Err e => Err e | Ok _ =>
  match validate_worker_binary config with Err e => Err e | Ok _ =>
  match match ac_backend (cg_auth config) with
        | AuthPam =>
            match validate_trusted_executable (se_child_path s) RoleChild with
            | Err e => Err e
            | Ok _ => validate_trusted_executable (se_probe_path s) RoleProbe
            end
        | AuthMock => Ok ()
        end with Err e => Err e | Ok _ =>
  map_err (λ e, map_worker_launcher_error e (se_worker_path s))
    (new_persistent (se_worker_path s) (se_child_path s) (se_probe_path s)
       (se_worker_timeout_seconds s) (real_graphical_gate_environment env))
  end end end.

(** [build_session_launcher]: the mock launcher is [None]. *)
Definition build_session_launcher (config : Config)
    : result (option WorkerSessionLauncher) StartError :=
  match se_launcher (cg_session config) with
  | LauncherMock => Ok None
  | LauncherWorker =>
      match build_worker_session_launcher config with Ok l => Ok (Some l) | Err e => Err e end
  end.

(** The backend a login goes to. *)
Inductive LoginBackend :=
| LocalLoginBackend (launcher : option WorkerSessionLauncher)
| PamWorkerLoginBackend (launcher : WorkerSessionLauncher) (pam_service : string).
Definition build_login_backend (config : Config) : result LoginBackend StartError :=
  match ac_backend (cg_auth config), se_launcher (cg_session config) with
  | AuthMock, _ =>
      match build_session_launcher config with
      | Ok l => Ok (LocalLoginBackend l)
      | Err e => Err e
      end
  | AuthPam, LauncherWorker =>
      match build_worker_session_launcher config with
      | Ok l => Ok (PamWorkerLoginBackend l (ac_pam_service (cg_auth config)))
      | Err e => Err e
      end
  | AuthPam, LauncherMock => Err InvalidAuthLauncherCombination
  end.
End Trust.

(** ** The identity of the greeter *)

Definition NSS_BUFFER_FALLBACK : Z := 1024.
Definition NSS_BUFFER_MAX : Z := 1024 * 1024.
Record GreeterIdentity := mkGreeterIdentity {
  gi_username : string;
  gi_uid : Z;
  gi_gid : Z;
}.
Inductive NssLookupResult :=
| NssFound (identity : GreeterIdentity) | NssNotFound | NssRetry | NssError.

(** [sysconf(_SC_GETPW_R_SIZE_MAX)]. *)
Definition nss_initial_buffer_size (configured : Z) : Z :=
  if (0 <? configured) && (configured <=? NSS_BUFFER_MAX) then configured
  else NSS_BUFFER_FALLBACK.

(** [getpwnam_r]: the status and the entry it found. *)
Definition ERANGE : Z := 34.
Definition lookup_passwd (status : Z) (entry : option GreeterIdentity) : NssLookupResult :=
  if status =? ERANGE then NssRetry
  else if negb (status =? 0) then NssError
  else match entry with Some identity => NssFound identity | None => NssNotFound end.

Definition validate_greeter_identity (identity : GreeterIdentity)
    : result GreeterIdentity StartError :=
  if gi_uid identity =? 0 then Err InvalidGreeterUid
  else if gi_gid identity =? 0 then Err InvalidGreeterGid
  else Ok identity.

(** The loop; [lookup i size] is the [i]-th call, with a buffer of [size]. *)
Fixpoint greeter_lookup (fuel i : nat) (lookup : nat → Z → NssLookupResult) (size : Z)
    (username : string) : option (result GreeterIdentity StartError) :=
  match fuel with
  | O => None
  | S fuel =>
      match lookup i size with
      | NssFound found => Some (validate_greeter_identity found)
      | NssNotFound => Some (Err (GreeterUserNotFound username))
      | NssError => Some (Err (GreeterIdentityLookupFailed username))
      | NssRetry =>
          if (size * 2 <=? u64_max) && (size * 2 <=? NSS_BUFFER_MAX)
          then greeter_lookup fuel (S i) lookup (size * 2) username
          else Some (Err (GreeterIdentityLookupFailed username))
      end
  end.
Definition resolve_greeter_identity (fuel : nat) (configured : Z)
    (lookup : nat → Z → NssLookupResult) (username : string)
    : option (result GreeterIdentity StartError) :=
  if str_contains_byte NUL username then Some (Err GreeterUserNameContainsNul)
  else greeter_lookup fuel 0 lookup (nss_initial_buffer_size configured) username.

(** ** The tree the sockets live in *)

Inductive NodeKind := KFile | KDir | KSocket | KSymlink (resolves : bool) | KOther.
#[export] Instance NodeKind_eq_dec : EqDecision NodeKind.
Proof. solve_decision. Defined.
Record Node := mkNode {
  nd_kind : NodeKind;
  nd_uid : Z;
  nd_gid : Z;
  nd_mode : Z;
}.
Definition is_socket (n : Node) : bool := bool_decide (nd_kind n = KSocket).
Definition is_dir (n : Node) : bool := bool_decide (nd_kind n = KDir).
Definition is_symlink (n : Node) : bool :=
  match nd_kind n with KSymlink _ => true | _ => false end.
Definition set_owner (uid gid : Z) (n : Node) : Node :=
  mkNode (nd_kind n) uid gid (nd_mode n).
Definition set_mode (mode : Z) (n : Node) : Node :=
  mkNode (nd_kind n) (nd_uid n) (nd_gid n) mode.

(** The process, and what the kernel will answer: the [i]-th call that can
    fail does as [calls i] says, and a call on the descriptor of a bound
    socket changes the entry of the tree too when [descriptor_is_entry]. *)
Record StartHost := mkStartHost {
  sh_euid : Z;
  sh_egid : Z;
  sh_umask : Z;
  sh_calls : nat → bool;
  sh_descriptor_is_entry : bool;
}.
(** The tree, the calls made, and every tree there was, the latest first. *)
Record Tree := mkTree {
  tr_nodes : gmap string Node;
  tr_calls : nat;
  tr_past : list (gmap string Node);
}.
Abbreviation TR := (SR Tree StartError).

Section Sockets.
Context (host : StartHost).

Definition see_node (path : string) : TR (option Node) := λ t, (t, Ok (tr_nodes t !! path)).
(** One call that may fail; when it does, the tree is as before. *)
Definition change (f : gmap string Node → option (gmap string Node)) : TR () := λ t,
  match (if sh_calls host (tr_calls t) then f (tr_nodes t) else None) with
  | Some nodes => (mkTree nodes (S (tr_calls t)) (nodes :: tr_past t), Ok ())
  | None => (mkTree (tr_nodes t) (S (tr_calls t)) (tr_past t), Err StartIo)
  end.
Definition at_entry (f : Node → Node) (path : string) (nodes : gmap string Node)
    : option (gmap string Node) :=
  match nodes !! path with
  | Some n => Some (<[path := f n]> nodes)
  | None => None
  end.

Definition chown (path : string) (uid gid : Z) : TR () := change (at_entry (set_owner uid gid) path).
Definition chmod (path : string) (mode : Z) : TR () := change (at_entry (set_mode mode) path).
(** [fchown] and [fchmod] of a listener bound to [path]. *)
Definition on_descriptor (f : Node → Node) (path : string) : TR () :=
  change (λ nodes, if sh_descriptor_is_entry host then at_entry f path nodes else Some nodes).
Definition remove_file (path : string) : TR () :=
  change (λ nodes, match nodes !! path with Some _ => Some (delete path nodes) | None => None end).
Definition created (kind : NodeKind) (mode : Z) : Node :=
  mkNode kind (sh_euid host) (sh_egid host) (Z.ldiff mode (sh_umask host)).
(** [bind] makes the entry, and fails when there is one. *)
Definition bind_entry (path : string) : TR () :=
  change (λ nodes, match nodes !! path with
                   | None => Some (<[path := created KSocket 511]> nodes)
                   | Some _ => None
                   end).
(** [create_dir_all]: the path and the missing directories above it. *)
Fixpoint missing_dirs (fuel : nat) (path : string) (nodes : gmap string Node)
    : option (gmap string Node) :=
  match fuel with
  | O => None
  | S fuel =>
      match nodes !! path with
      | Some n => if is_dir n then Some nodes else None
      | None =>
          match parent path with
          | None => None
          | Some up => (λ nodes, <[path := created KDir 511]> nodes) <$> missing_dirs fuel up nodes
          end
      end
  end.
Definition create_dir_all (path : string) : TR () :=
  change (missing_dirs (S (String.length path)) path).
(** [Path::exists] follows links. *)
Definition exists_ (n : option Node) : bool :=
  match n with
  | None => false
  | Some n => match nd_kind n with KSymlink resolves => resolves | _ => true end
  end.

(** ** The socket of the greeter *)

(** [open(O_DIRECTORY | O_NOFOLLOW)], and the owner and the mode of what it
    opened. *)
Definition secure_runtime_dir (runtime_dir : string) (greeter_gid : Z) : TR () :=
  ensure negb (str_contains_byte NUL runtime_dir) else InvalidSocketPath runtime_dir ;;;
  let* n := see_node runtime_dir in
  ensure match n with Some n => is_dir n | None => false end else StartIo ;;;
  change (λ nodes, Some nodes) ;;;
  let uid := sh_euid host in
  let gid := if uid =? 0 then greeter_gid else sh_egid host in
  chown runtime_dir uid gid ;;;
  chmod runtime_dir 456.

Definition configure_socket (socket_path : string) (greeter : GreeterIdentity) : TR () :=
  on_descriptor (set_owner 0 (gi_gid greeter)) socket_path ;;;
  on_descriptor (set_mode 432) socket_path ;;;
  let* n := see_node socket_path in
  let* n := sr_lift (ok_or n StartIo) in
  ensure is_socket n else InvalidSocketPath socket_path ;;;
  ensure negb (str_contains_byte NUL socket_path) else StartIo ;;;
  chown socket_path 0 (gi_gid greeter) ;;;
  chmod socket_path 432 ;;;
  let* n := see_node socket_path in
  let* n := sr_lift (ok_or n StartIo) in
  ensure (nd_uid n =? 0) && (nd_gid n =? gi_gid greeter) && (Z.land (nd_mode n) 511 =? 432)
    else InvalidSocketPath socket_path.

Definition prepare_runtime_dir (runtime_dir : string) : TR () :=
  let* n := see_node runtime_dir in
  if exists_ n
  then ensure match n with Some n => negb (is_symlink n) && is_dir n | None => false end
         else InvalidSocketPath runtime_dir
  else create_dir_all runtime_dir.
Definition remove_stale_socket (socket_path : string) : TR () :=
  let* n := see_node socket_path in
  match n with
  | None => sr_ret ()
  | Some n =>
      ensure negb (is_symlink n) else InvalidSocketPath socket_path ;;;
      if is_socket n then remove_file socket_path else sr_fail (InvalidSocketPath socket_path)
  end.

Definition bind_socket (socket_path : string) (greeter : GreeterIdentity) : TR () :=
  let* runtime_dir := sr_lift (ok_or (parent socket_path) (InvalidSocketPath socket_path)) in
  prepare_runtime_dir runtime_dir ;;;
  secure_runtime_dir runtime_dir (gi_gid greeter) ;;;
  remove_stale_socket socket_path ;;;
  bind_entry socket_path ;;;
  λ t, match configure_socket socket_path greeter t with
       | (t, Ok _) => (t, Ok ())
       | (t, Err e) => let '(t, _) := remove_file socket_path t in (t, Err e)
       end.
End Sockets.

(** ** Connections *)

Definition MAX_GREETER_CONNECTIONS : Z := 32.
(** A connection is accepted or the call fails; the thread of a connection
    returns, or it panics and does not get to its end. *)
Inductive ServerEvent := Accepted | AcceptFailed | ThreadReturned | ThreadPanicked.
(** [ACTIVE_CONNECTIONS], the threads that run, and those that panicked. *)
Record Server := mkServer {
  sv_active : Z;
  sv_threads : Z;
  sv_panicked : Z;
}.
Definition server_step (s : Server) (e : ServerEvent) : Server :=
  match e with
  | Accepted =>
      if MAX_GREETER_CONNECTIONS <=? sv_active s then s
      else mkServer (sv_active s + 1) (sv_threads s + 1) (sv_panicked s)
  | AcceptFailed => s
  | ThreadReturned =>
      if 0 <? sv_threads s
      then mkServer (sv_active s - 1) (sv_threads s - 1) (sv_panicked s) else s
  | ThreadPanicked =>
      if 0 <? sv_threads s
      then mkServer (sv_active s) (sv_threads s - 1) (sv_panicked s + 1) else s
  end.
Definition server_run : list ServerEvent → Server → Server := flip (foldl server_step).

(** ** What is exposed while the socket is made *)

(** Bits the mask covers are not set at creation. *)
Lemma umask_hides mode umask k :
  Z.land umask 63 = 63 → Z.land 63 k = k → Z.land (Z.ldiff mode umask) k = 0.
Proof.
  intros Hu Hk. apply Z.bits_inj'. intros i Hi.
  rewrite Z.land_spec, Z.ldiff_spec, Z.bits_0.
  destruct (Z.testbit k i) eqn:Hki; [|by rewrite andb_false_r].
  rewrite <- Hk, Z.land_spec in Hki. apply andb_true_iff in Hki as [H63 _].
  rewrite <- Hu, Z.land_spec in H63. apply andb_true_iff in H63 as [Hui _].
  by rewrite Hui, andb_false_r.
Qed.

Section Exposure.
Context (host : StartHost) (path dir : string) (greeter : GreeterIdentity).
Context (t0 : Tree).
Hypothesis Hdir : parent path = Some dir.
Hypothesis Humask : Z.land (sh_umask host) 63 = 63.

(** Nothing for others, and nothing for a group that is not the greeter's. *)
Definition confined (n : Node) : Prop :=
  nd_kind n = KSocket ∧ Z.land (nd_mode n) 7 = 0 ∧
  (Z.land (nd_mode n) 56 ≠ 0 → nd_gid n = gi_gid greeter).
(** The entry of the socket: still what was there before, gone, or ours. *)
Definition covered (n : option Node) : Prop :=
  n = tr_nodes t0 !! path ∨ n = None ∨ ∃ m, n = Some m ∧ confined m.
(** The directory, once it is secured. *)
Definition secured (nodes : gmap string Node) : Prop :=
  nodes !! dir = Some (mkNode KDir (sh_euid host)
    (if sh_euid host =? 0 then gi_gid greeter else sh_egid host) 456).
(** Every tree since the start had the entry covered, and the present one
    satisfies [N]. *)
Definition stage (N : gmap string Node → Prop) (t : Tree) : Prop :=
  (∃ new, tr_past t = new ++ tr_past t0 ∧
          Forall (λ nodes, covered (nodes !! path)) new) ∧
  N (tr_nodes t).

Lemma dir_not_path : dir ≠ path.
Proof. apply parent_shorter in Hdir. intros ->. lia. Qed.
Hint Resolve dir_not_path : core.

Lemma stage_change f (N N' : gmap string Node → Prop) :
  (∀ nodes nodes', N nodes → f nodes = Some nodes' → N' nodes' ∧ covered (nodes' !! path)) →
  sr_triple (stage N) (change host f) (λ _, stage N') (stage N).
Proof.
  intros HF t [(new & HP & HC) HN]. unfold change.
  destruct (sh_calls host (tr_calls t)); [|by split; [exists new|]].
  destruct (f (tr_nodes t)) as [nodes|] eqn:Hf; [|by split; [exists new|]].
  destruct (HF _ _ HN Hf) as [HN' Hc]. split; [|done]. exists (nodes :: new). cbn.
  rewrite HP. by split; [|constructor].
Qed.
Lemma stage_see (N : gmap string Node → Prop) (X : Tree → Prop) p :
  sr_triple (stage N) (see_node p) (λ n, stage (λ nodes, N nodes ∧ nodes !! p = n)) X.
Proof. intros t [HK HN]. by split. Qed.
Lemma stage_weaken (N N' : gmap string Node → Prop) t :
  (∀ nodes, N nodes → N' nodes) → stage N t → stage N' t.
Proof. intros H [? ?]. split; auto. Qed.

Lemma missing_dirs_frame fuel q nodes nodes' :
  (String.length q < String.length path)%nat → missing_dirs host fuel q nodes = Some nodes' →
  nodes' !! path = nodes !! path.
Proof.
  revert q nodes'. induction fuel as [|fuel IH]; intros q nodes' Hq; [done|]. cbn.
  destruct (nodes !! q) as [n|]; [destruct (is_dir n); [by intros [= ->]|done]|].
  destruct (parent q) as [up|] eqn:Hp; [|done]. apply parent_shorter in Hp.
  destruct (missing_dirs host fuel up nodes) as [m|] eqn:Hm; [|done].
  intros [= <-]. rewrite lookup_insert_ne by (intros ->; lia). apply (IH up); [lia|done].
Qed.

Definition untouched (nodes : gmap string Node) : Prop := nodes !! path = tr_nodes t0 !! path.
Lemma untouched_covered nodes : untouched nodes → covered (nodes !! path).
Proof. by left. Qed.

Lemma prepare_runtime_dir_stage :
  sr_triple (stage untouched) (prepare_runtime_dir host dir) (λ _, stage untouched)
    (stage (λ nodes, covered (nodes !! path))).
Proof.
  unfold prepare_runtime_dir. eapply triple_bind; [apply stage_see|]. intros n.
  destruct (exists_ n).
  - apply triple_ensure; intros t Ht; [intros _|];
      (eapply stage_weaken; [|exact Ht]); intros nodes [? _]; [done|by apply untouched_covered].
  - eapply triple_weaken; [apply (stage_change _ untouched untouched)|..].
    + intros nodes nodes' HN Hm. assert (untouched nodes') as Hu.
      { unfold untouched. rewrite (missing_dirs_frame _ _ _ _ (parent_shorter _ _ Hdir) Hm).
        exact HN. }
      split; [done|by apply untouched_covered].
    + intros t. apply stage_weaken. by intros nodes [? _].
    + done.
    + intros t. apply stage_weaken. apply untouched_covered.
Qed.

(** A change of the directory's entry leaves the socket's. *)
Lemma dir_entry_stage f (N N' : Node → Prop) :
  (∀ n, N n → N' (f n)) →
  sr_triple (stage (λ nodes, untouched nodes ∧ ∃ n, nodes !! dir = Some n ∧ N n))
    (change host (at_entry f dir))
    (λ _, stage (λ nodes, untouched nodes ∧ ∃ n, nodes !! dir = Some n ∧ N' n))
    (stage (λ nodes, covered (nodes !! path))).
Proof.
  intros HN. eapply triple_weaken;
    [apply (stage_change _ (λ nodes, untouched nodes ∧ ∃ n, nodes !! dir = Some n ∧ N n)
              (λ nodes, untouched nodes ∧ ∃ n, nodes !! dir = Some n ∧ N' n))
    |done|done|].
  2: { intros t. apply stage_weaken. intros nodes [? _]. by apply untouched_covered. }
  intros nodes nodes' [Hu (n & Hn & HNn)]. unfold at_entry. rewrite Hn. intros [= <-].
  assert (untouched (<[dir:=f n]> nodes)) as Hu'.
  { unfold untouched. by rewrite lookup_insert_ne. }
  split; [|by apply untouched_covered]. split; [done|]. exists (f n).
  rewrite lookup_insert_eq. auto.
Qed.

Lemma secure_runtime_dir_stage :
  sr_triple (stage untouched) (secure_runtime_dir host dir (gi_gid greeter))
    (λ _, stage (λ nodes, untouched nodes ∧ secured nodes))
    (stage (λ nodes, covered (nodes !! path))).
Proof.
  assert (∀ t, stage untouched t → stage (λ nodes, covered (nodes !! path)) t) as HW.
  { intros t. apply stage_weaken, untouched_covered. }
  unfold secure_runtime_dir.
  eapply triple_bind; [apply (triple_ensure _ _ _ (λ _, stage untouched)); auto|intros []].
  eapply triple_bind; [apply stage_see|]. intros n.
  eapply (triple_bind _ _ _ (λ _, stage (λ nodes, untouched nodes ∧
    ∃ n, nodes !! dir = Some n ∧ nd_kind n = KDir))).
  { apply triple_ensure.
    - intros t Ht Hb. eapply stage_weaken; [|exact Ht]. intros nodes [? Hn]. split; [done|].
      destruct n as [n|]; [|done]. exists n. unfold is_dir in Hb. bool_facts. done.
    - intros t Ht. apply HW. eapply stage_weaken; [|exact Ht]. by intros nodes [? _]. }
  intros []. eapply triple_bind.
  { eapply triple_weaken; [apply stage_change|done|done|].
    - intros nodes nodes' HN [= <-]. split; [exact HN|]. apply untouched_covered, HN.
    - intros t Ht. apply HW. eapply stage_weaken; [|exact Ht]. by intros nodes [? _]. }
  intros []. cbn zeta. eapply triple_bind.
  { apply (dir_entry_stage _ _ (λ n, nd_kind n = KDir ∧ nd_uid n = sh_euid host ∧ nd_gid n =
      if sh_euid host =? 0 then gi_gid greeter else sh_egid host)). by intros ?. }
  intros []. eapply triple_weaken; [apply (dir_entry_stage _ (λ n, nd_kind n = KDir ∧
    nd_uid n = sh_euid host ∧ nd_gid n =
      if sh_euid host =? 0 then gi_gid greeter else sh_egid host) (λ n, n = mkNode KDir (sh_euid host)
    (if sh_euid host =? 0 then gi_gid greeter else sh_egid host) 456))|done| |done].
  - intros [] (? & ? & ?). cbn in *. by subst.
  - intros ? t. apply stage_weaken. intros nodes (? & m & ? & ->). by split.
Qed.

Lemma remove_stale_socket_stage :
  sr_triple (stage (λ nodes, untouched nodes ∧ secured nodes)) (remove_stale_socket host path)
    (λ _, stage (λ nodes, nodes !! path = None ∧ secured nodes))
    (stage (λ nodes, covered (nodes !! path))).
Proof.
  assert (∀ n t, stage (λ nodes, (untouched nodes ∧ secured nodes) ∧ nodes !! path = n) t →
    stage (λ nodes, covered (nodes !! path)) t) as HW.
  { intros n t. apply stage_weaken. intros nodes [[? _] _]. by apply untouched_covered. }
  unfold remove_stale_socket. eapply triple_bind; [apply stage_see|]. intros [n|].
  2: { apply triple_ret. intros t. apply stage_weaken. by intros nodes [[_ ?] ?]. }
  eapply (triple_bind _ _ _ (λ _, stage (λ nodes, (untouched nodes ∧ secured nodes) ∧
    nodes !! path = Some n))); [apply triple_ensure; eauto|intros []].
  destruct (is_socket n); [|apply triple_fail; eauto].
  eapply triple_weaken; [apply (stage_change _
      (λ nodes, (untouched nodes ∧ secured nodes) ∧ nodes !! path = Some n)
      (λ nodes, nodes !! path = None ∧ secured nodes))|done|done|intros t; apply HW].
  intros nodes nodes' [[Hu Hs] Hn]. rewrite Hn. intros [= <-]. rewrite lookup_delete_eq.
  split; [|by right; left]. split; [done|]. unfold secured. by rewrite lookup_delete_ne.
Qed.

(** An entry of ours, with the property [N]. *)
Definition ours (N : Node → Prop) (nodes : gmap string Node) : Prop :=
  (∃ n, nodes !! path = Some n ∧ confined n ∧ N n) ∧ secured nodes.
Lemma ours_covered N nodes : ours N nodes → covered (nodes !! path).
Proof. intros [(n & Hn & Hc & _) _]. right; right. eauto. Qed.
Lemma ours_weaken (N N' : Node → Prop) t :
  (∀ n, N n → N' n) → stage (ours N) t → stage (ours N') t.
Proof.
  intros HN. apply stage_weaken. intros nodes [(n & ? & ? & ?) ?]. split; [|done]. eauto.
Qed.
Lemma entry_stage f (N N' : Node → Prop) :
  (∀ n, confined n → N n → confined (f n) ∧ N' (f n)) →
  sr_triple (stage (ours N)) (change host (at_entry f path)) (λ _, stage (ours N'))
    (stage (ours (λ _, True))).
Proof.
  intros HN. eapply triple_weaken; [apply (stage_change _ (ours N) (ours N'))|done|done|].
  2: { intros t. by apply ours_weaken. }
  intros nodes nodes' [(n & Hn & Hc & HNn) Hs]. unfold at_entry. rewrite Hn. intros [= <-].
  destruct (HN _ Hc HNn) as [Hc' HN'].
  assert (ours N' (<[path:=f n]> nodes)) as Ho.
  { split; [exists (f n); by rewrite lookup_insert_eq|]. unfold secured.
    by rewrite lookup_insert_ne. }
  split; [done|]. by eapply ours_covered.
Qed.

Lemma bind_entry_stage :
  sr_triple (stage (λ nodes, nodes !! path = None ∧ secured nodes)) (bind_entry host path)
    (λ _, stage (ours (λ _, True))) (stage (λ nodes, covered (nodes !! path))).
Proof.
  eapply triple_weaken; [apply (stage_change _ (λ nodes, nodes !! path = None ∧ secured nodes)
    (ours (λ _, True)))|done|done|].
  2: { intros t. apply stage_weaken. intros nodes [Hn _]. by right; left. }
  intros nodes nodes' [Hn Hs]. rewrite Hn. intros [= <-].
  assert (ours (λ _, True) (<[path:=created host KSocket 511]> nodes)) as Ho.
  { split; [|unfold secured; by rewrite lookup_insert_ne].
    exists (created host KSocket 511). rewrite lookup_insert_eq. split; [done|]. split; [|done].
    unfold confined, created. cbn [nd_kind nd_mode nd_gid].
    rewrite !(umask_hides _ _ _ Humask) by done. done. }
  split; [done|]. by eapply ours_covered.
Qed.

(** The descriptor may or may not be the entry. *)
Lemma descriptor_stage f (N N' : Node → Prop) :
  (sh_descriptor_is_entry host = true → ∀ n, confined n → N n → confined (f n) ∧ N' (f n)) →
  sr_triple (stage (ours N)) (on_descriptor host f path)
    (λ _, stage (ours (λ n, sh_descriptor_is_entry host = true → N' n)))
    (stage (ours (λ _, True))).
Proof.
  intros HN. unfold on_descriptor. destruct (sh_descriptor_is_entry host) eqn:Hd.
  { eapply triple_weaken; [apply (entry_stage f N N'); auto|done| |done].
    intros ? t. apply ours_weaken. auto. }
  eapply triple_weaken; [apply (stage_change _ (ours (λ _, True)) (ours (λ _, True)))|..].
  - intros nodes nodes' Ho [= <-]. split; [done|]. by eapply ours_covered.
  - intros t. by apply ours_weaken.
  - intros ? t. by apply ours_weaken.
  - done.
Qed.

Lemma configure_socket_stage :
  sr_triple (stage (ours (λ _, True))) (configure_socket host path greeter)
    (λ _, stage (ours (λ n, n = mkNode KSocket 0 (gi_gid greeter) 432)))
    (stage (ours (λ _, True))).
Proof.
  pose (any := λ _ : Node, True).
  assert (∀ N p n t, stage (λ nodes, ours N nodes ∧ nodes !! p = n) t → stage (ours N) t) as Hsee.
  { intros N p n t. apply stage_weaken. by intros nodes [? _]. }
  assert (∀ N t, stage (ours N) t → stage (ours any) t) as Hany.
  { intros N t. by apply ours_weaken. }
  unfold configure_socket. eapply triple_bind.
  { apply (descriptor_stage _ _ (λ n, nd_gid n = gi_gid greeter)).
    by intros _ n (? & ? & _) _. }
  intros []. eapply triple_bind.
  { apply (descriptor_stage _ _ any). intros Hd n (? & _ & _) Hg. split; [|done].
    by split_and!; [|..|intros _; apply Hg]. }
  intros []. eapply triple_bind; [apply stage_see|]. intros n1.
  eapply (triple_bind _ _ _ (λ _, stage (ours any))).
  { apply triple_lift; eauto. }
  intros n2. eapply (triple_bind _ _ _ (λ _, stage (ours any))); [apply triple_ensure; auto|].
  intros []. eapply (triple_bind _ _ _ (λ _, stage (ours any))); [apply triple_ensure; auto|].
  intros []. eapply triple_bind.
  { apply (entry_stage _ _ (λ n, nd_uid n = 0 ∧ nd_gid n = gi_gid greeter)).
    by intros n (? & ? & _) _. }
  intros []. eapply triple_bind.
  { apply (entry_stage _ _ (λ n, n = mkNode KSocket 0 (gi_gid greeter) 432)).
    intros [] (? & _ & _) [? ?]. cbn in *. subst. done. }
  intros []. eapply triple_bind; [apply stage_see|]. intros n3.
  eapply (triple_bind _ _ _ (λ _, stage (ours (λ n, n = mkNode KSocket 0 (gi_gid greeter) 432)))).
  { apply triple_lift; eauto. }
  intros n4. apply triple_ensure; eauto.
Qed.

Lemma bind_socket_stage :
  sr_triple (stage untouched) (bind_socket host path greeter)
    (λ _, stage (λ nodes, nodes !! path = Some (mkNode KSocket 0 (gi_gid greeter) 432) ∧
                          secured nodes))
    (stage (λ nodes, covered (nodes !! path))).
Proof.
  unfold bind_socket. rewrite Hdir. cbn [ok_or].
  eapply (triple_bind _ _ _ (λ d t, d = dir ∧ stage untouched t)).
  { apply triple_lift; [by intros t a ? [= <-]|]. intros t. apply stage_weaken, untouched_covered. }
  intros d t [-> Ht]. revert t Ht.
  eapply triple_bind; [apply prepare_runtime_dir_stage|intros []].
  eapply triple_bind; [apply secure_runtime_dir_stage|intros []].
  eapply triple_bind; [apply remove_stale_socket_stage|intros []].
  eapply triple_bind; [apply bind_entry_stage|intros []].
  intros t Ht. pose proof (configure_socket_stage t Ht) as HC.
  destruct (configure_socket host path greeter t) as [t1 [[]|e]].
  - eapply stage_weaken; [|exact HC]. by intros nodes [(n & ? & _ & ->) ?].
  - assert (sr_triple (stage (λ nodes, covered (nodes !! path))) (remove_file host path)
      (λ _, stage (λ nodes, covered (nodes !! path)))
      (stage (λ nodes, covered (nodes !! path)))) as HR.
    { apply stage_change. intros nodes nodes' Hc. destruct (nodes !! path); [|done].
      intros [= <-]. rewrite lookup_delete_eq. by split; right; left. }
    specialize (HR t1 (stage_weaken _ _ _ (ours_covered _) HC)).
    by destruct (remove_file host path t1) as [t2 []].
Qed.
End Exposure.

(** C26. The greeter's socket is never open to anyone else.  With the umask the
    service is given, whatever calls fail and wherever the start stops, in
    every state of the file system on the way the entry of the socket is what
    was there before, is absent, or is a socket with nothing for others and
    with group permissions only for the greeter's group; and when binding
    succeeds it is a socket of root and the greeter's group with mode 0660, in
    a directory of the daemon that only one group may traverse: the greeter's
    when the daemon runs as root, and otherwise the daemon's own. *)
Theorem greeter_socket_never_exposed (host : StartHost) (path dir : string)
    (greeter : GreeterIdentity) (t t' : Tree) (r : result () StartError) :
  parent path = Some dir → Z.land (sh_umask host) 63 = 63 →
  bind_socket host path greeter t = (t', r) →
  (∃ new, tr_past t' = new ++ tr_past t ∧
     Forall (λ nodes, covered path greeter t (nodes !! path)) new) ∧
  covered path greeter t (tr_nodes t' !! path) ∧
  (r = Ok () →
   tr_nodes t' !! path = Some (mkNode KSocket 0 (gi_gid greeter) 432) ∧
   secured host dir greeter (tr_nodes t')).
Proof.
  intros Hdir Hu HB.
  assert (stage path greeter t (untouched path t) t) as H0 by (split; [by exists []|done]).
  pose proof (bind_socket_stage host path dir greeter t Hdir Hu t H0) as HS.
  rewrite HB in HS. destruct r as [[]|e].
  - destruct HS as [HN [Hp Hs]]. split; [done|]. rewrite Hp. split; [|done].
    right; right. eexists. split; [done|]. by split_and!.
  - destruct HS as [HN Hc]. by split_and!.
Qed.

(** ** The greeter is found, or the start fails *)

Lemma greeter_lookup_total lookup username k i size :
  NSS_BUFFER_MAX < size * 2 * 2 ^ Z.of_nat k → 0 < size →
  ∃ r, greeter_lookup (S k) i lookup size username = Some r ∧
    match r with Ok g => gi_uid g ≠ 0 ∧ gi_gid g ≠ 0 | Err _ => True end.
Proof.
  revert i size. induction k as [|k IH]; intros i size Hs Hp.
  - cbn [greeter_lookup]. destruct (lookup i size) as [g| | |]; try by eexists.
    + eexists. split; [done|]. unfold validate_greeter_identity.
      destruct (Z.eqb_spec (gi_uid g) 0); [done|]. by destruct (Z.eqb_spec (gi_gid g) 0).
    + change (2 ^ Z.of_nat 0) with 1 in Hs.
      destruct (_ && _) eqn:Hb; [bool_facts; lia|by eexists].
  - cbn [greeter_lookup]. destruct (lookup i size) as [g| | |]; try by eexists.
    + eexists. split; [done|]. unfold validate_greeter_identity.
      destruct (Z.eqb_spec (gi_uid g) 0); [done|]. by destruct (Z.eqb_spec (gi_gid g) 0).
    + destruct (_ && _) eqn:Hb; [|by eexists]. apply IH; [|lia].
      rewrite Nat2Z.inj_succ, Z.pow_succ_r in Hs by lia. lia.
Qed.

(** C29. Looking up the greeter ends: the buffer doubles from at least one byte
    and never beyond a megabyte, so 21 calls of NSS are enough whatever it
    answers and whatever size the system suggests; an identity that comes out
    is neither the superuser nor in its group. *)
Theorem greeter_resolution_terminates (lookup : nat → Z → NssLookupResult) (configured : Z)
    (username : string) :
  ∃ r, resolve_greeter_identity 21 configured lookup username = Some r ∧
    match r with Ok g => gi_uid g ≠ 0 ∧ gi_gid g ≠ 0 | Err _ => True end.
Proof.
  unfold resolve_greeter_identity. destruct (str_contains_byte NUL username); [by eexists|].
  assert (0 < nss_initial_buffer_size configured) as Hn.
  { unfold nss_initial_buffer_size. destruct (_ && _) eqn:Hb; [bool_facts; lia|done]. }
  apply (greeter_lookup_total lookup username 20); [|done].
  change (2 ^ Z.of_nat 20) with 1048576. unfold NSS_BUFFER_MAX. lia.
Qed.

(** ** Only trusted binaries run as root *)

(** What makes a directory, and an executable, trusted. *)
Definition trusted_dir (fs : SessionFs) (node : string) : Prop :=
  ∃ m, sf_symlink_metadata fs node = Some m ∧ fm_is_symlink m = false ∧ meta_is_dir m = true ∧
    fm_uid m = 0 ∧ Z.land (fm_mode m) UNTRUSTED_BITS = 0.
Definition trusted_executable (fs : SessionFs) (path : string) : Prop :=
  is_absolute path = true ∧
  (∃ m, sf_symlink_metadata fs path = Some m ∧ fm_is_symlink m = false ∧ fm_is_file m = true ∧
     Z.land (fm_mode m) EXECUTE_BITS ≠ 0 ∧ fm_uid m = 0 ∧
     Z.land (fm_mode m) UNTRUSTED_BITS = 0) ∧
  ∀ up node, parent path = Some up → ancestor up node → trusted_dir fs node.

Section TrustFacts.
Context (fs : SessionFs).

Lemma validate_dir_exact node role :
  validate_trusted_node fs node false role = Ok () ↔ trusted_dir fs node.
Proof.
  unfold validate_trusted_node, trusted_dir, has_trusted_owner_and_permissions.
  destruct (sf_symlink_metadata fs node) as [m|]; [|split; [done|by intros (? & ? & _)]].
  split.
  - destruct (fm_is_symlink m) eqn:H1; [done|]. cbn. destruct (meta_is_dir m) eqn:H2; [|done].
    cbn. destruct (_ && _) eqn:Hb; [|done]. intros _. bool_facts. by exists m.
  - intros (? & [= <-] & -> & -> & -> & ->). done.
Qed.
Lemma validate_parents_exact rounds path role :
  (String.length path < rounds)%nat →
  validate_parents fs rounds (Some path) role = Ok () ↔
  ∀ node, ancestor path node → trusted_dir fs node.
Proof.
  revert path. induction rounds as [|rounds IH]; intros path Hr; [lia|].
  cbn [validate_parents]. destruct (validate_trusted_node fs path false role) as [[]|e] eqn:Hn.
  2: { split; [done|]. intros H. specialize (H path (anc_self _)).
       apply (validate_dir_exact _ role) in H. congruence. }
  apply validate_dir_exact in Hn. destruct (parent path) as [next|] eqn:Hp.
  - rewrite IH by (apply parent_shorter in Hp; lia). split.
    + intros H node [->|(next' & Hn' & Ha)]%ancestor_first; [done|]. simplify_eq. auto.
    + intros H node Ha. apply H. by eapply ancestor_up.
  - destruct rounds; split; try done.
    all: intros _ node [->|(next' & Hn' & Ha)]%ancestor_first; [done|congruence].
Qed.
Lemma validate_trusted_executable_exact path role :
  validate_trusted_executable fs path role = Ok () ↔ trusted_executable fs path.
Proof.
  unfold validate_trusted_executable, validate_basic_executable, validate_trusted_node,
    trusted_executable, has_trusted_owner_and_permissions.
  destruct (is_absolute path); cbn; [|split; [done|by intros [? _]]].
  destruct (sf_symlink_metadata fs path) as [m|]; [|split; [done|by intros (_ & (? & ? & _) & _)]].
  destruct (fm_is_symlink m) eqn:Hl.
  { split; [done|]. intros (_ & (? & [= <-] & ? & _) & _). congruence. }
  destruct (fm_is_file m) eqn:Hf; cbn.
  2: { split; [done|]. intros (_ & (? & [= <-] & _ & ? & _) & _). congruence. }
  destruct (Z.eqb_spec (Z.land (fm_mode m) EXECUTE_BITS) 0) as [Hx|Hx].
  { split; [done|]. by intros (_ & (? & [= <-] & _ & _ & ? & _) & _). }
  destruct (_ && _) eqn:Ht; cbn.
  2: { split; [done|]. intros (_ & (? & [= <-] & _ & _ & _ & E1 & E2) & _).
       rewrite E1, E2 in Ht. done. }
  bool_facts. destruct (parent path) as [up|] eqn:Hp.
  - rewrite validate_parents_exact by (by apply parent_shorter). split.
    + intros H1. split; [done|]. split; [by exists m|]. intros up' node [= <-]. apply H1.
    + intros (_ & _ & H1) node. by apply H1.
  - split; [|by destruct (String.length path)]. intros _. split; [done|]. by split; [exists m|].
Qed.
End TrustFacts.

(** C27. With PAM the daemon starts only over trusted binaries: when the
    configured backend is PAM and building it succeeds, the launcher is the
    worker's with the configured paths, its timeout is between 1 and 60
    seconds, and the worker, the session child and the probe are each an
    absolute path to an executable regular file of root, not a link, not
    writable by anyone else and without set-id bits, every directory above
    which is likewise root's and no link.  A PAM daemon without the worker
    launcher does not start. *)
Theorem pam_backend_is_trusted (fs : SessionFs) (env : string → option string)
    (ledger_opens : bool) (config : Config) (backend : LoginBackend) :
  ac_backend (cg_auth config) = AuthPam →
  build_login_backend fs env ledger_opens config = Ok backend →
  let s := cg_session config in
  se_launcher s = LauncherWorker ∧ ledger_opens = true ∧
  1 ≤ se_worker_timeout_seconds s ≤ 60 ∧
  backend = PamWorkerLoginBackend
    (mkWorkerLauncher (se_worker_path s) (se_child_path s) (se_probe_path s)
       (se_worker_timeout_seconds s) (real_graphical_gate_environment env))
    (ac_pam_service (cg_auth config)) ∧
  Forall (trusted_executable fs) [se_worker_path s; se_child_path s; se_probe_path s].
Proof.
  intros Hpam. unfold build_login_backend, build_worker_session_launcher, validate_worker_binary.
  rewrite Hpam. destruct (se_launcher (cg_session config)); [done|].
  unfold validate_worker_timeout. destruct (_ && _) eqn:Ht; [|done]. bool_facts.
  destruct (is_absolute (se_worker_path (cg_session config))) eqn:Ha; [|done]. cbn.
  destruct (validate_trusted_executable fs (se_worker_path _) RoleWorker) as [[]|] eqn:Hw; [|done].
  destruct (validate_trusted_executable fs (se_child_path _) RoleChild) as [[]|] eqn:Hc; [|done].
  destruct (validate_trusted_executable fs (se_probe_path _) RoleProbe) as [[]|] eqn:Hp; [|done].
  apply validate_trusted_executable_exact in Hw, Hc, Hp.
  unfold new_persistent. destruct (_ || _ || _); [done|]. destruct ledger_opens; [|done].
  cbn. intros [= <-]. split_and!; try done. by rewrite !Forall_cons, Forall_nil.
Qed.

(** ** Connections are bounded *)

(** Every slot that is taken is a thread that runs or one that panicked: the
    limit is never passed, and as long as no thread panics a connection is
    refused only when [MAX_GREETER_CONNECTIONS] are served. *)
Theorem connections_bounded (events : list ServerEvent) :
  let s := server_run events (mkServer 0 0 0) in
  sv_active s = sv_threads s + sv_panicked s ∧ 0 ≤ sv_threads s ∧ 0 ≤ sv_panicked s ∧
  sv_threads s ≤ MAX_GREETER_CONNECTIONS ∧
  (server_step s Accepted = s ↔ sv_threads s + sv_panicked s = MAX_GREETER_CONNECTIONS).
Proof.
  assert (∀ s, (sv_active s = sv_threads s + sv_panicked s ∧ 0 ≤ sv_threads s ∧
    0 ≤ sv_panicked s ∧ sv_active s ≤ MAX_GREETER_CONNECTIONS) →
    let s := server_run events s in
    sv_active s = sv_threads s + sv_panicked s ∧ 0 ≤ sv_threads s ∧ 0 ≤ sv_panicked s ∧
    sv_active s ≤ MAX_GREETER_CONNECTIONS) as HI.
  { unfold server_run, flip. induction events as [|e events IH]; [done|]. intros s Hs. cbn.
    apply IH. destruct e; cbn; [destruct (Z.leb_spec MAX_GREETER_CONNECTIONS (sv_active s))
      | |destruct (Z.ltb_spec 0 (sv_threads s))..]; cbn; lia. }
  destruct (HI (mkServer 0 0 0)) as (H1 & H2 & H3 & H4); [done|].
  cbn zeta. set (s := server_run _ _) in *. split_and!; [done..|lia|]. cbn.
  destruct (Z.leb_spec MAX_GREETER_CONNECTIONS (sv_active s)); split; try lia; try done.
  destruct s. cbn. intros [=]. lia.
Qed.
