(* ===== verification/AdminSocket.v ===== *)
(** * The recovery administration socket

    [niralisd/src/server/recovery_admin.rs]: the root-only socket, and the
    server that answers one packet per connection; and
    [send_recovery_request] of [niralisctl/src/main/commands.rs], the client.
    A packet is received whole or not at all ([SOCK_SEQPACKET], with its real
    length by [MSG_TRUNC]). *)

From stdpp Require Import base gmap sets list strings.
From Stdlib Require Import ZArith Lia.
From S2P Require Import Prelude Text Paths DirFs RecoveryTypes LedgerTaxonomy.
From S2P Require Import Ledger.
From S2P Require Import PreviousBoot PreCommit SameBoot Admission Protocol.
From S2P Require Import Daemon.
From S2P Require Import AdminRecovery Client.
From S2P Require Import LaunchSpec SessionDiscovery UserDiscovery DaemonStart.
From S2P Require Import Ctl.
#[local] Open Scope niralis_scope.

Definition RECOVERY_ADMIN_PROTOCOL_VERSION : Z := 1.
Definition MAX_RECOVERY_ADMIN_PACKET_BYTES : Z := 16 * 1024.
Definition ADMIN_DIR : string := "/run/niralis/recovery-admin".
Definition ADMIN_SOCKET : string := "/run/niralis/recovery-admin/recovery.sock".

Record RecoveryAdminEnvelope (T : Type) := mkAdminEnvelope {
  ae_version : Z;
  ae_message : T;
}.
Arguments mkAdminEnvelope {T}.
Arguments ae_version {T}.
Arguments ae_message {T}.

(** ** Binding *)

Section Bind.
Context (host : StartHost).

(** [symlink_metadata] of the path, with its owner, mode and kind. *)
Definition validate_root_path (path : string) (directory : bool) : TR () :=
  let* n := see_node path in
  let* n := sr_lift (ok_or n StartIo) in
  ensure (nd_uid n =? 0) && (nd_gid n =? 0)
         && (Z.land (nd_mode n) 511 =? if directory then 448 else 384)
         && (if directory then is_dir n else is_socket n)
    else InvalidSocketPath path.
(** [fs::create_dir]. *)
Definition create_dir (path : string) : TR () :=
  change host (λ nodes, match nodes !! path with
                        | None => Some (<[path := created host KDir 511]> nodes)
                        | Some _ => None
                        end).
(** [socket] and [listen], which change nothing in the tree. *)
Definition socket_call : TR () := change host Some.
Definition socket_address (path : string) : TR () :=
  ensure negb ((108 <=? str_len path) || str_contains_byte NUL path)
    else InvalidSocketPath path.

Definition bind_admin_socket : TR () :=
  let* d := see_node ADMIN_DIR in
  (if exists_ d then sr_ret () else create_dir ADMIN_DIR ;;; chmod host ADMIN_DIR 448) ;;;
  validate_root_path ADMIN_DIR true ;;;
  let* s := see_node ADMIN_SOCKET in
  ensure negb (exists_ s) else InvalidSocketPath ADMIN_SOCKET ;;;
  socket_call ;;;
  socket_address ADMIN_SOCKET ;;;
  bind_entry host ADMIN_SOCKET ;;;
  chmod host ADMIN_SOCKET 384 ;;;
  validate_root_path ADMIN_SOCKET false ;;;
  socket_call.
End Bind.

(** ** Serving *)

Definition display_backend_error (e : LoginBackendError) : string :=
  match e with
  | LbAuthenticationFailed => "authentication failed"
  | LbAuthenticatedSessionFailed => "authenticated session failed"
  | LbInfrastructureFailed => "login infrastructure failed"
  | LbSeatUnavailable => "session seat is unavailable"
  | LbWorkerDiedAndWasRecovered => "session worker died and was recovered"
  | LbWorkerRecoveryIncomplete => "session worker recovery is incomplete"
  end.

Inductive AdminServerError :=
| AdminPeerUnavailable | AdminPermissionDenied | AdminReceiveFailed | AdminPacketSize
| AdminEncodeFailed | AdminResponseTooLarge | AdminSendFailed | AdminPartialPacket.

(** One accepted connection: the uid of its peer, the packet that arrives and
    what [send] returns for the reply. *)
Record AdminConnection := mkAdminConnection {
  an_peer_uid : option Z;
  an_packet : option string;
  an_send : string → Z;
}.

Section Serve.
Context `{!SerdeJson (RecoveryAdminEnvelope RecoveryAdminRequest)}.
Context `{!SerdeJson (RecoveryAdminEnvelope RecoveryAdminResponse)}.
(** [trait RecoveryAdminHandler]: the reason of a refusal is a text. *)
Context {H : Type} (handle_recovery_admin : RecoveryAdminRequest → SR H string RecoveryAdminResponse).
Abbreviation HS := (SR H AdminServerError).

Definition rejected (reason : string) : RecoveryAdminResponse := Rejected reason None.
Definition admin_response (packet : string) : HS RecoveryAdminResponse := λ h,
  match serde_from_slice packet with
  | Some e =>
      if ae_version e =? RECOVERY_ADMIN_PROTOCOL_VERSION
      then match handle_recovery_admin (ae_message e) h with
           | (h, Ok message) => (h, Ok message)
           | (h, Err reason) => (h, Ok (rejected reason))
           end
      else (h, Ok (rejected "unsupported recovery administration protocol version"))
  | None => (h, Ok (rejected "invalid recovery administration request"))
  end.

Definition send_reply (c : AdminConnection) (response : RecoveryAdminResponse) : HS string :=
  let* encoded := sr_lift (ok_or (serde_to_vec
    (mkAdminEnvelope RECOVERY_ADMIN_PROTOCOL_VERSION response)) AdminEncodeFailed) in
  ensure str_len encoded <=? MAX_RECOVERY_ADMIN_PACKET_BYTES else AdminResponseTooLarge ;;;
  let written := an_send c encoded in
  ensure 0 <=? written else AdminSendFailed ;;;
  ensure written =? str_len encoded else AdminPartialPacket ;;;
  sr_ret encoded.

(** The reply that was sent. *)
Definition handle_connection (c : AdminConnection) : HS string :=
  let* uid := sr_lift (ok_or (an_peer_uid c) AdminPeerUnavailable) in
  ensure uid =? 0 else AdminPermissionDenied ;;;
  let* packet := sr_lift (ok_or (an_packet c) AdminReceiveFailed) in
  ensure negb ((str_len packet =? 0) || (MAX_RECOVERY_ADMIN_PACKET_BYTES <? str_len packet))
    else AdminPacketSize ;;;
  let* response := admin_response packet in
  send_reply c response.

(** The loop; a failed [accept4] is [None]. *)
Definition admin_serve (connections : list (option AdminConnection)) (h : H) : H :=
  foldl (λ h c, match c with Some c => (handle_connection c h).1 | None => h end) h connections.
End Serve.

(** The handler of a daemon whose backend is PAM's: the supervisor's. *)
Definition daemon_admin `{!SerdeJson PersistentRecoveryRecord} (boot : result string IoError)
    (host : RecoveryAdminHost) (request : RecoveryAdminRequest)
    : SR SupervisorAdmin string RecoveryAdminResponse :=
  sr_map_err (λ e, display_backend_error (map_session_error e))
    (recovery_admin boot host request).

(** ** The client *)

(** What the calls of the client answer; the packet that comes back depends on
    the one that was sent. *)
Record AdminClientHost := mkAdminClientHost {
  ah_socket : bool;
  ah_connect : bool;
  ah_send : string → bool;
  ah_receive : string → option string;
}.

Section SendRecovery.
Context `{!SerdeJson (RecoveryAdminEnvelope RecoveryAdminRequest)}.
Context `{!SerdeJson (RecoveryAdminEnvelope RecoveryAdminResponse)}.

Definition send_recovery_request (host : AdminClientHost) (request : RecoveryAdminRequest)
    : result RecoveryAdminResponse CliError :=
  if negb (ah_socket host) then Err CliIo
  else if (108 <=? str_len ADMIN_SOCKET) || str_contains_byte NUL ADMIN_SOCKET
  then Err (RecoveryProtocol "invalid recovery administration socket path")
  else if negb (ah_connect host) then Err CliIo
  else match serde_to_vec (mkAdminEnvelope RECOVERY_ADMIN_PROTOCOL_VERSION request) with
  | None => Err CliJson
  | Some bytes =>
      if MAX_RECOVERY_ADMIN_PACKET_BYTES <? str_len bytes
      then Err (RecoveryProtocol "request too large")
      else if negb (ah_send host bytes) then Err CliIo
      else match ah_receive host bytes with
      | None => Err (RecoveryProtocol "invalid response packet")
      | Some packet =>
          if (str_len packet =? 0) || (MAX_RECOVERY_ADMIN_PACKET_BYTES <? str_len packet)
          then Err (RecoveryProtocol "invalid response packet")
          else match serde_from_slice packet with
          | None => Err CliJson
          | Some e =>
              if ae_version e =? RECOVERY_ADMIN_PROTOCOL_VERSION then Ok (ae_message e)
              else Err (RecoveryProtocol "unsupported response version")
          end
      end
  end.
End SendRecovery.

(** ** The commands of the client *)

Inductive Command :=
| CmdStatus | CmdUsers | CmdSessions
| CmdLogin (user : string) (password_stdin : bool) (session : string)
| CmdInspectVt (seat record_id : string) (json : bool)
| CmdRetryVtDisallocate (seat record_id : string) (record_sequence : Z)
    (acknowledge_indeterminate : option Z).

(** The request a command makes: to the root-only socket, or to the daemon's. *)
Definition command_request (euid : Z) (stdin : Stream) (c : Command)
    : result (RecoveryAdminRequest * bool + NiralisRequest) CliError :=
  let recovery request json :=
    if euid =? 0 then Ok (inl (request, json)) else Err RecoveryRequiresRoot in
  match c with
  | CmdInspectVt seat record_id json => recovery (InspectVt seat record_id) json
  | CmdRetryVtDisallocate seat record_id sequence acknowledge =>
      recovery (RetryVtDisallocate seat record_id sequence acknowledge) false
  | CmdStatus => Ok (inr ReqStatus)
  | CmdUsers => Ok (inr ReqGetUsers)
  | CmdSessions => Ok (inr ReqGetSessions)
  | CmdLogin user password_stdin session =>
      if negb password_stdin then Err PasswordStdinRequired
      else match read_password_line stdin with
           | Ok password => Ok (inr (ReqLogin user password session))
           | Err e => Err e
           end
  end.

(** ** What the socket guarantees *)

Section AdminSocketClaims.
Context `{!SerdeJson (RecoveryAdminEnvelope RecoveryAdminRequest)}.
Context `{!SerdeJson (RecoveryAdminEnvelope RecoveryAdminResponse)}.

(** The request of a connection, if it is one the server acts on. *)
Definition root_request (c : option AdminConnection) : option RecoveryAdminRequest :=
  c ← c; uid ← an_peer_uid c; packet ← an_packet c;
  if (uid =? 0) && (0 <? str_len packet) && (str_len packet <=? MAX_RECOVERY_ADMIN_PACKET_BYTES)
  then e ← serde_from_slice packet;
       if ae_version e =? RECOVERY_ADMIN_PROTOCOL_VERSION then Some (ae_message e) else None
  else None.

Lemma send_reply_state {H} c response (h : H) : (send_reply c response h).1 = h.
Proof.
  unfold send_reply. rewrite sr_bind_eq. destruct (serde_to_vec _); cbn; [|done].
  rewrite !sr_bind_eq. destruct (_ <=? _); cbn; [|done]. rewrite sr_bind_eq.
  destruct (0 <=? _); cbn; [|done]. rewrite sr_bind_eq. by destruct (_ =? _).
Qed.
Lemma handle_connection_state {H} (handler : RecoveryAdminRequest → SR H string RecoveryAdminResponse)
    c h :
  (handle_connection handler c h).1 =
  match root_request (Some c) with Some request => (handler request h).1 | None => h end.
Proof.
  unfold handle_connection, root_request. rewrite !sr_bind_eq. cbn.
  destruct (an_peer_uid c) as [uid|]; cbn; [|done]. rewrite sr_bind_eq.
  destruct (uid =? 0); cbn; [|by destruct (an_packet c)].
  destruct (an_packet c) as [packet|]; cbn; [|done]. rewrite sr_bind_eq.
  assert (0 ≤ str_len packet) as Hl by (unfold str_len; lia).
  destruct (Z.eqb_spec (str_len packet) 0), (Z.ltb_spec 0 (str_len packet)),
    (Z.ltb_spec MAX_RECOVERY_ADMIN_PACKET_BYTES (str_len packet)),
    (Z.leb_spec (str_len packet) MAX_RECOVERY_ADMIN_PACKET_BYTES); try lia; try done.
  cbn. rewrite sr_bind_eq. unfold admin_response.
  destruct (serde_from_slice packet) as [e|]; cbn -[send_reply]; [|apply send_reply_state].
  destruct (ae_version e =? RECOVERY_ADMIN_PROTOCOL_VERSION); cbn -[send_reply];
    [|apply send_reply_state].
  destruct (handler (ae_message e) h) as [h' [m|reason]]; apply send_reply_state.
Qed.

(** C28. The administration socket acts for root alone: whatever connections
    come and whatever they send, the state of the recovery ledger, the seat
    and the terminals after them is what the handler makes of the requests of
    root, one after the other and nothing in between; a peer that is not root
    or is unknown, an empty or oversized packet, one that does not parse or
    one of another version changes nothing. *)
Theorem admin_socket_acts_for_root {H}
    (handler : RecoveryAdminRequest → SR H string RecoveryAdminResponse)
    (connections : list (option AdminConnection)) (h : H) :
  admin_serve handler connections h =
  foldl (λ h request, (handler request h).1) h (omap root_request connections).
Proof.
  revert h. induction connections as [|c rest IH]; intros h; [done|]. cbn [omap list_omap].
  unfold admin_serve in *. cbn [foldl]. rewrite IH. destruct c as [c|]; [|done].
  rewrite handle_connection_state. by destruct (root_request (Some c)).
Qed.

(** The client and the server agree: a request of root that fits a packet
    comes back as the handler's response, or as its refusal. *)
Theorem admin_request_answered {H}
    (handler : RecoveryAdminRequest → SR H string RecoveryAdminResponse)
    (request : RecoveryAdminRequest) (h : H) (bytes reply : string) :
  let response := match (handler request h).2 with
                  | Ok message => message
                  | Err reason => rejected reason
                  end in
  let question := mkAdminEnvelope RECOVERY_ADMIN_PROTOCOL_VERSION request in
  let answer := mkAdminEnvelope RECOVERY_ADMIN_PROTOCOL_VERSION response in
  serde_to_vec question = Some bytes → serde_from_slice bytes = Some question →
  0 < str_len bytes ≤ MAX_RECOVERY_ADMIN_PACKET_BYTES →
  serde_to_vec answer = Some reply → serde_from_slice reply = Some answer →
  0 < str_len reply ≤ MAX_RECOVERY_ADMIN_PACKET_BYTES →
  let receive packet :=
    match (handle_connection handler (mkAdminConnection (Some 0) (Some packet) str_len) h).2 with
    | Ok reply => Some reply
    | Err _ => None
    end in
  send_recovery_request (mkAdminClientHost true true (λ _, true) receive) request = Ok response.
Proof.
  intros response question answer Hq Hqp Hql Ha Hap Hal receive.
  assert (receive bytes = Some reply) as HR.
  { unfold receive, handle_connection. rewrite !sr_bind_eq. cbn -[send_reply]. rewrite sr_bind_eq.
    rewrite (proj2 (Z.eqb_neq (str_len bytes) 0)) by lia.
    rewrite (proj2 (Z.ltb_ge MAX_RECOVERY_ADMIN_PACKET_BYTES (str_len bytes))) by lia.
    cbn -[send_reply]. rewrite sr_bind_eq. unfold admin_response. rewrite Hqp.
    cbn -[send_reply]. unfold response in *. clear Hap. destruct (handler request h) as [h' r].
    cbn [snd] in *.
    assert ((send_reply (mkAdminConnection (Some 0) (Some bytes) str_len)
      (match r with Ok m => m | Err reason => rejected reason end) h').2 = Ok reply) as HS.
    { unfold send_reply. rewrite sr_bind_eq. fold answer. rewrite Ha. cbn.
      rewrite !sr_bind_eq, (proj2 (Z.leb_le _ _) (proj2 Hal)). cbn. rewrite sr_bind_eq.
      rewrite (proj2 (Z.leb_le 0 (str_len reply))) by lia. cbn.
      by rewrite sr_bind_eq, Z.eqb_refl. }
    destruct r; by rewrite HS. }
  unfold send_recovery_request. cbn -[receive MAX_RECOVERY_ADMIN_PACKET_BYTES]. fold question.
  rewrite Hq, (proj2 (Z.ltb_ge MAX_RECOVERY_ADMIN_PACKET_BYTES (str_len bytes))) by lia.
  rewrite HR, (proj2 (Z.eqb_neq (str_len reply) 0)) by lia.
  rewrite (proj2 (Z.ltb_ge MAX_RECOVERY_ADMIN_PACKET_BYTES (str_len reply))) by lia.
  by rewrite Hap.
Qed.
End AdminSocketClaims.

(** ** The socket is root's, and bound once *)

Lemma see_node_ok p t t' n : see_node p t = (t', Ok n) → t' = t ∧ n = tr_nodes t !! p.
Proof. by intros [= <- <-]. Qed.
Lemma validate_root_path_ok p d t t' :
  validate_root_path p d t = (t', Ok ()) →
  t' = t ∧ ∃ n, tr_nodes t !! p = Some n ∧ nd_uid n = 0 ∧ nd_gid n = 0 ∧
    Z.land (nd_mode n) 511 = (if d then 448 else 384) ∧
    nd_kind n = (if d then KDir else KSocket).
Proof.
  unfold validate_root_path. intros (t1 & n & [-> ->]%see_node_ok & H)%bind_ok.
  apply bind_ok in H as (t2 & n & [-> Hn%ok_or_ok]%lift_ok & H).
  apply ensure_ok in H as [-> H]. bool_facts. split; [done|]. exists n.
  unfold is_dir, is_socket in *. destruct d; bool_facts; done.
Qed.
Lemma change_ok host f t t' :
  change host f t = (t', Ok ()) → f (tr_nodes t) = Some (tr_nodes t').
Proof.
  unfold change. destruct (sh_calls host (tr_calls t)); [|done].
  destruct (f (tr_nodes t)) as [nodes|]; [|done]. by intros [= <-].
Qed.

(** When the administration socket is bound, it and its directory are root's
    and closed to everyone else; and a second start over the same directory is
    refused, because the socket that is left is never removed. *)
Theorem admin_socket_private_and_bound_once (host host' : StartHost) (t t' : Tree) :
  bind_admin_socket host t = (t', Ok ()) →
  (∃ d s, tr_nodes t' !! ADMIN_DIR = Some d ∧ tr_nodes t' !! ADMIN_SOCKET = Some s ∧
     nd_kind d = KDir ∧ Z.land (nd_mode d) 511 = 448 ∧
     nd_kind s = KSocket ∧ Z.land (nd_mode s) 511 = 384 ∧
     nd_uid d = 0 ∧ nd_gid d = 0 ∧ nd_uid s = 0 ∧ nd_gid s = 0) ∧
  (bind_admin_socket host' t').2 = Err (InvalidSocketPath ADMIN_SOCKET).
Proof.
  unfold bind_admin_socket at 1.
  intros (t1 & d0 & [-> _]%see_node_ok & H)%bind_ok.
  apply bind_ok in H as (t2 & [] & _ & H).
  apply bind_ok in H as (t3 & [] & [-> (d & Hd & Ud & Gd & Md & Kd)]%validate_root_path_ok & H).
  apply bind_ok in H as (t4 & s0 & [-> ->]%see_node_ok & H).
  apply bind_ok in H as (t5 & [] & [-> _]%ensure_ok & H).
  apply bind_ok in H as (t6 & [] & E6%change_ok & H). injection E6 as E6.
  apply bind_ok in H as (t7 & [] & [-> _]%ensure_ok & H).
  apply bind_ok in H as (t8 & [] & E8%change_ok & H).
  apply bind_ok in H as (t9 & [] & E9%change_ok & H).
  apply bind_ok in H as (t10 & [] & [-> (s & Hs & Us & Gs & Ms & Ks)]%validate_root_path_ok & H).
  apply change_ok in H. injection H as H.
  assert (tr_nodes t9 !! ADMIN_DIR = Some d) as Hd'.
  { unfold at_entry in E9. destruct (tr_nodes t8 !! ADMIN_SOCKET); [|done].
    injection E9 as <-. rewrite lookup_insert_ne by done.
    destruct (tr_nodes t6 !! ADMIN_SOCKET); [done|]. injection E8 as <-.
    rewrite lookup_insert_ne by done. congruence. }
  rewrite H in Hd', Hs. split; [exists d, s; split_and!; done|].
  unfold bind_admin_socket. rewrite sr_bind_eq. cbn [see_node]. rewrite Hd'.
  unfold exists_ at 1. rewrite Kd. rewrite sr_bind_eq. cbn [sr_ret].
  assert (validate_root_path ADMIN_DIR true t' = (t', Ok ())) as HV.
  { unfold validate_root_path. rewrite sr_bind_eq. cbn [see_node]. rewrite Hd', sr_bind_eq. cbn.
    unfold is_dir. by rewrite Ud, Gd, Md, Kd. }
  rewrite sr_bind_eq, HV, sr_bind_eq. cbn [see_node]. rewrite Hs. unfold exists_. rewrite Ks.
  done.
Qed.
