(* ===== verification/DialogueRuns.v ===== *)
(** * Dialogues and starts, run

    A login with [niralisctl] from PAM's callback to the terminal and back, and
    a daemon that starts: the theorems of [WorkerPam], [PamDialogue], [Ctl] and
    [DaemonStart] at inputs where their assumptions hold. *)

From stdpp Require Import base gmap sets list strings.
From Stdlib Require Import ZArith Lia.
From S2P Require Import Prelude Text Paths DirFs RecoveryTypes LedgerTaxonomy.
From S2P Require Import Ledger Codec.
From S2P Require Import PreviousBoot PreCommit SameBoot Admission Protocol.
From S2P Require Import Conversation Login Daemon Client WorkerRecord.
From S2P Require Import Supervisor Launch WireRuns.
From S2P Require Import LaunchSpec SessionDiscovery UserDiscovery.
From S2P Require Import WorkerPam PamDialogue Ctl DaemonStart.
#[local] Open Scope niralis_scope.

(** ** Serializers *)

#[export] Instance codec_PamMessageStyle : Codec PamMessageStyle.
Proof.
  refine (codec_via (λ s, match s with PromptEchoOff => 0 | PromptEchoOn => 1
    | Informational => 2 | StyleError => 3 end)
    (λ n, if n =? 0 then PromptEchoOff else if n =? 1 then PromptEchoOn
      else if n =? 2 then Informational else StyleError) _). by intros [].
Defined.
#[export] Instance codec_PamPromptEnvelope : Codec PamPromptEnvelope.
Proof.
  refine (codec_via
    (λ '(mkPromptEnvelope a b c d e f g h i j k l m), (a, b, c, d, e, f, g, h, i, j, k, l, m))
    (λ '(a, b, c, d, e, f, g, h, i, j, k, l, m), mkPromptEnvelope a b c d e f g h i j k l m) _).
  by intros [].
Defined.
#[export] Instance codec_PamPromptResponseEnvelope : Codec PamPromptResponseEnvelope.
Proof.
  refine (codec_via
    (λ '(mkPromptResponse a b c d e f g h i j k l m), (a, b, c, d, e, f, g, h, i, j, k, l, m))
    (λ '(a, b, c, d, e, f, g, h, i, j, k, l, m), mkPromptResponse a b c d e f g h i j k l m) _).
  by intros [].
Defined.

(** ** A login *)

Definition run_lease : AdmissionLease := mkLease "seat0" 2 "s-1" 4 (mkPreviousVt 1) None.
Definition run_binding : LoginRequestBinding := mkLoginBinding "g1-c1" 2 1 "seat0".
Definition run_authority : PamConversationAuthority :=
  mkAuthority "s-1" 2 "s-1" "seat0" 4 "g1-c1" 2 1 "s-1" "pam-s-1" 1 100 false None.
Definition run_asked : list (PamMessageStyle * string) :=
  [(PromptEchoOn, "login: "); (Informational, "Welcome"); (PromptEchoOff, "Password: ")]%string.

Definition run_driver : WorkerPamConversationDriver :=
  login_driver run_binding (launch_identity run_lease) "s-1" 42.

(** The conditions on lines, decided for one value. *)
Ltac crosses :=
  eexists; split; [reflexivity|]; split_and!;
  first [vm_compute; reflexivity | vm_compute; eexists; reflexivity].

Lemma run_lines :
  Forall (λ p, prompt_crosses p ∧
               reply_crosses p (expected_response "ana" "pw" (pp_style p)))
    (transcript run_driver 0 run_asked).
Proof.
  unfold run_asked. cbn [transcript].
  apply Forall_cons_2; [split|apply Forall_cons_2; [split|
    apply Forall_cons_2; [split|apply Forall_nil_2]]].
  all: lazymatch goal with
  | |- prompt_crosses _ => crosses
  | |- reply_crosses _ _ =>
      do 2 eexists; split; [reflexivity|]; split; [vm_compute; discriminate|]; cbv zeta;
      split; [reflexivity|]; split_and!; vm_compute; reflexivity
  end.
Qed.

Lemma ctl_login_conversation_witness :
  ∃ r, r = mkConverseResult PamSuccess (Some [Some "ana"; None; Some "pw"]%string) [] ∧
  (@converse _ (worker_driver (launcher_turn (λ _, 10)
       (ctl_greeter (mkSocketPam "g1-c1" 2 "seat0") (ReqLogin "ana" "pw" "niri")) (λ _, Ok ())
       "s-1" 42 4 2)) true (λ _, true)
     (mkConverseCall 3 (Some (pam_message <$> run_asked)) true true)
     (set_credentials "ana" "pw" (silent_with_driver
        (run_driver, mkLauncher true (mkRelay (Some run_authority) []) (Some "pw"%string))))).2 = r.
Proof.
  eexists. split; [reflexivity|].
  exact (ctl_login_conversation run_lease run_binding 42 (λ _, 10) 100 run_authority
    "ana" "pw" "niri" run_asked eq_refl eq_refl (λ _, eq_refl) eq_refl eq_refl eq_refl
    ltac:(repeat constructor) (le_n 1) run_lines).
Defined.

(** PAM asks once more after an answer that was refused: the dialogue is over. *)
Definition run_reply (n : Z) (name : string) : PamPromptResponseEnvelope :=
  reply_envelope (prompt_of (pd_with n n (login_driver run_binding (launch_identity run_lease)
                                            "s-1" 42)) PromptEchoOn "login: ")
    (RespText name) (match serde_to_vec (RespText name) with Some b => str_len b | None => 0 end).
Definition run_socket : Socket :=
  mkSocket (sent (run_reply 1 "ana") ++ sent (run_reply 1 "eve") ++ sent (run_reply 3 "ana")) [] [].
Definition run_questions (b : LoginRequestBinding) : list (result PamPromptResponse ()) :=
  questions (dialogue_respond (λ x, Z.of_nat x.2) (socket_greeter (connection_transport b))
               (λ _, Ok ()) "s-1" 42 4 2)
    [(PromptEchoOn, "login: "); (PromptEchoOn, "token: "); (PromptEchoOn, "login: ")]%string
    (login_driver b (launch_identity run_lease) "s-1" 42,
     mkLauncher true (mkRelay (login_authority run_lease b 42 "niri" 100) []) (run_socket, 0%nat)).

Example stale_answer_ends_the_dialogue :
  run_questions run_binding = [Ok (RespText "ana"); Err (); Err ()].
Proof. vm_compute. reflexivity. Qed.
Example foreign_seat_gets_no_answer :
  run_questions (mkLoginBinding "g1-c1" 2 1 "seat1") = [Err (); Err (); Err ()].
Proof. vm_compute. reflexivity. Qed.

(** The callback over a driver that answers and then is gone. *)
Definition fading_driver : PamConversationDriver nat := λ style _ n,
  match n with
  | O => (O, Err ())
  | S n => (n, Ok (match style with PromptEchoOff => RespSecret "pw"
                   | PromptEchoOn => RespText "ana" | _ => RespNone end))
  end.
Definition fading_call (asked : list (PamMessageStyle * string)) : ConverseCall :=
  mkConverseCall (Z.of_nat (length asked)) (Some (pam_message <$> asked)) true true.

Lemma converse_exact_witness :
  sp_failed (silent_with_driver 3%nat) = false ∧
  @ask_all _ fading_driver (pam_message <$> run_asked) (silent_with_driver 3%nat) =
    (silent_with_driver 0%nat, Ok [Some "ana"; None; Some "pw"]%string).
Proof.
  apply (@converse_exact _ fading_driver (fading_call run_asked)); reflexivity.
Defined.

(** A failed call leaves the password it had been given allocated. *)
Example failed_call_loses_the_password :
  (@converse _ fading_driver true (λ _, true)
     (fading_call [(PromptEchoOff, "Password: "); (PromptEchoOn, "token: ")]%string)
     (silent_with_driver 1%nat)).2 =
  mkConverseResult PamConvErr None ["pw"%string].
Proof. reflexivity. Qed.

(** ** A start *)

Definition run_host : StartHost := mkStartHost 0 0 63 (λ _, true) false.
Definition run_greeter_identity : GreeterIdentity := mkGreeterIdentity "niralis" 990 991.
(** A socket of an earlier daemon, open to everyone. *)
Definition run_tree : Tree :=
  mkTree {[ "/run"%string := mkNode KDir 0 0 493;
            "/run/niralis"%string := mkNode KDir 0 0 493;
            "/run/niralis/niralisd.sock"%string := mkNode KSocket 0 0 511 ]} 0 [].

Lemma greeter_socket_never_exposed_witness :
  let '(t', r) := bind_socket run_host DEFAULT_SOCKET_PATH run_greeter_identity run_tree in
  r = Ok () ∧
  tr_nodes t' !! DEFAULT_SOCKET_PATH = Some (mkNode KSocket 0 991 432) ∧
  secured run_host "/run/niralis" run_greeter_identity (tr_nodes t').
Proof.
  destruct (bind_socket run_host DEFAULT_SOCKET_PATH run_greeter_identity run_tree)
    as [t' r] eqn:HB.
  destruct (greeter_socket_never_exposed run_host DEFAULT_SOCKET_PATH "/run/niralis"
    run_greeter_identity run_tree t' r ltac:(vm_compute; reflexivity) eq_refl HB) as (_ & _ & HR).
  assert (r = Ok ()) as Hr by (vm_compute in HB; by injection HB as _ <-).
  split; [exact Hr|]. exact (HR Hr).
Defined.

Definition root_file (mode : Z) : FileMeta := mkFileMeta true false 0 mode 0.
Definition root_dir : FileMeta := mkFileMeta false false 0 16877 0.
Definition run_fs : SessionFs :=
  mkSessionFs (λ _, None)
    (λ p, if bool_decide (p ∈ ["/usr/libexec/niralis-session-worker";
                               "/usr/libexec/niralis-session-child";
                               "/usr/libexec/niralis-session-probe"]%string)
          then Some (root_file 33261)
          else if bool_decide (p ∈ ["/usr/libexec"; "/usr"; "/"]%string) then Some root_dir
          else None)
    (λ _, None) (λ _, None) (λ _, DirNotFound).

Lemma pam_backend_is_trusted_witness :
  ∃ backend, build_login_backend run_fs (λ _, None) true default_config = Ok backend ∧
    Forall (trusted_executable run_fs) ["/usr/libexec/niralis-session-worker";
      "/usr/libexec/niralis-session-child"; "/usr/libexec/niralis-session-probe"]%string.
Proof.
  destruct (build_login_backend run_fs (λ _, None) true default_config) as [backend|] eqn:HB;
    [|vm_compute in HB; discriminate HB].
  exists backend. split; [reflexivity|].
  destruct (pam_backend_is_trusted run_fs (λ _, None) true default_config backend eq_refl HB)
    as (_ & _ & _ & _ & HF). exact HF.
Defined.
