(* ===== verification/WorkerIdentity.v ===== *)
(** * Whom a session runs as

    The worker's view of users and privileges
    ([niralis-session-worker/src/identity], [privilege_drop], [isolation],
    [selinux.rs]): the passwd and group lookups of NSS with their growing
    buffers, the drop of the credentials and its verification, the audit of
    what a process still holds, and the SELinux context PAM left for the
    payload.  The answers of libc are arguments of the definitions. *)

From stdpp Require Import base sets list strings sorting.
From Stdlib Require Import ZArith Lia Ascii.
From S2P Require Import Prelude Text Paths LedgerTaxonomy PreCommit.
#[local] Open Scope niralis_scope.

Record UnixIdentity := mkUnixIdentity {
  un_username : string;
  un_uid : Z;
  un_gid : Z;
  un_home : string;
  un_shell : string;
}.
#[export] Instance UnixIdentity_eq_dec : EqDecision UnixIdentity.
Proof. solve_decision. Defined.

Record ResolvedUnixCredentials := mkUnixCredentials {
  uc_identity : UnixIdentity;
  uc_supplementary_gids : list Z;
}.

Inductive IdentityError :=
| IdNotFound | IdInvalidUsername | IdInvalidCanonicalUsername | IdLookupFailed
| IdBufferLimitExceeded.
Inductive GroupResolutionError := GrInvalidUsername | GrLookupFailed | GrTooManyGroups.
#[export] Instance GroupResolutionError_eq_dec : EqDecision GroupResolutionError.
Proof. solve_decision. Defined.

(** ** The user *)

Definition MAX_BUFFER_SIZE : Z := 1024 * 1024.
Definition DEFAULT_BUFFER_SIZE : Z := 16 * 1024.

(** What [getpwnam_r] found; a null pointer is no string. *)
Record PasswdRecord := mkPasswd {
  pw_name : option string;
  pw_uid : Z;
  pw_gid : Z;
  pw_dir : option string;
  pw_shell : option string;
}.
Inductive LookupResult := LkSuccess | LkNotFound | LkRange | LkFailure.
Definition ERANGE : Z := 34.

(** The return code, whether the result is null, and the record. *)
Definition PasswdAnswer : Type := Z * bool * PasswdRecord.
Definition passwd_result (a : PasswdAnswer) : LookupResult :=
  let '(code, is_null, _) := a in
  if (code =? 0) && negb is_null then LkSuccess
  else if (code =? 0) && is_null then LkNotFound
  else if code =? ERANGE then LkRange else LkFailure.

(** [sysconf(_SC_GETPW_R_SIZE_MAX)]. *)
Definition initial_buffer_size (raw : Z) : Z :=
  if 0 <? raw then raw else DEFAULT_BUFFER_SIZE.

Definition bytes_from_ptr (ptr : option string) : option string := Some (default "" ptr).

Definition passwd_to_identity (r : PasswdRecord) : result UnixIdentity IdentityError :=
  match bytes_from_ptr (pw_name r) with
  | None => Err IdInvalidCanonicalUsername
  | Some name =>
      if str_is_empty name then Err IdInvalidCanonicalUsername
      else match str_from_utf8 name with
           | None => Err IdInvalidCanonicalUsername
           | Some _ =>
               Ok (mkUnixIdentity name (pw_uid r) (pw_gid r)
                     (default "" (bytes_from_ptr (pw_dir r)))
                     (default "" (bytes_from_ptr (pw_shell r))))
           end
  end.

(** The loop, with the answers of successive calls for a buffer size; [None]
    would be a loop that does not end in [fuel] rounds. *)
Fixpoint lookup_user_loop (lookup : nat → Z → PasswdAnswer) (fuel attempt : nat)
    (buffer_size : Z) : option (result UnixIdentity IdentityError) :=
  match fuel with
  | O => None
  | S fuel =>
      let answer := lookup attempt buffer_size in
      match passwd_result answer with
      | LkSuccess => Some (passwd_to_identity answer.2)
      | LkNotFound => Some (Err IdNotFound)
      | LkFailure => Some (Err IdLookupFailed)
      | LkRange =>
          if MAX_BUFFER_SIZE <=? buffer_size then Some (Err IdBufferLimitExceeded)
          else lookup_user_loop lookup fuel (S attempt) (Z.min (buffer_size * 2) MAX_BUFFER_SIZE)
      end
  end.

(** Doubling 1 gets to a mebibyte in twenty rounds. *)
Definition LOOKUP_ROUNDS : nat := 21.

Definition lookup_user_with (raw : Z) (lookup : nat → Z → PasswdAnswer) (username : string)
    : option (result UnixIdentity IdentityError) :=
  if str_contains_byte NUL username then Some (Err IdInvalidUsername)
  else lookup_user_loop lookup LOOKUP_ROUNDS 0
         (Z.min (Z.max 1 (initial_buffer_size raw)) MAX_BUFFER_SIZE).

Lemma lookup_user_loop_ends lookup fuel attempt size :
  1 ≤ size ≤ MAX_BUFFER_SIZE → 2 * MAX_BUFFER_SIZE ≤ size * 2 ^ Z.of_nat fuel →
  lookup_user_loop lookup fuel attempt size ≠ None.
Proof.
  revert attempt size. induction fuel as [|fuel IH]; intros attempt size Hs Hf.
  { change (2 ^ Z.of_nat 0) with 1 in Hf. unfold MAX_BUFFER_SIZE in *. lia. }
  cbn. destruct (passwd_result _); try done.
  destruct (MAX_BUFFER_SIZE <=? size) eqn:Hm; [done|]. apply Z.leb_gt in Hm.
  rewrite Nat2Z.inj_succ, Z.pow_succ_r in Hf by lia. apply IH.
  - unfold MAX_BUFFER_SIZE in *. lia.
  - destruct (Z.min_spec (size * 2) MAX_BUFFER_SIZE) as [[_ ->]|[_ ->]]; [lia|].
    destruct fuel as [|fuel]; [change (2 ^ Z.of_nat 0) with 1 in Hf; lia|].
    rewrite Nat2Z.inj_succ, Z.pow_succ_r by lia.
    assert (1 ≤ 2 ^ Z.of_nat fuel) by (apply (Z.pow_le_mono_r 2 0); lia).
    unfold MAX_BUFFER_SIZE in *. lia.
Qed.
(** The lookup of a user ends: the buffer doubles from whatever size the
    system asks for, up to a mebibyte, and the rounds of the loop are enough
    for every sequence of answers. *)
Theorem user_lookup_ends raw lookup username : lookup_user_with raw lookup username ≠ None.
Proof.
  unfold lookup_user_with. destruct (str_contains_byte _ _); [done|].
  apply lookup_user_loop_ends; unfold MAX_BUFFER_SIZE, LOOKUP_ROUNDS; lia.
Qed.

(** ** The groups *)

Definition DEFAULT_GROUP_CAPACITY : Z := 16.
Definition MAX_GROUP_LOOKUP_ATTEMPTS : nat := 8.
Definition HARD_MAX_SUPPLEMENTARY_GROUPS : Z := 65536.

Inductive GroupLookupResult := GlSuccess | GlBufferTooSmall | GlFailure.
Definition classify_getgrouplist_result (r : Z) : GroupLookupResult :=
  if r =? -1 then GlBufferTooSmall else if 0 <=? r then GlSuccess else GlFailure.

(** What [getgrouplist] returned, the count it left and the buffer. *)
Record GroupAnswer := mkGroupAnswer {
  ga_result : Z;
  ga_count : Z;
  ga_groups : list Z;
}.

(** [sysconf(_SC_NGROUPS_MAX)]. *)
Definition supplementary_group_limit (raw : Z) : Z :=
  if 0 <? raw then Z.min raw HARD_MAX_SUPPLEMENTARY_GROUPS else HARD_MAX_SUPPLEMENTARY_GROUPS.

Definition required_capacity (ngroups capacity raw_limit : Z) : result Z GroupResolutionError :=
  if ngroups <? 0 then Err GrLookupFailed
  else if ngroups <=? capacity then Err GrLookupFailed
  else if raw_limit <? ngroups then Err GrTooManyGroups else Ok ngroups.
Definition valid_count (ngroups capacity raw_limit : Z) : result Z GroupResolutionError :=
  if ngroups <? 0 then Err GrLookupFailed
  else if (capacity <? ngroups) || (raw_limit <? ngroups) then Err GrLookupFailed
  else Ok ngroups.

(** [sort_unstable], [dedup], [retain]: the supplementary groups of a list. *)
Definition normalized_groups (groups : list Z) (primary_gid : Z) : list Z :=
  filter (λ gid, gid ≠ primary_gid) (dedup (merge_sort Z.le groups)).
Definition normalize_groups (groups : list Z) (primary_gid supplementary_limit : Z)
    : result (list Z) GroupResolutionError :=
  let groups := normalized_groups groups primary_gid in
  if supplementary_limit <? Z.of_nat (length groups) then Err GrTooManyGroups else Ok groups.

Fixpoint resolve_groups_loop (lookup : nat → Z → GroupAnswer) (limit primary_gid : Z)
    (rounds attempt : nat) (capacity : Z) : result (list Z) GroupResolutionError :=
  match rounds with
  | O => Err GrLookupFailed
  | S rounds =>
      let answer := lookup attempt capacity in
      match classify_getgrouplist_result (ga_result answer) with
      | GlSuccess =>
          match valid_count (ga_count answer) capacity (limit + 1) with
          | Err error => Err error
          | Ok count => normalize_groups (take (Z.to_nat count) (ga_groups answer)) primary_gid
                          limit
          end
      | GlBufferTooSmall =>
          match required_capacity (ga_count answer) capacity (limit + 1) with
          | Err error => Err error
          | Ok capacity => resolve_groups_loop lookup limit primary_gid rounds (S attempt)
                             capacity
          end
      | GlFailure => Err GrLookupFailed
      end
  end.
Definition resolve_groups_with (raw : Z) (lookup : nat → Z → GroupAnswer)
    (identity : UnixIdentity) : result (list Z) GroupResolutionError :=
  if str_contains_byte NUL (un_username identity) then Err GrInvalidUsername
  else
    let limit := supplementary_group_limit raw in
    resolve_groups_loop lookup limit (un_gid identity) MAX_GROUP_LOOKUP_ATTEMPTS 0
      (Z.max (Z.min DEFAULT_GROUP_CAPACITY (limit + 1)) 1).

(** *** Normalized lists *)

Lemma dedup_sorted l : StronglySorted Z.le l → StronglySorted Z.lt (dedup l).
Proof.
  induction 1 as [|x l HS IH HF]; [constructor|]. cbn.
  assert (∀ y, y ∈ dedup l → x ≤ y) as Hle.
  { intros y. rewrite elem_of_dedup. rewrite Forall_forall in HF. apply HF. }
  destruct (dedup l) as [|y t] eqn:E; [repeat constructor|].
  case_decide as Hxy; [done|]. constructor; [done|].
  assert (x < y) by (specialize (Hle y ltac:(left)); lia).
  apply StronglySorted_inv in IH as [_ HF']. constructor; [done|].
  eapply Forall_impl; [exact HF'|]. cbn. lia.
Qed.
Lemma filter_strongly_sorted {A} (R : relation A) (P : A → Prop) `{∀ x, Decision (P x)} l :
  StronglySorted R l → StronglySorted R (filter P l).
Proof.
  induction 1 as [|x l HS IH HF]; [constructor|]. rewrite filter_cons. case_decide; [|done].
  constructor; [done|]. rewrite Forall_forall in *. intros y Hy.
  apply list_elem_of_filter in Hy as [_ Hy]. auto.
Qed.
Lemma normalized_spec groups primary :
  StronglySorted Z.lt (normalized_groups groups primary) ∧
  ∀ gid, gid ∈ normalized_groups groups primary ↔ gid ∈ groups ∧ gid ≠ primary.
Proof.
  split.
  - apply filter_strongly_sorted, dedup_sorted. apply (StronglySorted_merge_sort _).
  - intros gid. unfold normalized_groups.
    rewrite list_elem_of_filter, elem_of_dedup, (merge_sort_Permutation _ groups). tauto.
Qed.
(** A normalized list is normalized: the form is canonical. *)
Lemma sorted_lt_unique (l k : list Z) :
  StronglySorted Z.lt l → StronglySorted Z.lt k → (∀ x, x ∈ l ↔ x ∈ k) → l = k.
Proof.
  intros Hl. revert k. induction Hl as [|x l HS IH HF]; intros k Hk Hlk.
  - destruct k as [|y k]; [done|]. exfalso. apply (not_elem_of_nil y), Hlk. left.
  - destruct Hk as [|y k HSk HFk]; [exfalso; apply (not_elem_of_nil x), Hlk; left|].
    rewrite Forall_forall in HF, HFk.
    assert (x = y) as ->.
    { destruct (Hlk x) as [Hx _], (Hlk y) as [_ Hy].
      specialize (Hx ltac:(left)). specialize (Hy ltac:(left)).
      apply elem_of_cons in Hx as [->|Hx]; [done|].
      apply elem_of_cons in Hy as [->|Hy]; [done|].
      specialize (HF _ Hy). specialize (HFk _ Hx). lia. }
    f_equal. apply IH; [done|]. intros z. split; intros Hz.
    + destruct (Hlk z) as [H _]. specialize (H ltac:(by right)).
      apply elem_of_cons in H as [->|]; [specialize (HF _ Hz); lia|done].
    + destruct (Hlk z) as [_ H]. specialize (H ltac:(by right)).
      apply elem_of_cons in H as [->|]; [specialize (HFk _ Hz); lia|done].
Qed.
Lemma normalized_id groups primary :
  StronglySorted Z.lt groups → primary ∉ groups → normalized_groups groups primary = groups.
Proof.
  intros HS Hp. destruct (normalized_spec groups primary) as [HS' Hin].
  apply sorted_lt_unique; [done..|]. intros x. rewrite Hin. split; [tauto|].
  intros Hx. split; [done|]. by intros ->.
Qed.

(** The loop succeeds on one of its answers. *)
Lemma resolve_groups_loop_ok lookup limit primary rounds attempt capacity gids :
  resolve_groups_loop lookup limit primary rounds attempt capacity = Ok gids →
  ∃ n size, (attempt ≤ n < attempt + rounds)%nat ∧
    let answer := lookup n size in
    0 ≤ ga_result answer ∧ 0 ≤ ga_count answer ≤ size ∧ Z.of_nat (length gids) ≤ limit ∧
    gids = normalized_groups (take (Z.to_nat (ga_count answer)) (ga_groups answer)) primary.
Proof.
  revert attempt capacity. induction rounds as [|rounds IH]; intros attempt capacity; [done|].
  cbn. unfold classify_getgrouplist_result, valid_count, required_capacity, normalize_groups.
  intros Hr. repeat case_match; simplify_eq; try done; bool_facts.
  - exists attempt, capacity. split_and!; try done; lia.
  - apply IH in Hr as (n & size & Hn & Ha). exists n, size. split; [lia|done].
Qed.

(** The supplementary groups the worker resolves are strictly increasing,
    without the primary group, within the limit of the system, and exactly the
    other groups NSS listed in one of at most eight answers. *)
Theorem resolved_groups_are_canonical raw lookup identity gids :
  resolve_groups_with raw lookup identity = Ok gids →
  StronglySorted Z.lt gids ∧ (un_gid identity ∉ gids) ∧
  Z.of_nat (length gids) ≤ supplementary_group_limit raw ∧
  ∃ attempt size, (attempt < 8)%nat ∧ 0 ≤ ga_count (lookup attempt size) ≤ size ∧
    ∀ gid, gid ∈ gids ↔
      gid ∈ take (Z.to_nat (ga_count (lookup attempt size))) (ga_groups (lookup attempt size)) ∧
      gid ≠ un_gid identity.
Proof.
  unfold resolve_groups_with. destruct (str_contains_byte _ _); [done|]. cbn zeta. intros H.
  apply resolve_groups_loop_ok in H as (n & size & Hn & _ & Hc & Hl & ->).
  pose proof (normalized_spec (take (Z.to_nat (ga_count (lookup n size)))
    (ga_groups (lookup n size))) (un_gid identity)) as [HS Hin].
  split_and!; [done|rewrite Hin; tauto|done|]. exists n, size.
  unfold MAX_GROUP_LOOKUP_ATTEMPTS in Hn. split_and!; [lia|lia|lia|done].
Qed.
Lemma resolved_groups_are_canonical_witness :
  let identity := mkUnixIdentity "ana" 1000 1000 "/home/ana" "/bin/sh" in
  let lookup (attempt : nat) (size : Z) :=
    match attempt with
    | O => mkGroupAnswer (-1) 20 []
    | _ => mkGroupAnswer 5 5 [1000; 998; 10; 998; 27]
    end in
  resolve_groups_with 65536 lookup identity = Ok [10; 27; 998] ∧
  StronglySorted Z.lt [10; 27; 998].
Proof.
  intros identity lookup. split; [vm_compute; reflexivity|].
  apply (resolved_groups_are_canonical 65536 lookup identity [10; 27; 998]).
  vm_compute. reflexivity.
Defined.

(** ** Dropping privileges *)

Record PrivilegeDropTarget := mkDropTarget {
  dt_uid : Z;
  dt_gid : Z;
  dt_supplementary_gids : list Z;
}.
#[export] Instance PrivilegeDropTarget_eq_dec : EqDecision PrivilegeDropTarget.
Proof. solve_decision. Defined.
(** [AppliedCredentials] has the same fields. *)
Abbreviation AppliedCredentials := PrivilegeDropTarget.

Definition drop_target (c : ResolvedUnixCredentials) : PrivilegeDropTarget :=
  mkDropTarget (un_uid (uc_identity c)) (un_gid (uc_identity c)) (uc_supplementary_gids c).

Inductive PrivilegeDropError :=
| InvalidSupplementaryGroups | RootUidDisallowed | SetGroupsFailed | SetGidFailed
| SetUidFailed | DropVerificationFailed | DropCredentialMismatch.
Inductive SyscallError := ScFailed | ScInvalidCount | ScObservedGroupCountExceeded.

Record ObservedCredentials := mkObserved {
  oc_real_uid : Z; oc_effective_uid : Z; oc_saved_uid : Z;
  oc_real_gid : Z; oc_effective_gid : Z; oc_saved_gid : Z;
  oc_supplementary_gids : list Z;
}.

(** The answers of the kernel to a process that changes its credentials. *)
Record CredentialAnswers := mkCredentialAnswers {
  ca_setgroups : Z;
  ca_setgid : Z;
  ca_setuid : Z;
  ca_getresuid : option (Z * Z * Z);
  ca_getresgid : option (Z * Z * Z);
  ca_group_count : Z;
  ca_getgroups : Z → Z * list Z;
}.
Inductive CredentialCall := CallSetgroups (groups : list Z) | CallSetgid (gid : Z)
| CallSetuid (uid : Z).
#[export] Instance CredentialCall_eq_dec : EqDecision CredentialCall.
Proof. solve_decision. Defined.

Abbreviation CK := (SR (list CredentialCall)).
Definition credential_call {E} (call : CredentialCall) : CK E () :=
  sr_modify (λ log, log ++ [call]).

Definition HARD_MAX_OBSERVED_GROUPS : Z := HARD_MAX_SUPPLEMENTARY_GROUPS + 1.
Definition bounded_max_observed_groups (expected : Z) : Z :=
  Z.min expected HARD_MAX_OBSERVED_GROUPS.

Definition inspect_credentials (k : CredentialAnswers) (max_groups : Z)
    : result ObservedCredentials SyscallError :=
  let max_groups := bounded_max_observed_groups max_groups in
  match ca_getresuid k, ca_getresgid k with
  | Some (ruid, euid, suid), Some (rgid, egid, sgid) =>
      let count := ca_group_count k in
      if count <? 0 then Err ScInvalidCount
      else if max_groups <? count then Err ScObservedGroupCountExceeded
      else
        let '(observed, groups) := if count =? 0 then (0, []) else ca_getgroups k count in
        if observed <? 0 then Err ScInvalidCount
        else if count <? observed then Err ScInvalidCount
        else Ok (mkObserved ruid euid suid rgid egid sgid (take (Z.to_nat observed) groups))
  | _, _ => Err ScFailed
  end.

Definition drop_privileges_with (k : CredentialAnswers) (target : PrivilegeDropTarget)
    : CK PrivilegeDropError AppliedCredentials :=
  let uid := dt_uid target in
  let gid := dt_gid target in
  let groups := dt_supplementary_gids target in
  ensure negb (uid =? 0) else RootUidDisallowed ;;;
  ensure negb (windows2_any (λ a b, b <=? a) groups || bool_decide (gid ∈ groups))
    else InvalidSupplementaryGroups ;;;
  credential_call (CallSetgroups groups) ;;;
  ensure ca_setgroups k =? 0 else SetGroupsFailed ;;;
  credential_call (CallSetgid gid) ;;;
  ensure ca_setgid k =? 0 else SetGidFailed ;;;
  credential_call (CallSetuid uid) ;;;
  ensure ca_setuid k =? 0 else SetUidFailed ;;;
  let* o := match inspect_credentials k (Z.of_nat (length groups) + 1) with
            | Ok o => sr_ret o
            | Err ScObservedGroupCountExceeded => sr_fail DropCredentialMismatch
            | Err _ => sr_fail DropVerificationFailed
            end in
  ensure (oc_real_uid o =? uid) && (oc_effective_uid o =? uid) && (oc_saved_uid o =? uid)
      && (oc_real_gid o =? gid) && (oc_effective_gid o =? gid) && (oc_saved_gid o =? gid)
    else DropCredentialMismatch ;;;
  let observed := normalized_groups (oc_supplementary_gids o) gid in
  ensure bool_decide (observed = groups) else DropCredentialMismatch ;;;
  sr_ret (mkDropTarget (oc_real_uid o) (oc_real_gid o) observed).

Lemma increasing_groups groups :
  windows2_any (λ a b, b <=? a) groups = false ↔ StronglySorted Z.lt groups.
Proof. apply StronglySorted_windows; [apply _|]. intros x y. by rewrite Z.leb_gt. Qed.

(** The supplementary groups the kernel shows. *)
Definition shown_groups (k : CredentialAnswers) : list Z :=
  let '(observed, groups) :=
    if ca_group_count k =? 0 then (0, []) else ca_getgroups k (ca_group_count k) in
  take (Z.to_nat observed) groups.

Lemma drop_privileges_ok k target log log' applied :
  drop_privileges_with k target log = (log', Ok applied) →
  applied = target ∧ dt_uid target ≠ 0 ∧
  log' = log ++ [CallSetgroups (dt_supplementary_gids target); CallSetgid (dt_gid target);
                 CallSetuid (dt_uid target)] ∧
  ca_getresuid k = Some (dt_uid target, dt_uid target, dt_uid target) ∧
  ca_getresgid k = Some (dt_gid target, dt_gid target, dt_gid target) ∧
  (∀ gid, gid ≠ dt_gid target → gid ∈ shown_groups k ↔ gid ∈ dt_supplementary_gids target).
Proof.
  unfold drop_privileges_with, credential_call, inspect_credentials, sr_bind, sr_ret, sr_fail,
    sr_modify. destruct target as [uid gid groups]. cbn.
  destruct (uid =? 0) eqn:Hu; [done|]. apply Z.eqb_neq in Hu.
  destruct (_ || _); [done|]. cbn. destruct (ca_setgroups k =? 0); [|done].
  destruct (ca_setgid k =? 0); [|done]. destruct (ca_setuid k =? 0); [|done].
  destruct (ca_getresuid k) as [[[ruid euid] suid]|]; [|done].
  destruct (ca_getresgid k) as [[[rgid egid] sgid]|]; [|done].
  destruct (_ <? 0); [done|]. destruct (_ <? ca_group_count k); [done|].
  unfold shown_groups. destruct (if ca_group_count k =? 0 then _ else _) as [observed found].
  destruct (observed <? 0); [done|]. destruct (_ <? observed); [done|]. cbn.
  destruct (_ && _) eqn:Hids; [|done]. bool_facts. subst.
  case_bool_decide as Hg; [|done]. cbn. intros [= <- <-].
  split_and!; try done; [by rewrite Hg|by rewrite <- !(assoc_L app)|].
  intros x Hx. rewrite <- Hg. fold (normalized_groups (take (Z.to_nat observed) found) gid).
  rewrite (proj2 (normalized_spec _ _)). tauto.
Qed.
(** Privileges are dropped in the only order that works (the groups, the
    group, the user), and a success means that the kernel shows the real, the
    effective and the saved ids of the target, never root's user id, and, its
    primary group aside, exactly the supplementary groups of the target. *)
Theorem dropped_privileges_match k target log log' applied :
  drop_privileges_with k target log = (log', Ok applied) →
  applied = target ∧ dt_uid target ≠ 0 ∧
  log' = log ++ [CallSetgroups (dt_supplementary_gids target); CallSetgid (dt_gid target);
                 CallSetuid (dt_uid target)] ∧
  ca_getresuid k = Some (dt_uid target, dt_uid target, dt_uid target) ∧
  ca_getresgid k = Some (dt_gid target, dt_gid target, dt_gid target) ∧
  (∀ gid, gid ≠ dt_gid target → gid ∈ shown_groups k ↔ gid ∈ dt_supplementary_gids target).
Proof. apply drop_privileges_ok. Qed.

(** What the code relies on the kernel for: the credentials that were set are
    the ones it shows, the groups in any order and perhaps with the primary
    one among them. *)
Record kernel_applies (k : CredentialAnswers) (target : PrivilegeDropTarget) : Prop := {
  ka_calls : ca_setgroups k = 0 ∧ ca_setgid k = 0 ∧ ca_setuid k = 0;
  ka_uids : ca_getresuid k = Some (dt_uid target, dt_uid target, dt_uid target);
  ka_gids : ca_getresgid k = Some (dt_gid target, dt_gid target, dt_gid target);
  ka_count : 0 ≤ ca_group_count k ≤ Z.of_nat (length (dt_supplementary_gids target)) + 1;
  ka_limit : ca_group_count k ≤ HARD_MAX_OBSERVED_GROUPS;
  ka_groups : ∃ groups, (if ca_group_count k =? 0 then (0, []) else ca_getgroups k (ca_group_count k))
      = (Z.of_nat (length groups), groups) ∧ Z.of_nat (length groups) ≤ ca_group_count k ∧
    ∀ gid, gid ≠ dt_gid target → gid ∈ groups ↔ gid ∈ dt_supplementary_gids target;
}.

(** Credentials that the worker resolved can be dropped to: the groups pass
    the checks of the drop, and on a kernel that applies what it is told the
    drop succeeds with exactly these credentials, unless the user is root. *)
Theorem resolved_credentials_can_be_dropped raw lookup identity gids k log :
  resolve_groups_with raw lookup identity = Ok gids → un_uid identity ≠ 0 →
  let target := drop_target (mkUnixCredentials identity gids) in
  kernel_applies k target →
  (drop_privileges_with k target log).2 = Ok target.
Proof.
  intros Hr Hu target [(H1 & H2 & H3) Huid Hgid Hcount Hlimit (groups & Hg & Hn & Hin)].
  unfold resolve_groups_with in Hr. destruct (str_contains_byte _ _); [done|].
  apply resolve_groups_loop_ok in Hr as (n & size & _ & _ & _ & _ & ->).
  set (gids := normalized_groups _ _) in *.
  destruct (normalized_spec (take (Z.to_nat (ga_count (lookup n size)))
    (ga_groups (lookup n size))) (un_gid identity)) as [HS Hmem]. fold gids in HS, Hmem.
  assert (un_gid identity ∉ gids) as Hprimary by (rewrite Hmem; tauto).
  unfold drop_privileges_with, credential_call, inspect_credentials, sr_bind, sr_ret, sr_fail,
    sr_modify. cbn. subst target. cbn in *.
  rewrite (proj2 (Z.eqb_neq _ _) Hu). cbn. rewrite (proj2 (increasing_groups gids) HS).
  rewrite bool_decide_false by done. cbn. rewrite H1, H2, H3, Huid, Hgid. cbn.
  rewrite (proj2 (Z.ltb_ge _ _) (proj1 Hcount)).
  assert ((bounded_max_observed_groups (Z.of_nat (length gids) + 1) <? ca_group_count k) = false)
    as -> by (unfold bounded_max_observed_groups; lia).
  rewrite Hg. assert ((Z.of_nat (length groups) <? 0) = false) as -> by lia.
  assert ((ca_group_count k <? Z.of_nat (length groups)) = false) as -> by lia.
  cbn. rewrite !Z.eqb_refl. cbn. rewrite Nat2Z.id, take_ge by lia.
  fold (normalized_groups groups (un_gid identity)).
  assert (normalized_groups groups (un_gid identity) = gids) as ->.
  { apply sorted_lt_unique; [apply normalized_spec|done|]. intros x.
    destruct (normalized_spec groups (un_gid identity)) as [_ ->]. split.
    - intros [Hx Hne]. by apply Hin.
    - intros Hx. assert (x ≠ un_gid identity) by (by intros ->). split; [|done]. by apply Hin. }
  by rewrite bool_decide_true.
Qed.

(** A kernel for the witnesses: it shows the credentials of a user with two
    groups. *)
Definition sample_kernel : CredentialAnswers :=
  mkCredentialAnswers 0 0 0 (Some (1000, 1000, 1000)) (Some (100, 100, 100)) 3
    (λ _, (3, [998; 100; 27])).

Lemma dropped_privileges_match_witness :
  let target := mkDropTarget 1000 100 [27; 998] in
  (drop_privileges_with sample_kernel target []).2 = Ok target ∧ dt_uid target ≠ 0.
Proof.
  intros target. split; [vm_compute; reflexivity|].
  apply (dropped_privileges_match sample_kernel target []
    [CallSetgroups [27; 998]; CallSetgid 100; CallSetuid 1000] target).
  vm_compute. reflexivity.
Defined.

Lemma resolved_credentials_can_be_dropped_witness :
  let identity := mkUnixIdentity "ana" 1000 100 "/home/ana" "/bin/sh" in
  let lookup (_ : nat) (_ : Z) := mkGroupAnswer 3 3 [100; 998; 27] in
  (drop_privileges_with sample_kernel
     (drop_target (mkUnixCredentials identity [27; 998])) []).2 =
  Ok (drop_target (mkUnixCredentials identity [27; 998])).
Proof.
  intros identity lookup.
  apply (resolved_credentials_can_be_dropped 65536 lookup identity [27; 998] sample_kernel []).
  - vm_compute. reflexivity.
  - discriminate.
  - split; cbn; [done..|lia| |].
    + unfold HARD_MAX_OBSERVED_GROUPS, HARD_MAX_SUPPLEMENTARY_GROUPS. lia.
    + exists [998; 100; 27]. split_and!; [done|cbn; lia|]. cbn. intros gid Hne.
      rewrite !elem_of_cons, elem_of_nil. lia.
Defined.

(** ** What a process still holds *)

Definition HARD_MAX_CAPABILITY_ID : Z := 63.
Definition DANGEROUS_SECUREBITS_MASK : Z := Z.lor (Z.shiftl 1 0) (Z.shiftl 1 2).

Record CapabilityState := mkCapabilities {
  cs_effective : list Z;
  cs_permitted : list Z;
  cs_inheritable : list Z;
  cs_ambient : list Z;
  cs_bounding : list Z;
  cs_cap_last_cap : Z;
}.
#[export] Instance CapabilityState_eq_dec : EqDecision CapabilityState.
Proof. solve_decision. Defined.
Record PostDropIsolationProof := mkIsolationProof {
  po_capabilities : CapabilityState;
  po_securebits : Z;
  po_no_new_privs : bool;
  po_open_fds : list Z;
}.
#[export] Instance PostDropIsolationProof_eq_dec : EqDecision PostDropIsolationProof.
Proof. solve_decision. Defined.

Inductive IsolationPolicyError :=
| ActiveCapabilitiesPresent | DangerousSecurebits | UnexpectedFileDescriptors
| InvalidCapabilityStructure | InvalidFdStructure.

Definition valid_capabilities (values : list Z) (last : Z) : bool :=
  negb (windows2_any (λ a b, b <=? a) values) && forallb (λ v, v <=? last) values.
Definition valid_fds (values : list Z) : bool :=
  negb (windows2_any (λ a b, b <=? a) values) && forallb (λ v, 0 <=? v) values.
Definition no_values (values : list Z) : bool := bool_decide (values = []).

(** The standard descriptors and the ones that are allowed. *)
Definition expected_fds (allowed : list Z) : list Z :=
  dedup (merge_sort Z.le ([0; 1; 2] ++ allowed)).

Definition validate_isolation_proof_with_allowed_fds (proof : PostDropIsolationProof)
    (allowed_fds : list Z) : result () IsolationPolicyError :=
  let caps := po_capabilities proof in
  let last := cs_cap_last_cap caps in
  if (HARD_MAX_CAPABILITY_ID <? last) || negb (valid_capabilities (cs_effective caps) last)
     || negb (valid_capabilities (cs_permitted caps) last)
     || negb (valid_capabilities (cs_inheritable caps) last)
     || negb (valid_capabilities (cs_ambient caps) last)
     || negb (valid_capabilities (cs_bounding caps) last)
  then Err InvalidCapabilityStructure
  else if negb (valid_fds (po_open_fds proof)) then Err InvalidFdStructure
  else if negb (no_values (cs_effective caps)) || negb (no_values (cs_permitted caps))
          || negb (no_values (cs_inheritable caps)) || negb (no_values (cs_ambient caps))
  then Err ActiveCapabilitiesPresent
  else if negb (Z.land (po_securebits proof) DANGEROUS_SECUREBITS_MASK =? 0)
  then Err DangerousSecurebits
  else if negb (bool_decide (po_open_fds proof = expected_fds allowed_fds))
  then Err UnexpectedFileDescriptors
  else Ok ().

Lemma expected_fds_spec allowed :
  StronglySorted Z.lt (expected_fds allowed) ∧
  ∀ fd, fd ∈ expected_fds allowed ↔ fd ∈ [0; 1; 2] ∨ fd ∈ allowed.
Proof.
  split.
  - apply dedup_sorted, (StronglySorted_merge_sort _).
  - intros fd. unfold expected_fds. rewrite elem_of_dedup, (merge_sort_Permutation _ _).
    apply elem_of_app.
Qed.

Lemma dangerous_bits securebits :
  Z.land securebits DANGEROUS_SECUREBITS_MASK = 0 ↔
  Z.testbit securebits 0 = false ∧ Z.testbit securebits 2 = false.
Proof.
  change DANGEROUS_SECUREBITS_MASK with 5. split.
  - intros H. split;
      [assert (Z.testbit (Z.land securebits 5) 0 = false) as Hb by (by rewrite H)
      |assert (Z.testbit (Z.land securebits 5) 2 = false) as Hb by (by rewrite H)];
      rewrite Z.land_spec in Hb; by rewrite andb_true_r in Hb.
  - intros [H0 H2]. apply Z.bits_inj'. intros n Hn. rewrite Z.land_spec, Z.bits_0.
    assert (n = 0 ∨ n = 1 ∨ n = 2 ∨ 3 ≤ n) as [->|[->|[->|H3]]] by lia.
    + by rewrite H0.
    + by rewrite andb_false_r.
    + by rewrite H2.
    + rewrite (Z.bits_above_log2 5 n), andb_false_r; [done|lia|]. change (Z.log2 5) with 2. lia.
Qed.
Lemma valid_capabilities_true values last :
  valid_capabilities values last = true ↔
  StronglySorted Z.lt values ∧ Forall (λ c, c ≤ last) values.
Proof.
  unfold valid_capabilities. rewrite andb_true_iff, negb_true_iff, increasing_groups.
  rewrite forallb_forall, Forall_forall. setoid_rewrite Z.leb_le.
  setoid_rewrite list_elem_of_In. done.
Qed.
Lemma valid_fds_true values :
  valid_fds values = true ↔ StronglySorted Z.lt values ∧ Forall (λ fd, 0 ≤ fd) values.
Proof.
  unfold valid_fds. rewrite andb_true_iff, negb_true_iff, increasing_groups.
  rewrite forallb_forall, Forall_forall. setoid_rewrite Z.leb_le.
  setoid_rewrite list_elem_of_In. done.
Qed.
Lemma refused_unless {E} (b : bool) (e : E) (r : result () E) :
  (if b then Err e else r) = Ok () ↔ b = false ∧ r = Ok ().
Proof. by destruct b; split; [|intros []| |intros []]. Qed.

(** A process that passes the isolation policy holds no effective,
    permitted, inheritable or ambient capability, has neither SECBIT_NOROOT
    nor SECBIT_NO_SETUID_FIXUP, and its open descriptors are the three
    standard ones and the allowed ones, no more and no fewer; every process
    like that with a well-formed bounding set passes. *)
Theorem isolation_policy_means proof allowed :
  Forall (λ fd, 0 ≤ fd) allowed →
  validate_isolation_proof_with_allowed_fds proof allowed = Ok () ↔
  let caps := po_capabilities proof in
  cs_cap_last_cap caps ≤ 63 ∧
  cs_effective caps = [] ∧ cs_permitted caps = [] ∧ cs_inheritable caps = [] ∧
  cs_ambient caps = [] ∧
  StronglySorted Z.lt (cs_bounding caps) ∧ Forall (λ c, c ≤ cs_cap_last_cap caps) (cs_bounding caps) ∧
  Z.testbit (po_securebits proof) 0 = false ∧ Z.testbit (po_securebits proof) 2 = false ∧
  StronglySorted Z.lt (po_open_fds proof) ∧
  ∀ fd, fd ∈ po_open_fds proof ↔ fd ∈ [0; 1; 2] ∨ fd ∈ allowed.
Proof.
  intros Hallowed. unfold validate_isolation_proof_with_allowed_fds, no_values. cbn zeta.
  rewrite !refused_unless, !orb_false_iff, !negb_false_iff, !valid_capabilities_true,
    valid_fds_true, !bool_decide_eq_true, Z.ltb_ge, Z.eqb_eq, dangerous_bits.
  destruct (expected_fds_spec allowed) as [HS Hin]. split.
  - intros ((((((Hl & _) & _) & _) & _) & Hb & Hbl) & _ & (((He & Hp) & Hi) & Ha) & (H0 & H2) & Hfds & _).
    split_and!; try done; rewrite Hfds; done.
  - intros (Hl & He & Hp & Hi & Ha & Hb & Hbl & H0 & H2 & Hs & Hfds). rewrite He, Hp, Hi, Ha.
    assert (po_open_fds proof = expected_fds allowed) as Heq.
    { apply sorted_lt_unique; [done..|]. intros fd. by rewrite Hfds, Hin. }
    split_and!; try done; try constructor. rewrite Forall_forall. intros fd Hfd.
    apply Hfds in Hfd as [Hfd|Hfd]; [|by rewrite Forall_forall in Hallowed; auto].
    rewrite !elem_of_cons, elem_of_nil in Hfd. lia.
Qed.
Lemma isolation_policy_means_witness :
  let caps := mkCapabilities [] [] [] [] [0; 7; 21] 40 in
  let proof := mkIsolationProof caps 0 true [0; 1; 2; 3; 4] in
  validate_isolation_proof_with_allowed_fds proof [3; 4] = Ok () ∧
  Z.testbit (po_securebits proof) 2 = false.
Proof.
  intros caps proof. split; [vm_compute; reflexivity|].
  apply (isolation_policy_means proof [3; 4]); [repeat constructor; lia|].
  vm_compute. reflexivity.
Defined.

(** *** The audit *)

(** [bits]: the numbers of the bits set in the words, up to [last]. *)
Definition word_bits (word : nat) (value last : Z) : list Z :=
  filter (λ cap, cap ≤ last ∧ Z.testbit value (cap - Z.of_nat word * 32) = true)
    ((λ bit, Z.of_nat word * 32 + Z.of_nat bit) <$> seq 0 32).
Fixpoint bits_from (word : nat) (words : list Z) (last : Z) : list Z :=
  match words with
  | [] => []
  | value :: rest => word_bits word value last ++ bits_from (S word) rest last
  end.
Definition bits (words : list Z) (last : Z) : list Z := bits_from 0 words last.

(** What the kernel answers an auditor. *)
Record AuditAnswers := mkAuditAnswers {
  au_cap_last_cap : option string;
  au_capget : option (list (Z * Z * Z));
  au_ambient_is_set : Z → Z;
  au_capbset_read : Z → Z;
  au_securebits : Z;
  au_no_new_privs : Z;
  au_fd_names : option (list string);
  au_fd_open : Z → bool;
}.
Inductive PostDropAuditError := AuditFailed | UnsupportedCapabilityRange.

(** [str::parse::<i32>]. *)
Definition parse_i32 (s : string) : option Z :=
  match s with
  | String "-" EmptyString => None
  | String "-" rest =>
      match digits 0 rest with
      | Some n => if n <=? 2 ^ 31 then Some (- n) else None
      | None => None
      end
  | _ => match parse_u64 s with
         | Some n => if n <? 2 ^ 31 then Some n else None
         | None => None
         end
  end.

(** A set the kernel tells one by one, with its failures. *)
Fixpoint probe_set (ask : Z → Z) (caps : list Z) : option (list Z) :=
  match caps with
  | [] => Some []
  | cap :: rest =>
      if ask cap <? 0 then None
      else match probe_set ask rest with
           | Some set => Some (if ask cap =? 1 then cap :: set else set)
           | None => None
           end
  end.
Definition prctl_value (value : Z) : result Z PostDropAuditError :=
  if value <? 0 then Err AuditFailed else Ok value.
Definition open_fds (a : AuditAnswers) : result (list Z) PostDropAuditError :=
  match au_fd_names a with
  | None => Err AuditFailed
  | Some names =>
      Ok (dedup (merge_sort Z.le (filter (λ fd, au_fd_open a fd = true) (omap parse_i32 names))))
  end.

Definition audit (a : AuditAnswers) : result PostDropIsolationProof PostDropAuditError :=
  match au_cap_last_cap a with
  | None => Err AuditFailed
  | Some content =>
      match str_from_utf8 content ≫= λ text, parse_u32 (str_of_text (trim text)) with
      | None => Err AuditFailed
      | Some last =>
          if HARD_MAX_CAPABILITY_ID <? last then Err UnsupportedCapabilityRange
          else match au_capget a with
          | None => Err AuditFailed
          | Some data =>
              let caps := (λ n, Z.of_nat n) <$> seq 0 (Z.to_nat (last + 1)) in
              match probe_set (au_ambient_is_set a) caps, probe_set (au_capbset_read a) caps with
              | Some ambient, Some bounding =>
                  match prctl_value (au_securebits a), prctl_value (au_no_new_privs a), open_fds a
                  with
                  | Ok securebits, Ok no_new_privs, Ok fds =>
                      Ok (mkIsolationProof
                            (mkCapabilities (bits ((λ d, d.1.1) <$> data) last)
                               (bits ((λ d, d.1.2) <$> data) last)
                               (bits (snd <$> data) last) ambient bounding last)
                            securebits (negb (no_new_privs =? 0)) fds)
                  | _, _, _ => Err AuditFailed
                  end
              | _, _ => Err AuditFailed
              end
          end
      end
  end.

(** [clear_post_drop_capabilities]: the answers of [capset] and [prctl]. *)
Definition clear_post_drop_capabilities (capset prctl : Z) : bool :=
  (capset =? 0) && (prctl =? 0).

(** [sanitize_with_allowlist]: the descriptors it closes; [None] where the
    directory cannot be read.  [close_range] closes everything from 3 on. *)
Inductive FdSanitization := ClosedRange | ClosedFds (fds : list Z).
Definition sanitize_with_allowlist (close_range : Z) (names : option (list string))
    (allowed : list Z) : option FdSanitization :=
  if no_values allowed && (close_range =? 0) then Some ClosedRange
  else match names with
       | None => None
       | Some names =>
           Some (ClosedFds (filter (λ fd, 3 ≤ fd ∧ fd ∉ allowed) (omap parse_i32 names)))
       end.
Definition fds_after (s : FdSanitization) (fds : list Z) : list Z :=
  match s with
  | ClosedRange => filter (λ fd, fd < 3) fds
  | ClosedFds closed => filter (λ fd, fd ∉ closed) fds
  end.

Lemma elem_of_word_bits word value last cap :
  cap ∈ word_bits word value last ↔
  Z.of_nat word * 32 ≤ cap < Z.of_nat word * 32 + 32 ∧ cap ≤ last ∧
  Z.testbit value (cap - Z.of_nat word * 32) = true.
Proof.
  unfold word_bits. rewrite list_elem_of_filter, list_elem_of_fmap. split.
  - intros ([? ?] & bit & -> & Hb). apply elem_of_seq in Hb. split_and!; try done; lia.
  - intros (? & ? & ?). split; [done|]. exists (Z.to_nat (cap - Z.of_nat word * 32)).
    split; [lia|]. apply elem_of_seq. lia.
Qed.
Lemma elem_of_bits_from word words last cap :
  cap ∈ bits_from word words last ↔
  ∃ i value, words !! i = Some value ∧ cap ∈ word_bits (word + i) value last.
Proof.
  revert word. induction words as [|value words IH]; intros word; cbn [bits_from].
  { rewrite elem_of_nil. split; [done|]. by intros (i & v & ? & _). }
  rewrite elem_of_app, IH. split.
  - intros [H|(i & v & Hi & H)].
    + exists 0%nat, value. by rewrite Nat.add_0_r.
    + exists (S i), v. by rewrite Nat.add_succ_r.
  - intros ([|i] & v & Hi & H).
    + left. injection Hi as <-. by rewrite Nat.add_0_r in H.
    + right. exists i, v. by rewrite Nat.add_succ_r in H.
Qed.
(** A capability is listed when its bit is set in the word it lies in. *)
Lemma elem_of_bits words last cap :
  cap ∈ bits words last ↔
  0 ≤ cap ≤ last ∧ ∃ value, words !! Z.to_nat (cap / 32) = Some value ∧
    Z.testbit value (cap mod 32) = true.
Proof.
  pose proof (Z.mod_pos_bound cap 32 ltac:(lia)) as Hm.
  pose proof (Z.div_mod cap 32 ltac:(lia)) as Hd. unfold bits. rewrite elem_of_bits_from.
  split.
  - intros (i & value & Hi & Hc). apply elem_of_word_bits in Hc as (Hr & Hl & Hb).
    cbn [Nat.add] in *. split; [lia|]. exists value.
    assert (cap / 32 = Z.of_nat i) as Hq by lia. rewrite Hq, Nat2Z.id. split; [done|].
    replace (cap mod 32) with (cap - Z.of_nat i * 32) by lia. done.
  - intros (Hr & value & Hi & Hb). assert (0 ≤ cap / 32) as Hq by (apply Z.div_pos; lia).
    exists (Z.to_nat (cap / 32)), value. split; [done|]. apply elem_of_word_bits.
    cbn [Nat.add]. rewrite Z2Nat.id by done. split_and!; [lia..|].
    replace (cap - cap / 32 * 32) with (cap mod 32) by lia. done.
Qed.
Lemma elem_of_probe_set ask caps set cap :
  probe_set ask caps = Some set → cap ∈ set ↔ cap ∈ caps ∧ ask cap = 1.
Proof.
  revert set. induction caps as [|c caps IH]; intros set; cbn [probe_set].
  { intros [= <-]. rewrite elem_of_nil. tauto. }
  destruct (ask c <? 0); [done|]. destruct (probe_set ask caps) as [set'|]; [|done].
  specialize (IH set' eq_refl). destruct (ask c =? 1) eqn:Hc; intros [= <-].
  - apply Z.eqb_eq in Hc. rewrite !elem_of_cons, IH.
    split; [intros [->|[? ?]]; auto|intros [[->|?] ?]; auto].
  - apply Z.eqb_neq in Hc. rewrite elem_of_cons, IH.
    split; [intros [? ?]; auto|intros [[->|?] ?]; [done|auto]].
Qed.

(** A process whose audit passes the policy is powerless: in the words the
    kernel returned no bit of a capability it knows is set in the effective,
    the permitted or the inheritable set, and none is ambient. *)
Theorem audited_process_is_powerless a proof allowed data i words cap :
  audit a = Ok proof → validate_isolation_proof_with_allowed_fds proof allowed = Ok () →
  au_capget a = Some data → data !! i = Some words →
  Z.of_nat i * 32 ≤ cap < Z.of_nat i * 32 + 32 → cap ≤ cs_cap_last_cap (po_capabilities proof) →
  Z.testbit words.1.1 (cap - Z.of_nat i * 32) = false ∧
  Z.testbit words.1.2 (cap - Z.of_nat i * 32) = false ∧
  Z.testbit words.2 (cap - Z.of_nat i * 32) = false ∧
  au_ambient_is_set a cap ≠ 1.
Proof.
  intros Ha Hv Hd Hi Hr Hl. unfold audit in Ha. rewrite Hd in Ha.
  destruct (au_cap_last_cap a) as [content|]; [|done].
  destruct (_ ≫= _) as [last|]; [|done]. destruct (_ <? last); [done|].
  destruct (probe_set (au_ambient_is_set a) _) as [ambient|] eqn:Hamb; [|done].
  destruct (probe_set (au_capbset_read a) _) as [bounding|]; [|done].
  destruct (prctl_value (au_securebits a)); [|done].
  destruct (prctl_value (au_no_new_privs a)); [|done]. destruct (open_fds a); [|done].
  injection Ha as <-. unfold validate_isolation_proof_with_allowed_fds, no_values in Hv.
  rewrite !refused_unless in Hv. destruct Hv as (_ & _ & Hcaps & _).
  cbn [po_capabilities cs_effective cs_permitted cs_inheritable cs_ambient cs_cap_last_cap] in Hcaps, Hl.
  rewrite !orb_false_iff, !negb_false_iff, !bool_decide_eq_true in Hcaps.
  destruct Hcaps as (((He & Hp) & Hinh) & ->).
  assert (∀ f : Z * Z * Z → Z, bits (f <$> data) last = [] →
    Z.testbit (f words) (cap - Z.of_nat i * 32) = false) as Hbit.
  { intros f Hf. apply not_true_iff_false. intros Hb. apply (not_elem_of_nil cap).
    rewrite <- Hf. unfold bits. apply elem_of_bits_from. exists i, (f words).
    rewrite list_lookup_fmap, Hi. split; [done|]. apply elem_of_word_bits. split_and!; done || lia. }
  split_and!; [by apply (Hbit (λ d, d.1.1))|by apply (Hbit (λ d, d.1.2))|by apply (Hbit snd)|].
  intros Hset. apply (not_elem_of_nil cap). rewrite (elem_of_probe_set _ _ _ _ Hamb).
  split; [|done]. apply list_elem_of_fmap. exists (Z.to_nat cap). split; [lia|].
  apply elem_of_seq. lia.
Qed.
Lemma audited_process_is_powerless_witness :
  let a := mkAuditAnswers (Some "40
") (Some [(0, 0, 0); (0, 0, 0)]) (λ _, 0) (λ c, if c <? 30 then 1 else 0) 0 1
    (Some ["0"; "1"; "2"; "3"; "4"; "7"]) (λ fd, fd <? 5) in
  ∃ proof, audit a = Ok proof ∧
    validate_isolation_proof_with_allowed_fds proof [3; 4] = Ok () ∧ au_ambient_is_set a 21 ≠ 1.
Proof.
  intros a. exists (mkIsolationProof (mkCapabilities [] [] [] []
    ((λ n, Z.of_nat n) <$> seq 0 30) 40) 0 true [0; 1; 2; 3; 4]).
  split; [vm_compute; reflexivity|]. split; [vm_compute; reflexivity|].
  apply (audited_process_is_powerless a (mkIsolationProof (mkCapabilities [] [] [] []
    ((λ n, Z.of_nat n) <$> seq 0 30) 40) 0 true [0; 1; 2; 3; 4]) [3; 4]
    [(0, 0, 0); (0, 0, 0)] 0 (0, 0, 0) 21);
    [vm_compute; reflexivity|vm_compute; reflexivity|reflexivity|reflexivity|cbn; lia|cbn; lia].
Defined.

Lemma kept_fd (names allowed fds : list Z) (fd : Z) :
  (∀ fd, fd ∈ fds → fd ∈ names) →
  (fd ∉ filter (λ fd, 3 ≤ fd ∧ fd ∉ allowed) names) ∧ fd ∈ fds ↔
  fd ∈ fds ∧ (fd < 3 ∨ fd ∈ allowed).
Proof.
  intros Hf. rewrite list_elem_of_filter. split.
  - intros [H1 H2]. split; [done|]. destruct (decide (fd < 3)); [by left|].
    destruct (decide (fd ∈ allowed)); [by right|]. exfalso. apply H1. split_and!; [lia|done|auto].
  - intros [H1 [H2|H2]]; (split; [|done]); intros [[? ?] ?]; [lia|done].
Qed.
(** The descriptors that stay open are the standard ones and the allowed ones,
    where the directory listed every open one. *)
Lemma sanitized_fds close_range names allowed s fds fd :
  sanitize_with_allowlist close_range (Some names) allowed = Some s →
  Forall (λ fd, fd ∈ omap parse_i32 names) fds →
  fd ∈ fds_after s fds ↔ fd ∈ fds ∧ (fd < 3 ∨ fd ∈ allowed).
Proof.
  unfold sanitize_with_allowlist, no_values. intros H Hf. rewrite Forall_forall in Hf.
  case_bool_decide as Ha; cbn in H; [destruct (close_range =? 0); cbn in H|];
    injection H as <-; cbn [fds_after]; rewrite list_elem_of_filter.
  - subst. rewrite elem_of_nil. tauto.
  - by apply kept_fd.
  - by apply kept_fd.
Qed.

(** ** The SELinux context of the payload *)

Definition MAX_SELINUX_CONTEXT_BYTES : Z := 4096.
Inductive SelinuxError :=
| SeUnavailable | SeQueryFailed | SePendingContextMissing | SeInvalidContext | SeClearFailed
| SeApplyFailed.

(** [str::splitn]: at most [n] pieces, the last of which is the rest. *)
Fixpoint splitn_from (n : nat) (sep : Z) (piece s : list Z) : list (list Z) :=
  match s with
  | [] => [piece]
  | c :: rest =>
      match n with
      | S (S n') => if c =? sep then piece :: splitn_from (S n') sep [] rest
                    else splitn_from n sep (piece ++ [c]) rest
      | _ => [piece ++ s]
      end
  end.
Definition splitn (n : nat) (sep : Z) (s : list Z) : list (list Z) :=
  match n with O => [] | _ => splitn_from n sep [] s end.

Definition COLON : Z := 58.
(** [u8::is_ascii_control]. *)
Definition is_ascii_control (b : Z) : bool := between 0 31 b || (b =? 127).

(** [PamSelinuxExecContext::new]; [take(4).count()] uses the pieces up, and
    what [any] looks at is what is left of them. *)
Definition selinux_context_new (value : string) : result string SelinuxError :=
  if str_is_empty value || (MAX_SELINUX_CONTEXT_BYTES <? str_len value)
     || str_contains_byte NUL value || existsb is_ascii_control (as_bytes value)
  then Err SeInvalidContext
  else
    let fields := splitn 4 COLON (as_bytes value) in
    if negb (Z.of_nat (length (take 4 fields)) =? 4)
       || existsb (λ piece, bool_decide (piece = [])) (drop 4 fields)
    then Err SeInvalidContext
    else Ok value.

(** What libselinux answers: a context is a return code and a string. *)
Record SelinuxAnswers := mkSelinuxAnswers {
  sx_library : bool;
  sx_symbol : string → bool;
  sx_enabled : Z;
  sx_getexeccon : Z * option string;
  sx_getpidcon : Z → Z * option string;
  sx_setexeccon : option string → Z;
}.

Definition selinux_enabled (x : SelinuxAnswers) : result bool SelinuxError :=
  if negb (sx_library x) then Err SeUnavailable
  else if negb (sx_symbol x "is_selinux_enabled") then Err SeUnavailable
  else if 0 <? sx_enabled x then Ok true
  else if sx_enabled x =? 0 then Ok false else Err SeQueryFailed.
Definition read_context (answer : Z * option string) : result (option string) SelinuxError :=
  let '(code, value) := answer in
  if code <? 0 then Err SeQueryFailed
  else match value with
       | None => Ok None
       | Some context =>
           match str_from_utf8 context with
           | Some _ => Ok (Some context)
           | None => Err SeInvalidContext
           end
       end.
(** [map(new).transpose()?.ok_or(missing)]. *)
Definition checked_context (missing : SelinuxError) (answer : Z * option string)
    : result string SelinuxError :=
  match read_context answer with
  | Err e => Err e
  | Ok None => Err missing
  | Ok (Some context) => selinux_context_new context
  end.

Definition capture_pending (x : SelinuxAnswers) : result (option string) SelinuxError :=
  match selinux_enabled x with
  | Err e => Err e
  | Ok false => Ok None
  | Ok true =>
      if negb (sx_symbol x "getexeccon") then Err SeUnavailable
      else match checked_context SePendingContextMissing (sx_getexeccon x) with
           | Ok context => Ok (Some context)
           | Err e => Err e
           end
  end.
Definition clear_pending (x : SelinuxAnswers) : result () SelinuxError :=
  match selinux_enabled x with
  | Err e => Err e
  | Ok false => Ok ()
  | Ok true =>
      if negb (sx_symbol x "setexeccon") then Err SeUnavailable
      else if sx_setexeccon x None <? 0 then Err SeClearFailed else Ok ()
  end.
Definition apply_pending (x : SelinuxAnswers) (context : string) : result () SelinuxError :=
  if negb (sx_library x) then Err SeUnavailable
  else if negb (sx_symbol x "setexeccon") then Err SeUnavailable
  else if str_contains_byte NUL context then Err SeInvalidContext
  else if sx_setexeccon x (Some context) <? 0 then Err SeApplyFailed else Ok ().
Definition context_for_pid (x : SelinuxAnswers) (pid : Z) : result string SelinuxError :=
  match selinux_enabled x with
  | Err e => Err e
  | Ok false => Err SeQueryFailed
  | Ok true =>
      if negb (sx_symbol x "getpidcon") then Err SeUnavailable
      else checked_context SeQueryFailed (sx_getpidcon x pid)
  end.

(** The pieces, counted: one more than separators, up to the limit. *)
Definition separators (sep : Z) (s : list Z) : nat := length (filter (λ c, c = sep) s).
Lemma length_splitn_from n sep piece s :
  length (splitn_from (S n) sep piece s) = S (Nat.min n (separators sep s)).
Proof.
  revert n piece. unfold separators. induction s as [|c s IH]; intros n piece;
    cbn [splitn_from].
  { cbn. lia. }
  destruct n as [|n]; [done|]. rewrite filter_cons. destruct (c =? sep) eqn:Hc.
  - apply Z.eqb_eq in Hc. rewrite decide_True by done. cbn [length]. rewrite IH. lia.
  - apply Z.eqb_neq in Hc. rewrite decide_False by done. apply IH.
Qed.

(** A context is accepted exactly when it is a short printable string with
    at least three colons: the fields between them are not looked at, so a
    context without user, role, type and range is accepted. *)
Theorem selinux_context_fields_unchecked value :
  selinux_context_new value = Ok value ↔
  value ≠ "" ∧ str_len value ≤ MAX_SELINUX_CONTEXT_BYTES ∧ str_contains_byte NUL value = false ∧
  existsb is_ascii_control (as_bytes value) = false ∧
  (3 ≤ separators COLON (as_bytes value))%nat.
Proof.
  unfold selinux_context_new. cbn zeta. unfold splitn.
  set (fields := splitn_from 4 COLON [] (as_bytes value)).
  assert (length fields = S (Nat.min 3 (separators COLON (as_bytes value)))) as Hl
    by apply length_splitn_from.
  assert (drop 4 fields = []) as -> by (apply drop_ge; lia). cbn [existsb].
  rewrite length_take, Hl, orb_false_r. destruct (_ || _ || _ || _) eqn:Hb.
  - split; [done|]. intros (H1 & H2 & H3 & H4 & _). rewrite !orb_true_iff in Hb.
    destruct Hb as [[[Hb|Hb]|Hb]|Hb]; try congruence; [|lia].
    by apply str_is_empty_true in Hb.
  - rewrite !orb_false_iff in Hb. destruct Hb as [[[H1 H2] H3] H4].
    assert (value ≠ "") by (intros ->; done). apply Z.ltb_ge in H2.
    destruct (Z.of_nat _ =? 4) eqn:Hf; cbn; split; try done.
    + intros _. apply Z.eqb_eq in Hf. split_and!; try done. lia.
    + intros (_ & _ & _ & _ & H5). apply Z.eqb_neq in Hf. lia.
Qed.
Example selinux_context_of_colons : selinux_context_new ":::" = Ok ":::".
Proof. vm_compute. reflexivity. Qed.

(** ** The guard of real sessions, [smoke.rs] *)

Inductive RealGraphicalSmokeGuardError := SmokeNotAuthorized | SmokeWrongSession
| SmokeInvalidWatchdog.
Definition authorize_real_graphical_smoke (env : string → option string) (session_id : string)
    : result Z RealGraphicalSmokeGuardError :=
  if negb (bool_decide (env "NIRALIS_ALLOW_REAL_GRAPHICAL_SESSION" = Some "1"))
  then Err SmokeNotAuthorized
  else if negb (bool_decide (env "NIRALIS_REAL_GRAPHICAL_SESSION" = Some session_id))
  then Err SmokeWrongSession
  else
    let seconds := match env "NIRALIS_REAL_GRAPHICAL_SMOKE_MAX_SECONDS" with
                   | None => Some 300
                   | Some value => parse_u64 value
                   end in
    match seconds with
    | None => Err SmokeInvalidWatchdog
    | Some seconds => if (1 <=? seconds) && (seconds <=? 3600) then Ok seconds
                      else Err SmokeInvalidWatchdog
    end.

(** ** The logind session of a process, [logind.rs] *)

Record LogindSessionIdentity := mkLogindIdentity {
  li_id : string;
  li_uid : Z;
  li_session_type : string;
  li_class : string;
  li_desktop : option string;
  li_seat : option string;
  li_vtnr : option Z;
}.
Inductive LogindError := LogindUnavailable | LogindInvalidSessionId
| LogindQueryFailed (operation : string) (result : Z).

(** What libsystemd answers: a return code and what it left. *)
Record SdLogin := mkSdLogin {
  sd_library : bool;
  sd_has_symbol : string → bool;
  sd_pid_get_session : Z → Z * option string;
  sd_session_get_uid : string → Z * Z;
  sd_session_get : string → string → Z * option string;
  sd_session_get_vt : string → Z * Z;
}.

Definition ENODATA : Z := 61.
Definition ENXIO : Z := 6.
Definition ENOENT : Z := 2.
Definition pid_has_no_logind_session (result : Z) : bool :=
  (result =? - ENODATA) || (result =? - ENXIO) || (result =? - ENOENT).

(** [LogindSessionId::new] of the worker. *)
Definition logind_session_id_new (value : string) : result string LogindError :=
  if str_is_empty value || (128 <? str_len value) || str_contains_byte NUL value
  then Err LogindInvalidSessionId else Ok value.

Definition string_value (sd : SdLogin) (operation id : string) : result string LogindError :=
  match sd_session_get sd operation id with
  | (status, Some value) =>
      if status <? 0 then Err (LogindQueryFailed operation status)
      else match str_from_utf8 value with
           | Some _ => Ok value
           | None => Err (LogindQueryFailed operation status)
           end
  | (status, None) => Err (LogindQueryFailed operation status)
  end.
Definition ok_value {A E} (r : result A E) : option A :=
  match r with Ok a => Some a | Err _ => None end.
Definition optional_vtnr (answer : Z * Z) : option Z :=
  let '(code, value) := answer in
  if (code <? 0) || (value =? 0) then None else Some value.

Definition logind_symbols : list string :=
  ["sd_session_get_uid"; "sd_session_get_type"; "sd_session_get_class";
   "sd_session_get_desktop"; "sd_session_get_seat"; "sd_session_get_vt"].

Definition resolve_by_id (sd : SdLogin) (id : string)
    : result (option LogindSessionIdentity) LogindError :=
  if negb (sd_library sd) then Err LogindUnavailable
  else if negb (forallb (sd_has_symbol sd) logind_symbols) then Err LogindUnavailable
  else if str_contains_byte NUL id then Err LogindInvalidSessionId
  else
    let '(code, uid) := sd_session_get_uid sd id in
    if code <? 0 then Ok None
    else match string_value sd "sd_session_get_type" id with
    | Err e => Err e
    | Ok session_type =>
        match string_value sd "sd_session_get_class" id with
        | Err e => Err e
        | Ok class =>
            Ok (Some (mkLogindIdentity id uid session_type class
                  (ok_value (string_value sd "sd_session_get_desktop" id))
                  (ok_value (string_value sd "sd_session_get_seat" id))
                  (optional_vtnr (sd_session_get_vt sd id))))
        end
    end.

Definition resolve_by_pid (sd : SdLogin) (pid : Z)
    : result (option LogindSessionIdentity) LogindError :=
  if negb (sd_library sd) then Err LogindUnavailable
  else if negb (sd_has_symbol sd "sd_pid_get_session") then Err LogindUnavailable
  else
    let '(code, value) := sd_pid_get_session sd pid in
    if pid_has_no_logind_session code then Ok None
    else match value with
    | Some id =>
        if code <? 0 then Err (LogindQueryFailed "sd_pid_get_session" code)
        else match str_from_utf8 id with
        | None => Err LogindInvalidSessionId
        | Some _ =>
            match logind_session_id_new id with
            | Err e => Err e
            | Ok id => resolve_by_id sd id
            end
        end
    | None => Err (LogindQueryFailed "sd_pid_get_session" code)
    end.

(** [valid_logind_identity] of [runtime/entrypoint.rs]. *)
Definition valid_logind_identity (i : LogindSessionIdentity) (uid : Z)
    (expected_type desktop expected_seat : string) (expected_vtnr : Z) : bool :=
  (li_uid i =? uid) && str_eqb (li_session_type i) expected_type
  && str_eqb (li_class i) "user"
  && match li_desktop i with Some value => str_eqb value desktop | None => true end
  && bool_decide (li_seat i = Some expected_seat)
  && bool_decide (li_vtnr i = Some expected_vtnr).

(** ** What is executed *)

Record SessionExecPlan := mkExecPlan {
  xp_source_path : string;
  xp_executable : string;
  xp_argv : list string;
}.
#[export] Instance SessionExecPlan_eq_dec : EqDecision SessionExecPlan.
Proof. solve_decision. Defined.

Definition PLAN_MAX_ARGC : Z := 64.
Definition PLAN_MAX_ARG_BYTES : Z := 4096.
Definition PLAN_MAX_ARGV_BYTES : Z := 16 * 1024.

(** [SessionExecPlan::validate]. *)
Definition validate_exec_plan (p : SessionExecPlan) : bool :=
  negb (str_is_empty (xp_source_path p) || (4096 <? str_len (xp_source_path p))
        || str_is_empty (xp_executable p) || (4096 <? str_len (xp_executable p))
        || str_contains_byte NUL (xp_source_path p) || str_contains_byte NUL (xp_executable p)
        || bool_decide (xp_argv p = []) || (PLAN_MAX_ARGC <? Z.of_nat (length (xp_argv p)))
        || existsb (λ arg, str_is_empty arg || (PLAN_MAX_ARG_BYTES <? str_len arg)
                           || str_contains_byte NUL arg) (xp_argv p)
        || (PLAN_MAX_ARGV_BYTES <? foldr (λ arg n, str_len arg + 1 + n) 0 (xp_argv p)))
  && is_absolute (xp_executable p).
(** [is_file() && mode() & 0o111 != 0] of the executable's metadata. *)
Definition executable_ok (metadata : option (bool * Z)) : bool :=
  match metadata with
  | Some (is_file, mode) => is_file && negb (Z.land mode 0x49 =? 0)
  | None => false
  end.

(** [LinuxRuntimeDirValidator::validate] of [runtime/contracts.rs]: the link's
    metadata (is it a link, is it a directory) and the target's (directory,
    owner, mode). *)
Inductive RuntimeDirValidationError := RdInvalidPath | RdInvalidMetadata | RdWrongOwnerOrMode.
Definition validate_runtime_dir (path : string) (link : option (bool * bool))
    (metadata : option (bool * Z * Z)) (uid : Z) : result () RuntimeDirValidationError :=
  if negb (is_absolute path) then Err RdInvalidPath
  else match link with
  | None => Err RdInvalidMetadata
  | Some (is_symlink, is_dir) =>
      if is_symlink || negb is_dir then Err RdInvalidMetadata
      else match metadata with
      | None => Err RdInvalidMetadata
      | Some (is_dir, owner, mode) =>
          if negb is_dir || negb (owner =? uid) || negb (Z.land mode 0xfff =? 0x1c0)
          then Err RdWrongOwnerOrMode else Ok ()
      end
  end.
