(* ===== verification/WorkerChild.v ===== *)
(** * The process that becomes the session

    The session child ([niralis-session-worker/src/session_child],
    [bin/niralis-session-child.rs]) drops its privileges and becomes the probe
    ([bin/niralis-session-probe]), which reports what it is, waits for the
    worker's commit and executes the session.  The worker accepts a report
    with [validate_ready_response].  What the kernel answers the process is an
    argument; what the process does is a log. *)

From stdpp Require Import base sets list strings sorting pretty.
From Stdlib Require Import ZArith Lia Ascii.
From S2P Require Import Prelude Text Paths LedgerTaxonomy PreCommit.
From S2P Require Import WorkerIdentity.
#[local] Open Scope niralis_scope.

Definition SESSION_CHILD_PROTOCOL_VERSION : Z := 9.
Definition SESSION_EXEC_PROBE_VERSION : Z := 2.
Definition MAX_SESSION_CHILD_MESSAGE_BYTES : Z := 1024 * 1024.
Definition DEFAULT_SESSION_PATH : string := "/usr/local/bin:/usr/bin:/bin".

(** ** The messages *)

(** [SessionChildUnixPath]: the bytes of a path. *)
Definition valid_unix_path (bytes : string) : bool :=
  negb (str_is_empty bytes || (4096 <? str_len bytes) || str_contains_byte NUL bytes).
Definition unix_path_new (path : string) : option string :=
  if valid_unix_path path then Some path else None.

Record SessionChildCredentialProof := mkCredentialProof {
  cp_real_uid : Z; cp_effective_uid : Z; cp_saved_uid : Z;
  cp_real_gid : Z; cp_effective_gid : Z; cp_saved_gid : Z;
  cp_supplementary_gids : list Z;
}.
Record SessionChildRuntimeContext := mkRuntimeContext {
  rc_home : string;
  rc_shell : string;
  rc_session_type : string;
  rc_session_class : string;
  rc_session_desktop : string;
  rc_session_id : string;
  rc_runtime_dir : string;
  rc_seat : string;
  rc_vtnr : Z;
  rc_dbus_session_bus_address : option string;
  rc_imported_locale : list (string * string);
  rc_selinux_exec_context : option string;
  rc_probe_path : string;
  rc_exec_plan : SessionExecPlan;
}.
Record SessionChildTerminalContext := mkTerminalContext {
  tc_seat : string;
  tc_vtnr : Z;
  tc_fd : Z;
  tc_device_major : Z;
  tc_device_minor : Z;
}.
Record SessionChildTerminalProof := mkTerminalProof {
  tp_seat : string;
  tp_vtnr : Z;
  tp_fd : Z;
  tp_device_major : Z;
  tp_device_minor : Z;
  tp_controlling_sid : Z;
  tp_foreground_pgid : Z;
}.
Record ProcessIdentity := mkProcessIds { ids_pid : Z; ids_sid : Z; ids_pgid : Z }.
Record SessionRuntimeEnvironmentProof := mkEnvironmentProof {
  en_home : string;
  en_user : string;
  en_logname : string;
  en_shell : string;
  en_path : string;
  en_session_type : string;
  en_session_class : string;
  en_session_desktop : string;
  en_session_id : string;
  en_runtime_dir : string;
  en_seat : string;
  en_vtnr : Z;
  en_dbus_session_bus_address : option string;
  en_imported_locale : list (string * string);
  en_forbidden_variables_present : list string;
  en_user_bus_connected : bool;
  en_cwd : string;
  en_exec_plan : SessionExecPlan;
}.
Inductive SessionChildErrorCode :=
| CcUnsupportedVersion | CcInvalidRequest | CcRootUidDisallowed | CcPrivilegeDropFailed
| CcCredentialMismatch | CcFdSanitizationFailed | CcIsolationAuditFailed
| CcIsolationPolicyFailed | CcInvalidRuntimeContext | CcHomeDirectoryUnavailable
| CcSessionBoundaryFailed | CcTerminalProofFailed | CcExecFailed | CcRuntimeProbeFailed
| CcCommitTimeout | CcCommitRejected | CcFinalExecFailed | CcInternalError.
#[export] Instance SessionChildErrorCode_eq_dec : EqDecision SessionChildErrorCode.
Proof. solve_decision. Defined.

Record ApplyCredentials := mkApplyCredentials {
  ac_canonical_username : string;
  ac_session_id : string;
  ac_credentials : PrivilegeDropTarget;
  ac_runtime : SessionChildRuntimeContext;
  ac_terminal : option SessionChildTerminalContext;
}.
Record ReadyResponse := mkReady {
  ry_canonical_username : string;
  ry_session_id : string;
  ry_child_pid : Z;
  ry_applied_credentials : PrivilegeDropTarget;
  ry_credential_proof : SessionChildCredentialProof;
  ry_isolation_proof : PostDropIsolationProof;
  ry_process_identity : ProcessIdentity;
  ry_runtime_environment : SessionRuntimeEnvironmentProof;
  ry_exec_probe_version : Z;
  ry_terminal_proof : option SessionChildTerminalProof;
}.
Inductive SessionChildResponse := ChildReady (r : ReadyResponse)
| ChildRejected (code : SessionChildErrorCode).

(** ** The child *)

(** What the child's kernel answers; a request that could not be read at all
    is [None], one that does not parse the code of the rejection. *)
Record ChildKernel := mkChildKernel {
  ck_pid : Z;
  ck_request : option (result (Z * ApplyCredentials) SessionChildErrorCode);
  ck_close_range : Z;
  ck_fd_names : option (list string);
  ck_credentials : CredentialAnswers;
  ck_capset : Z;
  ck_ambient_clear : Z;
  ck_audit : AuditAnswers;
  ck_setsid : Z;
  ck_fstat : option (Z * Z);
  ck_tiocsctty : Z;
  ck_tcsetpgrp : Z;
  ck_tcgetsid : Z;
  ck_tcgetpgrp : Z;
  ck_restore_signals : bool;
  ck_chdir : string → bool;
  ck_setenv : string → string → Z;
  ck_user_bus : bool;
  ck_handoff : bool;
  ck_exec : bool;
}.

(** What a process does on its way to the session. *)
Inductive ChildAct :=
| ActSanitize (s : FdSanitization)
| ActCredential (call : CredentialCall)
| ActClearCapabilities | ActSetsid | ActControllingTerminal | ActForeground
| ActChdir (path : string) | ActClearenv | ActSetenv (key value : string)
| ActExecProbe (username session_id : string) (terminal : option SessionChildTerminalContext).
(** The child failed, with the code it told the worker, if any. *)
Abbreviation CH := (SR (list ChildAct) (option SessionChildErrorCode)).
Definition child_do (a : ChildAct) : CH () := sr_modify (λ log, log ++ [a]).
Definition child_check (b : bool) (code : SessionChildErrorCode) : CH () :=
  ensure b else Some code.

Definition allowed_inherited_fds (terminal : option SessionChildTerminalContext) : list Z :=
  match terminal with Some t => [tc_fd t] | None => [] end ++ [4].

(** The environment, one entry after the other; a key or a value with a zero
    byte, or a path that is no path, ends it. *)
Definition environment_entries (runtime : SessionChildRuntimeContext) (username : string)
    : option (list (string * string)) :=
  if negb (valid_unix_path (rc_home runtime) && valid_unix_path (rc_shell runtime)
           && valid_unix_path (rc_runtime_dir runtime)) then None
  else Some (
    [("HOME", rc_home runtime); ("USER", username); ("LOGNAME", username);
     ("SHELL", rc_shell runtime); ("PATH", DEFAULT_SESSION_PATH);
     ("XDG_SESSION_TYPE", rc_session_type runtime);
     ("XDG_SESSION_CLASS", rc_session_class runtime);
     ("XDG_SESSION_DESKTOP", rc_session_desktop runtime);
     ("XDG_SESSION_ID", rc_session_id runtime);
     ("XDG_RUNTIME_DIR", rc_runtime_dir runtime); ("XDG_SEAT", rc_seat runtime);
     ("XDG_VTNR", pretty (rc_vtnr runtime))]
    ++ match rc_dbus_session_bus_address runtime with
       | Some address => [("DBUS_SESSION_BUS_ADDRESS", address)]
       | None => []
       end
    ++ rc_imported_locale runtime).
Fixpoint set_entries (k : ChildKernel) (entries : list (string * string)) : CH () :=
  match entries with
  | [] => sr_ret ()
  | (key, value) :: rest =>
      child_check (negb (str_contains_byte NUL key) && negb (str_contains_byte NUL value))
        CcInvalidRuntimeContext ;;;
      child_do (ActSetenv key value) ;;;
      child_check (ck_setenv k key value =? 0) CcInvalidRuntimeContext ;;;
      set_entries k rest
  end.
Definition install_runtime_environment (k : ChildKernel) (runtime : SessionChildRuntimeContext)
    (username : string) : CH () :=
  child_do ActClearenv ;;;
  let* entries := sr_lift (ok_or (environment_entries runtime username)
                             (Some CcInvalidRuntimeContext)) in
  set_entries k entries.

(** The terminal becomes the controlling terminal of a new session. *)
Definition take_terminal (k : ChildKernel) (terminal : option SessionChildTerminalContext)
    : CH () :=
  child_do ActSetsid ;;;
  child_check (0 <=? ck_setsid k) CcSessionBoundaryFailed ;;;
  let* t := sr_lift (match terminal with
                     | Some t => if tc_fd t =? 3 then Ok t else Err (Some CcTerminalProofFailed)
                     | None => Err (Some CcTerminalProofFailed)
                     end) in
  child_check (bool_decide (ck_fstat k = Some (tc_device_major t, tc_device_minor t)))
    CcTerminalProofFailed ;;;
  child_do ActControllingTerminal ;;;
  child_check (0 <=? ck_tiocsctty k) CcTerminalProofFailed ;;;
  child_do ActForeground ;;;
  child_check (ck_tcsetpgrp k =? 0) CcTerminalProofFailed ;;;
  child_check ((0 <? ck_tcgetsid k) && (0 <? ck_tcgetpgrp k) && (ck_tcgetsid k =? ck_pid k)
               && (ck_tcgetpgrp k =? ck_pid k)) CcTerminalProofFailed.

Definition drop_error_code (e : PrivilegeDropError) : SessionChildErrorCode :=
  match e with RootUidDisallowed => CcRootUidDisallowed | _ => CcPrivilegeDropFailed end.
(** The drop, on the log of the child. *)
Definition child_drop (k : ChildKernel) (target : PrivilegeDropTarget)
    : CH AppliedCredentials := λ log,
  let '(calls, r) := drop_privileges_with (ck_credentials k) target [] in
  (log ++ (ActCredential <$> calls), map_err (λ e, Some (drop_error_code e)) r).

(** [run_child_process_with_dependencies] in the process itself, up to the
    exec. *)
Definition prepare_child (k : ChildKernel) : CH ApplyCredentials :=
  let* request := sr_lift (match ck_request k with
                           | None => Err None
                           | Some (Err code) => Err (Some code)
                           | Some (Ok request) => Ok request
                           end) in
  let '(version, request) := request in
  let target := ac_credentials request in
  let runtime := ac_runtime request in
  child_check (version =? SESSION_CHILD_PROTOCOL_VERSION) CcUnsupportedVersion ;;;
  child_check (negb (dt_uid target =? 0)) CcRootUidDisallowed ;;;
  let allowed := allowed_inherited_fds (ac_terminal request) in
  let* sanitized := sr_lift (ok_or (sanitize_with_allowlist (ck_close_range k) (ck_fd_names k)
                                      allowed) (Some CcFdSanitizationFailed)) in
  child_do (ActSanitize sanitized) ;;;
  let* applied := child_drop k target in
  child_check (bool_decide (applied = target)) CcCredentialMismatch ;;;
  child_do ActClearCapabilities ;;;
  child_check (clear_post_drop_capabilities (ck_capset k) (ck_ambient_clear k))
    CcIsolationAuditFailed ;;;
  let* proof := sr_lift (map_err (λ _, Some CcIsolationAuditFailed) (audit (ck_audit k))) in
  sr_lift (map_err (λ _, Some CcIsolationPolicyFailed)
             (validate_isolation_proof_with_allowed_fds proof allowed)) ;;;
  take_terminal k (ac_terminal request) ;;;
  child_check (ck_restore_signals k) CcIsolationAuditFailed ;;;
  child_check (valid_unix_path (rc_home runtime) && is_absolute (rc_home runtime))
    CcHomeDirectoryUnavailable ;;;
  child_do (ActChdir (rc_home runtime)) ;;;
  child_check (ck_chdir k (rc_home runtime)) CcHomeDirectoryUnavailable ;;;
  install_runtime_environment k runtime (ac_canonical_username request) ;;;
  child_check (ck_user_bus k) CcRuntimeProbeFailed ;;;
  sr_ret request.

(** [exec_probe]: the plan and the context go into a sealed descriptor. *)
Definition exec_probe (k : ChildKernel) (request : ApplyCredentials) : CH () :=
  let probe := rc_probe_path (ac_runtime request) in
  child_check (valid_unix_path probe && is_absolute probe && ck_handoff k) CcExecFailed ;;;
  child_do (ActExecProbe (ac_canonical_username request) (ac_session_id request)
              (ac_terminal request)) ;;;
  child_check (ck_exec k) CcExecFailed.

(** Success is that the process is the probe now. *)
Definition run_child (k : ChildKernel) : CH () :=
  let* request := prepare_child k in exec_probe k request.

(** ** The probe *)

(** What the probe sees of itself. *)
Record ProbeView := mkProbeView {
  pv_args : list string;
  pv_handoff : option (SessionExecPlan * option string);
  pv_pid : Z;
  pv_fstat : option (Z * Z);
  pv_tcgetsid : Z;
  pv_tcgetpgrp : Z;
  pv_audit : AuditAnswers;
  pv_getgroups : Z * list Z;
  pv_getgid : Z;
  pv_getresuid : option (Z * Z * Z);
  pv_getresgid : option (Z * Z * Z);
  pv_environment : list (string * string);
  pv_cwd : option string;
  pv_user_bus : bool;
  pv_getsid : Z;
  pv_getpgid : Z;
  pv_write_ready : bool;
  pv_close_terminal : Z;
  pv_commit : option (Z * bool);
  pv_cloexec : Z;
  pv_selinux : SelinuxAnswers;
  pv_executable : option (bool * Z);
  pv_execve : bool;
}.

Definition forbidden_names : list string :=
  ["LD_PRELOAD"; "LD_LIBRARY_PATH"; "LD_AUDIT"; "LD_DEBUG"; "GCONV_PATH"; "PYTHONPATH";
   "PYTHONHOME"; "PERL5LIB"; "PERLLIB"; "RUBYLIB"; "RUBYOPT"; "NODE_OPTIONS"; "BASH_ENV";
   "ENV"; "GIO_EXTRA_MODULES"; "GIO_MODULE_DIR"; "GTK_PATH"; "GTK_IM_MODULE_FILE";
   "QT_PLUGIN_PATH"; "QT_QPA_PLATFORM_PLUGIN_PATH"; "WAYLAND_DISPLAY"; "DISPLAY";
   "XAUTHORITY"].

(** [var_os], and [var], which wants UTF-8. *)
Fixpoint var_os (environment : list (string * string)) (name : string) : option string :=
  match environment with
  | [] => None
  | (key, value) :: rest => if str_eqb key name then Some value else var_os rest name
  end.
Definition var (environment : list (string * string)) (name : string) : option string :=
  match var_os environment name with
  | Some value => match str_from_utf8 value with Some _ => Some value | None => None end
  | None => None
  end.
Definition env_path (environment : list (string * string)) (name : string) : option string :=
  var_os environment name ≫= unix_path_new.

(** The arguments after the user and the session, when a terminal is handed
    over. *)
Definition terminal_arguments (args : list string)
    : option (string * option Z * option Z * option Z) :=
  match args with
  | [_; _; _; k1; seat; k2; vtnr; k3; major; k4; minor] =>
      if str_eqb k1 "--terminal-seat" && str_eqb k2 "--terminal-vtnr"
         && str_eqb k3 "--terminal-major" && str_eqb k4 "--terminal-minor"
      then Some (seat, parse_u32 vtnr, parse_u32 major, parse_u32 minor) else None
  | _ => None
  end.
Definition terminal_proof (v : ProbeView) : option SessionChildTerminalProof :=
  match terminal_arguments (pv_args v) with
  | Some (seat, Some vtnr, Some major, Some minor) =>
      if bool_decide (pv_fstat v = Some (major, minor)) && (0 <? pv_tcgetsid v)
         && (0 <? pv_tcgetpgrp v) && (pv_tcgetsid v =? pv_pid v)
         && (pv_tcgetpgrp v =? pv_pid v)
      then Some (mkTerminalProof seat vtnr 3 major minor (pv_tcgetsid v) (pv_tcgetpgrp v))
      else None
  | _ => None
  end.

Definition is_locale_key (key : string) : bool :=
  str_eqb key "LANG" || str_eqb key "LANGUAGE" || String.prefix "LC_" key.
Definition imported_locale (environment : list (string * string)) : list (string * string) :=
  filter (λ e, is_locale_key e.1 = true ∧ str_from_utf8 e.1 ≠ None ∧ str_from_utf8 e.2 ≠ None)
    environment.

(** The report, before the probe waits for the commit; [None] is exit 1. *)
Definition probe_ready (v : ProbeView) : option (ReadyResponse * (SessionExecPlan * option string)) :=
  let env := pv_environment v in
  match pv_args v, pv_handoff v with
  | _ :: username :: session_id :: _, Some handoff =>
      if negb ((length (pv_args v) =? 3)%nat || (length (pv_args v) =? 11)%nat) then None
      else match audit (pv_audit v), pv_getresuid v, pv_getresgid v with
      | Ok proof, Some (ruid, euid, suid), Some (rgid, egid, sgid) =>
          let '(count, groups) := pv_getgroups v in
          let groups := normalized_groups (take (Z.to_nat count) groups) (pv_getgid v) in
          let forbidden := filter (λ name, var_os env name ≠ None) forbidden_names in
          match env_path env "HOME", env_path env "SHELL", pv_cwd v ≫= unix_path_new,
                var env "USER", var env "LOGNAME", env_path env "XDG_RUNTIME_DIR" with
          | Some home, Some shell, Some cwd, Some user, Some logname, Some runtime_dir =>
              if (count <? 0) || negb (bool_decide (forbidden = [])) || negb (pv_user_bus v)
                 || negb (pv_getsid v =? pv_pid v) || negb (pv_getpgid v =? pv_pid v)
              then None
              else
                let text name := default "" (var env name) in
                Some (mkReady username session_id (pv_pid v)
                  (mkDropTarget ruid rgid groups)
                  (mkCredentialProof ruid euid suid rgid egid sgid groups) proof
                  (mkProcessIds (pv_pid v) (pv_getsid v) (pv_getpgid v))
                  (mkEnvironmentProof home user logname shell (text "PATH")
                     (text "XDG_SESSION_TYPE") (text "XDG_SESSION_CLASS")
                     (text "XDG_SESSION_DESKTOP") (text "XDG_SESSION_ID") runtime_dir
                     (text "XDG_SEAT") (default 0 (var env "XDG_VTNR" ≫= parse_u32))
                     (var env "DBUS_SESSION_BUS_ADDRESS") (imported_locale env) forbidden true
                     cwd handoff.1)
                  SESSION_EXEC_PROBE_VERSION (terminal_proof v), handoff)
          | _, _, _, _, _, _ => None
          end
      | _, _, _ => None
      end
  | _, _ => None
  end.

(** What the probe does after its report. *)
Inductive ProbeAct :=
| PrReady (r : ReadyResponse) | PrCloseTerminal | PrCommitted | PrCloexec
| PrSetexeccon (context : string) | PrExec (plan : SessionExecPlan)
| PrFailure (stage : string).
Abbreviation PB := (SR (list ProbeAct) ()).
Definition probe_do (a : ProbeAct) : PB () := sr_modify (λ log, log ++ [a]).
Definition probe_check (b : bool) : PB () := ensure b else ().
(** [write_final_exec_failure], then exit. *)
Definition probe_fail (stage : string) : PB () := probe_do (PrFailure stage) ;;; sr_fail ().

(** [read_commit]: the version and whether it is [Exec]. *)
Definition commits (commit : option (Z * bool)) : bool :=
  match commit with
  | Some (version, exec) => (version =? SESSION_CHILD_PROTOCOL_VERSION) && exec
  | None => false
  end.
(** [exec_final]; success is that the process is the session now. *)
Definition exec_final (v : ProbeView) (plan : SessionExecPlan) : PB () :=
  if validate_exec_plan plan && executable_ok (pv_executable v)
     && negb (existsb (λ e, str_contains_byte NUL (e.1 +:+ "=" +:+ e.2)) (pv_environment v))
  then probe_do (PrExec plan) ;;; (if pv_execve v then sr_ret () else probe_fail "execve")
  else probe_fail "execve".

(** [main], up to the exec. *)
Definition prepare_probe (v : ProbeView) : PB SessionExecPlan :=
  let* ready := sr_lift (ok_or (probe_ready v) ()) in
  let '(response, (plan, context)) := ready in
  probe_check (pv_write_ready v) ;;;
  probe_do (PrReady response) ;;;
  (if bool_decide (terminal_arguments (pv_args v) = None) then sr_ret ()
   else probe_do PrCloseTerminal ;;; probe_check (0 <=? pv_close_terminal v)) ;;;
  probe_check (commits (pv_commit v)) ;;;
  probe_do PrCommitted ;;;
  (if pv_cloexec v <? 0 then probe_fail "status_pipe_cloexec" else probe_do PrCloexec) ;;;
  match context with
  | None => sr_ret ()
  | Some context =>
      probe_do (PrSetexeccon context) ;;;
      (if is_ok (apply_pending (pv_selinux v) context) then sr_ret ()
       else probe_fail "selinux_setexeccon")
  end ;;;
  sr_ret plan.
Definition run_probe (v : ProbeView) : PB () :=
  let* plan := prepare_probe v in exec_final v plan.

(** ** What the worker accepts *)

Record SessionChildExpectation := mkExpectation {
  ex_canonical_username : string;
  ex_session_id : string;
  ex_target_credentials : PrivilegeDropTarget;
  ex_runtime : SessionChildRuntimeContext;
  ex_terminal : option SessionChildTerminalContext;
}.
Inductive SessionChildError :=
| ScInvalidPath | ScSpawnFailed | ScIoFailed | ScTimedOut | ScProtocolFailed | ScExitFailed.

Definition allowed_fds (expectation : SessionChildExpectation) : list Z :=
  match ex_terminal expectation with Some t => [tc_fd t] | None => [] end ++ [4].

Definition credentials_match (target : PrivilegeDropTarget) (r : ReadyResponse) : bool :=
  let c := ry_credential_proof r in
  bool_decide (ry_applied_credentials r = target)
  && (cp_real_uid c =? dt_uid target) && (cp_effective_uid c =? dt_uid target)
  && (cp_saved_uid c =? dt_uid target) && (cp_real_gid c =? dt_gid target)
  && (cp_effective_gid c =? dt_gid target) && (cp_saved_gid c =? dt_gid target)
  && bool_decide (normalized_groups (cp_supplementary_gids c) (dt_gid target)
                  = dt_supplementary_gids target).
(** The allowed descriptors that are there. *)
Definition isolation_valid (allowed : list Z) (proof : PostDropIsolationProof) : bool :=
  is_ok (validate_isolation_proof_with_allowed_fds proof
           (filter (λ fd, fd ∈ po_open_fds proof) allowed)).
Definition environment_matches (e : SessionChildExpectation)
    (r : SessionRuntimeEnvironmentProof) : bool :=
  let x := ex_runtime e in
  str_eqb (en_home r) (rc_home x) && str_eqb (en_shell r) (rc_shell x)
  && str_eqb (en_session_type r) (rc_session_type x)
  && (str_is_empty (rc_session_id x)
      || (str_eqb (en_session_class r) (rc_session_class x)
          && str_eqb (en_session_desktop r) (rc_session_desktop x)
          && str_eqb (en_session_id r) (rc_session_id x)
          && str_eqb (en_runtime_dir r) (rc_runtime_dir x)
          && str_eqb (en_seat r) (rc_seat x) && (en_vtnr r =? rc_vtnr x)
          && bool_decide (en_dbus_session_bus_address r = rc_dbus_session_bus_address x)
          && bool_decide (en_imported_locale r = rc_imported_locale x)
          && bool_decide (en_forbidden_variables_present r = [])
          && en_user_bus_connected r))
  && str_eqb (en_user r) (ex_canonical_username e)
  && str_eqb (en_logname r) (ex_canonical_username e)
  && str_eqb (en_path r) DEFAULT_SESSION_PATH
  && str_eqb (en_cwd r) (rc_home x)
  && (str_is_empty (rc_session_id x) || bool_decide (en_exec_plan r = rc_exec_plan x)).
Definition terminal_matches (pid : Z) (expected : option SessionChildTerminalContext)
    (actual : option SessionChildTerminalProof) : bool :=
  match expected, actual with
  | None, None => true
  | Some e, Some a =>
      str_eqb (tp_seat a) (tc_seat e) && (tp_vtnr a =? tc_vtnr e) && (tp_fd a =? tc_fd e)
      && (tp_device_major a =? tc_device_major e) && (tp_device_minor a =? tc_device_minor e)
      && (tp_controlling_sid a =? pid) && (tp_foreground_pgid a =? pid)
  | _, _ => false
  end.

(** [validate_ready_response]: the report is the response itself. *)
Definition validate_ready_response (response : SessionChildResponse)
    (e : SessionChildExpectation) (pid : Z) : result ReadyResponse SessionChildError :=
  match response with
  | ChildRejected _ => Err ScProtocolFailed
  | ChildReady r =>
      let ids := ry_process_identity r in
      if str_eqb (ry_canonical_username r) (ex_canonical_username e)
         && str_eqb (ry_session_id r) (ex_session_id e) && (ry_child_pid r =? pid)
         && credentials_match (ex_target_credentials e) r
         && isolation_valid (allowed_fds e) (ry_isolation_proof r)
         && (ry_exec_probe_version r =? SESSION_EXEC_PROBE_VERSION)
         && (ids_pid ids =? pid) && (ids_sid ids =? pid) && (ids_pgid ids =? pid)
         && environment_matches e (ry_runtime_environment r)
         && terminal_matches pid (ex_terminal e) (ry_terminal_proof r)
      then Ok r else Err ScProtocolFailed
  end.

(** What the worker sees of the child it spawns. *)
Record ChildAnswers := mkChildAnswers {
  cw_pid : Z;
  cw_spawn : result () SessionChildError;
  cw_response : result (Z * SessionChildResponse) SessionChildError;
  cw_try_wait : option (option ());
  cw_pidfd : option Z;
}.
(** [run_child_until_ready]: the report and the pidfd. *)
Definition run_child_until_ready (c : ChildAnswers) (payload_bytes : option Z)
    (e : SessionChildExpectation) : result (ReadyResponse * Z) SessionChildError :=
  match payload_bytes with
  | None => Err ScIoFailed
  | Some bytes =>
      if MAX_SESSION_CHILD_MESSAGE_BYTES <? bytes + 1 then Err ScProtocolFailed
      else match cw_spawn c with
      | Err error => Err error
      | Ok _ =>
          match cw_response c with
          | Err error => Err error
          | Ok (version, response) =>
              if negb (version =? SESSION_CHILD_PROTOCOL_VERSION) then Err ScProtocolFailed
              else match response with
              | ChildRejected _ => Err ScProtocolFailed
              | ChildReady _ =>
                  match cw_try_wait c with
                  | None => Err ScIoFailed
                  | Some (Some _) => Err ScExitFailed
                  | Some None =>
                      match validate_ready_response response e (cw_pid c) with
                      | Err error => Err error
                      | Ok report =>
                          match cw_pidfd c with
                          | None => Err ScIoFailed
                          | Some pidfd => Ok (report, pidfd)
                          end
                      end
                  end
              end
          end
      end
  end.

(** [valid_terminal_proof] of [runtime/entrypoint.rs]. *)
Definition valid_terminal_proof (r : ReadyResponse) (expected_seat : string)
    (expected_vtnr : Z) : bool :=
  match ry_terminal_proof r with
  | None => false
  | Some p =>
      str_eqb (tp_seat p) expected_seat && (tp_vtnr p =? expected_vtnr) && (tp_fd p =? 3)
      && (tp_device_major p =? 4) && (tp_device_minor p =? expected_vtnr)
      && (tp_controlling_sid p =? ids_sid (ry_process_identity r))
      && (tp_foreground_pgid p =? ids_pgid (ry_process_identity r))
  end.
