(* ===== verification/WorkerWorld.v ===== *)
(** * The session worker and the machine it runs on

    A session worker ([niralis-session-worker]) opens the PAM session, starts
    the payload in a systemd scope, waits for it and gives everything back.
    [WorkerView] is what the machine answers at one moment, [Worker] the
    moment, the log of what the worker did, each with its time, and the three
    things it owns: the reference on the payload's unit, the PAM transaction
    ([niralis-auth/src/pam_native/transaction.rs]) and the terminal
    ([niralis-session-worker/src/vt]). *)

From stdpp Require Import base gmap sets list strings pretty.
From Stdlib Require Import ZArith Lia.
From S2P Require Import Prelude Text Admission Protocol WorkerRecord Launch.
From S2P Require Import WorkerIdentity WorkerChild.
#[local] Open Scope niralis_scope.

(** ** What the machine answers *)

(** [zbus::Error], as far as [classify_zbus_error] looks at it. *)
Inductive FdoError := FdoNameHasNoOwner | FdoDisconnected | FdoNoReply | FdoOther.
Inductive ZbusError :=
| ZbMethodError (name : string) | ZbInputOutput | ZbFdo (error : FdoError) | ZbOther.

(** The properties of a unit, each read on its own. *)
Record UnitAnswers := mkUnitAnswers {
  ua_invocation_id : result (list Z) ZbusError;
  ua_id : result string ZbusError;
  ua_control_group : result string ZbusError;
  ua_slice : result string ZbusError;
  ua_transient : result bool ZbusError;
  ua_active_state : result string ZbusError;
  ua_sub_state : result string ZbusError;
}.

Inductive UnitCall := CallRef | CallUnref | CallKill (signal : Z).
#[export] Instance UnitCall_eq_dec : EqDecision UnitCall.
Proof. solve_decision. Defined.

(** A [JobRemoved] signal of systemd, or none before the deadline. *)
Inductive JobAnswer :=
| JobTimedOut | JobUndecodable | JobRemoved (id : Z) (path result : string).

(** [symlink_metadata]. *)
Inductive FileMeta := MetaFile | MetaOther | MetaNotFound | MetaFailed.

Inductive PollAnswer :=
| PollTimedOut | PollInterrupted | PollFailed | PollReady (revents : nat → Z).

(** One read of the signal descriptor that is not [WouldBlock]. *)
Inductive SignalRead := SignalRead_ok (signo : Z) | SignalRead_failed.

(** [accept] on the control listener: the peer's uid, if the socket tells it,
    and the request read from the stream. *)
Inductive AcceptAnswer :=
| AcceptWouldBlock | AcceptFailed
| Accepted (peer_uid : option Z) (request : result WorkerControlEnvelope SessionError).

Inductive PamCall :=
| PamStart | PamAuthenticate | PamAcctMgmt | PamSetTty (tty : string)
| PamPutenv (entry : string) | PamEstablishCred | PamOpenSession | PamReinitializeCred
| PamCloseSession | PamDeleteCred | PamEnd.
#[export] Instance PamCall_eq_dec : EqDecision PamCall.
Proof. solve_decision. Defined.

Inductive VtCall := VtActivateCall (vt : Z) | VtCloseCall | VtDisallocateCall (vt : Z).
#[export] Instance VtCall_eq_dec : EqDecision VtCall.
Proof. solve_decision. Defined.

Record WorkerView := mkWorkerView {
  (* systemd *)
  wv_bus : bool;
  wv_proxy : option ZbusError;
  wv_unit_by_invocation : list Z → result string ZbusError;
  wv_unit : string → UnitAnswers;
  wv_unit_call : UnitCall → string → option ZbusError;
  wv_random : option (list Z);
  wv_subscribe : bool;
  wv_start_unit : option string;
  wv_stop_unit : option string;
  wv_get_unit : string → option string;
  wv_job : JobAnswer;
  (* cgroupfs and /proc *)
  wv_events_meta : string → FileMeta;
  wv_directory_meta : string → FileMeta;
  wv_events : string → option string;
  wv_procs : string → option string;
  wv_pid_cgroup : Z → option string;
  wv_pidfd_cgroup : option string;
  (* descriptors *)
  wv_now : Z;
  wv_timer_new : bool;
  wv_timer_arm : bool;
  wv_timer_read : result bool ();
  wv_poll : PollAnswer;
  wv_signals : list SignalRead;
  wv_accept : AcceptAnswer;
  wv_poll_child : result (option ExitStatus) ();
  (* the supervisor channel *)
  wv_dup_channel : bool;
  wv_channel_peer : option (Z * Z);
  wv_channel_events : Z;
  wv_control_write : result () SessionError;
  wv_control_read : result WorkerControlEnvelope SessionError;
  wv_read_timeout : bool;
  wv_reply : result () SessionError;
  (* PAM *)
  wv_pam : PamCall → bool;
  wv_pam_user : option string;
  wv_pam_getenv : string → option string;
  wv_pam_environment : option (list (string * string));
  wv_pam_panics : PamCall → bool;
  (* terminals *)
  wv_libsystemd : bool;
  wv_sd_symbol : bool;
  wv_can_graphical : Z;
  wv_open_device : string → option Z;
  wv_open_query : result Z Z;
  wv_fstat : result (Z * Z) Z;
  wv_vt_active : result Z Z;
  wv_vt_settling : list (result Z Z);
  wv_vt_call : VtCall → option Z;
  wv_dup_terminal : bool;
  (* users, privileges and the session child *)
  wv_environment : string → option string;
  wv_executable : string → option (bool * Z);
  wv_sd_login : SdLogin;
  wv_path_exists : string → bool;
  wv_bind_listener : bool;
  wv_passwd_size : Z;
  wv_passwd : nat → Z → PasswdAnswer;
  wv_ngroups_max : Z;
  wv_groups : nat → Z → GroupAnswer;
  wv_link_metadata : string → option (bool * bool);
  wv_metadata : string → option (bool * Z * Z);
  wv_selinux : SelinuxAnswers;
  wv_child_payload : option Z;
  wv_child : ChildAnswers;
  wv_commit_sent : bool;
  wv_exec_status : result bool SessionChildError;
  wv_child_exited : option bool;
  wv_group_kill : option Z;
  wv_child_waits : result (option ExitStatus) () * list (result (option ExitStatus) ());
  wv_child_wait : option ExitStatus;
}.

(** ** The worker *)

Inductive WorkerAct :=
| ActUnit (call : UnitCall) (path : string)
| ActStartUnit (name : string) | ActStopUnit (name : string)
| ActPam (call : PamCall)
| ActVt (call : VtCall)
| ActControl (request : WorkerControlRequest)
| ActReply (response : WorkerResponse)
| ActSpawnChild | ActCommitExec
| ActKillChild | ActReapChild | ActSignalGroup (pgid signal : Z).

(** [NativePamTransaction]. *)
Record NativePamTransaction := mkPamTransaction {
  pt_credentials_established : bool;
  pt_session_open : bool;
  pt_ended : bool;
}.

(** [OwnedTerminalHandleState]. *)
Inductive TerminalHandle := TerminalHeld | TerminalClosed | TerminalReleased.
#[export] Instance TerminalHandle_eq_dec : EqDecision TerminalHandle.
Proof. solve_decision. Defined.

Inductive VirtualTerminalError :=
| UnsupportedSeat | LibraryUnavailable | SymbolUnavailable | InvalidSeatName
| SeatNotGraphical | SeatQueryFailed (result : Z)
| DeviceOpenFailed (path : string) (errno : Z) | OpenQueryFailed (errno : Z)
| InvalidAllocatedTerminal (number : Z) | DeviceMetadataFailed (errno : Z)
| DeviceMismatch (expected major minor : Z)
| VtOperationFailed | VtCleanupFailed
| CleanupOperationFailed (stage : string) (errno : Z) | CleanupTimedOut.

(** [VirtualTerminalGuard] around an [OwnedVirtualTerminal]. *)
Record VirtualTerminalGuard := mkTerminalGuard {
  vg_vtnr : Z;
  vg_previous_vtnr : Z;
  vg_handle : TerminalHandle;
  vg_release_result : option (result () VirtualTerminalError);
}.

(** The session child: a probe that waits for its commit, or the session with
    its process group. *)
Inductive ChildState := NoChild | ChildPending | ChildLive (pgid : Z).
#[export] Instance ChildState_eq_dec : EqDecision ChildState.
Proof. solve_decision. Defined.

Record Worker := mkWorker {
  wk_view : nat → WorkerView;
  wk_time : nat;
  wk_log : list (nat * WorkerAct);
  wk_disconnected : bool;
  wk_reference_held : bool;
  wk_pam : option NativePamTransaction;
  wk_terminal : option VirtualTerminalGuard;
  wk_child : ChildState;
}.
Abbreviation WK := (SR Worker).

Definition wk_tick (w : Worker) : Worker :=
  mkWorker (wk_view w) (S (wk_time w)) (wk_log w) (wk_disconnected w)
    (wk_reference_held w) (wk_pam w) (wk_terminal w) (wk_child w).
Definition wk_record (a : WorkerAct) (w : Worker) : Worker :=
  mkWorker (wk_view w) (wk_time w) (wk_log w ++ [(wk_time w, a)]) (wk_disconnected w)
    (wk_reference_held w) (wk_pam w) (wk_terminal w) (wk_child w).
Definition set_disconnected (w : Worker) : Worker :=
  mkWorker (wk_view w) (wk_time w) (wk_log w) true
    (wk_reference_held w) (wk_pam w) (wk_terminal w) (wk_child w).
Definition set_reference (held : bool) (w : Worker) : Worker :=
  mkWorker (wk_view w) (wk_time w) (wk_log w) (wk_disconnected w)
    held (wk_pam w) (wk_terminal w) (wk_child w).
Definition set_pam (t : option NativePamTransaction) (w : Worker) : Worker :=
  mkWorker (wk_view w) (wk_time w) (wk_log w) (wk_disconnected w)
    (wk_reference_held w) t (wk_terminal w) (wk_child w).
Definition set_terminal (g : option VirtualTerminalGuard) (w : Worker) : Worker :=
  mkWorker (wk_view w) (wk_time w) (wk_log w) (wk_disconnected w)
    (wk_reference_held w) (wk_pam w) g (wk_child w).
Definition set_child (c : ChildState) (w : Worker) : Worker :=
  mkWorker (wk_view w) (wk_time w) (wk_log w) (wk_disconnected w)
    (wk_reference_held w) (wk_pam w) (wk_terminal w) c.

(** Ask the machine, which may answer differently the next time. *)
Definition see {E A} (f : WorkerView → A) : WK E A := λ w,
  (wk_tick w, Ok (f (wk_view w (wk_time w)))).
(** Do something and see what came of it. *)
Definition perform {E A} (a : WorkerAct) (f : WorkerView → A) : WK E A := λ w,
  (wk_tick (wk_record a w), Ok (f (wk_view w (wk_time w)))).

(** Turn an error into a value: the [match] on a [Result] of the code. *)
Definition attempt {S E F A} (m : SR S E A) : SR S F (result A E) := λ s,
  let '(s, r) := m s in (s, Ok r).
(** [if let Some(error) = .. { return Err(f(error)) }]. *)
Definition none_or {S E E' : Type} (f : E' → E) (o : option E') : SR S E () :=
  match o with None => sr_ret () | Some e => sr_fail (f e) end.

(** What the log says happened. *)
Definition acts (w : Worker) : list WorkerAct := (wk_log w).*2.

(** The numbers of [libc] the worker uses. *)
Definition SIGHUP : Z := 1.
Definition SIGINT : Z := 2.
Definition SIGKILL : Z := 9.
Definition SIGTERM : Z := 15.
Definition WK_ESRCH : Z := 3.
Definition WK_EBUSY : Z := 16.
Definition POLLIN : Z := 1.
Definition POLLERR : Z := 8.
Definition POLLHUP : Z := 16.
Definition POLLNVAL : Z := 32.
Definition has_events (mask revents : Z) : bool := negb (Z.land revents mask =? 0).
Definition BROKEN : Z := Z.lor POLLHUP (Z.lor POLLERR POLLNVAL).

Lemma keeps_attempt {S E F A} (R : S → S → Prop) (m : SR S E A) :
  sr_keeps R m → sr_keeps R (attempt (F:=F) m).
Proof. intros H s. specialize (H s). unfold attempt. by destruct (m s). Qed.
Lemma keeps_none_or {S E E'} (R : S → S → Prop) `{!PreOrder R} (f : E' → E) o :
  sr_keeps R (none_or (S:=S) f o).
Proof. destruct o; [apply keeps_fail|apply keeps_ret]; done. Qed.
