(* ===== verification/WorkerScope.v ===== *)
(** * The payload's systemd scope, as the worker holds it

    [niralis-session-worker/src/payload_scope]: making the transient unit and
    pinning its invocation, asking whether it ended, signalling it, proving
    that nobody is left in its control group, and giving it back.  A
    [SystemdPayloadScope] is immutable but for the reference it holds, which is
    [wk_reference_held]. *)

From stdpp Require Import base gmap sets list strings pretty sorting.
From Stdlib Require Import ZArith Lia.
From S2P Require Import Prelude Text Admission Protocol WorkerRecord Launch.
From S2P Require Import CgroupState HostWorld WorkerWorld.
#[local] Open Scope niralis_scope.

Inductive PayloadScopeError :=
| PseBusUnavailable | PseStartFailed | PseTimedOut | PseJobFailed | PseInvalidIdentity
| PseCgroupMismatch | PseInvalidMembership | PseWorkerInsideBoundary | PseCleanupFailed
| PseObserverFailed | PseUnitReplaced | PseBoundaryNotEmpty | PseUnitNotTerminal
| PseUnrefFailed | PseInvocationUnavailable | PseTransportFailure | PseServiceOwnerChanged.
#[export] Instance PayloadScopeError_eq_dec : EqDecision PayloadScopeError.
Proof. solve_decision. Defined.

Inductive InvocationBackendError :=
| IbeNoSuchUnit | IbeUnknownObject | IbeBusDisconnected | IbeServiceOwnerChanged
| IbeTransport | IbeBoundaryNotEmpty | IbeCgroupAbsent | IbeCgroupIo.
#[export] Instance InvocationBackendError_eq_dec : EqDecision InvocationBackendError.
Proof. solve_decision. Defined.

Record InvocationUnitProperties := mkUnitProps {
  iu_object_path : string;
  iu_id : string;
  iu_invocation_id : string;
  iu_control_group : string;
  iu_slice : string;
  iu_transient : bool;
  iu_active_state : string;
  iu_sub_state : string;
}.
#[export] Instance InvocationUnitProperties_eq_dec : EqDecision InvocationUnitProperties.
Proof. solve_decision. Defined.

Record SystemdPayloadScope := mkScope {
  sc_identity : PayloadScopeIdentity;
  sc_object_path : string;
  sc_control_group : string;
  sc_worker_pid : Z;
  sc_launcher_pid : Z;
}.
Definition sc_invocation_id (sc : SystemdPayloadScope) : string :=
  psi_invocation_id (sc_identity sc).

(** ** Errors of the bus *)

Definition classify_zbus_error (error : ZbusError) : InvocationBackendError :=
  match error with
  | ZbMethodError name =>
      if str_eqb name "org.freedesktop.systemd1.NoSuchUnit" then IbeNoSuchUnit
      else if str_eqb name "org.freedesktop.DBus.Error.UnknownObject" then IbeUnknownObject
      else if str_eqb name "org.freedesktop.DBus.Error.NameHasNoOwner"
      then IbeServiceOwnerChanged
      else if str_eqb name "org.freedesktop.DBus.Error.Disconnected"
              || str_eqb name "org.freedesktop.DBus.Error.NoReply" then IbeBusDisconnected
      else IbeTransport
  | ZbInputOutput => IbeBusDisconnected
  | ZbFdo FdoNameHasNoOwner => IbeServiceOwnerChanged
  | ZbFdo (FdoDisconnected | FdoNoReply) => IbeBusDisconnected
  | ZbFdo FdoOther | ZbOther => IbeTransport
  end.

(** Which operation failed only decides what is written to the log. *)
Definition map_invocation_error (error : InvocationBackendError) : PayloadScopeError :=
  match error with
  | IbeNoSuchUnit | IbeUnknownObject => PseInvocationUnavailable
  | IbeBusDisconnected => PseBusUnavailable
  | IbeServiceOwnerChanged => PseServiceOwnerChanged
  | IbeTransport => PseTransportFailure
  | IbeBoundaryNotEmpty => PseBoundaryNotEmpty
  | IbeCgroupAbsent => PseInvalidIdentity
  | IbeCgroupIo => PseInvalidMembership
  end.
Definition gone_error (error : InvocationBackendError) : bool :=
  match error with IbeNoSuchUnit | IbeUnknownObject => true | _ => false end.

(** ** Names and paths *)

Definition hex_id (bytes : list Z) : option string :=
  if (length bytes =? 16)%nat then Some (hex_of_bytes bytes) else None.
Definition parse_hex_id (value : string) : option (list Z) :=
  if str_len value =? 32 then hex_pairs (as_bytes value) else None.

Definition user_slice (uid : Z) : string := "user-" +:+ pretty uid +:+ ".slice".
Definition valid_slice_name (value : string) (uid : Z) : bool :=
  str_eqb value (user_slice uid) && negb (uid =? 0).
Definition valid_payload_cgroup (cgroup : string) (uid : Z) (unit : string) : bool :=
  str_eqb cgroup ("/user.slice/" +:+ user_slice uid +:+ "/" +:+ unit)
  && String.prefix "niralis-payload-" unit && str_ends_with ".scope" unit.
Definition is_ancestor (candidate path : string) : bool :=
  String.prefix (candidate +:+ "/") path.

Definition terminal_unit_state (active sub : string) : bool :=
  (str_eqb active "inactive" && str_eqb sub "dead")
  || (str_eqb active "failed" && str_eqb sub "failed").

(** ** cgroupfs and /proc *)

Definition MAX_CGROUP_STATE_BYTES : Z := 4096.

Definition read_bounded (content : option string) : result text PayloadScopeError :=
  match content with
  | None => Err PseInvalidMembership
  | Some bytes =>
      if MAX_CGROUP_STATE_BYTES <? str_len bytes then Err PseInvalidMembership
      else ok_or (str_from_utf8 bytes) PseInvalidMembership
  end.

(** The loop of [parse_populated]. *)
Fixpoint populated_lines (populated : option Z) (ls : list text)
    : result Z PayloadScopeError :=
  match ls with
  | [] => ok_or populated PseInvalidMembership
  | line :: rest =>
      match ascii_words [] line with
      | [] => populated_lines populated rest
      | [key; value] =>
          if bool_decide (key = lit "populated") then
            match populated, parse_uint 255 value with
            | None, Some n => if n <=? 1 then populated_lines (Some n) rest
                              else Err PseInvalidMembership
            | _, _ => Err PseInvalidMembership
            end
          else populated_lines populated rest
      | _ => Err PseInvalidMembership
      end
  end.
Definition parse_populated (content : text) : result Z PayloadScopeError :=
  populated_lines None (lines content).

Definition parse_members (content : option string) : option (list Z) :=
  bytes ← content; content ← str_from_utf8 bytes;
  members ← mapM (parse_uint u32_max) (lines content);
  Some (merge_sort Z.le members).

Definition read_members (cgroup : string) : WK PayloadScopeError (list Z) :=
  ensure cgroup_path_valid cgroup else PseInvalidIdentity ;;;
  let* content := see (λ v, wv_procs v cgroup) in
  sr_lift (ok_or (parse_members content) PseInvalidMembership).

Definition parse_unified_cgroup (content : option string) : option string :=
  bytes ← content; _ ← str_from_utf8 bytes; head (unified_lines bytes).

Definition pid_cgroup (pid : Z) : WK PayloadScopeError string :=
  let* content := see (λ v, wv_pid_cgroup v pid) in
  sr_lift (ok_or (parse_unified_cgroup content) PseCgroupMismatch).

(** A process that must not be in the payload's group. *)
Definition outside_group (cgroup : string) (members : list Z) (pid : Z)
    : WK PayloadScopeError () :=
  let* outside := pid_cgroup pid in
  ensure negb (str_eqb outside cgroup || is_ancestor cgroup outside
               || bool_decide (pid ∈ members)) else PseWorkerInsideBoundary.

Inductive CgroupEmptyState := CgAbsent | CgPresentEmpty.
#[export] Instance CgroupEmptyState_eq_dec : EqDecision CgroupEmptyState.
Proof. solve_decision. Defined.

Definition read_cgroup_empty_state (cgroup : string) : WK PayloadScopeError CgroupEmptyState :=
  ensure cgroup_path_valid cgroup else PseInvalidIdentity ;;;
  let* meta := see (λ v, wv_events_meta v cgroup) in
  match meta with
  | MetaNotFound =>
      let* directory := see (λ v, wv_directory_meta v cgroup) in
      match directory with
      | MetaNotFound => sr_ret CgAbsent
      | _ => sr_fail PseInvalidMembership
      end
  | MetaFile =>
      let* content := see (λ v, wv_events v cgroup) in
      let* events := sr_lift (read_bounded content) in
      let* populated := sr_lift (parse_populated events) in
      ensure populated =? 0 else PseBoundaryNotEmpty ;;;
      let* content := see (λ v, wv_procs v cgroup) in
      let* procs := sr_lift (read_bounded content) in
      ensure bool_decide (trim procs = []) else PseBoundaryNotEmpty ;;;
      sr_ret CgPresentEmpty
  | _ => sr_fail PseInvalidMembership
  end.

(** [CgroupEventsObserver::refresh]: whether the events file makes sense. *)
Definition observer_reads (content : option string) : bool :=
  match read_bounded content with
  | Ok events => is_ok (parse_populated events)
  | Err _ => false
  end.
Definition consume_wakeup (cgroup : string) : WK PayloadScopeError () :=
  let* content := see (λ v, wv_events v cgroup) in
  ensure observer_reads content else PseObserverFailed.

(** ** [ZbusInvocationProvider] *)

Definition proxy {E} (f : ZbusError → E) : WK E () :=
  let* failed := see wv_proxy in none_or f failed.

Definition resolve_by_invocation (invocation_id : string)
    : WK InvocationBackendError string :=
  proxy classify_zbus_error ;;;
  let* bytes := sr_lift (ok_or (parse_hex_id invocation_id) IbeTransport) in
  let* answer := see (λ v, wv_unit_by_invocation v bytes) in
  sr_lift (map_err classify_zbus_error answer).

Definition get_property {E A} (f : ZbusError → E) (path : string)
    (field : UnitAnswers → result A ZbusError) : WK E A :=
  let* answer := see (λ v, field (wv_unit v path)) in
  sr_lift (map_err f answer).

Definition read_properties (path : string) : WK InvocationBackendError InvocationUnitProperties :=
  let property {A} := get_property (A:=A) classify_zbus_error path in
  proxy classify_zbus_error ;;;
  proxy classify_zbus_error ;;;
  let* invocation := property ua_invocation_id in
  let* id := property ua_id in
  let* invocation_id := sr_lift (ok_or (hex_id invocation) IbeTransport) in
  let* control_group := property ua_control_group in
  let* slice := property ua_slice in
  let* transient := property ua_transient in
  let* active_state := property ua_active_state in
  let* sub_state := property ua_sub_state in
  sr_ret (mkUnitProps path id invocation_id control_group slice transient active_state
            sub_state).

(** [Ref], [Unref] and [Kill] of the pinned unit. *)
Definition call_unit (call : UnitCall) (path : string) : WK InvocationBackendError () :=
  proxy classify_zbus_error ;;;
  let* failed := perform (ActUnit call path) (λ v, wv_unit_call v call path) in
  none_or classify_zbus_error failed.

Definition open_observer (cgroup : string) : WK InvocationBackendError () :=
  ensure cgroup_path_valid cgroup && negb (str_contains_byte NUL cgroup)
    else IbeTransport ;;;
  sr_map_err (λ _, IbeTransport) (consume_wakeup cgroup).

Definition read_boundary_state (cgroup : string) : WK InvocationBackendError CgroupEmptyState :=
  sr_map_err (λ error, match error with
                       | PseBoundaryNotEmpty => IbeBoundaryNotEmpty
                       | PseInvalidIdentity => IbeCgroupAbsent
                       | _ => IbeCgroupIo
                       end) (read_cgroup_empty_state cgroup).

(** ** Identity of the pinned unit *)

Inductive ControlGroupPropertyMode := ExactGroup | AllowClearedWhenTerminal.

Definition properties_match (mode : ControlGroupPropertyMode) (sc : SystemdPayloadScope)
    (p : InvocationUnitProperties) : bool :=
  let identity := sc_identity sc in
  let group_matches := str_eqb (iu_control_group p) (sc_control_group sc)
    || match mode with
       | ExactGroup => false
       | AllowClearedWhenTerminal => str_is_empty (iu_control_group p)
           && terminal_unit_state (iu_active_state p) (iu_sub_state p)
       end in
  str_eqb (iu_object_path p) (sc_object_path sc)
  && str_eqb (iu_invocation_id p) (psi_invocation_id identity)
  && str_eqb (iu_id p) (psi_unit_name identity)
  && group_matches
  && str_eqb (iu_slice p) (user_slice (psi_expected_uid identity))
  && iu_transient p
  && valid_payload_cgroup (sc_control_group sc) (psi_expected_uid identity)
       (psi_unit_name identity).

Definition validate_pinned_properties_with_control_group (mode : ControlGroupPropertyMode)
    (sc : SystemdPayloadScope) (p : InvocationUnitProperties) : WK PayloadScopeError () := λ w,
  (w, if wk_reference_held w && properties_match mode sc p then Ok ()
      else Err PseUnitReplaced).
Definition validate_pinned_properties := validate_pinned_properties_with_control_group ExactGroup.
Definition validate_terminal_transition_properties :=
  validate_pinned_properties_with_control_group AllowClearedWhenTerminal.

Definition validate_disappeared_boundary_properties (sc : SystemdPayloadScope)
    (p : InvocationUnitProperties) : bool :=
  let identity := sc_identity sc in
  str_eqb (iu_object_path p) (sc_object_path sc)
  && str_eqb (iu_invocation_id p) (psi_invocation_id identity)
  && str_eqb (iu_id p) (psi_unit_name identity)
  && str_eqb (iu_slice p) (user_slice (psi_expected_uid identity))
  && iu_transient p
  && (str_is_empty (iu_control_group p) || str_eqb (iu_control_group p) (sc_control_group sc))
  && terminal_unit_state (iu_active_state p) (iu_sub_state p).

Definition reference_held {E} : WK E bool := λ w, (w, Ok (wk_reference_held w)).
Definition provided {A} (m : WK InvocationBackendError A) : WK PayloadScopeError A :=
  sr_map_err map_invocation_error m.

(** The invocation still resolves to the pinned object. *)
Definition resolve_pinned (sc : SystemdPayloadScope) : WK PayloadScopeError () :=
  let* resolved := provided (resolve_by_invocation (sc_invocation_id sc)) in
  ensure str_eqb resolved (sc_object_path sc) else PseUnitReplaced.

(** ** Termination *)

Definition boundary_appears_terminal (sc : SystemdPayloadScope) : WK PayloadScopeError bool :=
  resolve_pinned sc ;;;
  let* p := provided (read_properties (sc_object_path sc)) in
  validate_terminal_transition_properties sc p ;;;
  sr_ret (terminal_unit_state (iu_active_state p) (iu_sub_state p)).

(** The worker and the launcher are outside the boundary. *)
Definition outsiders (sc : SystemdPayloadScope) : WK PayloadScopeError () :=
  let* members := read_members (sc_control_group sc) in
  outside_group (sc_control_group sc) members (sc_worker_pid sc) ;;;
  outside_group (sc_control_group sc) members (sc_launcher_pid sc).

Definition request_graceful_termination_invocation (sc : SystemdPayloadScope)
    : WK PayloadScopeError () :=
  let* held := reference_held in
  ensure held else PseInvalidIdentity ;;;
  resolve_pinned sc ;;;
  let* p := provided (read_properties (sc_object_path sc)) in
  validate_pinned_properties sc p ;;;
  ensure str_eqb (iu_active_state p) "active" && str_eqb (iu_sub_state p) "running"
    else PseInvalidIdentity ;;;
  provided (call_unit (CallKill SIGTERM) (sc_object_path sc)) ;;;
  let* after := provided (read_properties (sc_object_path sc)) in
  validate_terminal_transition_properties sc after.

Definition request_graceful_termination (sc : SystemdPayloadScope) : WK PayloadScopeError () :=
  outsiders sc ;;; request_graceful_termination_invocation sc.

Definition validate_forced_invocation_eligibility (sc : SystemdPayloadScope)
    : WK PayloadScopeError () :=
  resolve_pinned sc ;;;
  let* p := provided (read_properties (sc_object_path sc)) in
  validate_pinned_properties sc p.

Definition validate_forced_termination_eligibility (sc : SystemdPayloadScope)
    : WK PayloadScopeError () :=
  let* held := reference_held in
  ensure held && valid_payload_cgroup (sc_control_group sc)
      (psi_expected_uid (sc_identity sc)) (psi_unit_name (sc_identity sc))
    else PseInvalidIdentity ;;;
  outsiders sc ;;;
  validate_forced_invocation_eligibility sc.

Definition request_forced_signal_invocation (sc : SystemdPayloadScope)
    : WK PayloadScopeError () :=
  validate_forced_invocation_eligibility sc ;;;
  provided (call_unit (CallKill SIGKILL) (sc_object_path sc)).

Definition request_forced_termination (sc : SystemdPayloadScope) : WK PayloadScopeError () :=
  validate_forced_termination_eligibility sc ;;;
  request_forced_signal_invocation sc.

Definition validate_forced_termination_post_kill (sc : SystemdPayloadScope)
    : WK PayloadScopeError () :=
  let* resolved := attempt (resolve_by_invocation (sc_invocation_id sc)) in
  match resolved with
  | Ok path =>
      ensure str_eqb path (sc_object_path sc) else PseUnitReplaced ;;;
      let* properties := attempt (read_properties (sc_object_path sc)) in
      match properties with
      | Ok p => validate_terminal_transition_properties sc p
      | Err error => ensure gone_error error else map_invocation_error error
      end
  | Err error => ensure gone_error error else map_invocation_error error
  end.

Definition create_boundary_observer (sc : SystemdPayloadScope) : WK PayloadScopeError () :=
  provided (open_observer (sc_control_group sc)).

(** ** The proof that nobody is left *)

(** [LeaderExit], with the statuses of a process that is gone. *)
Inductive LeaderExit :=
| ExitedZero | ExitedNonZero (code : Z) | KilledBySignal (signal : Z).
#[export] Instance LeaderExit_eq_dec : EqDecision LeaderExit.
Proof. solve_decision. Defined.
Definition leader_exit_of (status : ExitStatus) : LeaderExit :=
  match status with
  | Exited code => if code =? 0 then ExitedZero else ExitedNonZero code
  | Signaled signal => KilledBySignal signal
  end.

Record BoundaryEmptyProof := mkEmptyProof {
  ep_unit_name : string;
  ep_invocation_id : string;
  ep_control_group : string;
  ep_leader_exit : LeaderExit;
}.

(** [ResolvedInvocationState]: the object path, or missing. *)
Definition resolve_invocation_for_proof (invocation_id : string)
    : WK PayloadScopeError (option string) :=
  let* resolved := attempt (resolve_by_invocation invocation_id) in
  match resolved with
  | Ok path => sr_ret (Some path)
  | Err error => if gone_error error then sr_ret None
                 else sr_fail (map_invocation_error error)
  end.

Definition validate_terminal_unit (sc : SystemdPayloadScope) (path : string)
    : WK PayloadScopeError () :=
  ensure str_eqb path (sc_object_path sc) else PseUnitReplaced ;;;
  let* p := provided (read_properties path) in
  validate_terminal_transition_properties sc p ;;;
  ensure terminal_unit_state (iu_active_state p) (iu_sub_state p) else PseUnitNotTerminal.

(** An outsider that can be read is not in the boundary. *)
Definition not_inside (sc : SystemdPayloadScope) (pid : Z) : WK PayloadScopeError () :=
  let* group := attempt (pid_cgroup pid) in
  match group with
  | Ok path => ensure negb (str_eqb path (sc_control_group sc)
                            || is_ancestor (sc_control_group sc) path)
                 else PseWorkerInsideBoundary
  | Err _ => sr_ret ()
  end.

Definition prove_empty_boundary (sc : SystemdPayloadScope) (leader_exit : LeaderExit)
    : WK PayloadScopeError BoundaryEmptyProof :=
  let identity := sc_identity sc in
  ensure valid_payload_cgroup (sc_control_group sc) (psi_expected_uid identity)
    (psi_unit_name identity) else PseInvalidIdentity ;;;
  let* first := resolve_invocation_for_proof (psi_invocation_id identity) in
  match first with
  | Some path => validate_terminal_unit sc path
  | None => sr_ret ()
  end ;;;
  provided (read_boundary_state (sc_control_group sc)) ;;;
  not_inside sc (sc_worker_pid sc) ;;;
  not_inside sc (sc_launcher_pid sc) ;;;
  let* second := resolve_invocation_for_proof (psi_invocation_id identity) in
  match first, second with
  | Some path, Some path' =>
      ensure str_eqb path path' else PseUnitReplaced ;;;
      validate_terminal_unit sc path'
  | None, None => sr_ret ()
  | _, _ => sr_fail PseUnitReplaced
  end ;;;
  sr_ret (mkEmptyProof (psi_unit_name identity) (psi_invocation_id identity)
            (sc_control_group sc) leader_exit).

Definition release_pin (sc : SystemdPayloadScope) : WK PayloadScopeError () :=
  let* held := reference_held in
  if negb held then sr_ret ()
  else
    sr_map_err (λ _, PseUnrefFailed) (call_unit CallUnref (sc_object_path sc)) ;;;
    sr_modify (set_reference false).

(** ** Making the scope *)

(** [remaining]. *)
Definition time_left (deadline : Z) : WK PayloadScopeError () :=
  let* now := see wv_now in ensure now <? deadline else PseTimedOut.

Definition wait_job (expected_path : string) (deadline : Z) : WK PayloadScopeError () :=
  time_left deadline ;;;
  let* job := see wv_job in
  match job with
  | JobTimedOut => sr_fail PseTimedOut
  | JobUndecodable => sr_fail PseJobFailed
  | JobRemoved id path result =>
      ensure negb ((id =? 0) || negb (str_eqb path expected_path)
                   || negb (str_eqb result "done")) else PseJobFailed
  end.

(** Ask systemd to stop the unit and wait for the job; every failure is
    [CleanupFailed]. *)
Definition stop_created_unit (unit_name : string) (deadline : Z) : WK PayloadScopeError () :=
  let* subscribed := see wv_subscribe in
  ensure subscribed else PseCleanupFailed ;;;
  let* job := perform (ActStopUnit unit_name) wv_stop_unit in
  let* job := sr_lift (ok_or job PseCleanupFailed) in
  sr_map_err (λ _, PseCleanupFailed) (wait_job job deadline).

(** [checked!]: when [m] fails the unit that was made is stopped. *)
Definition checked {A} (unit_name : string) (deadline : Z) (m : WK PayloadScopeError A)
    : WK PayloadScopeError A := λ w,
  match m w with
  | (w, Ok a) => (w, Ok a)
  | (w, Err error) => (stop_created_unit unit_name deadline ;;; sr_fail error) w
  end.

Definition pin_invocation_unit (unit_name invocation_id control_group slice : string)
    : WK PayloadScopeError string :=
  let* path := provided (resolve_by_invocation invocation_id) in
  provided (call_unit CallRef path) ;;;
  let* validation := attempt (
    let* p := provided (read_properties path) in
    ensure str_eqb (iu_object_path p) path && str_eqb (iu_id p) unit_name
        && str_eqb (iu_invocation_id p) invocation_id
        && str_eqb (iu_control_group p) control_group && str_eqb (iu_slice p) slice
        && str_eqb (iu_active_state p) "active" && str_eqb (iu_sub_state p) "running"
        && iu_transient p
      else PseUnitReplaced) in
  match validation with
  | Ok _ => sr_modify (set_reference true) ;;; sr_ret path
  | Err error => attempt (call_unit CallUnref path) ;;; sr_fail error
  end.

(** From the finished job to the pinned scope. *)
Definition validate_created (pid expected_uid : Z) (logind_session_id unit_name : string)
    (worker_pid launcher_pid deadline : Z) : WK PayloadScopeError SystemdPayloadScope :=
  let guarded {A} := checked (A:=A) unit_name deadline in
  let slice := user_slice expected_uid in
  let invalid {B} (_ : B) := PseInvalidIdentity in
  let* path := guarded (
    let* path := see (λ v, wv_get_unit v unit_name) in
    sr_lift (ok_or path PseInvalidIdentity)) in
  guarded (proxy invalid) ;;;
  guarded (proxy invalid) ;;;
  let property {A} field := guarded (get_property (A:=A) invalid path field) in
  let* id := property ua_id in
  let* active := property ua_active_state in
  let* sub := property ua_sub_state in
  let* transient := property ua_transient in
  let* invocation := property ua_invocation_id in
  let* observed_slice := property ua_slice in
  let* control_group := property ua_control_group in
  let* invocation_id := guarded (sr_lift (ok_or (hex_id invocation) PseInvalidIdentity)) in
  guarded (ensure str_eqb id unit_name && str_eqb active "active" && str_eqb sub "running"
               && transient && str_eqb observed_slice slice
               && valid_payload_cgroup control_group expected_uid unit_name
             else PseInvalidIdentity) ;;;
  let* authoritative := guarded (
    let* answer := see wv_pidfd_cgroup in sr_lift (ok_or answer PseCgroupMismatch)) in
  guarded (ensure str_eqb authoritative control_group else PseCgroupMismatch) ;;;
  let* members := guarded (read_members control_group) in
  guarded (ensure bool_decide (members = [pid]) else PseInvalidMembership) ;;;
  guarded (outside_group control_group members worker_pid) ;;;
  guarded (outside_group control_group members launcher_pid) ;;;
  let* path := guarded (pin_invocation_unit unit_name invocation_id control_group slice) in
  sr_ret (mkScope (mkScopeIdentity unit_name invocation_id expected_uid logind_session_id)
            path control_group worker_pid launcher_pid).

Definition prepare_scope (pid expected_uid : Z) (logind_session_id : string)
    (worker_pid launcher_pid deadline : Z) : WK PayloadScopeError SystemdPayloadScope :=
  time_left deadline ;;;
  let* connected := see wv_bus in
  ensure connected else PseBusUnavailable ;;;
  proxy (λ _, PseBusUnavailable) ;;;
  let* random := see wv_random in
  let* bytes := sr_lift (ok_or random PseStartFailed) in
  let unit_name := "niralis-payload-" +:+ hex_of_bytes bytes +:+ ".scope" in
  ensure valid_slice_name (user_slice expected_uid) expected_uid else PseInvalidIdentity ;;;
  let* subscribed := see wv_subscribe in
  ensure subscribed else PseStartFailed ;;;
  let* job := perform (ActStartUnit unit_name) wv_start_unit in
  let* job := sr_lift (ok_or job PseStartFailed) in
  checked unit_name deadline (wait_job job deadline) ;;;
  validate_created pid expected_uid logind_session_id unit_name worker_pid launcher_pid
    deadline.

(** [ProcessIdentityProof]. *)
Record ProcessIdentityProof := mkProcessIdentity {
  pi_pid : Z;
  pi_sid : Z;
  pi_pgid : Z;
}.

(** [PayloadScopeManager::prepare]. *)
Definition prepare (child_pid : Z) (process : ProcessIdentityProof) (pidfd expected_uid : Z)
    (logind_session_id : string) (worker_pid launcher_pid deadline : Z)
    : WK PayloadScopeError SystemdPayloadScope :=
  ensure negb ((expected_uid =? 0) || negb (child_pid =? pi_pid process)
               || negb (pi_sid process =? child_pid) || negb (pi_pgid process =? child_pid)
               || (pidfd <? 0)) else PseInvalidIdentity ;;;
  prepare_scope child_pid expected_uid logind_session_id worker_pid launcher_pid deadline.

(** ** Giving it back before the payload ran *)

Definition cleanup_failed {E A} (m : WK E A) : WK PayloadScopeError A :=
  sr_map_err (λ _, PseCleanupFailed) m.

(** One of the two readings: the invocation resolves to [path] and the unit
    has ended. *)
Definition disappeared_reading (sc : SystemdPayloadScope) (path : string)
    : WK PayloadScopeError InvocationUnitProperties :=
  let* resolved := cleanup_failed (resolve_by_invocation (sc_invocation_id sc)) in
  ensure str_eqb resolved path else PseUnitReplaced ;;;
  let* p := cleanup_failed (read_properties (sc_object_path sc)) in
  ensure validate_disappeared_boundary_properties sc p else PseUnitReplaced ;;;
  sr_ret p.

Definition prove_precommit_disappearance (sc : SystemdPayloadScope) : WK PayloadScopeError () :=
  let* held := reference_held in
  ensure held else PseCleanupFailed ;;;
  let* first := disappeared_reading sc (sc_object_path sc) in
  let* second := disappeared_reading sc (sc_object_path sc) in
  ensure bool_decide (first = second) else PseUnitReplaced.

Definition cleanup_unit (sc : SystemdPayloadScope) (deadline : Z) (release : bool)
    : WK PayloadScopeError () :=
  let* state := cleanup_failed (read_boundary_state (sc_control_group sc)) in
  match state with
  | CgAbsent =>
      prove_precommit_disappearance sc ;;;
      (if release then cleanup_failed (call_unit CallUnref (sc_object_path sc)) else sr_ret ())
  | CgPresentEmpty =>
      proxy (λ _, PseCleanupFailed) ;;;
      let* observed := get_property (λ _, PseCleanupFailed) (sc_object_path sc)
                         ua_invocation_id in
      ensure bool_decide (hex_id observed = Some (sc_invocation_id sc))
        else PseCleanupFailed ;;;
      let* members := read_members (sc_control_group sc) in
      ensure bool_decide (members = []) else PseCleanupFailed ;;;
      proxy (λ _, PseCleanupFailed) ;;;
      stop_created_unit (psi_unit_name (sc_identity sc)) deadline ;;;
      (if release then
         let* failed := perform (ActUnit CallUnref (sc_object_path sc))
                          (λ v, wv_unit_call v CallUnref (sc_object_path sc)) in
         none_or (λ _, PseCleanupFailed) failed
       else sr_ret ())
  end.
