(* ===== verification/WorkerHistory.v ===== *)
(** * Reasoning about what a worker did and saw

    Specifications of the worker's routines: [spec] is a triple with the
    returned error, [did] says which kinds of acts a run added to the log, and
    [asked] that it only asked.  Facts about the past ([seen]) survive every
    later act.  The hint database [asked] holds the routines of [WorkerScope]
    that only ask. *)

From stdpp Require Import base gmap sets list strings pretty.
From Stdlib Require Import ZArith Lia.
From S2P Require Import Prelude Text Admission Protocol WorkerRecord Launch.
From S2P Require Import CgroupState HostWorld WorkerWorld WorkerScope.
#[local] Open Scope niralis_scope.

(** ** Triples *)

(** From a state in [P], success establishes [Q] and the error [e] [X e]. *)
Definition spec {S E A} (P : S → Prop) (m : SR S E A) (Q : A → S → Prop)
    (X : E → S → Prop) : Prop :=
  ∀ s, P s → match m s with (s', Ok a) => Q a s' | (s', Err e) => X e s' end.

Section Spec.
Context {S E : Type}.
Implicit Types P : S → Prop.

Lemma spec_ret {A} (a : A) P (Q : A → S → Prop) (X : E → S → Prop) :
  (∀ s, P s → Q a s) → spec P (sr_ret a) Q X.
Proof. intros H s Hs. by apply H. Qed.
Lemma spec_fail {A} (e : E) P (Q : A → S → Prop) (X : E → S → Prop) :
  (∀ s, P s → X e s) → spec P (sr_fail e) Q X.
Proof. intros H s Hs. by apply H. Qed.
Lemma spec_lift {A} (r : result A E) P (Q : A → S → Prop) (X : E → S → Prop) :
  (∀ s a, P s → r = Ok a → Q a s) → (∀ s e, P s → r = Err e → X e s) →
  spec P (sr_lift r) Q X.
Proof. intros HQ HX s Hs. unfold sr_lift. destruct r; eauto. Qed.
Lemma spec_ensure (b : bool) (e : E) P (Q : () → S → Prop) (X : E → S → Prop) :
  (∀ s, P s → b = true → Q () s) → (∀ s, P s → b = false → X e s) →
  spec P (if b then sr_ret () else sr_fail e) Q X.
Proof. intros HQ HX s Hs. destruct b; cbn; auto. Qed.
Lemma spec_modify (f : S → S) P (Q : () → S → Prop) (X : E → S → Prop) :
  (∀ s, P s → Q () (f s)) → spec P (sr_modify f) Q X.
Proof. intros H s Hs. by apply H. Qed.
Lemma spec_bind {A B} (m : SR S E A) (k : A → SR S E B) P Q Q' X :
  spec P m Q X → (∀ a, spec (Q a) (k a) Q' X) → spec P (sr_bind m k) Q' X.
Proof.
  intros Hm Hk s Hs. unfold sr_bind. specialize (Hm s Hs).
  destruct (m s) as [s' [a|e]]; [|done]. by apply Hk.
Qed.
Lemma spec_map_err {F A} (f : E → F) (m : SR S E A) P Q (X : F → S → Prop) :
  spec P m Q (λ e, X (f e)) → spec P (sr_map_err f m) Q X.
Proof.
  intros Hm s Hs. unfold sr_map_err. specialize (Hm s Hs). by destruct (m s) as [s' []].
Qed.
Lemma spec_attempt {F A} (m : SR S E A) P (Q : A → S → Prop) X
    (Q' : result A E → S → Prop) (X' : F → S → Prop) :
  spec P m Q X → (∀ a s, Q a s → Q' (Ok a) s) → (∀ e s, X e s → Q' (Err e) s) →
  spec P (attempt m) Q' X'.
Proof.
  intros Hm HQ HX s Hs. unfold attempt. specialize (Hm s Hs).
  destruct (m s) as [s' []]; auto.
Qed.
Lemma spec_weaken {A} (m : SR S E A) P P' (Q Q' : A → S → Prop) (X X' : E → S → Prop) :
  spec P' m Q' X' → (∀ s, P s → P' s) → (∀ a s, Q' a s → Q a s) →
  (∀ e s, X' e s → X e s) → spec P m Q X.
Proof.
  intros Hm HP HQ HX s Hs. specialize (Hm s (HP s Hs)).
  destruct (m s) as [s' []]; auto.
Qed.
Lemma spec_conj {A} (m : SR S E A) P P' (Q Q' : A → S → Prop) (X X' : E → S → Prop) :
  spec P m Q X → spec P' m Q' X' →
  spec (λ s, P s ∧ P' s) m (λ a s, Q a s ∧ Q' a s) (λ e s, X e s ∧ X' e s).
Proof.
  intros Hm Hm' s [Hs Hs']. specialize (Hm s Hs). specialize (Hm' s Hs').
  destruct (m s) as [s' []]; auto.
Qed.
(** What a run keeps, it keeps whatever it returns. *)
Lemma spec_keeps {A} (R : S → S → Prop) (m : SR S E A) P P' :
  sr_keeps R m → (∀ s s', P s → R s s' → P' s') → spec P m (λ _, P') (λ _, P').
Proof.
  intros Hm HP s Hs. specialize (Hm s). destruct (m s) as [s' []]; cbn in Hm; eauto.
Qed.
End Spec.

(** ** Runs that only ask *)

Definition advance (n : nat) (w : Worker) : Worker :=
  mkWorker (wk_view w) (n + wk_time w)%nat (wk_log w) (wk_disconnected w)
    (wk_reference_held w) (wk_pam w) (wk_terminal w) (wk_child w).
Definition asked (w w' : Worker) : Prop := ∃ n, w' = advance n w.

#[export] Instance asked_preorder : PreOrder asked.
Proof.
  split; [intros []; by exists O|]. intros w1 w2 w3 [n ->] [m ->].
  exists (m + n)%nat. unfold advance. cbn. f_equal. lia.
Qed.

Lemma see_asked {E A} (f : WorkerView → A) : sr_keeps asked (see (E:=E) f).
Proof. intros w. by exists 1%nat. Qed.

Create HintDb asked discriminated.
#[export] Hint Constants Opaque : asked.
#[export] Hint Resolve see_asked : asked.

(** Compose along a routine's text, for the relation [R] and its hints. *)
Ltac keeps_step R :=
  match goal with
  | |- sr_keeps R (sr_ret _) => apply (keeps_ret R)
  | |- sr_keeps R (sr_fail _) => apply (keeps_fail R)
  | |- sr_keeps R (sr_lift _) => apply (keeps_lift R)
  | |- sr_keeps R (sr_bind _ _) => apply (keeps_bind R); [|intros ?]
  | |- sr_keeps R (sr_map_err _ _) => apply (keeps_map_err R)
  | |- sr_keeps R (attempt _) => apply (keeps_attempt R)
  | |- sr_keeps R (none_or _ _) => apply (keeps_none_or R)
  | |- sr_keeps R (if ?b then _ else _) => destruct b
  | |- sr_keeps R (match ?x with _ => _ end) => destruct x
  | |- sr_keeps R (λ s, (s, _)) => apply (keeps_read R)
  end.
Ltac keeps_with R auto_tac := intros; cbn zeta; repeat first [solve [auto_tac] | keeps_step R].
Ltac asked_auto := keeps_with asked ltac:(eauto with asked nocore).

Lemma proxy_asked {E} (f : ZbusError → E) : sr_keeps asked (proxy f).
Proof. unfold proxy. asked_auto. Qed.
Lemma get_property_asked {E A} (f : ZbusError → E) path (field : UnitAnswers → result A _) :
  sr_keeps asked (get_property f path field).
Proof. unfold get_property. asked_auto. Qed.
#[export] Hint Resolve proxy_asked get_property_asked : asked.
Lemma resolve_asked id : sr_keeps asked (resolve_by_invocation id).
Proof. unfold resolve_by_invocation. asked_auto. Qed.
Lemma properties_asked path : sr_keeps asked (read_properties path).
Proof. unfold read_properties. asked_auto. Qed.
Lemma members_asked cgroup : sr_keeps asked (read_members cgroup).
Proof. unfold read_members. asked_auto. Qed.
Lemma pid_cgroup_asked pid : sr_keeps asked (pid_cgroup pid).
Proof. unfold pid_cgroup. asked_auto. Qed.
Lemma empty_state_asked cgroup : sr_keeps asked (read_cgroup_empty_state cgroup).
Proof. unfold read_cgroup_empty_state. asked_auto. Qed.
Lemma wakeup_asked cgroup : sr_keeps asked (consume_wakeup cgroup).
Proof. unfold consume_wakeup. asked_auto. Qed.
#[export] Hint Resolve resolve_asked properties_asked members_asked pid_cgroup_asked
  empty_state_asked wakeup_asked : asked.
Lemma outside_asked cgroup members pid : sr_keeps asked (outside_group cgroup members pid).
Proof. unfold outside_group. asked_auto. Qed.
Lemma boundary_state_asked cgroup : sr_keeps asked (read_boundary_state cgroup).
Proof. unfold read_boundary_state. asked_auto. Qed.
Lemma observer_asked cgroup : sr_keeps asked (open_observer cgroup).
Proof. unfold open_observer. asked_auto. Qed.
Lemma pinned_properties_asked mode sc p :
  sr_keeps asked (validate_pinned_properties_with_control_group mode sc p).
Proof. intros w. by exists O; destruct w. Qed.
Lemma validate_pinned_asked sc p : sr_keeps asked (validate_pinned_properties sc p).
Proof. apply pinned_properties_asked. Qed.
Lemma validate_transition_asked sc p :
  sr_keeps asked (validate_terminal_transition_properties sc p).
Proof. apply pinned_properties_asked. Qed.
Lemma held_asked {E} : sr_keeps asked (reference_held (E:=E)).
Proof. intros w. by exists O; destruct w. Qed.
#[export] Hint Resolve outside_asked boundary_state_asked observer_asked
  pinned_properties_asked validate_pinned_asked validate_transition_asked held_asked : asked.
Lemma provided_asked {A} (m : WK InvocationBackendError A) :
  sr_keeps asked m → sr_keeps asked (provided m).
Proof. intros H. unfold provided. by apply keeps_map_err. Qed.
#[export] Hint Resolve provided_asked : asked.
Lemma resolve_pinned_asked sc : sr_keeps asked (resolve_pinned sc).
Proof. unfold resolve_pinned. asked_auto. Qed.
Lemma outsiders_asked sc : sr_keeps asked (outsiders sc).
Proof. unfold outsiders. asked_auto. Qed.
#[export] Hint Resolve resolve_pinned_asked outsiders_asked : asked.
Lemma appears_terminal_asked sc : sr_keeps asked (boundary_appears_terminal sc).
Proof. unfold boundary_appears_terminal. asked_auto. Qed.
Lemma forced_invocation_asked sc : sr_keeps asked (validate_forced_invocation_eligibility sc).
Proof. unfold validate_forced_invocation_eligibility. asked_auto. Qed.
#[export] Hint Resolve appears_terminal_asked forced_invocation_asked : asked.
Lemma eligibility_asked sc : sr_keeps asked (validate_forced_termination_eligibility sc).
Proof. unfold validate_forced_termination_eligibility. asked_auto. Qed.
Lemma post_kill_asked sc : sr_keeps asked (validate_forced_termination_post_kill sc).
Proof. unfold validate_forced_termination_post_kill. asked_auto. Qed.
Lemma create_observer_asked sc : sr_keeps asked (create_boundary_observer sc).
Proof. unfold create_boundary_observer. asked_auto. Qed.
Lemma resolve_proof_asked id : sr_keeps asked (resolve_invocation_for_proof id).
Proof. unfold resolve_invocation_for_proof. asked_auto. Qed.
Lemma terminal_unit_asked sc path : sr_keeps asked (validate_terminal_unit sc path).
Proof. unfold validate_terminal_unit. asked_auto. Qed.
Lemma not_inside_asked sc pid : sr_keeps asked (not_inside sc pid).
Proof. unfold not_inside. asked_auto. Qed.
#[export] Hint Resolve eligibility_asked post_kill_asked create_observer_asked
  resolve_proof_asked terminal_unit_asked not_inside_asked : asked.
Lemma prove_empty_asked sc exit : sr_keeps asked (prove_empty_boundary sc exit).
Proof. unfold prove_empty_boundary. asked_auto. Qed.
Lemma wait_job_asked path deadline : sr_keeps asked (wait_job path deadline).
Proof. unfold wait_job, time_left. asked_auto. Qed.
Lemma time_left_asked deadline : sr_keeps asked (time_left deadline).
Proof. unfold time_left. asked_auto. Qed.
#[export] Hint Resolve prove_empty_asked wait_job_asked time_left_asked : asked.

(** ** Runs that act *)

(** The run added acts of the kind [K] to the log. *)
Definition did (K : WorkerAct → Prop) (w w' : Worker) : Prop :=
  wk_view w' = wk_view w ∧ (wk_time w ≤ wk_time w')%nat ∧
  ∃ more, wk_log w' = wk_log w ++ more ∧
    Forall (λ e, (wk_time w ≤ e.1 < wk_time w')%nat ∧ K e.2) more.

Definition anything (_ : WorkerAct) : Prop := True.

#[export] Instance did_preorder K : PreOrder (did K).
Proof.
  split.
  - intros w. split_and!; [done|lia|]. exists []. by rewrite app_nil_r.
  - intros w1 w2 w3 (V & T & l & L & F) (V' & T' & l' & L' & F').
    split_and!; [congruence|lia|]. exists (l ++ l'). rewrite L', L, (assoc_L app).
    split; [done|]. apply Forall_app.
    split; eapply Forall_impl; eauto; cbn; intros ? [? ?]; split; try done; lia.
Qed.
Lemma did_mono K K' w w' : (∀ a, K a → K' a) → did K w w' → did K' w w'.
Proof.
  intros H (V & T & l & L & F). split_and!; [done..|]. exists l. split; [done|].
  eapply Forall_impl; [exact F|]. cbn. naive_solver.
Qed.
Lemma asked_did K w w' : asked w w' → did K w w'.
Proof.
  intros [n ->]. split_and!; cbn; [done|lia|]. exists []. by rewrite app_nil_r.
Qed.
Lemma keeps_did K {E A} (m : WK E A) : sr_keeps asked m → sr_keeps (did K) m.
Proof. intros H w. apply asked_did, H. Qed.
Lemma keeps_mono (K K' : WorkerAct → Prop) {E A} (m : WK E A) :
  (∀ a, K a → K' a) → sr_keeps (did K) m → sr_keeps (did K') m.
Proof. intros HK H w. eapply did_mono; [exact HK|apply H]. Qed.
Lemma perform_did (K : WorkerAct → Prop) {E A} a (f : WorkerView → A) :
  K a → sr_keeps (did K) (perform (E:=E) a f).
Proof.
  intros HK w. split_and!; cbn; [done|lia|]. exists [(wk_time w, a)].
  split; [done|]. repeat constructor; cbn; done || lia.
Qed.
Lemma modify_did K {E} (f : Worker → Worker) :
  (∀ w, wk_view (f w) = wk_view w ∧ wk_time (f w) = wk_time w ∧ wk_log (f w) = wk_log w) →
  sr_keeps (did K) (sr_modify (E:=E) f).
Proof.
  intros H w. destruct (H w) as (V & T & L). split_and!; cbn; [done|lia|].
  exists []. by rewrite L, app_nil_r.
Qed.
(** The acts of [m] and its continuation, where only the names of the acts
    matter. *)
Ltac did_auto K :=
  keeps_with (did K) ltac:(first
    [ apply (keeps_did K); solve [eauto with asked nocore]
    | apply (perform_did K); solve [exact I | done | cbn; tauto]
    | apply (modify_did K); solve [done]
    | eauto with did nocore ]).
Create HintDb did discriminated.
#[export] Hint Constants Opaque : did.

Lemma call_unit_did K call path :
  K (ActUnit call path) → sr_keeps (did K) (call_unit call path).
Proof. intros HK. unfold call_unit. did_auto K. Qed.
Lemma call_unit_any call path : sr_keeps (did anything) (call_unit call path).
Proof. by apply call_unit_did. Qed.
#[export] Hint Resolve call_unit_did call_unit_any : did.

Lemma provided_did K {A} (m : WK InvocationBackendError A) :
  sr_keeps (did K) m → sr_keeps (did K) (provided m).
Proof. intros H. unfold provided. by apply keeps_map_err. Qed.
#[export] Hint Resolve provided_did : did.

(** ** The past *)

(** At some moment since [t0] the machine looked like [φ]. *)
Definition seen (t0 : nat) (φ : WorkerView → Prop) (w : Worker) : Prop :=
  ∃ t, (t0 ≤ t < wk_time w)%nat ∧ φ (wk_view w t).

Lemma seen_did K t0 φ w w' : did K w w' → seen t0 φ w → seen t0 φ w'.
Proof.
  intros (V & T & _) (t & Ht & Hφ). exists t. rewrite V. split; [lia|done].
Qed.
Lemma seen_asked t0 φ w w' : asked w w' → seen t0 φ w → seen t0 φ w'.
Proof. intros H. by apply (seen_did anything), asked_did. Qed.
Lemma seen_now {E A} t0 (φ : WorkerView → Prop) (f : WorkerView → A) w :
  (t0 ≤ wk_time w)%nat → φ (wk_view w (wk_time w)) → seen t0 φ (see (E:=E) f w).1.
Proof. intros Ht Hφ. exists (wk_time w). cbn. split; [lia|done]. Qed.

(** A property of the present that later questions leave true. *)
Definition lasting (P : Worker → Prop) : Prop := ∀ w w', asked w w' → P w → P w'.

Lemma spec_asked {E A} (m : WK E A) P :
  sr_keeps asked m → lasting P → spec P m (λ _, P) (λ _, P).
Proof. intros Hm HP. apply (spec_keeps asked); [done|]. eauto. Qed.
(** A step that only asks, in front of the rest. *)
Lemma spec_step {E A B} (m : WK E A) (k : A → WK E B) P Q (X : E → Worker → Prop) :
  sr_keeps asked m → lasting P → (∀ e w, P w → X e w) → (∀ a, spec P (k a) Q X) →
  spec P (sr_bind m k) Q X.
Proof.
  intros Hm HP HX Hk. apply spec_bind with (λ _, P); [|done].
  eapply spec_weaken; [by apply (spec_asked m P)|done..].
Qed.
Lemma spec_see_step {E A B} (f : WorkerView → A) (k : A → WK E B) P Q (X : E → Worker → Prop) :
  lasting P → (∀ a, spec P (k a) Q X) → spec P (sr_bind (see f) k) Q X.
Proof.
  intros HP Hk. apply spec_bind with (λ _, P); [|done]. intros w Hw.
  eapply HP; [apply (see_asked (E:=E) f)|done].
Qed.
Lemma spec_map_step {E F A B} (f : F → E) (m : WK F A) (k : A → WK E B) P Q
    (X : E → Worker → Prop) :
  sr_keeps asked m → lasting P → (∀ e w, P w → X (f e) w) → (∀ a, spec P (k a) Q X) →
  spec P (sr_bind (sr_map_err f m) k) Q X.
Proof.
  intros Hm HP HX Hk. apply spec_bind with (λ _, P); [|done]. apply spec_map_err.
  eapply spec_weaken; [by apply (spec_asked m P)|done..].
Qed.
Lemma spec_attempt_step {E F A B} (m : WK F A) (k : result A F → WK E B) P Q
    (X : E → Worker → Prop) :
  sr_keeps asked m → lasting P → (∀ r, spec P (k r) Q X) →
  spec P (sr_bind (attempt m) k) Q X.
Proof.
  intros Hm HP Hk. apply spec_bind with (λ _, P); [|done].
  by eapply spec_attempt; [by apply (spec_asked m P)|..].
Qed.
Lemma spec_ensure_step {S E B} (b : bool) (e : E) (k : () → SR S E B) P Q
    (X : E → S → Prop) :
  (∀ w, P w → X e w) → (b = true → spec P (k ()) Q X) →
  spec P (sr_bind (if b then sr_ret () else sr_fail e) k) Q X.
Proof.
  intros HX Hk. destruct b; [|by intros w Hw; apply HX]. intros w Hw. by apply Hk.
Qed.
(** Before anything is done. *)
Lemma spec_ask_bind {E A B} w (m : WK E A) (k : A → WK E B) Q (X : E → Worker → Prop) :
  sr_keeps asked m → (∀ e x, asked w x → X e x) → (∀ a, spec (asked w) (k a) Q X) →
  spec (asked w) (sr_bind m k) Q X.
Proof.
  intros Hm HX Hk. apply spec_step; try done. intros x x' ? ?. by etrans.
Qed.
(** A question whose answer is used. *)
Lemma spec_see {E A} (f : WorkerView → A) P (Q : A → Worker → Prop) (X : E → Worker → Prop) :
  (∀ w, P w → Q (f (wk_view w (wk_time w))) (wk_tick w)) → spec P (see f) Q X.
Proof. intros H w Hw. by apply H. Qed.
Lemma spec_perform {E A} a (f : WorkerView → A) P (Q : A → Worker → Prop)
    (X : E → Worker → Prop) :
  (∀ w, P w → Q (f (wk_view w (wk_time w))) (wk_tick (wk_record a w))) →
  spec P (perform a f) Q X.
Proof. intros H w Hw. by apply H. Qed.

(** ** Successful runs, taken apart *)

Lemma see_ok {E A} (f : WorkerView → A) w w' a :
  see (E:=E) f w = (w', Ok a) → w' = wk_tick w ∧ a = f (wk_view w (wk_time w)).
Proof. by intros [= <- <-]. Qed.
Lemma perform_ok {E A} a (f : WorkerView → A) w w' b :
  perform (E:=E) a f w = (w', Ok b) →
  w' = wk_tick (wk_record a w) ∧ b = f (wk_view w (wk_time w)).
Proof. by intros [= <- <-]. Qed.
Lemma checked_ok {A} name deadline (m : WK PayloadScopeError A) w w' a :
  checked name deadline m w = (w', Ok a) → m w = (w', Ok a).
Proof.
  unfold checked, sr_bind. destruct (m w) as [w1 [b|e]]; [by intros [= -> ->]|].
  by destruct (stop_created_unit _ _ _) as [? []].
Qed.

(** Take one step of a successful run [H] apart. *)
Ltac ok_step H :=
  lazymatch type of H with
  | sr_bind _ _ _ = (_, Ok _) =>
      let H' := fresh "R" in
      let w := fresh "w" in let a := fresh "a" in
      apply bind_ok in H as (w & a & H' & H)
  | sr_lift _ _ = (_, Ok _) =>
      let E := fresh "L" in apply lift_ok in H as [-> E]
  | (if _ then sr_ret () else sr_fail _) _ = (_, Ok _) =>
      let E := fresh "B" in apply ensure_ok in H as [-> E]
  | sr_map_err _ _ _ = (_, Ok _) => apply map_err_ok in H
  | provided _ _ = (_, Ok _) => apply map_err_ok in H
  | sr_ret _ _ = (_, Ok _) => injection H as <- <-
  | see _ _ = (_, Ok _) => apply see_ok in H as [-> ->]
  | perform _ _ _ = (_, Ok _) => apply perform_ok in H as [-> ->]
  | sr_modify _ _ = (_, Ok _) => injection H as <- <-
  end.

(** Take a successful run apart as far as its text is visible. *)
Ltac ok_run H :=
  lazymatch type of H with
  | sr_bind _ _ _ = (_, Ok _) =>
      let H' := fresh "R" in
      let w := fresh "w" in let a := fresh "a" in
      apply bind_ok in H as (w & a & H' & H); ok_run H'; ok_run H
  | sr_map_err _ _ _ = (_, Ok _) => apply map_err_ok in H; ok_run H
  | provided _ _ = (_, Ok _) => apply map_err_ok in H; ok_run H
  | checked _ _ _ _ = (_, Ok _) => apply checked_ok in H; ok_run H
  | sr_lift _ _ = (_, Ok _) => ok_step H
  | (if _ then sr_ret () else sr_fail _) _ = (_, Ok _) => ok_step H
  | sr_ret _ _ = (_, Ok _) => ok_step H
  | see _ _ = (_, Ok _) => ok_step H
  | perform _ _ _ = (_, Ok _) => ok_step H
  | sr_modify _ _ = (_, Ok _) => ok_step H
  | _ => idtac
  end;
  repeat match goal with
  | E : ok_or _ _ = Ok _ |- _ => apply ok_or_ok in E
  | E : map_err _ _ = Ok _ |- _ => apply map_err_result in E
  end.

(** While [w] became [w'] the machine looked like [φ]. *)
Definition during (φ : WorkerView → Prop) (w w' : Worker) : Prop :=
  ∃ t, (wk_time w ≤ t < wk_time w')%nat ∧ φ (wk_view w t).

Lemma during_widen φ w0 w w' w1 :
  asked w0 w → asked w' w1 → during φ w w' → during φ w0 w1.
Proof.
  intros [n ->] [m ->] (t & Ht & Hφ). exists t. cbn in *. split; [lia|done].
Qed.
Lemma during_did K K' φ w0 w w' w1 :
  did K w0 w → did K' w' w1 → wk_view w' = wk_view w → during φ w w' → during φ w0 w1.
Proof.
  intros (V0 & T0 & _) (V1 & T1 & _) V (t & Ht & Hφ). exists t. rewrite <- V0.
  split; [lia|done].
Qed.
Lemma during_weaken (φ φ' : WorkerView → Prop) w w' :
  (∀ v, φ v → φ' v) → during φ w w' → during φ' w w'.
Proof. intros H (t & Ht & Hφ). exists t. eauto. Qed.
Lemma during_seen φ t0 w w' :
  (t0 ≤ wk_time w)%nat → wk_view w' = wk_view w → during φ w w' → seen t0 φ w'.
Proof. intros ? V (t & Ht & Hφ). exists t. rewrite V. split; [lia|done]. Qed.
Lemma during_tick φ w : φ (wk_view w (wk_time w)) → during φ w (wk_tick w).
Proof. intros H. exists (wk_time w). cbn. split; [lia|done]. Qed.

Lemma run_asked {E A} (m : WK E A) w w' r :
  sr_keeps asked m → m w = (w', r) → asked w w'.
Proof. intros Hm HE. specialize (Hm w). by rewrite HE in Hm. Qed.
Lemma run_did K {E A} (m : WK E A) w w' r :
  sr_keeps (did K) m → m w = (w', r) → did K w w'.
Proof. intros Hm HE. specialize (Hm w). by rewrite HE in Hm. Qed.
Lemma asked_tick w : asked w (wk_tick w).
Proof. by exists 1%nat. Qed.
Lemma asked_view w w' : asked w w' → wk_view w' = wk_view w.
Proof. by intros [n ->]. Qed.
Lemma asked_time w w' : asked w w' → (wk_time w ≤ wk_time w')%nat.
Proof. intros [n ->]. cbn. lia. Qed.

Lemma did_view K w w' : did K w w' → wk_view w' = wk_view w.
Proof. by intros (? & _). Qed.
Lemma did_tick K w : did K w (wk_tick w).
Proof. apply asked_did, asked_tick. Qed.
Lemma did_record K a w : K a → did K w (wk_tick (wk_record a w)).
Proof. intros H. apply (perform_did K (E:=()) a (λ _, ()) H w). Qed.

(** The moments of a run that only asked, walked back from the last. *)
Ltac asked_run :=
  lazymatch goal with
  | |- asked ?a ?a => reflexivity
  | |- asked _ (wk_tick ?b) => transitivity b; [asked_run|apply asked_tick]
  | H : asked ?b ?c |- asked ?a ?c => transitivity b; [asked_run|exact H]
  | H : _ ?b = (?c, _) |- asked ?a ?c =>
      transitivity b; [asked_run|eapply run_asked; [|exact H]; solve [asked_auto]]
  end.
(** The same for a run that also acted. *)
Ltac did_run :=
  lazymatch goal with
  | |- did _ ?a ?a => reflexivity
  | |- did _ _ (wk_tick (wk_record _ ?b)) =>
      transitivity b; [did_run|apply did_record; exact I]
  | |- did _ _ (wk_tick ?b) => transitivity b; [did_run|apply did_tick]
  | |- did ?K _ (set_reference _ ?b) =>
      transitivity b; [did_run|apply (modify_did K (E:=()) (set_reference _)); done]
  | H : asked ?b ?c |- did _ ?a ?c => transitivity b; [did_run|by apply asked_did]
  | H : did ?K ?b ?c |- did ?K ?a ?c => transitivity b; [did_run|exact H]
  | H : _ ?b = (?c, _) |- did ?K ?a ?c =>
      transitivity b; [did_run|eapply (run_did K); [|exact H]; solve [did_auto K]]
  end.
(** Place what was seen between two moments in the whole run. *)
Ltac during_run :=
  lazymatch goal with
  | H : during ?φ ?a ?b |- during ?φ _ _ =>
      eapply (during_did anything anything); [| | |exact H];
        [did_run|did_run|first [apply asked_view; asked_run
                               |apply (did_view anything); did_run]]
  end.

Lemma asked_acts w w' : asked w w' → acts w' = acts w.
Proof. by intros [n ->]. Qed.
Lemma record_acts a w : acts (wk_tick (wk_record a w)) = acts w ++ [a].
Proof. unfold acts. cbn. by rewrite fmap_app. Qed.
Lemma tick_acts w : acts (wk_tick w) = acts w.
Proof. done. Qed.

Lemma attempt_ok {S E F A} (m : SR S E A) s s' r :
  attempt (F:=F) m s = (s', Ok r) → m s = (s', r).
Proof. unfold attempt. destruct (m s) as [s1 r1]. by intros [= -> ->]. Qed.

Lemma call_unit_ok call path w w' u :
  call_unit call path w = (w', Ok u) →
  acts w' = acts w ++ [ActUnit call path] ∧ wk_reference_held w' = wk_reference_held w ∧
  ∃ t, wk_log w' = wk_log w ++ [(t, ActUnit call path)] ∧
    wv_unit_call (wk_view w t) call path = None.
Proof.
  unfold call_unit. intros H. ok_run H. destruct (wv_unit_call _ call path) eqn:Hc; [done|].
  injection H as <- <-. pose proof (run_asked _ _ _ _ (proxy_asked _) R) as [n ->].
  rewrite record_acts. split_and!; [done..|]. by eexists.
Qed.
