(* ===== verification/WorkerChildSafety.v ===== *)
(** * What the process that becomes the session has gone through

    The order in which the child gives up its privileges, the environment the
    session gets, what an accepted report of the probe means, and that nothing
    is executed before the worker's commit. *)

From stdpp Require Import base sets list strings sorting pretty.
From Stdlib Require Import ZArith Lia.
From S2P Require Import Prelude Text Paths LedgerTaxonomy PreCommit.
From S2P Require Import WorkerIdentity WorkerChild.
From S2P Require Import WorkerRecord Launch CgroupState HostWorld WorkerWorld.
From S2P Require Import WorkerScope.
From S2P Require Import WorkerHistory.
#[local] Open Scope niralis_scope.

(** ** The child *)

Definition is_exec_probe (a : ChildAct) : bool :=
  match a with ActExecProbe _ _ _ => true | _ => false end.
(** The run added no exec to the log. *)
Definition no_exec (log log' : list ChildAct) : Prop :=
  ∃ more, log' = log ++ more ∧ Forall (λ a, is_exec_probe a = false) more.
#[export] Instance no_exec_preorder : PreOrder no_exec.
Proof.
  split.
  - intros l. exists []. by rewrite app_nil_r.
  - intros l1 l2 l3 (m & -> & F) (m' & -> & F'). exists (m ++ m').
    rewrite (assoc_L app). split; [done|]. by apply Forall_app.
Qed.
Lemma child_do_no_exec a : is_exec_probe a = false → sr_keeps no_exec (child_do a).
Proof. intros H l. exists [a]. by split; [|repeat constructor]. Qed.
Lemma child_check_no_exec b code : sr_keeps no_exec (child_check b code).
Proof. unfold child_check. destruct b; [apply (keeps_ret no_exec)|apply (keeps_fail no_exec)]. Qed.
Lemma child_drop_no_exec k target : sr_keeps no_exec (child_drop k target).
Proof.
  intros l. unfold child_drop. destruct (drop_privileges_with _ _ _) as [calls r]. cbn.
  exists (ActCredential <$> calls). split; [done|]. by apply Forall_fmap, Forall_true.
Qed.
Lemma set_entries_no_exec k entries : sr_keeps no_exec (set_entries k entries).
Proof.
  induction entries as [|[key value] entries IH]; cbn [set_entries]; [apply (keeps_ret no_exec)|].
  repeat (apply (keeps_bind no_exec); [|intros ?]); try apply child_check_no_exec; [|done].
  by apply child_do_no_exec.
Qed.
Lemma take_terminal_no_exec k terminal : sr_keeps no_exec (take_terminal k terminal).
Proof.
  unfold take_terminal. repeat (apply (keeps_bind no_exec); [|intros ?]);
    first [apply child_check_no_exec|by apply child_do_no_exec|apply (keeps_lift no_exec)].
Qed.
Lemma prepare_child_no_exec k : sr_keeps no_exec (prepare_child k).
Proof.
  unfold prepare_child, install_runtime_environment.
  apply (keeps_bind no_exec); [apply (keeps_lift no_exec)|intros [version request]]. cbn zeta.
  repeat (apply (keeps_bind no_exec); [|intros ?]);
    first [apply child_check_no_exec|by apply child_do_no_exec|apply (keeps_lift no_exec)
          |apply child_drop_no_exec|apply take_terminal_no_exec|apply set_entries_no_exec
          |apply (keeps_ret no_exec)].
Qed.

(** Successful steps of the child, taken apart. *)
Lemma child_do_ok a l l' u : child_do a l = (l', Ok u) → l' = l ++ [a].
Proof. by intros [= <- <-]. Qed.
Lemma child_check_ok b code l l' u : child_check b code l = (l', Ok u) → l' = l ∧ b = true.
Proof. unfold child_check. apply ensure_ok. Qed.
Lemma child_drop_ok k target l l' applied :
  child_drop k target l = (l', Ok applied) →
  l' = l ++ [ActCredential (CallSetgroups (dt_supplementary_gids target));
             ActCredential (CallSetgid (dt_gid target));
             ActCredential (CallSetuid (dt_uid target))] ∧
  ca_getresuid (ck_credentials k) = Some (dt_uid target, dt_uid target, dt_uid target) ∧
  ca_getresgid (ck_credentials k) = Some (dt_gid target, dt_gid target, dt_gid target).
Proof.
  unfold child_drop. destruct (drop_privileges_with _ _ _) as [calls [r|]] eqn:H; [|done].
  cbn. intros [= <- <-]. apply drop_privileges_ok in H as (_ & _ & -> & ? & ? & _). done.
Qed.
Lemma set_entries_ok k entries l l' u :
  set_entries k entries l = (l', Ok u) → l' = l ++ ((λ e, ActSetenv e.1 e.2) <$> entries).
Proof.
  revert l. induction entries as [|[key value] entries IH]; intros l; cbn [set_entries].
  { intros [= <- <-]. by rewrite app_nil_r. }
  intros H. ok_step H. apply child_check_ok in R as [-> _]. ok_step H.
  apply child_do_ok in R as ->. ok_step H. apply child_check_ok in R as [-> _].
  apply IH in H as ->. by rewrite <- (assoc_L app).
Qed.

Lemma take_terminal_ok k terminal l l' u :
  take_terminal k terminal l = (l', Ok u) →
  l' = l ++ [ActSetsid; ActControllingTerminal; ActForeground] ∧
  ∃ t, terminal = Some t ∧ tc_fd t = 3 ∧
    ck_fstat k = Some (tc_device_major t, tc_device_minor t) ∧
    ck_tcgetsid k = ck_pid k ∧ ck_tcgetpgrp k = ck_pid k.
Proof.
  unfold take_terminal. intros H. ok_step H. apply child_do_ok in R as ->. ok_step H.
  apply child_check_ok in R as [-> _]. ok_step H. ok_step R. ok_step H.
  apply child_check_ok in R as [-> Hs]. ok_step H. apply child_do_ok in R as ->. ok_step H.
  apply child_check_ok in R as [-> _]. ok_step H. apply child_do_ok in R as ->. ok_step H.
  apply child_check_ok in R as [-> _]. apply child_check_ok in H as [-> Hids].
  split; [by rewrite <- !(assoc_L app)|]. destruct terminal as [t|]; [|done].
  destruct (tc_fd t =? 3) eqn:H3; [|done]. injection L as <-. exists t. bool_facts.
  by split_and!.
Qed.

(** Everything the child did before the exec, and what it saw. *)
Record child_confined (k : ChildKernel) (request : ApplyCredentials) (log : list ChildAct)
    : Prop := {
  cc_request : ck_request k = Some (Ok (SESSION_CHILD_PROTOCOL_VERSION, request));
  cc_not_root : dt_uid (ac_credentials request) ≠ 0;
  cc_uids : ∃ uid, uid = dt_uid (ac_credentials request) ∧
    ca_getresuid (ck_credentials k) = Some (uid, uid, uid);
  cc_gids : ∃ gid, gid = dt_gid (ac_credentials request) ∧
    ca_getresgid (ck_credentials k) = Some (gid, gid, gid);
  cc_audit : ∃ proof, audit (ck_audit k) = Ok proof ∧
    validate_isolation_proof_with_allowed_fds proof
      (allowed_inherited_fds (ac_terminal request)) = Ok ();
  cc_terminal : ck_tcgetsid k = ck_pid k ∧ ck_tcgetpgrp k = ck_pid k;
  cc_log : ∃ sanitized entries,
    sanitize_with_allowlist (ck_close_range k) (ck_fd_names k)
      (allowed_inherited_fds (ac_terminal request)) = Some sanitized ∧
    environment_entries (ac_runtime request) (ac_canonical_username request) = Some entries ∧
    log = [ActSanitize sanitized;
           ActCredential (CallSetgroups (dt_supplementary_gids (ac_credentials request)));
           ActCredential (CallSetgid (dt_gid (ac_credentials request)));
           ActCredential (CallSetuid (dt_uid (ac_credentials request)));
           ActClearCapabilities; ActSetsid; ActControllingTerminal; ActForeground;
           ActChdir (rc_home (ac_runtime request)); ActClearenv]
          ++ ((λ e, ActSetenv e.1 e.2) <$> entries);
}.

Lemma prepare_child_ok k log request :
  prepare_child k [] = (log, Ok request) → child_confined k request log.
Proof.
  unfold prepare_child, install_runtime_environment. intros H. ok_step H. ok_step R.
  destruct a as [version req]. cbn zeta in H.
  ok_step H. apply child_check_ok in R as [-> Hv]. ok_step H. apply child_check_ok in R as [-> Hu].
  ok_step H. ok_step R. apply ok_or_ok in L0. ok_step H. apply child_do_ok in R as ->.
  ok_step H. apply child_drop_ok in R as (-> & Huid & Hgid).
  ok_step H. apply child_check_ok in R as [-> _]. ok_step H. apply child_do_ok in R as ->.
  ok_step H. apply child_check_ok in R as [-> _]. ok_step H. ok_step R. apply map_err_result in L1.
  ok_step H. ok_step R. apply map_err_result in L2.
  ok_step H. apply take_terminal_ok in R as (-> & t & Ht & _ & _ & Hsid & Hpgid).
  ok_step H. apply child_check_ok in R as [-> _]. ok_step H. apply child_check_ok in R as [-> _].
  ok_step H. apply child_do_ok in R as ->. ok_step H. apply child_check_ok in R as [-> _].
  ok_step H. ok_step R. apply child_do_ok in R0 as ->. ok_step R. ok_step R0. apply ok_or_ok in L3.
  apply set_entries_ok in R as ->. ok_step H. apply child_check_ok in R as [-> _]. ok_step H.
  destruct (ck_request k) as [[[v r]|]|] eqn:Hr; try done. injection L as -> ->.
  bool_facts. subst version. destruct a8. split; try done.
  - eexists. split; [reflexivity|done].
  - eexists. split; [reflexivity|done].
  - eexists. split; [exact L1|done].
  - eexists _, _. split_and!; [done..|]. cbn. by rewrite <- ?(assoc_L app).
Qed.

(** C20. The process only becomes the probe after it closed the descriptors it
    may not keep, set its groups, its group and its user in this order, gave
    up its capabilities, passed the isolation policy, became the leader of a
    session with the terminal in the foreground and replaced its environment;
    and then it does nothing else. *)
Theorem probe_runs_confined k log r username session_id terminal :
  run_child k [] = (log, r) → ActExecProbe username session_id terminal ∈ log →
  ∃ request, child_confined k request (take (length log - 1) log) ∧
    log = take (length log - 1) log ++ [ActExecProbe (ac_canonical_username request)
      (ac_session_id request) (ac_terminal request)].
Proof.
  unfold run_child. intros H Hin. pose proof (prepare_child_no_exec k []) as Hn.
  unfold sr_bind in H. destruct (prepare_child k []) as [l [request|code]] eqn:Hp;
    cbn in Hn; destruct Hn as (more & -> & F); cbn [app] in *.
  - unfold exec_probe, sr_bind, child_check, child_do, sr_modify in H. cbn zeta in H.
    destruct (valid_unix_path _ && _ && _); cbn in H.
    + assert (log = more ++ [ActExecProbe (ac_canonical_username request)
        (ac_session_id request) (ac_terminal request)]) as -> by (destruct (ck_exec k); by injection H).
      rewrite length_app. cbn. replace (length more + 1 - 1)%nat with (length more) by lia.
      rewrite take_app_length. exists request. split; [|done]. by apply prepare_child_ok.
    + injection H as <- <-. rewrite Forall_forall in F. by specialize (F _ Hin).
  - injection H as <- <-. rewrite Forall_forall in F. by specialize (F _ Hin).
Qed.

(** ** The environment *)

Definition session_variables : list string :=
  ["HOME"; "USER"; "LOGNAME"; "SHELL"; "PATH"; "XDG_SESSION_TYPE"; "XDG_SESSION_CLASS";
   "XDG_SESSION_DESKTOP"; "XDG_SESSION_ID"; "XDG_RUNTIME_DIR"; "XDG_SEAT"; "XDG_VTNR";
   "DBUS_SESSION_BUS_ADDRESS"].

Lemma forbidden_not_locale name : name ∈ forbidden_names → is_locale_key name = false.
Proof.
  assert (forallb (λ name, negb (is_locale_key name)) forbidden_names = true) as H
    by (vm_compute; reflexivity).
  rewrite forallb_forall in H. intros Hin. apply negb_true_iff, H, list_elem_of_In, Hin.
Qed.
Lemma forbidden_not_session name : name ∈ forbidden_names → name ∉ session_variables.
Proof.
  assert (forallb (λ name, negb (bool_decide (name ∈ session_variables))) forbidden_names = true)
    as H by (vm_compute; reflexivity).
  rewrite forallb_forall in H. intros Hin. apply list_elem_of_In, H, negb_true_iff in Hin.
  by apply bool_decide_eq_false in Hin.
Qed.

(** The environment of the session holds the variables of the session and
    the user's locale and nothing else: whatever the worker sends, as long as
    what it imports are locale variables, none of the names that load code
    into a process or point to another display is among them. *)
Theorem session_environment_is_clean runtime username entries key value :
  environment_entries runtime username = Some entries →
  Forall (λ e, is_locale_key e.1 = true) (rc_imported_locale runtime) →
  (key, value) ∈ entries →
  (key ∈ session_variables ∨ is_locale_key key = true) ∧ key ∉ forbidden_names.
Proof.
  unfold environment_entries. destruct (negb _); [done|]. intros [= <-] Hl Hin.
  assert (key ∈ session_variables ∨ is_locale_key key = true) as Hk.
  { rewrite !elem_of_cons, elem_of_app in Hin.
    do 12 (destruct Hin as [Hin|Hin];
      [(injection Hin as -> ->; left; apply (bool_decide_unpack _); vm_compute; exact I)|]).
    destruct Hin as [Hin|Hin].
    - left. destruct (rc_dbus_session_bus_address runtime); [|by apply not_elem_of_nil in Hin].
      apply list_elem_of_singleton in Hin. injection Hin as -> ->. apply (bool_decide_unpack _).
      vm_compute. exact I.
    - right. rewrite Forall_forall in Hl. exact (Hl _ Hin). }
  split; [done|]. intros Hf. destruct Hk as [Hk|Hk].
  - by apply forbidden_not_session in Hf.
  - apply forbidden_not_locale in Hf. congruence.
Qed.

(** ** Accepted reports *)

Lemma isolation_valid_means allowed proof :
  isolation_valid allowed proof = true →
  let caps := po_capabilities proof in
  cs_effective caps = [] ∧ cs_permitted caps = [] ∧ cs_inheritable caps = [] ∧
  cs_ambient caps = [] ∧
  ∀ fd, fd ∈ po_open_fds proof → fd ∈ [0; 1; 2] ∨ fd ∈ allowed.
Proof.
  unfold isolation_valid.
  destruct (validate_isolation_proof_with_allowed_fds _ _) as [[]|] eqn:H; [|done]. intros _.
  unfold validate_isolation_proof_with_allowed_fds, no_values in H. cbn zeta in *.
  rewrite !refused_unless in H. destruct H as (_ & _ & H & _ & Hf & _).
  rewrite !orb_false_iff, !negb_false_iff, !bool_decide_eq_true in H.
  destruct H as (((He & Hp) & Hi) & Ha). split_and!; [done..|].
  rewrite negb_false_iff, bool_decide_eq_true in Hf. intros fd Hfd. rewrite Hf in Hfd.
  apply expected_fds_spec in Hfd as [Hfd|Hfd]; [by left|right].
  by apply list_elem_of_filter in Hfd as [_ ?].
Qed.

(** A report tells what the probe saw. *)
Lemma probe_ready_ok v r handoff :
  probe_ready v = Some (r, handoff) →
  ry_process_identity r = mkProcessIds (pv_pid v) (pv_getsid v) (pv_getpgid v) ∧
  (let c := ry_credential_proof r in
   pv_getresuid v = Some (cp_real_uid c, cp_effective_uid c, cp_saved_uid c) ∧
   pv_getresgid v = Some (cp_real_gid c, cp_effective_gid c, cp_saved_gid c)) ∧
  audit (pv_audit v) = Ok (ry_isolation_proof r) ∧
  (∀ name, name ∈ forbidden_names → var_os (pv_environment v) name = None) ∧
  pv_cwd v = Some (en_cwd (ry_runtime_environment r)) ∧
  en_exec_plan (ry_runtime_environment r) = handoff.1.
Proof.
  intros Hp. unfold probe_ready in Hp. cbv zeta in Hp.
  destruct (pv_args v) as [|a0 [|username [|session_id args]]]; try done.
  destruct (pv_handoff v) as [plan|]; [|done]. destruct (negb _); [done|].
  destruct (audit (pv_audit v)) as [proof|]; [|done].
  destruct (pv_getresuid v) as [[[ruid euid] suid]|]; [|done].
  destruct (pv_getresgid v) as [[[rgid egid] sgid]|]; [|done].
  destruct (pv_getgroups v) as [count groups].
  destruct (env_path _ "HOME") as [home|]; [|done].
  destruct (env_path _ "SHELL") as [shell|]; [|done].
  destruct (pv_cwd v) as [cwd|]; [|done]. cbn [mbind option_bind] in Hp. unfold unix_path_new in Hp.
  destruct (valid_unix_path cwd); [|done].
  destruct (var _ "USER") as [user|]; [|done]. destruct (var _ "LOGNAME") as [logname|]; [|done].
  destruct (env_path _ "XDG_RUNTIME_DIR") as [dir|]; [|done].
  match type of Hp with context [if ?b then _ else _] => destruct b eqn:Hb end; [done|].
  injection Hp as <- <-. bool_facts. cbv zeta. split_and!; try reflexivity. intros name Hin.
  destruct (var_os (pv_environment v) name) eqn:Hv; [|done]. exfalso.
  apply (not_elem_of_nil name). match goal with H : filter _ _ = [] |- _ => rewrite <- H end.
  apply list_elem_of_filter. split; [|done]. by rewrite Hv.
Qed.
(** What the worker compared. *)
Lemma validate_ready_ok r e pid report :
  validate_ready_response (ChildReady r) e pid = Ok report →
  let c := ry_credential_proof r in
  let t := ex_target_credentials e in
  let n := ry_runtime_environment r in
  ry_process_identity r = mkProcessIds pid pid pid ∧
  (cp_real_uid c, cp_effective_uid c, cp_saved_uid c) = (dt_uid t, dt_uid t, dt_uid t) ∧
  (cp_real_gid c, cp_effective_gid c, cp_saved_gid c) = (dt_gid t, dt_gid t, dt_gid t) ∧
  isolation_valid (allowed_fds e) (ry_isolation_proof r) = true ∧
  en_cwd n = rc_home (ex_runtime e) ∧
  (rc_session_id (ex_runtime e) ≠ "" → en_exec_plan n = rc_exec_plan (ex_runtime e)).
Proof.
  unfold validate_ready_response. cbv zeta.
  match goal with |- context [if ?b then _ else _] => destruct b eqn:H end; [|done].
  intros _. unfold credentials_match, environment_matches in H. cbv zeta in H. bool_facts.
  destruct (ry_process_identity r) as [p1 p2 p3]. cbn [ids_pid ids_sid ids_pgid] in *.
  split_and!; [congruence|congruence|congruence|done|done|].
  intros Hne. match goal with
  | H : str_is_empty (rc_session_id _) || bool_decide (en_exec_plan _ = _) = true |- _ =>
      apply orb_true_iff in H as [H|H]
  end; bool_facts; done.
Qed.

(** A report that the worker accepts tells what the process is: the user
    and group ids the kernel showed the probe, real, effective and saved, are
    the target's, it is the leader of its own session and process group, it
    holds no capability and no descriptor but the standard ones, the terminal
    and the status pipe, no forbidden variable is set, it is in the user's
    home, and what it is going to execute is the plan of the session. *)
Theorem accepted_probe_is_confined v r handoff e pid report :
  probe_ready v = Some (r, handoff) →
  validate_ready_response (ChildReady r) e pid = Ok report →
  let uid := dt_uid (ex_target_credentials e) in
  let gid := dt_gid (ex_target_credentials e) in
  pv_pid v = pid ∧ pv_getsid v = pid ∧ pv_getpgid v = pid ∧
  pv_getresuid v = Some (uid, uid, uid) ∧ pv_getresgid v = Some (gid, gid, gid) ∧
  (∃ proof, audit (pv_audit v) = Ok proof ∧
    let caps := po_capabilities proof in
    cs_effective caps = [] ∧ cs_permitted caps = [] ∧ cs_inheritable caps = [] ∧
    cs_ambient caps = [] ∧
    ∀ fd, fd ∈ po_open_fds proof → fd ∈ [0; 1; 2] ∨ fd ∈ allowed_fds e) ∧
  (∀ name, name ∈ forbidden_names → var_os (pv_environment v) name = None) ∧
  pv_cwd v = Some (rc_home (ex_runtime e)) ∧
  (rc_session_id (ex_runtime e) ≠ "" → handoff.1 = rc_exec_plan (ex_runtime e)).
Proof.
  intros Hp Hv. apply probe_ready_ok in Hp as (Hids & [Hu Hg] & Ha & Hf & Hc & Hplan).
  apply validate_ready_ok in Hv as (Hids' & Hu' & Hg' & Hi & Hc' & Hplan'). cbv zeta in *.
  rewrite Hids in Hids'. injection Hids' as -> -> ->. rewrite Hu, Hg, Hu', Hg', Hc, Hc', <- Hplan.
  split_and!; try done. exists (ry_isolation_proof r). split; [done|].
  exact (isolation_valid_means _ _ Hi).
Qed.

(** ** The commit *)

Definition is_exec (a : ProbeAct) : bool := match a with PrExec _ => true | _ => false end.

(** What the probe did when it is ready to execute. *)
Definition probe_log (v : ProbeView) (response : ReadyResponse) (context : option string)
    : list ProbeAct :=
  [PrReady response]
  ++ (if bool_decide (terminal_arguments (pv_args v) = None) then [] else [PrCloseTerminal])
  ++ [PrCommitted; PrCloexec]
  ++ match context with Some c => [PrSetexeccon c] | None => [] end.

Definition no_final_exec (log log' : list ProbeAct) : Prop :=
  ∃ more, log' = log ++ more ∧ Forall (λ a, is_exec a = false) more.
#[export] Instance no_final_exec_preorder : PreOrder no_final_exec.
Proof.
  split.
  - intros l. exists []. by rewrite app_nil_r.
  - intros l1 l2 l3 (m & -> & F) (m' & -> & F'). exists (m ++ m').
    rewrite (assoc_L app). split; [done|]. by apply Forall_app.
Qed.
Lemma probe_do_no_exec a : is_exec a = false → sr_keeps no_final_exec (probe_do a).
Proof. intros H l. exists [a]. by split; [|repeat constructor]. Qed.
Ltac probe_auto := keeps_with no_final_exec ltac:(by apply probe_do_no_exec).
Lemma prepare_probe_no_exec v : sr_keeps no_final_exec (prepare_probe v).
Proof. unfold prepare_probe, probe_check, probe_fail. probe_auto. Qed.

Lemma probe_do_ok a l l' u : probe_do a l = (l', Ok u) → l' = l ++ [a].
Proof. by intros [= <- <-]. Qed.
Lemma prepare_probe_ok v log plan :
  prepare_probe v [] = (log, Ok plan) →
  ∃ response context, probe_ready v = Some (response, (plan, context)) ∧
    commits (pv_commit v) = true ∧
    (∀ c, context = Some c → apply_pending (pv_selinux v) c = Ok ()) ∧
    log = probe_log v response context.
Proof.
  unfold prepare_probe, probe_check. intros H. ok_step H. ok_step R. apply ok_or_ok in L.
  destruct a as [response [p context]]. exists response, context. unfold probe_log.
  ok_step H. ok_step R. ok_step H. apply probe_do_ok in R as ->. ok_step H.
  assert (w = [PrReady response] ++ (if bool_decide (terminal_arguments (pv_args v) = None)
    then [] else [PrCloseTerminal])) as ->.
  { case_bool_decide; [by injection R as <- <-|]. ok_step R. apply probe_do_ok in R0 as ->.
    by ok_step R. }
  ok_step H. ok_step R0. ok_step H. apply probe_do_ok in R0 as ->. ok_step H.
  destruct (pv_cloexec v <? 0); [done|]. apply probe_do_ok in R0 as ->. ok_step H.
  destruct context as [c|].
  - ok_step R0. apply probe_do_ok in R1 as ->.
    destruct (apply_pending (pv_selinux v) c) as [[]|] eqn:Hap; [|done]. injection R0 as <- <-.
    injection H as <- <-. split_and!; [done..|by intros ? [= <-]|]. by rewrite <- ?(assoc_L app).
  - injection R0 as <- <-. injection H as <- <-. split_and!; [done..|].
    by rewrite app_nil_r, <- ?(assoc_L app).
Qed.

(** C19. The session is only executed after the worker committed: the probe has
    reported itself, given up the terminal descriptor, read a commit of its
    own protocol version, made sure that the status pipe closes on exec and
    applied the SELinux context it was handed; and what it executes is the
    validated plan that was handed to it, and nothing else ever. *)
Theorem executed_only_after_commit v log r plan :
  run_probe v [] = (log, r) → PrExec plan ∈ log →
  ∃ response context failure, probe_ready v = Some (response, (plan, context)) ∧
    commits (pv_commit v) = true ∧ validate_exec_plan plan = true ∧
    executable_ok (pv_executable v) = true ∧
    (∀ c, context = Some c → apply_pending (pv_selinux v) c = Ok ()) ∧
    log = probe_log v response context ++ [PrExec plan] ++ failure ∧
    Forall (λ a, is_exec a = false) failure.
Proof.
  unfold run_probe. intros H Hin. pose proof (prepare_probe_no_exec v []) as Hn.
  unfold sr_bind in H. destruct (prepare_probe v []) as [l [p|[]]] eqn:Hp; cbn in Hn;
    destruct Hn as (more & -> & F); cbn [app] in *; rewrite Forall_forall in F.
  2: { injection H as <- <-. by specialize (F _ Hin). }
  apply prepare_probe_ok in Hp as (response & context & Hr & Hc & Hs & ->).
  unfold exec_final in H. destruct (_ && _) eqn:Hb.
  - bool_facts. unfold sr_bind, probe_fail, probe_do, sr_modify, sr_fail, sr_ret in H. cbn in H.
    assert (∃ failure, log = probe_log v response context ++ [PrExec p] ++ failure ∧
      Forall (λ a, is_exec a = false) failure) as (failure & -> & Hf).
    { destruct (pv_execve v); injection H as <- <-.
      - by exists [].
      - exists [PrFailure "execve"]. rewrite <- (assoc_L app). by split; [|repeat constructor]. }
    assert (plan = p) as ->.
    { rewrite !elem_of_app, list_elem_of_singleton in Hin. rewrite Forall_forall in Hf.
      destruct Hin as [Hin|[Hin|Hin]]; [by specialize (F _ Hin)|by injection Hin|].
      by specialize (Hf _ Hin). }
    by exists response, context, failure.
  - assert (log = probe_log v response context ++ [PrFailure "execve"]) as -> by (by injection H).
    rewrite elem_of_app, list_elem_of_singleton in Hin.
    destruct Hin as [Hin|Hin]; [by specialize (F _ Hin)|done].
Qed.
