(* ===== verification/WorkerScopeSafety.v ===== *)
(** * What the scope operations have seen when they succeed

    A signal is only sent after the worker and the launcher were seen outside
    the boundary and the invocation resolved to the pinned object; an empty
    proof means that the unit had ended and that nobody was in its control
    group; a scope is only handed out with the payload as its single member,
    and one that could not be validated is stopped again. *)

From stdpp Require Import base gmap sets list strings pretty sorting.
From Stdlib Require Import ZArith Lia.
From S2P Require Import Prelude Text Admission Protocol WorkerRecord Launch.
From S2P Require Import CgroupState HostWorld WorkerWorld WorkerScope.
From S2P Require Import WorkerHistory.
#[local] Open Scope niralis_scope.

(** ** Facts about one moment *)

Definition stands_outside (cgroup : string) (pid : Z) (v : WorkerView) : Prop :=
  ∃ path, parse_unified_cgroup (wv_pid_cgroup v pid) = Some path ∧ path ≠ cgroup ∧
    is_ancestor cgroup path = false.
Definition resolves_to (invocation_id path : string) (v : WorkerView) : Prop :=
  ∃ bytes, parse_hex_id invocation_id = Some bytes ∧ wv_unit_by_invocation v bytes = Ok path.
Definition unit_gone (invocation_id : string) (v : WorkerView) : Prop :=
  ∃ bytes error, parse_hex_id invocation_id = Some bytes ∧
    wv_unit_by_invocation v bytes = Err error ∧ gone_error (classify_zbus_error error) = true.
Definition proxy_gone (v : WorkerView) : Prop :=
  ∃ error, wv_proxy v = Some error ∧ gone_error (classify_zbus_error error) = true.
Definition has_active (path active : string) (v : WorkerView) : Prop :=
  ua_active_state (wv_unit v path) = Ok active.
Definition has_sub (path sub : string) (v : WorkerView) : Prop :=
  ua_sub_state (wv_unit v path) = Ok sub.
Definition says_unpopulated (cgroup : string) (v : WorkerView) : Prop :=
  ∃ events, read_bounded (wv_events v cgroup) = Ok events ∧ parse_populated events = Ok 0.
Definition lists_nobody (cgroup : string) (v : WorkerView) : Prop :=
  ∃ procs, read_bounded (wv_procs v cgroup) = Ok procs ∧ trim procs = [].

(** ** Facts about a span of time *)

(** Nobody was in the control group: its directory was not there, or its two
    files said so. *)
Definition group_seen_empty (cgroup : string) (w w' : Worker) : Prop :=
  (during (λ v, wv_events_meta v cgroup = MetaNotFound) w w' ∧
   during (λ v, wv_directory_meta v cgroup = MetaNotFound) w w') ∨
  (during (says_unpopulated cgroup) w w' ∧ during (lists_nobody cgroup) w w').

(** The unit had ended: it was read in a terminal state under its invocation,
    or the manager no longer knew the invocation. *)
Definition unit_seen_ended (sc : SystemdPayloadScope) (w w' : Worker) : Prop :=
  (∃ active sub, terminal_unit_state active sub = true ∧
    during (resolves_to (sc_invocation_id sc) (sc_object_path sc)) w w' ∧
    during (has_active (sc_object_path sc) active) w w' ∧
    during (has_sub (sc_object_path sc) sub) w w') ∨
  during (unit_gone (sc_invocation_id sc)) w w' ∨ during proxy_gone w w'.

Lemma group_widen cgroup w0 w w' w1 :
  asked w0 w → asked w' w1 → group_seen_empty cgroup w w' → group_seen_empty cgroup w0 w1.
Proof.
  intros H0 H1 [[? ?]|[? ?]]; [left|right]; split; by eapply during_widen.
Qed.
Lemma ended_widen sc w0 w w' w1 :
  asked w0 w → asked w' w1 → unit_seen_ended sc w w' → unit_seen_ended sc w0 w1.
Proof.
  intros H0 H1 [(active & sub & Ht & ? & ? & ?)|[?|?]].
  - left. exists active, sub. split_and!; [done|by eapply during_widen..].
  - right. left. by eapply during_widen.
  - right. right. by eapply during_widen.
Qed.

(** ** Outsiders *)

Lemma outside_group_ok cgroup members pid w w' u :
  outside_group cgroup members pid w = (w', Ok u) → during (stands_outside cgroup pid) w w'.
Proof.
  unfold outside_group, pid_cgroup. intros H. ok_run H. bool_facts.
  apply during_tick. by exists a.
Qed.

Lemma outsiders_ok sc w w' u :
  outsiders sc w = (w', Ok u) →
  during (stands_outside (sc_control_group sc) (sc_worker_pid sc)) w w' ∧
  during (stands_outside (sc_control_group sc) (sc_launcher_pid sc)) w w'.
Proof.
  unfold outsiders. intros H. ok_run H.
  split; (eapply during_widen; [| |by eapply outside_group_ok]; asked_run).
Qed.

Lemma resolve_ok invocation_id path w w' :
  resolve_by_invocation invocation_id w = (w', Ok path) →
  during (resolves_to invocation_id path) w w'.
Proof.
  unfold resolve_by_invocation. intros H. ok_run H.
  eapply during_widen; [| |apply during_tick; by exists a0]; asked_run.
Qed.

Lemma resolve_pinned_ok sc w w' u :
  resolve_pinned sc w = (w', Ok u) →
  during (resolves_to (sc_invocation_id sc) (sc_object_path sc)) w w'.
Proof.
  unfold resolve_pinned. intros H. ok_run H. bool_facts. subst.
  by apply resolve_ok.
Qed.

(** ** The empty proof *)

Lemma empty_state_ok cgroup state w w' :
  read_cgroup_empty_state cgroup w = (w', Ok state) → group_seen_empty cgroup w w'.
Proof.
  unfold read_cgroup_empty_state. intros H. ok_run H. revert H.
  destruct (wv_events_meta _ cgroup) eqn:Hm; intros H; try done.
  - ok_run H. bool_facts. subst. right. split.
    + eapply during_widen; [| |apply during_tick; eexists; split; eassumption]; asked_run.
    + eapply during_widen; [| |apply during_tick; eexists; split; eassumption]; asked_run.
  - ok_run H. revert H. destruct (wv_directory_meta _ cgroup) eqn:Hd; intros H; try done.
    ok_run H. left. split.
    + eapply during_widen; [| |by apply during_tick]; asked_run.
    + eapply during_widen; [| |by apply during_tick]; asked_run.
Qed.

Lemma properties_ok path p w w' :
  read_properties path w = (w', Ok p) →
  iu_object_path p = path ∧ during (has_active path (iu_active_state p)) w w' ∧
  during (has_sub path (iu_sub_state p)) w w'.
Proof.
  unfold read_properties, get_property. intros H. cbn zeta in H. ok_run H. split; [done|].
  split; (eapply during_widen; [| |by apply during_tick]; asked_run).
Qed.

Lemma resolve_for_proof_ok sc r w w' :
  resolve_invocation_for_proof (sc_invocation_id sc) w = (w', Ok r) →
  match r with
  | Some path => during (resolves_to (sc_invocation_id sc) path) w w'
  | None => during (unit_gone (sc_invocation_id sc)) w w' ∨ during proxy_gone w w'
  end.
Proof.
  unfold resolve_invocation_for_proof, attempt. intros H.
  apply bind_ok in H as (w1 & resolved & HR & H).
  destruct (resolve_by_invocation _ w) as [w2 [path|error]] eqn:Hr; injection HR as <- <-.
  - ok_run H. by apply resolve_ok.
  - destruct (gone_error error) eqn:Hg; [|done]. ok_run H. revert Hr.
    unfold resolve_by_invocation, proxy, sr_bind, see, none_or, sr_lift, sr_ret, sr_fail.
    destruct (wv_proxy _) as [perror|] eqn:Hp; cbn.
    + intros [= <- <-]. right. apply during_tick. by exists perror.
    + destruct (parse_hex_id _) as [bytes|] eqn:Hh; cbn; [|by intros [= <- <-]].
      destruct (wv_unit_by_invocation _ bytes) as [|zerror] eqn:Hz; cbn; [done|].
      intros [= <- <-]. left. exists (S (wk_time w)). cbn. split; [lia|].
      by exists bytes, zerror.
Qed.

Lemma terminal_unit_ok sc path w w' u :
  validate_terminal_unit sc path w = (w', Ok u) →
  path = sc_object_path sc ∧ ∃ active sub, terminal_unit_state active sub = true ∧
    during (has_active path active) w w' ∧ during (has_sub path sub) w w'.
Proof.
  unfold validate_terminal_unit. intros H. ok_run H. bool_facts. split; [done|].
  apply properties_ok in R as (_ & Ha & Hs). eexists _, _. split; [done|].
  split; (eapply during_widen; [| |done]; asked_run).
Qed.

(** One of the two readings of the unit in a proof. *)
Lemma reading_ok sc r w w1 w2 u :
  resolve_invocation_for_proof (sc_invocation_id sc) w = (w1, Ok r) →
  match r with Some path => validate_terminal_unit sc path | None => sr_ret () end w1
    = (w2, Ok u) →
  unit_seen_ended sc w w2.
Proof.
  intros Hr Hv. pose proof Hr as Ha. apply (run_asked _ _ _ _ (resolve_proof_asked _)) in Ha.
  apply resolve_for_proof_ok in Hr. destruct r as [path|].
  - pose proof (run_asked _ _ _ _ (terminal_unit_asked _ _) Hv) as Ha'.
    apply terminal_unit_ok in Hv as (-> & active & sub & Ht & Hact & Hsub).
    left. exists active, sub.
    split_and!; [done|..];
      (eapply during_widen; [| |eassumption]; first [reflexivity|assumption]).
  - injection Hv as <- <-. right. destruct Hr; [left|right]; done.
Qed.

(** A proof of emptiness was preceded and followed by a reading of the ended
    unit, with nobody in the control group in between. *)
Lemma prove_empty_ok sc exit proof w w' :
  prove_empty_boundary sc exit w = (w', Ok proof) →
  asked w w' ∧ ep_leader_exit proof = exit ∧ ep_control_group proof = sc_control_group sc ∧
  ∃ w1 w2, asked w w1 ∧ asked w1 w2 ∧ asked w2 w' ∧
    unit_seen_ended sc w w1 ∧ group_seen_empty (sc_control_group sc) w1 w2 ∧
    unit_seen_ended sc w2 w'.
Proof.
  intros H. pose proof (run_asked _ _ _ _ (prove_empty_asked sc exit) H) as Hq.
  unfold prove_empty_boundary in H. cbn zeta in H. ok_run H. split_and!; [done..|].
  match goal with
  | Hf : resolve_invocation_for_proof _ ?wa = (_, Ok ?first),
    Hv : match ?first with _ => _ end _ = (?wb, Ok _),
    Hb : read_boundary_state _ ?wb = (?wc, Ok _) |- _ =>
      exists wb, wc;
      assert (unit_seen_ended sc wa wb) as He1 by (eapply reading_ok; eassumption);
      assert (group_seen_empty (sc_control_group sc) wb wc) as Hge
        by (unfold read_boundary_state in Hb; apply map_err_ok in Hb;
            by eapply empty_state_ok)
  end.
  assert (match a5 with Some path => validate_terminal_unit sc path | None => sr_ret () end w5
          = (w6, Ok a6)) as Hsecond.
  { destruct a0, a5; try done. by ok_run R5. }
  assert (asked w4 w6) by (transitivity w5; [asked_run|eapply run_asked; [|exact Hsecond]; asked_auto]).
  assert (asked w2 w4) by (transitivity w3; asked_run).
  assert (unit_seen_ended sc w4 w6) as He2 by (eapply reading_ok; eassumption).
  split_and!; [|asked_run|by etrans|done|done|by eapply ended_widen; [| |exact He2]].
  transitivity w0; [asked_run|]. eapply run_asked; [|exact R0]. asked_auto.
Qed.

(** ** Making a scope *)

(** The job of stopping the unit was seen done. *)
Definition job_done (job : string) (v : WorkerView) : Prop :=
  ∃ id, id ≠ 0 ∧ wv_job v = JobRemoved id job "done".
(** From [t0] on, systemd was asked to stop the unit, took the job and reported
    it done. *)
Definition stop_confirmed (t0 : nat) (name : string) (w : Worker) : Prop :=
  ∃ t t' job, (t0 ≤ t < t')%nat ∧ (t' < wk_time w)%nat ∧ (t, ActStopUnit name) ∈ wk_log w ∧
    wv_stop_unit (wk_view w t) = Some job ∧ job_done job (wk_view w t').
(** Stopping was tried from [t] on and failed: the jobs could not be watched,
    systemd refused, the time was up, or the job was not reported done. *)
Definition stop_failed (t0 : nat) (name : string) (deadline : Z) (w : Worker) : Prop :=
  ∃ t, (t0 ≤ t)%nat ∧
    (wv_subscribe (wk_view w t) = false ∨
     (S t, ActStopUnit name) ∈ wk_log w ∧
     (wv_stop_unit (wk_view w (S t)) = None ∨
      ∃ job, wv_stop_unit (wk_view w (S t)) = Some job ∧
        (deadline ≤ wv_now (wk_view w (S (S t))) ∨
         ¬ job_done job (wk_view w (S (S (S t))))))).
(** The unit that was made is stopped again, or the error says that it is not. *)
Definition stopped (t0 : nat) (name : string) (deadline : Z) (error : PayloadScopeError)
    (w : Worker) : Prop :=
  stop_confirmed t0 name w ∨ error = PseCleanupFailed ∧ stop_failed t0 name deadline w.

Lemma stop_unit_run name deadline w :
  let '(w', r) := stop_created_unit name deadline w in
  match r with
  | Ok _ => stop_confirmed (wk_time w) name w'
  | Err e => e = PseCleanupFailed ∧ stop_failed (wk_time w) name deadline w'
  end.
Proof.
  unfold stop_created_unit, wait_job, time_left, sr_map_err, sr_lift, see, perform, sr_bind.
  cbn -[wk_log]. destruct (wv_subscribe _) eqn:Hs; cbn -[wk_log].
  2: { split; [done|]. exists (wk_time w). split; [lia|by left]. }
  set (t := wk_time w) in *.
  assert ((S t, ActStopUnit name) ∈ wk_log w ++ [(S t, ActStopUnit name)]) as Hl by set_solver.
  destruct (wv_stop_unit _) as [job|] eqn:Hj; cbn -[wk_log].
  2: { split; [done|]. exists t. split; [lia|]. right. split; [exact Hl|by left]. }
  assert (∀ w', wk_view w' = wk_view w → wk_log w' = wk_log w ++ [(S t, ActStopUnit name)] →
    (deadline ≤ wv_now (wk_view w (S (S t))) ∨ ¬ job_done job (wk_view w (S (S (S t))))) →
    stop_failed t name deadline w') as Hf.
  { intros w' Hv Hw Hd. exists t. split; [lia|]. rewrite Hv, Hw. right. split; [done|].
    right. by exists job. }
  destruct (Z.ltb_spec (wv_now (wk_view w (S (S t)))) deadline) as [Hn|Hn]; cbn -[wk_log].
  2: { split; [done|]. apply Hf; [done..|by left]. }
  fold t. destruct (wv_job (wk_view w (S (S (S t))))) as [| |id path res] eqn:Hb; cbn -[wk_log].
  1-2: split; [done|]; apply Hf; [done..|right; intros (? & _ & E); congruence].
  destruct (negb (_ || _)) eqn:Hg; cbn -[wk_log].
  - bool_facts. subst. exists (S t), (S (S (S t))), job. cbn. split_and!; try done; [lia..|].
    eexists. by split.
  - split; [done|]. apply Hf; [done..|]. right. intros (id' & Hi & E). rewrite Hb in E.
    injection E as -> -> ->. rewrite !str_eqb_refl, (proj2 (Z.eqb_neq _ _) Hi) in Hg. done.
Qed.

Lemma checked_spec {A} t0 name deadline (m : WK PayloadScopeError A) :
  sr_keeps (did anything) m →
  spec (λ w, (t0 ≤ wk_time w)%nat) (checked name deadline m) (λ _ w, (t0 ≤ wk_time w)%nat)
    (stopped t0 name deadline).
Proof.
  intros Hm w Ht. unfold checked. specialize (Hm w). destruct (m w) as [w1 [a|e]]; cbn in *.
  { destruct Hm as (_ & ? & _). lia. }
  assert (t0 ≤ wk_time w1)%nat as Ht1 by (destruct Hm as (_ & ? & _); lia).
  pose proof (stop_unit_run name deadline w1) as Hs. unfold sr_bind.
  destruct (stop_created_unit name deadline w1) as [w2 [u|e']].
  - left. destruct Hs as (t & t' & job & ? & Hs). exists t, t', job. split; [lia|done].
  - right. destruct Hs as (-> & t & ? & Hs). split; [done|]. exists t. split; [lia|done].
Qed.

Lemma pin_unit_did name id group slice :
  sr_keeps (did anything) (pin_invocation_unit name id group slice).
Proof. unfold pin_invocation_unit. did_auto anything. Qed.

Lemma validate_created_spec t0 pid uid lid name wp lp deadline :
  spec (λ w, (t0 ≤ wk_time w)%nat) (validate_created pid uid lid name wp lp deadline)
    (λ _ w, (t0 ≤ wk_time w)%nat) (stopped t0 name deadline).
Proof.
  unfold validate_created. cbn zeta.
  repeat (apply spec_bind with (λ _ w, (t0 ≤ wk_time w)%nat);
    [apply checked_spec; first [apply pin_unit_did | apply (keeps_did anything); asked_auto]
    |intros ?]).
  by apply spec_ret.
Qed.

Lemma stop_unit_did name deadline : sr_keeps (did anything) (stop_created_unit name deadline).
Proof. unfold stop_created_unit. did_auto anything. Qed.
Lemma checked_did {A} name deadline (m : WK PayloadScopeError A) :
  sr_keeps (did anything) m → sr_keeps (did anything) (checked name deadline m).
Proof.
  intros Hm w. specialize (Hm w). unfold checked. destruct (m w) as [w1 [a|e]]; [done|].
  etrans; [exact Hm|]. apply (keeps_bind (did anything)); [apply stop_unit_did|].
  intros ?. apply (keeps_fail (did anything)).
Qed.
Lemma validate_created_did pid uid lid name wp lp deadline :
  sr_keeps (did anything) (validate_created pid uid lid name wp lp deadline).
Proof.
  unfold validate_created. cbn zeta.
  repeat (apply (keeps_bind (did anything));
    [apply checked_did; first [apply pin_unit_did | apply (keeps_did anything); asked_auto]
    |intros ?]).
  apply (keeps_ret (did anything)).
Qed.

(** What is done once systemd has been asked to start the unit. *)
Lemma started_unit_spec t pid uid lid name wp lp deadline job :
  spec (λ x, wk_time x = S t ∧ (t, ActStartUnit name) ∈ wk_log x)
    (checked name deadline (wait_job job deadline) ;;;
     validate_created pid uid lid name wp lp deadline)
    (λ _ _, True) (λ error x, (t, ActStartUnit name) ∈ wk_log x ∧ stopped (S t) name deadline error x).
Proof.
  set (started := λ x, (t, ActStartUnit name) ∈ wk_log x).
  apply (spec_weaken _ _ (λ x, (S t ≤ wk_time x)%nat ∧ started x) _
    (λ _ x, (S t ≤ wk_time x)%nat ∧ started x) _
    (λ error x, stopped (S t) name deadline error x ∧ started x)).
  - apply spec_conj.
    + apply spec_bind with (λ _ w, (S t ≤ wk_time w)%nat).
      * apply checked_spec, (keeps_did anything). asked_auto.
      * intros _. apply validate_created_spec.
    + apply (spec_keeps (did anything)).
      * apply (keeps_bind (did anything)); [|intros _; apply validate_created_did].
        apply checked_did, (keeps_did anything). asked_auto.
      * intros x x' Hx (_ & _ & more & L & _). unfold started in *. rewrite L. set_solver.
  - intros x [-> Hx]. split; [lia|done].
  - done.
  - intros e x [? ?]. done.
Qed.

(** C18. A worker that fails to make the payload's scope does not leave one
    behind unnoticed: either systemd was never asked to start a unit, or it
    refused and nothing else was done, or after the start systemd was asked to
    stop the unit, took the job and reported it done; and where that failed,
    because the jobs could not be watched, the stop was refused, the deadline
    passed or the job did not end well, the error is [CleanupFailed]. *)
Theorem failed_preparation_is_stopped pid uid lid wp lp deadline w w' error :
  prepare_scope pid uid lid wp lp deadline w = (w', Err error) →
  wk_log w' = wk_log w ∨
  ∃ t name, (wk_time w ≤ t)%nat ∧
    ((wv_start_unit (wk_view w t) = None ∧ wk_log w' = wk_log w ++ [(t, ActStartUnit name)]) ∨
     ((t, ActStartUnit name) ∈ wk_log w' ∧ stopped (S t) name deadline error w')).
Proof.
  intros H.
  assert (spec (λ x, asked w x) (prepare_scope pid uid lid wp lp deadline) (λ _ _, True)
    (λ error x, wk_log x = wk_log w ∨ ∃ t name, (wk_time w ≤ t)%nat ∧
      ((wv_start_unit (wk_view w t) = None ∧
        wk_log x = wk_log w ++ [(t, ActStartUnit name)]) ∨
       ((t, ActStartUnit name) ∈ wk_log x ∧ stopped (S t) name deadline error x)))) as Hs.
  2: { specialize (Hs w (reflexivity w)). by rewrite H in Hs. }
  unfold prepare_scope.
  repeat (apply spec_ask_bind; [solve [unfold time_left; asked_auto]
    |intros e x [n ->]; by left|intros ?]).
  set (name := "niralis-payload-" +:+ _).
  intros x [n ->]. unfold sr_bind at 1, perform. cbn.
  set (t := (n + wk_time w)%nat). set (y := wk_tick _).
  destruct (wv_start_unit (wk_view w t)) as [job|] eqn:Hj; cbn.
  - pose proof (started_unit_spec t pid uid lid name wp lp deadline job y) as Hs.
    unfold sr_bind in Hs |- *. cbn in Hs |- *.
    assert (wk_time y = S t ∧ (t, ActStartUnit name) ∈ wk_log y) as Hy
      by (split; [done|]; cbn; set_solver).
    specialize (Hs Hy). destruct (checked name deadline _ y) as [y' [u|e]].
    + destruct (validate_created _ _ _ _ _ _ _ y') as [y2 [sc|e]]; [done|].
      right. exists t, name. split; [unfold t; lia|]. by right.
    + right. exists t, name. split; [unfold t; lia|]. by right.
  - right. exists t, name. split; [unfold t; lia|]. by left.
Qed.

(** ** A scope that is handed out *)

Lemma pin_ok name id group slice path w w' :
  pin_invocation_unit name id group slice w = (w', Ok path) →
  wk_reference_held w' = true ∧ acts w' = acts w ++ [ActUnit CallRef path].
Proof.
  unfold pin_invocation_unit. intros H.
  apply bind_ok in H as (w1 & path' & Hr & H). apply map_err_ok in Hr.
  apply bind_ok in H as (w2 & [] & Hc & H). apply map_err_ok, call_unit_ok in Hc as (Ha & _ & _).
  apply bind_ok in H as (w3 & validation & Hv & H). apply attempt_ok in Hv.
  assert (asked w2 w3) as Hq by (eapply run_asked; [|exact Hv]; asked_auto).
  apply (run_asked _ _ _ _ (resolve_asked _)) in Hr.
  destruct validation; ok_run H; [|done].
  split; [done|]. change (acts (set_reference true w3)) with (acts w3).
  by rewrite (asked_acts _ _ Hq), Ha, (asked_acts _ _ Hr).
Qed.

(** A scope is only handed to the worker with the payload as its single
    member: systemd ran the unit in the slice of the (non-root) user under the
    expected control group, the payload's pidfd was in that group, the group
    listed the payload and nobody else, the worker and the launcher were
    outside it, and the worker holds one reference on the unit; starting the
    unit and taking the reference is all that was done. *)
Theorem prepared_scope_holds_payload pid uid lid wp lp deadline w w' sc :
  prepare_scope pid uid lid wp lp deadline w = (w', Ok sc) →
  let identity := sc_identity sc in
  let group := sc_control_group sc in
  uid ≠ 0 ∧ psi_expected_uid identity = uid ∧ psi_logind_session_id identity = lid ∧
  sc_worker_pid sc = wp ∧ sc_launcher_pid sc = lp ∧
  valid_payload_cgroup group uid (psi_unit_name identity) = true ∧
  wk_reference_held w' = true ∧
  acts w' = acts w ++ [ActStartUnit (psi_unit_name identity);
                       ActUnit CallRef (sc_object_path sc)] ∧
  during (λ v, wv_pidfd_cgroup v = Some group) w w' ∧
  during (λ v, parse_members (wv_procs v group) = Some [pid]) w w' ∧
  during (stands_outside group wp) w w' ∧ during (stands_outside group lp) w w'.
Proof.
  unfold prepare_scope, validate_created, read_members. cbn zeta. intros H. ok_run H.
  unfold valid_slice_name in *. bool_facts. subst.
  match goal with H : pin_invocation_unit _ _ _ _ _ = _ |- _ =>
    pose proof (pin_ok _ _ _ _ _ _ _ H) as [Hheld Hacts];
    pose proof (run_did anything _ _ _ _ (pin_unit_did _ _ _ _) H) as Hpin; clear H end.
  assert (during (λ v, wv_pidfd_cgroup v = Some a16) w11 (wk_tick w11)) as Hpidfd
    by by apply during_tick.
  assert (during (λ v, parse_members (wv_procs v a16) = Some [pid]) (wk_tick w11)
    (wk_tick (wk_tick w11))) as Hmem by by apply during_tick.
  match goal with H : outside_group _ _ wp _ = _, H' : outside_group _ _ lp _ = _ |- _ =>
    pose proof (outside_group_ok _ _ _ _ _ _ H); pose proof (outside_group_ok _ _ _ _ _ _ H')
  end.
  split_and!; cbn; try done.
  2-5: during_run.
  match goal with H : wait_job _ _ ?x = _ |- _ =>
    assert (asked x w13) as Hq by asked_run end.
  assert (asked w (wk_tick (wk_tick w1))) as Hq' by asked_run.
  by rewrite Hacts, (asked_acts _ _ Hq), record_acts, (asked_acts _ _ Hq'), <- (assoc_L app).
Qed.
