(* ===== verification/WorkerResources.v ===== *)
(** * What a worker owns: the PAM transaction and the terminal

    [NativePamTransaction] of [niralis-auth/src/pam_native/transaction.rs]
    (with [PamSessionMetadata] of [niralis-auth/src/lib.rs]), and the virtual
    terminal with its guard, [niralis-session-worker/src/vt].  Both are given
    back when they are dropped; the theorems say when and in which order the
    calls of [libpam] and of the kernel are made. *)

From stdpp Require Import base gmap sets list strings pretty.
From Stdlib Require Import ZArith Lia.
From S2P Require Import Prelude Text Admission Protocol WorkerRecord Launch.
From S2P Require Import WorkerWorld.
#[local] Open Scope niralis_scope.

(** ** The PAM transaction *)

Inductive AuthSessionError := PamOpenFailed | PamEnvironmentInvalid | PamCloseFailed.

Definition this_pam {E} : WK E (option NativePamTransaction) := λ w, (w, Ok (wk_pam w)).
Definition pam_call {E} (call : PamCall) : WK E bool :=
  perform (ActPam call) (λ v, wv_pam v call).

(** [cleanup]. *)
Definition pam_cleanup {E} : WK E () :=
  let* t := this_pam in
  match t with
  | None => sr_ret ()
  | Some t =>
      if pt_ended t then sr_ret ()
      else
        (if pt_session_open t then pam_call PamCloseSession ;;; sr_ret () else sr_ret ()) ;;;
        (if pt_credentials_established t then pam_call PamDeleteCred ;;; sr_ret ()
         else sr_ret ()) ;;;
        pam_call PamEnd ;;;
        sr_modify (set_pam (Some (mkPamTransaction false false true)))
  end.
(** [drop(transaction)]. *)
Definition drop_transaction {E} : WK E () := pam_cleanup ;;; sr_modify (set_pam None).

(** [pam_authenticate] and [pam_acct_mgmt]; a transaction that is not returned
    is dropped. *)
Definition authenticate : WK () string :=
  let refuse := drop_transaction ;;; sr_fail () in
  let* started := pam_call PamStart in
  ensure started else () ;;;
  sr_modify (set_pam (Some (mkPamTransaction false false false))) ;;;
  let* authenticated := pam_call PamAuthenticate in
  if negb authenticated then refuse
  else
    let* valid := pam_call PamAcctMgmt in
    if negb valid then refuse
    else
      let* user := see wv_pam_user in
      match user with
      | Some user => match str_from_utf8 user with Some _ => sr_ret user | None => refuse end
      | None => refuse
      end.

Record PamSessionMetadata := mkPamMetadata {
  pm_session_type : string;
  pm_session_class : string;
  pm_session_desktop : string;
  pm_seat : option string;
  pm_vtnr : option Z;
  pm_tty : option string;
}.

Definition entries (m : PamSessionMetadata) : list string :=
  ["XDG_SESSION_TYPE=" +:+ pm_session_type m;
   "XDG_SESSION_CLASS=" +:+ pm_session_class m;
   "XDG_SESSION_DESKTOP=" +:+ pm_session_desktop m]
  ++ match pm_seat m with Some seat => ["XDG_SEAT=" +:+ seat] | None => [] end
  ++ match pm_vtnr m with Some n => ["XDG_VTNR=" +:+ pretty n] | None => [] end.

(** What [catch_unwind] around [open_session] tells apart. *)
Inductive OpenFailure := OpenRefused | OpenPanicked.

Definition pam_step (call : PamCall) : WK OpenFailure () :=
  let* answer := perform (ActPam call) (λ v, (wv_pam_panics v call, wv_pam v call)) in
  let '(panicked, succeeded) := answer in
  if panicked : bool then sr_fail OpenPanicked
  else ensure (succeeded : bool) else OpenRefused.

Definition no_nul (s : string) : WK OpenFailure () :=
  ensure negb (str_contains_byte NUL s) else OpenRefused.
(** A step after which the transaction is cleaned up when it refuses. *)
Definition step_or_cleanup (call : PamCall) : WK OpenFailure () := λ w,
  match pam_step call w with
  | (w, Err OpenRefused) => (pam_cleanup ;;; sr_fail OpenRefused) w
  | r => r
  end.
Fixpoint put_entries (es : list string) : WK OpenFailure () :=
  match es with
  | [] => sr_ret ()
  | e :: rest => no_nul e ;;; pam_step (PamPutenv e) ;;; put_entries rest
  end.

Definition open_session (m : PamSessionMetadata) : WK OpenFailure () :=
  match pm_tty m with
  | Some tty => no_nul tty ;;; pam_step (PamSetTty tty)
  | None => sr_ret ()
  end ;;;
  put_entries (entries m) ;;;
  pam_step PamEstablishCred ;;;
  sr_modify (set_pam (Some (mkPamTransaction true true false))) ;;;
  step_or_cleanup PamOpenSession ;;;
  step_or_cleanup PamReinitializeCred.

Definition close_session : WK AuthSessionError () :=
  let* t := this_pam in
  match t with
  | Some t =>
      if negb (pt_session_open t) then sr_ret ()
      else
        let* closed := pam_call PamCloseSession in
        ensure closed else PamCloseFailed ;;;
        sr_modify (set_pam (Some (mkPamTransaction (pt_credentials_established t) false
                                    (pt_ended t))))
  | None => sr_ret ()
  end.

Record PamSessionEnvironment := mkPamEnvironment {
  pe_session_id : string;
  pe_runtime_dir : string;
  pe_imported_locale : list (string * string);
}.

Definition pam_value_bytes (name : string) : WK AuthSessionError string :=
  let* value := see (λ v, wv_pam_getenv v name) in
  let* bytes := sr_lift (ok_or value PamEnvironmentInvalid) in
  ensure negb (str_is_empty bytes || (16 * 1024 <? str_len bytes))
    else PamEnvironmentInvalid ;;;
  sr_ret bytes.

Definition locale_key (key : string) : bool :=
  str_eqb key "LANG" || str_eqb key "LANGUAGE" || String.prefix "LC_" key.

Definition session_environment : WK AuthSessionError PamSessionEnvironment :=
  let* session_id := pam_value_bytes "XDG_SESSION_ID" in
  let* _ := sr_lift (ok_or (str_from_utf8 session_id) PamEnvironmentInvalid) in
  ensure negb (str_is_empty session_id || (128 <? str_len session_id)
               || str_contains_byte NUL session_id) else PamEnvironmentInvalid ;;;
  let* runtime_dir := pam_value_bytes "XDG_RUNTIME_DIR" in
  ensure negb (str_is_empty runtime_dir || (4096 <? str_len runtime_dir)
               || str_contains_byte NUL runtime_dir) else PamEnvironmentInvalid ;;;
  let* variables := see wv_pam_environment in
  let* variables := sr_lift (ok_or variables PamEnvironmentInvalid) in
  let locale := take 256 (filter (λ e, locale_key e.1 = true) variables) in
  let total := foldr (λ e n, str_len e.1 + str_len e.2 + 1 + n) 0 locale in
  ensure negb (existsb (λ e, str_is_empty e.1 || (128 <? str_len e.1)
                             || (16 * 1024 <? str_len e.2)) locale
               || (64 * 1024 <? total)) else PamEnvironmentInvalid ;;;
  sr_ret (mkPamEnvironment session_id runtime_dir locale).

(** ** The terminal *)

Definition VT_MIN : Z := 1.
Definition VT_MAX : Z := 63.

Definition this_terminal {E} : WK E (option VirtualTerminalGuard) := λ w, (w, Ok (wk_terminal w)).
Definition set_handle (h : TerminalHandle) (g : VirtualTerminalGuard) : VirtualTerminalGuard :=
  mkTerminalGuard (vg_vtnr g) (vg_previous_vtnr g) h (vg_release_result g).
Definition set_release_result (r : result () VirtualTerminalError) (g : VirtualTerminalGuard)
    : VirtualTerminalGuard :=
  mkTerminalGuard (vg_vtnr g) (vg_previous_vtnr g) (vg_handle g) (Some r).
Definition update_terminal {E} (f : VirtualTerminalGuard → VirtualTerminalGuard) : WK E () :=
  sr_modify (λ w, set_terminal (f <$> wk_terminal w) w).

Definition ensure_graphical_seat (seat : string) (answer : Z) : result () VirtualTerminalError :=
  if str_contains_byte NUL seat then Err InvalidSeatName
  else if 0 <? answer then Ok ()
  else if answer =? 0 then Err SeatNotGraphical else Err (SeatQueryFailed answer).

Definition open_device (path : string) : WK VirtualTerminalError () :=
  let* failed := see (λ v, wv_open_device v path) in
  none_or (DeviceOpenFailed path) failed.
(** [VirtualTerminalId::new]. *)
Definition valid_vt (n : Z) : bool := (0 <? n) && (n <=? 63).
Definition op_failed {A} (m : WK Z A) : WK VirtualTerminalError A :=
  sr_map_err (λ _, VtOperationFailed) m.
Definition active_vt : WK Z Z := let* r := see wv_vt_active in sr_lift r.

(** [OwnedVirtualTerminal::allocate]. *)
Definition allocate_terminal : WK VirtualTerminalError VirtualTerminalGuard :=
  open_device "/dev/console" ;;;
  let* previous := op_failed active_vt in
  ensure valid_vt previous else VtOperationFailed ;;;
  let* query := see wv_open_query in
  let* number := sr_lift (map_err OpenQueryFailed query) in
  ensure (VT_MIN <=? number) && (number <=? VT_MAX) else InvalidAllocatedTerminal number ;;;
  open_device ("/dev/tty" +:+ pretty number) ;;;
  let* stat := see wv_fstat in
  let* device := sr_lift (map_err DeviceMetadataFailed stat) in
  let '(major, minor) := device in
  ensure (major =? 4) && (minor =? number) else DeviceMismatch number major minor ;;;
  ensure negb (number =? previous) else VtOperationFailed ;;;
  sr_ret (mkTerminalGuard number previous TerminalHeld None).

(** [LinuxVirtualTerminalAllocator::allocate]. *)
Definition allocate (seat : string) : WK VirtualTerminalError () :=
  ensure str_eqb seat "seat0" else UnsupportedSeat ;;;
  let* library := see wv_libsystemd in
  ensure library else LibraryUnavailable ;;;
  let* symbol := see wv_sd_symbol in
  ensure symbol else SymbolUnavailable ;;;
  let* answer := see wv_can_graphical in
  sr_lift (ensure_graphical_seat seat answer) ;;;
  let* guard := allocate_terminal in
  sr_modify (set_terminal (Some guard)).

(** The loop that waits for [target] to be active: the answers until the
    deadline, the last of which comes after it. *)
Fixpoint settle (failed : Z → VirtualTerminalError) (late : VirtualTerminalError) (target : Z)
    (answer : result Z Z) (rest : list (result Z Z)) : result () VirtualTerminalError :=
  match answer with
  | Err errno => Err (failed errno)
  | Ok active =>
      if active =? target then Ok ()
      else match rest with
           | [] => Err late
           | answer :: rest => settle failed late target answer rest
           end
  end.
Definition await_active (failed : Z → VirtualTerminalError) (late : VirtualTerminalError)
    (target : Z) : WK VirtualTerminalError () :=
  let* answers := see (λ v, (wv_vt_active v, wv_vt_settling v)) in
  sr_lift (settle failed late target answers.1 answers.2).

Definition vt_call (call : VtCall) (failed : Z → VirtualTerminalError)
    : WK VirtualTerminalError () :=
  let* errno := perform (ActVt call) (λ v, wv_vt_call v call) in none_or failed errno.

(** [activate] of the lease. *)
Definition activate_terminal (wait : Z) : WK VirtualTerminalError () :=
  let* g := this_terminal in
  match g with
  | None => sr_fail VtOperationFailed
  | Some g =>
      vt_call (VtActivateCall (vg_vtnr g)) (λ _, VtOperationFailed) ;;;
      if wait =? 0 then sr_ret ()
      else await_active (λ _, VtOperationFailed) VtOperationFailed (vg_vtnr g)
  end.

(** [release_allocated_terminal]. *)
Definition release_allocated_terminal (allocated previous : Z) : WK VirtualTerminalError () :=
  let* active := sr_map_err (CleanupOperationFailed "query_active") active_vt in
  (if active =? allocated then
     vt_call (VtActivateCall previous) (CleanupOperationFailed "restore_previous") ;;;
     await_active (CleanupOperationFailed "confirm_previous") CleanupTimedOut previous
   else sr_ret ()) ;;;
  perform (ActVt VtCloseCall) (λ _, ()) ;;;
  update_terminal (set_handle TerminalClosed) ;;;
  vt_call (VtDisallocateCall allocated) (CleanupOperationFailed "disallocate").

(** [OwnedVirtualTerminal::release]. *)
Definition lease_release (g : VirtualTerminalGuard) : WK VirtualTerminalError () :=
  match vg_handle g with
  | TerminalReleased => sr_ret ()
  | TerminalHeld =>
      release_allocated_terminal (vg_vtnr g) (vg_previous_vtnr g) ;;;
      update_terminal (set_handle TerminalReleased)
  | TerminalClosed =>
      vt_call (VtDisallocateCall (vg_vtnr g)) (CleanupOperationFailed "disallocate") ;;;
      update_terminal (set_handle TerminalReleased)
  end.

(** [VirtualTerminalGuard::release]: the first result is the result. *)
Definition release_terminal : WK VirtualTerminalError () :=
  let* g := this_terminal in
  match g with
  | None => sr_ret ()
  | Some g =>
      match vg_release_result g with
      | Some result => sr_lift result
      | None =>
          let* result := attempt (lease_release g) in
          update_terminal (set_release_result result) ;;;
          sr_lift result
      end
  end.
(** The guard goes out of scope. *)
Definition drop_terminal {E} : WK E () :=
  attempt release_terminal ;;; sr_modify (set_terminal None).
