(* ===== verification/WorkerTermination.v ===== *)
(** * Ending a session, in the worker

    [niralis-session-worker/src/termination] and the waits of [src/runtime]:
    the coordinator of a graceful end (one SIGTERM, one grace period) and of a
    forced one (one SIGKILL, one deadline), the poll cycles that drive them,
    the decision what an outcome allows, and the finalization that gives the
    unit, PAM and the terminal back.  A wait has no deadline of its own: it is
    a sequence of poll cycles, and [WaitRunning] is a session that goes on. *)

From stdpp Require Import base gmap sets list strings pretty.
From Stdlib Require Import ZArith Lia.
From S2P Require Import Prelude Text Ledger Admission Protocol WorkerRecord.
From S2P Require Import Supervisor Launch.
From S2P Require Import CgroupState HostWorld WorkerWorld WorkerScope.
From S2P Require Import WorkerResources.
#[local] Open Scope niralis_scope.

(** ** Causes and outcomes *)

Inductive WorkerTerminationSignal := Sigterm | Sigint | Sighup.
Definition from_raw (signal : Z) : option WorkerTerminationSignal :=
  if signal =? SIGTERM then Some Sigterm
  else if signal =? SIGINT then Some Sigint
  else if signal =? SIGHUP then Some Sighup else None.

Inductive TerminationCause :=
| InternalTerminateRequest | CauseSignal (signal : WorkerTerminationSignal)
| SupervisorDisconnected | LeaderExited (exit : LeaderExit) | RuntimeFailure.

Inductive GracefulTerminationError :=
| GteBoundaryObserver | GteScopeOperation (error : PayloadScopeError) | GteTimer | GtePoll
| GteLeaderReap | GteSignal | GteControl.
Inductive RecoveryReason := BoundaryIdentityWasChanged | BoundaryIdentityUnproven.

Inductive GracefulTerminationOutcome :=
| BoundaryTerminalCandidate (cause : TerminationCause) (leader_exit : option LeaderExit)
| DeadlineExpired (cause : TerminationCause) (leader_exit : option LeaderExit)
| GracefulInfrastructure (cause : TerminationCause) (leader_exit : option LeaderExit)
    (error : GracefulTerminationError)
| GracefulRecovery (cause : TerminationCause) (leader_exit : option LeaderExit)
    (reason : RecoveryReason).

Inductive EscalationEligibility :=
| Eligible (cause : TerminationCause) (leader_exit : option LeaderExit)
| EscalationInfrastructure (cause : TerminationCause) (leader_exit : option LeaderExit)
    (error : GracefulTerminationError)
| EscalationRecovery (cause : TerminationCause) (leader_exit : option LeaderExit)
    (reason : RecoveryReason).
Inductive GracefulFinalizationDecision :=
| FinalizeCooperative (proof : BoundaryEmptyProof)
| NeedsEscalation (eligibility : EscalationEligibility)
| DecisionRecovery (cause : TerminationCause) (leader_exit : option LeaderExit)
    (reason : RecoveryReason).

Inductive ForcedTerminationStage :=
| StageEligibility | StagePreKillValidation | StageKill | StagePostKillValidation
| StageLeaderReap | StageBoundaryObservation | StageEmptyProof.
Inductive ForcedTerminationError :=
| FteScopeOperation (error : PayloadScopeError) | FteTimer | FtePoll | FteLeaderReap
| FteSignal | FteControl | FteBoundaryObserver.
Inductive ForcedTerminationOutcome :=
| ForcedBoundaryEmpty (proof : BoundaryEmptyProof) (leader_exit : LeaderExit)
| ForcedDeadlineExpired (cause : TerminationCause) (leader_exit : option LeaderExit)
| ForcedInfrastructure (cause : TerminationCause) (leader_exit : option LeaderExit)
    (stage : ForcedTerminationStage) (error : ForcedTerminationError)
| ForcedRecovery (cause : TerminationCause) (leader_exit : option LeaderExit)
    (reason : RecoveryReason).

(** The errors that leave the boundary's identity unproven. *)
Definition unproven_identity (error : PayloadScopeError) : bool :=
  match error with
  | PseWorkerInsideBoundary | PseInvalidIdentity | PseCgroupMismatch
  | PseInvalidMembership => true
  | _ => false
  end.

(** ** The graceful coordinator *)

Record GracefulTerminationCoordinator := mkGraceful {
  gc_cause : option TerminationCause;
  gc_leader_exit : option LeaderExit;
  gc_timer_armed : bool;
  gc_requested : bool;
}.
Definition graceful_new : GracefulTerminationCoordinator := mkGraceful None None false false.
Definition gc_cause_or_failure (c : GracefulTerminationCoordinator) : TerminationCause :=
  default RuntimeFailure (gc_cause c).
Definition gc_record_leader_exit (exit : LeaderExit) (c : GracefulTerminationCoordinator)
    : GracefulTerminationCoordinator :=
  match gc_leader_exit c with
  | Some _ => c
  | None => mkGraceful (gc_cause c) (Some exit) (gc_timer_armed c) (gc_requested c)
  end.
Definition boundary_candidate (c : GracefulTerminationCoordinator) : GracefulTerminationOutcome :=
  BoundaryTerminalCandidate (gc_cause_or_failure c) (gc_leader_exit c).
Definition deadline_expired (c : GracefulTerminationCoordinator) : GracefulTerminationOutcome :=
  DeadlineExpired (gc_cause_or_failure c) (gc_leader_exit c).
Definition infrastructure (c : GracefulTerminationCoordinator)
    (error : GracefulTerminationError) : GracefulTerminationOutcome :=
  GracefulInfrastructure (gc_cause_or_failure c) (gc_leader_exit c) error.
Definition scope_error (c : GracefulTerminationCoordinator) (error : PayloadScopeError)
    : GracefulTerminationOutcome :=
  if bool_decide (error = PseUnitReplaced)
  then GracefulRecovery (gc_cause_or_failure c) (gc_leader_exit c) BoundaryIdentityWasChanged
  else infrastructure c (GteScopeOperation error).

(** [begin]: the cause is the first one; a second request does nothing. *)
Definition graceful_begin (sc : SystemdPayloadScope) (cause : TerminationCause)
    (c : GracefulTerminationCoordinator)
    : WK GracefulTerminationOutcome (GracefulTerminationCoordinator * bool) :=
  if gc_requested c then sr_ret (c, false)
  else
    let c := mkGraceful (Some cause) (gc_leader_exit c) (gc_timer_armed c) false in
    sr_map_err (scope_error c) (create_boundary_observer sc) ;;;
    sr_map_err (scope_error c) (request_graceful_termination sc) ;;;
    let* armed := see wv_timer_arm in
    ensure armed else infrastructure c GteTimer ;;;
    sr_ret (mkGraceful (Some cause) (gc_leader_exit c) true true, true).

(** Reading a timer that was never armed would block. *)
Definition consume_deadline {E} (armed : bool) : WK E (result bool ()) :=
  if armed then see wv_timer_read else sr_ret (Ok false).

(** ** The descriptors of a worker *)

Record WorkerConfig := mkWorkerConfig {
  cf_worker_id : string;
  cf_process_id : Z;
  cf_session_pid : Z;
  cf_session_pgid : Z;
  cf_control_uid : Z;
  cf_has_listener : bool;
  cf_supervisor_fd : Z;
  cf_pidfd : Z;
}.

(** A descriptor that is -1 has no events. *)
Definition events_if (opened : bool) (revents : Z) : Z := if opened then revents else 0.

Definition get_or_insert {A} (a : A) (o : option A) : option A :=
  match o with Some _ => o | None => Some a end.

(** [read_signal_fd]: only the three handled signals are expected. *)
Definition read_signal_fd (r : SignalRead) : option WorkerTerminationSignal :=
  match r with SignalRead_ok signo => from_raw signo | SignalRead_failed => None end.
(** The loop over the signals that are pending. *)
Fixpoint drain_signals (reads : list SignalRead) (trigger : option TerminationCause)
    : option (option TerminationCause) :=
  match reads with
  | [] => Some trigger
  | r :: rest =>
      match read_signal_fd r with
      | None => None
      | Some signal => drain_signals rest (get_or_insert (CauseSignal signal) trigger)
      end
  end.

(** A [Terminate] request for this worker and this session. *)
Definition authentic_terminate (cf : WorkerConfig) (e : WorkerControlEnvelope) : bool :=
  (wc_version e =? WORKER_CONTROL_PROTOCOL_VERSION)
  && match wc_message e with
     | WcTerminate id worker_pid session_pid session_pgid =>
         str_eqb id (cf_worker_id cf) && (worker_pid =? cf_process_id cf)
         && (session_pid =? cf_session_pid cf) && (session_pgid =? cf_session_pgid cf)
     | _ => false
     end.

(** ** One poll cycle of a running session *)

Record WaitState := mkWait {
  ws_coordinator : GracefulTerminationCoordinator;
  ws_leader_reaped : bool;
  ws_observing : bool;
}.
Abbreviation GWK := (WK GracefulTerminationOutcome).

(** What goes from one part of a cycle to the next: the state and the trigger
    found so far. *)
Definition Triggered : Type := WaitState * option TerminationCause.

Definition on_leader (st : WaitState) (revents : Z) : GWK Triggered :=
  let c := ws_coordinator st in
  if has_events (Z.lor POLLIN POLLHUP) (events_if (negb (ws_leader_reaped st)) revents)
  then
    let* status := see wv_poll_child in
    match status with
    | Err _ => sr_fail (infrastructure c GteLeaderReap)
    | Ok None => sr_ret (st, None)
    | Ok (Some status) =>
        let exit := leader_exit_of status in
        sr_modify (set_child NoChild) ;;;
        sr_ret (mkWait (gc_record_leader_exit exit c) true (ws_observing st),
                Some (LeaderExited exit))
    end
  else sr_ret (st, None).

Definition on_observer (sc : SystemdPayloadScope) (st : WaitState) (revents : Z) : GWK () :=
  let c := ws_coordinator st in
  if events_if (ws_observing st) revents =? 0 then sr_ret ()
  else
    sr_map_err (λ _, infrastructure c GteBoundaryObserver)
      (consume_wakeup (sc_control_group sc)) ;;;
    let* terminal := sr_map_err (scope_error c) (boundary_appears_terminal sc) in
    if terminal then sr_fail (boundary_candidate c) else sr_ret ().

Definition on_signals (st : WaitState) (trigger : option TerminationCause) (revents : Z)
    : GWK (option TerminationCause) :=
  if has_events POLLIN revents then
    let* reads := see wv_signals in
    sr_lift (ok_or (drain_signals reads trigger) (infrastructure (ws_coordinator st) GteSignal))
  else sr_ret trigger.

(** The channel to the supervisor is written to by nobody: any event on it is
    its end. *)
Definition on_channels (cf : WorkerConfig) (trigger : option TerminationCause)
    (control supervisor : Z) : GWK (option TerminationCause) :=
  let trigger := if has_events BROKEN (events_if (cf_has_listener cf) control)
                 then get_or_insert SupervisorDisconnected trigger else trigger in
  if has_events (Z.lor POLLIN BROKEN) (events_if (0 <=? cf_supervisor_fd cf) supervisor)
  then sr_modify set_disconnected ;;; sr_ret (get_or_insert SupervisorDisconnected trigger)
  else sr_ret trigger.

(** What came in on the control socket: nothing, a peer that is turned away,
    which ends the cycle, or a request to end the session. *)
Inductive ControlInput := NoInput | WrongPeer | TerminateInput.

Definition on_control (cf : WorkerConfig) (st : WaitState) (revents : Z)
    : GWK ControlInput :=
  let refused := infrastructure (ws_coordinator st) GteControl in
  if has_events POLLIN (events_if (cf_has_listener cf) revents) then
    let* accepted := see wv_accept in
    match accepted with
    | AcceptWouldBlock => sr_ret NoInput
    | AcceptFailed => sr_fail refused
    | Accepted peer request =>
        if negb (bool_decide (peer = Some (cf_control_uid cf))) then sr_ret WrongPeer
        else match request with
             | Err _ => sr_fail refused
             | Ok e => if authentic_terminate cf e then sr_ret TerminateInput
                       else sr_fail refused
             end
    end
  else sr_ret NoInput.

Definition on_trigger (sc : SystemdPayloadScope) (st : WaitState)
    (trigger : option TerminationCause) : GWK WaitState :=
  match trigger, gc_cause (ws_coordinator st) with
  | Some cause, None =>
      let* started := graceful_begin sc cause (ws_coordinator st) in
      let '(c, observing) := started in
      sr_ret (mkWait c (ws_leader_reaped st) (ws_observing st || observing))
  | _, _ => sr_ret st
  end.

Definition on_deadline (st : WaitState) (revents : Z) : GWK WaitState :=
  let c := ws_coordinator st in
  if has_events POLLIN revents then
    let* expired := consume_deadline (gc_timer_armed c) in
    match expired with
    | Err _ => sr_fail (infrastructure c GteTimer)
    | Ok true => sr_fail (deadline_expired c)
    | Ok false => sr_ret st
    end
  else sr_ret st.

Definition poll_cycle (cf : WorkerConfig) (sc : SystemdPayloadScope) (st : WaitState)
    : GWK WaitState :=
  let* polled := see wv_poll in
  let handle (revents : nat → Z) : GWK WaitState :=
    let* r := on_leader st (revents 0%nat) in
    let '(st, trigger) := r in
    on_observer sc st (revents 5%nat) ;;;
    let* trigger := on_signals st trigger (revents 2%nat) in
    let* trigger := on_channels cf trigger (revents 1%nat) (revents 4%nat) in
    let* input := on_control cf st (revents 1%nat) in
    match input with
    | WrongPeer => sr_ret st
    | _ =>
        let trigger := match input with
                       | TerminateInput => get_or_insert InternalTerminateRequest trigger
                       | _ => trigger
                       end in
        let* st := on_trigger sc st trigger in
        on_deadline st (revents 3%nat)
    end in
  match polled with
  | PollInterrupted => sr_ret st
  | PollFailed => sr_fail (infrastructure (ws_coordinator st) GtePoll)
  | PollTimedOut => handle (λ _, 0)
  | PollReady revents => handle revents
  end.

(** ** The wait *)

Inductive SessionWaitResult := WaitGraceful (outcome : GracefulTerminationOutcome) | WaitRunning.

Fixpoint wait_cycles {E} (cf : WorkerConfig) (sc : SystemdPayloadScope) (cycles : nat)
    (st : WaitState) : WK E SessionWaitResult :=
  match cycles with
  | O => sr_ret WaitRunning
  | S cycles =>
      let* r := attempt (poll_cycle cf sc st) in
      match r with
      | Ok st => wait_cycles cf sc cycles st
      | Err outcome => sr_ret (WaitGraceful outcome)
      end
  end.

(** [wait_for_session_with_grace], with the signal descriptor installed. *)
Definition wait_for_session {E} (cf : WorkerConfig) (sc : SystemdPayloadScope) (cycles : nat)
    : WK E SessionWaitResult :=
  let* timer := see wv_timer_new in
  if negb timer then sr_ret (WaitGraceful (infrastructure graceful_new GteTimer))
  else if cf_pidfd cf <? 0 then
    sr_ret (WaitGraceful (infrastructure graceful_new GteLeaderReap))
  else wait_cycles cf sc cycles (mkWait graceful_new false false).

(** ** What an outcome allows *)

Definition eligibility_after_identity_validation {E} (sc : SystemdPayloadScope)
    (cause : TerminationCause) (leader_exit : option LeaderExit)
    : WK E GracefulFinalizationDecision :=
  let* valid := attempt (validate_forced_termination_eligibility sc) in
  sr_ret (NeedsEscalation
    match valid with
    | Ok _ => Eligible cause leader_exit
    | Err PseUnitReplaced => EscalationRecovery cause leader_exit BoundaryIdentityWasChanged
    | Err error =>
        if unproven_identity error
        then EscalationRecovery cause leader_exit BoundaryIdentityUnproven
        else EscalationInfrastructure cause leader_exit (GteScopeOperation error)
    end).

Definition consume_graceful_outcome {E} (sc : SystemdPayloadScope)
    (outcome : GracefulTerminationOutcome) : WK E GracefulFinalizationDecision :=
  match outcome with
  | BoundaryTerminalCandidate cause (Some exit) =>
      let* proof := attempt (prove_empty_boundary sc exit) in
      match proof with
      | Ok proof => sr_ret (FinalizeCooperative proof)
      | Err PseUnitReplaced =>
          sr_ret (DecisionRecovery cause (Some exit) BoundaryIdentityWasChanged)
      | Err (PseBoundaryNotEmpty | PseUnitNotTerminal) =>
          eligibility_after_identity_validation sc cause (Some exit)
      | Err error =>
          sr_ret (if unproven_identity error
                  then DecisionRecovery cause (Some exit) BoundaryIdentityUnproven
                  else NeedsEscalation (EscalationInfrastructure cause (Some exit)
                                          (GteScopeOperation error)))
      end
  | BoundaryTerminalCandidate cause None =>
      eligibility_after_identity_validation sc cause None
  | DeadlineExpired cause exit => eligibility_after_identity_validation sc cause exit
  | GracefulInfrastructure cause exit error =>
      sr_ret (NeedsEscalation (EscalationInfrastructure cause exit error))
  | GracefulRecovery cause exit reason => sr_ret (DecisionRecovery cause exit reason)
  end.

(** ** The forced coordinator *)

Record ForcedTerminationCoordinator := mkForced {
  fc_cause : TerminationCause;
  fc_leader_exit : option LeaderExit;
  fc_timer_armed : bool;
  fc_kill_attempted : bool;
}.
Definition fc_record_leader_exit (exit : LeaderExit) (c : ForcedTerminationCoordinator)
    : ForcedTerminationCoordinator :=
  match fc_leader_exit c with
  | Some _ => c
  | None => mkForced (fc_cause c) (Some exit) (fc_timer_armed c) (fc_kill_attempted c)
  end.
Definition forced_infrastructure (c : ForcedTerminationCoordinator)
    (stage : ForcedTerminationStage) (error : ForcedTerminationError)
    : ForcedTerminationOutcome :=
  ForcedInfrastructure (fc_cause c) (fc_leader_exit c) stage error.
Definition forced_scope_error (c : ForcedTerminationCoordinator)
    (stage : ForcedTerminationStage) (error : PayloadScopeError) : ForcedTerminationOutcome :=
  if bool_decide (error = PseUnitReplaced)
  then ForcedRecovery (fc_cause c) (fc_leader_exit c) BoundaryIdentityWasChanged
  else if unproven_identity error
  then ForcedRecovery (fc_cause c) (fc_leader_exit c) BoundaryIdentityUnproven
  else forced_infrastructure c stage (FteScopeOperation error).
Definition forced_deadline_expired (c : ForcedTerminationCoordinator)
    : ForcedTerminationOutcome :=
  ForcedDeadlineExpired (fc_cause c) (fc_leader_exit c).
Definition boundary_empty (proof : BoundaryEmptyProof) : ForcedTerminationOutcome :=
  ForcedBoundaryEmpty proof (ep_leader_exit proof).

Abbreviation FWK := (WK ForcedTerminationOutcome).

(** The attempt is recorded before the request crosses the bus. *)
Definition forced_begin (sc : SystemdPayloadScope) (c : ForcedTerminationCoordinator)
    : FWK ForcedTerminationCoordinator :=
  ensure negb (fc_kill_attempted c)
    else forced_infrastructure c StageKill (FteScopeOperation PseInvalidIdentity) ;;;
  sr_map_err (forced_scope_error c StagePreKillValidation)
    (validate_forced_termination_eligibility sc) ;;;
  sr_map_err (forced_scope_error c StageBoundaryObservation) (create_boundary_observer sc) ;;;
  let c := mkForced (fc_cause c) (fc_leader_exit c) (fc_timer_armed c) true in
  sr_map_err (forced_scope_error c StageKill) (request_forced_termination sc) ;;;
  sr_map_err (forced_scope_error c StagePostKillValidation)
    (validate_forced_termination_post_kill sc) ;;;
  let* armed := see wv_timer_arm in
  ensure armed else forced_infrastructure c StageKill FteTimer ;;;
  sr_ret (mkForced (fc_cause c) (fc_leader_exit c) true true).

(** [None] of the code is a success here: the cleanup goes on. *)
Definition try_forced_empty_proof (sc : SystemdPayloadScope) (c : ForcedTerminationCoordinator)
    : FWK () :=
  let* terminal := attempt (boundary_appears_terminal sc) in
  let* may := match terminal with
              | Ok value => sr_ret value
              | Err PseInvocationUnavailable => sr_ret true
              | Err error => sr_fail (forced_scope_error c StageBoundaryObservation error)
              end in
  if negb may then sr_ret ()
  else match fc_leader_exit c with
  | None => sr_ret ()
  | Some exit =>
      let* proof := attempt (prove_empty_boundary sc exit) in
      match proof with
      | Ok proof => sr_fail (boundary_empty proof)
      | Err (PseBoundaryNotEmpty | PseUnitNotTerminal) => sr_ret ()
      | Err error => sr_fail (forced_scope_error c StageEmptyProof error)
      end
  end.

Record ForcedState := mkForcedState {
  fs_coordinator : ForcedTerminationCoordinator;
  fs_leader_reaped : bool;
}.

Definition forced_leader (sc : SystemdPayloadScope) (st : ForcedState) (revents : Z)
    : FWK ForcedState :=
  let c := fs_coordinator st in
  if has_events (Z.lor POLLIN POLLHUP) (events_if (negb (fs_leader_reaped st)) revents)
  then
    let* status := see wv_poll_child in
    match status with
    | Ok (Some status) =>
        let c := fc_record_leader_exit (leader_exit_of status) c in
        sr_modify (set_child NoChild) ;;;
        try_forced_empty_proof sc c ;;; sr_ret (mkForcedState c true)
    | _ => sr_fail (forced_infrastructure c StageLeaderReap FteLeaderReap)
    end
  else sr_ret st.

Definition forced_observer (sc : SystemdPayloadScope) (st : ForcedState) (revents : Z)
    : FWK () :=
  let c := fs_coordinator st in
  if revents =? 0 then sr_ret ()
  else
    sr_map_err (λ _, forced_infrastructure c StageBoundaryObservation FteBoundaryObserver)
      (consume_wakeup (sc_control_group sc)) ;;;
    try_forced_empty_proof sc c.

(** Signals, requests and disconnections only count as refused or ignored. *)
Definition forced_inputs (cf : WorkerConfig) (st : ForcedState) (signals control : Z)
    : FWK () :=
  let refused := forced_infrastructure (fs_coordinator st) StageBoundaryObservation in
  (if has_events POLLIN signals then
     let* reads := see wv_signals in
     match drain_signals reads None with
     | Some _ => sr_ret ()
     | None => sr_fail (refused FteSignal)
     end
   else sr_ret ()) ;;;
  if has_events POLLIN (events_if (cf_has_listener cf) control) then
    let* accepted := see wv_accept in
    match accepted with
    | AcceptWouldBlock => sr_ret ()
    | AcceptFailed => sr_fail (refused FteControl)
    | Accepted peer request =>
        if negb (bool_decide (peer = Some (cf_control_uid cf))) then sr_ret ()
        else match request with
             | Err _ => sr_fail (refused FteControl)
             | Ok e => ensure authentic_terminate cf e else refused FteControl
             end
    end
  else sr_ret ().

Definition forced_deadline (sc : SystemdPayloadScope) (st : ForcedState) (revents : Z)
    : FWK () :=
  let c := fs_coordinator st in
  if has_events POLLIN revents then
    let* expired := consume_deadline (fc_timer_armed c) in
    match expired with
    | Err _ => sr_fail (forced_infrastructure c StageBoundaryObservation FteTimer)
    | Ok false => sr_ret ()
    | Ok true => try_forced_empty_proof sc c ;;; sr_fail (forced_deadline_expired c)
    end
  else sr_ret ().

Definition forced_poll_cycle (cf : WorkerConfig) (sc : SystemdPayloadScope) (st : ForcedState)
    : FWK ForcedState :=
  let* polled := see wv_poll in
  let handle (revents : nat → Z) : FWK ForcedState :=
    let* st := forced_leader sc st (revents 0%nat) in
    forced_observer sc st (revents 1%nat) ;;;
    forced_inputs cf st (revents 2%nat) (revents 3%nat) ;;;
    forced_deadline sc st (revents 5%nat) ;;;
    sr_ret st in
  match polled with
  | PollInterrupted => sr_ret st
  | PollFailed =>
      sr_fail (forced_infrastructure (fs_coordinator st) StageBoundaryObservation FtePoll)
  | PollTimedOut => handle (λ _, 0)
  | PollReady revents => handle revents
  end.

(** [None]: the cleanup is still under way after these cycles. *)
Fixpoint forced_cycles {E} (cf : WorkerConfig) (sc : SystemdPayloadScope) (cycles : nat)
    (st : ForcedState) : WK E (option ForcedTerminationOutcome) :=
  match cycles with
  | O => sr_ret None
  | S cycles =>
      let* r := attempt (forced_poll_cycle cf sc st) in
      match r with
      | Ok st => forced_cycles cf sc cycles st
      | Err outcome => sr_ret (Some outcome)
      end
  end.

Definition wait_for_forced_cleanup {E} (cf : WorkerConfig) (sc : SystemdPayloadScope)
    (cycles : nat) (cause : TerminationCause) (leader_exit : option LeaderExit)
    : WK E (option ForcedTerminationOutcome) :=
  let* timer := see wv_timer_new in
  let c := mkForced cause leader_exit false false in
  if negb timer then
    sr_ret (Some (ForcedInfrastructure RuntimeFailure None StageEligibility FteTimer))
  else if bool_decide (leader_exit = None) && (cf_pidfd cf <? 0) then
    sr_ret (Some (forced_infrastructure c StageEligibility FteLeaderReap))
  else
    let* begun := attempt (
      let* c := forced_begin sc c in
      try_forced_empty_proof sc c ;;; sr_ret c) in
    match begun with
    | Err outcome => sr_ret (Some outcome)
    | Ok c => forced_cycles cf sc cycles
                (mkForcedState c (negb (bool_decide (leader_exit = None))))
    end.

(** ** The supervisor channel *)

Definition supervisor_channel_is_closed {E} (cf : WorkerConfig) : WK E bool := λ w,
  if wk_disconnected w then (w, Ok true)
  else if cf_supervisor_fd cf <? 0 then (w, Ok true)
  else see (λ v, has_events BROKEN (wv_channel_events v)) w.

Definition duplicate_supervisor_channel (cf : WorkerConfig) : WK SessionError () :=
  ensure negb (cf_supervisor_fd cf <? 0) else WorkerProtocolFailed ;;;
  let* duplicated := see wv_dup_channel in
  ensure duplicated else WorkerIoFailed.

Definition write_control_request (request : WorkerControlRequest) : WK SessionError () :=
  let* written := perform (ActControl request) wv_control_write in sr_lift written.
Definition read_control_request : WK SessionError WorkerControlEnvelope :=
  let* request := see wv_control_read in sr_lift request.

(** The attempt id of an acknowledgement of the intent, if it is this one's. *)
Definition intent_acknowledged (cf : WorkerConfig) (nonce : string)
    (e : WorkerControlEnvelope) : option Z :=
  match wc_message e with
  | WcTerminalVtCleanupIntentAcknowledged id pid n attempt_id =>
      if (wc_version e =? WORKER_CONTROL_PROTOCOL_VERSION) && str_eqb id (cf_worker_id cf)
         && (pid =? cf_process_id cf) && str_eqb n nonce
      then Some attempt_id else None
  | _ => None
  end.
Definition result_acknowledged (cf : WorkerConfig) (nonce : string) (attempt_id : Z)
    (e : WorkerControlEnvelope) : bool :=
  match wc_message e with
  | WcTerminalVtCleanupResultAcknowledged id pid n acknowledged =>
      (wc_version e =? WORKER_CONTROL_PROTOCOL_VERSION) && str_eqb id (cf_worker_id cf)
      && (pid =? cf_process_id cf) && str_eqb n nonce && (acknowledged =? attempt_id)
  | _ => false
  end.

Definition begin_terminal_vt_cleanup (cf : WorkerConfig) (nonce : string)
    (identity : PayloadScopeIdentity) : WK SessionError Z :=
  duplicate_supervisor_channel cf ;;;
  write_control_request
    (WcTerminalVtCleanupIntent (cf_worker_id cf) (cf_process_id cf) nonce identity) ;;;
  let* timeout := see wv_read_timeout in
  ensure timeout else WorkerIoFailed ;;;
  let* e := read_control_request in
  sr_lift (ok_or (intent_acknowledged cf nonce e) WorkerProtocolFailed).

Definition complete_terminal_vt_cleanup (cf : WorkerConfig) (nonce : string) (attempt_id : Z)
    (outcome : TerminalVtCleanupResult) : WK SessionError () :=
  write_control_request
    (WcTerminalVtCleanupResult (cf_worker_id cf) (cf_process_id cf) nonce attempt_id
       outcome) ;;;
  let* e := read_control_request in
  ensure result_acknowledged cf nonce attempt_id e else WorkerProtocolFailed.

(** ** Finalization *)

Inductive TerminalReportExpectation := ReportRequired | ReportUnavailable.

Definition terminal_local_finalization_result (proof : BoundaryEmptyProof) (forced : bool)
    : result () SessionError :=
  match ep_leader_exit proof with
  | ExitedZero => Ok ()
  | KilledBySignal signal => if forced && (signal =? SIGKILL) then Ok ()
                             else Err AuthenticatedSessionFailed
  | _ => Err AuthenticatedSessionFailed
  end.

Definition finalize_terminal_after_supervisor_disconnect (proof : BoundaryEmptyProof)
    (forced : bool) : WK SessionError () :=
  sr_map_err (λ _, AuthenticatedSessionFailed) release_terminal ;;;
  sr_lift (terminal_local_finalization_result proof forced).

(** The terminal, once the supervisor acknowledged the intent. *)
Definition release_and_report (cf : WorkerConfig) (nonce : string) (attempt_id : Z)
    (proof : BoundaryEmptyProof) (forced : bool) : WK SessionError () :=
  let* released := attempt release_terminal in
  match released with
  | Ok _ =>
      let* reported := attempt (complete_terminal_vt_cleanup cf nonce attempt_id TvReleased) in
      match reported with
      | Ok _ => sr_lift (terminal_local_finalization_result proof forced)
      | Err error =>
          let* closed := supervisor_channel_is_closed cf in
          if closed : bool then sr_lift (terminal_local_finalization_result proof forced)
          else sr_fail error
      end
  | Err (CleanupOperationFailed stage errno) =>
      if str_eqb stage "disallocate" && (errno =? WK_EBUSY)
      then complete_terminal_vt_cleanup cf nonce attempt_id TvVtDisallocateBusy
      else sr_fail AuthenticatedSessionFailed
  | Err _ => sr_fail AuthenticatedSessionFailed
  end.

(** From the closed PAM session on. *)
Definition release_stage (cf : WorkerConfig) (sc : SystemdPayloadScope) (nonce : string)
    (expectation : TerminalReportExpectation) (forced : bool) (proof : BoundaryEmptyProof)
    : WK SessionError () :=
  let* disconnected := match expectation with
                       | ReportUnavailable => sr_ret true
                       | ReportRequired => supervisor_channel_is_closed cf
                       end in
  if disconnected : bool then finalize_terminal_after_supervisor_disconnect proof forced
  else
    let* begun := attempt (begin_terminal_vt_cleanup cf nonce (sc_identity sc)) in
    match begun with
    | Ok attempt_id => release_and_report cf nonce attempt_id proof forced
    | Err error =>
        let* closed := supervisor_channel_is_closed cf in
        if closed : bool
        then finalize_terminal_after_supervisor_disconnect proof forced
        else sr_fail error
    end.

(** [finalize_session_after_empty_proof_with_vt_report]; the transaction is
    dropped whether or not PAM closed the session. *)
Definition finalize_session (cf : WorkerConfig) (sc : SystemdPayloadScope) (nonce : string)
    (expectation : TerminalReportExpectation) (forced : bool) (proof : BoundaryEmptyProof)
    : WK SessionError () :=
  attempt (release_pin sc) ;;;
  let* closed := attempt close_session in
  drop_transaction ;;;
  match closed with
  | Err _ => sr_fail AuthenticatedSessionFailed
  | Ok _ => release_stage cf sc nonce expectation forced proof
  end.

(** ** From [Started] to the end *)

(** How the worker stops going on: it returns an error, it keeps everything it
    owns and waits for recovery, or the session is still running. *)
Inductive Halt := HaltError (error : SessionError) | HaltHeld | HaltRunning.

Definition report_expectation (outcome : GracefulTerminationOutcome)
    : TerminalReportExpectation :=
  match outcome with
  | BoundaryTerminalCandidate SupervisorDisconnected _ => ReportUnavailable
  | _ => ReportRequired
  end.

Definition escalate (cf : WorkerConfig) (sc : SystemdPayloadScope) (nonce : string)
    (cycles : nat) (cause : TerminationCause) (exit : option LeaderExit) : WK Halt () :=
  let* forced := wait_for_forced_cleanup cf sc cycles cause exit in
  match forced with
  | None => sr_fail HaltRunning
  | Some (ForcedBoundaryEmpty proof _) =>
      sr_map_err HaltError (finalize_session cf sc nonce ReportRequired true proof)
  | Some _ => sr_fail HaltHeld
  end.

(** [opened_running.rs], after the session was announced. *)
Definition run_session (cf : WorkerConfig) (sc : SystemdPayloadScope) (nonce : string)
    (cycles : nat) : WK Halt () :=
  let* waited := wait_for_session cf sc cycles in
  match waited with
  | WaitRunning => sr_fail HaltRunning
  | WaitGraceful outcome =>
      let* decision := consume_graceful_outcome sc outcome in
      match decision with
      | FinalizeCooperative proof =>
          sr_map_err HaltError
            (finalize_session cf sc nonce (report_expectation outcome) false proof)
      | NeedsEscalation (Eligible cause exit) => escalate cf sc nonce cycles cause exit
      | _ => sr_fail HaltHeld
      end
  end.
