(* ===== verification/WorkerTerminationSafety.v ===== *)
(** * How a worker ends a session: signals, proofs and order

    A session gets at most one SIGTERM and then at most one SIGKILL, each sent
    only while the worker and the launcher are outside the boundary; the first
    cause stays the cause; nothing is given back without a proof that the
    payload is gone; PAM is closed before the terminal is touched.  Also how a
    stranger on the control socket keeps a session from ending. *)

From stdpp Require Import base gmap sets list strings pretty.
From Stdlib Require Import ZArith Lia.
From S2P Require Import Prelude Text Ledger Admission Protocol WorkerRecord.
From S2P Require Import Supervisor Launch.
From S2P Require Import CgroupState HostWorld WorkerWorld WorkerScope.
From S2P Require Import WorkerHistory.
From S2P Require Import WorkerScopeSafety WorkerResources WorkerTermination.
#[local] Open Scope niralis_scope.

Create HintDb signals.

(** ** Signals in the log *)

Definition is_kill (a : WorkerAct) : bool :=
  match a with ActUnit (CallKill _) _ => true | _ => false end.
Definition kill_of (e : nat * WorkerAct) : option (nat * Z * string) :=
  match e.2 with ActUnit (CallKill s) p => Some (e.1, s, p) | _ => None end.
Definition kills (w : Worker) : list (nat * Z * string) := omap kill_of (wk_log w).
Definition no_kill (a : WorkerAct) : Prop := is_kill a = false.

(** What the worker owns. *)
Definition owned (w : Worker) : bool * option NativePamTransaction * option VirtualTerminalGuard :=
  (wk_reference_held w, wk_pam w, wk_terminal w).
(** The worker still owns all it owned and sent nothing but signals. *)
Definition kept (w w' : Worker) : Prop :=
  did (λ a, is_kill a = true) w w' ∧ owned w' = owned w.

#[export] Instance kept_preorder : PreOrder kept.
Proof.
  split; [done|]. intros w1 w2 w3 [D1 O1] [D2 O2]. split; [by etrans|congruence].
Qed.
Lemma asked_kept w w' : asked w w' → kept w w'.
Proof. intros H. split; [by apply asked_did|]. by destruct H as [n ->]. Qed.

Lemma kills_app l l' : omap kill_of (l ++ l') = omap kill_of l ++ omap kill_of l'.
Proof. apply omap_app. Qed.
Lemma no_kill_kills l : Forall (λ e : nat * WorkerAct, no_kill e.2) l → omap kill_of l = [].
Proof.
  induction 1 as [|[t a] l Ha Hl IH]; [done|]. cbn. rewrite IH.
  destruct a as [call path|?|?|?|?|?|?| | | | |]; try done. by destruct call.
Qed.

Section Signals.
Context (sc : SystemdPayloadScope) (w0 : Worker).

(** When the signal was sent to the pinned unit, the two outsiders had been
    seen outside its control group and the invocation had resolved to it. *)
Definition guarded (e : nat * Z * string) : Prop :=
  let '(t, _, path) := e in
  let before φ := ∃ u, (wk_time w0 ≤ u < t)%nat ∧ φ (wk_view w0 u) in
  path = sc_object_path sc ∧
  before (stands_outside (sc_control_group sc) (sc_worker_pid sc)) ∧
  before (stands_outside (sc_control_group sc) (sc_launcher_pid sc)) ∧
  before (resolves_to (sc_invocation_id sc) (sc_object_path sc)).

(** Since [w0] the signals [l] were sent, each guarded. *)
Definition signalled (l : list Z) (w : Worker) : Prop :=
  kept w0 w ∧ ∃ es, kills w = kills w0 ++ es ∧ (λ e, e.1.2) <$> es = l ∧ Forall guarded es.

Lemma signalled_asked l : lasting (signalled l).
Proof.
  intros w w' H (K0 & es & K & Hl & G).
  split; [etrans; [exact K0|by apply asked_kept]|]. exists es. split_and!; [|done..].
  destruct H as [n ->]. exact K.
Qed.
Lemma signalled_time l w : signalled l w → (wk_time w0 ≤ wk_time w)%nat.
Proof. by intros [[(_ & ? & _) _] _]. Qed.
Lemma signalled_refl : signalled [] w0.
Proof. split; [done|]. exists []. by rewrite app_nil_r. Qed.

Definition seen_outside (w : Worker) : Prop :=
  seen (wk_time w0) (stands_outside (sc_control_group sc) (sc_worker_pid sc)) w ∧
  seen (wk_time w0) (stands_outside (sc_control_group sc) (sc_launcher_pid sc)) w.
Definition seen_pinned (w : Worker) : Prop :=
  seen (wk_time w0) (resolves_to (sc_invocation_id sc) (sc_object_path sc)) w.

Lemma seen_outside_asked : lasting seen_outside.
Proof. intros w w' H [? ?]. split; by eapply seen_asked. Qed.
Lemma seen_pinned_asked : lasting seen_pinned.
Proof. intros w w' H ?. by eapply seen_asked. Qed.
Lemma lasting_and P Q : lasting P → lasting Q → lasting (λ w, P w ∧ Q w).
Proof. intros HP HQ w w' H [? ?]. split; eauto. Qed.

Lemma outsiders_spec l :
  spec (signalled l) (outsiders sc) (λ _ w, signalled l w ∧ seen_outside w)
    (λ _, signalled l).
Proof.
  intros w Hw. pose proof (outsiders_asked sc w) as Ha.
  destruct (outsiders sc w) as [w' [u|e]] eqn:H; cbn in Ha.
  - split; [by eapply signalled_asked|]. apply outsiders_ok in H as [H1 H2].
    pose proof (signalled_time _ _ Hw).
    split; eapply during_seen; eauto using asked_view.
  - by eapply signalled_asked.
Qed.
Lemma resolve_pinned_spec l :
  spec (λ w, signalled l w ∧ seen_outside w) (resolve_pinned sc)
    (λ _ w, (signalled l w ∧ seen_outside w) ∧ seen_pinned w) (λ _, signalled l).
Proof.
  intros w [Hw Ho]. pose proof (resolve_pinned_asked sc w) as Ha.
  destruct (resolve_pinned sc w) as [w' [u|e]] eqn:H; cbn in Ha.
  - split; [split; [by eapply signalled_asked|by eapply seen_outside_asked]|].
    apply resolve_pinned_ok in H. pose proof (signalled_time _ _ Hw).
    eapply during_seen; eauto using asked_view.
  - by eapply signalled_asked.
Qed.

(** The signal itself: whatever systemd answers, it was sent at most once. *)
Lemma kill_spec l signal :
  spec (λ w, (signalled l w ∧ seen_outside w) ∧ seen_pinned w)
    (call_unit (CallKill signal) (sc_object_path sc))
    (λ _, signalled (l ++ [signal]))
    (λ _ w, signalled l w ∨ signalled (l ++ [signal]) w).
Proof.
  set (ready := λ w, (signalled l w ∧ seen_outside w) ∧ seen_pinned w).
  unfold call_unit. apply (spec_bind _ _ _ (λ _, ready)).
  { apply (spec_weaken _ _ ready _ (λ _, ready) _ (λ _, ready)); [|done..|].
    - apply spec_asked; [apply proxy_asked|].
      apply lasting_and; [apply lasting_and|]; auto using signalled_asked,
        seen_outside_asked, seen_pinned_asked.
    - intros e w [[H _] _]. by left. }
  intros _. apply (spec_bind _ _ _ (λ _, signalled (l ++ [signal]))).
  - apply spec_perform.
    intros w [[([D O] & es & K & Hl & G) [H1 H2]] H3].
    pose proof (did_view _ _ _ D) as V. split.
    { split; [|done]. etrans; [exact D|by apply did_record]. }
    exists (es ++ [(wk_time w, signal, sc_object_path sc)]). unfold kills in *. cbn.
    rewrite kills_app, K, (assoc_L app), fmap_app, Hl. split_and!; [done..|].
    apply Forall_app. split; [done|]. repeat constructor.
    all: rewrite <- V; done.
  - intros [e|]; cbn; [apply spec_fail|apply spec_ret]; auto.
Qed.

Definition ready (l : list Z) (w : Worker) : Prop :=
  (signalled l w ∧ seen_outside w) ∧ seen_pinned w.
Lemma ready_asked l : lasting (ready l).
Proof.
  apply lasting_and; [apply lasting_and|]; auto using signalled_asked, seen_outside_asked,
    seen_pinned_asked.
Qed.
(** The signal was sent or not. *)
Definition maybe (l : list Z) (signal : Z) (w : Worker) : Prop :=
  signalled l w ∨ signalled (l ++ [signal]) w.
Lemma ready_maybe l signal w : ready l w → maybe l signal w.
Proof. intros [[? _] _]. by left. Qed.
Lemma maybe_asked l signal : lasting (maybe l signal).
Proof. intros w w' H [?|?]; [left|right]; by eapply signalled_asked. Qed.
Lemma signalled_maybe l signal w : signalled l w → maybe l signal w.
Proof. by left. Qed.
Lemma signalled_sent l signal w : signalled (l ++ [signal]) w → maybe l signal w.
Proof. by right. Qed.
Lemma signalled_first signal w : signalled [signal] w → maybe [] signal w.
Proof. by right. Qed.
Hint Resolve signalled_asked ready_asked maybe_asked ready_maybe signalled_maybe
  signalled_sent signalled_first : signals.

(** Go past a step that only asks. *)
Ltac ask := first
  [ apply spec_see_step; [solve [eauto with signals]|intros ?]
  | apply spec_ensure_step; [solve [intros; cbn; eauto with signals]|intros ?]
  | apply spec_map_step; [solve [asked_auto]|solve [eauto with signals]
      |solve [intros; cbn; eauto with signals]|intros ?]
  | apply spec_step; [solve [asked_auto]|solve [eauto with signals]
      |solve [intros; cbn; eauto with signals]|intros ?] ].

Lemma graceful_request_spec l :
  spec (signalled l) (request_graceful_termination sc) (λ _, signalled (l ++ [SIGTERM]))
    (λ _, maybe l SIGTERM).
Proof.
  unfold request_graceful_termination, request_graceful_termination_invocation.
  apply spec_bind with (λ _ w, signalled l w ∧ seen_outside w).
  { eapply spec_weaken; [apply (outsiders_spec l)|done..|]. eauto with signals. }
  intros _. assert (lasting (λ w, signalled l w ∧ seen_outside w))
    by (apply lasting_and; auto using signalled_asked, seen_outside_asked).
  apply spec_step; [asked_auto|done|intros ? ? [? ?]; by left|intros held].
  apply spec_step; [asked_auto|done|intros ? ? [? ?]; by left|intros _].
  apply spec_bind with (λ _, ready l).
  { eapply spec_weaken; [apply (resolve_pinned_spec l)|done..|]. eauto with signals. }
  intros _. do 3 ask. apply spec_bind with (λ _, signalled (l ++ [SIGTERM])).
  { unfold provided. apply spec_map_err, kill_spec. }
  intros _. apply spec_step; [asked_auto|apply signalled_asked|by right|intros p].
  eapply spec_weaken; [apply (spec_asked _ (signalled (l ++ [SIGTERM])))|..]; auto with signals.
  apply validate_transition_asked.
Qed.

Lemma forced_request_spec l :
  spec (signalled l) (request_forced_termination sc) (λ _, signalled (l ++ [SIGKILL]))
    (λ _, maybe l SIGKILL).
Proof.
  unfold request_forced_termination, validate_forced_termination_eligibility,
    request_forced_signal_invocation, validate_forced_invocation_eligibility.
  apply spec_bind with (λ _, ready l).
  - do 2 ask. apply spec_bind with (λ _ w, signalled l w ∧ seen_outside w).
    { eapply spec_weaken; [apply (outsiders_spec l)|done..|]. eauto with signals. }
    intros _. apply spec_bind with (λ _, ready l).
    { eapply spec_weaken; [apply (resolve_pinned_spec l)|done..|]. eauto with signals. }
    intros _. ask.
    eapply spec_weaken; [apply (spec_asked _ (ready l))|..]; auto with signals.
    apply validate_pinned_asked.
  - intros _. apply spec_bind with (λ _, ready l).
    + eapply spec_weaken; [apply (spec_asked _ (ready l))|..]; auto with signals.
      asked_auto.
    + intros _. unfold provided. apply spec_map_err, kill_spec.
Qed.

(** *** The graceful wait *)

Definition so_far (st : WaitState) : list Z :=
  match gc_cause (ws_coordinator st) with None => [] | Some _ => [SIGTERM] end.
Definition coherent (st : WaitState) : Prop :=
  let c := ws_coordinator st in
  match gc_cause c with
  | None => gc_requested c = false ∧ gc_timer_armed c = false ∧ ws_observing st = false
  | Some _ => gc_requested c = true ∧ gc_timer_armed c = true
  end.

(** The leader was reaped with this exit. *)
Definition reaped (exit : LeaderExit) (v : WorkerView) : Prop :=
  ∃ status, wv_poll_child v = Ok (Some status) ∧ leader_exit_of status = exit.
(** Where an exit is named, the leader was reaped with it. *)
Definition known (exit : option LeaderExit) (w : Worker) : Prop :=
  ∀ e, exit = Some e → seen (wk_time w0) (reaped e) w.
Lemma known_did K exit w w' : did K w w' → known exit w → known exit w'.
Proof. intros H Hk e He. eapply seen_did; [exact H|]. by apply Hk. Qed.
Lemma known_asked exit : lasting (known exit).
Proof. intros w w' H. by apply (known_did anything), asked_did. Qed.

Definition waiting (st : WaitState) (w : Worker) : Prop :=
  coherent st ∧ signalled (so_far st) w ∧ known (gc_leader_exit (ws_coordinator st)) w.

Definition outcome_exit (o : GracefulTerminationOutcome) : option LeaderExit :=
  match o with
  | BoundaryTerminalCandidate _ e | DeadlineExpired _ e | GracefulInfrastructure _ e _
  | GracefulRecovery _ e _ => e
  end.
(** Escalation is only possible after the SIGTERM. *)
Definition wait_ended (o : GracefulTerminationOutcome) (w : Worker) : Prop :=
  match o with
  | BoundaryTerminalCandidate _ _ | DeadlineExpired _ _ => signalled [SIGTERM] w
  | _ => maybe [] SIGTERM w
  end ∧ known (outcome_exit o) w.

Lemma waiting_asked st : lasting (waiting st).
Proof.
  intros w w' H (? & ? & ?).
  split_and!; [done|by eapply signalled_asked|by eapply known_asked].
Qed.
Lemma waiting_maybe st w : waiting st w → maybe [] SIGTERM w.
Proof. intros (_ & H & _). unfold so_far in H. case_match; [by right|by left]. Qed.
Lemma infrastructure_ended c error w :
  maybe [] SIGTERM w → known (gc_leader_exit c) w → wait_ended (infrastructure c error) w.
Proof. by split. Qed.
Lemma waiting_infrastructure st error w :
  waiting st w → wait_ended (infrastructure (ws_coordinator st) error) w.
Proof. intros H. apply infrastructure_ended; [by eapply waiting_maybe|apply H]. Qed.
Lemma scope_error_ended c error w :
  maybe [] SIGTERM w → known (gc_leader_exit c) w → wait_ended (scope_error c error) w.
Proof. unfold scope_error. by case_bool_decide. Qed.
Lemma waiting_scope_error st error w :
  waiting st w → wait_ended (scope_error (ws_coordinator st) error) w.
Proof. intros H. apply scope_error_ended; [by eapply waiting_maybe|apply H]. Qed.
Hint Resolve waiting_asked waiting_maybe waiting_infrastructure waiting_scope_error
  infrastructure_ended scope_error_ended : signals.

(** After the SIGTERM, with the observer or the timer of that request. *)
Lemma waiting_begun st w :
  waiting st w → ws_observing st = true ∨ gc_timer_armed (ws_coordinator st) = true →
  signalled [SIGTERM] w ∧ known (gc_leader_exit (ws_coordinator st)) w.
Proof.
  intros (Hc & Hs & Hk) Hor. split; [|done]. unfold coherent, so_far in *.
  destruct (gc_cause (ws_coordinator st)); [done|]. destruct Hc as (_ & Ht & Ho).
  destruct Hor; congruence.
Qed.

Lemma record_exit_waiting exit st w observing reaped_now :
  observing = ws_observing st → seen (wk_time w0) (reaped exit) w → waiting st w →
  waiting (mkWait (gc_record_leader_exit exit (ws_coordinator st)) reaped_now observing) w.
Proof.
  intros -> Hr (Hc & Hs & Hk). unfold waiting, coherent, so_far, gc_record_leader_exit in *.
  destruct (gc_leader_exit (ws_coordinator st)) as [e0|] eqn:He; cbn.
  - split_and!; [done..|]. by rewrite He.
  - split_and!; [done..|]. by intros e [= <-].
Qed.

Lemma waiting_child st child w : waiting st w → waiting st (set_child child w).
Proof. done. Qed.
Lemma on_leader_spec st revents :
  spec (waiting st) (on_leader st revents) (λ r, waiting r.1) wait_ended.
Proof.
  unfold on_leader. cbn zeta. case_match; [|by apply spec_ret].
  intros w Hw. unfold sr_bind, see.
  assert (waiting st (wk_tick w)) as Hw' by (eapply waiting_asked; [apply asked_tick|done]).
  destruct (wv_poll_child _) as [[status|]|] eqn:Hp; cbn; [|done|by apply waiting_infrastructure].
  apply record_exit_waiting; [done| |done]. exists (wk_time w). cbn. split.
  - destruct Hw as (_ & Hs & _). apply signalled_time in Hs. lia.
  - by exists status.
Qed.

Lemma on_observer_spec st revents :
  spec (waiting st) (on_observer sc st revents) (λ _, waiting st) wait_ended.
Proof.
  unfold on_observer. cbn zeta. case_match eqn:Hr; [by apply spec_ret|].
  assert (ws_observing st = true) as Ho by (by destruct (ws_observing st)).
  do 2 ask. destruct a0; [apply spec_fail|by apply spec_ret].
  intros w Hw. apply waiting_begun in Hw; [done|by left].
Qed.

Lemma on_signals_spec st trigger revents :
  spec (waiting st) (on_signals st trigger revents) (λ _, waiting st) wait_ended.
Proof.
  unfold on_signals. case_match; [|by apply spec_ret]. ask.
  apply spec_lift; [done|]. intros w e Hw. destruct (drain_signals a trigger); [done|].
  intros [= <-]. cbn. eauto with signals.
Qed.

Lemma waiting_disconnected st w : waiting st w → waiting st (set_disconnected w).
Proof. done. Qed.
Lemma on_channels_spec cf st trigger control supervisor :
  spec (waiting st) (on_channels cf trigger control supervisor) (λ _, waiting st) wait_ended.
Proof.
  unfold on_channels. cbn zeta. case_match; [|by apply spec_ret].
  apply spec_bind with (λ _, waiting st); [|intros _; by apply spec_ret].
  apply spec_modify, waiting_disconnected.
Qed.

Lemma on_control_spec cf st revents :
  spec (waiting st) (on_control cf st revents) (λ _, waiting st) wait_ended.
Proof.
  unfold on_control. cbn zeta. case_match; [|by apply spec_ret]. ask.
  repeat case_match; (apply spec_ret || apply spec_fail); cbn; eauto with signals.
Qed.

(** The request of a graceful end, from a coordinator without a cause. *)
Definition idle (exit : option LeaderExit) (w : Worker) : Prop :=
  signalled [] w ∧ known exit w.
Definition begun (exit : option LeaderExit) (w : Worker) : Prop :=
  signalled [SIGTERM] w ∧ known exit w.
Lemma idle_asked exit : lasting (idle exit).
Proof. apply lasting_and; auto using signalled_asked, known_asked. Qed.
Lemma begun_asked exit : lasting (begun exit).
Proof. apply lasting_and; auto using signalled_asked, known_asked. Qed.
Lemma idle_ended c error w : idle (gc_leader_exit c) w → wait_ended (scope_error c error) w.
Proof. intros [? ?]. eauto with signals. Qed.
Lemma begun_ended c error w : begun (gc_leader_exit c) w → wait_ended (infrastructure c error) w.
Proof. intros [? ?]. eauto with signals. Qed.
Hint Resolve idle_asked begun_asked idle_ended begun_ended : signals.

Lemma graceful_request_did : sr_keeps (did anything) (request_graceful_termination sc).
Proof.
  unfold request_graceful_termination, request_graceful_termination_invocation.
  did_auto anything.
Qed.
Lemma graceful_begin_spec cause c :
  gc_requested c = false →
  spec (idle (gc_leader_exit c)) (graceful_begin sc cause c)
    (λ r w, begun (gc_leader_exit c) w ∧ r = (mkGraceful (Some cause) (gc_leader_exit c) true true, true))
    wait_ended.
Proof.
  intros Hr. unfold graceful_begin. rewrite Hr. set (c' := mkGraceful _ _ _ _).
  change (gc_leader_exit c) with (gc_leader_exit c'). cbv zeta.
  apply spec_map_step; [asked_auto|eauto with signals..|intros _].
  apply spec_bind with (λ _, begun (gc_leader_exit c')).
  - apply spec_map_err.
    assert (spec (known (gc_leader_exit c')) (request_graceful_termination sc)
              (λ _, known (gc_leader_exit c')) (λ _, known (gc_leader_exit c'))) as Hk.
    { apply (spec_keeps (did anything)); [apply graceful_request_did|].
      intros s s' ? ?. by eapply known_did. }
    eapply spec_weaken; [exact (spec_conj _ _ _ _ _ _ _ (graceful_request_spec []) Hk)|done..|].
    intros e w [? ?]. by apply scope_error_ended.
  - intros _. do 2 ask. by apply spec_ret.
Qed.

Lemma on_trigger_spec st trigger :
  spec (waiting st) (on_trigger sc st trigger) waiting wait_ended.
Proof.
  unfold on_trigger. destruct trigger as [cause|]; [|by apply spec_ret].
  destruct (gc_cause (ws_coordinator st)) eqn:Hn; [by apply spec_ret|].
  intros w (Hc & Hs & Hk). unfold coherent, so_far in Hc, Hs. rewrite Hn in Hc, Hs.
  revert w Hs Hk. destruct Hc as (Hr & Ha & Ho).
  enough (spec (idle (gc_leader_exit (ws_coordinator st))) (
    let* started := graceful_begin sc cause (ws_coordinator st) in
    let '(c, observing) := started in
    sr_ret (mkWait c (ws_leader_reaped st) (ws_observing st || observing)))
    waiting wait_ended) as Hgoal by (intros w Hs Hk; exact (Hgoal w (conj Hs Hk))).
  eapply spec_bind; [by apply graceful_begin_spec|]. intros [c observing] w [[Hs Hk] [= -> ->]].
  by split_and!.
Qed.

(** The timer is only armed with the SIGTERM, so a deadline comes after it. *)
Lemma on_deadline_spec st revents :
  spec (waiting st) (on_deadline st revents) waiting wait_ended.
Proof.
  unfold on_deadline. cbn zeta. case_match; [|by apply spec_ret].
  unfold consume_deadline. destruct (gc_timer_armed (ws_coordinator st)) eqn:Ha.
  - ask. destruct a as [[]|[]]; [apply spec_fail|by apply spec_ret|apply spec_fail].
    + intros w Hw. apply waiting_begun in Hw; [done|by right].
    + cbn. eauto with signals.
  - apply spec_bind with (λ r w, r = Ok false ∧ waiting st w); [by apply spec_ret|].
    intros r w [-> Hw]. done.
Qed.

Lemma poll_cycle_spec cf st :
  spec (waiting st) (poll_cycle cf sc st) waiting wait_ended.
Proof.
  unfold poll_cycle. ask. cbn zeta.
  assert (∀ revents : nat → Z, spec (waiting st) (
    let* r := on_leader st (revents 0%nat) in
    let '(st, trigger) := r in
    on_observer sc st (revents 5%nat) ;;;
    let* trigger := on_signals st trigger (revents 2%nat) in
    let* trigger := on_channels cf trigger (revents 1%nat) (revents 4%nat) in
    let* input := on_control cf st (revents 1%nat) in
    match input with
    | WrongPeer => sr_ret st
    | _ =>
        let trigger := match input with
                       | TerminateInput => get_or_insert InternalTerminateRequest trigger
                       | _ => trigger
                       end in
        let* st := on_trigger sc st trigger in
        on_deadline st (revents 3%nat)
    end) waiting wait_ended) as Hhandle.
  { intros revents. eapply spec_bind; [apply on_leader_spec|]. intros [st1 trigger1].
    eapply spec_bind; [apply on_observer_spec|intros ?].
    eapply spec_bind; [apply on_signals_spec|intros trigger2].
    eapply spec_bind; [apply on_channels_spec|intros trigger3].
    eapply spec_bind; [apply on_control_spec|intros input].
    destruct input; [|by apply spec_ret|]; cbn zeta;
      (eapply spec_bind; [apply on_trigger_spec|intros st2; apply on_deadline_spec]). }
  destruct a; [apply (Hhandle (λ _, 0))|by apply spec_ret|apply spec_fail|apply Hhandle].
  cbn. eauto with signals.
Qed.

Definition wait_result (r : SessionWaitResult) (w : Worker) : Prop :=
  match r with WaitGraceful o => wait_ended o w | WaitRunning => maybe [] SIGTERM w end.
Lemma wait_cycles_spec {E} cf cycles st :
  spec (waiting st) (wait_cycles (E:=E) cf sc cycles st) wait_result (λ _ _, False).
Proof.
  revert st. induction cycles as [|cycles IH]; intros st; cbn.
  { apply spec_ret. cbn. eauto with signals. }
  apply spec_bind with (λ r w, match r with Ok st => waiting st w | Err o => wait_ended o w end).
  { eapply spec_attempt; [apply poll_cycle_spec|done..]. }
  intros [st1|o]; [apply IH|by apply spec_ret].
Qed.
Lemma wait_for_session_spec {E} cf cycles :
  spec (signalled []) (wait_for_session (E:=E) cf sc cycles) wait_result (λ _ _, False).
Proof.
  unfold wait_for_session. ask.
  destruct (negb a); [apply spec_ret; intros w ?; by split; [left|]|].
  destruct (_ <? _); [apply spec_ret; intros w ?; by split; [left|]|].
  eapply spec_weaken; [apply wait_cycles_spec|intros w ?; by split_and!|done..].
Qed.

(** *** Proofs of emptiness *)

(** Since [w0] the unit was seen ended, then nobody in the control group, then
    the unit ended again. *)
Definition empty_proven (w : Worker) : Prop :=
  ∃ x x1 x2 x3, kept w0 x ∧ asked x x1 ∧ asked x1 x2 ∧ asked x2 x3 ∧ did anything x3 w ∧
    unit_seen_ended sc x x1 ∧ group_seen_empty (sc_control_group sc) x1 x2 ∧
    unit_seen_ended sc x2 x3.
(** The worker may give everything back. *)
Definition proven (proof : BoundaryEmptyProof) (w : Worker) : Prop :=
  kept w0 w ∧ seen (wk_time w0) (reaped (ep_leader_exit proof)) w ∧ empty_proven w.

Lemma proven_asked proof : lasting (proven proof).
Proof.
  intros w w' H (K & S & x & x1 & x2 & x3 & He). split_and!.
  - etrans; [exact K|by apply asked_kept].
  - by eapply seen_asked.
  - exists x, x1, x2, x3. destruct_and! He. split_and!; try done.
    etrans; [done|by apply asked_did].
Qed.

(** A proof made while [P], whatever else [P] says. *)
Lemma prove_empty_spec (P : Worker → Prop) exit :
  lasting P → (∀ w, P w → kept w0 w ∧ seen (wk_time w0) (reaped exit) w) →
  spec P (prove_empty_boundary sc exit) (λ proof w, P w ∧ proven proof w) (λ _, P).
Proof.
  intros HP Hk w Hw. pose proof (prove_empty_asked sc exit w) as Ha.
  destruct (prove_empty_boundary sc exit w) as [w' [proof|e]] eqn:H; cbn in Ha; [|by eapply HP].
  split; [by eapply HP|]. apply prove_empty_ok in H as (_ & Hexit & _ & w1 & w2 & H1 & H2 & H3 & He).
  destruct (Hk w Hw) as [K S]. rewrite <- Hexit in S. split_and!.
  - etrans; [exact K|by apply asked_kept].
  - by eapply seen_asked.
  - exists w, w1, w2, w'. by destruct_and! He; split_and!.
Qed.

(** *** The forced end *)

Definition killed (exit : option LeaderExit) (w : Worker) : Prop :=
  signalled [SIGTERM; SIGKILL] w ∧ known exit w.
Definition forced_ended (o : ForcedTerminationOutcome) (w : Worker) : Prop :=
  maybe [SIGTERM] SIGKILL w ∧
  match o with ForcedBoundaryEmpty proof _ => proven proof w | _ => True end.

Lemma killed_asked exit : lasting (killed exit).
Proof. apply lasting_and; auto using signalled_asked, known_asked. Qed.
Lemma killed_maybe w : signalled [SIGTERM; SIGKILL] w → maybe [SIGTERM] SIGKILL w.
Proof. by right. Qed.
Lemma forced_error_ended c stage error w :
  maybe [SIGTERM] SIGKILL w → forced_ended (forced_infrastructure c stage error) w.
Proof. done. Qed.
Lemma forced_scope_ended c stage error w :
  maybe [SIGTERM] SIGKILL w → forced_ended (forced_scope_error c stage error) w.
Proof. intros H. unfold forced_scope_error. by repeat case_match. Qed.
Lemma killed_error exit c stage error w :
  killed exit w → forced_ended (forced_infrastructure c stage error) w.
Proof. intros [? _]. by split; [right|]. Qed.
Lemma killed_scope_error exit c stage error w :
  killed exit w → forced_ended (forced_scope_error c stage error) w.
Proof. intros [? _]. apply forced_scope_ended. by right. Qed.
Hint Resolve killed_asked killed_maybe forced_error_ended forced_scope_ended killed_error
  killed_scope_error : signals.

Lemma forced_request_did : sr_keeps (did anything) (request_forced_termination sc).
Proof.
  unfold request_forced_termination, request_forced_signal_invocation. did_auto anything.
Qed.
Lemma forced_request_known exit :
  spec (begun exit) (request_forced_termination sc) (λ _, killed exit)
    (λ _, maybe [SIGTERM] SIGKILL).
Proof.
  assert (spec (known exit) (request_forced_termination sc)
            (λ _, known exit) (λ _, known exit)) as Hk.
  { apply (spec_keeps (did anything)); [apply forced_request_did|].
    intros s s' ? ?. by eapply known_did. }
  eapply spec_weaken; [exact (spec_conj _ _ _ _ _ _ _ (forced_request_spec [SIGTERM]) Hk)|done..|].
  by intros e w [? ?].
Qed.
Lemma forced_begin_spec c :
  spec (begun (fc_leader_exit c)) (forced_begin sc c)
    (λ c' w, killed (fc_leader_exit c') w) forced_ended.
Proof.
  unfold forced_begin.
  assert (∀ s, begun (fc_leader_exit c) s → maybe [SIGTERM] SIGKILL s) as Hb
    by (intros s [? _]; by left).
  do 3 ask. cbv zeta. set (c' := mkForced _ _ _ _).
  apply spec_bind with (λ _, killed (fc_leader_exit c')).
  { apply spec_map_err. eapply spec_weaken; [apply forced_request_known|done..|].
    intros e w. apply forced_scope_ended. }
  intros _. do 3 ask. by apply spec_ret.
Qed.

Definition forcing (c : ForcedTerminationCoordinator) : Worker → Prop :=
  killed (fc_leader_exit c).

Lemma try_proof_spec c :
  spec (forcing c) (try_forced_empty_proof sc c) (λ _, forcing c) forced_ended.
Proof.
  unfold try_forced_empty_proof, forcing.
  apply spec_attempt_step; [asked_auto|eauto with signals|intros terminal].
  apply spec_bind with (λ _, killed (fc_leader_exit c)).
  { destruct terminal as [|[]]; (apply spec_ret || apply spec_fail); eauto with signals. }
  intros []; [|by apply spec_ret]. destruct (fc_leader_exit c) as [exit|]; [|by apply spec_ret].
  apply spec_bind with (λ r w, killed (Some exit) w ∧
    match r with Ok proof => proven proof w | Err _ => True end).
  - eapply spec_attempt; [apply (prove_empty_spec (killed (Some exit)))| |]; [eauto with signals|..].
    + intros w [(K & _) Hk]. split; [done|]. by apply Hk.
    + done.
    + done.
  - intros [proof|[]]; (apply spec_ret || apply spec_fail); try tauto;
      intros w [[Hs Hk] Hp]; first [by split; [right|] | by apply forced_scope_ended; right].
Qed.

Lemma record_forced_exit exit c w :
  seen (wk_time w0) (reaped exit) w → forcing c w → forcing (fc_record_leader_exit exit c) w.
Proof.
  intros Hr [Hs Hk]. unfold forcing, fc_record_leader_exit.
  destruct (fc_leader_exit c) eqn:He; [by rewrite He|]. split; [done|]. by intros e [= <-].
Qed.

Lemma forced_leader_spec st revents :
  spec (forcing (fs_coordinator st)) (forced_leader sc st revents)
    (λ st', forcing (fs_coordinator st')) forced_ended.
Proof.
  unfold forced_leader. cbv zeta. case_match; [|by apply spec_ret].
  apply spec_bind with (λ r w, forcing (fs_coordinator st) w ∧
    ∀ status, r = Ok (Some status) → seen (wk_time w0) (reaped (leader_exit_of status)) w).
  { apply spec_see. intros w Hw. split; [by eapply killed_asked; [apply asked_tick|]|].
    intros status Hst. exists (wk_time w). cbn. split; [|by exists status].
    destruct Hw as [Hs _]. apply signalled_time in Hs. lia. }
  intros [[status|]|]; [|apply spec_fail; intros w [? _]; by eapply killed_error..].
  set (c := fc_record_leader_exit (leader_exit_of status) (fs_coordinator st)).
  apply spec_bind with (λ _, forcing c).
  - apply spec_modify. intros w [Hw Hr]. apply (record_forced_exit _ _ (set_child NoChild w));
      [exact (Hr status eq_refl)|exact Hw].
  - intros _. eapply spec_bind; [apply try_proof_spec|intros ?]. by apply spec_ret.
Qed.

Lemma forced_observer_spec st revents :
  spec (forcing (fs_coordinator st)) (forced_observer sc st revents)
    (λ _, forcing (fs_coordinator st)) forced_ended.
Proof.
  unfold forced_observer, forcing. cbv zeta. case_match; [by apply spec_ret|].
  apply spec_map_step; [asked_auto|eauto with signals..|]. intros _. apply try_proof_spec.
Qed.

Lemma forced_inputs_asked cf st signals control :
  sr_keeps asked (forced_inputs cf st signals control).
Proof. unfold forced_inputs. asked_auto. Qed.
(** The inputs of a forced end can only stop it. *)
Lemma forced_inputs_fail cf st signals control w w' o :
  forced_inputs cf st signals control w = (w', Err o) →
  ∃ stage error, o = forced_infrastructure (fs_coordinator st) stage error.
Proof.
  unfold forced_inputs, sr_bind, see, sr_ret, sr_fail. cbv zeta. intros H.
  repeat case_match; simplify_eq; eauto.
Qed.
Lemma forced_inputs_spec cf st signals control :
  spec (forcing (fs_coordinator st)) (forced_inputs cf st signals control)
    (λ _, forcing (fs_coordinator st)) forced_ended.
Proof.
  intros w Hw. pose proof (forced_inputs_asked cf st signals control w) as Ha.
  destruct (forced_inputs cf st signals control w) as [w' [u|o]] eqn:H; cbn in Ha.
  - by eapply killed_asked.
  - apply forced_inputs_fail in H as (stage & error & ->).
    eapply killed_error. by eapply killed_asked.
Qed.

Lemma forced_deadline_spec st revents :
  spec (forcing (fs_coordinator st)) (forced_deadline sc st revents)
    (λ _, forcing (fs_coordinator st)) forced_ended.
Proof.
  unfold forced_deadline, consume_deadline, forcing. cbv zeta.
  case_match; [|by apply spec_ret].
  apply spec_bind with (λ _, killed (fc_leader_exit (fs_coordinator st))).
  { case_match; [|by apply spec_ret]. apply spec_see. intros w.
    apply killed_asked, asked_tick. }
  intros [[]|[]]; [|by apply spec_ret|apply spec_fail; eauto with signals].
  eapply spec_bind; [apply try_proof_spec|]. intros u. apply spec_fail.
  intros w [? _]. by split; [right|].
Qed.

Lemma forced_poll_cycle_spec cf st :
  spec (forcing (fs_coordinator st)) (forced_poll_cycle cf sc st)
    (λ st', forcing (fs_coordinator st')) forced_ended.
Proof.
  unfold forced_poll_cycle. apply spec_see_step; [apply killed_asked|intros polled]. cbv zeta.
  assert (∀ revents : nat → Z, spec (forcing (fs_coordinator st)) (
    let* st := forced_leader sc st (revents 0%nat) in
    forced_observer sc st (revents 1%nat) ;;;
    forced_inputs cf st (revents 2%nat) (revents 3%nat) ;;;
    forced_deadline sc st (revents 5%nat) ;;;
    sr_ret st) (λ st', forcing (fs_coordinator st')) forced_ended) as Hhandle.
  { intros revents. eapply spec_bind; [apply forced_leader_spec|intros st1].
    eapply spec_bind; [apply forced_observer_spec|intros ?].
    eapply spec_bind; [apply forced_inputs_spec|intros ?].
    eapply spec_bind; [apply forced_deadline_spec|intros ?]. by apply spec_ret. }
  destruct polled; [apply (Hhandle (λ _, 0))|by apply spec_ret|apply spec_fail|apply Hhandle].
  intros w. apply killed_error.
Qed.

Definition forced_result (r : option ForcedTerminationOutcome) (w : Worker) : Prop :=
  match r with Some o => forced_ended o w | None => maybe [SIGTERM] SIGKILL w end.
Lemma forced_cycles_spec {E} cf cycles st :
  spec (forcing (fs_coordinator st)) (forced_cycles (E:=E) cf sc cycles st) forced_result
    (λ _ _, False).
Proof.
  revert st. induction cycles as [|cycles IH]; intros st; cbn.
  { apply spec_ret. intros w [? _]. by right. }
  apply spec_bind with (λ r w, match r with
    | Ok st => forcing (fs_coordinator st) w | Err o => forced_ended o w end).
  { eapply spec_attempt; [apply forced_poll_cycle_spec|done..]. }
  intros [st1|o]; [apply IH|by apply spec_ret].
Qed.
Lemma wait_for_forced_spec {E} cf cycles cause exit :
  spec (begun exit) (wait_for_forced_cleanup (E:=E) cf sc cycles cause exit) forced_result
    (λ _ _, False).
Proof.
  unfold wait_for_forced_cleanup. ask. cbv zeta.
  destruct (negb a); [apply spec_ret; intros w [? _]; by split; [left|]|].
  destruct (_ && _); [apply spec_ret; intros w [? _]; by split; [left|]|].
  set (c := mkForced _ _ _ _).
  apply spec_bind with (λ r w, match r with Ok c => forcing c w | Err o => forced_ended o w end).
  - eapply (spec_attempt _ _ forcing forced_ended); [|done..].
    eapply spec_bind; [apply (forced_begin_spec c)|intros c'].
    eapply spec_bind; [apply try_proof_spec|intros ?]. by apply spec_ret.
  - intros [c'|o]; [|by apply spec_ret].
    eapply spec_weaken; [apply forced_cycles_spec|done..].
Qed.

(** *** What an outcome allows *)

Definition decided (d : GracefulFinalizationDecision) (w : Worker) : Prop :=
  match d with
  | FinalizeCooperative proof => signalled [SIGTERM] w ∧ proven proof w
  | NeedsEscalation (Eligible _ exit) => begun exit w
  | _ => maybe [] SIGTERM w
  end.
Lemma eligibility_spec {E} cause exit :
  spec (begun exit) (eligibility_after_identity_validation (E:=E) sc cause exit) decided
    (λ _ _, False).
Proof.
  unfold eligibility_after_identity_validation.
  apply spec_attempt_step; [asked_auto|eauto with signals|intros valid]. apply spec_ret.
  intros w Hw. destruct valid as [|[]]; cbn; try done; destruct Hw; by right.
Qed.
Lemma consume_outcome_spec {E} outcome :
  spec (wait_ended outcome) (consume_graceful_outcome (E:=E) sc outcome) decided (λ _ _, False).
Proof.
  destruct outcome as [cause [exit|]|cause exit|cause exit error|cause exit reason]; cbn.
  2-3: eapply spec_weaken; [apply eligibility_spec|done..].
  2-3: apply spec_ret; by intros w [? _].
  apply spec_bind with (λ r w, begun (Some exit) w ∧
    match r with Ok proof => proven proof w | Err _ => True end).
  - eapply spec_attempt; [apply (prove_empty_spec (begun (Some exit)))|done..];
      [eauto with signals|].
    intros w [(K & _) Hk]. split; [done|]. by apply Hk.
  - intros [proof|error].
    + apply spec_ret. by intros w [[? ?] ?].
    + assert (∀ w, begun (Some exit) w ∧ True → maybe [] SIGTERM w) as Hb
        by (intros w [[? _] _]; by right).
      destruct error; try (apply spec_ret; intros w Hw; by apply Hb);
        (eapply spec_weaken; [apply eligibility_spec|by intros w [? _]|done..]).
Qed.
End Signals.
