(* ===== verification/WorkerEnding.v ===== *)
(** * The end of a session

    From the announced session to the end of the worker ([run_session]): which
    signals the payload gets, that nothing is given back without a proof that
    it is gone, in which order the unit, PAM and the terminal are given back,
    what the supervisor is told, and how a stranger on the control socket
    hides the end of a session. *)

From stdpp Require Import base gmap sets list strings pretty.
From Stdlib Require Import ZArith Lia.
From S2P Require Import Prelude Text Ledger Admission Protocol WorkerRecord.
From S2P Require Import Supervisor Launch.
From S2P Require Import CgroupState HostWorld WorkerWorld WorkerScope.
From S2P Require Import WorkerHistory.
From S2P Require Import WorkerScopeSafety WorkerResources WorkerTermination.
From S2P Require Import WorkerTerminationSafety.
#[local] Open Scope niralis_scope.

(** ** The two ways a session ends *)

(** The payload got nothing, SIGTERM, or SIGTERM and then SIGKILL. *)
Definition session_signals (sc : SystemdPayloadScope) (w w' : Worker) : Prop :=
  ∃ l, l `prefix_of` [SIGTERM; SIGKILL] ∧ signalled sc w l w'.

Lemma maybe_term sc w w' : maybe sc w [] SIGTERM w' → session_signals sc w w'.
Proof.
  intros [H|H]; [exists []|exists [SIGTERM]]; (split; [|done]); [apply prefix_nil|].
  by exists [SIGKILL].
Qed.
Lemma maybe_kill sc w w' : maybe sc w [SIGTERM] SIGKILL w' → session_signals sc w w'.
Proof.
  intros [H|H]; [exists [SIGTERM]|exists [SIGTERM; SIGKILL]]; (split; [|done]).
  - by exists [SIGKILL].
  - done.
Qed.

(** The worker stopped with everything it owns, or it finalized a session that
    was proven to be over. *)
Inductive session_run (cf : WorkerConfig) (sc : SystemdPayloadScope) (nonce : string)
    (w w' : Worker) : result () Halt → Prop :=
| session_stopped halt : halt = HaltHeld ∨ halt = HaltRunning → session_signals sc w w' →
    session_run cf sc nonce w w' (Err halt)
| session_finalized x expectation forced proof r :
    session_signals sc w x → proven sc w proof x →
    finalize_session cf sc nonce expectation forced proof x = (w', r) →
    session_run cf sc nonce w w' (map_err HaltError r).

Lemma escalate_run cf sc nonce cycles cause exit w x :
  begun sc w exit x →
  let '(w', r) := escalate cf sc nonce cycles cause exit x in session_run cf sc nonce w w' r.
Proof.
  intros Hx. pose proof (wait_for_forced_spec (E:=Halt) sc w cf cycles cause exit x Hx) as Hf.
  unfold escalate, sr_bind.
  destruct (wait_for_forced_cleanup cf sc cycles cause exit x) as [x1 [[outcome|]|]]; [|..|done].
  - destruct Hf as [Hm Hp].
    destruct outcome; try (apply session_stopped; [by left|by apply maybe_kill]).
    unfold sr_map_err. destruct (finalize_session _ _ _ _ _ _ x1) as [w' r] eqn:Hr.
    assert (session_run cf sc nonce w w' (map_err HaltError r)) as Hrun
      by (eapply session_finalized; [by apply maybe_kill|exact Hp|exact Hr]).
    by destruct r.
  - apply session_stopped; [by right|by apply maybe_kill].
Qed.

Lemma run_session_run cf sc nonce cycles w :
  let '(w', r) := run_session cf sc nonce cycles w in session_run cf sc nonce w w' r.
Proof.
  pose proof (wait_for_session_spec (E:=Halt) sc w cf cycles w (signalled_refl sc w)) as Hw.
  unfold run_session, sr_bind.
  destruct (wait_for_session cf sc cycles w) as [w1 [[outcome|]|]]; [|..|done].
  2: { apply session_stopped; [by right|by apply maybe_term]. }
  pose proof (consume_outcome_spec (E:=Halt) sc w outcome w1 Hw) as Hd.
  destruct (consume_graceful_outcome sc outcome w1) as [w2 [decision|]]; [|done].
  destruct decision as [proof|[cause exit| |]|]; cbn in Hd.
  - destruct Hd as [Hs Hp]. unfold sr_map_err.
    destruct (finalize_session _ _ _ _ _ _ w2) as [w' r] eqn:Hr.
    assert (session_run cf sc nonce w w' (map_err HaltError r)) as Hrun
      by (eapply session_finalized; [apply maybe_kill; by left|exact Hp|exact Hr]).
    by destruct r.
  - by apply escalate_run.
  - apply session_stopped; [by left|by apply maybe_term].
  - apply session_stopped; [by left|by apply maybe_term].
  - apply session_stopped; [by left|by apply maybe_term].
Qed.

(** ** Which acts a routine can do *)

Definition pam_act (a : WorkerAct) : Prop := match a with ActPam _ => True | _ => False end.
Definition unref_act (a : WorkerAct) : Prop :=
  match a with ActUnit CallUnref _ => True | _ => False end.
Definition vt_act (a : WorkerAct) : Prop := match a with ActVt _ => True | _ => False end.
Definition control_act (a : WorkerAct) : Prop :=
  match a with ActControl _ => True | _ => False end.
(** What is left to do once PAM is closed. *)
Definition late_act (a : WorkerAct) : Prop :=
  match a with ActVt _ | ActControl _ => True | _ => False end.

Lemma this_pam_asked {E} : sr_keeps asked (this_pam (E:=E)).
Proof. intros w. by exists O; destruct w. Qed.
Lemma this_terminal_asked {E} : sr_keeps asked (this_terminal (E:=E)).
Proof. intros w. by exists O; destruct w. Qed.
#[local] Hint Resolve this_pam_asked this_terminal_asked : asked.

Lemma pam_call_did {E} call : sr_keeps (did pam_act) (pam_call (E:=E) call).
Proof. unfold pam_call. did_auto pam_act. Qed.
#[local] Hint Resolve pam_call_did : did.
Lemma pam_cleanup_did {E} : sr_keeps (did pam_act) (pam_cleanup (E:=E)).
Proof. unfold pam_cleanup. did_auto pam_act. Qed.
Lemma close_session_did : sr_keeps (did pam_act) close_session.
Proof. unfold close_session. did_auto pam_act. Qed.
#[local] Hint Resolve pam_cleanup_did close_session_did : did.
Lemma drop_transaction_did {E} : sr_keeps (did pam_act) (drop_transaction (E:=E)).
Proof. unfold drop_transaction. did_auto pam_act. Qed.
Lemma release_pin_did sc : sr_keeps (did unref_act) (release_pin sc).
Proof. unfold release_pin, call_unit. did_auto unref_act. Qed.

Lemma active_vt_asked : sr_keeps asked active_vt.
Proof. unfold active_vt. asked_auto. Qed.
Lemma await_active_asked failed late target : sr_keeps asked (await_active failed late target).
Proof. unfold await_active. asked_auto. Qed.
#[local] Hint Resolve active_vt_asked await_active_asked : asked.
Lemma vt_call_did call failed : sr_keeps (did vt_act) (vt_call call failed).
Proof. unfold vt_call. did_auto vt_act. Qed.
Lemma update_terminal_did K {E} f : sr_keeps (did K) (update_terminal (E:=E) f).
Proof. unfold update_terminal. did_auto K. Qed.
#[local] Hint Resolve vt_call_did update_terminal_did : did.
Lemma lease_release_did g : sr_keeps (did vt_act) (lease_release g).
Proof. unfold lease_release, release_allocated_terminal. did_auto vt_act. Qed.
#[local] Hint Resolve lease_release_did : did.
Lemma release_terminal_did : sr_keeps (did vt_act) release_terminal.
Proof. unfold release_terminal. did_auto vt_act. Qed.

Lemma channel_closed_asked {E} cf : sr_keeps asked (supervisor_channel_is_closed (E:=E) cf).
Proof.
  intros w. unfold supervisor_channel_is_closed.
  destruct (wk_disconnected w); [reflexivity|].
  destruct (_ <? 0); [reflexivity|]. apply see_asked.
Qed.
#[local] Hint Resolve channel_closed_asked : asked.
Lemma begin_cleanup_did cf nonce identity :
  sr_keeps (did control_act) (begin_terminal_vt_cleanup cf nonce identity).
Proof.
  unfold begin_terminal_vt_cleanup, duplicate_supervisor_channel, write_control_request,
    read_control_request. did_auto control_act.
Qed.
Lemma complete_cleanup_did cf nonce attempt_id outcome :
  sr_keeps (did control_act) (complete_terminal_vt_cleanup cf nonce attempt_id outcome).
Proof.
  unfold complete_terminal_vt_cleanup, write_control_request, read_control_request.
  did_auto control_act.
Qed.
Lemma complete_cleanup_late cf nonce attempt_id outcome :
  sr_keeps (did late_act) (complete_terminal_vt_cleanup cf nonce attempt_id outcome).
Proof. apply (keeps_mono control_act); [by intros []|apply complete_cleanup_did]. Qed.
Lemma release_terminal_late : sr_keeps (did late_act) release_terminal.
Proof.
  intros w. eapply did_mono; [|apply release_terminal_did]. by intros [].
Qed.
#[local] Hint Resolve complete_cleanup_late release_terminal_late : did.
Lemma after_disconnect_did proof forced :
  sr_keeps (did late_act) (finalize_terminal_after_supervisor_disconnect proof forced).
Proof. unfold finalize_terminal_after_supervisor_disconnect. did_auto late_act. Qed.
Lemma release_and_report_did cf nonce attempt_id proof forced :
  sr_keeps (did late_act) (release_and_report cf nonce attempt_id proof forced).
Proof. unfold release_and_report. did_auto late_act. Qed.

(** ** The order in which things are given back *)

(** The calls that end a transaction: a close that failed is tried again when
    the transaction is dropped. *)
Definition ending_calls (t : option NativePamTransaction) (closed : bool) : list PamCall :=
  match t with
  | None => []
  | Some t =>
      (if pt_session_open t then [PamCloseSession] else []) ++
      (if pt_ended t then []
       else (if pt_session_open t && negb closed then [PamCloseSession] else []) ++
            (if pt_credentials_established t then [PamDeleteCred] else []) ++ [PamEnd])
  end.

Definition other_owned (w : Worker) : bool * bool * option VirtualTerminalGuard :=
  (wk_disconnected w, wk_reference_held w, wk_terminal w).

(** The transaction after [close_session]. *)
Definition closed_transaction (closed : bool) (t : NativePamTransaction)
    : NativePamTransaction :=
  mkPamTransaction (pt_credentials_established t) (pt_session_open t && negb closed) (pt_ended t).

Lemma close_session_run x :
  let '(y, r) := close_session x in
  other_owned y = other_owned x ∧ wk_pam y = closed_transaction (is_ok r) <$> wk_pam x ∧
  acts y = acts x ++ (if default false (pt_session_open <$> wk_pam x)
                      then [ActPam PamCloseSession] else []).
Proof.
  destruct x as [view time log disconnected held [[cred open ended]|] terminal child];
    unfold close_session, this_pam, pam_call, perform, sr_bind, sr_ret, sr_fail, sr_modify; cbn.
  - destruct open; cbn; [destruct (wv_pam _ _); cbn|]; split_and!; try done;
      unfold acts; cbn; rewrite ?fmap_app, ?app_nil_r; done.
  - split_and!; try done. by rewrite app_nil_r.
Qed.
Lemma drop_transaction_run {E} x :
  let '(y, r) := drop_transaction (E:=E) x in
  r = Ok () ∧ other_owned y = other_owned x ∧ wk_pam y = None ∧
  acts y = acts x ++ (ActPam <$> match wk_pam x with
    | Some t => if pt_ended t then []
                else (if pt_session_open t then [PamCloseSession] else []) ++
                  (if pt_credentials_established t then [PamDeleteCred] else []) ++ [PamEnd]
    | None => []
    end).
Proof.
  destruct x as [view time log disconnected held [[cred open ended]|] terminal child];
    unfold drop_transaction, pam_cleanup, this_pam, pam_call, perform, sr_bind, sr_ret,
      sr_modify; cbn.
  - destruct ended, open, cred; cbn; split_and!; try done;
      unfold acts; cbn; rewrite ?fmap_app, ?app_nil_r, <- ?(assoc_L app); done.
  - split_and!; try done. by rewrite app_nil_r.
Qed.

Lemma pam_ended x y r z u :
  close_session x = (y, r) → drop_transaction (E:=SessionError) y = (z, u) →
  u = Ok () ∧ wk_pam z = None ∧ other_owned z = other_owned x ∧
  acts z = acts x ++ (ActPam <$> ending_calls (wk_pam x) (is_ok r)).
Proof.
  intros Hc Hd. pose proof (close_session_run x) as C. rewrite Hc in C.
  destruct C as (CO & CP & CA). pose proof (drop_transaction_run (E:=SessionError) y) as D.
  rewrite Hd in D. destruct D as (-> & DO & DP & DA).
  split_and!; [done..|congruence|]. rewrite DA, CA, CP. unfold ending_calls.
  destruct (wk_pam x) as [[cred [] []]|]; cbn; rewrite <- ?(assoc_L app), ?app_nil_r; try done.
Qed.

Lemma release_pin_run sc x :
  let y := (release_pin sc x).1 in
  wk_pam y = wk_pam x ∧ wk_disconnected y = wk_disconnected x ∧ wk_terminal y = wk_terminal x.
Proof.
  unfold release_pin, reference_held, call_unit, proxy, see, perform, none_or, sr_map_err,
    sr_bind, sr_ret, sr_fail, sr_modify. repeat (case_match; cbn; simplify_eq); done.
Qed.

(** The channel to the supervisor was found closed. *)
Definition channel_seen_closed (cf : WorkerConfig) (x y : Worker) : Prop :=
  wk_disconnected x = true ∨ cf_supervisor_fd cf < 0 ∨
  during (λ v, has_events BROKEN (wv_channel_events v) = true) x y.
(** The supervisor was told that the terminal is about to be released and
    acknowledged it afterwards. *)
Definition intent_seen_acknowledged (cf : WorkerConfig) (sc : SystemdPayloadScope)
    (nonce : string) (x y : Worker) : Prop :=
  ∃ t t' e attempt_id, (wk_time x ≤ t < t')%nat ∧ (t' < wk_time y)%nat ∧
    (t, ActControl (WcTerminalVtCleanupIntent (cf_worker_id cf) (cf_process_id cf) nonce
                      (sc_identity sc))) ∈ wk_log y ∧
    wv_control_read (wk_view x t') = Ok e ∧ intent_acknowledged cf nonce e = Some attempt_id.

Lemma channel_closed_ok {E} cf x y closed :
  supervisor_channel_is_closed (E:=E) cf x = (y, Ok closed) → closed = true →
  channel_seen_closed cf x y.
Proof.
  unfold supervisor_channel_is_closed, channel_seen_closed.
  destruct (wk_disconnected x); [by left|]. destruct (_ <? 0) eqn:Hf.
  { intros _ _. right. left. lia. }
  intros H Hc. apply see_ok in H as [-> ->]. right. right. by apply during_tick.
Qed.

Lemma begin_cleanup_ok cf sc nonce x y attempt_id :
  begin_terminal_vt_cleanup cf nonce (sc_identity sc) x = (y, Ok attempt_id) →
  intent_seen_acknowledged cf sc nonce x y.
Proof.
  unfold begin_terminal_vt_cleanup, duplicate_supervisor_channel, write_control_request,
    read_control_request. intros H. ok_run H.
  exists (S (wk_time x)), (S (S (S (wk_time x)))), a3, attempt_id.
  split_and!; cbn; [lia..| |exact L0|done]. set_solver.
Qed.

(** The terminal may be touched: nobody is there to be told, or the supervisor
    knows. *)
Definition terminal_allowed (cf : WorkerConfig) (sc : SystemdPayloadScope) (nonce : string)
    (expectation : TerminalReportExpectation) (x y : Worker) : Prop :=
  expectation = ReportUnavailable ∨ channel_seen_closed cf x y ∨
  intent_seen_acknowledged cf sc nonce x y.

Lemma channel_widen K cf x x' y :
  did K x x' → wk_disconnected x' = wk_disconnected x → channel_seen_closed cf x' y →
  channel_seen_closed cf x y.
Proof.
  intros (V & T & _) D [H|[H|(t & Ht & H)]]; [left; by rewrite <- D|by right; left|].
  right. right. exists t. rewrite <- V. split; [lia|done].
Qed.
Lemma intent_widen K cf sc nonce x x' y :
  did K x x' → intent_seen_acknowledged cf sc nonce x' y → intent_seen_acknowledged cf sc nonce x y.
Proof.
  intros (V & T & _) (t & t' & e & a & Ht & Ht' & Hl & Hr & Ha). exists t, t', e, a.
  rewrite <- V. split_and!; try done; lia.
Qed.
Lemma begin_cleanup_disconnected cf nonce identity x :
  wk_disconnected (begin_terminal_vt_cleanup cf nonce identity x).1 = wk_disconnected x.
Proof.
  unfold begin_terminal_vt_cleanup, duplicate_supervisor_channel, write_control_request,
    read_control_request, perform, see, sr_lift, sr_bind, sr_ret, sr_fail.
  repeat (case_match; cbn; simplify_eq); done.
Qed.
Lemma channel_closed_disconnected {E} cf x :
  wk_disconnected (supervisor_channel_is_closed (E:=E) cf x).1 = wk_disconnected x.
Proof. unfold supervisor_channel_is_closed. by repeat case_match. Qed.

(** ** What happens to the terminal *)

Definition same_of {A} (f : Worker → A) (w w' : Worker) : Prop := f w' = f w.
#[export] Instance same_of_preorder {A} (f : Worker → A) : PreOrder (same_of f).
Proof. split; [done|]. unfold same_of. intros ??? -> ->. done. Qed.
Ltac same_auto f := keeps_with (same_of f) ltac:(solve [by intros ?]).

Lemma channel_closed_terminal {E} cf :
  sr_keeps (same_of wk_terminal) (supervisor_channel_is_closed (E:=E) cf).
Proof. intros w. unfold supervisor_channel_is_closed. by repeat case_match. Qed.
Lemma begin_cleanup_terminal cf nonce identity :
  sr_keeps (same_of wk_terminal) (begin_terminal_vt_cleanup cf nonce identity).
Proof.
  unfold begin_terminal_vt_cleanup, duplicate_supervisor_channel, write_control_request,
    read_control_request. same_auto wk_terminal.
Qed.
Lemma complete_cleanup_terminal cf nonce attempt_id outcome :
  sr_keeps (same_of wk_terminal) (complete_terminal_vt_cleanup cf nonce attempt_id outcome).
Proof.
  unfold complete_terminal_vt_cleanup, write_control_request, read_control_request.
  same_auto wk_terminal.
Qed.

(** The calls that give a terminal back, by what the machine answers: one that
    was released, or whose release was tried, gets none; one that is held is
    closed and disallocated, once the previous terminal is active again or this
    one was not the active one. *)
Definition terminal_end (w : Worker) : list VtCall :=
  let answers n := wk_view w (n + wk_time w) in
  match wk_terminal w with
  | Some (mkTerminalGuard vt previous TerminalHeld None) =>
      match wv_vt_active (answers 0%nat) with
      | Err _ => []
      | Ok active =>
          if active =? vt then
            VtActivateCall previous ::
            (if bool_decide (wv_vt_call (answers 1%nat) (VtActivateCall previous) = None)
                && is_ok (settle (λ _, VtOperationFailed) VtOperationFailed previous
                            (wv_vt_active (answers 2%nat)) (wv_vt_settling (answers 2%nat)))
             then [VtCloseCall; VtDisallocateCall vt] else [])
          else [VtCloseCall; VtDisallocateCall vt]
      end
  | Some (mkTerminalGuard vt _ TerminalClosed None) => [VtDisallocateCall vt]
  | _ => []
  end.
Lemma settle_same failed failed' late late' target answer rest :
  is_ok (settle failed late target answer rest) = is_ok (settle failed' late' target answer rest).
Proof.
  revert answer. induction rest as [|a rest IH]; intros [active|]; cbn; try done;
    destruct (active =? target); auto.
Qed.
Lemma release_terminal_acts w :
  acts (release_terminal w).1 = acts w ++ (ActVt <$> terminal_end w).
Proof.
  unfold release_terminal, this_terminal, terminal_end, sr_bind, attempt.
  destruct (wk_terminal w) as [[vt previous [] [res|]]|] eqn:Hg; cbn; rewrite ?app_nil_r; try done.
  2: { unfold lease_release, vt_call, perform, update_terminal, none_or, sr_bind. cbn.
       destruct (wv_vt_call _ _); cbn; unfold acts; cbn; by rewrite fmap_app. }
  unfold lease_release, release_allocated_terminal, active_vt, vt_call, await_active, perform, see,
    update_terminal, none_or, sr_map_err, sr_lift, sr_bind. cbn.
  destruct (wv_vt_active (wk_view w (wk_time w))) as [active|]; cbn; [|by rewrite app_nil_r].
  destruct (active =? vt); cbn.
  2: { destruct (wv_vt_call _ (VtDisallocateCall vt)); cbn; unfold acts; cbn;
       rewrite !fmap_app; by rewrite <- (assoc_L app). }
  destruct (wv_vt_call (wk_view w (S (wk_time w))) (VtActivateCall previous)) eqn:Hv; cbn.
  { unfold acts; cbn. by rewrite fmap_app. }
  rewrite (settle_same (λ _, VtOperationFailed) (CleanupOperationFailed "confirm_previous")
    VtOperationFailed CleanupTimedOut).
  destruct (settle (CleanupOperationFailed "confirm_previous") _ _ _ _) as [[]|]; cbn.
  2: { unfold acts; cbn. by rewrite fmap_app. }
  destruct (wv_vt_call _ (VtDisallocateCall vt)); cbn; unfold acts; cbn;
    rewrite !fmap_app; by rewrite <- !(assoc_L app).
Qed.
(** The terminal is released, with these calls, and only the control channel is
    used after that. *)
Definition released_then_reported (w w' : Worker) : Prop :=
  ∃ v, did vt_act w v ∧ acts v = acts w ++ (ActVt <$> terminal_end w) ∧ did control_act v w'.
(** The release of the terminal has been tried, if there is one. *)
Definition release_tried (w : Worker) : Prop :=
  ∀ g, wk_terminal w = Some g → is_Some (vg_release_result g).
Lemma tried_same w w' : same_of wk_terminal w w' → release_tried w → release_tried w'.
Proof. unfold same_of, release_tried. by intros ->. Qed.
Lemma release_terminal_tried w : release_tried (release_terminal w).1.
Proof.
  unfold release_terminal, this_terminal, sr_bind, attempt, update_terminal.
  destruct (wk_terminal w) as [g|] eqn:Hg; [|by intros g; cbn; rewrite Hg].
  destruct (vg_release_result g) as [res|] eqn:Hr.
  { intros g'. destruct res; cbn; rewrite Hg; intros [= <-]; by rewrite Hr. }
  destruct (lease_release g w) as [w1 [u|e]]; cbn; intros g'; cbn;
    intros (g1 & _ & ->)%fmap_Some; by eexists.
Qed.
Lemma after_disconnect_tried proof forced w :
  release_tried (finalize_terminal_after_supervisor_disconnect proof forced w).1.
Proof.
  unfold finalize_terminal_after_supervisor_disconnect, sr_bind, sr_map_err.
  pose proof (release_terminal_tried w) as H. destruct (release_terminal w) as [w1 []]; done.
Qed.
Lemma release_and_report_tried cf nonce attempt_id proof forced w :
  release_tried (release_and_report cf nonce attempt_id proof forced w).1.
Proof.
  unfold release_and_report, sr_bind, attempt. pose proof (release_terminal_tried w) as H.
  destruct (release_terminal w) as [w1 [[]|e]]; simpl fst in H.
  - pose proof (complete_cleanup_terminal cf nonce attempt_id TvReleased w1) as C.
    destruct (complete_terminal_vt_cleanup cf nonce attempt_id TvReleased w1) as [w2 [[]|e]];
      apply (tried_same _ _ C) in H; [exact H|].
    pose proof (channel_closed_terminal (E:=SessionError) cf w2) as S.
    destruct (supervisor_channel_is_closed cf w2) as [w3 [[]|]];
      by apply (tried_same _ _ S) in H.
  - destruct e; try done. case_match; [|done]. eapply tried_same; [|exact H].
    apply complete_cleanup_terminal.
Qed.

Lemma after_disconnect_calls proof forced w :
  released_then_reported w (finalize_terminal_after_supervisor_disconnect proof forced w).1.
Proof.
  exists (release_terminal w).1. split_and!; [apply release_terminal_did|apply release_terminal_acts|].
  unfold finalize_terminal_after_supervisor_disconnect, sr_bind, sr_map_err.
  by destruct (release_terminal w) as [w1 []].
Qed.
Lemma release_and_report_calls cf nonce attempt_id proof forced w :
  released_then_reported w (release_and_report cf nonce attempt_id proof forced w).1.
Proof.
  exists (release_terminal w).1. split_and!; [apply release_terminal_did|apply release_terminal_acts|].
  unfold release_and_report, sr_bind, attempt.
  destruct (release_terminal w) as [w1 [[]|e]]; cbn [fst].
  - pose proof (complete_cleanup_did cf nonce attempt_id TvReleased w1) as C.
    destruct (complete_terminal_vt_cleanup cf nonce attempt_id TvReleased w1) as [w2 [[]|e]];
      [exact C|].
    pose proof (channel_closed_asked (E:=SessionError) cf w2) as S.
    apply (asked_did control_act) in S. assert (did control_act w1 w2) as C' by exact C.
    destruct (supervisor_channel_is_closed cf w2) as [w3 [[]|]]; exact (transitivity C' S).
  - destruct e; try done. case_match; [|done]. apply complete_cleanup_did.
Qed.

(** Nothing but the control channel is used before the terminal is allowed to
    be touched; where it is not, the stage fails and leaves it as it was. *)
Lemma release_stage_split cf sc nonce expectation forced proof x :
  let '(w', r) := release_stage cf sc nonce expectation forced proof x in
  ∃ y, did control_act x y ∧
    (y = w' ∧ is_ok r = false ∧ wk_terminal y = wk_terminal x ∨
     terminal_allowed cf sc nonce expectation x y ∧ released_then_reported y w' ∧ release_tried w').
Proof.
  assert (∀ y, let '(w', _) := finalize_terminal_after_supervisor_disconnect proof forced y in
               released_then_reported y w' ∧ release_tried w') as Hfin.
  { intros y. pose proof (after_disconnect_calls proof forced y) as D.
    pose proof (after_disconnect_tried proof forced y) as T.
    by destruct (finalize_terminal_after_supervisor_disconnect proof forced y). }
  unfold release_stage, sr_bind.
  destruct expectation; cbn [fst snd].
  2: { specialize (Hfin x). cbn beta iota delta [sr_ret].
       destruct (finalize_terminal_after_supervisor_disconnect proof forced x).
       exists x. split; [done|]. right. by split; [left|]. }
  pose proof (channel_closed_asked (E:=SessionError) cf x) as Hq.
  pose proof (channel_closed_disconnected (E:=SessionError) cf x) as Hx.
  pose proof (channel_closed_terminal (E:=SessionError) cf x) as Tx.
  destruct (supervisor_channel_is_closed cf x) as [x1 [[]|]] eqn:H1; cbn in Hq, Hx, Tx.
  - specialize (Hfin x1).
    destruct (finalize_terminal_after_supervisor_disconnect proof forced x1).
    exists x1. split; [by apply asked_did|]. right.
    split; [right; left; by eapply channel_closed_ok|done].
  - unfold attempt. pose proof (begin_cleanup_did cf nonce (sc_identity sc) x1) as Hb.
    pose proof (begin_cleanup_disconnected cf nonce (sc_identity sc) x1) as Hd.
    pose proof (begin_cleanup_terminal cf nonce (sc_identity sc) x1) as Tb.
    assert (did control_act x x1) as Hx1 by (by apply asked_did).
    destruct (begin_terminal_vt_cleanup cf nonce (sc_identity sc) x1) as [x2 [id|error]] eqn:H2;
      cbn in Hb, Hd, Tb.
    + pose proof (release_and_report_calls cf nonce id proof forced x2) as D.
      pose proof (release_and_report_tried cf nonce id proof forced x2) as T.
      destruct (release_and_report cf nonce id proof forced x2).
      exists x2. split; [by etrans|]. right. split; [|done].
      right. right. eapply intent_widen; [exact Hx1|]. by eapply begin_cleanup_ok.
    + pose proof (channel_closed_asked (E:=SessionError) cf x2) as Hq2.
      pose proof (channel_closed_terminal (E:=SessionError) cf x2) as T2.
      assert (did control_act x x2) as Hx2 by (by etrans).
      destruct (supervisor_channel_is_closed cf x2) as [x3 [[]|]] eqn:H3; cbn in Hq2, T2.
      2,3: exists x3; (split; [etrans; [exact Hx2|by apply asked_did]|]); left;
        unfold same_of in *; split_and!; [done|done|congruence].
      specialize (Hfin x3).
      destruct (finalize_terminal_after_supervisor_disconnect proof forced x3).
      exists x3. split; [etrans; [exact Hx2|by apply asked_did]|]. right.
      split; [|done]. right. left.
      eapply channel_widen; [exact Hx2|congruence|by eapply channel_closed_ok].
  - exists x1. split; [by apply asked_did|by left].
Qed.

Lemma release_stage_pam cf sc nonce expectation forced proof :
  sr_keeps (same_of wk_pam) (release_stage cf sc nonce expectation forced proof).
Proof.
  unfold release_stage, finalize_terminal_after_supervisor_disconnect, release_and_report,
    complete_terminal_vt_cleanup, begin_terminal_vt_cleanup, duplicate_supervisor_channel,
    write_control_request, read_control_request, release_terminal, lease_release,
    release_allocated_terminal, vt_call, await_active, active_vt.
  keeps_with (same_of wk_pam) ltac:(first
    [ solve [by intros ?]
    | solve [intros ?; unfold supervisor_channel_is_closed; by repeat case_match] ]).
Qed.

(** A finalization, up to where it returns. *)
Lemma finalize_session_order cf sc nonce expectation forced proof x :
  let '(w', r) := finalize_session cf sc nonce expectation forced proof x in
  wk_pam w' = None ∧
  ∃ y1 y2 y3 closed,
    did unref_act x y1 ∧
    did pam_act y1 y2 ∧
    acts y2 = acts y1 ++ (ActPam <$> ending_calls (wk_pam x) closed) ∧ wk_pam y2 = None ∧
    did control_act y2 y3 ∧
    (y3 = w' ∧ is_ok r = false ∧ wk_terminal y3 = wk_terminal x ∨
     closed = true ∧ terminal_allowed cf sc nonce expectation x y3 ∧
     released_then_reported y3 w' ∧ release_tried w').
Proof.
  unfold finalize_session, sr_bind, attempt. cbv zeta.
  pose proof (release_pin_did sc x) as Hp. pose proof (release_pin_run sc x) as (HP & HD & HT).
  destruct (release_pin sc x) as [y1 pin]. cbn in Hp, HP, HD, HT.
  pose proof (close_session_did y1) as Hc. destruct (close_session y1) as [yc r] eqn:E1.
  pose proof (drop_transaction_did (E:=SessionError) yc) as Hdr.
  destruct (drop_transaction yc) as [y2 u] eqn:E2. cbn in Hc, Hdr.
  destruct (pam_ended _ _ _ _ _ E1 E2) as (-> & HN & HO & HA). rewrite HP in HA.
  assert (did pam_act y1 y2) as H12 by (by etrans).
  assert (wk_terminal y2 = wk_terminal x ∧ wk_disconnected y2 = wk_disconnected x) as [Ht2 Hd2]
    by (unfold other_owned in HO; split; congruence).
  destruct r as [[]|e].
  2: { split; [done|]. exists y1, y2, y2, false. split_and!; try done. by left. }
  pose proof (release_stage_split cf sc nonce expectation forced proof y2) as H.
  pose proof (release_stage_pam cf sc nonce expectation forced proof y2) as Hpam.
  destruct (release_stage _ _ _ _ _ _ y2) as [w' r]. destruct H as (y3 & H3 & Hend).
  unfold same_of in Hpam. cbn in Hpam. split; [congruence|].
  exists y1, y2, y3, true. split_and!; try done.
  destruct Hend as [(-> & ? & ?)|(Ha & Hl)]; [left; split_and!; congruence|right].
  split_and!; [done| |apply Hl..].
  assert (did anything x y2) as Hx2 by (etrans; (eapply did_mono; [|eassumption]); done).
  destruct Ha as [?|[?|?]]; [by left|right; left|right; right].
  - by eapply channel_widen.
  - by eapply intent_widen.
Qed.

(** ** Signals *)

Lemma no_kill_mono (K : WorkerAct → Prop) w w' :
  (∀ a, K a → no_kill a) → did K w w' → kills w' = kills w.
Proof.
  intros HK (_ & _ & more & L & F). unfold kills. rewrite L, kills_app, (no_kill_kills more).
  - apply app_nil_r.
  - eapply Forall_impl; [exact F|]. intros e [_ ?]. by apply HK.
Qed.
(** A finalization sends no signal. *)
Lemma finalize_did cf sc nonce expectation forced proof :
  sr_keeps (did no_kill) (finalize_session cf sc nonce expectation forced proof).
Proof.
  assert (∀ a, unref_act a → no_kill a) as Hu by (by intros [[]|?|?|?|?|?|?| | | | |]).
  assert (∀ a, pam_act a → no_kill a) as Hp by (by intros []).
  assert (∀ a, control_act a → no_kill a) as Hc by (by intros []).
  assert (∀ a, late_act a → no_kill a) as Hl by (by intros []).
  unfold finalize_session, release_stage.
  keeps_with (did no_kill) ltac:(first
    [ apply (keeps_did no_kill); solve [eauto with asked nocore]
    | apply (keeps_mono unref_act), release_pin_did; exact Hu
    | apply (keeps_mono pam_act), close_session_did; exact Hp
    | apply (keeps_mono pam_act), drop_transaction_did; exact Hp
    | apply (keeps_mono control_act), begin_cleanup_did; exact Hc
    | apply (keeps_mono late_act), after_disconnect_did; exact Hl
    | apply (keeps_mono late_act), release_and_report_did; exact Hl ]).
Qed.

(** C12. Whatever happens, the payload of a session gets no signal, one SIGTERM,
    or one SIGTERM and after it one SIGKILL; each goes to the unit that was
    pinned when the scope was made, and before each one the worker and the
    launcher were seen outside its control group and its invocation resolved
    to it. *)
Theorem payload_signals cf sc nonce cycles w :
  let w' := (run_session cf sc nonce cycles w).1 in
  ∃ sent, kills w' = kills w ++ sent ∧
    (λ e, e.1.2) <$> sent `prefix_of` [SIGTERM; SIGKILL] ∧ Forall (guarded sc w) sent.
Proof.
  pose proof (run_session_run cf sc nonce cycles w) as H.
  destruct (run_session cf sc nonce cycles w) as [w' r]. cbn.
  destruct H as [halt _ (l & Hl & _ & es & K & <- & G)
                |x expectation forced proof r (l & Hl & _ & es & K & <- & G) _ Hf].
  - by exists es.
  - exists es. split; [|done]. rewrite <- K. eapply no_kill_mono; [done|].
    by eapply run_did; [apply finalize_did|].
Qed.

(** C10. Nothing is given back without a proof: up to some moment the worker
    does nothing but send signals and still owns the reference on the unit,
    the PAM transaction and the terminal as before; there it either stops (it
    waits for recovery, or the session goes on), or the leader had been reaped
    and the unit was seen ended, then its control group empty, then the unit
    ended again. *)
Theorem given_back_only_when_proven cf sc nonce cycles w :
  let '(w', r) := run_session cf sc nonce cycles w in
  ∃ x, kept w x ∧
    ((w' = x ∧ (r = Err HaltHeld ∨ r = Err HaltRunning)) ∨
     (∃ exit, seen (wk_time w) (reaped exit) x) ∧ empty_proven sc w x ∧
     did no_kill x w' ∧ ∀ halt, r = Err halt → ∃ error, halt = HaltError error).
Proof.
  pose proof (run_session_run cf sc nonce cycles w) as H.
  destruct (run_session cf sc nonce cycles w) as [w' r]. cbn.
  destruct H as [halt Hh (l & _ & Hk & _)|x expectation forced proof r _ (Hk & Hr & He) Hf].
  - exists w'. split; [done|]. left. split; [done|]. destruct Hh as [->| ->]; auto.
  - exists x. split; [done|]. right. split_and!; [by eexists|done| |].
    + by eapply run_did; [apply finalize_did|].
    + destruct r; intros halt [= <-]. by eexists.
Qed.

(** ** Strangers on the control socket *)

(** A connection of somebody else is accepted. *)
Definition stranger (cf : WorkerConfig) (v : WorkerView) : Prop :=
  ∃ peer request, wv_accept v = Accepted peer request ∧ peer ≠ Some (cf_control_uid cf).

Lemma on_control_ok cf st revents w w' inp :
  on_control cf st revents w = (w', Ok inp) →
  asked w w' ∧ (inp = WrongPeer → during (stranger cf) w w').
Proof.
  unfold on_control, sr_bind, see. cbv zeta.
  destruct (has_events POLLIN _); [|intros [= <- <-]; done].
  destruct (wv_accept _) as [| |peer request] eqn:Ha; [by intros [= <- <-]; split; [apply asked_tick|]|done|].
  case_bool_decide; cbn.
  - destruct request as [e|]; [|done]. destruct (authentic_terminate cf e); [|done].
    intros [= <- <-]. split; [apply asked_tick|done].
  - intros [= <- <-]. split; [apply asked_tick|]. intros _.
    apply during_tick. by exists peer, request.
Qed.

(** A trigger is acted on: the cause is recorded, and it is the first one. *)
Lemma on_trigger_cause sc st trigger w w' st' :
  on_trigger sc st trigger w = (w', Ok st') →
  gc_cause (ws_coordinator st') =
    (match gc_cause (ws_coordinator st) with
     | Some cause => Some cause
     | None => if gc_requested (ws_coordinator st) then None else trigger
     end) ∧ ws_leader_reaped st' = ws_leader_reaped st.
Proof.
  unfold on_trigger. destruct trigger as [cause|], (gc_cause (ws_coordinator st)) eqn:Hc;
    try (intros [= <- <-]; rewrite Hc; by try case_match).
  intros H. apply bind_ok in H as (w1 & [c observing] & H1 & H). injection H as <- <-.
  cbn. split; [|done]. unfold graceful_begin in H1.
  destruct (gc_requested (ws_coordinator st)); [by injection H1 as <- <- <-|].
  cbv zeta in H1. ok_run H1. done.
Qed.

Lemma drain_signals_first reads cause trigger :
  drain_signals reads (Some cause) = Some trigger → trigger = Some cause.
Proof.
  induction reads as [|r reads IH]; cbn; [by intros [= <-]|].
  by destruct (read_signal_fd r).
Qed.
Lemma on_signals_first st cause revents w w' trigger :
  on_signals st (Some cause) revents w = (w', Ok trigger) → trigger = Some cause.
Proof.
  unfold on_signals. destruct (has_events POLLIN revents); [|by intros [= <- <-]].
  intros H. ok_run H. by eapply drain_signals_first.
Qed.
Lemma on_channels_first cf cause control supervisor w w' trigger :
  on_channels cf (Some cause) control supervisor w = (w', Ok trigger) → trigger = Some cause.
Proof.
  unfold on_channels. cbv zeta. destruct (has_events BROKEN _), (has_events (Z.lor _ _) _);
    by intros [= <- <-].
Qed.

(** The acts between two moments do not matter to what was seen there. *)
Lemma on_leader_did K st revents : sr_keeps (did K) (on_leader st revents).
Proof. unfold on_leader. did_auto K. Qed.
Lemma on_observer_asked sc st revents : sr_keeps asked (on_observer sc st revents).
Proof. unfold on_observer. asked_auto. Qed.
Lemma on_signals_asked st trigger revents : sr_keeps asked (on_signals st trigger revents).
Proof. unfold on_signals. asked_auto. Qed.
Lemma on_channels_did K cf trigger control supervisor :
  sr_keeps (did K) (on_channels cf trigger control supervisor).
Proof. unfold on_channels. did_auto K. Qed.
Lemma on_deadline_asked st revents : sr_keeps asked (on_deadline st revents).
Proof. unfold on_deadline, consume_deadline. asked_auto. Qed.
Lemma on_trigger_did sc st trigger : sr_keeps (did anything) (on_trigger sc st trigger).
Proof.
  unfold on_trigger, graceful_begin. pose proof (graceful_request_did sc).
  keeps_with (did anything) ltac:(first
    [assumption | apply (keeps_did anything); solve [eauto with asked nocore]]).
Qed.

Lemma on_leader_reaped st revents w w' st' trigger :
  on_leader st revents w = (w', Ok (st', trigger)) →
  gc_cause (ws_coordinator st') = gc_cause (ws_coordinator st) ∧
  gc_requested (ws_coordinator st') = gc_requested (ws_coordinator st) ∧
  gc_timer_armed (ws_coordinator st') = gc_timer_armed (ws_coordinator st) ∧
  (ws_leader_reaped st = false → ws_leader_reaped st' = true → ∃ cause, trigger = Some cause).
Proof.
  unfold on_leader, sr_bind, see. cbv zeta.
  destruct (has_events _ _); [|intros [= <- <- <-]; split_and!; [done..|congruence]].
  destruct (wv_poll_child _) as [[status|]|]; [| |done]; intros [= <- <- <-].
  - cbn. unfold gc_record_leader_exit. destruct (gc_leader_exit _); split_and!; eauto.
  - split_and!; [done..|congruence].
Qed.

(** What one cycle does with its events. *)
Lemma poll_cycle_ok cf sc st w w' st' :
  poll_cycle cf sc st w = (w', Ok st') →
  (st' = st ∧ wv_poll (wk_view w (wk_time w)) = PollInterrupted) ∨ ∃ revents w1 st1 trigger1 w2 trigger,
    on_leader st (revents 0%nat) (wk_tick w) = (w1, Ok (st1, trigger1)) ∧
    did anything w w2 ∧ (∀ cause, trigger1 = Some cause → trigger = Some cause) ∧
    (∀ r, wv_poll (wk_view w (wk_time w)) = PollReady r → revents = r) ∧
    ((st' = st1 ∧ during (stranger cf) w w') ∨
     ∃ w3 st2, on_trigger sc st1 trigger w2 = (w3, Ok st2) ∧
       on_deadline st2 (revents 3%nat) w3 = (w', Ok st')).
Proof.
  unfold poll_cycle. intros H. apply bind_ok in H as (w0 & polled & H0 & H).
  apply see_ok in H0 as [-> ->]. cbv zeta in H.
  assert (∃ revents, (∀ r, wv_poll (wk_view w (wk_time w)) = PollReady r → revents = r)
    ∧ ((st' = st ∧ wv_poll (wk_view w (wk_time w)) = PollInterrupted) ∨ (let* r := on_leader st (revents 0%nat) in
    let '(st, trigger) := r in
    on_observer sc st (revents 5%nat) ;;;
    let* trigger := on_signals st trigger (revents 2%nat) in
    let* trigger := on_channels cf trigger (revents 1%nat) (revents 4%nat) in
    let* input := on_control cf st (revents 1%nat) in
    match input with
    | WrongPeer => sr_ret st
    | _ =>
        let trigger := match input with
                       | TerminateInput => get_or_insert InternalTerminateRequest trigger
                       | _ => trigger
                       end in
        let* st := on_trigger sc st trigger in
        on_deadline st (revents 3%nat)
    end) (wk_tick w) = (w', Ok st'))) as (revents & Hr & [?|Hh]); [|by left|].
  { destruct (wv_poll _) as [| | |revents].
    - exists (λ _, 0). split; [done|by right].
    - injection H as <- <-. exists (λ _, 0). split; [done|by left].
    - done.
    - exists revents. split; [by intros r [= ->]|by right]. }
  right. clear H. apply bind_ok in Hh as (w1 & [st1 trigger1] & H1 & Hh).
  apply bind_ok in Hh as (w2 & [] & H2 & Hh). apply bind_ok in Hh as (w3 & trigger3 & H3 & Hh).
  apply bind_ok in Hh as (w4 & trigger4 & H4 & Hh). apply bind_ok in Hh as (w5 & inp & H5 & Hh).
  pose proof (run_did _ _ _ _ _ (on_leader_did anything _ _) H1).
  pose proof (run_asked _ _ _ _ (on_observer_asked _ _ _) H2).
  pose proof (run_asked _ _ _ _ (on_signals_asked _ _ _) H3).
  pose proof (run_did _ _ _ _ _ (on_channels_did anything _ _ _ _) H4).
  apply on_control_ok in H5 as [H5 Hs].
  assert (did anything w w5) as Hw5 by did_run.
  assert (∀ cause, trigger1 = Some cause → trigger4 = Some cause) as Ht.
  { intros cause ->. apply on_signals_first in H3 as ->. by apply on_channels_first in H4. }
  exists revents, w1, st1, trigger1, w5.
  destruct inp.
  - exists trigger4. split_and!; try done. right.
    apply bind_ok in Hh as (w6 & st2 & HT & Hh). by exists w6, st2.
  - exists trigger4. split_and!; try done. left. injection Hh as <- <-. split; [done|].
    specialize (Hs eq_refl). during_run.
  - exists (get_or_insert InternalTerminateRequest trigger4).
    split_and!; try done; [intros cause Hc; by rewrite (Ht cause Hc)|]. right.
    apply bind_ok in Hh as (w6 & st2 & HT & Hh). by exists w6, st2.
Qed.

Lemma on_deadline_ok st revents w w' st' :
  on_deadline st revents w = (w', Ok st') →
  st' = st ∧ (has_events POLLIN revents = true → gc_timer_armed (ws_coordinator st) = true →
    during (λ v, wv_timer_read v = Ok false) w w').
Proof.
  unfold on_deadline, consume_deadline, sr_bind. cbv zeta.
  destruct (has_events POLLIN revents); [|by intros [= <- <-]].
  destruct (gc_timer_armed _); [|by intros [= <- <-]]. cbn.
  destruct (wv_timer_read _) as [[]|] eqn:Hr; [done| |done]. intros [= <- <-].
  split; [done|]. intros _ _. by apply during_tick.
Qed.

(** A cycle in which the wait goes on misses nothing: when it reaped the
    leader, the end of the session has a cause from then on; when the grace
    period was over, the timer said that it was not; except that a stranger
    was turned away on the control socket. *)
Theorem cycle_misses_nothing cf sc st w w' st' :
  coherent st → poll_cycle cf sc st w = (w', Ok st') →
  during (stranger cf) w w' ∨
  ((ws_leader_reaped st = false → ws_leader_reaped st' = true →
    gc_cause (ws_coordinator st') ≠ None) ∧
   ∀ revents, wv_poll (wk_view w (wk_time w)) = PollReady revents →
     gc_timer_armed (ws_coordinator st) = true → has_events POLLIN (revents 3%nat) = true →
     during (λ v, wv_timer_read v = Ok false) w w').
Proof.
  intros Hc H. apply poll_cycle_ok in H as [[-> Hp]|
    (revents & w1 & st1 & trigger1 & w2 & trigger & HL & Hd & Ht & Hr & [[-> Hs]|
     (w3 & st2 & HT & HD)])].
  { right. split; [congruence|]. intros r Hr. congruence. }
  { by left. }
  right. apply on_leader_reaped in HL as (L1 & L2 & L3 & L4).
  pose proof (run_did _ _ _ _ _ (on_trigger_did _ _ _) HT) as HTd.
  pose proof (on_trigger_cause _ _ _ _ _ _ HT) as [C1 C2]. unfold coherent in Hc.
  pose proof (run_asked _ _ _ _ (on_deadline_asked _ _) HD) as HDa.
  apply on_deadline_ok in HD as [-> Hdead]. split.
  - rewrite C2. intros Hf Htrue. destruct (L4 Hf Htrue) as [cause Hcause].
    rewrite C1, L1, L2, (Ht _ Hcause). destruct (gc_cause (ws_coordinator st)); [done|].
    by destruct Hc as (-> & _).
  - intros r Hpoll Harmed Hev. rewrite (Hr r Hpoll) in Hdead.
    destruct (gc_cause (ws_coordinator st)) eqn:Hcause; [|destruct Hc as (_ & ? & _); congruence].
    unfold on_trigger in HT. rewrite L1 in HT.
    assert (st2 = st1) as -> by (destruct trigger; by injection HT).
    rewrite L3 in Hdead. specialize (Hdead Hev Harmed). during_run.
Qed.

(** Nothing happens but that the descriptor of the leader may be ready. *)
Definition quiet_poll (p : PollAnswer) : Prop :=
  match p with
  | PollTimedOut | PollInterrupted => True
  | PollFailed => False
  | PollReady revents =>
      revents 1%nat = 0 ∧ revents 2%nat = 0 ∧ revents 3%nat = 0 ∧ revents 4%nat = 0
  end.
Definition quiet_from (w : Worker) (t : nat) : Prop :=
  ∀ t', (t ≤ t')%nat → quiet_poll (wv_poll (wk_view w t')).

(** A worker that has reaped the leader without a cause waits on. *)
Lemma reaped_without_cause cf sc cycles c w :
  gc_cause c = None → quiet_from w (wk_time w) →
  wait_cycles (E:=Halt) cf sc cycles (mkWait c true false) w = (advance cycles w, Ok WaitRunning).
Proof.
  intros Hc. revert w. induction cycles as [|cycles IH]; intros w Hq.
  { by destruct w. }
  cbn. unfold sr_bind, attempt.
  assert (poll_cycle cf sc (mkWait c true false) w = (wk_tick w, Ok (mkWait c true false))) as ->.
  { specialize (Hq (wk_time w) ltac:(lia)). unfold poll_cycle, sr_bind, see. cbn.
    destruct (wv_poll (wk_view w (wk_time w))) as [| | |revents]; [|done..|].
    - unfold on_channels, on_control. cbn. by destruct (cf_has_listener cf), (0 <=? _).
    - destruct Hq as (H1 & H2 & H3 & H4).
      unfold on_leader, on_observer, on_signals, on_channels, on_control, on_trigger, on_deadline,
        sr_bind, sr_ret. cbn. rewrite H1, H2, H3, H4.
      by destruct (cf_has_listener cf), (0 <=? cf_supervisor_fd cf). }
  rewrite IH; [|intros t' Ht'; apply Hq; cbn in *; lia].
  f_equal. unfold advance, set_child. cbn. f_equal. lia.
Qed.

(** A stranger that connects in the cycle in which the leader is reaped hides
    the end of the session: the worker never acts on it, for as long as
    nothing else happens, and sends no SIGTERM to what the leader left. *)
Theorem stranger_hides_leader_exit cf sc w revents status peer request cycles :
  let t := wk_time w in
  cf_has_listener cf = true →
  wv_poll (wk_view w t) = PollReady revents →
  has_events (Z.lor POLLIN POLLHUP) (revents 0%nat) = true → revents 1%nat = POLLIN →
  revents 2%nat = 0 → revents 4%nat = 0 →
  wv_poll_child (wk_view w (S t)) = Ok (Some status) →
  wv_accept (wk_view w (S (S t))) = Accepted peer request → peer ≠ Some (cf_control_uid cf) →
  quiet_from w (S (S (S t))) →
  wait_cycles (E:=Halt) cf sc (S cycles) (mkWait graceful_new false false) w =
    (set_child NoChild (advance (3 + cycles) w), Ok WaitRunning).
Proof.
  cbv zeta. intros Hl Hp H0 H1 H2 H4 Hchild Haccept Hpeer Hq. cbn [wait_cycles].
  unfold sr_bind, attempt.
  assert (poll_cycle cf sc (mkWait graceful_new false false) w =
    (set_child NoChild (advance 3 w), Ok (mkWait (gc_record_leader_exit (leader_exit_of status) graceful_new)
                        true false))) as ->.
  { unfold poll_cycle, sr_bind, see. rewrite Hp. cbn beta.
    unfold on_leader, sr_bind, see. cbn. rewrite H0. cbn. rewrite Hchild.
    unfold on_observer, on_signals, on_channels, on_control, sr_bind, see, sr_ret. cbn.
    rewrite H1, H2, H4, Hl. destruct (0 <=? cf_supervisor_fd cf); cbn;
      change (has_events POLLIN 0) with false;
      change (has_events (Z.lor POLLIN BROKEN) 0) with false;
      change (has_events BROKEN POLLIN) with false;
      change (has_events POLLIN POLLIN) with true; cbn; rewrite Haccept;
      (rewrite bool_decide_false by done); done. }
  rewrite reaped_without_cause; [|done|exact Hq].
  f_equal. unfold advance, set_child. cbn. f_equal. lia.
Qed.
