(* ===== verification/WorkerSession.v ===== *)
(** * A worker, from its request to its end

    [run_worker_process] of [niralis-session-worker/src/runtime]: the request
    ([entrypoint.rs]), the PAM session ([pam_session/*.rs], one definition per
    file), the registration of the payload's scope with the supervisor
    ([supervisor_ack.rs], [scope_release.rs]) and what is dropped when the
    worker returns.  A worker that waits for recovery never returns and drops
    nothing. *)

From stdpp Require Import base gmap sets list strings pretty.
From Stdlib Require Import ZArith Lia.
From S2P Require Import Prelude Text Paths Ledger Admission Protocol Daemon.
From S2P Require Import WorkerRecord.
From S2P Require Import Supervisor Launch CgroupState HostWorld WorkerIdentity.
From S2P Require Import WorkerChild.
From S2P Require Import WorkerWorld WorkerScope WorkerResources.
From S2P Require Import WorkerTermination.
#[local] Open Scope niralis_scope.

(** [PamSessionLaunch], with the worker's own pid and descriptors. *)
Record PamSessionLaunch := mkLaunch {
  pl_username : string;
  pl_session : SessionInfo;
  pl_session_child_path : string;
  pl_session_probe_path : string;
  pl_control_path : string;
  pl_worker_id : string;
  pl_launcher_pid : Z;
  pl_launch_plan : SessionExecPlan;
  pl_login_identity : WorkerTransactionIdentity;
  pl_process_id : Z;
  pl_supervisor_fd : Z;
}.

Abbreviation HW := (WK Halt).
Definition halt_error {A} (e : SessionError) : HW A := sr_fail (HaltError e).

(** ** Answers to the supervisor *)

Definition write_envelope (response : WorkerResponse) : WK SessionError () :=
  let* written := perform (ActReply response) wv_reply in sr_lift written.
(** [write_envelope(..)?] and the error the code returns after it. *)
Definition answer {A} (response : WorkerResponse) (e : SessionError) : HW A :=
  sr_map_err HaltError (write_envelope response) ;;; halt_error e.
Definition session_failed {A} (code : WorkerSessionFailureCode) : HW A :=
  answer (WrSessionFailed code) AuthenticatedSessionFailed.
Definition reject {A} (code : WorkerErrorCode) : HW A :=
  answer (WrRejected code) WorkerRejected.
(** [drop(transaction)] and then the answer. *)
Definition refuse {A} (code : WorkerSessionFailureCode) : HW A :=
  drop_transaction ;;; session_failed code.
(** [kill_and_reap]: a child that has exited is left alone. *)
Definition kill_and_reap {E} : WK E () :=
  let* exited := see wv_child_exited in
  if bool_decide (exited = Some true) then sr_ret ()
  else perform ActKillChild (λ _, ()) ;;; perform ActReapChild (λ _, ()).
(** [pending_handoff.abort()]. *)
Definition abort_child {E} : WK E () :=
  kill_and_reap ;;; sr_modify (set_child NoChild).
Definition abort_refuse {A} (code : WorkerSessionFailureCode) : HW A :=
  abort_child ;;; refuse code.

(** ** Before the session is open, [pre_open.rs] *)

(** [bind_control_listener]: no listener for an empty path. *)
Definition bind_control_listener (path : string) : HW bool :=
  if str_is_empty path then sr_ret false
  else
    let* exists_already := see (λ v, wv_path_exists v path) in
    if negb (is_absolute path) || exists_already then halt_error WorkerProtocolFailed
    else
      let* bound := see wv_bind_listener in
      if bound : bool then sr_ret true else halt_error WorkerIoFailed.

Definition session_type (kind : SessionKind) : string :=
  match kind with Wayland => "wayland" | X11 => "x11" end.
Definition pam_metadata (l : PamSessionLaunch) (vtnr : Z) : PamSessionMetadata :=
  mkPamMetadata (session_type (si_kind (pl_session l))) "user" (si_id (pl_session l))
    (Some "seat0") (Some vtnr) (Some ("/dev/tty" +:+ pretty vtnr)).

(** The canonical identity; a lookup that does not end is none
    ([user_lookup_ends]). *)
Definition resolve_identity (username : string) : HW UnixIdentity :=
  let* found := see (λ v, lookup_user_with (wv_passwd_size v) (wv_passwd v) username) in
  match found with
  | Some (Ok identity) => sr_ret identity
  | _ => refuse IdentityResolutionFailed
  end.
Definition resolve_credentials (identity : UnixIdentity) : HW ResolvedUnixCredentials :=
  let* groups := see (λ v, resolve_groups_with (wv_ngroups_max v) (wv_groups v) identity) in
  match groups with
  | Ok groups => sr_ret (mkUnixCredentials identity groups)
  | Err _ => refuse SupplementaryGroupsResolutionFailed
  end.

Definition this_vtnr {E} : WK E Z := λ w,
  (w, Ok (match wk_terminal w with Some g => vg_vtnr g | None => 0 end)).

(** What the stages hand on. *)
Record OpenedSession := mkOpened {
  os_watchdog : Z;
  os_listener : bool;
  os_credentials : ResolvedUnixCredentials;
}.

Definition check_launch (l : PamSessionLaunch) : HW Z :=
  if negb (validate_exec_plan (pl_launch_plan l)) then session_failed LaunchSpecMalformed
  else
    let* metadata := see (λ v, wv_executable v (xp_executable (pl_launch_plan l))) in
    if negb (executable_ok metadata) then session_failed ExecutableUnavailable
    else
      let* authorized := see (λ v, authorize_real_graphical_smoke (wv_environment v)
                                     (si_id (pl_session l))) in
      match authorized with
      | Err _ => reject RealGraphicalSessionNotAuthorized
      | Ok seconds =>
          let* membership := see (λ v, resolve_by_pid (wv_sd_login v) (pl_process_id l)) in
          match membership with
          | Ok (Some _) => session_failed WorkerAlreadyInLogindSession
          | _ => sr_ret seconds
          end
      end.

Definition pre_open (l : PamSessionLaunch) : HW OpenedSession :=
  let* watchdog := check_launch l in
  let* listener := bind_control_listener (pl_control_path l) in
  let* allocated := attempt (allocate "seat0") in
  match allocated with
  | Err _ => session_failed OpenFailed
  | Ok _ =>
      let* authenticated := attempt authenticate in
      match authenticated with
      | Err _ => answer WrAuthenticationFailed AuthenticationFailed
      | Ok pam_username =>
          let* identity := resolve_identity pam_username in
          let* credentials := resolve_credentials identity in
          let* vtnr := this_vtnr in
          let* opened := attempt (open_session (pam_metadata l vtnr)) in
          match opened with
          | Ok _ => sr_ret (mkOpened watchdog listener credentials)
          | Err OpenRefused => refuse OpenFailed
          | Err OpenPanicked => refuse InternalPanic
          end
      end
  end.

(** ** The environment, [opened_environment.rs] *)

Record PreparedSession := mkPrepared {
  ps_opened : OpenedSession;
  ps_logind : LogindSessionIdentity;
  ps_runtime : SessionChildRuntimeContext;
  ps_selinux : option string;
}.

Definition check_logind (l : PamSessionLaunch) (uid vtnr pid : Z)
    : HW (option LogindSessionIdentity) :=
  let* found := see (λ v, resolve_by_pid (wv_sd_login v) pid) in
  sr_ret (match found with
          | Ok (Some identity) =>
              if valid_logind_identity identity uid (session_type (si_kind (pl_session l)))
                   (si_id (pl_session l)) "seat0" vtnr
              then Some identity else None
          | _ => None
          end).

Definition runtime_context (l : PamSessionLaunch) (vtnr : Z) (credentials : ResolvedUnixCredentials)
    (logind : LogindSessionIdentity) (environment : PamSessionEnvironment)
    (context : option string) : option SessionChildRuntimeContext :=
  let identity := uc_identity credentials in
  match unix_path_new (un_home identity), unix_path_new (un_shell identity),
        unix_path_new (pl_session_probe_path l) with
  | Some home, Some shell, Some probe_path =>
      Some (mkRuntimeContext home shell (session_type (si_kind (pl_session l))) "user"
              (si_id (pl_session l)) (li_id logind) (pe_runtime_dir environment) "seat0" vtnr
              None (pe_imported_locale environment) context probe_path (pl_launch_plan l))
  | _, _, _ => None
  end.

Definition opened_environment (l : PamSessionLaunch) (o : OpenedSession) : HW PreparedSession :=
  let uid := un_uid (uc_identity (os_credentials o)) in
  let* environment := attempt session_environment in
  match environment with
  | Err _ => refuse RuntimeEnvironmentFailed
  | Ok environment =>
      let* vtnr := this_vtnr in
      let* logind := check_logind l uid vtnr (pl_process_id l) in
      match logind with
      | None => refuse LogindFailed
      | Some logind =>
          if negb (str_eqb (pe_session_id environment) (li_id logind))
          then refuse LogindSessionIdMismatch
          else
            let dir := pe_runtime_dir environment in
            let* checked_dir := see (λ v, validate_runtime_dir dir (wv_link_metadata v dir)
                                            (wv_metadata v dir) uid) in
            if negb (is_ok checked_dir) then refuse RuntimeDirectoryInvalid
            else
              let* context := see (λ v, capture_pending (wv_selinux v)) in
              match context with
              | Err _ => refuse SessionChildFailed
              | Ok context =>
                  let* cleared := match context with
                                  | Some _ => see (λ v, is_ok (clear_pending (wv_selinux v)))
                                  | None => sr_ret true
                                  end in
                  if negb cleared then refuse SessionChildFailed
                  else
                    let* duplicated := see wv_dup_terminal in
                    if negb duplicated then refuse SessionChildFailed
                    else if negb (is_absolute (pl_session_child_path l))
                    then refuse SessionChildFailed
                    else match runtime_context l vtnr (os_credentials o) logind environment
                                 context with
                    | None => refuse SessionChildFailed
                    | Some runtime => sr_ret (mkPrepared o logind runtime context)
                    end
              end
      end
  end.

(** ** The child and its scope, [opened_handoff_scope.rs] *)

Record ScopedSession := mkScoped {
  sp_prepared : PreparedSession;
  sp_deadline : Z;
  sp_report : ReadyResponse;
  sp_pidfd : Z;
  sp_scope : SystemdPayloadScope;
}.

Definition expectation (l : PamSessionLaunch) (p : PreparedSession) (vtnr : Z)
    : SessionChildExpectation :=
  let credentials := os_credentials (ps_opened p) in
  mkExpectation (un_username (uc_identity credentials)) (si_id (pl_session l))
    (drop_target credentials) (ps_runtime p)
    (Some (mkTerminalContext "seat0" vtnr 3 4 vtnr)).

(** [run_child_until_ready] of the runner; a child that is not accepted is
    killed with its attempt. *)
Definition spawn_child (e : SessionChildExpectation) : HW (option (ReadyResponse * Z)) :=
  let* r := perform ActSpawnChild
              (λ v, run_child_until_ready (wv_child v) (wv_child_payload v) e) in
  match r with
  | Err _ => sr_ret None
  | Ok ready => sr_modify (set_child ChildPending) ;;; sr_ret (Some ready)
  end.

(** [pending_worker_signal]. *)
Definition pending_worker_signal : HW bool :=
  let* reads := see wv_signals in
  match reads with
  | [] => sr_ret false
  | r :: _ => if bool_decide (read_signal_fd r = None) then halt_error WorkerIoFailed
              else sr_ret true
  end.
Definition watchdog_expired (deadline : Z) : HW bool :=
  let* now := see wv_now in sr_ret (deadline <=? now).

Definition NANOSECONDS : Z := 1000 * 1000 * 1000.

Definition opened_handoff_scope (l : PamSessionLaunch) (p : PreparedSession) : HW ScopedSession :=
  let o := ps_opened p in
  let uid := un_uid (uc_identity (os_credentials o)) in
  let* now := see wv_now in
  let deadline := now + os_watchdog o * NANOSECONDS in
  let* vtnr := this_vtnr in
  let* ready := spawn_child (expectation l p vtnr) in
  match ready with
  | None => refuse SessionChildFailed
  | Some (report, pidfd) =>
      let* signal := pending_worker_signal in
      if signal : bool then abort_refuse SessionChildFailed
      else
        let* late := watchdog_expired deadline in
        if late : bool then abort_refuse SessionChildFailed
        else if negb (valid_terminal_proof report "seat0" vtnr)
        then abort_refuse SessionChildFailed
        else
          let* logind := check_logind l uid vtnr (ry_child_pid report) in
          if negb (match logind with
                   | Some identity => str_eqb (li_id identity) (li_id (ps_logind p))
                   | None => false
                   end) then abort_refuse LogindFailed
          else
            let* active := attempt (activate_terminal 1000) in
            if negb (is_ok active) then abort_refuse SessionChildFailed
            else
              let* late := watchdog_expired deadline in
              if late : bool then abort_refuse SessionChildFailed
              else if negb (os_listener o) then abort_refuse SessionChildFailed
              else if bool_decide (LogindSessionId_new (li_id (ps_logind p)) = None)
              then halt_error AuthenticatedSessionFailed
              else
                let ids := ry_process_identity report in
                let* scope := attempt (prepare (ry_child_pid report)
                                (mkProcessIdentity (ids_pid ids) (ids_sid ids) (ids_pgid ids))
                                pidfd uid (li_id (ps_logind p)) (pl_process_id l)
                                (pl_launcher_pid l) deadline) in
                match scope with
                | Err _ => abort_refuse SessionChildFailed
                | Ok scope => sr_ret (mkScoped p deadline report pidfd scope)
                end
  end.

(** ** The supervisor's word, [supervisor_ack.rs] and [scope_release.rs] *)

Definition worker_config (l : PamSessionLaunch) (p : ScopedSession) : WorkerConfig :=
  mkWorkerConfig (pl_worker_id l) (pl_process_id l) (ry_child_pid (sp_report p))
    (ids_pgid (ry_process_identity (sp_report p))) 0 (os_listener (ps_opened (sp_prepared p)))
    (pl_supervisor_fd l) (sp_pidfd p).
(** [registration_nonce]: the invocation of the scope. *)
Definition registration_nonce (p : ScopedSession) : string := sc_invocation_id (sp_scope p).
(** [login_identity.stage = ..]. *)
Definition at_stage (stage : string) (i : WorkerTransactionIdentity) : WorkerTransactionIdentity :=
  mkWorkerTransaction (wt_transaction_id i) (wt_admission_attempt_id i) (wt_lifecycle_id i)
    (wt_seat i) (wt_seat_generation i) stage.

(** [deadline.checked_duration_since(now)] and the poll. *)
Definition poll_until (deadline : Z) : WK SessionError (nat → Z) :=
  let* now := see wv_now in
  ensure now <=? deadline else WorkerTimedOut ;;;
  let* polled := see wv_poll in
  match polled with
  | PollTimedOut => sr_fail WorkerTimedOut
  | PollInterrupted | PollFailed => sr_fail WorkerIoFailed
  | PollReady revents => sr_ret revents
  end.

Definition registered (cf : WorkerConfig) (nonce : string) (identity : WorkerTransactionIdentity)
    (e : WorkerControlEnvelope) : bool :=
  match wc_message e with
  | WcPayloadScopeRegistered transaction id pid n =>
      (wc_version e =? WORKER_CONTROL_PROTOCOL_VERSION) && str_eqb id (cf_worker_id cf)
      && (pid =? cf_process_id cf) && str_eqb n nonce
      && matches_worker transaction identity "scope_registered" 1
  | _ => false
  end.

(** A failed read of a broken channel is the broken channel's error. *)
Definition read_acknowledgement (cf : WorkerConfig) (nonce : string)
    (identity : WorkerTransactionIdentity) (events : Z) : WK SessionError () :=
  duplicate_supervisor_channel cf ;;;
  let* read := see wv_control_read in
  match read with
  | Ok e => ensure registered cf nonce identity e else WorkerProtocolFailed
  | Err error => sr_fail (if has_events BROKEN events then AuthenticatedSessionFailed
                          else error)
  end.
Definition await_payload_scope_ack (cf : WorkerConfig) (nonce : string)
    (identity : WorkerTransactionIdentity) (deadline : Z) : WK SessionError () :=
  let* revents := poll_until deadline in
  if has_events POLLIN (revents 0%nat) then sr_fail AuthenticatedSessionFailed
  else if has_events POLLIN (revents 1%nat)
  then read_acknowledgement cf nonce identity (revents 1%nat)
  else if has_events BROKEN (revents 1%nat) then sr_fail AuthenticatedSessionFailed
  else sr_fail WorkerIoFailed.

Inductive PayloadScopeReleaseOutcome := Released | RecoveryRequired.
#[export] Instance PayloadScopeReleaseOutcome_eq_dec : EqDecision PayloadScopeReleaseOutcome.
Proof. solve_decision. Defined.

Definition this_release (cf : WorkerConfig) (nonce release_nonce id : string) (pid : Z)
    (n rn : string) : bool :=
  str_eqb id (cf_worker_id cf) && (pid =? cf_process_id cf) && str_eqb n nonce
  && str_eqb rn release_nonce.
Definition release_outcome (cf : WorkerConfig) (nonce release_nonce : string)
    (identity : WorkerTransactionIdentity) (e : WorkerControlEnvelope)
    : option PayloadScopeReleaseOutcome :=
  if negb (wc_version e =? WORKER_CONTROL_PROTOCOL_VERSION) then None
  else match wc_message e with
  | WcPayloadScopeReleased transaction id pid n rn =>
      if this_release cf nonce release_nonce id pid n rn
         && matches_worker transaction identity "scope_released" 3
      then Some Released else None
  | WcPayloadScopeRecoveryRequired transaction id pid n rn _ =>
      if this_release cf nonce release_nonce id pid n rn
         && matches_worker transaction identity "scope_recovery_required" 3
      then Some RecoveryRequired else None
  | _ => None
  end.

Definition release_requested (cf : WorkerConfig) (nonce release_nonce : string)
    (scope : PayloadScopeIdentity) (identity : WorkerTransactionIdentity)
    (local_cleanup_succeeded : bool) : WorkerControlRequest :=
  WcPayloadScopeReleaseRequested (from_worker identity "scope_release_requested" 2)
    (cf_worker_id cf) (cf_process_id cf) nonce release_nonce scope local_cleanup_succeeded.

Definition request_payload_scope_release (cf : WorkerConfig) (nonce : string)
    (scope : PayloadScopeIdentity) (identity : WorkerTransactionIdentity)
    (local_cleanup_succeeded : bool) (deadline : Z)
    : WK SessionError PayloadScopeReleaseOutcome :=
  write_envelope (WrPayloadScopeReleaseReady (cf_worker_id cf)) ;;;
  duplicate_supervisor_channel cf ;;;
  let* random := see wv_random in
  let* bytes := sr_lift (ok_or random WorkerIoFailed) in
  let release_nonce := hex_of_bytes bytes in
  write_control_request
    (release_requested cf nonce release_nonce scope identity local_cleanup_succeeded) ;;;
  let* revents := poll_until deadline in
  ensure has_events POLLIN (revents 0%nat) else WorkerIoFailed ;;;
  let* e := read_control_request in
  sr_lift (ok_or (release_outcome cf nonce release_nonce identity e) WorkerProtocolFailed).

(** ** Registration, [opened_registration.rs] *)

Definition scope_release (l : PamSessionLaunch) (p : ScopedSession) (succeeded : bool)
    : WK SessionError PayloadScopeReleaseOutcome :=
  request_payload_scope_release (worker_config l p) (registration_nonce p)
    (sc_identity (sp_scope p)) (at_stage "scope_prepared" (pl_login_identity l)) succeeded
    (sp_deadline p).
(** [cleanup] and [cleanup_preserving_pin]. *)
Definition cleanup_scope {E} (p : ScopedSession) (release : bool) : WK E bool :=
  let* cleaned := attempt (cleanup_unit (sp_scope p) (sp_deadline p) release) in
  sr_ret (is_ok cleaned).

(** Before the commit: the probe is killed, its scope stopped and given back
    when the supervisor verified that it is gone; otherwise everything is kept
    for recovery. *)
Definition abandon_registered {A} (l : PamSessionLaunch) (p : ScopedSession) : HW A :=
  abort_child ;;;
  let* succeeded := cleanup_scope p false in
  let* release := attempt (scope_release l p succeeded) in
  match release with
  | Ok Released =>
      let* unpinned := attempt (release_pin (sp_scope p)) in
      if is_ok unpinned then refuse SessionChildFailed else sr_fail HaltHeld
  | _ => sr_fail HaltHeld
  end.

Definition scope_prepared (l : PamSessionLaunch) (p : ScopedSession) : WorkerResponse :=
  WrPayloadScopePrepared (pl_worker_id l) (at_stage "scope_prepared" (pl_login_identity l))
    (pl_process_id l) (ry_child_pid (sp_report p)) (registration_nonce p)
    (sc_identity (sp_scope p)).
Definition opened_registration (l : PamSessionLaunch) (p : ScopedSession) : HW () :=
  let identity := at_stage "scope_prepared" (pl_login_identity l) in
  let* written := attempt (write_envelope (scope_prepared l p)) in
  match written with
  | Err error =>
      abort_child ;;;
      let* _ := cleanup_scope p true in
      drop_transaction ;;; halt_error error
  | Ok _ =>
      let* acknowledged := attempt (await_payload_scope_ack (worker_config l p)
                                      (registration_nonce p) identity (sp_deadline p)) in
      if is_ok acknowledged then sr_ret () else abandon_registered l p
  end.

(** ** The commit, [opened_commit.rs] *)

(** [commit_exec]; a handoff that fails is dropped and kills the probe. *)
Definition commit_status : WK () () :=
  let* sent := perform ActCommitExec wv_commit_sent in
  ensure sent else () ;;;
  let* status := see wv_exec_status in
  ensure (match status with Ok true => true | _ => false end) else () ;;;
  let* exited := see wv_child_exited in
  ensure bool_decide (exited = Some false) else ().
Definition commit_exec (pgid : Z) : HW bool :=
  let* committed := attempt commit_status in
  match committed with
  | Ok _ => sr_modify (set_child (ChildLive pgid)) ;;; sr_ret true
  | Err _ => abort_child ;;; sr_ret false
  end.

(** After the commit: the scope is cleaned up and released, and what the
    supervisor answers is ignored. *)
Definition abandon_committed {A} (l : PamSessionLaunch) (p : ScopedSession)
    (code : WorkerSessionFailureCode) : HW A :=
  let* succeeded := cleanup_scope p true in
  let* _ := attempt (scope_release l p succeeded) in
  refuse code.

(** The context the payload runs in is the one PAM asked for. *)
Definition context_proven (p : ScopedSession) : HW bool :=
  match ps_selinux (sp_prepared p) with
  | None => sr_ret true
  | Some expected =>
      let* observed := see (λ v, context_for_pid (wv_selinux v)
                                   (ry_child_pid (sp_report p))) in
      sr_ret (match observed with Ok context => str_eqb expected context | Err _ => false end)
  end.
(** The process group is signalled; a group that is gone is no error. *)
Definition valid_group (pgid : Z) : bool := (0 <? pgid) && (pgid <=? 2147483647).
Definition terminate_group (pgid signal : Z) : WK SessionChildError () :=
  ensure valid_group pgid else ScIoFailed ;;;
  let* errno := perform (ActSignalGroup pgid signal) wv_group_kill in
  ensure bool_decide (errno = None ∨ errno = Some WK_ESRCH) else ScIoFailed.
(** The polls until the grace period is over, the first of which is always
    made: the exit of the child, if it was seen. *)
Fixpoint await_exit (answer : result (option ExitStatus) ())
    (rest : list (result (option ExitStatus) ())) : result (option ExitStatus) SessionChildError :=
  match answer with
  | Err _ => Err ScIoFailed
  | Ok (Some status) => Ok (Some status)
  | Ok None => match rest with [] => Ok None | answer :: rest => await_exit answer rest end
  end.
(** [child_runner.terminate]: the runner gives its child up at once. *)
Definition terminate_child : WK SessionChildError ExitStatus := λ w,
  match wk_child w with
  | ChildLive pgid =>
      (sr_modify (set_child NoChild) ;;;
       attempt (terminate_group pgid SIGTERM) ;;;
       let* polls := see wv_child_waits in
       let* exited := sr_lift (await_exit polls.1 polls.2) in
       match exited with
       | Some status => sr_ret status
       | None =>
           terminate_group pgid SIGKILL ;;;
           let* status := perform ActReapChild wv_child_wait in
           sr_lift (ok_or status ScIoFailed)
       end) w
  | _ => (w, Err ScIoFailed)
  end.

Definition opened_commit (l : PamSessionLaunch) (p : ScopedSession) : HW () :=
  let* signal := pending_worker_signal in
  if signal : bool then abandon_registered l p
  else
    let* committed := commit_exec (ids_pgid (ry_process_identity (sp_report p))) in
    if negb committed then abandon_committed l p CommitFailed
    else
      let* proven := context_proven p in
      if negb proven then attempt terminate_child ;;; abandon_committed l p SessionChildFailed
      else sr_ret ().

(** ** The session, [opened_running.rs] *)

Definition started (l : PamSessionLaunch) (p : ScopedSession) : WorkerResponse :=
  WrStarted (mkStarted (pl_username l) (pl_session l)) (ry_child_pid (sp_report p))
    (ids_pgid (ry_process_identity (sp_report p))) (ry_exec_probe_version (sp_report p))
    (pl_worker_id l) (li_id (ps_logind (sp_prepared p)))
    (at_stage "started" (pl_login_identity l)).
Definition opened_running (l : PamSessionLaunch) (cycles : nat) (p : ScopedSession) : HW () :=
  sr_map_err HaltError (write_envelope (started l p)) ;;;
  run_session (worker_config l p) (sp_scope p) (registration_nonce p) cycles.

(** ** Everything, [pam_session.rs] *)

Definition opened (l : PamSessionLaunch) (cycles : nat) (p : ScopedSession) : HW () :=
  opened_registration l p ;;; opened_commit l p ;;; opened_running l cycles p.
Definition session_body (l : PamSessionLaunch) (cycles : nat) : HW () :=
  let* o := pre_open l in
  let* e := opened_environment l o in
  let* p := opened_handoff_scope l e in
  opened l cycles p.

(** What a worker that returns drops, in this order: the pending handoff or the
    runner with its child, the transaction and the terminal. *)
Definition drop_child {E} : WK E () := λ w,
  match wk_child w with
  | NoChild => (w, Ok ())
  | ChildPending => abort_child w
  | ChildLive pgid =>
      (attempt (terminate_group pgid SIGKILL) ;;; perform ActReapChild (λ _, ()) ;;;
       sr_modify (set_child NoChild)) w
  end.
Definition drops {E} : WK E () := drop_child ;;; drop_transaction ;;; drop_terminal.

Definition run_pam_session (l : PamSessionLaunch) (cycles : nat) : HW () := λ w,
  let '(w', r) := session_body l cycles w in
  match r with
  | Ok _ | Err (HaltError _) => let '(w'', _) := drops (E:=Halt) w' in (w'', r)
  | Err _ => (w', r)
  end.

(** ** The request, [entrypoint.rs] *)

Inductive WorkerRequest :=
| WqPrepareSession (username : string) (session : SessionInfo)
| WqPamSession (launch : PamSessionLaunch).

Definition supervisor_peer_matches (l : PamSessionLaunch) : HW bool :=
  if pl_supervisor_fd l <? 0 then sr_ret false
  else
    let* duplicated := see wv_dup_channel in
    if negb duplicated then sr_ret false
    else
      let* peer := see wv_channel_peer in
      sr_ret (bool_decide (peer = Some (0, pl_launcher_pid l))).

Definition run_worker_process (envelope : result (Z * WorkerRequest) SessionError) (cycles : nat)
    : HW () :=
  match envelope with
  | Err WorkerProtocolFailed => reject InvalidRequest
  | Err _ => reject InternalError
  | Ok (version, request) =>
      if negb (version =? WORKER_PROTOCOL_VERSION) then reject UnsupportedVersion
      else match request with
      | WqPrepareSession username session =>
          sr_map_err HaltError (write_envelope (WrReady (mkStarted username session)))
      | WqPamSession l =>
          if str_is_empty (pl_control_path l) then run_pam_session l cycles
          else
            let* peer := supervisor_peer_matches l in
            if negb peer then reject InvalidRequest
            else
              sr_map_err HaltError (write_envelope
                (WrPreparing (pl_worker_id l) (at_stage "preparing" (pl_login_identity l)))) ;;;
              run_pam_session l cycles
      end
  end.
