(* ===== verification/WorkerSessionSafety.v ===== *)
(** * A worker's launch, from the request to the end

    What [WorkerSession] promises: the payload is executed only after the
    supervisor acknowledged its scope and is announced only after it was
    executed; a worker that returns has ended its child, its PAM transaction
    and its terminal, and one that does not return still holds them; in which
    order a session that ended is given back; and the release of a scope is
    understood by both sides. *)

From stdpp Require Import base gmap sets list strings pretty.
From Stdlib Require Import ZArith Lia.
From S2P Require Import Prelude Text Paths Ledger Admission Protocol Daemon.
From S2P Require Import WorkerRecord.
From S2P Require Import Supervisor Launch CgroupState HostWorld WorkerIdentity.
From S2P Require Import WorkerChild.
From S2P Require Import WorkerWorld WorkerScope WorkerHistory WorkerScopeSafety.
From S2P Require Import WorkerResources.
From S2P Require Import WorkerTermination WorkerTerminationSafety WorkerEnding.
From S2P Require Import WorkerSession.
#[local] Open Scope niralis_scope.

(** ** Before the commit *)

Definition uncommitted (a : WorkerAct) : Prop :=
  match a with
  | ActCommitExec | ActReply (WrStarted _ _ _ _ _ _ _) => False
  | _ => True
  end.
Definition unannounced (a : WorkerAct) : Prop :=
  match a with ActReply (WrStarted _ _ _ _ _ _ _) => False | _ => True end.

Create HintDb quiet discriminated.
#[export] Hint Constants Opaque : quiet.
Ltac quiet_auto :=
  keeps_with (did uncommitted) ltac:(first
    [ apply (keeps_did uncommitted); solve [eauto with asked nocore]
    | apply (perform_did uncommitted); solve [exact I]
    | apply (modify_did uncommitted); solve [done]
    | eauto with quiet nocore ]).

Lemma keeps_read_did K {E A} (f : Worker → result A E) : sr_keeps (did K) (λ w, (w, f w)).
Proof. intros w. reflexivity. Qed.
Lemma this_pam_quiet {E} : sr_keeps (did uncommitted) (this_pam (E:=E)).
Proof. apply keeps_read_did. Qed.
Lemma this_terminal_quiet {E} : sr_keeps (did uncommitted) (this_terminal (E:=E)).
Proof. apply keeps_read_did. Qed.
Lemma this_vtnr_quiet {E} : sr_keeps (did uncommitted) (this_vtnr (E:=E)).
Proof. apply keeps_read_did. Qed.
Lemma held_quiet {E} : sr_keeps (did uncommitted) (reference_held (E:=E)).
Proof. apply keeps_read_did. Qed.
#[export] Hint Resolve this_pam_quiet this_terminal_quiet this_vtnr_quiet held_quiet : quiet.

Lemma drop_transaction_quiet {E} : sr_keeps (did uncommitted) (drop_transaction (E:=E)).
Proof. apply (keeps_mono pam_act); [by intros []|apply drop_transaction_did]. Qed.
Lemma pam_cleanup_quiet {E} : sr_keeps (did uncommitted) (pam_cleanup (E:=E)).
Proof. apply (keeps_mono pam_act); [by intros []|apply pam_cleanup_did]. Qed.
#[export] Hint Resolve drop_transaction_quiet pam_cleanup_quiet : quiet.
Lemma authenticate_quiet : sr_keeps (did uncommitted) authenticate.
Proof. unfold authenticate, pam_call. quiet_auto. Qed.
Lemma pam_step_quiet call : sr_keeps (did uncommitted) (pam_step call).
Proof. unfold pam_step. quiet_auto. Qed.
#[export] Hint Resolve authenticate_quiet pam_step_quiet : quiet.
Lemma step_or_cleanup_quiet call : sr_keeps (did uncommitted) (step_or_cleanup call).
Proof.
  intros w. unfold step_or_cleanup. pose proof (pam_step_quiet call w) as H.
  destruct (pam_step call w) as [w1 [u|[]]]; cbn in H; [done| |done].
  transitivity w1; [exact H|]. revert w1 H. intros w1 _.
  assert (sr_keeps (did uncommitted) (pam_cleanup ;;; sr_fail (A:=()) OpenRefused)) as Hc
    by quiet_auto. apply Hc.
Qed.
Lemma put_entries_quiet es : sr_keeps (did uncommitted) (put_entries es).
Proof. induction es as [|e es IH]; cbn; unfold no_nul; quiet_auto. Qed.
#[export] Hint Resolve step_or_cleanup_quiet put_entries_quiet : quiet.
Lemma open_session_quiet m : sr_keeps (did uncommitted) (open_session m).
Proof. unfold open_session, no_nul. quiet_auto. Qed.
Lemma session_environment_quiet : sr_keeps (did uncommitted) session_environment.
Proof. unfold session_environment, pam_value_bytes. quiet_auto. Qed.
Lemma allocate_quiet seat : sr_keeps (did uncommitted) (allocate seat).
Proof. unfold allocate, allocate_terminal, open_device, op_failed, active_vt. quiet_auto. Qed.
Lemma activate_quiet wait : sr_keeps (did uncommitted) (activate_terminal wait).
Proof. unfold activate_terminal, vt_call, await_active. quiet_auto. Qed.
#[export] Hint Resolve open_session_quiet session_environment_quiet allocate_quiet
  activate_quiet : quiet.

Lemma call_unit_quiet call path : sr_keeps (did uncommitted) (call_unit call path).
Proof. by apply call_unit_did. Qed.
Lemma stop_created_quiet name deadline : sr_keeps (did uncommitted) (stop_created_unit name deadline).
Proof. unfold stop_created_unit. quiet_auto. Qed.
#[export] Hint Resolve call_unit_quiet stop_created_quiet provided_did : quiet.
Lemma checked_quiet {A} name deadline (m : WK PayloadScopeError A) :
  sr_keeps (did uncommitted) m → sr_keeps (did uncommitted) (checked name deadline m).
Proof.
  intros Hm w. unfold checked. specialize (Hm w). destruct (m w) as [w1 [a|e]]; [done|].
  cbn in Hm. etrans; [exact Hm|].
  assert (sr_keeps (did uncommitted) (stop_created_unit name deadline ;;; sr_fail (A:=A) e))
    as Hs by quiet_auto. apply Hs.
Qed.
Lemma pin_quiet name id group slice :
  sr_keeps (did uncommitted) (pin_invocation_unit name id group slice).
Proof. unfold pin_invocation_unit. quiet_auto. Qed.
#[export] Hint Resolve checked_quiet pin_quiet : quiet.
Lemma prepare_quiet child_pid process pidfd uid logind worker launcher deadline :
  sr_keeps (did uncommitted) (prepare child_pid process pidfd uid logind worker launcher deadline).
Proof.
  unfold prepare, prepare_scope, validate_created.
  intros. cbv zeta. repeat (quiet_auto; try apply checked_quiet).
Qed.
Lemma release_pin_quiet sc : sr_keeps (did uncommitted) (release_pin sc).
Proof. apply (keeps_mono unref_act); [by intros []|apply release_pin_did]. Qed.
Lemma cleanup_quiet sc deadline release : sr_keeps (did uncommitted) (cleanup_unit sc deadline release).
Proof.
  unfold cleanup_unit, prove_precommit_disappearance, disappeared_reading, cleanup_failed.
  quiet_auto.
Qed.
#[export] Hint Resolve prepare_quiet release_pin_quiet cleanup_quiet : quiet.

Lemma write_envelope_quiet response :
  uncommitted (ActReply response) → sr_keeps (did uncommitted) (write_envelope response).
Proof. intros H. unfold write_envelope. quiet_auto. by apply perform_did. Qed.
Lemma abort_child_quiet {E} : sr_keeps (did uncommitted) (abort_child (E:=E)).
Proof. unfold abort_child, kill_and_reap. quiet_auto. Qed.
#[export] Hint Resolve write_envelope_quiet abort_child_quiet : quiet.
#[export] Hint Extern 1 (uncommitted _) => exact I : quiet.
Lemma session_failed_quiet {A} code : sr_keeps (did uncommitted) (session_failed (A:=A) code).
Proof. unfold session_failed, answer, halt_error. quiet_auto. Qed.
Lemma reject_quiet {A} code : sr_keeps (did uncommitted) (reject (A:=A) code).
Proof. unfold reject, answer, halt_error. quiet_auto. Qed.
#[export] Hint Resolve session_failed_quiet reject_quiet : quiet.
Lemma refuse_quiet {A} code : sr_keeps (did uncommitted) (refuse (A:=A) code).
Proof. unfold refuse. quiet_auto. Qed.
#[export] Hint Resolve refuse_quiet : quiet.
Lemma abort_refuse_quiet {A} code : sr_keeps (did uncommitted) (abort_refuse (A:=A) code).
Proof. unfold abort_refuse. quiet_auto. Qed.
Lemma halt_error_quiet {A} e : sr_keeps (did uncommitted) (halt_error (A:=A) e).
Proof. unfold halt_error. quiet_auto. Qed.
#[export] Hint Resolve abort_refuse_quiet halt_error_quiet : quiet.

Lemma pre_open_quiet l : sr_keeps (did uncommitted) (pre_open l).
Proof.
  unfold pre_open, check_launch, bind_control_listener, resolve_identity, resolve_credentials,
    answer. quiet_auto.
Qed.
Lemma opened_environment_quiet l o : sr_keeps (did uncommitted) (opened_environment l o).
Proof. unfold opened_environment, check_logind. quiet_auto. Qed.
Lemma opened_handoff_quiet l p : sr_keeps (did uncommitted) (opened_handoff_scope l p).
Proof.
  unfold opened_handoff_scope, spawn_child, pending_worker_signal, watchdog_expired, check_logind.
  quiet_auto.
Qed.
Lemma channel_quiet cf : sr_keeps (did uncommitted) (duplicate_supervisor_channel cf).
Proof. unfold duplicate_supervisor_channel. quiet_auto. Qed.
Lemma poll_until_quiet deadline : sr_keeps (did uncommitted) (poll_until deadline).
Proof. unfold poll_until. quiet_auto. Qed.
#[export] Hint Resolve channel_quiet poll_until_quiet : quiet.
Lemma scope_release_quiet l p succeeded : sr_keeps (did uncommitted) (scope_release l p succeeded).
Proof.
  unfold scope_release, request_payload_scope_release, write_control_request,
    read_control_request. quiet_auto.
Qed.
Lemma cleanup_scope_quiet {E} p release : sr_keeps (did uncommitted) (cleanup_scope (E:=E) p release).
Proof. unfold cleanup_scope. quiet_auto. Qed.
#[export] Hint Resolve scope_release_quiet cleanup_scope_quiet : quiet.
Lemma abandon_registered_quiet {A} l p : sr_keeps (did uncommitted) (abandon_registered (A:=A) l p).
Proof. unfold abandon_registered. quiet_auto. Qed.
#[export] Hint Resolve abandon_registered_quiet : quiet.
Lemma await_ack_quiet cf nonce identity deadline :
  sr_keeps (did uncommitted) (await_payload_scope_ack cf nonce identity deadline).
Proof. unfold await_payload_scope_ack, read_acknowledgement. quiet_auto. Qed.
#[export] Hint Resolve await_ack_quiet : quiet.
Lemma opened_registration_quiet l p : sr_keeps (did uncommitted) (opened_registration l p).
Proof. unfold opened_registration. quiet_auto. Qed.

(** ** The order of a launch *)

(** Before [t] the supervisor was told the scope and then acknowledged it. *)
Definition scope_acknowledged (l : PamSessionLaunch) (w : Worker) (t : nat) (w' : Worker) : Prop :=
  ∃ p tp ta, (wk_time w ≤ tp < ta)%nat ∧ (ta < t)%nat ∧
    (tp, ActReply (scope_prepared l p)) ∈ wk_log w' ∧
    wv_control_read (wk_view w ta) = Ok (mkControlEnvelope WORKER_CONTROL_PROTOCOL_VERSION
      (WcPayloadScopeRegistered (from_worker (pl_login_identity l) "scope_registered" 1)
         (pl_worker_id l) (pl_process_id l) (sc_invocation_id (sp_scope p)))).
(** Before [t] the probe was told to execute the payload, said that it did, and
    was still there. *)
Definition payload_executed (w : Worker) (t : nat) (w' : Worker) : Prop :=
  ∃ tc te ta, (wk_time w ≤ tc < te)%nat ∧ (te < ta < t)%nat ∧
    (tc, ActCommitExec) ∈ wk_log w' ∧ wv_exec_status (wk_view w te) = Ok true ∧
    wv_child_exited (wk_view w ta) = Some false.

Definition entry_in_order (l : PamSessionLaunch) (w w' : Worker) (e : nat * WorkerAct) : Prop :=
  match e.2 with
  | ActCommitExec => scope_acknowledged l w e.1 w'
  | ActReply (WrStarted _ _ _ _ _ _ _) => payload_executed w e.1 w'
  | _ => True
  end.
Definition in_order (l : PamSessionLaunch) (w w' : Worker) : Prop :=
  wk_view w' = wk_view w ∧ (wk_time w ≤ wk_time w')%nat ∧
  ∀ e, e ∈ wk_log w' → entry_in_order l w w' e.

Lemma did_log K w w' e :
  did K w w' → e ∈ wk_log w' →
  e ∈ wk_log w ∨ (wk_time w ≤ e.1 < wk_time w')%nat ∧ K e.2.
Proof.
  intros (_ & _ & more & -> & F) [?|Hm]%elem_of_app; [by left|right].
  rewrite Forall_forall in F. by apply F.
Qed.
Lemma did_keeps_log K w w' e : did K w w' → e ∈ wk_log w → e ∈ wk_log w'.
Proof. intros (_ & _ & more & -> & _) H. apply elem_of_app. by left. Qed.
Lemma acknowledged_did K l w t t' x y :
  did K x y → (t ≤ t')%nat → scope_acknowledged l w t x → scope_acknowledged l w t' y.
Proof.
  intros D Ht (p & tp & ta & ? & ? & ? & ?). exists p, tp, ta.
  split_and!; eauto using did_keeps_log; lia.
Qed.
Lemma executed_did K w t t' x y :
  did K x y → (t ≤ t')%nat → payload_executed w t x → payload_executed w t' y.
Proof.
  intros D Ht (tc & te & ta & ? & ? & ? & ? & ?). exists tc, te, ta.
  split_and!; eauto using did_keeps_log; lia.
Qed.
Lemma entry_did K l w x y e : did K x y → entry_in_order l w x e → entry_in_order l w y e.
Proof.
  intros D. unfold entry_in_order.
  destruct e as [t [| | | | | |[]| | | | |]]; cbn; eauto using acknowledged_did, executed_did.
Qed.
Lemma in_order_did K l w x y :
  (∀ e, (wk_time x ≤ e.1 < wk_time y)%nat → K e.2 → entry_in_order l w y e) →
  did K x y → in_order l w x → in_order l w y.
Proof.
  intros HK D (V & T & F). destruct (D) as (V' & T' & _).
  split_and!; [congruence|lia|]. intros e [He|[Ht He]]%(did_log K x); eauto using entry_did.
Qed.
Lemma in_order_quiet l w x y : did uncommitted x y → in_order l w x → in_order l w y.
Proof.
  apply in_order_did. intros [t a] _. unfold entry_in_order. cbn.
  by destruct a as [| | | | | |[]| | | | |].
Qed.
(** A routine that neither commits nor announces, in front of the rest. *)
Lemma quiet_spec {E A} l w (m : WK E A) :
  sr_keeps (did uncommitted) m → spec (in_order l w) m (λ _, in_order l w) (λ _, in_order l w).
Proof.
  intros Hm. apply (spec_keeps (did uncommitted)); [done|]. intros x y ? ?.
  by eapply in_order_quiet.
Qed.

Lemma matches_worker_exact c i stage n :
  matches_worker c i stage n = true → c = from_worker i stage n.
Proof.
  unfold matches_worker. destruct c. cbn. intros H. bool_facts. subst. done.
Qed.
(** The acknowledgement that is accepted, to the last field. *)
Lemma registered_exact cf nonce identity e :
  registered cf nonce identity e = true →
  e = mkControlEnvelope WORKER_CONTROL_PROTOCOL_VERSION
        (WcPayloadScopeRegistered (from_worker identity "scope_registered" 1)
           (cf_worker_id cf) (cf_process_id cf) nonce).
Proof.
  destruct e as [version []]; try done. unfold registered. cbn -[matches_worker].
  rewrite !andb_true_iff. intros ((((?%Z.eqb_eq & ?) & ?%Z.eqb_eq) & ?) & ->%matches_worker_exact).
  bool_facts. by subst.
Qed.
Lemma await_ack_ok cf nonce identity deadline x y :
  await_payload_scope_ack cf nonce identity deadline x = (y, Ok ()) →
  ∃ t e, (wk_time x ≤ t < wk_time y)%nat ∧ wv_control_read (wk_view x t) = Ok e ∧
    registered cf nonce identity e = true.
Proof.
  unfold await_payload_scope_ack. intros H. ok_run H.
  pose proof (run_did _ _ _ _ _ (poll_until_quiet deadline) R) as (V & T & _).
  repeat (case_match; try done). unfold read_acknowledgement in H. ok_run H.
  pose proof (run_did _ _ _ _ _ (channel_quiet cf) R0) as (V' & T' & _).
  case_match eqn:Hr; [|done]. ok_run H.
  exists (wk_time w0), a1. cbn. rewrite <- V, <- V'. split_and!; [lia|lia|done|done].
Qed.
Lemma write_envelope_run response x :
  let '(y, r) := write_envelope response x in
  y = wk_tick (wk_record (ActReply response) x) ∧ r = wv_reply (wk_view x (wk_time x)).
Proof. done. Qed.

(** Routines that never return a value. *)
Definition fails {A} (m : HW A) : Prop := ∀ w w' a, m w ≠ (w', Ok a).
Lemma bind_fails {A B} (m : HW A) (k : A → HW B) : (∀ a, fails (k a)) → fails (sr_bind m k).
Proof. intros Hk w w' b (w1 & a & _ & H)%bind_ok. by eapply Hk. Qed.
Lemma refuse_fails {A} code : fails (refuse (A:=A) code).
Proof. unfold refuse, session_failed, answer. by do 2 (apply bind_fails; intros ?). Qed.
Lemma abandon_registered_fails {A} l p : fails (abandon_registered (A:=A) l p).
Proof.
  unfold abandon_registered. do 3 (apply bind_fails; intros ?).
  destruct a1 as [[]|]; [|done..]. apply bind_fails. intros unpinned.
  destruct (is_ok unpinned); [apply refuse_fails|done].
Qed.
Lemma abandon_committed_fails {A} l p code : fails (abandon_committed (A:=A) l p code).
Proof. unfold abandon_committed. do 2 (apply bind_fails; intros ?). apply refuse_fails. Qed.

Lemma registration_spec l p w :
  spec (in_order l w) (opened_registration l p)
    (λ _ y, in_order l w y ∧ scope_acknowledged l w (wk_time y) y) (λ _, in_order l w).
Proof.
  intros x Hx. pose proof (opened_registration_quiet l p x) as D.
  destruct (opened_registration l p x) as [y r] eqn:H. cbn in D.
  pose proof (in_order_quiet _ _ _ _ D Hx) as Hy. destruct r as [[]|]; [|done].
  split; [done|]. destruct Hx as (V & T & _). unfold opened_registration in H.
  apply bind_ok in H as (x1 & written & Hw & H). apply attempt_ok in Hw.
  pose proof (write_envelope_run (scope_prepared l p) x) as HW. rewrite Hw in HW.
  destruct HW as [-> _]. destruct written as [|error]; [|by ok_run H].
  apply bind_ok in H as (x2 & acked & Ha & H). apply attempt_ok in Ha.
  destruct acked as [[]|]; cbn in H.
  - injection H as <-. pose proof (run_did _ _ _ _ _ (await_ack_quiet _ _ _ _) Ha) as Da.
    apply await_ack_ok in Ha as (t & e & Ht & Hr & He). cbn in Ht, Hr.
    apply registered_exact in He as ->.
    exists p, (wk_time x), t. rewrite <- V. split_and!; [lia..| |done].
    eapply did_keeps_log; [exact Da|]. cbn. apply elem_of_app. right. by apply list_elem_of_singleton.
  - by apply abandon_registered_fails in H.
Qed.
Lemma commit_status_run l w x :
  in_order l w x → scope_acknowledged l w (wk_time x) x →
  let '(y, r) := commit_status x in
  in_order l w y ∧ (r = Ok () → payload_executed w (wk_time y) y).
Proof.
  intros Hx Ha. set (x1 := wk_tick (wk_record ActCommitExec x)).
  assert (did (λ a, a = ActCommitExec) x x1) as Dc by (by apply did_record).
  assert (in_order l w x1) as Hx1.
  { revert Hx. apply (in_order_did (λ a, a = ActCommitExec)); [|done].
    intros [t a] Ht [= ->]. cbn in Ht. eapply acknowledged_did; [exact Dc| |exact Ha]. cbn; lia. }
  destruct Hx as (V & T & _).
  assert (∀ n, in_order l w (advance n x1)) as Hn.
  { intros n. eapply in_order_quiet; [|exact Hx1]. apply asked_did. by exists n. }
  unfold commit_status, sr_bind, perform, see. cbn.
  destruct (wv_commit_sent _); cbn; [|by split; [apply (Hn 0%nat)|]].
  destruct (wv_exec_status _) as [[]|] eqn:Hs; cbn; try by split; [apply (Hn 1%nat)|].
  destruct (bool_decide _) eqn:He; cbn; (split; [apply (Hn 2%nat)|]); [|done].
  intros _. apply bool_decide_eq_true in He.
  exists (wk_time x), (S (wk_time x)), (S (S (wk_time x))). cbn. rewrite <- V.
  split_and!; try lia; try done. set_solver.
Qed.

Lemma abandon_committed_quiet {A} l p code :
  sr_keeps (did uncommitted) (abandon_committed (A:=A) l p code).
Proof. unfold abandon_committed. quiet_auto. Qed.
Lemma terminate_group_quiet pgid signal : sr_keeps (did uncommitted) (terminate_group pgid signal).
Proof. unfold terminate_group. quiet_auto. Qed.
#[export] Hint Resolve terminate_group_quiet : quiet.
Lemma terminate_child_quiet : sr_keeps (did uncommitted) terminate_child.
Proof.
  intros w. unfold terminate_child. destruct (wk_child w) as [| |pgid]; [reflexivity..|].
  revert w. match goal with |- ∀ w, did _ w (?m w).1 =>
    assert (sr_keeps (did uncommitted) m) as H by quiet_auto end. exact H.
Qed.
#[export] Hint Resolve abandon_committed_quiet terminate_child_quiet : quiet.
(** A quiet routine that never returns a value. *)
Lemma quiet_fails_spec {A} l w (m : HW A) (Q : A → Worker → Prop) :
  sr_keeps (did uncommitted) m → fails m → spec (in_order l w) m Q (λ _, in_order l w).
Proof.
  intros Hm Hf x Hx. pose proof (quiet_spec l w m Hm x Hx) as H.
  destruct (m x) as [y [a|e]] eqn:E; [|done]. by apply Hf in E.
Qed.
(** Facts that quiet routines leave true. *)
Lemma acknowledged_lasting l w : lasting (λ x, in_order l w x ∧ scope_acknowledged l w (wk_time x) x).
Proof.
  intros x y Hq [Hx Ha]. split; [eapply in_order_quiet; [|done]; by apply asked_did|].
  eapply acknowledged_did; [by apply (asked_did uncommitted)| |exact Ha]. by apply asked_time.
Qed.
Lemma executed_lasting l w : lasting (λ x, in_order l w x ∧ payload_executed w (wk_time x) x).
Proof.
  intros x y Hq [Hx Ha]. split; [eapply in_order_quiet; [|done]; by apply asked_did|].
  eapply executed_did; [by apply (asked_did uncommitted)| |exact Ha]. by apply asked_time.
Qed.

Lemma commit_exec_spec l w pgid :
  spec (λ x, in_order l w x ∧ scope_acknowledged l w (wk_time x) x) (commit_exec pgid)
    (λ b y, in_order l w y ∧ (b = true → payload_executed w (wk_time y) y)) (λ _, in_order l w).
Proof.
  unfold commit_exec. intros x [Hx Ha]. pose proof (commit_status_run l w x Hx Ha) as H.
  unfold sr_bind, attempt. destruct (commit_status x) as [y [u|e]] eqn:E; destruct H as [Hy He].
  - cbn. split; [|by intros _; destruct u; apply He]. eapply in_order_quiet; [|exact Hy].
    by apply (modify_did uncommitted (E:=Halt) (set_child (ChildLive pgid))).
  - pose proof (abort_child_quiet (E:=Halt) y) as D. destruct (abort_child y) as [z [?|?]]; cbn in *.
    + split; [by eapply in_order_quiet|done].
    + by eapply in_order_quiet.
Qed.
Lemma pending_signal_spec (P : Worker → Prop) :
  lasting P → spec P pending_worker_signal (λ _, P) (λ _, P).
Proof.
  intros HP. apply (spec_keeps asked); [|eauto]. unfold pending_worker_signal, halt_error.
  asked_auto.
Qed.
Lemma context_proven_spec p (P : Worker → Prop) :
  lasting P → spec P (context_proven p) (λ _, P) (λ _, P).
Proof. intros HP. apply (spec_keeps asked); [|eauto]. unfold context_proven. asked_auto. Qed.

Lemma opened_commit_spec l p w :
  spec (λ x, in_order l w x ∧ scope_acknowledged l w (wk_time x) x) (opened_commit l p)
    (λ _ y, in_order l w y ∧ payload_executed w (wk_time y) y) (λ _, in_order l w).
Proof.
  assert (∀ A (m : HW A) Q P, spec (in_order l w) m Q (λ _, in_order l w) →
    spec (λ x, in_order l w x ∧ P x) m Q (λ _, in_order l w)) as weaken.
  { intros A m Q P H. eapply spec_weaken; [exact H|by intros ? []|done..]. }
  unfold opened_commit. eapply spec_bind.
  { eapply spec_weaken; [apply pending_signal_spec, (acknowledged_lasting l w)|done|done|]. by intros ? ? []. }
  intros [].
  { apply weaken, quiet_fails_spec; [apply abandon_registered_quiet|apply abandon_registered_fails]. }
  eapply spec_bind; [apply commit_exec_spec|]. intros [|]; cbn [negb].
  2: { apply weaken, quiet_fails_spec; [apply abandon_committed_quiet|apply abandon_committed_fails]. }
  eapply spec_bind with (Q := λ _ y, in_order l w y ∧ payload_executed w (wk_time y) y).
  { eapply spec_weaken; [apply context_proven_spec, (executed_lasting l w)| |done|by intros ? ? []].
    intros y [? ?]. auto. }
  intros [|]; cbn [negb]; [by apply spec_ret|]. apply weaken, quiet_fails_spec; [quiet_auto|].
  apply bind_fails. intros ?. apply abandon_committed_fails.
Qed.

(** ** The rest of the session is quiet *)

Lemma kill_uncommitted a : is_kill a = true → uncommitted a.
Proof. by destruct a. Qed.
Lemma finalize_quiet cf sc nonce expectation forced proof :
  sr_keeps (did uncommitted) (finalize_session cf sc nonce expectation forced proof).
Proof.
  assert (∀ a, late_act a → uncommitted a) as Hl by (by intros []).
  unfold finalize_session, release_stage.
  keeps_with (did uncommitted) ltac:(first
    [ apply (keeps_did uncommitted); solve [eauto using channel_closed_asked with asked nocore]
    | solve [eauto with quiet nocore]
    | apply (keeps_mono pam_act), close_session_did; by intros []
    | apply (keeps_mono control_act), begin_cleanup_did; by intros []
    | apply (keeps_mono late_act), after_disconnect_did; exact Hl
    | apply (keeps_mono late_act), release_and_report_did; exact Hl ]).
Qed.
Lemma signals_quiet sc w w' : session_signals sc w w' → did uncommitted w w'.
Proof. intros (l & _ & [D _] & _). eapply did_mono; [|exact D]. apply kill_uncommitted. Qed.
Lemma run_session_quiet cf sc nonce cycles :
  sr_keeps (did uncommitted) (run_session cf sc nonce cycles).
Proof.
  intros w. pose proof (run_session_run cf sc nonce cycles w) as H.
  destruct (run_session cf sc nonce cycles w) as [w' r].
  destruct H as [halt _ Hs|x expectation forced proof r Hs _ Hf]; [by eapply signals_quiet|].
  etrans; [by eapply signals_quiet|]. by eapply run_did; [apply finalize_quiet|].
Qed.
Lemma running_spec l cycles p w :
  spec (λ x, in_order l w x ∧ payload_executed w (wk_time x) x) (opened_running l cycles p)
    (λ _, in_order l w) (λ _, in_order l w).
Proof.
  unfold opened_running. apply spec_bind with (λ _, in_order l w).
  - apply spec_map_err. intros x [Hx He].
    assert (in_order l w (wk_tick (wk_record (ActReply (started l p)) x))) as H.
    { revert Hx. apply (in_order_did (λ a, a = ActReply (started l p))); [|by apply did_record].
      intros [t a] Ht [= ->]. cbn in Ht.
      eapply executed_did; [by apply (did_record anything)| |exact He]. cbn; lia. }
    unfold write_envelope, sr_bind, perform. cbn. by destruct (wv_reply _).
  - intros _. apply quiet_spec, run_session_quiet.
Qed.

Lemma drops_quiet {E} : sr_keeps (did uncommitted) (drops (E:=E)).
Proof.
  assert (sr_keeps (did uncommitted) (drop_child (E:=E))) as Hc.
  { intros w. unfold drop_child. destruct (wk_child w) as [| |pgid];
      [reflexivity|apply abort_child_quiet|].
    revert w. match goal with |- ∀ w, did _ w (?m w).1 =>
      assert (sr_keeps (did uncommitted) m) as H by quiet_auto end. exact H. }
  assert (sr_keeps (did uncommitted) (drop_terminal (E:=E))) as Ht.
  { unfold drop_terminal. quiet_auto. apply (keeps_mono vt_act); [by intros []|].
    apply release_terminal_did. }
  unfold drops. quiet_auto.
Qed.
Lemma session_body_spec l cycles w :
  spec (in_order l w) (session_body l cycles) (λ _, in_order l w) (λ _, in_order l w).
Proof.
  unfold session_body, opened.
  eapply spec_bind; [apply quiet_spec, pre_open_quiet|intros o].
  eapply spec_bind; [apply quiet_spec, opened_environment_quiet|intros e].
  eapply spec_bind; [apply quiet_spec, opened_handoff_quiet|intros p].
  eapply spec_bind; [apply registration_spec|intros ?].
  eapply spec_bind; [apply opened_commit_spec|intros ?]. apply running_spec.
Qed.

(** C8. In every run of a worker, whatever the machine answers: when the probe
    is told to execute the payload, the supervisor had been told the scope that
    was made for it and had then acknowledged exactly this registration (this
    worker, its pid, the scope's invocation and the login's transaction); and
    when the session is announced, the probe had been told to execute the
    payload, had then reported that it did, and was seen alive after that. *)
Theorem payload_launched_in_order l cycles w e :
  wk_log w = [] → e ∈ wk_log (run_pam_session l cycles w).1 →
  entry_in_order l w (run_pam_session l cycles w).1 e.
Proof.
  intros Hw. assert (in_order l w w) as H0.
  { split_and!; [done..|]. rewrite Hw. by intros ? ?%elem_of_nil. }
  assert (in_order l w (run_pam_session l cycles w).1) as (_ & _ & H); [|apply H].
  unfold run_pam_session. pose proof (session_body_spec l cycles w w H0) as H.
  destruct (session_body l cycles w) as [x r].
  assert (in_order l w x) as Hx by (by destruct r). clear H.
  assert (∀ u : result () Halt, in_order l w (let '(y, _) := drops (E:=Halt) x in (y, u)).1) as Hd.
  { intros u. pose proof (drops_quiet (E:=Halt) x) as D. destruct (drops x) as [y v].
    by eapply in_order_quiet. }
  destruct r as [?|[]]; cbn; auto.
Qed.

(** ** What a worker holds *)

(** The open PAM session and a terminal that was not given back. *)
Definition holding (w : Worker) : Prop :=
  wk_pam w = Some (mkPamTransaction true true false) ∧
  ∃ g, wk_terminal w = Some g ∧ vg_handle g = TerminalHeld ∧ vg_release_result g = None.
Definition same_hold (w w' : Worker) : Prop :=
  wk_pam w' = wk_pam w ∧ wk_terminal w' = wk_terminal w.
#[export] Instance same_hold_preorder : PreOrder same_hold.
Proof. split; [done|]. intros w1 w2 w3 [P1 T1] [P2 T2]. split; congruence. Qed.
Lemma holding_same w w' : same_hold w w' → holding w → holding w'.
Proof. unfold holding. by intros [-> ->]. Qed.

Create HintDb hold discriminated.
#[export] Hint Constants Opaque : hold.
Lemma asked_hold {E A} (m : WK E A) : sr_keeps asked m → sr_keeps same_hold m.
Proof. intros H w. by destruct (H w) as [n ->]. Qed.
Lemma perform_hold {E A} a (f : WorkerView → A) : sr_keeps same_hold (perform (E:=E) a f).
Proof. by intros w. Qed.
Lemma child_hold {E} c : sr_keeps same_hold (sr_modify (E:=E) (set_child c)).
Proof. by intros w. Qed.
Lemma reference_hold {E} b : sr_keeps same_hold (sr_modify (E:=E) (set_reference b)).
Proof. by intros w. Qed.
Lemma provided_hold {A} (m : WK InvocationBackendError A) :
  sr_keeps same_hold m → sr_keeps same_hold (provided m).
Proof. apply keeps_map_err. Qed.
#[export] Hint Resolve perform_hold child_hold reference_hold provided_hold : hold.
Ltac hold_auto :=
  keeps_with same_hold ltac:(first
    [ apply asked_hold; solve [eauto with asked nocore] | solve [eauto with hold nocore] ]).

Lemma call_unit_hold call path : sr_keeps same_hold (call_unit call path).
Proof. unfold call_unit. hold_auto. Qed.
Lemma stop_created_hold name deadline : sr_keeps same_hold (stop_created_unit name deadline).
Proof. unfold stop_created_unit. hold_auto. Qed.
#[export] Hint Resolve call_unit_hold stop_created_hold : hold.
Lemma checked_hold {A} name deadline (m : WK PayloadScopeError A) :
  sr_keeps same_hold m → sr_keeps same_hold (checked name deadline m).
Proof.
  intros Hm w. unfold checked. specialize (Hm w). destruct (m w) as [w1 [a|e]]; [done|].
  cbn in Hm. etrans; [exact Hm|].
  assert (sr_keeps same_hold (stop_created_unit name deadline ;;; sr_fail (A:=A) e))
    as Hs by hold_auto. apply Hs.
Qed.
Lemma pin_hold name id group slice : sr_keeps same_hold (pin_invocation_unit name id group slice).
Proof. unfold pin_invocation_unit. hold_auto. Qed.
#[export] Hint Resolve pin_hold : hold.
Lemma prepare_hold child_pid process pidfd uid logind worker launcher deadline :
  sr_keeps same_hold (prepare child_pid process pidfd uid logind worker launcher deadline).
Proof.
  unfold prepare, prepare_scope, validate_created.
  intros. cbv zeta. repeat (hold_auto; try apply checked_hold).
Qed.
Lemma cleanup_hold sc deadline release : sr_keeps same_hold (cleanup_unit sc deadline release).
Proof.
  unfold cleanup_unit, prove_precommit_disappearance, disappeared_reading, cleanup_failed.
  hold_auto.
Qed.
Lemma release_pin_hold sc : sr_keeps same_hold (release_pin sc).
Proof. intros w. destruct (release_pin_run sc w) as (? & _ & ?). done. Qed.
Lemma write_envelope_hold response : sr_keeps same_hold (write_envelope response).
Proof. unfold write_envelope. hold_auto. Qed.
Lemma vtnr_hold {E} : sr_keeps same_hold (this_vtnr (E:=E)).
Proof. apply (keeps_read same_hold). Qed.
Lemma terminal_hold {E} : sr_keeps same_hold (this_terminal (E:=E)).
Proof. apply (keeps_read same_hold). Qed.
Lemma abort_child_hold {E} : sr_keeps same_hold (abort_child (E:=E)).
Proof. unfold abort_child, kill_and_reap. hold_auto. Qed.
#[export] Hint Resolve prepare_hold cleanup_hold release_pin_hold write_envelope_hold vtnr_hold
  terminal_hold abort_child_hold : hold.
Lemma activate_hold wait : sr_keeps same_hold (activate_terminal wait).
Proof. unfold activate_terminal, vt_call, await_active. hold_auto. Qed.
Lemma environment_hold : sr_keeps same_hold session_environment.
Proof. unfold session_environment, pam_value_bytes. hold_auto. Qed.
Lemma channel_hold cf : sr_keeps same_hold (duplicate_supervisor_channel cf).
Proof. unfold duplicate_supervisor_channel. hold_auto. Qed.
Lemma poll_until_hold deadline : sr_keeps same_hold (poll_until deadline).
Proof. unfold poll_until. hold_auto. Qed.
#[export] Hint Resolve activate_hold environment_hold channel_hold poll_until_hold : hold.
Lemma scope_release_hold l p succeeded : sr_keeps same_hold (scope_release l p succeeded).
Proof.
  unfold scope_release, request_payload_scope_release, write_control_request,
    read_control_request. hold_auto.
Qed.
Lemma cleanup_scope_hold {E} p release : sr_keeps same_hold (cleanup_scope (E:=E) p release).
Proof. unfold cleanup_scope. hold_auto. Qed.
Lemma await_ack_hold cf nonce identity deadline :
  sr_keeps same_hold (await_payload_scope_ack cf nonce identity deadline).
Proof. unfold await_payload_scope_ack, read_acknowledgement. hold_auto. Qed.
Lemma commit_exec_hold pgid : sr_keeps same_hold (commit_exec pgid).
Proof. unfold commit_exec, commit_status. hold_auto. Qed.
Lemma terminate_child_hold : sr_keeps same_hold terminate_child.
Proof.
  intros w. unfold terminate_child, terminate_group.
  destruct (wk_child w) as [| |pgid]; [reflexivity..|].
  revert w. match goal with |- ∀ w, same_hold w (?m w).1 =>
    assert (sr_keeps same_hold m) as H by hold_auto end. exact H.
Qed.
#[export] Hint Resolve scope_release_hold cleanup_scope_hold await_ack_hold commit_exec_hold
  terminate_child_hold : hold.

(** ** Holding on *)

(** A worker that stops without returning still holds everything. *)
Definition halted (e : Halt) (w : Worker) : Prop :=
  match e with HaltError _ => True | _ => holding w end.
Definition keeps_holding {A} (m : HW A) : Prop := spec holding m (λ _, holding) halted.

Lemma holding_bind {A B} (m : HW A) (k : A → HW B) :
  keeps_holding m → (∀ a, keeps_holding (k a)) → keeps_holding (sr_bind m k).
Proof. intros Hm Hk. by eapply spec_bind. Qed.
Lemma holding_keeps {A} (m : HW A) : sr_keeps same_hold m → keeps_holding m.
Proof.
  intros Hm w Hw. specialize (Hm w). destruct (m w) as [w' [a|e]]; cbn in Hm.
  - by eapply holding_same.
  - destruct e; cbn; [done| |]; by eapply holding_same.
Qed.
Lemma answer_returns {A} response e w : ∃ w' e', answer (A:=A) response e w = (w', Err (HaltError e')).
Proof.
  unfold answer, write_envelope, sr_bind, sr_map_err, perform, halt_error. cbn.
  destruct (wv_reply _); eauto.
Qed.
Lemma returning_holds {A} (m : HW A) :
  (∀ w, ∃ w' e, m w = (w', Err (HaltError e))) → keeps_holding m.
Proof. intros H w _. destruct (H w) as (w' & e & ->). done. Qed.
Lemma refuse_returns {A} code w : ∃ w' e, refuse (A:=A) code w = (w', Err (HaltError e)).
Proof.
  unfold refuse, sr_bind. pose proof (drop_transaction_run (E:=Halt) w) as H.
  destruct (drop_transaction w) as [w1 r]. destruct H as [-> _]. apply answer_returns.
Qed.
Lemma abort_refuse_returns {A} code w : ∃ w' e, abort_refuse (A:=A) code w = (w', Err (HaltError e)).
Proof.
  unfold abort_refuse, abort_child, kill_and_reap, see, sr_bind, perform, sr_modify, sr_ret.
  destruct (bool_decide _); apply refuse_returns.
Qed.
Lemma drop_error_returns {A} error w :
  ∃ w' e, (drop_transaction ;;; halt_error (A:=A) error) w = (w', Err (HaltError e)).
Proof.
  unfold sr_bind. pose proof (drop_transaction_run (E:=Halt) w) as H.
  destruct (drop_transaction w) as [w1 r]. destruct H as [-> _]. by eexists _, _.
Qed.
#[local] Hint Resolve answer_returns refuse_returns abort_refuse_returns drop_error_returns : core.
Ltac holding_auto :=
  intros; cbn zeta; repeat first
    [ solve [apply holding_keeps; hold_auto]
    | solve [apply returning_holds; auto]
    | apply holding_bind; [|intros ?]
    | match goal with
      | |- keeps_holding (if ?b then _ else _) => destruct b
      | |- keeps_holding (match ?x with _ => _ end) => destruct x
      end ].

Lemma environment_holding l o : keeps_holding (opened_environment l o).
Proof. unfold opened_environment, check_logind. holding_auto. Qed.
Lemma handoff_holding l p : keeps_holding (opened_handoff_scope l p).
Proof.
  unfold opened_handoff_scope, spawn_child, pending_worker_signal, watchdog_expired, check_logind,
    halt_error. holding_auto.
Qed.
Lemma abandon_registered_holding {A} l p : keeps_holding (abandon_registered (A:=A) l p).
Proof. unfold abandon_registered. holding_auto. Qed.
Lemma registration_holding l p : keeps_holding (opened_registration l p).
Proof.
  unfold opened_registration. holding_auto. all: apply abandon_registered_holding.
Qed.
Lemma commit_holding l p : keeps_holding (opened_commit l p).
Proof.
  unfold opened_commit, pending_worker_signal, context_proven, abandon_committed, halt_error. holding_auto. all: apply abandon_registered_holding.
Qed.

Lemma run_session_halts cf sc nonce cycles :
  spec holding (run_session cf sc nonce cycles) (λ _ _, True) halted.
Proof.
  intros w Hw. pose proof (run_session_run cf sc nonce cycles w) as H.
  destruct (run_session cf sc nonce cycles w) as [w' r].
  destruct H as [halt _ (l & _ & [_ O] & _)|x expectation forced proof [] _ _ _]; [|done..].
  assert (holding w').
  { eapply holding_same; [|exact Hw]. unfold owned in O. split; congruence. }
  by destruct halt.
Qed.
Lemma running_halts l cycles p : spec holding (opened_running l cycles p) (λ _ _, True) halted.
Proof.
  unfold opened_running. eapply spec_bind with (Q := λ _, holding); [|intros _; apply run_session_halts].
  apply (holding_keeps (sr_map_err HaltError (write_envelope (started l p)))). hold_auto.
Qed.

(** ** The session opens *)

Definition returned (e : Halt) (_ : Worker) : Prop := ∃ error, e = HaltError error.
Lemma halted_returned e w : returned e w → halted e w.
Proof. by intros [error ->]. Qed.

(** Errors are returned. *)
Definition returns {A} (m : HW A) : Prop := spec (λ _, True) m (λ _ _, True) returned.
Lemma returns_bind {A B} (m : HW A) (k : A → HW B) :
  returns m → (∀ a, returns (k a)) → returns (sr_bind m k).
Proof. intros Hm Hk. eapply spec_bind; [exact Hm|done]. Qed.
Lemma returns_see {A} (f : WorkerView → A) : returns (see f).
Proof. by intros w _. Qed.
Lemma returns_attempt {E A} (m : WK E A) : returns (attempt m).
Proof. intros w _. unfold attempt. by destruct (m w). Qed.
Lemma returns_ret {A} (a : A) : returns (sr_ret a).
Proof. by intros w _. Qed.
Lemma returns_vtnr : returns this_vtnr.
Proof. by intros w _. Qed.
Lemma returns_error {A} (m : HW A) : (∀ w, ∃ w' e, m w = (w', Err (HaltError e))) → returns m.
Proof. intros H w _. destruct (H w) as (w' & e & ->). by exists e. Qed.
Lemma session_failed_returns {A} code w :
  ∃ w' e, session_failed (A:=A) code w = (w', Err (HaltError e)).
Proof. apply answer_returns. Qed.
Lemma reject_returns {A} code w : ∃ w' e, reject (A:=A) code w = (w', Err (HaltError e)).
Proof. apply answer_returns. Qed.
Lemma halt_error_returns {A} error w : ∃ w' e, halt_error (A:=A) error w = (w', Err (HaltError e)).
Proof. by eexists _, _. Qed.
#[local] Hint Resolve returns_see returns_attempt returns_ret returns_vtnr session_failed_returns
  reject_returns halt_error_returns : core.
Lemma pre_open_returns l : returns (pre_open l).
Proof.
  unfold pre_open, check_launch, bind_control_listener, resolve_identity, resolve_credentials.
  repeat first
    [ solve [auto] | solve [apply returns_error; auto] | apply returns_bind; [|intros ?]
    | match goal with
      | |- returns (if ?b then _ else _) => destruct b
      | |- returns (match ?x with _ => _ end) => destruct x
      end ].
Qed.

Definition same_terminal (w w' : Worker) : Prop := wk_terminal w' = wk_terminal w.
#[export] Instance same_terminal_preorder : PreOrder same_terminal.
Proof. split; [done|]. unfold same_terminal. intros ??? -> ->. done. Qed.
Lemma drop_transaction_terminal {E} : sr_keeps same_terminal (drop_transaction (E:=E)).
Proof.
  intros w. pose proof (drop_transaction_run (E:=E) w) as H.
  destruct (drop_transaction w) as [w' r]. destruct H as (_ & H & _).
  unfold other_owned in H. unfold same_terminal. cbn. congruence.
Qed.
Lemma asked_terminal {E A} (m : WK E A) : sr_keeps asked m → sr_keeps same_terminal m.
Proof. intros H w. by destruct (H w) as [n ->]. Qed.
Ltac terminal_auto :=
  keeps_with same_terminal ltac:(first
    [ apply asked_terminal; solve [eauto with asked nocore] | apply drop_transaction_terminal
    | solve [by intros ?] ]).
Lemma authenticate_terminal : sr_keeps same_terminal authenticate.
Proof. unfold authenticate, pam_call. terminal_auto. Qed.
Lemma put_entries_terminal es : sr_keeps same_terminal (put_entries es).
Proof. induction es; cbn; unfold no_nul, pam_step; terminal_auto; done. Qed.
Lemma pam_step_ok call w w' :
  pam_step call w = (w', Ok ()) → wk_pam w' = wk_pam w ∧ wk_terminal w' = wk_terminal w.
Proof.
  unfold pam_step. intros H. ok_run H. destruct (wv_pam_panics _ call); [done|]. by ok_run H.
Qed.
Lemma step_or_cleanup_ok call w w' :
  step_or_cleanup call w = (w', Ok ()) → wk_pam w' = wk_pam w ∧ wk_terminal w' = wk_terminal w.
Proof.
  unfold step_or_cleanup. destruct (pam_step call w) as [w1 r] eqn:H.
  destruct r as [[]|[]]; [|by intros (? & ? & _ & ?)%bind_ok|done]. intros [= <-].
  by eapply pam_step_ok.
Qed.
Lemma open_session_ok m w w' :
  open_session m w = (w', Ok ()) →
  wk_pam w' = Some (mkPamTransaction true true false) ∧ wk_terminal w' = wk_terminal w.
Proof.
  unfold open_session. intros H.
  apply bind_ok in H as (w1 & [] & H1 & H). apply bind_ok in H as (w2 & [] & H2 & H).
  apply bind_ok in H as (w3 & [] & H3 & H). apply bind_ok in H as (w4 & [] & H4 & H).
  apply bind_ok in H as (w5 & [] & H5%step_or_cleanup_ok & H%step_or_cleanup_ok).
  injection H4 as <-. destruct H5 as [P5 T5], H as [P6 T6].
  split; [by rewrite P6, P5|]. rewrite T6, T5. cbn.
  apply pam_step_ok in H3 as [_ ->].
  transitivity (wk_terminal w1); [pose proof (put_entries_terminal (entries m) w1) as Ht; by rewrite H2 in Ht|].
  destruct (pm_tty m); [|by injection H1 as <-]. unfold no_nul in H1. ok_run H1.
  by apply pam_step_ok in H1 as [_ ->].
Qed.
Lemma allocate_terminal_ok w w' g :
  allocate_terminal w = (w', Ok g) → vg_handle g = TerminalHeld ∧ vg_release_result g = None.
Proof.
  unfold allocate_terminal. intros H. repeat (apply bind_ok in H as (? & ? & ? & H)).
  case_match. repeat (apply bind_ok in H as (? & ? & ? & H)). by injection H as _ <-.
Qed.
Lemma allocate_ok seat w w' :
  allocate seat w = (w', Ok ()) →
  ∃ g, wk_terminal w' = Some g ∧ vg_handle g = TerminalHeld ∧ vg_release_result g = None.
Proof.
  unfold allocate. intros H. repeat (apply bind_ok in H as (? & ? & ?R & H)).
  injection H as <-. eexists. split; [done|]. by eapply allocate_terminal_ok.
Qed.

Lemma run_terminal {E A} (m : WK E A) w w' r :
  sr_keeps same_terminal m → m w = (w', r) → wk_terminal w' = wk_terminal w.
Proof. intros Hm HE. specialize (Hm w). by rewrite HE in Hm. Qed.
Lemma resolve_identity_terminal name : sr_keeps same_terminal (resolve_identity name).
Proof.
  unfold resolve_identity, refuse, session_failed, answer, write_envelope, halt_error.
  terminal_auto.
Qed.
Lemma resolve_credentials_terminal identity : sr_keeps same_terminal (resolve_credentials identity).
Proof.
  unfold resolve_credentials, refuse, session_failed, answer, write_envelope, halt_error.
  terminal_auto.
Qed.
Lemma session_failed_fails {A} code : fails (session_failed (A:=A) code).
Proof. unfold session_failed, answer. by apply bind_fails; intros ?. Qed.

(** A session that opened holds PAM and the terminal. *)
Lemma pre_open_ok l w w' o : pre_open l w = (w', Ok o) → holding w'.
Proof.
  unfold pre_open. intros H.
  apply bind_ok in H as (w1 & watchdog & _ & H). apply bind_ok in H as (w2 & listener & _ & H).
  apply bind_ok in H as (w3 & [[]|] & Ha%attempt_ok & H); [|by apply session_failed_fails in H].
  apply allocate_ok in Ha as (g & Hg & Hh & Hr).
  apply bind_ok in H as (w4 & [user|] & Hu%attempt_ok & H).
  2: { revert H. unfold answer. by intros (? & ? & _ & ?)%bind_ok. }
  apply bind_ok in H as (w5 & identity & Hi & H). apply bind_ok in H as (w6 & credentials & Hc & H).
  apply bind_ok in H as (w7 & vtnr & Hv & H). injection Hv as <- _.
  apply bind_ok in H as (w8 & [[]|[]] & Ho%attempt_ok & H); [|by apply refuse_fails in H..].
  injection H as <- _. apply open_session_ok in Ho as [Hp Ht]. split; [done|]. exists g.
  split; [|done]. rewrite Ht, <- Hg.
  apply (run_terminal _ _ _ _ authenticate_terminal) in Hu.
  apply (run_terminal _ _ _ _ (resolve_identity_terminal _)) in Hi.
  apply (run_terminal _ _ _ _ (resolve_credentials_terminal _)) in Hc. congruence.
Qed.
Lemma pre_open_spec l : spec (λ _, True) (pre_open l) (λ _, holding) halted.
Proof.
  intros w Hw. pose proof (pre_open_returns l w Hw) as H.
  destruct (pre_open l w) as [w' [o|e]] eqn:E; [by eapply pre_open_ok|by apply halted_returned].
Qed.
Lemma session_body_halts l cycles : spec (λ _, True) (session_body l cycles) (λ _ _, True) halted.
Proof.
  unfold session_body, opened.
  eapply spec_bind; [apply pre_open_spec|intros o]. eapply spec_bind; [apply environment_holding|intros e].
  eapply spec_bind; [apply handoff_holding|intros p].
  eapply spec_bind; [apply registration_holding|intros ?].
  eapply spec_bind; [apply commit_holding|intros ?]. apply running_halts.
Qed.

(** What is dropped, in order. *)

(** The signal a process group gets, and what ends the child that is left: a
    probe that has not exited is killed and reaped, a session is killed with
    its group and reaped. *)
Definition group_signal (pgid signal : Z) : list WorkerAct :=
  if valid_group pgid then [ActSignalGroup pgid signal] else [].
Definition child_end (w : Worker) : list WorkerAct :=
  match wk_child w with
  | NoChild => []
  | ChildPending => if bool_decide (wv_child_exited (wk_view w (wk_time w)) = Some true) then []
                    else [ActKillChild; ActReapChild]
  | ChildLive pgid => group_signal pgid SIGKILL ++ [ActReapChild]
  end.
Definition child_act (a : WorkerAct) : Prop :=
  match a with ActKillChild | ActReapChild | ActSignalGroup _ _ => True | _ => False end.
(** The calls with which a transaction ends that is dropped. *)
Definition drop_calls (t : option NativePamTransaction) : list PamCall :=
  match t with
  | Some t => if pt_ended t then []
              else (if pt_session_open t then [PamCloseSession] else []) ++
                (if pt_credentials_established t then [PamDeleteCred] else []) ++ [PamEnd]
  | None => []
  end.
Lemma drop_transaction_child {E} : sr_keeps (same_of wk_child) (drop_transaction (E:=E)).
Proof. unfold drop_transaction, pam_cleanup, pam_call. same_auto wk_child. Qed.
Lemma drop_terminal_same {E} : sr_keeps (same_of (λ w, (wk_child w, wk_pam w))) (drop_terminal (E:=E)).
Proof.
  unfold drop_terminal, release_terminal, lease_release, release_allocated_terminal, vt_call,
    await_active, active_vt. same_auto (λ w, (wk_child w, wk_pam w)).
Qed.
Lemma terminate_group_run pgid signal w :
  let '(w', _) := terminate_group pgid signal w in
  same_hold w w' ∧ wk_child w' = wk_child w ∧ did child_act w w' ∧
  acts w' = acts w ++ group_signal pgid signal.
Proof.
  unfold terminate_group, group_signal, sr_bind. destruct (valid_group pgid); cbn.
  2: { rewrite app_nil_r. by split_and!. }
  destruct (bool_decide _); (split_and!; [done|done|apply (did_record child_act); exact I|]);
    unfold acts; cbn; by rewrite fmap_app.
Qed.
Lemma drop_child_run {E} w :
  let '(w', r) := drop_child (E:=E) w in
  r = Ok () ∧ wk_child w' = NoChild ∧ same_hold w w' ∧ did child_act w w' ∧
  acts w' = acts w ++ child_end w.
Proof.
  unfold drop_child, child_end. destruct (wk_child w) as [| |pgid] eqn:Hc.
  - by rewrite app_nil_r.
  - unfold abort_child, kill_and_reap, see, perform, sr_bind, sr_modify, sr_ret. cbn.
    assert (did child_act w (wk_tick w)) as D by apply (asked_did child_act), asked_tick.
    destruct (bool_decide _); cbn; [rewrite app_nil_r; by split_and!|].
    split_and!; [done..| |unfold acts; cbn; rewrite !fmap_app; by rewrite <- (assoc_L app)].
    etrans; [exact D|]. etrans; apply (did_record child_act); exact I.
  - unfold sr_bind, attempt. pose proof (terminate_group_run pgid SIGKILL w) as H.
    destruct (terminate_group pgid SIGKILL w) as [w1 r]. destruct H as (Hh & _ & D & A). cbn.
    split_and!; [done|done|done| |].
    + etrans; [exact D|]. apply (did_record child_act). exact I.
    + unfold acts in *. cbn. rewrite fmap_app, A. by rewrite <- (assoc_L app).
Qed.
Lemma drop_terminal_run {E} w :
  let '(w', r) := drop_terminal (E:=E) w in r = Ok () ∧ wk_terminal w' = None ∧ did vt_act w w'.
Proof.
  unfold drop_terminal, sr_bind, attempt. pose proof (release_terminal_did w) as D.
  destruct (release_terminal w) as [w1 r]. cbn in *. done.
Qed.
Lemma drop_terminal_acts {E} w :
  acts (drop_terminal (E:=E) w).1 = acts w ++ (ActVt <$> terminal_end w).
Proof.
  rewrite <- release_terminal_acts. unfold drop_terminal, sr_bind, attempt.
  by destruct (release_terminal w).
Qed.
Lemma drops_run {E} x :
  let '(w', r) := drops (E:=E) x in
  r = Ok () ∧ wk_child w' = NoChild ∧ wk_pam w' = None ∧ wk_terminal w' = None ∧
  ∃ y z, did child_act x y ∧ acts y = acts x ++ child_end x ∧ same_hold x y ∧
    did pam_act y z ∧ acts z = acts y ++ (ActPam <$> drop_calls (wk_pam x)) ∧
    wk_terminal z = wk_terminal x ∧
    did vt_act z w' ∧ acts w' = acts z ++ (ActVt <$> terminal_end z).
Proof.
  unfold drops, sr_bind. pose proof (drop_child_run (E:=E) x) as Hc.
  destruct (drop_child x) as [y r]. destruct Hc as (-> & Hc & [Hp Ht] & Dc & Ac).
  pose proof (drop_transaction_run (E:=E) y) as Hd.
  pose proof (drop_transaction_did (E:=E) y) as Dp. pose proof (drop_transaction_child (E:=E) y) as Hz.
  destruct (drop_transaction y) as [z r]. destruct Hd as (-> & Ho & Hn & Ha). cbn in Dp, Hz.
  pose proof (drop_terminal_run (E:=E) z) as Hv. pose proof (drop_terminal_same (E:=E) z) as Hs.
  pose proof (drop_terminal_acts (E:=E) z) as Av.
  destruct (drop_terminal z) as [w' r]. destruct Hv as (-> & Hw & Dv). unfold same_of in *.
  injection Hs as Hs1 Hs2. split_and!; [done|congruence..|]. exists y, z.
  split_and!; try done; [by rewrite Ha, Hp|]. unfold other_owned in Ho. congruence.
Qed.

(** C9. A worker that returns, whatever it returns and at whatever point of the
    launch or the session, gives back what the session's body left, in this
    order and with exactly these acts: the child (a probe that has not exited
    is killed and reaped, a session's process group gets SIGKILL and its leader
    is reaped), the PAM transaction with the calls its state asks for, and the
    terminal, which is closed and disallocated unless it was released before or
    the machine does not make the previous one active; it then has no child, no
    transaction and no terminal.  A worker that does not return (it waits for
    recovery, or the session goes on) still holds the open PAM session and a
    terminal that was never released. *)
Theorem worker_gives_back_or_holds l cycles w :
  let '(w', r) := run_pam_session l cycles w in
  let x := (session_body l cycles w).1 in
  match r with
  | Ok _ | Err (HaltError _) =>
      wk_child w' = NoChild ∧ wk_pam w' = None ∧ wk_terminal w' = None ∧
      ∃ y z, did child_act x y ∧ acts y = acts x ++ child_end x ∧
        did pam_act y z ∧ acts z = acts y ++ (ActPam <$> drop_calls (wk_pam x)) ∧
        wk_terminal z = wk_terminal x ∧
        did vt_act z w' ∧ acts w' = acts z ++ (ActVt <$> terminal_end z)
  | Err _ => holding w'
  end.
Proof.
  unfold run_pam_session. pose proof (session_body_halts l cycles w I) as Hh.
  destruct (session_body l cycles w) as [x r]. cbn.
  pose proof (drops_run (E:=Halt) x) as Hd. destruct (drops x) as [w' u].
  destruct Hd as (_ & ? & ? & ? & y & z & ? & ? & _ & Hd).
  destruct r as [|[]]; [..|done|done]; (split_and!; [done..|]; by exists y, z).
Qed.


(** ** The supervisor's side *)

Lemma matches_from_worker i stage n : matches_worker (from_worker i stage n) i stage n = true.
Proof. unfold matches_worker, from_worker. cbn. by rewrite !str_eqb_refl, !Z.eqb_refl. Qed.
Lemma string_of_list_length l : String.length (String.string_of_list_ascii l) = length l.
Proof. induction l; cbn; congruence. Qed.
Lemma hex_nonce_length bytes : str_len (hex_of_bytes bytes) = 2 * Z.of_nat (length bytes).
Proof.
  unfold str_len, hex_of_bytes, of_bytes. rewrite string_of_list_length, length_fmap.
  induction bytes; cbn; lia.
Qed.
Lemma this_release_refl cf nonce rn : this_release cf nonce rn (cf_worker_id cf) (cf_process_id cf) nonce rn = true.
Proof. unfold this_release. by rewrite !str_eqb_refl, Z.eqb_refl. Qed.

(** The two ends of the control channel agree.  The acknowledgement the
    launcher sends for a registered scope is one the worker accepts; the
    release request of a worker, with its nonce of sixteen random bytes, is one
    the launcher accepts and reads the nonce of; and the worker takes the
    launcher's reply for exactly what the launcher verified. *)
Theorem release_is_understood l p bytes succeeded v :
  length bytes = 16%nat →
  let cf := worker_config l p in
  let nonce := registration_nonce p in
  let identity := at_stage "scope_prepared" (pl_login_identity l) in
  let envelope := mkControlEnvelope WORKER_CONTROL_PROTOCOL_VERSION in
  registered cf nonce identity (envelope (WcPayloadScopeRegistered
    (from_worker identity "scope_registered" 1) (pl_worker_id l) (pl_process_id l) nonce)) = true ∧
  release_request (pl_worker_id l) (pl_process_id l) (sc_identity (sp_scope p)) nonce identity
    (Some (envelope (release_requested cf nonce (hex_of_bytes bytes) (sc_identity (sp_scope p))
                       identity succeeded))) = Some (hex_of_bytes bytes) ∧
  release_outcome cf nonce (hex_of_bytes bytes) identity
    (envelope (release_reply (pl_worker_id l) (pl_process_id l) identity nonce
                 (hex_of_bytes bytes) v)) =
  Some (match v with ScopeReleased => Released | ScopeRecoveryRequired _ => RecoveryRequired end).
Proof.
  intros Hb. cbv zeta. pose proof (hex_nonce_length bytes) as Hl. rewrite Hb in Hl.
  assert (str_is_empty (hex_of_bytes bytes) = false) as He.
  { apply str_is_empty_false. intros E. by rewrite E in Hl. }
  unfold registered, release_request, release_outcome, release_requested, release_reply. cbn -[matches_worker from_worker hex_of_bytes registration_nonce].
  rewrite !matches_from_worker, !str_eqb_refl, !Z.eqb_refl, He, Hl, bool_decide_eq_true_2 by done.
  split_and!; [done..|]. pose proof (this_release_refl (worker_config l p) (registration_nonce p) (hex_of_bytes bytes)) as Hr.
  destruct v; cbn -[matches_worker from_worker hex_of_bytes registration_nonce];
    cbn -[hex_of_bytes registration_nonce] in Hr; by rewrite Hr, matches_from_worker.
Qed.

(** ** A session that cannot be announced *)

Lemma did_acts K x y : did K x y → ∃ more, acts y = acts x ++ more ∧ Forall K more.
Proof.
  intros (_ & _ & more & L & F). exists more.*2. unfold acts. rewrite L, fmap_app. split; [done|].
  apply Forall_fmap. eapply Forall_impl; [exact F|]. by intros e [_ ?].
Qed.
(** When the announcement of a session that runs cannot be written, the worker
    kills the process group of the leader and gives PAM and the terminal back;
    it sends no signal to the scope and does not look whether anything is left
    in it, unlike every other end of a session ([given_back_only_when_proven]). *)
Theorem unannounced_session_given_back_unproven l cycles p x e pgid :
  wv_reply (wk_view x (wk_time x)) = Err e → wk_child x = ChildLive pgid →
  let '(y, r) := opened_running l cycles p x in
  let z := (drops (E:=Halt) y).1 in
  r = Err (HaltError e) ∧ wk_pam z = None ∧ wk_terminal z = None ∧
  ∃ vt, acts z = acts x ++ [ActReply (started l p)] ++ group_signal pgid SIGKILL ++
                 [ActReapChild] ++ (ActPam <$> drop_calls (wk_pam x)) ++ (ActVt <$> vt).
Proof.
  intros He Hc. unfold opened_running, sr_bind, sr_map_err, write_envelope, sr_bind, perform, sr_lift.
  rewrite He. cbv zeta. split; [done|]. set (y := wk_tick _).
  pose proof (drops_run (E:=Halt) y) as H. destruct (drops y) as [z u].
  destruct H as (_ & _ & Hp & Ht & y1 & y2 & _ & A1 & _ & _ & A2 & _ & _ & A3). cbn [fst].
  split_and!; [done|done|]. exists (terminal_end y2). rewrite A3, A2, A1.
  unfold child_end. change (wk_child y) with (wk_child x). rewrite Hc.
  unfold y. rewrite record_acts. by rewrite <- !(assoc_L app).
Qed.
