(* ===== verification/WorkerRuns.v ===== *)
(** * Sessions of a worker, run

    One login, with every answer of the machine written out: the child drops
    its privileges and becomes the probe, the probe reports and is told to
    execute, and the worker launches, runs and ends the session.  The runs
    evaluate, and instantiate the theorems about workers. *)

From stdpp Require Import base gmap sets list strings pretty.
From Stdlib Require Import ZArith Lia.
From S2P Require Import Prelude Text Paths Ledger Admission Protocol Daemon.
From S2P Require Import WorkerRecord.
From S2P Require Import Supervisor Launch CgroupState HostWorld WorkerIdentity.
From S2P Require Import WorkerChild.
From S2P Require Import WorkerWorld WorkerScope WorkerHistory WorkerChildSafety.
From S2P Require Import WorkerScopeSafety WorkerResources WorkerTermination.
From S2P Require Import WorkerTerminationSafety WorkerEnding WorkerSession.
From S2P Require Import WorkerSessionSafety.
#[local] Open Scope niralis_scope.

(** ** The child and the probe *)

Definition run_plan : SessionExecPlan :=
  mkExecPlan "/usr/share/wayland-sessions/sway.desktop" "/usr/bin/sway" ["/usr/bin/sway"].
Definition run_runtime : SessionChildRuntimeContext :=
  mkRuntimeContext "/home/ana" "/bin/sh" "wayland" "user" "sway" "c1" "/run/user/1000" "seat0" 7
    None [("LANG", "pt_BR.UTF-8")] None "/usr/libexec/niralis-session-probe" run_plan.
Definition run_target : PrivilegeDropTarget := mkDropTarget 1000 100 [27; 998].
Definition run_terminal_context : SessionChildTerminalContext := mkTerminalContext "seat0" 7 3 4 7.
Definition run_request : ApplyCredentials :=
  mkApplyCredentials "ana" "sway" run_target run_runtime (Some run_terminal_context).
Definition run_audit : AuditAnswers :=
  mkAuditAnswers (Some "40") (Some [(0, 0, 0); (0, 0, 0)]) (λ _, 0)
    (λ c, if c <? 30 then 1 else 0) 0 1 (Some ["0"; "1"; "2"; "3"; "4"]) (λ fd, fd <? 5).
Definition run_kernel : ChildKernel :=
  mkChildKernel 4242 (Some (Ok (9, run_request))) 0 (Some ["0"; "1"; "2"; "3"; "4"])
    sample_kernel 0 0 run_audit 4242 (Some (4, 7)) 0 0 4242 4242 true (λ _, true) (λ _ _, 0) true
    true true.

Lemma probe_runs_confined_witness :
  ∃ request, child_confined run_kernel request
    (take (length (run_child run_kernel []).1 - 1) (run_child run_kernel []).1).
Proof.
  destruct (probe_runs_confined run_kernel (run_child run_kernel []).1
    (run_child run_kernel []).2 "ana" "sway" (Some run_terminal_context)) as (request & H & _).
  - by destruct (run_child run_kernel []).
  - apply (list_elem_of_lookup_2 _ 23). vm_compute. reflexivity.
  - by exists request.
Defined.

Lemma session_environment_is_clean_witness :
  ∃ entries, environment_entries run_runtime "ana" = Some entries ∧
    ("LANG", "pt_BR.UTF-8") ∈ entries ∧ "LANG" ∉ forbidden_names.
Proof.
  eexists. split; [reflexivity|]. split; [apply (bool_decide_unpack _); vm_compute; exact I|].
  apply (session_environment_is_clean run_runtime "ana" _ "LANG" "pt_BR.UTF-8" eq_refl).
  - repeat constructor.
  - apply (bool_decide_unpack _). vm_compute. exact I.
Defined.

Definition run_environment : list (string * string) :=
  default [] (environment_entries run_runtime "ana").
Definition run_selinux : SelinuxAnswers :=
  mkSelinuxAnswers true (λ _, true) 0 (0, None) (λ _, (0, None)) (λ _, 0).
Definition run_view : ProbeView :=
  mkProbeView
    ["niralis-session-probe"; "ana"; "sway"; "--terminal-seat"; "seat0"; "--terminal-vtnr"; "7";
     "--terminal-major"; "4"; "--terminal-minor"; "7"]
    (Some (run_plan, None)) 4242 (Some (4, 7)) 4242 4242 run_audit (2, [998; 27]) 100
    (Some (1000, 1000, 1000)) (Some (100, 100, 100)) run_environment (Some "/home/ana") true
    4242 4242 true 0 (Some (9, true)) 0 run_selinux (Some (true, 0x1ed)) true.
Definition run_expectation : SessionChildExpectation :=
  mkExpectation "ana" "sway" run_target run_runtime (Some run_terminal_context).
Definition run_ready : ReadyResponse :=
  match probe_ready run_view with
  | Some (r, _) => r
  | None => mkReady "" "" 0 run_target (mkCredentialProof 0 0 0 0 0 0 [])
              (mkIsolationProof (mkCapabilities [] [] [] [] [] 0) 0 true [])
              (mkProcessIds 0 0 0)
              (mkEnvironmentProof "" "" "" "" "" "" "" "" "" "" "" 0 None [] [] true "" run_plan)
              0 None
  end.

Lemma accepted_probe_is_confined_witness :
  validate_ready_response (ChildReady run_ready) run_expectation 4242 = Ok run_ready ∧
  var_os (pv_environment run_view) "LD_PRELOAD" = None.
Proof.
  assert (validate_ready_response (ChildReady run_ready) run_expectation 4242 = Ok run_ready)
    as Hv by (vm_compute; reflexivity).
  split; [exact Hv|].
  destruct (accepted_probe_is_confined run_view run_ready (run_plan, None) run_expectation 4242
    run_ready) as (_ & _ & _ & _ & _ & _ & H & _); [vm_compute; reflexivity|exact Hv|].
  apply H. apply (bool_decide_unpack _). vm_compute. exact I.
Defined.

Lemma executed_only_after_commit_witness :
  PrExec run_plan ∈ (run_probe run_view []).1 ∧ validate_exec_plan run_plan = true.
Proof.
  assert (PrExec run_plan ∈ (run_probe run_view []).1) as Hin.
  { apply (list_elem_of_lookup_2 _ 4). vm_compute. reflexivity. }
  split; [exact Hin|].
  destruct (executed_only_after_commit run_view (run_probe run_view []).1
    (run_probe run_view []).2 run_plan) as (response & context & failure & _ & _ & H & _);
    [by destruct (run_probe run_view [])|exact Hin|exact H].
Defined.

(** ** The worker *)

Definition run_bytes : list Z := [1; 2; 3; 4; 5; 6; 7; 8; 9; 10; 11; 12; 13; 14; 15; 16].
Definition run_invocation : list Z :=
  [160; 161; 162; 163; 164; 165; 166; 167; 168; 169; 170; 171; 172; 173; 174; 175].
Definition run_unit : string := "niralis-payload-0102030405060708090a0b0c0d0e0f10.scope".
Definition run_group : string :=
  "/user.slice/user-1000.slice/niralis-payload-0102030405060708090a0b0c0d0e0f10.scope".
Definition run_object : string := "/org/freedesktop/systemd1/unit/payload".
Definition run_identity : WorkerTransactionIdentity :=
  mkWorkerTransaction "tx-1" 3 "life-1" "seat0" 2 "requested".
Definition run_launch : PamSessionLaunch :=
  mkLaunch "ana" (mkSessionInfo "sway" "Sway" Wayland) "/usr/libexec/niralis-session-child"
    "/usr/libexec/niralis-session-probe" "/run/niralis/worker-1.sock" "worker-1" 650 run_plan
    run_identity 700 5.

Definition run_answers (active sub : string) : UnitAnswers :=
  mkUnitAnswers (Ok run_invocation) (Ok run_unit) (Ok run_group) (Ok "user-1000.slice") (Ok true)
    (Ok active) (Ok sub).
Definition run_login (member : bool) : SdLogin :=
  mkSdLogin true (λ _, true) (λ _, if member then (0, Some "c1") else (- 61, None))
    (λ _, (0, 1000))
    (λ operation _, (0, Some (if str_eqb operation "sd_session_get_type" then "wayland"
                              else if str_eqb operation "sd_session_get_class" then "user"
                              else if str_eqb operation "sd_session_get_desktop" then "sway"
                              else "seat0")))
    (λ _, (0, 7)).
Definition run_environ (name : string) : option string :=
  if str_eqb name "NIRALIS_ALLOW_REAL_GRAPHICAL_SESSION" then Some "1"
  else if str_eqb name "NIRALIS_REAL_GRAPHICAL_SESSION" then Some "sway" else None.
Definition run_getenv (name : string) : option string :=
  if str_eqb name "XDG_SESSION_ID" then Some "c1"
  else if str_eqb name "XDG_RUNTIME_DIR" then Some "/run/user/1000" else None.
Definition run_child_answers : ChildAnswers :=
  mkChildAnswers 4242 (Ok ()) (Ok (9, ChildReady run_ready)) (Some None) (Some 9).
Definition run_acknowledgement : WorkerControlEnvelope :=
  mkControlEnvelope WORKER_CONTROL_PROTOCOL_VERSION (WcPayloadScopeRegistered
    (from_worker run_identity "scope_registered" 1) "worker-1" 700 (hex_of_bytes run_invocation)).

(** The machine, as far as it changes in these runs: whether the worker is in a
    logind session, what is active and in the unit, what the supervisor says,
    which descriptors are ready and whether the leader is gone. *)
Record Scene := mkScene {
  sn_member : bool;
  sn_active_vt : Z;
  sn_unit : string * string;
  sn_events : string;
  sn_procs : string;
  sn_control : WorkerControlEnvelope;
  sn_revents : nat → Z;
  sn_leader : option ExitStatus;
  sn_reply : result () SessionError;
}.
Definition scene_view (s : Scene) : WorkerView :=
  mkWorkerView true None (λ _, Ok run_object) (λ _, run_answers (sn_unit s).1 (sn_unit s).2)
    (λ _ _, None) (Some run_bytes) true (Some "/job/1") (Some "/job/1")
    (λ _, Some run_object) (JobRemoved 1 "/job/1" "done")
    (λ _, MetaFile) (λ _, MetaFile) (λ _, Some (sn_events s)) (λ _, Some (sn_procs s))
    (λ _, Some "0::/system.slice/niralis.service") (Some run_group)
    1000 true true (Ok false) (PollReady (sn_revents s)) [] AcceptWouldBlock (Ok (sn_leader s))
    true (Some (0, 650)) 0 (Ok ()) (Ok (sn_control s)) true (sn_reply s)
    (λ _, true) (Some "ana") run_getenv (Some [("LANG", "pt_BR.UTF-8")]) (λ _, false)
    true true 1 (λ _, None) (Ok 7) (Ok (4, 7)) (Ok (sn_active_vt s)) [] (λ _, None) true
    run_environ (λ _, Some (true, 0x1ed)) (run_login (sn_member s)) (λ _, false) true
    16384 (λ _ _, (0, false, mkPasswd (Some "ana") 1000 100 (Some "/home/ana") (Some "/bin/sh")))
    65536 (λ _ _, mkGroupAnswer 3 3 [100; 998; 27]) (λ _, Some (false, true))
    (λ _, Some (true, 1000, 0x1c0)) run_selinux (Some 2000) run_child_answers true (Ok true)
    (Some false) None (Ok (Some (Exited 0)), []) (Some (Exited 0)).

Definition scene_login : Scene :=
  mkScene false 1 ("active", "running") "populated 1" "4242" run_acknowledgement
    (λ fd, if (fd =? 1)%nat then POLLIN else 0) None (Ok ()).
Definition scene_opened : Scene :=
  mkScene true 7 ("active", "running") "populated 1" "4242" run_acknowledgement
    (λ fd, if (fd =? 1)%nat then POLLIN else 0) None (Ok ()).
Definition run_worker (view : nat → Scene) : Worker :=
  mkWorker (scene_view ∘ view) 0 [] false false None None NoChild.
(** PAM puts the worker into a session at moment 25. *)
Definition launch_scenes (t : nat) : Scene := if (t <? 25)%nat then scene_login else scene_opened.
(** The leader exits while others are left in the scope; they are gone at
    moment 118; the supervisor acknowledges the intent and, once the terminal
    was given back, the result. *)
Definition scene_leaving : Scene :=
  mkScene true 7 ("active", "running") "populated 1" "4300" run_acknowledgement
    (λ fd, if (fd =? 0)%nat then POLLIN else 0) (Some (Exited 0)) (Ok ()).
Definition scene_gone (active_vt : Z) (m : WorkerControlRequest) : Scene :=
  mkScene true active_vt ("inactive", "dead") "populated 0" ""
    (mkControlEnvelope WORKER_CONTROL_PROTOCOL_VERSION m)
    (λ fd, if (fd =? 5)%nat then POLLIN else 0) (Some (Exited 0)) (Ok ()).
Definition session_scenes (t : nat) : Scene :=
  let nonce := hex_of_bytes run_invocation in
  if (t <? 25)%nat then scene_login
  else if (t <? 89)%nat then scene_opened
  else if (t <? 118)%nat then scene_leaving
  else if (t <? 170)%nat
  then scene_gone 7 (WcTerminalVtCleanupIntentAcknowledged "worker-1" 700 nonce 1)
  else scene_gone 1 (WcTerminalVtCleanupResultAcknowledged "worker-1" 700 nonce 1).
Definition whole_session : Worker * result () Halt :=
  run_pam_session run_launch 2 (run_worker session_scenes).

(** The whole session: what the worker did after the announcement, and that it
    returned without an error and owns nothing. *)
Example whole_session_ends :
  let '(w, r) := whole_session in
  r = Ok () ∧ wk_pam w = None ∧ wk_terminal w = None ∧ wk_child w = NoChild ∧
  wk_reference_held w = false ∧
  List.filter (λ a, match a with ActPam _ | ActVt _ | ActUnit _ _ => true | _ => false end)
    (drop 19 (acts w)) =
  [ActUnit (CallKill SIGTERM) run_object; ActUnit CallUnref run_object;
   ActPam PamCloseSession; ActPam PamDeleteCred; ActPam PamEnd;
   ActVt (VtActivateCall 1); ActVt VtCloseCall; ActVt (VtDisallocateCall 7)].
Proof. vm_compute. split_and!; reflexivity. Qed.

(** ** The theorems on these runs *)

Lemma payload_launched_in_order_witness :
  scope_acknowledged run_launch (run_worker session_scenes) 84 whole_session.1.
Proof.
  apply (payload_launched_in_order run_launch 2 (run_worker session_scenes) (84%nat, ActCommitExec));
    [reflexivity|]. apply (list_elem_of_lookup_2 _ 17). vm_compute. reflexivity.
Defined.

Definition run_scope : SystemdPayloadScope :=
  mkScope (mkScopeIdentity run_unit (hex_of_bytes run_invocation) 1000 "c1") run_object run_group
    700 650.
Definition run_prepared : PreparedSession :=
  mkPrepared (mkOpened 300 true (mkUnixCredentials
      (mkUnixIdentity "ana" 1000 100 "/home/ana" "/bin/sh") [27; 998]))
    (mkLogindIdentity "c1" 1000 "wayland" "user" (Some "sway") (Some "seat0") (Some 7))
    run_runtime None.
Definition run_scoped : ScopedSession := mkScoped run_prepared 300000001000 run_ready 9 run_scope.
Lemma release_is_understood_witness :
  release_outcome (worker_config run_launch run_scoped) (registration_nonce run_scoped)
    (hex_of_bytes run_bytes) (at_stage "scope_prepared" run_identity)
    (mkControlEnvelope WORKER_CONTROL_PROTOCOL_VERSION
       (release_reply "worker-1" 700 (at_stage "scope_prepared" run_identity)
          (registration_nonce run_scoped) (hex_of_bytes run_bytes) ScopeReleased)) = Some Released.
Proof.
  apply (release_is_understood run_launch run_scoped run_bytes true ScopeReleased). reflexivity.
Defined.

(** A machine that does not change. *)
Definition scope_worker (s : Scene) : Worker := run_worker (λ _, s).
Lemma prepared_scope_holds_payload_witness :
  parse_members (wv_procs (scene_view scene_opened) run_group) = Some [4242] ∧
  wk_reference_held
    (prepare_scope 4242 1000 "c1" 700 650 5000 (scope_worker scene_opened)).1 = true.
Proof.
  split; [vm_compute; reflexivity|].
  apply (prepared_scope_holds_payload 4242 1000 "c1" 700 650 5000 (scope_worker scene_opened)
    (prepare_scope 4242 1000 "c1" 700 650 5000 (scope_worker scene_opened)).1 run_scope).
  destruct (prepare_scope 4242 1000 "c1" 700 650 5000 (scope_worker scene_opened)) as [w r] eqn:H.
  apply (f_equal snd) in H. vm_compute in H. by subst r.
Defined.

(** Somebody else is in the scope. *)
Lemma failed_preparation_is_stopped_witness :
  let m := prepare_scope 4243 1000 "c1" 700 650 5000 in
  let w := scope_worker scene_opened in
  (m w).2 = Err PseInvalidMembership ∧
  (wk_log (m w).1 = [] ∨
   ∃ t name, (0 ≤ t)%nat ∧
    ((wv_start_unit (wk_view w t) = None ∧ wk_log (m w).1 = [(t, ActStartUnit name)]) ∨
     ((t, ActStartUnit name) ∈ wk_log (m w).1 ∧
      stopped (S t) name 5000 PseInvalidMembership (m w).1))).
Proof.
  intros m w. assert ((m w).2 = Err PseInvalidMembership) as Hr by (vm_compute; reflexivity).
  split; [exact Hr|].
  apply (failed_preparation_is_stopped 4243 1000 "c1" 700 650 5000 w (m w).1
    PseInvalidMembership).
  rewrite <- Hr. apply surjective_pairing.
Defined.

Lemma cycle_misses_nothing_witness :
  let cf := worker_config run_launch run_scoped in
  let st := mkWait graceful_new false false in
  let w := set_reference true (scope_worker scene_leaving) in
  let r := poll_cycle cf run_scope st w in
  coherent st ∧ ∃ st', r.2 = Ok st' ∧ ws_leader_reaped st' = true ∧
    (during (stranger cf) w r.1 ∨ gc_cause (ws_coordinator st') ≠ None).
Proof.
  intros cf st w r. assert (coherent st) as Hc by (vm_compute; auto). split; [exact Hc|].
  exists (mkWait (mkGraceful (Some (LeaderExited ExitedZero)) (Some ExitedZero) true true) true true).
  assert (r.2 = Ok (mkWait (mkGraceful (Some (LeaderExited ExitedZero)) (Some ExitedZero) true true)
    true true)) as Hr by (vm_compute; reflexivity).
  split; [exact Hr|]. split; [reflexivity|].
  destruct (cycle_misses_nothing cf run_scope st w r.1 _ Hc
    (eq_trans (surjective_pairing r) (f_equal (pair r.1) Hr))) as [H|[H _]]; [by left|right].
  by apply H.
Defined.
