(* ===== verification/WorkerIo.v ===== *)
(** * The lines between launcher, worker and session child

    [worker_io.rs] and [worker_attempt] of [niralis-session] and
    [session_child/handshake.rs] of the worker: every message is one line of
    JSON, written and flushed, and read back a byte at a time under a limit.
    A thread of the launcher turns the worker's lines into the answers that
    [Launch.wait_launch_response] takes.  A stream is what the reads of one
    byte deliver: [None] is a failed read, the end of the list the end of the
    pipe; a write that fails leaves a part of what it was given. *)

From stdpp Require Import base gmap sets list strings.
From Stdlib Require Import ZArith Lia Ascii.
From S2P Require Import Prelude Text DirFs RecoveryTypes LedgerTaxonomy Ledger.
From S2P Require Import PreviousBoot PreCommit SameBoot Admission AdminRecovery.
From S2P Require Import Protocol Conversation Login Daemon Client WorkerRecord.
From S2P Require Import Supervisor Launch WorkerIdentity WorkerChild.
#[local] Open Scope niralis_scope.

Definition MAX_WORKER_MESSAGE_BYTES : Z := 64 * 1024.
Definition MAX_WORKER_CONTROL_MESSAGE_BYTES : Z := 4096.

(** ** Reading a line *)

(** What a reader does at the end of the pipe, when a read fails, with a line
    that is too long, and after how many bytes it gives up on a newline. *)
Record LineRules (E : Type) := mkLineRules {
  lr_max : Z;
  lr_eof : E;
  lr_failed : E;
  lr_refused : E;
  lr_gives_up : Z → bool;
}.
Arguments mkLineRules {E}.
Arguments lr_max {E}.
Arguments lr_eof {E}.
Arguments lr_failed {E}.
Arguments lr_refused {E}.
Arguments lr_gives_up {E}.

(** The line with its newline; [len] bytes have been read before. *)
Fixpoint read_line_from {E} (rules : LineRules E) (len : Z) (s : Stream)
    : Stream * result string E :=
  match s with
  | [] => ([], Err (lr_eof rules))
  | None :: rest => (rest, Err (lr_failed rules))
  | Some c :: rest =>
      if bool_decide (c = NEWLINE)
      then (rest, if lr_max rules <? len + 1 then Err (lr_refused rules)
                  else Ok (String c EmptyString))
      else if lr_gives_up rules (len + 1) then (rest, Err (lr_refused rules))
      else match read_line_from rules (len + 1) rest with
           | (s, Ok bytes) => (s, Ok (String c bytes))
           | (s, Err e) => (s, Err e)
           end
  end.

Definition message_rules : LineRules SessionError :=
  mkLineRules MAX_WORKER_MESSAGE_BYTES WorkerProtocolFailed WorkerIoFailed WorkerProtocolFailed
    (λ len, MAX_WORKER_MESSAGE_BYTES <? len).
Definition read_message_bytes (s : Stream) : Stream * result string SessionError :=
  read_line_from message_rules 0 s.

Definition control_rules : LineRules SessionError :=
  mkLineRules MAX_WORKER_CONTROL_MESSAGE_BYTES WorkerIoFailed WorkerIoFailed
    WorkerProtocolFailed (λ len, MAX_WORKER_CONTROL_MESSAGE_BYTES <=? len).
Definition read_control_message_bytes (s : Stream) : Stream * result string SessionError :=
  read_line_from control_rules 0 s.

Definition child_rules : LineRules SessionChildError :=
  mkLineRules MAX_SESSION_CHILD_MESSAGE_BYTES ScIoFailed ScIoFailed ScProtocolFailed
    (λ len, MAX_SESSION_CHILD_MESSAGE_BYTES <? len).
Definition read_child_response (s : Stream) : Stream * result string SessionChildError :=
  read_line_from child_rules 0 s.

(** ** Parsing a line *)

Definition ends_with_newline (bytes : string) : bool :=
  match last (String.list_ascii_of_string bytes) with
  | Some c => bool_decide (c = NEWLINE)
  | None => false
  end.
(** [&bytes[..bytes.len() - 1]]. *)
Definition without_last (bytes : string) : string :=
  String.string_of_list_ascii (removelast (String.list_ascii_of_string bytes)).
(** The line a message is parsed from: one that ends, and holds something. *)
Definition message_line (bytes : string) : option string :=
  let line := without_last bytes in
  if ends_with_newline bytes && negb (str_is_empty line)
     && negb (str_contains_byte NEWLINE line)
  then Some line else None.

Definition parse_envelope_bytes `{SerdeJson WorkerEnvelope} (bytes : string)
    : result WorkerEnvelope SessionError :=
  ok_or (message_line bytes ≫= serde_from_slice) WorkerProtocolFailed.
Definition read_envelope `{SerdeJson WorkerEnvelope} (s : Stream)
    : Stream * result WorkerEnvelope SessionError :=
  match read_message_bytes s with
  | (s, Ok bytes) => (s, parse_envelope_bytes bytes)
  | (s, Err e) => (s, Err e)
  end.

Definition read_control_request `{SerdeJson WorkerControlEnvelope} (s : Stream)
    : Stream * result WorkerControlEnvelope SessionError :=
  match read_control_message_bytes s with
  | (s, Ok bytes) =>
      (s, if ends_with_newline bytes
          then ok_or (serde_from_slice (without_last bytes)) WorkerProtocolFailed
          else Err WorkerProtocolFailed)
  | (s, Err e) => (s, Err e)
  end.

(** The version of the session child's message, and the message. *)
Definition parse_response `{SerdeJson (Z * SessionChildResponse)} (bytes : string)
    : result (Z * SessionChildResponse) SessionChildError :=
  ok_or (message_line bytes ≫= serde_from_slice) ScProtocolFailed.

(** ** Writing a line *)

(** What was written so far, and how the next calls go: [Some n] is a call
    that fails after [n] bytes. *)
Record Pipe := mkPipe {
  pi_sent : Stream;
  pi_faults : list (option nat);
}.
Definition write_all (bytes : string) : SR Pipe SessionError () := λ p,
  match pi_faults p with
  | Some n :: faults =>
      (mkPipe (pi_sent p ++ take n (frame_bytes bytes)) faults, Err WorkerIoFailed)
  | None :: faults => (mkPipe (pi_sent p ++ frame_bytes bytes) faults, Ok ())
  | [] => (mkPipe (pi_sent p ++ frame_bytes bytes) [], Ok ())
  end.
Definition flush : SR Pipe SessionError () := write_all EmptyString.

Definition write_framed (max : Z) (json : option string) : SR Pipe SessionError () :=
  let* payload := sr_lift (ok_or json WorkerIoFailed) in
  ensure str_len payload + 1 <=? max else WorkerProtocolFailed ;;;
  write_all payload ;;;
  write_all (String NEWLINE EmptyString) ;;;
  flush.
Definition write_envelope `{SerdeJson WorkerEnvelope} (message : WorkerResponse)
    : SR Pipe SessionError () :=
  write_framed MAX_WORKER_MESSAGE_BYTES
    (serde_to_vec (mkWorkerEnvelope WORKER_PROTOCOL_VERSION message)).
Definition write_control_request `{SerdeJson WorkerControlEnvelope}
    (request : WorkerControlRequest) : SR Pipe SessionError () :=
  write_framed MAX_WORKER_CONTROL_MESSAGE_BYTES
    (serde_to_vec (mkControlEnvelope WORKER_CONTROL_PROTOCOL_VERSION request)).

(** ** The reader thread of the launcher *)

Definition ends_reader (event : result WorkerEnvelope SessionError) : bool :=
  match event with
  | Err _ => true
  | Ok e => match we_message e with
            | WrStarted _ _ _ _ _ _ _ | WrReady _ | WrAuthenticationFailed
            | WrSessionFailed _ | WrRejected _ => true
            | _ => false
            end
  end.
(** The thread's loop, as long as somebody receives; a round per message. *)
Fixpoint spawn_reader `{SerdeJson WorkerEnvelope} (rounds : nat) (s : Stream)
    : list (result WorkerEnvelope SessionError) :=
  match rounds with
  | O => []
  | S rounds =>
      let '(s, event) := read_envelope s in
      event :: (if ends_reader event then [] else spawn_reader rounds s)
  end.
(** Every round takes a byte, so the stream bounds them. *)
Definition reader_events `{SerdeJson WorkerEnvelope} (s : Stream)
    : list (result WorkerEnvelope SessionError) := spawn_reader (S (length s)) s.

(** ** Lines are read back as they were written *)

Definition LINE_END : string := String NEWLINE EmptyString.
(** A reader goes on as long as the line may still fit, and no longer. *)
Record sound_rules {E} (rules : LineRules E) : Prop := mkSoundRules {
  sr_patient : ∀ n, n < lr_max rules → lr_gives_up rules n = false;
  sr_limited : ∀ n, lr_max rules < n → lr_gives_up rules n = true;
}.
Lemma message_rules_sound : sound_rules message_rules.
Proof. split; intros n Hn; cbn in *; [apply Z.ltb_ge|apply Z.ltb_lt]; lia. Qed.
Lemma control_rules_sound : sound_rules control_rules.
Proof. split; intros n Hn; cbn in *; [apply Z.leb_gt|apply Z.leb_le]; lia. Qed.
Lemma child_rules_sound : sound_rules child_rules.
Proof. split; intros n Hn; cbn in *; [apply Z.ltb_ge|apply Z.ltb_lt]; lia. Qed.

Section Lines.
Context {E : Type} (rules : LineRules E) (Hrules : sound_rules rules).

(** The reader accepts exactly the lines that fit the limit with their
    newline, and takes nothing beyond them. *)
Lemma read_line_from_exact len s rest bytes :
  0 ≤ len →
  read_line_from rules len s = (rest, Ok bytes) ↔
  ∃ line, bytes = line +:+ LINE_END ∧ s = frame_bytes line ++ Some NEWLINE :: rest ∧
    str_contains_byte NEWLINE line = false ∧ len + str_len line + 1 ≤ lr_max rules.
Proof.
  revert len bytes. induction s as [|x s IH]; intros len bytes Hlen.
  { cbn. split; [done|]. intros (line & _ & Hs & _). by destruct line. }
  destruct x as [c|]; cbn [read_line_from].
  2: { split; [done|]. intros (line & _ & Hs & _). by destruct line. }
  case_bool_decide as Hc.
  - subst c. split.
    + destruct (Z.ltb_spec (lr_max rules) (len + 1)) as [|Hm]; [done|].
      intros [= -> <-]. exists EmptyString. unfold str_len. cbn. split_and!; [done..|lia].
    + intros (line & -> & Hs & Hn & Hl). destruct line as [|c line].
      * injection Hs as ->. unfold str_len in Hl. cbn in Hl.
        by destruct (Z.ltb_spec (lr_max rules) (len + 1)); [lia|].
      * cbn in *. injection Hs as <- _. by rewrite bool_decide_eq_true_2 in Hn.
  - split.
    + destruct (lr_gives_up rules (len + 1)) eqn:Hg; [done|].
      destruct (read_line_from rules (len + 1) s) as [s' [f|e]] eqn:HR; [|done].
      intros [= <- <-]. apply IH in HR as (line & -> & -> & Hn & Hl); [|lia].
      exists (String c line). unfold str_len, str_contains_byte in *. cbn.
      split_and!; [done..| |lia]. by rewrite Hn, bool_decide_eq_false_2.
    + intros (line & -> & Hs & Hn & Hl). destruct line as [|c' line]; [by injection Hs as ->|].
      cbn in Hs, Hn. injection Hs as <- ->. apply orb_false_iff in Hn as [_ Hn].
      unfold str_len in Hl. cbn in Hl. rewrite (sr_patient _ Hrules) by lia.
      rewrite (proj2 (IH (len + 1) (line +:+ LINE_END) ltac:(lia))); [done|].
      exists line. unfold str_len. split_and!; [done..|lia].
Qed.

(** However much is sent, a line costs at most one byte more than the limit. *)
Lemma read_line_from_bounded len s :
  0 ≤ len ≤ lr_max rules →
  (length s ≤ length (read_line_from rules len s).1 + Z.to_nat (lr_max rules + 1 - len))%nat ∧
  (length (read_line_from rules len s).1 ≤ length s)%nat ∧
  (is_ok (read_line_from rules len s).2 = true →
   (length (read_line_from rules len s).1 < length s)%nat).
Proof.
  revert len. induction s as [|x s IH]; intros len Hlen; [cbn; split_and!; [lia..|done]|].
  destruct x as [c|]; cbn [read_line_from]; [|cbn; split_and!; [lia..|done]].
  case_bool_decide; [cbn; lia|].
  destruct (lr_gives_up rules (len + 1)) eqn:Hg; [cbn; split_and!; [lia..|done]|].
  assert (len + 1 ≤ lr_max rules).
  { destruct (decide (lr_max rules < len + 1)) as [Hm|]; [|lia].
    rewrite (sr_limited _ Hrules) in Hg by lia. done. }
  destruct (IH (len + 1)) as (H1 & H2 & H3); [lia|].
  destruct (read_line_from rules (len + 1) s) as [s' [f|e]]; cbn in *; lia || (split_and!; [lia..|done]).
Qed.

(** A line that breaks off is the end of the pipe. *)
Lemma read_line_from_cut len line n :
  0 ≤ len → str_contains_byte NEWLINE line = false →
  len + str_len line + 1 ≤ lr_max rules → (n ≤ String.length line)%nat →
  read_line_from rules len (take n (frame_bytes line)) = ([], Err (lr_eof rules)).
Proof.
  revert len line. induction n as [|n IH]; intros len line Hlen Hn Hl Hle; [done|].
  destruct line as [|c line]; [cbn in Hle; lia|].
  cbn in Hn. apply orb_false_iff in Hn as [Hc Hn]. apply bool_decide_eq_false in Hc.
  unfold str_len in Hl. cbn in Hl, Hle. cbn.
  rewrite bool_decide_eq_false_2 by done. rewrite (sr_patient _ Hrules) by lia.
  unfold frame_bytes in IH. rewrite (IH (len + 1) line); [done|lia|done| |lia].
  unfold str_len. lia.
Qed.
End Lines.

Lemma list_ascii_app a b :
  String.list_ascii_of_string (a +:+ b)
  = String.list_ascii_of_string a ++ String.list_ascii_of_string b.
Proof.
  induction a as [|c a IH]; [done|]. rewrite str_app_cons.
  cbn [String.list_ascii_of_string app]. by rewrite IH.
Qed.
Lemma line_end_seen line :
  ends_with_newline (line +:+ LINE_END) = true ∧ without_last (line +:+ LINE_END) = line.
Proof.
  unfold ends_with_newline, without_last. rewrite list_ascii_app. cbn [LINE_END String.list_ascii_of_string].
  rewrite last_snoc, removelast_last, String.string_of_list_ascii_of_string.
  by rewrite bool_decide_eq_true_2.
Qed.
Lemma message_line_exact line :
  str_is_empty line = false → str_contains_byte NEWLINE line = false →
  message_line (line +:+ LINE_END) = Some line.
Proof.
  intros He Hn. unfold message_line. destruct (line_end_seen line) as [-> ->].
  by rewrite He, Hn.
Qed.

(** ** What the launcher hears *)

Section Heard.
Context `{SerdeRoundtrip WorkerEnvelope}.

(** A message that can be sent: its JSON is one line and fits. *)
Definition sendable (e : WorkerEnvelope) : Prop :=
  ∃ json, serde_to_vec e = Some json ∧ str_is_empty json = false ∧
    str_contains_byte NEWLINE json = false ∧ str_len json + 1 ≤ MAX_WORKER_MESSAGE_BYTES.
Definition framed (e : WorkerEnvelope) : Stream :=
  match serde_to_vec e with
  | Some json => frame_bytes json ++ [Some NEWLINE]
  | None => []
  end.
Definition worker_envelope (m : WorkerResponse) : WorkerEnvelope :=
  mkWorkerEnvelope WORKER_PROTOCOL_VERSION m.

Lemma read_envelope_framed e rest :
  sendable e → read_envelope (framed e ++ rest) = (rest, Ok e).
Proof.
  intros (json & Hj & He & Hn & Hl). unfold framed, read_envelope, read_message_bytes.
  rewrite Hj, <- app_assoc. cbn [app].
  rewrite (proj2 (read_line_from_exact message_rules message_rules_sound 0 _ rest
    (json +:+ LINE_END) ltac:(lia))) by (by exists json).
  unfold parse_envelope_bytes. rewrite (message_line_exact _ He Hn). cbn.
  by rewrite (serde_roundtrip e json Hj).
Qed.
Lemma read_envelope_cut e n :
  sendable e → (n < length (framed e))%nat →
  read_envelope (take n (framed e)) = ([], Err WorkerProtocolFailed).
Proof.
  intros (json & Hj & He & Hn & Hl) Hlt. unfold framed, read_envelope, read_message_bytes in *.
  rewrite Hj in *. rewrite length_app in Hlt. cbn in Hlt.
  assert (length (frame_bytes json) = String.length json) as Hlen.
  { unfold frame_bytes. rewrite length_fmap. clear. induction json; cbn; congruence. }
  rewrite take_app_le by lia.
  rewrite (read_line_from_cut message_rules message_rules_sound); [done|lia|done|done|lia].
Qed.
Lemma framed_length e : sendable e → (1 ≤ length (framed e))%nat.
Proof.
  intros (json & Hj & _). unfold framed. rewrite Hj, length_app. cbn. lia.
Qed.

(** What is heard of messages of which the first [n] bytes arrive. *)
Fixpoint hears (es : list WorkerEnvelope) (n : nat) : list (result WorkerEnvelope SessionError) :=
  match es with
  | [] => [Err WorkerProtocolFailed]
  | e :: es =>
      if bool_decide (n < length (framed e))%nat then [Err WorkerProtocolFailed]
      else Ok e :: (if ends_reader (Ok e) then [] else hears es (n - length (framed e)))
  end.

Lemma spawn_reader_hears rounds es n :
  Forall sendable es → (length (take n (concat (framed <$> es))) < rounds)%nat →
  spawn_reader rounds (take n (concat (framed <$> es))) = hears es n.
Proof.
  revert rounds n. induction es as [|e es IH]; intros rounds n Hs Hr.
  { destruct rounds; [lia|]. cbn. by rewrite take_nil. }
  apply Forall_cons in Hs as [He Hs]. destruct rounds as [|rounds]; [lia|].
  cbn [fmap list_fmap concat hears] in *. case_bool_decide as Hn.
  - rewrite take_app_le by lia. cbn [spawn_reader]. by rewrite read_envelope_cut.
  - rewrite take_app_ge in * by lia. cbn [spawn_reader]. rewrite read_envelope_framed by done.
    rewrite length_app in Hr. pose proof (framed_length e He).
    destruct (ends_reader (Ok e)); [done|]. f_equal. apply IH; [done|]. lia.
Qed.

(** The messages up to the first that ends the reader. *)
Fixpoint through_end (ms : list WorkerResponse) : list WorkerResponse :=
  match ms with
  | [] => []
  | m :: ms => m :: (if ends_reader (Ok (worker_envelope m)) then [] else through_end ms)
  end.
Definition ended (ms : list WorkerResponse) : Prop :=
  ∃ m, last ms = Some m ∧ ends_reader (Ok (worker_envelope m)) = true.

Lemma hears_prefix ms n :
  Forall (λ m, sendable (worker_envelope m)) ms →
  ∃ heard, heard `prefix_of` through_end ms ∧
    (hears (worker_envelope <$> ms) n = Ok ∘ worker_envelope <$> heard ∧ ended heard ∧
       heard = through_end ms ∨
     hears (worker_envelope <$> ms) n
       = (Ok ∘ worker_envelope <$> heard) ++ [Err WorkerProtocolFailed]) ∧
    ((length (concat (framed <$> (worker_envelope <$> ms))) ≤ n)%nat → heard = through_end ms).
Proof.
  revert n. induction ms as [|m ms IH]; intros n Hs.
  { exists []. split; [done|]. split; [by right|done]. }
  apply Forall_cons in Hs as [Hm Hs]. cbn [fmap list_fmap hears concat through_end].
  case_bool_decide as Hn.
  { exists []. split; [apply prefix_nil|]. split; [by right|]. rewrite length_app. lia. }
  destruct (ends_reader (Ok (worker_envelope m))) eqn:He.
  - exists [m]. split; [done|]. split; [|done]. left. split_and!; [done| |done]. by exists m.
  - destruct (IH (n - length (framed (worker_envelope m)))%nat Hs)
      as (heard & Hp & Ho & Ha).
    exists (m :: heard). split; [by apply prefix_cons|]. split.
    + destruct Ho as [(-> & Hend & ->)| ->]; [left|by right]. split_and!; [done| |done].
      destruct Hend as (m' & Hl & Hm'). exists m'. split; [|done].
      by destruct (through_end ms).
    + rewrite length_app. intros Hlen. rewrite Ha; [done|]. lia.
Qed.

(** A worker writes its messages one after the other and stops at the first
    it cannot write. *)
Fixpoint write_messages (ms : list WorkerResponse) : SR Pipe SessionError () :=
  match ms with
  | [] => sr_ret ()
  | m :: ms => write_envelope m ;;; write_messages ms
  end.

Lemma take_min_length {A} k (l : list A) : take (k `min` length l) l = take k l.
Proof.
  destruct (decide (k ≤ length l)%nat); [by rewrite Nat.min_l|].
  by rewrite Nat.min_r, !take_ge by lia.
Qed.
Lemma write_all_sent bytes p p' r :
  write_all bytes p = (p', r) →
  ∃ k, pi_sent p' = pi_sent p ++ take k (frame_bytes bytes) ∧
    (r = Ok () → pi_sent p' = pi_sent p ++ frame_bytes bytes).
Proof.
  unfold write_all. destruct (pi_faults p) as [|[n|] faults]; intros [= <- <-].
  - exists (length (frame_bytes bytes)). by rewrite take_ge.
  - by exists n.
  - exists (length (frame_bytes bytes)). by rewrite take_ge.
Qed.
Lemma write_envelope_sent m p p' r :
  sendable (worker_envelope m) → write_envelope m p = (p', r) →
  ∃ k, pi_sent p' = pi_sent p ++ take k (framed (worker_envelope m)) ∧
    (r = Ok () → pi_sent p' = pi_sent p ++ framed (worker_envelope m)).
Proof.
  intros (json & Hj & _ & _ & Hl). unfold write_envelope, write_framed, framed, flush.
  unfold worker_envelope in Hj |- *. rewrite Hj.
  cbn [ok_or]. rewrite sr_bind_eq. unfold sr_lift at 1. cbv beta iota.
  rewrite (proj2 (Z.leb_le _ _) Hl). rewrite sr_bind_eq. unfold sr_ret at 1. cbv beta iota.
  rewrite sr_bind_eq. destruct (write_all json p) as [p1 r1] eqn:H1.
  apply write_all_sent in H1 as (k1 & Hk1 & Ho1).
  destruct r1 as [[]|e1].
  2: { intros [= <- <-]. exists (k1 `min` length (frame_bytes json))%nat.
       split; [|done]. rewrite Hk1. f_equal. rewrite take_app_le by lia.
       by rewrite take_min_length. }
  specialize (Ho1 eq_refl). rewrite sr_bind_eq.
  destruct (write_all (String NEWLINE EmptyString) p1) as [p2 r2] eqn:H2.
  apply write_all_sent in H2 as (k2 & Hk2 & Ho2). rewrite Ho1, <- app_assoc in Hk2, Ho2.
  destruct r2 as [[]|e2].
  2: { intros [= <- <-]. exists (length (frame_bytes json) + k2)%nat. split; [|done].
       rewrite Hk2. f_equal. by rewrite take_app_add. }
  specialize (Ho2 eq_refl). intros H3. apply write_all_sent in H3 as (k3 & Hk3 & Ho3).
  exists (length (frame_bytes json ++ [Some NEWLINE])). rewrite take_ge by done.
  rewrite Hk3, Ho2. cbn. by rewrite take_nil, app_nil_r.
Qed.
Lemma write_messages_sent ms p p' r :
  Forall (λ m, sendable (worker_envelope m)) ms → write_messages ms p = (p', r) →
  ∃ k, pi_sent p' = pi_sent p ++ take k (concat (framed <$> (worker_envelope <$> ms))) ∧
    (r = Ok () → pi_sent p' = pi_sent p ++ concat (framed <$> (worker_envelope <$> ms))).
Proof.
  revert p. induction ms as [|m ms IH]; intros p Hs.
  { intros [= <- <-]. exists 0%nat. cbn. by rewrite app_nil_r. }
  apply Forall_cons in Hs as [Hm Hs]. cbn [write_messages fmap list_fmap concat].
  rewrite sr_bind_eq. destruct (write_envelope m p) as [p1 r1] eqn:H1.
  apply (write_envelope_sent _ _ _ _ Hm) in H1 as (k1 & Hk1 & Ho1). destruct r1 as [[]|e1].
  - specialize (Ho1 eq_refl). intros H2. apply (IH _ Hs) in H2 as (k2 & Hk2 & Ho2).
    exists (length (framed (worker_envelope m)) + k2)%nat.
    rewrite take_app_add, app_assoc, <- Ho1. split; [done|]. intros Hr.
    by rewrite app_assoc, <- Ho1, Ho2.
  - intros [= <- <-]. exists (k1 `min` length (framed (worker_envelope m)))%nat.
    split; [|done]. rewrite Hk1. f_equal. rewrite take_app_le by lia.
    by rewrite take_min_length.
Qed.
End Heard.

(** C21. The launcher hears what the worker said.  Whatever messages that fit
    the limit a worker writes, at whatever byte a write fails, and however
    many of the written bytes arrive before the worker is gone, the answers
    the launch waits for are a beginning of these messages, in their order and
    unchanged, cut off after the first that ends the exchange; and unless it
    is that one that came last, they end with a protocol failure.  A worker
    whose writes succeed and arrive is heard to its final message. *)
Theorem launcher_hears_the_worker `{SerdeRoundtrip WorkerEnvelope}
    (ms : list WorkerResponse) (faults : list (option nat)) (p : Pipe)
    (r : result () SessionError) (n : nat) :
  Forall (λ m, sendable (worker_envelope m)) ms →
  write_messages ms (mkPipe [] faults) = (p, r) →
  let events := reader_events (take n (pi_sent p)) in
  ∃ heard, heard `prefix_of` through_end ms ∧
    (events = Ok ∘ worker_envelope <$> heard ∧ ended heard ∧ heard = through_end ms ∨
     events = (Ok ∘ worker_envelope <$> heard) ++ [Err WorkerProtocolFailed]) ∧
    (r = Ok () → (length (pi_sent p) ≤ n)%nat → heard = through_end ms).
Proof.
  intros Hs Hw. cbv zeta. unfold reader_events.
  destruct (write_messages_sent ms _ _ _ Hs Hw) as (k & Hk & Ho). cbn [pi_sent app] in *.
  rewrite Hk in *. rewrite take_take.
  rewrite spawn_reader_hears; [|by apply Forall_fmap|lia].
  destruct (hears_prefix ms (n `min` k) Hs) as (heard & Hp & Hc & Ha).
  exists heard. split_and!; [done..|]. intros Hr Hn. apply Ha.
  specialize (Ho Hr). apply (f_equal length) in Ho. rewrite length_take in *. lia.
Qed.

(** The control channel loses nothing: a request that was written, whose JSON
    is one line, is read back with exactly its own bytes taken. *)
Theorem control_request_crosses `{SerdeRoundtrip WorkerControlEnvelope}
    (request : WorkerControlRequest) (json : string) (p : Pipe) (rest : Stream) :
  let e := mkControlEnvelope WORKER_CONTROL_PROTOCOL_VERSION request in
  serde_to_vec e = Some json → str_contains_byte NEWLINE json = false →
  write_control_request request (mkPipe [] []) = (p, Ok ()) →
  read_control_request (pi_sent p ++ rest) = (rest, Ok e).
Proof.
  intros e Hj Hn. unfold write_control_request, write_framed. fold e. rewrite Hj.
  intros (p1 & payload & [-> [= <-]]%lift_ok & Hw)%bind_ok.
  apply bind_ok in Hw as (p2 & [] & [-> Hl%Z.leb_le]%ensure_ok & Hw). cbn in Hw.
  injection Hw as <-. cbn [pi_sent]. rewrite app_nil_r, <- app_assoc. cbn [app].
  unfold read_control_request, read_control_message_bytes.
  rewrite (proj2 (read_line_from_exact control_rules control_rules_sound 0 _ rest
    (json +:+ LINE_END) ltac:(lia))) by (by exists json).
  destruct (line_end_seen json) as [-> ->]. cbn. by rewrite (serde_roundtrip e json Hj).
Qed.

(** What a peer sends costs the reader a bounded number of bytes: at most one
    more than its limit, of a message, a control request or a response of the
    session child. *)
Theorem line_reads_are_bounded (s : Stream) :
  (length s - length (read_message_bytes s).1 ≤ Z.to_nat (MAX_WORKER_MESSAGE_BYTES + 1) ∧
   length s - length (read_control_message_bytes s).1
     ≤ Z.to_nat (MAX_WORKER_CONTROL_MESSAGE_BYTES + 1) ∧
   length s - length (read_child_response s).1
     ≤ Z.to_nat (MAX_SESSION_CHILD_MESSAGE_BYTES + 1))%nat.
Proof.
  pose proof (read_line_from_bounded _ message_rules_sound 0 s) as H1.
  pose proof (read_line_from_bounded _ control_rules_sound 0 s) as H2.
  pose proof (read_line_from_bounded _ child_rules_sound 0 s) as H3.
  unfold read_message_bytes, read_control_message_bytes, read_child_response.
  cbn [lr_max message_rules control_rules child_rules] in *. unfold MAX_WORKER_MESSAGE_BYTES,
    MAX_WORKER_CONTROL_MESSAGE_BYTES, MAX_SESSION_CHILD_MESSAGE_BYTES in *.
  destruct H1 as [H1 _]; [lia|]. destruct H2 as [H2 _]; [lia|]. destruct H3 as [H3 _]; [lia|].
  rewrite Z.sub_0_r in *. split_and!; apply Nat.le_sub_le_add_l; lia.
Qed.

(** The reader thread comes to an end: its last answer is one that ends the
    exchange, and every answer before it is not. *)
Theorem reader_comes_to_an_end `{SerdeJson WorkerEnvelope} (s : Stream) :
  ∃ before final, reader_events s = before ++ [final] ∧ ends_reader final = true ∧
    Forall (λ event, ends_reader event = false) before.
Proof.
  unfold reader_events. generalize (Nat.lt_succ_diag_r (length s)).
  generalize (S (length s)) as rounds. intros rounds. revert s.
  induction rounds as [|rounds IH]; intros s Hr; [lia|]. cbn [spawn_reader].
  destruct (read_envelope s) as [s' event] eqn:He.
  destruct (ends_reader event) eqn:Hend.
  - exists [], event. by split_and!.
  - destruct event as [e|err]; [|done].
    assert (length s' < length s)%nat as Hlt.
    { unfold read_envelope, read_message_bytes in He.
      pose proof (read_line_from_bounded _ message_rules_sound 0 s) as Hb.
      destruct Hb as (_ & _ & Hb). { cbn. unfold MAX_WORKER_MESSAGE_BYTES. lia. }
      destruct (read_line_from message_rules 0 s) as [s1 [bytes|]]; [|done].
      injection He as <- _. by apply Hb. }
    destruct (IH s') as (before & final & -> & Hf & Hb); [lia|].
    exists (Ok e :: before), final. split_and!; [done..|]. by constructor.
Qed.
