(* ===== verification/ProcessFds.v ===== *)
(** * What a new process inherits

    The launcher starts a worker and hands it one end of a socket pair as
    descriptor 3 ([worker_attempt/process/spawn.rs]); the worker takes it over
    ([runtime/channels/inherited.rs]).  The worker starts the session child and
    hands it the terminal as descriptor 3 and the write end of a status pipe as
    descriptor 4 ([session_child/spawn.rs]), over which it learns whether the
    session was executed ([session_child/handshake.rs]).  A process is its
    environment and its descriptor table; [exec] closes what is marked
    close-on-exec. *)

From stdpp Require Import base gmap sets list strings pretty.
From Stdlib Require Import ZArith Lia.
From S2P Require Import Prelude Text DirFs RecoveryTypes LedgerTaxonomy Ledger.
From S2P Require Import CgroupState Admission WorkerIdentity WorkerChild.
#[local] Open Scope niralis_scope.

(** ** Descriptors *)

(** An open file and whether the descriptor is closed on exec. *)
Abbreviation FdTable := (gmap Z (Z * bool)).
Record Process := mkProcess {
  pc_env : gmap string string;
  pc_fds : FdTable;
}.

Definition dup2 (source target : Z) (t : FdTable) : option FdTable :=
  entry ← t !! source;
  Some (if source =? target then t else <[target := (entry.1, false)]> t).
(** [fcntl] with [F_SETFD]. *)
Definition set_cloexec (fd : Z) (flag : bool) (t : FdTable) : option FdTable :=
  entry ← t !! fd; Some (<[fd := (entry.1, flag)]> t).
Definition exec (t : FdTable) : FdTable := filter (λ x, x.2.2 = false) t.

(** ** The worker and its channel *)

Definition WORKER_SUPERVISOR_FD_ENV : string := "NIRALIS_WORKER_SUPERVISOR_FD".
Definition CHILD_SUPERVISOR_FD : Z := 3.

(** The closure that runs between fork and exec. *)
Definition worker_pre_exec (child_channel_fd : Z) (t : FdTable) : option FdTable :=
  t ← (if child_channel_fd =? CHILD_SUPERVISOR_FD then Some t
       else dup2 child_channel_fd CHILD_SUPERVISOR_FD t);
  set_cloexec CHILD_SUPERVISOR_FD false t.
(** [env_clear], [envs] and [env]. *)
Definition worker_environment (environment : list (string * string)) : gmap string string :=
  <[WORKER_SUPERVISOR_FD_ENV := "3"%string]>
    (foldl (λ m kv, <[kv.1 := kv.2]> m) ∅ environment).
Definition spawn_worker (environment : list (string * string)) (child_channel_fd : Z)
    (t : FdTable) : option Process :=
  t ← worker_pre_exec child_channel_fd t;
  Some (mkProcess (worker_environment environment) (exec t)).

Inductive InheritedSupervisorChannelError :=
| MissingEnv | InvalidEnvValue | FcntlFailed | NotSocket | SocketInspectionDenied
| WrongSocketType | PeerCredentialsUnavailable | UnexpectedPeerOwner.

(** What the kernel says of open files: [SO_TYPE], or the [errno] it is refused
    with, and the uid of [SO_PEERCRED]. *)
Record SocketHost := mkSocketHost {
  so_type : Z → result Z Z;
  so_peer_uid : Z → option Z;
  so_euid : Z;
}.
Definition SOCK_STREAM : Z := 1.

Definition socket_type (host : SocketHost) (file : Z)
    : result Z InheritedSupervisorChannelError :=
  match so_type host file with
  | Ok kind => Ok kind
  | Err errno => Err (if (errno =? 1) || (errno =? 13) then SocketInspectionDenied
                      else NotSocket)
  end.
(** [parse::<RawFd>] and the filter; a number with a minus sign is one the
    filter refuses as well. *)
Definition parse_fd (value : string) : option Z :=
  text ← str_from_utf8 value;
  fd ← parse_uint 2147483647 text;
  if 2 <? fd then Some fd else None.

Abbreviation PR := (SR Process InheritedSupervisorChannelError).

(** The descriptor that becomes the channel. *)
Definition take_inherited_supervisor_channel_inner (host : SocketHost) : PR Z :=
  let* p := sr_get in
  let* value := sr_lift (ok_or (pc_env p !! WORKER_SUPERVISOR_FD_ENV) MissingEnv) in
  let* fd := sr_lift (ok_or (parse_fd value) InvalidEnvValue) in
  let* entry := sr_lift (ok_or (pc_fds p !! fd) FcntlFailed) in
  let* t := sr_lift (ok_or (set_cloexec fd true (pc_fds p)) FcntlFailed) in
  sr_put (mkProcess (pc_env p) t) ;;;
  let* kind := sr_lift (socket_type host entry.1) in
  ensure kind =? SOCK_STREAM else WrongSocketType ;;;
  let* uid := sr_lift (ok_or (so_peer_uid host entry.1) PeerCredentialsUnavailable) in
  ensure uid =? so_euid host else UnexpectedPeerOwner ;;;
  sr_put (mkProcess (delete WORKER_SUPERVISOR_FD_ENV (pc_env p)) t) ;;;
  sr_ret fd.
Definition take_inherited_supervisor_channel (host : SocketHost)
    : SR Process SessionError Z :=
  sr_map_err (λ _, WorkerProtocolFailed) (take_inherited_supervisor_channel_inner host).

(** ** The session child, its terminal and its status pipe *)

Definition TERMINAL_FD : Z := 3.
Definition STATUS_FD : Z := 4.

(** The two closures of [SessionChildAttempt::spawn], in their order. *)
Definition child_pre_exec (status_raw : Z) (terminal : option Z) (t : FdTable)
    : option FdTable :=
  t ← dup2 status_raw STATUS_FD t;
  match terminal with
  | None => Some t
  | Some source => t ← dup2 source TERMINAL_FD t; set_cloexec TERMINAL_FD false t
  end.
Definition spawn_child (status_raw : Z) (terminal : option Z) (t : FdTable) : option Process :=
  t ← child_pre_exec status_raw terminal t;
  Some (mkProcess ∅ (exec t)).

(** What the code calls a collision, and only logs. *)
Definition fd_mapping_collision (status_raw : Z) (terminal : option Z) : bool :=
  bool_decide (terminal = Some 4) || (status_raw =? 3).

(** [poll] and [read] of the status pipe. *)
Record StatusAnswer := mkStatusAnswer {
  sa_ready : Z;
  sa_error : bool;
  sa_count : Z;
  sa_payload : string;
}.
Inductive ExecStatus (F : Type) := ExecSuccess | ExecFailure (failure : F).
Arguments ExecSuccess {F}.
Arguments ExecFailure {F}.
Definition read_exec_status {F} `{SerdeJson F} (a : StatusAnswer)
    : result (ExecStatus F) SessionChildError :=
  if sa_ready a =? 0 then Err ScTimedOut
  else if sa_ready a <? 0 then Err ScIoFailed
  else if sa_error a then Err ScIoFailed
  else if sa_count a =? 0 then Ok ExecSuccess
  else if sa_count a <? 0 then Err ScIoFailed
  else match serde_from_slice (sa_payload a) with
       | Some failure => Ok (ExecFailure failure)
       | None => Err ScProtocolFailed
       end.

(** ** Handing descriptors over *)

Lemma exec_lookup (t : FdTable) fd file b :
  exec t !! fd = Some (file, b) ↔ t !! fd = Some (file, b) ∧ b = false.
Proof. unfold exec. rewrite map_lookup_filter_Some. done. Qed.

(** Every descriptor of a file is closed on exec. *)
Definition private (file : Z) (t : FdTable) : Prop :=
  ∀ fd b, t !! fd = Some (file, b) → b = true.
Lemma private_exec file t fd b : private file t → exec t !! fd ≠ Some (file, b).
Proof. intros Hp [Hl ->]%exec_lookup. by apply Hp in Hl. Qed.

Lemma worker_pre_exec_ok c channel t :
  t !! c = Some (channel, true) → private channel t →
  ∃ t', worker_pre_exec c t = Some t' ∧ t' !! 3 = Some (channel, false) ∧
    ∀ fd, fd ≠ 3 → t' !! fd = t !! fd.
Proof.
  intros Hc Hp. unfold worker_pre_exec, dup2, set_cloexec, CHILD_SUPERVISOR_FD.
  destruct (Z.eqb_spec c 3) as [->|Hne]; cbn.
  - rewrite Hc. cbn. eexists. split; [done|]. rewrite lookup_insert_eq.
    split; [done|]. intros fd Hfd. by rewrite lookup_insert_ne.
  - rewrite Hc. cbn. rewrite lookup_insert_eq. cbn.
    eexists. split; [done|]. rewrite lookup_insert_eq. split; [done|].
    intros fd Hfd. by rewrite !lookup_insert_ne.
Qed.

(** The worker gets its channel and keeps it to itself.  Wherever the
    launcher holds the worker's end of the socket pair, and whatever else it
    has open, the worker finds exactly that end as descriptor 3 and accepts
    it, the variable that names it is gone from its environment, which is
    otherwise what the launcher prepared, and no process the worker executes
    inherits the channel. *)
Theorem channel_handed_over (host : SocketHost) (environment : list (string * string))
    (t : FdTable) (c channel : Z) :
  t !! c = Some (channel, true) → private channel t →
  so_type host channel = Ok SOCK_STREAM → so_peer_uid host channel = Some (so_euid host) →
  ∃ p p', spawn_worker environment c t = Some p ∧
    take_inherited_supervisor_channel host p = (p', Ok 3) ∧
    pc_fds p' !! 3 = Some (channel, true) ∧
    pc_env p' = delete WORKER_SUPERVISOR_FD_ENV (worker_environment environment) ∧
    ∀ fd b, exec (pc_fds p') !! fd ≠ Some (channel, b).
Proof.
  intros Hc Hp Ht Hu. destruct (worker_pre_exec_ok c channel t Hc Hp) as (t' & Ht' & H3 & Ho).
  unfold spawn_worker. rewrite Ht'. cbn.
  assert (exec t' !! 3 = Some (channel, false)) as He by (by apply exec_lookup).
  eexists _, (mkProcess (delete WORKER_SUPERVISOR_FD_ENV (worker_environment environment))
    (<[3 := (channel, true)]> (exec t'))). split; [done|].
  split_and!; [|by cbn; rewrite lookup_insert_eq|done|].
  - unfold take_inherited_supervisor_channel, take_inherited_supervisor_channel_inner.
    unfold sr_map_err, worker_environment, set_cloexec, socket_type, sr_bind, sr_get, sr_lift.
    cbn [pc_env pc_fds]. rewrite lookup_insert_eq. cbn [ok_or].
    replace (parse_fd "3") with (Some 3) by (vm_compute; reflexivity). cbn [ok_or].
    rewrite He. cbn [ok_or option_bind mbind fst]. unfold sr_put, sr_ret. cbv beta iota.
    rewrite Ht. cbn. by rewrite Hu; cbn; rewrite Z.eqb_refl.
  - intros fd b [Hl ->]%exec_lookup. cbn in Hl. apply lookup_insert_Some in Hl as [[_ [=]]|[Hn Hl]].
    apply exec_lookup in Hl as [Hl _]. rewrite Ho in Hl by done. by apply Hp in Hl.
Qed.

(** A descriptor table in which the status pipe and the terminal can be handed
    on: the worker has one descriptor of the pipe's write end, and nothing of
    either survives an exec. *)
Record to_hand_on (t : FdTable) (s status m tty : Z) : Prop := mkToHandOn {
  th_status : t !! s = Some (status, true);
  th_terminal : t !! m = Some (tty, true);
  th_apart : status ≠ tty;
  th_status_private : private status t;
  th_terminal_private : private tty t;
}.
(** What the session child relies on. *)
Definition child_table (t : FdTable) (status tty : Z) : Prop :=
  t !! 3 = Some (tty, false) ∧ t !! 4 = Some (status, false) ∧
  (∀ fd b, t !! fd = Some (status, b) → fd = 4) ∧ (∀ fd b, t !! fd = Some (tty, b) → fd = 3).

Lemma spawn_child_table t s status m tty :
  to_hand_on t s status m tty → s ≠ 4 → m ≠ 4 →
  spawn_child s (Some m) t
  = Some (mkProcess ∅ (exec (<[3 := (tty, false)]> (<[4 := (status, false)]> t)))).
Proof.
  intros [Hs Hm Ha Ps Pm] Hs4 Hm4. unfold spawn_child, child_pre_exec, dup2, set_cloexec.
  unfold STATUS_FD, TERMINAL_FD. rewrite Hs. cbn. rewrite (proj2 (Z.eqb_neq s 4) Hs4).
  rewrite lookup_insert_ne by done. rewrite Hm. cbn.
  destruct (Z.eqb_spec m 3) as [->|Hm3]; cbn.
  - rewrite lookup_insert_ne by done. by rewrite Hm.
  - rewrite lookup_insert_eq. cbn. by rewrite insert_insert_eq.
Qed.

Lemma handed_on_table t s status m tty :
  to_hand_on t s status m tty →
  child_table (exec (<[3 := (tty, false)]> (<[4 := (status, false)]> t))) status tty.
Proof.
  intros [Hs Hm Ha Ps Pm]. unfold child_table.
  split_and!.
  - apply exec_lookup. by rewrite lookup_insert_eq.
  - apply exec_lookup. by rewrite lookup_insert_ne, lookup_insert_eq by done.
  - intros fd b [Hl ->]%exec_lookup. apply lookup_insert_Some in Hl as [[_ [= ->]]|[_ Hl]]; [done|].
    apply lookup_insert_Some in Hl as [[<- _]|[_ Hl]]; [done|]. by apply Ps in Hl.
  - intros fd b [Hl ->]%exec_lookup. apply lookup_insert_Some in Hl as [[<- _]|[_ Hl]]; [done|].
    apply lookup_insert_Some in Hl as [[_ [= ->]]|[_ Hl]]; [done|]. by apply Pm in Hl.
Qed.

(** The session child starts with the terminal as its descriptor 3, the status
    pipe as its descriptor 4 and neither anywhere else precisely when neither
    was descriptor 4 of the worker.  A pipe that already is descriptor 4 stays
    close-on-exec and is gone; a terminal that is descriptor 4 is replaced by
    the pipe before it is copied.  The code takes a pipe at 3 and a terminal at
    4 for collisions and only logs them. *)
Theorem child_descriptors_exact (t : FdTable) (s status m tty : Z) :
  to_hand_on t s status m tty →
  ∃ p, spawn_child s (Some m) t = Some p ∧
    (child_table (pc_fds p) status tty ↔ s ≠ 4 ∧ m ≠ 4).
Proof.
  intros Ht. destruct (decide (s = 4)) as [->|Hs4]; [|destruct (decide (m = 4)) as [->|Hm4]].
  - destruct Ht as [Hs Hm Ha Ps Pm]. assert (m ≠ 4) as Hm4 by (by intros ->; simplify_eq).
    unfold spawn_child, child_pre_exec, dup2, set_cloexec, STATUS_FD, TERMINAL_FD.
    rewrite Hs. cbn. rewrite Hm. cbn.
    assert (∀ t' : FdTable, t' !! 4 = Some (status, true) →
      child_table (exec t') status tty ↔ 4 ≠ 4 ∧ m ≠ 4) as Hx.
    { intros t' H4. split; [|tauto]. intros (_ & [H' _]%exec_lookup & _). congruence. }
    destruct (m =? 3) eqn:Hm3.
    + apply Z.eqb_eq in Hm3 as ->. rewrite Hm. cbn. eexists. split; [done|]. apply Hx.
      by rewrite lookup_insert_ne.
    + rewrite lookup_insert_eq. cbn. eexists. split; [done|]. apply Hx.
      by rewrite !lookup_insert_ne.
  - destruct Ht as [Hs Hm Ha Ps Pm].
    unfold spawn_child, child_pre_exec, dup2, set_cloexec, STATUS_FD, TERMINAL_FD.
    rewrite Hs. cbn. rewrite (proj2 (Z.eqb_neq s 4) Hs4), lookup_insert_eq. cbn.
    rewrite lookup_insert_eq. cbn. eexists. split; [done|]. split; [|tauto].
    intros ([H3 _]%exec_lookup & _). rewrite lookup_insert_eq in H3. congruence.
  - eexists. split; [by apply spawn_child_table|]. cbn. split; [done|].
    intros _. by eapply handed_on_table.
Qed.

(** The status pipe: what its reader is told, by what was written and by
    whether a write end is open.  One read takes at most 512 bytes. *)
Definition STATUS_BYTES : nat := 512.
Definition pipe_answer (written : string) (open_ends : bool) : StatusAnswer :=
  if str_is_empty written then
    if open_ends then mkStatusAnswer 0 false 0 EmptyString
    else mkStatusAnswer 1 false 0 EmptyString
  else
    let payload := String.substring 0 STATUS_BYTES written in
    mkStatusAnswer 1 false (str_len payload) payload.
Lemma substring_whole n json : (String.length json ≤ n)%nat → String.substring 0 n json = json.
Proof.
  revert n. induction json as [|c json IH]; intros n Hn; [by destruct n|].
  destruct n as [|n]; cbn in *; [lia|]. by rewrite IH by lia.
Qed.
Definition holds (file : Z) (t : FdTable) : bool :=
  existsb (λ x, x.2.1 =? file) (map_to_list t).

Lemma holds_false file t : (∀ fd b, t !! fd ≠ Some (file, b)) → holds file t = false.
Proof.
  intros Hn. unfold holds. apply not_true_iff_false. rewrite existsb_exists.
  intros ([fd [file' b]] & Hin & He). cbn in He. apply Z.eqb_eq in He as ->.
  apply list_elem_of_In, elem_of_map_to_list in Hin. by apply Hn in Hin.
Qed.
Lemma holds_true file t fd b : t !! fd = Some (file, b) → holds file t = true.
Proof.
  intros Hl. unfold holds. apply existsb_exists. exists (fd, (file, b)).
  split; [by apply list_elem_of_In, elem_of_map_to_list|apply Z.eqb_refl].
Qed.

(** C22. The worker learns of the exec exactly when it happens.  With the pipe
    and the terminal handed on as the mapping intends, the status pipe stays
    silent while the child, and the probe it becomes, run; once the probe has
    marked descriptor 4 close-on-exec and the session is executed, no process
    of the session holds the pipe, and the worker reads success; and what the
    probe writes before that, because the exec failed, is read as the failure
    it describes. *)
Theorem exec_is_seen `{SerdeRoundtrip F} (t : FdTable) (s status m tty : Z)
    (failure : F) (json : string) :
  to_hand_on t s status m tty → s ≠ 4 → m ≠ 4 →
  serde_to_vec failure = Some json → str_is_empty json = false →
  str_len json ≤ 512 →
  ∃ child probe, spawn_child s (Some m) t = Some child ∧
    set_cloexec STATUS_FD true (pc_fds child) = Some probe ∧
    read_exec_status (F:=F) (pipe_answer EmptyString (holds status (pc_fds child)))
      = Err ScTimedOut ∧
    read_exec_status (F:=F) (pipe_answer EmptyString (holds status probe)) = Err ScTimedOut ∧
    read_exec_status (F:=F) (pipe_answer EmptyString (holds status (exec probe)))
      = Ok ExecSuccess ∧
    read_exec_status (pipe_answer json (holds status probe)) = Ok (ExecFailure failure).
Proof.
  intros Ht Hs4 Hm4 Hj He Hb. rewrite (spawn_child_table t s status m tty Ht Hs4 Hm4).
  destruct (handed_on_table t s status m tty Ht) as (H3 & H4 & Hx & _).
  set (t1 := exec _) in *. exists (mkProcess ∅ t1), (<[4 := (status, true)]> t1).
  unfold set_cloexec, STATUS_FD. cbn [pc_fds]. rewrite H4.
  rewrite (holds_true status t1 4 false) by done.
  rewrite (holds_true status (<[4 := (status, true)]> t1) 4 true) by (by rewrite lookup_insert_eq).
  rewrite (holds_false status (exec (<[4 := (status, true)]> t1))).
  2: { intros fd b [Hl ->]%exec_lookup.
       apply lookup_insert_Some in Hl as [[_ [=]]|[Hn Hl]]. apply Hx in Hl. congruence. }
  split_and!; [done..|]. unfold pipe_answer, read_exec_status. rewrite He.
  rewrite substring_whole by (unfold str_len, STATUS_BYTES in *; lia). cbn.
  assert (0 < str_len json).
  { destruct json; [done|]. unfold str_len. cbn. lia. }
  destruct (Z.eqb_spec (str_len json) 0); [lia|]. destruct (Z.ltb_spec (str_len json) 0); [lia|].
  by rewrite (serde_roundtrip failure json Hj).
Qed.
