(* ===== verification/Backends.v ===== *)
(** * From a login request to the running session

    The login backends of the daemon ([niralisd/src/login_backend/local.rs],
    [pam_worker.rs]), the launchers they use ([SessionLauncher] of
    [niralis-session/src/types.rs], its mock and the worker launcher of
    [interface_tests_helpers.rs] and [public_api.rs]) and the request that is
    checked before anything happens.  With the PAM backend over a launch and
    the supervisor loop, the daemon's handler, the launch and the loop are one
    program: what it answers the greeter is tied to what runs. *)

From stdpp Require Import base gmap sets list strings.
From Stdlib Require Import ZArith Lia.
From S2P Require Import Prelude Text Paths DirFs RecoveryTypes LedgerTaxonomy.
From S2P Require Import Ledger LedgerDurability PreviousBoot PreCommit SameBoot.
From S2P Require Import Admission AdminRecovery Protocol Conversation Login.
From S2P Require Import Daemon WorkerRecord Supervisor SupervisorSafety.
From S2P Require Import SupervisorExits SupervisorLedger SupervisorProtocol.
From S2P Require Import Launch LaunchSafety WorkerIdentity.
#[local] Open Scope niralis_scope.

(** ** The request *)

Record UnauthenticatedLoginRequest := mkLoginRequest {
  ul_username : string;
  ul_session : SessionInfo;
  ul_attempt_id : Z;
  ul_launch_plan : option SessionExecPlan;
  ul_pam_service : option string;
  ul_connection : option LoginRequestBinding;
}.
(** [username.trim() == username]; a [String] is valid UTF-8. *)
Definition trimmed (s : string) : bool :=
  match str_from_utf8 s with Some t => bool_decide (trim t = t) | None => false end.
Definition validate_login_request (r : UnauthenticatedLoginRequest) : result () SessionError :=
  if str_is_empty (ul_username r) || (256 <? str_len (ul_username r))
     || str_contains_byte NUL (ul_username r) || negb (trimmed (ul_username r))
     || str_is_empty (si_id (ul_session r)) || (256 <? str_len (si_id (ul_session r)))
     || str_contains_byte NUL (si_id (ul_session r)) || (ul_attempt_id r =? 0)
  then Err WorkerProtocolFailed
  else match ul_launch_plan r with
  | Some plan => if validate_exec_plan plan then Ok () else Err WorkerProtocolFailed
  | None => Err WorkerProtocolFailed
  end.

Definition exec_plan_of (spec : ResolvedSessionLaunchSpec) : SessionExecPlan :=
  mkExecPlan (ls_source_path spec) (ls_executable spec) (ls_argv spec).

(** ** The worker launcher *)

(** [WorkerPamSessionRequest] as far as the login determines it; the launch
    fills in the worker's identity and the admission. *)
Record WorkerPamSessionRequest := mkPamSessionRequest {
  ps_request : StartedSession;
  ps_connection : option LoginRequestBinding;
  ps_launch_plan : SessionExecPlan;
  ps_pam_service : string;
  ps_password : string;
}.
(** [expected_started_session]: user and session of the request. *)
Definition expected_started_session (r : UnauthenticatedLoginRequest) : StartedSession :=
  mkStarted (ul_username r) (ul_session r).
Definition pam_session_request (r : UnauthenticatedLoginRequest) (plan : SessionExecPlan)
    (secret : string) : WorkerPamSessionRequest :=
  mkPamSessionRequest (expected_started_session r) (ul_connection r) plan
    (match ul_pam_service r with Some service => service | None => "niralis"%string end) secret.

Section WorkerLauncher.
Context `{SerdeJson PersistentRecoveryRecord} `{SerdeJson PreCommitRuntimeRecord}.
Context `{SerdeJson PamPromptResponse}.

(** [begin_login_with_conversation] on a supervisor, with the environment of
    the launch as a function of what the worker is sent. *)
Definition begin_login_with_conversation (hosts : WorkerPamSessionRequest → LaunchHost)
    (r : UnauthenticatedLoginRequest) (secret : string) : LN StartedSession :=
  sr_lift (validate_login_request r) ;;;
  let* plan := sr_lift (ok_or (ul_launch_plan r) WorkerProtocolFailed) in
  let request := pam_session_request r plan secret in
  let* started := start_pam_worker (hosts request) (ps_request request)
                    (ps_connection request) in
  sr_ret started.1.

(** ** The daemon's PAM backend *)

Definition pam_login_request (pam_service : string) (attempt : LoginAttempt)
    : UnauthenticatedLoginRequest :=
  mkLoginRequest (la_username attempt) (la_session attempt) (la_attempt_id attempt)
    (Some (exec_plan_of (la_launch_spec attempt))) (Some pam_service) (la_connection attempt).
(** [PamWorkerLoginBackend::login]. *)
Definition pam_worker_login (hosts : WorkerPamSessionRequest → LaunchHost)
    (pam_service : string) (attempt : LoginAttempt)
    : SR Launch LoginBackendError StartedSession :=
  sr_map_err map_session_error
    (begin_login_with_conversation hosts (pam_login_request pam_service attempt)
       (la_password attempt)).
End WorkerLauncher.

(** ** The mock launcher and the local backend *)

(** [Authenticator]: the canonical name of the user. *)
Class Authenticator (A : Type) :=
  authenticate_user : A → string → string → option string.
Inductive MockAuthenticator := mkMockAuthenticator.
#[export] Instance mock_authenticate : Authenticator MockAuthenticator :=
  λ _ username password,
    if str_eqb username "test" && str_eqb password "test" then Some username else None.

Section Local.
Context {A : Type} `{Authenticator A}.

(** [UnboundLocalBackend::authenticate]. *)
Definition local_authenticate (a : A) (r : UnauthenticatedLoginRequest) (secret : string)
    : result string SessionError :=
  ok_or (authenticate_user a (ul_username r) secret) AuthenticationFailed.
(** [MockSessionLauncher::begin_login] over that backend. *)
Definition mock_begin_login (a : A) (r : UnauthenticatedLoginRequest) (secret : string)
    : result StartedSession SessionError :=
  match validate_login_request r with
  | Err e => Err e
  | Ok _ => match local_authenticate a r secret with
            | Ok username => Ok (mkStarted username (ul_session r))
            | Err e => Err e
            end
  end.
(** [LocalLoginBackend::login]. *)
Definition local_login {X} (a : A) (attempt : LoginAttempt)
    : SR X LoginBackendError StartedSession :=
  sr_lift (map_err map_session_error
    (mock_begin_login a
       (mkLoginRequest (la_username attempt) (la_session attempt) (la_attempt_id attempt)
          (Some (exec_plan_of (la_launch_spec attempt))) None (la_connection attempt))
       (la_password attempt))).
End Local.

(** ** What a launch keeps *)

(** The loop's invariants: the seat runs the supervised worker, and every
    record it keeps is one the next daemon loads. *)
Definition good (l : SupervisorLoopState) : Prop := seat_inv l ∧ loop_records_ok l.
Definition fair (s s' : Launch) : Prop := good (ln_loop s) → good (ln_loop s').
#[export] Instance fair_preorder : PreOrder fair.
Proof. split; [intros s Hs; exact Hs|]. intros s s1 s2 H1 H2 Hs. auto. Qed.

Lemma good_keyed l : good l → loop_keyed l.
Proof.
  intros [_ Hr]. unfold loop_records_ok, loop_keyed in *. destruct (sl_ledger l) as [[l'|]|]; [|done..].
  intros id r Hi. by apply Hr in Hi as [-> _].
Qed.

Section Fair.
Context `{SerdeJson PersistentRecoveryRecord} `{SerdeJson PreCommitRuntimeRecord}.
Context `{SerdeJson PamPromptResponse}.
Context (host : LaunchHost).

Lemma reap_good h l : good l → good (reap_exited_workers h l).
Proof. intros [H1' H2']. split; [by apply reap_from_seat_inv|by apply reap_from_keeps]. Qed.
Lemma calm_good {A} (m : SL A) l :
  sr_keeps calm m → sr_keeps keeps_records m → good l → good (m l).1.
Proof. intros Hc Hk [H1' H2']. split; [by eapply calm_seat_inv; [apply Hc|]|by apply (Hk l)]. Qed.
Lemma call_fair {A} (f : SupervisorHost → SL A) :
  (∀ h, sr_keeps calm (f h)) → (∀ h, sr_keeps keeps_records (f h)) →
  sr_keeps fair (call host f).
Proof.
  intros Hc Hk s Hs. unfold call. destruct (cl_delivered _); [|done].
  pose proof (calm_good (f (cl_host (lh_calls host (ln_calls s)))) (ln_loop s) (Hc _) (Hk _) Hs)
    as Hg.
  destruct (f _ _) as [l r]. by apply reap_good.
Qed.
Lemma fair_same s s' : ln_loop s' = ln_loop s → fair s s'.
Proof. intros E Hs. by rewrite E. Qed.

Section Events.
Context (worker_id : string) (worker_pid generation attempt_id : Z).

Lemma on_event_fair e phase control :
  sr_keeps fair (on_event host worker_id worker_pid generation attempt_id e phase control).
Proof.
  unfold on_event. destruct (le_response e) as [response|]; [|by intros s].
  destruct (negb _); [by intros s|]. destruct (we_message response); try by intros s.
  - intros s. unfold on_pam_prompt. destruct (negb _); [done|].
    destruct (forward_pam_prompt _ _ _ _ _ _). by apply fair_same.
  - unfold on_preparing. destruct (_ && _); by intros s.
  - unfold on_scope_prepared. destruct (_ || _); [by intros s|].
    apply keeps_bind; [apply _| |intros _].
    { apply call_fair; intros h; [apply record_prepared_scope_calm|apply record_prepared_scope_keeps]. }
    destruct (le_control_sent e); [|by intros s].
    apply keeps_bind; [apply _|by intros s; apply fair_same|intros _].
    apply keeps_bind; [apply _| |by intros _ s].
    apply call_fair; intros h; [apply mark_payload_registered_calm|apply mark_payload_registered_keeps].
  - unfold on_release_ready. destruct phase as [| |identity nonce]; try by intros s.
    destruct (negb _); [by intros s|]. destruct control as [transaction|]; [|by intros s].
    destruct (release_request _ _ _ _ _ _) as [release_nonce|]; [|by intros s].
    apply keeps_bind; [apply _| |intros token].
    { apply call_fair; intros h; [apply begin_release_calm|apply begin_release_keeps]. }
    apply keeps_bind; [apply _| |intros _].
    { apply call_fair; intros h; [apply complete_release_calm|apply complete_release_keeps]. }
    destruct (le_control_sent e); [|by intros s].
    apply keeps_bind; [apply _|by intros s; apply fair_same|by intros _ s].
Qed.

(** The launch ends its wait with an answer of the reader. *)
Lemma wait_launch_response_heard events phase control s s' response phase' :
  wait_launch_response host worker_id worker_pid generation attempt_id events phase control s
    = (s', Ok (Ok response, phase')) →
  fair s s' ∧ ∃ e, e ∈ events ∧ le_response e = Ok response.
Proof.
  revert phase control s. induction events as [|e events IH]; intros phase control s; [done|].
  cbn [wait_launch_response]. intros (s1 & flow & He & Hw)%bind_ok.
  assert (fair s s1) as Hf.
  { pose proof (on_event_fair e phase control s) as Hf. by rewrite He in Hf. }
  destruct flow as [phase1 control1|phase1 response1].
  - apply IH in Hw as (Hf' & e' & Hin & Hr). split; [by etrans|].
    exists e'. split; [by right|done].
  - injection Hw as <- -> <-. split; [done|]. exists e. split; [by left|].
    revert He. clear. unfold on_event.
    destruct (le_response e) as [response'|err]; [|by intros [=]].
    destruct (negb _); [by intros [=]|].
    destruct (we_message response'); try (by intros [= _ _ <-]).
    + unfold on_pam_prompt. destruct (negb _); [by intros [=]|].
      destruct (forward_pam_prompt _ _ _ _ _ _) as [? []]; by intros [=].
    + unfold on_preparing. destruct (_ && _); by intros [=].
    + unfold on_scope_prepared. destruct (_ || _); [by intros [=]|].
      intros (? & ? & _ & He)%bind_ok. destruct (le_control_sent e); [|by injection He].
      apply bind_ok in He as (? & ? & _ & He). by apply bind_ok in He as (? & ? & _ & [=]).
    + unfold on_release_ready. destruct phase; try by intros [=].
      destruct (negb _); [by intros [=]|]. destruct control; [|by intros [=]].
      destruct (release_request _ _ _ _ _ _); [|by intros [=]].
      intros (? & ? & _ & He)%bind_ok. apply bind_ok in He as (? & ? & _ & He).
      destruct (le_control_sent e); [|by injection He].
      by apply bind_ok in He as (? & ? & _ & [=]).
Qed.
End Events.

(** A registration that the loop accepted, and the state the launch left. *)
Definition started_by (registration : RunningRegistration) (expected : StartedSession)
    (worker_id : string) (s' : Launch) : Prop :=
  rr_session registration = expected ∧ rr_worker_id registration = worker_id ∧
  ∃ h l l', good l ∧ register_running h registration l = (l', Ok ()) ∧
    ln_loop s' = reap_exited_workers h l'.
(** The worker said it was ready and ended well. *)
Definition ready_heard (expected : StartedSession) : Prop :=
  ∃ e response, e ∈ lh_events host ∧ le_response e = Ok response ∧
    we_message response = WrReady expected.

Lemma drop_guard_Err {A} guard e s s' (a : A) :
  drop_guard host guard e s ≠ (s', Ok a).
Proof. done. Qed.
Lemma finish_started_Ok guard response phase expected id g a s s' r :
  good (ln_loop s) →
  finish_started host guard response phase expected id g a s = (s', Ok r) →
  r = (expected, id) ∧ ∃ registration, started_by registration expected id s'.
Proof.
  intros Hg. unfold finish_started. destruct (lh_writer host); [|done].
  destruct response; try done. destruct (_ || _); [done|]. destruct phase; try done.
  destruct (negb _); [done|]. destruct (lh_alive host) as [[]|]; try done.
  destruct (consume_authenticated_conversation _ _) as [transaction' [[]|e]]; [|done].
  intros (s1 & [] & [= <-] & Hr)%bind_ok.
  apply bind_ok in Hr as (s2 & rid & Hr & [= <- <-]). unfold register in Hr.
  destruct (lh_register_wait host) as [[|]|]; try done.
  apply bind_ok in Hr as (s3 & [] & Hc & [= <- <-]). split; [done|].
  unfold call in Hc. destruct (cl_delivered _); [|done].
  destruct (register_running _ _ _) as [l' r] eqn:HR. injection Hc as <- Hr.
  destruct (cl_answered _); [|done]. subst r. eexists. split; [|split].
  3: { eexists _, _, l'. split; [exact Hg|]. split; [exact HR|done]. }
  all: done.
Qed.
Lemma finish_ended_Ok guard response expected s s' r :
  finish_ended host guard response expected s = (s', Ok r) →
  r.1 = expected ∧ ∃ e, response = Ok e ∧ we_message e = WrReady expected.
Proof.
  unfold finish_ended. assert (∀ ok err, complete_with host guard ok err s ≠ (s', Ok r)) as Hcw.
  { intros ok err. unfold complete_with. by destruct (abort_guard host guard s). }
  destruct response as [e|]; [|by intros ?%Hcw].
  destruct (lh_wait_child host) as [status|]; [|by intros ?%Hcw].
  assert ((match status with
    | None => drop_guard host guard WorkerProtocolFailed
    | Some status =>
        abort_guard host (mkGuard (pg_transaction guard) true (Some status)) ;;;
        let* session := sr_lift (map_response e status expected) in
        sr_ret (session, "completed"%string)
    end) s = (s', Ok r) →
    r.1 = expected ∧ ∃ e', Ok (E:=SessionError) e = Ok e' ∧ we_message e' = WrReady expected) as Hx.
  { destruct status as [status|]; [|done]. intros (s1 & [] & _ & Hm)%bind_ok.
    apply bind_ok in Hm as (s2 & session & [-> Hm]%lift_ok & [= <- <-]).
    unfold map_response in Hm. destruct (negb _); [done|].
    destruct (we_message e) eqn:He; try done; [|by destruct (negb _)..].
    destruct (exit_success status); [|done]. cbn in Hm. case_bool_decide as Hs; [|done].
    injection Hm as <-. subst. eauto. }
  destruct (lh_writer host) as [|[]]; try (by intros ?%Hcw); exact Hx.
Qed.
Lemma run_pending_Ok transaction expected id pid g a s s' r :
  good (ln_loop s) → run_pending host transaction expected id pid g a s = (s', Ok r) →
  r.1 = expected ∧
  ((∃ registration, started_by registration expected id s') ∨ ready_heard expected).
Proof.
  intros Hg. unfold run_pending.
  destruct (wait_launch_response _ _ _ _ _ _ _ _ _) as [s1 [[[response|e] phase]|e]] eqn:Hw; [| |done].
  - apply wait_launch_response_heard in Hw as (Hf & e & Hin & He).
    specialize (Hf Hg). destruct (is_started _).
    + intros [-> Hr]%finish_started_Ok; [|done]. by split; [|left].
    + intros [Hr (e' & [= <-] & Hm)]%finish_ended_Ok. split; [done|]. right. by exists e, response.
  - by intros [_ (? & ? & _)]%finish_ended_Ok.
Qed.

Lemma good_admission w s :
  aw_controller w = aw_controller (sl_admission (ln_loop s)) → good (ln_loop s) →
  good (ln_loop (set_loop_admission w s)).
Proof. intros E [Hs Hr]. split; [|exact Hr]. unfold seat_inv in *. cbn. by rewrite E. Qed.
Lemma prepare_transaction_good lease id pid connection sel s s' prepared :
  good (ln_loop s) →
  prepare_transaction host lease id pid connection sel s = (s', Ok prepared) →
  good (ln_loop s').
Proof.
  intros Hg. unfold prepare_transaction.
  destruct (attach_backend _ _ _ _) as [w1 [b|[e t]]] eqn:HA.
  2: { unfold give_back. by destruct ((take_lease t).2). }
  apply attach_backend_carries in HA as (E1 & _ & HC).
  destruct (authentication _ _ b w1) as [w2 [p|[e b']]] eqn:HAu.
  2: { unfold give_back. by destruct ((take_lease (ob_transaction b')).2). }
  eapply authentication_carries in HAu as (E2 & _); [|exact HC].
  destruct (authenticated _ p w2) as [w3 a] eqn:H3'. unfold authenticated in H3'.
  destruct (update_lease _ _ _ _ _ w2) as [[w2' t2] r2] eqn:HU2. injection H3' as <- <-.
  apply update_lease_spec in HU2 as (E3 & _).
  destruct (prepare _ _ w2') as [w4 q] eqn:H4'. unfold prepare in H4'.
  destruct (update_lease _ _ _ _ _ w2') as [[w3' t3] r3] eqn:HU3. injection H4' as <- <-.
  apply update_lease_spec in HU3 as (E4 & _).
  destruct (permit_validate_expected _ _ _).
  - intros [= <- _]. apply good_admission; [congruence|done].
  - unfold give_back. by destruct ((take_lease _).2).
Qed.

Lemma start_pam_worker_Ok expected connection s s' r :
  good (ln_loop s) → start_pam_worker host expected connection s = (s', Ok r) →
  r.1 = expected ∧
  ((∃ id registration, lh_endpoint host = Ok id ∧ started_by registration expected id s') ∨
   ready_heard expected).
Proof.
  intros Hg. unfold start_pam_worker. intros (s0 & id & [-> Hid]%lift_ok & Hs)%bind_ok.
  apply bind_ok in Hs as (s1 & lease & Hc & Hs).
  assert (good (ln_loop s1)) as Hg1.
  { assert (fair s (call host (λ h, loop_reserve_seat h id) s).1) as Hf.
    { apply call_fair; intros h; [apply loop_reserve_seat_calm|].
      intros l. apply on_admission_keeps. }
    rewrite Hc in Hf. by apply Hf. }
  destruct (lh_spawn host) as [pid|e]; [|done].
  apply bind_ok in Hs as (s2 & prepared & Hp & Hs).
  apply prepare_transaction_good in Hp as Hg2; [|done].
  apply bind_ok in Hs as (s3 & [prepared' admission] & [-> _]%lift_ok & Hs).
  apply bind_ok in Hs as (s4 & pending_lease & Hb & Hs).
  assert (good (ln_loop s4)) as Hg4.
  { match type of Hb with call host ?f s2 = _ => assert (fair s2 (call host f s2).1) as Hf end.
    { apply call_fair; intros h; [apply begin_pending_calm|apply begin_pending_keeps]. }
    rewrite Hb in Hf. by apply Hf. }
  apply run_pending_Ok in Hs as [Hr [[registration Hx]|Hx]]; [| |done]; (split; [done|]).
  - left. by exists id, registration.
  - by right.
Qed.
End Fair.

(** ** What the daemon's answer means *)

(** The daemon whose backend is PAM's, over the supervisor. *)
Definition pam_daemon `{SerdeJson PersistentRecoveryRecord} `{SerdeJson PreCommitRuntimeRecord}
    `{SerdeJson PamPromptResponse} (hosts : WorkerPamSessionRequest → LaunchHost)
    (pam_service : string) (users : result (list UserInfo) DiscoveryError)
    (sessions : result (list SessionInfo) DiscoveryError)
    (resolve : string → result (option ResolvedSessionLaunchSpec) DiscoveryError)
    (status : DaemonStatus) : DaemonHost Launch :=
  mkDaemonHost Launch (pam_worker_login hosts pam_service) users sessions resolve status.

(** C6. A login that is answered with success is a session that runs.  When the
    daemon with the PAM backend answers a login request with [LoginOk], on
    whatever state its history has left, then the session is the one discovery
    resolved, with an executable plan that passed validation, and was started
    with exactly that plan, the configured service, the user, password and
    connection of the request; and the supervisor loop accepted, during this
    request, the registration of a worker for this user and session: the seat
    was running nothing, from then on it ran the session of that worker, whose
    scope was registered, and the state [started] was on disk.  The one other
    answer a launch takes for success is a worker that says [Ready] and ends,
    which a worker says to a request that asks for no PAM session. *)
Theorem login_ok_is_a_running_session `{SerdeJson PersistentRecoveryRecord}
    `{SerdeJson PreCommitRuntimeRecord} `{SerdeJson PamPromptResponse}
    hosts pam_service users sessions resolve status others now_check now_failure
    (username password id : string) (connection : option LoginRequestBinding)
    (h h' : DaemonHandler Launch) (session : SessionInfo) :
  good (ln_loop (hd_world h)) →
  handle_login_with_binding (pam_daemon hosts pam_service users sessions resolve status)
    others now_check now_failure username password id connection h = (h', LoginOk session) →
  ∃ spec, resolve id = Ok (Some spec) ∧ session = ls_session spec ∧
    validate_exec_plan (exec_plan_of spec) = true ∧
    let expected := mkStarted username session in
    let launch := hosts (mkPamSessionRequest expected connection (exec_plan_of spec)
                           pam_service password) in
    (∃ registration h l l', rr_session registration = expected ∧
       lh_endpoint launch = Ok (rr_worker_id registration) ∧
       register_running h registration l = (l', Ok ()) ∧
       session_registered registration l l' ∧
       ln_loop (hd_world h') = reap_exited_workers h l') ∨
    ready_heard launch expected.
Proof.
  intros Hg. unfold handle_login_with_binding.
  destruct (handler_is_limited username now_check h) as [h1 limited] eqn:Hl.
  assert (hd_world h1 = hd_world h) as Hw.
  { unfold handler_is_limited in Hl. destruct (hd_limiter h); [|by injection Hl as <- _].
    destruct (is_limited _ _ _). by injection Hl as <- _. }
  destruct limited; [done|]. cbn [dh_resolve_launch_spec pam_daemon].
  destruct (resolve id) as [[spec|]|] eqn:Hr; [|done..].
  destruct (next_login_attempt_id h1) as [h2 attempt] eqn:Ha.
  assert (hd_world h2 = hd_world h) as Hw2.
  { rewrite <- Hw. unfold next_login_attempt_id in Ha.
    by destruct (hd_next_attempt_id h1 =? 0); injection Ha as <- _. }
  unfold backend_login. cbn [dh_login pam_daemon].
  destruct (pam_worker_login _ _ _ _) as [x [started|[]]] eqn:Hb; try done.
  intros [= <- <-]. exists spec. split; [done|]. split; [done|].
  unfold pam_worker_login in Hb. apply map_err_ok in Hb.
  unfold begin_login_with_conversation in Hb.
  apply bind_ok in Hb as (x0 & [] & [-> Hv]%lift_ok & Hb).
  apply bind_ok in Hb as (x1 & plan & [-> [= <-]]%lift_ok & Hb).
  apply bind_ok in Hb as (x2 & r & Hb & [= <- _]).
  apply start_pam_worker_Ok in Hb as [_ Hs]; [|by rewrite Hw2].
  split.
  { unfold validate_login_request in Hv. destruct (_ || _); [done|]. cbn in Hv.
    by destruct (validate_exec_plan _). }
  cbv zeta. destruct Hs as [(wid & registration & Hid & He & Hwid & sh & l & l' & Hgl & HR & Hloop)|Hs];
    [left|by right].
  exists registration, sh, l, l'. split_and!; [done| |done| |done].
  - rewrite Hwid. exact Hid.
  - apply register_running_Ok with (host := sh); [apply Hgl|by apply good_keyed|done].
Qed.

(** A request that does not pass its validation has no effect: no seat is
    reserved and no worker started. *)
Theorem invalid_login_has_no_effect `{SerdeJson PersistentRecoveryRecord}
    `{SerdeJson PreCommitRuntimeRecord} `{SerdeJson PamPromptResponse}
    hosts pam_service (attempt : LoginAttempt) (s : Launch) :
  validate_login_request (pam_login_request pam_service attempt) ≠ Ok () →
  pam_worker_login hosts pam_service attempt s = (s, Err LbInfrastructureFailed).
Proof.
  intros Hv. unfold pam_worker_login, sr_map_err, begin_login_with_conversation, sr_bind, sr_lift.
  destruct (validate_login_request _) as [[]|e] eqn:E; [done|].
  unfold validate_login_request in E. destruct (_ || _); [by injection E as <-|].
  destruct (ul_launch_plan _) as [plan|]; [|by injection E as <-].
  destruct (validate_exec_plan plan); [done|by injection E as <-].
Qed.
