(* ===== verification/LoginRuns.v ===== *)
(** * Between the processes, run

    A launch whose worker gives its scope back: on a machine where the unit has
    ended and its directory is gone, and on two where the verifier does less
    than the rest of the supervisor: one whose systemd reports an unknown
    invocation by the name it has for it, and one where a process is left in a
    directory below the scope's.  A worker that says it is ready to release its
    scope and then that the authentication failed, on a pipe that breaks; a
    worker that takes over its channel; a session child whose exec is seen.
    And the daemon with the PAM backend over the launch of [LaunchRuns]: a
    login that is answered with success. *)

From stdpp Require Import base gmap sets list strings pretty.
From Stdlib Require Import ZArith Lia.
From S2P Require Import Prelude Text DirFs RecoveryTypes LedgerTaxonomy Ledger.
From S2P Require Import Codec LedgerDurability PreviousBoot PreCommit SameBoot.
From S2P Require Import Admission AdminRecovery WorkerRecord CgroupState.
From S2P Require Import HostWorld Scenarios Protocol Conversation Login Daemon.
From S2P Require Import Client Witnesses WireRuns Supervisor SupervisorSafety.
From S2P Require Import SupervisorLedger SupervisorProtocol SupervisorRuns.
From S2P Require Import Launch LaunchRuns RecoveryRuns ScopeRelease.
From S2P Require Import WorkerIdentity WorkerChild WorkerIo ProcessFds Backends.
#[local] Open Scope niralis_scope.

(** ** A launch whose scope is registered *)

Definition registered_entry : PendingWorkerLifecycle :=
  mkPendingWorker
    (mkWorkerRecord "w1" 10 1 "s" "u" None (PayloadRegistered session_payload "n1"))
    (Healthy 10) ReleaseNotRequested 1 false.
Definition registered_launch : Launch :=
  mkLaunch (set_ledger None (set_pending [registered_entry] launched_loop)) 0
    (mkRelay None []) [] false.
Definition registered_phase : PendingLaunchPhase :=
  LaunchScopeRegistered session_identity "n1".

Definition release_event : LaunchEvent :=
  mkLaunchEvent (Ok (mkWorkerEnvelope 14 (WrPayloadScopeReleaseReady "w1"))) true
    (Some (mkControlEnvelope 7 (WcPayloadScopeReleaseRequested
       (from_worker (transaction_at "scope_prepared") "scope_release_requested" 2)
       "w1" 10 "n1" "r1" session_identity true)))
    (ScopeRecoveryRequired VerificationUnavailable) None 0 0 (Ok ()).
Definition release_run (h : HostView) : Launch :=
  (on_event (launch_host [] None) "w1" 10 1 1
     (with_systemd_verifier (launch_host [] None) 50 (start_world (λ _, h)) registered_phase
        release_event) registered_phase (Some (transaction_at "scope_prepared"))
     registered_launch).1.
Definition verdict (h : HostView) : ScopeReleaseVerification :=
  (verify 50 session_identity 100 (start_world (λ _, h))).2.

(** The unit has ended, and its directory is gone. *)
Definition ended_machine : HostView := machine true "inactive" CgMissing false 1 4.

Lemma released_scope_was_shown_witness :
  let w := start_world (λ _, ended_machine) in
  ln_control (release_run ended_machine) =
    [WcPayloadScopeReleased
       (from_worker (transaction_at "scope_prepared") "scope_released" 3) "w1" 10 "n1" "r1"] ∧
  ∃ identity nonce,
    registered_phase = LaunchScopeRegistered identity nonce ∧ validate_scope identity = true ∧
    50 < 100 ∧ asked w (verify 50 identity 100 w).1 ∧
    shown_released w (verify 50 identity 100 w).1 identity.
Proof.
  split; [vm_compute; reflexivity|].
  apply (released_scope_was_shown (launch_host [] None) "w1" 10 1 1 50
    (start_world (λ _, ended_machine)) release_event registered_phase
    (Some (transaction_at "scope_prepared")) registered_launch).
  left. exists (WcPayloadScopeReleased
    (from_worker (transaction_at "scope_prepared") "scope_released" 3) "w1" 10 "n1" "r1").
  split; [|split; [|reflexivity]].
  - vm_compute. left.
  - intros H%elem_of_nil. exact H.
Defined.

(** ** Where the verifier does less *)

(** systemd's own name for an invocation it does not know is not among the
    names the verifier takes for absence, although the recovery of the
    supervisor does: on a machine where the unit and its directory are gone,
    a release that was done is reported as one that could not be verified. *)
Example forgotten_unit_is_unverified :
  verdict quiet_machine = ScopeRecoveryRequired VerificationUnavailable ∧
  (resolve_invocation invocation_hex (start_world (λ _, quiet_machine))).2 = Ok None ∧
  read_supervisor_boundary_state (hv_cgroups quiet_machine) group_path = Ok BoundaryAbsent.
Proof. vm_compute. auto. Qed.

(** A process in a directory below the scope's. *)
Definition nested_dir : CgroupDir :=
  mkCgroupDir (Ok ("populated 1" +:+ newline)) (Ok EmptyString)
    (EntryDir populated_dir EntriesEnd).
Definition nested_machine : HostView := machine true "failed" (CgDirectory nested_dir) false 1 4.
(** The verifier reads the members of the scope's own directory and no other:
    the scope is reported released while the reading the rest of the
    supervisor relies on finds it populated. *)
Example nested_process_is_overlooked :
  verdict nested_machine = ScopeReleased ∧
  read_supervisor_boundary_state (hv_cgroups nested_machine) group_path = Ok BoundaryPopulated.
Proof. vm_compute. auto. Qed.

Section Pipes.
(** ** A serializer of the two messages *)

#[local] Instance line_WorkerEnvelope : SerdeJson WorkerEnvelope := {
  serde_to_vec e :=
    if we_version e =? WORKER_PROTOCOL_VERSION then
      match we_message e with
      | WrAuthenticationFailed => Some "failed"%string
      | WrPayloadScopeReleaseReady id => Some ("release " +:+ id)
      | _ => None
      end
    else None;
  serde_from_slice bytes :=
    if str_eqb bytes "failed" then Some (worker_envelope WrAuthenticationFailed)
    else if String.prefix "release " bytes
    then Some (worker_envelope (WrPayloadScopeReleaseReady
                 (String.substring 8 (String.length bytes - 8) bytes)))
    else None;
}.
#[local] Instance line_roundtrip : SerdeRoundtrip WorkerEnvelope.
Proof.
  intros [v m] bytes. cbn [serde_to_vec line_WorkerEnvelope we_version we_message].
  destruct (Z.eqb_spec v WORKER_PROTOCOL_VERSION) as [->|]; [|done].
  destruct m; try done; intros [= <-]; [|done].
  cbn [serde_from_slice line_WorkerEnvelope].
  assert (String.substring 8 (String.length ("release " +:+ worker_id) - 8)
            ("release " +:+ worker_id) = worker_id) as ->.
  { change (String.substring 0 (String.length worker_id - 0) worker_id = worker_id).
    apply substring_whole. lia. }
  by destruct worker_id.
Qed.

Definition said : list WorkerResponse :=
  [WrPayloadScopeReleaseReady "w1"; WrAuthenticationFailed; WrPayloadScopeReleaseReady "w2"].

(** The second line breaks off. *)
Lemma launcher_hears_the_worker_witness :
  let p := (write_messages said (mkPipe [] [None; None; None; Some 3%nat])).1 in
  reader_events (take 100 (pi_sent p))
    = [Ok (worker_envelope (WrPayloadScopeReleaseReady "w1")); Err WorkerProtocolFailed] ∧
  ∃ heard, heard `prefix_of` through_end said ∧
    (reader_events (take 100 (pi_sent p)) = Ok ∘ worker_envelope <$> heard ∧ ended heard ∧
       heard = through_end said ∨
     reader_events (take 100 (pi_sent p))
       = (Ok ∘ worker_envelope <$> heard) ++ [Err WorkerProtocolFailed]) ∧
    (Err WorkerIoFailed = Ok () → (length (pi_sent p) ≤ 100)%nat → heard = through_end said).
Proof.
  split; [vm_compute; reflexivity|].
  apply (launcher_hears_the_worker said [None; None; None; Some 3%nat]
    (write_messages said (mkPipe [] [None; None; None; Some 3%nat])).1 (Err WorkerIoFailed) 100).
  - repeat constructor; (eexists; split; [reflexivity|]; vm_compute; auto; try done).
  - vm_compute. reflexivity.
Defined.

(** ** A worker and its channel *)

Definition launcher_fds : FdTable :=
  {[0 := (100, false); 1 := (101, false); 2 := (102, false); 3 := (7, true); 5 := (8, true)]}.
Definition channel_host : SocketHost :=
  mkSocketHost (λ file, if file =? 8 then Ok SOCK_STREAM else Err 88) (λ _, Some 0) 0.

Lemma bool_private file (t : FdTable) :
  forallb (λ x, negb (x.2.1 =? file) || x.2.2) (map_to_list t) = true → private file t.
Proof.
  intros Hf fd b Hl. rewrite forallb_forall in Hf. apply elem_of_map_to_list in Hl.
  specialize (Hf (fd, (file, b)) (proj1 (list_elem_of_In _ _) Hl)). cbn in Hf.
  by rewrite Z.eqb_refl in Hf.
Qed.

Lemma channel_handed_over_witness :
  ∃ p p', spawn_worker [("LANG", "C")]%string 5 launcher_fds = Some p ∧
    take_inherited_supervisor_channel channel_host p = (p', Ok 3) ∧
    pc_fds p' !! 3 = Some (8, true) ∧
    pc_env p' = delete WORKER_SUPERVISOR_FD_ENV (worker_environment [("LANG", "C")]%string) ∧
    ∀ fd b, exec (pc_fds p') !! fd ≠ Some (8, b).
Proof.
  apply (channel_handed_over channel_host [("LANG", "C")]%string launcher_fds 5 8).
  - reflexivity.
  - apply bool_private. reflexivity.
  - reflexivity.
  - reflexivity.
Defined.

(** ** A session child and its status pipe *)

Definition worker_fds : FdTable :=
  {[0 := (100, false); 1 := (101, false); 2 := (102, false); 6 := (7, true); 9 := (8, true)]}.
Lemma worker_fds_handed_on : to_hand_on worker_fds 9 8 6 7.
Proof.
  by split; [..|apply bool_private|apply bool_private].
Qed.

#[local] Instance line_failure : SerdeJson string :=
  {| serde_to_vec s := Some s; serde_from_slice s := Some s |}.
#[local] Instance line_failure_roundtrip : SerdeRoundtrip string.
Proof. intros s bytes [= ->]. done. Qed.

Lemma exec_is_seen_witness :
  ∃ child probe, spawn_child 9 (Some 6) worker_fds = Some child ∧
    set_cloexec STATUS_FD true (pc_fds child) = Some probe ∧
    read_exec_status (F:=string) (pipe_answer EmptyString (holds 8 (pc_fds child)))
      = Err ScTimedOut ∧
    read_exec_status (F:=string) (pipe_answer EmptyString (holds 8 probe)) = Err ScTimedOut ∧
    read_exec_status (F:=string) (pipe_answer EmptyString (holds 8 (exec probe)))
      = Ok ExecSuccess ∧
    read_exec_status (pipe_answer "ENOENT" (holds 8 probe)) = Ok (ExecFailure "ENOENT"%string).
Proof.
  apply (exec_is_seen worker_fds 9 8 6 7 "ENOENT"%string "ENOENT"%string).
  - apply worker_fds_handed_on.
  - discriminate.
  - discriminate.
  - reflexivity.
  - reflexivity.
  - vm_compute. discriminate.
Defined.

(** ** A pipe that already is descriptor 4 *)

(** A status pipe at descriptor 4 is not handed on and not reported as a
    collision: the session child has no descriptor 4. *)
Example status_pipe_at_four_is_lost :
  fd_mapping_collision 4 (Some 6) = false ∧
  (p ← spawn_child 4 (Some 6) (<[4 := (8, true)]> (delete 9 worker_fds)); pc_fds p !! 4) = None.
Proof. vm_compute. auto. Qed.
(** A pipe at descriptor 3 is reported as one, and is handed on. *)
Example status_pipe_at_three_is_kept :
  fd_mapping_collision 3 (Some 6) = true ∧
  (p ← spawn_child 3 (Some 6) (<[3 := (8, true)]> (delete 9 worker_fds)); pc_fds p !! 4)
    = Some (8, false).
Proof. vm_compute. auto. Qed.
End Pipes.

(** ** A login, from the daemon to the supervisor *)

Definition login_spec : ResolvedSessionLaunchSpec :=
  mkLaunchSpec (ss_session session_s) "/usr/share/wayland-sessions/s.desktop" "/usr/bin/s" ["s"%string].
Definition login_hosts (request : WorkerPamSessionRequest) : LaunchHost :=
  launch_host (prepared_events ++ [started_event]) None.
Definition login_resolve (id : string)
    : result (option ResolvedSessionLaunchSpec) DiscoveryError :=
  Ok (if str_eqb id "s" then Some login_spec else None).
Definition login_daemon : DaemonHost Launch :=
  pam_daemon login_hosts "niralis" (Ok []) (Ok []) login_resolve
    (mkDaemonStatus "1" "/run/niralis/niralisd.sock" "s" "niralis-greeter").
Definition idle_handler : DaemonHandler Launch :=
  mkHandler (Healthy (limiter_new 3 100)) (Healthy ∅) 1 [] [] fresh_launch.
Definition answered : DaemonHandler Launch * NiralisResponse :=
  handle_login_with_binding login_daemon id 0 0 "u" "secret" "s" None idle_handler.

(** The login succeeds, and the loop supervises one worker. *)
Example login_is_answered :
  answered.2 = LoginOk (ss_session session_s) ∧
  length (sl_children (ln_loop (hd_world answered.1))) = 1%nat.
Proof. vm_compute. auto. Qed.
(** A user name with a space at its end is refused before anything happens. *)
Example untrimmed_login_is_refused :
  let '(h, r) := handle_login_with_binding login_daemon id 0 0 "u " "secret" "s" None idle_handler in
  r = RespError "failed to start session" ∧ hd_world h = fresh_launch.
Proof. vm_compute. auto. Qed.

Lemma login_ok_is_a_running_session_witness :
  answered.2 = LoginOk (ss_session session_s) ∧
  ∃ spec, login_resolve "s" = Ok (Some spec) ∧ ss_session session_s = ls_session spec ∧
    validate_exec_plan (exec_plan_of spec) = true ∧
    let expected := mkStarted "u" (ss_session session_s) in
    let launch := login_hosts (mkPamSessionRequest expected None (exec_plan_of spec)
                                 "niralis" "secret") in
    (∃ registration h l l', rr_session registration = expected ∧
       lh_endpoint launch = Ok (rr_worker_id registration) ∧
       register_running h registration l = (l', Ok ()) ∧
       session_registered registration l l' ∧
       ln_loop (hd_world answered.1) = reap_exited_workers h l') ∨
    ready_heard launch expected.
Proof.
  split; [vm_compute; reflexivity|].
  apply (login_ok_is_a_running_session login_hosts "niralis" (Ok []) (Ok []) login_resolve
    (mkDaemonStatus "1" "/run/niralis/niralisd.sock" "s" "niralis-greeter") id 0 0 "u" "secret" "s" None idle_handler answered.1
    (ss_session session_s)).
  - split; [apply supervisor_new_seat_inv|]. intros i r Hl. cbn in Hl. by rewrite lookup_empty in Hl.
  - vm_compute. reflexivity.
Defined.
